(* ===== verification/_CoqProject ===== *)
-Q . S2P
Prelude.v
Varint.v
Record.v
DbHeader.v
WalFormat.v
Page.v
BtreePage.v
BtreeSpace.v
BtreeInv.v
BtreeCells.v
BtreeDefrag.v
BtreeInsert.v
CellPayload.v
BtreeRefine.v
RwLock.v
Mvcc.v
MvccSpec.v
MvccRefine.v
Steps.v
WalCoord.v
WalSpec.v
WalInv.v
WalAccess.v
WalRules.v
WalCkRules.v
WalOps.v
WalCkOps.v
WalSafety.v
WalStale.v
PageCache.v
PageCacheInv.v
PageCacheSafety.v
LogicalLog.v
LogReader.v
LogParse.v
LogStream.v
LogReplay.v
LogWriter.v
Crc32cRef.v
LogSafety.v
PageAlloc.v
PageAllocIO.v
PageAllocList.v
PageAllocOps.v
PageAllocTake.v
PageAllocFree.v
PageAllocPtrmap.v
PageAllocSafety.v
