(* ===== verification/Prelude.v ===== *)
(** * A verification of the storage core of Turso (limbo)

    The repository holds a database engine compatible with SQLite.  This library models the
    part of it that decides whether data survive: the file formats, the pages of the B-tree,
    the write-ahead log shared by connections, the page cache, the allocation of pages, the
    multi-version store and its logical log.  Paths below are relative to [src/].

    ** The program and its parts

    A statement runs in the virtual machine on B-tree cursors.  A cursor works on pages
    ([PageInner]), which the pager keeps in the page cache and writes to the write-ahead
    log; a page stores cells, a cell stores a record, and all of them use SQLite's varints.
    New pages come from the free list in the file, or from behind its end.
    Connections of one process share the log: a reader pins a snapshot with a read mark, one
    writer appends frames, a checkpoint copies frames into the database file.  The marks and
    the write lock are locks of one atomic word ([TursoRwLock]).  In the multi-version mode
    rows live in chains of versions in memory, transactions run under snapshot isolation,
    and a commit appends a frame of operations to the logical log, which recovery replays.

    ** Files

    - [Prelude] (this file): results with errors and panics ([res]), the state monad [ST]
      with its weakest preconditions [wp] and the tactics [wstep], [rstep], [zbool],
      [bind_step]; integers of a fixed width ([wrap], [is_u], [is_i], [to_signed], checked
      arithmetic), bytes, slices and digits; the hint databases [turso] and [flags].
    - [Varint]: varints of core/storage/sqlite3_ondisk.rs.
    - [Record]: serial types, the serializers and the lazy reader of records
      (core/types.rs, core/storage/sqlite3_ondisk.rs).
    - [DbHeader]: the database header and the validated types in it
      (core/storage/sqlite3_ondisk.rs).
    - [WalFormat]: checksum, header and frames of the write-ahead log, the scan that opens
      a log (core/storage/sqlite3_ondisk.rs, core/storage/wal.rs).
    - [Page], [BtreePage], [CellPayload]: accessors of a page (core/storage/pager.rs), space
      management and cells with their overflow chains (core/storage/btree.rs).  The proofs
      are in [BtreeSpace] (byte ranges), [BtreeInv] (freeblocks), [BtreeCells],
      [BtreeDefrag], [BtreeInsert] (what the bytes mean) and [BtreeRefine] (the page as a
      list of cells).
    - [RwLock]: [TursoRwLock] of core/storage/wal.rs, one step per atomic access.
    - [Mvcc]: versions, transactions, the commit machine and garbage collection of
      core/mvcc/database/mod.rs; [MvccSpec] is snapshot isolation as an abstract transition
      system, [MvccRefine] the simulation between them.
    - [Steps], [WalCoord]: [InProcessWalCoordination] and [WalFile] of core/storage/wal.rs
      as the pager drives them, as programs of atomic accesses; [WalSpec] is what the log
      promises and the invariant, [WalInv] its lemmas, [WalAccess], [WalRules], [WalCkRules]
      the rules of the accesses, [WalOps], [WalCkOps] the operations, [WalSafety] the
      composition of all connections, [WalStale] the schedule in which it fails.
    - [PageCache]: core/storage/page_cache.rs with the page flags of core/storage/pager.rs;
      [PageCacheInv] and [PageCacheSafety] are its proofs.
    - [LogicalLog], [LogReader]: the writer and the streaming reader of
      core/mvcc/persistent_storage/logical_log.rs, its serializer, [Storage] of mod.rs and
      the replay loop of core/mvcc/database/mod.rs.  [LogParse] is the parser as a function
      of bytes, [LogStream] its equivalence with the reader, [LogReplay] the round trip of
      frames, [LogWriter] the framing of transactions, [Crc32cRef] a CRC-32C, [LogSafety]
      the calls, crashes and recoveries together.
    - [PageAlloc]: [allocate_page], [free_page], [read_page], [ptrmap_get] and [ptrmap_put] of
      core/storage/pager.rs, with their states ([Machines]), the pages ([Memory]) and what
      I/O and eviction do ([Environment]).  [PageAllocIO] is reading and waiting,
      [PageAllocList] the bytes of the free list, [PageAllocOps] what holds between two
      waits, [PageAllocTake], [PageAllocFree] and [PageAllocPtrmap] the calls,
      [PageAllocSafety] their sequences.

    ** How code is modelled

    An unsigned or signed integer is a [Z] with its width written at the operation that can
    overflow: a plain [+] or [-] of the source is checked and panics, as in a build with
    overflow checks; wrapping operations wrap.  A buffer, a page and a file are lists of
    bytes.  [Result] is [res]: a value, an error or a panic; [assert!], [expect],
    [unreachable!] and an index out of range are panics.  A method on [&mut self] is a
    function of [ST]; it keeps what was changed before an error.  A state machine that is
    re-entered after I/O is a function that is called again on its saved state.  Shared
    memory is a step relation in which every atomic access, or every call under a mutex, is
    one step.  Recursion that is not structural has fuel, and each such loop has a proof
    that the fuel given is enough (the number of bytes for the parsers, of cells and
    freeblocks for a page, the counters times the pages for the eviction, the bytes of the
    file and the turns of the environment for the streaming reader, the waits an environment
    can cause for the calls of the pager: [block_fuel]), so that running out of
    fuel, which is a panic, is excluded by the theorems.

    Code outside the repository is a parameter.  The intrusive linked list of the page cache
    and CRC-32C are type classes with their documented laws, with instances; the order of a
    hash map's iteration, random numbers, the contents of recycled buffers, the outcome and
    the timing of I/O are arguments.  [CellPayload] takes the numbers of overflow pages as
    an argument too; [PageAllocSafety] is what holds of them.

    ** What is proved

    - Formats.  Varints, records and cells with overflow chains are read back as
      they were written; arbitrary bytes never make the decoders panic, with the
      exceptions that are theorems ([contains_null_panics], [last_value_diverges]).  The
      database header and the frames of both logs are read back too.
    - Pages.  Sequences of insertions, removals and defragmentations of a page refine
      the same operations on a list of cells; free space is accounted exactly.
      [insert_short_cell_corrupts] is the case outside the precondition.
    - Locks.  Mutual exclusion, atomicity and a bound on the steps of [TursoRwLock], in every
      interleaving of any number of threads; [WalCoord] uses it through the atomic calls
      this justifies.
    - Write-ahead log.  Opening a file gives exactly its committed prefix, and a torn
      commit leaves no trace.  In every schedule the calls of the connections form a
      linearizable history of a store of pages with snapshots and one writer, and no
      assertion fails, provided that a checkpoint finds the backfill count it has
      loaded unchanged when it gets its guard ([run_fresh]); [stale_checkpoint_loses_commit]
      and [stale_checkpoint_panics] show that the condition is needed for both and not
      enforced.
    - Page cache.  Map, queue, heap of entries and clock hand stay one ring, no raw pointer
      dangles, protected pages are never dropped, eviction is the SIEVE policy.
    - Multi-version store.  A simulation into snapshot isolation, from which follow
      repeatable reads, first-committer-wins and that commits rest on committed reads.  The
      calls are all those of [client_op], savepoint rollbacks included, the steps of commits,
      rollbacks, dropped commits, the stamps and boundaries of checkpoints and every
      collection; the header is written by the exclusive transaction only ([allowed]).  The
      only reachable call that panics is the drop of a commit that is committed and on which
      transactions depend; [dropped_commit_panics] is a schedule in which it does.  A
      collection changes nothing that a transaction reads, except that a row may have to be
      read from the B-tree, which has it by then.
    - Logical log.  The streaming reader equals the parser of the bytes on every file and
      every schedule of reads, but for a header that is read short, which is an error;
      through commits, torn, refused and abandoned writes, truncations and resets that
      succeed, crashes and recoveries that read the header whole ([log_reach]), what is
      committed is replayed first and in order, and a torn commit not at all.
      [failed_truncate_loses_commit] is what a refused truncation does.
    - Page allocation.  Over any sequence of calls, and whatever is evicted or comes late while
      they wait, a page is never given out twice, no page is lost, pages in use keep their
      contents, and every call ends without a panic.  The pointer map gives back what was
      put into it.  [pending_page_used] is a page size for which the page of the pending byte
      is used after all.

    ** Not modelled

    - The B-tree cursor and balancing, which move cells between pages; the page operations
      they use are modelled.
    - In the pager: the creation of page 1, savepoints, the subjournal, reads that fail, and how
      dirty pages are written; a corrupt free list, whose contents the code trusts.  In the
      page allocation the cache is a set of page numbers that may lose any page the code
      does not hold, pin or load; [PageCache] has its policy, and the two are not connected
      by a theorem.  In the WAL: the shared-memory coordination of several processes, VACUUM,
      the raw-frame interface and its watermarks, pages that a checkpoint takes from the
      page cache, truncation of the database file, the abort after a failed fsync.  The steps
      of [WalCoord] work on frames; [WalFormat] has the bytes of a frame, and the two
      are not connected by a theorem.
    - In the page cache: reference and pin counts are unbounded; functions used only by tests
      are left out.
    - In the multi-version store: index rows, which repeat the operations on table rows,
      the checkpoint machine and the B-tree it writes (its effects on the store are
      modelled), cursors, sequences; what recovery does with the operations it replays.
    - In the logical log: encryption, the portable frames of builds with [conn_raw_api], fsync
      and failed reads.  The source does not retry a short read of the header: the theorems
      on recovery say so ([short_header]) or assume a complete one ([first_full]).
    - I/O backends, the virtual machine, the SQL parser, planning and code generation, schema
      and connections, functions and data types, incremental views, index methods and
      extensions, synchronisation, the PostgreSQL front end, command line and bindings:
      their correctness is about SQL, text or system calls and rests on the parts
      above. *)

From stdpp Require Import base list gmap numbers.
From Stdlib Require Import ZArith Lia Btauto.

#[global] Open Scope Z_scope.

(** * Results of fallible code *)

(** A Rust function that returns [Result<A, E>] and may also panic: an
    [assert!], an out-of-range index or slice, an [unreachable!], and an integer
    operation that overflows in a build with overflow checks all give [Panic]. *)
Inductive res (E A : Type) : Type :=
| Ok (a : A)
| Err (e : E)
| Panic.
Arguments Ok {E A} a.
Arguments Err {E A} e.
Arguments Panic {E A}.

Global Instance res_ret {E} : MRet (res E) := fun A a => Ok a.
Global Instance res_bind {E} : MBind (res E) := fun A B f m =>
  match m with Ok a => f a | Err e => Err e | Panic => Panic end.
Global Instance res_fmap {E} : FMap (res E) := fun A B f m =>
  match m with Ok a => Ok (f a) | Err e => Err e | Panic => Panic end.

(** [CacheError] of core/storage/page_cache.rs. *)
Inductive CacheError : Type :=
| CacheInternal
| CacheLocked (pgno : Z)
| CacheDirty (pgno : Z)
| CachePinned (pgno : Z)
| CacheFull
| CacheKeyExists.
Global Instance CacheError_eq_dec : EqDecision CacheError.
Proof. solve_decision. Defined.

(** The variants of [LimboError] (core/error.rs) the modelled code returns; the
    formatted messages are dropped. *)
Inductive LimboError : Type :=
| Corrupt
| InternalError
| Busy
| BusySnapshot
| WriteWriteConflict
| NoSuchTransactionID
| TxTerminated
| SchemaUpdated
| SchemaConflict
| CommitDependencyAborted
| IOError
| DatabaseFull
| FromCache (e : CacheError).

Global Instance LimboError_eq_dec : EqDecision LimboError.
Proof. solve_decision. Defined.

(** [assert!(b)] and its [turso_assert!] variants. *)
Definition rassert {E} (b : bool) : res E unit := if b then Ok tt else Panic.
(** [if !b { return Err(e) }]. *)
Definition ensure {E} (b : bool) (e : E) : res E unit := if b then Ok tt else Err e.
(** Subtraction of unsigned integers with overflow checks. *)
Definition usub {E} (a b : Z) : res E Z := if b <=? a then Ok (a - b) else Panic.
(** [w]-bit unsigned addition and multiplication with overflow checks. *)
Definition uadd {E} (w a b : Z) : res E Z := if a + b <? 2 ^ w then Ok (a + b) else Panic.
Definition umul {E} (w a b : Z) : res E Z := if a * b <? 2 ^ w then Ok (a * b) else Panic.

(** ** Code that changes a state

    A computation on a state [S] that may fail; the state it has reached is kept also when
    it fails, as the Rust code keeps what it has changed before an error. *)
Definition ST (S A : Type) : Type := S -> res LimboError A * S.
Global Instance ST_ret {S} : MRet (ST S) := fun A a s => (Ok a, s).
Global Instance ST_bind {S} : MBind (ST S) := fun A B f m s =>
  match m s with
  | (Ok a, s) => f a s
  | (Err e, s) => (Err e, s)
  | (Panic, s) => (Panic, s)
  end.
Definition slift {S A} (r : res LimboError A) : ST S A := fun s => (r, s).
Definition sassert {S} (b : bool) : ST S unit := fun s => (rassert b, s).
Definition sget {S} : ST S S := fun s => (Ok s, s).
Definition smodify {S} (f : S -> S) : ST S unit := fun s => (Ok tt, f s).

(** The weakest precondition of a computation that must not panic: [Q] holds of its result
    and [E] of its error, each with the state it is left in. *)
Definition wp {S A} (m : ST S A) (s : S) (Q : A -> S -> Prop) (E : LimboError -> S -> Prop) : Prop :=
  match m s with
  | (Ok a, s') => Q a s'
  | (Err e, s') => E e s'
  | (Panic, _) => False
  end.

(** * Machine integers *)

Definition wrap (w x : Z) : Z := x mod 2 ^ w.
Definition is_u (w x : Z) : Prop := 0 <= x < 2 ^ w.
Definition is_i (w x : Z) : Prop := - 2 ^ (w - 1) <= x < 2 ^ (w - 1).
(** [x as i{w}] for an [x : u{w}]. *)
Definition to_signed (w x : Z) : Z := if x <? 2 ^ (w - 1) then x else x - 2 ^ w.

(** * Digits and bytes *)

(** The [n] least significant base-[b] digits of [x], most significant first. *)
Fixpoint digits (b : Z) (n : nat) (x : Z) : list Z :=
  match n with
  | O => []
  | S n => digits b n (x / b) ++ [x mod b]
  end.

Definition undigits_from (b acc : Z) (ds : list Z) : Z :=
  fold_left (fun a d => a * b + d) ds acc.
Definition undigits (b : Z) (ds : list Z) : Z := undigits_from b 0 ds.

Definition is_digit (b d : Z) : Prop := 0 <= d < b.
Definition bytes_ok (bs : list Z) : Prop := Forall (is_digit 256) bs.

(** [x.to_be_bytes()] of an [n]-byte integer and [from_be_bytes]. *)
Definition be_bytes (n : nat) (x : Z) : list Z := digits 256 n x.
Definition be_val (bs : list Z) : Z := undigits 256 bs.
(** [x.to_le_bytes()] and [from_le_bytes]. *)
Definition le_bytes (n : nat) (x : Z) : list Z := reverse (digits 256 n x).
Definition le_val (bs : list Z) : Z := undigits 256 (reverse bs).

(** [buf.get(i)] and [buf[i]] with a [usize] index. *)
Definition get (buf : list Z) (i : Z) : option Z :=
  if i <? 0 then None else buf !! Z.to_nat i.
Definition at_ {E} (buf : list Z) (i : Z) : res E Z :=
  match get buf i with Some b => Ok b | None => Panic end.
(** [buf[i] = b]. *)
Definition set_at {E} (buf : list Z) (i b : Z) : res E (list Z) :=
  match get buf i with Some _ => Ok (<[Z.to_nat i := b]> buf) | None => Panic end.
Definition len {A} (l : list A) : Z := Z.of_nat (length l).
(** [buf[i..j]]. *)
Definition slice_ (buf : list Z) (i j : Z) : list Z :=
  take (Z.to_nat (j - i)) (drop (Z.to_nat i) buf).
Definition slice {E} (buf : list Z) (i j : Z) : res E (list Z) :=
  if (0 <=? i) && (i <=? j) && (j <=? len buf) then Ok (slice_ buf i j) else Panic.
(** [buf.get(..n)]. *)
Definition get_to (buf : list Z) (n : Z) : option (list Z) :=
  if n <=? len buf then Some (take (Z.to_nat n) buf) else None.
(** [buf[i..i + src.len()].copy_from_slice(src)]. *)
Definition splice_ (buf : list Z) (i : Z) (src : list Z) : list Z :=
  take (Z.to_nat i) buf ++ src ++ drop (Z.to_nat (i + len src)) buf.
Definition write_at {E} (buf : list Z) (i : Z) (src : list Z) : res E (list Z) :=
  if (0 <=? i) && (i + len src <=? len buf) then Ok (splice_ buf i src) else Panic.

(** * Fixed-size on-disk structures *)

(** What the code that stores a structure promises to the code that loads it: the
    encoding has a fixed length and decoding the front of a buffer gives the
    structure back, whatever follows. *)
Class Codec (A : Type) := {
  codec_size : nat;
  encode : A -> list Z;
  decode : list Z -> res LimboError A;
  encodable : A -> Prop;
  encode_size : forall a, encodable a -> length (encode a) = codec_size;
  encode_bytes : forall a, encodable a -> bytes_ok (encode a);
  decode_encode : forall a rest, encodable a -> decode (encode a ++ rest) = Ok a;
}.

(** [uN::from_be_bytes(s[i..j].try_into().unwrap())]. *)
Definition be_at {E} (buf : list Z) (i j : Z) : res E Z := s ← slice buf i j; Ok (be_val s).

(** * Automation *)

Ltac zbool :=
  repeat match goal with
  | H : context [Z.eqb _ _] |- _ => progress rewrite ?Z.eqb_eq, ?Z.eqb_neq in H
  | H : context [Z.leb _ _] |- _ => progress rewrite ?Z.leb_le, ?Z.leb_gt in H
  | H : context [Z.ltb _ _] |- _ => progress rewrite ?Z.ltb_lt, ?Z.ltb_ge in H
  | H : (_ && _)%bool = true |- _ => apply andb_prop in H as [? ?]
  | H : negb _ = true |- _ => apply negb_true_iff in H
  | H : negb _ = false |- _ => apply negb_false_iff in H
  end.

(** Split on every integer comparison the goal branches on. *)
Ltac zcases :=
  repeat match goal with
  | |- context [Z.eqb ?a ?b] => destruct (Z.eqb_spec a b)
  | |- context [Z.leb ?a ?b] => destruct (Z.leb_spec a b)
  | |- context [Z.ltb ?a ?b] => destruct (Z.ltb_spec a b)
  end.

Create HintDb turso discriminated.

(** * The result monad *)

Lemma bind_Ok {E A B} (a : A) (f : A -> res E B) : (Ok a ≫= f) = f a.
Proof. reflexivity. Qed.
Lemma bind_Err {E A B} (e : E) (f : A -> res E B) : (Err e ≫= f) = Err e.
Proof. reflexivity. Qed.
Lemma bind_Panic {E A B} (f : A -> res E B) : (Panic ≫= f) = Panic.
Proof. reflexivity. Qed.
Lemma bind_inv_Ok {E A B} (m : res E A) (f : A -> res E B) b :
  (m ≫= f) = Ok b -> exists a, m = Ok a /\ f a = Ok b.
Proof. destruct m; simpl; [eauto | discriminate..]. Qed.

Lemma sbind_eq {S A B} (m : ST S A) (k : A -> ST S B) s a s' : m s = (Ok a, s') -> (m ≫= k) s = k a s'.
Proof. intros H. unfold mbind, ST_bind. by rewrite H. Qed.
Lemma sbind_inv {S A B} (m : ST S A) (k : A -> ST S B) s b s' :
  (m ≫= k) s = (Ok b, s') -> exists a s1, m s = (Ok a, s1) /\ k a s1 = (Ok b, s').
Proof. unfold mbind, ST_bind. destruct (m s) as [[a|e|] s1]; intros H; simplify_eq. eauto. Qed.

Lemma wp_bind {S A B} (m : ST S A) (k : A -> ST S B) s Q E :
  wp m s (fun a s' => wp (k a) s' Q E) E -> wp (m ≫= k) s Q E.
Proof. unfold wp, mbind, ST_bind. by destruct (m s) as [[] ?]. Qed.
Lemma wp_ret {S A} (a : A) (s : S) Q E : Q a s -> wp (mret a) s Q E.
Proof. done. Qed.
Lemma wp_get {S} (s : S) Q E : Q s s -> wp sget s Q E.
Proof. done. Qed.
Lemma wp_modify {S} (f : S -> S) (s : S) Q E : Q tt (f s) -> wp (smodify f) s Q E.
Proof. done. Qed.
Lemma wp_assert {S} b (s : S) Q E : b = true -> Q tt s -> wp (sassert b) s Q E.
Proof. by intros ->. Qed.
Lemma wp_conseq {S A} (m : ST S A) s (Q Q' : A -> S -> Prop) (E E' : LimboError -> S -> Prop) :
  wp m s Q E -> (forall a s', Q a s' -> Q' a s') -> (forall e s', E e s' -> E' e s') -> wp m s Q' E'.
Proof. unfold wp. destruct (m s) as [[] ?]; naive_solver. Qed.
(** What [wp] says of a run. *)
Lemma wp_run {S A} (m : ST S A) s Q E r s' :
  wp m s Q E -> m s = (r, s') -> match r with Ok a => Q a s' | Err e => E e s' | Panic => False end.
Proof. unfold wp. intros H Hr. by rewrite Hr in H. Qed.
Lemma bind_step {E A B} (m : res E A) (k : A -> res E B) a r : m = Ok a -> k a = r -> (m ≫= k) = r.
Proof. by intros -> <-. Qed.

(** One action of a computation in the goal. *)
Ltac wstep :=
  lazymatch goal with
  | |- wp (_ ≫= _) _ _ _ => apply wp_bind
  | |- wp (mret _) _ _ _ => apply wp_ret
  | |- wp sget _ _ _ => apply wp_get
  | |- wp (smodify _) _ _ _ => apply wp_modify
  | |- wp (sassert _) _ _ _ => apply wp_assert
  end.

(** Reduce a monadic computation whose first action has a known result. *)
Ltac rstep := cbn [mbind res_bind mret res_ret fmap res_fmap].

(** * Machine integers *)

Lemma pow2_pos w : 0 <= w -> 0 < 2 ^ w.
Proof. intros. apply Z.pow_pos_nonneg; lia. Qed.
Lemma wrap_small w x : is_u w x -> wrap w x = x.
Proof. apply Z.mod_small. Qed.
Lemma wrap_is_u w x : 0 <= w -> is_u w (wrap w x).
Proof. intros. apply Z.mod_pos_bound. by apply pow2_pos. Qed.
Lemma wrap_wrap w x : 0 <= w -> wrap w (wrap w x) = wrap w x.
Proof. intros. apply wrap_small. by apply wrap_is_u. Qed.

Lemma pow2_half w : 0 < w -> 2 ^ w = 2 * 2 ^ (w - 1).
Proof. intros. rewrite <- Z.pow_succ_r by lia. f_equal; lia. Qed.

(** A [w]-bit signed integer survives the casts [as u{w}] and back. *)
Lemma to_signed_wrap w x : 0 < w -> is_i w x -> to_signed w (wrap w x) = x.
Proof.
  unfold is_i, to_signed, wrap. intros Hw Hx. pose proof (pow2_half w Hw) as Hp.
  assert (0 < 2 ^ (w - 1)) by (apply pow2_pos; lia).
  destruct (Z.leb_spec 0 x).
  - rewrite Z.mod_small by lia. zcases; lia.
  - assert (x mod 2 ^ w = x + 2 ^ w) as ->.
    { symmetry. apply (Z.mod_unique_pos _ _ (-1)); lia. }
    zcases; lia.
Qed.

Lemma to_signed_is_i w x : 0 < w -> is_u w x -> is_i w (to_signed w x).
Proof.
  unfold is_i, is_u, to_signed. intros Hw Hx. pose proof (pow2_half w Hw).
  zcases; lia.
Qed.

Lemma land_low x n : 0 <= n -> Z.land x (2 ^ n - 1) = x mod 2 ^ n.
Proof. intros. rewrite <- Z.land_ones by done. f_equal. rewrite Z.ones_equiv. lia. Qed.

Lemma land_shifted_mask a n k : 0 <= n -> 0 <= k -> Z.land a (Z.shiftl (Z.ones n) k) = (a / 2 ^ k) mod 2 ^ n * 2 ^ k.
Proof.
  intros Hn Hk. rewrite <- Z.shiftr_div_pow2, <- Z.land_ones, <- Z.shiftl_mul_pow2 by done.
  apply Z.bits_inj'. intros i Hi. rewrite Z.land_spec. destruct (Z.ltb_spec i k).
  - rewrite !Z.shiftl_spec_low by done. apply andb_false_r.
  - rewrite !Z.shiftl_spec_high, Z.land_spec, Z.shiftr_spec by lia. by replace (i - k + k) with i by lia.
Qed.

Lemma lor_add_disjoint a b n : 0 <= n -> 0 <= b < 2 ^ n -> Z.lor (a * 2 ^ n) b = a * 2 ^ n + b.
Proof.
  intros Hn Hb. assert (Z.land (a * 2 ^ n) b = 0) as Hd.
  { apply Z.bits_inj'. intros i Hi. rewrite Z.land_spec, Z.bits_0.
    destruct (Z.ltb_spec i n).
    - by rewrite Z.mul_pow2_bits_low by lia.
    - rewrite <- (Z.mod_small b (2 ^ n)) by lia.
      rewrite Z.mod_pow2_bits_high by lia. apply andb_false_r. }
  rewrite Z.add_nocarry_lxor by done. symmetry. by apply Z.lxor_lor.
Qed.

(** * Digits *)

Section digits.
Context (b : Z) (Hb : 0 < b).

Lemma length_digits n x : length (digits b n x) = n.
Proof. revert x. induction n; intros; [done|]. simpl. rewrite length_app, IHn. simpl. lia. Qed.

Lemma digits_ok n x : Forall (is_digit b) (digits b n x).
Proof.
    revert x. induction n; intros; [constructor|]. simpl. apply Forall_app. split; [done|].
    repeat constructor; apply Z.mod_pos_bound; lia.
Qed.

Lemma undigits_from_app acc ds1 ds2 :
    undigits_from b acc (ds1 ++ ds2) = undigits_from b (undigits_from b acc ds1) ds2.
Proof. apply fold_left_app. Qed.

Lemma undigits_from_acc acc ds :
    undigits_from b acc ds = acc * b ^ len ds + undigits b ds.
Proof.
    unfold undigits, len. revert acc. induction ds as [|d ds IH] using rev_ind; intros.
    - simpl. lia.
    - rewrite !undigits_from_app, length_app, Nat2Z.inj_add, Z.pow_add_r by lia.
      simpl. rewrite (IH acc). change (0 * b + d) with d. nia.
Qed.

Lemma undigits_bound ds : Forall (is_digit b) ds -> 0 <= undigits b ds < b ^ len ds.
Proof.
    unfold undigits, len. induction ds as [|d ds IH] using rev_ind; intros H; [simpl; lia|].
    apply Forall_app in H as [H1 H2]. inversion H2; subst. specialize (IH H1).
    rewrite undigits_from_app, length_app, Nat2Z.inj_add, Z.pow_add_r by lia.
    unfold is_digit in *. simpl. nia.
Qed.

Lemma undigits_digits n x : undigits b (digits b n x) = x mod b ^ Z.of_nat n.
Proof.
    unfold undigits. revert x. induction n; intros.
    - simpl. by rewrite Z.mod_1_r.
    - simpl digits. rewrite undigits_from_app, IHn, Nat2Z.inj_succ, Z.pow_succ_r by lia.
      simpl. assert (0 < b ^ Z.of_nat n) by (apply Z.pow_pos_nonneg; lia).
      rewrite Z.rem_mul_r by lia. lia.
Qed.

Lemma digits_undigits ds :
    Forall (is_digit b) ds -> digits b (length ds) (undigits b ds) = ds.
Proof.
    unfold undigits. induction ds as [|d ds IH] using rev_ind; intros H; [done|].
    apply Forall_app in H as [H1 H2]. inversion H2 as [|? ? Hd]; subst.
    rewrite length_app, Nat.add_comm, undigits_from_app. simpl.
    unfold is_digit in Hd. rewrite Z.div_add_l, (Z.div_small d), Z.add_0_r, IH by (done || lia).
    do 2 f_equal. rewrite Z.add_comm, Z.mod_add, Z.mod_small; lia.
Qed.

Lemma undigits_inj ds1 ds2 :
    Forall (is_digit b) ds1 -> Forall (is_digit b) ds2 -> length ds1 = length ds2 ->
    undigits b ds1 = undigits b ds2 -> ds1 = ds2.
Proof.
    intros H1 H2 Hl He. rewrite <- (digits_undigits ds1), <- (digits_undigits ds2) by done.
    by rewrite Hl, He.
Qed.

Lemma undigits_app ds1 ds2 :
    undigits b (ds1 ++ ds2) = undigits b ds1 * b ^ len ds2 + undigits b ds2.
Proof. unfold undigits. by rewrite undigits_from_app, undigits_from_acc. Qed.

Lemma digits_app n m x :
    digits b (n + m) x = digits b n (x / b ^ Z.of_nat m) ++ digits b m x.
Proof.
    revert x. induction m; intros.
    - rewrite Nat.add_0_r, app_nil_r. simpl. by rewrite Z.div_1_r.
    - rewrite Nat.add_succ_r. simpl. rewrite IHm, app_assoc. do 3 f_equal.
      rewrite Z.div_div, <- Z.pow_succ_r, <- Nat2Z.inj_succ; (done || lia || apply Z.pow_pos_nonneg; lia).
Qed.
End digits.

(** * Bytes *)

Lemma bytes_ok_app l k : bytes_ok (l ++ k) <-> bytes_ok l /\ bytes_ok k.
Proof. apply Forall_app. Qed.
Lemma bytes_ok_take n l : bytes_ok l -> bytes_ok (take n l).
Proof. apply Forall_take. Qed.
Lemma bytes_ok_drop n l : bytes_ok l -> bytes_ok (drop n l).
Proof. apply Forall_drop. Qed.
Lemma bytes_ok_lookup l i x : bytes_ok l -> l !! i = Some x -> 0 <= x < 256.
Proof. intros H1 H2. by eapply Forall_lookup_1 in H1. Qed.

Lemma length_be_bytes n x : length (be_bytes n x) = n.
Proof. apply length_digits. Qed.
Lemma length_le_bytes n x : length (le_bytes n x) = n.
Proof. unfold le_bytes. by rewrite length_reverse, length_digits. Qed.
Lemma be_bytes_ok n x : bytes_ok (be_bytes n x).
Proof. by apply digits_ok. Qed.
Lemma be_val_be_bytes n x : be_val (be_bytes n x) = x mod 256 ^ Z.of_nat n.
Proof. by apply undigits_digits. Qed.
Lemma be_bytes_be_val bs : bytes_ok bs -> be_bytes (length bs) (be_val bs) = bs.
Proof. by apply digits_undigits. Qed.
Lemma be_val_bound bs : bytes_ok bs -> 0 <= be_val bs < 256 ^ len bs.
Proof. by apply undigits_bound. Qed.

(** Big-endian integers of a given width round-trip. *)
Lemma be_val_be_bytes_small n x : 0 <= x < 256 ^ Z.of_nat n -> be_val (be_bytes n x) = x.
Proof. intros. rewrite be_val_be_bytes. by apply Z.mod_small. Qed.

#[export] Hint Resolve be_bytes_ok bytes_ok_take bytes_ok_drop : turso.

(** * Lists indexed by [Z] *)

Lemma len_nonneg {A} (l : list A) : 0 <= len l.
Proof. unfold len. lia. Qed.
Lemma len_app {A} (l k : list A) : len (l ++ k) = len l + len k.
Proof. unfold len. rewrite length_app. lia. Qed.
Lemma len_be_bytes n x : len (be_bytes n x) = Z.of_nat n.
Proof. unfold len. by rewrite length_be_bytes. Qed.
Lemma len_slice_ buf i j : 0 <= i <= j -> j <= len buf -> len (slice_ buf i j) = j - i.
Proof. unfold len, slice_. intros. rewrite length_take, length_drop. lia. Qed.
Lemma len_splice_ buf i src : 0 <= i -> i + len src <= len buf -> len (splice_ buf i src) = len buf.
Proof.
  unfold len, splice_. intros. rewrite !length_app, length_take, length_drop. unfold len in *. lia.
Qed.

Lemma slice_ok {E} buf i j : 0 <= i <= j -> j <= len buf -> @slice E buf i j = Ok (slice_ buf i j).
Proof. intros. unfold slice. by destruct (Z.leb_spec 0 i), (Z.leb_spec i j), (Z.leb_spec j (len buf)); try lia. Qed.
Lemma slice_mid {E} pre mid post :
  @slice E (pre ++ mid ++ post) (len pre) (len pre + len mid) = Ok mid.
Proof.
  pose proof (len_nonneg pre). pose proof (len_nonneg mid). pose proof (len_nonneg post).
  rewrite slice_ok by (rewrite ?len_app; lia). unfold slice_. do 2 f_equal.
  replace (len pre + len mid - len pre) with (len mid) by lia. unfold len.
  by rewrite !Nat2Z.id, drop_app_length, take_app_length.
Qed.
Lemma slice_prefix {E} mid post : @slice E (mid ++ post) 0 (len mid) = Ok mid.
Proof. apply (slice_mid []). Qed.
Lemma slice_skip {E} k pre post i j :
  len pre = k -> k <= i -> @slice E (pre ++ post) i j = slice post (i - k) (j - k).
Proof.
  intros Hk Hi. pose proof (len_nonneg pre). unfold slice. rewrite len_app, Hk.
  replace (0 <=? i - k) with (0 <=? i) by (destruct (Z.leb_spec 0 i), (Z.leb_spec 0 (i - k)); lia || done).
  replace (i - k <=? j - k) with (i <=? j) by (destruct (Z.leb_spec i j), (Z.leb_spec (i - k) (j - k)); lia || done).
  replace (j - k <=? len post) with (j <=? k + len post)
    by (destruct (Z.leb_spec j (k + len post)), (Z.leb_spec (j - k) (len post)); lia || done).
  destruct ((0 <=? i) && (i <=? j) && (j <=? k + len post)); [|done]. f_equal. unfold slice_, len in *.
  rewrite drop_app_ge by lia. f_equal; [lia|]. f_equal. lia.
Qed.
Lemma slice_hit {E} n mid post : len mid = n -> @slice E (mid ++ post) 0 n = Ok mid.
Proof. intros <-. apply slice_prefix. Qed.
Lemma be_at_hit {E} n x post m :
  m = Z.of_nat n -> 0 <= x < 256 ^ m -> @be_at E (be_bytes n x ++ post) 0 m = Ok x.
Proof.
  intros -> Hx. unfold be_at. rewrite slice_hit by apply len_be_bytes. rstep.
  by rewrite be_val_be_bytes_small.
Qed.
Lemma be_at_skip {E} k pre post i j :
  len pre = k -> k <= i -> @be_at E (pre ++ post) i j = be_at post (i - k) (j - k).
Proof. intros. unfold be_at. by rewrite (slice_skip k). Qed.

Lemma write_at_ok {E} buf i src :
  0 <= i -> i + len src <= len buf -> @write_at E buf i src = Ok (splice_ buf i src).
Proof.
  intros. unfold write_at. by destruct (Z.leb_spec 0 i), (Z.leb_spec (i + len src) (len buf)); try lia.
Qed.
Lemma splice_mid pre old post src :
  length old = length src -> splice_ (pre ++ old ++ post) (len pre) src = pre ++ src ++ post.
Proof.
  intros Hl. unfold splice_, len. rewrite Nat2Z.id, take_app_length.
  replace (Z.to_nat (Z.of_nat (length pre) + Z.of_nat (length src))) with (length (pre ++ old))
    by (rewrite length_app; lia).
  by rewrite (app_assoc pre old post), drop_app_length.
Qed.
Lemma write_at_mid {E} pre old post src :
  length old = length src -> @write_at E (pre ++ old ++ post) (len pre) src = Ok (pre ++ src ++ post).
Proof.
  intros Hl. rewrite write_at_ok, splice_mid; try done; unfold len; rewrite ?length_app; lia.
Qed.
Lemma write_skip {E} k pre post i src r :
  len pre = k -> k <= i -> @write_at E post (i - k) src = Ok r ->
  @write_at E (pre ++ post) i src = Ok (pre ++ r).
Proof.
  intros Hk Hi. unfold write_at. rewrite len_app, Hk. pose proof (len_nonneg pre).
  destruct (Z.leb_spec 0 (i - k)); [|lia]. destruct (Z.leb_spec 0 i); [|lia]. simpl andb.
  destruct (Z.leb_spec (i - k + len src) (len post)); [|done].
  destruct (Z.leb_spec (i + len src) (k + len post)); [|lia]. intros [= <-]. f_equal.
  unfold splice_, len in *. rewrite take_app_ge, drop_app_ge, <- app_assoc by lia.
  f_equal. f_equal; [f_equal; lia|]. f_equal. f_equal. lia.
Qed.
Lemma write_hit {E} old post src :
  len old = len src -> @write_at E (old ++ post) 0 src = Ok (src ++ post).
Proof. intros Hl. apply (write_at_mid []). unfold len in Hl. lia. Qed.

(** Move a read at a constant offset of a concatenation to the field it hits. *)
Ltac len_field := first [apply len_be_bytes | eassumption | reflexivity].
Ltac seek_step :=
  match goal with
  | |- @slice ?E (?pre ++ ?post) ?i ?j = _ =>
      erewrite (slice_skip (E:=E) _ pre post i j); [| len_field | by vm_compute]
  | |- @be_at ?E (?pre ++ ?post) ?i ?j = _ =>
      erewrite (be_at_skip (E:=E) _ pre post i j); [| len_field | by vm_compute]
  end; simpl Z.sub.
(** Run the next field write of an encoder into a buffer split at the fields. *)
Ltac poke :=
  eapply bind_step;
    [ repeat (eapply write_skip; [len_field | by vm_compute |]; simpl Z.sub);
      apply write_hit; etransitivity; [eassumption || len_field | symmetry; len_field] | ].
(** Run the next field read of a decoder on a concatenation of fields. *)
Ltac seek :=
  eapply bind_step;
    [ repeat seek_step;
      first [ apply slice_hit; len_field
            | apply be_at_hit; [reflexivity | first [assumption | unfold is_u in *; simpl; lia]] ] | ].

Lemma get_Some_bound buf i x : get buf i = Some x -> 0 <= i < len buf.
Proof.
  unfold get, len. destruct (Z.ltb_spec i 0); [done|]. intros Hx%lookup_lt_Some. lia.
Qed.
Lemma get_Some_iff buf i : 0 <= i < len buf -> exists x, get buf i = Some x.
Proof.
  unfold get, len. intros. destruct (Z.ltb_spec i 0); [lia|].
  apply lookup_lt_is_Some_2. lia.
Qed.
Lemma get_None_iff buf i : 0 <= i -> get buf i = None <-> len buf <= i.
Proof.
  unfold get, len. intros. destruct (Z.ltb_spec i 0); [lia|]. rewrite lookup_ge_None. lia.
Qed.
Lemma get_middle pre x post : get (pre ++ x :: post) (len pre) = Some x.
Proof.
  unfold get, len. destruct (Z.ltb_spec (Z.of_nat (length pre)) 0); [lia|].
  rewrite Nat2Z.id. by apply list_lookup_middle.
Qed.
Lemma get_of_nat buf i : get buf (Z.of_nat i) = buf !! i.
Proof. unfold get. destruct (Z.ltb_spec (Z.of_nat i) 0); [lia|]. by rewrite Nat2Z.id. Qed.

Lemma get_app_l buf more i x : get buf i = Some x -> get (buf ++ more) i = Some x.
Proof. unfold get. destruct (i <? 0); [done|]. apply lookup_app_l_Some. Qed.
Lemma bytes_ok_get buf i x : bytes_ok buf -> get buf i = Some x -> is_u 8 x.
Proof.
  unfold get. destruct (i <? 0); [done|]. intros Hok Hx.
  pose proof (proj1 (Forall_lookup _ _) Hok _ _ Hx) as Hd. unfold is_digit, is_u in *. lia.
Qed.

(** [buf[i] = b] in range, with the index as a [nat]. *)
Lemma set_at_nat {E} buf i b :
  (i < length buf)%nat -> set_at (E:=E) buf (Z.of_nat i) b = Ok (<[i:=b]> buf).
Proof.
  intros [x Hx]%lookup_lt_is_Some_2. unfold set_at. by rewrite get_of_nat, Hx, Nat2Z.id.
Qed.
Lemma at_nat {E} buf i x : buf !! i = Some x -> at_ (E:=E) buf (Z.of_nat i) = Ok x.
Proof. intros Hx. unfold at_. by rewrite get_of_nat, Hx. Qed.

Lemma drop_insert_here {A} (l : list A) i x :
  (i < length l)%nat -> drop i (<[i:=x]> l) = x :: drop (S i) l.
Proof.
  intros. rewrite (drop_S _ x i) by (by apply list_lookup_insert_eq). f_equal.
  rewrite drop_insert_lt by lia. done.
Qed.
Lemma take_insert_here {A} (l : list A) i x :
  (i < length l)%nat -> take (S i) (<[i:=x]> l) = take i l ++ [x].
Proof.
  intros. rewrite (take_S_r _ _ x) by (by apply list_lookup_insert_eq). f_equal.
  apply take_insert_ge. lia.
Qed.

(** * Counting *)

Definition bit (b : bool) : Z := if b then 1 else 0.
(** How many elements satisfy [p]. *)
Definition count_of {A} (p : A -> bool) (ts : list A) : Z := foldr (fun t n => bit (p t) + n) 0 ts.

Lemma count_of_bounds {A} (p : A -> bool) ts : 0 <= count_of p ts <= len ts.
Proof. unfold len. induction ts as [|t ts IH]; cbn [count_of foldr length]; [lia|]. fold (count_of p ts). unfold bit. case_match; lia. Qed.
Lemma count_of_insert {A} (p : A -> bool) ts i t t' :
  ts !! i = Some t -> count_of p (<[i := t']> ts) = count_of p ts - bit (p t) + bit (p t').
Proof.
  revert i. induction ts as [|u ts IH]; intros [|i] Hi; try done; cbn in Hi; simplify_eq.
  - change (<[0%nat := t']> (t :: ts)) with (t' :: ts). cbn [count_of foldr]. lia.
  - change (<[Datatypes.S i := t']> (u :: ts)) with (u :: <[i := t']> ts). cbn [count_of foldr].
    fold (count_of p ts) (count_of p (<[i := t']> ts)). rewrite (IH i) by done. lia.
Qed.
Lemma count_of_in {A} (p : A -> bool) ts i t : ts !! i = Some t -> p t = true -> 1 <= count_of p ts.
Proof.
  revert i. induction ts as [|u ts IH]; intros [|i] Hi Hp; try done; cbn in Hi; simplify_eq; cbn [count_of foldr];
    fold (count_of p ts).
  - rewrite Hp. assert (H := count_of_bounds p ts). cbn [bit]. lia.
  - specialize (IH i Hi Hp). unfold bit. case_match; lia.
Qed.
Lemma count_of_pos {A} (p : A -> bool) ts : 1 <= count_of p ts <-> exists i t, ts !! i = Some t /\ p t = true.
Proof.
  split; [|intros (i & t & Hi & Hp); by eapply count_of_in].
  induction ts as [|u ts IH]; cbn [count_of foldr]; [lia|]. fold (count_of p ts). unfold bit. intros H.
  destruct (p u) eqn:Hp; [by exists 0%nat, u|]. destruct IH as (i & t & Hi & Ht); [lia|]. by exists (Datatypes.S i), t.
Qed.
Lemma count_of_two {A} (p : A -> bool) ts i j t u :
  ts !! i = Some t -> ts !! j = Some u -> i <> j -> p t = true -> p u = true -> 2 <= count_of p ts.
Proof.
  revert i j. induction ts as [|x ts IH]; intros [|i] [|j] Hi Hj Hne Ht Hu; try done; cbn in Hi, Hj; simplify_eq;
    cbn [count_of foldr]; fold (count_of p ts); unfold bit.
  - assert (H := count_of_in p ts j u Hj Hu). rewrite Ht. lia.
  - assert (H := count_of_in p ts i t Hi Ht). rewrite Hu. lia.
  - assert (H : 2 <= count_of p ts) by (apply (IH i j); [done|done|intros ->|done|done]; done). case_match; lia.
Qed.
