(* ===== verification/Varint.v ===== *)
(** SQLite variable-length integers: [read_varint], [read_varint_partial],
    [varint_len], [write_varint] and [write_varint_to_vec] of
    core/storage/sqlite3_ondisk.rs.  Values are [u64]s kept in [Z]; buffers are
    lists of bytes. *)

From stdpp Require Import base list numbers.
From Stdlib Require Import ZArith Lia Btauto.
From S2P Require Import Prelude.

(** * The code *)

(** What the [for i in 0..8] loop of [read_varint] leaves behind. *)
Inductive varint_scan : Type :=
| Found (v n : Z)      (** returned with a value and the bytes consumed *)
| Exhausted            (** [buf.get(i)] was [None] *)
| Nine (v : Z).        (** eight continuation bytes were read *)

Fixpoint scan_varint (k : nat) (i v : Z) (buf : list Z) : varint_scan :=
  match k with
  | O => Nine v
  | S k =>
      match get buf i with
      | Some c =>
          let v := wrap 64 (Z.shiftl v 7) + Z.land c 0x7f in
          if Z.land c 0x80 =? 0 then Found v (i + 1) else scan_varint k (i + 1) v buf
      | None => Exhausted
      end
  end.

Definition read_varint (buf : list Z) : res LimboError (Z * Z) :=
  match scan_varint 8 0 0 buf with
  | Found v n => Ok (v, n)
  | Exhausted => Err Corrupt
  | Nine v =>
      match get buf 8 with
      | Some c => if Z.shiftr v 48 =? 0 then Err Corrupt else Ok (wrap 64 (Z.shiftl v 8) + c, 9)
      | None => Err Corrupt
      end
  end.

Definition read_varint_partial (buf : list Z) : res LimboError (option (Z * Z)) :=
  match scan_varint 8 0 0 buf with
  | Found v n => Ok (Some (v, n))
  | Exhausted => Ok None
  | Nine v =>
      match get buf 8 with
      | Some c =>
          if Z.shiftr v 48 =? 0 then Err Corrupt else Ok (Some (wrap 64 (Z.shiftl v 8) + c, 9))
      | None => Ok None
      end
  end.

(** [u64::leading_zeros]. *)
Definition leading_zeros64 (v : Z) : Z := if v =? 0 then 64 else 63 - Z.log2 v.

Definition varint_len (value : Z) : Z :=
  if value <=? 0x7f then 1
  else if Z.shiftl 1 56 - 1 <? value then 9
  else (64 - leading_zeros64 value + 6) / 7.

(** [for i in (0..8).rev() { buf[i] = ((value & 0x7f) | 0x80) as u8; value >>= 7 }]. *)
Fixpoint write_high_bytes (k : nat) (value : Z) (buf : list Z) : res LimboError (list Z) :=
  match k with
  | O => Ok buf
  | S i =>
      buf ← set_at buf (Z.of_nat i) (wrap 8 (Z.lor (Z.land value 0x7f) 0x80));
      write_high_bytes i (Z.shiftr value 7) buf
  end.

(** [while bytes != 0 { encoded[n] = (0x80 | (bytes & 0x7f)) as u8; bytes >>= 7; n += 1 }].
    [encoded] has nine bytes, so a tenth iteration would index out of range; ten
    iterations of fuel never run out first. *)
Fixpoint encode_low_first (fuel : nat) (bytes : Z) (encoded : list Z) (n : Z) :
    res LimboError (list Z * Z) :=
  if bytes =? 0 then Ok (encoded, n)
  else match fuel with
  | O => Panic
  | S fuel =>
      encoded ← set_at encoded n (wrap 8 (Z.lor 0x80 (Z.land bytes 0x7f)));
      encode_low_first fuel (Z.shiftr bytes 7) encoded (n + 1)
  end.

(** [for i in 0..n { buf[i] = encoded[n - 1 - i] }], from iteration [n - k]. *)
Fixpoint copy_reversed (k : nat) (n : Z) (encoded buf : list Z) : res LimboError (list Z) :=
  match k with
  | O => Ok buf
  | S k =>
      b ← at_ encoded (Z.of_nat k);
      buf ← set_at buf (n - 1 - Z.of_nat k) b;
      copy_reversed k n encoded buf
  end.

Definition write_varint (buf : list Z) (value : Z) : res LimboError (list Z * Z) :=
  if value <=? 0x7f then
    buf ← set_at buf 0 (wrap 8 (Z.land value 0x7f));
    Ok (buf, 1)
  else if value <=? 0x3fff then
    buf ← set_at buf 0 (wrap 8 (Z.lor (Z.land (Z.shiftr value 7) 0x7f) 0x80));
    buf ← set_at buf 1 (wrap 8 (Z.land value 0x7f));
    Ok (buf, 2)
  else if 0 <? Z.land value (Z.shiftl 0xff000000 32) then
    buf ← set_at buf 8 (wrap 8 value);
    buf ← write_high_bytes 8 (Z.shiftr value 8) buf;
    Ok (buf, 9)
  else
    '(encoded, n) ← encode_low_first 10 value (replicate 9 0) 0;
    e0 ← at_ encoded 0;
    encoded ← set_at encoded 0 (Z.land e0 0x7f);
    buf ← copy_reversed (Z.to_nat n) n encoded buf;
    Ok (buf, n).

Definition write_varint_to_vec (value : Z) (payload : list Z) : res LimboError (list Z) :=
  '(varint, n) ← write_varint (replicate 9 0) value;
  bs ← slice varint 0 n;
  Ok (payload ++ bs).

(** * The encoding in closed form *)

Definition hi (d : Z) : Z := 128 + d.

(** The varint encoding of a [u64] in closed form. *)
Definition venc (v : Z) : list Z :=
  if v <? 2 ^ 56 then
    map hi (digits 128 (Z.to_nat (varint_len v - 1)) (v / 128)) ++ [v mod 128]
  else map hi (digits 128 8 (v / 256)) ++ [v mod 256].

Lemma land_7f x : Z.land x 0x7f = x mod 128.
Proof. apply (land_low x 7). lia. Qed.

Lemma hi_byte_r x : wrap 8 (Z.lor (Z.land x 0x7f) 0x80) = hi (x mod 128).
Proof.
  pose proof (Z.mod_pos_bound x 128 ltac:(lia)).
  pose proof (lor_add_disjoint 1 (x mod 128) 7) as Hl. change (1 * 2 ^ 7) with 128 in Hl.
  rewrite land_7f, Z.lor_comm, Hl by lia. apply wrap_small. unfold is_u, hi. lia.
Qed.
Lemma hi_byte_l x : wrap 8 (Z.lor 0x80 (Z.land x 0x7f)) = hi (x mod 128).
Proof. rewrite Z.lor_comm. apply hi_byte_r. Qed.
Lemma lo_byte x : wrap 8 (Z.land x 0x7f) = x mod 128.
Proof.
  rewrite land_7f. pose proof (Z.mod_pos_bound x 128 ltac:(lia)).
  apply wrap_small. unfold is_u. lia.
Qed.

Lemma land_hi_7f d : is_digit 128 d -> Z.land (hi d) 0x7f = d.
Proof.
  unfold is_digit, hi. intros. rewrite land_7f.
  symmetry. apply (Z.mod_unique_pos _ _ 1); lia.
Qed.
Lemma land_byte_80 c : 0 <= c < 256 -> Z.land c 0x80 = if c <? 128 then 0 else 128.
Proof.
  intros. destruct (Z.ltb_spec c 128); change 0x80 with (2 ^ 7).
  - apply Z.bits_inj'. intros i Hi. rewrite Z.land_spec, Z.bits_0, Z.pow2_bits_eqb by lia.
    destruct (Z.eqb_spec 7 i); [subst|apply andb_false_r].
    rewrite <- (Z.mod_small c (2 ^ 7)) by lia. by rewrite Z.mod_pow2_bits_high by lia.
  - apply Z.bits_inj'. intros i Hi.
    rewrite Z.land_spec, Z.pow2_bits_eqb by lia.
    destruct (Z.eqb_spec 7 i); [subst|apply andb_false_r].
    replace c with (1 * 2 ^ 7 + (c - 128)) by lia.
    rewrite <- lor_add_disjoint by lia.
    by rewrite Z.lor_spec, Z.mul_pow2_bits by lia.
Qed.

(** ** Writing *)

Lemma write_high_bytes_spec k v buf :
  (k <= length buf)%nat ->
  write_high_bytes k v buf = Ok (map hi (digits 128 k v) ++ drop k buf).
Proof.
  revert v buf. induction k as [|k IH]; intros v buf Hk; [done|].
  cbn [write_high_bytes]. rewrite set_at_nat by lia. rstep.
  rewrite IH by (rewrite length_insert; lia).
  rewrite drop_insert_here, hi_byte_r, Z.shiftr_div_pow2 by lia.
  cbn [digits]. by rewrite map_app, <- app_assoc.
Qed.

(** [bytes] has exactly [m] base-128 digits. *)
Definition has_digits (m : nat) (v : Z) : Prop :=
  match m with O => v = 0 | S m => 128 ^ Z.of_nat m <= v < 128 ^ Z.of_nat (S m) end.

Lemma has_digits_shift m v : has_digits (S m) v -> v <> 0 /\ has_digits m (v / 128).
Proof.
  unfold has_digits. rewrite Nat2Z.inj_succ, Z.pow_succ_r by lia. intros [H1 H2].
  assert (0 < 128 ^ Z.of_nat m) by (apply Z.pow_pos_nonneg; lia). split; [lia|].
  destruct m as [|m]; [apply Z.div_small; simpl in *; lia|].
  rewrite Nat2Z.inj_succ, Z.pow_succ_r in * by lia.
  split; [apply Z.div_le_lower_bound | apply Z.div_lt_upper_bound]; lia.
Qed.

Lemma encode_low_first_spec fuel m v enc n :
  has_digits m v -> (m <= fuel)%nat -> (n + m <= length enc)%nat ->
  encode_low_first fuel v enc (Z.of_nat n) =
    Ok (take n enc ++ map hi (reverse (digits 128 m v)) ++ drop (n + m) enc, Z.of_nat (n + m)).
Proof.
  revert fuel v enc n. induction m as [|m IH]; intros fuel v enc n Hd Hf Hl.
  - unfold has_digits in Hd. subst v. rewrite Nat.add_0_r. simpl.
    rewrite take_drop. by destruct fuel.
  - destruct fuel as [|fuel]; [lia|]. pose proof (has_digits_shift _ _ Hd) as [Hnz Hd'].
    cbn [encode_low_first]. destruct (Z.eqb_spec v 0); [done|].
    rewrite set_at_nat by lia. rstep. rewrite hi_byte_l, Z.shiftr_div_pow2 by lia.
    replace (Z.of_nat n + 1) with (Z.of_nat (S n)) by lia.
    rewrite IH by (done || rewrite ?length_insert; lia).
    rewrite take_insert_here, drop_insert_lt by lia. cbn [digits].
    rewrite reverse_app, reverse_singleton. cbn [map app].
    rewrite <- app_assoc. by rewrite !Nat.add_succ_r.
Qed.

Lemma copy_reversed_spec k i enc buf :
  (k <= length enc)%nat -> (i + k <= length buf)%nat ->
  copy_reversed k (Z.of_nat (i + k)) enc buf =
    Ok (take i buf ++ reverse (take k enc) ++ drop (i + k) buf).
Proof.
  revert i buf. induction k as [|k IH]; intros i buf Hk Hl.
  - rewrite Nat.add_0_r. simpl. by rewrite take_drop.
  - destruct (lookup_lt_is_Some_2 enc k ltac:(lia)) as [x Hx].
    cbn [copy_reversed]. rewrite (at_nat _ _ _ Hx). rstep.
    replace (Z.of_nat (i + S k) - 1 - Z.of_nat k) with (Z.of_nat i) by lia.
    rewrite set_at_nat by lia. rstep.
    replace (i + S k)%nat with (S i + k)%nat by lia.
    rewrite IH by (rewrite ?length_insert; lia).
    rewrite take_insert_here, drop_insert_lt, (take_S_r _ _ _ Hx) by lia.
    rewrite reverse_snoc, <- app_assoc. done.
Qed.

(** A [u64] in [128, 2^56) has [varint_len] base-128 digits. *)
Lemma varint_len_digits v :
  128 <= v < 2 ^ 56 ->
  exists m, varint_len v = Z.of_nat (S m) /\ has_digits (S m) v /\ (1 <= m <= 7)%nat.
Proof.
  intros Hv. unfold varint_len, leading_zeros64. change (Z.shiftl 1 56) with (2 ^ 56).
  zcases; try lia. set (l := Z.log2 v).
  pose proof (Z.log2_spec v ltac:(lia)) as Hs. fold l in Hs.
  assert (7 <= l < 56) as Hl.
  { split; [apply Z.log2_le_pow2 | apply Z.log2_lt_pow2]; lia. }
  replace (64 - (63 - l) + 6) with (l + 1 * 7) by lia. rewrite Z.div_add by lia.
  exists (Z.to_nat (l / 7)). pose proof (Z.div_mod l 7 ltac:(lia)) as Hdm.
  pose proof (Z.mod_pos_bound l 7 ltac:(lia)).
  split; [lia|]. split; [|lia]. unfold has_digits. change 128 with (2 ^ 7).
  rewrite <- !Z.pow_mul_r by lia. split.
  - apply Z.le_trans with (2 ^ l); [apply Z.pow_le_mono_r; lia | lia].
  - apply Z.lt_le_trans with (2 ^ Z.succ l); [lia | apply Z.pow_le_mono_r; lia].
Qed.

Lemma length_venc v : 0 <= v < 2 ^ 64 -> len (venc v) = varint_len v.
Proof.
  intros Hv. unfold venc, len. destruct (Z.ltb_spec v (2 ^ 56)).
  - rewrite length_app, length_map, length_digits. simpl.
    destruct (Z.leb_spec 128 v) as [H128|].
    + destruct (varint_len_digits v ltac:(lia)) as (m & -> & _). lia.
    + unfold varint_len. zcases; lia.
  - rewrite length_app, length_map, length_digits. unfold varint_len.
    change (Z.shiftl 1 56) with (2 ^ 56). zcases; simpl; lia.
Qed.

Lemma venc_bytes_ok v : bytes_ok (venc v).
Proof.
  assert (forall ds, Forall (is_digit 128) ds -> bytes_ok (map hi ds)) as Hhi.
  { induction 1 as [|d ds Hd _ IH]; constructor; [unfold is_digit, hi in *; lia|done]. }
  pose proof (Z.mod_pos_bound v 128 ltac:(lia)). pose proof (Z.mod_pos_bound v 256 ltac:(lia)).
  unfold venc. destruct (v <? 2 ^ 56); apply bytes_ok_app; (split; [apply Hhi, digits_ok; lia|]);
    apply Forall_singleton; unfold is_digit; lia.
Qed.
#[export] Hint Resolve venc_bytes_ok : turso.

Lemma varint_len_bound v : 0 <= v < 2 ^ 64 -> 1 <= varint_len v <= 9.
Proof.
  intros Hv. destruct (Z.ltb_spec v 128) as [|H1]; [unfold varint_len; zcases; lia|].
  destruct (Z.ltb_spec v (2 ^ 56)) as [H2|H2].
  - destruct (varint_len_digits v ltac:(lia)) as (m & -> & _ & ?). lia.
  - unfold varint_len. change (Z.shiftl 1 56) with (2 ^ 56). zcases; lia.
Qed.

Lemma land_top_byte v : 0 <= v < 2 ^ 64 ->
  (0 <? Z.land v (Z.shiftl 0xff000000 32)) = (2 ^ 56 <=? v).
Proof.
  intros Hv. change (Z.shiftl 0xff000000 32) with (Z.shiftl (Z.ones 8) 56).
  replace (Z.land v (Z.shiftl (Z.ones 8) 56)) with (Z.shiftl (v / 2 ^ 56) 56).
  - rewrite Z.shiftl_mul_pow2 by lia.
    pose proof (Z.div_mod v (2 ^ 56) ltac:(lia)). pose proof (Z.mod_pos_bound v (2 ^ 56) ltac:(lia)).
    zcases; lia.
  - rewrite <- Z.shiftr_div_pow2 by lia.
    apply Z.bits_inj'. intros i Hi. rewrite Z.land_spec.
    destruct (Z.ltb_spec i 56).
    + rewrite !Z.shiftl_spec_low by lia. btauto.
    + rewrite !Z.shiftl_spec, Z.shiftr_spec by lia. replace (i - 56 + 56) with i by lia.
      destruct (Z.ltb_spec i 64).
      * rewrite Z.ones_spec_low by lia. btauto.
      * rewrite <- (Z.mod_small v (2 ^ 64)), Z.mod_pow2_bits_high by lia. done.
Qed.

Lemma venc_small v : 0 <= v < 128 -> venc v = [v].
Proof.
  intros. unfold venc, varint_len. zcases; try lia. simpl. by rewrite Z.mod_small.
Qed.

Lemma venc_mid v m :
  128 <= v < 2 ^ 56 -> varint_len v = Z.of_nat (S m) ->
  venc v = map hi (digits 128 m (v / 128)) ++ [v mod 128].
Proof.
  intros. unfold venc. destruct (Z.ltb_spec v (2 ^ 56)); [|lia].
  by replace (Z.to_nat (varint_len v - 1)) with m by lia.
Qed.

Lemma venc_two v : 128 <= v <= 0x3fff -> venc v = [hi (v / 128); v mod 128].
Proof.
  intros. destruct (varint_len_digits v ltac:(lia)) as (m & Hm & Hd & ?).
  assert (m = 1%nat) as ->.
  { destruct m as [|[|m]]; [lia|done|exfalso].
    destruct Hd as [Hd _]. rewrite !Nat2Z.inj_succ, !Z.pow_succ_r in Hd by lia.
    assert (0 < 128 ^ Z.of_nat m) by (apply Z.pow_pos_nonneg; lia). lia. }
  rewrite (venc_mid v 1) by (done || lia). simpl. do 2 f_equal.
  apply Z.mod_small. split; [apply Z.div_pos | apply Z.div_lt_upper_bound]; lia.
Qed.

(** [write_varint] stores the encoding at the front of the buffer, leaves the rest
    alone, and returns the number of bytes it wrote. *)
Lemma write_varint_spec buf v :
  0 <= v < 2 ^ 64 -> varint_len v <= len buf ->
  write_varint buf v = Ok (venc v ++ drop (length (venc v)) buf, varint_len v).
Proof.
  intros Hv Hlen. pose proof (length_venc v Hv) as Hle.
  assert (length (venc v) <= length buf)%nat by (unfold len in *; lia).
  unfold write_varint. destruct (Z.leb_spec v 0x7f).
  { rewrite (venc_small v) in * by lia. simpl in *.
    rewrite (set_at_nat buf 0) by lia. rstep. rewrite lo_byte, Z.mod_small by lia.
    destruct buf; simpl in *; [lia|]. unfold varint_len. by zcases; try lia. }
  destruct (Z.leb_spec v 0x3fff).
  { rewrite (venc_two v) in * by lia. rewrite <- Hle. simpl in *.
    rewrite (set_at_nat buf 0) by lia. rstep. rewrite (set_at_nat _ 1) by (rewrite length_insert; lia).
    rstep. assert (0 <= v / 2 ^ 7 < 128).
    { split; [apply Z.div_pos | apply Z.div_lt_upper_bound]; lia. }
    rewrite lo_byte, hi_byte_r, Z.shiftr_div_pow2, (Z.mod_small (v / 2 ^ 7)) by lia.
    destruct buf as [|? [|? buf]]; simpl in *; [lia..|]. done. }
  rewrite land_top_byte by lia. destruct (Z.leb_spec (2 ^ 56) v).
  { assert (venc v = map hi (digits 128 8 (v / 256)) ++ [v mod 256]) as Hvenc.
    { unfold venc. by zcases; try lia. }
    assert (length (venc v) = 9%nat) as Hl9.
    { by rewrite Hvenc, length_app, length_map, length_digits. }
    rewrite Hl9, <- Hle. rewrite (set_at_nat buf 8) by lia. rstep.
    rewrite write_high_bytes_spec by (rewrite length_insert; lia). rstep.
    rewrite drop_insert_here, Z.shiftr_div_pow2, Hvenc, <- app_assoc by lia.
    unfold len. by rewrite <- Hvenc, Hl9. }
  destruct (varint_len_digits v ltac:(lia)) as (m & Hm & Hd & Hm7).
  pose proof (encode_low_first_spec 10 (S m) v (replicate 9 0) 0 Hd ltac:(lia)
    ltac:(rewrite length_replicate; lia)) as He.
  change (Z.of_nat 0) with 0 in He. rewrite He. rstep. cbn [digits Nat.add take]. rewrite reverse_snoc. cbn [map app].
  set (ds := digits 128 m (v / 128)). unfold at_, set_at, get. simpl.
  pose proof (Z.mod_pos_bound v 128 ltac:(lia)).
  rewrite land_hi_7f by (unfold is_digit; lia).
  assert (length ds = m) as Hds by apply length_digits.
  assert (length (venc v) = S m) as Hvl by (unfold len in Hle; lia).
  rewrite Nat2Z.id, (copy_reversed_spec (S m) 0) by (cbn [length]; rewrite ?length_app, ?length_map, ?length_reverse; lia).
  rstep. cbn [take app]. rewrite take_app_length' by (rewrite length_map, length_reverse; lia).
  rewrite reverse_cons. replace (reverse (map hi (reverse ds))) with (map hi ds)
    by (rewrite <- (reverse_involutive ds) at 1; apply (fmap_reverse hi)).
  by rewrite Hvl, (venc_mid v m), Hm by (done || lia).
Qed.

(** ** Reading *)

Lemma scan_varint_high k ds i v pre post :
  Forall (is_digit 128) ds -> (length ds <= k)%nat -> i = len pre ->
  0 <= v < 128 ^ i -> i + Z.of_nat k <= 8 ->
  scan_varint k i v (pre ++ map hi ds ++ post) =
    scan_varint (k - length ds) (i + len ds) (undigits_from 128 v ds) (pre ++ map hi ds ++ post).
Proof.
  revert k i v pre. induction ds as [|d ds IH]; intros k i v pre Hds Hk -> Hv Hi.
  - simpl. rewrite Z.add_0_r, Nat.sub_0_r. done.
  - inversion Hds as [|? ? Hd Hds']; subst. destruct k as [|k]; [simpl in Hk; lia|].
    cbn [map app scan_varint]. rewrite get_middle. rewrite land_hi_7f by done.
    unfold is_digit in Hd. rewrite land_byte_80 by (unfold hi; lia).
    destruct (Z.ltb_spec (hi d) 128); [unfold hi in *; lia|]. cbn [Z.eqb].
    assert (wrap 64 (Z.shiftl v 7) = v * 128) as ->.
    { rewrite Z.shiftl_mul_pow2 by lia. apply wrap_small. unfold is_u.
      assert (128 ^ len pre <= 128 ^ 8) by (apply Z.pow_le_mono_r; lia). lia. }
    replace (pre ++ hi d :: map hi ds ++ post) with ((pre ++ [hi d]) ++ map hi ds ++ post)
      by by rewrite <- app_assoc.
    rewrite IH.
    + f_equal. unfold len. simpl length. lia.
    + done.
    + simpl in Hk. lia.
    + by rewrite len_app.
    + rewrite Z.pow_add_r by (pose proof (len_nonneg pre); lia). change (128 ^ 1) with 128. lia.
    + lia.
Qed.

Lemma scan_varint_last k i v buf c :
  get buf i = Some c -> 0 <= c < 128 ->
  scan_varint (S k) i v buf = Found (wrap 64 (Z.shiftl v 7) + c) (i + 1).
Proof.
  intros Hg Hc. cbn [scan_varint]. rewrite Hg, land_7f, land_byte_80, Z.mod_small by lia.
  by destruct (Z.ltb_spec c 128); [|lia].
Qed.

(** The loop consumes the continuation bytes [map hi ds] it starts on. *)
Lemma scan_varint_prefix ds post :
  Forall (is_digit 128) ds -> (length ds <= 8)%nat ->
  scan_varint 8 0 0 (map hi ds ++ post) =
    scan_varint (8 - length ds) (len ds) (undigits 128 ds) (map hi ds ++ post).
Proof. intros. apply (scan_varint_high 8 ds 0 0 [] post); done || lia. Qed.

Lemma get_after_high ds c post : get (map hi ds ++ c :: post) (len ds) = Some c.
Proof.
  pose proof (get_middle (map hi ds) c post) as Hg. unfold len in *. by rewrite length_map in Hg.
Qed.

Lemma undigits_quotient n b v :
  0 < b -> 0 <= v < b * 128 ^ Z.of_nat n -> undigits 128 (digits 128 n (v / b)) = v / b.
Proof.
  intros. rewrite undigits_digits by lia. apply Z.mod_small.
  split; [apply Z.div_pos | apply Z.div_lt_upper_bound]; lia.
Qed.

Lemma read_varint_venc v rest :
  0 <= v < 2 ^ 64 -> read_varint (venc v ++ rest) = Ok (v, varint_len v).
Proof.
  intros Hv. unfold read_varint. destruct (Z.ltb_spec v 128) as [|H128].
  { rewrite venc_small by lia. rewrite (scan_varint_last 7 0 0 _ v) by (done || lia).
    unfold varint_len. by zcases; try lia. }
  destruct (Z.ltb_spec v (2 ^ 56)) as [H56|H56].
  - destruct (varint_len_digits v ltac:(lia)) as (m & Hm & [_ Hd] & Hm7).
    rewrite Nat2Z.inj_succ, Z.pow_succ_r in Hd by lia.
    pose proof (Z.mod_pos_bound v 128 ltac:(lia)).
    rewrite (venc_mid v m), <- app_assoc by (done || lia).
    rewrite scan_varint_prefix by (by apply digits_ok || rewrite length_digits; lia).
    rewrite length_digits, undigits_quotient by lia.
    replace (8 - m)%nat with (S (7 - m)) by lia.
    rewrite (scan_varint_last _ _ _ _ (v mod 128)) by (apply get_after_high || lia).
    pose proof (Z.div_mod v 128 ltac:(lia)).
    rewrite Z.shiftl_mul_pow2, wrap_small by (unfold is_u; lia).
    unfold len. rewrite length_digits, Hm. do 2 f_equal; lia.
  - assert (venc v = map hi (digits 128 8 (v / 256)) ++ [v mod 256]) as Hvenc.
    { unfold venc. by zcases; try lia. }
    rewrite Hvenc, <- app_assoc.
    rewrite scan_varint_prefix by (by apply digits_ok || rewrite length_digits; lia).
    rewrite length_digits, undigits_quotient by lia. cbn [Nat.sub scan_varint].
    pose proof (get_after_high (digits 128 8 (v / 256)) (v mod 256) rest) as Hg.
    unfold len in Hg. rewrite length_digits in Hg. change (Z.of_nat 8) with 8 in Hg.
    cbn [app]. rewrite Hg. pose proof (Z.div_mod v 256 ltac:(lia)).
    assert (2 ^ 48 <= v / 256) by (apply Z.div_le_lower_bound; lia).
    assert (1 <= v / 256 / 2 ^ 48) by (apply Z.div_le_lower_bound; lia).
    rewrite Z.shiftr_div_pow2, Z.shiftl_mul_pow2 by lia.
    destruct (Z.eqb_spec (v / 256 / 2 ^ 48) 0); [lia|].
    pose proof (Z.mod_pos_bound v 256 ltac:(lia)).
    rewrite wrap_small by (unfold is_u; lia). unfold varint_len.
    change (Z.shiftl 1 56) with (2 ^ 56). zcases; try lia. do 2 f_equal. lia.
Qed.

(** ** What a successful or failed scan says about the buffer *)

Definition scan_inv (k : nat) (i : Z) (buf : list Z) (s : varint_scan) : Prop :=
  match s with
  | Found v n => i < n <= i + Z.of_nat k /\ n <= len buf /\ 0 <= v < 128 ^ n
  | Exhausted => len buf < i + Z.of_nat k
  | Nine v => i + Z.of_nat k <= len buf /\ 0 <= v < 128 ^ (i + Z.of_nat k)
  end.

Lemma scan_varint_inv k i v buf :
  bytes_ok buf -> 0 <= i <= len buf -> i + Z.of_nat k <= 8 -> 0 <= v < 128 ^ i ->
  scan_inv k i buf (scan_varint k i v buf).
Proof.
  revert i v. induction k as [|k IH]; intros i v Hok Hi Hk Hv.
  - simpl. rewrite Z.add_0_r. split; [lia | done].
  - cbn [scan_varint]. destruct (get buf i) as [c|] eqn:Hc; [|apply get_None_iff in Hc; simpl; lia].
    pose proof (get_Some_bound _ _ _ Hc). rewrite land_7f.
    pose proof (Z.mod_pos_bound c 128 ltac:(lia)).
    assert (128 ^ i <= 128 ^ 7) by (apply Z.pow_le_mono_r; lia).
    assert (wrap 64 (Z.shiftl v 7) = v * 128) as ->.
    { rewrite Z.shiftl_mul_pow2 by lia. apply wrap_small. unfold is_u. lia. }
    assert (0 <= v * 128 + c mod 128 < 128 ^ (i + 1)).
    { rewrite Z.pow_add_r by lia. lia. }
    destruct (Z.eqb_spec (Z.land c 0x80) 0); [simpl; lia|].
    specialize (IH (i + 1) (v * 128 + c mod 128) Hok ltac:(lia) ltac:(lia) ltac:(lia)).
    unfold scan_inv in *. replace (i + Z.of_nat (S k)) with (i + 1 + Z.of_nat k) by lia.
    destruct scan_varint; lia || exact IH.
Qed.

Lemma scan_varint_app k i v buf more :
  0 <= i -> scan_varint k i v buf <> Exhausted ->
  scan_varint k i v (buf ++ more) = scan_varint k i v buf.
Proof.
  revert i v. induction k as [|k IH]; intros i v Hi Hne; [done|].
  cbn [scan_varint] in *. destruct (get buf i) as [c|] eqn:Hc; [|done].
  assert (get (buf ++ more) i = Some c) as ->.
  { unfold get in *. destruct (Z.ltb_spec i 0); [done|]. by apply lookup_app_l_Some. }
  destruct (Z.land c 0x80 =? 0); [done|]. apply IH; [lia | done].
Qed.

(** A value below [128^n] is encoded in at most [n] bytes. *)
Lemma varint_len_le v n : 1 <= n <= 8 -> 0 <= v < 128 ^ n -> varint_len v <= n.
Proof.
  intros Hn Hv. destruct (Z.ltb_spec v 128); [unfold varint_len; zcases; lia|].
  assert (128 ^ n <= 128 ^ 8) by (apply Z.pow_le_mono_r; lia).
  destruct (varint_len_digits v ltac:(lia)) as (m & -> & [Hd _] & _).
  destruct (Z.leb_spec (Z.of_nat (S m)) n); [done|exfalso].
  assert (128 ^ n <= 128 ^ Z.of_nat m) by (apply Z.pow_le_mono_r; lia). lia.
Qed.

Lemma varint_len_upper v : 0 <= v < 2 ^ 56 -> v < 128 ^ varint_len v /\ varint_len v <= 8.
Proof.
  intros Hv. destruct (Z.ltb_spec v 128).
  - assert (varint_len v = 1) as -> by (unfold varint_len; zcases; lia). lia.
  - destruct (varint_len_digits v ltac:(lia)) as (m & -> & [_ Hd] & ?). lia.
Qed.

Lemma varint_len_mono a b : 0 <= a <= b -> b < 2 ^ 64 -> varint_len a <= varint_len b.
Proof.
  intros Ha Hb. pose proof (varint_len_bound a ltac:(lia)). pose proof (varint_len_bound b ltac:(lia)).
  destruct (Z.ltb_spec b (2 ^ 56)).
  - destruct (varint_len_upper b ltac:(lia)). apply varint_len_le; lia.
  - assert (varint_len b = 9) as ->; [|lia].
    unfold varint_len. change (Z.shiftl 1 56) with (2 ^ 56). zcases; lia.
Qed.

Lemma scan_varint_exhausted k i v buf :
  0 <= i -> scan_varint k i v buf = Exhausted -> len buf < i + Z.of_nat k.
Proof.
  revert i v. induction k as [|k IH]; intros i v Hi; cbn [scan_varint]; [done|].
  destruct (get buf i) as [c|] eqn:Hc.
  - destruct (Z.land c 0x80 =? 0); [done|]. intros H%IH; lia.
  - apply get_None_iff in Hc; lia.
Qed.

Lemma write_varint_to_vec_spec value payload :
  is_u 64 value -> write_varint_to_vec value payload = Ok (payload ++ venc value).
Proof.
  intros Hv. unfold write_varint_to_vec. pose proof (varint_len_bound value Hv).
  rewrite write_varint_spec by (done || (change (len (replicate 9 0)) with 9; lia)).
  rstep. rewrite <- (length_venc value Hv), slice_prefix. by rstep.
Qed.

Lemma read_varint_inv (buf : list Z) :
  bytes_ok buf ->
  match read_varint buf with
  | Ok (v, n) => is_u 64 v /\ 1 <= n <= 9 /\ n <= len buf /\ varint_len v <= n /\
                 (n = 9 -> varint_len v = 9)
  | Err e => e = Corrupt
  | Panic => False
  end.
Proof.
  intros Hok. pose proof (scan_varint_inv 8 0 0 buf Hok) as Hs.
  assert (scan_inv 8 0 buf (scan_varint 8 0 0 buf)) as Hi.
  { apply Hs; pose proof (len_nonneg buf); simpl; lia. }
  clear Hs. unfold read_varint, is_u. destruct (scan_varint 8 0 0 buf) as [v n| |v]; simpl in Hi.
  - assert (128 ^ n <= 128 ^ 8) by (apply Z.pow_le_mono_r; lia).
    repeat split; try lia. apply varint_len_le; lia.
  - done.
  - change (128 ^ 8) with (2 ^ 56) in Hi. destruct (get buf 8) as [c|] eqn:Hc; [|done].
    pose proof (get_Some_bound _ _ _ Hc). pose proof (bytes_ok_get _ _ _ Hok Hc) as Hb. unfold is_u in Hb.
    rewrite Z.shiftr_div_pow2, Z.shiftl_mul_pow2 by lia.
    rewrite wrap_small by (unfold is_u; lia). destruct (Z.eqb_spec (v / 2 ^ 48) 0) as [|Hz]; [done|].
    assert (2 ^ 48 <= v).
    { destruct (Z.leb_spec (2 ^ 48) v); [done|]. by rewrite Z.div_small in Hz by lia. }
    assert (varint_len (v * 2 ^ 8 + c) = 9) as ->
      by (unfold varint_len; change (Z.shiftl 1 56) with (2 ^ 56); zcases; lia).
    unfold is_u in *. lia.
Qed.

(** * Properties *)

(** C30: writing a [u64] into a large enough buffer stores exactly [varint_len value]
    bytes at its front, keeps the bytes behind them, and [read_varint] reads the
    value back whatever follows. *)
Theorem varint_roundtrip (buf rest : list Z) (value : Z) :
  is_u 64 value -> varint_len value <= len buf ->
  exists buf', write_varint buf value = Ok (buf', varint_len value) /\
    len buf' = len buf /\
    drop (Z.to_nat (varint_len value)) buf' = drop (Z.to_nat (varint_len value)) buf /\
    read_varint (take (Z.to_nat (varint_len value)) buf' ++ rest) = Ok (value, varint_len value) /\
    read_varint buf' = Ok (value, varint_len value).
Proof.
  intros Hv Hlen. pose proof (length_venc value Hv) as Hl. unfold len in Hl, Hlen.
  assert (Z.to_nat (varint_len value) = length (venc value)) as Hn by lia.
  exists (venc value ++ drop (length (venc value)) buf). rewrite write_varint_spec by done.
  rewrite Hn, take_app_length, drop_app_length, !read_varint_venc by done.
  unfold len. rewrite length_app, length_drop. repeat split; lia.
Qed.

Lemma varint_roundtrip_witness :
  is_u 64 300 /\ exists buf', write_varint (replicate 9 0) 300 = Ok (buf', 2) /\
    read_varint buf' = Ok (300, 2).
Proof.
  split; [unfold is_u; lia|].
  destruct (varint_roundtrip (replicate 9 0) [] 300 ltac:(unfold is_u; lia) ltac:(vm_compute; done))
    as (buf' & H1 & _ & _ & _ & H2).
  by exists buf'.
Defined.

(** C33: [read_varint] never panics; a varint it accepts lies inside the buffer, is a
    [u64], is no shorter than the value's own encoding, and a nine-byte one is
    the encoding [write_varint] produces. *)
Theorem read_varint_sound (buf : list Z) :
  bytes_ok buf ->
  match read_varint buf with
  | Ok (v, n) => is_u 64 v /\ 1 <= n <= 9 /\ n <= len buf /\ varint_len v <= n /\
                 (n = 9 -> varint_len v = 9)
  | Err e => e = Corrupt
  | Panic => False
  end.
Proof. apply read_varint_inv. Qed.

Lemma read_varint_sound_witness :
  bytes_ok [0x81; 0x80; 0x00] /\ read_varint [0x81; 0x80; 0x00] = Ok (0x4000, 3) /\
  varint_len 0x4000 <= 3.
Proof.
  assert (bytes_ok [0x81; 0x80; 0x00]) as Hok by (repeat constructor; unfold is_digit; lia).
  split; [done|]. split; [done|].
  pose proof (read_varint_sound [0x81; 0x80; 0x00] Hok) as H.
  assert (read_varint [0x81; 0x80; 0x00] = Ok (0x4000, 3)) as E by reflexivity.
  rewrite E in H. apply H.
Defined.

(** [read_varint_partial] on a prefix of a stream never answers anything the whole
    stream contradicts: a value or an error is final, and it asks for more bytes
    only while [read_varint] on the prefix reports corruption and fewer than nine
    bytes have arrived. *)
Theorem read_varint_partial_stream (buf more : list Z) :
  match read_varint_partial buf with
  | Ok (Some r) => read_varint buf = Ok r /\ read_varint (buf ++ more) = Ok r
  | Ok None => read_varint buf = Err Corrupt /\ len buf < 9
  | Err e => e = Corrupt /\ read_varint (buf ++ more) = Err Corrupt
  | Panic => False
  end.
Proof.
  pose proof (scan_varint_app 8 0 0 buf more ltac:(lia)) as Happ.
  pose proof (scan_varint_exhausted 8 0 0 buf ltac:(lia)) as Hex.
  unfold read_varint_partial, read_varint.
  destruct (scan_varint 8 0 0 buf) as [v n| |v].
  - by rewrite Happ.
  - specialize (Hex eq_refl). split; [done | lia].
  - rewrite Happ by done. destruct (get buf 8) as [c|] eqn:Hc.
    + rewrite (get_app_l _ _ _ _ Hc). by destruct (Z.shiftr v 48 =? 0).
    + apply get_None_iff in Hc; [|lia]. split; [done | lia].
Qed.

(** Appending a varint to a payload appends a self-delimiting encoding: reading at
    the old end of the payload gives the value back. *)
Theorem write_varint_to_vec_roundtrip (payload rest : list Z) (value : Z) :
  is_u 64 value ->
  exists bs, write_varint_to_vec value payload = Ok (payload ++ bs) /\
    len bs = varint_len value /\
    read_varint (drop (length payload) ((payload ++ bs) ++ rest)) = Ok (value, varint_len value).
Proof.
  intros Hv. exists (venc value). rewrite write_varint_to_vec_spec by done.
  split; [done|]. split; [by apply length_venc|].
  rewrite <- app_assoc, drop_app_length. by apply read_varint_venc.
Qed.

Lemma write_varint_to_vec_roundtrip_witness :
  is_u 64 (2 ^ 64 - 1) /\ exists bs, write_varint_to_vec (2 ^ 64 - 1) [7] = Ok (7 :: bs) /\ len bs = 9.
Proof.
  split; [unfold is_u; lia|].
  destruct (write_varint_to_vec_roundtrip [7] [] (2 ^ 64 - 1) ltac:(unfold is_u; lia)) as (bs & H & L & _).
  by exists bs.
Defined.
