(* ===== verification/Record.v ===== *)
(** The SQLite record format: serial types and column values (core/types.rs,
    core/storage/sqlite3_ondisk.rs), the two serializers
    ([ImmutableRecord::build], [Record::serialize]) and the lazy reader
    [ValueIterator] with the accessors built on it.

    A column value carries a float as its IEEE-754 bit pattern and a text as its
    bytes.  [usize] is 64 bits wide. *)

From stdpp Require Import base list numbers.
From Stdlib Require Import ZArith Lia.
From S2P Require Import Prelude Varint.

(** * Values and serial types *)

Inductive Value : Type :=
| Null
| Integer (i : Z)       (** an [i64] *)
| Float (bits : Z)      (** a [NonNan], as [f64::to_bits] *)
| Text (bs : list Z)
| Blob (bs : list Z).

Global Instance Value_eq_dec : EqDecision Value.
Proof. solve_decision. Defined.

Inductive SerialTypeKind : Type :=
| KNull | KI8 | KI16 | KI24 | KI32 | KI48 | KI64 | KF64 | KConstInt0 | KConstInt1 | KText | KBlob.

Global Instance SerialTypeKind_eq_dec : EqDecision SerialTypeKind.
Proof. solve_decision. Defined.

(** A [SerialType] is the [u64] it wraps. *)
Definition u64_is_valid_serial_type (n : Z) : bool := negb (n =? 10) && negb (n =? 11).

Definition serial_blob (size : Z) : res LimboError Z := d ← umul 64 size 2; uadd 64 12 d.
Definition serial_text (size : Z) : res LimboError Z := d ← umul 64 size 2; uadd 64 13 d.

Definition kind (n : Z) : res LimboError SerialTypeKind :=
  match n with
  | 0 => Ok KNull
  | 1 => Ok KI8
  | 2 => Ok KI16
  | 3 => Ok KI24
  | 4 => Ok KI32
  | 5 => Ok KI48
  | 6 => Ok KI64
  | 7 => Ok KF64
  | 8 => Ok KConstInt0
  | 9 => Ok KConstInt1
  | _ => if 12 <=? n then (if n mod 2 =? 0 then Ok KBlob else Ok KText) else Panic
  end.

Definition serial_size (n : Z) : res LimboError Z :=
  k ← kind n;
  match k with
  | KNull => Ok 0
  | KI8 => Ok 1
  | KI16 => Ok 2
  | KI24 => Ok 3
  | KI32 => Ok 4
  | KI48 => Ok 6
  | KI64 => Ok 8
  | KF64 => Ok 8
  | KConstInt0 => Ok 0
  | KConstInt1 => Ok 0
  | KText => x ← usub n 13; Ok (x / 2)
  | KBlob => x ← usub n 12; Ok (x / 2)
  end.

Definition get_serial_type_size (serial : Z) : res LimboError Z :=
  match serial with
  | 0 | 8 | 9 => Ok 0
  | 1 => Ok 1
  | 2 => Ok 2
  | 3 => Ok 3
  | 4 => Ok 4
  | 5 => Ok 6
  | 6 | 7 => Ok 8
  | n =>
      if 12 <=? n then (if n mod 2 =? 0 then Ok ((n - 12) / 2) else Ok ((n - 13) / 2))
      else Err Corrupt
  end.

Definition I8_LOW : Z := -128.
Definition I8_HIGH : Z := 127.
Definition I16_LOW : Z := -32768.
Definition I16_HIGH : Z := 32767.
Definition I24_LOW : Z := -8388608.
Definition I24_HIGH : Z := 8388607.
Definition I32_LOW : Z := -2147483648.
Definition I32_HIGH : Z := 2147483647.
Definition I48_LOW : Z := -140737488355328.
Definition I48_HIGH : Z := 140737488355327.

(** [(lo..=hi).contains(&i)]. *)
Definition contains (lo hi i : Z) : bool := (lo <=? i) && (i <=? hi).

Definition serial_from_int (i : Z) : Z :=
  match i with
  | 0 => 8
  | 1 => 9
  | _ =>
      if contains I8_LOW I8_HIGH i then 1
      else if contains I16_LOW I16_HIGH i then 2
      else if contains I24_LOW I24_HIGH i then 3
      else if contains I32_LOW I32_HIGH i then 4
      else if contains I48_LOW I48_HIGH i then 5
      else 6
  end.

(** [SerialType::from]. *)
Definition serial_from (v : Value) : res LimboError Z :=
  match v with
  | Null => Ok 0
  | Integer i => Ok (serial_from_int i)
  | Float _ => Ok 7
  | Text t => serial_text (len t)
  | Blob b => serial_blob (len b)
  end.

(** [SerialType::try_from]. *)
Definition serial_try_from (uint : Z) : res LimboError Z :=
  if (uint =? 10) || (uint =? 11) then Err Corrupt else Ok uint.

Definition validate_serial_type (value : Z) : res LimboError unit :=
  ensure (u64_is_valid_serial_type value) Corrupt.

(** [f64::is_nan] on the bit pattern, and [ValueRef::from_f64]. *)
Definition f64_is_nan (bits : Z) : bool := 0x7ff0000000000000 <? Z.land bits 0x7fffffffffffffff.
Definition from_f64 (bits : Z) : Value := if f64_is_nan bits then Null else Float bits.

(** * Reading one value *)

(** [i{8n}::from_be_bytes]. *)
Definition signed_be (bs : list Z) : Z := to_signed (8 * len bs) (be_val bs).

(** [(b as i8 >> 7) as u8]. *)
Definition sign_extension (b : Z) : Z := wrap 8 (Z.shiftr (to_signed 8 b) 7).
(** [if b <= 0x7F { 0 } else { 0xFF }]. *)
Definition sign_extension_cmp (b : Z) : Z := if b <=? 0x7f then 0 else 0xff.

Definition or_corrupt {A} (o : option A) : res LimboError A :=
  match o with Some a => Ok a | None => Err Corrupt end.

Definition read_value (buf : list Z) (serial_type : Z) : res LimboError (Value * Z) :=
  k ← kind serial_type;
  match k with
  | KNull => Ok (Null, 0)
  | KI8 =>
      val ← or_corrupt (get buf 0);
      Ok (Integer (to_signed 8 val), 1)
  | KI16 =>
      bytes ← or_corrupt (get_to buf 2);
      Ok (Integer (signed_be bytes), 2)
  | KI24 =>
      bytes ← or_corrupt (get_to buf 3);
      b0 ← at_ bytes 0;
      Ok (Integer (signed_be (sign_extension b0 :: bytes)), 3)
  | KI32 =>
      bytes ← or_corrupt (get_to buf 4);
      Ok (Integer (signed_be bytes), 4)
  | KI48 =>
      bytes ← or_corrupt (get_to buf 6);
      b0 ← at_ bytes 0;
      Ok (Integer (signed_be (sign_extension b0 :: sign_extension b0 :: bytes)), 6)
  | KI64 =>
      bytes ← or_corrupt (get_to buf 8);
      Ok (Integer (signed_be bytes), 8)
  | KF64 =>
      bytes ← or_corrupt (get_to buf 8);
      Ok (from_f64 (be_val bytes), 8)
  | KConstInt0 => Ok (Integer 0, 0)
  | KConstInt1 => Ok (Integer 1, 0)
  | KBlob =>
      content_size ← serial_size serial_type;
      data ← or_corrupt (get_to buf content_size);
      Ok (Blob data, content_size)
  | KText =>
      content_size ← serial_size serial_type;
      data ← or_corrupt (get_to buf content_size);
      Ok (Text data, content_size)
  end.

(** [[buf[i], buf[i + 1], ...]] of [n] bytes from [i] on. *)
Fixpoint at_many {E} (n : nat) (buf : list Z) (i : Z) : res E (list Z) :=
  match n with
  | O => Ok []
  | S n => b ← at_ buf i; bs ← at_many n buf (i + 1); Ok (b :: bs)
  end.

Definition read_value_serial_type (buf : list Z) (serial_type : Z) : res LimboError (Value * Z) :=
  match serial_type with
  | 0 => Ok (Null, 0)
  | 1 =>
      _ ← ensure (negb (len buf =? 0)) Corrupt;
      b ← at_ buf 0;
      Ok (Integer (to_signed 8 b), 1)
  | 2 =>
      _ ← ensure (negb (len buf <? 2)) Corrupt;
      bs ← at_many 2 buf 0;
      Ok (Integer (signed_be bs), 2)
  | 3 =>
      _ ← ensure (negb (len buf <? 3)) Corrupt;
      b0 ← at_ buf 0;
      bs ← at_many 3 buf 0;
      Ok (Integer (signed_be (sign_extension_cmp b0 :: bs)), 3)
  | 4 =>
      _ ← ensure (negb (len buf <? 4)) Corrupt;
      bs ← at_many 4 buf 0;
      Ok (Integer (signed_be bs), 4)
  | 5 =>
      _ ← ensure (negb (len buf <? 6)) Corrupt;
      b0 ← at_ buf 0;
      bs ← at_many 6 buf 0;
      Ok (Integer (signed_be (sign_extension_cmp b0 :: sign_extension_cmp b0 :: bs)), 6)
  | 6 =>
      _ ← ensure (negb (len buf <? 8)) Corrupt;
      bs ← at_many 8 buf 0;
      Ok (Integer (signed_be bs), 8)
  | 7 =>
      _ ← ensure (negb (len buf <? 8)) Corrupt;
      bs ← at_many 8 buf 0;
      Ok (from_f64 (be_val bs), 8)
  | 8 => Ok (Integer 0, 0)
  | 9 => Ok (Integer 1, 0)
  | n =>
      if 12 <=? n then
        if n mod 2 =? 0 then
          let content_size := (n - 12) / 2 in
          data ← or_corrupt (get_to buf content_size);
          Ok (Blob data, content_size)
        else
          let content_size := (n - 13) / 2 in
          data ← or_corrupt (get_to buf content_size);
          Ok (Text data, content_size)
      else Err Corrupt
  end.

Definition read_integer (buf : list Z) (serial_type : Z) : res LimboError Z :=
  match serial_type with
  | 1 =>
      _ ← ensure (negb (len buf =? 0)) Corrupt;
      b ← at_ buf 0;
      Ok (to_signed 8 b)
  | 2 =>
      _ ← ensure (negb (len buf <? 2)) Corrupt;
      bs ← at_many 2 buf 0;
      Ok (signed_be bs)
  | 3 =>
      _ ← ensure (negb (len buf <? 3)) Corrupt;
      b0 ← at_ buf 0;
      bs ← at_many 3 buf 0;
      Ok (signed_be (sign_extension_cmp b0 :: bs))
  | 4 =>
      _ ← ensure (negb (len buf <? 4)) Corrupt;
      bs ← at_many 4 buf 0;
      Ok (signed_be bs)
  | 5 =>
      _ ← ensure (negb (len buf <? 6)) Corrupt;
      b0 ← at_ buf 0;
      bs ← at_many 6 buf 0;
      Ok (signed_be (sign_extension_cmp b0 :: sign_extension_cmp b0 :: bs))
  | 6 =>
      _ ← ensure (negb (len buf <? 8)) Corrupt;
      bs ← at_many 8 buf 0;
      Ok (signed_be bs)
  | 8 => Ok 0
  | 9 => Ok 1
  | _ => Err Corrupt
  end.

(** * Serializing *)

(** The loop of [Record::calc_header_size]; it stops when the size no longer
    changes. *)
Fixpoint header_size_loop (fuel : nat) (sizeof_serial_types header_size : Z) (temp_buf : list Z) :
    res LimboError Z :=
  match fuel with
  | O => Panic
  | S fuel =>
      let prev_header_size := header_size in
      '(temp_buf, varint_len) ← write_varint temp_buf header_size;
      header_size ← uadd 64 sizeof_serial_types varint_len;
      if header_size =? prev_header_size then Ok header_size
      else header_size_loop fuel sizeof_serial_types header_size temp_buf
  end.

(** Ten iterations are always enough ([calc_header_size_spec]). *)
Definition calc_header_size (sizeof_serial_types : Z) : res LimboError Z :=
  if sizeof_serial_types <? 127 then uadd 64 sizeof_serial_types 1
  else header_size_loop 10 sizeof_serial_types sizeof_serial_types (replicate 9 0).

(** The bytes both serializers write for a value.  [i.to_be_bytes()] after a cast
    to a narrower type keeps the low bytes of [i]. *)
Definition value_content (v : Value) : res LimboError (list Z) :=
  match v with
  | Null => Ok []
  | Integer i =>
      k ← kind (serial_from_int i);
      match k with
      | KConstInt0 | KConstInt1 => Ok []
      | KI8 => Ok (be_bytes 1 i)
      | KI16 => Ok (be_bytes 2 i)
      | KI24 => Ok (drop 1 (be_bytes 4 i))
      | KI32 => Ok (be_bytes 4 i)
      | KI48 => Ok (drop 2 (be_bytes 8 i))
      | KI64 => Ok (be_bytes 8 i)
      | _ => Panic
      end
  | Float f => Ok (be_bytes 8 f)
  | Text t => Ok t
  | Blob b => Ok b
  end.

(** [Value::serialize_serial], which has no case for the constants 0 and 1. *)
Definition serialize_serial (v : Value) (out : list Z) : res LimboError (list Z) :=
  match v with
  | Null => Ok out
  | Integer i =>
      k ← kind (serial_from_int i);
      match k with
      | KI8 => Ok (out ++ be_bytes 1 i)
      | KI16 => Ok (out ++ be_bytes 2 i)
      | KI24 => Ok (out ++ drop 1 (be_bytes 4 i))
      | KI32 => Ok (out ++ be_bytes 4 i)
      | KI48 => Ok (out ++ drop 2 (be_bytes 8 i))
      | KI64 => Ok (out ++ be_bytes 8 i)
      | _ => Panic
      end
  | Float f => Ok (out ++ be_bytes 8 f)
  | Text t => Ok (out ++ t)
  | Blob b => Ok (out ++ b)
  end.

(** [AppendWriter]: the buffer and the position of the next byte. *)
Record AppendWriter := { aw_buf : list Z; aw_pos : Z }.

Definition extend_from_slice (w : AppendWriter) (bs : list Z) : res LimboError AppendWriter :=
  buf ← write_at (aw_buf w) (aw_pos w) bs;
  Ok {| aw_buf := buf; aw_pos := aw_pos w + len bs |}.

(** The sizing pass of [build]. *)
Fixpoint sizing_pass (values : list Value) (size_header size_values : Z) :
    res LimboError (Z * Z) :=
  match values with
  | [] => Ok (size_header, size_values)
  | v :: values =>
      st ← serial_from v;
      size_header ← uadd 64 size_header (varint_len st);
      sz ← serial_size st;
      size_values ← uadd 64 size_values sz;
      sizing_pass values size_header size_values
  end.

(** The pass that writes the serial types; [serial_type_buf] is reused. *)
Fixpoint write_serial_types (values : list Value) (serial_type_buf : list Z) (w : AppendWriter) :
    res LimboError (list Z * AppendWriter) :=
  match values with
  | [] => Ok (serial_type_buf, w)
  | v :: values =>
      st ← serial_from v;
      '(serial_type_buf, n) ← write_varint serial_type_buf st;
      bs ← slice serial_type_buf 0 n;
      w ← extend_from_slice w bs;
      write_serial_types values serial_type_buf w
  end.

Fixpoint write_contents (values : list Value) (w : AppendWriter) : res LimboError AppendWriter :=
  match values with
  | [] => Ok w
  | v :: values =>
      c ← value_content v;
      w ← extend_from_slice w c;
      write_contents values w
  end.

(** [ImmutableRecord::build] into an empty [RecordBuf]; allocation never fails. *)
Definition build (values : list Value) : res LimboError (list Z) :=
  '(size_header, size_values) ← sizing_pass values 0 0;
  header_size ← calc_header_size size_header;
  total_size ← uadd 64 header_size size_values;
  '(serial_type_buf, n) ← write_varint (replicate 9 0) header_size;
  let w := {| aw_buf := replicate (Z.to_nat total_size) 0; aw_pos := 0 |} in
  bs ← slice serial_type_buf 0 n;
  w ← extend_from_slice w bs;
  '(_, w) ← write_serial_types values serial_type_buf w;
  w ← write_contents values w;
  Ok (aw_buf w).

(** The first loop of [Record::serialize]: nine bytes are appended, the varint is
    written over them and the unused ones are cut off. *)
Fixpoint serialize_types (values : list Value) (buf : list Z) : res LimboError (list Z) :=
  match values with
  | [] => Ok buf
  | v :: values =>
      st ← serial_from v;
      let buf9 := buf ++ replicate 9 0 in
      tail ← slice buf9 (len buf9 - 9) (len buf9);
      '(tail, n) ← write_varint tail st;
      buf9 ← write_at buf9 (len buf9 - 9) tail;
      serialize_types values (take (Z.to_nat (len buf9 - 9 + n)) buf9)
  end.

Fixpoint serialize_contents (values : list Value) (buf : list Z) : res LimboError (list Z) :=
  match values with
  | [] => Ok buf
  | v :: values =>
      c ← value_content v;
      serialize_contents values (buf ++ c)
  end.

(** [Record::serialize]. *)
Definition serialize (values : list Value) (buf : list Z) : res LimboError (list Z) :=
  let initial_i := len buf in
  buf ← serialize_types values buf;
  header_size ← usub (len buf) initial_i;
  buf ← serialize_contents values buf;
  header_size ← calc_header_size header_size;
  '(header_bytes_buf, n) ← write_varint (replicate 9 0) header_size;
  Ok (take (Z.to_nat initial_i) buf ++ take (Z.to_nat n) header_bytes_buf ++
      drop (Z.to_nat initial_i) buf).

(** * Reading a record *)

(** [buf[i..]]. *)
Definition slice_from (buf : list Z) (i : Z) : res LimboError (list Z) := slice buf i (len buf).

Record ValueIterator := { header_section : list Z; data_section : list Z }.

(** [ValueIterator::new]. *)
Definition iter (payload : list Z) : res LimboError ValueIterator :=
  '(header_size, header_varint_len) ← read_varint payload;
  if (len payload <? header_size) || (len payload <? header_varint_len)
     || (header_size <? header_varint_len)
  then Err Corrupt
  else
    h ← slice payload header_varint_len header_size;
    d ← slice_from payload header_size;
    Ok {| header_section := h; data_section := d |}.

(** [next]: the item, if any, and the iterator afterwards; an item is itself a
    [Result] and the outer [Panic] is a panic. *)
Definition step : Type := option (res LimboError Value) * ValueIterator.

Definition next (it : ValueIterator) : res LimboError step :=
  let header := header_section it in
  if len header =? 0 then Ok (None, it)
  else match read_varint header with
  | Ok (serial_type, bytes_read) =>
      header ← slice_from header bytes_read;
      let it := {| header_section := header; data_section := data_section it |} in
      match read_value_serial_type (data_section it) serial_type with
      | Ok (value, n) =>
          data ← slice_from (data_section it) n;
          Ok (Some (Ok value), {| header_section := header; data_section := data |})
      | Err e => Ok (Some (Err e), it)
      | Panic => Panic
      end
  | Err e => Ok (Some (Err e), it)
  | Panic => Panic
  end.

(** What the [for _ in 0..n] loop of [nth] leaves: it ran to its end, it found the
    header empty, or it met an error. *)
Inductive nth_skip : Type :=
| Skipped (header : list Z) (data_sum : Z)
| HeaderEnd
| SkipErr (e : LimboError).

Fixpoint nth_loop (n : nat) (header : list Z) (data_sum : Z) : res LimboError nth_skip :=
  match n with
  | O => Ok (Skipped header data_sum)
  | S n =>
      if len header =? 0 then Ok HeaderEnd
      else match read_varint header with
      | Ok (serial_type, bytes_read) =>
          header ← slice_from header bytes_read;
          match get_serial_type_size serial_type with
          | Ok size => data_sum ← uadd 64 data_sum size; nth_loop n header data_sum
          | Err e => Ok (SkipErr e)
          | Panic => Panic
          end
      | Err e => Ok (SkipErr e)
      | Panic => Panic
      end
  end.

Definition nth (n : nat) (it : ValueIterator) : res LimboError step :=
  skip ← nth_loop n (header_section it) 0;
  match skip with
  | HeaderEnd => Ok (None, it)
  | SkipErr e => Ok (Some (Err e), it)
  | Skipped header data_sum =>
      let data := data_section it in
      if len data <? data_sum then Ok (Some (Err Corrupt), it)
      else
        data ← slice_from data data_sum;
        next {| header_section := header; data_section := data |}
  end.

(** [try_collect::<Result<_>>]: the values up to the end or the first error.  A
    step that goes on consumes a header byte, so a fuel of one more than the
    header's length never runs out ([values_no_panic]). *)
Fixpoint try_collect (fuel : nat) (it : ValueIterator) : res LimboError (list Value) :=
  match fuel with
  | O => Panic
  | S fuel =>
      '(item, it) ← next it;
      match item with
      | None => Ok []
      | Some r => v ← r; vs ← try_collect fuel it; Ok (v :: vs)
      end
  end.

Definition values (payload : list Z) : res LimboError (list Value) :=
  it ← iter payload;
  try_collect (S (length (header_section it))) it.

(** [values_owned]: the same values, after an [expect] on the iterator. *)
Definition values_owned (payload : list Z) : res LimboError (list Value) :=
  match iter payload with
  | Ok it => try_collect (S (length (header_section it))) it
  | _ => Panic
  end.

(** The [for _ in range.start + 1..range.end] loop of [values_range]. *)
Fixpoint take_next (n : nat) (it : ValueIterator) : res LimboError (list Value) :=
  match n with
  | O => Ok []
  | S n =>
      '(item, it) ← next it;
      match item with
      | None => Ok []
      | Some r => v ← r; vs ← take_next n it; Ok (v :: vs)
      end
  end.

Definition values_range (payload : list Z) (start stop : nat) : res LimboError (list Value) :=
  it ← iter payload;
  _ ← usub (Z.of_nat stop) (Z.of_nat start);
  '(item, it) ← nth start it;
  match item with
  | Some r => v ← r; vs ← take_next (stop - (start + 1)) it; Ok (v :: vs)
  | None => Ok []
  end.

(** [nth(b - a - 1)] with the subtractions checked. *)
Definition nth_after (a b : nat) (it : ValueIterator) : res LimboError step :=
  d ← usub (Z.of_nat b) (Z.of_nat a);
  d ← usub d 1;
  nth (Z.to_nat d) it.

Definition two_values (payload : list Z) (idx1 idx2 : nat) : res LimboError (Value * Value) :=
  it ← iter payload;
  '(val1, it) ← nth idx1 it;
  '(val2, _) ← nth_after idx1 idx2 it;
  match val1, val2 with
  | Some v1, Some v2 => v1 ← v1; v2 ← v2; Ok (v1, v2)
  | _, _ => Err InternalError
  end.

Definition three_values (payload : list Z) (idx1 idx2 idx3 : nat) :
    res LimboError (Value * Value * Value) :=
  it ← iter payload;
  '(val1, it) ← nth idx1 it;
  '(val2, it) ← nth_after idx1 idx2 it;
  '(val3, _) ← nth_after idx2 idx3 it;
  match val1, val2, val3 with
  | Some v1, Some v2, Some v3 => v1 ← v1; v2 ← v2; v3 ← v3; Ok (v1, v2, v3)
  | _, _, _ => Err InternalError
  end.

Definition four_values (payload : list Z) (idx1 idx2 idx3 idx4 : nat) :
    res LimboError (Value * Value * Value * Value) :=
  it ← iter payload;
  '(val1, it) ← nth idx1 it;
  '(val2, it) ← nth_after idx1 idx2 it;
  '(val3, it) ← nth_after idx2 idx3 it;
  '(val4, _) ← nth_after idx3 idx4 it;
  match val1, val2, val3, val4 with
  | Some v1, Some v2, Some v3, Some v4 =>
      v1 ← v1; v2 ← v2; v3 ← v3; v4 ← v4; Ok (v1, v2, v3, v4)
  | _, _, _, _ => Err InternalError
  end.

Definition value (payload : list Z) (idx : nat) : res LimboError Value :=
  if len payload =? 0 then Err InternalError
  else
    it ← iter payload;
    '(item, _) ← nth idx it;
    match item with
    | Some v => v
    | None => Err InternalError
    end.

Definition value_opt (payload : list Z) (idx : nat) : res LimboError (option Value) :=
  match iter payload with
  | Ok it =>
      '(item, _) ← nth idx it;
      match item with Some (Ok v) => Ok (Some v) | _ => Ok None end
  | Err _ => Ok None
  | Panic => Panic
  end.

Definition first_value (payload : list Z) : res LimboError Value :=
  if len payload =? 0 then Err InternalError
  else
    it ← iter payload;
    '(item, _) ← next it;
    match item with
    | Some v => v
    | None => Err InternalError
    end.

(** [ValueIterator::count] on the header section. *)
Fixpoint count_loop (fuel : nat) (header : list Z) (count : Z) : Z :=
  match fuel with
  | O => count
  | S fuel =>
      if len header =? 0 then count
      else match read_varint header with
      | Ok (_, bytes_read) => count_loop fuel (drop (Z.to_nat bytes_read) header) (count + 1)
      | _ => count
      end
  end.

Definition count (it : ValueIterator) : Z :=
  count_loop (length (header_section it)) (header_section it) 0.

Definition column_count (payload : list Z) : Z :=
  match iter payload with Ok it => count it | _ => 0 end.

Fixpoint contains_null_loop (fuel : nat) (header : list Z) : res LimboError bool :=
  match fuel with
  | O => Ok false
  | S fuel =>
      if len header =? 0 then Ok false
      else
        '(serial_type, bytes_read) ← read_varint header;
        if serial_type =? 0 then Ok true
        else h ← slice_from header bytes_read; contains_null_loop fuel h
  end.

Definition contains_null (payload : list Z) : res LimboError bool :=
  '(header_size, header_varint_len) ← read_varint payload;
  if (len payload <? header_size) || (len payload <? header_varint_len) then Err Corrupt
  else
    header ← slice payload header_varint_len header_size;
    contains_null_loop (length header) header.

(** [iter.last()], which is [fold] with the last item as the accumulator; [None]
    when the fuel runs out. *)
Fixpoint last_loop (fuel : nat) (it : ValueIterator) (acc : option (res LimboError Value)) :
    option (res LimboError (option (res LimboError Value))) :=
  match fuel with
  | O => None
  | S fuel =>
      match next it with
      | Ok (None, _) => Some (Ok acc)
      | Ok (Some r, it) => last_loop fuel it (Some r)
      | Err e => Some (Err e)
      | Panic => Some Panic
      end
  end.

Definition last_value (fuel : nat) (payload : list Z) :
    option (res LimboError (option (res LimboError Value))) :=
  if len payload =? 0 then Some (Ok (Some (Err InternalError)))
  else match iter payload with
  | Ok it => last_loop fuel it None
  | Err e => Some (Ok (Some (Err e)))
  | Panic => Some Panic
  end.

(** * The format in closed form *)

(** The values a column can hold: in range, floats not NaN, strings whose serial
    type fits a [u64] with room to spare. *)
Definition wf_value (v : Value) : Prop :=
  match v with
  | Null => True
  | Integer i => is_i 64 i
  | Float f => is_u 64 f /\ f64_is_nan f = false
  | Text t | Blob t => len t < 2 ^ 62
  end.

Definition stype (v : Value) : Z :=
  match v with
  | Null => 0
  | Integer i => serial_from_int i
  | Float _ => 7
  | Text t => 13 + len t * 2
  | Blob b => 12 + len b * 2
  end.

Definition int_size (st : Z) : nat :=
  match st with
  | 1 => 1%nat | 2 => 2%nat | 3 => 3%nat | 4 => 4%nat | 5 => 6%nat | 6 => 8%nat | _ => 0%nat
  end.

Definition content (v : Value) : list Z :=
  match v with
  | Null => []
  | Integer i => be_bytes (int_size (serial_from_int i)) i
  | Float f => be_bytes 8 f
  | Text t | Blob t => t
  end.

Definition header_bytes (vs : list Value) : list Z := concat (map (fun v => venc (stype v)) vs).
Definition content_bytes (vs : list Value) : list Z := concat (map content vs).

(** [payload] is the record of [vs]. *)
Definition is_record (vs : list Value) (payload : list Z) : Prop :=
  exists hs, calc_header_size (len (header_bytes vs)) = Ok hs /\
    payload = venc hs ++ header_bytes vs ++ content_bytes vs.

Definition wf_record (vs : list Value) : Prop :=
  Forall wf_value vs /\ len (header_bytes vs) + len (content_bytes vs) < 2 ^ 62.

Lemma calc_loop_spec fuel s l tmp :
  0 <= s -> s + 9 < 2 ^ 64 -> 0 <= l <= 9 -> l <= varint_len (s + l) -> len tmp = 9 ->
  9 - l < Z.of_nat fuel -> (forall h', h' = s + varint_len h' -> s <= h' < 2 ^ 64 -> s + l <= h') ->
  exists h, header_size_loop fuel s (s + l) tmp = Ok h /\ h = s + varint_len h /\
    s + l <= h <= s + 9 /\ (forall h', h' = s + varint_len h' -> s <= h' < 2 ^ 64 -> h <= h').
Proof.
  revert l tmp. induction fuel as [|fuel IH]; intros l tmp Hs H9 Hl Hll Ht Hf Hh; [lia|].
  pose proof (varint_len_bound (s + l) ltac:(lia)) as Hb. cbn [header_size_loop].
  rewrite write_varint_spec by lia. rstep. unfold uadd.
  destruct (Z.ltb_spec (s + varint_len (s + l)) (2 ^ 64)) as [_|]; [|lia]. rstep.
  destruct (Z.eqb_spec (s + varint_len (s + l)) (s + l)) as [He|Hne].
  - exists (s + varint_len (s + l)). split; [done|]. rewrite He. split; [lia|]. split; [lia|]. done.
  - destruct (IH (varint_len (s + l)) (venc (s + l) ++ drop (length (venc (s + l))) tmp))
      as (h & H1 & H2 & H3 & H4); try lia.
    + apply varint_len_mono; lia.
    + pose proof (length_venc (s + l) ltac:(lia)). unfold len in *.
      rewrite length_app, length_drop. lia.
    + intros h' He H64. specialize (Hh h' He H64).
      pose proof (varint_len_mono (s + l) h' ltac:(lia) ltac:(lia)). lia.
    + exists h. repeat split; auto; lia.
Qed.

Lemma calc_header_size_spec s :
  0 <= s -> s + 9 < 2 ^ 64 ->
  exists h, calc_header_size s = Ok h /\ h = s + varint_len h /\ h <= s + 9 /\
    (forall h', h' = s + varint_len h' -> s <= h' < 2 ^ 64 -> h <= h').
Proof.
  intros Hs H9. unfold calc_header_size. destruct (Z.ltb_spec s 127) as [Hlt|Hge].
  - unfold uadd. destruct (Z.ltb_spec (s + 1) (2 ^ 64)); [|lia]. exists (s + 1).
    assert (varint_len (s + 1) = 1) as E by (unfold varint_len; zcases; lia).
    rewrite E. repeat split; try lia. intros h' He Hh.
    pose proof (varint_len_bound h' ltac:(lia)). lia.
  - destruct (calc_loop_spec 10 s 0 (replicate 9 0)) as (h & H1 & H2 & H3 & H4); try (done || lia).
    + rewrite Z.add_0_r. pose proof (varint_len_bound s). lia.
    + rewrite Z.add_0_r in H1. exists h. repeat split; auto; lia.
Qed.

(** ** One value *)

Lemma kind_large n : 12 <= n -> kind n = if n mod 2 =? 0 then Ok KBlob else Ok KText.
Proof.
  intros Hn. assert (kind n = if 12 <=? n then (if n mod 2 =? 0 then Ok KBlob else Ok KText) else Panic) as ->.
  { destruct n as [|p|p]; try lia. do 4 (destruct p as [p|p|]; try reflexivity; try lia). }
  by destruct (Z.leb_spec 12 n); [|lia].
Qed.
Lemma get_serial_type_size_large n :
  12 <= n -> get_serial_type_size n = if n mod 2 =? 0 then Ok ((n - 12) / 2) else Ok ((n - 13) / 2).
Proof.
  intros Hn. destruct n as [|p|p]; try lia. unfold get_serial_type_size.
  destruct (Z.leb_spec 12 (Z.pos p)); [|lia].
  do 4 (destruct p as [p|p|]; try reflexivity; try lia).
Qed.
Lemma read_value_serial_type_large buf n :
  12 <= n ->
  read_value_serial_type buf n =
  if n mod 2 =? 0 then
    data ← or_corrupt (get_to buf ((n - 12) / 2)); Ok (Blob data, (n - 12) / 2)
  else data ← or_corrupt (get_to buf ((n - 13) / 2)); Ok (Text data, (n - 13) / 2).
Proof.
  intros Hn. destruct n as [|p|p]; try lia. unfold read_value_serial_type.
  destruct (Z.leb_spec 12 (Z.pos p)); [|lia].
  do 4 (destruct p as [p|p|]; try reflexivity; try lia).
Qed.

Lemma text_mod l : ((13 + l * 2) mod 2 =? 0) = false.
Proof. apply Z.eqb_neq. rewrite Z.mod_add by lia. done. Qed.
Lemma blob_mod l : ((12 + l * 2) mod 2 =? 0) = true.
Proof. apply Z.eqb_eq. rewrite Z.mod_add by lia. done. Qed.
Lemma text_size l : (13 + l * 2 - 13) / 2 = l.
Proof. replace (13 + l * 2 - 13) with (l * 2) by lia. apply Z.div_mul. lia. Qed.
Lemma blob_size l : (12 + l * 2 - 12) / 2 = l.
Proof. replace (12 + l * 2 - 12) with (l * 2) by lia. apply Z.div_mul. lia. Qed.

(** The width a serial type reserves for an integer is the width it needs. *)
Lemma serial_from_int_cases i :
  is_i 64 i ->
  i = 0 /\ serial_from_int i = 8 \/ i = 1 /\ serial_from_int i = 9 \/
  is_i 8 i /\ serial_from_int i = 1 \/ is_i 16 i /\ serial_from_int i = 2 \/
  is_i 24 i /\ serial_from_int i = 3 \/ is_i 32 i /\ serial_from_int i = 4 \/
  is_i 48 i /\ serial_from_int i = 5 \/ serial_from_int i = 6.
Proof.
  intros Hi. destruct (Z.eq_dec i 0) as [->|H0]; [by left|].
  destruct (Z.eq_dec i 1) as [->|H1]; [by right; left|]. do 2 right.
  assert (serial_from_int i =
      if contains I8_LOW I8_HIGH i then 1
      else if contains I16_LOW I16_HIGH i then 2
      else if contains I24_LOW I24_HIGH i then 3
      else if contains I32_LOW I32_HIGH i then 4
      else if contains I48_LOW I48_HIGH i then 5
      else 6) as ->.
  { destruct i as [|p|p]; [done | | done]. by destruct p. }
  unfold contains, I8_LOW, I8_HIGH, I16_LOW, I16_HIGH, I24_LOW, I24_HIGH, I32_LOW, I32_HIGH,
    I48_LOW, I48_HIGH, is_i. simpl Z.sub.
  repeat match goal with
  | |- context [(?a <=? ?b) && (?c <=? ?d)] =>
      destruct (Z.leb_spec a b), (Z.leb_spec c d); simpl
  end; lia.
Qed.

(** Split on the serial type of an integer. *)
Ltac int_cases i Hi :=
  let H := fresh "Hr" in
  destruct (serial_from_int_cases i Hi) as
    [[H ->]|[[H ->]|[[H ->]|[[H ->]|[[H ->]|[[H ->]|[[H ->]| ->]]]]]]].

Lemma signed_be_be_bytes n i :
  (0 < n)%nat -> is_i (8 * Z.of_nat n) i -> signed_be (be_bytes n i) = i.
Proof.
  intros Hn Hi. unfold signed_be. rewrite be_val_be_bytes, len_be_bytes.
  change 256 with (2 ^ 8). rewrite <- Z.pow_mul_r by lia. apply to_signed_wrap; [lia | done].
Qed.

Lemma sign_extension_eq b : is_u 8 b -> sign_extension b = sign_extension_cmp b.
Proof.
  unfold is_u, sign_extension, sign_extension_cmp, to_signed. intros Hb.
  rewrite Z.shiftr_div_pow2 by lia. change (2 ^ (8 - 1)) with 128.
  change (2 ^ 8) with 256 in *. change (2 ^ 7) with 128.
  destruct (Z.ltb_spec b 128), (Z.leb_spec b 127); try lia.
  - by rewrite Z.div_small by lia.
  - replace ((b - 256) / 128) with (-1); [done|]. apply Z.div_unique_pos with (b - 128); lia.
Qed.

Lemma digits_const b q c m : q / b = q -> q mod b = c -> digits b m q = replicate m c.
Proof.
  intros Hq Hc. induction m as [|m IH]; [done|]. rewrite replicate_S_end. simpl. by rewrite Hq, Hc, IH.
Qed.

(** Padding the low bytes of a narrow integer with its sign gives a wider one. *)
Lemma sign_extend_bytes j k b i :
  is_i (8 * Z.of_nat (S k)) i -> get (be_bytes (S k) i) 0 = Some b ->
  replicate j (sign_extension_cmp b) ++ be_bytes (S k) i = be_bytes (j + S k) i /\ is_u 8 b.
Proof.
  intros Hi Hb. pose proof (bytes_ok_get _ _ _ (be_bytes_ok _ _) Hb) as Hu. split; [|done].
  unfold be_bytes. rewrite (digits_app 256) by lia. f_equal.
  unfold be_bytes in Hb. change (S k) with (1 + k)%nat in Hb. rewrite (digits_app 256) in Hb by lia.
  cbn in Hb. injection Hb as <-.
  assert (256 ^ Z.of_nat (S k) = 2 * 2 ^ (8 * Z.of_nat (S k) - 1)) as Hp.
  { change 256 with (2 ^ 8). rewrite <- Z.pow_mul_r by lia. apply pow2_half. lia. }
  assert (256 ^ Z.of_nat (S k) = 256 * 256 ^ Z.of_nat k) as Hk.
  { rewrite Nat2Z.inj_succ. apply Z.pow_succ_r. lia. }
  unfold is_i in Hi. set (P := 256 ^ Z.of_nat k) in *. set (Q := 256 ^ Z.of_nat (S k)) in *.
  assert (0 < P) by (apply Z.pow_pos_nonneg; lia). unfold sign_extension_cmp.
  destruct (Z.leb_spec 0 i).
  - assert (i / Q = 0) as -> by (apply Z.div_small; lia).
    assert (0 <= i / P < 128).
    { split; [apply Z.div_pos; lia | apply Z.div_lt_upper_bound; lia]. }
    rewrite Z.mod_small by lia. zcases; [|lia]. symmetry. by apply digits_const.
  - assert (i / Q = -1) as -> by (symmetry; apply Z.div_unique_pos with (i + Q); lia).
    assert (-128 <= i / P < 0).
    { split; [apply Z.div_le_lower_bound; lia | apply Z.div_lt_upper_bound; lia]. }
    assert ((i / P) mod 256 = i / P + 256) as ->.
    { symmetry. apply (Z.mod_unique_pos _ _ (-1)); lia. }
    zcases; [lia|]. symmetry. by apply digits_const.
Qed.

Lemma at_many_app {E} pre a rest :
  @at_many E (length a) (pre ++ a ++ rest) (len pre) = Ok a.
Proof.
  revert pre. induction a as [|x a IH]; intros pre; [done|]. cbn [at_many length].
  unfold at_. change ((x :: a) ++ rest) with (x :: (a ++ rest)).
  rewrite get_middle. rstep. specialize (IH (pre ++ [x])).
  rewrite <- app_assoc, len_app in IH. change (len [x]) with 1 in IH. simpl app in IH.
  rewrite IH. by rstep.
Qed.

Lemma at_many_take {E} n buf :
  Z.of_nat n <= len buf -> @at_many E n buf 0 = Ok (take n buf).
Proof.
  intros Hn. pose proof (@at_many_app E [] (take n buf) (drop n buf)) as H.
  rewrite length_take in H. simpl app in H. rewrite take_drop in H. unfold len in *.
  by replace (n `min` length buf)%nat with n in H by lia.
Qed.

Lemma get_to_take buf n : 0 <= n <= len buf -> get_to buf n = Some (take (Z.to_nat n) buf).
Proof. intros. unfold get_to. by destruct (Z.leb_spec n (len buf)); [|lia]. Qed.
Lemma get_to_app a rest : get_to (a ++ rest) (len a) = Some a.
Proof.
  pose proof (len_nonneg a). pose proof (len_nonneg rest).
  rewrite get_to_take by (rewrite len_app; lia). unfold len. by rewrite Nat2Z.id, take_app_length.
Qed.
Lemma get_to_None buf n : len buf < n -> get_to buf n = None.
Proof. intros. unfold get_to. by destruct (Z.leb_spec n (len buf)); [lia|]. Qed.
Lemma get_take buf n : (0 < n)%nat -> get (take n buf) 0 = get buf 0.
Proof. intros. unfold get. simpl. by apply lookup_take_lt. Qed.

Lemma slice_from_ok buf n : 0 <= n <= len buf -> slice_from buf n = Ok (drop (Z.to_nat n) buf).
Proof.
  intros. unfold slice_from. rewrite slice_ok by lia. f_equal. unfold slice_.
  apply take_ge. rewrite length_drop. unfold len in *. lia.
Qed.
Lemma slice_from_app pre post : slice_from (pre ++ post) (len pre) = Ok post.
Proof.
  pose proof (len_nonneg pre). pose proof (len_nonneg post).
  rewrite slice_from_ok by (rewrite len_app; lia). unfold len. by rewrite Nat2Z.id, drop_app_length.
Qed.

Lemma be_bytes_drop j k i : drop j (be_bytes (j + k) i) = be_bytes k i.
Proof.
  unfold be_bytes. rewrite (digits_app 256) by lia. apply drop_app_length'. by rewrite length_digits.
Qed.

Lemma serial_from_wf v : wf_value v -> serial_from v = Ok (stype v) /\ is_u 64 (stype v).
Proof.
  destruct v as [|i|f|t|b]; simpl; unfold is_u; try (intros; split; [done|lia]).
  - intros Hi. split; [done|]. int_cases i Hi; lia.
  - intros H. pose proof (len_nonneg t). unfold serial_text, umul, uadd.
    destruct (Z.ltb_spec (len t * 2) (2 ^ 64)); [|lia]. rstep.
    destruct (Z.ltb_spec (13 + len t * 2) (2 ^ 64)); [|lia]. split; [done|lia].
  - intros H. pose proof (len_nonneg b). unfold serial_blob, umul, uadd.
    destruct (Z.ltb_spec (len b * 2) (2 ^ 64)); [|lia]. rstep.
    destruct (Z.ltb_spec (12 + len b * 2) (2 ^ 64)); [|lia]. split; [done|lia].
Qed.

Lemma value_content_wf v : wf_value v -> value_content v = Ok (content v).
Proof.
  destruct v as [|i|f|t|b]; simpl; try done. intros Hi.
  by int_cases i Hi.
Qed.

Lemma size_wf v :
  wf_value v ->
  serial_size (stype v) = Ok (len (content v)) /\ get_serial_type_size (stype v) = Ok (len (content v)).
Proof.
  destruct v as [|i|f|t|b]; simpl; try done; intros Hi.
  - int_cases i Hi; by rewrite len_be_bytes.
  - pose proof (len_nonneg t). rewrite get_serial_type_size_large, text_mod, text_size by lia.
    unfold serial_size. rewrite kind_large, text_mod by lia. rstep.
    unfold usub. destruct (Z.leb_spec 13 (13 + len t * 2)); [|lia]. rstep. by rewrite text_size.
  - pose proof (len_nonneg b). rewrite get_serial_type_size_large, blob_mod, blob_size by lia.
    unfold serial_size. rewrite kind_large, blob_mod by lia. rstep.
    unfold usub. destruct (Z.leb_spec 12 (12 + len b * 2)); [|lia]. rstep. by rewrite blob_size.
Qed.

Lemma ensure_len {A} (a rest : list A) n :
  len a = n -> ensure (E:=LimboError) (negb (len (a ++ rest) <? n)) Corrupt = Ok tt.
Proof.
  intros Ha. pose proof (len_nonneg rest). rewrite len_app.
  by destruct (Z.ltb_spec (len a + len rest) n); [lia|].
Qed.

Lemma at_many_prefix {E} n a rest : length a = n -> @at_many E n (a ++ rest) 0 = Ok a.
Proof. intros <-. apply (at_many_app []). Qed.

(** Reading what was written for a value gives the value back. *)
Lemma read_value_content v rest :
  wf_value v ->
  read_value_serial_type (content v ++ rest) (stype v) = Ok (v, len (content v)).
Proof.
  destruct v as [|i|f|t|b]; simpl stype; cbn [wf_value content]; intros Hv; [done|..].
  - assert (forall n, (0 < n)%nat -> exists b0, get (be_bytes n i) 0 = Some b0) as Hhd.
    { intros n Hn. apply get_Some_iff. rewrite len_be_bytes. lia. }
    int_cases i Hv; rewrite ?len_be_bytes; cbn [int_size read_value_serial_type]; try (by subst).
    + destruct (Hhd 1%nat ltac:(lia)) as [b0 Hb]. unfold at_.
      rewrite len_app, len_be_bytes, (get_app_l _ _ _ _ Hb). pose proof (len_nonneg rest).
      destruct (Z.eqb_spec (Z.of_nat 1 + len rest) 0); [lia|]. simpl ensure. rstep.
      do 3 f_equal. rewrite <- (signed_be_be_bytes 1 i) by (lia || done).
      change (be_bytes 1 i) with [i mod 256] in *. by injection Hb as <-.
    + rewrite ensure_len, at_many_prefix by (by rewrite ?len_be_bytes, ?length_be_bytes). rstep.
      by rewrite signed_be_be_bytes by (lia || done).
    + destruct (Hhd 3%nat ltac:(lia)) as [b0 Hb]. unfold at_.
      rewrite ensure_len, at_many_prefix, (get_app_l _ _ _ _ Hb)
        by (by rewrite ?len_be_bytes, ?length_be_bytes). rstep.
      destruct (sign_extend_bytes 1 2 b0 i Hr Hb) as [He _]. simpl app in He. rewrite He.
      rewrite signed_be_be_bytes by (unfold is_i in *; simpl in *; lia). done.
    + rewrite ensure_len, at_many_prefix by (by rewrite ?len_be_bytes, ?length_be_bytes). rstep.
      by rewrite signed_be_be_bytes by (lia || done).
    + destruct (Hhd 6%nat ltac:(lia)) as [b0 Hb]. unfold at_.
      rewrite ensure_len, at_many_prefix, (get_app_l _ _ _ _ Hb)
        by (by rewrite ?len_be_bytes, ?length_be_bytes). rstep.
      destruct (sign_extend_bytes 2 5 b0 i Hr Hb) as [He _]. simpl app in He. rewrite He.
      rewrite signed_be_be_bytes by (unfold is_i in *; simpl in *; lia). done.
    + rewrite ensure_len, at_many_prefix by (by rewrite ?len_be_bytes, ?length_be_bytes). rstep.
      by rewrite signed_be_be_bytes by (lia || done).
  - destruct Hv as [Hf Hn]. unfold read_value_serial_type.
    rewrite ensure_len, at_many_prefix by (by rewrite ?len_be_bytes, ?length_be_bytes). rstep.
    unfold is_u in Hf. rewrite be_val_be_bytes_small by done. unfold from_f64. by rewrite Hn.
  - pose proof (len_nonneg t). rewrite read_value_serial_type_large, text_mod, text_size by lia.
    rewrite get_to_app. done.
  - pose proof (len_nonneg b). rewrite read_value_serial_type_large, blob_mod, blob_size by lia.
    rewrite get_to_app. done.
Qed.

(** ** The two readers agree *)

Lemma fixed_width_agree {A} n buf (f : list Z -> res LimboError A) :
  (bytes ← or_corrupt (get_to buf (Z.of_nat n)); f bytes) =
  (_ ← ensure (negb (len buf <? Z.of_nat n)) Corrupt; bs ← at_many n buf 0; f bs).
Proof.
  destruct (Z.ltb_spec (len buf) (Z.of_nat n)).
  - by rewrite get_to_None by done.
  - rewrite get_to_take, at_many_take by lia. rstep. by rewrite Nat2Z.id.
Qed.

Lemma signed_width_agree n buf (f g : Z -> list Z -> res LimboError (Value * Z)) :
  (0 < n)%nat -> bytes_ok buf -> (forall b bs, is_u 8 b -> f b bs = g b bs) ->
  (bytes ← or_corrupt (get_to buf (Z.of_nat n)); b0 ← at_ bytes 0; f b0 bytes) =
  (_ ← ensure (negb (len buf <? Z.of_nat n)) Corrupt; b0 ← at_ buf 0; bs ← at_many n buf 0; g b0 bs).
Proof.
  intros Hn Hok Hfg. destruct (Z.ltb_spec (len buf) (Z.of_nat n)).
  - by rewrite get_to_None by done.
  - rewrite get_to_take, at_many_take, Nat2Z.id by lia. unfold at_.
    simpl or_corrupt. simpl ensure. rstep. rewrite get_take by lia.
    destruct (get buf 0) as [b|] eqn:Hb; [|done]. rstep. apply Hfg. by eapply bytes_ok_get.
Qed.

Lemma small_or_large n : 0 <= n -> n ∈ [0;1;2;3;4;5;6;7;8;9;10;11] \/ 12 <= n.
Proof. intros. destruct (Z.leb_spec 12 n); [by right|left]. rewrite !elem_of_cons. lia. Qed.

Ltac small_cases H :=
  repeat (apply elem_of_cons in H as [->|H]); [.. | by apply elem_of_nil in H].

(** ** The serializers *)

Lemma header_bytes_cons v vs : header_bytes (v :: vs) = venc (stype v) ++ header_bytes vs.
Proof. done. Qed.
Lemma content_bytes_cons v vs : content_bytes (v :: vs) = content v ++ content_bytes vs.
Proof. done. Qed.

Lemma uadd_ok {E} w a b : a + b < 2 ^ w -> @uadd E w a b = Ok (a + b).
Proof. intros. unfold uadd. by destruct (Z.ltb_spec (a + b) (2 ^ w)); [|lia]. Qed.

Lemma sizing_pass_spec vs sh sv :
  Forall wf_value vs -> 0 <= sh -> 0 <= sv ->
  sh + len (header_bytes vs) + (sv + len (content_bytes vs)) < 2 ^ 62 ->
  sizing_pass vs sh sv = Ok (sh + len (header_bytes vs), sv + len (content_bytes vs)).
Proof.
  intros Hwf. revert sh sv. induction Hwf as [|v vs Hv _ IH]; intros sh sv Hsh Hsv Hb.
  - cbn. by rewrite !Z.add_0_r.
  - rewrite header_bytes_cons, content_bytes_cons, !len_app in *. cbn [sizing_pass].
    destruct (serial_from_wf v Hv) as [-> Hu]. rstep. pose proof (length_venc (stype v) Hu) as Hl.
    pose proof (len_nonneg (venc (stype v))). pose proof (len_nonneg (header_bytes vs)).
    pose proof (len_nonneg (content v)). pose proof (len_nonneg (content_bytes vs)).
    rewrite <- Hl, uadd_ok by lia. rstep. destruct (size_wf v Hv) as [-> _]. rstep.
    rewrite uadd_ok by lia. rstep. rewrite IH by lia. f_equal. f_equal; lia.
Qed.

(** Writing at the position of an [AppendWriter] whose buffer is still zero behind it. *)
Definition writer_at (done_ : list Z) (n : nat) : AppendWriter :=
  {| aw_buf := done_ ++ replicate n 0; aw_pos := len done_ |}.

Lemma extend_from_slice_spec done_ n bs :
  extend_from_slice (writer_at done_ (length bs + n)) bs = Ok (writer_at (done_ ++ bs) n).
Proof.
  unfold extend_from_slice, writer_at. cbn [aw_buf aw_pos]. rewrite replicate_add.
  rewrite write_at_mid by (by rewrite length_replicate). rstep. by rewrite len_app, app_assoc.
Qed.

Lemma write_serial_types_spec vs tmp done_ n :
  Forall wf_value vs -> len tmp = 9 ->
  exists tmp', write_serial_types vs tmp (writer_at done_ (length (header_bytes vs) + n)) =
    Ok (tmp', writer_at (done_ ++ header_bytes vs) n).
Proof.
  intros Hwf. revert tmp done_. induction Hwf as [|v vs Hv _ IH]; intros tmp done_ Ht.
  - exists tmp. cbn. by rewrite app_nil_r.
  - cbn [write_serial_types]. rewrite header_bytes_cons.
    destruct (serial_from_wf v Hv) as [-> Hu]. rstep.
    pose proof (varint_len_bound _ Hu). rewrite write_varint_spec by (done || lia). rstep.
    rewrite <- (length_venc _ Hu). rewrite slice_prefix. rstep.
    rewrite length_app, <- Nat.add_assoc, extend_from_slice_spec. rstep.
    rewrite app_assoc. apply IH. pose proof (length_venc _ Hu) as Hl. unfold len in *.
    rewrite length_app, length_drop. lia.
Qed.

Lemma write_contents_spec vs done_ n :
  Forall wf_value vs ->
  write_contents vs (writer_at done_ (length (content_bytes vs) + n)) =
  Ok (writer_at (done_ ++ content_bytes vs) n).
Proof.
  intros Hwf. revert done_. induction Hwf as [|v vs Hv _ IH]; intros done_.
  - cbn. by rewrite app_nil_r.
  - cbn [write_contents]. rewrite content_bytes_cons, value_content_wf by done. rstep.
    rewrite length_app, <- Nat.add_assoc, extend_from_slice_spec. rstep.
    by rewrite IH, app_assoc.
Qed.

Lemma record_header_size vs :
  wf_record vs ->
  exists hs, calc_header_size (len (header_bytes vs)) = Ok hs /\
    hs = len (header_bytes vs) + varint_len hs /\ is_u 64 hs /\ hs <= len (header_bytes vs) + 9.
Proof.
  intros [_ Hb]. pose proof (len_nonneg (header_bytes vs)). pose proof (len_nonneg (content_bytes vs)).
  destruct (calc_header_size_spec (len (header_bytes vs))) as (hs & H1 & H2 & H3 & _); try lia.
  exists hs. split; [done|]. split; [done|]. split; [|done]. unfold is_u.
  destruct (Z.leb_spec 0 hs); [lia|exfalso].
  assert (varint_len hs = 1) by (unfold varint_len; zcases; lia). lia.
Qed.

Lemma build_spec vs : wf_record vs -> exists payload, build vs = Ok payload /\ is_record vs payload.
Proof.
  intros Hwf. destruct (record_header_size vs Hwf) as (hs & Hc & Hhs & Hu & Hle). destruct Hwf as [Hwf Hb].
  pose proof (len_nonneg (header_bytes vs)). pose proof (len_nonneg (content_bytes vs)).
  pose proof (varint_len_bound hs Hu). pose proof (length_venc hs Hu) as Hl.
  exists (venc hs ++ header_bytes vs ++ content_bytes vs). split; [|by exists hs]. unfold build.
  rewrite sizing_pass_spec by (done || lia). rstep. rewrite !Z.add_0_l, Hc. rstep.
  rewrite uadd_ok by lia. rstep. rewrite write_varint_spec by (done || (change (len (replicate 9 0)) with 9; lia)).
  rstep. rewrite <- Hl, slice_prefix. rstep.
  replace {| aw_buf := _; aw_pos := 0 |} with
    (writer_at [] (length (venc hs) + (length (header_bytes vs) + (length (content_bytes vs) + 0)))).
  2: { unfold writer_at. f_equal. simpl. f_equal. unfold len in *. lia. }
  rewrite extend_from_slice_spec. rstep.
  match goal with |- context [write_serial_types vs ?tmp _] =>
    destruct (write_serial_types_spec vs tmp (venc hs) (length (content_bytes vs) + 0) Hwf) as [tmp' Hw] end.
  { rewrite len_app. unfold len in *. rewrite length_drop, length_replicate. lia. }
  rewrite app_nil_l. rewrite Hw. rstep. rewrite write_contents_spec by done. rstep.
  simpl. by rewrite app_nil_r, <- app_assoc.
Qed.

Lemma serialize_types_spec vs buf :
  Forall wf_value vs -> serialize_types vs buf = Ok (buf ++ header_bytes vs).
Proof.
  intros Hwf. revert buf. induction Hwf as [|v vs Hv _ IH]; intros buf.
  - cbn. by rewrite app_nil_r.
  - cbn [serialize_types]. rewrite header_bytes_cons.
    destruct (serial_from_wf v Hv) as [-> Hu]. rstep. set (z := replicate 9 0).
    assert (len (buf ++ z) - 9 = len buf) as Hpos by (rewrite len_app; change (len z) with 9; lia).
    pose proof (slice_mid (E:=LimboError) buf z []) as Hs. rewrite !app_nil_r in Hs.
    rewrite Hpos, len_app, Hs. rstep.
    pose proof (varint_len_bound _ Hu). rewrite write_varint_spec by (done || (change (len z) with 9; lia)).
    rstep. pose proof (length_venc _ Hu) as Hl.
    pose proof (write_at_mid (E:=LimboError) buf z [] (venc (stype v) ++ drop (length (venc (stype v))) z)) as Hw.
    rewrite !app_nil_r in Hw. rewrite Hw.
    2: { unfold len in *. rewrite length_app, length_drop. change (length z) with 9%nat. lia. }
    rstep. rewrite app_assoc. match goal with |- context [take ?n (?a ++ _)] =>
      replace n with (length a) end.
    2: { rewrite <- Hl. rewrite !len_app. unfold len in *. rewrite length_drop, length_app.
         change (length z) with 9%nat. lia. }
    rewrite take_app_length, IH. by rewrite <- app_assoc.
Qed.

Lemma serialize_contents_spec vs buf :
  Forall wf_value vs -> serialize_contents vs buf = Ok (buf ++ content_bytes vs).
Proof.
  intros Hwf. revert buf. induction Hwf as [|v vs Hv _ IH]; intros buf.
  - cbn. by rewrite app_nil_r.
  - cbn [serialize_contents]. rewrite value_content_wf by done. rstep.
    by rewrite IH, content_bytes_cons, app_assoc.
Qed.

Lemma serialize_spec vs buf payload :
  wf_record vs -> is_record vs payload -> serialize vs buf = Ok (buf ++ payload).
Proof.
  intros Hwf (hs & Hc & ->). destruct (record_header_size vs Hwf) as (hs' & Hc' & Hhs & Hu & _).
  rewrite Hc in Hc'. injection Hc' as <-. destruct Hwf as [Hwf _]. unfold serialize.
  pose proof (length_venc hs Hu) as Hl. pose proof (varint_len_bound hs Hu).
  rewrite serialize_types_spec by done. rstep. unfold usub. rewrite len_app.
  pose proof (len_nonneg (header_bytes vs)). destruct (Z.leb_spec (len buf) (len buf + len (header_bytes vs))); [|lia].
  rstep. rewrite serialize_contents_spec by done. rstep.
  replace (len buf + len (header_bytes vs) - len buf) with (len (header_bytes vs)) by lia.
  rewrite Hc. rstep. rewrite write_varint_spec by (done || (change (len (replicate 9 0)) with 9; lia)).
  rstep. rewrite <- Hl. unfold len. rewrite !Nat2Z.id, <- !app_assoc.
  by rewrite take_app_length, drop_app_length, take_app_length.
Qed.

(** ** The iterator over a record *)

Definition iter_of (vs : list Value) : ValueIterator :=
  {| header_section := header_bytes vs; data_section := content_bytes vs |}.

Lemma iter_record vs payload :
  wf_record vs -> is_record vs payload -> iter payload = Ok (iter_of vs).
Proof.
  intros Hwf (hs & Hc & ->). destruct (record_header_size vs Hwf) as (hs' & Hc' & Hhs & Hu & _).
  rewrite Hc in Hc'. injection Hc' as <-. unfold iter. rewrite read_varint_venc by done. rstep.
  pose proof (length_venc hs Hu) as Hl. pose proof (varint_len_bound hs Hu).
  pose proof (len_nonneg (header_bytes vs)). pose proof (len_nonneg (content_bytes vs)).
  destruct (Z.ltb_spec (len (venc hs ++ header_bytes vs ++ content_bytes vs)) hs);
    [rewrite !len_app in *; lia|].
  destruct (Z.ltb_spec (len (venc hs ++ header_bytes vs ++ content_bytes vs)) (varint_len hs));
    [rewrite !len_app in *; lia|].
  destruct (Z.ltb_spec hs (varint_len hs)); [lia|]. simpl orb. cbv iota.
  pose proof (slice_mid (E:=LimboError) (venc hs) (header_bytes vs) (content_bytes vs)) as Hs1.
  pose proof (slice_from_app (venc hs ++ header_bytes vs) (content_bytes vs)) as Hs2.
  rewrite <- app_assoc in Hs2. rewrite len_app, Hl in Hs2. rewrite Hl in Hs1.
  replace (varint_len hs + len (header_bytes vs)) with hs in Hs1, Hs2 by lia.
  rewrite Hs1. rstep. by rewrite Hs2.
Qed.

Lemma venc_nonempty v : is_u 64 v -> 1 <= len (venc v).
Proof. intros Hv. rewrite length_venc by done. by apply varint_len_bound. Qed.

Lemma header_cons_nonempty v vs : wf_value v -> (len (header_bytes (v :: vs)) =? 0) = false.
Proof.
  intros Hv. destruct (serial_from_wf v Hv) as [_ Hu]. pose proof (venc_nonempty _ Hu).
  pose proof (len_nonneg (header_bytes vs)). rewrite header_bytes_cons, len_app. apply Z.eqb_neq. lia.
Qed.

Lemma header_cons_varint v vs :
  wf_value v ->
  read_varint (header_bytes (v :: vs)) = Ok (stype v, len (venc (stype v))) /\
  slice_from (header_bytes (v :: vs)) (len (venc (stype v))) = Ok (header_bytes vs).
Proof.
  intros Hv. destruct (serial_from_wf v Hv) as [_ Hu]. rewrite header_bytes_cons. split.
  - rewrite length_venc by done. by apply read_varint_venc.
  - apply slice_from_app.
Qed.

Lemma next_cons v vs : wf_value v -> next (iter_of (v :: vs)) = Ok (Some (Ok v), iter_of vs).
Proof.
  intros Hv. destruct (header_cons_varint v vs Hv) as [Hr Hs]. unfold next.
  cbn [iter_of header_section data_section]. rewrite header_cons_nonempty, Hr, Hs by done. rstep.
  rewrite content_bytes_cons, read_value_content, slice_from_app by done. done.
Qed.

Lemma length_le_header vs : Forall wf_value vs -> (length vs <= length (header_bytes vs))%nat.
Proof.
  induction 1 as [|v vs Hv _ IH]; [done|]. destruct (serial_from_wf v Hv) as [_ Hu].
  pose proof (venc_nonempty _ Hu) as Hl. unfold len in Hl.
  rewrite header_bytes_cons, length_app. simpl. lia.
Qed.

Lemma try_collect_record vs fuel :
  Forall wf_value vs -> (length vs < fuel)%nat -> try_collect fuel (iter_of vs) = Ok vs.
Proof.
  intros Hwf. revert fuel. induction Hwf as [|v vs Hv _ IH]; intros [|fuel] Hf; simpl in Hf; try lia.
  - done.
  - cbn [try_collect]. rewrite next_cons by done. rstep. rewrite IH by lia. done.
Qed.

Lemma values_record vs payload :
  wf_record vs -> is_record vs payload -> values payload = Ok vs /\ values_owned payload = Ok vs.
Proof.
  intros Hwf Hr. unfold values, values_owned. rewrite (iter_record vs) by done. rstep.
  destruct Hwf as [Hwf _]. pose proof (length_le_header vs Hwf).
  rewrite try_collect_record; [done..|simpl; lia].
Qed.

Lemma nth_loop_record n vs acc :
  Forall wf_value vs -> 0 <= acc -> acc + len (content_bytes vs) < 2 ^ 64 ->
  nth_loop n (header_bytes vs) acc =
  Ok (if (n <=? length vs)%nat then Skipped (header_bytes (drop n vs)) (acc + len (content_bytes (take n vs)))
      else HeaderEnd).
Proof.
  intros Hwf. revert n acc. induction Hwf as [|v vs Hv _ IH]; intros [|n] acc Ha Hb.
  - simpl. change (len (content_bytes [])) with 0. by rewrite Z.add_0_r.
  - done.
  - cbn. by rewrite Z.add_0_r.
  - cbn [nth_loop length Nat.leb drop take]. destruct (header_cons_varint v vs Hv) as [Hr Hs].
    rewrite header_cons_nonempty, Hr, Hs by done. rstep. destruct (size_wf v Hv) as [_ ->].
    rewrite content_bytes_cons, len_app in Hb.
    pose proof (len_nonneg (content v)). pose proof (len_nonneg (content_bytes vs)).
    rewrite uadd_ok by lia. rstep. rewrite IH by lia.
    destruct (n <=? length vs)%nat; [|done]. rewrite content_bytes_cons, len_app. do 2 f_equal. lia.
Qed.

Lemma content_bytes_split n vs : content_bytes vs = content_bytes (take n vs) ++ content_bytes (drop n vs).
Proof.
  unfold content_bytes. rewrite <- concat_app, <- map_app, take_drop. done.
Qed.

Lemma nth_record n vs :
  Forall wf_value vs -> len (content_bytes vs) < 2 ^ 64 ->
  match vs !! n with
  | Some v => nth n (iter_of vs) = Ok (Some (Ok v), iter_of (drop (S n) vs))
  | None => exists it, nth n (iter_of vs) = Ok (None, it)
  end.
Proof.
  intros Hwf Hb. unfold nth. cbn [iter_of header_section data_section].
  rewrite nth_loop_record by (done || lia). rstep. destruct (Nat.leb_spec n (length vs)) as [Hle|Hgt].
  - rewrite Z.add_0_l, (content_bytes_split n vs), len_app.
    pose proof (len_nonneg (content_bytes (drop n vs))).
    match goal with |- context [Z.ltb ?a ?b] => destruct (Z.ltb_spec a b); [lia|] end.
    rewrite slice_from_app. rstep.
    change {| header_section := _; data_section := _ |} with (iter_of (drop n vs)).
    destruct (vs !! n) as [v|] eqn:Hn.
    + rewrite (drop_S vs v n) by done. apply next_cons. by eapply Forall_lookup_1.
    + exists (iter_of []). by rewrite drop_ge by (by apply lookup_ge_None).
  - rewrite lookup_ge_None_2 by lia. by eexists.
Qed.

(** ** The iterator over arbitrary bytes *)

Definition read_inv (buf : list Z) (st : Z) (r : res LimboError (Value * Z)) : Prop :=
  match r with
  | Ok (_, n) => get_serial_type_size st = Ok n /\ 0 <= n <= len buf
  | Err e => e = Corrupt
  | Panic => False
  end.

Lemma fixed_width_inv n st buf (f : list Z -> Value) :
  get_serial_type_size st = Ok (Z.of_nat n) ->
  read_inv buf st
    (_ ← ensure (negb (len buf <? Z.of_nat n)) Corrupt; bs ← at_many n buf 0; Ok (f bs, Z.of_nat n)).
Proof.
  intros Hs. destruct (Z.ltb_spec (len buf) (Z.of_nat n)); [done|].
  rewrite at_many_take by lia. simpl. split; [done | lia].
Qed.

Lemma signed_width_inv n st buf (f : Z -> list Z -> Value) :
  (0 < n)%nat -> get_serial_type_size st = Ok (Z.of_nat n) ->
  read_inv buf st
    (_ ← ensure (negb (len buf <? Z.of_nat n)) Corrupt; b ← at_ buf 0; bs ← at_many n buf 0;
     Ok (f b bs, Z.of_nat n)).
Proof.
  intros Hn Hs. destruct (Z.ltb_spec (len buf) (Z.of_nat n)); [done|]. unfold at_.
  destruct (get_Some_iff buf 0) as [b ->]; [lia|]. simpl ensure. rstep.
  rewrite at_many_take by lia. simpl. split; [done | lia].
Qed.

Lemma string_inv st buf n (f : list Z -> Value) :
  get_serial_type_size st = Ok n -> 0 <= n ->
  read_inv buf st (data ← or_corrupt (get_to buf n); Ok (f data, n)).
Proof.
  intros Hs Hn. destruct (Z.leb_spec n (len buf)).
  - rewrite get_to_take by lia. simpl. split; [done | lia].
  - by rewrite get_to_None by lia.
Qed.

(** Reading a value never panics; what it reads lies in the buffer and is as long
    as the serial type says. *)
Lemma read_value_serial_type_inv buf st :
  0 <= st -> read_inv buf st (read_value_serial_type buf st).
Proof.
  intros Hst. pose proof (len_nonneg buf). destruct (small_or_large st Hst) as [Hin|Hl].
  - small_cases Hin; simpl; try (split; [done|lia]); try done;
      first [ by apply (fixed_width_inv 2) | by apply (signed_width_inv 3); [lia|]
            | by apply (fixed_width_inv 4) | by apply (signed_width_inv 6); [lia|]
            | by apply (fixed_width_inv 8) | idtac ].
    destruct (Z.eqb_spec (len buf) 0); [done|]. unfold at_.
    destruct (get_Some_iff buf 0) as [b ->]; [lia|]. simpl. split; [done|lia].
  - rewrite read_value_serial_type_large by done.
    pose proof (get_serial_type_size_large st Hl) as Hs. pose proof (Z.div_mod st 2 ltac:(lia)) as Hd.
    destruct (Z.eqb_spec (st mod 2) 0) as [E|E].
    + apply string_inv; [done|]. apply Z.div_pos; lia.
    + apply string_inv; [done|]. apply Z.div_pos; [|lia].
      pose proof (Z.mod_pos_bound st 2). assert (st <> 12) by (intros ->; by compute in E). lia.
Qed.

(** What one [next] does: the header shrinks, and the data moves on by the size the
    serial type gives. *)
Definition next_inv (it : ValueIterator) (r : res LimboError step) : Prop :=
  match r with
  | Ok (None, _) => header_section it = []
  | Ok (Some (Ok v), it') =>
      exists st k n, read_varint (header_section it) = Ok (st, k) /\ 1 <= k <= len (header_section it) /\
        get_serial_type_size st = Ok n /\ 0 <= n <= len (data_section it) /\
        header_section it' = drop (Z.to_nat k) (header_section it) /\
        data_section it' = drop (Z.to_nat n) (data_section it)
  | Ok (Some (Err e), _) => e = Corrupt
  | _ => False
  end.

Lemma len_zero {A} (l : list A) : len l = 0 -> l = [].
Proof. destruct l; [done | unfold len; simpl; lia]. Qed.

Lemma next_inv_holds it : bytes_ok (header_section it) -> next_inv it (next it).
Proof.
  intros Hok. unfold next. destruct (Z.eqb_spec (len (header_section it)) 0) as [E|E].
  { by apply len_zero. }
  pose proof (read_varint_inv (header_section it) Hok) as Hv.
  destruct (read_varint (header_section it)) as [[st k]|e|] eqn:Hr; simpl; [|done|done].
  destruct Hv as ([Hst _] & Hk & Hle & _). rewrite slice_from_ok by lia. rstep. cbn [data_section].
  pose proof (read_value_serial_type_inv (data_section it) st Hst) as Hi.
  destruct (read_value_serial_type (data_section it) st) as [[v n]|e|]; simpl in Hi; [|done|done].
  destruct Hi as [Hs Hn]. rewrite slice_from_ok by lia. simpl.
  exists st, k, n. repeat split; (done || lia).
Qed.

Lemma try_collect_no_panic fuel it :
  bytes_ok (header_section it) -> (length (header_section it) < fuel)%nat ->
  try_collect fuel it <> Panic.
Proof.
  revert it. induction fuel as [|fuel IH]; intros it Hok Hf; [lia|]. cbn [try_collect].
  pose proof (next_inv_holds it Hok) as Hi. destruct (next it) as [[[r|] it']|e|]; try done; rstep.
  destruct r as [v|e|]; [|done|done]. rstep. destruct Hi as (st & k & n & _ & Hk & _ & _ & Hh & _).
  specialize (IH it'). destruct (try_collect fuel it'); [done..|]. exfalso. apply IH; [| |done].
  - rewrite Hh. by apply bytes_ok_drop.
  - rewrite Hh, length_drop. unfold len in Hk. lia.
Qed.

(** [n] calls of [next] that each give a value. *)
Fixpoint next_n (n : nat) (it : ValueIterator) : option ValueIterator :=
  match n with
  | O => Some it
  | S n => match next it with Ok (Some (Ok _), it) => next_n n it | _ => None end
  end.

Lemma len_drop {A} n (l : list A) : 0 <= n <= len l -> len (drop (Z.to_nat n) l) = len l - n.
Proof. unfold len. intros. rewrite length_drop. lia. Qed.

Lemma nth_loop_next n it it' acc :
  bytes_ok (header_section it) -> 0 <= acc -> acc + len (data_section it) < 2 ^ 64 ->
  next_n n it = Some it' ->
  exists d, 0 <= d <= len (data_section it) /\
    nth_loop n (header_section it) acc = Ok (Skipped (header_section it') (acc + d)) /\
    data_section it' = drop (Z.to_nat d) (data_section it).
Proof.
  revert it acc. induction n as [|n IH]; intros it acc Hok Ha Hb Hn; cbn [next_n nth_loop] in *.
  { injection Hn as ->. exists 0. pose proof (len_nonneg (data_section it')).
    rewrite Z.add_0_r. repeat split; (done || lia). }
  pose proof (next_inv_holds it Hok) as Hi.
  destruct (next it) as [[[[v| |]|] it1]| |]; try done.
  destruct Hi as (st & k & m & Hr & Hk & Hs & Hm & Hh & Hd).
  destruct (Z.eqb_spec (len (header_section it)) 0); [lia|].
  rewrite Hr, slice_from_ok, Hs by lia. rstep. rewrite uadd_ok by lia. rstep. rewrite <- Hh.
  assert (len (data_section it1) = len (data_section it) - m) as Hl by (rewrite Hd; by apply len_drop).
  destruct (IH it1 (acc + m)) as (d & Hd0 & Hloop & Hd'); try done; try lia.
  { rewrite Hh. by apply bytes_ok_drop. }
  exists (m + d). split; [lia|]. split; [by rewrite Hloop, Z.add_assoc|].
  rewrite Hd', Hd, drop_drop. f_equal. lia.
Qed.

Lemma record_nonempty vs payload :
  wf_record vs -> is_record vs payload -> (len payload =? 0) = false.
Proof.
  intros Hwf (hs & Hc & ->). destruct (record_header_size vs Hwf) as (hs' & Hc' & _ & Hu & _).
  rewrite Hc in Hc'. injection Hc' as <-. pose proof (venc_nonempty hs Hu).
  pose proof (len_nonneg (header_bytes vs ++ content_bytes vs)). rewrite len_app. apply Z.eqb_neq. lia.
Qed.

Lemma count_record vs fuel acc :
  Forall wf_value vs -> (length vs <= fuel)%nat -> count_loop fuel (header_bytes vs) acc = acc + len vs.
Proof.
  intros Hwf. revert fuel acc. induction Hwf as [|v vs Hv _ IH]; intros fuel acc Hf.
  - change (len []) with 0. rewrite Z.add_0_r. by destruct fuel.
  - destruct fuel as [|fuel]; [simpl in Hf; lia|]. cbn [count_loop].
    destruct (header_cons_varint v vs Hv) as [Hr _]. rewrite header_cons_nonempty, Hr by done.
    rewrite header_bytes_cons. unfold len at 1. rewrite Nat2Z.id, drop_app_length.
    simpl in Hf. rewrite IH by lia. change (v :: vs) with ([v] ++ vs). rewrite len_app.
    change (len [v]) with 1. lia.
Qed.

Lemma stype_null v : wf_value v -> (stype v =? 0) = bool_decide (v = Null).
Proof.
  destruct v as [|i|f|t|b]; simpl; intros Hi; rewrite ?bool_decide_eq_false_2, ?bool_decide_eq_true_2 by done;
    try done.
  - int_cases i Hi; done.
  - apply Z.eqb_neq. pose proof (len_nonneg t). lia.
  - apply Z.eqb_neq. pose proof (len_nonneg b). lia.
Qed.

Lemma contains_null_loop_record vs fuel :
  Forall wf_value vs -> (length vs <= fuel)%nat ->
  contains_null_loop fuel (header_bytes vs) = Ok (bool_decide (Null ∈ vs)).
Proof.
  intros Hwf. revert fuel. induction Hwf as [|v vs Hv _ IH]; intros fuel Hf; [by destruct fuel|].
  destruct fuel as [|fuel]; [simpl in Hf; lia|]. cbn [contains_null_loop].
  destruct (header_cons_varint v vs Hv) as [Hr Hs]. rewrite header_cons_nonempty, Hr by done. rstep.
  rewrite stype_null, Hs by done. rstep. simpl in Hf. rewrite IH by lia.
  destruct (decide (v = Null)) as [->|Hne].
  - by rewrite !bool_decide_eq_true_2 by (done || left).
  - rewrite (bool_decide_eq_false_2 (v = Null)) by done. f_equal. apply bool_decide_ext.
    rewrite elem_of_cons. naive_solver.
Qed.

Lemma contains_null_iter payload it :
  iter payload = Ok it ->
  contains_null payload = contains_null_loop (length (header_section it)) (header_section it).
Proof.
  unfold iter, contains_null. destruct (read_varint payload) as [[hs k]| |]; try done. rstep.
  destruct (len payload <? hs), (len payload <? k), (hs <? k); try done. simpl orb. cbv iota.
  destruct (slice payload k hs); try done. rstep. destruct (slice_from payload hs); try done. rstep.
  by intros [= <-].
Qed.

Lemma value_record vs payload idx :
  wf_record vs -> is_record vs payload ->
  value payload idx = match vs !! idx with Some v => Ok v | None => Err InternalError end.
Proof.
  intros Hwf Hr. unfold value. rewrite (iter_record vs) by done.
  rewrite (record_nonempty vs) by done. rstep. destruct Hwf as [Hwf Hb]. pose proof (len_nonneg (header_bytes vs)).
  pose proof (nth_record idx vs Hwf ltac:(lia)) as Hn.
  destruct (vs !! idx); [by rewrite Hn|]. by destruct Hn as [it ->].
Qed.

(** * Properties *)

(** C23: a record built by [ImmutableRecord::build] from any well-formed columns
    decodes, through [ValueIterator], to exactly those columns. *)
Theorem record_roundtrip (vs : list Value) :
  wf_record vs -> exists payload, build vs = Ok payload /\ values payload = Ok vs /\
    values_owned payload = Ok vs.
Proof.
  intros Hwf. destruct (build_spec vs Hwf) as (payload & Hb & Hr). exists payload.
  split; [done|]. by apply values_record.
Qed.

Lemma record_roundtrip_witness :
  exists payload, build [Null; Integer (-70000); Float 0; Text [104; 105]; Blob []; Integer 1] = Ok payload /\
    values payload = Ok [Null; Integer (-70000); Float 0; Text [104; 105]; Blob []; Integer 1].
Proof.
  destruct (record_roundtrip [Null; Integer (-70000); Float 0; Text [104; 105]; Blob []; Integer 1])
    as (p & H1 & H2 & _); [|exact (ex_intro _ p (conj H1 H2))].
  split; [repeat constructor; unfold is_i, is_u, len; simpl; lia | by vm_compute].
Defined.

(** The two serializers agree: [Record::serialize] appends to any buffer the very
    bytes [ImmutableRecord::build] produces. *)
Theorem serialize_appends_build (vs : list Value) (buf : list Z) :
  wf_record vs -> exists payload, build vs = Ok payload /\ serialize vs buf = Ok (buf ++ payload).
Proof.
  intros Hwf. destruct (build_spec vs Hwf) as (payload & Hb & Hr). exists payload.
  split; [done|]. by apply serialize_spec.
Qed.

Lemma serialize_appends_build_witness :
  exists payload, build [Integer 0; Integer 300] = Ok payload /\
    serialize [Integer 0; Integer 300] [9; 9] = Ok ([9; 9] ++ payload).
Proof.
  apply (serialize_appends_build [Integer 0; Integer 300] [9; 9]).
  split; [repeat constructor; unfold is_i; lia | by vm_compute].
Defined.

(** on a built record the accessors that skip columns give the same columns:
    [value] (through [nth]) the one at the index or the out-of-bounds error,
    [column_count] their number, [contains_null] whether one is NULL. *)
Theorem record_accessors (vs : list Value) (idx : nat) :
  wf_record vs -> exists payload, build vs = Ok payload /\
    value payload idx = match vs !! idx with Some v => Ok v | None => Err InternalError end /\
    column_count payload = len vs /\
    contains_null payload = Ok (bool_decide (Null ∈ vs)).
Proof.
  intros Hwf. destruct (build_spec vs Hwf) as (payload & Hb & Hr). exists payload.
  pose proof (iter_record vs payload Hwf Hr) as Hi. split; [done|].
  split; [by apply value_record|]. pose proof (length_le_header vs (proj1 Hwf)).
  unfold column_count, count. rewrite (contains_null_iter _ _ Hi), Hi. cbn [iter_of header_section].
  rewrite count_record, contains_null_loop_record by (done || apply Hwf). split; [lia | done].
Qed.

Lemma record_accessors_witness :
  exists payload, build [Integer 5; Null] = Ok payload /\ value payload 0 = Ok (Integer 5) /\
    column_count payload = 2 /\ contains_null payload = Ok true.
Proof.
  destruct (record_accessors [Integer 5; Null] 0) as (p & H1 & H2 & H3 & H4).
  - split; [repeat constructor; unfold is_i; lia | by vm_compute].
  - exists p. exact (conj H1 (conj H2 (conj H3 H4))).
Defined.

(** C36: whatever the bytes, decoding a whole record terminates without a panic:
    it gives the columns or the error [Corrupt]. *)
Theorem values_no_panic (payload : list Z) : bytes_ok payload -> values payload <> Panic.
Proof.
  intros Hok. unfold values, iter. pose proof (read_varint_inv payload Hok) as Hv.
  destruct (read_varint payload) as [[hs k]|e|]; [|done|done]. destruct Hv as (Hu & Hk & Hle & _). rstep.
  destruct (Z.ltb_spec (len payload) hs), (Z.ltb_spec (len payload) k), (Z.ltb_spec hs k); try done.
  simpl orb. cbv iota. rewrite slice_ok, slice_from_ok by lia. rstep. apply try_collect_no_panic.
  - cbn [header_section]. unfold slice_. auto with turso.
  - lia.
Qed.

Lemma values_no_panic_witness : bytes_ok [3; 13; 0x81; 7] /\ values [3; 13; 0x81; 7] <> Panic.
Proof.
  assert (bytes_ok [3; 13; 0x81; 7]) as H by (repeat constructor; unfold is_digit; lia).
  split; [exact H | exact (values_no_panic _ H)].
Defined.

(** Skipping with [nth] is equivalent to calling [next] repeatedly: when [n] calls
    of [next] each give a value, [nth n] answers as the next call does. *)
Theorem nth_is_next_after (n : nat) (it it' : ValueIterator) :
  bytes_ok (header_section it) -> len (data_section it) < 2 ^ 63 ->
  next_n n it = Some it' -> nth n it = next it'.
Proof.
  intros Hok Hb Hn. destruct (nth_loop_next n it it' 0 Hok ltac:(lia) ltac:(lia) Hn) as (d & Hd & Hl & Hd').
  unfold nth. rewrite Hl. rstep. rewrite Z.add_0_l.
  destruct (Z.ltb_spec (len (data_section it)) d); [lia|]. rewrite slice_from_ok by lia. rstep.
  rewrite <- Hd'. by destruct it'.
Qed.

Lemma nth_is_next_after_witness :
  exists it', next_n 1 {| header_section := [1; 15]; data_section := [7; 65] |} = Some it' /\
    nth 1 {| header_section := [1; 15]; data_section := [7; 65] |} = next it'.
Proof.
  eexists. split; [reflexivity|]. apply (nth_is_next_after 1); [|by vm_compute|reflexivity].
  repeat constructor; unfold is_digit; lia.
Defined.

(** The two value readers are equivalent: on every valid serial type [read_value]
    and [read_value_serial_type] give the same value, length or error. *)
Theorem read_value_agree (buf : list Z) (n : Z) :
  bytes_ok buf -> is_u 64 n -> u64_is_valid_serial_type n = true ->
  read_value buf n = read_value_serial_type buf n.
Proof.
  intros Hok [Hn _] Hv. destruct (small_or_large n Hn) as [Hin|Hl].
  - small_cases Hin; try done; unfold read_value; simpl kind; rstep;
      first [ exact (fixed_width_agree 2 buf _) | exact (fixed_width_agree 4 buf _)
            | exact (fixed_width_agree 8 buf _) | idtac ].
    + unfold read_value_serial_type. destruct (Z.eqb_spec (len buf) 0) as [E|E].
      * by rewrite (len_zero buf E).
      * pose proof (len_nonneg buf). unfold at_. destruct (get_Some_iff buf 0) as [b ->]; [lia|done].
    + apply (signed_width_agree 3); [lia|done|]. intros b bs Hb. by rewrite sign_extension_eq.
    + apply (signed_width_agree 6); [lia|done|]. intros b bs Hb. by rewrite sign_extension_eq.
  - rewrite read_value_serial_type_large by done. unfold read_value, serial_size, usub.
    rewrite kind_large by done. destruct (Z.eqb_spec (n mod 2) 0) as [E|E]; rstep.
    + destruct (Z.leb_spec 12 n); [|lia]. done.
    + destruct (Z.leb_spec 13 n) as [|]; [done|]. assert (n = 12) as -> by lia. done.
Qed.

Lemma read_value_agree_witness :
  u64_is_valid_serial_type 3 = true /\ read_value [0xfe; 0; 1] 3 = read_value_serial_type [0xfe; 0; 1] 3.
Proof.
  split; [done|]. apply (read_value_agree [0xfe; 0; 1] 3); [|unfold is_u; lia|done].
  repeat constructor; unfold is_digit; lia.
Defined.

(** C37: [calc_header_size] terminates with the least header size that counts its own
    varint: [h = sizeof_serial_types + varint_len h]. *)
Theorem calc_header_size_least (s : Z) :
  0 <= s < 2 ^ 63 ->
  exists h, calc_header_size s = Ok h /\ h = s + varint_len h /\
    (forall h', h' = s + varint_len h' -> s <= h' < 2 ^ 64 -> h <= h').
Proof.
  intros Hs. destruct (calc_header_size_spec s) as (h & H1 & H2 & _ & H4); [lia..|]. eauto.
Qed.

Lemma calc_header_size_least_witness : exists h, calc_header_size 126 = Ok h /\ h = 126 + varint_len h.
Proof.
  destruct (calc_header_size_least 126 ltac:(lia)) as (h & H1 & H2 & _). exact (ex_intro _ h (conj H1 H2)).
Defined.

(** ** Behaviour on corrupt records *)

(** C39: a payload that starts with a zero byte declares a header shorter than its own
    varint: the iterator reports corruption, [contains_null] slices out of range. *)
Theorem contains_null_panics (rest : list Z) :
  iter (0 :: rest) = Err Corrupt /\ contains_null (0 :: rest) = Panic.
Proof.
  pose proof (len_nonneg rest).
  assert (len (0 :: rest) = 1 + len rest) as Hl by (unfold len; simpl; lia).
  split; unfold iter, contains_null; change (read_varint (0 :: rest)) with (Ok (E:=LimboError) (0, 1));
    rstep; rewrite Hl; destruct (Z.ltb_spec (1 + len rest) 0), (Z.ltb_spec (1 + len rest) 1);
    (lia || done).
Qed.

(** C40: on a header that ends inside a varint [next] gives the error without consuming the
    header, so [fold], and with it [last_value], never ends. *)
Theorem last_value_diverges (fuel : nat) : last_value fuel [2; 0x80] = None.
Proof.
  unfold last_value. simpl len. change (iter [2; 0x80]) with
    (Ok (E:=LimboError) {| header_section := [0x80]; data_section := [] |}). cbv iota.
  generalize (@None (res LimboError Value)). change (len [2; 0x80] =? 0) with false. cbv iota.
  induction fuel as [|fuel IH]; intros acc; [done|]. cbn [last_loop].
  change (next {| header_section := [0x80]; data_section := [] |}) with
    (Ok (E:=LimboError) (Some (Err (A:=Value) Corrupt), {| header_section := [0x80]; data_section := [] |})).
  apply IH.
Qed.

(** [serialize_serial] has no case for the integer constants 0 and 1. *)
Theorem serialize_serial_panics (out : list Z) :
  serialize_serial (Integer 0) out = Panic /\ serialize_serial (Integer 1) out = Panic.
Proof. done. Qed.
