(* ===== verification/DbHeader.v ===== *)
(** The database header, the first 100 bytes of a database file, and the small
    validated types in it: [PageSize], [CacheSize], [Version], [TextEncoding] and
    [DatabaseHeader] of core/storage/sqlite3_ondisk.rs.  The packed struct is cast
    from and to bytes (bytemuck's [Pod]); the integers in it are big-endian. *)

From stdpp Require Import base list numbers.
From Stdlib Require Import ZArith Lia.
From S2P Require Import Prelude.

(** * Page size *)

(** A [PageSize] is the raw [u16] it wraps; [1] stands for 65536. *)
Definition PageSize : Type := Z.
Definition PageSize_MIN : Z := 512.
Definition PageSize_MAX : Z := 65536.
Definition PageSize_DEFAULT : PageSize := 4096.

(** [u32::count_ones]. *)
Fixpoint pos_count_ones (p : positive) : Z :=
  match p with
  | xH => 1
  | xO p => pos_count_ones p
  | xI p => 1 + pos_count_ones p
  end.
Definition count_ones (x : Z) : Z := match x with Zpos p => pos_count_ones p | _ => 0 end.

Definition PageSize_new (size : Z) : option PageSize :=
  if (size <? PageSize_MIN) || (PageSize_MAX <? size) then None
  else if negb (count_ones size =? 1) then None
  else if size =? PageSize_MAX then Some 1
  else Some (wrap 16 size).

Definition PageSize_new_from_header_u16 (value : Z) : res LimboError PageSize :=
  match value with
  | 1 => Ok 1
  | n => match PageSize_new n with Some size => Ok size | None => Err Corrupt end
  end.

Definition PageSize_get (p : PageSize) : Z :=
  match p with
  | 1 => PageSize_MAX
  | v => v
  end.

(** * Cache size *)

Definition CacheSize : Type := Z.
Definition CacheSize_DEFAULT : Z := -2000.
Definition CacheSize_new (size : Z) : CacheSize := if size =? CacheSize_DEFAULT then 0 else size.
Definition CacheSize_get (c : CacheSize) : Z := if c =? 0 then CacheSize_DEFAULT else c.
Definition CacheSize_default : CacheSize := CacheSize_DEFAULT.

(** * Format version and text encoding *)

Inductive Version : Type := Legacy | Wal | Mvcc.
Global Instance Version_eq_dec : EqDecision Version.
Proof. solve_decision. Defined.

Definition Version_wal (v : Version) : bool := bool_decide (v = Wal).
Definition Version_mvcc (v : Version) : bool := bool_decide (v = Mvcc).
Definition Version_legacy (v : Version) : bool := bool_decide (v = Legacy).

Definition Version_try_from (value : Z) : res Z Version :=
  match value with
  | 1 => Ok Legacy
  | 2 => Ok Wal
  | 255 => Ok Mvcc
  | v => Err v
  end.

(** [RawVersion::from] ([v as u8]) and [RawVersion::to_version]. *)
Definition RawVersion_from (v : Version) : Z :=
  match v with Legacy => 1 | Wal => 2 | Mvcc => 255 end.
Definition RawVersion_to_version (raw : Z) : res Z Version := Version_try_from raw.

Definition TextEncoding_Unset : Z := 0.
Definition TextEncoding_Utf8 : Z := 1.
Definition TextEncoding_Utf16Le : Z := 2.
Definition TextEncoding_Utf16Be : Z := 3.
Definition TextEncoding_is_utf8 (e : Z) : bool :=
  (e =? TextEncoding_Utf8) || (e =? TextEncoding_Unset).

(** * The header *)

Record DatabaseHeader := {
  magic : list Z;
  page_size : PageSize;
  write_version : Z;
  read_version : Z;
  reserved_space : Z;
  max_embed_frac : Z;
  min_embed_frac : Z;
  leaf_frac : Z;
  change_counter : Z;
  database_size : Z;
  freelist_trunk_page : Z;
  freelist_pages : Z;
  schema_cookie : Z;
  schema_format : Z;
  default_page_cache_size : CacheSize;
  vacuum_mode_largest_root_page : Z;
  text_encoding : Z;
  user_version : Z;
  incremental_vacuum_enabled : Z;
  application_id : Z;
  padding : list Z;
  version_valid_for : Z;
  version_number : Z;
}.

Definition DatabaseHeader_SIZE : Z := 100.

Definition usable_space (h : DatabaseHeader) : res LimboError Z :=
  usub (PageSize_get (page_size h)) (reserved_space h).

(** [b"SQLite format 3\0"]. *)
Definition SQLITE_MAGIC : list Z := [83; 81; 76; 105; 116; 101; 32; 102; 111; 114; 109; 97; 116; 32; 51; 0].

Definition DatabaseHeader_default : DatabaseHeader := {|
  magic := SQLITE_MAGIC;
  page_size := PageSize_DEFAULT;
  write_version := RawVersion_from Wal;
  read_version := RawVersion_from Wal;
  reserved_space := 0;
  max_embed_frac := 64;
  min_embed_frac := 32;
  leaf_frac := 32;
  change_counter := 1;
  database_size := 0;
  freelist_trunk_page := 0;
  freelist_pages := 0;
  schema_cookie := 0;
  schema_format := 4;
  default_page_cache_size := CacheSize_default;
  vacuum_mode_largest_root_page := 0;
  text_encoding := TextEncoding_Utf8;
  user_version := 0;
  incremental_vacuum_enabled := 0;
  application_id := 0;
  padding := replicate 20 0;
  version_valid_for := 3047000;
  version_number := 3047000;
|}.

(** The bytes of the packed struct, field by field. *)
Definition DatabaseHeader_bytes (h : DatabaseHeader) : list Z :=
  magic h ++ be_bytes 2 (page_size h) ++ be_bytes 1 (write_version h) ++ be_bytes 1 (read_version h) ++
  be_bytes 1 (reserved_space h) ++ be_bytes 1 (max_embed_frac h) ++ be_bytes 1 (min_embed_frac h) ++
  be_bytes 1 (leaf_frac h) ++ be_bytes 4 (change_counter h) ++ be_bytes 4 (database_size h) ++
  be_bytes 4 (freelist_trunk_page h) ++ be_bytes 4 (freelist_pages h) ++ be_bytes 4 (schema_cookie h) ++
  be_bytes 4 (schema_format h) ++ be_bytes 4 (default_page_cache_size h) ++
  be_bytes 4 (vacuum_mode_largest_root_page h) ++ be_bytes 4 (text_encoding h) ++
  be_bytes 4 (user_version h) ++ be_bytes 4 (incremental_vacuum_enabled h) ++
  be_bytes 4 (application_id h) ++ padding h ++ be_bytes 4 (version_valid_for h) ++
  be_bytes 4 (version_number h).

Definition i32_at (buf : list Z) (i j : Z) : res LimboError Z := x ← be_at buf i j; Ok (to_signed 32 x).

(** The cast of the first 100 bytes of page 1 back to the struct. *)
Definition DatabaseHeader_from_bytes (buf : list Z) : res LimboError DatabaseHeader :=
  magic ← slice buf 0 16;
  page_size ← be_at buf 16 18;
  write_version ← be_at buf 18 19;
  read_version ← be_at buf 19 20;
  reserved_space ← be_at buf 20 21;
  max_embed_frac ← be_at buf 21 22;
  min_embed_frac ← be_at buf 22 23;
  leaf_frac ← be_at buf 23 24;
  change_counter ← be_at buf 24 28;
  database_size ← be_at buf 28 32;
  freelist_trunk_page ← be_at buf 32 36;
  freelist_pages ← be_at buf 36 40;
  schema_cookie ← be_at buf 40 44;
  schema_format ← be_at buf 44 48;
  default_page_cache_size ← i32_at buf 48 52;
  vacuum_mode_largest_root_page ← be_at buf 52 56;
  text_encoding ← be_at buf 56 60;
  user_version ← i32_at buf 60 64;
  incremental_vacuum_enabled ← be_at buf 64 68;
  application_id ← i32_at buf 68 72;
  padding ← slice buf 72 92;
  version_valid_for ← be_at buf 92 96;
  version_number ← be_at buf 96 100;
  Ok {| magic := magic; page_size := page_size; write_version := write_version;
        read_version := read_version; reserved_space := reserved_space;
        max_embed_frac := max_embed_frac; min_embed_frac := min_embed_frac; leaf_frac := leaf_frac;
        change_counter := change_counter; database_size := database_size;
        freelist_trunk_page := freelist_trunk_page; freelist_pages := freelist_pages;
        schema_cookie := schema_cookie; schema_format := schema_format;
        default_page_cache_size := default_page_cache_size;
        vacuum_mode_largest_root_page := vacuum_mode_largest_root_page;
        text_encoding := text_encoding; user_version := user_version;
        incremental_vacuum_enabled := incremental_vacuum_enabled; application_id := application_id;
        padding := padding; version_valid_for := version_valid_for; version_number := version_number |}.

(** * Lemmas *)

Definition header_ok (h : DatabaseHeader) : Prop :=
  len (magic h) = 16 /\ bytes_ok (magic h) /\ len (padding h) = 20 /\ bytes_ok (padding h) /\
  is_u 16 (page_size h) /\ is_u 8 (write_version h) /\ is_u 8 (read_version h) /\
  is_u 8 (reserved_space h) /\ is_u 8 (max_embed_frac h) /\ is_u 8 (min_embed_frac h) /\
  is_u 8 (leaf_frac h) /\ is_u 32 (change_counter h) /\ is_u 32 (database_size h) /\
  is_u 32 (freelist_trunk_page h) /\ is_u 32 (freelist_pages h) /\ is_u 32 (schema_cookie h) /\
  is_u 32 (schema_format h) /\ is_i 32 (default_page_cache_size h) /\
  is_u 32 (vacuum_mode_largest_root_page h) /\ is_u 32 (text_encoding h) /\ is_i 32 (user_version h) /\
  is_u 32 (incremental_vacuum_enabled h) /\ is_i 32 (application_id h) /\
  is_u 32 (version_valid_for h) /\ is_u 32 (version_number h).

Lemma i32_at_hit x post : is_i 32 x -> i32_at (be_bytes 4 x ++ post) 0 4 = Ok x.
Proof.
  intros Hx. unfold i32_at, be_at. rewrite slice_hit by apply len_be_bytes. rstep.
  rewrite be_val_be_bytes. f_equal. by apply (to_signed_wrap 32).
Qed.
Lemma i32_at_skip k pre post i j :
  len pre = k -> k <= i -> i32_at (pre ++ post) i j = i32_at post (i - k) (j - k).
Proof. intros. unfold i32_at. by rewrite (be_at_skip k). Qed.

(** Like [seek], for a signed field. *)
Ltac seek_i32 :=
  eapply bind_step;
    [ repeat match goal with
      | |- i32_at (?pre ++ ?post) ?i ?j = _ =>
          erewrite (i32_at_skip _ pre post i j); [| len_field | by vm_compute]; simpl Z.sub
      end; apply i32_at_hit; assumption | ].

Lemma DatabaseHeader_decode h rest :
  header_ok h -> DatabaseHeader_from_bytes (DatabaseHeader_bytes h ++ rest) = Ok h.
Proof.
  intros (Hm & _ & Hp & _ & H). destruct_and!.
  unfold DatabaseHeader_from_bytes, DatabaseHeader_bytes. rewrite <- !app_assoc.
  repeat first [seek | seek_i32]. by destruct h.
Qed.

Lemma DatabaseHeader_bytes_length h : header_ok h -> length (DatabaseHeader_bytes h) = 100%nat.
Proof.
  intros (Hm & _ & Hp & _). unfold DatabaseHeader_bytes, len in *.
  rewrite !length_app, !length_be_bytes. lia.
Qed.
Lemma DatabaseHeader_bytes_ok h : header_ok h -> bytes_ok (DatabaseHeader_bytes h).
Proof.
  intros (_ & Hm & _ & Hp & _). unfold DatabaseHeader_bytes. rewrite !bytes_ok_app.
  repeat split; auto with turso.
Qed.

#[export] Instance DatabaseHeader_codec : Codec DatabaseHeader := {|
  codec_size := 100;
  encode := DatabaseHeader_bytes;
  decode := DatabaseHeader_from_bytes;
  encodable := header_ok;
  encode_size := DatabaseHeader_bytes_length;
  encode_bytes := DatabaseHeader_bytes_ok;
  decode_encode := DatabaseHeader_decode;
|}.

(** The powers of two a page size can be. *)
Definition page_sizes : list Z := [512; 1024; 2048; 4096; 8192; 16384; 32768; 65536].

Lemma pos_count_ones_pos p : 1 <= pos_count_ones p.
Proof. induction p; simpl; lia. Qed.
Lemma pos_count_ones_pow2 p : pos_count_ones p = 1 -> exists k, 0 <= k /\ Zpos p = 2 ^ k.
Proof.
  induction p as [p IH|p IH|]; simpl.
  - pose proof (pos_count_ones_pos p). lia.
  - intros H. destruct (IH H) as (k & Hk & E). exists (k + 1). split; [lia|].
    rewrite Z.pow_add_r, <- E by lia. lia.
  - intros _. exists 0. split; [lia | done].
Qed.

Lemma PageSize_new_iff size p :
  PageSize_new size = Some p <-> size ∈ page_sizes /\ p = (if size =? 65536 then 1 else size).
Proof.
  split.
  - unfold PageSize_new, PageSize_MIN, PageSize_MAX.
    destruct (Z.ltb_spec size 512); [done|]. destruct (Z.ltb_spec 65536 size); [done|]. simpl orb. cbv iota.
    destruct (Z.eqb_spec (count_ones size) 1) as [Hc|]; [|done]. destruct size as [|q|]; try lia.
    destruct (pos_count_ones_pow2 q Hc) as (k & Hk & E). rewrite E in *.
    assert (9 <= k <= 16) as Hr.
    { split; [apply (Z.pow_le_mono_r_iff 2) | apply (Z.pow_le_mono_r_iff 2)]; lia. }
    assert (k ∈ [9; 10; 11; 12; 13; 14; 15; 16]) as Hin by (rewrite !elem_of_cons; lia).
    repeat (apply elem_of_cons in Hin as [->|Hin]); [..|by apply elem_of_nil in Hin];
      (intros [= <-]; split; [unfold page_sizes; rewrite !elem_of_cons; cbn; lia | done]).
  - intros [Hin ->]. unfold page_sizes in Hin.
    repeat (apply elem_of_cons in Hin as [->|Hin]); [..|by apply elem_of_nil in Hin]; done.
Qed.

Lemma PageSize_get_page_sizes size :
  size ∈ page_sizes -> PageSize_get (if size =? 65536 then 1 else size) = size.
Proof.
  unfold page_sizes. intros Hin.
  repeat (apply elem_of_cons in Hin as [->|Hin]); [..|by apply elem_of_nil in Hin]; done.
Qed.
(** * Properties *)

(** The 100-byte database header survives being written and read back, whatever
    follows it on page 1, and its encoding is exactly 100 bytes. *)
Theorem DatabaseHeader_roundtrip (h : DatabaseHeader) (rest : list Z) :
  header_ok h ->
  len (DatabaseHeader_bytes h) = DatabaseHeader_SIZE /\
  DatabaseHeader_from_bytes (DatabaseHeader_bytes h ++ rest) = Ok h.
Proof.
  intros Hh. split; [unfold len; by rewrite DatabaseHeader_bytes_length | by apply DatabaseHeader_decode].
Qed.

Lemma DatabaseHeader_default_ok : header_ok DatabaseHeader_default.
Proof.
  unfold header_ok. repeat split; try (by vm_compute); repeat constructor; unfold is_digit; lia.
Qed.

Lemma DatabaseHeader_roundtrip_witness :
  DatabaseHeader_from_bytes (DatabaseHeader_bytes DatabaseHeader_default ++ [13; 0]) = Ok DatabaseHeader_default.
Proof. apply (DatabaseHeader_roundtrip _ [13; 0] DatabaseHeader_default_ok). Defined.

(** [PageSize::new] accepts exactly the powers of two from 512 to 65536; what it
    accepts reads back with [get], fits the header's [u16] and is accepted again by
    [new_from_header_u16]. *)
Theorem PageSize_new_correct (size : Z) :
  (is_Some (PageSize_new size) <-> size ∈ page_sizes) /\
  (forall p, PageSize_new size = Some p ->
     PageSize_get p = size /\ is_u 16 p /\ PageSize_new_from_header_u16 p = Ok p).
Proof.
  split.
  - split; [intros [p [Hp _]%PageSize_new_iff]; done|]. intros Hin. eexists. by apply PageSize_new_iff.
  - intros p [Hin ->]%PageSize_new_iff. split; [by apply PageSize_get_page_sizes|]. unfold page_sizes in Hin.
    repeat (apply elem_of_cons in Hin as [->|Hin]); [..|by apply elem_of_nil in Hin]; done.
Qed.

(** A cache size set with [CacheSize::new] reads back with [get], zero apart,
    which reads as the default; version bytes convert back to the version they encode,
    and every other byte is an error carrying it. *)
Theorem header_scalars_roundtrip (size : Z) (v : Version) (raw : Z) :
  CacheSize_get (CacheSize_new size) = (if size =? 0 then CacheSize_DEFAULT else size) /\
  RawVersion_to_version (RawVersion_from v) = Ok v /\
  (match RawVersion_to_version raw with
   | Ok v => RawVersion_from v = raw
   | Err e => e = raw /\ raw <> 1 /\ raw <> 2 /\ raw <> 255
   | Panic => False
   end).
Proof.
  split; [|split].
  - unfold CacheSize_get, CacheSize_new, CacheSize_DEFAULT. destruct (Z.eqb_spec size (-2000)) as [->|]; [done|]. done.
  - by destruct v.
  - unfold RawVersion_to_version, Version_try_from.
    destruct (Z.eq_dec raw 1) as [->|]; [done|]. destruct (Z.eq_dec raw 2) as [->|]; [done|].
    destruct (Z.eq_dec raw 255) as [->|]; [done|].
    assert (match raw with 1 => Ok Legacy | 2 => Ok Wal | 255 => Ok Mvcc | v => Err v end = Err raw) as ->; [|done].
    destruct raw as [|q|]; [done| |done]. do 8 (destruct q as [q|q|]; try done).
Qed.
