(* ===== verification/WalFormat.v ===== *)
(** The write-ahead log file: its checksum, header and frames, and the scan that
    rebuilds the shared WAL state when the log is opened
    ([checksum_wal], [prepare_wal_frame], [begin_write_wal_header],
    [parse_wal_frame_header], [StreamingWalReader] and [BuildSharedWal] of
    core/storage/sqlite3_ondisk.rs; [prepare_wal_header] and the batch loop of
    [prepare_frames] of core/storage/wal.rs).

    [big] is [cfg!(target_endian = "big")] of the machine that runs the code; the
    writer and the reader of a file may run on different machines.  The file is the
    list of its bytes; [pread] returns what the file holds at the offset. *)

From stdpp Require Import base list gmap numbers.
From Stdlib Require Import ZArith Lia.
From S2P Require Import Prelude DbHeader.

(** * Checksum *)

(** [u32::from_ne_bytes] and [u32::swap_bytes]. *)
Definition from_ne_bytes (big : bool) (bs : list Z) : Z := if big then be_val bs else le_val bs.
Definition swap_bytes (x : Z) : Z := le_val (be_bytes 4 x).

Definition checksum_word (big native_endian : bool) (bs : list Z) : Z :=
  if native_endian then from_ne_bytes big bs else swap_bytes (from_ne_bytes big bs).

Fixpoint checksum_loop (big native_endian : bool) (buf : list Z) (s0 s1 : Z) : Z * Z :=
  match buf with
  | a :: b :: c :: d :: e :: f :: g :: h :: buf =>
      let v0 := checksum_word big native_endian [a; b; c; d] in
      let v1 := checksum_word big native_endian [e; f; g; h] in
      let s0 := wrap 32 (s0 + wrap 32 (v0 + s1)) in
      let s1 := wrap 32 (s1 + wrap 32 (v1 + s0)) in
      checksum_loop big native_endian buf s0 s1
  | _ => (s0, s1)
  end.

Definition checksum_wal (big : bool) (buf : list Z) (input : Z * Z) (native_endian : bool) :
    res LimboError (Z * Z) :=
  _ ← rassert (len buf mod 8 =? 0);
  Ok (checksum_loop big native_endian buf (fst input) (snd input)).

(** * Header *)

Definition WAL_HEADER_SIZE : Z := 32.
Definition WAL_FRAME_HEADER_SIZE : Z := 24.
Definition WAL_MAGIC_LE : Z := 0x377f0682.
Definition WAL_MAGIC_BE : Z := 0x377f0683.

Record WalHeader := {
  magic : Z;
  file_format : Z;
  wal_page_size : Z;
  checkpoint_seq : Z;
  salt_1 : Z;
  salt_2 : Z;
  checksum_1 : Z;
  checksum_2 : Z;
}.

Definition WalHeader_new (big : bool) : WalHeader := {|
  magic := if big then WAL_MAGIC_BE else WAL_MAGIC_LE;
  file_format := 3007000; wal_page_size := 0; checkpoint_seq := 0;
  salt_1 := 0; salt_2 := 0; checksum_1 := 0; checksum_2 := 0 |}.

(** [x.to_ne_bytes()] of a [u32], as the struct holds it in memory. *)
Definition ne_bytes (big : bool) (x : Z) : list Z := if big then be_bytes 4 x else le_bytes 4 x.

(** The first 24 bytes of [WalHeader::as_bytes]. *)
Definition header_prefix (big : bool) (h : WalHeader) : list Z :=
  ne_bytes big (magic h) ++ ne_bytes big (file_format h) ++ ne_bytes big (wal_page_size h) ++
  ne_bytes big (checkpoint_seq h) ++ ne_bytes big (salt_1 h) ++ ne_bytes big (salt_2 h).

(** The header [prepare_wal_header] computes when the log is not initialized:
    [rnd1] and [rnd2] are what the I/O layer's random generator returns. *)
Definition prepare_wal_header (big : bool) (rnd1 rnd2 page_size : Z) (hdr : WalHeader) :
    res LimboError WalHeader :=
  let hdr_magic := if big then WAL_MAGIC_BE else WAL_MAGIC_LE in
  let page_size := if wal_page_size hdr =? 0 then page_size else wal_page_size hdr in
  let '(s1, s2) :=
    if (salt_1 hdr =? 0) && (salt_2 hdr =? 0) then (wrap 32 rnd1, wrap 32 rnd2)
    else (salt_1 hdr, salt_2 hdr) in
  let hdr := {| magic := hdr_magic; file_format := file_format hdr; wal_page_size := page_size;
                checkpoint_seq := checkpoint_seq hdr; salt_1 := s1; salt_2 := s2;
                checksum_1 := checksum_1 hdr; checksum_2 := checksum_2 hdr |} in
  let use_native := negb (Z.land (magic hdr) 1 =? 0) in
  '(c1, c2) ← checksum_wal big (header_prefix big hdr) (0, 0) use_native;
  Ok {| magic := magic hdr; file_format := file_format hdr; wal_page_size := wal_page_size hdr;
        checkpoint_seq := checkpoint_seq hdr; salt_1 := salt_1 hdr; salt_2 := salt_2 hdr;
        checksum_1 := c1; checksum_2 := c2 |}.

(** The buffer [begin_write_wal_header] writes at offset 0. *)
Definition wal_header_bytes (h : WalHeader) : list Z :=
  be_bytes 4 (magic h) ++ be_bytes 4 (file_format h) ++ be_bytes 4 (wal_page_size h) ++
  be_bytes 4 (checkpoint_seq h) ++ be_bytes 4 (salt_1 h) ++ be_bytes 4 (salt_2 h) ++
  be_bytes 4 (checksum_1 h) ++ be_bytes 4 (checksum_2 h).

Definition parse_wal_header (s : list Z) : res LimboError WalHeader :=
  magic ← be_at s 0 4;
  file_format ← be_at s 4 8;
  page_size ← be_at s 8 12;
  checkpoint_seq ← be_at s 12 16;
  salt_1 ← be_at s 16 20;
  salt_2 ← be_at s 20 24;
  checksum_1 ← be_at s 24 28;
  checksum_2 ← be_at s 28 32;
  Ok {| magic := magic; file_format := file_format; wal_page_size := page_size;
        checkpoint_seq := checkpoint_seq; salt_1 := salt_1; salt_2 := salt_2;
        checksum_1 := checksum_1; checksum_2 := checksum_2 |}.

(** * Frames *)

Record WalFrameHeader := {
  page_number : Z;
  db_size : Z;
  frame_salt_1 : Z;
  frame_salt_2 : Z;
  frame_checksum_1 : Z;
  frame_checksum_2 : Z;
}.

Definition is_commit_frame (h : WalFrameHeader) : bool := 0 <? db_size h.

Definition parse_wal_frame_header (frame : list Z) : res LimboError (WalFrameHeader * list Z) :=
  page_number ← be_at frame 0 4;
  db_size ← be_at frame 4 8;
  salt_1 ← be_at frame 8 12;
  salt_2 ← be_at frame 12 16;
  checksum_1 ← be_at frame 16 20;
  checksum_2 ← be_at frame 20 24;
  page ← slice frame WAL_FRAME_HEADER_SIZE (len frame);
  Ok ({| page_number := page_number; db_size := db_size; frame_salt_1 := salt_1;
         frame_salt_2 := salt_2; frame_checksum_1 := checksum_1; frame_checksum_2 := checksum_2 |},
      page).

(** [cfg!(target_endian = "big") == (magic & 1 != 0)]. *)
Definition use_native_endian_of (big : bool) (magic : Z) : bool :=
  eqb big (negb (Z.land magic 1 =? 0)).

(** [buffer] is the recycled frame buffer, whatever it holds. *)
Definition prepare_wal_frame (big : bool) (buffer : list Z) (wal_header : WalHeader)
    (prev_checksums : Z * Z) (page_size page_number db_size : Z) (page : list Z) :
    res LimboError ((Z * Z) * list Z) :=
  _ ← rassert (len buffer - WAL_FRAME_HEADER_SIZE =? len page);
  frame ← write_at buffer WAL_FRAME_HEADER_SIZE page;
  frame ← write_at frame 0 (be_bytes 4 page_number);
  frame ← write_at frame 4 (be_bytes 4 db_size);
  frame ← write_at frame 8 (be_bytes 4 (salt_1 wal_header));
  frame ← write_at frame 12 (be_bytes 4 (salt_2 wal_header));
  let use_native_endian := use_native_endian_of big (magic wal_header) in
  h ← slice frame 0 8;
  header_checksum ← checksum_wal big h prev_checksums use_native_endian;
  p ← slice frame WAL_FRAME_HEADER_SIZE (WAL_FRAME_HEADER_SIZE + page_size);
  final_checksum ← checksum_wal big p header_checksum use_native_endian;
  frame ← write_at frame 16 (be_bytes 4 (fst final_checksum));
  frame ← write_at frame 20 (be_bytes 4 (snd final_checksum));
  Ok (final_checksum, frame).

(** The loop of [prepare_frames]: only the last frame of the batch carries the
    database size.  A page comes with the buffer its frame is built in. *)
Fixpoint prepare_frames (big : bool) (header : WalHeader) (rolling_checksum : Z * Z)
    (pages : list (Z * list Z * list Z)) (db_size_on_commit : option Z) :
    res LimboError ((Z * Z) * list (list Z)) :=
  match pages with
  | [] => Ok (rolling_checksum, [])
  | (page_id, data, buffer) :: pages =>
      let frame_db_size :=
        match pages with [] => default 0 db_size_on_commit | _ => 0 end in
      '(checksum, frame_buf) ← prepare_wal_frame big buffer header rolling_checksum
        (wal_page_size header) (wrap 32 page_id) frame_db_size data;
      '(final_checksum, bufs) ← prepare_frames big header checksum pages db_size_on_commit;
      Ok (final_checksum, frame_buf :: bufs)
  end.

(** * The recovery scan *)

Record OverflowFallbackCoverage := {
  cov_checkpoint_seq : Z;
  cov_salt_1 : Z;
  cov_salt_2 : Z;
  cov_max_frame : Z;
  cov_valid : bool;
}.

Definition coverage_clear : OverflowFallbackCoverage :=
  {| cov_checkpoint_seq := 0; cov_salt_1 := 0; cov_salt_2 := 0; cov_max_frame := 0; cov_valid := false |}.
Definition coverage_record (checkpoint_seq salt_1 salt_2 max_frame : Z) : OverflowFallbackCoverage :=
  if max_frame =? 0 then coverage_clear
  else {| cov_checkpoint_seq := checkpoint_seq; cov_salt_1 := salt_1; cov_salt_2 := salt_2;
          cov_max_frame := max_frame; cov_valid := true |}.

(** The fields of [WalFileShared] the scan fills in. *)
Record WalFileShared := {
  wal_header : WalHeader;
  max_frame : Z;
  nbackfills : Z;
  last_checksum : Z * Z;
  loaded : bool;
  initialized : bool;
  frame_cache : gmap Z (list Z);
  frame_cache_high_water : Z;
  overflow_fallback_coverage : OverflowFallbackCoverage;
}.

Record StreamingState := {
  frame_idx : Z;
  cumulative_checksum : Z * Z;
  last_valid_checksum : Z * Z;
  last_valid_frame : Z;
  pending_frames : gmap Z (list Z);
  page_size : Z;
  use_native_endian : bool;
  header_valid : bool;
}.

(** [StreamingWalReader]: its state, the shared state it fills in, and its atomics. *)
Record Reader := {
  file_size : Z;
  state : StreamingState;
  shared : WalFileShared;
  off : Z;
  page_atomic : Z;
  done_ : bool;
}.

Definition StreamingState_new : StreamingState := {|
  frame_idx := 1; cumulative_checksum := (0, 0); last_valid_checksum := (0, 0);
  last_valid_frame := 0; pending_frames := ∅; page_size := 0; use_native_endian := false;
  header_valid := false |}.

Definition WalFileShared_new (big : bool) : WalFileShared := {|
  wal_header := WalHeader_new big; max_frame := 0; nbackfills := 0; last_checksum := (0, 0);
  loaded := false; initialized := false; frame_cache := ∅; frame_cache_high_water := 0;
  overflow_fallback_coverage := coverage_clear |}.

Definition Reader_new (big : bool) (file_size : Z) : Reader := {|
  file_size := file_size; state := StreamingState_new; shared := WalFileShared_new big;
  off := 0; page_atomic := 0; done_ := false |}.

Definition set_shared (r : Reader) (sh : WalFileShared) : Reader := {|
  file_size := file_size r; state := state r; shared := sh; off := off r;
  page_atomic := page_atomic r; done_ := done_ r |}.

(** [frames.retain(|&f| f <= bound)], dropping the page when no frame is left. *)
Definition retain_frames (bound : Z) (frames : list Z) : option (list Z) :=
  match filter (fun f => f <= bound) frames with [] => None | fs => Some fs end.

(** [frame_cache.entry(page).or_default().extend(frames)] for every drained page. *)
Definition extend_cache (cache pending : gmap Z (list Z)) : gmap Z (list Z) :=
  union_with (fun old new => Some (old ++ new)) cache pending.

Definition flush_pending_frames (st : StreamingState) (sh : WalFileShared) :
    StreamingState * WalFileShared :=
  if decide (pending_frames st = ∅) then (st, sh)
  else
    ({| frame_idx := frame_idx st; cumulative_checksum := cumulative_checksum st;
        last_valid_checksum := last_valid_checksum st; last_valid_frame := last_valid_frame st;
        pending_frames := ∅; page_size := page_size st;
        use_native_endian := use_native_endian st; header_valid := header_valid st |},
     {| wal_header := wal_header sh; max_frame := last_valid_frame st;
        nbackfills := nbackfills sh; last_checksum := last_checksum sh; loaded := loaded sh;
        initialized := initialized sh;
        frame_cache := extend_cache (frame_cache sh)
          (omap (retain_frames (last_valid_frame st)) (pending_frames st));
        frame_cache_high_water := Z.max (frame_cache_high_water sh) (last_valid_frame st);
        overflow_fallback_coverage := overflow_fallback_coverage sh |}).

Definition finalize_loading (r : Reader) : Reader :=
  let st := state r in
  let sh := shared r in
  let bound := last_valid_frame st in
  let cache :=
    if 0 <? bound then omap (retain_frames bound) (frame_cache sh) else frame_cache sh in
  let coverage :=
    if 0 <? bound then
      coverage_record (checkpoint_seq (wal_header sh)) (salt_1 (wal_header sh))
        (salt_2 (wal_header sh)) bound
    else coverage_clear in
  {| file_size := file_size r; state := st;
     shared := {| wal_header := wal_header sh; max_frame := bound; nbackfills := 0;
                  last_checksum := last_valid_checksum st; loaded := true;
                  initialized := if header_valid st then true else initialized sh;
                  frame_cache := cache; frame_cache_high_water := frame_cache_high_water sh;
                  overflow_fallback_coverage := coverage |};
     off := off r; page_atomic := page_atomic r; done_ := true |}.

(** [res] is what the read completed with: an error or the bytes read. *)
Definition handle_header_read (big : bool) (r : Reader) (read : option (list Z)) :
    res LimboError Reader :=
  match read with
  | None => Ok (finalize_loading r)
  | Some s =>
      if negb (len s =? WAL_HEADER_SIZE) then Ok (finalize_loading r)
      else
        h ← parse_wal_header s;
        let r := set_shared r
          {| wal_header := h; max_frame := max_frame (shared r); nbackfills := nbackfills (shared r);
             last_checksum := last_checksum (shared r); loaded := loaded (shared r);
             initialized := initialized (shared r); frame_cache := frame_cache (shared r);
             frame_cache_high_water := frame_cache_high_water (shared r);
             overflow_fallback_coverage := overflow_fallback_coverage (shared r) |} in
        let use_native := use_native_endian_of big (magic h) in
        prefix ← slice s 0 24;
        calc ← checksum_wal big prefix (0, 0) use_native;
        let ok := bool_decide (calc = (checksum_1 h, checksum_2 h)) in
        if match PageSize_new (wal_page_size h) with None => true | Some _ => negb ok end
        then Ok (finalize_loading r)
        else
          Ok {| file_size := file_size r;
                state := {| frame_idx := frame_idx (state r);
                            cumulative_checksum := (checksum_1 h, checksum_2 h);
                            last_valid_checksum := (checksum_1 h, checksum_2 h);
                            last_valid_frame := last_valid_frame (state r);
                            pending_frames := pending_frames (state r);
                            page_size := wal_page_size h; use_native_endian := use_native;
                            header_valid := true |};
                shared := shared r; off := WAL_HEADER_SIZE; page_atomic := wal_page_size h;
                done_ := done_ r |}
  end.

(** The end of the loop body of [process_frames], for a frame that checks out. *)
Definition accept_frame (page_no db_size : Z) (calc : Z * Z) (st : StreamingState) (sh : WalFileShared) :
    StreamingState * WalFileShared :=
  let commit := 0 <? db_size in
  let st :=
    {| frame_idx := frame_idx st; cumulative_checksum := calc;
       last_valid_checksum := if commit then calc else last_valid_checksum st;
       last_valid_frame := if commit then frame_idx st else last_valid_frame st;
       pending_frames :=
         <[page_no := default [] (pending_frames st !! page_no) ++ [frame_idx st]]> (pending_frames st);
       page_size := page_size st; use_native_endian := use_native_endian st;
       header_valid := header_valid st |} in
  let '(st, sh) := if commit then flush_pending_frames st sh else (st, sh) in
  ({| frame_idx := frame_idx st + 1; cumulative_checksum := cumulative_checksum st;
      last_valid_checksum := last_valid_checksum st; last_valid_frame := last_valid_frame st;
      pending_frames := pending_frames st; page_size := page_size st;
      use_native_endian := use_native_endian st; header_valid := header_valid st |}, sh).

(** The body of the loop of [process_frames]: [None] when it breaks. *)
Definition process_frame (big : bool) (header : WalHeader) (use_native : bool)
    (fh page : list Z) (st : StreamingState) (sh : WalFileShared) :
    res LimboError (option (StreamingState * WalFileShared)) :=
  page_no ← be_at fh 0 4;
  db_size ← be_at fh 4 8;
  s1 ← be_at fh 8 12;
  s2 ← be_at fh 12 16;
  c1 ← be_at fh 16 20;
  c2 ← be_at fh 20 24;
  if page_no =? 0 then Ok None
  else if negb (s1 =? salt_1 header) || negb (s2 =? salt_2 header) then Ok None
  else
    h8 ← slice fh 0 8;
    seed ← checksum_wal big h8 (cumulative_checksum st) use_native;
    calc ← checksum_wal big page seed use_native;
    if bool_decide (calc = (c1, c2)) then Ok (Some (accept_frame page_no db_size calc st sh))
    else Ok None.

(** [while pos + frame_size <= buf.len()].  A frame is at least one byte long, so a
    fuel of the buffer's length is enough. *)
Fixpoint frames_loop (fuel : nat) (big : bool) (buf : list Z) (header : WalHeader)
    (use_native : bool) (frame_size pos : Z) (st : StreamingState) (sh : WalFileShared) :
    res LimboError (Z * StreamingState * WalFileShared) :=
  if len buf <? pos + frame_size then Ok (pos, st, sh)
  else match fuel with
  | O => Panic
  | S fuel =>
      fh ← slice buf pos (pos + WAL_FRAME_HEADER_SIZE);
      page ← slice buf (pos + WAL_FRAME_HEADER_SIZE) (pos + frame_size);
      next ← process_frame big header use_native fh page st sh;
      match next with
      | None => Ok (pos, st, sh)
      | Some (st, sh) =>
          frames_loop fuel big buf header use_native frame_size (pos + frame_size) st sh
      end
  end.

Definition process_frames (big : bool) (buf : list Z) (header : WalHeader) (use_native : bool)
    (r : Reader) : res LimboError (Z * Reader) :=
  let frame_size := WAL_FRAME_HEADER_SIZE + page_size (state r) in
  '(pos, st, sh) ← frames_loop (length buf) big buf header use_native frame_size 0 (state r) (shared r);
  Ok (pos, {| file_size := file_size r; state := st; shared := sh; off := off r;
              page_atomic := page_atomic r; done_ := done_ r |}).

Definition handle_chunk_read (big : bool) (r : Reader) (read : option (list Z)) :
    res LimboError Reader :=
  match read with
  | None => Ok (finalize_loading r)
  | Some buf =>
      '(consumed, r) ← process_frames big buf (wal_header (shared r)) (use_native_endian (state r)) r;
      let r := {| file_size := file_size r; state := state r; shared := shared r;
                  off := off r + consumed; page_atomic := page_atomic r; done_ := done_ r |} in
      if (consumed <? len buf) || (file_size r <=? off r) then Ok (finalize_loading r) else Ok r
  end.

(** The size [submit_one_chunk] reads at [offset]; [0] is the end of the file. *)
Definition BASE : Z := 16 * 1024 * 1024.
Definition chunk_size (r : Reader) (offset : Z) : res LimboError Z :=
  _ ← ensure (negb (page_atomic r =? 0)) InternalError;
  let frame_size := WAL_FRAME_HEADER_SIZE + page_atomic r in
  _ ← ensure (negb (frame_size =? 0)) InternalError;
  let aligned := (BASE / frame_size) * frame_size in
  left ← usub (file_size r) offset;
  Ok (Z.min (Z.max aligned frame_size) left).

(** [file.pread] of the file's bytes. *)
Definition pread (file : list Z) (offset n : Z) : list Z :=
  take (Z.to_nat n) (drop (Z.to_nat offset) file).

(** The [ChunkLoop] and [AwaitChunk] phases of [BuildSharedWal::poll].  Every round
    that goes on advances the offset, so a fuel of the file's length is enough. *)
Fixpoint chunk_loop (fuel : nat) (big : bool) (file : list Z) (r : Reader) : res LimboError Reader :=
  if done_ r then Ok r
  else if file_size r <=? off r then Ok (finalize_loading r)
  else match fuel with
  | O => Panic
  | S fuel =>
      let offset := off r in
      read_size ← chunk_size r offset;
      r ← (if read_size =? 0 then Ok r else handle_chunk_read big r (Some (pread file offset read_size)));
      if off r <=? offset then Ok (finalize_loading r) else chunk_loop fuel big file r
  end.

(** [build_shared_wal]: open a log and scan it to its end. *)
Definition build_shared_wal (big : bool) (file : list Z) : res LimboError WalFileShared :=
  if len file <? WAL_HEADER_SIZE then
    let sh := WalFileShared_new big in
    Ok {| wal_header := wal_header sh; max_frame := max_frame sh; nbackfills := nbackfills sh;
          last_checksum := last_checksum sh; loaded := true; initialized := initialized sh;
          frame_cache := frame_cache sh; frame_cache_high_water := frame_cache_high_water sh;
          overflow_fallback_coverage := overflow_fallback_coverage sh |}
  else
    r ← handle_header_read big (Reader_new big (len file)) (Some (pread file 0 WAL_HEADER_SIZE));
    r ← chunk_loop (length file) big file r;
    Ok (shared r).

(** * A log in closed form *)

(** A frame as the writer means it. *)
Record wframe := { wf_page : Z; wf_db_size : Z; wf_data : list Z }.

Definition wframe_ok (psz : Z) (f : wframe) : Prop :=
  is_u 32 (wf_page f) /\ wf_page f <> 0 /\ is_u 32 (wf_db_size f) /\
  len (wf_data f) = psz /\ bytes_ok (wf_data f).

Definition fields_in_range (h : WalHeader) : Prop :=
  is_u 32 (magic h) /\ is_u 32 (file_format h) /\ is_u 32 (wal_page_size h) /\
  is_u 32 (checkpoint_seq h) /\ is_u 32 (salt_1 h) /\ is_u 32 (salt_2 h).
Definition header_in_range (h : WalHeader) : Prop :=
  fields_in_range h /\ is_u 32 (checksum_1 h) /\ is_u 32 (checksum_2 h).

(** The words are big-endian when the low bit of the magic number is set. *)
Definition big_sums (h : WalHeader) : bool := negb (Z.land (magic h) 1 =? 0).

(** The checksum, whatever machine computes it. *)
Definition wal_sum (h : WalHeader) (buf : list Z) (ck : Z * Z) : Z * Z :=
  checksum_loop (big_sums h) true buf (fst ck) (snd ck).

Definition frame_ck (h : WalHeader) (ck : Z * Z) (f : wframe) : Z * Z :=
  wal_sum h (wf_data f) (wal_sum h (be_bytes 4 (wf_page f) ++ be_bytes 4 (wf_db_size f)) ck).

Definition frame_head (h : WalHeader) (ck : Z * Z) (f : wframe) : list Z :=
  be_bytes 4 (wf_page f) ++ be_bytes 4 (wf_db_size f) ++ be_bytes 4 (salt_1 h) ++
  be_bytes 4 (salt_2 h) ++ be_bytes 4 (fst (frame_ck h ck f)) ++ be_bytes 4 (snd (frame_ck h ck f)).
Definition frame_bytes (h : WalHeader) (ck : Z * Z) (f : wframe) : list Z :=
  frame_head h ck f ++ wf_data f.

Fixpoint log_ck (h : WalHeader) (ck : Z * Z) (fs : list wframe) : Z * Z :=
  match fs with [] => ck | f :: fs => log_ck h (frame_ck h ck f) fs end.
Fixpoint log_bytes (h : WalHeader) (ck : Z * Z) (fs : list wframe) : list Z :=
  match fs with [] => [] | f :: fs => frame_bytes h ck f ++ log_bytes h (frame_ck h ck f) fs end.

(** The number of the last commit frame, counting the frames of [fs] from [n]. *)
Fixpoint last_commit_from (n cur : Z) (fs : list wframe) : Z :=
  match fs with
  | [] => cur
  | f :: fs => last_commit_from (n + 1) (if 0 <? wf_db_size f then n else cur) fs
  end.
Definition last_commit (fs : list wframe) : Z := last_commit_from 1 0 fs.

(** The committed prefix of a log. *)
Definition committed (fs : list wframe) : list wframe := take (Z.to_nat (last_commit fs)) fs.

(** The numbers of the frames that hold page [p], counting from [n]. *)
Fixpoint frames_of (p n : Z) (fs : list wframe) : list Z :=
  match fs with
  | [] => []
  | f :: fs => (if wf_page f =? p then [n] else []) ++ frames_of p (n + 1) fs
  end.

(** [tail] holds no whole frame that continues a log with checksum [ck]: it is too
    short, or its first frame has page number zero, the salt of another log or a
    wrong checksum. *)
Definition log_ends (h : WalHeader) (ck : Z * Z) (psz : Z) (tail : list Z) : Prop :=
  len tail < 24 + psz \/
  let fh := take 24 tail in
  be_val (slice_ fh 0 4) = 0 \/ be_val (slice_ fh 8 12) <> salt_1 h \/
  be_val (slice_ fh 12 16) <> salt_2 h \/
  wal_sum h (take (Z.to_nat psz) (drop 24 tail)) (wal_sum h (slice_ fh 0 8) ck) <>
    (be_val (slice_ fh 16 20), be_val (slice_ fh 20 24)).

(** ** Checksums *)

Lemma le_val_le_bytes n x : 0 <= x < 256 ^ Z.of_nat n -> le_val (le_bytes n x) = x.
Proof. intros. unfold le_val, le_bytes. rewrite reverse_involutive. by apply be_val_be_bytes_small. Qed.
Lemma be_val_reverse bs : be_val (reverse bs) = le_val bs.
Proof. done. Qed.

Lemma swap_le_val bs : bytes_ok bs -> length bs = 4%nat -> swap_bytes (le_val bs) = be_val bs.
Proof.
  intros Hok Hl. unfold swap_bytes. rewrite <- (be_val_reverse bs).
  assert (length (reverse bs) = 4%nat) as Hr by (by rewrite length_reverse).
  rewrite <- Hr, be_bytes_be_val.
  - unfold le_val. by rewrite reverse_involutive.
  - unfold bytes_ok. by apply Forall_reverse.
Qed.
Lemma swap_be_val bs : bytes_ok bs -> length bs = 4%nat -> swap_bytes (be_val bs) = le_val bs.
Proof. intros Hok Hl. unfold swap_bytes. by rewrite <- Hl, be_bytes_be_val. Qed.

(** The word the code reads does not depend on the machine. *)
Lemma checksum_word_machine big magic bs :
  bytes_ok bs -> length bs = 4%nat ->
  checksum_word big (use_native_endian_of big magic) bs =
  from_ne_bytes (negb (Z.land magic 1 =? 0)) bs.
Proof.
  intros Hok Hl. unfold checksum_word, use_native_endian_of, from_ne_bytes.
  destruct big, (negb (Z.land magic 1 =? 0)); simpl; auto using swap_le_val, swap_be_val.
Qed.

Lemma list_ind8 {A} (P : list A -> Prop) :
  (forall l, (length l < 8)%nat -> P l) ->
  (forall a b c d e f g h l, P l -> P (a :: b :: c :: d :: e :: f :: g :: h :: l)) -> forall l, P l.
Proof.
  intros Hs Hc l. remember (length l) as n eqn:Hn. revert l Hn.
  induction n as [n IH] using lt_wf_ind. intros l Hn.
  destruct l as [|a [|b [|c [|d [|e [|f [|g [|h l]]]]]]]]; try (apply Hs; simpl; lia).
  apply Hc. apply (IH (length l)); [simpl in Hn; lia | done].
Qed.

Lemma checksum_loop_short big native buf s0 s1 :
  (length buf < 8)%nat -> checksum_loop big native buf s0 s1 = (s0, s1).
Proof. by destruct buf as [|a [|b [|c [|d [|e [|f [|g [|h l]]]]]]]]; simpl; intros; [done..|lia]. Qed.

Lemma checksum_loop_machine big magic buf s0 s1 :
  bytes_ok buf ->
  checksum_loop big (use_native_endian_of big magic) buf s0 s1 =
  checksum_loop (negb (Z.land magic 1 =? 0)) true buf s0 s1.
Proof.
  revert s0 s1. induction buf as [l Hs|a b c d e f g h l IH] using list_ind8; intros s0 s1 Hok.
  - by rewrite !checksum_loop_short.
  - cbn [checksum_loop]. apply (bytes_ok_app [a; b; c; d; e; f; g; h]) in Hok as [H8 Hl].
    apply (bytes_ok_app [a; b; c; d]) in H8 as [Ha He].
    rewrite IH by done. by rewrite !(checksum_word_machine _ _ [a; b; c; d]), !(checksum_word_machine _ _ [e; f; g; h]).
Qed.

Lemma checksum_wal_spec big h buf ck :
  bytes_ok buf -> len buf mod 8 = 0 ->
  checksum_wal big buf ck (use_native_endian_of big (magic h)) = Ok (wal_sum h buf ck).
Proof.
  intros Hok Hl. unfold checksum_wal. rewrite Hl. simpl. by rewrite checksum_loop_machine.
Qed.

Lemma checksum_loop_range big native buf s0 s1 :
  is_u 32 s0 -> is_u 32 s1 ->
  is_u 32 (fst (checksum_loop big native buf s0 s1)) /\ is_u 32 (snd (checksum_loop big native buf s0 s1)).
Proof.
  revert s0 s1. induction buf as [l Hs|a b c d e f g h l IH] using list_ind8; intros s0 s1 H0 H1.
  - by rewrite checksum_loop_short.
  - cbn [checksum_loop]. apply IH; apply wrap_is_u; lia.
Qed.

(** ** The header *)

Lemma parse_wal_header_bytes h rest :
  header_in_range h -> parse_wal_header (wal_header_bytes h ++ rest) = Ok h.
Proof.
  intros H. unfold header_in_range, fields_in_range in H. destruct_and!.
  unfold parse_wal_header, wal_header_bytes. rewrite <- !app_assoc. repeat seek. by destruct h.
Qed.
Lemma wal_header_bytes_length h : length (wal_header_bytes h) = 32%nat.
Proof. unfold wal_header_bytes. by rewrite !length_app, !length_be_bytes. Qed.
Lemma len_wal_header h : len (wal_header_bytes h) = 32.
Proof. unfold len. by rewrite wal_header_bytes_length. Qed.
Lemma wal_header_bytes_ok h : bytes_ok (wal_header_bytes h).
Proof. unfold wal_header_bytes. rewrite !bytes_ok_app. repeat split; auto with turso. Qed.

#[export] Instance WalHeader_codec : Codec WalHeader := {|
  codec_size := 32;
  encode := wal_header_bytes;
  decode := parse_wal_header;
  encodable := header_in_range;
  encode_size h _ := wal_header_bytes_length h;
  encode_bytes h _ := wal_header_bytes_ok h;
  decode_encode := parse_wal_header_bytes;
|}.

(** The header's sum as the reader computes it from the file. *)
Definition header_sum (h : WalHeader) : Z * Z :=
  wal_sum h (take 24 (wal_header_bytes h)) (0, 0).

Definition header_sealed (h : WalHeader) : Prop :=
  header_in_range h /\ header_sum h = (checksum_1 h, checksum_2 h).

Lemma checksum_pair big native w1 w2 buf s0 s1 :
  length w1 = 4%nat -> length w2 = 4%nat ->
  checksum_loop big native (w1 ++ w2 ++ buf) s0 s1 =
  let s0 := wrap 32 (s0 + wrap 32 (checksum_word big native w1 + s1)) in
  let s1 := wrap 32 (s1 + wrap 32 (checksum_word big native w2 + s0)) in
  checksum_loop big native buf s0 s1.
Proof.
  intros H1 H2. destruct w1 as [|? [|? [|? [|? []]]]]; try done.
  destruct w2 as [|? [|? [|? [|? []]]]]; done.
Qed.

Lemma ne_word big x :
  is_u 32 x ->
  checksum_word big big (ne_bytes big x) = checksum_word big true (be_bytes 4 x).
Proof.
  intros Hx. unfold checksum_word, from_ne_bytes, ne_bytes, is_u in *. destruct big; [done|].
  unfold swap_bytes. by rewrite le_val_le_bytes.
Qed.
Lemma length_ne_bytes big x : length (ne_bytes big x) = 4%nat.
Proof. unfold ne_bytes. destruct big; [apply length_be_bytes | apply length_le_bytes]. Qed.

(** The sum the writer takes over the struct in memory is the sum the reader takes
    over the file. *)
Lemma header_prefix_sum big h :
  fields_in_range h -> big_sums h = big ->
  checksum_loop big big (header_prefix big h) 0 0 = header_sum h.
Proof.
  intros H Hb. unfold fields_in_range in H. destruct_and!. unfold header_sum, wal_sum. rewrite Hb.
  change (take 24 (wal_header_bytes h)) with
    (be_bytes 4 (magic h) ++ be_bytes 4 (file_format h) ++ be_bytes 4 (wal_page_size h) ++
     be_bytes 4 (checkpoint_seq h) ++ be_bytes 4 (salt_1 h) ++ be_bytes 4 (salt_2 h) ++ []).
  unfold header_prefix. rewrite <- (app_nil_r (ne_bytes big (salt_2 h))).
  rewrite !checksum_pair by (apply length_ne_bytes || apply length_be_bytes). cbv zeta.
  by rewrite !ne_word.
Qed.

Lemma big_sums_magic (big : bool) : negb (Z.land (if big then WAL_MAGIC_BE else WAL_MAGIC_LE) 1 =? 0) = big.
Proof. by destruct big. Qed.

(** What the writer starts from: the fields [prepare_wal_header] keeps are in range. *)
Definition header_seed (psz : Z) (h : WalHeader) : Prop :=
  is_u 32 (file_format h) /\ is_u 32 (checkpoint_seq h) /\ is_u 32 (salt_1 h) /\ is_u 32 (salt_2 h) /\
  (wal_page_size h = 0 \/ wal_page_size h = psz).

Lemma checksum_header_prefix big h :
  fields_in_range h -> big_sums h = big ->
  exists c1 c2, checksum_wal big (header_prefix big h) (0, 0) big = Ok (c1, c2) /\
    header_sum h = (c1, c2) /\ is_u 32 c1 /\ is_u 32 c2.
Proof.
  intros Hr Hb. unfold checksum_wal.
  assert (len (header_prefix big h) mod 8 = 0) as ->
    by (unfold header_prefix, len; by rewrite !length_app, !length_ne_bytes).
  simpl rassert. rstep. cbn [fst snd].
  pose proof (checksum_loop_range big big (header_prefix big h) 0 0) as Hc.
  rewrite header_prefix_sum in * by done. destruct (header_sum h) as [c1 c2]. exists c1, c2.
  destruct Hc; [unfold is_u; lia..|]. done.
Qed.

Ltac header_range big :=
  unfold fields_in_range, is_u, WAL_MAGIC_BE, WAL_MAGIC_LE in *; cbn in *; destruct big; lia.

Lemma prepare_wal_header_sealed big rnd1 rnd2 psz hdr :
  is_u 32 psz -> header_seed psz hdr ->
  exists h, prepare_wal_header big rnd1 rnd2 psz hdr = Ok h /\ header_sealed h /\ wal_page_size h = psz.
Proof.
  intros Hp (H1 & H2 & H3 & H4 & H5). unfold prepare_wal_header.
  assert ((if wal_page_size hdr =? 0 then psz else wal_page_size hdr) = psz) as ->
    by (destruct H5 as [-> | ->]; [done | by zcases]).
  set (salts := if (salt_1 hdr =? 0) && (salt_2 hdr =? 0) then _ else _).
  assert (is_u 32 (fst salts) /\ is_u 32 (snd salts)) as [Hs1 Hs2].
  { unfold salts. destruct (_ && _); [split; apply wrap_is_u; lia | done]. }
  destruct salts as [s1 s2]. cbv zeta. cbn [magic]. rewrite big_sums_magic.
  match goal with |- context [header_prefix big ?h] => destruct (checksum_header_prefix big h) as (c1 & c2 & -> & Hsum & ? & ?) end.
  { header_range big. }
  { apply big_sums_magic. }
  rstep. eexists. split; [reflexivity|]. split; [|done]. split; [|exact Hsum].
  split; [|done]. header_range big.
Qed.

(** ** Frames *)

Lemma wal_sum_range h buf ck :
  is_u 32 (fst ck) -> is_u 32 (snd ck) -> is_u 32 (fst (wal_sum h buf ck)) /\ is_u 32 (snd (wal_sum h buf ck)).
Proof. intros. by apply checksum_loop_range. Qed.

Definition ck_ok (ck : Z * Z) : Prop := is_u 32 (fst ck) /\ is_u 32 (snd ck).

Lemma frame_ck_ok h ck f : ck_ok ck -> ck_ok (frame_ck h ck f).
Proof. intros [H1 H2]. unfold frame_ck, ck_ok. apply wal_sum_range; by apply wal_sum_range. Qed.
Lemma log_ck_ok h ck fs : ck_ok ck -> ck_ok (log_ck h ck fs).
Proof. revert ck. induction fs; intros; [done|]. simpl. auto using frame_ck_ok. Qed.
Lemma log_ck_app h ck fs gs : log_ck h ck (fs ++ gs) = log_ck h (log_ck h ck fs) gs.
Proof. revert ck. induction fs; intros; [done|]. simpl. auto. Qed.
Lemma log_bytes_app h ck fs gs :
  log_bytes h ck (fs ++ gs) = log_bytes h ck fs ++ log_bytes h (log_ck h ck fs) gs.
Proof. revert ck. induction fs as [|f fs IH]; intros; [done|]. simpl. by rewrite IH, app_assoc. Qed.

Lemma frame_head_length h ck f : length (frame_head h ck f) = 24%nat.
Proof. unfold frame_head. by rewrite !length_app, !length_be_bytes. Qed.
Lemma frame_head_ok h ck f : bytes_ok (frame_head h ck f).
Proof. unfold frame_head. rewrite !bytes_ok_app. repeat split; auto with turso. Qed.
Lemma frame_bytes_len h ck psz f : wframe_ok psz f -> len (frame_bytes h ck f) = 24 + psz.
Proof.
  intros (_ & _ & _ & Hl & _). unfold frame_bytes. rewrite len_app, Hl. unfold len.
  by rewrite frame_head_length.
Qed.
Lemma log_bytes_len h ck psz fs :
  Forall (wframe_ok psz) fs -> len (log_bytes h ck fs) = (24 + psz) * len fs.
Proof.
  intros Hf. revert ck. induction Hf as [|f fs Hf _ IH]; intros ck.
  - change (len []) with 0. simpl. unfold len. simpl. lia.
  - cbn [log_bytes]. rewrite len_app, (frame_bytes_len _ _ psz), IH by done.
    unfold len. simpl length. lia.
Qed.
Lemma log_bytes_ok h ck psz fs : Forall (wframe_ok psz) fs -> bytes_ok (log_bytes h ck fs).
Proof.
  intros Hf. revert ck. induction Hf as [|f fs Hf _ IH]; intros ck; [constructor|].
  cbn [log_bytes]. apply bytes_ok_app. split; [|apply IH]. apply bytes_ok_app.
  split; [apply frame_head_ok | apply Hf].
Qed.

Lemma split_len {A} (b : list A) k n :
  0 <= k -> 0 <= n -> len b = k + n -> exists w r, b = w ++ r /\ len w = k /\ len r = n.
Proof.
  intros Hk Hn Hl. exists (take (Z.to_nat k) b), (drop (Z.to_nat k) b).
  rewrite take_drop. split; [done|]. unfold len in *. rewrite length_take, length_drop. lia.
Qed.

(** [prepare_wal_frame] overwrites the whole recycled buffer. *)
Lemma prepare_wal_frame_spec big buffer h ck psz f :
  wframe_ok psz f -> psz mod 8 = 0 -> len buffer = 24 + psz ->
  prepare_wal_frame big buffer h ck psz (wf_page f) (wf_db_size f) (wf_data f) =
  Ok (frame_ck h ck f, frame_bytes h ck f).
Proof.
  intros (Hp & _ & Hd & Hl & Hok) H8 Hb. pose proof (len_nonneg (wf_data f)).
  destruct (split_len buffer 4 (20 + psz)) as (w0 & r0 & -> & L0 & R0); [lia..|].
  destruct (split_len r0 4 (16 + psz)) as (w1 & r1 & -> & L1 & R1); [lia..|].
  destruct (split_len r1 4 (12 + psz)) as (w2 & r2 & -> & L2 & R2); [lia..|].
  destruct (split_len r2 4 (8 + psz)) as (w3 & r3 & -> & L3 & R3); [lia..|].
  destruct (split_len r3 4 (4 + psz)) as (w4 & r4 & -> & L4 & R4); [lia..|].
  destruct (split_len r4 4 psz) as (w5 & old & -> & L5 & R5); [lia..|].
  unfold prepare_wal_frame, WAL_FRAME_HEADER_SIZE. rewrite Hb, Hl.
  replace (24 + psz - 24 =? psz) with true by (symmetry; apply Z.eqb_eq; lia). simpl rassert. rstep.
  rewrite <- (app_nil_r old). do 5 poke.
  eapply bind_step; [rewrite app_assoc; apply slice_hit; by rewrite len_app, !len_be_bytes|].
  rewrite checksum_wal_spec by (first [apply bytes_ok_app; split; auto with turso
                                      | by rewrite len_app, !len_be_bytes]).
  rstep. eapply bind_step; [repeat seek_step; apply slice_hit; lia|].
  rewrite checksum_wal_spec by (done || by rewrite Hl). rstep. do 2 poke.
  unfold frame_bytes, frame_head. by rewrite app_nil_r, <- !app_assoc.
Qed.

(** ** Commits and frame numbers *)

Lemma last_commit_from_app n cur fs gs :
  last_commit_from n cur (fs ++ gs) = last_commit_from (n + len fs) (last_commit_from n cur fs) gs.
Proof.
  revert n cur. induction fs as [|f fs IH]; intros n cur.
  - change (len []) with 0. by rewrite Z.add_0_r.
  - cbn [app last_commit_from]. rewrite IH. f_equal. unfold len. simpl length. lia.
Qed.
Lemma last_commit_snoc fs f :
  last_commit (fs ++ [f]) = if 0 <? wf_db_size f then 1 + len fs else last_commit fs.
Proof. unfold last_commit. by rewrite last_commit_from_app. Qed.
Lemma last_commit_bound fs : 0 <= last_commit fs <= len fs.
Proof.
  induction fs as [|f fs IH] using rev_ind; [done|]. rewrite last_commit_snoc, len_app.
  change (len [f]) with 1. zcases; lia.
Qed.

Lemma frames_of_app p n fs gs :
  frames_of p n (fs ++ gs) = frames_of p n fs ++ frames_of p (n + len fs) gs.
Proof.
  revert n. induction fs as [|f fs IH]; intros n.
  - change (len []) with 0. by rewrite Z.add_0_r.
  - cbn [app frames_of]. rewrite IH, app_assoc. do 2 f_equal. unfold len. simpl length. lia.
Qed.
Lemma frames_of_bound p n fs : Forall (fun i => n <= i < n + len fs) (frames_of p n fs).
Proof.
  revert n. induction fs as [|f fs IH]; intros n; [constructor|]. cbn [frames_of].
  pose proof (len_nonneg fs). assert (len (f :: fs) = 1 + len fs) as -> by (unfold len; simpl; lia).
  apply Forall_app. split.
  - destruct (wf_page f =? p); repeat constructor; lia.
  - eapply Forall_impl; [|apply IH]. simpl. lia.
Qed.

Lemma committed_snoc_commit fs f :
  0 < wf_db_size f -> committed (fs ++ [f]) = fs ++ [f].
Proof.
  intros Hf. unfold committed. rewrite last_commit_snoc. destruct (Z.ltb_spec 0 (wf_db_size f)); [|lia].
  apply take_ge. unfold len. rewrite length_app. simpl. lia.
Qed.
Lemma committed_snoc_other fs f :
  wf_db_size f <= 0 -> committed (fs ++ [f]) = committed fs.
Proof.
  intros Hf. unfold committed. rewrite last_commit_snoc. destruct (Z.ltb_spec 0 (wf_db_size f)); [lia|].
  pose proof (last_commit_bound fs). apply take_app_le. unfold len in *. lia.
Qed.

(** The frames behind the last commit. *)
Definition uncommitted (fs : list wframe) : list wframe := drop (Z.to_nat (last_commit fs)) fs.
Lemma committed_uncommitted fs : committed fs ++ uncommitted fs = fs.
Proof. apply take_drop. Qed.
Lemma len_committed fs : len (committed fs) = last_commit fs.
Proof.
  pose proof (last_commit_bound fs). unfold committed, len in *. rewrite length_take. lia.
Qed.
Lemma len_uncommitted fs : len (uncommitted fs) = len fs - last_commit fs.
Proof.
  pose proof (len_committed fs). rewrite <- (committed_uncommitted fs) at 2. rewrite len_app. lia.
Qed.
Lemma uncommitted_snoc_other fs f :
  wf_db_size f <= 0 -> uncommitted (fs ++ [f]) = uncommitted fs ++ [f].
Proof.
  intros Hf. unfold uncommitted. rewrite last_commit_snoc. destruct (Z.ltb_spec 0 (wf_db_size f)); [lia|].
  pose proof (last_commit_bound fs). apply drop_app_le. unfold len in *. lia.
Qed.
Lemma uncommitted_snoc_commit fs f : 0 < wf_db_size f -> uncommitted (fs ++ [f]) = [].
Proof.
  intros Hf. unfold uncommitted. rewrite last_commit_snoc. destruct (Z.ltb_spec 0 (wf_db_size f)); [|lia].
  apply drop_ge. unfold len. rewrite length_app. simpl. lia.
Qed.

(** ** Frame caches *)

Lemma retain_all bound fs :
  Forall (fun i => i <= bound) fs -> default [] (retain_frames bound fs) = fs.
Proof.
  intros Hf. unfold retain_frames. assert (filter (fun f => f <= bound) fs = fs) as ->; [|by destruct fs].
  induction Hf as [|i fs Hi _ IH]; [done|]. by rewrite filter_cons_True, IH.
Qed.

Lemma omap_retain_default (m : gmap Z (list Z)) bound p :
  Forall (fun i => i <= bound) (default [] (m !! p)) ->
  default [] (omap (retain_frames bound) m !! p) = default [] (m !! p).
Proof.
  intros Hf. rewrite lookup_omap. destruct (m !! p) as [fs|]; [|done]. simpl in *. by apply retain_all.
Qed.

Lemma extend_cache_default (c m : gmap Z (list Z)) p :
  default [] (extend_cache c m !! p) = default [] (c !! p) ++ default [] (m !! p).
Proof.
  unfold extend_cache. rewrite lookup_union_with.
  destruct (c !! p), (m !! p); simpl; by rewrite ?app_nil_r.
Qed.

(** ** The scan follows the log *)

Section scan.
Context (rb : bool) (h : WalHeader) (psz : Z).
Hypothesis Hrange : header_in_range h.
Hypothesis Hpsz : 0 < psz.
Hypothesis Hpsz8 : psz mod 8 = 0.

Definition ck0 : Z * Z := (checksum_1 h, checksum_2 h).

(** The reader has read the frames [fs]. *)
Record scanned (fs : list wframe) (st : StreamingState) (sh : WalFileShared) : Prop := {
  sc_idx : frame_idx st = 1 + len fs;
  sc_ck : cumulative_checksum st = log_ck h ck0 fs;
  sc_valid : last_valid_frame st = last_commit fs;
  sc_valid_ck : last_valid_checksum st = log_ck h ck0 (committed fs);
  sc_pending : forall p, default [] (pending_frames st !! p) =
                 frames_of p (1 + last_commit fs) (uncommitted fs);
  sc_page_size : page_size st = psz;
  sc_native : use_native_endian st = use_native_endian_of rb (magic h);
  sc_header_valid : header_valid st = true;
  sc_header : wal_header sh = h;
  sc_cache : forall p, default [] (frame_cache sh !! p) = frames_of p 1 (committed fs);
  sc_max : max_frame sh = last_commit fs;
  sc_high : frame_cache_high_water sh = last_commit fs;
}.

Lemma ck0_ok : ck_ok ck0.
Proof. destruct Hrange as (_ & H1 & H2). done. Qed.

Lemma frames_of_last p n fs f :
  frames_of p n (fs ++ [f]) =
  if wf_page f =? p then frames_of p n fs ++ [n + len fs] else frames_of p n fs.
Proof.
  rewrite frames_of_app. cbn [frames_of]. destruct (wf_page f =? p); by rewrite ?app_nil_r.
Qed.

Lemma pending_insert fs f st sh p :
  scanned fs st sh ->
  default [] (<[wf_page f := default [] (pending_frames st !! wf_page f) ++ [frame_idx st]]>
                (pending_frames st) !! p) =
  frames_of p (1 + last_commit fs) (uncommitted fs ++ [f]).
Proof.
  intros Hs. rewrite frames_of_last. destruct (Z.eqb_spec (wf_page f) p) as [->|Hne].
  - rewrite lookup_insert_eq. simpl. rewrite (sc_pending _ _ _ Hs), (sc_idx _ _ _ Hs). do 2 f_equal.
    rewrite len_uncommitted. lia.
  - rewrite lookup_insert_ne by done. apply Hs.
Qed.

Lemma accept_frame_scanned fs f st sh :
  scanned fs st sh -> wframe_ok psz f ->
  let '(st', sh') := accept_frame (wf_page f) (wf_db_size f) (frame_ck h (log_ck h ck0 fs) f) st sh in
  scanned (fs ++ [f]) st' sh'.
Proof.
  intros Hs Hf. unfold accept_frame. pose proof (fun p => pending_insert fs f st sh p Hs) as Hpend.
  set (pend := <[wf_page f := _]> _) in *.
  assert (len (fs ++ [f]) = 1 + len fs) as Hlen by (rewrite len_app; change (len [f]) with 1; lia).
  destruct (Z.ltb_spec 0 (wf_db_size f)) as [Hc|Hc].
  - unfold flush_pending_frames. cbn [pending_frames].
    rewrite decide_False by (apply insert_non_empty).
    pose proof (last_commit_snoc fs f) as Hlc. destruct (Z.ltb_spec 0 (wf_db_size f)); [|lia].
    pose proof (last_commit_bound fs). destruct Hs.
    split; cbn; try done; rewrite ?Hlc, ?Hlen, ?log_ck_app, ?committed_snoc_commit, ?uncommitted_snoc_commit by done;
      try done; try lia.
    + by rewrite log_ck_app.
    + intros p. rewrite extend_cache_default, sc_cache0, omap_retain_default, Hpend; rewrite ?Hpend, ?sc_idx0.
      * rewrite <- (len_committed fs), <- frames_of_app, app_assoc, committed_uncommitted. done.
      * eapply Forall_impl; [|apply frames_of_bound]. intros i Hi. simpl in Hi. revert Hi.
        rewrite len_app, len_uncommitted. change (len [f]) with 1. lia.
  - pose proof (last_commit_snoc fs f) as Hlc. destruct (Z.ltb_spec 0 (wf_db_size f)); [lia|].
    destruct Hs. split; cbn; rewrite ?Hlc, ?Hlen, ?log_ck_app, ?committed_snoc_other, ?uncommitted_snoc_other by done; try done.
    lia.
Qed.

Lemma process_frame_valid fs f st sh :
  scanned fs st sh -> wframe_ok psz f ->
  exists st' sh', process_frame rb h (use_native_endian_of rb (magic h))
      (frame_head h (log_ck h ck0 fs) f) (wf_data f) st sh = Ok (Some (st', sh')) /\
    scanned (fs ++ [f]) st' sh'.
Proof.
  intros Hs Hf. pose proof Hf as (Hp & Hp0 & Hd & Hl & Hok). destruct Hrange as ((_ & _ & _ & _ & Hs1 & Hs2) & _).
  pose proof (frame_ck_ok h _ f (log_ck_ok h _ fs ck0_ok)) as [Hc1 Hc2].
  pose proof (accept_frame_scanned fs f st sh Hs Hf) as Ha.
  destruct (accept_frame _ _ _ st sh) as [st' sh'] eqn:He. exists st', sh'. split; [|done].
  unfold process_frame, frame_head. rewrite <- (app_nil_r (be_bytes 4 (snd _))).
  do 6 seek. destruct (Z.eqb_spec (wf_page f) 0); [done|]. rewrite !Z.eqb_refl. simpl orb. cbv iota.
  eapply bind_step; [rewrite app_assoc; apply slice_hit; by rewrite len_app, !len_be_bytes|].
  rewrite (sc_ck _ _ _ Hs), checksum_wal_spec
    by (first [apply bytes_ok_app; split; auto with turso | by rewrite len_app, !len_be_bytes]).
  rstep. rewrite checksum_wal_spec by (done || by rewrite Hl). rstep.
  change (wal_sum h (wf_data f) _) with (frame_ck h (log_ck h ck0 fs) f).
  rewrite bool_decide_eq_true_2 by apply surjective_pairing. by rewrite He.
Qed.

Lemma be_at_ok {E} buf i j : 0 <= i <= j -> j <= len buf -> @be_at E buf i j = Ok (be_val (slice_ buf i j)).
Proof. intros. unfold be_at. by rewrite slice_ok. Qed.

Lemma process_frame_rejected fs tail st sh :
  scanned fs st sh -> bytes_ok tail -> 24 + psz <= len tail -> log_ends h (log_ck h ck0 fs) psz tail ->
  process_frame rb h (use_native_endian_of rb (magic h)) (take 24 tail)
    (take (Z.to_nat psz) (drop 24 tail)) st sh = Ok None.
Proof.
  intros Hs Hok Hlen [Hshort|He]; [lia|]. unfold process_frame.
  assert (len (take 24 tail) = 24) as H24 by (unfold len in *; rewrite length_take; lia).
  assert (len (take (Z.to_nat psz) (drop 24 tail)) = psz) as Hpl
    by (unfold len in *; rewrite length_take, length_drop; lia).
  rewrite !be_at_ok by (rewrite ?H24; lia). rstep. cbv zeta in He.
  destruct (Z.eqb_spec (be_val (slice_ (take 24 tail) 0 4)) 0); [done|].
  destruct (Z.eqb_spec (be_val (slice_ (take 24 tail) 8 12)) (salt_1 h)) as [E1|]; [|done].
  destruct (Z.eqb_spec (be_val (slice_ (take 24 tail) 12 16)) (salt_2 h)) as [E2|]; [|done].
  simpl orb. cbv iota. rewrite slice_ok by (rewrite ?H24; lia). rstep. rewrite (sc_ck _ _ _ Hs).
  rewrite checksum_wal_spec; [|by unfold slice_; auto with turso|by rewrite len_slice_ by (rewrite ?H24; lia)].
  rstep. rewrite checksum_wal_spec; [|by auto with turso|by rewrite Hpl]. rstep.
  rewrite bool_decide_eq_false_2; [done|]. naive_solver.
Qed.

Lemma frames_loop_end fuel fs buf pos st sh tail :
  scanned fs st sh -> drop (Z.to_nat pos) buf = tail -> 0 <= pos <= len buf -> bytes_ok tail ->
  log_ends h (log_ck h ck0 fs) psz tail -> (0 < fuel)%nat ->
  frames_loop fuel rb buf h (use_native_endian_of rb (magic h)) (24 + psz) pos st sh = Ok (pos, st, sh).
Proof.
  intros Hs Hd Hpos Hok He Hf. destruct fuel as [|fuel]; [lia|]. cbn [frames_loop].
  destruct (Z.ltb_spec (len buf) (pos + (24 + psz))) as [|Hge]; [done|].
  assert (len tail = len buf - pos) as Hl by (subst tail; unfold len in *; rewrite length_drop; lia).
  unfold WAL_FRAME_HEADER_SIZE. rewrite !slice_ok by lia. rstep.
  replace (slice_ buf pos (pos + 24)) with (take 24 tail)
    by (unfold slice_; rewrite Hd; f_equal; lia).
  replace (slice_ buf (pos + 24) (pos + (24 + psz))) with (take (Z.to_nat psz) (drop 24 tail)).
  2: { subst tail. unfold slice_. rewrite drop_drop. f_equal; [lia|]. f_equal. lia. }
  rewrite (process_frame_rejected fs) by (done || lia). done.
Qed.

Lemma frames_loop_log fuel fs gs buf pre tail st sh :
  scanned fs st sh -> Forall (wframe_ok psz) gs -> bytes_ok tail ->
  buf = pre ++ log_bytes h (log_ck h ck0 fs) gs ++ tail ->
  log_ends h (log_ck h ck0 (fs ++ gs)) psz tail -> (length gs < fuel)%nat ->
  exists st' sh', frames_loop fuel rb buf h (use_native_endian_of rb (magic h)) (24 + psz) (len pre) st sh =
      Ok (len pre + (24 + psz) * len gs, st', sh') /\ scanned (fs ++ gs) st' sh'.
Proof.
  intros Hs Hg. revert fuel fs st sh pre Hs. induction Hg as [|g gs Hg Hgs IH]; intros fuel fs st sh pre Hs Hok Hb He Hf.
  - rewrite app_nil_r in *. exists st, sh. split; [|done]. simpl in Hb.
    change (len []) with 0. rewrite Z.mul_0_r, Z.add_0_r. apply (frames_loop_end _ fs _ _ _ _ tail); try done.
    + subst buf. unfold len. by rewrite Nat2Z.id, drop_app_length.
    + subst buf. rewrite len_app. pose proof (len_nonneg pre). pose proof (len_nonneg tail). lia.
  - destruct fuel as [|fuel]; [simpl in Hf; lia|]. cbn [frames_loop].
    pose proof (len_nonneg pre). pose proof (len_nonneg tail). set (ck := log_ck h ck0 fs) in *.
    pose proof (frame_bytes_len h ck psz g Hg) as Hlg.
    cbn [log_bytes] in Hb. pose proof (log_bytes_len h (frame_ck h ck g) psz gs Hgs) as Hll.
    pose proof (len_nonneg (log_bytes h (frame_ck h ck g) gs)).
    destruct (Z.ltb_spec (len buf) (len pre + (24 + psz))) as [Hlt|_].
    { exfalso. subst buf. rewrite !len_app in Hlt. lia. }
    destruct (process_frame_valid fs g st sh Hs Hg) as (st1 & sh1 & Hp & Hs1). fold ck in Hp.
    assert (buf = pre ++ frame_head h ck g ++ wf_data g ++ (log_bytes h (frame_ck h ck g) gs ++ tail)) as Hb2
      by (rewrite Hb; unfold frame_bytes; by rewrite <- !app_assoc).
    assert (len (frame_head h ck g) = 24) as Hh by (unfold len; by rewrite frame_head_length).
    assert (len (wf_data g) = psz) as Hd by apply Hg. unfold WAL_FRAME_HEADER_SIZE.
    assert (slice buf (len pre) (len pre + 24) = Ok (E:=LimboError) (frame_head h ck g)) as ->
      by (rewrite Hb2, <- Hh; apply slice_mid).
    assert (slice buf (len pre + 24) (len pre + (24 + psz)) = Ok (E:=LimboError) (wf_data g)) as ->.
    { rewrite Hb2, app_assoc, <- Hh, <- len_app, Z.add_assoc, <- len_app, <- Hd. apply slice_mid. }
    rstep. rewrite Hp. rstep.
    destruct (IH fuel (fs ++ [g]) st1 sh1 (pre ++ frame_bytes h ck g)) as (st2 & sh2 & Hl & Hs2); try done.
    + rewrite log_ck_app. cbn [log_ck]. rewrite Hb. fold ck. by rewrite <- !app_assoc.
    + by rewrite <- app_assoc.
    + simpl in Hf. lia.
    + exists st2, sh2. rewrite len_app, Hlg in Hl. rewrite Hl, <- app_assoc in *. split; [|done].
      do 3 f_equal. unfold len. simpl length. lia.
Qed.

(** What the scan leaves behind after the frames [fs]. *)
Record recovered (fs : list wframe) (sh : WalFileShared) : Prop := {
  rec_header : wal_header sh = h;
  rec_max : max_frame sh = last_commit fs;
  rec_ck : last_checksum sh = log_ck h ck0 (committed fs);
  rec_cache : forall p, default [] (frame_cache sh !! p) = frames_of p 1 (committed fs);
  rec_high : frame_cache_high_water sh = last_commit fs;
  rec_nbackfills : nbackfills sh = 0;
  rec_loaded : loaded sh = true;
  rec_initialized : initialized sh = true;
}.

Lemma finalize_scanned fs r :
  scanned fs (state r) (shared r) ->
  scanned fs (state (finalize_loading r)) (shared (finalize_loading r)) /\
  recovered fs (shared (finalize_loading r)).
Proof.
  intros Hs. unfold finalize_loading.
  assert (forall p, default [] ((if 0 <? last_valid_frame (state r)
      then omap (retain_frames (last_valid_frame (state r))) (frame_cache (shared r))
      else frame_cache (shared r)) !! p) = frames_of p 1 (committed fs)) as Hcache.
  { intros p. rewrite <- (sc_cache _ _ _ Hs). destruct (0 <? _); [|done].
    apply omap_retain_default. rewrite (sc_cache _ _ _ Hs), (sc_valid _ _ _ Hs).
    eapply Forall_impl; [|apply frames_of_bound]. simpl. rewrite len_committed. lia. }
  destruct Hs. split; split; cbn; try done. by rewrite sc_header_valid0.
Qed.

Lemma log_ends_take ck tail k :
  log_ends h ck psz tail -> 24 + psz <= Z.of_nat k \/ (length tail <= k)%nat -> log_ends h ck psz (take k tail).
Proof.
  intros He [Hk|Hk]; [|by rewrite take_ge]. destruct He as [Hs|He].
  - left. unfold len in *. rewrite length_take. lia.
  - right. rewrite take_take, skipn_firstn_comm, take_take.
    replace (24 `min` k)%nat with 24%nat by lia.
    by replace (Z.to_nat psz `min` (k - 24))%nat with (Z.to_nat psz) by lia.
Qed.

Lemma log_ends_nil ck : log_ends h ck psz [].
Proof. left. unfold len. simpl. lia. Qed.

Lemma len_take_list {A} m (l : list A) : (m <= length l)%nat -> len (take m l) = Z.of_nat m.
Proof. unfold len. rewrite length_take. lia. Qed.

(** How a chunk of [m] frames' length, or the rest of the file, cuts the log. *)
Lemma chunk_split fs gs tail m n :
  Forall (wframe_ok psz) gs -> bytes_ok tail -> log_ends h (log_ck h ck0 (fs ++ gs)) psz tail ->
  0 < m -> n = Z.min (m * (24 + psz)) ((24 + psz) * len gs + len tail) -> 0 < n ->
  exists gs1 gs2 t, gs = gs1 ++ gs2 /\ bytes_ok t /\ log_ends h (log_ck h ck0 (fs ++ gs1)) psz t /\
    take (Z.to_nat n) (log_bytes h (log_ck h ck0 fs) gs ++ tail) = log_bytes h (log_ck h ck0 fs) gs1 ++ t /\
    ((t = [] /\ gs1 <> [] /\ n < (24 + psz) * len gs + len tail) \/
     (gs2 = [] /\ ((24 + psz) * len gs1 < n \/ n = (24 + psz) * len gs + len tail))).
Proof.
  intros Hg Hok He Hm Hn Hn0. set (ck := log_ck h ck0 fs).
  pose proof (log_bytes_len h ck psz gs Hg) as Hl. pose proof (len_nonneg gs). pose proof (len_nonneg tail).
  destruct (Z.leb_spec ((24 + psz) * len gs + len tail) (m * (24 + psz))) as [Hall|Hpart].
  - exists gs, [], tail. rewrite app_nil_r. repeat split; try done; [|right; split; [done|right; lia]].
    apply take_ge. unfold len in *. rewrite length_app. lia.
  - assert (n = m * (24 + psz)) as -> by lia. destruct (Z.leb_spec m (len gs)) as [Hle|Hgt].
    + exists (take (Z.to_nat m) gs), (drop (Z.to_nat m) gs), []. rewrite take_drop.
      assert (len (take (Z.to_nat m) gs) = m) as Hlm by (unfold len in *; rewrite length_take; lia).
      repeat split; [constructor|apply log_ends_nil| |].
      * rewrite <- (take_drop (Z.to_nat m) gs) at 1. rewrite log_bytes_app, <- app_assoc, app_nil_r.
        apply take_app_length'.
        pose proof (log_bytes_len h ck psz (take (Z.to_nat m) gs) ltac:(by apply Forall_take)).
        unfold len in *. lia.
      * left. split; [done|]. split; [|lia]. intros E. rewrite E in Hlm. unfold len in Hlm. simpl in Hlm. lia.
    + exists gs, [], (take (Z.to_nat (m * (24 + psz)) - length (log_bytes h ck gs)) tail).
      rewrite app_nil_r. repeat split; [by auto with turso| | |right; split; [done|left; nia]].
      * apply log_ends_take; [done|]. left. unfold len in *. nia.
      * rewrite take_app_ge by (unfold len in *; nia). done.
Qed.

(** The reader in the middle of a file that holds the log [fs ++ gs] and [tail]. *)
Record reading (file : list Z) (fs gs : list wframe) (tail : list Z) (r : Reader) : Prop := {
  rd_scanned : scanned fs (state r) (shared r);
  rd_frames : Forall (wframe_ok psz) gs;
  rd_rest : drop (Z.to_nat (off r)) file = log_bytes h (log_ck h ck0 fs) gs ++ tail;
  rd_off : 0 <= off r <= len file;
  rd_size : file_size r = len file;
  rd_page : page_atomic r = psz;
  rd_done : done_ r = false;
}.

Lemma chunk_size_eq r :
  page_atomic r = psz -> off r <= file_size r ->
  exists m, 0 < m /\ chunk_size r (off r) = Ok (Z.min (m * (24 + psz)) (file_size r - off r)).
Proof.
  intros Hp Ho. unfold chunk_size, WAL_FRAME_HEADER_SIZE. rewrite Hp.
  destruct (Z.eqb_spec psz 0); [lia|]. destruct (Z.eqb_spec (24 + psz) 0); [lia|]. simpl ensure. rstep.
  unfold usub. destruct (Z.leb_spec (off r) (file_size r)); [|lia]. rstep.
  assert (0 <= BASE / (24 + psz)) by (apply Z.div_pos; [done|lia]).
  destruct (Z.eq_dec (BASE / (24 + psz)) 0) as [E|E].
  - exists 1. split; [lia|]. rewrite E. f_equal. lia.
  - exists (BASE / (24 + psz)). split; [lia|]. f_equal. f_equal. nia.
Qed.

(** One chunk: the scan goes on behind it, or the whole log has been read. *)
Lemma handle_chunk file fs gs tail r n m :
  reading file fs gs tail r -> bytes_ok tail -> log_ends h (log_ck h ck0 (fs ++ gs)) psz tail ->
  0 < m -> n = Z.min (m * (24 + psz)) (file_size r - off r) -> 0 < n ->
  exists r', handle_chunk_read rb r (Some (pread file (off r) n)) = Ok r' /\
    ((exists gs1 gs2, gs = gs1 ++ gs2 /\ gs1 <> [] /\ off r < off r' /\
        reading file (fs ++ gs1) gs2 tail r') \/
     (done_ r' = true /\ scanned (fs ++ gs) (state r') (shared r') /\ recovered (fs ++ gs) (shared r'))).
Proof.
  intros [Hs Hg Hrest Hoff Hsize Hpage Hdone] Hok He Hm Hn Hn0.
  pose proof (log_bytes_len h (log_ck h ck0 fs) psz gs Hg) as Hlg.
  assert (file_size r - off r = (24 + psz) * len gs + len tail) as Hleft.
  { rewrite Hsize, <- Hlg, <- len_app, <- Hrest. unfold len in *. rewrite length_drop. lia. }
  rewrite Hleft in Hn.
  destruct (chunk_split fs gs tail m n Hg Hok He Hm Hn Hn0) as (gs1 & gs2 & t & -> & Hokt & Het & Htake & Hcase).
  unfold handle_chunk_read, pread. rewrite Hrest, Htake. set (buf := _ ++ t) in *.
  pose proof (len_nonneg tail). pose proof (len_nonneg gs1). pose proof (len_nonneg gs2).
  assert (Forall (wframe_ok psz) gs1) as Hg1 by (by apply Forall_app in Hg as [? _]).
  assert (Forall (wframe_ok psz) gs2) as Hg2 by (by apply Forall_app in Hg as [_ ?]).
  assert (len buf = n) as Hbuf.
  { rewrite <- Htake. unfold len in *. rewrite length_take, length_app in *. lia. }
  pose proof (log_bytes_len h (log_ck h ck0 fs) psz gs1 Hg1) as Hl1.
  assert (length gs1 < length buf)%nat as Hfuel.
  { pose proof (len_nonneg t). assert (24 * len gs1 <= (24 + psz) * len gs1) by nia.
    assert (len buf = (24 + psz) * len gs1 + len t) by (unfold buf; rewrite len_app; lia).
    assert (len gs1 < len buf) as Hlt by lia. unfold len in Hlt. lia. }
  destruct (frames_loop_log (length buf) fs gs1 buf [] t (state r) (shared r)) as (st1 & sh1 & Hloop & Hs1); try done.
  unfold process_frames, WAL_FRAME_HEADER_SIZE.
  rewrite (sc_page_size _ _ _ Hs), (sc_header _ _ _ Hs), (sc_native _ _ _ Hs).
  change (len []) with 0 in Hloop. rewrite Z.add_0_l in Hloop. rewrite Hloop. rstep.
  cbn [file_size state shared off page_atomic done_]. rewrite Hbuf.
  destruct Hcase as [(-> & Hne & Hlt)|(-> & Hfin)].
  - unfold buf in Hbuf. rewrite app_nil_r, Hl1 in Hbuf. assert (0 < len gs1) by (destruct gs1; [done|unfold len; simpl; lia]).
    rewrite Hbuf. destruct (Z.ltb_spec n n); [lia|].
    destruct (Z.leb_spec (file_size r) (off r + n)); [lia|]. simpl orb. cbv iota.
    eexists. split; [reflexivity|]. left. exists gs1, gs2.
    split; [done|]. split; [done|]. split; [cbn; lia|]. constructor; cbn; try done; [|lia].
    + replace (Z.to_nat (off r + n)) with (Z.to_nat (off r) + Z.to_nat n)%nat by lia.
      rewrite <- drop_drop, Hrest, log_bytes_app, log_ck_app, <- app_assoc. apply drop_app_length'.
      unfold len in *. lia.
  - rewrite app_nil_r in *. set (r1 := {| file_size := _; state := st1 |}).
    destruct (finalize_scanned (fs ++ gs1) r1 Hs1) as [Hf1 Hf2].
    match goal with |- context [if ?c then _ else _] => assert (c = true) as -> end.
    { apply orb_true_iff. destruct (Z.ltb_spec ((24 + psz) * len gs1) n); [by left|right].
      apply Z.leb_le. lia. }
    exists (finalize_loading r1). split; [done|]. right. done.
Qed.

Lemma chunk_loop_recovers fuel file fs gs tail r :
  reading file fs gs tail r -> bytes_ok tail -> log_ends h (log_ck h ck0 (fs ++ gs)) psz tail ->
  (length gs < fuel)%nat ->
  exists r', chunk_loop fuel rb file r = Ok r' /\ recovered (fs ++ gs) (shared r').
Proof.
  revert fs gs r. induction fuel as [|fuel IH]; intros fs gs r Hr Hok He Hf; [lia|].
  pose proof Hr as [Hs Hg Hrest Hoff Hsize Hpage Hdone]. cbn [chunk_loop]. rewrite Hdone.
  destruct (Z.leb_spec (file_size r) (off r)) as [Hend|Hmore].
  - rewrite drop_ge in Hrest by (unfold len in *; lia). symmetry in Hrest. apply app_nil in Hrest as [Hnil _].
    assert (gs = []) as ->.
    { pose proof (log_bytes_len h (log_ck h ck0 fs) psz gs Hg) as Hl. rewrite Hnil in Hl.
      destruct gs; [done|]. unfold len in Hl. simpl length in Hl. lia. }
    rewrite app_nil_r. eexists. split; [reflexivity|]. by apply finalize_scanned.
  - destruct (chunk_size_eq r Hpage ltac:(lia)) as (m & Hm & ->). rstep.
    set (n := Z.min _ _). assert (0 < n) as Hn0 by (unfold n; nia).
    destruct (Z.eqb_spec n 0); [lia|].
    destruct (handle_chunk file fs gs tail r n m) as (r1 & -> & Hcase); try done. rstep.
    destruct Hcase as [(gs1 & gs2 & -> & Hne & Hadv & Hr1)|(Hd & Hs1 & Hrec)].
    + destruct (Z.leb_spec (off r1) (off r)); [lia|]. rewrite app_assoc in *. apply IH; try done.
      rewrite length_app in Hf. destruct gs1; [done|]. simpl in Hf. lia.
    + destruct (off r1 <=? off r).
      * eexists. split; [reflexivity|]. by apply finalize_scanned.
      * exists r1. split; [|done]. destruct fuel; cbn [chunk_loop]; by rewrite Hd.
Qed.

End scan.

(** ** Opening a log *)

Lemma page_sizes_facts psz : psz ∈ page_sizes -> 0 < psz /\ psz mod 8 = 0 /\ is_u 32 psz /\ is_Some (PageSize_new psz).
Proof.
  unfold page_sizes. intros Hin.
  repeat (apply elem_of_cons in Hin as [->|Hin]); [..|by apply elem_of_nil in Hin];
    (repeat split; [done..|by eexists]).
Qed.

Lemma take_header h body : take 32 (wal_header_bytes h ++ body) = wal_header_bytes h.
Proof. apply take_app_length'. symmetry. apply wal_header_bytes_length. Qed.

Lemma handle_header_read_ok rb h psz body file gs tail :
  header_sealed h -> wal_page_size h = psz -> psz ∈ page_sizes -> Forall (wframe_ok psz) gs ->
  body = log_bytes h (ck0 h) gs ++ tail -> file = wal_header_bytes h ++ body ->
  exists r, handle_header_read rb (Reader_new rb (len file)) (Some (pread file 0 WAL_HEADER_SIZE)) = Ok r /\
    reading rb h psz file [] gs tail r.
Proof.
  intros [Hr Hsum] Hp Hin Hg Hbody Hfile. destruct (page_sizes_facts psz Hin) as (Hpos & H8 & Hu & [q Hq]).
  unfold pread, WAL_HEADER_SIZE. simpl Z.to_nat. rewrite drop_0, Hfile, take_header.
  unfold handle_header_read, WAL_HEADER_SIZE. rewrite len_wal_header. simpl negb. cbv iota.
  pose proof (parse_wal_header_bytes h [] Hr) as Hparse. rewrite app_nil_r in Hparse. rewrite Hparse. rstep.
  rewrite slice_ok by (rewrite ?len_wal_header; lia). rstep.
  change (slice_ (wal_header_bytes h) 0 24) with (take 24 (wal_header_bytes h)).
  rewrite checksum_wal_spec.
  2: { apply bytes_ok_take, wal_header_bytes_ok. }
  2: { unfold len. rewrite length_take, wal_header_bytes_length. done. }
  rstep. fold (header_sum h). rewrite Hsum, bool_decide_eq_true_2, Hp, Hq by done. simpl negb. cbv iota.
  eexists. split; [reflexivity|].
  assert (len (wal_header_bytes h ++ body) = 32 + len body) as Hl
    by (by rewrite len_app, len_wal_header).
  constructor; cbn [off file_size page_atomic done_ state shared]; try done.
  - rewrite Hl. pose proof (len_nonneg body). lia.
Qed.

Lemma build_shared_wal_recovers rb h psz fs tail :
  header_sealed h -> wal_page_size h = psz -> psz ∈ page_sizes -> Forall (wframe_ok psz) fs ->
  bytes_ok tail -> log_ends h (log_ck h (ck0 h) fs) psz tail ->
  exists sh, build_shared_wal rb (wal_header_bytes h ++ log_bytes h (ck0 h) fs ++ tail) = Ok sh /\
    recovered h fs sh.
Proof.
  intros Hseal Hp Hin Hf Hok He. destruct (page_sizes_facts psz Hin) as (Hpos & H8 & Hu & Hq).
  set (file := wal_header_bytes h ++ _). unfold build_shared_wal.
  assert (len file = 32 + (24 + psz) * len fs + len tail) as Hl.
  { unfold file. rewrite !len_app, (log_bytes_len _ _ psz), len_wal_header by done. lia. }
  pose proof (len_nonneg fs). pose proof (len_nonneg tail). unfold WAL_HEADER_SIZE at 1.
  destruct (Z.ltb_spec (len file) 32); [nia|].
  destruct (handle_header_read_ok rb h psz (log_bytes h (ck0 h) fs ++ tail) file fs tail) as (r & -> & Hr); try done.
  rstep. destruct (chunk_loop_recovers rb h psz (proj1 Hseal) Hpos H8 (length file) file [] fs tail r)
    as (r' & -> & Hrec); try done.
  - unfold len in *. nia.
  - rstep. by eexists.
Qed.

(** ** Batches *)

(** The frames of a batch: the last one carries the database size. *)
Fixpoint batch_frames (pages : list (Z * list Z * list Z)) (db : option Z) : list wframe :=
  match pages with
  | [] => []
  | (page_id, data, _) :: rest =>
      {| wf_page := wrap 32 page_id;
         wf_db_size := match rest with [] => default 0 db | _ => 0 end; wf_data := data |}
      :: batch_frames rest db
  end.

Definition batch_ok (psz : Z) (pages : list (Z * list Z * list Z)) : Prop :=
  Forall (fun '(page_id, data, buffer) =>
    wrap 32 page_id <> 0 /\ len data = psz /\ bytes_ok data /\ len buffer = 24 + psz) pages.

Lemma batch_frames_ok psz pages db :
  batch_ok psz pages -> is_u 32 (default 0 db) -> Forall (wframe_ok psz) (batch_frames pages db).
Proof.
  intros Hb Hd. induction Hb as [|[[id data] buffer] pages (H1 & H2 & H3 & H4) _ IH]; [constructor|].
  cbn [batch_frames]. constructor; [|done]. unfold wframe_ok. cbn.
  repeat split; try done; try apply wrap_is_u; try lia; destruct pages; try apply Hd; unfold is_u; lia.
Qed.

Lemma prepare_frames_spec big h ck psz pages db :
  batch_ok psz pages -> is_u 32 (default 0 db) -> wal_page_size h = psz -> psz mod 8 = 0 ->
  exists bufs, prepare_frames big h ck pages db = Ok (log_ck h ck (batch_frames pages db), bufs) /\
    concat bufs = log_bytes h ck (batch_frames pages db) /\ length bufs = length pages.
Proof.
  intros Hb Hd Hp H8. pose proof (batch_frames_ok psz pages db Hb Hd) as Hok. revert ck Hok.
  induction Hb as [|[[id data] buffer] pages (H1 & H2 & H3 & H4) Hb IH]; intros ck Hok.
  - by exists [].
  - cbn [batch_frames prepare_frames] in *. inversion Hok as [|f fs Hf Hfs]; subst f fs.
    set (f := {| wf_page := wrap 32 id |}) in *.
    pose proof (prepare_wal_frame_spec big buffer h ck psz f Hf H8 H4) as Hw.
    rewrite Hp. change (wrap 32 id) with (wf_page f). change data with (wf_data f).
    change (match pages with [] => default 0 db | _ => 0 end) with (wf_db_size f). rewrite Hw. rstep.
    destruct (IH (frame_ck h ck f) Hfs) as (bufs & -> & Hc & Hl). rstep.
    exists (frame_bytes h ck f :: bufs). cbn. by rewrite Hc, Hl.
Qed.

Lemma prepare_wal_header_usable wb rnd1 rnd2 psz seed :
  psz ∈ page_sizes -> header_seed psz seed ->
  exists h, prepare_wal_header wb rnd1 rnd2 psz seed = Ok h /\ header_sealed h /\ wal_page_size h = psz.
Proof. intros Hin Hs. apply prepare_wal_header_sealed; [by apply page_sizes_facts | done]. Qed.

(** The bytes of a log cut after [n] bytes: whole frames and a piece of the next. *)
Lemma log_bytes_cut h ck psz fs n :
  0 < psz -> Forall (wframe_ok psz) fs -> 0 <= n ->
  let k := Z.to_nat (n / (24 + psz)) in
  exists t, take (Z.to_nat n) (log_bytes h ck fs) = log_bytes h ck (take k fs) ++ t /\
    bytes_ok t /\ len t < 24 + psz.
Proof.
  intros Hp Hf Hn k. pose proof (Z.div_mod n (24 + psz) ltac:(lia)) as Hd.
  pose proof (Z.mod_pos_bound n (24 + psz) ltac:(lia)) as Hm.
  assert (0 <= n / (24 + psz)) by (apply Z.div_pos; lia).
  exists (take (Z.to_nat n - length (log_bytes h ck (take k fs))) (log_bytes h (log_ck h ck (take k fs)) (drop k fs))).
  pose proof (log_bytes_len h ck psz (take k fs) ltac:(by apply Forall_take)) as Hl.
  assert (len (take k fs) <= n / (24 + psz)) by (unfold len, k; rewrite length_take; lia).
  repeat split.
  - rewrite <- (take_drop k fs) at 1. rewrite log_bytes_app. apply take_app_ge. unfold len in *. nia.
  - apply bytes_ok_take, (log_bytes_ok _ _ psz), Forall_drop, Hf.
  - unfold len at 1. rewrite length_take. destruct (Z.leb_spec (len fs) (n / (24 + psz))) as [Hall|Hmore].
    + rewrite drop_ge by (unfold len, k in *; lia). simpl length. lia.
    + assert (len (take k fs) = n / (24 + psz)) as He by (unfold len, k in *; rewrite length_take; lia).
      rewrite He in Hl. unfold len in *. lia.
Qed.

Lemma batch_frames_length pages db : length (batch_frames pages db) = length pages.
Proof. induction pages as [|[[id d] b] pages IH]; simpl; auto. Qed.

(** No proper prefix of a batch commits it. *)
Lemma last_commit_batch fs pages db k :
  0 < db -> pages <> [] ->
  last_commit (fs ++ take k (batch_frames pages (Some db))) =
  if (length pages <=? k)%nat then len fs + len pages else last_commit fs.
Proof.
  intros Hdb. unfold last_commit. rewrite last_commit_from_app. generalize (last_commit_from 1 0 fs) as c.
  rewrite (Z.add_comm 1). generalize (len fs) as n. revert k.
  induction pages as [|[[id d] b] pages IH]; intros k n c Hne; [done|].
  destruct k as [|k]; [done|]. cbn [batch_frames take last_commit_from wf_db_size length Nat.leb].
  destruct pages as [|p pages].
  - change (default 0 (Some db)) with db. destruct (Z.ltb_spec 0 db); [|lia]. by destruct k.
  - change (0 <? 0) with false. cbv iota. rewrite IH by done.
    destruct (length (p :: pages) <=? k)%nat; [|done]. unfold len. simpl length. lia.
Qed.

(** * Properties *)

(** C17: opening a log recovers exactly its committed prefix.  Take a header that
    [prepare_wal_header] sealed on a machine of either byte order, any frames chained
    to it, and any bytes behind them that do not continue the chain (a torn frame, or
    frames of an older log).  [build_shared_wal], on a machine of either byte order
    and reading in chunks, terminates with the frame number and checksum of the last
    commit frame, and maps every page to its frames up to that commit. *)
Theorem wal_recovery_exact (wb rb : bool) (rnd1 rnd2 psz : Z) (seed : WalHeader) :
  psz ∈ page_sizes -> header_seed psz seed ->
  exists h, prepare_wal_header wb rnd1 rnd2 psz seed = Ok h /\
    forall fs tail, Forall (wframe_ok psz) fs -> bytes_ok tail ->
      log_ends h (log_ck h (ck0 h) fs) psz tail ->
      exists sh, build_shared_wal rb (wal_header_bytes h ++ log_bytes h (ck0 h) fs ++ tail) = Ok sh /\
        wal_header sh = h /\ max_frame sh = last_commit fs /\
        last_checksum sh = log_ck h (ck0 h) (committed fs) /\
        (forall p, default [] (frame_cache sh !! p) = frames_of p 1 (committed fs)) /\
        loaded sh = true /\ initialized sh = true.
Proof.
  intros Hin Hs. destruct (prepare_wal_header_usable wb rnd1 rnd2 psz seed Hin Hs) as (h & Hh & Hseal & Hp).
  exists h. split; [done|]. intros fs tail Hf Hok He.
  destruct (build_shared_wal_recovers rb h psz fs tail) as (sh & Hb & Hr); try done.
  exists sh. split; [done|]. by destruct Hr.
Qed.

Lemma example_frame_ok db : is_u 32 db -> wframe_ok 512 {| wf_page := 3; wf_db_size := db; wf_data := replicate 512 7 |}.
Proof.
  intros Hd. repeat split; try (cbn; lia || done); try apply Hd.
  apply Forall_replicate. unfold is_digit. lia.
Qed.

Lemma wal_recovery_exact_witness :
  exists h sh, prepare_wal_header false 5 6 512 (WalHeader_new false) = Ok h /\
    build_shared_wal true (wal_header_bytes h ++
      log_bytes h (ck0 h) [{| wf_page := 3; wf_db_size := 9; wf_data := replicate 512 7 |};
                           {| wf_page := 3; wf_db_size := 0; wf_data := replicate 512 7 |}] ++ [1; 2]) = Ok sh /\
    max_frame sh = 1.
Proof.
  destruct (wal_recovery_exact false true 5 6 512 (WalHeader_new false)) as (h & Hh & H).
  - apply elem_of_cons. left. reflexivity.
  - repeat split; try (cbn; lia).
  - destruct (H [{| wf_page := 3; wf_db_size := 9; wf_data := replicate 512 7 |};
                 {| wf_page := 3; wf_db_size := 0; wf_data := replicate 512 7 |}] [1; 2]) as (sh & Hb & _ & Hm & _).
    + constructor; [|constructor; [|constructor]]; apply example_frame_ok; unfold is_u; lia.
    + repeat constructor; unfold is_digit; lia.
    + left. by vm_compute.
    + exact (ex_intro _ h (ex_intro _ sh (conj Hh (conj Hb Hm)))).
Defined.

(** C22: commits are atomic and durable across a crash that cuts the log anywhere
    behind the frames [fs].  A batch prepared by [prepare_frames] with a commit size
    and appended to the log is recovered completely when all its bytes are in the
    file, and not at all otherwise: then the log ends at the previous commit. *)
Theorem wal_commit_atomic (wb rb : bool) (rnd1 rnd2 psz : Z) (seed : WalHeader)
    (fs : list wframe) (pages : list (Z * list Z * list Z)) (db : Z) :
  psz ∈ page_sizes -> header_seed psz seed -> Forall (wframe_ok psz) fs -> batch_ok psz pages ->
  pages <> [] -> 0 < db < 2 ^ 32 ->
  exists h bufs ck, prepare_wal_header wb rnd1 rnd2 psz seed = Ok h /\
    prepare_frames wb h (log_ck h (ck0 h) fs) pages (Some db) = Ok (ck, bufs) /\
    forall n, 0 <= n ->
      exists sh, build_shared_wal rb
          (wal_header_bytes h ++ log_bytes h (ck0 h) fs ++ take (Z.to_nat n) (concat bufs)) = Ok sh /\
        (max_frame sh, last_checksum sh) =
          if len (concat bufs) <=? n then (len fs + len pages, ck)
          else (last_commit fs, log_ck h (ck0 h) (committed fs)).
Proof.
  intros Hin Hs Hf Hb Hne Hdb. destruct (page_sizes_facts psz Hin) as (Hpos & H8 & _ & _).
  destruct (prepare_wal_header_usable wb rnd1 rnd2 psz seed Hin Hs) as (h & Hh & Hseal & Hp).
  destruct (prepare_frames_spec wb h (log_ck h (ck0 h) fs) psz pages (Some db)) as (bufs & Hpf & Hc & _);
    try done; [unfold is_u; cbn; lia|].
  pose proof (batch_frames_ok psz pages (Some db) Hb ltac:(unfold is_u; cbn; lia)) as Hbf.
  eexists h, bufs, _. split; [done|]. split; [exact Hpf|]. intros n Hn. rewrite Hc.
  destruct (log_bytes_cut h (log_ck h (ck0 h) fs) psz (batch_frames pages (Some db)) n) as (t & Ht & Hokt & Hlt); try done.
  set (k := Z.to_nat (n / (24 + psz))) in *. rewrite Ht.
  destruct (build_shared_wal_recovers rb h psz (fs ++ take k (batch_frames pages (Some db))) t) as (sh & Hsh & Hr); try done.
  { apply Forall_app. split; [done|]. by apply Forall_take. }
  { by left. }
  rewrite log_bytes_app, <- app_assoc in Hsh. exists sh. split; [done|].
  rewrite (rec_max _ _ _ Hr), (rec_ck _ _ _ Hr). unfold committed.
  rewrite last_commit_batch by (done || lia). rewrite (log_bytes_len _ _ psz) by done.
  assert (len (batch_frames pages (Some db)) = len pages) as -> by (unfold len; by rewrite batch_frames_length).
  destruct (Z.leb_spec ((24 + psz) * len pages) n) as [Hfit|Hcut].
  - assert (len pages <= n / (24 + psz)) by (apply Z.div_le_lower_bound; lia).
    destruct (Nat.leb_spec (length pages) k) as [_|]; [|unfold len, k in *; lia].
    f_equal. rewrite <- log_ck_app. f_equal. rewrite take_ge.
    + f_equal. apply take_ge. rewrite batch_frames_length. unfold len, k in *. lia.
    + rewrite length_app, length_take, batch_frames_length. unfold len. lia.
  - assert (n / (24 + psz) < len pages) by (apply Z.div_lt_upper_bound; lia).
    assert (0 <= n / (24 + psz)) by (apply Z.div_pos; lia).
    destruct (Nat.leb_spec (length pages) k) as [|_]; [unfold len, k in *; lia|].
    f_equal. f_equal. pose proof (last_commit_bound fs). apply take_app_le. unfold len in *. lia.
Qed.

Lemma wal_commit_atomic_witness :
  exists h bufs ck, prepare_wal_header true 1 2 512 (WalHeader_new true) = Ok h /\
    prepare_frames true h (log_ck h (ck0 h) []) [(4, replicate 512 1, replicate 536 0)] (Some 4) = Ok (ck, bufs) /\
    exists sh, build_shared_wal false (wal_header_bytes h ++ log_bytes h (ck0 h) [] ++ take (Z.to_nat 535) (concat bufs)) = Ok sh /\
      (max_frame sh, last_checksum sh) =
        if len (concat bufs) <=? 535 then (len (A:=wframe) [] + len [(4, replicate 512 1, replicate 536 0)], ck)
        else (last_commit [], log_ck h (ck0 h) (committed [])).
Proof.
  destruct (wal_commit_atomic true false 1 2 512 (WalHeader_new true) [] [(4, replicate 512 1, replicate 536 0)] 4)
    as (h & bufs & ck & Hh & Hp & H).
  - apply elem_of_cons. left. reflexivity.
  - repeat split; try (cbn; lia).
  - constructor.
  - constructor; [|constructor]. split; [by vm_compute|]. split; [reflexivity|]. split; [|reflexivity].
    apply Forall_replicate. unfold is_digit. lia.
  - discriminate.
  - lia.
  - exact (ex_intro _ h (ex_intro _ bufs (ex_intro _ ck (conj Hh (conj Hp (H 535 ltac:(lia))))))).
Defined.

(** A prepared frame parses back to the page, sizes, salts and checksum it was
    built from, independently of what the recycled buffer held. *)
Theorem wal_frame_roundtrip (big : bool) (buffer : list Z) (h : WalHeader) (ck : Z * Z) (psz : Z) (f : wframe) :
  header_in_range h -> ck_ok ck -> wframe_ok psz f -> psz mod 8 = 0 -> len buffer = 24 + psz ->
  exists ck' frame, prepare_wal_frame big buffer h ck psz (wf_page f) (wf_db_size f) (wf_data f) = Ok (ck', frame) /\
    len frame = 24 + psz /\
    parse_wal_frame_header frame =
      Ok ({| page_number := wf_page f; db_size := wf_db_size f; frame_salt_1 := salt_1 h;
             frame_salt_2 := salt_2 h; frame_checksum_1 := fst ck'; frame_checksum_2 := snd ck' |}, wf_data f).
Proof.
  intros Hr Hck Hf H8 Hb. exists (frame_ck h ck f), (frame_bytes h ck f).
  split; [by apply prepare_wal_frame_spec|]. split; [by apply frame_bytes_len|].
  pose proof (frame_ck_ok h ck f Hck) as [H1 H2]. destruct Hf as (Hp & _ & Hd & _).
  destruct Hr as ((_ & _ & _ & _ & Hs1 & Hs2) & _). unfold parse_wal_frame_header.
  assert (slice (frame_bytes h ck f) WAL_FRAME_HEADER_SIZE (len (frame_bytes h ck f)) = Ok (E:=LimboError) (wf_data f)) as ->.
  { pose proof (slice_mid (E:=LimboError) (frame_head h ck f) (wf_data f) []) as Hs. rewrite app_nil_r in Hs.
    unfold frame_bytes. rewrite len_app. unfold WAL_FRAME_HEADER_SIZE.
    assert (len (frame_head h ck f) = 24) as Hl by (unfold len; by rewrite frame_head_length).
    by rewrite Hl in *. }
  unfold frame_bytes, frame_head. rewrite <- !app_assoc. by repeat seek.
Qed.

Lemma wal_frame_roundtrip_witness :
  exists ck' frame, prepare_wal_frame false (replicate 536 9) (WalHeader_new false) (1, 2) 512 3 0 (replicate 512 7) =
    Ok (ck', frame) /\ len frame = 536.
Proof.
  destruct (wal_frame_roundtrip false (replicate 536 9) (WalHeader_new false) (1, 2) 512
    {| wf_page := 3; wf_db_size := 0; wf_data := replicate 512 7 |}) as (ck' & frame & H1 & H2 & _).
  - repeat split; by vm_compute.
  - split; unfold is_u; cbn; lia.
  - apply example_frame_ok. unfold is_u. lia.
  - reflexivity.
  - reflexivity.
  - exact (ex_intro _ ck' (ex_intro _ frame (conj H1 H2))).
Defined.
