(* ===== verification/Page.v ===== *)
(** A b-tree page in memory: [PageType], the cell types and [read_btree_cell] of
    core/storage/sqlite3_ondisk.rs, the payload thresholds of core/storage/btree.rs
    and the accessors of [PageInner] of core/storage/pager.rs.

    The accessors read and write the page's buffer; a computation on a page is a
    function of the monad [PM], which threads the page and keeps it also when the
    computation ends with an error. *)

From stdpp Require Import base list numbers.
From Stdlib Require Import ZArith Lia.
From S2P Require Import Prelude Varint DbHeader.

(** * Pages *)

Inductive PageType : Type := IndexInterior | TableInterior | IndexLeaf | TableLeaf.
Global Instance PageType_eq_dec : EqDecision PageType.
Proof. solve_decision. Defined.

(** [page_type as u8]. *)
Definition page_type_u8 (t : PageType) : Z :=
  match t with IndexInterior => 2 | TableInterior => 5 | IndexLeaf => 10 | TableLeaf => 13 end.

Definition PageType_is_table (t : PageType) : bool :=
  match t with
  | IndexInterior | IndexLeaf => false
  | TableInterior | TableLeaf => true
  end.

Definition PageType_try_from (value : Z) : res LimboError PageType :=
  match value with
  | 2 => Ok IndexInterior
  | 5 => Ok TableInterior
  | 10 => Ok IndexLeaf
  | 13 => Ok TableLeaf
  | _ => Err Corrupt
  end.

Record OverflowCell := { index : Z; payload : list Z }.
Record PageContent := { id : Z; buf : list Z; overflow_cells : list OverflowCell }.

Definition set_buf (p : PageContent) (b : list Z) : PageContent :=
  {| id := id p; buf := b; overflow_cells := overflow_cells p |}.
Definition set_overflow_cells (p : PageContent) (cs : list OverflowCell) : PageContent :=
  {| id := id p; buf := buf p; overflow_cells := cs |}.

(** Computations on a page. *)
Definition PM : Type -> Type := ST PageContent.
(** A computation that only reads the page, and one that replaces its buffer. *)
Definition rd {A} (f : PageContent -> res LimboError A) : PM A := fun p => (f p, p).
Definition wr (f : PageContent -> res LimboError (list Z)) : PM unit := fun p =>
  match f p with
  | Ok b => (Ok tt, set_buf p b)
  | Err e => (Err e, p)
  | Panic => (Panic, p)
  end.
(** [return_corrupt!] under a condition, and an assertion. *)
Definition corrupt_if (b : bool) : PM unit := fun p => (if b then Err Corrupt else Ok tt, p).
Definition passert (b : bool) : PM unit := sassert b.
Definition plift {A} (r : res LimboError A) : PM A := slift r.

(** * Accessors *)

Definition BTREE_PAGE_TYPE : Z := 0.
Definition BTREE_FIRST_FREEBLOCK : Z := 1.
Definition BTREE_CELL_COUNT : Z := 3.
Definition BTREE_CELL_CONTENT_AREA : Z := 5.
Definition BTREE_FRAGMENTED_BYTES_COUNT : Z := 7.
Definition BTREE_RIGHTMOST_PTR : Z := 8.

Definition MINIMUM_CELL_SIZE : Z := 4.
Definition CELL_PTR_SIZE_BYTES : Z := 2.
Definition INTERIOR_PAGE_HEADER_SIZE_BYTES : Z := 12.
Definition LEAF_PAGE_HEADER_SIZE_BYTES : Z := 8.

Definition offset (p : PageContent) : Z := if id p =? 1 then DatabaseHeader_SIZE else 0.

Definition u16_at (b : list Z) (i : Z) : res LimboError Z :=
  b0 ← at_ b i; b1 ← at_ b (i + 1); Ok (be_val [b0; b1]).
Definition u32_at (b : list Z) (i : Z) : res LimboError Z :=
  b0 ← at_ b i; b1 ← at_ b (i + 1); b2 ← at_ b (i + 2); b3 ← at_ b (i + 3);
  Ok (be_val [b0; b1; b2; b3]).

Definition read_u8 (p : PageContent) (pos : Z) : res LimboError Z := at_ (buf p) (offset p + pos).
Definition read_u16 (p : PageContent) (pos : Z) : res LimboError Z := u16_at (buf p) (offset p + pos).
Definition read_u32 (p : PageContent) (pos : Z) : res LimboError Z := u32_at (buf p) (offset p + pos).
Definition read_u16_no_offset (p : PageContent) (pos : Z) : res LimboError Z := u16_at (buf p) pos.
Definition read_u32_no_offset (p : PageContent) (pos : Z) : res LimboError Z := u32_at (buf p) pos.

Definition write_u8 (pos value : Z) : PM unit :=
  wr (fun p => set_at (buf p) (offset p + pos) value).
Definition write_u16 (pos value : Z) : PM unit :=
  wr (fun p => write_at (buf p) (offset p + pos) (be_bytes 2 value)).
Definition write_u32 (pos value : Z) : PM unit :=
  wr (fun p => write_at (buf p) (offset p + pos) (be_bytes 4 value)).
Definition write_u16_no_offset (pos value : Z) : PM unit :=
  wr (fun p => write_at (buf p) pos (be_bytes 2 value)).
Definition write_u32_no_offset (pos value : Z) : PM unit :=
  wr (fun p => write_at (buf p) pos (be_bytes 4 value)).

Definition page_type (p : PageContent) : res LimboError PageType :=
  b ← read_u8 p BTREE_PAGE_TYPE; PageType_try_from b.

Definition write_page_type (value : Z) : PM unit := write_u8 BTREE_PAGE_TYPE value.
Definition write_rightmost_ptr (value : Z) : PM unit := write_u32 BTREE_RIGHTMOST_PTR value.
Definition write_first_freeblock (value : Z) : PM unit := write_u16 BTREE_FIRST_FREEBLOCK value.
Definition write_freeblock_size (off size : Z) : PM unit := write_u16_no_offset (off + 2) size.
Definition write_freeblock_next_ptr (off next_block : Z) : PM unit := write_u16_no_offset off next_block.
Definition write_freeblock (off size : Z) (next_block : option Z) : PM unit :=
  _ ← write_freeblock_next_ptr off (default 0 next_block);
  write_freeblock_size off size.
Definition read_freeblock (p : PageContent) (off : Z) : res LimboError (Z * Z) :=
  next ← read_u16_no_offset p off; size ← read_u16_no_offset p (off + 2); Ok (next, size).
Definition write_cell_count (value : Z) : PM unit := write_u16 BTREE_CELL_COUNT value.
(** The offset 65536 is stored as 0 ([value as u16]). *)
Definition write_cell_content_area (value : Z) : PM unit :=
  _ ← passert (value <=? PageSize_MAX);
  write_u16 BTREE_CELL_CONTENT_AREA (wrap 16 value).
Definition write_fragmented_bytes_count (value : Z) : PM unit :=
  write_u8 BTREE_FRAGMENTED_BYTES_COUNT value.

Definition first_freeblock (p : PageContent) : res LimboError Z := read_u16 p BTREE_FIRST_FREEBLOCK.
Definition cell_count (p : PageContent) : res LimboError Z := read_u16 p BTREE_CELL_COUNT.
Definition cell_pointer_array_size (p : PageContent) : res LimboError Z :=
  n ← cell_count p; Ok (n * CELL_PTR_SIZE_BYTES).
Definition header_size (p : PageContent) : res LimboError Z :=
  t ← read_u8 p BTREE_PAGE_TYPE;
  let is_interior := t <=? page_type_u8 TableInterior in
  Ok (if is_interior then INTERIOR_PAGE_HEADER_SIZE_BYTES else LEAF_PAGE_HEADER_SIZE_BYTES).
Definition cell_pointer_array_offset (p : PageContent) : res LimboError Z :=
  h ← header_size p; Ok (offset p + h).
Definition unallocated_region_start (p : PageContent) : res LimboError Z :=
  a ← cell_pointer_array_offset p; n ← cell_pointer_array_size p; Ok (a + n).
Definition cell_content_area (p : PageContent) : res LimboError Z :=
  o ← read_u16 p BTREE_CELL_CONTENT_AREA; Ok (if o =? 0 then PageSize_MAX else o).
Definition unallocated_region_size (p : PageContent) : res LimboError Z :=
  c ← cell_content_area p; s ← unallocated_region_start p; usub c s.
Definition num_frag_free_bytes (p : PageContent) : res LimboError Z :=
  read_u8 p BTREE_FRAGMENTED_BYTES_COUNT.
Definition rightmost_pointer (p : PageContent) : res LimboError (option Z) :=
  t ← page_type p;
  match t with
  | IndexInterior | TableInterior => r ← read_u32 p BTREE_RIGHTMOST_PTR; Ok (Some r)
  | IndexLeaf | TableLeaf => Ok None
  end.
Definition is_leaf (p : PageContent) : res LimboError bool :=
  t ← read_u8 p BTREE_PAGE_TYPE; Ok (page_type_u8 TableInterior <? t).
Definition cell_get_raw_start_offset (p : PageContent) (idx : Z) : res LimboError Z :=
  a ← cell_pointer_array_offset p; read_u16_no_offset p (a + idx * CELL_PTR_SIZE_BYTES).

(** * Payload thresholds *)

Definition payload_overflow_threshold_max (t : PageType) (usable_space : Z) : res LimboError Z :=
  match t with
  | IndexInterior | IndexLeaf => x ← usub usable_space 12; usub (x * 64 / 255) 23
  | TableInterior | TableLeaf => usub usable_space 35
  end.
Definition payload_overflow_threshold_min (t : PageType) (usable_space : Z) : res LimboError Z :=
  x ← usub usable_space 12; usub (x * 32 / 255) 23.

Definition payload_overflows (payload_size threshold_max threshold_min usable_size : Z) :
    res LimboError (bool * Z) :=
  if payload_size <=? threshold_max then Ok (false, 0)
  else
    d ← usub payload_size threshold_min;
    m ← usub usable_size 4;
    _ ← rassert (negb (m =? 0));
    let space_left := threshold_min + d mod m in
    let space_left := if threshold_max <? space_left then threshold_min else space_left in
    Ok (true, space_left + 4).

(** * Cells *)

(** [slice_in_bounds_or_corrupt!(buf, pos..)]. *)
Definition from_or_corrupt (b : list Z) (pos : Z) : res LimboError (list Z) :=
  if pos <=? len b then Ok (drop (Z.to_nat pos) b) else Err Corrupt.

(** The size of the cell at [start], as [_cell_get_raw_region_faster] computes it. *)
Definition cell_len (t : PageType) (max_local min_local usable_size : Z) (b : list Z) (start : Z) :
    res LimboError Z :=
  match t with
  | IndexInterior =>
      s ← from_or_corrupt b (start + 4);
      '(len_payload, n_payload) ← read_varint s;
      '(overflows, to_read) ← payload_overflows len_payload max_local min_local usable_size;
      Ok (if overflows : bool then 4 + to_read + n_payload else 4 + len_payload + n_payload)
  | TableInterior =>
      s ← from_or_corrupt b (start + 4);
      '(_, n_rowid) ← read_varint s;
      Ok (4 + n_rowid)
  | IndexLeaf =>
      s ← from_or_corrupt b start;
      '(len_payload, n_payload) ← read_varint s;
      '(overflows, to_read) ← payload_overflows len_payload max_local min_local usable_size;
      Ok (if overflows : bool then to_read + n_payload
          else if len_payload + n_payload <? MINIMUM_CELL_SIZE then MINIMUM_CELL_SIZE
          else len_payload + n_payload)
  | TableLeaf =>
      s ← from_or_corrupt b start;
      '(len_payload, n_payload) ← read_varint s;
      s ← from_or_corrupt b (start + n_payload);
      '(_, n_rowid) ← read_varint s;
      '(overflows, to_read) ← payload_overflows len_payload max_local min_local usable_size;
      Ok (if overflows : bool then to_read + n_payload + n_rowid
          else if len_payload + n_payload + n_rowid <? MINIMUM_CELL_SIZE then MINIMUM_CELL_SIZE
          else len_payload + n_payload + n_rowid)
  end.

Definition cell_get_raw_region_faster (p : PageContent) (idx usable_size count max_local min_local : Z)
    (t : PageType) : res LimboError (Z * Z) :=
  _ ← rassert (idx <? count);
  start ← cell_get_raw_start_offset p idx;
  n ← cell_len t max_local min_local usable_size (buf p) start;
  _ ← ensure (start + n <=? len (buf p)) Corrupt;
  Ok (start, n).

Definition cell_get_raw_region (p : PageContent) (idx usable_size : Z) : res LimboError (Z * Z) :=
  t ← page_type p;
  max_local ← payload_overflow_threshold_max t usable_size;
  min_local ← payload_overflow_threshold_min t usable_size;
  count ← cell_count p;
  cell_get_raw_region_faster p idx usable_size count max_local min_local t.

Inductive BTreeCell : Type :=
| TableInteriorCell (left_child_page rowid : Z)
| TableLeafCell (rowid : Z) (payload : list Z) (payload_size : Z) (first_overflow_page : option Z)
| IndexInteriorCell (left_child_page : Z) (payload : list Z) (payload_size : Z) (first_overflow_page : option Z)
| IndexLeafCell (payload : list Z) (payload_size : Z) (first_overflow_page : option Z).

Definition read_payload (unread : list Z) (payload_size : Z) : res LimboError (list Z * option Z) :=
  let cell_len := len unread in
  if payload_size <=? cell_len then Ok (take (Z.to_nat payload_size) unread, None)
  else if cell_len <? 4 then Err Corrupt
  else
    first_overflow_page ← u32_at unread (cell_len - 4);
    Ok (take (Z.to_nat (cell_len - 4)) unread, Some first_overflow_page).

(** The part of [read_btree_cell] the three cells with a payload share: the local
    payload at [pos]. *)
Definition read_local_payload (page : list Z) (pos payload_size max_local min_local usable_size : Z) :
    res LimboError (list Z * option Z) :=
  '(overflows, to_read) ← payload_overflows payload_size max_local min_local usable_size;
  to_read ← (if overflows : bool then Ok to_read else usub (len page) pos);
  _ ← ensure (pos + to_read <=? len page) Corrupt;
  s ← slice page pos (pos + to_read);
  read_payload s payload_size.

Definition read_btree_cell (page : list Z) (page_content : PageContent) (pos usable_size : Z) :
    res LimboError BTreeCell :=
  t ← page_type page_content;
  max_local ← payload_overflow_threshold_max t usable_size;
  min_local ← payload_overflow_threshold_min t usable_size;
  match t with
  | IndexInterior =>
      _ ← ensure (pos + 4 <=? len page) Corrupt;
      left_child_page ← u32_at page pos;
      let pos := pos + 4 in
      s ← from_or_corrupt page pos;
      '(payload_size, nr) ← read_varint s;
      let pos := pos + nr in
      '(payload, first_overflow_page) ← read_local_payload page pos payload_size max_local min_local usable_size;
      Ok (IndexInteriorCell left_child_page payload payload_size first_overflow_page)
  | TableInterior =>
      _ ← ensure (pos + 4 <=? len page) Corrupt;
      left_child_page ← u32_at page pos;
      s ← from_or_corrupt page (pos + 4);
      '(rowid, _) ← read_varint s;
      Ok (TableInteriorCell left_child_page (to_signed 64 rowid))
  | IndexLeaf =>
      s ← from_or_corrupt page pos;
      '(payload_size, nr) ← read_varint s;
      let pos := pos + nr in
      '(payload, first_overflow_page) ← read_local_payload page pos payload_size max_local min_local usable_size;
      Ok (IndexLeafCell payload payload_size first_overflow_page)
  | TableLeaf =>
      s ← from_or_corrupt page pos;
      '(payload_size, nr) ← read_varint s;
      let pos := pos + nr in
      s ← from_or_corrupt page pos;
      '(rowid, nr) ← read_varint s;
      let pos := pos + nr in
      '(payload, first_overflow_page) ← read_local_payload page pos payload_size max_local min_local usable_size;
      Ok (TableLeafCell (to_signed 64 rowid) payload payload_size first_overflow_page)
  end.

(** The cell pointer [cell_get] and the fast paths read. *)
Definition cell_pointer (p : PageContent) (idx : Z) : res LimboError Z :=
  h ← header_size p; read_u16 p (h + idx * CELL_PTR_SIZE_BYTES).

Definition cell_get (p : PageContent) (idx usable_size : Z) : res LimboError BTreeCell :=
  ncells ← cell_count p;
  _ ← rassert (idx <? ncells);
  pos ← cell_pointer p idx;
  read_btree_cell (buf p) p pos usable_size.

Definition cell_table_interior_read_rowid (p : PageContent) (idx : Z) : res LimboError Z :=
  pos ← cell_pointer p idx;
  s ← from_or_corrupt (buf p) (pos + 4);
  '(rowid, _) ← read_varint s;
  Ok (to_signed 64 rowid).

Definition cell_interior_read_left_child_page (p : PageContent) (idx : Z) : res LimboError Z :=
  pos ← cell_pointer p idx;
  _ ← ensure (pos + 4 <=? len (buf p)) Corrupt;
  u32_at (buf p) pos.

Definition cell_table_leaf_read_rowid (p : PageContent) (idx : Z) : res LimboError Z :=
  pos ← cell_pointer p idx;
  s ← from_or_corrupt (buf p) pos;
  '(_, nr) ← read_varint s;
  s ← from_or_corrupt (buf p) (pos + nr);
  '(rowid, _) ← read_varint s;
  Ok (to_signed 64 rowid).

Definition cell_index_read_payload_ptr (p : PageContent) (idx usable_size : Z) :
    res LimboError (list Z * Z * option Z) :=
  cell_offset ← cell_pointer p idx;
  t ← page_type p;
  '(payload_size, varint_len, header_skip) ←
    match t with
    | IndexInterior =>
        s ← from_or_corrupt (buf p) (cell_offset + 4);
        '(size, n) ← read_varint s; Ok (size, n, 4)
    | IndexLeaf =>
        s ← from_or_corrupt (buf p) cell_offset;
        '(size, n) ← read_varint s; Ok (size, n, 0)
    | _ => Panic
    end;
  let payload_start := cell_offset + header_skip + varint_len in
  max_local ← payload_overflow_threshold_max t usable_size;
  min_local ← payload_overflow_threshold_min t usable_size;
  '(overflows, local_size) ← payload_overflows payload_size max_local min_local usable_size;
  if overflows : bool then
    overflow_ptr_offset ← usub (payload_start + local_size) 4;
    _ ← ensure (overflow_ptr_offset + 4 <=? len (buf p)) Corrupt;
    first_overflow_page ← u32_at (buf p) overflow_ptr_offset;
    let payload_end := payload_start + local_size - 4 in
    _ ← ensure ((payload_start <? payload_end) && (payload_end <=? len (buf p))) Corrupt;
    s ← slice (buf p) payload_start payload_end;
    Ok (s, payload_size, Some first_overflow_page)
  else
    let payload_end := payload_start + payload_size in
    _ ← ensure (payload_end <=? len (buf p)) Corrupt;
    s ← slice (buf p) payload_start payload_end;
    Ok (s, payload_size, None).

(** * The page buffer as memory *)

Definition byte (b : list Z) (i : Z) : Z := default 0 (get b i).
Definition r16 (b : list Z) (i : Z) : Z := byte b i * 256 + byte b (i + 1).

Lemma at_byte {E} b i : 0 <= i < len b -> @at_ E b i = Ok (byte b i).
Proof. intros Hi. unfold at_, byte. by destruct (get_Some_iff b i Hi) as [x ->]. Qed.

Lemma u16_at_r16 b i : 0 <= i -> i + 2 <= len b -> u16_at b i = Ok (r16 b i).
Proof.
  intros H0 H1. unfold u16_at. rewrite !at_byte by lia. done.
Qed.

Lemma byte_range b i : bytes_ok b -> 0 <= byte b i < 256.
Proof.
  intros Hok. unfold byte. destruct (get b i) as [x|] eqn:Hx; simpl; [|lia].
  apply (bytes_ok_get _ _ _ Hok) in Hx. unfold is_u in Hx. lia.
Qed.
Lemma r16_range b i : bytes_ok b -> 0 <= r16 b i < 65536.
Proof. intros Hok. unfold r16. pose proof (byte_range b i Hok). pose proof (byte_range b (i + 1) Hok). lia. Qed.

Lemma byte_app_l a b i : i < len a -> byte (a ++ b) i = byte a i.
Proof.
  intros Hi. unfold byte, get. destruct (Z.ltb_spec i 0); [done|].
  rewrite lookup_app_l by (unfold len in *; lia). done.
Qed.
Lemma byte_app_r a b i : len a <= i -> byte (a ++ b) i = byte b (i - len a).
Proof.
  intros Hi. pose proof (len_nonneg a). unfold byte, get.
  destruct (Z.ltb_spec i 0); [lia|]. destruct (Z.ltb_spec (i - len a) 0); [lia|].
  rewrite lookup_app_r by (unfold len in *; lia). do 2 f_equal. unfold len in *. lia.
Qed.
Lemma byte_drop n b i : 0 <= n -> 0 <= i -> byte (drop (Z.to_nat n) b) i = byte b (n + i).
Proof.
  intros Hn Hi. unfold byte, get. destruct (Z.ltb_spec i 0); [lia|]. destruct (Z.ltb_spec (n + i) 0); [lia|].
  rewrite lookup_drop. do 2 f_equal. lia.
Qed.
Lemma byte_take n b i : i < n -> byte (take (Z.to_nat n) b) i = byte b i.
Proof.
  intros Hi. unfold byte, get. destruct (Z.ltb_spec i 0); [done|]. by rewrite lookup_take_lt by lia.
Qed.

Lemma len_take_Z {A} n (b : list A) : 0 <= n <= len b -> len (take (Z.to_nat n) b) = n.
Proof. unfold len. rewrite length_take. lia. Qed.
Lemma len_drop_Z {A} n (b : list A) : 0 <= n <= len b -> len (drop (Z.to_nat n) b) = len b - n.
Proof. unfold len. rewrite length_drop. lia. Qed.

Lemma byte_splice b i s k :
  0 <= i -> i + len s <= len b ->
  byte (splice_ b i s) k = if (i <=? k) && (k <? i + len s) then byte s (k - i) else byte b k.
Proof.
  intros Hi Hl. pose proof (len_nonneg s). unfold splice_.
  assert (len (take (Z.to_nat i) b) = i) as Ht by (apply len_take_Z; lia).
  destruct (Z.leb_spec i k) as [Hk|Hk]; simpl.
  - rewrite byte_app_r by lia. rewrite Ht. destruct (Z.ltb_spec k (i + len s)) as [Hks|Hks].
    + by rewrite byte_app_l by lia.
    + rewrite byte_app_r by lia. rewrite byte_drop by lia. f_equal. lia.
  - rewrite byte_app_l by lia. by apply byte_take.
Qed.
Lemma byte_splice_other b i s k :
  0 <= i -> i + len s <= len b -> k < i \/ i + len s <= k -> byte (splice_ b i s) k = byte b k.
Proof.
  intros Hi Hl Hk. rewrite byte_splice by done.
  destruct (Z.leb_spec i k), (Z.ltb_spec k (i + len s)); simpl; lia || done.
Qed.
Lemma byte_splice_in b i s k :
  0 <= i -> i + len s <= len b -> i <= k < i + len s -> byte (splice_ b i s) k = byte s (k - i).
Proof.
  intros Hi Hl Hk. rewrite byte_splice by done.
  by destruct (Z.leb_spec i k), (Z.ltb_spec k (i + len s)); simpl; try lia.
Qed.
Lemma r16_splice_other b i s k :
  0 <= i -> i + len s <= len b -> k + 2 <= i \/ i + len s <= k -> r16 (splice_ b i s) k = r16 b k.
Proof. intros Hi Hl Hk. unfold r16. rewrite !byte_splice_other by lia. done. Qed.

Lemma len_be2 v : len (be_bytes 2 v) = 2.
Proof. apply len_be_bytes. Qed.
Lemma r16_splice_same b i v :
  0 <= i -> i + 2 <= len b -> is_u 16 v -> r16 (splice_ b i (be_bytes 2 v)) i = v.
Proof.
  intros Hi Hl Hv. unfold is_u in Hv. unfold r16. rewrite !byte_splice_in by (rewrite ?len_be2; lia).
  replace (i - i) with 0 by lia. replace (i + 1 - i) with 1 by lia.
  change (byte (be_bytes 2 v) 0) with ((v / 256) mod 256). change (byte (be_bytes 2 v) 1) with (v mod 256).
  rewrite (Z.mod_small (v / 256)) by (split; [apply Z.div_pos; lia | apply Z.div_lt_upper_bound; lia]).
  pose proof (Z.div_mod v 256). lia.
Qed.
Lemma splice_bytes_ok b i s : bytes_ok b -> bytes_ok s -> bytes_ok (splice_ b i s).
Proof.
  intros Hb Hs. unfold splice_. rewrite !bytes_ok_app. repeat split; auto with turso.
Qed.
#[export] Hint Resolve splice_bytes_ok : turso.

(** [buf[i] = v] is a splice of one byte. *)
Lemma set_at_splice {E} b i v : 0 <= i < len b -> @set_at E b i v = Ok (splice_ b i [v]).
Proof.
  intros Hi. unfold set_at. destruct (get_Some_iff b i Hi) as [x ->]. f_equal. unfold splice_, len in *.
  rewrite insert_take_drop by lia. do 3 f_equal. cbn [length]. f_equal. lia.
Qed.

Lemma slice_bytes_eq b b' i j :
  0 <= i <= j -> j <= len b -> len b' = len b -> (forall k, i <= k < j -> byte b' k = byte b k) ->
  slice_ b' i j = slice_ b i j.
Proof.
  intros Hi Hj Hl Hk. apply (list_eq_same_length _ _ (Z.to_nat (j - i))).
  - unfold slice_, len in *. rewrite length_take, length_drop. lia.
  - unfold slice_, len in *. rewrite length_take, length_drop. lia.
  - intros n x y Hn Hx Hy. unfold slice_ in Hx, Hy.
    apply lookup_take_Some in Hx as [Hx _]. apply lookup_take_Some in Hy as [Hy _].
    rewrite lookup_drop in Hx, Hy. specialize (Hk (i + Z.of_nat n) ltac:(lia)).
    unfold byte, get in Hk. destruct (Z.ltb_spec (i + Z.of_nat n) 0); [lia|].
    replace (Z.to_nat (i + Z.of_nat n)) with (Z.to_nat i + n)%nat in Hk by lia.
    rewrite Hx, Hy in Hk. done.
Qed.

Lemma bytes_ext b b' : len b' = len b -> (forall k, 0 <= k < len b -> byte b' k = byte b k) -> b' = b.
Proof.
  intros Hl Hk. pose proof (len_nonneg b).
  pose proof (slice_bytes_eq b b' 0 (len b) ltac:(lia) ltac:(lia) Hl Hk) as Hs.
  unfold slice_ in Hs. rewrite !drop_0, !take_ge in Hs by (unfold len in *; lia). done.
Qed.
(** Writing what is already there. *)
Lemma splice_same8 b i : 0 <= i < len b -> splice_ b i [byte b i] = b.
Proof.
  intros Hi. assert (len [byte b i] = 1) as L1 by done. apply bytes_ext; [rewrite len_splice_; lia|].
  intros k Hk. rewrite byte_splice, L1 by lia.
  destruct (Z.leb_spec i k), (Z.ltb_spec k (i + 1)); simpl; try done. by replace k with i by lia; rewrite Z.sub_diag.
Qed.
Lemma byte_be2_hi v : is_u 16 v -> byte (be_bytes 2 v) 0 = v / 256.
Proof.
  unfold is_u. intros Hv. change (byte (be_bytes 2 v) 0) with ((v / 256) mod 256).
  apply Z.mod_small. split; [apply Z.div_pos; lia | apply Z.div_lt_upper_bound; lia].
Qed.
Lemma byte_be2_lo v : byte (be_bytes 2 v) 1 = v mod 256.
Proof. done. Qed.
Lemma splice_same16 b i : bytes_ok b -> 0 <= i -> i + 2 <= len b -> splice_ b i (be_bytes 2 (r16 b i)) = b.
Proof.
  intros Hok Hi Hl. pose proof (byte_range b i Hok). pose proof (byte_range b (i + 1) Hok).
  apply bytes_ext; [rewrite len_splice_; rewrite ?len_be2; lia|]. intros k Hk.
  rewrite byte_splice; rewrite ?len_be2; try lia.
  destruct (Z.leb_spec i k), (Z.ltb_spec k (i + 2)); simpl; try done.
  assert (k = i \/ k = i + 1) as [->| ->] by lia.
  - rewrite Z.sub_diag, byte_be2_hi by (unfold is_u, r16; lia). unfold r16. rewrite Z.div_add_l by lia.
    rewrite (Z.div_small (byte b (i + 1))) by lia. lia.
  - replace (i + 1 - i) with 1 by lia. rewrite byte_be2_lo. unfold r16.
    rewrite Z.add_comm, Z.mod_add, Z.mod_small; lia.
Qed.

(** * Running page computations *)

Lemma pbind_eq {A B} (m : PM A) (k : A -> PM B) p a p' : m p = (Ok a, p') -> (m ≫= k) p = k a p'.
Proof. apply sbind_eq. Qed.
Lemma rd_ok {A} (f : PageContent -> res LimboError A) p a : f p = Ok a -> rd f p = (Ok a, p).
Proof. intros H. unfold rd. by rewrite H. Qed.
Lemma wr_ok f p b : f p = Ok b -> wr f p = (Ok tt, set_buf p b).
Proof. intros H. unfold wr. by rewrite H. Qed.
Lemma corrupt_if_ok b p : b = false -> corrupt_if b p = (Ok tt, p).
Proof. by intros ->. Qed.
Lemma passert_ok b p : b = true -> passert b p = (Ok tt, p).
Proof. by intros ->. Qed.
Lemma plift_ok {A} (r : res LimboError A) p a : r = Ok a -> plift r p = (Ok a, p).
Proof. by intros ->. Qed.
