(* ===== verification/BtreePage.v ===== *)
(** Space management inside one b-tree page (core/storage/btree.rs): the freeblock
    chain ([find_free_slot], [free_cell_range]), free-space accounting
    ([compute_free_space]), defragmentation ([defragment_page] with its fast path),
    and the insertion and removal of cells ([_insert_into_cell], [drop_cell]). *)

From stdpp Require Import base list numbers sorting.
From Stdlib Require Import ZArith Lia.
From S2P Require Import Prelude Varint DbHeader Page.

(** * The code *)

Definition CELL_SIZE_MIN : Z := 4.

(** [x.try_into()] to a [u16] or a [u8], with its panic. *)
Definition to_u16 (x : Z) : PM Z := _ ← passert ((0 <=? x) && (x <? 65536)); mret x.
Definition to_u8 (x : Z) : PM Z := _ ← passert ((0 <=? x) && (x <? 256)); mret x.

(** [match x { 0 => None, x => Some(x) }]. *)
Definition nonzero (x : Z) : option Z := if x =? 0 then None else Some x.

(** ** Allocation from a freeblock *)

(** The [while let Some(cur) = cur_block] loop.  It goes on only to a larger offset
    below [usable_space], so a fuel of [usable_space] is enough. *)
Fixpoint find_free_slot_loop (fuel : nat) (usable_space amount max_start_offset : Z)
    (prev_block cur_block : option Z) : PM (option Z) :=
  match cur_block with
  | None => mret None
  | Some cur =>
      match fuel with
      | O => plift Panic
      | S fuel =>
          _ ← corrupt_if (usable_space <? cur + CELL_SIZE_MIN);
          cur_u16 ← to_u16 cur;
          '(next, size) ← rd (fun p => read_freeblock p cur_u16);
          if size <? amount then
            if next =? 0 then mret None
            else
              _ ← corrupt_if (next <=? cur);
              find_free_slot_loop fuel usable_space amount max_start_offset cur_block (Some next)
          else
            let new_size := size - amount in
            if new_size <? CELL_SIZE_MIN then
              frag ← rd num_frag_free_bytes;
              if 57 <? frag then mret None
              else
                _ ← match prev_block with
                    | Some prev =>
                        prev_u16 ← to_u16 prev; next_u16 ← to_u16 next;
                        write_freeblock_next_ptr prev_u16 next_u16
                    | None => next_u16 ← to_u16 next; write_first_freeblock next_u16
                    end;
                new_size_u8 ← to_u8 new_size;
                frag ← rd num_frag_free_bytes;
                frag ← to_u8 (frag + new_size_u8);
                _ ← write_fragmented_bytes_count frag;
                mret cur_block
            else if max_start_offset <? new_size + cur then plift (Err Corrupt)
            else
              cur_u16 ← to_u16 cur;
              new_size_u16 ← to_u16 new_size;
              _ ← write_freeblock_size cur_u16 new_size_u16;
              mret (Some (cur + new_size))
      end
  end.

Definition find_free_slot (usable_space amount : Z) : PM (option Z) :=
  first ← rd first_freeblock;
  max_start_offset ← plift (usub usable_space amount);
  find_free_slot_loop (Z.to_nat usable_space) usable_space amount max_start_offset None (nonzero first).

(** ** Initialisation *)

Definition clear_overflow_cells : PM unit := fun p => (Ok tt, set_overflow_cells p []).

Definition btree_init_page (t : PageType) (off usable_space : Z) : PM unit :=
  _ ← clear_overflow_cells;
  _ ← rd (fun p => rassert (off =? offset p));
  _ ← write_page_type (page_type_u8 t);
  _ ← write_first_freeblock 0;
  _ ← write_cell_count 0;
  _ ← write_cell_content_area usable_space;
  _ ← write_fragmented_bytes_count 0;
  _ ← write_rightmost_ptr 0;
  _ ← rd (fun p => rassert (usable_space <=? len (buf p)));
  wr (fun p => write_at (buf p) usable_space (replicate (Z.to_nat (len (buf p) - usable_space)) 0)).

(** ** Freeing a range *)

(** The loop that finds the freeblocks around [off]. *)
Fixpoint find_position (fuel : nat) (off : Z) (prev_block next_block : option Z) :
    PM (option Z * option Z) :=
  match next_block with
  | None => mret (prev_block, None)
  | Some next =>
      _ ← corrupt_if (match prev_block with Some prev => next <=? prev | None => false end);
      if off <=? next then mret (prev_block, Some next)
      else match fuel with
      | O => plift Panic
      | S fuel =>
          n ← rd (fun p => read_u16_no_offset p next);
          find_position fuel off (Some next) (nonzero n)
      end
  end.

Definition SINGLE_FRAGMENT_SIZE_MAX : Z := CELL_SIZE_MIN - 1.

(** Merge with the freeblock behind the range: the new end, size, next freeblock and
    the fragments removed. *)
Definition merge_next (off end_ size usable_space : Z) (next_block : option Z) :
    PM (Z * Z * option Z * Z) :=
  match next_block with
  | Some next =>
      if next <=? end_ + SINGLE_FRAGMENT_SIZE_MAX then
        gap ← plift (usub next end_);
        let removed_fragmentation := wrap 8 gap in
        next_size ← rd (fun p => read_u16_no_offset p (next + 2));
        let end_ := next + next_size in
        _ ← corrupt_if (usable_space <? end_);
        let size := end_ - off in
        n ← rd (fun p => read_u16_no_offset p next);
        mret (end_, size, nonzero n, removed_fragmentation)
      else mret (end_, size, next_block, 0)
  | None => mret (end_, size, next_block, 0)
  end.

(** Merge with the freeblock before the range: the new offset, size and fragments. *)
Definition merge_prev (off end_ size removed_fragmentation : Z) (prev_block : option Z) :
    PM (Z * Z * Z) :=
  match prev_block with
  | Some prev =>
      prev_size ← rd (fun p => read_u16_no_offset p (prev + 2));
      let prev_end := prev + prev_size in
      _ ← corrupt_if (off <? prev_end);
      if off <=? prev_end + SINGLE_FRAGMENT_SIZE_MAX then
        removed_fragmentation ← plift (uadd 8 removed_fragmentation (wrap 8 (off - prev_end)));
        mret (prev, end_ - prev, removed_fragmentation)
      else mret (off, size, removed_fragmentation)
  | None => mret (off, size, removed_fragmentation)
  end.

Definition free_cell_range (off len_ usable_space : Z) : PM unit :=
  _ ← corrupt_if (len_ <? CELL_SIZE_MIN);
  _ ← corrupt_if (Z.max 0 (usable_space - CELL_SIZE_MIN) <? off);
  let size := len_ in
  let end_ := off + len_ in
  _ ← corrupt_if (usable_space <? end_);
  cur_content_area ← rd cell_content_area;
  first_block ← rd first_freeblock;
  if first_block =? 0 then
    _ ← corrupt_if (off <? cur_content_area);
    if off =? cur_content_area then write_cell_content_area end_
    else
      offset_u16 ← to_u16 off;
      _ ← write_first_freeblock offset_u16;
      size_u16 ← to_u16 size;
      write_freeblock offset_u16 size_u16 None
  else
    '(prev_block, next_block) ← find_position (Z.to_nat usable_space) off None (Some first_block);
    _ ← corrupt_if (match next_block with Some next => usable_space <? next + CELL_SIZE_MIN | None => false end);
    '(end_, size, next_block, removed_fragmentation) ← merge_next off end_ size usable_space next_block;
    '(off, size, removed_fragmentation) ← merge_prev off end_ size removed_fragmentation prev_block;
    cur_frag_free_bytes ← rd num_frag_free_bytes;
    _ ← corrupt_if (cur_frag_free_bytes <? removed_fragmentation);
    _ ← write_fragmented_bytes_count (cur_frag_free_bytes - removed_fragmentation);
    _ ← corrupt_if (off <? cur_content_area);
    if off =? cur_content_area then
      _ ← corrupt_if (match prev_block with Some prev => negb (prev =? first_block) | None => false end);
      _ ← match next_block with
          | Some next =>
              _ ← corrupt_if (next <=? end_);
              next_u16 ← to_u16 next;
              write_first_freeblock next_u16
          | None => write_first_freeblock 0
          end;
      write_cell_content_area end_
    else
      offset_u16 ← to_u16 off;
      _ ← match prev_block with
          | Some prev => write_u16_no_offset prev offset_u16
          | None => write_first_freeblock offset_u16
          end;
      size_u16 ← to_u16 size;
      next_block_u16 ← match next_block with
                       | Some b => b ← to_u16 b; mret (Some b)
                       | None => mret None
                       end;
      write_freeblock offset_u16 size_u16 next_block_u16.

(** ** Free space *)

(** The loop over the freeblocks; it moves right by more than four bytes each time. *)
Fixpoint free_space_loop (fuel : nat) (usable_space cur free_space_bytes : Z) : PM Z :=
  match fuel with
  | O => plift Panic
  | S fuel =>
      _ ← corrupt_if (usable_space <? cur + 4);
      next ← rd (fun p => read_u16_no_offset p cur);
      size ← rd (fun p => read_u16_no_offset p (cur + 2));
      _ ← corrupt_if (size <? 4);
      _ ← corrupt_if (usable_space <? cur + size);
      let free_space_bytes := free_space_bytes + size in
      if next =? 0 then mret free_space_bytes
      else
        _ ← corrupt_if (next <=? cur + size + 3);
        free_space_loop fuel usable_space next free_space_bytes
  end.

Definition compute_free_space (usable_space : Z) : PM Z :=
  off ← rd (fun p => Ok (offset p));
  hs ← rd header_size;
  n ← rd cell_count;
  let first_cell := off + hs + 2 * n in
  _ ← corrupt_if (usable_space <? first_cell);
  cell_content_area_start ← rd cell_content_area;
  _ ← corrupt_if (usable_space <? cell_content_area_start);
  frag ← rd num_frag_free_bytes;
  let free_space_bytes := cell_content_area_start + frag in
  cur ← rd first_freeblock;
  free_space_bytes ←
    (if 0 <? cur then
       _ ← corrupt_if (cur <? cell_content_area_start);
       free_space_loop (Z.to_nat usable_space) usable_space cur free_space_bytes
     else mret free_space_bytes);
  _ ← corrupt_if (usable_space <? free_space_bytes);
  _ ← corrupt_if (free_space_bytes <? first_cell);
  mret (free_space_bytes - first_cell).

(** ** Defragmentation *)

(** [buf.copy_within(src..src + n, dst)]. *)
Definition copy_within (src n dst : Z) : PM unit :=
  wr (fun p => s ← slice (buf p) src (src + n); write_at (buf p) dst s).

(** [for i in 0..cell_count] of [defragment_page_fast], from pointer [i] on. *)
Fixpoint shift_pointers (k : nat) (usable_space array_offset i : Z)
    (freeblock_1st freeblock_2nd freeblocks_total_size freeblock_2nd_size : Z) : PM unit :=
  match k with
  | O => mret tt
  | S k =>
      let ptr_offset := array_offset + i * CELL_PTR_SIZE_BYTES in
      cell_ptr ← rd (fun p => read_u16_no_offset p ptr_offset);
      _ ← (if cell_ptr <? freeblock_1st then
             _ ← corrupt_if (usable_space <? cell_ptr + freeblocks_total_size);
             write_u16_no_offset ptr_offset (wrap 16 (cell_ptr + freeblocks_total_size))
           else if (0 <? freeblock_2nd) && (cell_ptr <? freeblock_2nd) then
             _ ← corrupt_if (usable_space <? cell_ptr + freeblock_2nd_size);
             write_u16_no_offset ptr_offset (wrap 16 (cell_ptr + freeblock_2nd_size))
           else mret tt);
      shift_pointers k usable_space array_offset (i + 1) freeblock_1st freeblock_2nd
        freeblocks_total_size freeblock_2nd_size
  end.

Definition defragment_page_fast (usable_space freeblock_1st freeblock_2nd : Z) : PM unit :=
  _ ← corrupt_if (freeblock_1st =? 0);
  _ ← corrupt_if ((0 <? freeblock_2nd) && (freeblock_2nd <=? freeblock_1st));
  limit ← plift (usub usable_space 4);
  _ ← corrupt_if (limit <? freeblock_1st);
  _ ← corrupt_if (limit <? freeblock_2nd);
  freeblock_1st_size ← rd (fun p => read_u16_no_offset p (freeblock_1st + 2));
  freeblock_2nd_size ←
    (if 0 <? freeblock_2nd then rd (fun p => read_u16_no_offset p (freeblock_2nd + 2)) else mret 0);
  let freeblocks_total_size := freeblock_1st_size + freeblock_2nd_size in
  cca ← rd cell_content_area;
  _ ← (if 0 <? freeblock_2nd then
         _ ← corrupt_if (freeblock_2nd <? freeblock_1st + freeblock_1st_size);
         _ ← corrupt_if (usable_space <? freeblock_2nd + freeblock_2nd_size);
         let after_first_freeblock := freeblock_1st + freeblock_1st_size in
         copy_within after_first_freeblock (freeblock_2nd - after_first_freeblock)
           (freeblock_1st + freeblocks_total_size)
       else corrupt_if (usable_space <? freeblock_1st + freeblock_1st_size));
  let new_cell_content_area := cca + freeblocks_total_size in
  copy_amount ← plift (usub freeblock_1st cca);
  _ ← corrupt_if (usable_space <? new_cell_content_area + copy_amount);
  _ ← copy_within cca copy_amount new_cell_content_area;
  count ← rd cell_count;
  array_offset ← rd cell_pointer_array_offset;
  _ ← shift_pointers (Z.to_nat count) usable_space array_offset 0 freeblock_1st freeblock_2nd
        freeblocks_total_size freeblock_2nd_size;
  _ ← write_cell_content_area new_cell_content_area;
  write_first_freeblock 0.

Record CellInfo := { old_offset : Z; ci_size : Z; pointer_index : Z }.
(** The order of [sort_unstable_by(|a, b| b.old_offset.cmp(&a.old_offset))]. *)
Definition cell_before (a b : CellInfo) : Prop := old_offset b <= old_offset a.
Global Instance cell_before_dec : RelDecision cell_before.
Proof. unfold cell_before. intros a b. apply _. Defined.

(** [for i in 0..cell_count]: gather the cells from [i] on. *)
Fixpoint gather_cells (k : nat) (i usable_space count max_local min_local cell_offset : Z)
    (t : PageType) (is_physically_sorted : bool) (last_offset : Z) : PM (list CellInfo * bool) :=
  match k with
  | O => mret ([], is_physically_sorted)
  | S k =>
      pc ← rd (fun p => read_u16_no_offset p (cell_offset + i * 2));
      '(_, size) ← rd (fun p => cell_get_raw_region_faster p i usable_space count max_local min_local t);
      '(cells, sorted) ← gather_cells k (i + 1) usable_space count max_local min_local cell_offset t
        (if last_offset <? pc then false else is_physically_sorted) pc;
      mret ({| old_offset := pc; ci_size := wrap 16 size; pointer_index := i |} :: cells, sorted)
  end.

(** [for cell in cells.iter()]: pack the cells against the end of the page. *)
Fixpoint move_cells (cells : list CellInfo) (usable_space cell_pointer_area_offset
    first_cell_content_byte cbrk : Z) : PM Z :=
  match cells with
  | [] => mret cbrk
  | cell :: cells =>
      cbrk ← plift (usub cbrk (ci_size cell));
      let new_offset := cbrk in
      _ ← passert ((first_cell_content_byte <=? new_offset)
                   && (old_offset cell + ci_size cell <=? usable_space));
      _ ← (if negb (new_offset =? old_offset cell)
           then copy_within (old_offset cell) (ci_size cell) new_offset else mret tt);
      _ ← passert (new_offset <? PageSize_MAX);
      _ ← write_u16_no_offset (cell_pointer_area_offset + pointer_index cell * 2) (wrap 16 new_offset);
      move_cells cells usable_space cell_pointer_area_offset first_cell_content_byte cbrk
  end.

Definition process_cells (usable_space : Z) (cells : list CellInfo) (is_physically_sorted : bool) : PM unit :=
  let cells := if is_physically_sorted then cells else merge_sort cell_before cells in
  cell_pointer_area_offset ← rd cell_pointer_array_offset;
  first_cell_content_byte ← rd unallocated_region_start;
  cbrk ← move_cells cells usable_space cell_pointer_area_offset first_cell_content_byte usable_space;
  _ ← write_cell_content_area cbrk;
  _ ← write_first_freeblock 0;
  write_fragmented_bytes_count 0.

Definition defragment_slow (usable_space count : Z) : PM unit :=
  cell_offset ← rd cell_pointer_array_offset;
  t ← rd page_type;
  max_local ← plift (payload_overflow_threshold_max t usable_space);
  min_local ← plift (payload_overflow_threshold_min t usable_space);
  '(cells, sorted) ← gather_cells (Z.to_nat count) 0 usable_space count max_local min_local cell_offset t
    true 65535;
  process_cells usable_space cells sorted.

Definition defragment_page (usable_space max_frag_bytes : Z) : PM unit :=
  count ← rd cell_count;
  if count =? 0 then
    _ ← write_cell_content_area usable_space;
    _ ← write_first_freeblock 0;
    write_fragmented_bytes_count 0
  else
    frag ← rd num_frag_free_bytes;
    if frag <=? max_frag_bytes then
      freeblock_1st ← rd first_freeblock;
      if freeblock_1st =? 0 then mret tt
      else
        freeblock_2nd ← rd (fun p => read_u16_no_offset p freeblock_1st);
        if freeblock_2nd =? 0 then defragment_page_fast usable_space freeblock_1st 0
        else
          freeblock_3rd ← rd (fun p => read_u16_no_offset p freeblock_2nd);
          if freeblock_3rd =? 0 then defragment_page_fast usable_space freeblock_1st freeblock_2nd
          else defragment_slow usable_space count
    else defragment_slow usable_space count.

Definition defragment_page_full (usable_space : Z) : PM unit := defragment_page usable_space (-1).

(** ** Cells *)

Definition allocate_cell_space (amount usable_space free_space : Z) : PM Z :=
  let amount := if amount <? MINIMUM_CELL_SIZE then MINIMUM_CELL_SIZE else amount in
  region_start ← rd unallocated_region_start;
  cca ← rd cell_content_area;
  first ← rd first_freeblock;
  slot ← (if negb (first =? 0) && (region_start + CELL_PTR_SIZE_BYTES <=? cca)
          then find_free_slot usable_space amount else mret None);
  match slot with
  | Some pc => mret (wrap 16 pc)
  | None =>
      cca ← (if cca <? region_start + CELL_PTR_SIZE_BYTES + amount then
               let max_frag_bytes := Z.min 4 (free_space - (CELL_PTR_SIZE_BYTES + amount)) in
               _ ← defragment_page usable_space max_frag_bytes;
               rd cell_content_area
             else mret cca);
      cca ← plift (usub cca amount);
      _ ← write_cell_content_area cca;
      _ ← passert (cca + amount <=? usable_space);
      mret (wrap 16 cca)
  end.

Definition push_overflow_cell (c : OverflowCell) : PM unit :=
  fun p => (Ok tt, set_overflow_cells p (overflow_cells p ++ [c])).

Definition insert_into_cell_ (payload : list Z) (cell_idx usable_space : Z)
    (allow_regular_insert_despite_overflow : bool) : PM unit :=
  count ← rd cell_count;
  overflow ← rd (fun p => Ok (A:=list OverflowCell) (overflow_cells p));
  _ ← passert (cell_idx <=? count + len overflow);
  let already_has_overflow := negb (len overflow =? 0) in
  free ← compute_free_space usable_space;
  let enough_space :=
    if already_has_overflow && negb allow_regular_insert_despite_overflow then false
    else len payload + CELL_PTR_SIZE_BYTES <=? free in
  if negb enough_space then
    _ ← passert (match last overflow with Some c => index c + 1 =? cell_idx | None => true end);
    push_overflow_cell {| index := cell_idx; Page.payload := payload |}
  else
    _ ← passert (cell_idx <=? count);
    new_cell_data_pointer ← allocate_cell_space (len payload) usable_space free;
    _ ← passert (new_cell_data_pointer + len payload <=? usable_space);
    _ ← wr (fun p => write_at (buf p) new_cell_data_pointer payload);
    array_start ← rd cell_pointer_array_offset;
    let cell_pointer_cur_idx := array_start + CELL_PTR_SIZE_BYTES * cell_idx in
    count ← rd cell_count;
    n_cells_forward ← plift (usub count cell_idx);
    let n_bytes_forward := CELL_PTR_SIZE_BYTES * n_cells_forward in
    _ ← (if 0 <? n_bytes_forward
         then copy_within cell_pointer_cur_idx n_bytes_forward (cell_pointer_cur_idx + CELL_PTR_SIZE_BYTES)
         else mret tt);
    _ ← write_u16_no_offset cell_pointer_cur_idx new_cell_data_pointer;
    count ← rd cell_count;
    write_cell_count (wrap 16 (count + 1)).

Definition insert_into_cell (payload : list Z) (cell_idx usable_space : Z) : PM unit :=
  insert_into_cell_ payload cell_idx usable_space false.

Definition shift_pointers_left (cell_idx : Z) : PM unit :=
  count ← rd cell_count;
  _ ← passert (0 <? count);
  start ← rd cell_pointer_array_offset;
  let start := start + cell_idx * 2 + 2 in
  right_cells ← plift (x ← usub count cell_idx; usub x 1);
  copy_within start (right_cells * 2) (start - 2).

Definition drop_cell (cell_idx usable_space : Z) : PM unit :=
  '(cell_start, cell_len) ← rd (fun p => cell_get_raw_region p cell_idx usable_space);
  _ ← free_cell_range cell_start cell_len usable_space;
  count ← rd cell_count;
  _ ← (if 1 <? count then shift_pointers_left cell_idx
       else
         _ ← write_cell_content_area usable_space;
         _ ← write_first_freeblock 0;
         write_fragmented_bytes_count 0);
  count ← rd cell_count;
  n ← plift (usub count 1);
  write_cell_count n.
