(* ===== verification/BtreeSpace.v ===== *)
(** The space of a b-tree page as a set of disjoint byte ranges, apart from how the
    page stores it: the accounting that every allocation, release and merge of the
    page code has to keep. *)

From stdpp Require Import base list numbers.
From Stdlib Require Import ZArith Lia.
From S2P Require Import Prelude.

(** * Ranges *)

(** A range is its first byte and its size. *)
Notation range := (Z * Z)%type.

Fixpoint spans (rs : list range) : list Z :=
  match rs with
  | [] => []
  | (o, z) :: rs => seqZ o z ++ spans rs
  end.

Fixpoint total (rs : list range) : Z :=
  match rs with
  | [] => 0
  | (_, z) :: rs => z + total rs
  end.

(** The content area of a page, from [cca] to [usable], holds the disjoint ranges [rs]
    (cells and freeblocks, none below the minimum cell size), and the bytes outside
    them are the [frag] fragmented ones. *)
Record space_ok (lo usable cca frag : Z) (rs : list range) : Prop := {
  so_bounds : lo <= cca <= usable;
  so_sizes : Forall (fun r => 4 <= snd r) rs;
  so_nodup : NoDup (spans rs);
  so_in : forall k, k ∈ spans rs -> cca <= k < usable;
  so_total : frag + total rs = usable - cca;
  so_frag : 0 <= frag;
}.

(** * Lemmas *)

Lemma spans_app rs ss : spans (rs ++ ss) = spans rs ++ spans ss.
Proof. induction rs as [|[o z] rs IH]; [done|]. simpl. by rewrite IH, app_assoc. Qed.
Lemma total_app rs ss : total (rs ++ ss) = total rs + total ss.
Proof. induction rs as [|[o z] rs IH]; [done|]. simpl. rewrite IH. lia. Qed.

Lemma length_spans rs : Forall (fun r => 4 <= snd r) rs -> Z.of_nat (length (spans rs)) = total rs.
Proof.
  induction 1 as [|[o z] rs Hz _ IH]; [done|]. simpl in *. rewrite length_app, length_seqZ. lia.
Qed.
Lemma total_nonneg rs : Forall (fun r => 4 <= snd r) rs -> 0 <= total rs.
Proof. intros H. rewrite <- length_spans by done. lia. Qed.

Lemma sizes_in (rs : list range) (r : range) : Forall (fun r => 4 <= snd r) rs -> r ∈ rs -> 4 <= snd r.
Proof. rewrite list.Forall_forall. intros H. apply H. Qed.

Lemma spans_perm rs ss : rs ≡ₚ ss -> spans rs ≡ₚ spans ss.
Proof.
  induction 1 as [|[o z] rs ss _ IH|[o1 z1] [o2 z2] rs|]; simpl; [done| | |by etransitivity].
  - by rewrite IH.
  - rewrite !app_assoc, (Permutation_app_comm (seqZ o2 z2)). done.
Qed.
Lemma total_perm rs ss : rs ≡ₚ ss -> total rs = total ss.
Proof.
  induction 1 as [|[o z] rs ss _ IH|[o1 z1] [o2 z2] rs|]; simpl; lia.
Qed.

Lemma elem_of_spans k rs : k ∈ spans rs <-> exists o z, (o, z) ∈ rs /\ o <= k < o + z.
Proof.
  induction rs as [|[o z] rs IH]; simpl.
  - rewrite elem_of_nil. split; [done|]. intros (o & z & Hin & _). by apply elem_of_nil in Hin.
  - rewrite elem_of_app, elem_of_seqZ, IH. setoid_rewrite elem_of_cons. split.
    + intros [H|(o' & z' & Hin & Hk)]; [by exists o, z; auto | exists o', z'; auto].
    + intros (o' & z' & [[= -> ->]|Hin] & Hk); [by left | right; eauto].
Qed.

(** A range is disjoint from every other one of the list. *)
Definition apart (r s : range) : Prop := fst r + snd r <= fst s \/ fst s + snd s <= fst r.

Lemma head_apart r rs s :
  NoDup (spans (r :: rs)) -> s ∈ rs -> 0 < snd r -> 0 < snd s -> apart r s.
Proof.
  destruct r as [o z], s as [o' z']. simpl. intros Hnd Hin Hz Hz'. apply list.NoDup_app in Hnd as (_ & Hd & _).
  unfold apart. simpl. destruct (Z.leb_spec (o + z) o'); [by left|]. destruct (Z.leb_spec (o' + z') o); [by right|].
  exfalso. apply (Hd (Z.max o o')).
  - apply elem_of_seqZ. lia.
  - apply elem_of_spans. exists o', z'. split; [done|lia].
Qed.

Section space.
Context (lo usable : Z).

Lemma space_perm cca frag rs ss :
  rs ≡ₚ ss -> space_ok lo usable cca frag rs -> space_ok lo usable cca frag ss.
Proof.
  intros Hp [H1 H2 H3 H4 H5 H6]. split; [done| | | | |done].
  - by rewrite <- Hp.
  - by rewrite <- (spans_perm _ _ Hp).
  - intros k. rewrite <- (spans_perm _ _ Hp). apply H4.
  - by rewrite <- (total_perm _ _ Hp).
Qed.

Lemma space_range cca frag rs o z :
  space_ok lo usable cca frag rs -> (o, z) ∈ rs -> 4 <= z /\ cca <= o /\ o + z <= usable.
Proof.
  intros [_ Hs _ Hin _ _] He. assert (4 <= z) as Hz by (by apply (sizes_in rs (o, z))).
  pose proof (Hin o ltac:(apply elem_of_spans; exists o, z; split; [done|lia])).
  pose proof (Hin (o + z - 1) ltac:(apply elem_of_spans; exists o, z; split; [done|lia])). lia.
Qed.

Lemma space_apart cca frag r rs s :
  space_ok lo usable cca frag (r :: rs) -> s ∈ rs -> apart r s.
Proof.
  intros Hs Hin. pose proof (so_sizes _ _ _ _ _ Hs) as Hz. pose proof (Forall_inv Hz) as H1. simpl in H1.
  apply Forall_inv_tail in Hz. apply (head_apart r rs); [apply Hs|done|lia|].
  pose proof (sizes_in rs s Hz Hin). lia.
Qed.

Lemma space_weaken cca frag rs lo' :
  lo' <= cca -> space_ok lo usable cca frag rs -> space_ok lo' usable cca frag rs.
Proof. intros Hl [H1 H2 H3 H4 H5 H6]. split; try done. lia. Qed.

(** Releasing the leftmost range of the content area gives it to the unallocated one. *)
Lemma space_release_left cca frag z rs :
  space_ok lo usable cca frag ((cca, z) :: rs) -> space_ok lo usable (cca + z) frag rs.
Proof.
  intros Hs. pose proof (space_range _ _ _ cca z Hs ltac:(by left)) as (Hz & _ & Hu).
  pose proof (so_bounds _ _ _ _ _ Hs). split; [lia| | | | |apply Hs].
  - by eapply Forall_inv_tail, so_sizes.
  - pose proof (so_nodup _ _ _ _ _ Hs) as Hn. simpl in Hn. by apply list.NoDup_app in Hn as (_ & _ & ?).
  - intros k Hk. apply elem_of_spans in Hk as (o & z' & Hin & Hk).
    pose proof (space_range _ _ _ o z' Hs ltac:(by right)).
    pose proof (space_apart _ _ _ _ _ Hs Hin) as Ha. unfold apart in Ha. simpl in Ha. lia.
  - pose proof (so_total _ _ _ _ _ Hs) as Ht. simpl in Ht. lia.
Qed.

(** Taking a range from the unallocated region. *)
Lemma space_alloc_left cca frag a rs :
  space_ok lo usable cca frag rs -> 4 <= a -> lo <= cca - a ->
  space_ok lo usable (cca - a) frag ((cca - a, a) :: rs).
Proof.
  intros [H1 H2 H3 H4 H5 H6] Ha Hl. split; [lia|by constructor| | |simpl; lia|done].
  - simpl. apply list.NoDup_app. split; [apply NoDup_seqZ|]. split; [|done].
    intros k Hk Hin. apply elem_of_seqZ in Hk. apply H4 in Hin. lia.
  - simpl. intros k [Hk|Hk]%elem_of_app; [apply elem_of_seqZ in Hk; lia|]. apply H4 in Hk. lia.
Qed.

Lemma seqZ_split o a b : 0 <= a -> 0 <= b -> seqZ o (a + b) = seqZ o a ++ seqZ (o + a) b.
Proof. intros. by rewrite seqZ_app. Qed.

(** Cutting a range in two. *)
Lemma space_split cca frag o z a rs :
  space_ok lo usable cca frag ((o, z) :: rs) -> 4 <= a -> 4 <= z - a ->
  space_ok lo usable cca frag ((o, z - a) :: (o + (z - a), a) :: rs).
Proof.
  intros [H1 H2 H3 H4 H5 H6] Ha Hz. inversion H2; subst.
  assert (spans ((o, z) :: rs) = spans ((o, z - a) :: (o + (z - a), a) :: rs)) as Hsp.
  { simpl. rewrite app_assoc. f_equal. replace z with (z - a + a) at 1 by lia. apply seqZ_split; lia. }
  split; [done| |by rewrite <- Hsp|by rewrite <- Hsp| |done].
  - by repeat constructor.
  - simpl in *. lia.
Qed.

(** Shrinking a range; the bytes cut off become fragments. *)
Lemma space_shrink cca frag o z a rs :
  space_ok lo usable cca frag ((o, z) :: rs) -> 4 <= a <= z ->
  space_ok lo usable cca (frag + (z - a)) ((o, a) :: rs).
Proof.
  intros [H1 H2 H3 H4 H5 H6] Ha. inversion H2; subst. simpl in *.
  assert (seqZ o z = seqZ o a ++ seqZ (o + a) (z - a)) as Hsq.
  { replace z with (a + (z - a)) at 1 by lia. apply seqZ_split; lia. }
  rewrite Hsq, <- app_assoc in H3. split; [done| | | |simpl; lia|lia].
  - constructor; [simpl; lia|done].
  - simpl. apply list.NoDup_app in H3 as (Hn1 & Hd & Hn2). apply list.NoDup_app. split; [done|]. split.
    + intros k Hk Hin. apply (Hd k Hk). apply elem_of_app. by right.
    + by apply list.NoDup_app in Hn2 as (_ & _ & ?).
  - simpl. intros k [Hk|Hk]%elem_of_app; apply H4; apply elem_of_app; [left|by right].
    rewrite Hsq. apply elem_of_app. by left.
Qed.

(** Merging two ranges at most three bytes apart: the bytes between them are not part
    of any range, because a range has at least four. *)
Lemma space_merge cca frag o1 z1 o2 z2 rs :
  space_ok lo usable cca frag ((o1, z1) :: (o2, z2) :: rs) ->
  o1 + z1 <= o2 <= o1 + z1 + 3 ->
  o2 - (o1 + z1) <= frag /\
  space_ok lo usable cca (frag - (o2 - (o1 + z1))) ((o1, o2 + z2 - o1) :: rs).
Proof.
  intros Hs Hg. pose proof Hs as [H1 H2 H3 H4 H5 H6]. inversion H2 as [|? ? Hz1 H2']; subst.
  inversion H2' as [|? ? Hz2 H2'']; subst. simpl in Hz1, Hz2.
  set (g := o2 - (o1 + z1)).
  assert (spans ((o1, o2 + z2 - o1) :: rs) = seqZ o1 z1 ++ seqZ (o1 + z1) g ++ seqZ o2 z2 ++ spans rs) as Hsp.
  { simpl. replace (o2 + z2 - o1) with (z1 + (g + z2)) by (unfold g; lia).
    rewrite seqZ_split, seqZ_split, <- !app_assoc by (unfold g; lia). do 4 f_equal. unfold g. lia. }
  assert (NoDup (spans ((o1, o2 + z2 - o1) :: rs))) as Hnd.
  { rewrite Hsp. simpl in H3. rewrite (app_assoc (seqZ o1 z1)), (Permutation_app_comm (seqZ o1 z1)), <- app_assoc.
    apply list.NoDup_app. split; [apply NoDup_seqZ|]. split; [|done].
    intros k Hk Hin. apply elem_of_seqZ in Hk. rewrite !elem_of_app, !elem_of_seqZ in Hin.
    destruct Hin as [Hin|[Hin|Hin]]; [unfold g in *; lia..|].
    apply elem_of_spans in Hin as (o & z & Hin & Hk').
    pose proof (space_range _ _ _ o z Hs ltac:(do 2 right; done)).
    pose proof (space_apart _ _ _ _ (o, z) Hs ltac:(by right)) as A1.
    assert (space_ok lo usable cca frag ((o2, z2) :: (o1, z1) :: rs)) as Hs'
      by (eapply space_perm; [|exact Hs]; constructor).
    pose proof (space_apart _ _ _ _ (o, z) Hs' ltac:(by right)) as A2.
    unfold apart in *. simpl in *. unfold g in *. lia. }
  assert (forall k, k ∈ spans ((o1, o2 + z2 - o1) :: rs) -> cca <= k < usable) as Hin'.
  { pose proof (space_range _ _ _ o1 z1 Hs ltac:(by left)).
    pose proof (space_range _ _ _ o2 z2 Hs ltac:(right; by left)).
    intros k. simpl. intros [Hk|Hk]%elem_of_app; [apply elem_of_seqZ in Hk; lia|].
    apply H4. simpl. rewrite !elem_of_app. auto. }
  assert (Forall (fun r => 4 <= snd r) ((o1, o2 + z2 - o1) :: rs)) as Hsz by (constructor; [simpl; lia|done]).
  assert (total ((o1, o2 + z2 - o1) :: rs) <= usable - cca) as Hle.
  { rewrite <- length_spans by done.
    assert (spans ((o1, o2 + z2 - o1) :: rs) ⊆+ seqZ cca (usable - cca)) as Hsub.
    { apply NoDup_submseteq; [done|]. intros k Hk. apply elem_of_seqZ. apply Hin' in Hk. lia. }
    apply submseteq_length in Hsub. rewrite length_seqZ in Hsub. lia. }
  simpl in H5, Hle. split; [unfold g; lia|]. split; try done; [simpl; unfold g; lia | unfold g; lia].
Qed.

End space.
