(* ===== verification/BtreeInv.v ===== *)
(** The free space of a b-tree page in its bytes: the chain of freeblocks and the
    header fields, with the correctness of the operations that allocate from the
    chain ([find_free_slot]), return a range to it ([free_cell_range]) and measure it
    ([compute_free_space]). *)

From stdpp Require Import base list numbers sorting.
From Stdlib Require Import ZArith Lia.
From S2P Require Import Prelude Varint DbHeader Page BtreeSpace BtreePage.

(** * The freeblock chain *)

(** The offset the link to a chain holds; [q] if the chain is empty. *)
Definition head_of (q : Z) (fbs : list range) : Z :=
  match fbs with [] => q | (o, _) :: _ => o end.

(** Every block of [fbs] holds its size and the offset of its successor; the last one
    links to [q]. *)
Fixpoint blocks (b : list Z) (fbs : list range) (q : Z) : Prop :=
  match fbs with
  | [] => True
  | (o, z) :: fbs => r16 b o = head_of q fbs /\ r16 b (o + 2) = z /\ blocks b fbs q
  end.

(** The blocks ascend, more than three bytes apart, behind [e]. *)
Fixpoint ascending (e : Z) (fbs : list range) : Prop :=
  match fbs with
  | [] => True
  | (o, z) :: fbs => e + 3 < o /\ ascending (o + z) fbs
  end.

(** The end of the last block of [fbs], or [e]. *)
Fixpoint end_of (e : Z) (fbs : list range) : Z :=
  match fbs with
  | [] => e
  | (o, z) :: fbs => end_of (o + z) fbs
  end.

(** The chain of a page whose b-tree header is at [off]. *)
Definition chain (off : Z) (b : list Z) (fbs : list range) (q : Z) : Prop :=
  r16 b (off + 1) = head_of q fbs /\ blocks b fbs q.

(** The last block of a prefix of the chain, and where the link behind it is stored. *)
Definition prev_of (pre : list range) : option Z := fst <$> last pre.
Definition link_of (off : Z) (pre : list range) : Z := default (off + 1) (prev_of pre).

(** The size of the b-tree header. *)
Definition hdr (t : PageType) : Z :=
  match t with IndexInterior | TableInterior => 12 | IndexLeaf | TableLeaf => 8 end.

(** * The free space of a page *)

(** The buffer [b] of a page whose b-tree header is at [off]: its content area starts
    at [cca], has [frag] fragmented bytes, the freeblocks [fbs] and the other ranges
    [rs]. *)
Record free_ok (off usable lo : Z) (b : list Z) (cca frag : Z) (fbs rs : list range) : Prop := {
  fo_bytes : bytes_ok b;
  fo_len : usable <= len b <= 65536;
  fo_off : 0 <= off /\ off + 8 <= lo;
  fo_cca : r16 b (off + 5) = wrap 16 cca;
  fo_frag : byte b (off + 7) = frag;
  fo_chain : chain off b fbs 0;
  fo_asc : ascending (-4) fbs;
  fo_space : space_ok lo usable cca frag (fbs ++ rs);
}.

(** [b'] differs from [b] only in the free-space fields of the header and in [rs]. *)
Definition touched (off : Z) (rs : list range) (k : Z) : Prop :=
  off + 1 <= k < off + 3 \/ off + 5 <= k < off + 8 \/ k ∈ spans rs.
Definition frame (off : Z) (rs : list range) (b b' : list Z) : Prop :=
  len b' = len b /\ forall k, ~ touched off rs k -> byte b' k = byte b k.

(** * Lemmas on chains *)

Lemma blocks_app b pre post q :
  blocks b (pre ++ post) q <-> blocks b pre (head_of q post) /\ blocks b post q.
Proof.
  induction pre as [|[o z] pre IH]; simpl; [tauto|]. rewrite IH.
  assert (head_of q (pre ++ post) = head_of (head_of q post) pre) as -> by by destruct pre as [|[??]?].
  tauto.
Qed.

Lemma blocks_in b fbs q o z : blocks b fbs q -> (o, z) ∈ fbs -> r16 b (o + 2) = z.
Proof.
  induction fbs as [|[o' z'] fbs IH]; intros Hb Hin; [by apply elem_of_nil in Hin|].
  simpl in Hb. apply elem_of_cons in Hin as [[= -> ->]|Hin]; [tauto|]. apply IH; tauto.
Qed.

Lemma blocks_frame b b' fbs q :
  (forall o z, (o, z) ∈ fbs -> r16 b' o = r16 b o /\ r16 b' (o + 2) = r16 b (o + 2)) ->
  blocks b fbs q -> blocks b' fbs q.
Proof.
  induction fbs as [|[o z] fbs IH]; intros Hf; [done|]. simpl. intros (H1 & H2 & H3).
  destruct (Hf o z ltac:(by left)) as [-> ->]. split_and!; try done.
  apply IH; [|done]. intros o' z' Hin. apply (Hf o' z'). by right.
Qed.

Lemma ascending_mono e e' fbs : e' <= e -> ascending e fbs -> ascending e' fbs.
Proof. destruct fbs as [|[o z] fbs]; [done|]. simpl. intros ? []. split; [lia|done]. Qed.

Lemma ascending_in e fbs o z :
  ascending e fbs -> Forall (fun r => 4 <= snd r) fbs -> (o, z) ∈ fbs -> e + 3 < o.
Proof.
  revert e. induction fbs as [|[o' z'] fbs IH]; intros e Ha Hs Hin; [by apply elem_of_nil in Hin|].
  simpl in Ha. inversion Hs; subst. simpl in *. apply elem_of_cons in Hin as [[= -> ->]|Hin]; [lia|].
  pose proof (IH _ (proj2 Ha) ltac:(done) Hin). lia.
Qed.

Lemma ascending_app e pre post :
  ascending e (pre ++ post) <-> ascending e pre /\ ascending (end_of e pre) post.
Proof. revert e. induction pre as [|[o z] pre IH]; intros e; simpl; [tauto|]. rewrite IH. tauto. Qed.
Lemma end_of_snoc e pre o z : end_of e (pre ++ [(o, z)]) = o + z.
Proof. revert e. by induction pre as [|[??] pre IH]; intros e; simpl. Qed.

Lemma ascending_before e pre o z post o' z' :
  ascending e (pre ++ (o, z) :: post) -> Forall (fun r => 4 <= snd r) (pre ++ (o, z) :: post) ->
  (o', z') ∈ pre -> o' + z' + 3 < o.
Proof.
  revert e. induction pre as [|[o1 z1] pre IH]; intros e Ha Hs Hin; [by apply elem_of_nil in Hin|].
  simpl in *. inversion Hs; subst. apply elem_of_cons in Hin as [[= -> ->]|Hin]; [|by eapply IH; [apply Ha|..]].
  apply (ascending_in _ (pre ++ (o, z) :: post) o z); [tauto|done|]. apply elem_of_app. right. by left.
Qed.

Lemma ascending_after e pre o z post o' z' :
  ascending e (pre ++ (o, z) :: post) -> Forall (fun r => 4 <= snd r) (pre ++ (o, z) :: post) ->
  (o', z') ∈ post -> o + z + 3 < o'.
Proof.
  revert e. induction pre as [|[o1 z1] pre IH]; intros e Ha Hs Hin; simpl in *.
  - inversion Hs; subst. apply (ascending_in _ post o' z'); tauto.
  - inversion Hs; subst. by eapply IH; [apply Ha|..].
Qed.

(** * Reading and writing the header *)

Lemma wrap16_cca v : 0 < v <= 65536 -> (if wrap 16 v =? 0 then PageSize_MAX else wrap 16 v) = v.
Proof.
  intros Hv. unfold wrap, PageSize_MAX. destruct (Z.eq_dec v 65536) as [->|Hn]; [done|].
  rewrite Z.mod_small by lia. zcases; lia.
Qed.

Section run.
Context (p : PageContent).

Lemma run_read16 b pos : 0 <= pos -> pos + 2 <= len b ->
  rd (fun p => read_u16_no_offset p pos) (set_buf p b) = (Ok (r16 b pos), set_buf p b).
Proof. intros. apply rd_ok. by apply u16_at_r16. Qed.
Lemma run_read_freeblock b pos : 0 <= pos -> pos + 4 <= len b ->
  rd (fun p => read_freeblock p pos) (set_buf p b) = (Ok (r16 b pos, r16 b (pos + 2)), set_buf p b).
Proof.
  intros. apply rd_ok. unfold read_freeblock, read_u16_no_offset. simpl. rewrite !u16_at_r16 by lia. done.
Qed.
Lemma run_write16 b pos v : 0 <= pos -> pos + 2 <= len b ->
  write_u16_no_offset pos v (set_buf p b) = (Ok tt, set_buf p (splice_ b pos (be_bytes 2 v))).
Proof. intros. unfold write_u16_no_offset. erewrite wr_ok; [done|]. apply write_at_ok; rewrite ?len_be2; lia. Qed.
Lemma run_write_hdr16 b pos v : 0 <= offset p + pos -> offset p + pos + 2 <= len b ->
  write_u16 pos v (set_buf p b) = (Ok tt, set_buf p (splice_ b (offset p + pos) (be_bytes 2 v))).
Proof. intros. unfold write_u16. erewrite wr_ok; [done|]. apply write_at_ok; rewrite ?len_be2; simpl; lia. Qed.
Lemma run_write_hdr8 b pos v : 0 <= offset p + pos < len b ->
  write_u8 pos v (set_buf p b) = (Ok tt, set_buf p (splice_ b (offset p + pos) [v])).
Proof. intros. unfold write_u8. erewrite wr_ok; [done|]. by apply set_at_splice. Qed.
Lemma run_write_frag b v : 0 <= offset p -> offset p + 8 <= len b ->
  write_fragmented_bytes_count v (set_buf p b) = (Ok tt, set_buf p (splice_ b (offset p + 7) [v])).
Proof. intros. apply run_write_hdr8. unfold BTREE_FRAGMENTED_BYTES_COUNT. lia. Qed.
Lemma run_write_first b v : 0 <= offset p -> offset p + 8 <= len b ->
  write_first_freeblock v (set_buf p b) = (Ok tt, set_buf p (splice_ b (offset p + 1) (be_bytes 2 v))).
Proof. intros. apply run_write_hdr16; unfold BTREE_FIRST_FREEBLOCK; lia. Qed.
Lemma run_write_count b v : 0 <= offset p -> offset p + 8 <= len b ->
  write_cell_count v (set_buf p b) = (Ok tt, set_buf p (splice_ b (offset p + 3) (be_bytes 2 v))).
Proof. intros. apply run_write_hdr16; unfold BTREE_CELL_COUNT; lia. Qed.
Lemma run_write_cca b v : 0 <= v <= 65536 -> 0 <= offset p -> offset p + 8 <= len b ->
  write_cell_content_area v (set_buf p b) =
    (Ok tt, set_buf p (splice_ b (offset p + 5) (be_bytes 2 (wrap 16 v)))).
Proof.
  intros. unfold write_cell_content_area. erewrite pbind_eq by (apply passert_ok, Z.leb_le; unfold PageSize_MAX; lia).
  by apply run_write_hdr16; unfold BTREE_CELL_CONTENT_AREA; lia.
Qed.

Lemma run_first b : 0 <= offset p -> offset p + 8 <= len b ->
  rd first_freeblock (set_buf p b) = (Ok (r16 b (offset p + 1)), set_buf p b).
Proof. intros. apply rd_ok. apply u16_at_r16; simpl; lia. Qed.
Lemma run_count b : 0 <= offset p -> offset p + 8 <= len b ->
  rd cell_count (set_buf p b) = (Ok (r16 b (offset p + 3)), set_buf p b).
Proof. intros. apply rd_ok. apply u16_at_r16; simpl; lia. Qed.
Lemma run_frag b : 0 <= offset p -> offset p + 8 <= len b ->
  rd num_frag_free_bytes (set_buf p b) = (Ok (byte b (offset p + 7)), set_buf p b).
Proof. intros. apply rd_ok. apply at_byte; simpl; lia. Qed.
Lemma run_cca b cca : 0 <= offset p -> offset p + 8 <= len b -> r16 b (offset p + 5) = wrap 16 cca ->
  0 < cca <= 65536 -> rd cell_content_area (set_buf p b) = (Ok cca, set_buf p b).
Proof.
  intros H0 H1 H2 H3. apply rd_ok. unfold cell_content_area, read_u16. simpl.
  change (offset (set_buf p b)) with (offset p). unfold BTREE_CELL_CONTENT_AREA.
  rewrite u16_at_r16 by lia. rstep. by rewrite H2, wrap16_cca.
Qed.
Lemma run_to_u16 v q : 0 <= v < 65536 -> to_u16 v q = (Ok v, q).
Proof. intros. unfold to_u16. erewrite pbind_eq by (apply passert_ok; zcases; done || lia). done. Qed.
Lemma run_to_u8 v q : 0 <= v < 256 -> to_u8 v q = (Ok v, q).
Proof. intros. unfold to_u8. erewrite pbind_eq by (apply passert_ok; zcases; done || lia). done. Qed.
End run.

(** Run the first action of a page computation with a lemma. *)
Ltac step lem := erewrite pbind_eq; [|eapply lem; first [lia | eassumption | idtac]]; cbv beta iota zeta.
(** Pass a check that does not fail. *)
Ltac pass :=
  erewrite pbind_eq;
    [| first [apply corrupt_if_ok | apply passert_ok]; cbv beta iota; zcases; try done; try lia];
  cbv beta iota zeta.

(** * Frames *)

Lemma frame_refl off rs b : frame off rs b b.
Proof. by split. Qed.
Lemma frame_trans off rs b1 b2 b3 : frame off rs b1 b2 -> frame off rs b2 b3 -> frame off rs b1 b3.
Proof. intros [H1 H2] [H3 H4]. split; [congruence|]. intros k Hk. by rewrite H4, H2. Qed.
Lemma frame_splice off rs b b' i s :
  frame off rs b b' -> 0 <= i -> i + len s <= len b ->
  (forall k, i <= k < i + len s -> touched off rs k) -> frame off rs b (splice_ b' i s).
Proof.
  intros [H1 H2] Hi Hl Ht. split; [rewrite len_splice_; lia|]. intros k Hk.
  rewrite byte_splice_other, H2; try lia; [done|].
  destruct (Z.ltb_spec k i); [by left|]. destruct (Z.leb_spec (i + len s) k); [by right|].
  exfalso. apply Hk, Ht. lia.
Qed.
Lemma frame_r16 off rs b b' k :
  frame off rs b b' -> ~ touched off rs k -> ~ touched off rs (k + 1) -> r16 b' k = r16 b k.
Proof. intros [_ H] ??. unfold r16. by rewrite !H. Qed.

(** * Facts of [free_ok] *)

Section free.
Context {off usable lo : Z} {b : list Z} {cca frag : Z} {fbs rs : list range}.
Context (Hok : free_ok off usable lo b cca frag fbs rs).

Lemma fo_bounds : 0 <= off /\ off + 8 <= lo /\ lo <= cca /\ cca <= usable /\ usable <= len b /\ len b <= 65536.
Proof. destruct Hok as [_ ? ? _ _ _ _ Hs]. destruct Hs as [? _ _ _ _ _]. lia. Qed.
Lemma fo_sizes : Forall (fun r => 4 <= snd r) fbs.
Proof. pose proof (so_sizes _ _ _ _ _ (fo_space _ _ _ _ _ _ _ _ Hok)) as H. by apply Forall_app in H as [? _]. Qed.
Lemma fo_block o z : (o, z) ∈ fbs -> 4 <= z /\ cca <= o /\ o + z <= usable.
Proof. intros Hin. eapply space_range; [apply Hok|]. apply elem_of_app. by left. Qed.
Lemma fo_range o z : (o, z) ∈ rs -> 4 <= z /\ cca <= o /\ o + z <= usable.
Proof. intros Hin. eapply space_range; [apply Hok|]. apply elem_of_app. by right. Qed.
Lemma fo_total : frag + total fbs + total rs = usable - cca /\ 0 <= total fbs /\ 0 <= total rs.
Proof.
  destruct Hok as [_ _ _ _ _ _ _ Hs]. pose proof (so_total _ _ _ _ _ Hs) as Ht. rewrite total_app in Ht.
  pose proof (so_sizes _ _ _ _ _ Hs) as Hz. apply Forall_app in Hz as [Hz1 Hz2].
  apply total_nonneg in Hz1. apply total_nonneg in Hz2. lia.
Qed.
Lemma fo_frag_range : 0 <= frag < 256.
Proof. rewrite <- (fo_frag _ _ _ _ _ _ _ _ Hok). apply byte_range, Hok. Qed.
End free.

Lemma length_total rs : Forall (fun r => 4 <= snd r) rs -> 4 * Z.of_nat (length rs) <= total rs.
Proof. induction 1 as [|[o z] rs Hz _ IH]; simpl in *; lia. Qed.

(** * [compute_free_space] *)

Lemma free_space_loop_ok p b usable fuel o z fbs acc e :
  usable <= len b -> 0 <= e + 3 -> blocks b ((o, z) :: fbs) 0 -> ascending e ((o, z) :: fbs) ->
  (forall o' z', (o', z') ∈ (o, z) :: fbs -> 4 <= z' /\ o' + z' <= usable) ->
  (length fbs < fuel)%nat ->
  free_space_loop fuel usable o acc (set_buf p b) = (Ok (acc + total ((o, z) :: fbs)), set_buf p b).
Proof.
  revert o z fbs acc e. induction fuel as [|fuel IH]; intros o z fbs acc e Hl He Hb Ha Hr Hf; [lia|].
  destruct (Hr o z ltac:(by left)) as [Hz Ho]. simpl in Hb, Ha. destruct Hb as (Hn & Hsz & Hb).
  cbn [free_space_loop]. pass. step run_read16. step run_read16. rewrite Hsz, Hn. pass. pass.
  destruct fbs as [|[o' z'] fbs]; simpl.
  - unfold mret, ST_ret. do 2 f_equal. lia.
  - simpl in Ha. destruct (Z.eqb_spec o' 0); [lia|]. pass. erewrite IH with (e := o + z) (z := z'); [|done|lia|done|simpl; tauto| |simpl in Hf; lia].
    + simpl. do 2 f_equal. lia.
    + intros o'' z'' Hin. apply Hr. by right.
Qed.

Lemma run_header_size p b t : 0 <= offset p < len b -> byte b (offset p) = page_type_u8 t ->
  rd header_size (set_buf p b) =
    (Ok (hdr t), set_buf p b).
Proof.
  intros H0 H1. apply rd_ok. unfold header_size, read_u8. change (offset (set_buf p b)) with (offset p).
  cbn [buf set_buf]. unfold BTREE_PAGE_TYPE. rewrite Z.add_0_r, at_byte, H1 by done. by destruct t.
Qed.

Lemma compute_free_space_free p b t n usable cca frag fbs rs :
  byte b (offset p) = page_type_u8 t -> r16 b (offset p + 3) = n ->
  free_ok (offset p) usable (offset p + hdr t + 2 * n) b cca frag fbs rs ->
  compute_free_space usable (set_buf p b) =
    (Ok (usable - (offset p + hdr t + 2 * n) - total rs), set_buf p b).
Proof.
  intros Ht Hn Hok. pose proof (fo_bounds Hok). pose proof (fo_total Hok). pose proof (fo_frag_range Hok).
  pose proof (fo_cca _ _ _ _ _ _ _ _ Hok). unfold compute_free_space.
  erewrite pbind_eq by (apply rd_ok; reflexivity). change (offset (set_buf p b)) with (offset p).
  step run_header_size. step run_count. rewrite Hn. pass.
  step run_cca. pass. step run_frag. rewrite (fo_frag _ _ _ _ _ _ _ _ Hok).
  destruct (fo_chain _ _ _ _ _ _ _ _ Hok) as [Hfirst Hblocks]. step run_first. rewrite Hfirst.
  erewrite pbind_eq with (a := cca + frag + total fbs).
  { pass. pass. unfold mret, ST_ret. do 2 f_equal. lia. }
  destruct fbs as [|[o z] fbs]; cbn [head_of].
  - simpl. unfold mret, ST_ret. do 2 f_equal. lia.
  - pose proof (fo_block Hok o z ltac:(by left)). destruct (Z.ltb_spec 0 o); [|lia]. pass.
    apply free_space_loop_ok with (e := -3); [lia|lia|done| | |].
    + pose proof (fo_asc _ _ _ _ _ _ _ _ Hok) as Ha. simpl in *. split; [lia|tauto].
    + intros o' z' Hin. pose proof (fo_block Hok o' z' Hin). lia.
    + pose proof (length_total _ (fo_sizes Hok)) as Hlt. simpl in Hlt, H0. lia.
Qed.

(** * Relinking the chain *)

Lemma head_of_app q pre post : head_of q (pre ++ post) = head_of (head_of q post) pre.
Proof. by destruct pre as [|[??]?]. Qed.
Lemma chain_app off b pre post q :
  chain off b (pre ++ post) q <-> chain off b pre (head_of q post) /\ blocks b post q.
Proof. unfold chain. rewrite blocks_app, head_of_app. tauto. Qed.

(** The blocks are behind the header and inside the buffer. *)
Definition placed (off : Z) (b : list Z) (fbs : list range) : Prop :=
  0 <= off /\ ascending (off + 4) fbs /\ Forall (fun r => 4 <= snd r) fbs /\
  forall o z, (o, z) ∈ fbs -> o + z <= len b.

Lemma placed_app off b pre post : placed off b (pre ++ post) -> placed off b pre.
Proof.
  intros (H0 & H1 & H2 & H3). apply ascending_app in H1. apply Forall_app in H2.
  split_and!; [done|tauto..|]. intros o z Hin. apply (H3 o z). apply elem_of_app. by left.
Qed.

Lemma link_of_bounds off b pre : placed off b pre -> off + 8 <= len b ->
  off + 1 <= link_of off pre /\ link_of off pre + 2 <= len b.
Proof.
  intros (H0 & H1 & H2 & H3) Hl. unfold link_of, prev_of. destruct pre as [|[o z] pre _] using rev_ind; simpl; [lia|].
  rewrite last_snoc. simpl. pose proof (ascending_in _ _ o z H1 H2 ltac:(apply elem_of_app; right; by left)).
  pose proof (H3 o z ltac:(apply elem_of_app; right; by left)).
  apply Forall_app in H2 as [_ H2]. inversion H2; subst. simpl in *. lia.
Qed.

Lemma chain_relink off b pre q v :
  placed off b pre -> off + 8 <= len b -> is_u 16 v -> chain off b pre q ->
  chain off (splice_ b (link_of off pre) (be_bytes 2 v)) pre v.
Proof.
  intros Hp Hl Hv. pose proof (link_of_bounds _ _ _ Hp Hl) as Hlk. unfold link_of, prev_of in *.
  destruct Hp as (H0 & H1 & H2 & H3). destruct pre as [|[o z] pre _] using rev_ind; simpl in *.
  - intros _. split; [|done]. simpl. apply r16_splice_same; lia || done.
  - rewrite last_snoc in *. simpl in *. rewrite !chain_app. simpl. intros ([Hc1 Hc2] & Hn & Hs & _).
    pose proof (ascending_in _ _ o z H1 H2 ltac:(apply elem_of_app; right; by left)).
    pose proof (H3 o z ltac:(apply elem_of_app; right; by left)).
    assert (4 <= z) by (apply Forall_app in H2 as [_ H2]; by inversion H2).
    split; [split|split_and!; [|rewrite r16_splice_other; rewrite ?len_be2; lia || done|done]].
    + rewrite r16_splice_other; rewrite ?len_be2; lia || done.
    + eapply blocks_frame; [|done]. intros o' z' Hin.
      pose proof (ascending_before _ _ _ _ _ _ _ H1 H2 Hin).
      assert (4 <= z') by (apply Forall_app in H2 as [H2 _]; by apply (sizes_in pre (o', z'))).
      rewrite !r16_splice_other; rewrite ?len_be2; lia || done.
    + apply r16_splice_same; lia || done.
Qed.

Lemma blocks_splice b i s fbs q :
  blocks b fbs q -> 0 <= i -> i + len s <= len b ->
  (forall o z, (o, z) ∈ fbs -> o + 4 <= i \/ i + len s <= o) -> blocks (splice_ b i s) fbs q.
Proof.
  intros Hb Hi Hl Hf. eapply blocks_frame; [|done]. intros o z Hin. specialize (Hf o z Hin).
  rewrite !r16_splice_other by lia. done.
Qed.
Lemma chain_splice off b i s fbs q :
  chain off b fbs q -> 0 <= i -> i + len s <= len b -> off + 3 <= i \/ i + len s <= off + 1 ->
  (forall o z, (o, z) ∈ fbs -> o + 4 <= i \/ i + len s <= o) -> chain off (splice_ b i s) fbs q.
Proof.
  intros [Hc1 Hc2] Hi Hl Ho Hf. split; [rewrite r16_splice_other by lia; done|]. by apply blocks_splice.
Qed.

Lemma run_relink p b pre v :
  0 <= offset p -> link_of (offset p) pre + 2 <= len b -> 0 <= link_of (offset p) pre ->
  (match prev_of pre with
   | Some prev => write_u16_no_offset prev v
   | None => write_first_freeblock v
   end) (set_buf p b) = (Ok tt, set_buf p (splice_ b (link_of (offset p) pre) (be_bytes 2 v))).
Proof.
  intros H0 H1 H2. unfold link_of in *. destruct (prev_of pre) as [prev|]; simpl in *.
  - by apply run_write16.
  - by apply run_write_hdr16.
Qed.

Section free_chain.
Context {off usable lo : Z} {b : list Z} {cca frag : Z} {rs : list range}.

Lemma fo_placed fbs : free_ok off usable lo b cca frag fbs rs -> placed off b fbs.
Proof.
  intros Hok. pose proof (fo_bounds Hok). split_and!; [lia| |by eapply fo_sizes|].
  - pose proof (fo_asc _ _ _ _ _ _ _ _ Hok) as Ha. destruct fbs as [|[o z] fbs]; [done|]. simpl in *.
    pose proof (fo_block Hok o z ltac:(by left)). split; [lia|tauto].
  - intros o z Hin. pose proof (fo_block Hok o z Hin). lia.
Qed.

Lemma fo_mid pre o z post :
  free_ok off usable lo b cca frag (pre ++ (o, z) :: post) rs ->
  chain off b pre o /\ r16 b o = head_of 0 post /\ r16 b (o + 2) = z /\ blocks b post 0 /\
  placed off b pre /\ 4 <= z /\ cca <= o /\ o + z <= usable /\
  (forall o' z', (o', z') ∈ pre -> 4 <= z' /\ cca <= o' /\ o' + z' + 3 < o) /\
  (forall o' z', (o', z') ∈ post -> 4 <= z' /\ o + z + 3 < o' /\ o' + z' <= usable).
Proof.
  intros Hok. pose proof (fo_chain _ _ _ _ _ _ _ _ Hok) as Hc. apply chain_app in Hc as [Hc Hb]. simpl in Hc, Hb.
  pose proof (fo_block Hok o z ltac:(apply elem_of_app; right; by left)).
  pose proof (fo_asc _ _ _ _ _ _ _ _ Hok) as Ha. pose proof (fo_sizes Hok) as Hs.
  split_and!; try tauto.
  - by eapply placed_app, fo_placed.
  - intros o' z' Hin. pose proof (ascending_before _ _ _ _ _ _ _ Ha Hs Hin).
    pose proof (fo_block Hok o' z' ltac:(apply elem_of_app; by left)). lia.
  - intros o' z' Hin. pose proof (ascending_after _ _ _ _ _ _ _ Ha Hs Hin).
    pose proof (fo_block Hok o' z' ltac:(apply elem_of_app; right; by right)). lia.
Qed.
End free_chain.

Lemma head_of_range (fbs : list range) (lim : Z) :
  0 <= lim -> (forall o z, (o, z) ∈ fbs -> 0 <= o < lim + 1) -> 0 <= head_of 0 fbs <= lim.
Proof. intros Hl H. destruct fbs as [|[o z] fbs]; simpl; [lia|]. pose proof (H o z ltac:(by left)). lia. Qed.

(** * [find_free_slot] *)

(** Taking [amount] bytes from the end of a block that stays a freeblock. *)
Lemma free_ok_shrink off usable lo b cca frag pre o z post rs amount :
  free_ok off usable lo b cca frag (pre ++ (o, z) :: post) rs -> 4 <= amount -> 4 <= z - amount ->
  free_ok off usable lo (splice_ b (o + 2) (be_bytes 2 (z - amount))) cca frag
    (pre ++ (o, z - amount) :: post) ((o + (z - amount), amount) :: rs).
Proof.
  intros Hok Ha Hz. pose proof (fo_bounds Hok). pose proof (fo_mid _ _ _ _ Hok) as (Hc & Hn & Hs & Hb & Hp & H4 & H5 & H6 & Hpre & Hpost).
  pose proof Hok as [F1 F2 F3 F4 F5 F6 F7 F8].
  assert (is_u 16 (z - amount)) by (unfold is_u; lia).
  split; [by auto with turso|rewrite len_splice_; rewrite ?len_be2; lia|done| | | | |].
  - rewrite r16_splice_other; rewrite ?len_be2; lia || done.
  - rewrite byte_splice_other; rewrite ?len_be2; lia || done.
  - apply chain_app. split; [|split_and!].
    + apply chain_splice; rewrite ?len_be2; try lia; [done|]. intros o' z' Hin. apply Hpre in Hin. lia.
    + rewrite r16_splice_other; rewrite ?len_be2; lia || done.
    + apply r16_splice_same; lia || done.
    + apply blocks_splice; rewrite ?len_be2; try lia; [done|]. intros o' z' Hin. apply Hpost in Hin. lia.
  - rewrite ascending_app in *. simpl in *. split_and!; try tauto. eapply ascending_mono; [|apply F7]. lia.
  - eapply space_perm; [|apply (space_split _ _ cca frag o z amount (pre ++ post ++ rs)); try lia].
    + solve_Permutation.
    + eapply space_perm; [|exact F8]. solve_Permutation.
Qed.

Lemma prev_of_in pre o : prev_of pre = Some o -> exists z, (o, z) ∈ pre.
Proof.
  unfold prev_of. intros Hl. apply fmap_Some in Hl as ([o' z] & Hl & ->). exists z. by apply last_Some_elem_of.
Qed.

Lemma link_of_in off (pre : list range) :
  link_of off pre = off + 1 \/ exists z, (link_of off pre, z) ∈ pre.
Proof.
  unfold link_of. destruct (prev_of pre) as [o|] eqn:Hl; simpl; [right|by left]. by apply prev_of_in.
Qed.

(** The header fields but the link to the chain, after a relink. *)
Lemma relink_header off usable lo b cca frag pre post rs v :
  free_ok off usable lo b cca frag (pre ++ post) rs ->
  let b' := splice_ b (link_of off pre) (be_bytes 2 v) in
  bytes_ok b' /\ len b' = len b /\ r16 b' (off + 5) = wrap 16 cca /\ byte b' (off + 7) = frag /\
  frame off (pre ++ post) b b'.
Proof.
  intros Hok b'. pose proof (fo_bounds Hok). pose proof (fo_placed _ Hok) as Hp. apply placed_app in Hp.
  pose proof (link_of_bounds _ _ _ Hp ltac:(lia)) as Hl. pose proof Hok as [F1 F2 F3 F4 F5 F6 F7 F8].
  assert (link_of off pre = off + 1 \/ off + 8 <= link_of off pre) as Hpl.
  { destruct (link_of_in off pre) as [|[z Hz]]; [by left|right].
    pose proof (fo_block Hok _ _ ltac:(apply elem_of_app; left; exact Hz)). lia. }
  subst b'. split_and!.
  - auto with turso.
  - rewrite len_splice_; rewrite ?len_be2; lia.
  - rewrite r16_splice_other; rewrite ?len_be2; lia || done.
  - rewrite byte_splice_other; rewrite ?len_be2; lia || done.
  - apply frame_splice; rewrite ?len_be2; try lia; [apply frame_refl|]. intros k Hk.
    destruct (link_of_in off pre) as [Heq|[z Hz]]; [left; lia|]. right. right. apply elem_of_spans.
    exists (link_of off pre), z. pose proof (fo_block Hok _ _ ltac:(apply elem_of_app; left; exact Hz)).
    split; [apply elem_of_app; by left|lia].
Qed.

(** Taking a whole block; the bytes beyond [amount] become fragments. *)
Lemma free_ok_take off usable lo b cca frag pre o z post rs amount :
  free_ok off usable lo b cca frag (pre ++ (o, z) :: post) rs ->
  4 <= amount <= z -> frag + (z - amount) < 256 ->
  let b1 := splice_ b (link_of off pre) (be_bytes 2 (head_of 0 post)) in
  let b2 := splice_ b1 (off + 7) [frag + (z - amount)] in
  free_ok off usable lo b2 cca (frag + (z - amount)) (pre ++ post) ((o, amount) :: rs) /\
  frame off (pre ++ (o, z) :: post) b b2.
Proof.
  intros Hok Ha Hz b1 b2. pose proof (fo_bounds Hok). pose proof (fo_frag_range Hok).
  pose proof (fo_mid _ _ _ _ Hok) as (Hc & Hn & Hs & Hb & Hp & H4 & H5 & H6 & Hpre & Hpost).
  destruct (relink_header _ _ _ _ _ _ _ _ _ (head_of 0 post) Hok) as (R1 & R2 & R3 & R4 & R5). fold b1 in R1, R2, R3, R4, R5.
  pose proof Hok as [F1 F2 F3 F4 F5 F6 F7 F8]. pose proof (link_of_bounds _ _ _ Hp ltac:(lia)) as Hl.
  assert (0 <= head_of 0 post <= 65535) as Hh.
  { apply head_of_range; [lia|]. intros o' z' Hin. apply Hpost in Hin. lia. }
  assert (bytes_ok [frag + (z - amount)]) by (repeat constructor; lia).
  assert (len [frag + (z - amount)] = 1) as L1 by done.
  split.
  - split; [by apply splice_bytes_ok|unfold b2; rewrite len_splice_; lia|done| | | | |].
    + unfold b2. rewrite r16_splice_other by lia. done.
    + unfold b2. rewrite byte_splice_in by lia. by rewrite Z.sub_diag.
    + unfold b2. apply chain_splice; try lia.
      * apply chain_app. split; [apply chain_relink with o; [done|lia|unfold is_u; lia|done]|].
        apply blocks_splice; rewrite ?len_be2; try lia; [done|].
        intros o' z' Hin. apply Hpost in Hin. destruct (link_of_in off pre) as [->|[z1 Hz1]]; [lia|].
        apply Hpre in Hz1. lia.
      * intros o' z' Hin. apply elem_of_app in Hin as [Hin|Hin]; [apply Hpre in Hin|apply Hpost in Hin]; lia.
    + rewrite ascending_app in *. simpl in F7. split; [tauto|]. destruct F7 as (_ & F7 & F7').
      eapply ascending_mono; [|exact F7']. lia.
    + eapply space_perm; [|apply (space_shrink _ _ cca frag o z amount (pre ++ post ++ rs)); try lia].
      * solve_Permutation.
      * eapply space_perm; [|exact F8]. solve_Permutation.
  - apply frame_splice; try lia; [done|]. intros k Hk. right. left. lia.
Qed.

(** What an allocation from the freeblocks gives. *)
Definition slot_spec (off usable lo : Z) (b : list Z) (cca : Z) (fbs rs : list range) (amount : Z)
    (r : option Z) (b' : list Z) : Prop :=
  match r with
  | None => b' = b
  | Some pc => exists frag' fbs',
      free_ok off usable lo b' cca frag' fbs' ((pc, amount) :: rs) /\ frame off fbs b b'
  end.

Lemma find_free_slot_loop_ok p usable lo b cca frag rs amount fuel pre o z post :
  free_ok (offset p) usable lo b cca frag (pre ++ (o, z) :: post) rs -> 4 <= amount <= usable ->
  (length post < fuel)%nat ->
  exists r b',
    find_free_slot_loop fuel usable amount (usable - amount) (prev_of pre) (Some o) (set_buf p b) =
      (Ok r, set_buf p b') /\
    slot_spec (offset p) usable lo b cca (pre ++ (o, z) :: post) rs amount r b'.
Proof.
  revert pre o z post. induction fuel as [|fuel IH]; intros pre o z post Hok Ha Hf; [lia|].
  pose proof (fo_bounds Hok). pose proof (fo_frag_range Hok) as Hfr.
  pose proof (fo_mid _ _ _ _ Hok) as (Hc & Hn & Hs & Hb & Hp & H4 & H5 & H6 & Hpre & Hpost).
  cbn [find_free_slot_loop]. unfold CELL_SIZE_MIN. pass. step run_to_u16. step run_read_freeblock. rewrite Hn, Hs.
  destruct (Z.ltb_spec z amount) as [Hlt|Hge].
  { destruct post as [|[o' z'] post]; cbn [head_of].
    - simpl. by eexists None, b.
    - pose proof (Hpost o' z' ltac:(by left)). destruct (Z.eqb_spec o' 0); [lia|]. pass.
      assert (pre ++ (o, z) :: (o', z') :: post = (pre ++ [(o, z)]) ++ (o', z') :: post) as Heq
        by (by rewrite <- app_assoc).
      rewrite Heq in *. specialize (IH (pre ++ [(o, z)]) o' z' post Hok Ha ltac:(simpl in Hf; lia)).
      unfold prev_of in IH at 1. by rewrite last_snoc in IH. }
  destruct (Z.ltb_spec (z - amount) 4) as [Hsm|Hbig].
  - step run_frag. rewrite (fo_frag _ _ _ _ _ _ _ _ Hok). destruct (Z.ltb_spec 57 frag); [by eexists None, b|].
    destruct (free_ok_take _ _ _ _ _ _ _ _ _ _ _ amount Hok ltac:(lia) ltac:(lia)) as [Hok' Hfr'].
    destruct (relink_header _ _ _ _ _ _ _ _ _ (head_of 0 post) Hok) as (_ & R2 & _ & R4 & _).
    pose proof (link_of_bounds _ _ _ Hp ltac:(lia)) as Hl.
    assert (0 <= head_of 0 post <= 65535) as Hh.
    { apply head_of_range; [lia|]. intros o' z' Hin. apply Hpost in Hin. lia. }
    eexists (Some o), _. split; [|simpl; eauto].
    erewrite pbind_eq with (a := tt).
    2: { etransitivity; [|apply (run_relink p b pre (head_of 0 post)); lia]. unfold write_freeblock_next_ptr.
         destruct (prev_of pre) as [o1|] eqn:Hlast.
         - apply prev_of_in in Hlast as [z1 Hin]. apply Hpre in Hin.
           step run_to_u16. step run_to_u16. done.
         - step run_to_u16. done. }
    step run_to_u8. step run_frag. rewrite R4. step run_to_u8. step run_write_frag. done.
  - destruct (Z.ltb_spec (usable - amount) (z - amount + o)); [lia|].
    step run_to_u16. step run_to_u16. unfold write_freeblock_size. step run_write16.
    exists (Some (o + (z - amount))). eexists. split; [reflexivity|].
    exists frag. eexists. split; [apply free_ok_shrink; [done|lia..]|].
    apply frame_splice; rewrite ?len_be2; try lia; [apply frame_refl|]. intros k Hk. right. right.
    apply elem_of_spans. exists o, z. split; [apply elem_of_app; right; by left|lia].
Qed.

Lemma find_free_slot_ok p usable lo b cca frag fbs rs amount :
  free_ok (offset p) usable lo b cca frag fbs rs -> 4 <= amount <= usable ->
  exists r b', find_free_slot usable amount (set_buf p b) = (Ok r, set_buf p b') /\
    slot_spec (offset p) usable lo b cca fbs rs amount r b'.
Proof.
  intros Hok Ha. pose proof (fo_bounds Hok). pose proof (fo_total Hok). pose proof (fo_frag_range Hok).
  pose proof (fo_chain _ _ _ _ _ _ _ _ Hok) as [Hf Hb]. unfold find_free_slot. step run_first. rewrite Hf.
  erewrite pbind_eq by (apply plift_ok; unfold usub; zcases; [reflexivity|lia]).
  destruct fbs as [|[o z] fbs].
  - exists None, b. split; [|done]. by destruct (Z.to_nat usable).
  - pose proof (fo_block Hok o z ltac:(by left)). unfold nonzero. cbn [head_of]. destruct (Z.eqb_spec o 0); [lia|].
    apply (find_free_slot_loop_ok p usable lo b cca frag rs amount _ [] o z fbs Hok Ha).
    pose proof (length_total _ (fo_sizes Hok)) as Hl. simpl in Hl, H0. lia.
Qed.

(** * [free_cell_range] *)

Definition next_of (post : list range) : option Z := fst <$> head post.

Lemma nonzero_head_of (fbs : list range) :
  (forall o z, (o, z) ∈ fbs -> 0 < o) -> nonzero (head_of 0 fbs) = next_of fbs.
Proof.
  intros H. destruct fbs as [|[o z] fbs]; [done|]. pose proof (H o z ltac:(by left)).
  unfold nonzero, next_of. simpl. destruct (Z.eqb_spec o 0); [lia|done].
Qed.

Lemma find_position_ok p usable lo b cca frag rs x fuel pre post :
  free_ok (offset p) usable lo b cca frag (pre ++ post) rs ->
  (forall o z, (o, z) ∈ pre -> o < x) -> (length post <= fuel)%nat ->
  exists pre' post', pre ++ post = pre' ++ post' /\
    find_position fuel x (prev_of pre) (next_of post) (set_buf p b) =
      (Ok (prev_of pre', next_of post'), set_buf p b) /\
    (forall o z, (o, z) ∈ pre' -> o < x) /\ (forall o z, (o, z) ∈ post' -> x <= o).
Proof.
  revert pre post. induction fuel as [|fuel IH]; intros pre post Hok Hx Hf.
  { destruct post; [|simpl in Hf; lia]. exists pre, []. split_and!; try done. intros o z Hin. by apply elem_of_nil in Hin. }
  destruct post as [|[o z] post].
  { exists pre, []. split_and!; try done. intros o z Hin. by apply elem_of_nil in Hin. }
  pose proof (fo_bounds Hok).
  pose proof (fo_mid _ _ _ _ Hok) as (Hc & Hn & Hs & Hb & Hp & H4 & H5 & H6 & Hpre & Hpost).
  change (next_of ((o, z) :: post)) with (Some o). cbn [find_position].
  erewrite pbind_eq.
  2: { apply corrupt_if_ok. destruct (prev_of pre) as [o1|] eqn:Hl; [|done].
       apply prev_of_in in Hl as [z1 Hin]. apply Hpre in Hin. apply Z.leb_gt. lia. }
  cbv beta. destruct (Z.leb_spec x o) as [Hle|Hgt].
  - exists pre, ((o, z) :: post). split_and!; try done. intros o' z' Hin.
    apply elem_of_cons in Hin as [[= -> ->]|Hin]; [done|]. apply Hpost in Hin. lia.
  - step run_read16. rewrite Hn, nonzero_head_of by (intros o' z' Hin; apply Hpost in Hin; lia).
    assert (pre ++ (o, z) :: post = (pre ++ [(o, z)]) ++ post) as Heq by (by rewrite <- app_assoc).
    rewrite Heq in Hok |- *. replace (Some o) with (prev_of (pre ++ [(o, z)])) by (unfold prev_of; by rewrite last_snoc).
    apply IH; [done| |simpl in Hf; lia]. intros o' z' Hin.
    apply elem_of_app in Hin as [Hin|Hin]; [by eapply Hx|]. apply list_elem_of_singleton in Hin as [= -> ->]. done.
Qed.

(** The range [(x, sz)] after a merge with the freeblock behind it. *)
Lemma merge_next_ok p usable lo b cca frag pre post x sz rs :
  free_ok (offset p) usable lo b cca frag (pre ++ post) ((x, sz) :: rs) ->
  (forall o z, (o, z) ∈ post -> x <= o) ->
  exists sz' post' rem mid,
    merge_next x (x + sz) sz usable (next_of post) (set_buf p b) =
      (Ok (x + sz', sz', next_of post', rem), set_buf p b) /\
    post = mid ++ post' /\ sz <= sz' /\ 0 <= rem <= 3 /\ rem <= frag /\ ascending (x + sz') post' /\
    space_ok lo usable cca (frag - rem) ((x, sz') :: pre ++ post' ++ rs).
Proof.
  intros Hok Hx. pose proof Hok as [F1 F2 F3 F4 F5 F6 F7 F8]. pose proof (fo_frag_range Hok).
  pose proof (fo_bounds Hok). unfold merge_next, SINGLE_FRAGMENT_SIZE_MAX, CELL_SIZE_MIN.
  destruct post as [|[o z] post].
  { exists sz, [], 0, []. split_and!; try done; try lia. rewrite Z.sub_0_r.
    eapply space_perm; [|exact F8]. solve_Permutation. }
  pose proof (fo_mid _ _ _ _ Hok) as (Hc & Hn & Hs & Hb & Hp & H4 & H5 & H6 & Hpre & Hpost).
  assert (space_ok lo usable cca frag ((x, sz) :: (o, z) :: pre ++ post ++ rs)) as Hsp
    by (eapply space_perm; [|exact F8]; solve_Permutation).
  pose proof (space_apart _ _ _ _ _ _ (o, z) Hsp ltac:(by left)) as Hap. unfold apart in Hap. simpl in Hap.
  pose proof (Hx o z ltac:(by left)). pose proof (space_range _ _ _ _ _ x sz Hsp ltac:(by left)).
  change (next_of ((o, z) :: post)) with (Some o). cbv iota beta.
  destruct (Z.leb_spec o (x + sz + (4 - 1))) as [Hle|Hgt].
  - erewrite pbind_eq by (apply plift_ok; unfold usub; zcases; [reflexivity|lia]). cbv zeta.
    step run_read16. rewrite Hs. pass. step run_read16. rewrite Hn.
    rewrite nonzero_head_of by (intros o' z' Hin; apply Hpost in Hin; lia).
    destruct (space_merge _ _ _ _ _ _ _ _ _ Hsp ltac:(lia)) as [Hfr Hsp'].
    exists (o + z - x), post, (o - (x + sz)), [(o, z)].
    rewrite wrap_small by (unfold is_u; lia). split_and!; try lia; try done.
    + replace (x + (o + z - x)) with (o + z) by lia. done.
    + apply ascending_app in F7 as [_ F7]. simpl in F7. replace (x + (o + z - x)) with (o + z) by lia. tauto.
  - exists sz, ((o, z) :: post), 0, []. rewrite Z.sub_0_r. split_and!; try done; try lia.
    + apply ascending_app in F7 as [_ F7]. simpl in *. split; [lia|tauto].
    + eapply space_perm; [|exact F8]. solve_Permutation.
Qed.

(** The range after a merge with the freeblock before it. *)
Lemma merge_prev_ok p usable lo b cca frag pre post0 post x sz sz' rem rs :
  free_ok (offset p) usable lo b cca frag (pre ++ post0) ((x, sz) :: rs) ->
  (forall o z, (o, z) ∈ pre -> o < x) -> 0 <= rem <= 3 -> rem <= frag -> ascending (x + sz') post ->
  space_ok lo usable cca (frag - rem) ((x, sz') :: pre ++ post ++ rs) ->
  exists x' sz'' pre' rem',
    merge_prev x (x + sz') sz' rem (prev_of pre) (set_buf p b) = (Ok (x', sz'', rem'), set_buf p b) /\
    x' + sz'' = x + sz' /\ 0 <= rem' <= frag /\
    space_ok lo usable cca (frag - rem') ((x', sz'') :: pre' ++ post ++ rs) /\
    ascending (-4) (pre' ++ (x', sz'') :: post) /\
    ((pre' = pre /\ x' = x) \/ exists z, pre = pre' ++ [(x', z)]).
Proof.
  intros Hok Hx Hrem Hrf Hpost Hsp. pose proof (fo_bounds Hok). pose proof (space_range _ _ _ _ _ x sz' Hsp ltac:(by left)).
  pose proof (fo_asc _ _ _ _ _ _ _ _ Hok) as Ha. apply ascending_app in Ha as [Ha _].
  unfold merge_prev, SINGLE_FRAGMENT_SIZE_MAX, CELL_SIZE_MIN. destruct pre as [|[o z] pre _] using rev_ind.
  { exists x, sz', [], rem. split_and!; try done; try lia; [|by left]. simpl. split; [lia|done]. }
  rewrite <- app_assoc in Hok. simpl in Hok.
  pose proof (fo_mid _ _ _ _ Hok) as (Hc & Hn & Hs & Hb & Hp & H4 & H5 & H6 & Hpre & _).
  pose proof (Hx o z ltac:(apply elem_of_app; right; by left)).
  assert (space_ok lo usable cca (frag - rem) ((o, z) :: (x, sz') :: pre ++ post ++ rs)) as Hsp2
    by (eapply space_perm; [|exact Hsp]; solve_Permutation).
  pose proof (space_apart _ _ _ _ _ _ (x, sz') Hsp2 ltac:(by left)) as Hap. unfold apart in Hap. simpl in Hap.
  unfold prev_of. rewrite last_snoc. cbv iota beta. change (fst <$> Some (o, z)) with (Some o). cbv iota beta.
  step run_read16. rewrite Hs. pass.
  destruct (Z.leb_spec x (o + z + (4 - 1))) as [Hle|Hgt].
  - rewrite wrap_small by (unfold is_u; lia).
    erewrite pbind_eq by (apply plift_ok; unfold uadd; zcases; [reflexivity|lia]).
    destruct (space_merge _ _ _ _ _ _ _ _ _ Hsp2 ltac:(lia)) as [Hfr Hsp'].
    exists o, (x + sz' - o), pre, (rem + (x - (o + z))). split_and!; try lia; [done| | |right; by exists z].
    + replace (frag - (rem + (x - (o + z)))) with (frag - rem - (x - (o + z))) by lia. done.
    + apply ascending_app in Ha as [Ha1 Ha2]. simpl in Ha2. apply ascending_app. split; [done|]. simpl.
      replace (o + (x + sz' - o)) with (x + sz') by lia. tauto.
  - exists x, sz', (pre ++ [(o, z)]), rem. split_and!; try done; try lia; [|by left].
    apply ascending_app. split; [done|]. rewrite end_of_snoc. simpl. split; [lia|done].
Qed.

Lemma fo_suffix {off usable lo b cca frag pre post rs} :
  free_ok off usable lo b cca frag (pre ++ post) rs ->
  blocks b post 0 /\ 0 <= head_of 0 post <= 65535 /\
  forall o z, (o, z) ∈ post -> 4 <= z /\ cca <= o /\ o + z <= usable.
Proof.
  intros Hok. pose proof (fo_bounds Hok). pose proof (fo_chain _ _ _ _ _ _ _ _ Hok) as Hc. apply chain_app in Hc as [_ Hb].
  assert (forall o z, (o, z) ∈ post -> 4 <= z /\ cca <= o /\ o + z <= usable) as Hp.
  { intros o z Hin. apply (fo_block Hok). apply elem_of_app. by right. }
  split; [done|]. split; [|done]. apply head_of_range; [lia|]. intros o z Hin. apply Hp in Hin. lia.
Qed.

Lemma one_byte v : 0 <= v < 256 -> bytes_ok [v].
Proof. intros Hv. repeat constructor; lia. Qed.

(** Returning a merged range at the start of the content area to the unallocated one. *)
Lemma free_ok_left off usable lo b cca frag pre post rs rs0 frag' sz :
  free_ok off usable lo b cca frag (pre ++ post) rs0 -> frag' < 256 -> ascending (cca + sz) post ->
  space_ok lo usable cca frag' ((cca, sz) :: post ++ rs) ->
  let b1 := splice_ b (off + 7) [frag'] in
  let b2 := splice_ b1 (off + 1) (be_bytes 2 (head_of 0 post)) in
  let b3 := splice_ b2 (off + 5) (be_bytes 2 (wrap 16 (cca + sz))) in
  len b1 = len b /\ len b2 = len b /\
  free_ok off usable lo b3 (cca + sz) frag' post rs /\ frame off [] b b3.
Proof.
  intros Hok Hf Ha Hsp b1 b2 b3. pose proof (fo_bounds Hok). pose proof (space_range _ _ _ _ _ _ _ Hsp ltac:(by left)).
  destruct (fo_suffix Hok) as (Hb & Hh & Hp). pose proof (so_frag _ _ _ _ _ Hsp).
  pose proof Hok as [F1 F2 F3 F4 F5 F6 F7 F8]. assert (len [frag'] = 1) as L1 by done.
  assert (len b1 = len b) as Lb1 by (unfold b1; rewrite len_splice_; lia).
  assert (len b2 = len b) as Lb2 by (unfold b2; rewrite len_splice_; rewrite ?len_be2; lia).
  split_and!; [done|done|split|].
  - unfold b3, b2, b1. pose proof (one_byte frag' ltac:(lia)). auto with turso.
  - unfold b3. rewrite len_splice_; rewrite ?len_be2; lia.
  - done.
  - unfold b3. apply r16_splice_same; [lia..|]. by apply wrap_is_u.
  - unfold b3. rewrite byte_splice_other by (rewrite ?len_be2; lia).
    unfold b2. rewrite byte_splice_other by (rewrite ?len_be2; lia).
    unfold b1. rewrite byte_splice_in by lia. by rewrite Z.sub_diag.
  - split.
    + unfold b3. rewrite r16_splice_other by (rewrite ?len_be2; lia). unfold b2.
      apply r16_splice_same; unfold is_u; lia.
    + repeat (apply blocks_splice; rewrite ?len_be2; try lia); try done; intros o z Hin; apply Hp in Hin; lia.
  - eapply ascending_mono; [|done]. lia.
  - by apply space_release_left in Hsp.
  - repeat (apply frame_splice; rewrite ?len_be2; try lia); [apply frame_refl|..];
      intros k Hk; unfold touched; lia.
Qed.

(** Linking the merged range [(x', z')] into the chain between [pre'] and [post]. *)
Lemma free_ok_give off usable lo b cca frag pre pre' mid post x sz x' z' rs frag' :
  free_ok off usable lo b cca frag (pre ++ mid ++ post) ((x, sz) :: rs) ->
  frag' < 256 -> ascending (-4) (pre' ++ (x', z') :: post) ->
  space_ok lo usable cca frag' ((x', z') :: pre' ++ post ++ rs) ->
  (pre' = pre /\ x' = x) \/ (exists z, pre = pre' ++ [(x', z)]) ->
  let b1 := splice_ b (off + 7) [frag'] in
  let b2 := splice_ b1 (link_of off pre) (be_bytes 2 x') in
  let b3 := splice_ b2 x' (be_bytes 2 (head_of 0 post)) in
  let b4 := splice_ b3 (x' + 2) (be_bytes 2 z') in
  len b1 = len b /\ len b2 = len b /\ len b3 = len b /\
  free_ok off usable lo b4 cca frag' (pre' ++ (x', z') :: post) rs /\
  frame off ((x, sz) :: pre ++ mid ++ post) b b4.
Proof.
  intros Hok Hf Ha Hsp Hor b1 b2 b3 b4. pose proof (fo_bounds Hok).
  pose proof (space_range _ _ _ _ _ _ _ Hsp ltac:(by left)) as Hx'. pose proof (so_frag _ _ _ _ _ Hsp).
  pose proof (fo_placed _ Hok) as Hpl. apply placed_app in Hpl.
  pose proof (link_of_bounds _ _ _ Hpl ltac:(lia)) as Hl.
  pose proof (fo_range Hok x sz ltac:(by left)) as Hxr.
  pose proof (fo_chain _ _ _ _ _ _ _ _ Hok) as Hc. apply chain_app in Hc as [Hc _].
  pose proof Hok as Hsuf. rewrite app_assoc in Hsuf. apply fo_suffix in Hsuf as (Hb & Hh & _).
  pose proof Hok as [F1 F2 F3 F4 F5 F6 F7 F8]. assert (len [frag'] = 1) as L1 by done.
  assert (Forall (fun r => 4 <= snd r) (pre' ++ (x', z') :: post)) as Hsz.
  { eapply (Forall_app _ _ rs). eapply so_sizes, space_perm; [|exact Hsp]. solve_Permutation. }
  assert (Hpre' : forall o z, (o, z) ∈ pre' -> cca <= o /\ o + 4 <= x').
  { intros o z Hin. pose proof (ascending_before _ _ _ _ _ _ _ Ha Hsz Hin).
    pose proof (space_range _ _ _ _ _ o z Hsp ltac:(right; apply elem_of_app; by left)). lia. }
  assert (Hpost : forall o z, (o, z) ∈ post -> x' + z' <= o).
  { intros o z Hin. pose proof (ascending_after _ _ _ _ _ _ _ Ha Hsz Hin). lia. }
  assert (Hlx : link_of off pre = off + 1 \/ cca <= link_of off pre <= x').
  { destruct (link_of_in off pre) as [|[z1 Hz1]]; [by left|right]. destruct Hor as [[-> _]|[z ->]].
    - apply Hpre' in Hz1. lia.
    - unfold link_of, prev_of. rewrite last_snoc. simpl. lia. }
  assert (len b1 = len b) as Lb1 by (unfold b1; rewrite len_splice_; lia).
  assert (len b2 = len b) as Lb2 by (unfold b2; rewrite len_splice_; rewrite ?len_be2; lia).
  assert (len b3 = len b) as Lb3 by (unfold b3; rewrite len_splice_; rewrite ?len_be2; lia).
  assert (Hc1 : forall q, chain off b pre q -> chain off b1 pre q).
  { intros q Hq. apply chain_splice; try lia; [done|]. intros o z Hin.
    pose proof (fo_block Hok o z ltac:(apply elem_of_app; by left)). lia. }
  assert (chain off b2 pre' x') as Hc2.
  { unfold b2. destruct Hor as [[-> _]|[z ->]].
    - apply chain_relink with (head_of 0 (mid ++ post)); [|lia|unfold is_u; lia|by apply Hc1].
      unfold placed in *. by rewrite Lb1.
    - apply Hc1 in Hc. apply chain_app in Hc as [Hc _]. unfold link_of, prev_of. rewrite last_snoc.
      apply chain_splice; simpl; rewrite ?len_be2; try lia; [done|]. intros o z1 Hin. apply Hpre' in Hin. lia. }
  split_and!; [done..|split|].
  - unfold b4, b3, b2, b1. pose proof (one_byte frag' ltac:(lia)). auto with turso.
  - unfold b4. rewrite len_splice_; rewrite ?len_be2; lia.
  - done.
  - unfold b4, b3, b2, b1. rewrite !r16_splice_other by (fold b1; fold b2; fold b3; rewrite ?len_be2; lia). done.
  - unfold b4, b3, b2. rewrite !byte_splice_other by (fold b2; fold b3; rewrite ?len_be2; lia). unfold b1.
    rewrite byte_splice_in by lia. by rewrite Z.sub_diag.
  - apply chain_app. cbn [head_of blocks]. split_and!.
    + apply chain_splice; rewrite ?len_be2; try lia; [apply chain_splice; rewrite ?len_be2; try lia; [done|]|];
        intros o z Hin; apply Hpre' in Hin; lia.
    + unfold b4. rewrite r16_splice_other by (rewrite ?len_be2; lia). apply r16_splice_same; unfold is_u; lia.
    + apply r16_splice_same; unfold is_u; lia.
    + repeat (apply blocks_splice; rewrite ?len_be2; try lia); try done; intros o z Hin;
        apply Hpost in Hin; lia.
  - done.
  - eapply space_perm; [|exact Hsp]. solve_Permutation.
  - assert (Hx4 : forall k, x' <= k < x' + 4 -> k ∈ spans ((x, sz) :: pre ++ mid ++ post)).
    { intros k Hk. apply elem_of_spans. destruct Hor as [[_ ->]|[z ->]].
      - exists x, sz. split; [by left|lia].
      - exists x', z. split; [right; rewrite <- app_assoc; apply elem_of_app; right; by left|].
        pose proof (fo_block Hok x' z ltac:(apply elem_of_app; left; apply elem_of_app; right; by left)). lia. }
    repeat (apply frame_splice; rewrite ?len_be2; try lia); [apply frame_refl|..]; intros k Hk;
      [unfold touched; lia| |unfold touched; right; right; apply Hx4; lia..].
    destruct (link_of_in off pre) as [Heq|[z1 Hz1]]; [left; lia|]. right. right. apply elem_of_spans.
    exists (link_of off pre), z1. pose proof (fo_block Hok _ _ ltac:(apply elem_of_app; left; exact Hz1)).
    split; [right; apply elem_of_app; by left|lia].
Qed.

Definition freed_spec (off usable lo : Z) (b : list Z) (fbs rs : list range) (x sz : Z) (b' : list Z) : Prop :=
  exists cca' frag' fbs',
    free_ok off usable lo b' cca' frag' fbs' rs /\ frame off ((x, sz) :: fbs) b b'.

Lemma frame_mono off rs rs' b b' :
  (forall k, k ∈ spans rs -> k ∈ spans rs') -> frame off rs b b' -> frame off rs' b b'.
Proof. intros Hs [H1 H2]. split; [done|]. intros k Hk. apply H2. unfold touched in *. naive_solver. Qed.

(** The page without freeblocks. *)
Lemma free_cell_range_empty p usable lo b cca frag x sz rs :
  free_ok (offset p) usable lo b cca frag [] ((x, sz) :: rs) ->
  exists b', free_cell_range x sz usable (set_buf p b) = (Ok tt, set_buf p b') /\
    freed_spec (offset p) usable lo b [] rs x sz b'.
Proof.
  intros Hok. pose proof (fo_bounds Hok). pose proof (fo_frag_range Hok) as Hfr.
  pose proof (fo_range Hok x sz ltac:(by left)) as Hx. pose proof Hok as [F1 F2 F3 F4 F5 [F6 _] F7 F8]. simpl in F6.
  unfold free_cell_range, CELL_SIZE_MIN. pass. pass. pass.
  step run_cca. step run_first. rewrite F6. cbn [Z.eqb]. pass.
  destruct (Z.eqb_spec x cca) as [->|Hne].
  - destruct (free_ok_left _ _ _ _ _ _ [] [] rs _ frag sz Hok ltac:(lia) ltac:(done) F8) as (_ & _ & Hok' & Hfr').
    cbn [head_of] in Hok', Hfr'. rewrite <- F5, <- F6, splice_same8, splice_same16 in Hok', Hfr' by (done || lia).
    eexists. split; [apply run_write_cca; lia|]. exists (cca + sz), (byte b (offset p + 7)), []. split; [done|].
    eapply frame_mono; [|done]. intros k Hk. by apply elem_of_nil in Hk.
  - destruct (free_ok_give _ _ _ _ _ _ [] [] [] [] x sz x sz rs frag Hok ltac:(lia) ltac:(simpl; split; [lia|done])
      F8 ltac:(by left)) as (_ & L2 & L3 & Hok' & Hfr').
    rewrite <- F5, splice_same8 in L2, L3, Hok', Hfr' by lia.
    eexists. split; [|eexists cca, _, [(x, sz)]; eauto].
    step run_to_u16. step run_write_first. step run_to_u16. unfold write_freeblock, write_freeblock_next_ptr, write_freeblock_size.
    unfold link_of, prev_of in *. simpl in *. step run_write16. apply run_write16; lia.
Qed.

Lemma merged_sizes lo usable cca frag r pre post rs :
  space_ok lo usable cca frag (r :: pre ++ post ++ rs) -> Forall (fun r => 4 <= snd r) (pre ++ r :: post).
Proof.
  intros Hsp. eapply (Forall_app _ _ rs). eapply so_sizes, space_perm; [|exact Hsp]. solve_Permutation.
Qed.

(** The last part of [free_cell_range], behind the merges. *)
Lemma free_cell_range_store p usable lo b cca frag pre pre' mid post x sz x' z' rem rs fb :
  free_ok (offset p) usable lo b cca frag (pre ++ mid ++ post) ((x, sz) :: rs) ->
  0 <= rem <= frag -> ascending (-4) (pre' ++ (x', z') :: post) ->
  space_ok lo usable cca (frag - rem) ((x', z') :: pre' ++ post ++ rs) ->
  (pre' = pre /\ x' = x) \/ (exists z, pre = pre' ++ [(x', z)]) ->
  (forall o z, (o, z) ∈ pre -> cca <= o < x) -> fb = head_of 0 (pre ++ mid ++ post) ->
  exists b',
    (cur_frag_free_bytes ← rd num_frag_free_bytes;
     _ ← corrupt_if (cur_frag_free_bytes <? rem);
     _ ← write_fragmented_bytes_count (cur_frag_free_bytes - rem);
     _ ← corrupt_if (x' <? cca);
     if x' =? cca then
       _ ← corrupt_if (match prev_of pre with Some prev => negb (prev =? fb) | None => false end);
       _ ← match next_of post with
           | Some next =>
               _ ← corrupt_if (next <=? x' + z');
               next_u16 ← to_u16 next;
               write_first_freeblock next_u16
           | None => write_first_freeblock 0
           end;
       write_cell_content_area (x' + z')
     else
       offset_u16 ← to_u16 x';
       _ ← match prev_of pre with
           | Some prev => write_u16_no_offset prev offset_u16
           | None => write_first_freeblock offset_u16
           end;
       size_u16 ← to_u16 z';
       next_block_u16 ← match next_of post with
                        | Some b => b ← to_u16 b; mret (Some b)
                        | None => mret None
                        end;
       write_freeblock offset_u16 size_u16 next_block_u16) (set_buf p b) = (Ok tt, set_buf p b') /\
    freed_spec (offset p) usable lo b (pre ++ mid ++ post) rs x sz b'.
Proof.
  intros Hok Hrem Ha Hsp Hor Hpre Hfb. pose proof (fo_bounds Hok). pose proof (fo_frag_range Hok).
  pose proof (space_range _ _ _ _ _ _ _ Hsp ltac:(by left)) as Hx'.
  pose proof Hok as Hsuf. rewrite app_assoc in Hsuf. pose proof (fo_suffix Hsuf) as (_ & Hh & Hpost).
  step run_frag. rewrite (fo_frag _ _ _ _ _ _ _ _ Hok). pass. step run_write_frag. pass.
  assert (ascending (x' + z') post) as Hap by (apply ascending_app in Ha as [_ Ha]; simpl in Ha; tauto).
  destruct (Z.eqb_spec x' cca) as [->|Hne].
  - assert (pre' = []) as ->.
    { destruct pre' as [|[o z] pre']; [done|]. pose proof (ascending_before _ _ _ _ _ o z Ha) as Hb.
      pose proof (space_range _ _ _ _ _ o z Hsp ltac:(right; by left)).
      specialize (Hb ltac:(eapply merged_sizes, Hsp) ltac:(by left)). lia. }
    destruct (free_ok_left _ _ _ _ _ _ (pre ++ mid) post rs _ (frag - rem) z' Hsuf ltac:(lia) Hap Hsp) as (L1 & L2 & Hok' & Hfr').
    eexists. split; [|eexists _, _, post; split; [exact Hok'|]; eapply frame_mono; [|done]; intros k Hk; by apply elem_of_nil in Hk].
    erewrite pbind_eq.
    2: { apply corrupt_if_ok. destruct Hor as [[<- _]|[z ->]]; [done|]. simpl. by rewrite Hfb, Z.eqb_refl. }
    cbv beta. erewrite pbind_eq; [apply run_write_cca; lia|].
    destruct post as [|[o z] post]; [apply run_write_first; lia|].
    change (next_of ((o, z) :: post)) with (Some o). simpl in Hap, Hh. cbv beta iota. pass. step run_to_u16. apply run_write_first; lia.
  - destruct (free_ok_give _ _ _ _ _ _ _ _ _ _ _ _ _ _ _ (frag - rem) Hok ltac:(lia) Ha Hsp Hor)
      as (L1 & L2 & L3 & Hok' & Hfr').
    pose proof (fo_placed _ Hok) as Hpl. apply placed_app in Hpl.
    pose proof (link_of_bounds _ _ _ Hpl ltac:(lia)) as Hl.
    eexists. split; [|eexists _, _, _; eauto]. step run_to_u16. step run_relink. step run_to_u16.
    erewrite pbind_eq with (a := next_of post).
    2: { destruct post as [|[o z] post]; [done|]. change (next_of ((o, z) :: post)) with (Some o).
         pose proof (Hpost o z ltac:(by left)). cbv beta iota. step run_to_u16. done. }
    unfold write_freeblock, write_freeblock_next_ptr, write_freeblock_size.
    replace (default 0 (next_of post)) with (head_of 0 post) by (by destruct post as [|[??]?]).
    step run_write16. apply run_write16; lia.
Qed.

Lemma free_cell_range_ok p usable lo b cca frag fbs x sz rs :
  free_ok (offset p) usable lo b cca frag fbs ((x, sz) :: rs) ->
  exists b', free_cell_range x sz usable (set_buf p b) = (Ok tt, set_buf p b') /\
    freed_spec (offset p) usable lo b fbs rs x sz b'.
Proof.
  intros Hok. destruct fbs as [|[o0 z0] fbs0] eqn:Hfbs; [by eapply free_cell_range_empty|]. rewrite <- Hfbs in *.
  pose proof (fo_bounds Hok). pose proof (fo_range Hok x sz ltac:(by left)) as Hx. pose proof Hok as [F1 F2 F3 F4 F5 [F6 _] F7 F8].
  pose proof (fo_total Hok). pose proof (fo_frag_range Hok). pose proof (length_total _ (fo_sizes Hok)).
  assert (head_of 0 fbs = o0) as Hh by (by subst fbs). rewrite Hh in F6.
  pose proof (fo_block Hok o0 z0 ltac:(subst fbs; by left)).
  unfold free_cell_range, CELL_SIZE_MIN. pass. pass. pass. step run_cca. step run_first. rewrite F6.
  destruct (Z.eqb_spec o0 0); [lia|].
  destruct (find_position_ok p usable lo b cca frag _ x (Z.to_nat usable) [] fbs Hok) as (pre & post0 & Heq & Hrun & Hpre & Hpost0).
  { intros o z Hin. by apply elem_of_nil in Hin. }
  { lia. }
  simpl in Heq. replace (next_of fbs) with (Some o0) in Hrun by (by subst fbs). change (prev_of []) with (@None Z) in Hrun.
  rewrite (pbind_eq _ _ _ _ _ Hrun). cbv beta iota. rewrite Heq in Hok.
  erewrite pbind_eq.
  2: { apply corrupt_if_ok. destruct post0 as [|[o z] post0]; [done|]. simpl. apply Z.ltb_ge.
       pose proof (fo_block Hok o z ltac:(apply elem_of_app; right; by left)). lia. }
  cbv beta.
  destruct (merge_next_ok p _ _ _ _ _ _ _ _ _ _ Hok Hpost0) as (sz1 & post & rem & mid & Hrun1 & -> & Hsz1 & Hrem & Hrf & Ha1 & Hsp1).
  rewrite (pbind_eq _ _ _ _ _ Hrun1). cbv beta iota.
  destruct (merge_prev_ok p _ _ _ _ _ _ _ _ _ _ _ _ _ Hok Hpre Hrem Hrf Ha1 Hsp1) as
    (x' & z' & pre' & rem' & Hrun2 & Hend & Hrem' & Hsp2 & Ha2 & Hor).
  rewrite (pbind_eq _ _ _ _ _ Hrun2). cbv beta iota. rewrite <- Hend, Heq.
  eapply free_cell_range_store; try eassumption; [|by rewrite <- Heq].
  intros o z Hin. pose proof (Hpre o z Hin). pose proof (fo_block Hok o z ltac:(apply elem_of_app; by left)). lia.
Qed.
