(* ===== verification/BtreeCells.v ===== *)
(** What the bytes of a b-tree page mean: [page_holds] says that a page stores a list
    of cells.  Reading a cell's region and [drop_cell] are proved against it here,
    defragmentation in BtreeDefrag.v and insertion in BtreeInsert.v. *)

From stdpp Require Import base list numbers sorting.
From Stdlib Require Import ZArith Lia.
From S2P Require Import Prelude Varint DbHeader Page BtreeSpace BtreePage BtreeInv.

(** * Cells of a page *)

(** The bytes of a cell: [cell_len] finds their number, whatever follows them. *)
Definition cell_ok (t : PageType) (usable : Z) (img : list Z) : Prop :=
  4 <= len img /\ bytes_ok img /\
  exists max_local min_local,
    payload_overflow_threshold_max t usable = Ok max_local /\
    payload_overflow_threshold_min t usable = Ok min_local /\
    forall rest, cell_len t max_local min_local usable (img ++ rest) 0 = Ok (len img).

Definition pointers_at (a : Z) (b : list Z) (ptrs : list Z) : Prop :=
  forall i c, ptrs !! i = Some c -> r16 b (a + 2 * Z.of_nat i) = c.
Definition images_at (b : list Z) (ptrs : list Z) (cells : list (list Z)) : Prop :=
  Forall2 (fun c img => slice_ b c (c + len img) = img) ptrs cells.
Definition ranges (ptrs : list Z) (cells : list (list Z)) : list range :=
  zip_with (fun c (img : list Z) => (c, len img)) ptrs cells.

(** The bytes [b] of a page of type [t] with its header at [off] store [cells] at
    [ptrs]. *)
Record layout_ok (off : Z) (t : PageType) (usable : Z) (b : list Z) (ptrs : list Z)
    (cells : list (list Z)) (cca frag : Z) (fbs : list range) : Prop := {
  lo_type : byte b off = page_type_u8 t;
  lo_count : r16 b (off + 3) = len cells;
  lo_pointers : pointers_at (off + hdr t) b ptrs;
  lo_images : images_at b ptrs cells;
  lo_cells : Forall (cell_ok t usable) cells;
  lo_free : free_ok off usable (off + hdr t + 2 * len cells) b cca frag fbs (ranges ptrs cells);
}.

(** A page holds a list of cells. *)
Definition page_holds (t : PageType) (usable : Z) (p : PageContent) (cells : list (list Z)) : Prop :=
  exists ptrs cca frag fbs, layout_ok (offset p) t usable (buf p) ptrs cells cca frag fbs.

Lemma hdr_range t : 8 <= hdr t <= 12.
Proof. by destruct t. Qed.

Lemma free_ok_perm off usable lo b cca frag fbs rs rs' :
  rs ≡ₚ rs' -> free_ok off usable lo b cca frag fbs rs -> free_ok off usable lo b cca frag fbs rs'.
Proof.
  intros Hp [F1 F2 F3 F4 F5 F6 F7 F8]. split; try done. eapply space_perm; [|exact F8]. by rewrite Hp.
Qed.
Lemma free_ok_weaken off usable lo lo' b cca frag fbs rs :
  off + 8 <= lo' <= cca -> free_ok off usable lo b cca frag fbs rs -> free_ok off usable lo' b cca frag fbs rs.
Proof.
  intros Hp [F1 F2 F3 F4 F5 F6 F7 F8]. split; try done; [lia|]. eapply space_weaken; [|exact F8]. lia.
Qed.
(** [free_ok] is about the header fields and the freeblocks. *)
Lemma free_ok_mem off usable lo b b' cca frag fbs rs :
  free_ok off usable lo b cca frag fbs rs -> bytes_ok b' -> len b' = len b ->
  (forall k, touched off fbs k -> byte b' k = byte b k) ->
  free_ok off usable lo b' cca frag fbs rs.
Proof.
  intros Hok Hb Hl Hk. pose proof (fo_placed _ Hok) as Hpl. pose proof Hok as [F1 F2 F3 F4 F5 [F6 F6'] F7 F8].
  assert (Hr : forall k, touched off fbs k -> touched off fbs (k + 1) -> r16 b' k = r16 b k).
  { intros k H1 H2. unfold r16. by rewrite !Hk. }
  split; try done; [lia| | |].
  - rewrite Hr; [done|unfold touched; lia..].
  - rewrite Hk; [done|unfold touched; lia].
  - split; [rewrite Hr; [done|unfold touched; lia..]|]. eapply blocks_frame; [|done]. intros o z Hin.
    pose proof (fo_block Hok o z Hin).
    assert (forall d, 0 <= d < 4 -> touched off fbs (o + d)) as Ht.
    { intros d Hd. right. right. apply elem_of_spans. exists o, z. split; [done|lia]. }
    pose proof (Ht 0 ltac:(lia)) as Ht0. rewrite Z.add_0_r in Ht0.
    rewrite !Hr; [done|apply Ht; lia| |done|apply Ht; lia]. replace (o + 2 + 1) with (o + 3) by lia. apply Ht; lia.
Qed.

Lemma zip_with_delete {A B C} (f : A -> B -> C) l k i :
  zip_with f (delete i l) (delete i k) = delete i (zip_with f l k).
Proof.
  revert k i. induction l as [|x l IH]; intros [|y k] [|i]; simpl; try done.
  - by destruct l.
  - f_equal. apply IH.
Qed.

(** * Reading a cell's region *)

Lemma from_or_corrupt_app pre x k :
  0 <= k -> from_or_corrupt (pre ++ x) (len pre + k) = from_or_corrupt x k.
Proof.
  intros Hk. unfold from_or_corrupt. rewrite len_app.
  destruct (Z.leb_spec k (len x)), (Z.leb_spec (len pre + k) (len pre + len x)); try lia; [|done].
  f_equal. unfold len. rewrite drop_app_ge by lia. f_equal. lia.
Qed.
Lemma cell_len_app t mx mn u pre x :
  bytes_ok x -> cell_len t mx mn u (pre ++ x) (len pre) = cell_len t mx mn u x 0.
Proof.
  intros Hx. assert (forall k, 0 <= k -> from_or_corrupt (pre ++ x) (len pre + k) = from_or_corrupt x (0 + k)) as Hf.
  { intros k Hk. by rewrite from_or_corrupt_app. }
  pose proof (Hf 0 ltac:(lia)) as Hf0. rewrite !Z.add_0_r in Hf0.
  destruct t; cbn [cell_len]; rewrite ?Hf by lia; rewrite ?Hf0; try done.
  destruct (from_or_corrupt x 0) as [s| |] eqn:Hs; [|done..]. rstep.
  assert (bytes_ok s) as Hbs.
  { unfold from_or_corrupt in Hs. destruct (0 <=? len x); [|done]. injection Hs as <-. auto with turso. }
  pose proof (read_varint_inv s Hbs) as Hv.
  destruct (read_varint s) as [[v n]| |]; [|done..]. rstep. by rewrite Hf by lia.
Qed.

Lemma slice_split b c n : 0 <= c -> 0 <= n -> c + n <= len b ->
  b = take (Z.to_nat c) b ++ slice_ b c (c + n) ++ drop (Z.to_nat (c + n)) b.
Proof.
  intros H1 H2 H3. unfold slice_. replace (c + n - c) with n by lia.
  replace (drop (Z.to_nat (c + n)) b) with (drop (Z.to_nat n) (drop (Z.to_nat c) b)) by (rewrite drop_drop; f_equal; lia).
  by rewrite take_drop, take_drop.
Qed.
Lemma cell_len_at t mx mn u b c img :
  bytes_ok b -> 0 <= c -> c + len img <= len b -> slice_ b c (c + len img) = img ->
  (forall rest, cell_len t mx mn u (img ++ rest) 0 = Ok (len img)) ->
  cell_len t mx mn u b c = Ok (len img).
Proof.
  intros Hb H0 H1 Hs Hc. pose proof (len_nonneg img). pose proof (slice_split b c (len img) ltac:(lia) ltac:(lia) H1) as Hsp.
  assert (len (take (Z.to_nat c) b) = c) as Hl by (apply len_take_Z; lia). rewrite Hs in Hsp.
  revert Hsp Hl. generalize (take (Z.to_nat c) b) (drop (Z.to_nat (c + len img)) b). intros pre post -> <-.
  rewrite cell_len_app; [apply Hc|]. apply bytes_ok_app in Hb. tauto.
Qed.

Section layout.
Context {off : Z} {t : PageType} {usable : Z} {b : list Z} {ptrs : list Z} {cells : list (list Z)}.
Context {cca frag : Z} {fbs : list range}.
Context (Hlay : layout_ok off t usable b ptrs cells cca frag fbs).

Lemma lo_length : length ptrs = length cells.
Proof. eapply Forall2_length, lo_images, Hlay. Qed.
Lemma lo_bounds :
  0 <= off /\ off + hdr t + 2 * len cells <= cca /\ cca <= usable /\ usable <= len b /\ len b <= 65536 /\ 0 <= len cells.
Proof.
  pose proof (fo_bounds (lo_free _ _ _ _ _ _ _ _ _ Hlay)). pose proof (len_nonneg cells). lia.
Qed.
Lemma lo_range i c img :
  ptrs !! i = Some c -> cells !! i = Some img ->
  (c, len img) ∈ ranges ptrs cells /\ cell_ok t usable img /\ slice_ b c (c + len img) = img /\
  cca <= c /\ c + len img <= usable /\ 0 <= Z.of_nat i < len cells.
Proof.
  intros Hc Hi. assert ((c, len img) ∈ ranges ptrs cells) as Hin.
  { apply (list_elem_of_lookup_2 _ i). unfold ranges. rewrite lookup_zip_with, Hc, Hi. done. }
  pose proof (fo_range (lo_free _ _ _ _ _ _ _ _ _ Hlay) _ _ Hin). split_and!; try done; try lia.
  - eapply (Forall_lookup_1 _ _ _ _ (lo_cells _ _ _ _ _ _ _ _ _ Hlay)), Hi.
  - exact (Forall2_lookup_lr _ _ _ _ _ _ (lo_images _ _ _ _ _ _ _ _ _ Hlay) Hc Hi).
  - apply lookup_lt_Some in Hi. unfold len. lia.
Qed.
End layout.

Lemma page_type_ok p b t : 0 <= offset p < len b -> byte b (offset p) = page_type_u8 t ->
  page_type (set_buf p b) = Ok t.
Proof.
  intros H0 H1. unfold page_type, read_u8. change (offset (set_buf p b)) with (offset p).
  cbn [buf set_buf]. unfold BTREE_PAGE_TYPE. rewrite Z.add_0_r, at_byte, H1 by done. by destruct t.
Qed.
Lemma header_size_ok p b t : 0 <= offset p < len b -> byte b (offset p) = page_type_u8 t ->
  header_size (set_buf p b) = Ok (hdr t).
Proof. intros H0 H1. pose proof (run_header_size p b t H0 H1) as H. unfold rd in H. by injection H. Qed.

Lemma cell_get_raw_region_faster_ok p t usable b ptrs cells cca frag fbs i c img mx mn :
  layout_ok (offset p) t usable b ptrs cells cca frag fbs ->
  ptrs !! i = Some c -> cells !! i = Some img ->
  payload_overflow_threshold_max t usable = Ok mx -> payload_overflow_threshold_min t usable = Ok mn ->
  cell_get_raw_region_faster (set_buf p b) (Z.of_nat i) usable (len cells) mx mn t = Ok (c, len img).
Proof.
  intros Hlay Hc Hi Hmx Hmn. pose proof (lo_bounds Hlay) as Hb.
  destruct (lo_range Hlay _ _ _ Hc Hi) as (_ & (H4 & _ & mx' & mn' & Hmx' & Hmn' & Hcl) & Hs & H1 & H2 & H3).
  assert (mx' = mx /\ mn' = mn) as [-> ->] by (split; congruence). pose proof (hdr_range t).
  unfold cell_get_raw_region_faster. destruct (Z.ltb_spec (Z.of_nat i) (len cells)); [|lia]. unfold rassert. rstep.
  unfold cell_get_raw_start_offset, cell_pointer_array_offset.
  rewrite header_size_ok with (t := t) by (lia || apply Hlay). rstep. unfold read_u16_no_offset, CELL_PTR_SIZE_BYTES.
  change (offset (set_buf p b)) with (offset p). cbn [buf set_buf]. rewrite u16_at_r16 by lia. rstep.
  rewrite Z.mul_comm, (lo_pointers _ _ _ _ _ _ _ _ _ Hlay i c Hc).
  rewrite (cell_len_at t mx mn usable b c img); [|apply (fo_bytes _ _ _ _ _ _ _ _ (lo_free _ _ _ _ _ _ _ _ _ Hlay))|lia|lia|done|done].
  rstep. unfold ensure. destruct (Z.leb_spec (c + len img) (len b)); [done|lia].
Qed.

Lemma cell_get_raw_region_ok p t usable b ptrs cells cca frag fbs i c img :
  layout_ok (offset p) t usable b ptrs cells cca frag fbs ->
  ptrs !! i = Some c -> cells !! i = Some img ->
  cell_get_raw_region (set_buf p b) (Z.of_nat i) usable = Ok (c, len img).
Proof.
  intros Hlay Hc Hi. pose proof (lo_bounds Hlay) as Hb. pose proof (hdr_range t).
  destruct (lo_range Hlay _ _ _ Hc Hi) as (_ & (_ & _ & mx & mn & Hmx & Hmn & _) & _).
  unfold cell_get_raw_region. rewrite page_type_ok with (t := t) by (lia || apply Hlay). rstep.
  rewrite Hmx, Hmn. rstep. unfold cell_count, read_u16. cbn [buf set_buf]. change (offset (set_buf p b)) with (offset p).
  unfold BTREE_CELL_COUNT. rewrite u16_at_r16 by lia. rewrite (lo_count _ _ _ _ _ _ _ _ _ Hlay). rstep.
  by eapply cell_get_raw_region_faster_ok.
Qed.

(** * What a frame keeps *)

Lemma space_disjoint lo usable cca frag r1 r2 k :
  space_ok lo usable cca frag (r1 ++ r2) -> k ∈ spans r1 -> k ∈ spans r2 -> False.
Proof.
  intros Hs H1 H2. pose proof (so_nodup _ _ _ _ _ Hs) as Hn. rewrite spans_app in Hn.
  apply list.NoDup_app in Hn as (_ & Hd & _). by apply (Hd k).
Qed.

Lemma pointers_mem a b b' ptrs :
  (forall k, a <= k < a + 2 * len ptrs -> byte b' k = byte b k) ->
  pointers_at a b ptrs -> pointers_at a b' ptrs.
Proof.
  intros Hk Hp i c Hi. rewrite <- (Hp i c Hi). apply lookup_lt_Some in Hi. unfold r16, len in *.
  rewrite !Hk by lia. done.
Qed.

Lemma images_mem b b' ptrs cells :
  len b' = len b -> (forall o z, (o, z) ∈ ranges ptrs cells -> 0 <= o /\ 0 <= z /\ o + z <= len b) ->
  (forall k, k ∈ spans (ranges ptrs cells) -> byte b' k = byte b k) ->
  images_at b ptrs cells -> images_at b' ptrs cells.
Proof.
  intros Hl Hr Hk Hi. unfold images_at, ranges in *.
  induction Hi as [|c img ptrs cells Hs Hi IH]; constructor; simpl in *.
  - rewrite <- Hs at 2. pose proof (Hr c (len img) ltac:(by left)). apply slice_bytes_eq; try lia.
    intros k Hki. apply Hk. apply elem_of_app. left. apply elem_of_seqZ. lia.
  - apply IH.
    + intros o z Hin. apply Hr. by right.
    + intros k Hin. apply Hk. apply elem_of_app. by right.
Qed.

(** A reset of the free-space fields, with the cells packed behind [cca]. *)
Lemma free_ok_reset off usable lo b cca rs :
  bytes_ok b -> usable <= len b <= 65536 -> 0 <= off -> off + 8 <= lo -> space_ok lo usable cca 0 rs ->
  let b1 := splice_ b (off + 5) (be_bytes 2 (wrap 16 cca)) in
  let b2 := splice_ b1 (off + 1) (be_bytes 2 0) in
  let b3 := splice_ b2 (off + 7) [0] in
  len b1 = len b /\ len b2 = len b /\ free_ok off usable lo b3 cca 0 [] rs /\ frame off [] b b3.
Proof.
  intros Hb Hl Ho Hlo Hsp b1 b2 b3. pose proof (so_bounds _ _ _ _ _ Hsp). assert (len [0] = 1) as L1 by done.
  assert (len b1 = len b) as Lb1 by (unfold b1; rewrite len_splice_; rewrite ?len_be2; lia).
  assert (len b2 = len b) as Lb2 by (unfold b2; rewrite len_splice_; rewrite ?len_be2; lia).
  split_and!; [done|done|split|].
  - unfold b3, b2, b1. pose proof (one_byte 0 ltac:(lia)). auto with turso.
  - unfold b3. rewrite len_splice_; lia.
  - lia.
  - unfold b3, b2. rewrite !r16_splice_other by (fold b2; rewrite ?len_be2; lia).
    apply r16_splice_same; [lia..|]. by apply wrap_is_u.
  - unfold b3. rewrite byte_splice_in by lia. by rewrite Z.sub_diag.
  - split; [|done]. cbn [head_of]. unfold b3. rewrite r16_splice_other by lia. apply r16_splice_same; unfold is_u; lia.
  - done.
  - done.
  - repeat (apply frame_splice; rewrite ?len_be2; try lia); [apply frame_refl|..]; intros k Hk; unfold touched; lia.
Qed.

(** * [copy_within] *)

Lemma byte_slice b i j k : 0 <= i -> 0 <= k < j - i -> byte (slice_ b i j) k = byte b (i + k).
Proof. intros Hi Hk. unfold slice_. rewrite byte_take, byte_drop by lia. done. Qed.

Lemma slice_bytes_shift b b' i i' n :
  0 <= i -> 0 <= i' -> 0 <= n -> i + n <= len b -> i' + n <= len b' ->
  (forall d, 0 <= d < n -> byte b' (i' + d) = byte b (i + d)) ->
  slice_ b' i' (i' + n) = slice_ b i (i + n).
Proof.
  intros H1 H2 H3 H4 H5 Hd. apply bytes_ext; rewrite !len_slice_ by lia; [lia|].
  intros k Hk. rewrite !byte_slice by lia. apply Hd. lia.
Qed.

Definition moved (b : list Z) (src n dst : Z) : list Z := splice_ b dst (slice_ b src (src + n)).

Section moved.
Context (b : list Z) (src n dst : Z).
Context (Hsrc : 0 <= src) (Hn : 0 <= n) (Hsn : src + n <= len b) (Hdst : 0 <= dst) (Hdn : dst + n <= len b).

Lemma len_moved_slice : len (slice_ b src (src + n)) = n.
Proof. rewrite len_slice_; lia. Qed.
Lemma run_copy_within p : copy_within src n dst (set_buf p b) = (Ok tt, set_buf p (moved b src n dst)).
Proof.
  unfold copy_within. erewrite wr_ok; [done|]. cbn [buf set_buf]. rewrite slice_ok by lia. rstep.
  apply write_at_ok; rewrite ?len_moved_slice; lia.
Qed.
Lemma len_moved : len (moved b src n dst) = len b.
Proof. unfold moved. rewrite len_splice_; rewrite ?len_moved_slice; lia. Qed.
Lemma moved_bytes_ok : bytes_ok b -> bytes_ok (moved b src n dst).
Proof. intros Hb. unfold moved, slice_. auto with turso. Qed.
Lemma byte_moved k :
  byte (moved b src n dst) k = if (dst <=? k) && (k <? dst + n) then byte b (src + (k - dst)) else byte b k.
Proof.
  unfold moved. rewrite byte_splice; rewrite ?len_moved_slice; try lia.
  destruct (Z.leb_spec dst k), (Z.ltb_spec k (dst + n)); simpl; try done. by rewrite byte_slice by lia.
Qed.
Lemma byte_moved_other k : k < dst \/ dst + n <= k -> byte (moved b src n dst) k = byte b k.
Proof. intros Hk. rewrite byte_moved. destruct (Z.leb_spec dst k), (Z.ltb_spec k (dst + n)); simpl; lia || done. Qed.
Lemma byte_moved_in k : dst <= k < dst + n -> byte (moved b src n dst) k = byte b (src + (k - dst)).
Proof. intros Hk. rewrite byte_moved. by destruct (Z.leb_spec dst k), (Z.ltb_spec k (dst + n)); simpl; try lia. Qed.
Lemma r16_moved_other k : k + 2 <= dst \/ dst + n <= k -> r16 (moved b src n dst) k = r16 b k.
Proof. intros Hk. unfold r16. rewrite !byte_moved_other by lia. done. Qed.
Lemma r16_moved_in k : dst <= k -> k + 2 <= dst + n -> r16 (moved b src n dst) k = r16 b (src + (k - dst)).
Proof. intros Hk Hk'. unfold r16. rewrite !byte_moved_in by lia. do 2 f_equal. lia. Qed.
End moved.

(** Closing the gap of a removed pointer, and opening one for a new pointer. *)
Lemma pointers_delete a b ptrs i :
  0 <= a -> a + 2 * len ptrs <= len b -> (i < length ptrs)%nat -> pointers_at a b ptrs ->
  pointers_at a (moved b (a + 2 * Z.of_nat i + 2) (2 * (len ptrs - Z.of_nat i - 1)) (a + 2 * Z.of_nat i)) (delete i ptrs).
Proof.
  intros Ha Hl Hi Hp j c Hj. unfold len in *. destruct (decide (j < i)%nat) as [Hlt|Hge].
  - rewrite list_lookup_delete_lt in Hj by done. rewrite r16_moved_other by (unfold len; lia). by apply Hp.
  - rewrite list_lookup_delete_ge in Hj by lia. pose proof (lookup_lt_Some _ _ _ Hj).
    rewrite r16_moved_in by (unfold len; lia). rewrite <- (Hp (S j) c Hj). f_equal. lia.
Qed.
Lemma pointers_insert a b ptrs i c :
  0 <= a -> a + 2 * len ptrs + 2 <= len b -> (i <= length ptrs)%nat -> is_u 16 c -> pointers_at a b ptrs ->
  let b' := moved b (a + 2 * Z.of_nat i) (2 * (len ptrs - Z.of_nat i)) (a + 2 * Z.of_nat i + 2) in
  pointers_at a (splice_ b' (a + 2 * Z.of_nat i) (be_bytes 2 c)) (take i ptrs ++ c :: drop i ptrs).
Proof.
  intros Ha Hl Hi Hc Hp b' j x Hj. assert (length (take i ptrs) = i) as Ht by (rewrite length_take; lia).
  assert (len b' = len b) as Lb by (apply len_moved; unfold len in *; lia).
  destruct (lt_eq_lt_dec j i) as [[Hlt| ->]|Hgt].
  - rewrite lookup_app_l, lookup_take_lt in Hj by lia. rewrite r16_splice_other by (rewrite ?len_be2; unfold len in *; lia).
    unfold b'. rewrite r16_moved_other by (unfold len in *; lia). by apply Hp.
  - rewrite lookup_app_r, Ht, Nat.sub_diag in Hj by lia. injection Hj as <-. apply r16_splice_same; unfold len in *; lia || done.
  - rewrite lookup_app_r, Ht in Hj by lia. replace (j - i)%nat with (S (j - i - 1)) in Hj by lia. simpl in Hj.
    rewrite lookup_drop in Hj. pose proof (lookup_lt_Some _ _ _ Hj).
    rewrite r16_splice_other by (rewrite ?len_be2; unfold len in *; lia).
    unfold b'. rewrite r16_moved_in by (unfold len in *; lia). rewrite <- (Hp _ _ Hj). f_equal. lia.
Qed.

(** * [drop_cell] *)

Lemma ranges_delete ptrs cells i c img :
  ptrs !! i = Some c -> cells !! i = Some img ->
  ranges ptrs cells ≡ₚ (c, len img) :: ranges (delete i ptrs) (delete i cells).
Proof.
  intros Hc Hi. unfold ranges. rewrite zip_with_delete. apply delete_Permutation.
  by rewrite lookup_zip_with, Hc, Hi.
Qed.

Lemma space_empty lo usable : lo <= usable -> space_ok lo usable usable 0 [].
Proof. intros Hl. split; try done; simpl; try lia; [constructor|]. intros k Hk. by apply elem_of_nil in Hk. Qed.

(** The header, the pointers and the other cells after the range of a cell was freed. *)
Lemma freed_frame off t usable b b' ptrs cells cca frag fbs i c img :
  layout_ok off t usable b ptrs cells cca frag fbs ->
  ptrs !! i = Some c -> cells !! i = Some img -> frame off ((c, len img) :: fbs) b b' ->
  byte b' off = page_type_u8 t /\ r16 b' (off + 3) = len cells /\ pointers_at (off + hdr t) b' ptrs /\
  images_at b' (delete i ptrs) (delete i cells).
Proof.
  intros Hlay Hc Hi [Hl Hf]. pose proof (lo_bounds Hlay) as Hb. pose proof (hdr_range t).
  pose proof Hlay as [L1 L2 L3 L4 L5 L6]. pose proof (lo_length Hlay) as Hlen.
  pose proof (ranges_delete _ _ _ _ _ Hc Hi) as Hp.
  pose proof (fo_space _ _ _ _ _ _ _ _ (free_ok_perm _ _ _ _ _ _ _ _ _ Hp L6)) as Hs.
  assert (Hlow : forall k, k < cca -> ~ (off + 1 <= k < off + 3) -> ~ (off + 5 <= k < off + 8) -> byte b' k = byte b k).
  { intros k H1 H2 H3. apply Hf. intros [?|[?|Hk]]; [lia..|]. apply elem_of_spans in Hk as (o & z & Hin & Hk).
    pose proof (space_range _ _ _ _ _ o z Hs
      ltac:(apply elem_of_app; apply elem_of_cons in Hin as [->|]; [right; by left|by left])). lia. }
  split_and!.
  - rewrite Hlow by lia. done.
  - unfold r16. rewrite !Hlow by lia. done.
  - eapply pointers_mem; [|done]. intros k Hk. apply Hlow; unfold len in *; lia.
  - eapply images_mem; [done| | |].
    + intros o z Hin. pose proof (space_range _ _ _ _ _ o z Hs ltac:(apply elem_of_app; right; by right)). lia.
    + intros k Hk. apply Hf. assert (cca <= k) as Hck.
      { apply elem_of_spans in Hk as (o & z & Hin & Hk).
        pose proof (space_range _ _ _ _ _ o z Hs ltac:(apply elem_of_app; right; by right)). lia. }
      intros [?|[?|Hk']]; [lia..|].
      eapply (space_disjoint _ _ _ _ ((c, len img) :: fbs) (ranges (delete i ptrs) (delete i cells)) k); [|done..].
      eapply space_perm; [|exact Hs]. solve_Permutation.
    + by apply Forall2_delete.
Qed.

Lemma run_array_offset p b t : 0 <= offset p < len b -> byte b (offset p) = page_type_u8 t ->
  rd cell_pointer_array_offset (set_buf p b) = (Ok (offset p + hdr t), set_buf p b).
Proof. intros H0 H1. apply rd_ok. unfold cell_pointer_array_offset. by rewrite (header_size_ok p b t H0 H1). Qed.

Lemma shift_pointers_left_ok p b t n i :
  0 <= offset p -> byte b (offset p) = page_type_u8 t -> r16 b (offset p + 3) = n -> 0 <= i < n ->
  offset p + hdr t + 2 * n <= len b ->
  let a := offset p + hdr t in
  shift_pointers_left i (set_buf p b) =
    (Ok tt, set_buf p (moved b (a + 2 * i + 2) (2 * (n - i - 1)) (a + 2 * i))).
Proof.
  intros H0 Ht Hn Hi Hl a. pose proof (hdr_range t). unfold shift_pointers_left. step run_count. rewrite Hn. pass.
  step run_array_offset. fold a.
  erewrite pbind_eq with (a := n - i - 1).
  2: { apply plift_ok. unfold usub. destruct (Z.leb_spec i n); [|lia]. rstep. by destruct (Z.leb_spec 1 (n - i)); [|lia]. }
  replace (a + i * 2 + 2) with (a + 2 * i + 2) by lia.
  replace (a + 2 * i + 2 - 2) with (a + 2 * i) by lia. rewrite (Z.mul_comm _ 2). apply run_copy_within; lia.
Qed.

(** A change of the pointer array and the cell count. *)
Lemma layout_change off t usable lo b b' ptrs cells cca frag fbs :
  free_ok off usable lo b cca frag fbs (ranges ptrs cells) -> byte b off = page_type_u8 t ->
  images_at b ptrs cells -> Forall (cell_ok t usable) cells -> off + hdr t + 2 * len cells <= cca ->
  bytes_ok b' -> len b' = len b ->
  (forall k, k < off + 3 \/ off + 5 <= k < off + 8 \/ cca <= k -> byte b' k = byte b k) ->
  r16 b' (off + 3) = len cells -> pointers_at (off + hdr t) b' ptrs ->
  layout_ok off t usable b' ptrs cells cca frag fbs.
Proof.
  intros Hok Ht Him Hcs Hlo Hb Hl Hk Hc Hp. pose proof (fo_bounds Hok). pose proof (hdr_range t).
  pose proof (len_nonneg cells).
  assert (Hsp : forall k rs', rs' = fbs \/ rs' = ranges ptrs cells -> k ∈ spans rs' -> cca <= k).
  { intros k rs' Hr Hin. apply elem_of_spans in Hin as (o & z & Hin & Hki).
    pose proof (space_range _ _ _ _ _ o z (fo_space _ _ _ _ _ _ _ _ Hok)) as Hx. rewrite elem_of_app in Hx.
    destruct Hr as [-> | ->]; [specialize (Hx (or_introl Hin))|specialize (Hx (or_intror Hin))]; lia. }
  split; [rewrite Hk by lia; done|done|done| |done|].
  - eapply images_mem; [done| | |done].
    + intros o z Hin. pose proof (fo_range Hok o z Hin). lia.
    + intros k Hin. apply Hk. right. right. by eapply Hsp; [right|].
  - eapply free_ok_weaken; [lia|]. eapply free_ok_mem; [done..|]. intros k [?|[?|Hin]]; apply Hk; [lia..|].
    right. right. by eapply Hsp; [left|].
Qed.

(** A change of the free-space fields of the header. *)
Lemma layout_reset off t usable b b' ptrs cells cca frag fbs :
  free_ok off usable (off + hdr t + 2 * len cells) b' cca frag fbs (ranges ptrs cells) -> frame off [] b b' ->
  byte b off = page_type_u8 t -> r16 b (off + 3) = len cells -> pointers_at (off + hdr t) b ptrs ->
  images_at b ptrs cells -> Forall (cell_ok t usable) cells ->
  layout_ok off t usable b' ptrs cells cca frag fbs.
Proof.
  intros Hok [Hl Hfr] Ht Hc Hp Him Hcs. pose proof (fo_bounds Hok). pose proof (hdr_range t). pose proof (len_nonneg cells).
  assert (Hk : forall k, k <= off \/ off + 3 <= k < off + 5 \/ off + 8 <= k -> byte b' k = byte b k).
  { intros k Hk. apply Hfr. unfold touched. simpl. rewrite elem_of_nil. lia. }
  split; [rewrite Hk by lia; done|unfold r16; rewrite !Hk by lia; done| | |done|done].
  - eapply pointers_mem; [|done]. intros k Hki. apply Hk. lia.
  - eapply images_mem; [done| | |done].
    + intros o z Hin. pose proof (fo_range Hok o z Hin). lia.
    + intros k Hin. apply elem_of_spans in Hin as (o & z & Hin & Hki). pose proof (fo_range Hok o z Hin). apply Hk. lia.
Qed.

Lemma len_delete {A} (l : list A) i : (i < length l)%nat -> len (delete i l) = len l - 1.
Proof. intros Hi. unfold len. rewrite length_delete by (by apply lookup_lt_is_Some). lia. Qed.

(** The removal of a pointer behind the release of its cell. *)
Lemma layout_delete off t usable b ptrs cells cca frag fbs i :
  free_ok off usable (off + hdr t + 2 * len cells) b cca frag fbs (ranges (delete i ptrs) (delete i cells)) ->
  byte b off = page_type_u8 t -> pointers_at (off + hdr t) b ptrs ->
  images_at b (delete i ptrs) (delete i cells) -> Forall (cell_ok t usable) cells ->
  length ptrs = length cells -> (i < length cells)%nat ->
  let a := off + hdr t in
  let b2 := moved b (a + 2 * Z.of_nat i + 2) (2 * (len cells - Z.of_nat i - 1)) (a + 2 * Z.of_nat i) in
  layout_ok off t usable (splice_ b2 (off + 3) (be_bytes 2 (len cells - 1))) (delete i ptrs) (delete i cells) cca frag fbs /\
  r16 b2 (off + 3) = r16 b (off + 3) /\ len b2 = len b.
Proof.
  intros Hok Ht Hp Him Hcs Hlen Hi a b2. pose proof (fo_bounds Hok). pose proof (hdr_range t).
  assert (len ptrs = len cells) as Hl by (unfold len; lia). assert (len cells = Z.of_nat (length cells)) as Hlc by done.
  assert (len b2 = len b) as Lb2 by (unfold b2, a; rewrite len_moved; lia).
  pose proof (len_delete cells i Hi) as Hd.
  split_and!; [|unfold b2, a; rewrite r16_moved_other by lia; done|done].
  eapply layout_change; [exact Hok|done|done|by apply Forall_delete|lia| | | | |].
  - apply splice_bytes_ok; [|auto with turso]. apply moved_bytes_ok; try lia. apply Hok.
  - rewrite len_splice_; rewrite ?len_be2; lia.
  - intros k Hk. rewrite byte_splice_other by (rewrite ?len_be2; lia). unfold b2, a. apply byte_moved_other; lia.
  - rewrite Hd. apply r16_splice_same; unfold is_u; lia.
  - apply pointers_mem with b2.
    + intros k Hk. apply byte_splice_other; rewrite ?len_be2; lia.
    + unfold b2. rewrite <- Hl. apply pointers_delete; done || lia.
Qed.

Lemma drop_cell_layout p t usable b ptrs cells cca frag fbs i c img :
  layout_ok (offset p) t usable b ptrs cells cca frag fbs ->
  ptrs !! i = Some c -> cells !! i = Some img ->
  exists b' ptrs' cca' frag' fbs',
    drop_cell (Z.of_nat i) usable (set_buf p b) = (Ok tt, set_buf p b') /\
    layout_ok (offset p) t usable b' ptrs' (delete i cells) cca' frag' fbs'.
Proof.
  intros Hlay Hc Hi. pose proof (lo_bounds Hlay) as Hb. pose proof (hdr_range t). pose proof (lo_length Hlay) as Hlen.
  pose proof Hlay as [L1 L2 L3 L4 L5 L6]. pose proof (lookup_lt_Some _ _ _ Hi) as Hil.
  pose proof (ranges_delete _ _ _ _ _ Hc Hi) as Hp. apply (free_ok_perm _ _ _ _ _ _ _ _ _ Hp) in L6.
  destruct (free_cell_range_ok p _ _ _ _ _ _ _ _ _ L6) as (b1 & Hrun & cca' & frag' & fbs' & Hok1 & Hfr).
  destruct (freed_frame _ _ _ _ _ _ _ _ _ _ _ _ _ Hlay Hc Hi Hfr) as (M1 & M2 & M3 & M4).
  pose proof (fo_bounds Hok1) as Hb1. assert (len cells = Z.of_nat (length cells)) as Hlc by done.
  unfold drop_cell. erewrite pbind_eq by (apply rd_ok; eapply cell_get_raw_region_ok; eauto). cbv beta iota.
  rewrite (pbind_eq _ _ _ _ _ Hrun). cbv beta. step run_count. rewrite M2.
  destruct (layout_delete _ _ _ _ _ _ _ _ _ _ Hok1 M1 M3 M4 L5 Hlen Hil) as (Hlay' & M2' & Lb2).
  destruct (Z.ltb_spec 1 (len cells)) as [Hgt|Hle].
  - eexists _, _, _, _, _. split; [|exact Hlay']. step shift_pointers_left_ok.
    step run_count. rewrite M2', M2. erewrite pbind_eq by (apply plift_ok; unfold usub; zcases; [reflexivity|lia]).
    apply run_write_count; lia.
  - destruct (free_ok_reset (offset p) usable (offset p + hdr t + 2 * len cells) b1 usable [] ltac:(apply Hok1) ltac:(lia)
      ltac:(lia) ltac:(lia) ltac:(apply space_empty; lia))
      as (R1 & R2 & Hok2 & [Lb3 Hfr2]).
    assert (delete i cells = []) as Hnil by (apply nil_length_inv; pose proof (len_delete cells i Hil); unfold len in *; lia).
    set (b3 := splice_ _ _ [0]) in *.
    exists (splice_ b3 (offset p + 3) (be_bytes 2 (len cells - 1))), [], usable, 0, []. rewrite Hnil. split.
    + erewrite pbind_eq with (p' := set_buf p b3).
      2: { step run_write_cca. step run_write_first. apply run_write_frag; lia. }
      cbv beta. step run_count. assert (r16 b3 (offset p + 3) = len cells) as ->.
      { unfold r16. rewrite !Hfr2; [done|unfold touched; simpl; rewrite elem_of_nil; lia..]. }
      erewrite pbind_eq by (apply plift_ok; unfold usub; zcases; [reflexivity|lia]).
      apply run_write_count; lia.
    + eapply layout_change; [exact Hok2| |constructor|constructor|unfold len at 1; simpl; lia| | | | |].
      * rewrite Hfr2; [done|unfold touched; simpl; rewrite elem_of_nil; lia].
      * apply splice_bytes_ok; [apply Hok2|auto with turso].
      * rewrite len_splice_; rewrite ?len_be2; lia.
      * intros k Hk. apply byte_splice_other; rewrite ?len_be2; lia.
      * change (len (@nil (list Z))) with 0. replace (len cells - 1) with 0 by lia. apply r16_splice_same; unfold is_u; lia.
      * intros j c' Hj. done.
Qed.
