(* ===== verification/BtreeDefrag.v ===== *)
(** Defragmentation keeps the cells of a page: the slow path of [defragment_page],
    which packs the cells against the end of the page, and the fast path, which moves
    the blocks of cells around at most two freeblocks. *)

From stdpp Require Import base list numbers sorting.
From Stdlib Require Import ZArith Lia.
From S2P Require Import Prelude Varint DbHeader Page BtreeSpace BtreePage BtreeInv BtreeCells.

(** * The cells as [defragment_page] gathers them *)

Fixpoint infos (i : Z) (ptrs : list Z) (cells : list (list Z)) : list CellInfo :=
  match ptrs, cells with
  | c :: ptrs, img :: cells =>
      {| old_offset := c; ci_size := len img; pointer_index := i |} :: infos (i + 1) ptrs cells
  | _, _ => []
  end.

Definition range_of (ci : CellInfo) : range := (old_offset ci, ci_size ci).

(** The offsets descend from [last] on. *)
Fixpoint descending (last : Z) (ptrs : list Z) : Prop :=
  match ptrs with
  | [] => True
  | c :: ptrs => c <= last /\ descending c ptrs
  end.

(** A cell lies before another one. *)
Definition below (x y : CellInfo) : Prop := old_offset y + ci_size y <= old_offset x.

(** * Gathering *)

Lemma gather_cells_ok p t usable b ptrs cells cca frag fbs mx mn :
  layout_ok (offset p) t usable b ptrs cells cca frag fbs ->
  payload_overflow_threshold_max t usable = Ok mx -> payload_overflow_threshold_min t usable = Ok mn ->
  forall ps P cs C s last, ptrs = P ++ ps -> cells = C ++ cs -> length P = length C -> length ps = length cs ->
  exists flag,
    gather_cells (length ps) (len P) usable (len cells) mx mn (offset p + hdr t) t s last (set_buf p b) =
      (Ok (infos (len P) ps cs, flag), set_buf p b) /\
    (flag = true -> s = true /\ descending last ps).
Proof.
  intros Hlay Hmx Hmn. pose proof (lo_bounds Hlay). pose proof (hdr_range t).
  induction ps as [|c ps IH]; intros P cs C s last Hp Hc Hl1 Hl2.
  { exists s. by split. }
  destruct cs as [|img cs]; [done|].
  assert (ptrs !! length P = Some c) as Hpi by (rewrite Hp; by apply list_lookup_middle).
  assert (cells !! length P = Some img) as Hci by (rewrite Hc; by apply list_lookup_middle).
  destruct (lo_range Hlay _ _ _ Hpi Hci) as (_ & Hco & _ & Hr). destruct Hco as [H4 _].
  pose proof (lo_pointers _ _ _ _ _ _ _ _ _ Hlay _ _ Hpi) as Hptr. fold (len P) in Hptr, Hr.
  destruct (IH (P ++ [c]) cs (C ++ [img]) (if last <? c then false else s) c) as (flag & Hrun & Hfl).
  { by rewrite <- app_assoc. }
  { by rewrite <- app_assoc. }
  { rewrite !length_app. simpl. lia. }
  { simpl in Hl2. lia. }
  rewrite len_app in Hrun. change (len [c]) with 1 in Hrun. exists flag. split.
  - cbn [length gather_cells infos]. step run_read16. rewrite (Z.mul_comm (len P)), Hptr.
    erewrite pbind_eq by (apply rd_ok; eapply cell_get_raw_region_faster_ok; eauto). cbv beta iota.
    rewrite (pbind_eq _ _ _ _ _ Hrun). cbv beta iota. rewrite wrap_small by (unfold is_u; lia). done.
  - intros Hf. apply Hfl in Hf as [Hs Hd]. destruct (Z.ltb_spec last c); [done|]. simpl. split_and!; done.
Qed.

Lemma infos_lookup i ptrs cells n ci :
  infos i ptrs cells !! n = Some ci ->
  exists c img, ptrs !! n = Some c /\ cells !! n = Some img /\
    ci = {| old_offset := c; ci_size := len img; pointer_index := i + Z.of_nat n |}.
Proof.
  revert i cells n. induction ptrs as [|c ptrs IH]; intros i [|img cells] n; simpl; try done.
  destruct n as [|n]; simpl.
  - intros [= <-]. exists c, img. split_and!; [done..|]. by rewrite Z.add_0_r.
  - intros Hn. apply IH in Hn as (c' & img' & H1 & H2 & ->). exists c', img'. split_and!; [done..|]. f_equal. lia.
Qed.
Lemma ranges_infos i ptrs cells : range_of <$> infos i ptrs cells = ranges ptrs cells.
Proof.
  revert i cells. induction ptrs as [|c ptrs IH]; intros i [|img cells]; [done..|].
  cbn [infos fmap list_fmap]. unfold ranges. simpl. f_equal. apply IH.
Qed.

(** * The order of the cells *)

Lemma sorted_below lo usable cca frag rs L :
  space_ok lo usable cca frag ((range_of <$> L) ++ rs) -> StronglySorted cell_before L -> StronglySorted below L.
Proof.
  revert rs. induction L as [|x L IH]; intros rs Hsp Hs; [constructor|].
  apply StronglySorted_inv in Hs as [Hs Hx]. constructor.
  - apply (IH (range_of x :: rs)); [|done]. eapply space_perm; [|exact Hsp]. cbn [fmap list_fmap]. solve_Permutation.
  - apply list.Forall_forall. intros y Hy. pose proof (proj1 (list.Forall_forall _ _) Hx y Hy) as Hle. unfold cell_before in Hle.
    pose proof (space_apart _ _ _ _ _ _ (range_of y) Hsp ltac:(apply elem_of_app; left; by apply list_elem_of_fmap_2)) as Ha.
    pose proof (space_range _ _ _ _ _ (old_offset x) (ci_size x) Hsp ltac:(by left)). unfold apart, below, range_of in *. simpl in *. lia.
Qed.

Lemma descending_all last ptrs c : descending last ptrs -> c ∈ ptrs -> c <= last.
Proof.
  revert last. induction ptrs as [|c' ptrs IH]; intros last Hd Hin; [by apply elem_of_nil in Hin|].
  simpl in Hd. apply elem_of_cons in Hin as [->|Hin]; [lia|]. pose proof (IH _ (proj2 Hd) Hin). lia.
Qed.
Lemma infos_in i ptrs cells ci : ci ∈ infos i ptrs cells -> old_offset ci ∈ ptrs.
Proof.
  intros Hin. apply list_elem_of_lookup in Hin as [n Hn]. apply infos_lookup in Hn as (c & img & Hc & _ & ->).
  by apply (list_elem_of_lookup_2 _ n).
Qed.
Lemma descending_sorted last i ptrs cells :
  descending last ptrs -> StronglySorted cell_before (infos i ptrs cells).
Proof.
  revert last i cells. induction ptrs as [|c ptrs IH]; intros last i [|img cells] Hd; try constructor; simpl in Hd.
  - apply (IH c), Hd.
  - apply list.Forall_forall. intros ci Hci. apply infos_in in Hci. unfold cell_before. simpl. by eapply descending_all; [apply Hd|].
Qed.

Global Instance cell_before_total : Total cell_before.
Proof. intros x y. unfold cell_before. lia. Qed.
Global Instance cell_before_trans : Transitive cell_before.
Proof. intros x y z. unfold cell_before. lia. Qed.

(** * Packing the cells *)

Section packing.
Context (a lo usable blen : Z) (cells : list (list Z)).
Context (Ha : 0 <= a) (Hlo : lo = a + 2 * len cells) (Hlen : usable <= blen <= 65536).

(** In the middle of the loop: [rest] is still to be moved, the cells of [done] are
    packed behind [cbrk]. *)
Record packing (b : list Z) (ptrs : list Z) (rest : list CellInfo) (done : list range) (cbrk : Z) : Prop := {
  pk_bytes : bytes_ok b;
  pk_len : len b = blen;
  pk_pointers : pointers_at a b ptrs;
  pk_images : images_at b ptrs cells;
  pk_rest : Forall (fun ci => exists i img, pointer_index ci = Z.of_nat i /\ ptrs !! i = Some (old_offset ci) /\
              cells !! i = Some img /\ ci_size ci = len img) rest;
  pk_sorted : StronglySorted below rest;
  pk_bounds : Forall (fun ci => lo <= old_offset ci /\ 4 <= ci_size ci /\ old_offset ci + ci_size ci <= cbrk) rest;
  pk_done : space_ok lo usable cbrk 0 done;
  pk_perm : ranges ptrs cells ≡ₚ done ++ (range_of <$> rest);
}.

Lemma moved_self b src n : 0 <= src -> 0 <= n -> src + n <= len b -> moved b src n src = b.
Proof.
  intros H1 H2 H3. apply bytes_ext; [by apply len_moved|]. intros k Hk. rewrite byte_moved by done.
  destruct (_ && _); [|done]. f_equal. lia.
Qed.

Lemma ranges_insert ptrs i c c' img :
  ptrs !! i = Some c -> cells !! i = Some img ->
  ranges ptrs cells ≡ₚ (c, len img) :: ranges (delete i ptrs) (delete i cells) /\
  ranges (<[i := c']> ptrs) cells ≡ₚ (c', len img) :: ranges (delete i ptrs) (delete i cells).
Proof.
  intros Hc Hi. split; [by apply ranges_delete|].
  assert (<[i := c']> ptrs !! i = Some c') as Hc' by (apply list_lookup_insert_eq; by eapply lookup_lt_Some).
  rewrite (ranges_delete _ _ _ _ _ Hc' Hi). f_equiv. f_equiv.
  rewrite !delete_take_drop, take_insert_ge, drop_insert_lt by lia. done.
Qed.

Lemma elem_of_delete_ne {A} (l : list A) i j x : l !! j = Some x -> j <> i -> x ∈ delete i l.
Proof.
  intros Hj Hne. destruct (decide (j < i)%nat).
  - apply (list_elem_of_lookup_2 _ j). by rewrite list_lookup_delete_lt by lia.
  - apply (list_elem_of_lookup_2 _ (j - 1)%nat). rewrite list_lookup_delete_ge by lia. by replace (S (j - 1)) with j by lia.
Qed.

(** One round of the loop. *)
Lemma packing_step b ptrs ci rest dn cbrk :
  packing b ptrs (ci :: rest) dn cbrk ->
  let new := cbrk - ci_size ci in
  let b1 := moved b (old_offset ci) (ci_size ci) new in
  let b' := splice_ b1 (a + pointer_index ci * 2) (be_bytes 2 new) in
  lo <= old_offset ci <= new /\ new + ci_size ci <= usable /\ 4 <= ci_size ci /\
  a <= a + pointer_index ci * 2 /\ a + pointer_index ci * 2 + 2 <= lo /\
  exists ptrs', packing b' ptrs' rest ((new, ci_size ci) :: dn) new.
Proof.
  intros [P1 P2 P3 P4 P5 P6 P7 P8 P9] new b1 b'. apply Forall_cons in P5 as [(i & img & Hix & Hp & Hc & Hsz) P5].
  apply Forall_cons in P7 as [Hb P7]. apply StronglySorted_inv in P6 as [P6 P6'].
  pose proof (so_bounds _ _ _ _ _ P8) as Hu. pose proof (lookup_lt_Some _ _ _ Hc) as Hi.
  assert (lo <= old_offset ci <= new /\ new + ci_size ci <= usable) as Hnew by (unfold new; lia).
  assert (Hpos : a + pointer_index ci * 2 + 2 <= lo) by (unfold len in *; lia).
  assert (Hlb1 : len b1 = len b) by (apply len_moved; lia).
  split_and!; try lia. exists (<[i := new]> ptrs).
  destruct (ranges_insert ptrs i _ new _ Hp Hc) as [Hr1 Hr2]. rewrite P9, <- Hsz in Hr1.
  assert (ranges (delete i ptrs) (delete i cells) ≡ₚ dn ++ (range_of <$> rest)) as Hr3.
  { apply (Permutation_cons_inv (a := range_of ci)). rewrite <- Hr1. cbn [fmap list_fmap]. solve_Permutation. }
  (* the bytes of the other cells *)
  assert (Hother : forall o z k, (o, z) ∈ dn ++ (range_of <$> rest) -> o <= k < o + z -> byte b' k = byte b k).
  { intros o z k Hin Hk. assert (lo <= o /\ (cbrk <= o \/ o + z <= new)) as Hd.
    { apply elem_of_app in Hin as [Hin|Hin].
      - pose proof (space_range _ _ _ _ _ o z P8 Hin). lia.
      - apply list_elem_of_fmap in Hin as (cj & [= -> ->] & Hcj).
        pose proof (proj1 (list.Forall_forall _ _) P7 _ Hcj). pose proof (proj1 (list.Forall_forall _ _) P6' _ Hcj) as Hbl.
        simpl in H. unfold below in Hbl. lia. }
    unfold b'. rewrite byte_splice_other by (rewrite ?len_be2; lia).
    unfold b1. apply byte_moved_other; unfold new in *; lia. }
  split.
  - apply splice_bytes_ok; [by apply moved_bytes_ok; try lia|auto with turso].
  - unfold b'. rewrite len_splice_; rewrite ?len_be2; lia.
  - intros j c Hj. destruct (decide (j = i)) as [->|Hne].
    + rewrite list_lookup_insert_eq in Hj by (by eapply lookup_lt_Some). injection Hj as <-. unfold b'.
      rewrite Hix, (Z.mul_comm _ 2). apply r16_splice_same; unfold is_u; lia.
    + rewrite list_lookup_insert_ne in Hj by done. rewrite <- (P3 j c Hj). pose proof (Forall2_length _ _ _ P4).
      apply lookup_lt_Some in Hj. unfold b'. rewrite r16_splice_other by (rewrite ?len_be2; unfold len in *; lia).
      unfold b1. apply r16_moved_other; unfold len in *; lia.
  - pose proof (proj1 (Forall2_same_length_lookup _ _ _) P4) as [Hl4 Him]. apply Forall2_same_length_lookup.
    split; [by rewrite length_insert|]. intros j c img' Hj Hcj. destruct (decide (j = i)) as [->|Hne].
    + rewrite list_lookup_insert_eq in Hj by (by eapply lookup_lt_Some). injection Hj as <-.
      assert (img' = img) as -> by congruence. rewrite <- (Him i _ _ Hp Hc) at 2.
      apply slice_bytes_shift; try lia; [unfold b'; rewrite len_splice_; rewrite ?len_be2; lia|]. intros d Hd.
      unfold b'. rewrite byte_splice_other by (rewrite ?len_be2; lia). unfold b1. rewrite byte_moved_in by lia.
      f_equal. lia.
    + rewrite list_lookup_insert_ne in Hj by done. rewrite <- (Him j c img' Hj Hcj) at 2.
      assert ((c, len img') ∈ dn ++ (range_of <$> rest)) as Hin.
      { rewrite <- Hr3. unfold ranges. rewrite zip_with_delete. apply (elem_of_delete_ne _ i j); [|done].
        by rewrite lookup_zip_with, Hj, Hcj. }
      pose proof (len_nonneg img'). assert (0 <= c /\ c + len img' <= len b) as Hcb.
      { apply elem_of_app in Hin as [Hin|Hin]; [pose proof (space_range _ _ _ _ _ _ _ P8 Hin); lia|].
        apply list_elem_of_fmap in Hin as (cj & Heq & Hin). injection Heq as -> Heq.
        pose proof (proj1 (list.Forall_forall _ _) P7 _ Hin) as Hx. simpl in Hx. lia. }
      apply slice_bytes_shift; try lia; [unfold b'; rewrite len_splice_; rewrite ?len_be2; lia|].
      intros d Hd. apply (Hother c (len img')); [done|lia].
  - apply list.Forall_forall. intros cj Hcj. pose proof (proj1 (list.Forall_forall _ _) P5 _ Hcj) as (j & imgj & J1 & J2 & J3 & J4).
    exists j, imgj. split_and!; try done. rewrite list_lookup_insert_ne; [done|]. intros <-.
    pose proof (proj1 (list.Forall_forall _ _) P6' _ Hcj) as Hbl. pose proof (proj1 (list.Forall_forall _ _) P7 _ Hcj) as Hx.
    unfold below in Hbl. simpl in Hx. assert (old_offset cj = old_offset ci) by congruence. lia.
  - done.
  - apply list.Forall_forall. intros cj Hcj. pose proof (proj1 (list.Forall_forall _ _) P6' _ Hcj) as Hbl.
    pose proof (proj1 (list.Forall_forall _ _) P7 _ Hcj) as Hx. unfold below in Hbl. simpl in Hx. lia.
  - unfold new. apply space_alloc_left; [done|lia|unfold new in *; lia].
  - rewrite Hr2, Hr3, <- Hsz. done.
Qed.

Lemma move_cells_ok p rest b ptrs dn cbrk :
  packing b ptrs rest dn cbrk ->
  exists b' ptrs' dn' cbrk',
    move_cells rest usable a lo cbrk (set_buf p b) = (Ok cbrk', set_buf p b') /\
    packing b' ptrs' [] dn' cbrk' /\ (forall k, k < a -> byte b' k = byte b k).
Proof.
  revert b ptrs dn cbrk. induction rest as [|ci rest IH]; intros b ptrs dn cbrk Hpk.
  { by exists b, ptrs, dn, cbrk. }
  pose proof (packing_step _ _ _ _ _ _ Hpk) as (S1 & S2 & S3 & S4 & S5 & ptrs' & Hpk').
  pose proof (pk_len _ _ _ _ _ Hpk) as Hlb. assert (0 <= lo) by (unfold len in *; lia).
  set (new := cbrk - ci_size ci) in *. set (b1 := moved b (old_offset ci) (ci_size ci) new) in *.
  assert (len b1 = len b) as Hlb1 by (apply len_moved; lia).
  destruct (IH _ _ _ _ Hpk') as (b' & ptrs'' & dn' & cbrk' & Hrun & Hpk'' & Hlow).
  exists b', ptrs'', dn', cbrk'. split_and!; [|done|].
  - cbn [move_cells]. erewrite pbind_eq by (apply plift_ok; unfold usub; destruct (Z.leb_spec (ci_size ci) cbrk); [reflexivity|unfold new in *; lia]).
    cbv beta zeta. fold new. erewrite pbind_eq by (apply passert_ok; zcases; done || lia). cbv beta.
    erewrite pbind_eq with (a := tt) (p' := set_buf p b1).
    2: { destruct (Z.eqb_spec new (old_offset ci)) as [Heq|Hne]; cbn [negb]; [|apply run_copy_within; lia].
         unfold b1. rewrite Heq, moved_self by lia. done. }
    cbv beta. pass; [|unfold PageSize_MAX in *; lia].
    rewrite wrap_small by (unfold is_u; lia). step run_write16. done.
  - intros k Hk. rewrite Hlow by done. rewrite byte_splice_other by (rewrite ?len_be2; lia).
    unfold b1. apply byte_moved_other; lia.
Qed.
End packing.

(** * The slow path *)

Lemma run_region_start p b t n : 0 <= offset p -> offset p + 8 <= len b ->
  byte b (offset p) = page_type_u8 t -> r16 b (offset p + 3) = n ->
  rd unallocated_region_start (set_buf p b) = (Ok (offset p + hdr t + 2 * n), set_buf p b).
Proof.
  intros H0 H1 H2 H3. apply rd_ok. unfold unallocated_region_start, cell_pointer_array_offset, cell_pointer_array_size.
  rewrite (header_size_ok p b t) by (lia || done). rstep.
  unfold cell_count, read_u16, BTREE_CELL_COUNT. change (offset (set_buf p b)) with (offset p). cbn [buf set_buf].
  rewrite u16_at_r16 by lia. rstep. rewrite H3. unfold CELL_PTR_SIZE_BYTES. f_equal. lia.
Qed.

Lemma process_cells_ok p t usable b ptrs cells cca frag fbs flag :
  layout_ok (offset p) t usable b ptrs cells cca frag fbs ->
  (flag = true -> descending 65535 ptrs) ->
  exists b' ptrs' cca',
    process_cells usable (infos 0 ptrs cells) flag (set_buf p b) = (Ok tt, set_buf p b') /\
    layout_ok (offset p) t usable b' ptrs' cells cca' 0 [].
Proof.
  intros Hlay Hflag. pose proof (lo_bounds Hlay). pose proof (hdr_range t). pose proof Hlay as [L1 L2 L3 L4 L5 L6].
  set (a := offset p + hdr t) in *. set (lo := a + 2 * len cells) in *.
  set (L := if flag then infos 0 ptrs cells else merge_sort cell_before (infos 0 ptrs cells)).
  assert (L ≡ₚ infos 0 ptrs cells) as HpL by (unfold L; destruct flag; [done|apply merge_sort_Permutation]).
  assert (space_ok lo usable cca frag ((range_of <$> L) ++ fbs)) as Hsp.
  { eapply space_perm; [|apply L6]. rewrite HpL, ranges_infos. solve_Permutation. }
  assert (StronglySorted cell_before L) as HsL.
  { unfold L. destruct flag; [by apply descending_sorted with 65535, Hflag|by apply StronglySorted_merge_sort; apply _]. }
  assert (packing a lo usable (len b) cells b ptrs L [] usable) as Hpk.
  { split; [apply L6|done..| | | | |by rewrite HpL, ranges_infos].
    - rewrite HpL. apply list.Forall_forall. intros ci Hin. apply list_elem_of_lookup in Hin as [n Hn].
      apply infos_lookup in Hn as (c & img & Hc & Hi & ->). by exists n, img.
    - by eapply sorted_below.
    - apply list.Forall_forall. intros ci Hin.
      pose proof (space_range _ _ _ _ _ (old_offset ci) (ci_size ci) Hsp
        ltac:(apply elem_of_app; left; by apply (list_elem_of_fmap_2 range_of))). simpl. lia.
    - apply space_empty. lia. }
  destruct (move_cells_ok a lo usable (len b) cells ltac:(lia) ltac:(done) ltac:(lia) p _ _ _ _ _ Hpk)
    as (b1 & ptrs' & dn & cbrk & Hrun & [Q1 Q2 Q3 Q4 _ _ _ Q8 Q9] & Hlow).
  cbn [fmap list_fmap] in Q9. rewrite app_nil_r in Q9. apply (space_perm _ _ _ _ _ _ (symmetry Q9)) in Q8.
  pose proof (so_bounds _ _ _ _ _ Q8) as Hcb.
  destruct (free_ok_reset (offset p) usable lo b1 cbrk _ Q1 ltac:(lia) ltac:(lia) ltac:(lia) Q8) as (R1 & R2 & Hok & Lb3 & Hfr).
  eexists _, ptrs', cbrk. split.
  - unfold process_cells. fold L. cbv zeta. step run_array_offset. step run_region_start. fold a lo.
    rewrite (pbind_eq _ _ _ _ _ Hrun). cbv beta. step run_write_cca. step run_write_first. apply run_write_frag; lia.
  - eapply layout_reset; [exact Hok|by split|..]; try done; [rewrite Hlow by lia; done|].
    unfold r16. rewrite !Hlow by lia. done.
Qed.

Lemma defragment_slow_ok p t usable b ptrs cells cca frag fbs :
  layout_ok (offset p) t usable b ptrs cells cca frag fbs -> cells <> [] ->
  exists b' ptrs' cca',
    defragment_slow usable (len cells) (set_buf p b) = (Ok tt, set_buf p b') /\
    layout_ok (offset p) t usable b' ptrs' cells cca' 0 [].
Proof.
  intros Hlay Hne. pose proof (lo_bounds Hlay). pose proof (hdr_range t). pose proof Hlay as [L1 L2 L3 L4 L5 L6].
  pose proof (lo_length Hlay) as Hlen. destruct cells as [|img cells0] eqn:Hcs; [done|]. rewrite <- Hcs in *.
  assert (cell_ok t usable img) as (_ & _ & mx & mn & Hmx & Hmn & _) by (rewrite Hcs in L5; by inversion L5).
  destruct (gather_cells_ok p t usable b ptrs cells cca frag fbs mx mn Hlay Hmx Hmn ptrs [] cells [] true 65535
    ltac:(done) ltac:(done) ltac:(done) Hlen) as (flag & Hrun & Hfl).
  destruct (process_cells_ok p t usable b ptrs cells cca frag fbs flag Hlay ltac:(intros Hf; by apply Hfl in Hf as [_ ?]))
    as (b' & ptrs' & cca' & Hrun' & Hlay').
  exists b', ptrs', cca'. split; [|done]. unfold defragment_slow. step run_array_offset.
  erewrite pbind_eq by (apply rd_ok, page_type_ok with (t := t); lia || done). cbv beta.
  erewrite pbind_eq by (apply plift_ok, Hmx). cbv beta. erewrite pbind_eq by (apply plift_ok, Hmn). cbv beta.
  unfold len at 1. rewrite Nat2Z.id, <- Hlen. change 0 with (len (@nil Z)) at 1. rewrite (pbind_eq _ _ _ _ _ Hrun). done.
Qed.

(** * The fast path *)

(** Where a byte of the content area goes when the freeblocks [(o1, z1)] and [(o2, z2)]
    are moved to its start; without a second freeblock, [z2] is 0 and [o2] is the end
    of the first one. *)
Definition shifted (o1 z1 o2 z2 k : Z) : Z :=
  if k <? o1 then k + (z1 + z2) else if k <? o2 then k + z2 else k.

Section fast.
Context (lo usable cca frag o1 z1 o2 z2 : Z) (fbs rs : list range).
Context (Hsp : space_ok lo usable cca frag (fbs ++ rs)) (Htot : total fbs = z1 + z2).
Context (H1 : cca <= o1) (H2 : 4 <= z1) (H3 : o1 + z1 <= o2) (H4 : 0 <= z2) (H5 : o2 + z2 <= usable).
Context (Hparts : forall o z, (o, z) ∈ rs -> o + z <= o1 \/ (o1 + z1 <= o /\ o + z <= o2) \/ o2 + z2 <= o).

Let σ := shifted o1 z1 o2 z2.

Lemma shifted_range o z d : (o, z) ∈ rs -> 0 <= d < z -> σ (o + d) = σ o + d.
Proof. intros Hin Hd. specialize (Hparts o z Hin). unfold σ, shifted. zcases; lia. Qed.

Lemma shifted_bounds o z : (o, z) ∈ rs -> cca + (z1 + z2) <= σ o /\ σ o + z <= usable.
Proof.
  intros Hin. specialize (Hparts o z Hin). pose proof (space_range _ _ _ _ _ o z Hsp ltac:(apply elem_of_app; by right)).
  unfold σ, shifted. zcases; lia.
Qed.

Lemma seqZ_shift o z : (forall d, 0 <= d < z -> σ (o + d) = σ o + d) -> seqZ (σ o) z = σ <$> seqZ o z.
Proof.
  intros Hd. unfold seqZ. rewrite <- list_fmap_compose. apply list_fmap_ext. intros i x Hx.
  apply lookup_seq in Hx as [-> Hi]. simpl. rewrite (Z.add_comm _ o), Hd by lia. lia.
Qed.

Lemma spans_shifted :
  spans ((fun '(o, z) => (σ o, z)) <$> rs) = σ <$> spans rs.
Proof.
  clear Hsp. induction rs as [|[o z] rs' IH]; [done|]. cbn [fmap list_fmap spans]. rewrite fmap_app. f_equal.
  - apply seqZ_shift. intros d Hd. specialize (Hparts o z ltac:(by left)). unfold σ, shifted. zcases; lia.
  - apply IH. intros o' z' Hin. apply Hparts. by right.
Qed.
Lemma total_shifted : total ((fun '(o, z) => (σ o, z)) <$> rs) = total rs.
Proof. clear. induction rs as [|[o z] rs' IH]; [done|]. rewrite fmap_cons. cbn [total]. by rewrite IH. Qed.

Lemma space_shifted : space_ok lo usable (cca + (z1 + z2)) frag ((fun '(o, z) => (σ o, z)) <$> rs).
Proof.
  pose proof Hsp as [S1 S2 S3 S4 S5 S6]. apply Forall_app in S2 as [_ S2]. rewrite total_app in S5.
  rewrite spans_app in S3. apply list.NoDup_app in S3 as (_ & _ & S3).
  split; [lia| | | |rewrite total_shifted; lia|done].
  - apply Forall_fmap. eapply Forall_impl; [exact S2|]. by intros [o z].
  - rewrite spans_shifted. apply NoDup_fmap_2_strong; [|done]. intros x y Hx Hy.
    apply elem_of_spans in Hx as (o & z & Hin & Hx). apply elem_of_spans in Hy as (o' & z' & Hin' & Hy).
    pose proof (Hparts o z Hin). pose proof (Hparts o' z' Hin'). unfold σ, shifted. zcases; lia.
  - intros k Hk. apply elem_of_spans in Hk as (o & z & Hin & Hk).
    apply list_elem_of_fmap in Hin as ([o' z'] & [= -> ->] & Hin). pose proof (shifted_bounds o' z' Hin). lia.
Qed.

(** The two moves. *)
Context (b : list Z) (Hlo : 0 <= lo) (Hb : usable <= len b).
Let b1 := moved b (o1 + z1) (o2 - (o1 + z1)) (o1 + (z1 + z2)).
Let b2 := moved b1 cca (o1 - cca) (cca + (z1 + z2)).

Lemma len_fast : len b1 = len b /\ len b2 = len b.
Proof.
  pose proof (so_bounds _ _ _ _ _ Hsp). assert (len b1 = len b) as Hl by (apply len_moved; lia).
  split; [done|]. rewrite <- Hl. apply len_moved; lia.
Qed.
Lemma byte_fast_low k : k < cca -> byte b2 k = byte b k.
Proof.
  pose proof (so_bounds _ _ _ _ _ Hsp). destruct len_fast as [Hl1 _]. intros Hk.
  unfold b2. rewrite byte_moved_other by lia. unfold b1. apply byte_moved_other; lia.
Qed.
Lemma byte_fast o z d : (o, z) ∈ rs -> 0 <= d < z -> byte b2 (σ o + d) = byte b (o + d).
Proof.
  intros Hin Hd. pose proof (so_bounds _ _ _ _ _ Hsp). destruct len_fast as [Hl1 _]. specialize (Hparts o z Hin).
  pose proof (space_range _ _ _ _ _ o z Hsp ltac:(apply elem_of_app; by right)).
  unfold b2, σ, shifted. destruct (Z.ltb_spec o o1); [|destruct (Z.ltb_spec o o2)].
  - rewrite byte_moved_in by lia. unfold b1. rewrite byte_moved_other by lia. f_equal. lia.
  - rewrite byte_moved_other by lia. unfold b1. rewrite byte_moved_in by lia. f_equal. lia.
  - rewrite byte_moved_other by lia. unfold b1. by rewrite byte_moved_other by lia.
Qed.
End fast.

Lemma ranges_fmap (f : Z -> Z) ptrs cells :
  ranges (f <$> ptrs) cells = (fun '(o, z) => (f o, z)) <$> ranges ptrs cells.
Proof.
  unfold ranges. revert cells. induction ptrs as [|c ptrs IH]; intros [|img cells]; [done..|].
  rewrite fmap_cons. cbn [zip_with]. rewrite fmap_cons. by rewrite IH.
Qed.

Lemma pointers_replace a b P c c' ps :
  0 <= a -> a + 2 * len (P ++ c :: ps) <= len b -> is_u 16 c' -> pointers_at a b (P ++ c :: ps) ->
  pointers_at a (splice_ b (a + 2 * len P) (be_bytes 2 c')) (P ++ c' :: ps).
Proof.
  intros Ha Hl Hc Hp j x Hj. unfold len in *. rewrite length_app in Hl. simpl in Hl.
  destruct (decide (j = length P)) as [->|Hne].
  - rewrite list_lookup_middle in Hj by done. injection Hj as <-. apply r16_splice_same; unfold len; lia || done.
  - rewrite r16_splice_other by (rewrite ?len_be2; unfold len; lia). apply Hp.
    destruct (decide (j < length P)%nat).
    + rewrite lookup_app_l in Hj |- * by lia. done.
    + rewrite lookup_app_r in Hj |- * by lia. replace (j - length P)%nat with (S (j - length P - 1)) in Hj |- * by lia. done.
Qed.

Lemma shift_pointers_ok p usable a o1 z1 o2 z2 fb2 n ps P b :
  0 <= a -> a + 2 * len (P ++ ps) <= len b -> usable <= 65535 + 1 -> n = len (P ++ ps) ->
  (fb2 = 0 /\ z2 = 0) \/ (0 < fb2 /\ fb2 = o2) ->
  pointers_at a b (P ++ ps) -> Forall (fun c => 0 <= c /\ 0 <= shifted o1 z1 o2 z2 c < usable) ps ->
  exists b', shift_pointers (length ps) usable a (len P) o1 fb2 (z1 + z2) z2 (set_buf p b) = (Ok tt, set_buf p b') /\
    pointers_at a b' (P ++ (shifted o1 z1 o2 z2 <$> ps)) /\ len b' = len b /\ (bytes_ok b -> bytes_ok b') /\
    (forall k, k < a \/ a + 2 * n <= k -> byte b' k = byte b k).
Proof.
  intros Ha Hl Hu -> Hor. revert P b Hl. induction ps as [|c ps IH]; intros P b Hl Hp Hb.
  { exists b. by split_and!. }
  apply Forall_cons in Hb as [[Hc0 Hc] Hb]. cbn [length shift_pointers].
  assert (a + 2 * len P + 2 <= len b) as Hlp by (rewrite len_app in Hl; unfold len in *; simpl in *; lia).
  assert (0 <= len P) as HP by apply len_nonneg.
  set (c' := shifted o1 z1 o2 z2 c) in *.
  assert (exists b1, (if c <? o1 then
             _ ← corrupt_if (usable <? c + (z1 + z2));
             write_u16_no_offset (a + len P * CELL_PTR_SIZE_BYTES) (wrap 16 (c + (z1 + z2)))
           else if (0 <? fb2) && (c <? fb2) then
             _ ← corrupt_if (usable <? c + z2);
             write_u16_no_offset (a + len P * CELL_PTR_SIZE_BYTES) (wrap 16 (c + z2))
           else mret tt) (set_buf p b) = (Ok tt, set_buf p b1) /\
      pointers_at a b1 (P ++ c' :: ps) /\ len b1 = len b /\ (bytes_ok b -> bytes_ok b1) /\
      forall k, k < a + 2 * len P \/ a + 2 * len P + 2 <= k -> byte b1 k = byte b k) as (b1 & Hrun1 & Hp1 & Hl1 & Hb1 & Hk1).
  { unfold CELL_PTR_SIZE_BYTES. rewrite (Z.mul_comm (len P)). unfold c', shifted in Hc |- *.
    destruct (Z.ltb_spec c o1); [|destruct (Z.ltb_spec 0 fb2), (Z.ltb_spec c fb2), (Z.ltb_spec c o2); simpl; try lia].
    1, 2: pass; rewrite wrap_small by (unfold is_u; lia); eexists; split_and!;
      [apply run_write16; lia|apply pointers_replace with c; unfold is_u; done || lia
      |rewrite len_splice_; rewrite ?len_be2; lia|auto with turso
      |intros k Hk; apply byte_splice_other; rewrite ?len_be2; lia].
    all: exists b; split_and!; try done; replace (c + z2) with c by lia; done. }
  destruct (IH (P ++ [c']) b1) as (b' & Hrun & Hp' & Hl' & Hb' & Hk').
  { rewrite Hl1, <- app_assoc. rewrite len_app in *. unfold len in *. simpl in *. lia. }
  { by rewrite <- app_assoc. }
  { done. }
  exists b'. split_and!; [| |lia|auto|].
  - erewrite pbind_eq; [|apply run_read16; unfold CELL_PTR_SIZE_BYTES; lia].
    replace (r16 b (a + len P * CELL_PTR_SIZE_BYTES)) with c.
    2: { rewrite <- (Hp (length P) c) by (by apply list_lookup_middle). unfold CELL_PTR_SIZE_BYTES, len. f_equal. lia. }
    cbv beta. rewrite (pbind_eq _ _ _ _ _ Hrun1). cbv beta. by rewrite len_app in Hrun.
  - by rewrite <- app_assoc in Hp'.
  - intros k Hk. rewrite Hk', Hk1; [done|..]; rewrite !len_app in *; unfold len in *; simpl in *; lia.
Qed.

(** The fields [defragment_page_fast] writes at its end. *)
Lemma free_ok_fast off usable lo b cca frag rs :
  bytes_ok b -> usable <= len b <= 65536 -> 0 <= off -> off + 8 <= lo -> byte b (off + 7) = frag ->
  space_ok lo usable cca frag rs ->
  let b1 := splice_ b (off + 5) (be_bytes 2 (wrap 16 cca)) in
  let b2 := splice_ b1 (off + 1) (be_bytes 2 0) in
  len b1 = len b /\ free_ok off usable lo b2 cca frag [] rs /\ frame off [] b b2.
Proof.
  intros Hb Hl Ho Hlo Hf Hsp b1 b2. pose proof (so_bounds _ _ _ _ _ Hsp).
  assert (len b1 = len b) as Lb1 by (unfold b1; rewrite len_splice_; rewrite ?len_be2; lia).
  split_and!; [done|split|].
  - unfold b2, b1. auto with turso.
  - unfold b2. rewrite len_splice_; rewrite ?len_be2; lia.
  - lia.
  - unfold b2. rewrite r16_splice_other by (rewrite ?len_be2; lia). apply r16_splice_same; [lia..|]. by apply wrap_is_u.
  - unfold b2, b1. rewrite !byte_splice_other by (fold b1; rewrite ?len_be2; lia). done.
  - split; [|done]. cbn [head_of]. apply r16_splice_same; unfold is_u; lia.
  - done.
  - done.
  - repeat (apply frame_splice; rewrite ?len_be2; try lia); [apply frame_refl|..]; intros k Hk; unfold touched; lia.
Qed.

Definition fast_case (fb2 o1 z1 o2 z2 : Z) (fbs : list range) : Prop :=
  (fb2 = 0 /\ z2 = 0 /\ o2 = o1 + z1 /\ fbs = [(o1, z1)]) \/ (fb2 = o2 /\ fbs = [(o1, z1); (o2, z2)]).

(** Where the blocks and the cells are. *)
Lemma fast_parts off usable lo b cca frag fbs rs fb2 o1 z1 o2 z2 :
  free_ok off usable lo b cca frag fbs rs -> fast_case fb2 o1 z1 o2 z2 fbs ->
  (cca <= o1 /\ 4 <= z1 /\ o1 + z1 <= o2 /\ 0 <= z2 /\ o2 + z2 <= usable) /\ total fbs = z1 + z2 /\ fb2 + 4 <= usable /\
  forall o z, (o, z) ∈ rs -> o + z <= o1 \/ (o1 + z1 <= o /\ o + z <= o2) \/ o2 + z2 <= o.
Proof.
  intros Hok Hcase. pose proof (fo_bounds Hok). pose proof (fo_asc _ _ _ _ _ _ _ _ Hok) as Ha. pose proof (fo_space _ _ _ _ _ _ _ _ Hok) as Hsp.
  destruct Hcase as [(-> & -> & -> & ->)|(-> & ->)]; simpl in Ha |- *.
  - pose proof (fo_block Hok o1 z1 ltac:(by left)). split_and!; try lia. intros o z Hin.
    pose proof (space_apart _ _ _ _ _ _ (o, z) Hsp Hin) as Hap. unfold apart in Hap. simpl in Hap. lia.
  - pose proof (fo_block Hok o1 z1 ltac:(by left)). pose proof (fo_block Hok o2 z2 ltac:(right; by left)).
    split_and!; try lia. intros o z Hin. pose proof (fo_range Hok o z Hin).
    pose proof (space_apart _ _ _ _ _ _ (o, z) Hsp ltac:(by right)) as Hap.
    assert (space_ok lo usable cca frag ((o2, z2) :: (o1, z1) :: rs)) as Hsp' by (eapply space_perm; [|exact Hsp]; constructor).
    pose proof (space_apart _ _ _ _ _ _ (o, z) Hsp' ltac:(by right)) as Hap'. unfold apart in *. simpl in *. lia.
Qed.

(** The cells after the moves and the change of the pointers. *)
Lemma layout_fast p t usable b ptrs cells cca frag fbs fb2 o1 z1 o2 z2 :
  layout_ok (offset p) t usable b ptrs cells cca frag fbs -> fast_case fb2 o1 z1 o2 z2 fbs ->
  let a := offset p + hdr t in
  let b1 := moved b (o1 + z1) (o2 - (o1 + z1)) (o1 + (z1 + z2)) in
  let b2 := moved b1 cca (o1 - cca) (cca + (z1 + z2)) in
  let cca' := cca + (z1 + z2) in
  len b1 = len b /\ len b2 = len b /\ r16 b2 (offset p + 3) = len cells /\ byte b2 (offset p) = page_type_u8 t /\
  exists b3,
    shift_pointers (length ptrs) usable a 0 o1 fb2 (z1 + z2) z2 (set_buf p b2) = (Ok tt, set_buf p b3) /\
    len b3 = len b /\
    let b4 := splice_ b3 (offset p + 5) (be_bytes 2 (wrap 16 cca')) in
    len b4 = len b /\
    layout_ok (offset p) t usable (splice_ b4 (offset p + 1) (be_bytes 2 0))
      (shifted o1 z1 o2 z2 <$> ptrs) cells cca' frag [].
Proof.
  intros Hlay Hcase a b1 b2 cca'. pose proof (lo_bounds Hlay). pose proof (hdr_range t). pose proof (lo_length Hlay) as Hlen.
  pose proof Hlay as [L1 L2 L3 L4 L5 L6]. pose proof (fo_space _ _ _ _ _ _ _ _ L6) as Hsp.
  destruct (fast_parts _ _ _ _ _ _ _ _ _ _ _ _ _ L6 Hcase) as ((Z1 & Z2 & Z3 & Z4 & Z5) & Z6 & _ & Hparts).
  set (lo := offset p + hdr t + 2 * len cells) in *.
  destruct (len_fast lo usable cca frag o1 z1 o2 z2 _ _ Hsp Z1 Z2 Z3 Z4 Z5 b ltac:(lia) ltac:(lia)) as [Hl1 Hl2].
  pose proof (byte_fast_low lo usable cca frag o1 z1 o2 z2 _ _ Hsp Z1 Z2 Z3 Z4 Z5 b ltac:(lia) ltac:(lia)) as Hlow.
  pose proof (byte_fast lo usable cca frag o1 z1 o2 z2 _ _ Hsp Z1 Z2 Z3 Z4 Z5 Hparts b ltac:(lia) ltac:(lia)) as Hby.
  pose proof (space_shifted lo usable cca frag o1 z1 o2 z2 _ _ Hsp Z6 Z1 Z2 Z3 Z4 Z5 Hparts) as Hsp'.
  pose proof (shifted_bounds lo usable cca frag o1 z1 o2 z2 _ _ Hsp Z1 Z2 Z3 Z4 Z5 Hparts) as Hbd.
  fold b1 in Hl1, Hl2, Hlow, Hby. fold b2 in Hl2, Hlow, Hby. rewrite <- ranges_fmap in Hsp'.
  assert (Hcell : forall i c img, ptrs !! i = Some c -> cells !! i = Some img ->
    (c, len img) ∈ ranges ptrs cells /\ slice_ b c (c + len img) = img /\ cca <= c /\ c + len img <= usable /\ 4 <= len img).
  { intros i c img Hc Hi. destruct (lo_range Hlay _ _ _ Hc Hi) as (? & [? _] & ? & ? & ? & _). done. }
  assert (len ptrs = len cells) as Hlpc by (unfold len; lia).
  assert (bytes_ok b2) as Hb2.
  { apply moved_bytes_ok; try lia. apply moved_bytes_ok; try lia. apply L6. }
  destruct (shift_pointers_ok p usable a o1 z1 o2 z2 fb2 (len ptrs) ptrs [] b2) as (b3 & Hrun & Hp3 & Hl3 & Hb3 & Hk3).
  { lia. }
  { change ([] ++ ptrs) with ptrs. lia. }
  { lia. }
  { done. }
  { destruct Hcase as [(-> & -> & _)|(-> & _)]; [by left|right; lia]. }
  { eapply pointers_mem; [|done]. intros k Hk. apply Hlow. change ([] ++ ptrs) with ptrs in Hk. lia. }
  { apply Forall_lookup. intros i c Hc. destruct (lookup_lt_is_Some_2 cells i) as [img Hi].
    { rewrite <- Hlen. by eapply lookup_lt_Some. }
    destruct (Hcell i c img Hc Hi) as (Hin & _ & ? & ? & ?). pose proof (Hbd _ _ Hin). lia. }
  assert (Hhigh : forall k, k < a \/ lo <= k -> byte b3 k = byte b2 k) by (intros k Hk; apply Hk3; lia).
  destruct (free_ok_fast (offset p) usable lo b3 cca' frag _
    (Hb3 Hb2) ltac:(lia) ltac:(lia) ltac:(lia)
    ltac:(rewrite Hhigh, Hlow by lia; apply L6) Hsp') as (Hl4 & Hok & Hfr).
  split_and!; try done; [unfold r16; rewrite !Hlow by lia; done|rewrite Hlow by lia; done|].
  exists b3. split; [done|]. split; [lia|]. cbv zeta. split; [lia|].
  eapply layout_reset; [exact Hok|done| | |done| |done].
  - rewrite Hhigh, Hlow by lia. done.
  - unfold r16. rewrite !Hhigh, !Hlow by lia. done.
  - apply Forall2_same_length_lookup. split; [by rewrite length_fmap|]. intros i c' img Hc' Hi.
    apply list_lookup_fmap_Some in Hc' as (c & -> & Hc). destruct (Hcell i c img Hc Hi) as (Hin & Hs & ? & ? & ?).
    pose proof (Hbd _ _ Hin). rewrite <- Hs at 2. apply slice_bytes_shift; try lia. intros d Hd.
    rewrite Hhigh by lia. by apply Hby with (len img).
Qed.

Lemma defragment_page_fast_ok p t usable b ptrs cells cca frag fbs fb2 o1 z1 o2 z2 :
  layout_ok (offset p) t usable b ptrs cells cca frag fbs -> fast_case fb2 o1 z1 o2 z2 fbs ->
  exists b' ptrs' cca',
    defragment_page_fast usable o1 fb2 (set_buf p b) = (Ok tt, set_buf p b') /\
    layout_ok (offset p) t usable b' ptrs' cells cca' frag [].
Proof.
  intros Hlay Hcase. pose proof (lo_bounds Hlay). pose proof (hdr_range t). pose proof (lo_length Hlay) as Hlen.
  pose proof (lo_free _ _ _ _ _ _ _ _ _ Hlay) as Hok. pose proof (fo_cca _ _ _ _ _ _ _ _ Hok) as Hcca.
  destruct (fast_parts _ _ _ _ _ _ _ _ _ _ _ _ _ Hok Hcase) as ((Z1 & Z2 & Z3 & Z4 & Z5) & _ & Z7 & _).
  destruct (layout_fast _ _ _ _ _ _ _ _ _ _ _ _ _ _ Hlay Hcase) as (Hl1 & Hl2 & Hc2 & Ht2 & b3 & Hrun & Hl3 & Hl4 & Hlay').
  eexists _, _, _. split; [|exact Hlay'].
  assert (r16 b (o1 + 2) = z1) as Hs1.
  { destruct (fo_chain _ _ _ _ _ _ _ _ Hok) as [_ Hb]. apply (blocks_in _ _ _ _ _ Hb).
    destruct Hcase as [(_ & _ & _ & ->)|(_ & ->)]; by left. }
  unfold defragment_page_fast. pass.
  erewrite pbind_eq by (apply corrupt_if_ok; destruct Hcase as [(-> & _)|(-> & _)]; zcases; simpl; done || lia). cbv beta.
  erewrite pbind_eq by (apply plift_ok; unfold usub; zcases; [reflexivity|lia]). cbv beta. pass.
  pass. step run_read16. rewrite Hs1.
  erewrite pbind_eq with (a := z2).
  2: { destruct Hcase as [(-> & -> & _)|(-> & ->)]; [done|]. destruct (Z.ltb_spec 0 o2); [|lia].
       destruct (fo_chain _ _ _ _ _ _ _ _ Hok) as [_ Hb]. rewrite <- (blocks_in _ _ _ o2 z2 Hb) by (right; by left).
       apply run_read16; lia. }
  cbv beta zeta. step run_cca.
  erewrite pbind_eq with (a := tt) (p' := set_buf p (moved b (o1 + z1) (o2 - (o1 + z1)) (o1 + (z1 + z2)))).
  2: { destruct Hcase as [(-> & -> & -> & _)|(-> & ->)].
       - rewrite Z.add_0_r, moved_self by lia. apply corrupt_if_ok. zcases; done || lia.
       - destruct (Z.ltb_spec 0 o2); [|lia]. pass. pass. apply run_copy_within; lia. }
  cbv beta. erewrite pbind_eq by (apply plift_ok; unfold usub; zcases; [reflexivity|lia]). cbv beta. pass.
  step run_copy_within. step run_count. rewrite Hc2. step run_array_offset.
  unfold len at 1. rewrite Nat2Z.id, <- Hlen. rewrite (pbind_eq _ _ _ _ _ Hrun). cbv beta.
  step run_write_cca. apply run_write_first; lia.
Qed.

(** * [defragment_page] *)

Lemma defragment_page_ok p t usable b ptrs cells cca frag fbs max_frag :
  layout_ok (offset p) t usable b ptrs cells cca frag fbs ->
  exists b' ptrs' cca' frag',
    defragment_page usable max_frag (set_buf p b) = (Ok tt, set_buf p b') /\
    layout_ok (offset p) t usable b' ptrs' cells cca' frag' [] /\ (frag' = 0 \/ frag' <= max_frag).
Proof.
  intros Hlay. pose proof (lo_bounds Hlay). pose proof (hdr_range t). pose proof (lo_length Hlay) as Hlen.
  pose proof Hlay as [L1 L2 L3 L4 L5 L6]. pose proof (fo_chain _ _ _ _ _ _ _ _ L6) as [Hf Hb].
  assert (cells <> [] -> exists b' ptrs' cca' frag', defragment_slow usable (len cells) (set_buf p b) = (Ok tt, set_buf p b') /\
    layout_ok (offset p) t usable b' ptrs' cells cca' frag' [] /\ (frag' = 0 \/ frag' <= max_frag)) as Hslow.
  { intros Hne. destruct (defragment_slow_ok _ _ _ _ _ _ _ _ _ Hlay Hne) as (b' & ptrs' & cca' & Hrun & Hlay').
    exists b', ptrs', cca', 0. split_and!; auto. }
  unfold defragment_page. step run_count. rewrite L2.
  destruct cells as [|img cells0] eqn:Hcs.
  { destruct ptrs; [|done]. clear Hslow.
    destruct (free_ok_reset (offset p) usable (offset p + hdr t + 2 * len (@nil (list Z))) b usable [] ltac:(apply L6) ltac:(lia)
      ltac:(lia) ltac:(lia) ltac:(apply space_empty; lia)) as (R1 & R2 & Hok & Hfr).
    eexists _, [], usable, 0. split_and!; [|by eapply layout_reset; [exact Hok|..]|by left].
    change (len (@nil (list Z)) =? 0) with true. cbv iota. step run_write_cca. step run_write_first. apply run_write_frag; lia. }
  rewrite <- Hcs in *. destruct (Z.eqb_spec (len cells) 0) as [Hz|Hz]; [rewrite Hcs in Hz; unfold len in Hz; simpl in Hz; lia|].
  specialize (Hslow ltac:(by rewrite Hcs)).
  step run_frag. rewrite (fo_frag _ _ _ _ _ _ _ _ L6). destruct (Z.leb_spec frag max_frag) as [Hle|]; [|done].
  step run_first. rewrite Hf. destruct fbs as [|[o1 z1] fbs].
  { exists b, ptrs, cca, frag. split_and!; auto. }
  pose proof (fo_block L6 o1 z1 ltac:(by left)). cbn [head_of]. destruct (Z.eqb_spec o1 0); [lia|].
  simpl in Hb. step run_read16. destruct Hb as (Hn1 & Hs1 & Hb). rewrite Hn1. destruct fbs as [|[o2 z2] fbs].
  { destruct (defragment_page_fast_ok p t usable b ptrs cells cca frag _ 0 o1 z1 (o1 + z1) 0 Hlay ltac:(by left)) as (b' & ptrs' & cca' & Hrun & Hlay').
    exists b', ptrs', cca', frag. split_and!; auto. }
  pose proof (fo_block L6 o2 z2 ltac:(right; by left)). cbn [head_of]. destruct (Z.eqb_spec o2 0); [lia|].
  simpl in Hb. step run_read16. destruct Hb as (Hn2 & Hs2 & Hb). rewrite Hn2. destruct fbs as [|[o3 z3] fbs].
  { destruct (defragment_page_fast_ok p t usable b ptrs cells cca frag _ o2 o1 z1 o2 z2 Hlay ltac:(by right)) as (b' & ptrs' & cca' & Hrun & Hlay').
    exists b', ptrs', cca', frag. split_and!; auto. }
  pose proof (fo_block L6 o3 z3 ltac:(do 2 right; by left)). cbn [head_of]. destruct (Z.eqb_spec o3 0); [lia|]. done.
Qed.
