(* ===== verification/BtreeInsert.v ===== *)
(** Insertion of a cell ([allocate_cell_space], [_insert_into_cell]) and the
    initialisation of a page, against the layout of BtreeCells.v. *)

From stdpp Require Import base list numbers sorting.
From Stdlib Require Import ZArith Lia.
From S2P Require Import Prelude Varint DbHeader Page BtreeSpace BtreePage BtreeInv BtreeCells BtreeDefrag.

(** A page that stores [cells] and has a range [(pc, amount)] allocated for one more, and
    room for its pointer. *)
Record reserved (off : Z) (t : PageType) (usable : Z) (b : list Z) (ptrs : list Z)
    (cells : list (list Z)) (cca frag : Z) (fbs : list range) (pc amount : Z) : Prop := {
  rv_type : byte b off = page_type_u8 t;
  rv_count : r16 b (off + 3) = len cells;
  rv_pointers : pointers_at (off + hdr t) b ptrs;
  rv_images : images_at b ptrs cells;
  rv_cells : Forall (cell_ok t usable) cells;
  rv_room : off + hdr t + 2 * len cells + 2 <= cca;
  rv_free : free_ok off usable (off + hdr t + 2 * len cells) b cca frag fbs ((pc, amount) :: ranges ptrs cells);
}.

(** The bytes a list of cells takes on a page, without the pointers. *)
Fixpoint sizes (cells : list (list Z)) : Z :=
  match cells with
  | [] => 0
  | img :: cells => len img + sizes cells
  end.

(** What [_insert_into_cell] needs to know of the bytes of a cell: it may be shorter than
    the four bytes that are allocated for it. *)
Definition payload_ok (t : PageType) (usable : Z) (payload : list Z) : Prop :=
  forall pad, bytes_ok pad -> len payload + len pad = Z.max 4 (len payload) -> cell_ok t usable (payload ++ pad).

Definition insert_at {A} (i : nat) (x : A) (l : list A) : list A := take i l ++ x :: drop i l.

(** * Allocation *)

Lemma total_ranges ptrs cells : length ptrs = length cells -> total (ranges ptrs cells) = sizes cells.
Proof.
  revert cells. induction ptrs as [|c ptrs IH]; intros [|img cells]; try done. simpl. intros [= Hl].
  unfold ranges in *. by rewrite IH.
Qed.

(** A change of the free-space fields and of the freeblocks keeps the cells. *)
Lemma layout_frame off t usable b b' ptrs cells cca frag fbs :
  layout_ok off t usable b ptrs cells cca frag fbs -> frame off fbs b b' ->
  byte b' off = page_type_u8 t /\ r16 b' (off + 3) = len cells /\ pointers_at (off + hdr t) b' ptrs /\
  images_at b' ptrs cells.
Proof.
  intros Hlay [Hl Hf]. pose proof (lo_bounds Hlay). pose proof (hdr_range t). pose proof (lo_length Hlay) as Hlen.
  pose proof Hlay as [L1 L2 L3 L4 L5 L6]. pose proof (fo_space _ _ _ _ _ _ _ _ L6) as Hsp.
  assert (Hk : forall k, k <= off \/ off + 3 <= k < off + 5 \/ off + 8 <= k < cca -> byte b' k = byte b k).
  { intros k Hk. apply Hf. intros [?|[?|Hin]]; [lia..|]. apply elem_of_spans in Hin as (o & z & Hin & Hki).
    pose proof (fo_block L6 o z Hin). lia. }
  split_and!; [rewrite Hk by lia; done|unfold r16; rewrite !Hk by lia; done|..].
  - eapply pointers_mem; [|done]. intros k Hki. apply Hk. unfold len in *. lia.
  - eapply images_mem; [done| | |done].
    + intros o z Hin. pose proof (fo_range L6 o z Hin). lia.
    + intros k Hin. apply Hf. intros Ht. assert (cca <= k) as Hck.
      { apply elem_of_spans in Hin as (o & z & Hin & Hki). pose proof (fo_range L6 o z Hin). lia. }
      destruct Ht as [?|[?|Ht]]; [lia..|]. by eapply space_disjoint.
Qed.

(** Lowering the start of the content area. *)
Lemma layout_reserve off t usable b ptrs cells cca frag fbs amount :
  layout_ok off t usable b ptrs cells cca frag fbs -> 4 <= amount ->
  off + hdr t + 2 * len cells + 2 <= cca - amount ->
  reserved off t usable (splice_ b (off + 5) (be_bytes 2 (wrap 16 (cca - amount)))) ptrs cells
    (cca - amount) frag fbs (cca - amount) amount.
Proof.
  intros Hlay Ha Hr. pose proof (lo_bounds Hlay). pose proof (hdr_range t).
  set (b' := splice_ b (off + 5) (be_bytes 2 (wrap 16 (cca - amount)))).
  assert (len b' = len b) as Hl by (unfold b'; rewrite len_splice_; rewrite ?len_be2; lia).
  destruct (layout_frame off t usable b b' ptrs cells cca frag fbs Hlay) as (F1 & F2 & F3 & F4).
  { apply frame_splice; rewrite ?len_be2; try lia; [apply frame_refl|]. intros k Hk. unfold touched. lia. }
  pose proof Hlay as [L1 L2 L3 L4 L5 L6]. pose proof L6 as [G1 G2 G3 G4 G5 G6 G7 G8].
  split; try done. split; try done.
  - apply splice_bytes_ok; auto with turso.
  - lia.
  - apply r16_splice_same; [lia..|]. by apply wrap_is_u.
  - unfold b'. rewrite byte_splice_other by (rewrite ?len_be2; lia). done.
  - apply chain_splice; rewrite ?len_be2; try lia; [done|]. intros o z Hin. pose proof (fo_block L6 o z Hin). lia.
  - eapply space_perm; [|apply space_alloc_left; [exact G8|lia|lia]]. solve_Permutation.
Qed.

Lemma allocate_cell_space_ok p t usable b ptrs cells cca frag fbs amount free :
  layout_ok (offset p) t usable b ptrs cells cca frag fbs ->
  free = usable - (offset p + hdr t + 2 * len cells) - sizes cells -> Z.max 4 amount + 2 <= free ->
  exists b' ptrs' cca' frag' fbs' pc,
    allocate_cell_space amount usable free (set_buf p b) = (Ok pc, set_buf p b') /\
    reserved (offset p) t usable b' ptrs' cells cca' frag' fbs' pc (Z.max 4 amount).
Proof.
  intros Hlay Hfree Hle. pose proof (lo_bounds Hlay). pose proof (hdr_range t).
  pose proof Hlay as [L1 L2 L3 L4 L5 L6]. pose proof (fo_total L6) as Htot. pose proof (fo_frag_range L6).
  rewrite (total_ranges _ _ (lo_length Hlay)) in Htot. pose proof (fo_cca _ _ _ _ _ _ _ _ L6). pose proof (fo_chain _ _ _ _ _ _ _ _ L6) as [Hf _].
  set (lo := offset p + hdr t + 2 * len cells) in *.
  unfold allocate_cell_space, MINIMUM_CELL_SIZE, CELL_PTR_SIZE_BYTES.
  replace (if amount <? 4 then 4 else amount) with (Z.max 4 amount) by (zcases; lia).
  assert (4 <= Z.max 4 amount) as Ha by lia. generalize dependent (Z.max 4 amount). clear amount. intros amount Hle Ha.
  step run_region_start. fold lo. step run_cca. step run_first.
  assert (exists r b1, (if negb (r16 b (offset p + 1) =? 0) && (lo + 2 <=? cca)
      then find_free_slot usable amount else mret None) (set_buf p b) = (Ok r, set_buf p b1) /\
    slot_spec (offset p) usable lo b cca fbs (ranges ptrs cells) amount r b1 /\ (r <> None -> lo + 2 <= cca))
    as (r & b1 & Hrun & Hslot & Hroom).
  { destruct (negb (r16 b (offset p + 1) =? 0)), (Z.leb_spec (lo + 2) cca); simpl;
      try (exists None, b; split_and!; done || reflexivity).
    destruct (find_free_slot_ok p _ _ _ _ _ _ _ amount L6 ltac:(lia)) as (r & b1 & Hrun & Hs).
    exists r, b1. by split_and!. }
  rewrite (pbind_eq _ _ _ _ _ Hrun). cbv beta. destruct r as [pc|].
  { destruct Hslot as (frag' & fbs' & Hok & Hfr). destruct (layout_frame _ _ _ _ _ _ _ _ _ _ Hlay Hfr) as (F1 & F2 & F3 & F4).
    pose proof (fo_range Hok pc amount ltac:(by left)). exists b1, ptrs, cca, frag', fbs', pc.
    split; [|split; try done; by apply Hroom]. rewrite wrap_small by (unfold is_u; lia). done. }
  simpl in Hslot. subst b1.
  assert (exists b1 ptrs1 cca1 frag1 fbs1,
    (if cca <? lo + 2 + amount then
       _ ← defragment_page usable (Z.min 4 (free - (2 + amount)));
       rd cell_content_area
     else mret cca) (set_buf p b) = (Ok cca1, set_buf p b1) /\
    layout_ok (offset p) t usable b1 ptrs1 cells cca1 frag1 fbs1 /\ lo + 2 + amount <= cca1)
    as (b1 & ptrs1 & cca1 & frag1 & fbs1 & Hrun1 & Hlay1 & Hroom1).
  { destruct (Z.ltb_spec cca (lo + 2 + amount)) as [Hlt|Hge]; [|by exists b, ptrs, cca, frag, fbs].
    destruct (defragment_page_ok p t usable b ptrs cells cca frag fbs (Z.min 4 (free - (2 + amount))) Hlay)
      as (b1 & ptrs1 & cca1 & frag1 & Hr1 & Hlay1 & Hfr1).
    pose proof (lo_bounds Hlay1). pose proof (lo_free _ _ _ _ _ _ _ _ _ Hlay1) as Hok1. pose proof (fo_cca _ _ _ _ _ _ _ _ Hok1).
    exists b1, ptrs1, cca1, frag1, []. split_and!; [|done|].
    - rewrite (pbind_eq _ _ _ _ _ Hr1). cbv beta. apply run_cca; lia || done.
    - pose proof (fo_total Hok1) as Ht. rewrite (total_ranges _ _ (lo_length Hlay1)) in Ht. simpl in Ht. fold lo in Hok1. lia. }
  rewrite (pbind_eq _ _ _ _ _ Hrun1). cbv beta. pose proof (lo_bounds Hlay1).
  erewrite pbind_eq by (apply plift_ok; unfold usub; zcases; [reflexivity|lia]). cbv beta.
  step run_write_cca. pass. eexists _, _, _, _, _, _. split; [reflexivity|].
  pose proof (layout_reserve _ _ _ _ _ _ _ _ _ amount Hlay1 ltac:(lia) ltac:(lia)) as Hr.
  rewrite wrap_small in Hr |- * by (unfold is_u; lia). exact Hr.
Qed.

(** * Storing the cell *)

Lemma len_insert_at {A} i (x : A) l : len (insert_at i x l) = len l + 1.
Proof. unfold insert_at, len. rewrite length_app. simpl. rewrite length_take, length_drop. lia. Qed.
Lemma ranges_insert_at i c img ptrs cells :
  length ptrs = length cells ->
  ranges (insert_at i c ptrs) (insert_at i img cells) ≡ₚ (c, len img) :: ranges ptrs cells.
Proof.
  intros Hl. unfold ranges, insert_at. rewrite zip_with_app by (rewrite !length_take; lia). simpl.
  rewrite <- (take_drop i ptrs) at 3. rewrite <- (take_drop i cells) at 3.
  rewrite zip_with_app by (rewrite !length_take; lia). solve_Permutation.
Qed.
Lemma sizes_insert_at i img cells : sizes (insert_at i img cells) = len img + sizes cells.
Proof.
  unfold insert_at. revert i. induction cells as [|x cells IH]; intros [|i]; simpl; try lia. rewrite IH. lia.
Qed.

(** Writing the bytes of the new cell. *)
Lemma reserved_store off t usable b ptrs cells cca frag fbs pc img i :
  reserved off t usable b ptrs cells cca frag fbs pc (len img) -> cell_ok t usable img ->
  (i <= length cells)%nat ->
  let b' := splice_ b pc img in
  let ptrs' := insert_at i pc ptrs in
  let cells' := insert_at i img cells in
  len b' = len b /\ byte b' off = page_type_u8 t /\ r16 b' (off + 3) = len cells /\ pointers_at (off + hdr t) b' ptrs /\
  images_at b' ptrs' cells' /\ Forall (cell_ok t usable) cells' /\
  free_ok off usable (off + hdr t + 2 * len cells) b' cca frag fbs (ranges ptrs' cells').
Proof.
  intros [V1 V2 V3 V4 V5 V6 V7] Hcell Hi b' ptrs' cells'. pose proof (fo_bounds V7) as Hb. pose proof (hdr_range t).
  pose proof (fo_range V7 pc (len img) ltac:(by left)) as Hpc. pose proof (Forall2_length _ _ _ V4) as Hlen.
  pose proof (fo_space _ _ _ _ _ _ _ _ V7) as Hsp. pose proof (len_nonneg cells).
  assert (len b' = len b) as Hl by (unfold b'; rewrite len_splice_; lia).
  assert (Hk : forall k, k < pc \/ pc + len img <= k -> byte b' k = byte b k).
  { intros k Hk. apply byte_splice_other; lia. }
  assert (Hdis : forall k rs', rs' = fbs \/ rs' = ranges ptrs cells -> k ∈ spans rs' -> byte b' k = byte b k).
  { intros k rs' Hr Hin. apply Hk. destruct (Z.ltb_spec k pc), (Z.leb_spec (pc + len img) k); try (lia || tauto). exfalso.
    assert (k ∈ spans [(pc, len img)]) as Hin' by (simpl; rewrite app_nil_r; apply elem_of_seqZ; lia).
    assert (space_ok (off + hdr t + 2 * len cells) usable cca frag ([(pc, len img)] ++ (fbs ++ ranges ptrs cells))) as Hsp'
      by (eapply space_perm; [|exact Hsp]; solve_Permutation).
    eapply (space_disjoint _ _ _ _ _ _ k Hsp' Hin'). rewrite spans_app. apply elem_of_app.
    destruct Hr as [-> | ->]; auto. }
  split_and!; [done|rewrite Hk by lia; done|unfold r16; rewrite !Hk by lia; done| | | |].
  - eapply pointers_mem; [|done]. intros k Hki. apply Hk. unfold len in *. lia.
  - assert (images_at b' ptrs cells) as Him.
    { eapply images_mem; [done| | |done].
      - intros o z Hin. pose proof (fo_range V7 o z ltac:(by right)). lia.
      - intros k Hin. by eapply Hdis; [right|]. }
    unfold images_at, ptrs', cells', insert_at. apply Forall2_app; [by apply Forall2_take|]. constructor; [|by apply Forall2_drop].
    unfold b', splice_, slice_. rewrite drop_app_length' by (rewrite length_take; unfold len in *; lia).
    apply take_app_length'. unfold len. lia.
  - unfold cells', insert_at. apply Forall_app. split; [by apply Forall_take|]. constructor; [done|by apply Forall_drop].
  - eapply free_ok_perm; [symmetry; by apply ranges_insert_at|]. eapply free_ok_mem; [exact V7| |done|].
    + apply splice_bytes_ok; [apply V7|apply Hcell].
    + intros k [?|[?|Hin]]; [apply Hk; lia..|by eapply Hdis; [left|]].
Qed.

(** Inserting the pointer and counting the cell. *)
Lemma layout_insert off t usable b ptrs cells cca frag fbs pc img i :
  reserved off t usable b ptrs cells cca frag fbs pc (len img) -> cell_ok t usable img ->
  (i <= length cells)%nat ->
  let a := off + hdr t in
  let b1 := splice_ b pc img in
  let b2 := moved b1 (a + 2 * Z.of_nat i) (2 * (len cells - Z.of_nat i)) (a + 2 * Z.of_nat i + 2) in
  let b3 := splice_ b2 (a + 2 * Z.of_nat i) (be_bytes 2 pc) in
  len b1 = len b /\ len b2 = len b /\ len b3 = len b /\ byte b1 off = page_type_u8 t /\ r16 b1 (off + 3) = len cells /\
  r16 b3 (off + 3) = len cells /\ is_u 16 (len cells + 1) /\
  layout_ok off t usable (splice_ b3 (off + 3) (be_bytes 2 (len cells + 1)))
    (insert_at i pc ptrs) (insert_at i img cells) cca frag fbs.
Proof.
  intros Hv Hcell Hi a b1 b2 b3. pose proof Hv as [V1 V2 V3 V4 V5 V6 V7]. pose proof (fo_bounds V7). pose proof (hdr_range t).
  pose proof (fo_range V7 pc (len img) ltac:(by left)) as Hpc. pose proof (Forall2_length _ _ _ V4) as Hlen.
  destruct (reserved_store _ _ _ _ _ _ _ _ _ _ _ _ Hv Hcell Hi) as (Hl1 & T1 & C1 & P1 & I1 & O1 & F1). fold b1 in Hl1, T1, C1, P1, I1, F1.
  assert (len ptrs = len cells) as Hlpc by (unfold len; lia). assert (0 <= Z.of_nat i <= len cells) as Hi' by (unfold len; lia).
  assert (len b2 = len b) as Hl2 by (rewrite <- Hl1; apply len_moved; lia).
  assert (len b3 = len b) as Hl3 by (unfold b3; rewrite len_splice_; rewrite ?len_be2; lia).
  assert (Hk3 : forall k, k < a \/ a + 2 * len cells + 2 <= k -> byte b3 k = byte b1 k).
  { intros k Hk. unfold b3. rewrite byte_splice_other by (rewrite ?len_be2; lia). unfold b2. apply byte_moved_other; lia. }
  split_and!; try done; [unfold r16; rewrite !Hk3 by lia; done|unfold is_u; lia|].
  eapply layout_change; [exact F1|done|done|done|rewrite len_insert_at; lia| | | | |].
  - apply splice_bytes_ok; [|auto with turso]. apply splice_bytes_ok; [|auto with turso]. apply moved_bytes_ok; try lia. apply F1.
  - rewrite len_splice_; rewrite ?len_be2; lia.
  - intros k Hk. rewrite byte_splice_other by (rewrite ?len_be2; lia). apply Hk3. lia.
  - rewrite len_insert_at. apply r16_splice_same; unfold is_u; lia.
  - apply pointers_mem with b3.
    + intros k Hk. apply byte_splice_other; rewrite ?len_be2; lia.
    + unfold b3, b2. rewrite <- Hlpc. apply pointers_insert; unfold is_u; lia || done.
Qed.

Lemma moved_none b src dst : 0 <= dst <= len b -> 0 <= src <= len b -> moved b src 0 dst = b.
Proof.
  intros Hd Hs. apply bytes_ext; [apply len_moved; lia|]. intros k Hk. apply byte_moved_other; lia.
Qed.

Lemma run_write_bytes p b pos src : 0 <= pos -> pos + len src <= len b ->
  wr (fun p => write_at (buf p) pos src) (set_buf p b) = (Ok tt, set_buf p (splice_ b pos src)).
Proof. intros. by erewrite wr_ok by (by apply write_at_ok). Qed.

Lemma splice_pad b pc payload n :
  0 <= pc -> len payload <= n -> pc + n <= len b ->
  splice_ b pc (payload ++ slice_ b (pc + len payload) (pc + n)) = splice_ b pc payload.
Proof.
  intros H0 H1 H2. pose proof (len_nonneg payload).
  assert (len (slice_ b (pc + len payload) (pc + n)) = n - len payload) as Ls by (rewrite len_slice_; lia).
  apply bytes_ext; [rewrite !len_splice_; rewrite ?len_app, ?Ls; lia|]. intros k _.
  rewrite !byte_splice; rewrite ?len_app, ?Ls; try lia.
  destruct (Z.leb_spec pc k), (Z.ltb_spec k (pc + (len payload + (n - len payload)))), (Z.ltb_spec k (pc + len payload)); simpl; try lia; try done.
  - by rewrite byte_app_l by lia.
  - rewrite byte_app_r, byte_slice by lia. f_equal. lia.
Qed.

Lemma insert_into_cell_layout p t usable b ptrs cells cca frag fbs i payload allow :
  layout_ok (offset p) t usable b ptrs cells cca frag fbs -> payload_ok t usable payload -> (i <= length cells)%nat ->
  (overflow_cells p = [] \/ allow = true) ->
  Z.max 4 (len payload) + 2 <= usable - (offset p + hdr t + 2 * len cells) - sizes cells ->
  exists b' ptrs' cca' frag' fbs' pad,
    insert_into_cell_ payload (Z.of_nat i) usable allow (set_buf p b) = (Ok tt, set_buf p b') /\
    len payload + len pad = Z.max 4 (len payload) /\
    layout_ok (offset p) t usable b' ptrs' (insert_at i (payload ++ pad) cells) cca' frag' fbs'.
Proof.
  intros Hlay Hcell Hi Hov Hfit. pose proof (lo_bounds Hlay). pose proof (hdr_range t). pose proof Hlay as [L1 L2 L3 L4 L5 L6].
  assert (0 <= Z.of_nat i <= len cells) as Hi' by (unfold len; lia).
  destruct (allocate_cell_space_ok p t usable b ptrs cells cca frag fbs (len payload) _ Hlay eq_refl ltac:(lia))
    as (b0 & ptrs' & cca' & frag' & fbs' & pc & Hrun & Hv). pose proof (len_nonneg payload).
  pose proof (fo_bounds (rv_free _ _ _ _ _ _ _ _ _ _ _ Hv)) as Hb0.
  pose proof (fo_range (rv_free _ _ _ _ _ _ _ _ _ _ _ Hv) pc _ ltac:(by left)) as Hpc.
  set (pad := slice_ b0 (pc + len payload) (pc + Z.max 4 (len payload))).
  assert (len payload + len pad = Z.max 4 (len payload)) as Hpad by (unfold pad; rewrite len_slice_; lia).
  assert (bytes_ok pad) as Hpo by (unfold pad, slice_; pose proof (fo_bytes _ _ _ _ _ _ _ _ (rv_free _ _ _ _ _ _ _ _ _ _ _ Hv)); auto with turso).
  pose proof (Hcell pad Hpo Hpad) as Hc. rewrite <- Hpad, <- len_app in Hv.
  destruct (layout_insert _ _ _ _ _ _ _ _ _ _ _ _ Hv Hc Hi) as (Hl1 & Hl2 & Hl3 & T1 & C1 & C3 & Hu & Hlay').
  assert (splice_ b0 pc (payload ++ pad) = splice_ b0 pc payload) as Hsp by (apply splice_pad; lia).
  rewrite Hsp in Hl1, Hl2, Hl3, T1, C1, C3, Hlay'.
  eexists _, _, _, _, _, pad. split; [|split; [done|exact Hlay']]. unfold insert_into_cell_.
  step run_count. rewrite L2. erewrite pbind_eq by (apply rd_ok; reflexivity). cbn [overflow_cells set_buf].
  pose proof (len_nonneg (overflow_cells p)). pass.
  erewrite pbind_eq by (eapply compute_free_space_free; [exact L1|exact L2|exact L6]). cbv beta.
  rewrite (total_ranges _ _ (lo_length Hlay)).
  replace (if negb (len (overflow_cells p) =? 0) && negb allow then false else _) with true.
  2: { unfold CELL_PTR_SIZE_BYTES. destruct Hov as [-> | ->]; cbn [len length Z.of_nat Z.eqb negb andb];
         rewrite ?andb_false_r; symmetry; apply Z.leb_le; lia. }
  cbn [negb]. pass. rewrite (pbind_eq _ _ _ _ _ Hrun). cbv beta. pass.
  step run_write_bytes.
  step run_array_offset. step run_count. rewrite C1.
  erewrite pbind_eq by (apply plift_ok; unfold usub; zcases; [reflexivity|lia]). cbv beta. unfold CELL_PTR_SIZE_BYTES.
  set (a := offset p + hdr t) in *.
  erewrite pbind_eq with (a := tt).
  2: { instantiate (1 := set_buf p (moved (splice_ b0 pc payload) (a + 2 * Z.of_nat i) (2 * (len cells - Z.of_nat i)) (a + 2 * Z.of_nat i + 2))).
       destruct (Z.ltb_spec 0 (2 * (len cells - Z.of_nat i))); [apply run_copy_within; lia|].
       replace (2 * (len cells - Z.of_nat i)) with 0 by lia. by rewrite moved_none by lia. }
  cbv beta. step run_write16. step run_count. rewrite C3, wrap_small by done. apply run_write_count; lia.
Qed.

(** * Initialisation *)

Lemma set_buf_id p : set_buf p (buf p) = p.
Proof. by destruct p. Qed.

Lemma run_write_hdr32 p b pos v : 0 <= offset p + pos -> offset p + pos + 4 <= len b ->
  write_u32 pos v (set_buf p b) = (Ok tt, set_buf p (splice_ b (offset p + pos) (be_bytes 4 v))).
Proof. intros. unfold write_u32. erewrite wr_ok; [done|]. apply write_at_ok; rewrite ?len_be_bytes; simpl; lia. Qed.

Lemma btree_init_page_layout p t usable b :
  bytes_ok b -> usable <= len b <= 65536 -> offset p + 12 <= usable ->
  exists b', btree_init_page t (offset p) usable (set_buf p b) = (Ok tt, set_buf (set_overflow_cells p []) b') /\
    layout_ok (offset p) t usable b' [] [] usable 0 [] /\ len b' = len b.
Proof.
  intros Hb Hl Hu. assert (0 <= offset p) as H0 by (unfold offset, DatabaseHeader_SIZE; destruct (id p =? 1); lia).
  pose proof (hdr_range t). set (p0 := set_overflow_cells p []). change (offset p) with (offset p0) in *.
  unfold btree_init_page. unfold clear_overflow_cells at 1. erewrite pbind_eq by reflexivity. cbv beta.
  change (set_overflow_cells (set_buf p b) []) with (set_buf p0 b).
  erewrite pbind_eq by (apply rd_ok; change (offset (set_buf p0 b)) with (offset p0); rewrite Z.eqb_refl; reflexivity). cbv beta.
  set (off := offset p0) in *. assert (is_u 8 (page_type_u8 t)) as Htb by (by destruct t; unfold is_u; simpl; lia).
  set (b1 := splice_ b (off + 0) [page_type_u8 t]).
  set (b2 := splice_ b1 (off + 1) (be_bytes 2 0)). set (b3 := splice_ b2 (off + 3) (be_bytes 2 0)).
  set (b4 := splice_ b3 (off + 5) (be_bytes 2 (wrap 16 usable))). set (b5 := splice_ b4 (off + 7) [0]).
  set (b6 := splice_ b5 (off + 8) (be_bytes 4 0)). set (zs := replicate (Z.to_nat (len b - usable)) 0).
  set (b7 := splice_ b6 usable zs).
  assert (forall x : Z, len [x] = 1) as L1 by done. assert (len (be_bytes 4 0) = 4) as L4 by done.
  assert (len zs = len b - usable) as Lz by (unfold zs, len; rewrite length_replicate; unfold len in *; lia).
  assert (len b1 = len b) as Lb1 by (unfold b1; rewrite len_splice_; rewrite ?L1; lia).
  assert (len b2 = len b) as Lb2 by (unfold b2; rewrite len_splice_; rewrite ?len_be2; lia).
  assert (len b3 = len b) as Lb3 by (unfold b3; rewrite len_splice_; rewrite ?len_be2; lia).
  assert (len b4 = len b) as Lb4 by (unfold b4; rewrite len_splice_; rewrite ?len_be2; lia).
  assert (len b5 = len b) as Lb5 by (unfold b5; rewrite len_splice_; rewrite ?L1; lia).
  assert (len b6 = len b) as Lb6 by (unfold b6; rewrite len_splice_; rewrite ?L4; lia).
  assert (len b7 = len b) as Lb7 by (unfold b7; rewrite len_splice_; lia).
  exists b7. split.
  - erewrite pbind_eq with (p' := set_buf p0 b1) by (apply run_write_hdr8; unfold BTREE_PAGE_TYPE; fold off; lia). cbv beta.
    erewrite pbind_eq with (p' := set_buf p0 b2) by (apply run_write_first; fold off; lia). cbv beta.
    erewrite pbind_eq with (p' := set_buf p0 b3) by (apply run_write_count; fold off; lia). cbv beta.
    erewrite pbind_eq with (p' := set_buf p0 b4) by (apply run_write_cca; fold off; lia). cbv beta.
    erewrite pbind_eq with (p' := set_buf p0 b5) by (apply run_write_frag; fold off; lia). cbv beta.
    erewrite pbind_eq with (p' := set_buf p0 b6) by (apply run_write_hdr32; unfold BTREE_RIGHTMOST_PTR; fold off; lia). cbv beta.
    erewrite pbind_eq by (apply rd_ok; cbn [buf set_buf]; rewrite Lb6; unfold rassert; destruct (Z.leb_spec usable (len b)); [reflexivity|lia]).
    cbv beta. erewrite wr_ok; [reflexivity|]. cbn [buf set_buf]. rewrite Lb6. apply write_at_ok; fold zs; lia.
  - split; [|done]. split; [| |by intros ???|constructor|constructor|split].
    + unfold b7, b6, b5, b4, b3, b2. rewrite !byte_splice_other by (fold b2 b3 b4 b5 b6; rewrite ?len_be2, ?L4, ?L1; lia).
      unfold b1. rewrite Z.add_0_r. rewrite byte_splice_in by (rewrite ?L1; lia). by rewrite Z.sub_diag.
    + unfold b7, b6, b5, b4. rewrite !r16_splice_other by (fold b4 b5 b6; rewrite ?len_be2, ?L4, ?L1; lia).
      change (len (@nil (list Z))) with 0. apply r16_splice_same; unfold is_u; lia.
    + unfold b7, b6, b5, b4, b3, b2, b1. pose proof (one_byte 0 ltac:(lia)).
      assert (bytes_ok [page_type_u8 t]) by (apply one_byte; unfold is_u in Htb; lia).
      assert (bytes_ok zs) by (unfold zs; apply Forall_replicate; unfold is_digit; lia).
      auto 20 with turso.
    + lia.
    + change (len (@nil (list Z))) with 0. lia.
    + unfold b7, b6, b5. rewrite !r16_splice_other by (fold b5 b6; rewrite ?len_be2, ?L4, ?L1; lia).
      apply r16_splice_same; [lia..|]. by apply wrap_is_u.
    + unfold b7, b6. rewrite !byte_splice_other by (fold b6; rewrite ?len_be2, ?L4, ?L1; lia).
      unfold b5. rewrite byte_splice_in by (rewrite ?L1; lia). by rewrite Z.sub_diag.
    + split; [|done]. unfold b7, b6, b5, b4, b3. rewrite !r16_splice_other by (fold b3 b4 b5 b6; rewrite ?len_be2, ?L4, ?L1; lia).
      cbn [head_of]. apply r16_splice_same; unfold is_u; lia.
    + done.
    + apply space_empty. change (len (@nil (list Z))) with 0. lia.
Qed.
