(* ===== verification/CellPayload.v ===== *)
(** Cells with a payload (core/storage/btree.rs): [fill_cell_payload], which writes a
    record into a cell and spills what does not fit to a chain of overflow pages, and
    [process_overflow_read], which reads the record back.

    Overflow pages are the pager's; here they are a map from page numbers to buffers.
    Their allocation may yield for I/O or fail, which is a parameter of the model. *)

From stdpp Require Import base list gmap numbers.
From Stdlib Require Import ZArith Lia.
From S2P Require Import Prelude Varint DbHeader Page.

(** * The code *)

Definition overflow_page_pointer_size : Z := 4.

Inductive CopyDataState : Type := Copy | AllocateOverflowPage.

Inductive FillCellPayloadState : Type :=
| Start
| CopyData (state : CopyDataState)
    (space_left_on_cur_page src_data_offset dst_data_offset : Z)
    (current_overflow_page : option Z).

(** What [Pager::allocate_page] gives: a page number, a request to wait for I/O, or an
    error. *)
Inductive allocation (P : Type) : Type :=
| AllocDone (id : Z) (s : P)
| AllocIO (s : P)
| AllocErr (e : LimboError) (s : P).
Arguments AllocDone {P} id s.
Arguments AllocIO {P} s.
Arguments AllocErr {P} e s.

(** How one round of the loop of [fill_cell_payload] ends. *)
Inductive round : Type := Continue | Break | Yield.

Section fill.
Context {P : Type} (allocate_page : gmap Z (list Z) -> P -> allocation P) (page_len : Z).

Record Fill := {
  fill_state : FillCellPayloadState;
  cell_payload : list Z;
  pages : gmap Z (list Z);
  pager : P;
}.

Definition allocate_overflow_page (ps : gmap Z (list Z)) (s : P) : res LimboError (option Z * gmap Z (list Z) * P) :=
  match allocate_page ps s with
  | AllocDone id s => Ok (Some id, <[id := replicate (Z.to_nat page_len) 0]> ps, s)
  | AllocIO s => Ok (None, ps, s)
  | AllocErr e _ => Err e
  end.

(** [buf[i..i + n].copy_from_slice(src)] on a page of the store. *)
Definition write_page (ps : gmap Z (list Z)) (id i : Z) (src : list Z) : res LimboError (gmap Z (list Z)) :=
  match ps !! id with
  | Some b => b ← write_at b i src; Ok (<[id := b]> ps)
  | None => Panic
  end.

Definition fill_start (page : PageContent) (int_key : option Z) (cell_idx : Z) (record : list Z)
    (usable_space : Z) (f : Fill) : res LimboError (round * Fill) :=
  t ← page_type page;
  cell ← match t with
         | IndexInterior =>
             left_child_page ← cell_interior_read_left_child_page page cell_idx;
             Ok (cell_payload f ++ be_bytes 4 left_child_page)
         | _ => Ok (cell_payload f)
         end;
  cell ← match t with
         | TableLeaf =>
             match int_key with
             | Some int_key =>
                 cell ← write_varint_to_vec (len record) cell;
                 write_varint_to_vec (wrap 64 int_key) cell
             | None => Panic
             end
         | _ => write_varint_to_vec (len record) cell
         end;
  max_local ← payload_overflow_threshold_max t usable_space;
  min_local ← payload_overflow_threshold_min t usable_space;
  '(overflows, local_size_if_overflow) ← payload_overflows (len record) max_local min_local usable_space;
  if negb overflows then
    Ok (Break, {| fill_state := fill_state f; cell_payload := cell ++ record; pages := pages f; pager := pager f |})
  else
    let cell_non_payload_elems_size := len cell in
    space_left ← usub local_size_if_overflow overflow_page_pointer_size;
    Ok (Continue,
        {| fill_state := CopyData Copy space_left 0 cell_non_payload_elems_size None;
           cell_payload := cell ++ replicate (Z.to_nat local_size_if_overflow) 0;
           pages := pages f; pager := pager f |}).

Definition fill_copy (record : list Z) (space_left src_data_offset dst_data_offset : Z)
    (current_overflow_page : option Z) (f : Fill) : res LimboError (round * Fill) :=
  _ ← rassert (src_data_offset <? len record);
  record_offset_slice ← slice record src_data_offset (len record);
  let amount_to_copy := Z.min space_left (len record_offset_slice) in
  to_copy ← slice record_offset_slice 0 amount_to_copy;
  '(cell, ps) ←
    match current_overflow_page with
    | Some cur_page =>
        _ ← rassert (dst_data_offset =? overflow_page_pointer_size);
        ps ← write_page (pages f) cur_page dst_data_offset to_copy;
        Ok (cell_payload f, ps)
    | None =>
        cell ← write_at (cell_payload f) dst_data_offset to_copy;
        Ok (cell, pages f)
    end;
  if len record_offset_slice - amount_to_copy =? 0 then
    Ok (Break, {| fill_state := fill_state f; cell_payload := cell; pages := ps; pager := pager f |})
  else
    Ok (Continue,
        {| fill_state := CopyData AllocateOverflowPage space_left (src_data_offset + amount_to_copy)
             dst_data_offset current_overflow_page;
           cell_payload := cell; pages := ps; pager := pager f |}).

Definition fill_allocate (usable_space src_data_offset : Z) (current_overflow_page : option Z) (f : Fill) :
    res LimboError (round * Fill) :=
  '(new_page, ps, s) ← allocate_overflow_page (pages f) (pager f);
  match new_page with
  | None => Ok (Yield, {| fill_state := fill_state f; cell_payload := cell_payload f; pages := ps; pager := s |})
  | Some new_overflow_page_id =>
      '(cell, ps) ←
        match current_overflow_page with
        | Some prev_page =>
            ps ← write_page ps prev_page 0 (be_bytes 4 (wrap 32 new_overflow_page_id));
            Ok (cell_payload f, ps)
        | None =>
            o ← usub (len (cell_payload f)) overflow_page_pointer_size;
            cell ← write_at (cell_payload f) o (be_bytes 4 (wrap 32 new_overflow_page_id));
            Ok (cell, ps)
        end;
      overflow_page_data_size ← usub usable_space overflow_page_pointer_size;
      Ok (Continue,
          {| fill_state := CopyData Copy overflow_page_data_size src_data_offset overflow_page_pointer_size
               (Some new_overflow_page_id);
             cell_payload := cell; pages := ps; pager := s |})
  end.

(** One round of the loop. *)
Definition fill_round (page : PageContent) (int_key : option Z) (cell_idx : Z) (record : list Z)
    (usable_space : Z) (f : Fill) : res LimboError (round * Fill) :=
  match fill_state f with
  | Start => fill_start page int_key cell_idx record usable_space f
  | CopyData Copy space_left src dst cur => fill_copy record space_left src dst cur f
  | CopyData AllocateOverflowPage _ src _ cur => fill_allocate usable_space src cur f
  end.

(** One call of [fill_cell_payload]; it ends with [Break] (done) or [Yield] (I/O). *)
Fixpoint fill_cell_payload (fuel : nat) (page : PageContent) (int_key : option Z) (cell_idx : Z)
    (record : list Z) (usable_space : Z) (f : Fill) : res LimboError (round * Fill) :=
  match fuel with
  | O => Panic
  | S fuel =>
      '(r, f) ← fill_round page int_key cell_idx record usable_space f;
      match r with
      | Continue => fill_cell_payload fuel page int_key cell_idx record usable_space f
      | r => Ok (r, f)
      end
  end.

(** The caller calls again after each wait for I/O. *)
Fixpoint fill_to_end (calls fuel : nat) (page : PageContent) (int_key : option Z) (cell_idx : Z)
    (record : list Z) (usable_space : Z) (f : Fill) : res LimboError Fill :=
  match calls with
  | O => Panic
  | S calls =>
      '(r, f) ← fill_cell_payload fuel page int_key cell_idx record usable_space f;
      match r with
      | Break => Ok f
      | _ => fill_to_end calls fuel page int_key cell_idx record usable_space f
      end
  end.
End fill.
Arguments Fill P : clear implicits.

(** ** Reading *)

Definition read_page (ps : gmap Z (list Z)) (id : Z) : res LimboError (list Z) :=
  match ps !! id with Some b => Ok b | None => Err InternalError end.

(** The loop of [process_overflow_read], with the page [next_page] loaded in [page]. *)
Fixpoint overflow_read_loop (fuel : nat) (ps : gmap Z (list Z)) (usable_space : Z) (payload : list Z)
    (remaining_to_read : Z) (page : list Z) : res LimboError (list Z) :=
  match fuel with
  | O => Panic
  | S fuel =>
      next ← u32_at page 0;
      m ← usub usable_space 4;
      let to_read := Z.min remaining_to_read m in
      let need_next_page := (to_read <? remaining_to_read) && negb (next =? 0) in
      new_page ← (if need_next_page then b ← read_page ps next; Ok (Some b) else Ok None);
      s ← slice page 4 (4 + to_read);
      let payload := payload ++ s in
      let remaining_to_read := remaining_to_read - to_read in
      match new_page with
      | Some page => overflow_read_loop fuel ps usable_space payload remaining_to_read page
      | None =>
          if negb (remaining_to_read =? 0) || negb (next =? 0) then Err Corrupt
          else Ok payload
      end
  end.

(** Every page but the last gives [usable_space - 4] bytes, so one more round than
    [payload_size] bytes is enough. *)
Definition process_overflow_read (ps : gmap Z (list Z)) (usable_space : Z) (payload : list Z)
    (start_next_page payload_size : Z) : res LimboError (list Z) :=
  if payload_size <? len payload then Err Corrupt
  else
    page ← read_page ps start_next_page;
    overflow_read_loop (S (Z.to_nat payload_size)) ps usable_space payload (payload_size - len payload) page.

(** * Chains of overflow pages *)

(** [rest] is stored in the chain of overflow pages that starts with [id]. *)
Inductive overflow_chain (ps : gmap Z (list Z)) (u : Z) : Z -> list Z -> Prop :=
| oc_last id b rest :
    ps !! id = Some b -> u <= len b -> u32_at b 0 = Ok 0 -> 0 < len rest <= u - 4 ->
    slice (E:=LimboError) b 4 (4 + len rest) = Ok rest -> overflow_chain ps u id rest
| oc_next id b next part rest :
    ps !! id = Some b -> u <= len b -> u32_at b 0 = Ok next -> next <> 0 -> len part = u - 4 ->
    slice (E:=LimboError) b 4 u = Ok part -> overflow_chain ps u next rest ->
    overflow_chain ps u id (part ++ rest).

Lemma overflow_chain_page ps u id rest :
  overflow_chain ps u id rest -> exists b, ps !! id = Some b /\ u <= len b.
Proof. destruct 1; eauto. Qed.
Lemma overflow_chain_len ps u id rest : 5 <= u -> overflow_chain ps u id rest -> 0 < len rest.
Proof. intros Hu. induction 1; [lia|]. rewrite len_app. lia. Qed.

Lemma overflow_read_loop_ok ps u id rest payload fuel b :
  5 <= u -> overflow_chain ps u id rest -> ps !! id = Some b -> (length rest <= fuel)%nat ->
  overflow_read_loop fuel ps u payload (len rest) b = Ok (payload ++ rest).
Proof.
  intros Hu Hc. revert payload fuel b. induction Hc as [id b rest Hb Hl Hn Hr Hs|id b next part rest Hb Hl Hn Hne Hp Hs Hc IH];
    intros payload fuel b' Hb' Hf; assert (b' = b) as -> by congruence.
  - destruct fuel as [|fuel]; [unfold len in *; lia|]. cbn [overflow_read_loop]. rewrite Hn. rstep.
    unfold usub. destruct (Z.leb_spec 4 u); [|lia]. rstep. rewrite Z.min_l by lia. rewrite Z.ltb_irrefl. cbn [andb].
    rstep. rewrite Hs. rstep. rewrite Z.sub_diag. done.
  - pose proof (overflow_chain_len _ _ _ _ Hu Hc). rewrite length_app in Hf. rewrite len_app.
    destruct fuel as [|fuel]; [unfold len in *; lia|]. cbn [overflow_read_loop]. rewrite Hn. rstep.
    unfold usub. destruct (Z.leb_spec 4 u); [|lia]. rstep. rewrite Z.min_r by lia.
    destruct (Z.ltb_spec (u - 4) (len part + len rest)); [|lia]. destruct (Z.eqb_spec next 0); [done|]. cbn [andb negb].
    destruct (overflow_chain_page _ _ _ _ Hc) as (b1 & Hb1 & _). unfold read_page at 1. rewrite Hb1. rstep.
    replace (4 + (u - 4)) with u by lia. rewrite Hs. rstep.
    replace (len part + len rest - (u - 4)) with (len rest) by lia. rewrite IH; [by rewrite <- app_assoc|done|unfold len in *; lia].
Qed.

Lemma process_overflow_read_chain ps u id local rest :
  5 <= u -> overflow_chain ps u id rest ->
  process_overflow_read ps u local id (len local + len rest) = Ok (local ++ rest).
Proof.
  intros Hu Hc. pose proof (overflow_chain_len _ _ _ _ Hu Hc). unfold process_overflow_read.
  destruct (Z.ltb_spec (len local + len rest) (len local)); [lia|].
  destruct (overflow_chain_page _ _ _ _ Hc) as (b & Hb & _). unfold read_page. rewrite Hb. rstep.
  replace (len local + len rest - len local) with (len rest) by lia.
  apply overflow_read_loop_ok with id; try done. unfold len. lia.
Qed.

(** * Filling the pages *)

Lemma u32_at_read b i v : 0 <= i -> i + 4 <= len b -> is_u 32 v ->
  slice_ b i (i + 4) = be_bytes 4 v -> u32_at b i = Ok v.
Proof.
  intros H0 H1 Hv Hs. unfold u32_at. rewrite !at_byte by lia. rstep. f_equal.
  rewrite <- (be_val_be_bytes_small 4 v) by (unfold is_u in Hv; simpl; lia). rewrite <- Hs. f_equal.
  apply bytes_ext; [rewrite len_slice_ by lia; unfold len; simpl; lia|]. rewrite len_slice_ by lia. intros k Hk.
  unfold slice_. rewrite byte_take, byte_drop by lia.
  assert (k = 0 \/ k = 1 \/ k = 2 \/ k = 3) as [-> |[-> |[-> | ->]]] by lia; unfold byte at 1, get; simpl; by rewrite ?Z.add_0_r.
Qed.

Lemma slice_splice_same b i s : 0 <= i -> i + len s <= len b -> slice_ (splice_ b i s) i (i + len s) = s.
Proof.
  intros H0 H1. unfold slice_, splice_. rewrite drop_app_length' by (rewrite length_take; unfold len in *; lia).
  apply take_app_length'. unfold len. lia.
Qed.
Lemma slice_splice_other b i s j n :
  0 <= i -> i + len s <= len b -> 0 <= j -> 0 <= n -> j + n <= len b -> j + n <= i \/ i + len s <= j ->
  slice_ (splice_ b i s) j (j + n) = slice_ b j (j + n).
Proof.
  intros H0 H1 H2 H3 H4 H5. apply slice_bytes_eq; try lia; [by apply len_splice_|].
  intros k Hk. apply byte_splice_other; lia.
Qed.

Lemma thresholds_ok t u :
  480 <= u <= 65536 ->
  exists mx mn, payload_overflow_threshold_max t u = Ok mx /\ payload_overflow_threshold_min t u = Ok mn /\
    0 < mn /\ mn + 5 <= mx /\ mx <= u - 35.
Proof.
  intros Hu. assert (58 <= (u - 12) * 32 / 255) as H1 by (apply Z.div_le_lower_bound; lia).
  pose proof (Z.div_mod ((u - 12) * 64) 255 ltac:(lia)). pose proof (Z.mod_pos_bound ((u - 12) * 64) 255 ltac:(lia)).
  pose proof (Z.div_mod ((u - 12) * 32) 255 ltac:(lia)). pose proof (Z.mod_pos_bound ((u - 12) * 32) 255 ltac:(lia)).
  unfold payload_overflow_threshold_max, payload_overflow_threshold_min, usub.
  destruct (Z.leb_spec 12 u); [|lia]. rstep. destruct (Z.leb_spec 23 ((u - 12) * 32 / 255)); [|lia].
  destruct (Z.leb_spec 23 ((u - 12) * 64 / 255)); [|lia]. destruct (Z.leb_spec 35 u); [|lia].
  destruct t; eexists _, _; split_and!; try reflexivity; lia.
Qed.

Lemma payload_overflows_spec n mx mn u :
  480 <= u -> 0 < mn -> mn + 5 <= mx -> mx <= u - 35 -> 0 <= n ->
  (n <= mx /\ payload_overflows n mx mn u = Ok (false, 0)) \/
  (exists l, mx < n /\ payload_overflows n mx mn u = Ok (true, l + 4) /\ mn <= l <= mx /\ l + 4 < n).
Proof.
  intros Hu Hmn Hmx Hle Hn. unfold payload_overflows. destruct (Z.leb_spec n mx) as [H|H]; [by left|right].
  unfold usub. destruct (Z.leb_spec mn n); [|lia]. rstep. destruct (Z.leb_spec 4 u); [|lia]. rstep.
  destruct (Z.eqb_spec (u - 4) 0); [lia|]. change (rassert (negb false)) with (@Ok LimboError unit tt). rstep.
  pose proof (Z.mod_pos_bound (n - mn) (u - 4) ltac:(lia)). pose proof (Z.div_mod (n - mn) (u - 4) ltac:(lia)) as Hd.
  destruct (Z.ltb_spec mx (mn + (n - mn) mod (u - 4))).
  - exists mn. split_and!; try done; lia.
  - exists (mn + (n - mn) mod (u - 4)). split_and!; try done; try lia.
    assert (0 < (n - mn) / (u - 4)) by (destruct (Z.leb_spec ((n - mn) / (u - 4)) 0); [nia|done]). nia.
Qed.

(** The bytes of a cell in front of the payload. *)
Definition cell_head (t : PageType) (int_key left_child payload_size : Z) : list Z :=
  match t with
  | IndexInterior => be_bytes 4 left_child ++ venc payload_size
  | TableLeaf => venc payload_size ++ venc (wrap 64 int_key)
  | _ => venc payload_size
  end.

Section filling.
Context {P : Type} (allocate_page : gmap Z (list Z) -> P -> allocation P) (page_len : Z).
Context (page : PageContent) (int_key : option Z) (cell_idx : Z) (record : list Z) (u : Z).
Notation round_ := (fill_round allocate_page page_len page int_key cell_idx record u).

(** The rounds of the loop, over several calls, to the end. *)
Inductive rounds : Fill P -> Fill P -> Prop :=
| rounds_break f f' : round_ f = Ok (Break, f') -> rounds f f'
| rounds_step f r f1 f' : round_ f = Ok (r, f1) -> r <> Break -> rounds f1 f' -> rounds f f'.

Notation call_ := (fun fuel => fill_cell_payload allocate_page page_len fuel page int_key cell_idx record u).
Notation calls_ := (fun calls fuel => fill_to_end allocate_page page_len calls fuel page int_key cell_idx record u).

Lemma call_fuel fuel fuel' f x : call_ fuel f = Ok x -> (fuel <= fuel')%nat -> call_ fuel' f = Ok x.
Proof.
  revert fuel' f. induction fuel as [|fuel IH]; intros [|fuel'] f Hr Hf; try done; try lia. cbn [fill_cell_payload] in *.
  destruct (round_ f) as [[r f1]| |]; try done. revert Hr. rstep. destruct r; try done. intros Hr. apply IH; [done|lia].
Qed.
Lemma calls_fuel calls fuel fuel' f x : calls_ calls fuel f = Ok x -> (fuel <= fuel')%nat -> calls_ calls fuel' f = Ok x.
Proof.
  revert f. induction calls as [|calls IH]; intros f Hr Hf; [done|]. cbn [fill_to_end] in *.
  destruct (call_ fuel f) as [[r f1]| |] eqn:Hc; try done. rewrite (call_fuel _ _ _ _ Hc Hf). revert Hr. rstep.
  destruct r; try done; intros Hr; by apply IH.
Qed.

Lemma rounds_calls f f' : rounds f f' -> exists calls fuel, calls_ calls fuel f = Ok f'.
Proof.
  induction 1 as [f f' Hr|f r f1 f' Hr Hne _ (calls & fuel & IH)].
  - exists 1%nat, 1%nat. cbn [fill_to_end fill_cell_payload]. by rewrite Hr.
  - destruct r; [|done|].
    + destruct calls as [|calls]; [done|]. exists (S calls), (S fuel). cbn [fill_to_end fill_cell_payload] in *. rewrite Hr. rstep.
      destruct (call_ fuel f1) as [[r2 f2]| |]; try done. revert IH. rstep.
      destruct r2; try done; intros IH; apply calls_fuel with fuel; done || lia.
    + exists (S calls), (S fuel). cbn [fill_to_end fill_cell_payload]. rewrite Hr. rstep.
      apply calls_fuel with fuel; done || lia.
Qed.

(** The allocator, perhaps after waits for I/O, gives [n] pages that are not in use. *)
Inductive can_alloc : nat -> gmap Z (list Z) -> P -> Prop :=
| ca_none ps s : can_alloc 0 ps s
| ca_done n ps s id s' :
    allocate_page ps s = AllocDone id s' -> ps !! id = None -> 0 < id < 2 ^ 32 ->
    (forall ps', dom ps' = {[id]} ∪ dom ps -> can_alloc n ps' s') -> can_alloc (S n) ps s
| ca_io n ps s s' : allocate_page ps s = AllocIO s' -> can_alloc (S n) ps s' -> can_alloc (S n) ps s.
Context (Hu : 5 <= u) (Hpl : u <= page_len).

(** The rounds until the allocation is done. *)
Lemma rounds_allocate n f sp src dst cur :
  fill_state f = CopyData AllocateOverflowPage sp src dst cur -> can_alloc (S n) (pages f) (pager f) ->
  exists id s, pages f !! id = None /\ 0 < id < 2 ^ 32 /\
    (forall ps, dom ps = {[id]} ∪ dom (pages f) -> can_alloc n ps s) /\
    forall cell ps f',
      match cur with
      | Some prev => cell = cell_payload f /\
          write_page (<[id := replicate (Z.to_nat page_len) 0]> (pages f)) prev 0 (be_bytes 4 id) = Ok ps
      | None => ps = <[id := replicate (Z.to_nat page_len) 0]> (pages f) /\ 4 <= len (cell_payload f) /\
          write_at (E:=LimboError) (cell_payload f) (len (cell_payload f) - 4) (be_bytes 4 id) = Ok cell
      end ->
      rounds {| fill_state := CopyData Copy (u - 4) src 4 (Some id); cell_payload := cell; pages := ps; pager := s |} f' ->
      rounds f f'.
Proof.
  destruct f as [st cell0 ps0 s0]. cbn [fill_state pages pager cell_payload]. intros -> Hl. remember (S n) as m eqn:Hm.
  induction Hl as [ps0 s0|m ps0 s0 id s' Ha Hf Hid Hnext _|m ps0 s0 s' Ha Hl IH]; [done|injection Hm as ->|].
  - exists id, s'. split; [done|]. split; [lia|]. split; [done|]. intros cell ps f' Hw Hr.
    eapply rounds_step with (r := Continue); [|done|exact Hr]. unfold fill_round. cbn [fill_state]. unfold fill_allocate, allocate_overflow_page.
    cbn [pages pager cell_payload]. rewrite Ha. rstep. rewrite wrap_small by (unfold is_u; lia). unfold overflow_page_pointer_size, usub.
    destruct cur as [prev|].
    + destruct Hw as [-> ->]. rstep. by destruct (Z.leb_spec 4 u); [|lia].
    + destruct Hw as (-> & Hl & Hw). destruct (Z.leb_spec 4 (len cell0)); [|lia]. rstep. rewrite Hw. rstep.
      by destruct (Z.leb_spec 4 u); [|lia].
  - destruct (IH Hm) as (id & s & H1 & H2 & H3 & H4). exists id, s. split; [done|]. split; [done|]. split; [done|].
    intros cell ps f' Hw Hr. eapply rounds_step with (r := Yield); [|done|by eapply H4].
    unfold fill_round. cbn [fill_state]. unfold fill_allocate, allocate_overflow_page. cbn [pages pager cell_payload]. by rewrite Ha.
Qed.

(** A copy into an overflow page. *)
Lemma round_copy_page f src pre rest cur b :
  fill_state f = CopyData Copy (u - 4) src 4 (Some cur) -> record = pre ++ rest -> src = len pre -> 0 < len rest ->
  pages f !! cur = Some b -> u <= len b ->
  let part := take (Z.to_nat (u - 4)) rest in
  round_ f =
    Ok (if len rest <=? u - 4
        then (Break, {| fill_state := fill_state f; cell_payload := cell_payload f;
                pages := <[cur := splice_ b 4 part]> (pages f); pager := pager f |})
        else (Continue, {| fill_state := CopyData AllocateOverflowPage (u - 4) (len (pre ++ part)) 4 (Some cur);
                cell_payload := cell_payload f; pages := <[cur := splice_ b 4 part]> (pages f); pager := pager f |})).
Proof.
  intros Hst Hrec -> Hpos Hcur Hlb part. unfold fill_round. rewrite Hst. unfold fill_copy. rewrite Hrec, len_app.
  destruct (Z.ltb_spec (len pre) (len pre + len rest)); [|lia].
  change (rassert true) with (@Ok LimboError unit tt). rstep.
  assert (slice (E:=LimboError) (pre ++ rest) (len pre) (len pre + len rest) = Ok rest) as ->.
  { pose proof (slice_mid (E:=LimboError) pre rest []) as Hm. by rewrite app_nil_r in Hm. }
  rstep. assert (len part = Z.min (u - 4) (len rest)) as Hlp by (unfold part, len in *; rewrite length_take; lia).
  rewrite slice_ok by lia. rstep. unfold slice_. rewrite Z.sub_0_r, drop_0.
  assert (take (Z.to_nat (Z.min (u - 4) (len rest))) rest = part) as ->.
  { unfold part. destruct (Z.leb_spec (u - 4) (len rest)); [by rewrite Z.min_l by lia|].
    rewrite !take_ge by (unfold len in *; lia). done. }
  change (rassert (4 =? overflow_page_pointer_size)) with (@Ok LimboError unit tt). rstep.
  unfold write_page. rewrite Hcur. rewrite write_at_ok by lia. rstep.
  destruct (Z.leb_spec (len rest) (u - 4)).
  - rewrite Z.min_r by lia. rewrite Z.sub_diag, Hst. done.
  - rewrite Z.min_l by lia. destruct (Z.eqb_spec (len rest - (u - 4)) 0); [lia|]. rewrite len_app, Hlp, Z.min_l by lia. done.
Qed.

Lemma len_zeros : 0 <= page_len -> len (replicate (Z.to_nat page_len) 0) = page_len.
Proof. intros. unfold len. rewrite length_replicate. lia. Qed.
Lemma u32_zeros part : len part <= page_len - 4 ->
  u32_at (splice_ (replicate (Z.to_nat page_len) 0) 4 part) 0 = Ok 0.
Proof.
  intros Hp. pose proof (len_zeros ltac:(lia)) as Hz. pose proof (len_nonneg part).
  unfold u32_at. rewrite !at_byte by (rewrite len_splice_; lia). rstep.
  assert (forall k, 0 <= k < 4 -> byte (splice_ (replicate (Z.to_nat page_len) 0) 4 part) k = 0) as Hb.
  { intros k Hk. rewrite byte_splice_other by lia. unfold byte, get. destruct (Z.ltb_spec k 0); [lia|].
    rewrite lookup_replicate_2 by lia. done. }
  rewrite !Hb by lia. done.
Qed.

(** Filling a chain of pages. *)
Lemma rounds_fill n pre rest f cur :
  len rest <= (Z.of_nat n + 1) * (u - 4) -> record = pre ++ rest -> 0 < len rest ->
  (forall ps, dom ps = dom (pages f) -> can_alloc n ps (pager f)) -> fill_state f = CopyData Copy (u - 4) (len pre) 4 (Some cur) ->
  pages f !! cur = Some (replicate (Z.to_nat page_len) 0) ->
  exists f', rounds f f' /\ cell_payload f' = cell_payload f /\ overflow_chain (pages f') u cur rest /\
    forall id b, pages f !! id = Some b -> id <> cur -> pages f' !! id = Some b.
Proof.
  revert pre rest f cur. induction n as [n IH] using lt_wf_ind; intros pre rest f cur Hn Hrec Hpos Hca Hst Hcur.
  set (zs := replicate (Z.to_nat page_len) 0) in *. assert (len zs = page_len) as Hz by (apply len_zeros; lia).
  pose proof (round_copy_page f _ pre rest cur zs Hst Hrec eq_refl Hpos Hcur ltac:(lia)) as Hrd.
  set (part := take (Z.to_nat (u - 4)) rest) in *.
  assert (len part = Z.min (u - 4) (len rest)) as Hlp by (unfold part, len in *; rewrite length_take; lia).
  assert (len (splice_ zs 4 part) = page_len) as Hls by (rewrite len_splice_; lia).
  destruct (Z.leb_spec (len rest) (u - 4)) as [Hle|Hgt].
  - assert (part = rest) as Hpr by (unfold part; apply take_ge; unfold len in *; lia).
    eexists. split; [apply rounds_break, Hrd|]. cbn [cell_payload pages]. split_and!; [done| |].
    + eapply oc_last with (splice_ zs 4 part); [by rewrite lookup_insert_eq|lia|apply u32_zeros; lia|lia|].
      rewrite <- Hpr. rewrite slice_ok by lia. f_equal. apply slice_splice_same; lia.
    + intros id b Hid Hne. by rewrite lookup_insert_ne.
  - set (f1 := {| fill_state := CopyData AllocateOverflowPage (u - 4) (len (pre ++ part)) 4 (Some cur);
      cell_payload := cell_payload f; pages := <[cur := splice_ zs 4 part]> (pages f); pager := pager f |}) in *.
    destruct n as [|n]; [lia|].
    destruct (rounds_allocate n f1 _ _ _ _ eq_refl) as (id & s & Hid & Hidr & Hca' & Halloc).
    { apply Hca. unfold f1. cbn [pages]. rewrite dom_insert_L. apply elem_of_dom_2 in Hcur. set_solver. }
    cbn [pages cell_payload f1] in Hid, Hca', Halloc.
    assert (id <> cur) as Hne by (intros ->; by rewrite lookup_insert_eq in Hid).
    set (b1 := splice_ (splice_ zs 4 part) 0 (be_bytes 4 id)).
    assert (len (be_bytes 4 id) = 4) as L4 by apply len_be_bytes.
    assert (len b1 = page_len) as Hlb1 by (unfold b1; rewrite len_splice_; lia).
    set (ps := <[cur := b1]> (<[id := zs]> (<[cur := splice_ zs 4 part]> (pages f)))).
    set (f2 := {| fill_state := CopyData Copy (u - 4) (len (pre ++ part)) 4 (Some id); cell_payload := cell_payload f; pages := ps; pager := s |}).
    destruct (IH n ltac:(lia) (pre ++ part) (drop (Z.to_nat (u - 4)) rest) f2 id) as (f' & Hr & Hcp & Hch & Hk).
    { rewrite len_drop_Z by lia. lia. }
    { rewrite <- app_assoc. unfold part. by rewrite take_drop. }
    { rewrite len_drop_Z by lia. lia. }
    { intros ps' Hd. apply Hca'. rewrite Hd. unfold f2, ps. cbn [pages]. rewrite !dom_insert_L. set_solver. }
    { done. }
    { unfold f2, ps. cbn [pages]. rewrite lookup_insert_ne by done. by rewrite lookup_insert_eq. }
    exists f'. split_and!.
    + eapply rounds_step; [exact Hrd|done|]. apply (Halloc (cell_payload f) ps f'); [|exact Hr]. split; [done|].
      unfold write_page. rewrite lookup_insert_ne, lookup_insert_eq by done. rewrite write_at_ok by lia. done.
    + done.
    + rewrite <- (take_drop (Z.to_nat (u - 4)) rest). apply oc_next with b1 id; try done; try lia.
      * apply Hk; [|done]. unfold f2, ps. cbn [pages]. apply lookup_insert_eq.
      * apply u32_at_read; [lia..|unfold is_u; lia|]. rewrite <- L4 at 1. apply slice_splice_same; lia.
      * change (take (Z.to_nat (u - 4)) rest) with part. lia.
      * rewrite slice_ok by lia. f_equal. replace (slice_ b1 4 u) with (slice_ b1 4 (4 + len part)) by (f_equal; lia).
        unfold b1. rewrite slice_splice_other by lia. exact (slice_splice_same zs 4 part ltac:(lia) ltac:(lia)).
    + intros id' b Hid' Hne'. apply Hk.
      * unfold f2, ps. cbn [pages]. rewrite lookup_insert_ne by done. assert (id' <> id) by (intros ->; rewrite lookup_insert_ne in Hid; congruence).
        by rewrite !lookup_insert_ne by done.
      * intros ->. rewrite lookup_insert_ne in Hid; congruence.
Qed.

(** The first round. *)
Lemma round_start t key left s ps :
  page_type page = Ok t -> t <> TableInterior -> (t = TableLeaf -> int_key = Some key) ->
  (t = IndexInterior -> cell_interior_read_left_child_page page cell_idx = Ok left) ->
  480 <= u <= 65536 -> len record < 2 ^ 64 ->
  let head := cell_head t key left (len record) in
  exists mx mn, payload_overflow_threshold_max t u = Ok mx /\ payload_overflow_threshold_min t u = Ok mn /\
    round_ {| fill_state := Start; cell_payload := []; pages := ps; pager := s |} =
      match payload_overflows (len record) mx mn u with
      | Ok (false, _) => Ok (Break, {| fill_state := Start; cell_payload := head ++ record; pages := ps; pager := s |})
      | Ok (true, l) => Ok (Continue, {| fill_state := CopyData Copy (l - 4) 0 (len head) None;
                          cell_payload := head ++ replicate (Z.to_nat l) 0; pages := ps; pager := s |})
      | _ => Panic
      end.
Proof.
  intros Ht Hti Hkey Hleft Hur Hrec head. destruct (thresholds_ok t u Hur) as (mx & mn & Hmx & Hmn & H1 & H2 & H3).
  exists mx, mn. split_and!; [done..|]. pose proof (len_nonneg record).
  unfold fill_round. cbn [fill_state]. unfold fill_start. rewrite Ht. rstep. cbn [cell_payload pages pager fill_state].
  assert ((cell ← match t with
         | IndexInterior =>
             left_child_page ← cell_interior_read_left_child_page page cell_idx;
             Ok ([] ++ be_bytes 4 left_child_page)
         | _ => Ok (A:=list Z) []
         end;
         match t with
         | TableLeaf =>
             match int_key with
             | Some int_key =>
                 cell ← write_varint_to_vec (len record) cell;
                 write_varint_to_vec (wrap 64 int_key) cell
             | None => Panic
             end
         | _ => write_varint_to_vec (len record) cell
         end) = Ok head) as Hhead.
  { unfold head. destruct t; try done.
    - rewrite (Hleft eq_refl). rstep. by rewrite write_varint_to_vec_spec by (unfold is_u; lia).
    - rstep. by rewrite write_varint_to_vec_spec by (unfold is_u; lia).
    - rewrite (Hkey eq_refl). rstep. rewrite write_varint_to_vec_spec by (unfold is_u; lia). rstep.
      by rewrite write_varint_to_vec_spec by (by apply wrap_is_u). }
  apply bind_inv_Ok in Hhead as (cell & Hc1 & Hc2). rewrite Hc1. rstep. rewrite Hc2. rstep. rewrite Hmx, Hmn. rstep.
  destruct (payload_overflows_spec (len record) mx mn u ltac:(lia) H1 H2 H3 ltac:(lia)) as [[_ ->]|(l & _ & -> & Hl & _)]; rstep; [done|].
  unfold usub, overflow_page_pointer_size. destruct (Z.leb_spec 4 (l + 4)); [done|lia].
Qed.

(** The copy into the cell. *)
Lemma round_copy_cell head l s ps :
  0 < l -> l < len record ->
  let zs := replicate (Z.to_nat (l + 4)) 0 in
  round_ {| fill_state := CopyData Copy l 0 (len head) None; cell_payload := head ++ zs; pages := ps; pager := s |} =
    Ok (Continue, {| fill_state := CopyData AllocateOverflowPage l l (len head) None;
      cell_payload := head ++ take (Z.to_nat l) record ++ replicate 4 0; pages := ps; pager := s |}).
Proof.
  intros Hl Hr zs. unfold fill_round. cbn [fill_state]. unfold fill_copy. destruct (Z.ltb_spec 0 (len record)); [|lia].
  change (rassert true) with (@Ok LimboError unit tt). rstep. pose proof (slice_prefix (E:=LimboError) record []) as Hsl. rewrite app_nil_r in Hsl. rewrite Hsl. rstep.
  rewrite Z.min_l by lia. rewrite slice_ok by lia. rstep. unfold slice_. rewrite Z.sub_0_r, drop_0. cbn [cell_payload pages pager].
  assert (zs = replicate (Z.to_nat l) 0 ++ replicate 4 0) as ->.
  { unfold zs. rewrite <- replicate_add. f_equal. lia. }
  rewrite write_at_mid by (rewrite length_replicate, length_take; unfold len in *; lia). rstep.
  destruct (Z.eqb_spec (len record - l) 0); [lia|]. done.
Qed.

(** What [fill_cell_payload] leaves in the cell and in the pages. *)
Definition filled (t : PageType) (head : list Z) (ps : gmap Z (list Z)) (cell : list Z) (ps' : gmap Z (list Z)) : Prop :=
  exists mx mn, payload_overflow_threshold_max t u = Ok mx /\ payload_overflow_threshold_min t u = Ok mn /\
    ((payload_overflows (len record) mx mn u = Ok (false, 0) /\ cell = head ++ record /\ ps' = ps) \/
     (exists l first, payload_overflows (len record) mx mn u = Ok (true, l + 4) /\ 0 < l /\ l + 4 < len record /\
        0 < first < 2 ^ 32 /\ cell = head ++ take (Z.to_nat l) record ++ be_bytes 4 first /\
        overflow_chain ps' u first (drop (Z.to_nat l) record) /\
        forall id b, ps !! id = Some b -> ps' !! id = Some b)).

Lemma fill_result n t key left s ps :
  page_type page = Ok t -> t <> TableInterior -> (t = TableLeaf -> int_key = Some key) ->
  (t = IndexInterior -> cell_interior_read_left_child_page page cell_idx = Ok left) ->
  480 <= u <= 65536 -> len record < 2 ^ 64 -> can_alloc n ps s -> len record <= Z.of_nat n * (u - 4) ->
  exists f', rounds {| fill_state := Start; cell_payload := []; pages := ps; pager := s |} f' /\
    filled t (cell_head t key left (len record)) ps (cell_payload f') (pages f').
Proof.
  intros Ht Hti Hkey Hleft Hur Hrec Hca Hn.
  destruct (round_start t key left s ps Ht Hti Hkey Hleft Hur Hrec) as (mx & mn & Hmx & Hmn & Hstart).
  destruct (thresholds_ok t u Hur) as (mx' & mn' & Hmx' & Hmn' & H1 & H2 & H3).
  assert (mx' = mx /\ mn' = mn) as [-> ->] by (split; congruence). pose proof (len_nonneg record).
  set (head := cell_head t key left (len record)) in *.
  destruct (payload_overflows_spec (len record) mx mn u ltac:(lia) H1 H2 H3 ltac:(lia)) as [[_ Hov]|(l & _ & Hov & Hl & Hlt)];
    rewrite Hov in Hstart.
  { eexists. split; [by apply rounds_break|]. exists mx, mn. split_and!; try done. left. by split_and!. }
  replace (l + 4 - 4) with l in Hstart by lia.
  pose proof (round_copy_cell head l s ps ltac:(lia) ltac:(lia)) as Hcopy. cbv zeta in Hcopy.
  set (cell1 := head ++ take (Z.to_nat l) record ++ replicate 4 0) in *.
  set (f1 := {| fill_state := CopyData AllocateOverflowPage l l (len head) None; cell_payload := cell1; pages := ps; pager := s |}) in *.
  destruct n as [|n]; [lia|].
  destruct (rounds_allocate n f1 _ _ _ _ eq_refl Hca) as (id & s' & Hid & Hidr & Hca' & Halloc).
  cbn [pages cell_payload f1] in Hid, Hca', Halloc.
  assert (len (take (Z.to_nat l) record) = l) as Hlt' by (apply len_take_Z; lia).
  destruct (rounds_fill n (take (Z.to_nat l) record) (drop (Z.to_nat l) record)
    {| fill_state := CopyData Copy (u - 4) l 4 (Some id); cell_payload := head ++ take (Z.to_nat l) record ++ be_bytes 4 id;
       pages := <[id := replicate (Z.to_nat page_len) 0]> ps; pager := s' |} id) as (f' & Hr & Hcp & Hch & Hk).
  { rewrite len_drop_Z by lia. lia. }
  { by rewrite take_drop. }
  { rewrite len_drop_Z by lia. lia. }
  { intros ps' Hd. apply Hca'. rewrite Hd. cbn [pages]. by rewrite dom_insert_L. }
  { by rewrite Hlt'. }
  { cbn [pages]. apply lookup_insert_eq. }
  exists f'. split.
  - eapply rounds_step; [exact Hstart|done|]. eapply rounds_step; [exact Hcopy|done|].
    eapply Halloc; [|exact Hr]. split; [done|]. unfold cell1. rewrite !len_app, Hlt'. change (len (replicate 4 0)) with 4.
    pose proof (len_nonneg head). split; [lia|]. rewrite app_assoc.
    replace (len head + (l + 4) - 4) with (len (head ++ take (Z.to_nat l) record)) by (rewrite len_app; lia).
    pose proof (write_at_mid (E:=LimboError) (head ++ take (Z.to_nat l) record) (replicate 4 0) [] (be_bytes 4 id)) as Hw.
    rewrite !app_nil_r in Hw. rewrite Hw by (by rewrite length_be_bytes). by rewrite <- app_assoc.
  - exists mx, mn. split_and!; try done. right. exists l, id. rewrite Hcp. cbn [cell_payload pages] in *. split_and!; try done; try lia.
    intros id' b Hid'. apply Hk; [|intros ->; congruence]. rewrite lookup_insert_ne; [done|intros ->; congruence].
Qed.
End filling.

(** * Reading a cell back *)

Lemma from_or_corrupt_at pre x : from_or_corrupt (pre ++ x) (len pre) = Ok x.
Proof.
  unfold from_or_corrupt. rewrite len_app. pose proof (len_nonneg x). destruct (Z.leb_spec (len pre) (len pre + len x)); [|lia].
  unfold len. by rewrite Nat2Z.id, drop_app_length.
Qed.

Lemma read_payload_whole rec post : read_payload (rec ++ post) (len rec) = Ok (rec, None).
Proof.
  unfold read_payload. rewrite len_app. pose proof (len_nonneg post). destruct (Z.leb_spec (len rec) (len rec + len post)); [|lia].
  unfold len. by rewrite Nat2Z.id, take_app_length.
Qed.
Lemma read_payload_spilled local first n :
  len local + 4 < n -> is_u 32 first -> read_payload (local ++ be_bytes 4 first) n = Ok (local, Some first).
Proof.
  intros Hn Hf. unfold read_payload. rewrite len_app, len_be_bytes. change (Z.of_nat 4) with 4. pose proof (len_nonneg local).
  destruct (Z.leb_spec n (len local + 4)); [lia|]. destruct (Z.ltb_spec (len local + 4) 4); [lia|].
  replace (len local + 4 - 4) with (len local) by lia. rewrite (u32_at_read _ (len local) first); [| |rewrite len_app, len_be_bytes; lia|done|]; [|lia|].
  - rstep. unfold len. by rewrite Nat2Z.id, take_app_length.
  - unfold slice_, len. rewrite Nat2Z.id, drop_app_length. apply take_ge. rewrite length_be_bytes. lia.
Qed.

(** What a reader gets for the payload of a filled cell. *)
Definition payload_reads (ps : gmap Z (list Z)) (u : Z) (record local : list Z) (first : option Z) : Prop :=
  match first with
  | None => local = record
  | Some id => process_overflow_read ps u local id (len record) = Ok record
  end.

Lemma read_local_payload_filled t u record head ps cell ps' pre post :
  480 <= u -> filled record u t head ps cell ps' ->
  exists mx mn local first,
    payload_overflow_threshold_max t u = Ok mx /\ payload_overflow_threshold_min t u = Ok mn /\
    read_local_payload (pre ++ cell ++ post) (len pre + len head) (len record) mx mn u = Ok (local, first) /\
    payload_reads ps' u record local first.
Proof.
  intros Hu (mx & mn & Hmx & Hmn & Hor). exists mx, mn. pose proof (len_nonneg record). pose proof (len_nonneg post).
  assert (forall body, slice (E:=LimboError) ((pre ++ head) ++ body ++ post) (len pre + len head) (len pre + len head + len body) = Ok body) as Hmid.
  { intros body. rewrite <- len_app. apply slice_mid. }
  destruct Hor as [(Hov & -> & ->)|(l & first & Hov & Hl & Hln & Hf & -> & Hch & _)].
  - exists record, None. split_and!; try done. unfold read_local_payload. rewrite Hov. rstep.
    rewrite <- app_assoc, app_assoc. set (X := pre ++ head). assert (len pre + len head = len X) as -> by (unfold X; by rewrite len_app).
    unfold usub. rewrite !len_app. destruct (Z.leb_spec (len X) (len X + (len record + len post))); [|lia]. rstep.
    unfold ensure. destruct (Z.leb_spec (len X + (len X + (len record + len post) - len X)) (len X + (len record + len post))); [|lia]. rstep.
    replace (len X + (len X + (len record + len post) - len X)) with (len X + len (record ++ post)) by (rewrite len_app; lia).
    pose proof (slice_mid (E:=LimboError) X (record ++ post) []) as Hs. rewrite app_nil_r in Hs. rewrite Hs. rstep. apply read_payload_whole.
  - assert (len (take (Z.to_nat l) record) = l) as Hlt by (apply len_take_Z; lia).
    exists (take (Z.to_nat l) record), (Some first). split_and!; try done.
    + unfold read_local_payload. rewrite Hov. rstep.
      rewrite <- (app_assoc head), (app_assoc pre head). set (body := take (Z.to_nat l) record ++ be_bytes 4 first).
      assert (len body = l + 4) as Hlb by (unfold body; rewrite len_app, len_be_bytes; lia).
      rewrite !len_app, Hlb. unfold ensure. destruct (Z.leb_spec (len pre + len head + (l + 4)) (len pre + len head + (l + 4 + len post))); [|lia]. rstep.
      rewrite <- Hlb, Hmid. rstep. unfold body. apply read_payload_spilled; [lia|unfold is_u; lia].
    + simpl. rewrite <- (take_drop (Z.to_nat l) record) at 3. rewrite <- (process_overflow_read_chain ps' u first) by (lia || done).
      f_equal. rewrite <- len_app, take_drop. done.
Qed.

(** The cell a reader gets. *)
Definition cell_for (t : PageType) (key left : Z) (local : list Z) (size : Z) (first : option Z) : BTreeCell :=
  match t with
  | TableLeaf => TableLeafCell key local size first
  | IndexLeaf => IndexLeafCell local size first
  | IndexInterior => IndexInteriorCell left local size first
  | TableInterior => TableInteriorCell left key
  end.

Lemma read_btree_cell_filled t key left u record ps cell ps' pre post pg :
  480 <= u -> page_type pg = Ok t -> t <> TableInterior -> is_i 64 key -> is_u 32 left -> len record < 2 ^ 64 ->
  filled record u t (cell_head t key left (len record)) ps cell ps' ->
  exists local first,
    read_btree_cell (pre ++ cell ++ post) pg (len pre) u = Ok (cell_for t key left local (len record) first) /\
    payload_reads ps' u record local first.
Proof.
  intros Hu Ht Hti Hkey Hleft Hrec Hfill. pose proof (len_nonneg record).
  assert (is_u 64 (len record)) as Hn by (unfold is_u; lia). assert (is_u 64 (wrap 64 key)) as Hk by (by apply wrap_is_u).
  destruct (read_local_payload_filled t u record _ ps cell ps' pre post Hu Hfill) as (mx & mn & local & first & Hmx & Hmn & Hlocal & Hrd).
  exists local, first. split; [|done]. unfold read_btree_cell. rewrite Ht. rstep. rewrite Hmx, Hmn. rstep.
  assert (exists body, cell = cell_head t key left (len record) ++ body) as [body ->].
  { destruct Hfill as (? & ? & _ & _ & [(_ & -> & _)|(? & ? & _ & _ & _ & _ & -> & _)]); eauto. }
  rewrite <- app_assoc in Hlocal |- *. destruct t; try done; unfold cell_head in Hlocal |- *.
  - unfold ensure. rewrite <- !app_assoc, !len_app, len_be_bytes in *. change (Z.of_nat 4) with 4 in *.
    pose proof (len_nonneg (venc (len record))). pose proof (len_nonneg body). pose proof (len_nonneg post).
    destruct (Z.leb_spec (len pre + 4) (len pre + (4 + (len (venc (len record)) + (len body + len post))))); [|lia]. rstep.
    rewrite (u32_at_read _ (len pre) left); [| apply len_nonneg | rewrite !len_app, len_be_bytes; lia | done |].
    2: { pose proof (slice_mid (E:=LimboError) pre (be_bytes 4 left) (venc (len record) ++ body ++ post)) as Hs.
         rewrite len_be_bytes in Hs. change (Z.of_nat 4) with 4 in Hs. unfold slice in Hs. by destruct (_ && _); [injection Hs|]. }
    rstep. rewrite app_assoc. replace (len pre + 4) with (len (pre ++ be_bytes 4 left)) by (by rewrite len_app, len_be_bytes).
    rewrite from_or_corrupt_at. rstep. rewrite read_varint_venc by done. rstep. rewrite <- (length_venc _ Hn).
    rewrite len_app, len_be_bytes, <- app_assoc. change (Z.of_nat 4) with 4. rewrite <- Z.add_assoc, Hlocal. done.
  - rewrite from_or_corrupt_at. rstep. rewrite read_varint_venc by done. rstep. rewrite <- (length_venc _ Hn), Hlocal. done.
  - rewrite <- !app_assoc in *. rewrite from_or_corrupt_at. rstep. rewrite read_varint_venc by done. rstep. rewrite <- (length_venc _ Hn).
    rewrite app_assoc, <- len_app, from_or_corrupt_at. rstep. rewrite read_varint_venc by done. rstep. rewrite <- (length_venc _ Hk).
    rewrite !len_app in *. rewrite <- Z.add_assoc, <- app_assoc, Hlocal. rstep. by rewrite to_signed_wrap.
Qed.

(** * Properties *)

(** C25: [fill_cell_payload], called again after every wait for I/O, ends, and the cell and
    the overflow pages it leaves hold the record: [read_btree_cell] on a page with the
    cell at any offset gives its key, its size and its local bytes, and
    [process_overflow_read] from the first overflow page gives back the record.  No
    page that was in use changes. *)
Theorem fill_then_read {P} (allocate_page : gmap Z (list Z) -> P -> allocation P) (page_len : Z)
    (page : PageContent) (int_key : option Z) (cell_idx u : Z) (record : list Z)
    (t : PageType) (key left : Z) (n : nat) (ps : gmap Z (list Z)) (s : P) :
  page_type page = Ok t -> t <> TableInterior -> is_i 64 key -> is_u 32 left ->
  (t = TableLeaf -> int_key = Some key) ->
  (t = IndexInterior -> cell_interior_read_left_child_page page cell_idx = Ok left) ->
  480 <= u <= 65536 -> u <= page_len -> len record < 2 ^ 64 ->
  can_alloc allocate_page n ps s -> len record <= Z.of_nat n * (u - 4) ->
  exists calls fuel f,
    fill_to_end allocate_page page_len calls fuel page int_key cell_idx record u
      {| fill_state := Start; cell_payload := []; pages := ps; pager := s |} = Ok f /\
    (forall id b, ps !! id = Some b -> pages f !! id = Some b) /\
    forall pre post pg, page_type pg = Ok t ->
      exists local first,
        read_btree_cell (pre ++ cell_payload f ++ post) pg (len pre) u =
          Ok (cell_for t key left local (len record) first) /\
        payload_reads (pages f) u record local first.
Proof.
  intros Ht Hti Hkey Hleft Hk Hl Hu Hpl Hrec Hca Hn.
  destruct (fill_result allocate_page page_len page int_key cell_idx record u ltac:(lia) Hpl n t key left s ps Ht Hti Hk Hl Hu Hrec Hca Hn)
    as (f & Hr & Hf).
  destruct (rounds_calls _ _ _ _ _ _ _ _ _ Hr) as (calls & fuel & Hrun). exists calls, fuel, f. split_and!; [done| |].
  - destruct Hf as (? & ? & _ & _ & [(_ & _ & ->)|(? & ? & _ & _ & _ & _ & _ & _ & Hkeep)]); [done|apply Hkeep].
  - intros pre post pg Hpg. eapply read_btree_cell_filled; try done. lia.
Qed.

(** A page allocator that waits for I/O once before each page. *)
Definition counting_alloc (ps : gmap Z (list Z)) (s : bool * Z) : allocation (bool * Z) :=
  let '(wait, next) := s in if wait then AllocIO (false, next) else AllocDone next (true, next + 1).

Lemma fill_then_read_witness :
  let page := {| id := 3; buf := 13 :: replicate 511 0; overflow_cells := [] |} in
  let record := replicate 600 7 in
  exists calls fuel f,
    fill_to_end counting_alloc 512 calls fuel page (Some 42) 0 record 512
      {| fill_state := Start; cell_payload := []; pages := ∅; pager := (true, 2) |} = Ok f /\
    exists local first,
      read_btree_cell (cell_payload f) page 0 512 = Ok (TableLeafCell 42 local 600 first) /\
      payload_reads (pages f) 512 record local first.
Proof.
  cbv zeta. set (page := {| id := 3; buf := 13 :: replicate 511 0; overflow_cells := [] |}).
  assert (can_alloc counting_alloc 2 ∅ (true, 2)) as Hca.
  { eapply ca_io; [reflexivity|]. eapply ca_done; [reflexivity|apply lookup_empty|lia|]. intros ps' Hd.
    eapply ca_io; [reflexivity|]. eapply ca_done; [reflexivity| |lia|intros; apply ca_none].
    apply not_elem_of_dom. rewrite Hd. set_solver. }
  destruct (fill_then_read counting_alloc 512 page (Some 42) 0 512 (replicate 600 7) TableLeaf 42 0 2 ∅ (true, 2))
    as (calls & fuel & f & H1 & _ & H2); try done; try lia.
  specialize (H2 [] [] page eq_refl). rewrite app_nil_r in H2. exists calls, fuel, f. split; [exact H1|exact H2].
Defined.
