(* ===== verification/BtreeRefine.v ===== *)
(** A b-tree page as a list of cells: the cells [fill_cell_payload] builds are ones the
    page code can store, and sequences of page operations refine the operations on the
    list. *)

From stdpp Require Import base list gmap numbers sorting.
From Stdlib Require Import ZArith Lia.
From S2P Require Import Prelude Varint DbHeader Page BtreeSpace BtreePage BtreeInv BtreeCells BtreeDefrag BtreeInsert CellPayload.

(** * Pages as lists of cells *)

(** The bytes of a cell on a page: its own and the padding. *)
Definition padded (payload img : list Z) : Prop :=
  exists pad, img = payload ++ pad /\ len payload + len pad = Z.max 4 (len payload).

(** A page stores the list of cells [ps]. *)
Definition page_stores (t : PageType) (usable : Z) (p : PageContent) (ps : list (list Z)) : Prop :=
  exists cells, page_holds t usable p cells /\ Forall2 padded ps cells.

(** The bytes cells take with their pointers. *)
Fixpoint footprint (ps : list (list Z)) : Z :=
  match ps with
  | [] => 0
  | payload :: ps => Z.max 4 (len payload) + 2 + footprint ps
  end.

(** The free bytes of a page that stores [ps]. *)
Definition free_bytes (t : PageType) (usable : Z) (p : PageContent) (ps : list (list Z)) : Z :=
  usable - offset p - hdr t - footprint ps.

(** The operations on a page, and what they do to the list. *)
Inductive page_op : Type :=
| OpInsert (i : nat) (payload : list Z)
| OpDrop (i : nat)
| OpDefragment (max_frag_bytes : Z).

Definition run_op (usable : Z) (op : page_op) : PM unit :=
  match op with
  | OpInsert i payload => insert_into_cell payload (Z.of_nat i) usable
  | OpDrop i => drop_cell (Z.of_nat i) usable
  | OpDefragment max_frag_bytes => defragment_page usable max_frag_bytes
  end.
Fixpoint run_ops (usable : Z) (ops : list page_op) : PM unit :=
  match ops with
  | [] => mret tt
  | op :: ops => _ ← run_op usable op; run_ops usable ops
  end.

(** [capacity] is the space for the cells and their pointers. *)
Definition spec_op (capacity : Z) (op : page_op) (ps : list (list Z)) : option (list (list Z)) :=
  match op with
  | OpInsert i payload =>
      if (i <=? length ps)%nat && (Z.max 4 (len payload) + 2 + footprint ps <=? capacity)
      then Some (insert_at i payload ps) else None
  | OpDrop i => if (i <? length ps)%nat then Some (delete i ps) else None
  | OpDefragment _ => Some ps
  end.
Fixpoint spec_ops (capacity : Z) (ops : list page_op) (ps : list (list Z)) : option (list (list Z)) :=
  match ops with
  | [] => Some ps
  | op :: ops => match spec_op capacity op ps with Some ps => spec_ops capacity ops ps | None => None end
  end.

(** The payload an operation stores is a cell. *)
Definition op_ok (t : PageType) (usable : Z) (op : page_op) : Prop :=
  match op with OpInsert _ payload => payload_ok t usable payload | _ => True end.

Lemma footprint_sizes ps cells : Forall2 padded ps cells -> footprint ps = sizes cells + 2 * len cells.
Proof.
  induction 1 as [|payload img ps cells (pad & -> & Hp) _ IH]; [done|]. simpl.
  rewrite IH, len_app. unfold len in *. simpl. lia.
Qed.

Lemma padded_in ps cells i img : Forall2 padded ps cells -> cells !! i = Some img -> exists payload, ps !! i = Some payload /\ padded payload img.
Proof. intros Hf Hi. by destruct (Forall2_lookup_r _ _ _ _ _ Hf Hi) as (payload & H1 & H2); eauto. Qed.

Lemma run_op_stores t usable p ps op ps' :
  page_stores t usable p ps -> overflow_cells p = [] -> op_ok t usable op ->
  spec_op (usable - offset p - hdr t) op ps = Some ps' ->
  exists p', run_op usable op p = (Ok tt, p') /\ page_stores t usable p' ps' /\
    overflow_cells p' = [] /\ offset p' = offset p.
Proof.
  intros (cells & (ptrs & cca & frag & fbs & Hlay) & Hpad) Hov Hok Hspec.
  pose proof (footprint_sizes _ _ Hpad) as Hfp. pose proof (Forall2_length _ _ _ Hpad) as Hlen.
  destruct op as [i payload|i|mf]; simpl in Hspec |- *.
  - destruct (Nat.leb_spec i (length ps)), (Z.leb_spec (Z.max 4 (len payload) + 2 + footprint ps) (usable - offset p - hdr t));
      simpl in Hspec; try done. injection Hspec as <-.
    destruct (insert_into_cell_layout p t usable (buf p) ptrs cells cca frag fbs i payload false Hlay Hok ltac:(lia) (or_introl Hov) ltac:(lia))
      as (b' & ptrs' & cca' & frag' & fbs' & pad & Hrun & Hp & Hlay').
    rewrite set_buf_id in Hrun. exists (set_buf p b'). split_and!; [done| |done|done]. exists (insert_at i (payload ++ pad) cells).
    split; [by exists ptrs', cca', frag', fbs'|]. apply Forall2_app; [by apply Forall2_take|].
    constructor; [by exists pad|by apply Forall2_drop].
  - destruct (Nat.ltb_spec i (length ps)); [|done]. injection Hspec as <-.
    destruct (lookup_lt_is_Some_2 cells i ltac:(lia)) as [img Hi].
    destruct (lookup_lt_is_Some_2 ptrs i ltac:(rewrite (lo_length Hlay); lia)) as [c Hc].
    destruct (drop_cell_layout p t usable (buf p) _ _ _ _ _ i c img Hlay Hc Hi) as (b' & ptrs' & cca' & frag' & fbs' & Hrun & Hlay').
    rewrite set_buf_id in Hrun. exists (set_buf p b'). split_and!; [done| |done|done]. exists (delete i cells).
    split; [by exists ptrs', cca', frag', fbs'|by apply Forall2_delete].
  - injection Hspec as <-.
    destruct (defragment_page_ok p t usable (buf p) _ _ _ _ _ mf Hlay) as (b' & ptrs' & cca' & frag' & Hrun & Hlay' & _).
    rewrite set_buf_id in Hrun. exists (set_buf p b'). split_and!; [done| |done|done]. exists cells. split; [by exists ptrs', cca', frag', []|done].
Qed.

Lemma run_ops_stores t usable ops p ps ps' :
  page_stores t usable p ps -> overflow_cells p = [] -> Forall (op_ok t usable) ops ->
  spec_ops (usable - offset p - hdr t) ops ps = Some ps' ->
  exists p', run_ops usable ops p = (Ok tt, p') /\ page_stores t usable p' ps' /\ overflow_cells p' = [].
Proof.
  revert p ps. induction ops as [|op ops IH]; intros p ps Hst Hov Hok Hspec.
  { injection Hspec as <-. by exists p. }
  apply Forall_cons in Hok as [Hop Hok]. cbn [spec_ops] in Hspec.
  destruct (spec_op _ op ps) as [ps1|] eqn:H1; [|done].
  destruct (run_op_stores _ _ _ _ _ _ Hst Hov Hop H1) as (p1 & Hrun & Hst1 & Hov1 & Hoff).
  rewrite <- Hoff in Hspec. destruct (IH _ _ Hst1 Hov1 Hok Hspec) as (p' & Hrun' & Hst' & Hov').
  exists p'. split_and!; [|done..]. cbn [run_ops]. by rewrite (pbind_eq _ _ _ _ _ Hrun).
Qed.

(** * The cells [fill_cell_payload] builds *)

Lemma filled_payload_ok record u t key left ps cell ps' :
  480 <= u -> t <> TableInterior -> len record < 2 ^ 64 -> bytes_ok record ->
  filled record u t (cell_head t key left (len record)) ps cell ps' -> payload_ok t u cell.
Proof.
  intros Hu Hti Hrec Hb (mx & mn & Hmx & Hmn & Hor) pad Hpad Hlp. pose proof (len_nonneg record).
  assert (is_u 64 (len record)) as Hn by (unfold is_u; lia). assert (is_u 64 (wrap 64 key)) as Hk by (by apply wrap_is_u).
  set (head := cell_head t key left (len record)) in *.
  assert (exists body ov l, cell = head ++ body /\ bytes_ok body /\ payload_overflows (len record) mx mn u = Ok (ov, l) /\
    len body = (if ov : bool then l else len record) /\ (ov = true -> 4 <= l)) as (body & ov & l & -> & Hbody & Hov & Hlb & Hl4).
  { destruct Hor as [(Hov & -> & _)|(l & first & Hov & Hl & Hln & _ & -> & _)].
    - exists record, false, 0. by split_and!.
    - exists (take (Z.to_nat l) record ++ be_bytes 4 first), true, (l + 4). split_and!; try done; try lia.
      + apply bytes_ok_app. auto with turso.
      + rewrite len_app, len_take_Z, len_be_bytes by lia. lia. }
  pose proof (length_venc _ Hn) as Hv1. pose proof (length_venc _ Hk) as Hv2.
  pose proof (varint_len_bound _ Hn). pose proof (varint_len_bound _ Hk). pose proof (len_nonneg body).
  assert (bytes_ok head) as Hhead by (unfold head, cell_head; destruct t; rewrite ?bytes_ok_app; auto with turso).
  split; [rewrite len_app; lia|]. split; [by rewrite !bytes_ok_app|].
  exists mx, mn. split_and!; try done. intros rest. rewrite len_app in Hlp.
  assert (forall x, from_or_corrupt x 0 = Ok x) as Hz by (intros x; apply (from_or_corrupt_at [] x)).
  unfold head, cell_head in *. destruct t; try done; cbn [cell_len].
  - rewrite <- !app_assoc. change (0 + 4) with (Z.of_nat 4). rewrite <- (len_be_bytes 4 left), from_or_corrupt_at. rstep.
    rewrite read_varint_venc by done. rstep. rewrite Hov. rstep. rewrite !len_app, len_be_bytes in *. change (Z.of_nat 4) with 4 in *.
    f_equal. destruct ov; lia.
  - rewrite <- !app_assoc, Hz. rstep. rewrite read_varint_venc by done. rstep. rewrite Hov. rstep. rewrite !len_app in *.
    unfold MINIMUM_CELL_SIZE. f_equal. destruct ov; [specialize (Hl4 eq_refl)|]; zcases; lia.
  - rewrite <- !app_assoc, Hz. rstep. rewrite read_varint_venc by done. rstep. rewrite Z.add_0_l, <- Hv1, from_or_corrupt_at. rstep.
    rewrite read_varint_venc by done. rstep. rewrite Hov. rstep. rewrite !len_app in *.
    unfold MINIMUM_CELL_SIZE. f_equal. destruct ov; [specialize (Hl4 eq_refl)|]; zcases; lia.
Qed.

(** * Reading stored cells *)

(** The layout of a page that stores [ps], at one cell. *)
Lemma stored_at t usable p ps i payload :
  page_stores t usable p ps -> ps !! i = Some payload ->
  exists ptrs cells cca frag fbs c img,
    layout_ok (offset p) t usable (buf p) ptrs cells cca frag fbs /\ ptrs !! i = Some c /\ cells !! i = Some img /\
    len img = Z.max 4 (len payload) /\ 0 <= c /\ c + len img <= len (buf p) /\
    exists post, buf p = take (Z.to_nat c) (buf p) ++ payload ++ post.
Proof.
  intros (cells & (ptrs & cca & frag & fbs & Hlay) & Hpad) Hi.
  destruct (Forall2_lookup_l _ _ _ _ _ Hpad Hi) as (img & Hci & (pad & -> & Hlp)).
  destruct (lookup_lt_is_Some_2 ptrs i) as [c Hc].
  { rewrite (lo_length Hlay). by eapply lookup_lt_Some. }
  pose proof (lo_bounds Hlay). pose proof (hdr_range t).
  destruct (lo_range Hlay _ _ _ Hc Hci) as (_ & _ & Hs & H1 & H2 & _).
  pose proof (len_nonneg (payload ++ pad)).
  exists ptrs, cells, cca, frag, fbs, c, (payload ++ pad). split_and!; try done; try lia; [by rewrite len_app|].
  exists (pad ++ drop (Z.to_nat (c + len (payload ++ pad))) (buf p)).
  rewrite (slice_split (buf p) c (len (payload ++ pad))) at 1 by lia. by rewrite Hs, <- app_assoc.
Qed.

Lemma cell_get_pointer p t usable ptrs cells cca frag fbs i c :
  layout_ok (offset p) t usable (buf p) ptrs cells cca frag fbs -> ptrs !! i = Some c ->
  cell_count p = Ok (len cells) /\ 0 <= Z.of_nat i < len cells /\ cell_pointer p (Z.of_nat i) = Ok c /\ page_type p = Ok t.
Proof.
  intros Hlay Hc. pose proof (lo_bounds Hlay). pose proof (hdr_range t). pose proof (lo_length Hlay).
  assert (0 <= Z.of_nat i < len cells) as Hi by (apply lookup_lt_Some in Hc; unfold len; lia).
  pose proof (set_buf_id p) as Hid. split_and!; try lia.
  - unfold cell_count, read_u16, BTREE_CELL_COUNT. rewrite u16_at_r16 by lia. f_equal. apply Hlay.
  - unfold cell_pointer, read_u16, CELL_PTR_SIZE_BYTES. rewrite <- Hid at 1. rewrite (header_size_ok p (buf p) t) by (lia || apply Hlay). rstep.
    rewrite u16_at_r16 by lia. rewrite Z.add_assoc, (Z.mul_comm _ 2). f_equal. by apply (lo_pointers _ _ _ _ _ _ _ _ _ Hlay).
  - rewrite <- Hid. apply page_type_ok; [lia|apply Hlay].
Qed.

Lemma free_space_stores t usable p ps ptrs cells cca frag fbs :
  layout_ok (offset p) t usable (buf p) ptrs cells cca frag fbs -> Forall2 padded ps cells ->
  compute_free_space usable p = (Ok (free_bytes t usable p ps), p).
Proof.
  intros Hlay Hpad. pose proof Hlay as [L1 L2 L3 L4 L5 L6].
  pose proof (compute_free_space_free p (buf p) t (len cells) usable cca frag fbs _ L1 L2 L6) as Hc. rewrite set_buf_id in Hc.
  rewrite Hc, (total_ranges _ _ (lo_length Hlay)). unfold free_bytes. rewrite (footprint_sizes _ _ Hpad). do 2 f_equal. lia.
Qed.

Lemma rd_inv {A} (f : PageContent -> res LimboError A) p a : rd f p = (Ok a, p) -> f p = Ok a.
Proof. unfold rd. by injection 1. Qed.

(** The shortest cell of one column that is a constant: [2] is the record's size, then
    its header size and its serial type. *)
Definition short_cell : list Z := [2; 2; 0].
(** Cells that leave five free bytes on a page of 512 bytes. *)
Definition big_cell (n : nat) : list Z := venc (Z.of_nat n) ++ replicate n 1.
Definition nearly_full : list page_op :=
  [OpInsert 0 (big_cell 100); OpInsert 1 (big_cell 100); OpInsert 2 (big_cell 100); OpInsert 3 (big_cell 100); OpInsert 4 (big_cell 84)].
Definition fresh_page (n : nat) : PageContent := {| id := 2; buf := replicate n 0; overflow_cells := [] |}.
Definition short_cell_page : PageContent :=
  snd ((_ ← btree_init_page IndexLeaf 0 512; _ ← run_ops 512 nearly_full; insert_into_cell short_cell 5 512) (fresh_page 512)).

(** A small record and its cell. *)
Definition small_record : list Z := [2; 1; 9].
Definition small_cell (key : Z) : list Z := cell_head TableLeaf key 0 3 ++ small_record.

Lemma small_cell_filled key : filled small_record 512 TableLeaf (cell_head TableLeaf key 0 (len small_record)) ∅ (small_cell key) ∅.
Proof. exists 477, 39. split_and!; try reflexivity. left. by split_and!. Qed.
Lemma small_cell_ok key : payload_ok TableLeaf 512 (small_cell key).
Proof.
  eapply (filled_payload_ok small_record 512 TableLeaf key 0); [lia|done|unfold len; simpl; lia| |apply small_cell_filled].
  repeat constructor; lia.
Qed.

(** A page with one cell. *)
Lemma example_page : exists p, page_stores TableLeaf 512 p [small_cell 7] /\ overflow_cells p = [] /\ offset p = 0.
Proof.
  destruct (btree_init_page_layout (fresh_page 512) TableLeaf 512 (replicate 512 0)) as (b & _ & Hlay & _).
  { apply Forall_replicate. unfold is_digit. lia. }
  { unfold len. rewrite length_replicate. lia. }
  { done. }
  destruct (run_op_stores TableLeaf 512 (set_buf (fresh_page 512) b) [] (OpInsert 0 (small_cell 7)) [small_cell 7]) as (p' & _ & H1 & H2 & H3).
  - exists []. split; [|constructor]. by exists [], 512, 0, [].
  - done.
  - apply small_cell_ok.
  - done.
  - exists p'. by split_and!.
Qed.

(** * Properties *)

(** C24: from a freshly initialised page on, every sequence of insertions that fit,
    removals and defragmentations succeeds, and the page stores the list of cells that
    the same insertions and removals make of the empty list. *)
Theorem page_refines_list (t : PageType) (usable : Z) (p : PageContent) (ops : list page_op) (ps : list (list Z)) :
  bytes_ok (buf p) -> usable <= len (buf p) <= 65536 -> offset p + 12 <= usable ->
  Forall (op_ok t usable) ops -> spec_ops (usable - offset p - hdr t) ops [] = Some ps ->
  exists p', (_ ← btree_init_page t (offset p) usable; run_ops usable ops) p = (Ok tt, p') /\
    page_stores t usable p' ps /\ overflow_cells p' = [].
Proof.
  intros Hb Hl Hu Hops Hspec.
  destruct (btree_init_page_layout p t usable (buf p) Hb Hl Hu) as (b' & Hrun & Hlay & _). rewrite set_buf_id in Hrun.
  set (p1 := set_buf (set_overflow_cells p []) b') in *. change (offset p) with (offset p1) in Hlay, Hspec.
  destruct (run_ops_stores t usable ops p1 [] ps) as (p' & Hrun' & Hst & Hov); try done.
  { exists []. split; [|constructor]. by exists [], usable, 0, []. }
  exists p'. split_and!; try done. by rewrite (pbind_eq _ _ _ _ _ Hrun).
Qed.

Lemma page_refines_list_witness :
  exists p', (_ ← btree_init_page TableLeaf 0 512;
              run_ops 512 [OpInsert 0 (small_cell 7); OpInsert 0 (small_cell 5); OpDrop 1; OpDefragment (-1)]) (fresh_page 512) = (Ok tt, p') /\
    page_stores TableLeaf 512 p' [small_cell 5].
Proof.
  destruct (page_refines_list TableLeaf 512 (fresh_page 512)
    [OpInsert 0 (small_cell 7); OpInsert 0 (small_cell 5); OpDrop 1; OpDefragment (-1)] [small_cell 5]) as (p' & H1 & H2 & _).
  - apply Forall_replicate. unfold is_digit. lia.
  - unfold len, fresh_page. cbn [buf]. rewrite length_replicate. lia.
  - done.
  - apply Forall_cons. split; [apply small_cell_ok|]. apply Forall_cons. split; [apply small_cell_ok|]. by repeat constructor.
  - vm_compute. reflexivity.
  - exists p'. exact (conj H1 H2).
Defined.

(** C27: a record that [fill_cell_payload] made into a cell is what [cell_get] finds at the
    cell's place in the list, with its key, its size, and the bytes of the record on the
    page and in the overflow pages. *)
Theorem stored_record_read (t : PageType) (usable key left : Z) (p : PageContent) (ps : list (list Z)) (i : nat)
    (record cell : list Z) (pages pages' : gmap Z (list Z)) :
  480 <= usable -> t <> TableInterior -> is_i 64 key -> is_u 32 left -> len record < 2 ^ 64 ->
  filled record usable t (cell_head t key left (len record)) pages cell pages' ->
  page_stores t usable p ps -> ps !! i = Some cell ->
  exists local first,
    cell_get p (Z.of_nat i) usable = Ok (cell_for t key left local (len record) first) /\
    payload_reads pages' usable record local first.
Proof.
  intros Hu Ht Hk Hl Hr Hf Hst Hi.
  destruct (stored_at _ _ _ _ _ _ Hst Hi) as (ptrs & cells & cca & frag & fbs & c & img & Hlay & Hc & Hci & _ & H0 & H1 & post & Hbuf).
  destruct (cell_get_pointer p t usable ptrs cells cca frag fbs i c Hlay Hc) as (Hn & Hlt & Hp & Htp).
  destruct (read_btree_cell_filled t key left usable record pages cell pages' (take (Z.to_nat c) (buf p)) post p Hu Htp Ht Hk Hl Hr Hf)
    as (local & first & Hrd & Hpr).
  exists local, first. split; [|done]. unfold cell_get. rewrite Hn. rstep.
  destruct (Z.ltb_spec (Z.of_nat i) (len cells)); [|lia]. change (rassert true) with (@Ok LimboError unit tt). rstep.
  rewrite Hp. rstep. rewrite <- Hbuf in Hrd. pose proof (len_nonneg img). by rewrite len_take_Z in Hrd by lia.
Qed.

Lemma stored_record_read_witness :
  exists p local first, cell_get p 0 512 = Ok (TableLeafCell 7 local 3 first) /\ payload_reads ∅ 512 small_record local first.
Proof.
  destruct example_page as (p & Hst & _).
  destruct (stored_record_read TableLeaf 512 7 0 p [small_cell 7] 0 small_record (small_cell 7) ∅ ∅) as (local & first & H1 & H2).
  - lia.
  - done.
  - unfold is_i. lia.
  - unfold is_u. lia.
  - vm_compute. reflexivity.
  - apply small_cell_filled.
  - exact Hst.
  - reflexivity.
  - exists p, local, first. exact (conj H1 H2).
Defined.

(** C28: [compute_free_space] is exact: the usable space minus the header, the pointers and
    the cells, each counted with at least four bytes. *)
Theorem compute_free_space_exact (t : PageType) (usable : Z) (p : PageContent) (ps : list (list Z)) :
  page_stores t usable p ps -> compute_free_space usable p = (Ok (free_bytes t usable p ps), p).
Proof.
  intros (cells & (ptrs & cca & frag & fbs & Hlay) & Hpad). by eapply free_space_stores.
Qed.

Lemma compute_free_space_exact_witness : exists p, compute_free_space 512 p = (Ok 497, p).
Proof.
  destruct example_page as (p & Hst & _ & Hoff). exists p. rewrite (compute_free_space_exact TableLeaf 512 p [small_cell 7] Hst).
  unfold free_bytes. rewrite Hoff. reflexivity.
Defined.

(** a cell for which the page has no room becomes an overflow cell at its index, and
    the page's bytes stay as they are. *)
Theorem insert_overflows (t : PageType) (usable : Z) (p : PageContent) (ps : list (list Z)) (i : nat) (payload : list Z) :
  page_stores t usable p ps -> overflow_cells p = [] -> (i <= length ps)%nat ->
  free_bytes t usable p ps < len payload + 2 ->
  insert_into_cell payload (Z.of_nat i) usable p =
    (Ok tt, set_overflow_cells p [{| index := Z.of_nat i; Page.payload := payload |}]).
Proof.
  intros (cells & (ptrs & cca & frag & fbs & Hlay) & Hpad) Hov Hi Hfree. pose proof (lo_bounds Hlay). pose proof (hdr_range t).
  pose proof (Forall2_length _ _ _ Hpad) as Hlen. assert (Z.of_nat i <= len cells) as Hi' by (unfold len; lia).
  pose proof (free_space_stores _ _ _ _ _ _ _ _ _ Hlay Hpad) as Hfs. pose proof (set_buf_id p) as Hid.
  unfold insert_into_cell, insert_into_cell_. rewrite <- Hid at 1. step run_count. rewrite (lo_count _ _ _ _ _ _ _ _ _ Hlay).
  erewrite pbind_eq by (apply rd_ok; reflexivity). rewrite Hid, Hov. change (len (@nil OverflowCell)) with 0. pass.
  rewrite (pbind_eq _ _ _ _ _ Hfs). cbv beta zeta. cbn [Z.eqb negb andb]. unfold CELL_PTR_SIZE_BYTES.
  destruct (Z.leb_spec (len payload + 2) (free_bytes t usable p ps)); [lia|]. cbn [negb].
  erewrite pbind_eq by (by apply passert_ok). unfold push_overflow_cell. by rewrite Hov.
Qed.

Lemma insert_overflows_witness :
  exists p, insert_into_cell (replicate 600 1) 1 512 p =
    (Ok tt, set_overflow_cells p [{| index := 1; Page.payload := replicate 600 1 |}]).
Proof.
  destruct example_page as (p & Hst & Hov & Hoff). exists p.
  apply (insert_overflows TableLeaf 512 p [small_cell 7] 1 (replicate 600 1) Hst Hov); [simpl; lia|].
  unfold free_bytes. rewrite Hoff. vm_compute. reflexivity.
Defined.

(** [defragment_page_full] keeps the cells and makes all free bytes one region. *)
Theorem defragment_full_packs (t : PageType) (usable : Z) (p : PageContent) (ps : list (list Z)) :
  page_stores t usable p ps ->
  exists p', defragment_page_full usable p = (Ok tt, p') /\ page_stores t usable p' ps /\
    unallocated_region_size p' = Ok (free_bytes t usable p ps).
Proof.
  intros (cells & (ptrs & cca & frag & fbs & Hlay) & Hpad).
  destruct (defragment_page_ok p t usable (buf p) _ _ _ _ _ (-1) Hlay) as (b' & ptrs' & cca' & frag' & Hrun & Hlay' & Hfr).
  rewrite set_buf_id in Hrun. exists (set_buf p b'). split_and!; [done|exists cells; split; [by exists ptrs', cca', frag', []|done]|].
  pose proof (lo_bounds Hlay'). pose proof (hdr_range t). pose proof Hlay' as [L1 L2 _ _ _ L6].
  pose proof (fo_total L6) as Htot. pose proof (fo_frag_range L6). rewrite (total_ranges _ _ (lo_length Hlay')) in Htot. simpl in Htot.
  unfold unallocated_region_size.
  rewrite (rd_inv _ _ _ (run_cca p b' cca' ltac:(lia) ltac:(lia) (fo_cca _ _ _ _ _ _ _ _ L6) ltac:(lia))). rstep.
  rewrite (rd_inv _ _ _ (run_region_start p b' t (len cells) ltac:(lia) ltac:(lia) L1 L2)). rstep.
  unfold usub, free_bytes. rewrite (footprint_sizes _ _ Hpad). destruct (Z.leb_spec (offset p + hdr t + 2 * len cells) cca'); [|lia].
  f_equal. lia.
Qed.

Lemma defragment_full_packs_witness :
  exists p p', defragment_page_full 512 p = (Ok tt, p') /\ page_stores TableLeaf 512 p' [small_cell 7] /\
    unallocated_region_size p' = Ok 497.
Proof.
  destruct example_page as (p & Hst & _ & Hoff).
  destruct (defragment_full_packs TableLeaf 512 p [small_cell 7] Hst) as (p' & H1 & H2 & H3).
  exists p, p'. unfold free_bytes in H3. rewrite Hoff in H3. exact (conj H1 (conj H2 H3)).
Defined.

(** C34: a cell of three bytes that is inserted when five bytes are free overlaps the
    pointer array: its first byte is overwritten by its own pointer, and the cell read
    back is another one.  ([_insert_into_cell] compares the free space with the three
    bytes of the cell, [allocate_cell_space] takes four.) *)
Theorem insert_short_cell_corrupts :
  fst ((_ ← btree_init_page IndexLeaf 0 512; _ ← run_ops 512 nearly_full; compute_free_space 512) (fresh_page 512)) = Ok 5 /\
  fst ((_ ← btree_init_page IndexLeaf 0 512; _ ← run_ops 512 nearly_full; insert_into_cell short_cell 5 512) (fresh_page 512)) = Ok tt /\
  cell_get short_cell_page 5 512 <> Ok (IndexLeafCell [2; 0] 2 None).
Proof. vm_compute. done. Qed.
