(* ===== verification/RwLock.v ===== *)
(** [TursoRwLock] of core/storage/wal.rs: a read-write lock in one atomic word.  Every
    operation is a few atomic accesses; here each access is one step, and the steps of
    any number of threads interleave. *)

From stdpp Require Import base list numbers relations.
From Stdlib Require Import ZArith Lia.
From S2P Require Import Prelude.

(** * The code *)

Definition WRITER : Z := 1.
Definition READER_INC : Z := 2.
Definition READER_SHIFT : Z := 1.
Definition READER_COUNT_MASK : Z := Z.shiftl 0x7fffffff READER_SHIFT.
Definition VALUE_SHIFT : Z := 32.
Definition VALUE_MASK : Z := Z.shiftl 0xffffffff VALUE_SHIFT.

(** [!x] of a [u64]. *)
Definition not64 (x : Z) : Z := 2 ^ 64 - 1 - x.

Definition has_writer (val : Z) : bool := negb (Z.land val WRITER =? 0).
Definition has_readers (val : Z) : bool := negb (Z.land val READER_COUNT_MASK =? 0).

(** The next value a [compare_exchange] or store wants. *)
Definition read_desired (cur : Z) : Z := wrap 64 (cur + READER_INC).
Definition write_desired (cur : Z) : Z := Z.lor cur WRITER.
Definition upgrade_desired (cur : Z) : Z := Z.lor (Z.land cur VALUE_MASK) WRITER.
Definition downgrade_desired (cur : Z) : Z := Z.lor (Z.land cur VALUE_MASK) READER_INC.
Definition set_value_desired (cur v : Z) : Z := Z.lor (Z.land cur (not64 VALUE_MASK)) (Z.shiftl v VALUE_SHIFT).

Definition get_value (w : Z) : Z := wrap 32 (Z.shiftr w VALUE_SHIFT).
Definition held_value (w : Z) : option Z :=
  if has_readers w then Some (wrap 32 (Z.shiftr w VALUE_SHIFT)) else None.

(** What a thread holds between two operations. *)
Inductive held : Type := HNone | HRead | HWrite.

(** Where a thread is: outside the lock's code, or before the next atomic access of an
    operation, with the value it loaded. *)
Inductive tstate : Type :=
| Idle (h : held)
| ReadLoad (count : Z)
| ReadCas (count cur : Z)
| WriteLoad
| WriteCas (cur : Z)
| UpgradeLoad
| UpgradeCas (cur : Z)
| DowngradeLoad
| DowngradeCas (cur : Z)
| UnlockLoad (h : held)
| UnlockWriter
| UnlockReader
| SetLoad (v : Z)
| SetStore (cur v : Z).

(** The operations; a thread unlocks, upgrades, downgrades and sets the value only when
    it holds what the operation asks for. *)
Inductive call : Type := CRead | CWrite | CUpgrade | CDowngrade | CUnlock | CSetValue (v : Z).

Definition begin (c : call) (h : held) : option tstate :=
  match c, h with
  | CRead, HNone => Some (ReadLoad 0)
  | CWrite, HNone => Some WriteLoad
  | CUpgrade, HRead => Some UpgradeLoad
  | CDowngrade, HWrite => Some DowngradeLoad
  | CUnlock, HRead => Some (UnlockLoad HRead)
  | CUnlock, HWrite => Some (UnlockLoad HWrite)
  | CSetValue v, HWrite => if (0 <=? v) && (v <? 2 ^ 32) then Some (SetLoad v) else None
  | _, _ => None
  end.

(** The next atomic access of a thread: the word and the thread after it.  [debug] is the
    build's [debug_assertions]. *)
Definition access (debug : bool) (w : Z) (t : tstate) : res LimboError (Z * tstate) :=
  match t with
  | Idle h => Ok (w, Idle h)
  | ReadLoad count =>
      if count <? 1000000 then
        if has_writer w then Ok (w, Idle HNone) else Ok (w, ReadCas count w)
      else Ok (w, Idle HNone)
  | ReadCas count cur =>
      if w =? cur then Ok (read_desired cur, Idle HRead) else Ok (w, ReadLoad (count + 1))
  | WriteLoad => if has_writer w || has_readers w then Ok (w, Idle HNone) else Ok (w, WriteCas w)
  | WriteCas cur => if w =? cur then Ok (write_desired cur, Idle HWrite) else Ok (w, Idle HNone)
  | UpgradeLoad =>
      if negb (Z.land w (not64 VALUE_MASK) =? READER_INC) then Ok (w, Idle HRead) else Ok (w, UpgradeCas w)
  | UpgradeCas cur => if w =? cur then Ok (upgrade_desired cur, Idle HWrite) else Ok (w, Idle HRead)
  | DowngradeLoad => _ ← rassert (negb debug || has_writer w); Ok (w, DowngradeCas w)
  | DowngradeCas cur =>
      if debug then _ ← rassert (w =? cur); Ok (downgrade_desired cur, Idle HRead)
      else Ok (downgrade_desired cur, Idle HRead)
  | UnlockLoad h =>
      if negb (Z.land w WRITER =? 0) then Ok (w, UnlockWriter)
      else _ ← rassert (has_readers w); Ok (w, UnlockReader)
  | UnlockWriter =>
      _ ← rassert (negb (has_readers w)); Ok (Z.land w (not64 WRITER), Idle HNone)
  | UnlockReader => Ok (wrap 64 (w - READER_INC), Idle HNone)
  | SetLoad v => _ ← rassert (has_writer w); Ok (w, SetStore w v)
  | SetStore cur v => Ok (set_value_desired cur v, Idle HWrite)
  end.

(** The system: the word and the threads. *)
Definition system : Type := Z * list tstate.

Inductive step (debug : bool) : system -> system -> Prop :=
| step_begin w ts i h c t : ts !! i = Some (Idle h) -> begin c h = Some t -> step debug (w, ts) (w, <[i := t]> ts)
| step_access w ts i t w' t' : ts !! i = Some t -> access debug w t = Ok (w', t') -> step debug (w, ts) (w', <[i := t']> ts).

(** [n] threads that hold nothing and a fresh lock. *)
Definition initial (n : nat) : system := (0, replicate n (Idle HNone)).
Definition reachable (debug : bool) (n : nat) (s : system) : Prop := rtc (step debug) (initial n) s.

(** * Specification *)

(** A thread holds the lock from the access that takes it to the one that gives it back. *)
Definition holds_read (t : tstate) : bool :=
  match t with
  | Idle HRead | UpgradeLoad | UpgradeCas _ | UnlockLoad HRead | UnlockReader => true
  | _ => false
  end.
Definition holds_write (t : tstate) : bool :=
  match t with
  | Idle HWrite | DowngradeLoad | DowngradeCas _ | UnlockLoad HWrite | UnlockWriter | SetLoad _ | SetStore _ _ => true
  | _ => false
  end.


(** A word with value [v], [r] readers and [x] writers. *)
Definition word (v r x : Z) : Z := v * 2 ^ 32 + 2 * r + x.

(** How many more of its own accesses an operation can take: the [read] loop makes two
    per round and gives up after a million rounds. *)
Definition accesses_left (t : tstate) : Z :=
  match t with
  | Idle _ => 0
  | ReadLoad count => 2 * Z.max 0 (1000000 - count) + 1
  | ReadCas count _ => 2 * Z.max 1 (1000000 - count)
  | WriteLoad | UpgradeLoad | DowngradeLoad | UnlockLoad _ | SetLoad _ => 2
  | WriteCas _ | UpgradeCas _ | DowngradeCas _ | UnlockWriter | UnlockReader | SetStore _ _ => 1
  end.

(** A thread's own accesses, each meeting whatever word the other threads left. *)
Fixpoint own_run (debug : bool) (t : tstate) (ws : list Z) : res LimboError tstate :=
  match ws with
  | [] => Ok t
  | w :: ws => '(_, t') ← access debug w t; own_run debug t' ws
  end.

(** An operation that runs alone: its accesses one after the other. *)
Fixpoint solo (debug : bool) (fuel : nat) (w : Z) (t : tstate) : res LimboError (Z * tstate) :=
  match fuel with
  | O => Ok (w, t)
  | Datatypes.S fuel => '(w', t') ← access debug w t; solo debug fuel w' t'
  end.

(** The lock as a record: a value, the number of readers and whether there is a writer;
    an operation says what the caller holds after it. *)
Record alock : Type := ALock { a_value : Z; a_readers : Z; a_writer : bool }.
Definition alock_word (a : alock) : Z := word (a_value a) (a_readers a) (bit (a_writer a)).
Definition alock_ok (a : alock) : Prop :=
  0 <= a_value a < 2 ^ 32 /\ 0 <= a_readers a < 2 ^ 31 /\ (a_writer a = true -> a_readers a = 0).
Definition spec_call (c : call) (a : alock) : alock * held :=
  let 'ALock v r x := a in
  match c with
  | CRead => if x then (a, HNone) else (ALock v (r + 1) x, HRead)
  | CWrite => if x || negb (r =? 0) then (a, HNone) else (ALock v r true, HWrite)
  | CUpgrade => if r =? 1 then (ALock v 0 true, HWrite) else (a, HRead)
  | CDowngrade => (ALock v 1 false, HRead)
  | CUnlock => (if x then ALock v r false else ALock v (r - 1) x, HNone)
  | CSetValue u => (ALock u r x, HWrite)
  end.
(** The caller's part in the state: it counts among the readers, or it is the writer. *)
Definition caller_ok (h : held) (a : alock) : Prop :=
  match h with HNone => True | HRead => 1 <= a_readers a /\ a_writer a = false | HWrite => a_writer a = true end.

(** What a thread holds, and the call it is in. *)
Definition holding (t : tstate) : held := if holds_write t then HWrite else if holds_read t then HRead else HNone.
Definition call_of (t : tstate) : option call :=
  match t with
  | Idle _ => None
  | ReadLoad _ | ReadCas _ _ => Some CRead
  | WriteLoad | WriteCas _ => Some CWrite
  | UpgradeLoad | UpgradeCas _ => Some CUpgrade
  | DowngradeLoad | DowngradeCas _ => Some CDowngrade
  | UnlockLoad _ | UnlockWriter | UnlockReader => Some CUnlock
  | SetLoad v | SetStore _ v => Some (CSetValue v)
  end.
(** The calls that may fail. *)
Definition attempt (c : call) : bool := match c with CRead | CWrite | CUpgrade => true | _ => false end.
(** The lock that the word and the threads stand for. *)
Definition abs (w : Z) (ts : list tstate) : alock :=
  ALock (get_value w) (count_of holds_read ts) (0 <? count_of holds_write ts).

(** What a thread knows of the value it loaded, and of the word now. *)
Definition knows (w : Z) (t : tstate) : Prop :=
  match t with
  | ReadCas _ cur => has_writer cur = false
  | WriteCas cur => has_writer cur = false /\ has_readers cur = false
  | UpgradeCas cur => Z.land cur (not64 VALUE_MASK) = READER_INC
  | DowngradeCas cur => cur = w
  | SetLoad v => 0 <= v < 2 ^ 32
  | SetStore cur v => cur = w /\ 0 <= v < 2 ^ 32
  | UnlockLoad h => h <> HNone
  | _ => True
  end.

(** The word counts the holders, a writer is alone, and every thread's knowledge holds. *)
Record lock_ok (w : Z) (ts : list tstate) (v : Z) : Prop := {
  lk_value : 0 <= v < 2 ^ 32;
  lk_threads : len ts < 2 ^ 31;
  lk_word : w = word v (count_of holds_read ts) (count_of holds_write ts);
  lk_alone : count_of holds_write ts = 0 \/ count_of holds_write ts = 1 /\ count_of holds_read ts = 0;
  lk_knows : Forall (knows w) ts
}.

(** * The word *)

Section word.
Context (v r x : Z) (Hv : 0 <= v < 2 ^ 32) (Hr : 0 <= r < 2 ^ 31) (Hx : x = 0 \/ x = 1).

Lemma word_range : 0 <= word v r x < 2 ^ 64.
Proof. unfold word. lia. Qed.

Lemma word_div_value : word v r x / 2 ^ 32 = v.
Proof. unfold word. symmetry. apply Z.div_unique with (2 * r + x); lia. Qed.

Lemma has_writer_word : has_writer (word v r x) = (x =? 1).
Proof.
  unfold has_writer, WRITER. change 1 with (2 ^ 1 - 1) at 1. rewrite land_low by lia.
  assert (word v r x mod 2 ^ 1 = x) as ->.
  { symmetry. apply Z.mod_unique with (v * 2 ^ 31 + r); unfold word; lia. }
  destruct Hx as [-> | ->]; done.
Qed.
Lemma has_readers_word : has_readers (word v r x) = negb (r =? 0).
Proof.
  unfold has_readers, READER_COUNT_MASK, READER_SHIFT. change 0x7fffffff with (Z.ones 31). rewrite land_shifted_mask by lia.
  assert (word v r x / 2 ^ 1 = v * 2 ^ 31 + r) as ->.
  { symmetry. apply Z.div_unique with x; unfold word; lia. }
  rewrite Z.add_comm, Z.mod_add, Z.mod_small by lia. f_equal. destruct (Z.eqb_spec r 0), (Z.eqb_spec (r * 2 ^ 1) 0); lia || done.
Qed.
Lemma value_mask_word : Z.land (word v r x) VALUE_MASK = v * 2 ^ 32.
Proof.
  unfold VALUE_MASK, VALUE_SHIFT. change 0xffffffff with (Z.ones 32). rewrite land_shifted_mask, word_div_value by lia.
  by rewrite Z.mod_small by lia.
Qed.
Lemma low_mask_word : Z.land (word v r x) (not64 VALUE_MASK) = 2 * r + x.
Proof.
  change (not64 VALUE_MASK) with (2 ^ 32 - 1). rewrite land_low by lia. symmetry. apply Z.mod_unique with v; unfold word; lia.
Qed.
Lemma get_value_word : get_value (word v r x) = v.
Proof.
  unfold get_value, VALUE_SHIFT. rewrite Z.shiftr_div_pow2, word_div_value by lia. by apply wrap_small.
Qed.
End word.

Lemma read_desired_word v r : 0 <= v < 2 ^ 32 -> 0 <= r -> r + 1 < 2 ^ 31 -> read_desired (word v r 0) = word v (r + 1) 0.
Proof. intros. unfold read_desired, READER_INC. rewrite wrap_small; unfold is_u, word; lia. Qed.
Lemma release_word v r : 0 <= v < 2 ^ 32 -> 0 < r < 2 ^ 31 -> wrap 64 (word v r 0 - READER_INC) = word v (r - 1) 0.
Proof. intros. unfold READER_INC. rewrite wrap_small; unfold is_u, word; lia. Qed.
Lemma write_desired_word v : write_desired (word v 0 0) = word v 0 1.
Proof.
  unfold write_desired, WRITER, word. rewrite !Z.mul_0_r, !Z.add_0_r. by rewrite lor_add_disjoint by lia.
Qed.
Lemma upgrade_desired_word v r x :
  0 <= v < 2 ^ 32 -> 0 <= r < 2 ^ 31 -> x = 0 \/ x = 1 -> upgrade_desired (word v r x) = word v 0 1.
Proof.
  intros. unfold upgrade_desired, WRITER. rewrite value_mask_word, lor_add_disjoint by lia. unfold word. lia.
Qed.
Lemma downgrade_desired_word v r x :
  0 <= v < 2 ^ 32 -> 0 <= r < 2 ^ 31 -> x = 0 \/ x = 1 -> downgrade_desired (word v r x) = word v 1 0.
Proof.
  intros. unfold downgrade_desired, READER_INC. rewrite value_mask_word, lor_add_disjoint by lia. unfold word. lia.
Qed.
Lemma set_value_word v u r x :
  0 <= v < 2 ^ 32 -> 0 <= u < 2 ^ 32 -> 0 <= r < 2 ^ 31 -> x = 0 \/ x = 1 -> set_value_desired (word v r x) u = word u r x.
Proof.
  intros. unfold set_value_desired, VALUE_SHIFT.
  rewrite low_mask_word, Z.lor_comm, Z.shiftl_mul_pow2, lor_add_disjoint by lia. unfold word. lia.
Qed.
Lemma release_writer_word v : 0 <= v < 2 ^ 32 -> Z.land (word v 0 1) (not64 WRITER) = word v 0 0.
Proof.
  intros. change (not64 WRITER) with (Z.shiftl (Z.ones 63) 1). rewrite land_shifted_mask by lia.
  assert (word v 0 1 / 2 ^ 1 = v * 2 ^ 31) as ->.
  { symmetry. apply Z.div_unique with 1; unfold word; lia. }
  rewrite Z.mod_small by lia. unfold word. lia.
Qed.

(** * The invariant *)

Lemma holds_not_both t : bit (holds_read t) + bit (holds_write t) <= 1.
Proof. destruct t as [[]|?|?|?|?|?|?|?|?|[]|?|?|?|?]; cbn; lia. Qed.
Lemma knows_frame w w' t : holds_write t = false -> knows w t -> knows w' t.
Proof. by destruct t. Qed.

Lemma lock_change w ts v i t w' t' v' :
  lock_ok w ts v -> ts !! i = Some t ->
  w' = w \/ count_of holds_write ts = bit (holds_write t) ->
  0 <= v' < 2 ^ 32 -> knows w' t' ->
  w' = word v' (count_of holds_read ts - bit (holds_read t) + bit (holds_read t'))
               (count_of holds_write ts - bit (holds_write t) + bit (holds_write t')) ->
  bit (holds_write t') = 0 /\ bit (holds_write t) = count_of holds_write ts \/
    bit (holds_write t') = bit (holds_write t) /\ bit (holds_read t') <= bit (holds_read t) \/
    count_of holds_write ts - bit (holds_write t) + bit (holds_write t') = 1 /\
    count_of holds_read ts - bit (holds_read t) + bit (holds_read t') = 0 ->
  lock_ok w' (<[i := t']> ts) v'.
Proof.
  intros [Hv Hn Hw Ha Hk] Hi Hc Hv' Hk' Hw' Ha'. split; [done| |..]; rewrite ?(count_of_insert _ _ _ _ _ Hi).
  - unfold len. by rewrite length_insert.
  - done.
  - assert (H := count_of_bounds holds_read (<[i := t']> ts)). rewrite (count_of_insert _ _ _ _ _ Hi) in H.
    destruct Ha' as [?|[?|?]]; lia.
  - apply Forall_lookup. intros j u Hj. destruct (decide (j = i)) as [->|Hne].
    + rewrite list_lookup_insert_eq in Hj by (by eapply lookup_lt_Some). by simplify_eq.
    + rewrite list_lookup_insert_ne in Hj by done. assert (Hu := Forall_lookup_1 _ _ _ _ Hk Hj).
      destruct Hc as [-> | Hc]; [done|]. apply knows_frame with w; [|done].
      destruct (holds_write u) eqn:Hhu; [|done]. exfalso.
      assert (H1 := count_of_in _ _ _ _ Hj Hhu). destruct (holds_write t) eqn:Hht; cbn in Hc; [|lia].
      assert (H2 := count_of_two holds_write ts i j t u Hi Hj ltac:(done) Hht Hhu). lia.
Qed.

Lemma lock_move w ts v i t t' :
  lock_ok w ts v -> ts !! i = Some t -> holds_read t' = holds_read t -> holds_write t' = holds_write t -> knows w t' ->
  lock_ok w (<[i := t']> ts) v.
Proof.
  intros Hl Hi Hr Hw Hk. pose proof Hl as [Hv _ Hword _ _].
  eapply (lock_change _ _ _ _ _ _ _ _ Hl Hi); rewrite ?Hr, ?Hw; [by left|done|done| |right; left; lia].
  rewrite Hword at 1. f_equal; lia.
Qed.

(** What a good state says of the word that a thread meets. *)
Lemma lock_writer w ts v i t :
  lock_ok w ts v -> ts !! i = Some t -> holds_write t = true ->
  w = word v 0 1 /\ count_of holds_read ts = 0 /\ count_of holds_write ts = 1 /\ holds_read t = false.
Proof.
  intros [Hv Hn Hw Ha Hk] Hi Ht. assert (H := count_of_in _ _ _ _ Hi Ht). assert (Hb := holds_not_both t).
  rewrite Ht in Hb. destruct Ha as [|[Ha Hz]]; [lia|]. rewrite Ha, Hz in Hw. destruct (holds_read t); cbn in Hb; [lia|done].
Qed.
Lemma lock_reader w ts v i t :
  lock_ok w ts v -> ts !! i = Some t -> holds_read t = true ->
  w = word v (count_of holds_read ts) 0 /\ 1 <= count_of holds_read ts < 2 ^ 31 /\ count_of holds_write ts = 0 /\
  holds_write t = false.
Proof.
  intros [Hv Hn Hw Ha Hk] Hi Ht. assert (H := count_of_in _ _ _ _ Hi Ht). assert (Hb := holds_not_both t).
  assert (Hr := count_of_bounds holds_read ts). rewrite Ht in Hb. destruct Ha as [Ha|[Ha Hz]]; [|lia]. rewrite Ha in Hw.
  destruct (holds_write t); cbn in Hb; [lia|]. split_and!; [done|lia|lia|done|done].
Qed.
Lemma lock_free w ts v i t :
  lock_ok w ts v -> ts !! i = Some t -> holds_read t = false -> count_of holds_write ts = 0 ->
  0 <= count_of holds_read ts /\ count_of holds_read ts + 1 < 2 ^ 31.
Proof.
  intros [Hv Hn Hw Ha Hk] Hi Ht Hz. assert (Hr := count_of_bounds holds_read ts).
  assert (H := count_of_insert holds_read ts i t (Idle HRead) Hi). rewrite Ht in H. cbn in H.
  assert (Hr' := count_of_bounds holds_read (<[i := Idle HRead]> ts)).
  unfold len in *. rewrite length_insert in Hr'. lia.
Qed.
Lemma lock_word_checks w ts v :
  lock_ok w ts v ->
  has_writer w = (count_of holds_write ts =? 1) /\ has_readers w = negb (count_of holds_read ts =? 0) /\
  Z.land w (not64 VALUE_MASK) = 2 * count_of holds_read ts + count_of holds_write ts /\ get_value w = v.
Proof.
  intros [Hv Hn Hw Ha Hk]. assert (Hr := count_of_bounds holds_read ts). rewrite Hw.
  rewrite has_writer_word, has_readers_word, low_mask_word, get_value_word; auto; lia.
Qed.

(** The accesses that take or give back the lock. *)
Lemma take_read w ts v i count cur :
  lock_ok w ts v -> ts !! i = Some (ReadCas count cur) -> w = cur -> lock_ok (read_desired cur) (<[i := Idle HRead]> ts) v.
Proof.
  intros Hl Hi <-. pose proof Hl as [Hv _ Hw Ha Hk]. assert (Hc := Forall_lookup_1 _ _ _ _ Hk Hi).
  destruct (lock_word_checks _ _ _ Hl) as [Hwr _]. cbn in Hc. rewrite Hc in Hwr.
  destruct Ha as [Ha|[Ha _]]; [|by rewrite Ha in Hwr].
  destruct (lock_free _ _ _ _ _ Hl Hi eq_refl Ha). rewrite Ha in Hw.
  apply (lock_change _ _ _ _ _ _ _ _ Hl Hi); cbn; [by right|done|done| |by left].
  rewrite Hw, read_desired_word by lia. f_equal; lia.
Qed.
Lemma take_write w ts v i cur :
  lock_ok w ts v -> ts !! i = Some (WriteCas cur) -> w = cur -> lock_ok (write_desired cur) (<[i := Idle HWrite]> ts) v.
Proof.
  intros Hl Hi <-. pose proof Hl as [Hv _ Hw Ha Hk]. destruct (Forall_lookup_1 _ _ _ _ Hk Hi) as [Hc1 Hc2].
  destruct (lock_word_checks _ _ _ Hl) as (Hwr & Hrd & _). rewrite Hc1 in Hwr. rewrite Hc2 in Hrd.
  destruct Ha as [Ha|[Ha _]]; [|by rewrite Ha in Hwr]. destruct (Z.eqb_spec (count_of holds_read ts) 0) as [Hz|]; [|done].
  rewrite Ha, Hz in Hw. apply (lock_change _ _ _ _ _ _ _ _ Hl Hi); cbn; [by right|done|done| |right; right; lia].
  rewrite Hw, write_desired_word. f_equal; lia.
Qed.
Lemma take_upgrade w ts v i cur :
  lock_ok w ts v -> ts !! i = Some (UpgradeCas cur) -> w = cur -> lock_ok (upgrade_desired cur) (<[i := Idle HWrite]> ts) v.
Proof.
  intros Hl Hi <-. pose proof Hl as [Hv _ _ _ Hk]. assert (Hc := Forall_lookup_1 _ _ _ _ Hk Hi).
  destruct (lock_word_checks _ _ _ Hl) as (_ & _ & Hlow & _). cbn in Hc. rewrite Hc in Hlow. unfold READER_INC in Hlow.
  destruct (lock_reader _ _ _ _ _ Hl Hi eq_refl) as (Hw & Hr & Hz & _).
  apply (lock_change _ _ _ _ _ _ _ _ Hl Hi); cbn; [by right|done|done| |right; right; lia].
  rewrite Hw, upgrade_desired_word by lia. f_equal; lia.
Qed.
Lemma take_downgrade w ts v i cur :
  lock_ok w ts v -> ts !! i = Some (DowngradeCas cur) -> lock_ok (downgrade_desired cur) (<[i := Idle HRead]> ts) v.
Proof.
  intros Hl Hi. pose proof Hl as [Hv _ _ _ Hk]. assert (Hc := Forall_lookup_1 _ _ _ _ Hk Hi). cbn in Hc. subst cur.
  destruct (lock_writer _ _ _ _ _ Hl Hi eq_refl) as (Hw & Hr & Hz & _).
  apply (lock_change _ _ _ _ _ _ _ _ Hl Hi); cbn; [by right|done|done| |left; lia].
  rewrite Hw, downgrade_desired_word by lia. f_equal; lia.
Qed.
Lemma give_write w ts v i :
  lock_ok w ts v -> ts !! i = Some UnlockWriter -> lock_ok (Z.land w (not64 WRITER)) (<[i := Idle HNone]> ts) v.
Proof.
  intros Hl Hi. pose proof Hl as [Hv _ _ _ _]. destruct (lock_writer _ _ _ _ _ Hl Hi eq_refl) as (Hw & Hr & Hz & _).
  apply (lock_change _ _ _ _ _ _ _ _ Hl Hi); cbn; [by right|done|done| |left; lia].
  rewrite Hw, release_writer_word by lia. f_equal; lia.
Qed.
Lemma give_read w ts v i :
  lock_ok w ts v -> ts !! i = Some UnlockReader -> lock_ok (wrap 64 (w - READER_INC)) (<[i := Idle HNone]> ts) v.
Proof.
  intros Hl Hi. pose proof Hl as [Hv _ _ _ _]. destruct (lock_reader _ _ _ _ _ Hl Hi eq_refl) as (Hw & Hr & Hz & _).
  apply (lock_change _ _ _ _ _ _ _ _ Hl Hi); cbn; [by right|done|done| |left; lia].
  rewrite Hw, release_word by lia. f_equal; lia.
Qed.
Lemma store_value w ts v i cur u :
  lock_ok w ts v -> ts !! i = Some (SetStore cur u) -> lock_ok (set_value_desired cur u) (<[i := Idle HWrite]> ts) u.
Proof.
  intros Hl Hi. pose proof Hl as [Hv _ _ _ Hk]. destruct (Forall_lookup_1 _ _ _ _ Hk Hi) as [-> Hu].
  destruct (lock_writer _ _ _ _ _ Hl Hi eq_refl) as (Hw & Hr & Hz & _).
  apply (lock_change _ _ _ _ _ _ _ _ Hl Hi); cbn; [by right|done|done| |right; left; lia].
  rewrite Hw, set_value_word by lia. f_equal; lia.
Qed.

(** A step of one thread: from a good state the access does not panic, the state stays
    good, and the value changes only under the write lock. *)
Lemma access_ok debug w ts v i t :
  lock_ok w ts v -> ts !! i = Some t ->
  exists w' t' v', access debug w t = Ok (w', t') /\ lock_ok w' (<[i := t']> ts) v' /\ (v' = v \/ holds_write t = true).
Proof.
  intros Hl Hi. assert (Hk := Forall_lookup_1 _ _ _ _ (lk_knows _ _ _ Hl) Hi).
  destruct (lock_word_checks _ _ _ Hl) as (Hwr & Hrd & Hlow & _).
  destruct t as [h|count|count cur| |cur| |cur| |cur|h| | |u|cur u]; cbn [access].
  all: try (assert (Hwtr := lock_writer _ _ _ _ _ Hl Hi eq_refl); destruct Hwtr as (Hword & Hr0 & Hw1 & _)).
  all: repeat case_match.
  all: try (eexists _, _, _; split; [reflexivity|split; [|by left]];
            first [eapply lock_move; eauto; done | by eapply take_read; [..|apply Z.eqb_eq]
                  | by eapply take_write; [..|apply Z.eqb_eq] | by eapply take_upgrade; [..|apply Z.eqb_eq]
                  | by eapply give_read]).
  - apply orb_false_iff in H. eexists _, _, v; split; [reflexivity|split; [|by left]]. by eapply lock_move.
  - apply negb_false_iff, Z.eqb_eq in H. eexists _, _, v; split; [reflexivity|split; [|by left]]. by eapply lock_move.
  - rewrite Hwr, Hw1, orb_true_r. eexists _, _, v; split; [reflexivity|split; [|by left]]. by eapply lock_move.
  - cbn in Hk. subst cur. rewrite Z.eqb_refl. eexists _, _, v; split; [reflexivity|split; [|by left]]. by eapply take_downgrade.
  - eexists _, _, v; split; [reflexivity|split; [|by left]]. by eapply take_downgrade.
  - fold (has_writer w) in H. destruct h; [done| |].
    + destruct (lock_reader _ _ _ _ _ Hl Hi eq_refl) as (_ & _ & Hz & _). by rewrite Hwr, Hz in H.
    + eexists _, _, v; split; [reflexivity|split; [|by left]]. by eapply lock_move.
  - fold (has_writer w) in H. destruct h; [done| |].
    + destruct (lock_reader _ _ _ _ _ Hl Hi eq_refl) as (_ & Hr & _ & _). rewrite Hrd.
      destruct (Z.eqb_spec (count_of holds_read ts) 0); [lia|].
      eexists _, _, v; split; [reflexivity|split; [|by left]]. by eapply lock_move.
    + destruct (lock_writer _ _ _ _ _ Hl Hi eq_refl) as (_ & _ & Hz & _). by rewrite Hwr, Hz in H.
  - rewrite Hrd, Hr0. eexists _, _, v; split; [reflexivity|split; [|by left]]. by eapply give_write.
  - rewrite Hwr, Hw1. eexists _, _, v; split; [reflexivity|split; [|by left]]. by eapply lock_move.
  - eexists _, _, u; split; [reflexivity|split; [|by right]]. by eapply store_value.
Qed.
Lemma begin_ok w ts v i h c t :
  lock_ok w ts v -> ts !! i = Some (Idle h) -> begin c h = Some t -> lock_ok w (<[i := t]> ts) v.
Proof.
  intros Hl Hi Hb. eapply lock_move; [done..| | |]; destruct c, h; cbn in Hb; repeat case_match; simplify_eq; cbn; try done.
  match goal with H : _ && _ = true |- _ => apply andb_true_iff in H as [? ?] end. zbool. lia.
Qed.

Lemma count_of_replicate p n : p (Idle HNone) = false -> count_of p (replicate n (Idle HNone)) = 0.
Proof.
  intros Hp. induction n as [|n IH]; [done|]. cbn [replicate count_of foldr]. fold (count_of p (replicate n (Idle HNone))).
  by rewrite Hp, IH.
Qed.
Lemma initial_ok n : Z.of_nat n < 2 ^ 31 -> lock_ok 0 (replicate n (Idle HNone)) 0.
Proof.
  intros Hn. split; rewrite ?count_of_replicate by done; [lia| |done|by left|].
  - unfold len. by rewrite length_replicate.
  - by apply Forall_replicate.
Qed.
Lemma reachable_ok debug n w ts : Z.of_nat n < 2 ^ 31 -> reachable debug n (w, ts) -> exists v, lock_ok w ts v.
Proof.
  intros Hn Hr. unfold reachable in Hr.
  assert (H : forall s, rtc (step debug) (initial n) s -> exists v, lock_ok s.1 s.2 v); [|by apply (H (w, ts))].
  apply (rtc_ind_r (fun s => exists v, lock_ok s.1 s.2 v)); [by exists 0; apply initial_ok|].
  intros s s' _ Hs [v Hl]. destruct Hs as [w0 ts0 i h c t Hi Hb|w0 ts0 i t w' t' Hi Ha]; cbn [fst snd] in *.
  - exists v. by eapply begin_ok.
  - destruct (access_ok debug _ _ _ _ _ Hl Hi) as (w1 & t1 & v' & Ha' & Hl' & _).
    rewrite Ha in Ha'. simplify_eq. by exists v'.
Qed.

Lemma access_shorter debug w t w' t' :
  access debug w t = Ok (w', t') -> (exists h, t = Idle h) \/ accesses_left t' < accesses_left t.
Proof.
  intros Ha. destruct t as [h|count|count cur| |cur| |cur| |cur|h| | |u|cur u]; [left; by exists h|right..]; cbn in Ha;
    unfold rassert in Ha; repeat case_match; try done; try (rewrite bind_Ok in Ha); try (rewrite bind_Panic in Ha); try done.
  all: injection Ha as <- <-; zbool; cbn [accesses_left]; lia.
Qed.

Lemma access_no_err debug w t e : access debug w t <> Err e.
Proof. destruct t; cbn; unfold rassert; repeat case_match; done. Qed.
Lemma own_run_Idle debug h ws : own_run debug (Idle h) ws = Ok (Idle h).
Proof. induction ws as [|w ws IH]; [done|]. cbn [own_run access]. rewrite bind_Ok. apply IH. Qed.
Lemma own_run_ends debug t ws :
  accesses_left t <= len ws -> own_run debug t ws = Panic \/ exists h, own_run debug t ws = Ok (Idle h).
Proof.
  revert t. induction ws as [|w ws IH]; intros t Ht.
  - right. exists (match t with Idle h => h | _ => HNone end). unfold len in Ht. cbn in Ht. by destruct t; cbn in Ht; try lia.
  - cbn [own_run]. destruct (access debug w t) as [[w' t']|e|] eqn:Ha; [|by destruct (access_no_err debug w t e)|by left].
    rewrite bind_Ok. destruct (access_shorter _ _ _ _ _ Ha) as [[h ->]|Hlt].
    + injection Ha as <- <-. right. exists h. apply own_run_Idle.
    + apply IH. unfold len in *. cbn [length] in Ht. lia.
Qed.

Section solo.
Context (debug : bool) (v r : Z) (Hv : 0 <= v < 2 ^ 32) (Hr : 0 <= r) (Hr' : r + 1 < 2 ^ 31).

Lemma solo_read x :
  solo debug 2 (word v r (bit x)) (ReadLoad 0) = Ok (if x then (word v r 1, Idle HNone) else (word v (r + 1) 0, Idle HRead)).
Proof.
  destruct x; cbn [solo access bit]; change (0 <? 1000000) with true; cbv iota; rewrite has_writer_word by lia; [done|].
  cbn [Z.eqb Pos.eqb]. rewrite bind_Ok. cbn [access]. by rewrite Z.eqb_refl, read_desired_word by lia.
Qed.
Lemma solo_write x :
  solo debug 2 (word v r (bit x)) WriteLoad =
  Ok (if x || negb (r =? 0) then (word v r (bit x), Idle HNone) else (word v r 1, Idle HWrite)).
Proof.
  cbn [solo access]. rewrite has_writer_word, has_readers_word by (destruct x; cbn; lia).
  destruct x; [done|]. cbn [bit]. destruct (Z.eqb_spec r 0) as [->|]; [|done]. cbn [Z.eqb orb negb]. rewrite bind_Ok.
  cbn [access]. by rewrite Z.eqb_refl, write_desired_word.
Qed.
Lemma solo_upgrade :
  solo debug 2 (word v r 0) UpgradeLoad = Ok (if r =? 1 then (word v 0 1, Idle HWrite) else (word v r 0, Idle HRead)).
Proof.
  cbn [solo access]. rewrite low_mask_word by lia. unfold READER_INC.
  destruct (Z.eqb_spec r 1), (Z.eqb_spec (2 * r + 0) 2); try lia; [|done]. cbn [negb]. rewrite bind_Ok. cbn [access]. by rewrite Z.eqb_refl, upgrade_desired_word by lia.
Qed.
Lemma solo_downgrade : solo debug 2 (word v 0 1) DowngradeLoad = Ok (word v 1 0, Idle HRead).
Proof.
  cbn [solo access]. rewrite has_writer_word, orb_true_r by lia. cbn [rassert]. rewrite !bind_Ok. cbn [access].
  rewrite Z.eqb_refl, downgrade_desired_word by lia. by destruct debug.
Qed.
Lemma solo_unlock_write h : solo debug 2 (word v 0 1) (UnlockLoad h) = Ok (word v 0 0, Idle HNone).
Proof.
  cbn [solo access]. fold (has_writer (word v 0 1)). rewrite has_writer_word by lia. cbn [Z.eqb Pos.eqb]. rewrite bind_Ok.
  cbn [access]. rewrite has_readers_word, release_writer_word by lia. done.
Qed.
Lemma solo_unlock_read h : 1 <= r -> solo debug 2 (word v r 0) (UnlockLoad h) = Ok (word v (r - 1) 0, Idle HNone).
Proof.
  intros. cbn [solo access]. fold (has_writer (word v r 0)). rewrite has_writer_word, has_readers_word by lia.
  destruct (Z.eqb_spec r 0); [lia|]. cbn [Z.eqb negb rassert]. rewrite !bind_Ok. cbn [access]. by rewrite release_word by lia.
Qed.
Lemma solo_set_value u : 0 <= u < 2 ^ 32 -> solo debug 2 (word v 0 1) (SetLoad u) = Ok (word u 0 1, Idle HWrite).
Proof.
  intros. cbn [solo access]. rewrite has_writer_word by lia. cbn [Z.eqb Pos.eqb rassert]. rewrite !bind_Ok. cbn [access].
  by rewrite set_value_word by lia.
Qed.
End solo.

(** Closes the side conditions of an operation that has run. *)
Ltac lock_done :=
  unfold alock_ok, alock_word, caller_ok; cbn [bit a_value a_readers a_writer orb negb]; split_and!;
  first [reflexivity | lia | auto; fail | intros; first [done | lia]].

(** * Properties *)

(** C31: for any number of threads below 2^31 and any interleaving of their atomic
    accesses, a thread that holds the write lock is the only holder, the writer bit and
    the reader count say which threads hold the lock, and no assertion of the lock's code
    fails: neither the debug ones nor the ones of [unlock] and [set_value_exclusive]. *)
Theorem rwlock_exclusion debug n w ts :
  Z.of_nat n < 2 ^ 31 -> reachable debug n (w, ts) ->
  (forall i j t u, ts !! i = Some t -> ts !! j = Some u -> holds_write t = true -> holds_read u || holds_write u = true -> i = j) /\
  (has_writer w = true <-> exists i t, ts !! i = Some t /\ holds_write t = true) /\
  (has_readers w = true <-> exists i t, ts !! i = Some t /\ holds_read t = true) /\
  (forall i t, ts !! i = Some t -> exists w' t', access debug w t = Ok (w', t')).
Proof.
  intros Hn Hr. destruct (reachable_ok _ _ _ _ Hn Hr) as [v Hl]. destruct (lock_word_checks _ _ _ Hl) as (Hwr & Hrd & _).
  split_and!.
  - intros i j t u Hi Hj Ht Hu. destruct (decide (i = j)) as [|Hne]; [done|exfalso].
    destruct (lock_writer _ _ _ _ _ Hl Hi Ht) as (_ & Hr0 & Hw1 & _). apply orb_true_iff in Hu as [Hu|Hu].
    + assert (H := count_of_in _ _ _ _ Hj Hu). lia.
    + assert (H := count_of_two _ _ _ _ _ _ Hi Hj Hne Ht Hu). lia.
  - rewrite Hwr, <- count_of_pos, Z.eqb_eq. pose proof Hl as [_ _ _ Ha _]. lia.
  - rewrite Hrd, <- count_of_pos, negb_true_iff, Z.eqb_neq. assert (H := count_of_bounds holds_read ts). lia.
  - intros i t Hi. destruct (access_ok debug _ _ _ _ _ Hl Hi) as (w' & t' & _ & Ha & _). eauto.
Qed.
Lemma rwlock_exclusion_witness :
  let s := (word 0 1 0, [Idle HRead; WriteLoad]) in
  Z.of_nat 2 < 2 ^ 31 /\ reachable true 2 s /\ (has_writer (word 0 1 0) = true <-> exists i t, s.2 !! i = Some t /\ holds_write t = true).
Proof.
  assert (H : reachable true 2 (word 0 1 0, [Idle HRead; WriteLoad])).
  { eapply rtc_l; [eapply (step_begin _ _ _ 0 HNone CRead); reflexivity|].
    eapply rtc_l; [eapply (step_access _ _ _ 0); reflexivity|].
    eapply rtc_l; [eapply (step_access _ _ _ 0); reflexivity|].
    eapply rtc_l; [eapply (step_begin _ _ _ 1 HNone CWrite); reflexivity|]. apply rtc_refl. }
  split; [reflexivity|split; [exact H|]]. exact (proj1 (proj2 (rwlock_exclusion true 2 _ _ eq_refl H))).
Defined.

(** While some thread holds the read lock, no access of any thread changes the
    embedded value, and [held_value] is the value; so a read mark that a reader has seen
    under its lock stays. *)
Theorem rwlock_value_stable debug n w ts i t w' ts' :
  Z.of_nat n < 2 ^ 31 -> reachable debug n (w, ts) -> ts !! i = Some t -> holds_read t = true ->
  step debug (w, ts) (w', ts') ->
  get_value w' = get_value w /\ held_value w = Some (get_value w).
Proof.
  intros Hn Hr Hi Ht Hs. destruct (reachable_ok _ _ _ _ Hn Hr) as [v Hl].
  destruct (lock_word_checks _ _ _ Hl) as (_ & Hrd & _ & Hv). destruct (lock_reader _ _ _ _ _ Hl Hi Ht) as (_ & Hpos & Hz & _).
  split.
  - inversion Hs as [? ? j h c u Hj Hb|? ? j u w1 u' Hj Ha]; subst; [done|].
    destruct (access_ok debug _ _ _ _ _ Hl Hj) as (w2 & t2 & v' & Ha' & Hl' & Hsame). rewrite Ha in Ha'. simplify_eq.
    destruct (lock_word_checks _ _ _ Hl') as (_ & _ & _ & Hv'). rewrite Hv'.
    destruct Hsame as [->|Hu]; [done|]. assert (H := count_of_in _ _ _ _ Hj Hu). lia.
  - unfold held_value. rewrite Hrd. destruct (Z.eqb_spec (count_of holds_read ts) 0); [lia|done].
Qed.
Lemma rwlock_value_stable_witness :
  let s := (word 0 1 0, [Idle HRead; Idle HNone]) in
  reachable true 2 s /\ step true s (word 0 1 0, [Idle HRead; ReadLoad 0]) /\ held_value (word 0 1 0) = Some (get_value (word 0 1 0)).
Proof.
  assert (H : reachable true 2 (word 0 1 0, [Idle HRead; Idle HNone])).
  { eapply rtc_l; [eapply (step_begin _ _ _ 0 HNone CRead); reflexivity|].
    eapply rtc_l; [eapply (step_access _ _ _ 0); reflexivity|].
    eapply rtc_l; [eapply (step_access _ _ _ 0); reflexivity|]. apply rtc_refl. }
  assert (H' : step true (word 0 1 0, [Idle HRead; Idle HNone]) (word 0 1 0, [Idle HRead; ReadLoad 0])).
  { exact (step_begin true _ [Idle HRead; Idle HNone] 1 HNone CRead (ReadLoad 0) eq_refl eq_refl). }
  split; [exact H|split; [exact H'|]].
  exact (proj2 (rwlock_value_stable true 2 _ _ 0 (Idle HRead) _ _ eq_refl H eq_refl eq_refl H')).
Defined.

(** C38: the operations are wait-free: whatever words the other threads leave between a
    thread's accesses, an operation started by [begin] ends after at most 2,000,001 of
    its own accesses, and the [read] loop is the only one to need more than two. *)
Theorem rwlock_wait_free debug c h t ws :
  begin c h = Some t -> 2000001 <= len ws \/ (c <> CRead /\ 2 <= len ws) ->
  own_run debug t ws = Panic \/ exists h', own_run debug t ws = Ok (Idle h').
Proof.
  intros Hb Hws. apply own_run_ends. destruct c, h; cbn in Hb; repeat case_match; simplify_eq; cbn [accesses_left]; lia || (destruct Hws as [|[? ?]]; [lia|done]).
Qed.
Lemma rwlock_wait_free_witness :
  begin CWrite HNone = Some WriteLoad /\
  (own_run true WriteLoad [0; 7] = Panic \/ exists h', own_run true WriteLoad [0; 7] = Ok (Idle h')).
Proof.
  split; [reflexivity|]. apply (rwlock_wait_free true CWrite HNone); [reflexivity|].
  right. split; [discriminate|vm_compute; discriminate].
Defined.

(** An access that changes nothing but where its thread is. *)
Definition no_effect (w w' : Z) (ts : list tstate) (i : nat) (t t' : tstate) : Prop :=
  abs w' (<[i := t']> ts) = abs w ts /\ holding t' = holding t /\
  (call_of t' = call_of t \/ exists c h, call_of t = Some c /\ attempt c = true /\ t' = Idle h).
(** An access that carries out the thread's call. *)
Definition effect (w w' : Z) (ts : list tstate) (i : nat) (t t' : tstate) : Prop :=
  exists c, call_of t = Some c /\ spec_call c (abs w ts) = (abs w' (<[i := t']> ts), holding t') /\ t' = Idle (holding t').

Lemma no_effect_same w ts i t t' :
  ts !! i = Some t -> holds_read t' = holds_read t -> holds_write t' = holds_write t ->
  (call_of t' = call_of t \/ exists c h, call_of t = Some c /\ attempt c = true /\ t' = Idle h) -> no_effect w w ts i t t'.
Proof.
  intros Hi Hr Hw Hc. split_and!; [|unfold holding; by rewrite Hr, Hw|done].
  unfold abs. rewrite !(count_of_insert _ _ _ _ _ Hi), Hr, Hw. f_equal; [lia|f_equal; lia].
Qed.
Lemma effect_ok w w' ts i t h c v v' :
  lock_ok w ts v -> ts !! i = Some t -> call_of t = Some c -> lock_ok w' (<[i := Idle h]> ts) v' ->
  spec_call c (ALock v (count_of holds_read ts) (0 <? count_of holds_write ts)) =
    (ALock v' (count_of holds_read ts - bit (holds_read t) + bit (holds_read (Idle h)))
       (0 <? count_of holds_write ts - bit (holds_write t) + bit (holds_write (Idle h))), h) ->
  effect w w' ts i t (Idle h).
Proof.
  intros Hl Hi Hc Hl' Hs. assert (Hh : holding (Idle h) = h) by by destruct h.
  exists c. rewrite Hh. split_and!; [done| |done]. unfold abs.
  destruct (lock_word_checks _ _ _ Hl) as (_ & _ & _ & ->), (lock_word_checks _ _ _ Hl') as (_ & _ & _ & ->).
  by rewrite !(count_of_insert _ _ _ _ _ Hi).
Qed.

(** C32: every operation of the lock takes effect at one of its atomic accesses, whatever
    the other threads do in between: an access of a thread either changes nothing that the
    word and the holders stand for (and may then end an attempt to take the lock, which
    fails), or carries out the thread's call exactly as [spec_call] says and ends it.  This
    is what lets the WAL treat a call of the lock as one step. *)
Theorem rwlock_atomic debug n w ts i t w' t' :
  Z.of_nat n < 2 ^ 31 -> reachable debug n (w, ts) -> ts !! i = Some t -> access debug w t = Ok (w', t') ->
  w = alock_word (abs w ts) /\ (no_effect w w' ts i t t' \/ effect w w' ts i t t').
Proof.
  intros Hn Hr Hi Ha. destruct (reachable_ok _ _ _ _ Hn Hr) as [v Hl].
  assert (Hk := Forall_lookup_1 _ _ _ _ (lk_knows _ _ _ Hl) Hi). destruct (lock_word_checks _ _ _ Hl) as (Hwr & Hrd & Hlow & Hv).
  split.
  { unfold alock_word, abs. cbn. rewrite Hv. destruct Hl as [_ _ -> Halone _]. f_equal. destruct Halone as [-> |[-> _]]; done. }
  assert (Hrb := count_of_bounds holds_read ts).
  destruct t as [h|count|count cur| |cur| |cur| |cur|h| | |u|cur u]; cbn [access] in Ha.
  all: try (destruct (lock_writer _ _ _ _ _ Hl Hi eq_refl) as (Hword & Hr0 & Hw1 & _)).
  all: try (destruct (lock_reader _ _ _ _ _ Hl Hi eq_refl) as (Hword & Hr1 & Hw0 & _)).
  all: unfold rassert in Ha; repeat case_match; rewrite ?bind_Ok, ?bind_Panic in Ha; try discriminate Ha; injection Ha as <- <-.
  all: try (left; apply no_effect_same; [exact Hi|reflexivity|reflexivity|];
            first [by left | right; eexists _, _; split_and!; reflexivity]).
  - right. zbool. subst cur. cbn in Hk. rewrite Hk in Hwr. eapply (effect_ok _ _ _ _ _ _ CRead v v); [done|done|done|by eapply take_read|].
    cbn. pose proof Hl as [_ _ _ [Hz|[Hz _]] _]; rewrite Hz in *; [|done]. cbn. do 2 f_equal. lia.
  - right. zbool. subst cur. destruct Hk as [Hk1 Hk2]. rewrite Hk1 in Hwr. rewrite Hk2 in Hrd.
    eapply (effect_ok _ _ _ _ _ _ CWrite v v); [done|done|done|by eapply take_write|].
    cbn. pose proof Hl as [_ _ _ [Hz|[Hz _]] _]; rewrite Hz in *; [|done]. destruct (count_of holds_read ts =? 0) eqn:Hz0; [|done].
    zbool. cbn. by rewrite Hz0.
  - right. zbool. subst cur. cbn in Hk. rewrite Hk in Hlow. unfold READER_INC in Hlow.
    eapply (effect_ok _ _ _ _ _ _ CUpgrade v v); [done|done|done|by eapply take_upgrade|].
    cbn. assert (count_of holds_read ts = 1) as -> by lia. by rewrite Hw0.
  - right. eapply (effect_ok _ _ _ _ _ _ CDowngrade v v); [done|done|done|by eapply take_downgrade|]. cbn. by rewrite Hr0, Hw1.
  - right. eapply (effect_ok _ _ _ _ _ _ CDowngrade v v); [done|done|done|by eapply take_downgrade|]. cbn. by rewrite Hr0, Hw1.
  - left. fold (has_writer w) in H. destruct h; [done| |by apply no_effect_same; [..|left]].
    destruct (lock_reader _ _ _ _ _ Hl Hi eq_refl) as (_ & _ & Hz & _). by rewrite Hwr, Hz in H.
  - left. fold (has_writer w) in H. destruct h; [done|by apply no_effect_same; [..|left]|].
    destruct (lock_writer _ _ _ _ _ Hl Hi eq_refl) as (_ & _ & Hz & _). by rewrite Hwr, Hz in H.
  - right. eapply (effect_ok _ _ _ _ _ _ CUnlock v v); [done|done|done|by eapply give_write|]. cbn. by rewrite Hr0, Hw1.
  - right. eapply (effect_ok _ _ _ _ _ _ CUnlock v v); [done|done|done|by eapply give_read|]. cbn. rewrite Hw0. cbn. do 2 f_equal. lia.
  - right. eapply (effect_ok _ _ _ _ _ _ (CSetValue u) v u); [done|done|done|by eapply store_value|]. cbn. by rewrite Hr0, Hw1.
Qed.
Lemma rwlock_atomic_witness :
  let s := (word 0 1 0, [Idle HRead; ReadCas 0 (word 0 1 0)]) in
  reachable true 2 s /\ access true (word 0 1 0) (ReadCas 0 (word 0 1 0)) = Ok (word 0 2 0, Idle HRead) /\
  (no_effect (word 0 1 0) (word 0 2 0) s.2 1 (ReadCas 0 (word 0 1 0)) (Idle HRead) \/
   effect (word 0 1 0) (word 0 2 0) s.2 1 (ReadCas 0 (word 0 1 0)) (Idle HRead)).
Proof.
  assert (H : reachable true 2 (word 0 1 0, [Idle HRead; ReadCas 0 (word 0 1 0)])).
  { eapply rtc_l; [eapply (step_begin _ _ _ 0 HNone CRead); reflexivity|].
    eapply rtc_l; [eapply (step_access _ _ _ 0); reflexivity|].
    eapply rtc_l; [eapply (step_access _ _ _ 0); reflexivity|].
    eapply rtc_l; [eapply (step_begin _ _ _ 1 HNone CRead); reflexivity|].
    eapply rtc_l; [eapply (step_access _ _ _ 1); reflexivity|]. apply rtc_refl. }
  split; [exact H|]. split; [reflexivity|].
  exact (proj2 (rwlock_atomic true 2 _ _ 1 _ _ _ eq_refl H eq_refl eq_refl)).
Defined.

(** An operation that runs without interference does what a lock with a value, a
    reader count and a writer flag does: [read] fails only under a writer, [write] only
    under a writer or readers, [upgrade] only beside other readers, [downgrade], [unlock]
    and [set_value_exclusive] succeed, and all but the last keep the value. *)
Theorem rwlock_solo_refines debug c h t a :
  alock_ok a -> a_readers a + 1 < 2 ^ 31 -> caller_ok h a -> begin c h = Some t ->
  let '(a', h') := spec_call c a in
  solo debug 2 (alock_word a) t = Ok (alock_word a', Idle h') /\ alock_ok a' /\ caller_ok h' a'.
Proof.
  destruct a as [v r x]. intros (Hv & Hr & Hx) Hr' Hc Hb. cbn in Hv, Hr, Hr', Hx.
  destruct c as [| | | | |u], h; cbn in Hb, Hc; simplify_eq; unfold alock_word; cbn [spec_call a_value a_readers a_writer].
  - rewrite solo_read by lia. destruct x; lock_done.
  - rewrite solo_write by lia. destruct x; [lock_done|]. destruct (Z.eqb_spec r 0); lock_done.
  - destruct Hc as [? ->]. rewrite solo_upgrade by lia. destruct (Z.eqb_spec r 1); lock_done.
  - specialize (Hx eq_refl). subst r. rewrite solo_downgrade by lia. lock_done.
  - destruct Hc as [? ->]. rewrite solo_unlock_read by lia. lock_done.
  - specialize (Hx eq_refl). subst r. rewrite solo_unlock_write by lia. lock_done.
  - destruct (_ && _) eqn:Hu in Hb; simplify_eq. zbool. specialize (Hx eq_refl). subst r. rewrite solo_set_value by lia. lock_done.
Qed.
