(* ===== verification/Mvcc.v ===== *)
(** The multi-version store of core/mvcc/database/mod.rs: row versions, transactions and
    the operations on them.

    The store keeps, for every row, a chain of versions with a begin and an end field: the
    timestamp of the commit that made or ended the version, or the id of the transaction
    that will.  Modelled are the packed forms of the fields and of the transaction state,
    visibility with its commit dependencies, the operations on table rows, savepoints,
    exclusive transactions, rollback, the commit state machine, garbage collection, and of a
    checkpoint what it does to the store: its snapshot, the stamps on the versions it has
    written to the B-tree ([stamp_chains]) and the boundaries it publishes
    ([publish_checkpoint], [finish_checkpoint]).
    Each operation of the store and each step of the commit state machine is one function
    of the state.

    Index rows have the same operations on a second map and are left out, and so are the
    writing of the B-tree by a checkpoint, the B-tree side of the cursors, sequences and the
    contents of the logical log; what the modelled code needs from them (a lock that is taken, an I/O
    result, the WAL position of the pager) is an argument.  Timestamps and ids are
    unbounded: [pack] and [encode] assert that they stay below 2^62. *)

From stdpp Require Import base list gmap numbers strings.
From Stdlib Require Import ZArith Lia.
From S2P Require Import Prelude DbHeader.

(** * Timestamps and states *)

Definition TxID : Type := Z.
Definition NO_EXCLUSIVE_TX : TxID := 0.

Inductive TxTimestampOrID : Type :=
| Timestamp (ts : Z)
| TxId (id : TxID).
Global Instance TxTimestampOrID_eq_dec : EqDecision TxTimestampOrID.
Proof. solve_decision. Defined.

(** [PackedTs]: an optional timestamp or id in one [u64]. *)
Definition TIMESTAMP_TAG : Z := Z.shiftl 1 62.
Definition TXID_TAG : Z := Z.shiftl 1 63.
Definition VALUE_MASK : Z := Z.shiftl 1 62 - 1.
Definition pack (value : option TxTimestampOrID) : res LimboError Z :=
  match value with
  | None => Ok 0
  | Some (Timestamp ts) => _ ← rassert (ts <=? VALUE_MASK); Ok (Z.lor TIMESTAMP_TAG ts)
  | Some (TxId id) => _ ← rassert (id <=? VALUE_MASK); Ok (Z.lor TXID_TAG id)
  end.
Definition unpack (p : Z) : option TxTimestampOrID :=
  if p =? 0 then None
  else if negb (Z.land p TXID_TAG =? 0) then Some (TxId (Z.land p VALUE_MASK))
  else Some (Timestamp (Z.land p VALUE_MASK)).

Inductive TransactionState : Type :=
| Active
| Preparing (ts : Z)
| Aborted
| Terminated
| Committed (ts : Z).
Global Instance TransactionState_eq_dec : EqDecision TransactionState.
Proof. solve_decision. Defined.

Definition PREPARING_BIT : Z := 0x4000000000000000.
Definition COMMITTED_BIT : Z := 0x8000000000000000.
Definition TIMESTAMP_MASK : Z := 0x3fffffffffffffff.
Definition encode (s : TransactionState) : res LimboError Z :=
  match s with
  | Active => Ok 0
  | Preparing ts => _ ← rassert (Z.land ts (2 ^ 64 - 1 - TIMESTAMP_MASK) =? 0); Ok (Z.lor PREPARING_BIT ts)
  | Aborted => Ok 1
  | Terminated => Ok 2
  | Committed ts => _ ← rassert (Z.land ts (2 ^ 64 - 1 - TIMESTAMP_MASK) =? 0); Ok (Z.lor COMMITTED_BIT ts)
  end.
Definition decode (v : Z) : res LimboError TransactionState :=
  if v =? 0 then Ok Active
  else if v =? 1 then Ok Aborted
  else if v =? 2 then Ok Terminated
  else if negb (Z.land v COMMITTED_BIT =? 0) then Ok (Committed (Z.land v TIMESTAMP_MASK))
  else if negb (Z.land v PREPARING_BIT =? 0) then Ok (Preparing (Z.land v TIMESTAMP_MASK))
  else Panic.

(** * Rows and versions *)

(** A WAL position [(checkpoint_seq, frame)], ordered lexicographically. *)
Record WalPos : Type := { checkpoint_seq : Z; frame : Z }.
Global Instance WalPos_eq_dec : EqDecision WalPos.
Proof. solve_decision. Defined.
Definition ORIGIN : WalPos := {| checkpoint_seq := 0; frame := 0 |}.
Definition STAGED : WalPos := {| checkpoint_seq := 2 ^ 32 - 1; frame := 2 ^ 64 - 1 |}.
Definition pos_leb (a b : WalPos) : bool :=
  (checkpoint_seq a <? checkpoint_seq b) || ((checkpoint_seq a =? checkpoint_seq b) && (frame a <=? frame b)).
Definition pos_min (a b : WalPos) : WalPos := if pos_leb a b then a else b.

(** [RowID] with an integer key: the table and the rowid. *)
Definition RowID : Type := Z * Z.
Record Row : Type := { row_id : RowID; data : list Z }.

(** The fields [begin] and [end] are kept unpacked. *)
Record RowVersion : Type := {
  rv_id : Z;
  rv_begin : option TxTimestampOrID;
  rv_end : option TxTimestampOrID;
  row : Row;
  btree_resident : bool;
  materialized_at : WalPos
}.
Definition set_begin (rv : RowVersion) (value : option TxTimestampOrID) : RowVersion :=
  {| rv_id := rv_id rv; rv_begin := value; rv_end := rv_end rv; row := row rv;
     btree_resident := btree_resident rv; materialized_at := ORIGIN |}.
Definition set_end (rv : RowVersion) (value : option TxTimestampOrID) : RowVersion :=
  {| rv_id := rv_id rv; rv_begin := rv_begin rv; rv_end := value; row := row rv;
     btree_resident := btree_resident rv; materialized_at := ORIGIN |}.
Definition set_materialized_at (rv : RowVersion) (pos : WalPos) : RowVersion :=
  {| rv_id := rv_id rv; rv_begin := rv_begin rv; rv_end := rv_end rv; row := row rv;
     btree_resident := btree_resident rv; materialized_at := pos |}.

Definition rewrite_txid_to_timestamp (tx_id : TxID) (end_ts : Z) (rv : RowVersion) : RowVersion :=
  let rv := if bool_decide (rv_begin rv = Some (TxId tx_id)) then set_begin rv (Some (Timestamp end_ts)) else rv in
  if bool_decide (rv_end rv = Some (TxId tx_id)) then set_end rv (Some (Timestamp end_ts)) else rv.

Definition rollback_row_version (tx_id : TxID) (rv : RowVersion) : RowVersion :=
  if bool_decide (rv_begin rv = Some (TxId tx_id)) then set_end (set_begin rv None) None
  else if bool_decide (rv_end rv = Some (TxId tx_id)) then set_end rv None
  else rv.

(** * Savepoints and transactions *)

Inductive SavepointKind : Type :=
| Statement
| Named (name : string) (starts_transaction : bool).
Global Instance SavepointKind_eq_dec : EqDecision SavepointKind.
Proof. solve_decision. Defined.

Record Savepoint : Type := {
  kind : SavepointKind;
  deferred_fk_violations : Z;
  sp_header : DatabaseHeader;
  sp_header_dirty : bool;
  created_table_versions : list (RowID * Z);
  deleted_table_versions : list (RowID * Z);
  newly_added_to_write_set : list RowID
}.

(** The write set is the list of its rows in the order of the first write.  The savepoint
    stack has the newest savepoint first. *)
Record Transaction : Type := {
  state : TransactionState;
  tx_id : TxID;
  begin_ts : Z;
  write_set : list RowID;
  header : DatabaseHeader;
  header_dirty : bool;
  savepoint_stack : list Savepoint;
  pager_commit_lock_held : bool;
  commit_dep_counter : Z;
  abort_now : bool;
  commit_dep_set : gset TxID;
  holds_blocking_checkpoint_read : bool;
  schema_generation_at_begin : Z;
  read_mark : WalPos
}.
Definition Transaction_new (tx_id begin_ts : Z) (header : DatabaseHeader) (read_mark : WalPos)
    (schema_generation_at_begin : Z) : Transaction :=
  {| state := Active; tx_id := tx_id; begin_ts := begin_ts; write_set := []; header := header;
     header_dirty := false; savepoint_stack := []; pager_commit_lock_held := false; commit_dep_counter := 0;
     abort_now := false; commit_dep_set := ∅; holds_blocking_checkpoint_read := false;
     schema_generation_at_begin := schema_generation_at_begin; read_mark := read_mark |}.

Definition set_state (v : TransactionState) (r : Transaction) : Transaction :=
  {| state := v; tx_id := tx_id r; begin_ts := begin_ts r; write_set := write_set r; header := header r;
     header_dirty := header_dirty r; savepoint_stack := savepoint_stack r;
     pager_commit_lock_held := pager_commit_lock_held r; commit_dep_counter := commit_dep_counter r;
     abort_now := abort_now r; commit_dep_set := commit_dep_set r;
     holds_blocking_checkpoint_read := holds_blocking_checkpoint_read r;
     schema_generation_at_begin := schema_generation_at_begin r; read_mark := read_mark r |}.
Definition set_write_set (v : list RowID) (r : Transaction) : Transaction :=
  {| state := state r; tx_id := tx_id r; begin_ts := begin_ts r; write_set := v; header := header r;
     header_dirty := header_dirty r; savepoint_stack := savepoint_stack r;
     pager_commit_lock_held := pager_commit_lock_held r; commit_dep_counter := commit_dep_counter r;
     abort_now := abort_now r; commit_dep_set := commit_dep_set r;
     holds_blocking_checkpoint_read := holds_blocking_checkpoint_read r;
     schema_generation_at_begin := schema_generation_at_begin r; read_mark := read_mark r |}.
Definition set_header (v : DatabaseHeader) (r : Transaction) : Transaction :=
  {| state := state r; tx_id := tx_id r; begin_ts := begin_ts r; write_set := write_set r; header := v;
     header_dirty := header_dirty r; savepoint_stack := savepoint_stack r;
     pager_commit_lock_held := pager_commit_lock_held r; commit_dep_counter := commit_dep_counter r;
     abort_now := abort_now r; commit_dep_set := commit_dep_set r;
     holds_blocking_checkpoint_read := holds_blocking_checkpoint_read r;
     schema_generation_at_begin := schema_generation_at_begin r; read_mark := read_mark r |}.
Definition set_header_dirty (v : bool) (r : Transaction) : Transaction :=
  {| state := state r; tx_id := tx_id r; begin_ts := begin_ts r; write_set := write_set r; header := header r;
     header_dirty := v; savepoint_stack := savepoint_stack r; pager_commit_lock_held := pager_commit_lock_held r;
     commit_dep_counter := commit_dep_counter r; abort_now := abort_now r; commit_dep_set := commit_dep_set r;
     holds_blocking_checkpoint_read := holds_blocking_checkpoint_read r;
     schema_generation_at_begin := schema_generation_at_begin r; read_mark := read_mark r |}.
Definition set_savepoint_stack (v : list Savepoint) (r : Transaction) : Transaction :=
  {| state := state r; tx_id := tx_id r; begin_ts := begin_ts r; write_set := write_set r; header := header r;
     header_dirty := header_dirty r; savepoint_stack := v; pager_commit_lock_held := pager_commit_lock_held r;
     commit_dep_counter := commit_dep_counter r; abort_now := abort_now r; commit_dep_set := commit_dep_set r;
     holds_blocking_checkpoint_read := holds_blocking_checkpoint_read r;
     schema_generation_at_begin := schema_generation_at_begin r; read_mark := read_mark r |}.
Definition set_pager_commit_lock_held (v : bool) (r : Transaction) : Transaction :=
  {| state := state r; tx_id := tx_id r; begin_ts := begin_ts r; write_set := write_set r; header := header r;
     header_dirty := header_dirty r; savepoint_stack := savepoint_stack r; pager_commit_lock_held := v;
     commit_dep_counter := commit_dep_counter r; abort_now := abort_now r; commit_dep_set := commit_dep_set r;
     holds_blocking_checkpoint_read := holds_blocking_checkpoint_read r;
     schema_generation_at_begin := schema_generation_at_begin r; read_mark := read_mark r |}.
Definition set_commit_dep_counter (v : Z) (r : Transaction) : Transaction :=
  {| state := state r; tx_id := tx_id r; begin_ts := begin_ts r; write_set := write_set r; header := header r;
     header_dirty := header_dirty r; savepoint_stack := savepoint_stack r;
     pager_commit_lock_held := pager_commit_lock_held r; commit_dep_counter := v; abort_now := abort_now r;
     commit_dep_set := commit_dep_set r; holds_blocking_checkpoint_read := holds_blocking_checkpoint_read r;
     schema_generation_at_begin := schema_generation_at_begin r; read_mark := read_mark r |}.
Definition set_abort_now (v : bool) (r : Transaction) : Transaction :=
  {| state := state r; tx_id := tx_id r; begin_ts := begin_ts r; write_set := write_set r; header := header r;
     header_dirty := header_dirty r; savepoint_stack := savepoint_stack r;
     pager_commit_lock_held := pager_commit_lock_held r; commit_dep_counter := commit_dep_counter r;
     abort_now := v; commit_dep_set := commit_dep_set r;
     holds_blocking_checkpoint_read := holds_blocking_checkpoint_read r;
     schema_generation_at_begin := schema_generation_at_begin r; read_mark := read_mark r |}.
Definition set_commit_dep_set (v : gset TxID) (r : Transaction) : Transaction :=
  {| state := state r; tx_id := tx_id r; begin_ts := begin_ts r; write_set := write_set r; header := header r;
     header_dirty := header_dirty r; savepoint_stack := savepoint_stack r;
     pager_commit_lock_held := pager_commit_lock_held r; commit_dep_counter := commit_dep_counter r;
     abort_now := abort_now r; commit_dep_set := v;
     holds_blocking_checkpoint_read := holds_blocking_checkpoint_read r;
     schema_generation_at_begin := schema_generation_at_begin r; read_mark := read_mark r |}.
Definition set_holds_blocking_checkpoint_read (v : bool) (r : Transaction) : Transaction :=
  {| state := state r; tx_id := tx_id r; begin_ts := begin_ts r; write_set := write_set r; header := header r;
     header_dirty := header_dirty r; savepoint_stack := savepoint_stack r;
     pager_commit_lock_held := pager_commit_lock_held r; commit_dep_counter := commit_dep_counter r;
     abort_now := abort_now r; commit_dep_set := commit_dep_set r; holds_blocking_checkpoint_read := v;
     schema_generation_at_begin := schema_generation_at_begin r; read_mark := read_mark r |}.

(** [RowidAllocator]; its lock is only taken to initialise it. *)
Record RowidAllocator : Type := { max_rowid : Z; initialized : bool }.

(** [pager_commit_lock] says whether the lock has its writer. *)
Record MvStore : Type := {
  rows : gmap RowID (list RowVersion);
  txs : gmap TxID Transaction;
  finalized_tx_states : gmap TxID TransactionState;
  tx_ids : TxID;
  version_id_counter : Z;
  clock : Z;
  exclusive_tx : TxID;
  pager_commit_lock : bool;
  global_header : option DatabaseHeader;
  schema_generation : Z;
  durable_txid_max : Z;
  backfill_floor : WalPos;
  last_committed_schema_change_ts : Z;
  last_committed_tx_ts : Z;
  last_global_header_ts : Z;
  table_id_to_last_rowid : gmap Z RowidAllocator;
  live_version_count_approx : Z
}.
Definition MvStore_new : MvStore :=
  {| rows := ∅; txs := ∅; finalized_tx_states := ∅; tx_ids := 1; version_id_counter := 1; clock := 0;
     exclusive_tx := NO_EXCLUSIVE_TX; pager_commit_lock := false; global_header := None; schema_generation := 0;
     durable_txid_max := 0; backfill_floor := ORIGIN; last_committed_schema_change_ts := 0;
     last_committed_tx_ts := 0; last_global_header_ts := 0; table_id_to_last_rowid := ∅;
     live_version_count_approx := 0 |}.

Definition set_rows (v : gmap RowID (list RowVersion)) (r : MvStore) : MvStore :=
  {| rows := v; txs := txs r; finalized_tx_states := finalized_tx_states r; tx_ids := tx_ids r;
     version_id_counter := version_id_counter r; clock := clock r; exclusive_tx := exclusive_tx r;
     pager_commit_lock := pager_commit_lock r; global_header := global_header r;
     schema_generation := schema_generation r; durable_txid_max := durable_txid_max r;
     backfill_floor := backfill_floor r; last_committed_schema_change_ts := last_committed_schema_change_ts r;
     last_committed_tx_ts := last_committed_tx_ts r; last_global_header_ts := last_global_header_ts r;
     table_id_to_last_rowid := table_id_to_last_rowid r;
     live_version_count_approx := live_version_count_approx r |}.
Definition set_txs (v : gmap TxID Transaction) (r : MvStore) : MvStore :=
  {| rows := rows r; txs := v; finalized_tx_states := finalized_tx_states r; tx_ids := tx_ids r;
     version_id_counter := version_id_counter r; clock := clock r; exclusive_tx := exclusive_tx r;
     pager_commit_lock := pager_commit_lock r; global_header := global_header r;
     schema_generation := schema_generation r; durable_txid_max := durable_txid_max r;
     backfill_floor := backfill_floor r; last_committed_schema_change_ts := last_committed_schema_change_ts r;
     last_committed_tx_ts := last_committed_tx_ts r; last_global_header_ts := last_global_header_ts r;
     table_id_to_last_rowid := table_id_to_last_rowid r;
     live_version_count_approx := live_version_count_approx r |}.
Definition set_finalized_tx_states (v : gmap TxID TransactionState) (r : MvStore) : MvStore :=
  {| rows := rows r; txs := txs r; finalized_tx_states := v; tx_ids := tx_ids r;
     version_id_counter := version_id_counter r; clock := clock r; exclusive_tx := exclusive_tx r;
     pager_commit_lock := pager_commit_lock r; global_header := global_header r;
     schema_generation := schema_generation r; durable_txid_max := durable_txid_max r;
     backfill_floor := backfill_floor r; last_committed_schema_change_ts := last_committed_schema_change_ts r;
     last_committed_tx_ts := last_committed_tx_ts r; last_global_header_ts := last_global_header_ts r;
     table_id_to_last_rowid := table_id_to_last_rowid r;
     live_version_count_approx := live_version_count_approx r |}.
Definition set_tx_ids (v : TxID) (r : MvStore) : MvStore :=
  {| rows := rows r; txs := txs r; finalized_tx_states := finalized_tx_states r; tx_ids := v;
     version_id_counter := version_id_counter r; clock := clock r; exclusive_tx := exclusive_tx r;
     pager_commit_lock := pager_commit_lock r; global_header := global_header r;
     schema_generation := schema_generation r; durable_txid_max := durable_txid_max r;
     backfill_floor := backfill_floor r; last_committed_schema_change_ts := last_committed_schema_change_ts r;
     last_committed_tx_ts := last_committed_tx_ts r; last_global_header_ts := last_global_header_ts r;
     table_id_to_last_rowid := table_id_to_last_rowid r;
     live_version_count_approx := live_version_count_approx r |}.
Definition set_version_id_counter (v : Z) (r : MvStore) : MvStore :=
  {| rows := rows r; txs := txs r; finalized_tx_states := finalized_tx_states r; tx_ids := tx_ids r;
     version_id_counter := v; clock := clock r; exclusive_tx := exclusive_tx r;
     pager_commit_lock := pager_commit_lock r; global_header := global_header r;
     schema_generation := schema_generation r; durable_txid_max := durable_txid_max r;
     backfill_floor := backfill_floor r; last_committed_schema_change_ts := last_committed_schema_change_ts r;
     last_committed_tx_ts := last_committed_tx_ts r; last_global_header_ts := last_global_header_ts r;
     table_id_to_last_rowid := table_id_to_last_rowid r;
     live_version_count_approx := live_version_count_approx r |}.
Definition set_clock (v : Z) (r : MvStore) : MvStore :=
  {| rows := rows r; txs := txs r; finalized_tx_states := finalized_tx_states r; tx_ids := tx_ids r;
     version_id_counter := version_id_counter r; clock := v; exclusive_tx := exclusive_tx r;
     pager_commit_lock := pager_commit_lock r; global_header := global_header r;
     schema_generation := schema_generation r; durable_txid_max := durable_txid_max r;
     backfill_floor := backfill_floor r; last_committed_schema_change_ts := last_committed_schema_change_ts r;
     last_committed_tx_ts := last_committed_tx_ts r; last_global_header_ts := last_global_header_ts r;
     table_id_to_last_rowid := table_id_to_last_rowid r;
     live_version_count_approx := live_version_count_approx r |}.
Definition set_exclusive_tx (v : TxID) (r : MvStore) : MvStore :=
  {| rows := rows r; txs := txs r; finalized_tx_states := finalized_tx_states r; tx_ids := tx_ids r;
     version_id_counter := version_id_counter r; clock := clock r; exclusive_tx := v;
     pager_commit_lock := pager_commit_lock r; global_header := global_header r;
     schema_generation := schema_generation r; durable_txid_max := durable_txid_max r;
     backfill_floor := backfill_floor r; last_committed_schema_change_ts := last_committed_schema_change_ts r;
     last_committed_tx_ts := last_committed_tx_ts r; last_global_header_ts := last_global_header_ts r;
     table_id_to_last_rowid := table_id_to_last_rowid r;
     live_version_count_approx := live_version_count_approx r |}.
Definition set_pager_commit_lock (v : bool) (r : MvStore) : MvStore :=
  {| rows := rows r; txs := txs r; finalized_tx_states := finalized_tx_states r; tx_ids := tx_ids r;
     version_id_counter := version_id_counter r; clock := clock r; exclusive_tx := exclusive_tx r;
     pager_commit_lock := v; global_header := global_header r; schema_generation := schema_generation r;
     durable_txid_max := durable_txid_max r; backfill_floor := backfill_floor r;
     last_committed_schema_change_ts := last_committed_schema_change_ts r;
     last_committed_tx_ts := last_committed_tx_ts r; last_global_header_ts := last_global_header_ts r;
     table_id_to_last_rowid := table_id_to_last_rowid r;
     live_version_count_approx := live_version_count_approx r |}.
Definition set_global_header (v : option DatabaseHeader) (r : MvStore) : MvStore :=
  {| rows := rows r; txs := txs r; finalized_tx_states := finalized_tx_states r; tx_ids := tx_ids r;
     version_id_counter := version_id_counter r; clock := clock r; exclusive_tx := exclusive_tx r;
     pager_commit_lock := pager_commit_lock r; global_header := v; schema_generation := schema_generation r;
     durable_txid_max := durable_txid_max r; backfill_floor := backfill_floor r;
     last_committed_schema_change_ts := last_committed_schema_change_ts r;
     last_committed_tx_ts := last_committed_tx_ts r; last_global_header_ts := last_global_header_ts r;
     table_id_to_last_rowid := table_id_to_last_rowid r;
     live_version_count_approx := live_version_count_approx r |}.
Definition set_last_committed_schema_change_ts (v : Z) (r : MvStore) : MvStore :=
  {| rows := rows r; txs := txs r; finalized_tx_states := finalized_tx_states r; tx_ids := tx_ids r;
     version_id_counter := version_id_counter r; clock := clock r; exclusive_tx := exclusive_tx r;
     pager_commit_lock := pager_commit_lock r; global_header := global_header r;
     schema_generation := schema_generation r; durable_txid_max := durable_txid_max r;
     backfill_floor := backfill_floor r; last_committed_schema_change_ts := v;
     last_committed_tx_ts := last_committed_tx_ts r; last_global_header_ts := last_global_header_ts r;
     table_id_to_last_rowid := table_id_to_last_rowid r;
     live_version_count_approx := live_version_count_approx r |}.
Definition set_last_committed_tx_ts (v : Z) (r : MvStore) : MvStore :=
  {| rows := rows r; txs := txs r; finalized_tx_states := finalized_tx_states r; tx_ids := tx_ids r;
     version_id_counter := version_id_counter r; clock := clock r; exclusive_tx := exclusive_tx r;
     pager_commit_lock := pager_commit_lock r; global_header := global_header r;
     schema_generation := schema_generation r; durable_txid_max := durable_txid_max r;
     backfill_floor := backfill_floor r; last_committed_schema_change_ts := last_committed_schema_change_ts r;
     last_committed_tx_ts := v; last_global_header_ts := last_global_header_ts r;
     table_id_to_last_rowid := table_id_to_last_rowid r;
     live_version_count_approx := live_version_count_approx r |}.
Definition set_last_global_header_ts (v : Z) (r : MvStore) : MvStore :=
  {| rows := rows r; txs := txs r; finalized_tx_states := finalized_tx_states r; tx_ids := tx_ids r;
     version_id_counter := version_id_counter r; clock := clock r; exclusive_tx := exclusive_tx r;
     pager_commit_lock := pager_commit_lock r; global_header := global_header r;
     schema_generation := schema_generation r; durable_txid_max := durable_txid_max r;
     backfill_floor := backfill_floor r; last_committed_schema_change_ts := last_committed_schema_change_ts r;
     last_committed_tx_ts := last_committed_tx_ts r; last_global_header_ts := v;
     table_id_to_last_rowid := table_id_to_last_rowid r;
     live_version_count_approx := live_version_count_approx r |}.
Definition set_table_id_to_last_rowid (v : gmap Z RowidAllocator) (r : MvStore) : MvStore :=
  {| rows := rows r; txs := txs r; finalized_tx_states := finalized_tx_states r; tx_ids := tx_ids r;
     version_id_counter := version_id_counter r; clock := clock r; exclusive_tx := exclusive_tx r;
     pager_commit_lock := pager_commit_lock r; global_header := global_header r;
     schema_generation := schema_generation r; durable_txid_max := durable_txid_max r;
     backfill_floor := backfill_floor r; last_committed_schema_change_ts := last_committed_schema_change_ts r;
     last_committed_tx_ts := last_committed_tx_ts r; last_global_header_ts := last_global_header_ts r;
     table_id_to_last_rowid := v; live_version_count_approx := live_version_count_approx r |}.
Definition set_live_version_count_approx (v : Z) (r : MvStore) : MvStore :=
  {| rows := rows r; txs := txs r; finalized_tx_states := finalized_tx_states r; tx_ids := tx_ids r;
     version_id_counter := version_id_counter r; clock := clock r; exclusive_tx := exclusive_tx r;
     pager_commit_lock := pager_commit_lock r; global_header := global_header r;
     schema_generation := schema_generation r; durable_txid_max := durable_txid_max r;
     backfill_floor := backfill_floor r; last_committed_schema_change_ts := last_committed_schema_change_ts r;
     last_committed_tx_ts := last_committed_tx_ts r; last_global_header_ts := last_global_header_ts r;
     table_id_to_last_rowid := table_id_to_last_rowid r; live_version_count_approx := v |}.
Definition set_checkpointed (durable : Z) (backfill : WalPos) (r : MvStore) : MvStore :=
  {| rows := rows r; txs := txs r; finalized_tx_states := finalized_tx_states r; tx_ids := tx_ids r;
     version_id_counter := version_id_counter r; clock := clock r; exclusive_tx := exclusive_tx r;
     pager_commit_lock := pager_commit_lock r; global_header := global_header r;
     schema_generation := schema_generation r; durable_txid_max := durable;
     backfill_floor := backfill; last_committed_schema_change_ts := last_committed_schema_change_ts r;
     last_committed_tx_ts := last_committed_tx_ts r; last_global_header_ts := last_global_header_ts r;
     table_id_to_last_rowid := table_id_to_last_rowid r; live_version_count_approx := live_version_count_approx r |}.

(** * Access to the state *)

Definition MV : Type -> Type := ST MvStore.
Definition get_tx (id : TxID) : MV Transaction := fun st =>
  match txs st !! id with Some tx => (Ok tx, st) | None => (Err NoSuchTransactionID, st) end.
(** [expect] on a lookup in [txs]. *)
Definition expect_tx (id : TxID) : MV Transaction := fun st =>
  match txs st !! id with Some tx => (Ok tx, st) | None => (Panic, st) end.
Definition update_tx (id : TxID) (f : Transaction -> Transaction) : MV unit :=
  smodify (fun st => set_txs (alter f id (txs st)) st).
Definition throw {A} (e : LimboError) : MV A := slift (Err e).

(** [get_timestamp]: the callback runs under the clock's lock. *)
Definition get_timestamp {A} (f : Z -> MV A) : MV (Z * A) :=
  st ← sget;
  let ts := clock st in
  _ ← smodify (set_clock (ts + 1));
  a ← f ts;
  mret (ts, a).
Definition get_tx_id : MV TxID :=
  st ← sget;
  _ ← smodify (set_tx_ids (tx_ids st + 1));
  mret (tx_ids st).
Definition get_version_id : MV Z :=
  st ← sget;
  _ ← smodify (set_version_id_counter (version_id_counter st + 1));
  mret (version_id_counter st).

Definition is_exclusive_tx (id : TxID) (st : MvStore) : bool := exclusive_tx st =? id.
Definition has_exclusive_tx (st : MvStore) : bool := negb (exclusive_tx st =? NO_EXCLUSIVE_TX).
Definition release_exclusive_tx (id : TxID) : MV unit :=
  st ← sget;
  _ ← smodify (set_exclusive_tx NO_EXCLUSIVE_TX);
  sassert (exclusive_tx st =? id).
(** [TursoRwLock::unlock] of the commit lock, which is only taken for writing. *)
Definition unlock_commit_lock : MV unit :=
  st ← sget;
  _ ← sassert (pager_commit_lock st);
  smodify (set_pager_commit_lock false).
Definition unlock_commit_lock_if_held (id : TxID) : MV unit :=
  tx ← expect_tx id;
  if pager_commit_lock_held tx then
    _ ← update_tx id (set_pager_commit_lock_held false);
    unlock_commit_lock
  else mret tt.

(** * Visibility *)

Definition lookup_tx_state (st : MvStore) (id : TxID) : option TransactionState :=
  match txs st !! id with
  | Some tx => Some (state tx)
  | None => finalized_tx_states st !! id
  end.
Definition is_final (s : TransactionState) : bool :=
  match s with Active | Preparing _ => false | _ => true end.
Definition lookup_finalized_tx_state (id : TxID) : MV (option TransactionState) :=
  st ← sget;
  match finalized_tx_states st !! id with
  | Some s => _ ← sassert (is_final s); mret (Some s)
  | None => mret None
  end.

Definition register_commit_dependency (dependent_tx depended_on_tx_id : TxID) : MV unit :=
  _ ← sassert (negb (dependent_tx =? depended_on_tx_id));
  st ← sget;
  match txs st !! depended_on_tx_id with
  | None => mret tt
  | Some depended_on =>
      match state depended_on with
      | Preparing _ =>
          if decide (dependent_tx ∈ commit_dep_set depended_on) then mret tt
          else
            _ ← update_tx depended_on_tx_id (fun d => set_commit_dep_set ({[dependent_tx]} ∪ commit_dep_set d) d);
            update_tx dependent_tx (fun d => set_commit_dep_counter (wrap 64 (commit_dep_counter d + 1)) d)
      | Active => slift Panic
      | Committed _ => mret tt
      | Aborted | Terminated => update_tx dependent_tx (set_abort_now true)
      end
  end.

Definition is_begin_visible (tx : Transaction) (rv : RowVersion) : MV bool :=
  match rv_begin rv with
  | Some (Timestamp rv_begin_ts) =>
      _ ← sassert (negb (begin_ts tx =? rv_begin_ts));
      mret (rv_begin_ts <? begin_ts tx)
  | Some (TxId rv_begin) =>
      st ← sget;
      match txs st !! rv_begin with
      | Some tb =>
          match state tb with
          | Active => mret ((tx_id tx =? tx_id tb) && bool_decide (rv_end rv = None))
          | Preparing end_ts =>
              _ ← sassert (negb (tx_id tx =? tx_id tb));
              _ ← sassert (negb (begin_ts tx =? end_ts));
              if end_ts <? begin_ts tx then
                _ ← register_commit_dependency (tx_id tx) rv_begin;
                mret true
              else mret false
          | Committed committed_ts =>
              _ ← sassert (negb (begin_ts tx =? committed_ts));
              mret (committed_ts <? begin_ts tx)
          | Aborted | Terminated => mret false
          end
      | None =>
          s ← lookup_finalized_tx_state rv_begin;
          match s with
          | Some (Committed committed_ts) =>
              _ ← sassert (negb (begin_ts tx =? committed_ts));
              mret (committed_ts <? begin_ts tx)
          | Some Aborted | Some Terminated => mret false
          | Some Active | Some (Preparing _) => slift Panic
          | None => mret false
          end
      end
  | None => mret false
  end.

Definition is_end_visible (current_tx : Transaction) (rv : RowVersion) : MV bool :=
  match rv_end rv with
  | Some (Timestamp rv_end_ts) => mret (begin_ts current_tx <? rv_end_ts)
  | Some (TxId rv_end) =>
      st ← sget;
      match txs st !! rv_end with
      | Some other_tx =>
          match state other_tx with
          | Active => mret (negb (tx_id current_tx =? tx_id other_tx))
          | Preparing end_ts =>
              _ ← sassert (negb (tx_id current_tx =? tx_id other_tx));
              let visible := begin_ts current_tx <? end_ts in
              if visible then mret true
              else _ ← register_commit_dependency (tx_id current_tx) rv_end; mret false
          | Committed committed_ts => mret (begin_ts current_tx <? committed_ts)
          | Aborted | Terminated => mret true
          end
      | None =>
          s ← lookup_finalized_tx_state rv_end;
          match s with
          | Some (Committed committed_ts) => mret (begin_ts current_tx <? committed_ts)
          | Some Aborted | Some Terminated => mret true
          | Some Active | Some (Preparing _) => slift Panic
          | None => mret true
          end
      end
  | None => mret true
  end.

Definition is_visible_to (tx : Transaction) (rv : RowVersion) : MV bool :=
  b ← is_begin_visible tx rv;
  if (b : bool) then is_end_visible tx rv else mret false.

Definition is_write_write_conflict (st : MvStore) (tx : Transaction) (rv : RowVersion) : bool :=
  match rv_end rv with
  | Some (TxId rv_end) =>
      if rv_end =? tx_id tx then false
      else
        match lookup_tx_state st rv_end with
        | Some Aborted | Some Terminated => false
        | _ => true
        end
  | Some (Timestamp _) => true
  | None => false
  end.

(** The decision of [query_btree_version_is_valid] for one version. *)
Definition is_btree_invalidating_version (tx : Transaction) (rv : RowVersion) : MV bool :=
  v ← is_visible_to tx rv;
  if (v : bool) then mret true
  else
    match rv_end rv with
    | Some (Timestamp end_ts) =>
        _ ← sassert (negb (begin_ts tx =? end_ts));
        mret (end_ts <? begin_ts tx)
    | Some (TxId end_tx_id) =>
        if end_tx_id =? tx_id tx then mret true
        else
          st ← sget;
          match lookup_tx_state st end_tx_id with
          | Some (Committed committed_ts) => mret (committed_ts <? begin_ts tx)
          | Some (Preparing end_ts) =>
              if end_ts <? begin_ts tx then
                _ ← register_commit_dependency (tx_id tx) end_tx_id;
                mret true
              else mret false
          | _ => mret false
          end
    | None => mret false
    end.

(** * Write sets and savepoints of a transaction *)

(** Changes the newest savepoint, if there is one. *)
Definition on_savepoint (f : Savepoint -> Savepoint) (tx : Transaction) : Transaction :=
  match savepoint_stack tx with
  | [] => tx
  | sp :: sps => set_savepoint_stack (f sp :: sps) tx
  end.
Definition record_created (id : RowID) (version_id : Z) (sp : Savepoint) : Savepoint :=
  {| kind := kind sp; deferred_fk_violations := deferred_fk_violations sp; sp_header := sp_header sp;
     sp_header_dirty := sp_header_dirty sp;
     created_table_versions := created_table_versions sp ++ [(id, version_id)];
     deleted_table_versions := deleted_table_versions sp;
     newly_added_to_write_set := newly_added_to_write_set sp |}.
Definition record_deleted (id : RowID) (version_id : Z) (sp : Savepoint) : Savepoint :=
  {| kind := kind sp; deferred_fk_violations := deferred_fk_violations sp; sp_header := sp_header sp;
     sp_header_dirty := sp_header_dirty sp;
     created_table_versions := created_table_versions sp;
     deleted_table_versions := deleted_table_versions sp ++ [(id, version_id)];
     newly_added_to_write_set := newly_added_to_write_set sp |}.
Definition record_newly_added (id : RowID) (sp : Savepoint) : Savepoint :=
  {| kind := kind sp; deferred_fk_violations := deferred_fk_violations sp; sp_header := sp_header sp;
     sp_header_dirty := sp_header_dirty sp;
     created_table_versions := created_table_versions sp;
     deleted_table_versions := deleted_table_versions sp;
     newly_added_to_write_set := newly_added_to_write_set sp ++ [id] |}.
Definition record_created_table_version (id : RowID) (version_id : Z) : Transaction -> Transaction :=
  on_savepoint (record_created id version_id).
Definition record_deleted_table_version (id : RowID) (version_id : Z) : Transaction -> Transaction :=
  on_savepoint (record_deleted id version_id).
Definition WriteSet_insert (id : RowID) (ws : list RowID) : list RowID :=
  if decide (id ∈ ws) then ws else ws ++ [id].
Definition insert_to_write_set (id : RowID) (tx : Transaction) : Transaction :=
  let tx := on_savepoint (record_newly_added id) tx in
  set_write_set (WriteSet_insert id (write_set tx)) tx.

(** * Version chains *)

Definition resolve_begin_timestamp (st : MvStore) (ts_or_id : option TxTimestampOrID) : res LimboError Z :=
  match ts_or_id with
  | Some (Timestamp ts) => Ok ts
  | Some (TxId id) => match txs st !! id with Some tx => Ok (begin_ts tx) | None => Panic end
  | None => Ok 0
  end.
Definition same_begin (a b : option TxTimestampOrID) : bool :=
  match a, b with Some (Timestamp x), Some (Timestamp y) => x =? y | _, _ => false end.

(** [insert_version_raw] on the chain read backwards; also whether the chain has grown. *)
Fixpoint insert_rev (st : MvStore) (rv : RowVersion) (versions : list RowVersion) :
    res LimboError (list RowVersion * bool) :=
  match versions with
  | [] => Ok ([rv], true)
  | v :: rest =>
      existing_begin ← resolve_begin_timestamp st (rv_begin v);
      new_begin ← resolve_begin_timestamp st (rv_begin rv);
      if existing_begin <=? new_begin then
        if bool_decide (row_id (row v) = row_id (row rv)) && same_begin (rv_begin v) (rv_begin rv)
        then Ok (rv :: rest, false)
        else Ok (rv :: v :: rest, true)
      else
        '(rest, grew) ← insert_rev st rv rest;
        Ok (v :: rest, grew)
  end.
Definition insert_version_raw (versions : list RowVersion) (rv : RowVersion) : MV (list RowVersion) :=
  st ← sget;
  '(l, grew) ← slift (insert_rev st rv (reverse versions));
  _ ← (if (grew : bool) then smodify (fun st => set_live_version_count_approx (live_version_count_approx st + 1) st)
       else mret tt);
  mret (reverse l).
Definition chain (st : MvStore) (id : RowID) : list RowVersion := default [] (rows st !! id).
Definition set_chain (id : RowID) (versions : list RowVersion) : MV unit :=
  smodify (fun st => set_rows (<[id := versions]> (rows st)) st).
Definition insert_version (id : RowID) (rv : RowVersion) : MV unit :=
  st ← sget;
  versions ← insert_version_raw (chain st id) rv;
  set_chain id versions.

Definition RowidAllocator_new : RowidAllocator := {| max_rowid := 0; initialized := false |}.
Definition insert_row_id_maybe_update (rowid : Z) (a : RowidAllocator) : RowidAllocator :=
  if rowid <=? max_rowid a then a else {| max_rowid := rowid; initialized := initialized a |}.
Definition get_next_rowid (a : RowidAllocator) : option (Z * option Z) * RowidAllocator :=
  let cur := max_rowid a in
  if cur =? 2 ^ 63 - 1 then (None, a)
  else (Some (cur + 1, if cur =? 0 then None else Some cur), {| max_rowid := cur + 1; initialized := initialized a |}).
Definition initialize (rowid : option Z) (a : RowidAllocator) : RowidAllocator :=
  let cur := max_rowid a in
  {| max_rowid :=
       match rowid with
       | Some rowid => if cur =? 0 then rowid else Z.max cur rowid
       | None => cur
       end;
     initialized := true |}.
(** [get_rowid_allocator] followed by an update of the allocator. *)
Definition update_rowid_allocator (table_id : Z) (f : RowidAllocator -> RowidAllocator) : MV unit :=
  smodify (fun st =>
    let a := default RowidAllocator_new (table_id_to_last_rowid st !! table_id) in
    set_table_id_to_last_rowid (<[table_id := f a]> (table_id_to_last_rowid st)) st).

(** * Operations on table rows *)

Definition assert_active (tx : Transaction) : MV unit := sassert (bool_decide (state tx = Active)).

Definition new_version (version_id : Z) (begin_ end_ : option TxTimestampOrID) (r : Row) (resident : bool) : RowVersion :=
  {| rv_id := version_id; rv_begin := begin_; rv_end := end_; row := r; btree_resident := resident;
     materialized_at := ORIGIN |}.

(** [insert_to_table_or_index] for a table. *)
Definition insert (id_tx : TxID) (r : Row) : MV unit :=
  tx ← get_tx id_tx;
  _ ← assert_active tx;
  let id := row_id r in
  version_id ← get_version_id;
  _ ← insert_version id (new_version version_id (Some (TxId (tx_id tx))) None r false);
  _ ← update_rowid_allocator (fst id) (insert_row_id_maybe_update (snd id));
  _ ← update_tx id_tx (record_created_table_version id version_id);
  update_tx id_tx (insert_to_write_set id).

(** [insert_tombstone_to_table_or_index] for a table. *)
Definition insert_tombstone (id_tx : TxID) (id : RowID) (r : Row) : MV unit :=
  version_id ← get_version_id;
  tx ← get_tx id_tx;
  _ ← insert_version id (new_version version_id None (Some (TxId id_tx)) r true);
  _ ← update_tx id_tx (record_created_table_version id version_id);
  update_tx id_tx (insert_to_write_set id).

(** [insert_btree_resident_to_table_or_index] for a table. *)
Definition insert_btree_resident (id_tx : TxID) (r : Row) : MV unit :=
  tx ← get_tx id_tx;
  _ ← assert_active tx;
  let id := row_id r in
  version_id ← get_version_id;
  _ ← insert_version id (new_version version_id (Some (TxId (tx_id tx))) None r true);
  _ ← update_tx id_tx (record_created_table_version id version_id);
  update_tx id_tx (insert_to_write_set id).

(** The loop of [delete_from_table_or_index] over the chain read backwards: the chain with
    the ended version and that version's id. *)
Fixpoint delete_rev (id_tx : TxID) (versions : list RowVersion) : MV (option (list RowVersion * Z)) :=
  match versions with
  | [] => mret None
  | rv :: rest =>
      tx ← get_tx id_tx;
      _ ← assert_active tx;
      visible ← is_visible_to tx rv;
      if (visible : bool) then
        st ← sget;
        if is_write_write_conflict st tx rv then throw WriteWriteConflict
        else mret (Some (set_end rv (Some (TxId (tx_id tx))) :: rest, rv_id rv))
      else
        found ← delete_rev id_tx rest;
        mret (match found with Some (rest, version_id) => Some (rv :: rest, version_id) | None => None end)
  end.
Definition delete (id_tx : TxID) (id : RowID) : MV bool :=
  st ← sget;
  match rows st !! id with
  | Some versions =>
      found ← delete_rev id_tx (reverse versions);
      match found with
      | Some (versions, version_id) =>
          _ ← set_chain id (reverse versions);
          _ ← get_tx id_tx;
          _ ← update_tx id_tx (insert_to_write_set id);
          _ ← update_tx id_tx (record_deleted_table_version id version_id);
          mret true
      | None => mret false
      end
  | None => mret false
  end.
Definition update (id_tx : TxID) (r : Row) : MV bool :=
  deleted ← delete id_tx (row_id r);
  if (deleted : bool) then _ ← insert id_tx r; mret true else mret false.
Definition upsert (id_tx : TxID) (r : Row) : MV unit :=
  _ ← delete id_tx (row_id r);
  insert id_tx r.

(** [iter().rev().find(is_visible_to)]. *)
Fixpoint find_visible (tx : Transaction) (versions : list RowVersion) : MV (option RowVersion) :=
  match versions with
  | [] => mret None
  | rv :: rest =>
      visible ← is_visible_to tx rv;
      if (visible : bool) then mret (Some rv) else find_visible tx rest
  end.
Definition read (id_tx : TxID) (id : RowID) : MV (option Row) :=
  tx ← get_tx id_tx;
  _ ← assert_active tx;
  st ← sget;
  match rows st !! id with
  | Some versions =>
      found ← find_visible tx (reverse versions);
      mret (row <$> found)
  | None => mret None
  end.

Fixpoint any_invalidating (tx : Transaction) (versions : list RowVersion) : MV bool :=
  match versions with
  | [] => mret false
  | rv :: rest =>
      b ← is_btree_invalidating_version tx rv;
      if (b : bool) then mret true else any_invalidating tx rest
  end.
Definition query_btree_version_is_valid (id : RowID) (id_tx : TxID) : MV bool :=
  tx ← expect_tx id_tx;
  st ← sget;
  match rows st !! id with
  | None => mret true
  | Some versions =>
      btree_is_invalid ← any_invalidating tx (reverse versions);
      mret (negb btree_is_invalid)
  end.

(** * Beginning a transaction *)

(** [global_header] is read from page 1 by the first transaction. *)
Definition get_new_transaction_database_header (page1 : DatabaseHeader) : MV DatabaseHeader :=
  st ← sget;
  match global_header st with
  | None => _ ← smodify (set_global_header (Some page1)); mret page1
  | Some h => mret h
  end.
Definition stale (expected : option Z) (generation : Z) : bool :=
  match expected with Some e => negb (e =? generation) | None => false end.
(** The callback under the clock's lock: publishes the transaction unless the schema is
    stale. *)
Definition publish_tx (id : TxID) (read_mark_ : WalPos) (expected_schema_generation : option Z) (ts : Z) : MV bool :=
  st ← sget;
  if stale expected_schema_generation (schema_generation st) then mret true
  else
    match global_header st with
    | None => slift Panic
    | Some h =>
        _ ← smodify (fun st => set_txs (<[id := Transaction_new id ts h read_mark_ (schema_generation st)]> (txs st)) st);
        mret false
    end.

(** [begin_tx_with_schema_generation].  [lock_ok] is the answer of
    [blocking_checkpoint_lock.read()], [page1] the header in the file and [mark] the WAL
    position of the pager. *)
Definition begin_tx (passive lock_ok : bool) (page1 : DatabaseHeader) (mark : WalPos) (expected : option Z) : MV TxID :=
  if negb passive && negb lock_ok then throw Busy
  else
    id ← get_tx_id;
    _ ← get_new_transaction_database_header page1;
    '(_, schema_stale) ← get_timestamp (publish_tx id mark expected);
    if (schema_stale : bool) then throw SchemaUpdated
    else
      _ ← (if passive then mret tt else update_tx id (set_holds_blocking_checkpoint_read true));
      mret id.

Definition is_preparing (s : TransactionState) : bool := match s with Preparing _ => true | _ => false end.
Definition has_preparing_tx_other_than (id : TxID) (st : MvStore) : bool :=
  existsb (fun kt => negb (kt.1 =? id) && is_preparing (state kt.2)) (map_to_list (txs st)).
(** Another transaction has committed after this one began. *)
Definition begin_is_old (id : TxID) (st : MvStore) : bool :=
  match txs st !! id with Some tx => begin_ts tx <? last_committed_tx_ts st | None => false end.
Definition acquire_exclusive_tx (id : TxID) : MV unit :=
  st ← sget;
  if exclusive_tx st =? id then mret tt
  else if has_preparing_tx_other_than id st then throw Busy
  else if begin_is_old id st then throw Busy
  else if exclusive_tx st =? NO_EXCLUSIVE_TX then
    _ ← smodify (set_exclusive_tx id);
    st ← sget;
    if has_preparing_tx_other_than id st then _ ← release_exclusive_tx id; throw Busy
    else if begin_is_old id st then _ ← release_exclusive_tx id; throw Busy
    else mret tt
  else throw Busy.

(** Runs [h] and fails when [m] fails. *)
Definition inspect_err {A} (m : MV A) (h : MV unit) : MV A := fun st =>
  match m st with
  | (Err e, st) => match h st with (Panic, st) => (Panic, st) | (_, st) => (Err e, st) end
  | r => r
  end.
Definition remove_from_txs (id : TxID) : MV unit := smodify (fun st => set_txs (base.delete id (txs st)) st).

(** [begin_exclusive_tx] for a new transaction and for the upgrade of an existing one. *)
Definition begin_exclusive_fresh (passive lock_ok : bool) (page1 : DatabaseHeader) (mark : WalPos) (expected : option Z) :
    MV TxID :=
  if negb passive && negb lock_ok then throw Busy
  else
    id ← get_tx_id;
    _ ← get_new_transaction_database_header page1;
    '(_, schema_stale) ← get_timestamp (publish_tx id mark expected);
    if (schema_stale : bool) then throw SchemaUpdated
    else
      _ ← (if passive then mret tt else update_tx id (set_holds_blocking_checkpoint_read true));
      _ ← inspect_err (acquire_exclusive_tx id) (remove_from_txs id);
      st ← sget;
      if pager_commit_lock st then
        _ ← remove_from_txs id;
        _ ← release_exclusive_tx id;
        throw Busy
      else
        _ ← smodify (set_pager_commit_lock true);
        _ ← expect_tx id;
        _ ← update_tx id (set_pager_commit_lock_held true);
        mret id.
Definition begin_exclusive_upgrade (id : TxID) (page1 : DatabaseHeader) : MV TxID :=
  _ ← get_tx id;
  st ← sget;
  let already_exclusive := is_exclusive_tx id st in
  _ ← (if already_exclusive then mret tt else acquire_exclusive_tx id);
  tx ← get_tx id;
  let already_holds_commit_lock := pager_commit_lock_held tx in
  st ← sget;
  if negb already_holds_commit_lock && pager_commit_lock st then
    _ ← (if already_exclusive then mret tt else release_exclusive_tx id);
    throw Busy
  else
    _ ← (if already_holds_commit_lock then mret tt else smodify (set_pager_commit_lock true));
    h ← get_new_transaction_database_header page1;
    _ ← get_tx id;
    _ ← update_tx id (set_pager_commit_lock_held true);
    _ ← update_tx id (set_header h);
    mret id.

(** [with_header_mut] of a transaction. *)
Definition with_header_mut (id : TxID) (f : DatabaseHeader -> DatabaseHeader) : MV unit :=
  tx ← get_tx id;
  _ ← update_tx id (fun tx => set_header (f (header tx)) tx);
  update_tx id (set_header_dirty true).

(** * Ending a transaction *)

Definition remove_tx (id : TxID) : MV unit :=
  st ← sget;
  match txs st !! id with
  | Some tx =>
      _ ← match state tx with
          | Committed commit_ts =>
              if decide (write_set tx = []) then mret tt
              else smodify (fun st => set_finalized_tx_states (<[id := Committed commit_ts]> (finalized_tx_states st)) st)
          | _ => mret tt
          end;
      _ ← update_tx id (set_commit_dep_set ∅);
      _ ← sassert (bool_decide (commit_dep_set tx = ∅));
      remove_from_txs id
  | None => remove_from_txs id
  end.

(** What an ending transaction tells its dependents. *)
Definition notify (f : Transaction -> Transaction) (dependents : list TxID) : MV unit :=
  smodify (fun st => set_txs (foldr (fun d m => alter f d m) (txs st) dependents) st).
Definition dep_committed (tx : Transaction) : Transaction :=
  set_commit_dep_counter (wrap 64 (commit_dep_counter tx - 1)) tx.
Definition dep_aborted (tx : Transaction) : Transaction := dep_committed (set_abort_now true tx).

(** Applies [f] to every version of the rows of a write set. *)
Definition map_chains (f : RowVersion -> RowVersion) (ids : list RowID) : MV unit :=
  smodify (fun st => set_rows (foldr (fun id m => alter (map f) id m) (rows st) ids) st).

Definition rollback_tx (id : TxID) : MV unit :=
  tx ← expect_tx id;
  _ ← sassert (match state tx with Active | Preparing _ => true | _ => false end);
  _ ← update_tx id (set_state Aborted);
  _ ← unlock_commit_lock_if_held id;
  let dependents := commit_dep_set tx in
  _ ← update_tx id (set_commit_dep_set ∅);
  _ ← sassert (negb (bool_decide (id ∈ dependents)));
  _ ← notify dep_aborted (elements dependents);
  st ← sget;
  _ ← (if is_exclusive_tx id st then release_exclusive_tx id else mret tt);
  _ ← map_chains (rollback_row_version id) (write_set tx);
  _ ← update_tx id (set_state Terminated);
  remove_tx id.

(** * Savepoints *)

Inductive SavepointResult : Type := SpNotFound | SpRelease | SpCommit.

Definition Savepoint_new (k : SavepointKind) (fk : Z) (h : DatabaseHeader) (dirty : bool) : Savepoint :=
  {| kind := k; deferred_fk_violations := fk; sp_header := h; sp_header_dirty := dirty;
     created_table_versions := []; deleted_table_versions := []; newly_added_to_write_set := [] |}.
Definition begin_savepoint (tx : Transaction) : Transaction :=
  set_savepoint_stack (Savepoint_new Statement 0 (header tx) (header_dirty tx) :: savepoint_stack tx) tx.
Definition begin_named_savepoint (name : string) (starts_transaction : bool) (fk : Z) (tx : Transaction) : Transaction :=
  set_savepoint_stack
    (Savepoint_new (Named name starts_transaction) fk (header tx) (header_dirty tx) :: savepoint_stack tx) tx.

Definition merge_from (self other : Savepoint) : Savepoint :=
  {| kind := kind self; deferred_fk_violations := deferred_fk_violations self; sp_header := sp_header self;
     sp_header_dirty := sp_header_dirty self;
     created_table_versions := created_table_versions self ++ created_table_versions other;
     deleted_table_versions := deleted_table_versions self ++ deleted_table_versions other;
     newly_added_to_write_set := newly_added_to_write_set self ++ newly_added_to_write_set other |}.

Definition release_savepoint (tx : Transaction) : Transaction :=
  match savepoint_stack tx with
  | sp :: sps =>
      if bool_decide (kind sp = Statement) then
        set_savepoint_stack (match sps with [] => [] | parent :: rest => merge_from parent sp :: rest end) tx
      else tx
  | [] => tx
  end.
Definition pop_statement_savepoint (tx : Transaction) : option Savepoint * Transaction :=
  match savepoint_stack tx with
  | sp :: sps => if bool_decide (kind sp = Statement) then (Some sp, set_savepoint_stack sps tx) else (None, tx)
  | [] => (None, tx)
  end.

Definition is_named (name : string) (sp : Savepoint) : bool :=
  match kind sp with Named n _ => bool_decide (n = name) | Statement => false end.
Definition starts_tx (sp : Savepoint) : bool := match kind sp with Named _ b => b | Statement => false end.
(** [rposition]: the savepoints above the newest one with the name (newest first), that
    one, and those below. *)
Fixpoint split_at_name (name : string) (sps : list Savepoint) : option (list Savepoint * Savepoint * list Savepoint) :=
  match sps with
  | [] => None
  | sp :: rest =>
      if is_named name sp then Some ([], sp, rest)
      else match split_at_name name rest with
           | Some (above, target, below) => Some (sp :: above, target, below)
           | None => None
           end
  end.
Definition release_named_savepoint (name : string) (tx : Transaction) : SavepointResult * Transaction :=
  match split_at_name name (savepoint_stack tx) with
  | None => (SpNotFound, tx)
  | Some (above, target, below) =>
      if starts_tx target && bool_decide (below = []) then (SpCommit, tx)
      else
        (SpRelease,
         set_savepoint_stack
           (match below with
            | [] => []
            | parent :: rest => foldl merge_from parent (target :: reverse above) :: rest
            end) tx)
  end.
(** The rolled-back savepoints, oldest first, the counter of the target and the
    transaction with a fresh savepoint of the target's name. *)
Definition rollback_to_named (name : string) (tx : Transaction) : option (list Savepoint * Z * Transaction) :=
  match split_at_name name (savepoint_stack tx) with
  | None => None
  | Some (above, target, below) =>
      Some (target :: reverse above, deferred_fk_violations target,
            set_savepoint_stack
              (Savepoint_new (kind target) (deferred_fk_violations target) (sp_header target) (sp_header_dirty target)
               :: below) tx)
  end.

(** Rolling back the changes of a savepoint. *)
Definition row_has_uncommitted_version_for_tx (st : MvStore) (id_tx : TxID) (id : RowID) : bool :=
  existsb (fun rv => bool_decide (rv_begin rv = Some (TxId id_tx)) || bool_decide (rv_end rv = Some (TxId id_tx)))
    (chain st id).
Definition remove_rolled_back_rows_from_write_set (id_tx : TxID) (ids : list RowID) : MV unit :=
  st ← sget;
  update_tx id_tx (fun tx =>
    set_write_set (filter (fun id => id ∉ ids \/ row_has_uncommitted_version_for_tx st id_tx id = true) (write_set tx)) tx).
Definition remove_created (st : MvStore) (created : RowID * Z) : MvStore :=
  match rows st !! created.1 with
  | Some versions =>
      let kept := filter (fun rv => rv_id rv <> created.2) versions in
      set_live_version_count_approx (Z.max 0 (live_version_count_approx st - (len versions - len kept)))
        (set_rows (<[created.1 := kept]> (rows st)) st)
  | None => st
  end.
Fixpoint restore_first (version_id : Z) (versions : list RowVersion) : list RowVersion :=
  match versions with
  | [] => []
  | rv :: rest => if rv_id rv =? version_id then set_end rv None :: rest else rv :: restore_first version_id rest
  end.
Definition restore_deleted (st : MvStore) (deleted : RowID * Z) : MvStore :=
  match rows st !! deleted.1 with
  | Some versions => set_rows (<[deleted.1 := restore_first deleted.2 versions]> (rows st)) st
  | None => st
  end.
Definition rollback_savepoint_changes (id_tx : TxID) (sp : Savepoint) : MV unit :=
  _ ← smodify (fun st => foldl remove_created st (created_table_versions sp));
  _ ← smodify (fun st => foldl restore_deleted st (deleted_table_versions sp));
  _ ← remove_rolled_back_rows_from_write_set id_tx
        (map fst (created_table_versions sp) ++ map fst (deleted_table_versions sp) ++ newly_added_to_write_set sp);
  _ ← expect_tx id_tx;
  _ ← update_tx id_tx (set_header (sp_header sp));
  update_tx id_tx (set_header_dirty (sp_header_dirty sp)).

Definition rollback_first_savepoint (id_tx : TxID) : MV bool :=
  tx ← expect_tx id_tx;
  match pop_statement_savepoint tx with
  | (Some sp, tx) =>
      _ ← update_tx id_tx (fun _ => tx);
      _ ← rollback_savepoint_changes id_tx sp;
      mret true
  | (None, _) => mret false
  end.
Fixpoint rollback_all (id_tx : TxID) (sps : list Savepoint) : MV unit :=
  match sps with
  | [] => mret tt
  | sp :: rest => _ ← rollback_savepoint_changes id_tx sp; rollback_all id_tx rest
  end.
Definition rollback_to_named_savepoint (id_tx : TxID) (name : string) : MV (option Z) :=
  tx ← expect_tx id_tx;
  match rollback_to_named name tx with
  | None => mret None
  | Some (sps, fk, tx) =>
      _ ← update_tx id_tx (fun _ => tx);
      _ ← rollback_all id_tx (reverse sps);
      mret (Some fk)
  end.

(** * Commit *)

(** The states of the commit machine; the log record is not modelled, and the machine ends
    where a checkpoint would start. *)
Inductive CommitState : Type :=
| Initial
| Commit (end_ts : Z)
| WaitForDependencies (end_ts : Z)
| BuildLogRecord (end_ts : Z)
| BeginCommitLogicalLog (end_ts : Z)
| UpgradeLogicalLogHeader (end_ts : Z)
| WriteLogicalLog (end_ts : Z)
| FinishLogicalLogWrite (end_ts : Z)
| SyncLogicalLog (end_ts : Z)
| EndCommitLogicalLog (end_ts : Z)
| CommitEnd (end_ts : Z)
| RewriteLiveVersions (end_ts : Z) (cursor : nat)
| FinalizeCommit (end_ts : Z)
| CommitDone.

(** The machine: its state and whether the commit changes the schema. *)
Record CommitStateMachine : Type := { cs : CommitState; did_commit_schema_change : bool }.
Definition at_state (m : CommitStateMachine) (s : CommitState) : CommitStateMachine :=
  {| cs := s; did_commit_schema_change := did_commit_schema_change m |}.

(** What the rest of the system does in a step: whether the log record needs another step to
    be built, whether it is empty, and whether building it or the storage fails. *)
Record CommitEnv : Type := { log_pending : bool; log_is_empty : bool; storage_fails : bool }.

Definition MVCC_COMMIT_BATCH_SIZE : nat := 1024.

(** [check_version_conflicts] over the chain read backwards. *)
Definition version_conflict (st : MvStore) (end_ts : Z) (tx : Transaction) (version : RowVersion) : res LimboError unit :=
  _ ← match rv_end version with
      | Some (Timestamp e) =>
          _ ← rassert (negb (e =? begin_ts tx));
          ensure (negb (begin_ts tx <? e)) WriteWriteConflict
      | _ => Ok tt
      end;
  match rv_begin version with
  | None =>
      match rv_end version with
      | Some (TxId other_tx_id) =>
          if other_tx_id =? tx_id tx then Ok tt
          else
            match txs st !! other_tx_id with
            | None => Panic
            | Some other_tx =>
                match state other_tx with
                | Committed _ => Err WriteWriteConflict
                | Preparing other_end_ts => ensure (negb (other_end_ts <? end_ts)) WriteWriteConflict
                | _ => Ok tt
                end
            end
      | _ => Ok tt
      end
  | Some b =>
      let check_begin :=
        match b with
        | TxId other_tx_id =>
            if other_tx_id =? tx_id tx then Ok tt
            else
              match lookup_tx_state st other_tx_id with
              | Some (Committed _) => Err WriteWriteConflict
              | Some (Preparing other_end_ts) => ensure (negb (other_end_ts <? end_ts)) WriteWriteConflict
              | Some _ => Ok tt
              | None => Err WriteWriteConflict
              end
        | Timestamp _ => Err WriteWriteConflict
        end in
      match rv_end version with
      | Some (Timestamp e) => rassert (e <? begin_ts tx)
      | Some (TxId end_tx_id) =>
          if end_tx_id =? tx_id tx then Ok tt
          else
            match lookup_tx_state st end_tx_id with
            | Some (Committed committed_end_ts) =>
                _ ← rassert (negb (committed_end_ts =? begin_ts tx));
                ensure (negb (begin_ts tx <? committed_end_ts)) WriteWriteConflict
            | _ => check_begin
            end
      | None => check_begin
      end
  end.
Fixpoint check_version_conflicts (st : MvStore) (end_ts : Z) (tx : Transaction) (versions : list RowVersion) :
    res LimboError unit :=
  match versions with
  | [] => Ok tt
  | version :: rest =>
      _ ← version_conflict st end_ts tx version;
      check_version_conflicts st end_ts tx rest
  end.
Definition check_rowid_for_conflicts (st : MvStore) (end_ts : Z) (tx : Transaction) (id : RowID) : res LimboError unit :=
  match rows st !! id with
  | None => Ok tt
  | Some versions => check_version_conflicts st end_ts tx (reverse versions)
  end.
Fixpoint check_write_set (st : MvStore) (end_ts : Z) (tx : Transaction) (ids : list RowID) : res LimboError unit :=
  match ids with
  | [] => Ok tt
  | id :: rest => _ ← check_rowid_for_conflicts st end_ts tx id; check_write_set st end_ts tx rest
  end.

Definition read_only (tx : Transaction) : bool := bool_decide (write_set tx = []) && negb (header_dirty tx).

(** The callback of [CommitState::Initial] under the clock's lock: whether there is a
    conflict with an exclusive transaction and with a schema change. *)
Definition prepare (id : TxID) (ts : Z) : MV (bool * bool) :=
  tx ← expect_tx id;
  _ ← sassert (begin_ts tx <? ts);
  st ← sget;
  let exclusive_conflict := negb (is_exclusive_tx id st) && has_exclusive_tx st in
  let schema_updated := begin_ts tx <? last_committed_schema_change_ts st in
  match global_header st with
  | None => slift Panic
  | Some h =>
      _ ← sassert (negb (header_dirty tx) || is_exclusive_tx id st);
      let schema_conflict :=
        (negb (schema_cookie (header tx) =? schema_cookie h) && negb (header_dirty tx)) || schema_updated in
      _ ← (if negb (exclusive_conflict || schema_conflict) || read_only tx
           then update_tx id (set_state (Preparing ts)) else mret tt);
      mret (exclusive_conflict, schema_conflict)
  end.

(** The end of a read-only commit. *)
Definition commit_initial (id : TxID) (m : CommitStateMachine) : MV CommitStateMachine := fun st =>
  match txs st !! id with
  | None => (Err TxTerminated, st)
  | Some tx =>
      (if bool_decide (state tx = Terminated) then throw TxTerminated
       else
         _ ← assert_active tx;
         '(end_ts, (exclusive_conflict, schema_conflict)) ← get_timestamp (prepare id);
         if exclusive_conflict && negb (read_only tx) then throw WriteWriteConflict
         else if schema_conflict && negb (read_only tx) then throw SchemaConflict
         else if read_only tx then
           _ ← sassert (bool_decide (commit_dep_set tx = ∅));
           if abort_now tx then throw CommitDependencyAborted
           else if 0 <? commit_dep_counter tx then mret (at_state m (WaitForDependencies end_ts))
           else
             _ ← update_tx id (set_state (Committed end_ts));
             st ← sget;
             _ ← (if is_exclusive_tx id st then release_exclusive_tx id else mret tt);
             _ ← unlock_commit_lock_if_held id;
             _ ← remove_tx id;
             mret (at_state m CommitDone)
         else mret (at_state m (Commit end_ts))) st
  end.

Definition commit_validate (id : TxID) (end_ts : Z) (m : CommitStateMachine) : MV CommitStateMachine := fun st =>
  match txs st !! id with
  | None => (Err TxTerminated, st)
  | Some tx =>
      (_ ← slift (check_write_set st end_ts tx (write_set tx));
       mret (at_state m (WaitForDependencies end_ts))) st
  end.

Definition commit_wait (id : TxID) (end_ts : Z) (m : CommitStateMachine) : MV CommitStateMachine := fun st =>
  match txs st !! id with
  | None => (Err TxTerminated, st)
  | Some tx =>
      (if abort_now tx then throw CommitDependencyAborted
       else if 0 <? commit_dep_counter tx then mret m
       else if read_only tx then
         _ ← sassert (bool_decide (commit_dep_set tx = ∅));
         _ ← update_tx id (set_state (Committed end_ts));
         st ← sget;
         _ ← (if is_exclusive_tx id st
              then _ ← release_exclusive_tx id; unlock_commit_lock else mret tt);
         _ ← remove_tx id;
         mret (at_state m CommitDone)
       else mret (at_state m (BuildLogRecord end_ts))) st
  end.

Definition commit_begin_log (id : TxID) (end_ts : Z) (m : CommitStateMachine) : MV CommitStateMachine :=
  st ← sget;
  if is_exclusive_tx id st then mret (at_state m (UpgradeLogicalLogHeader end_ts))
  else
    tx ← get_tx id;
    if pager_commit_lock st then mret m
    else
      _ ← smodify (set_pager_commit_lock true);
      _ ← update_tx id (set_pager_commit_lock_held true);
      mret (at_state m (UpgradeLogicalLogHeader end_ts)).

Definition commit_end_log (id : TxID) (end_ts : Z) (m : CommitStateMachine) : MV CommitStateMachine :=
  tx ← get_tx id;
  st ← sget;
  let schema_did_change :=
    did_commit_schema_change m ||
    negb (bool_decide (schema_cookie <$> global_header st = Some (schema_cookie (header tx)))) in
  let prev := last_global_header_ts st in
  _ ← smodify (set_last_global_header_ts (Z.max prev end_ts));
  _ ← (if prev <=? end_ts then smodify (set_global_header (Some (header tx))) else mret tt);
  mret {| cs := CommitEnd end_ts; did_commit_schema_change := schema_did_change |}.

Definition commit_end (id : TxID) (env : CommitEnv) (end_ts : Z) (m : CommitStateMachine) : MV CommitStateMachine :=
  _ ← get_tx id;
  if storage_fails env then throw IOError
  else
    _ ← update_tx id (set_state (Committed end_ts));
    mret (at_state m (RewriteLiveVersions end_ts 0)).

(** A batch of [step_rewrite_live_versions]. *)
Definition commit_rewrite (id : TxID) (end_ts : Z) (cursor : nat) (m : CommitStateMachine) : MV CommitStateMachine :=
  tx ← get_tx id;
  _ ← sassert (negb (bool_decide (cursor = 0%nat)) || bool_decide (state tx = Committed end_ts));
  let batch := take MVCC_COMMIT_BATCH_SIZE (drop cursor (write_set tx)) in
  _ ← map_chains (rewrite_txid_to_timestamp id end_ts) batch;
  let cursor := (cursor + length batch)%nat in
  if bool_decide (cursor < length (write_set tx))%nat then mret (at_state m (RewriteLiveVersions end_ts cursor))
  else mret (at_state m (FinalizeCommit end_ts)).

Definition commit_finalize (id : TxID) (end_ts : Z) (m : CommitStateMachine) : MV CommitStateMachine :=
  tx ← get_tx id;
  _ ← update_tx id (set_commit_dep_set ∅);
  _ ← notify dep_committed (elements (commit_dep_set tx));
  _ ← unlock_commit_lock_if_held id;
  st ← sget;
  let last := last_committed_tx_ts st in
  _ ← smodify (set_last_committed_tx_ts (Z.max last end_ts));
  _ ← (if last <=? end_ts then smodify (set_global_header (Some (header tx))) else mret tt);
  _ ← (if did_commit_schema_change m
       then smodify (fun st => set_last_committed_schema_change_ts (Z.max (last_committed_schema_change_ts st) end_ts) st)
       else mret tt);
  st ← sget;
  _ ← (if is_exclusive_tx id st then release_exclusive_tx id else mret tt);
  _ ← remove_tx id;
  mret (at_state m CommitDone).

(** [CommitStateMachine::step]. *)
Definition commit_step (id : TxID) (env : CommitEnv) (m : CommitStateMachine) : MV CommitStateMachine :=
  match cs m with
  | Initial => commit_initial id m
  | Commit e => commit_validate id e m
  | WaitForDependencies e => commit_wait id e m
  | BuildLogRecord e =>
      _ ← get_tx id;
      if storage_fails env then throw IOError
      else if log_pending env then mret m
      else if log_is_empty env then
        st ← sget;
        _ ← (if is_exclusive_tx id st then unlock_commit_lock_if_held id else mret tt);
        mret (at_state m (CommitEnd e))
      else mret (at_state m (BeginCommitLogicalLog e))
  | BeginCommitLogicalLog e => commit_begin_log id e m
  | UpgradeLogicalLogHeader e => if storage_fails env then throw IOError else mret (at_state m (WriteLogicalLog e))
  | WriteLogicalLog e => if storage_fails env then throw IOError else mret (at_state m (FinishLogicalLogWrite e))
  | FinishLogicalLogWrite e => if storage_fails env then throw IOError else mret (at_state m (SyncLogicalLog e))
  | SyncLogicalLog e => if storage_fails env then throw IOError else mret (at_state m (EndCommitLogicalLog e))
  | EndCommitLogicalLog e => commit_end_log id e m
  | CommitEnd e => commit_end id env e m
  | RewriteLiveVersions e cursor => commit_rewrite id e cursor m
  | FinalizeCommit e => commit_finalize id e m
  | CommitDone => mret m
  end.

(** [cleanup_dropped_commit]: what happens to a transaction whose commit is abandoned. *)
Definition cleanup_dropped_commit (id : TxID) : MV unit :=
  st ← sget;
  match state <$> txs st !! id with
  | Some Active | Some (Preparing _) => rollback_tx id
  | Some (Committed end_ts) =>
      tx ← expect_tx id;
      _ ← map_chains (rewrite_txid_to_timestamp id end_ts) (write_set tx);
      _ ← unlock_commit_lock_if_held id;
      st ← sget;
      _ ← (if is_exclusive_tx id st then release_exclusive_tx id else mret tt);
      remove_tx id
  | Some Aborted | Some Terminated | None =>
      if is_exclusive_tx id st then release_exclusive_tx id else mret tt
  end.

(** * Garbage collection *)

Definition is_live (tx : Transaction) : bool :=
  match state tx with Active | Preparing _ => true | _ => false end.
Definition U64_MAX : Z := 2 ^ 64 - 1.
Definition compute_lwm (st : MvStore) : Z :=
  map_fold (fun _ tx m => if is_live tx then Z.min (begin_ts tx) m else m) U64_MAX (txs st).
Definition compute_min_reader_mark (st : MvStore) : WalPos :=
  map_fold (fun _ tx m => if is_live tx then pos_min (read_mark tx) m else m) STAGED (txs st).

Definition is_garbage (rv : RowVersion) : bool := bool_decide (rv_begin rv = None) && bool_decide (rv_end rv = None).
Definition is_current (rv : RowVersion) : bool :=
  match rv_begin rv with Some (Timestamp _) => bool_decide (rv_end rv = None) | _ => false end.
Definition materialized_for_readers (min_reader_mark : WalPos) (rv : RowVersion) : bool :=
  negb (bool_decide (materialized_at rv = ORIGIN)) && pos_leb (materialized_at rv) min_reader_mark.
(** Whether rule 2 keeps a version. *)
Definition keep_superseded (lwm ckpt_max : Z) (passive : bool) (min_reader_mark : WalPos) (has_current : bool)
    (rv : RowVersion) : bool :=
  match rv_end rv with
  | Some (Timestamp e) =>
      if e <=? lwm then
        if passive then negb (materialized_for_readers min_reader_mark rv)
        else
          let in_btree :=
            btree_resident rv || match rv_begin rv with Some (Timestamp b) => b <=? ckpt_max | _ => false end in
          (ckpt_max <? e) && (in_btree || negb has_current)
      else true
  | _ => true
  end.
(** Rule 3: a current version that is alone in its chain. *)
Definition sole_survivor_removable (lwm ckpt_max : Z) (passive : bool) (min_reader_mark : WalPos)
    (versions : list RowVersion) : bool :=
  match versions with
  | [rv] =>
      match rv_begin rv, rv_end rv with
      | Some (Timestamp b), None =>
          if passive then materialized_for_readers min_reader_mark rv && (b <? lwm)
          else (b <=? ckpt_max) && (b <? lwm)
      | _, _ => false
      end
  | _ => false
  end.
Definition gc_version_chain (versions : list RowVersion) (lwm ckpt_max : Z) (passive : bool) (min_reader_mark : WalPos) :
    list RowVersion :=
  let versions := List.filter (fun rv => negb (is_garbage rv)) versions in
  let has_current := existsb is_current versions in
  let versions := List.filter (keep_superseded lwm ckpt_max passive min_reader_mark has_current) versions in
  if sole_survivor_removable lwm ckpt_max passive min_reader_mark versions then [] else versions.

(** [stamp_chain_materialized]. *)
Definition resolve_committed (st : MvStore) (t : option TxTimestampOrID) : option Z :=
  match t with
  | Some (Timestamp ts) => Some ts
  | Some (TxId id) => match lookup_tx_state st id with Some (Committed ts) => Some ts | _ => None end
  | None => None
  end.
Definition stamp_chain_materialized (st : MvStore) (at_frame : WalPos) (snapshot_ts : Z) (versions : list RowVersion) :
    list RowVersion :=
  map (fun v =>
    let terminal :=
      if bool_decide (rv_end v = None) then resolve_committed st (rv_begin v) else resolve_committed st (rv_end v) in
    match terminal with
    | Some t => if t <=? snapshot_ts then set_materialized_at v at_frame else v
    | None => v
    end) versions.

(** [stamp_chain_materialized] of a checkpoint over the chains of [ids]. *)
Definition stamp_chains (at_frame : WalPos) (snapshot_ts : Z) (ids : list RowID) (st : MvStore) : MvStore :=
  set_rows (foldr (fun id m => alter (stamp_chain_materialized st at_frame snapshot_ts) id m) (rows st) ids) st.
(** What a checkpoint of the commits up to [snapshot_ts] publishes when it has written them:
    the durable boundary and the header it has staged; and, when it ends, the WAL position up
    to which the database file is current. *)
Definition publish_checkpoint (snapshot_ts : Z) (header : DatabaseHeader) (st : MvStore) : MvStore :=
  set_global_header (Some header) (set_checkpointed (Z.max (durable_txid_max st) snapshot_ts) (backfill_floor st) st).
Definition finish_checkpoint (snapshot_ts : Z) (backfill : WalPos) (st : MvStore) : MvStore :=
  set_checkpointed (Z.max (durable_txid_max st) snapshot_ts) backfill st.

(** [checkpoint_snapshot_ts]: below every commit in flight. *)
Definition checkpoint_snapshot_ts : MV Z :=
  '(_, ts) ← get_timestamp (fun _ =>
    st ← sget;
    let floor := map_fold (fun _ tx m => match state tx with Preparing ts => Z.min ts m | _ => m end) U64_MAX (txs st) in
    mret (Z.min (last_committed_tx_ts st) (Z.max 0 (floor - 1))));
  mret ts.

(** A pass of garbage collection over the chains of [ids], as [gc_incremental] and
    [drop_unused_row_versions] make it. *)
Definition gc_chains (passive : bool) (ids : list RowID) (st : MvStore) : MvStore :=
  let lwm := compute_lwm st in
  let mark := pos_min (compute_min_reader_mark st) (backfill_floor st) in
  set_rows
    (foldr (fun id m => alter (fun vs => gc_version_chain vs lwm (durable_txid_max st) passive mark) id m) (rows st) ids) st.
(** [collect_referenced_txids] and [prune_finalized_tx_states] of a full pass. *)
Definition txids_of (versions : list RowVersion) : list TxID :=
  flat_map (fun rv =>
    match rv_begin rv with Some (TxId id) => [id] | _ => [] end ++
    match rv_end rv with Some (TxId id) => [id] | _ => [] end) versions.
Definition referenced_txids (st : MvStore) : list TxID :=
  flat_map (fun kv => txids_of kv.2) (map_to_list (rows st)).
Definition prune_finalized_tx_states (st : MvStore) : MvStore :=
  set_finalized_tx_states
    (filter (fun kv => kv.1 ∈ referenced_txids st) (finalized_tx_states st)) st.

(** * The packed forms *)

Section tagged.
Context (q n : Z) (Hq : q = 1 \/ q = 2) (Hn : 0 <= n < 2 ^ 62).
Let w := q * 2 ^ 62 + n.

Lemma tagged_value : Z.land w (2 ^ 62 - 1) = n.
Proof. rewrite land_low by lia. unfold w. rewrite Z.add_comm, Z.mod_add, Z.mod_small by lia. done. Qed.
Lemma tagged_bit k : k = 62 \/ k = 63 -> Z.land w (Z.shiftl 1 k) = if (k - 61 =? q) then 2 ^ k else 0.
Proof.
  intros Hk. change 1 with (Z.ones 1). rewrite land_shifted_mask by lia.
  assert (Hd : w / 2 ^ k = if (k =? 62) then q else (if (q =? 2) then 1 else 0)).
  { unfold w. destruct Hk as [-> | ->], Hq as [-> | ->]; cbn [Z.eqb Pos.eqb]; symmetry;
      [apply Z.div_unique with n|apply Z.div_unique with n|apply Z.div_unique with (2 ^ 62 + n)|apply Z.div_unique with n]; lia. }
  rewrite Hd. destruct Hk as [-> | ->], Hq as [-> | ->]; reflexivity.
Qed.
Lemma tagged_range : 3 <= w < 2 ^ 64.
Proof. unfold w. lia. Qed.
End tagged.

(** A version's begin and end fields survive the word they are packed into: an optional
    timestamp or transaction id below 2^62 is packed into 64 bits without loss, and one that
    does not fit is refused by an assertion instead of being cut. *)
Theorem pack_unpack v :
  (forall n, v = Some (Timestamp n) \/ v = Some (TxId n) -> 0 <= n < 2 ^ 64) ->
  match pack v with
  | Ok p => 0 <= p < 2 ^ 64 /\ unpack p = v
  | Err _ => False
  | Panic => exists n, (v = Some (Timestamp n) \/ v = Some (TxId n)) /\ 2 ^ 62 <= n
  end.
Proof.
  intros Hv. destruct v as [[n|n]|]; [| |done]; cbn [pack]; specialize (Hv n ltac:(auto)); unfold rassert;
    (destruct (n <=? VALUE_MASK) eqn:Hle; rstep; [apply Z.leb_le in Hle|apply Z.leb_gt in Hle; exists n; split; [auto|change VALUE_MASK with (2 ^ 62 - 1) in Hle; lia]]);
    assert (Hn : 0 <= n < 2 ^ 62) by (change VALUE_MASK with (2 ^ 62 - 1) in Hle; lia).
  - change TIMESTAMP_TAG with (1 * 2 ^ 62). rewrite (lor_add_disjoint 1 n 62) by lia. unfold unpack. change VALUE_MASK with (2 ^ 62 - 1).
    pose proof (tagged_range 1 n (or_introl eq_refl) Hn). split; [lia|]. rewrite (proj2 (Z.eqb_neq _ 0)) by lia.
    change TXID_TAG with (Z.shiftl 1 63). by rewrite (tagged_bit 1 n), tagged_value by auto.
  - change TXID_TAG with (2 * 2 ^ 62). rewrite (lor_add_disjoint 2 n 62) by lia. unfold unpack. change VALUE_MASK with (2 ^ 62 - 1).
    pose proof (tagged_range 2 n (or_intror eq_refl) Hn). split; [lia|]. rewrite (proj2 (Z.eqb_neq _ 0)) by lia.
    change TXID_TAG with (Z.shiftl 1 63). by rewrite (tagged_bit 2 n), tagged_value by auto.
Qed.
Lemma pack_unpack_witness : exists p, pack (Some (TxId 5)) = Ok p /\ unpack p = Some (TxId 5).
Proof.
  exists (2 ^ 63 + 5). split; [reflexivity|]. exact (proj2 (pack_unpack (Some (TxId 5)) ltac:(intros n [H|H]; [discriminate|injection H as <-; lia]))).
Defined.

(** A transaction's state survives the atomic word that publishes it, its timestamp being
    below 2^62. *)
Theorem state_encode_decode s :
  (forall ts, s = Preparing ts \/ s = Committed ts -> 0 <= ts < 2 ^ 62) -> exists v, encode s = Ok v /\ 0 <= v < 2 ^ 64 /\ decode v = Ok s.
Proof.
  intros Hs. assert (Hmask : forall n, 0 <= n < 2 ^ 62 -> Z.land n (2 ^ 64 - 1 - TIMESTAMP_MASK) = 0).
  { intros n Hn. change (2 ^ 64 - 1 - TIMESTAMP_MASK) with (Z.shiftl (Z.ones 2) 62). rewrite land_shifted_mask by lia. by rewrite Z.div_small. }
  destruct s as [|ts| | |ts]; cbn [encode]; try (eexists; split; [reflexivity|split; [lia|reflexivity]]).
  - specialize (Hs ts (or_introl eq_refl)). rewrite Hmask by done. eexists. split; [reflexivity|]. change PREPARING_BIT with (1 * 2 ^ 62).
    rewrite lor_add_disjoint by lia. pose proof (tagged_range 1 ts (or_introl eq_refl) Hs). split; [lia|]. unfold decode.
    rewrite !(proj2 (Z.eqb_neq _ _)) by lia.
    change COMMITTED_BIT with (Z.shiftl 1 63). rewrite (tagged_bit 1 ts) by auto.
    change PREPARING_BIT with (Z.shiftl 1 62). rewrite (tagged_bit 1 ts) by auto. change TIMESTAMP_MASK with (2 ^ 62 - 1). by rewrite tagged_value by auto.
  - specialize (Hs ts (or_intror eq_refl)). rewrite Hmask by done. eexists. split; [reflexivity|]. change COMMITTED_BIT with (2 * 2 ^ 62).
    rewrite lor_add_disjoint by lia. pose proof (tagged_range 2 ts (or_intror eq_refl) Hs). split; [lia|]. unfold decode.
    rewrite !(proj2 (Z.eqb_neq _ _)) by lia.
    change COMMITTED_BIT with (Z.shiftl 1 63). rewrite (tagged_bit 2 ts) by auto. change TIMESTAMP_MASK with (2 ^ 62 - 1). by rewrite tagged_value by auto.
Qed.
Lemma state_encode_decode_witness : exists v, encode (Preparing 9) = Ok v /\ 0 <= v < 2 ^ 64 /\ decode v = Ok (Preparing 9).
Proof. exact (state_encode_decode (Preparing 9) ltac:(intros ts [H|H]; [injection H as <-; lia|discriminate])). Defined.
