(* ===== verification/MvccSpec.v ===== *)
(** Snapshot isolation, as an abstract transition system.

    A state keeps the version chains of the store and of each transaction what decides
    its fate: its phase, its begin timestamp, its write set, its commit dependencies, and
    two things the code does not keep: what it has read, and the history of the commits.
    The transitions are the effects that the operations of the store have on them: writes,
    the rollback of a savepoint ([undone]), the phases of a commit, the stamps of a checkpoint
    and the collection of versions, which may hand a row over to the B-tree.  The
    invariant of this file holds in every reachable state; it gives repeatable reads, that
    a transaction commits only on committed data, and first-committer-wins. *)

From stdpp Require Import base list gmap numbers.
From Stdlib Require Import ZArith Lia.
From S2P Require Import Prelude Mvcc.

(** * States *)

(** [Act] and [Prep] are before and after the end timestamp is drawn, [Val] is after
    validation, and [Com] is committed. *)
Inductive phase : Type := Act | Prep (e : Z) | Val (e : Z) | Com (e : Z).
Definition end_of (p : phase) : option Z := match p with Act => None | Prep e | Val e | Com e => Some e end.
Definition state_of (p : phase) : TransactionState :=
  match p with Act => Active | Prep e | Val e => Preparing e | Com e => Committed e end.
Definition pending (p : phase) : bool := match p with Com _ => false | _ => true end.

Record atx : Type := {
  x_phase : phase;
  x_begin : Z;
  x_ws : list RowID;
  x_abort : bool;
  x_deps : gset TxID;
  x_ctr : Z;
  x_reads : gmap RowID (option Row)
}.
Record commit_record : Type := { c_begin : Z; c_end : Z; c_rows : list RowID }.
Record astate : Type := {
  a_rows : gmap RowID (list RowVersion);
  a_txs : gmap TxID atx;
  a_clock : Z;
  a_next : TxID;
  a_hist : list commit_record
}.

Definition achain (a : astate) (r : RowID) : list RowVersion := default [] (a_rows a !! r).
Definition sig (a : astate) : gmap TxID TransactionState := state_of ∘ x_phase <$> a_txs a.

(** * Visibility and conflicts as functions of the transaction states *)

Definition vis_begin (s : gmap TxID TransactionState) (t : TxID) (b : Z) (rv : RowVersion) : bool :=
  match rv_begin rv with
  | Some (Timestamp n) => n <? b
  | Some (TxId u) =>
      match s !! u with
      | Some Active => (t =? u) && bool_decide (rv_end rv = None)
      | Some (Preparing n) | Some (Committed n) => n <? b
      | _ => false
      end
  | None => false
  end.
Definition vis_end (s : gmap TxID TransactionState) (t : TxID) (b : Z) (rv : RowVersion) : bool :=
  match rv_end rv with
  | Some (Timestamp n) => b <? n
  | Some (TxId u) =>
      match s !! u with
      | Some Active => negb (t =? u)
      | Some (Preparing n) | Some (Committed n) => b <? n
      | _ => true
      end
  | None => true
  end.
Definition vis (s : gmap TxID TransactionState) (t : TxID) (b : Z) (rv : RowVersion) : bool := vis_begin s t b rv && vis_end s t b rv.

(** The transactions in preparation on which the answer of [vis] depends. *)
Definition spec_begin (s : gmap TxID TransactionState) (b : Z) (rv : RowVersion) : option TxID :=
  match rv_begin rv with
  | Some (TxId u) => match s !! u with Some (Preparing e) => if e <? b then Some u else None | _ => None end
  | _ => None
  end.
Definition spec_end (s : gmap TxID TransactionState) (b : Z) (rv : RowVersion) : option TxID :=
  match rv_end rv with
  | Some (TxId u) => match s !! u with Some (Preparing e) => if b <? e then None else Some u | _ => None end
  | _ => None
  end.

Definition begin_conflict (s : gmap TxID TransactionState) (t : TxID) (e : Z) (rv : RowVersion) : bool :=
  match rv_begin rv with
  | Some (Timestamp _) => true
  | Some (TxId u) =>
      if u =? t then false
      else match s !! u with
           | Some (Committed _) | None => true
           | Some (Preparing e') => e' <? e
           | Some _ => false
           end
  | None => false
  end.
Definition conflict (s : gmap TxID TransactionState) (t : TxID) (b e : Z) (rv : RowVersion) : bool :=
  match rv_end rv with
  | Some (Timestamp n) => b <? n
  | Some (TxId u) =>
      if u =? t then false
      else match rv_begin rv, s !! u with
           | None, Some (Committed _) => true
           | None, Some (Preparing e') => e' <? e
           | None, _ => false
           | Some _, Some (Committed n) => b <? n
           | Some _, _ => begin_conflict s t e rv
           end
  | None => begin_conflict s t e rv
  end.

(** ** Settled reads *)

(** Transaction [t] is registered with every transaction on which it bets for [rv]. *)
Definition registered (a : astate) (t u : TxID) : Prop := exists y, a_txs a !! u = Some y /\ t ∈ x_deps y.
Definition settled (a : astate) (t : TxID) (b : Z) (rv : RowVersion) : Prop :=
  (forall u, spec_begin (sig a) b rv = Some u -> registered a t u) /\
  (forall u, vis_begin (sig a) t b rv = true -> spec_end (sig a) b rv = Some u -> registered a t u).
(** A search through the versions, newest first, ends with [found]. *)
Fixpoint finds (a : astate) (t : TxID) (b : Z) (versions : list RowVersion) (found : option RowVersion) : Prop :=
  match versions with
  | [] => found = None
  | rv :: rest => settled a t b rv /\ if vis (sig a) t b rv then found = Some rv else finds a t b rest found
  end.

(** * Transitions *)

Definition upd (a : astate) (t : TxID) (x : atx) : astate :=
  {| a_rows := a_rows a; a_txs := <[t := x]> (a_txs a); a_clock := a_clock a; a_next := a_next a; a_hist := a_hist a |}.
Definition set_arows (a : astate) (m : gmap RowID (list RowVersion)) : astate :=
  {| a_rows := m; a_txs := a_txs a; a_clock := a_clock a; a_next := a_next a; a_hist := a_hist a |}.
Definition set_atxs (a : astate) (m : gmap TxID atx) : astate :=
  {| a_rows := a_rows a; a_txs := m; a_clock := a_clock a; a_next := a_next a; a_hist := a_hist a |}.
Definition with_phase (p : phase) (x : atx) : atx :=
  {| x_phase := p; x_begin := x_begin x; x_ws := x_ws x; x_abort := x_abort x; x_deps := x_deps x; x_ctr := x_ctr x;
     x_reads := x_reads x |}.
Definition with_reads (m : gmap RowID (option Row)) (x : atx) : atx :=
  {| x_phase := x_phase x; x_begin := x_begin x; x_ws := x_ws x; x_abort := x_abort x; x_deps := x_deps x;
     x_ctr := x_ctr x; x_reads := m |}.
Definition with_dep (t : TxID) (x : atx) : atx :=
  {| x_phase := x_phase x; x_begin := x_begin x; x_ws := x_ws x; x_abort := x_abort x; x_deps := {[t]} ∪ x_deps x;
     x_ctr := x_ctr x; x_reads := x_reads x |}.
Definition bump (d : Z) (x : atx) : atx :=
  {| x_phase := x_phase x; x_begin := x_begin x; x_ws := x_ws x; x_abort := x_abort x; x_deps := x_deps x;
     x_ctr := wrap 64 (x_ctr x + d); x_reads := x_reads x |}.
Definition with_abort (x : atx) : atx :=
  {| x_phase := x_phase x; x_begin := x_begin x; x_ws := x_ws x; x_abort := true; x_deps := x_deps x;
     x_ctr := x_ctr x; x_reads := x_reads x |}.
(** A write of row [r]: the row is in the write set, and what was read of it is past. *)
Definition wrote (r : RowID) (x : atx) : atx :=
  {| x_phase := x_phase x; x_begin := x_begin x; x_ws := WriteSet_insert r (x_ws x); x_abort := x_abort x;
     x_deps := x_deps x; x_ctr := x_ctr x; x_reads := base.delete r (x_reads x) |}.
Definition with_ws (ws : list RowID) (x : atx) : atx :=
  {| x_phase := x_phase x; x_begin := x_begin x; x_ws := ws; x_abort := x_abort x; x_deps := x_deps x;
     x_ctr := x_ctr x; x_reads := x_reads x |}.
Definition atx_new (b : Z) : atx :=
  {| x_phase := Act; x_begin := b; x_ws := []; x_abort := false; x_deps := ∅; x_ctr := 0; x_reads := ∅ |}.

(** The transaction [t] leaves; [f] is what it tells the transactions that depend on it. *)
Definition leave (t : TxID) (f : atx -> atx) (deps : gset TxID) (m : gmap TxID atx) : gmap TxID atx :=
  base.delete t (foldr (fun d m => alter f d m) m (elements deps)).
Definition map_rows (f : RowVersion -> RowVersion) (ids : list RowID) (m : gmap RowID (list RowVersion)) :=
  foldr (fun id m => alter (map f) id m) m ids.
Definition no_refs (t : TxID) (a : astate) : Prop :=
  forall r v, v ∈ achain a r -> rv_begin v <> Some (TxId t) /\ rv_end v <> Some (TxId t).

(** The version refers to a transaction. *)
Definition refers (v : RowVersion) (u : TxID) : Prop := rv_begin v = Some (TxId u) \/ rv_end v = Some (TxId u).
(** The versions that transaction [t] has made, and those it has ended; a version that was
    withdrawn in between has no fields left. *)
Definition created_by (t : TxID) (v : RowVersion) : Prop :=
  rv_begin v = Some (TxId t) \/ rv_begin v = None /\ (rv_end v = Some (TxId t) \/ rv_end v = None).
Definition ended_by (t : TxID) (v : RowVersion) : Prop :=
  rv_end v = Some (TxId t) \/ rv_begin v = None /\ rv_end v = None.
(** A chain in which some versions that [t] has made are gone and some that it has ended live again. *)
Inductive undone (t : TxID) : list RowVersion -> list RowVersion -> Prop :=
| un_nil : undone t [] []
| un_keep v l l' : undone t l l' -> undone t (v :: l) (v :: l')
| un_drop v l l' : created_by t v -> undone t l l' -> undone t (v :: l) l'
| un_restore v l l' : ended_by t v -> undone t l l' -> undone t (v :: l) (set_end v None :: l').
(** A chain in which versions have new materialization stamps. *)
Definition restamped : list RowVersion -> list RowVersion -> Prop := Forall2 (fun v v' => exists pos, v' = set_materialized_at v pos).
(** The only version that a collection leaves is dropped too: its row is in the B-tree. *)
Definition leaves_for_btree (versions : list RowVersion) (lwm ckpt_max : Z) (passive : bool) (mark : WalPos) : bool :=
  let versions := List.filter (fun rv => negb (is_garbage rv)) versions in
  sole_survivor_removable lwm ckpt_max passive mark
    (List.filter (keep_superseded lwm ckpt_max passive mark (existsb is_current versions)) versions).
(** What was read of row [r] is to be read from the B-tree now. *)
Definition forget (r : RowID) (a : astate) : astate :=
  set_atxs a ((fun x => with_reads (base.delete r (x_reads x)) x) <$> a_txs a).

Inductive astep : astate -> astate -> Prop :=
| a_tick a c n : a_clock a <= c -> a_next a <= n ->
    astep a {| a_rows := a_rows a; a_txs := a_txs a; a_clock := c; a_next := n; a_hist := a_hist a |}
| a_begin a t : 1 <= t -> a_next a = t ->
    astep a {| a_rows := a_rows a; a_txs := <[t := atx_new (a_clock a)]> (a_txs a); a_clock := a_clock a + 1;
               a_next := t + 1; a_hist := a_hist a |}
| a_register a t x u y e :
    a_txs a !! t = Some x -> x_phase x = Act -> a_txs a !! u = Some y -> state_of (x_phase y) = Preparing e ->
    u <> t -> e < x_begin x -> t ∉ x_deps y ->
    astep a (set_atxs a (<[t := bump 1 x]> (<[u := with_dep t y]> (a_txs a))))
| a_read a t x r found :
    a_txs a !! t = Some x -> x_phase x = Act -> r ∉ x_ws x -> finds a t (x_begin x) (reverse (achain a r)) found ->
    astep a (upd a t (with_reads (<[r := row <$> found]> (x_reads x)) x))
| a_put a t x r l1 l2 v :
    a_txs a !! t = Some x -> x_phase x = Act -> achain a r = l1 ++ l2 ->
    (rv_begin v = Some (TxId t) /\ rv_end v = None \/ rv_begin v = None /\ rv_end v = Some (TxId t)) ->
    astep a (set_arows (upd a t (wrote r x)) (<[r := l1 ++ v :: l2]> (a_rows a)))
| a_end a t x r l1 l2 v :
    a_txs a !! t = Some x -> x_phase x = Act -> achain a r = l1 ++ v :: l2 -> rv_end v = None ->
    vis (sig a) t (x_begin x) v = true -> settled a t (x_begin x) v ->
    astep a (set_arows (upd a t (wrote r x)) (<[r := l1 ++ set_end v (Some (TxId t)) :: l2]> (a_rows a)))
| a_prepare a t x :
    a_txs a !! t = Some x -> x_phase x = Act ->
    astep a {| a_rows := a_rows a; a_txs := <[t := with_phase (Prep (a_clock a)) x]> (a_txs a);
               a_clock := a_clock a + 1; a_next := a_next a; a_hist := a_hist a |}
| a_validate a t x e :
    a_txs a !! t = Some x -> x_phase x = Prep e ->
    (forall r v, r ∈ x_ws x -> v ∈ achain a r -> conflict (sig a) t (x_begin x) e v = false) ->
    astep a (upd a t (with_phase (Val e) x))
| a_commit a t x e :
    a_txs a !! t = Some x -> x_phase x = Val e -> x_abort x = false -> x_ctr x = 0 ->
    astep a {| a_rows := a_rows a; a_txs := <[t := with_phase (Com e) x]> (a_txs a); a_clock := a_clock a;
               a_next := a_next a; a_hist := a_hist a ++ [{| c_begin := x_begin x; c_end := e; c_rows := x_ws x |}] |}
| a_rewrite a t x e ids :
    a_txs a !! t = Some x -> x_phase x = Com e -> NoDup ids ->
    astep a (set_arows a (map_rows (rewrite_txid_to_timestamp t e) ids (a_rows a)))
| a_finish a t x e :
    a_txs a !! t = Some x -> x_phase x = Com e -> no_refs t a ->
    astep a (set_atxs a (leave t (bump (-1)) (x_deps x) (a_txs a)))
| a_abort a t x :
    a_txs a !! t = Some x -> pending (x_phase x) = true ->
    astep a (set_atxs (set_arows a (map_rows (rollback_row_version t) (x_ws x) (a_rows a)))
                      (leave t (fun y => bump (-1) (with_abort y)) (x_deps x) (a_txs a)))
| a_gc a r lwm ckpt_max passive mark :
    (forall t x, a_txs a !! t = Some x -> pending (x_phase x) = true -> lwm <= x_begin x) ->
    astep a (set_arows (if leaves_for_btree (achain a r) lwm ckpt_max passive mark then forget r a else a)
                       (alter (fun vs => gc_version_chain vs lwm ckpt_max passive mark) r (a_rows a)))
| a_undo a t x ws m :
    a_txs a !! t = Some x -> x_phase x = Act -> ws `sublist_of` x_ws x ->
    (forall r, undone t (achain a r) (default [] (m !! r))) ->
    (forall r v, v ∈ default [] (m !! r) -> refers v t -> r ∈ ws) ->
    (forall r, r ∈ ws -> x_abort x = true \/ exists v, v ∈ default [] (m !! r) /\ refers v t) ->
    astep a (set_arows (upd a t (with_ws ws x)) m)
| a_stamp a m :
    (forall r, restamped (achain a r) (default [] (m !! r))) -> astep a (set_arows a m).

Definition ainit : astate := {| a_rows := ∅; a_txs := ∅; a_clock := 0; a_next := 1; a_hist := [] |}.

(** * The invariant *)

(** The time at which a field's transaction ends its life or has done so, and the time at
    which it has committed. *)
Definition time_of (s : gmap TxID TransactionState) (f : option TxTimestampOrID) : option Z :=
  match f with
  | Some (Timestamp n) => Some n
  | Some (TxId u) => match s !! u with Some (Preparing n) | Some (Committed n) => Some n | _ => None end
  | None => None
  end.
Definition ctime_of (s : gmap TxID TransactionState) (f : option TxTimestampOrID) : option Z :=
  match f with
  | Some (Timestamp n) => Some n
  | Some (TxId u) => match s !! u with Some (Committed n) => Some n | _ => None end
  | None => None
  end.
Definition stamped (v : RowVersion) (n : Z) : Prop := rv_begin v = Some (Timestamp n) \/ rv_end v = Some (Timestamp n).

(** A version is ended only by a transaction that has seen it. *)
Definition causal (a : astate) (v : RowVersion) : Prop :=
  (forall u y, rv_end v = Some (TxId u) -> a_txs a !! u = Some y ->
     rv_begin v = None \/ rv_begin v = Some (TxId u) \/
     (exists n, time_of (sig a) (rv_begin v) = Some n /\ n < x_begin y) /\
     (forall w, spec_begin (sig a) (x_begin y) v = Some w -> registered a u w)) /\
  (forall e, rv_end v = Some (Timestamp e) ->
     rv_begin v = None \/ exists n, ctime_of (sig a) (rv_begin v) = Some n /\ n <= e).

(** The version keeps a transaction that began at [b] from committing. *)
Definition mark_after (a : astate) (b : Z) (v : RowVersion) : Prop :=
  (exists n, ctime_of (sig a) (rv_begin v) = Some n /\ b < n) \/ (exists n, ctime_of (sig a) (rv_end v) = Some n /\ b < n).

Definition dependees (m : gmap TxID atx) (u : TxID) : gset TxID := dom (filter (fun kv => u ∈ x_deps kv.2) m).

Definition tx_ok (a : astate) (t : TxID) (x : atx) : Prop :=
  1 <= t < a_next a /\ 0 <= x_begin x < a_clock a /\
  (forall e, end_of (x_phase x) = Some e -> x_begin x < e < a_clock a) /\ NoDup (x_ws x).
Definition apart (x y : atx) : Prop :=
  x_begin x <> x_begin y /\
  forall e, end_of (x_phase y) = Some e -> x_begin x <> e /\ forall e', end_of (x_phase x) = Some e' -> e' <> e.
Definition dep_ok (a : astate) (w : TxID) (z : atx) (u : TxID) : Prop :=
  u <> w /\ u < a_next a /\
  exists e, end_of (x_phase z) = Some e /\
    forall y, a_txs a !! u = Some y -> e < x_begin y /\ pending (x_phase y) = true.
Definition reads_ok (a : astate) (t : TxID) (x : atx) (r : RowID) (v : option Row) : Prop :=
  r ∉ x_ws x /\
  (x_abort x = true \/ exists found, row <$> found = v /\ finds a t (x_begin x) (reverse (achain a r)) found).
Definition hist_ok (a : astate) (c : commit_record) : Prop :=
  c_begin c < c_end c < a_clock a /\
  forall t x, a_txs a !! t = Some x ->
    x_begin x <> c_end c /\
    (pending (x_phase x) = true -> forall r, r ∈ c_rows c -> x_begin x < c_end c ->
       exists v, v ∈ achain a r /\ mark_after a (x_begin x) v).
(** What validation has ruled out for a transaction. *)
Definition val_ok (a : astate) (t : TxID) (x : atx) (e : Z) : Prop :=
  (forall u y e' r, u <> t -> a_txs a !! u = Some y -> pending (x_phase y) = true -> end_of (x_phase y) = Some e' ->
     e' < e -> r ∈ x_ws x -> r ∈ x_ws y -> e' < x_begin x \/ x_abort y = true) /\
  (forall c r, c ∈ a_hist a -> r ∈ x_ws x -> r ∈ c_rows c ->
     c_end c < x_begin x \/ e < c_begin c \/ x_abort x = true).
Definition disjoint_commits (c1 c2 : commit_record) : Prop := c_end c1 < c_begin c2 \/ c_end c2 < c_begin c1.

(** The transactions. *)
Record inv_t (a : astate) : Prop := {
  i_next : 1 <= a_next a /\ 0 <= a_clock a;
  i_tx : forall t x, a_txs a !! t = Some x -> tx_ok a t x;
  i_apart : forall t x u y, a_txs a !! t = Some x -> a_txs a !! u = Some y -> t <> u -> apart x y;
  i_dep : forall w z u, a_txs a !! w = Some z -> u ∈ x_deps z -> dep_ok a w z u;
  i_ctr : forall t x, a_txs a !! t = Some x -> x_ctr x = wrap 64 (Z.of_nat (size (dependees (a_txs a) t)))
}.
(** The versions. *)
Record version_ok (a : astate) (r : RowID) (v : RowVersion) : Prop := {
  v_ref : forall u, refers v u -> exists y, a_txs a !! u = Some y /\ r ∈ x_ws y;
  v_stamp : forall n, stamped v n -> n < a_clock a /\ forall t x, a_txs a !! t = Some x -> x_begin x <> n;
  v_causal : causal a v
}.
Definition inv_r (a : astate) : Prop := forall r v, v ∈ achain a r -> version_ok a r v.
(** What the transactions have read and written. *)
Record inv_s (a : astate) : Prop := {
  i_mark : forall t x r, a_txs a !! t = Some x -> pending (x_phase x) = true -> r ∈ x_ws x ->
             x_abort x = true \/ exists v, v ∈ achain a r /\ refers v t;
  i_reads : forall t x r v, a_txs a !! t = Some x -> pending (x_phase x) = true -> x_reads x !! r = Some v ->
              reads_ok a t x r v;
  i_hist : forall c, c ∈ a_hist a -> hist_ok a c;
  i_val : forall t x e, a_txs a !! t = Some x -> x_phase x = Val e -> val_ok a t x e;
  i_fcw : forall i j c1 c2 r, i <> j -> a_hist a !! i = Some c1 -> a_hist a !! j = Some c2 ->
            r ∈ c_rows c1 -> r ∈ c_rows c2 -> disjoint_commits c1 c2
}.
Record inv (a : astate) : Prop := { inv_txs : inv_t a; inv_rows : inv_r a; inv_sets : inv_s a }.

(** * Lemmas on maps and chains *)

Lemma achain_set a r l r' :
  achain (set_arows a (<[r := l]> (a_rows a))) r' = if decide (r = r') then l else achain a r'.
Proof. unfold achain. cbn. case_decide as H; [subst; by rewrite lookup_insert_eq|by rewrite lookup_insert_ne]. Qed.
Lemma map_rows_lookup f ids m r :
  NoDup ids -> map_rows f ids m !! r = (if decide (r ∈ ids) then map f <$> m !! r else m !! r).
Proof.
  induction ids as [|id ids IH]; intros Hnd.
  - case_decide as H; [by apply not_elem_of_nil in H|done].
  - apply list.NoDup_cons in Hnd as [Hni Hnd]. specialize (IH Hnd).
    change (map_rows f (id :: ids) m) with (alter (map f) id (map_rows f ids m)). destruct (decide (id = r)) as [->|Hne].
    + rewrite lookup_alter_eq, IH, decide_False by done. by rewrite decide_True by left.
    + rewrite lookup_alter_ne, IH by done. repeat case_decide; set_solver.
Qed.
Lemma achain_map_rows a f ids r :
  NoDup ids -> achain (set_arows a (map_rows f ids (a_rows a))) r = (if decide (r ∈ ids) then map f (achain a r) else achain a r).
Proof.
  intros Hnd. unfold achain. cbn. rewrite map_rows_lookup by done. case_decide; [|done]. by destruct (a_rows a !! r).
Qed.
Lemma foldr_alter_lookup `{Countable K} {A} (f : A -> A) (ds : list K) (m : gmap K A) (u : K) :
  NoDup ds -> foldr (fun d m => alter f d m) m ds !! u = (if decide (u ∈ ds) then f <$> m !! u else m !! u).
Proof.
  induction ds as [|d ds IH]; intros Hnd; cbn [foldr].
  - case_decide as Hin; [by apply not_elem_of_nil in Hin|done].
  - apply list.NoDup_cons in Hnd as [Hni Hnd]. specialize (IH Hnd). destruct (decide (d = u)) as [->|Hne].
    + rewrite lookup_alter_eq, IH, decide_False by done. by rewrite decide_True by left.
    + rewrite lookup_alter_ne, IH by done. repeat case_decide; set_solver.
Qed.
Lemma leave_lookup t f deps m u :
  leave t f deps m !! u = (if decide (u = t) then None else if decide (u ∈ deps) then f <$> m !! u else m !! u).
Proof.
  unfold leave. case_decide as H; [subst; apply lookup_delete_eq|]. rewrite lookup_delete_ne, foldr_alter_lookup by
    (done || apply NoDup_elements). repeat case_decide; set_solver.
Qed.

(** * How a reader's view evolves *)

(** Between two states, the search of reader [t] in a chain (newest first) keeps its
    answer: versions stay as they are seen, invisible ones come, unseen ones go. *)
Definition kept (a a' : astate) (t : TxID) (b : Z) (v v' : RowVersion) : Prop :=
  row v' = row v /\ (settled a t b v -> vis (sig a') t b v' = vis (sig a) t b v /\ settled a' t b v').
Inductive evolves (a a' : astate) (t : TxID) (b : Z) : list RowVersion -> list RowVersion -> Prop :=
| ev_nil : evolves a a' t b [] []
| ev_keep v v' l l' : kept a a' t b v v' -> evolves a a' t b l l' -> evolves a a' t b (v :: l) (v' :: l')
| ev_add v' l l' : vis (sig a') t b v' = false -> settled a' t b v' -> evolves a a' t b l l' -> evolves a a' t b l (v' :: l')
| ev_drop v l l' : (settled a t b v -> vis (sig a) t b v = false) -> evolves a a' t b l l' -> evolves a a' t b (v :: l) l'.

Lemma finds_evolves a a' t b l l' found :
  evolves a a' t b l l' -> finds a t b l found -> exists found', row <$> found' = row <$> found /\ finds a' t b l' found'.
Proof.
  intros He. revert found. induction He as [|v v' l l' [Hrow Hk] _ IH|v' l l' Hv Hs _ IH|v l l' Hv _ IH]; intros found Hf.
  - cbn in Hf. subst. by exists None.
  - destruct Hf as [Hs Hf]. destruct (Hk Hs) as [Hvis Hs']. cbn [finds]. rewrite Hvis. destruct (vis (sig a) t b v).
    + subst. exists (Some v'). cbn. by rewrite Hrow.
    + destruct (IH _ Hf) as (found' & Hr & Hf'). eauto.
  - destruct (IH _ Hf) as (found' & Hr & Hf'). exists found'. cbn [finds]. by rewrite Hv.
  - destruct Hf as [Hs Hf]. rewrite (Hv Hs) in Hf. by apply IH.
Qed.
Lemma evolves_app a a' t b l1 l1' l2 l2' :
  evolves a a' t b l1 l1' -> evolves a a' t b l2 l2' -> evolves a a' t b (l1 ++ l2) (l1' ++ l2').
Proof. induction 1; cbn; eauto using ev_keep, ev_add, ev_drop. Qed.
Lemma evolves_reverse a a' t b l l' : evolves a a' t b l l' -> evolves a a' t b (reverse l) (reverse l').
Proof.
  induction 1; [by constructor|..]; rewrite ?reverse_cons.
  - apply evolves_app; [done|]. by apply ev_keep; [|constructor].
  - rewrite <- (app_nil_r (reverse l)). apply evolves_app; [done|]. by apply ev_add; [..|constructor].
  - rewrite <- (app_nil_r (reverse l')). apply evolves_app; [done|]. by apply ev_drop; [|constructor].
Qed.
Lemma evolves_map a a' t b (f : RowVersion -> RowVersion) l :
  (forall v, v ∈ l -> kept a a' t b v (f v)) -> evolves a a' t b l (map f l).
Proof.
  induction l as [|v l IH]; intros H; cbn; constructor; [apply H; by left|]. apply IH. intros. apply H. by right.
Qed.
Lemma evolves_same a a' t b l : (forall v, v ∈ l -> kept a a' t b v v) -> evolves a a' t b l l.
Proof. intros H. rewrite <- (map_id l) at 2. by apply evolves_map. Qed.

(** Field by field: what [kept] asks. *)
Lemma kept_fields a a' t b v v' :
  row v' = row v ->
  (settled a t b v ->
   vis_begin (sig a') t b v' = vis_begin (sig a) t b v /\
   (vis_begin (sig a) t b v = true -> vis_end (sig a') t b v' = vis_end (sig a) t b v) /\
   (forall w, spec_begin (sig a') b v' = Some w -> registered a' t w) /\
   (forall w, vis_begin (sig a) t b v = true -> spec_end (sig a') b v' = Some w -> registered a' t w)) ->
  kept a a' t b v v'.
Proof.
  intros Hr H. split; [done|]. intros Hs. destruct (H Hs) as (Hb & He & Hsb & Hse). split.
  - unfold vis. rewrite Hb. destruct (vis_begin (sig a) t b v); [|done]. by rewrite He.
  - split; [done|]. rewrite Hb. eauto.
Qed.
(** A version whose transactions have not changed. *)
Lemma kept_same a a' t b v v' :
  row v' = row v -> rv_begin v' = rv_begin v -> rv_end v' = rv_end v ->
  (forall u, refers v u -> sig a' !! u = sig a !! u) -> (forall u, refers v u -> registered a t u -> registered a' t u) ->
  kept a a' t b v v'.
Proof.
  intros Hr Hb He Hsig Hreg. apply kept_fields; [done|]. intros [Hs1 Hs2].
  assert (Hvb : vis_begin (sig a') t b v' = vis_begin (sig a) t b v).
  { unfold vis_begin. rewrite Hb, He. destruct (rv_begin v) as [[n|u]|] eqn:E; try done. rewrite Hsig; [done|by left]. }
  assert (Hve : vis_end (sig a') t b v' = vis_end (sig a) t b v).
  { unfold vis_end. rewrite He. destruct (rv_end v) as [[n|u]|] eqn:E; try done. rewrite Hsig; [done|by right]. }
  assert (Hsb : forall w, spec_begin (sig a') b v' = Some w -> spec_begin (sig a) b v = Some w /\ refers v w).
  { unfold spec_begin. rewrite Hb. intros w. destruct (rv_begin v) as [[n|u]|] eqn:E; try done. rewrite Hsig by (by left).
    repeat case_match; intros; simplify_eq. split; [done|]. by left. }
  assert (Hse : forall w, spec_end (sig a') b v' = Some w -> spec_end (sig a) b v = Some w /\ refers v w).
  { unfold spec_end. rewrite He. intros w. destruct (rv_end v) as [[n|u]|] eqn:E; try done. rewrite Hsig by (by right).
    repeat case_match; intros; simplify_eq. split; [done|]. by right. }
  split_and!; [done|done| |].
  - intros w Hw. destruct (Hsb w Hw). eauto.
  - intros w Hv Hw. destruct (Hse w Hw). eauto.
Qed.

(** * Versions whose transactions have not changed *)

Lemma time_of_ext s s' v f :
  f = rv_begin v \/ f = rv_end v -> (forall u, refers v u -> s' !! u = s !! u) -> time_of s' f = time_of s f.
Proof.
  intros Hf H. destruct f as [[n|u]|]; try done. cbn. rewrite (H u); [done|]. unfold refers.
  destruct Hf as [<-|<-]; auto.
Qed.
Lemma ctime_of_ext s s' v f :
  f = rv_begin v \/ f = rv_end v -> (forall u, refers v u -> s' !! u = s !! u) -> ctime_of s' f = ctime_of s f.
Proof.
  intros Hf H. destruct f as [[n|u]|]; try done. cbn. rewrite (H u); [done|]. unfold refers.
  destruct Hf as [<-|<-]; auto.
Qed.
Lemma spec_begin_ext s s' b v :
  (forall u, refers v u -> s' !! u = s !! u) -> spec_begin s' b v = spec_begin s b v.
Proof. intros H. unfold spec_begin. destruct (rv_begin v) as [[n|u]|] eqn:E; try done. rewrite H; [done|by left]. Qed.
Lemma spec_begin_refers s b v w : spec_begin s b v = Some w -> refers v w.
Proof. unfold spec_begin, refers. repeat case_match; naive_solver. Qed.
Lemma mark_after_ext a a' b v :
  (forall u, refers v u -> sig a' !! u = sig a !! u) -> mark_after a b v -> mark_after a' b v.
Proof.
  intros H. unfold mark_after. rewrite (ctime_of_ext (sig a) (sig a') v (rv_begin v)), (ctime_of_ext (sig a) (sig a') v (rv_end v)) by auto.
  done.
Qed.
Lemma causal_ext a a' v :
  (forall u, refers v u -> sig a' !! u = sig a !! u) ->
  (forall u y', refers v u -> a_txs a' !! u = Some y' -> exists y, a_txs a !! u = Some y /\ x_begin y' = x_begin y) ->
  (forall t u, refers v t -> refers v u -> registered a t u -> registered a' t u) -> causal a v -> causal a' v.
Proof.
  intros Hsig Hb Hreg [H1 H2]. split.
  - intros u y' He Hy'. destruct (Hb u y') as (y & Hy & Hbe); [by right|done|]. rewrite Hbe.
    destruct (H1 u y He Hy) as [|[|[(n & Hn & Hlt) Hw]]]; [auto..|]. right; right.
    rewrite (time_of_ext (sig a) (sig a') v) by auto. split; [eauto|].
    intros w. rewrite (spec_begin_ext (sig a)) by done. intros Hs. apply Hreg; [by right|by eapply spec_begin_refers|]. auto.
  - intros e He. destruct (H2 e He) as [|(n & Hn & Hle)]; [auto|]. right. exists n.
    by rewrite (ctime_of_ext (sig a) (sig a') v) by auto.
Qed.
Lemma sig_lookup a u : sig a !! u = state_of ∘ x_phase <$> a_txs a !! u.
Proof. unfold sig. by rewrite lookup_fmap. Qed.


(** * Transitions that keep phases, write sets and chains *)

Record sim (x x' : atx) : Prop := {
  sim_phase : x_phase x' = x_phase x;
  sim_begin : x_begin x' = x_begin x;
  sim_ws : x_ws x' = x_ws x;
  sim_abort : x_abort x = true -> x_abort x' = true
}.
Definition sims (m m' : gmap TxID atx) : Prop :=
  forall u, match m !! u, m' !! u with Some x, Some x' => sim x x' | None, None => True | _, _ => False end.

Section sims.
Context (a a' : astate) (Hs : sims (a_txs a) (a_txs a')).

Lemma sims_sig : sig a' = sig a.
Proof.
  apply map_eq. intros u. unfold sig. rewrite !lookup_fmap. specialize (Hs u).
  destruct (a_txs a !! u) as [x|], (a_txs a' !! u) as [x'|]; try done. cbn. by rewrite (sim_phase _ _ Hs).
Qed.
Lemma sims_back u x' : a_txs a' !! u = Some x' -> exists x, a_txs a !! u = Some x /\ sim x x'.
Proof. intros H. specialize (Hs u). rewrite H in Hs. destruct (a_txs a !! u); [eauto|done]. Qed.
Lemma sims_fwd u x : a_txs a !! u = Some x -> exists x', a_txs a' !! u = Some x' /\ sim x x'.
Proof. intros H. specialize (Hs u). rewrite H in Hs. destruct (a_txs a' !! u); [eauto|done]. Qed.
End sims.

Lemma elem_of_dependees m u w : w ∈ dependees m u <-> exists z, m !! w = Some z /\ u ∈ x_deps z.
Proof.
  unfold dependees. rewrite elem_of_dom. split.
  - intros [z [H1 H2]%map_lookup_filter_Some]. eauto.
  - intros (z & H1 & H2). exists z. by apply map_lookup_filter_Some.
Qed.
Lemma dependees_same m m' u :
  (forall w, match m !! w, m' !! w with Some x, Some x' => u ∈ x_deps x <-> u ∈ x_deps x' | None, None => True | _, _ => False end) ->
  dependees m' u = dependees m u.
Proof.
  intros H. apply set_eq. intros w. rewrite !elem_of_dependees. specialize (H w).
  split; intros (z & Hz & Hu); rewrite Hz in H; [destruct (m !! w)|destruct (m' !! w)]; naive_solver.
Qed.
Lemma registered_dependees a t u : registered a t u <-> u ∈ dependees (a_txs a) t.
Proof. by rewrite elem_of_dependees. Qed.

Lemma reads_ok_evolves a a' t x x' r v :
  reads_ok a t x r v -> r ∉ x_ws x' -> x_begin x' = x_begin x ->
  (x_abort x = true -> x_abort x' = true) ->
  x_abort x' = true \/ evolves a a' t (x_begin x) (achain a r) (achain a' r) ->
  reads_ok a' t x' r v.
Proof.
  intros [_ Hf] Hw Hb Hab He. split; [done|]. destruct He as [|He]; [by left|]. destruct Hf as [|(found & Hrow & Hf)]; [auto|].
  right. rewrite Hb. destruct (finds_evolves _ _ _ _ _ _ _ (evolves_reverse _ _ _ _ _ _ He) Hf) as (found' & Hr & Hf').
  exists found'. by rewrite Hr.
Qed.
Lemma reads_ok_sim a a' t x x' r v :
  sims (a_txs a) (a_txs a') -> a_rows a' = a_rows a -> (forall t u, registered a t u -> registered a' t u) ->
  sim x x' -> reads_ok a t x r v -> reads_ok a' t x' r v.
Proof.
  intros Hs Hrows Hreg [Hp Hb Hw Hab] Hr. eapply reads_ok_evolves; [done|by rewrite Hw; destruct Hr|done|done|].
  right. unfold achain. rewrite Hrows. apply evolves_same. intros v' _. apply kept_same; auto. by rewrite (sims_sig _ _ Hs).
Qed.
Lemma dep_ok_sim a a' w z z' u :
  sims (a_txs a) (a_txs a') -> a_next a <= a_next a' -> sim z z' -> dep_ok a w z u -> dep_ok a' w z' u.
Proof.
  intros Hs Hn [Hp _ _ _] (H1 & H2 & e & He & H3). split_and!; [done|lia|]. exists e. rewrite Hp. split; [done|].
  intros y' (y & Hy & [Hp' Hb' _ _])%(sims_back _ _ Hs). rewrite Hp', Hb'. auto.
Qed.

Lemma sim_refl x : sim x x.
Proof. by split. Qed.
Lemma sims_refl m : sims m m.
Proof. intros u. destruct (m !! u); [apply sim_refl|done]. Qed.
Lemma sims_insert m m' t x x' : sims m m' -> m !! t = Some x -> sim x x' -> sims m (<[t := x']> m').
Proof.
  intros H Hx Hsim u. destruct (decide (u = t)) as [->|]; [by rewrite Hx, lookup_insert_eq|].
  rewrite lookup_insert_ne by done. apply H.
Qed.


(** A version keeps its good standing when its transactions do. *)
Lemma version_ok_ext a a' r v v' :
  version_ok a r v -> rv_begin v' = rv_begin v -> rv_end v' = rv_end v -> a_clock a <= a_clock a' ->
  (forall u y, refers v u -> a_txs a !! u = Some y ->
     exists y', a_txs a' !! u = Some y' /\ x_begin y' = x_begin y /\ state_of (x_phase y') = state_of (x_phase y) /\
                (r ∈ x_ws y -> r ∈ x_ws y')) ->
  (forall t x', a_txs a' !! t = Some x' -> a_clock a <= x_begin x' \/ exists x, a_txs a !! t = Some x /\ x_begin x' = x_begin x) ->
  (forall t u, refers v t -> refers v u -> registered a t u -> registered a' t u) ->
  version_ok a' r v'.
Proof.
  intros [Hr Hs Hc] Hb He Hcl Hfwd Hback Hreg.
  assert (Href : forall u, refers v' u <-> refers v u) by (intros u; unfold refers; by rewrite Hb, He).
  assert (Hst : forall n, stamped v' n <-> stamped v n) by (intros n; unfold stamped; by rewrite Hb, He).
  assert (Hsig : forall u, refers v u -> sig a' !! u = sig a !! u).
  { intros u Hu. destruct (Hr u Hu) as (y & Hy & _). destruct (Hfwd u y Hu Hy) as (y' & Hy' & _ & Hp & _).
    rewrite !sig_lookup, Hy, Hy'. cbn. by rewrite Hp. }
  split.
  - intros u. rewrite Href. intros Hu. destruct (Hr u Hu) as (y & Hy & Hw).
    destruct (Hfwd u y Hu Hy) as (y' & Hy' & _ & _ & Hw'). eauto.
  - intros n. rewrite Hst. intros Hn. destruct (Hs n Hn) as [Hlt Hne]. split; [lia|].
    intros t x' Hx'. destruct (Hback t x' Hx') as [|(x & Hx & ->)]; [lia|]. eauto.
  - assert (Hc' : causal a' v).
    { apply causal_ext with a; try done. intros u y' Hu Hy'. destruct (Hr u Hu) as (y & Hy & _).
      destruct (Hfwd u y Hu Hy) as (y2 & Hy2 & Hbe & _). rewrite Hy' in Hy2. injection Hy2 as <-. eauto. }
    assert (Hsb : forall s b, spec_begin s b v' = spec_begin s b v) by (intros; unfold spec_begin; by rewrite Hb).
    destruct Hc' as [H1 H2]. split; rewrite Hb, He; [|done]. intros u y Hu Hy. rewrite Hsb. eauto.
Qed.

Lemma inv_t_phases a a' :
  inv_t a -> a_clock a <= a_clock a' -> a_next a <= a_next a' ->
  (forall t x', a_txs a' !! t = Some x' -> exists x, a_txs a !! t = Some x /\ x_phase x' = x_phase x /\ x_begin x' = x_begin x) ->
  (forall t x', a_txs a' !! t = Some x' -> NoDup (x_ws x')) ->
  (forall w z u, a_txs a' !! w = Some z -> u ∈ x_deps z -> dep_ok a' w z u) ->
  (forall t x, a_txs a' !! t = Some x -> x_ctr x = wrap 64 (Z.of_nat (size (dependees (a_txs a') t)))) ->
  inv_t a'.
Proof.
  intros [] Hc Hn Hback Hnd Hdep Hctr. split; try done.
  - lia.
  - intros t x' Hx'. destruct (Hback _ _ Hx') as (x & Hx & Hp & Hb). destruct (i_tx0 _ _ Hx) as (? & ? & He & ?).
    unfold tx_ok. rewrite Hp, Hb. split_and!; [lia..| |eauto]. intros e Hee. specialize (He e Hee). lia.
  - intros t x' u y' (x & Hx & Hp & Hb)%Hback (y & Hy & Hp' & Hb')%Hback Hne. unfold apart.
    rewrite Hp, Hb, Hp', Hb'. exact (i_apart0 _ _ _ _ Hx Hy Hne).
Qed.

Section inv_sims.
Context (a a' : astate) (Hs : sims (a_txs a) (a_txs a')) (Hrows : a_rows a' = a_rows a).
Context (Hc : a_clock a <= a_clock a') (Hn : a_next a <= a_next a').
Context (Hreg : forall t u, registered a t u -> registered a' t u).

Lemma sims_chain r : achain a' r = achain a r.
Proof. unfold achain. by rewrite Hrows. Qed.
Lemma inv_t_sims :
  inv_t a ->
  (forall w z u, a_txs a' !! w = Some z -> u ∈ x_deps z -> dep_ok a' w z u) ->
  (forall t x, a_txs a' !! t = Some x -> x_ctr x = wrap 64 (Z.of_nat (size (dependees (a_txs a') t)))) ->
  inv_t a'.
Proof.
  intros Ht Hdep Hctr. apply (inv_t_phases a a'); try done.
  - intros t x' (x & Hx & [Hp Hb _ _])%(sims_back _ _ Hs). eauto.
  - intros t x' (x & Hx & [_ _ Hw _])%(sims_back _ _ Hs). rewrite Hw. by destruct (i_tx _ Ht _ _ Hx) as (_ & _ & _ & ?).
Qed.
Lemma inv_r_sims : inv_r a -> inv_r a'.
Proof.
  intros H r v. rewrite sims_chain. intros Hv. apply version_ok_ext with a v; auto.
  - intros u y _ Hy. destruct (sims_fwd _ _ Hs _ _ Hy) as (y' & Hy' & [Hp Hb Hw _]). exists y'. by rewrite Hp, Hb, Hw.
  - intros t x' (x & Hx & [_ Hb _ _])%(sims_back _ _ Hs). right. eauto.
Qed.
Lemma inv_s_sims :
  inv_s a -> a_hist a' = a_hist a ->
  (forall t x x' r v, a_txs a !! t = Some x -> a_txs a' !! t = Some x' -> x_reads x' !! r = Some v ->
     x_reads x !! r = Some v \/ reads_ok a t x r v) ->
  inv_s a'.
Proof.
  intros [] Hhist Hreads. assert (Hback := sims_back _ _ Hs). assert (Hsig := sims_sig _ _ Hs). split.
  - intros t x' r (x & Hx & [Hp _ Hw Hab])%Hback. rewrite Hp, Hw, sims_chain. intros Hpe Hr.
    destruct (i_mark0 _ _ _ Hx Hpe Hr); auto.
  - intros t x' r v Hx' Hp Hr. destruct (Hback _ _ Hx') as (x & Hx & Hsim). eapply reads_ok_sim with (a := a); [done..|].
    rewrite (sim_phase _ _ Hsim) in Hp. destruct (Hreads _ _ _ _ _ Hx Hx' Hr); eauto.
  - rewrite Hhist. intros c Hcin. destruct (i_hist0 _ Hcin) as [? H2]. split; [lia|].
    intros t x' (x & Hx & [Hp Hb _ _])%Hback. rewrite Hp, Hb. destruct (H2 _ _ Hx) as [? H3]. split; [done|].
    intros. rewrite sims_chain. unfold mark_after. rewrite Hsig. eauto.
  - intros t x' e (x & Hx & [Hp Hb Hw Hab])%Hback. rewrite Hp. intros He. destruct (i_val0 _ _ _ Hx He) as [H1 H2].
    split; rewrite ?Hb, ?Hw.
    + intros u y' e' r Hne (y & Hy & [Hp' Hb' Hw' Hab'])%Hback. rewrite Hp', Hw'. intros. destruct (H1 u y e' r); auto.
    + rewrite Hhist. intros c r ? ? ?. destruct (H2 c r) as [|[|]]; auto.
  - by rewrite Hhist.
Qed.
End inv_sims.

Lemma inv_tick a c n :
  inv a -> a_clock a <= c -> a_next a <= n ->
  inv {| a_rows := a_rows a; a_txs := a_txs a; a_clock := c; a_next := n; a_hist := a_hist a |}.
Proof.
  intros [Ht Hr Hss] Hc Hn. set (a' := Build_astate _ _ _ _ _).
  assert (Hs : sims (a_txs a) (a_txs a')) by apply sims_refl. split.
  - apply (inv_t_sims a a'); try done; [|apply (i_ctr _ Ht)]. intros w z u Hz Hu.
    eapply dep_ok_sim with (a := a); [done|done|apply sim_refl|by eapply i_dep].
  - by apply (inv_r_sims a a').
  - apply (inv_s_sims a a'); try done. cbn. intros. simplify_eq. auto.
Qed.

Lemma inv_read a t x r found :
  inv a -> a_txs a !! t = Some x -> x_phase x = Act -> r ∉ x_ws x ->
  finds a t (x_begin x) (reverse (achain a r)) found ->
  inv (upd a t (with_reads (<[r := row <$> found]> (x_reads x)) x)).
Proof.
  intros [Ht Hr Hss] Hx Hp Hw Hf. set (x' := with_reads _ x). set (a' := upd a t x').
  assert (Hs : sims (a_txs a) (a_txs a')) by (by eapply sims_insert; [apply sims_refl|done|split]).
  assert (Hdeps : forall u, dependees (a_txs a') u = dependees (a_txs a) u).
  { intros u. apply dependees_same. intros w. cbn. destruct (decide (w = t)) as [->|].
    - by rewrite Hx, lookup_insert_eq.
    - rewrite lookup_insert_ne by done. by destruct (a_txs a !! w). }
  assert (Hreg : forall t' u, registered a t' u -> registered a' t' u) by (intros t' u; by rewrite !registered_dependees, Hdeps).
  assert (Hsame : forall u y', a_txs a' !! u = Some y' -> exists y, a_txs a !! u = Some y /\ sim y y' /\ x_deps y' = x_deps y /\ x_ctr y' = x_ctr y).
  { intros u y'. cbn. destruct (decide (u = t)) as [->|]; [rewrite lookup_insert_eq|rewrite lookup_insert_ne by done].
    - intros [= <-]. by exists x.
    - intros H. exists y'. split_and!; done. }
  split.
  - apply (inv_t_sims a a'); try done.
    + intros w z u (z0 & Hz & Hsz & Hd & _)%Hsame. rewrite Hd. intros Hu. eapply dep_ok_sim with (a := a); [done..|]. by eapply i_dep.
    + intros u y' (y & Hy & _ & _ & Hc)%Hsame. by rewrite Hc, Hdeps, (i_ctr _ Ht _ _ Hy).
  - by apply (inv_r_sims a a').
  - apply (inv_s_sims a a'); try done. cbn. intros u y y' r' v Hy Hy' Hrd. destruct (decide (u = t)) as [->|].
    + rewrite lookup_insert_eq in Hy'. injection Hy' as <-. rewrite Hx in Hy. injection Hy as <-. cbn in Hrd.
      destruct (decide (r = r')) as [<-|]; [|rewrite lookup_insert_ne in Hrd by done; auto].
      rewrite lookup_insert_eq in Hrd. injection Hrd as <-. right. split; [done|]. eauto.
    + rewrite lookup_insert_ne in Hy' by done. simplify_eq. auto.
Qed.

Lemma dependees_register a t x u y :
  a_txs a !! t = Some x -> a_txs a !! u = Some y -> u <> t ->
  dependees (<[t := bump 1 x]> (<[u := with_dep t y]> (a_txs a))) t = {[u]} ∪ dependees (a_txs a) t /\
  forall t', t' <> t -> dependees (<[t := bump 1 x]> (<[u := with_dep t y]> (a_txs a))) t' = dependees (a_txs a) t'.
Proof.
  intros Hx Hy Hne. split.
  - apply set_eq. intros w. rewrite elem_of_union, elem_of_singleton, !elem_of_dependees.
    destruct (decide (w = t)) as [->|]; [rewrite lookup_insert_eq|rewrite lookup_insert_ne by done].
    + rewrite Hx. split.
      * intros (z & [= <-] & Hz). right. eauto.
      * intros [->|(z & [= <-] & Hz)]; [done|]. by exists (bump 1 x).
    + destruct (decide (w = u)) as [->|]; [rewrite lookup_insert_eq|rewrite lookup_insert_ne by done]; [|naive_solver].
      split; [by left|]. intros _. eexists. split; [done|]. cbn. set_solver.
  - intros t' Hne'. apply dependees_same. intros w.
    destruct (decide (w = t)) as [->|]; [by rewrite lookup_insert_eq, Hx|rewrite lookup_insert_ne by done].
    destruct (decide (w = u)) as [->|]; [rewrite lookup_insert_eq, Hy; cbn; set_solver|rewrite lookup_insert_ne by done].
    by destruct (a_txs a !! w).
Qed.

Lemma wrap_succ w n d : wrap w (wrap w n + d) = wrap w (n + d).
Proof. unfold wrap. by rewrite Zplus_mod_idemp_l. Qed.

Lemma inv_register a t x u y e :
  inv a -> a_txs a !! t = Some x -> x_phase x = Act -> a_txs a !! u = Some y -> state_of (x_phase y) = Preparing e ->
  u <> t -> e < x_begin x -> t ∉ x_deps y ->
  inv (set_atxs a (<[t := bump 1 x]> (<[u := with_dep t y]> (a_txs a)))).
Proof.
  intros [Ht Hr Hss] Hx Hp Hy Hpy Hne He Hnew. set (a' := set_atxs a _).
  destruct (dependees_register a t x u y Hx Hy Hne) as [Hdt Hdo]. change (<[t := _]> _) with (a_txs a') in Hdt, Hdo.
  assert (Hs : sims (a_txs a) (a_txs a')).
  { eapply sims_insert; [|done|by split]. by eapply sims_insert; [apply sims_refl|done|split]. }
  assert (Hreg : forall t' w, registered a t' w -> registered a' t' w).
  { intros t' w. rewrite !registered_dependees. destruct (decide (t' = t)) as [->|]; [rewrite Hdt|rewrite Hdo by done]; set_solver. }
  assert (Hend : end_of (x_phase y) = Some e) by (destruct (x_phase y); cbn in Hpy |- *; congruence).
  assert (Hz : forall w z, a_txs a' !! w = Some z -> exists z0, a_txs a !! w = Some z0 /\ sim z0 z /\
            x_reads z = x_reads z0 /\ x_ctr z = (if decide (w = t) then wrap 64 (x_ctr z0 + 1) else x_ctr z0) /\
            forall t', t' ∈ x_deps z -> t' ∈ x_deps z0 \/ w = u /\ t' = t).
  { intros w z. cbn. destruct (decide (w = t)) as [->|]; [rewrite lookup_insert_eq|rewrite lookup_insert_ne by done].
    - intros [= <-]. exists x. split_and!; try done. auto.
    - destruct (decide (w = u)) as [->|]; [rewrite lookup_insert_eq|rewrite lookup_insert_ne by done].
      + intros [= <-]. exists y. split_and!; try done. cbn. set_solver.
      + intros H. exists z. split_and!; try done. auto. }
  split.
  - apply (inv_t_sims a a'); try done.
    + intros w z t' (z0 & Hz0 & Hsim & _ & _ & Hd)%Hz Ht'. eapply dep_ok_sim with (a := a); [done..|].
      destruct (Hd _ Ht') as [|[-> ->]]; [by eapply i_dep|]. rewrite Hy in Hz0. injection Hz0 as <-.
      destruct (i_tx _ Ht _ _ Hx) as (? & _). split_and!; [done|lia|]. exists e. split; [done|].
      intros x0 Hx0. rewrite Hx in Hx0. injection Hx0 as <-. by rewrite Hp.
    + intros w z (z0 & Hz0 & _ & _ & Hc & _)%Hz. rewrite Hc, (i_ctr _ Ht _ _ Hz0). case_decide as Hw; [|by rewrite Hdo].
      subst w. rewrite Hdt, size_union, size_singleton, wrap_succ by
        (rewrite disjoint_singleton_l, elem_of_dependees; intros (? & ? & ?); naive_solver). f_equal. lia.
  - by apply (inv_r_sims a a').
  - apply (inv_s_sims a a'); try done. intros w z0 z r v Hz0 (z1 & Hz1 & _ & Hrd & _)%Hz. rewrite Hrd. simplify_eq. auto.
Qed.

(** * Beginning *)

Section begin.
Context (a : astate) (Ht : inv_t a) (Hr : inv_r a) (Hss : inv_s a).
Let t := a_next a.
Let x := atx_new (a_clock a).
Let a' := {| a_rows := a_rows a; a_txs := <[t := x]> (a_txs a); a_clock := a_clock a + 1; a_next := t + 1; a_hist := a_hist a |}.

Lemma begin_fresh : a_txs a !! t = None.
Proof. destruct (a_txs a !! t) as [y|] eqn:E; [|done]. destruct (i_tx _ Ht _ _ E) as [? _]. unfold t in *. lia. Qed.
Lemma begin_old u y : a_txs a' !! u = Some y -> (u = t /\ y = x) \/ (u <> t /\ a_txs a !! u = Some y).
Proof.
  cbn. destruct (decide (u = t)) as [->|]; [rewrite lookup_insert_eq|rewrite lookup_insert_ne by done]; [|auto].
  intros [= <-]. auto.
Qed.
Lemma begin_keep u y : a_txs a !! u = Some y -> a_txs a' !! u = Some y.
Proof. intros H. cbn. rewrite lookup_insert_ne; [done|]. intros <-. by rewrite begin_fresh in H. Qed.
Lemma begin_later u y : a_txs a !! u = Some y -> x_begin y < a_clock a /\ forall e, end_of (x_phase y) = Some e -> e < a_clock a.
Proof. intros Hy. destruct (i_tx _ Ht _ _ Hy) as (_ & ? & He & _). split; [lia|]. intros e Hee. destruct (He e Hee). lia. Qed.
Lemma begin_dependees u : dependees (a_txs a') u = dependees (a_txs a) u.
Proof.
  apply set_eq. intros w. rewrite !elem_of_dependees. split.
  - intros (z & [[-> ->]|[? Hz]]%begin_old & Hu); [cbn in Hu; set_solver|eauto].
  - intros (z & Hz & Hu). exists z. split; [|done]. by apply begin_keep.
Qed.
Lemma begin_registered t' u : registered a t' u -> registered a' t' u.
Proof. by rewrite !registered_dependees, begin_dependees. Qed.
Lemma begin_sig r v u : v ∈ achain a r -> refers v u -> sig a' !! u = sig a !! u.
Proof.
  intros Hv Hu. destruct (v_ref _ _ _ (Hr _ _ Hv) _ Hu) as (y & Hy & _). by rewrite !sig_lookup, Hy, (begin_keep _ _ Hy).
Qed.

Lemma begin_inv_t : inv_t a'.
Proof.
  pose proof Ht as []. split.
  - cbn. unfold t in *. lia.
  - intros u y [[-> ->]|[? Hy]]%begin_old.
    + split_and!; cbn; try done; try (unfold t in *; lia). constructor.
    + destruct (i_tx0 _ _ Hy) as (? & ? & He & ?). unfold tx_ok. cbn. split_and!; [unfold t in *; lia..| |done].
      intros e Hee. specialize (He e Hee). lia.
  - intros u y u' y' [[-> ->]|[? Hy]]%begin_old [[-> ->]|[? Hy']]%begin_old Hne; [done|..|by eapply i_apart0].
    + destruct (begin_later _ _ Hy') as [? He]. split; cbn; [lia|]. intros e Hee. specialize (He e Hee). split; [lia|done].
    + destruct (begin_later _ _ Hy) as [? He]. split; cbn; [lia|done].
  - intros w z u [[-> ->]|[? Hz]]%begin_old Hu; [cbn in Hu; set_solver|].
    destruct (i_dep0 _ _ _ Hz Hu) as (? & ? & e & He & Hy). split_and!; [done|cbn; unfold t in *; lia|]. exists e. split; [done|].
    intros y [[-> ->]|[? Hy']]%begin_old; [unfold t in *; lia|auto].
  - intros u y [[-> ->]|[? Hy]]%begin_old; rewrite begin_dependees; [|by apply i_ctr0].
    assert (dependees (a_txs a) t = ∅) as ->; [|done]. apply elem_of_equiv_empty_L. intros w (z & Hz & Hu)%elem_of_dependees.
    destruct (i_dep0 _ _ _ Hz Hu) as (_ & ? & _). unfold t in *. lia.
Qed.
Lemma begin_inv_r : inv_r a'.
Proof.
  intros r v Hv. apply version_ok_ext with a v; [by apply Hr|done|done|cbn; lia|..|by intros ? ? _ _; apply begin_registered].
  - intros u y _ Hy. exists y. by rewrite (begin_keep _ _ Hy).
  - intros u y [[-> ->]|[? Hy]]%begin_old; [left; cbn; lia|right; eauto].
Qed.
Lemma begin_inv_s : inv_s a'.
Proof.
  pose proof Hss as []. split; [..|done].
  - intros u y r [[-> ->]|[? Hy]]%begin_old Hp Hw; [cbn in Hw; by apply not_elem_of_nil in Hw|by eapply i_mark0].
  - intros u y r v [[-> ->]|[? Hy]]%begin_old Hp Hrd; [cbn in Hrd; by rewrite lookup_empty in Hrd|].
    destruct (i_reads0 _ _ _ _ Hy Hp Hrd) as [Hw Hf]. eapply reads_ok_evolves with (a := a) (x := y); [by split|done..|].
    right. apply evolves_same. intros v' Hv'. apply kept_same; eauto using begin_sig, begin_registered.
  - intros c Hc. destruct (i_hist0 _ Hc) as [? Hh]. split; [cbn; lia|].
    intros u y [[-> ->]|[? Hy]]%begin_old; [cbn; split; [lia|]; intros; lia|].
    destruct (Hh _ _ Hy) as [? Hm]. split; [done|]. intros Hp r Hw Hlt'. destruct (Hm Hp r Hw Hlt') as (v & Hv & Hmk).
    exists v. split; [done|]. apply mark_after_ext with a; eauto using begin_sig.
  - intros u y e [[-> ->]|[? Hy]]%begin_old Hv; [done|]. destruct (i_val0 _ _ _ Hy Hv) as [H1 H2]. split; [|done].
    intros u' y' e' r Hne [[-> ->]|[? Hy']]%begin_old; [done|]. eauto.
Qed.
End begin.

Lemma inv_begin a :
  inv a ->
  inv {| a_rows := a_rows a; a_txs := <[a_next a := atx_new (a_clock a)]> (a_txs a); a_clock := a_clock a + 1;
         a_next := a_next a + 1; a_hist := a_hist a |}.
Proof. intros [Ht Hr Hss]. split; [by apply begin_inv_t|by apply begin_inv_r|by apply begin_inv_s]. Qed.

(** * Writing *)

Lemma WriteSet_insert_spec r r' ws : r' ∈ WriteSet_insert r ws <-> r' = r \/ r' ∈ ws.
Proof. unfold WriteSet_insert. case_decide; set_solver. Qed.
Lemma WriteSet_insert_NoDup r ws : NoDup ws -> NoDup (WriteSet_insert r ws).
Proof.
  intros H. unfold WriteSet_insert. case_decide; [done|]. apply list.NoDup_app. split_and!; [done| |apply NoDup_singleton]. set_solver.
Qed.

Section write.
Context (a : astate) (Ht : inv_t a) (Hr : inv_r a) (Hss : inv_s a).
Context (t : TxID) (x : atx) (Hx : a_txs a !! t = Some x) (Hp : x_phase x = Act) (r : RowID) (l' : list RowVersion).
Let a' := set_arows (upd a t (wrote r x)) (<[r := l']> (a_rows a)).
Context (E1 : forall v', v' ∈ l' -> v' ∈ achain a r \/ version_ok a' r v').
Context (E2 : forall v, v ∈ achain a r -> exists v', v' ∈ l' /\ (forall u, u <> t -> refers v u -> refers v' u) /\
                 (forall b, mark_after a b v -> mark_after a' b v')).
Context (E3 : exists v', v' ∈ l' /\ refers v' t).
Context (E4 : forall u b, u <> t -> evolves a a' u b (achain a r) l').

Lemma write_back u y' :
  a_txs a' !! u = Some y' ->
  exists y, a_txs a !! u = Some y /\ y' = (if decide (u = t) then wrote r x else y) /\ (u = t -> y = x) /\
    x_phase y' = x_phase y /\ x_begin y' = x_begin y /\ x_abort y' = x_abort y /\ x_deps y' = x_deps y /\ x_ctr y' = x_ctr y.
Proof.
  cbn. case_decide as H; [subst u; rewrite lookup_insert_eq|rewrite lookup_insert_ne by done].
  - intros [= <-]. exists x. by split_and!.
  - intros Hy. exists y'. by split_and!.
Qed.
Lemma write_fwd u y : a_txs a !! u = Some y ->
  exists y', a_txs a' !! u = Some y' /\ x_begin y' = x_begin y /\ x_phase y' = x_phase y /\ x_deps y' = x_deps y /\
             (forall r', r' ∈ x_ws y -> r' ∈ x_ws y').
Proof.
  intros Hy. cbn. destruct (decide (u = t)) as [->|]; [rewrite lookup_insert_eq|rewrite lookup_insert_ne by done].
  - rewrite Hx in Hy. injection Hy as <-. eexists. split_and!; try done. intros r' Hin. apply WriteSet_insert_spec. auto.
  - eexists. split_and!; try done.
Qed.
Lemma write_sig : sig a' = sig a.
Proof.
  apply map_eq. intros u. rewrite !sig_lookup. destruct (a_txs a !! u) as [y|] eqn:Hy.
  - destruct (write_fwd _ _ Hy) as (y' & -> & _ & Hpy & _). cbn. by rewrite Hpy.
  - destruct (a_txs a' !! u) as [y'|] eqn:Hy'; [|done]. destruct (write_back _ _ Hy') as (y & Hy2 & _). by rewrite Hy in Hy2.
Qed.
Lemma write_dependees u : dependees (a_txs a') u = dependees (a_txs a) u.
Proof.
  apply set_eq. intros w. rewrite !elem_of_dependees. split.
  - intros (z & (z0 & Hz0 & _ & _ & _ & _ & _ & Hd & _)%write_back & Hu). exists z0. by rewrite <- Hd.
  - intros (z & (z' & Hz' & _ & _ & Hd & _)%write_fwd & Hu). exists z'. by rewrite Hd.
Qed.
Lemma write_registered t' u : registered a t' u -> registered a' t' u.
Proof. by rewrite !registered_dependees, write_dependees. Qed.
Lemma write_chain r' : achain a' r' = if decide (r = r') then l' else achain a r'.
Proof. unfold a'. rewrite (achain_set (upd a t (wrote r x))). done. Qed.

Lemma write_inv_t : inv_t a'.
Proof.
  apply (inv_t_phases a a'); try done.
  - intros u y' (y & Hy & _ & _ & Hpy & Hb & _)%write_back. eauto.
  - intros u y' (y & Hy & -> & Hyx & _)%write_back. destruct (i_tx _ Ht _ _ Hy) as (_ & _ & _ & Hnd).
    case_decide; [|done]. cbn. apply WriteSet_insert_NoDup. by rewrite <- Hyx.
  - intros w z u (z0 & Hz & _ & _ & Hpz & Hb & _ & Hd & _)%write_back. rewrite Hd. intros Hu.
    destruct (i_dep _ Ht _ _ _ Hz Hu) as (? & ? & e & He & Hy). split_and!; [done|done|]. exists e. rewrite Hpz. split; [done|].
    intros y' (y & Hy0 & _ & _ & Hpy & Hby & _)%write_back. rewrite Hpy, Hby. auto.
  - intros u y' (y & Hy & _ & _ & _ & _ & _ & _ & Hc)%write_back. by rewrite Hc, write_dependees, (i_ctr _ Ht _ _ Hy).
Qed.
Lemma write_inv_r : inv_r a'.
Proof.
  assert (Hold : forall r' v, v ∈ achain a r' -> version_ok a' r' v).
  { intros r' v Hv. apply version_ok_ext with a v; [by apply Hr|done..| | |by intros ? ? _ _; apply write_registered].
    - intros u y _ Hy. destruct (write_fwd _ _ Hy) as (y' & Hy' & Hb & Hpy & _ & Hw). exists y'. rewrite Hpy. auto.
    - intros u y' (y & Hy & _ & _ & _ & Hb & _)%write_back. right. eauto. }
  intros r' v. rewrite write_chain. case_decide as H; [subst r'|auto]. intros Hv. destruct (E1 _ Hv); auto.
Qed.
Lemma write_inv_s : inv_s a'.
Proof.
  pose proof Hss as []. split; [..|done].
  - intros u y' r' Hy' Hpe Hin. destruct (write_back _ _ Hy') as (y & Hy & Hyy & Hyx & Hpy & _ & Hab & _).
    rewrite write_chain, Hab. destruct (decide (r = r')) as [<-|Hrr].
    + destruct (decide (u = t)) as [->|Hne]; [by right|]. subst y'. destruct (i_mark0 _ _ _ Hy Hpe Hin) as [|(v & Hv & Hrv)]; [by left|].
      right. destruct (E2 _ Hv) as (v' & Hv' & Hrf & _). eauto.
    + assert (r' ∈ x_ws y).
      { subst y'. case_decide; [|done]. apply WriteSet_insert_spec in Hin as [|]; [done|]. by rewrite Hyx. }
      rewrite Hpy in Hpe. eauto.
  - intros u y' r' v Hy' Hpe Hrd. destruct (write_back _ _ Hy') as (y & Hy & Hyy & Hyx & Hpy & Hb & Hab & _).
    assert (Hrd' : x_reads y !! r' = Some v /\ (u = t -> r' <> r)).
    { subst y'. case_decide as Hu; [|by split]. rewrite Hyx by done. cbn in Hrd. destruct (decide (r' = r)) as [->|].
      - by rewrite lookup_delete_eq in Hrd.
      - by rewrite lookup_delete_ne in Hrd by done. }
    destruct Hrd' as [Hrd' Hrr]. rewrite Hpy in Hpe. destruct (i_reads0 _ _ _ _ Hy Hpe Hrd') as [Hw Hf].
    eapply reads_ok_evolves with (a := a) (x := y); [by split| |done|by rewrite Hab|].
    + subst y'. case_decide as Hu; [|done]. cbn. rewrite WriteSet_insert_spec. rewrite Hyx in Hw by done. naive_solver.
    + right. rewrite write_chain. destruct (decide (r = r')) as [<-|]; [apply E4; naive_solver|].
      apply evolves_same. intros v' Hv'. apply kept_same; auto using write_registered. by rewrite write_sig.
  - intros c Hc. destruct (i_hist0 _ Hc) as [? Hh]. split; [done|].
    intros u y' (y & Hy & _ & _ & Hpy & Hb & _)%write_back. rewrite Hpy, Hb. destruct (Hh _ _ Hy) as [? Hm]. split; [done|].
    intros Hpe r' Hin Hlt. destruct (Hm Hpe r' Hin Hlt) as (v & Hv & Hmk). rewrite write_chain. destruct (decide (r = r')) as [<-|].
    + destruct (E2 _ Hv) as (v' & Hv' & _ & Hmk'). eauto.
    + exists v. split; [done|]. apply mark_after_ext with a; [|done]. by rewrite write_sig.
  - intros u y' e Hy' Hv. destruct (write_back _ _ Hy') as (y & Hy & Hyy & Hyx & Hpy & Hb & Hab & _). rewrite Hpy in Hv.
    assert (u <> t) by (intros ->; rewrite Hyx in Hv by done; congruence). rewrite decide_False in Hyy by done. subst y'.
    destruct (i_val0 _ _ _ Hy Hv) as [H1 H2]. split; [|done]. intros w z' e' r' Hne Hz' Hpz Hez Hlt Hin Hin'.
    destruct (write_back _ _ Hz') as (z & Hz & Hzz & Hzx & Hpz' & _ & Habz & _). rewrite Hpz' in *.
    assert (w <> t) by (intros ->; rewrite Hzx in Hez by done; by rewrite Hp in Hez). rewrite decide_False in Hzz by done. subst z'. eauto.
Qed.
Lemma write_inv : inv a'.
Proof. split; [apply write_inv_t|apply write_inv_r|apply write_inv_s]. Qed.
End write.

(** What a writer sees of a version, it sees of its end of life too. *)
Lemma vis_causal a t x v :
  vis (sig a) t (x_begin x) v = true -> settled a t (x_begin x) v ->
  rv_begin v = Some (TxId t) \/
  (exists n, time_of (sig a) (rv_begin v) = Some n /\ n < x_begin x) /\
  (forall w, spec_begin (sig a) (x_begin x) v = Some w -> registered a t w).
Proof.
  intros [Hb _]%andb_prop [Hs _]. revert Hb. unfold vis_begin, time_of. destruct (rv_begin v) as [[n|u]|] eqn:E; [|..|done].
  - intros ?%Z.ltb_lt. right. eauto.
  - destruct (sig a !! u) as [[]|] eqn:Hu; try done; [intros [H%Z.eqb_eq _]%andb_prop; left; congruence| |];
      intros ?%Z.ltb_lt; right; eauto.
Qed.
(** A transaction's own running write is hidden from the others, and binds nobody. *)
Lemma kept_own_end a a' t x v u b :
  a_txs a !! t = Some x -> x_phase x = Act -> sig a' = sig a -> (forall t u, registered a t u -> registered a' t u) ->
  u <> t -> rv_end v = None -> vis_begin (sig a) t (x_begin x) v = true ->
  kept a a' u b v (set_end v (Some (TxId t))).
Proof.
  intros Hx Hp Hsig Hreg Hne Hend Hv. apply kept_fields; [done|]. intros [Hs1 Hs2]. rewrite Hsig.
  assert (Hact : sig a !! t = Some Active) by (rewrite sig_lookup, Hx; cbn; by rewrite Hp).
  split_and!.
  - unfold vis_begin in *. cbn. destruct (rv_begin v) as [[n|w]|]; try done. destruct (sig a !! w) as [[]|] eqn:Hw; try done.
    destruct (u =? w) eqn:Huw; [|done]. apply Z.eqb_eq in Huw as <-. apply andb_prop in Hv as [?%Z.eqb_eq _]. congruence.
  - intros _. unfold vis_end. cbn. rewrite Hend, Hact. apply Z.eqb_neq in Hne. by rewrite Hne.
  - intros w Hw. apply Hreg, Hs1, Hw.
  - intros w _. unfold spec_end. cbn. by rewrite Hact.
Qed.

Section write_steps.
Context (a : astate) (Hi : inv a).
Context (t : TxID) (x : atx) (Hx : a_txs a !! t = Some x) (Hp : x_phase x = Act) (r : RowID).

Lemma inv_put l1 l2 v :
  achain a r = l1 ++ l2 ->
  (rv_begin v = Some (TxId t) /\ rv_end v = None \/ rv_begin v = None /\ rv_end v = Some (TxId t)) ->
  inv (set_arows (upd a t (wrote r x)) (<[r := l1 ++ v :: l2]> (a_rows a))).
Proof.
  intros Hl Hv. pose proof (write_sig a t x Hx r (l1 ++ v :: l2)) as Hsig.
  assert (Hrefers : forall u, refers v u -> u = t) by (unfold refers; intros; naive_solver).
  apply write_inv; [apply Hi..|done|done| | | |]; rewrite ?Hl.
  - intros v' Hv'. rewrite elem_of_app, elem_of_cons in Hv'. rewrite elem_of_app. destruct Hv' as [|[->|]]; [tauto| |tauto].
    right. split.
    + intros u ->%Hrefers. cbn. rewrite lookup_insert_eq. eexists. split; [done|]. apply WriteSet_insert_spec. by left.
    + unfold stamped. naive_solver.
    + split; intros; naive_solver.
  - intros v' Hv'. exists v'. split_and!; [set_solver|done|]. intros b. apply mark_after_ext. by rewrite Hsig.
  - exists v. split; [set_solver|]. unfold refers. tauto.
  - intros u b Hne. apply evolves_app; [|apply ev_add].
    + apply evolves_same. intros v' _. apply kept_same; try done; [by rewrite Hsig|]. intros. by eapply write_registered.
    + rewrite Hsig. assert (sig a !! t = Some Active) as Hact by (rewrite sig_lookup, Hx; cbn; by rewrite Hp).
      apply Z.eqb_neq in Hne. unfold vis, vis_begin. destruct Hv as [[-> ->]|[-> _]]; [|done]. by rewrite Hact, Hne.
    + assert (sig a !! t = Some Active) as Hact by (rewrite sig_lookup, Hx; cbn; by rewrite Hp).
      unfold settled, spec_begin, spec_end, vis_begin. rewrite Hsig. destruct Hv as [[-> ->]|[-> ->]]; rewrite ?Hact; by split.
    + apply evolves_same. intros v' _. apply kept_same; try done; [by rewrite Hsig|]. intros. by eapply write_registered.
Qed.
Lemma inv_end l1 l2 v :
  achain a r = l1 ++ v :: l2 -> rv_end v = None -> vis (sig a) t (x_begin x) v = true -> settled a t (x_begin x) v ->
  inv (set_arows (upd a t (wrote r x)) (<[r := l1 ++ set_end v (Some (TxId t)) :: l2]> (a_rows a))).
Proof.
  intros Hl He Hv Hs. set (v1 := set_end v (Some (TxId t))). pose proof (write_sig a t x Hx r (l1 ++ v1 :: l2)) as Hsig.
  assert (Hvr : version_ok a r v) by (apply (inv_rows _ Hi); rewrite Hl; set_solver).
  apply write_inv; [apply Hi..|done|done| | | |]; rewrite ?Hl.
  - intros v' Hv'. rewrite elem_of_app, elem_of_cons in Hv'. rewrite elem_of_app, elem_of_cons. destruct Hv' as [|[->|]]; [tauto| |tauto].
    right. destruct Hvr as [Hvr Hvs _]. split.
    + intros u [Hu|Hu]; cbn in Hu.
      * destruct (Hvr u) as (y & Hy & Hw); [by left|]. destruct (write_fwd a t x Hx r (l1 ++ v1 :: l2) _ _ Hy) as (y' & Hy' & _ & _ & _ & Hw').
        eauto.
      * injection Hu as <-. cbn. rewrite lookup_insert_eq. eexists. split; [done|]. apply WriteSet_insert_spec. by left.
    + intros n [Hn|Hn]; [|done]. cbn in Hn. destruct (Hvs n) as [? Hne]; [by left|]. split; [done|].
      intros u y' (y & Hy & _ & _ & _ & -> & _)%(write_back a t x Hx). eauto.
    + split; [|done]. intros u y [= <-]. cbn [a_txs set_arows upd]. rewrite lookup_insert_eq. intros [= <-]. rewrite Hsig. cbn.
      destruct (vis_causal a t x v Hv Hs) as [|[? Hw]]; [auto|]. right; right. split; [done|].
      intros w Hsp. eapply write_registered; [done|]. apply Hw. exact Hsp.
  - intros v' [Hv'|[->|Hv']%elem_of_cons]%elem_of_app.
    + exists v'. split_and!; [set_solver|done|]. intros b. apply mark_after_ext. by rewrite Hsig.
    + exists v1. split_and!; [set_solver| |].
      * intros u _ [Hu|Hu]; [by left|congruence].
      * intros b. unfold mark_after. rewrite Hsig, He. cbn. intros [|(n & [=] & _)]. by left.
    + exists v'. split_and!; [set_solver|done|]. intros b. apply mark_after_ext. by rewrite Hsig.
  - exists v1. split; [set_solver|]. by right.
  - intros u b Hne. assert (Hsame : forall v', kept a (set_arows (upd a t (wrote r x)) (<[r := l1 ++ v1 :: l2]> (a_rows a))) u b v' v').
    { intros v'. apply kept_same; try done; [by rewrite Hsig|]. intros. by eapply write_registered. }
    apply evolves_app; [by apply evolves_same|]. apply ev_keep; [|by apply evolves_same].
    apply andb_prop in Hv as [Hv _]. eapply kept_own_end; try done. intros. by eapply write_registered.
Qed.
End write_steps.

(** * Changing phase *)

Section change.
Context (a : astate) (Ht : inv_t a) (Hr : inv_r a) (Hss : inv_s a).
Context (t : TxID) (x : atx) (Hx : a_txs a !! t = Some x) (p : phase) (c : Z) (h : list commit_record).
Let a' := {| a_rows := a_rows a; a_txs := <[t := with_phase p x]> (a_txs a); a_clock := c; a_next := a_next a; a_hist := h |}.

Lemma change_back u y' :
  a_txs a' !! u = Some y' -> exists y, a_txs a !! u = Some y /\ (u = t -> y = x) /\ (u <> t -> y' = y) /\
    x_phase y' = (if decide (u = t) then p else x_phase y) /\ x_begin y' = x_begin y /\ x_ws y' = x_ws y /\
    x_abort y' = x_abort y /\ x_deps y' = x_deps y /\ x_ctr y' = x_ctr y /\ x_reads y' = x_reads y.
Proof.
  cbn. destruct (decide (u = t)) as [->|]; [rewrite lookup_insert_eq|rewrite lookup_insert_ne by done].
  - intros [= <-]. exists x. by split_and!.
  - intros Hy. exists y'. by split_and!.
Qed.
Lemma change_fwd u y : a_txs a !! u = Some y ->
  exists y', a_txs a' !! u = Some y' /\ x_begin y' = x_begin y /\ x_deps y' = x_deps y /\ x_ws y' = x_ws y.
Proof.
  intros Hy. cbn. destruct (decide (u = t)) as [->|]; [rewrite lookup_insert_eq|rewrite lookup_insert_ne by done].
  - rewrite Hx in Hy. injection Hy as <-. by eexists.
  - by exists y.
Qed.
Lemma change_sig : sig a' = <[t := state_of p]> (sig a).
Proof. unfold sig. cbn. by rewrite fmap_insert. Qed.
Lemma change_dependees u : dependees (a_txs a') u = dependees (a_txs a) u.
Proof.
  apply set_eq. intros w. rewrite !elem_of_dependees. split.
  - intros (z & (z0 & Hz0 & _ & _ & _ & _ & _ & _ & Hd & _)%change_back & Hu). exists z0. by rewrite <- Hd.
  - intros (z & (z' & Hz' & _ & Hd & _)%change_fwd & Hu). exists z'. by rewrite Hd.
Qed.
Lemma change_registered t' u : registered a t' u -> registered a' t' u.
Proof. by rewrite !registered_dependees, change_dependees. Qed.

Lemma change_inv_t :
  a_clock a <= c ->
  (forall e, end_of p = Some e -> x_begin x < e < c) ->
  (forall e u y, end_of p = Some e -> u <> t -> a_txs a !! u = Some y ->
     x_begin y <> e /\ forall e', end_of (x_phase y) = Some e' -> e' <> e) ->
  (forall e, end_of (x_phase x) = Some e -> end_of p = Some e) ->
  (pending p = false -> dependees (a_txs a) t = ∅) -> inv_t a'.
Proof.
  pose proof Ht as []. intros Hc He1 He2 He3 Hpe. split.
  - cbn. lia.
  - intros u y' (y & Hy & Hyx & _ & Hp & Hb & Hw & _)%change_back. destruct (i_tx0 _ _ Hy) as (? & ? & He & ?).
    unfold tx_ok. rewrite Hb, Hw, Hp. cbn. split_and!; [lia..| |done]. intros e Hee. case_decide; [rewrite Hyx by done; auto|].
    specialize (He e Hee). lia.
  - intros u y' w z' (y & Hy & Hyx & _ & Hp & Hb & _)%change_back (z & Hz & Hzx & _ & Hp' & Hb' & _)%change_back Hne.
    destruct (i_apart0 _ _ _ _ Hy Hz Hne) as [H1 H2]. unfold apart. rewrite Hb, Hb', Hp, Hp'. split; [done|].
    destruct (decide (u = t)) as [->|], (decide (w = t)) as [->|]; [done| | |done].
    + intros e Hez. split; [exact (proj1 (H2 e Hez))|]. intros e' Hee. apply not_eq_sym. by eapply He2.
    + intros e Hee. eapply He2; eauto.
  - intros w z' u Hz' Hu. destruct (change_back _ _ Hz') as (z & Hz & Hzx & _ & Hp & Hb & _ & _ & Hd & _). rewrite Hd in Hu.
    destruct (i_dep0 _ _ _ Hz Hu) as (? & ? & e & He & Hy). split_and!; [done..|]. exists e. rewrite Hp. split.
    { case_decide; [|done]. rewrite Hzx in He by done. auto. }
    intros y' (y & Hy' & _ & _ & Hpy & -> & _)%change_back. rewrite Hpy. specialize (Hy y Hy'). split; [apply Hy|].
    case_decide as Hut; [subst u|apply Hy]. destruct (pending p); [done|]. assert (w ∈ dependees (a_txs a) t) as Hin.
    { apply elem_of_dependees. eauto. } rewrite Hpe in Hin by done. by apply not_elem_of_empty in Hin.
  - intros u y' (y & Hy & _ & _ & _ & _ & _ & _ & _ & Hct & _)%change_back. rewrite Hct, change_dependees. eauto.
Qed.

(** What the phase must leave as it is: times, committed times and nobody's bets. *)
Lemma change_inv_r :
  a_clock a <= c ->
  (forall f n, time_of (sig a) f = Some n -> time_of (sig a') f = Some n) ->
  (forall f n, ctime_of (sig a) f = Some n -> ctime_of (sig a') f = Some n) ->
  (forall v n w b, time_of (sig a) (rv_begin v) = Some n -> spec_begin (sig a') b v = Some w -> spec_begin (sig a) b v = Some w) ->
  inv_r a'.
Proof.
  intros Hc Htm Hct Hsp r v Hv. destruct (Hr r v Hv) as [H1 H2 [H3 H4]]. split.
  - intros u Hu. destruct (H1 u Hu) as (y & Hy & Hw). destruct (change_fwd _ _ Hy) as (y' & Hy' & _ & _ & Hw').
    exists y'. by rewrite Hw'.
  - intros n Hn. destruct (H2 n Hn) as [? Hne]. split; [cbn; lia|]. intros u y' (y & Hy & _ & _ & _ & -> & _)%change_back. eauto.
  - split.
    + intros u y' He (y & Hy & _ & _ & _ & -> & _)%change_back.
      destruct (H3 u y He Hy) as [|[|[(n & Hn & Hlt) Hw]]]; [auto..|]. right; right. split; [eauto|].
      intros w Hs. apply change_registered. eauto.
    + intros e He. destruct (H4 e He) as [|(n & Hn & Hle)]; [auto|]. eauto.
Qed.

Lemma change_mark : (pending p = true -> pending (x_phase x) = true) ->
  forall u y' r, a_txs a' !! u = Some y' -> pending (x_phase y') = true -> r ∈ x_ws y' ->
    x_abort y' = true \/ exists v, v ∈ achain a' r /\ refers v u.
Proof.
  intros Hpp u y' r (y & Hy & Hyx & _ & Hp & _ & Hw & Hab & _)%change_back. rewrite Hp, Hw, Hab. intros Hpe.
  apply (i_mark _ Hss _ _ _ Hy). case_decide; [|done]. rewrite Hyx by done. auto.
Qed.
Lemma change_reads :
  (pending p = true -> pending (x_phase x) = true) ->
  (forall u y v r, a_txs a !! u = Some y -> u <> t -> pending (x_phase y) = true -> v ∈ achain a r -> kept a a' u (x_begin y) v v) ->
  forall u y' r o, a_txs a' !! u = Some y' -> pending (x_phase y') = true -> x_reads y' !! r = Some o -> reads_ok a' u y' r o.
Proof.
  intros Hpp Hk u y' r o Hy' Hpe Hrd. destruct (change_back _ _ Hy') as (y & Hy & Hyx & _ & Hp & Hb & Hw & Hab & _ & _ & Hre).
  rewrite Hp in Hpe. rewrite Hre in Hrd. assert (Hpy : pending (x_phase y) = true).
  { case_decide; [|done]. rewrite Hyx by done. auto. }
  pose proof (i_reads _ Hss _ _ _ _ Hy Hpy Hrd) as Hro.
  eapply reads_ok_evolves; [done|by rewrite Hw; destruct Hro|done|by rewrite Hab|]. right. apply evolves_same. intros v Hv.
  destruct (decide (u = t)) as [->|]; [|by eapply Hk]. apply kept_same; try done; [|by intros; apply change_registered].
  intros w Hw'. rewrite change_sig. rewrite lookup_insert_ne; [done|]. intros <-. destruct (v_ref _ _ _ (Hr _ _ Hv) _ Hw') as (z & Hz & Hin).
  rewrite Hy in Hz. injection Hz as <-. by destruct Hro.
Qed.
Lemma change_hist cr :
  a_clock a <= c -> (pending p = true -> pending (x_phase x) = true) ->
  (forall f n, ctime_of (sig a) f = Some n -> ctime_of (sig a') f = Some n) -> hist_ok a cr -> hist_ok a' cr.
Proof.
  intros Hc Hpp Hct [H1 H2]. split; [cbn; lia|]. intros u y' (y & Hy & Hyx & _ & Hp & -> & _)%change_back. rewrite Hp.
  destruct (H2 u y Hy) as [H3 H4]. split; [done|]. intros Hpe r Hin Hlt. destruct (H4 ltac:(case_decide; [rewrite Hyx by done|]; auto) r Hin Hlt) as (v & Hv & Hm).
  exists v. split; [done|]. destruct Hm as [(n & Hn & ?)|(n & Hn & ?)]; [left|right]; eauto.
Qed.
End change.

Lemma sig_at a t x : a_txs a !! t = Some x -> sig a !! t = Some (state_of (x_phase x)).
Proof. intros Hx. by rewrite sig_lookup, Hx. Qed.

(** ** Preparing *)

Section prepare.
Context (a : astate) (Hi : inv a) (t : TxID) (x : atx) (Hx : a_txs a !! t = Some x) (Hp : x_phase x = Act).
Let s' : gmap TxID TransactionState := <[t := Preparing (a_clock a)]> (sig a).
Lemma prepare_active : sig a !! t = Some Active.
Proof. rewrite (sig_at _ _ _ Hx). by rewrite Hp. Qed.

Lemma prepare_time f n : time_of (sig a) f = Some n -> time_of s' f = Some n.
Proof. destruct f as [[|u]|]; cbn; try done. unfold s'. destruct (decide (u = t)) as [->|]; [by rewrite prepare_active|by rewrite lookup_insert_ne]. Qed.
Lemma prepare_ctime f n : ctime_of (sig a) f = Some n -> ctime_of s' f = Some n.
Proof. destruct f as [[|u]|]; cbn; try done. unfold s'. destruct (decide (u = t)) as [->|]; [by rewrite prepare_active|by rewrite lookup_insert_ne]. Qed.
Lemma prepare_spec v b n w : time_of (sig a) (rv_begin v) = Some n -> spec_begin s' b v = Some w -> spec_begin (sig a) b v = Some w.
Proof.
  unfold spec_begin, time_of. destruct (rv_begin v) as [[|u]|]; try done. unfold s'.
  destruct (decide (u = t)) as [->|]; [by rewrite prepare_active|by rewrite lookup_insert_ne].
Qed.
(** The others saw nothing of the transaction's writes, and its end is after their beginnings. *)
Lemma prepare_kept a' u y v :
  sig a' = s' -> (forall t u, registered a t u -> registered a' t u) -> a_txs a !! u = Some y -> u <> t ->
  kept a a' u (x_begin y) v v.
Proof.
  intros Hsig Hreg Hy Hne. destruct (i_tx _ (inv_txs _ Hi) _ _ Hy) as (_ & Hb & _). apply kept_fields; [done|]. intros [Hs1 Hs2]. rewrite Hsig.
  assert (Hut : (u =? t) = false) by by apply Z.eqb_neq. assert (Hge : (a_clock a <? x_begin y) = false) by (apply Z.ltb_ge; lia).
  assert (Hlt : (x_begin y <? a_clock a) = true) by (apply Z.ltb_lt; lia).
  split_and!.
  - unfold vis_begin. destruct (rv_begin v) as [[|w]|]; try done. unfold s'. destruct (decide (w = t)) as [->|]; [|by rewrite lookup_insert_ne].
    by rewrite lookup_insert_eq, prepare_active, Hut.
  - intros _. unfold vis_end. destruct (rv_end v) as [[|w]|]; try done. unfold s'. destruct (decide (w = t)) as [->|]; [|by rewrite lookup_insert_ne].
    by rewrite lookup_insert_eq, prepare_active, Hut.
  - intros w Hw. apply Hreg, Hs1. revert Hw. unfold spec_begin. destruct (rv_begin v) as [[|w']|]; try done. unfold s'.
    destruct (decide (w' = t)) as [->|]; [|by rewrite lookup_insert_ne]. by rewrite lookup_insert_eq, Hge.
  - intros w Hv Hw. apply Hreg, Hs2; [done|]. revert Hw. unfold spec_end. destruct (rv_end v) as [[|w']|]; try done. unfold s'.
    destruct (decide (w' = t)) as [->|]; [|by rewrite lookup_insert_ne]. by rewrite lookup_insert_eq, Hlt.
Qed.

Lemma inv_prepare :
  inv {| a_rows := a_rows a; a_txs := <[t := with_phase (Prep (a_clock a)) x]> (a_txs a);
         a_clock := a_clock a + 1; a_next := a_next a; a_hist := a_hist a |}.
Proof.
  pose proof (change_sig a t x (Prep (a_clock a)) (a_clock a + 1) (a_hist a)) as Hsig. destruct Hi as [Ht Hr Hs].
  pose proof (i_tx _ Ht) as Htx. split.
  - apply change_inv_t; try done; [lia| | |by rewrite Hp].
    + intros e [= <-]. destruct (Htx _ _ Hx) as (_ & ? & _). lia.
    + intros e u y [= <-] _ Hy. destruct (Htx _ _ Hy) as (_ & ? & He & _). split; [lia|]. intros e' Hee. specialize (He e' Hee). lia.
  - apply change_inv_r; try done; [lia|rewrite Hsig..]; eauto using prepare_time, prepare_ctime, prepare_spec.
  - split.
    + apply change_mark; [done..|]. by rewrite Hp.
    + apply change_reads; [done..|by rewrite Hp|]. intros. apply prepare_kept; [done|by intros; apply change_registered|done..].
    + intros cr Hcr. apply change_hist; [done|lia|by rewrite Hp| |by apply (i_hist _ Hs)]. rewrite Hsig. apply prepare_ctime.
    + intros u y' e Hy' Hv. destruct (change_back _ _ _ Hx _ _ _ _ _ Hy') as (y & Hy & _ & Hyy & Hpy & _). rewrite Hpy in Hv.
      case_decide; [done|]. rewrite Hyy by done. destruct (i_val _ Hs _ _ _ Hy Hv) as [H1 H2]. split; [|done].
      intros w z' e' r Hne Hz' Hpz Hez Hlt. destruct (change_back _ _ _ Hx _ _ _ _ _ Hz') as (z & Hz & _ & Hzz & Hpz' & _).
      rewrite Hpz' in Hez. destruct (decide (w = t)); [|rewrite Hzz in * by done; eauto]. injection Hez as <-.
      destruct (Htx _ _ Hy) as (_ & _ & He & _). rewrite Hv in He. specialize (He e eq_refl). lia.
    + apply Hs.
Qed.
End prepare.

(** ** Validating *)

Section validate.
Context (a : astate) (Hi : inv a) (t : TxID) (x : atx) (e : Z) (Hx : a_txs a !! t = Some x) (Hp : x_phase x = Prep e).
Context (Hval : forall r v, r ∈ x_ws x -> v ∈ achain a r -> conflict (sig a) t (x_begin x) e v = false).

Lemma preparing_at u y e' : a_txs a !! u = Some y -> pending (x_phase y) = true -> end_of (x_phase y) = Some e' ->
  sig a !! u = Some (Preparing e') /\ x_begin y < e'.
Proof.
  intros Hy Hpe He. destruct (i_tx _ (inv_txs _ Hi) _ _ Hy) as (_ & _ & Hb & _). specialize (Hb _ He).
  rewrite (sig_at _ _ _ Hy). split; [|lia]. destruct (x_phase y); naive_solver.
Qed.
(** A version ended by a committed transaction has a committed beginning. *)
Lemma committed_end_begin r v w n u e' :
  v ∈ achain a r -> rv_end v = Some (TxId w) -> sig a !! w = Some (Committed n) -> rv_begin v = Some (TxId u) ->
  sig a !! u = Some (Preparing e') -> False.
Proof.
  intros Hv He Hw Hb Hu. destruct (inv_rows _ Hi _ _ Hv) as [Href _ [Hc _]]. destruct (Href w) as (z & Hz & _); [by right|].
  destruct (Hc w z He Hz) as [|[|[(m & Hm & Hlt) Hsp]]]; [congruence|simplify_eq|].
  unfold time_of in Hm. unfold spec_begin in Hsp. rewrite Hb, Hu in Hm, Hsp. injection Hm as ->.
  apply Z.ltb_lt in Hlt. rewrite Hlt in Hsp. destruct (Hsp u eq_refl) as (y & Hy & Hin).
  destruct (i_dep _ (inv_txs _ Hi) _ _ _ Hy Hin) as (_ & _ & e2 & _ & Hd). destruct (Hd z Hz) as [_ Hpe].
  rewrite (sig_at _ _ _ Hz) in Hw. destruct (x_phase z); naive_solver.
Qed.

(** A conflicting transaction that is to commit before would have left a mark. *)
Lemma no_conflict_pending r v u y e' :
  r ∈ x_ws x -> v ∈ achain a r -> u <> t -> a_txs a !! u = Some y -> pending (x_phase y) = true -> end_of (x_phase y) = Some e' ->
  e' < e -> refers v u -> e' < x_begin x.
Proof.
  intros Hr Hv Hne Hy Hpe Hee Hlt Href. destruct (preparing_at _ _ _ Hy Hpe Hee) as [Hu Hbu].
  destruct (preparing_at t x e Hx) as [Htt Hbt]; [by rewrite Hp..|].
  pose proof (Hval _ _ Hr Hv) as Hno. unfold conflict, begin_conflict in Hno. destruct (inv_rows _ Hi _ _ Hv) as [Hex _ [Hc1 Hc2]].
  apply Z.ltb_lt in Hlt as Hltb. apply Z.eqb_neq in Hne as Hneb. destruct Href as [Hb|He].
  - rewrite Hb, Hneb, Hu, Hltb in Hno. destruct (rv_end v) as [[n|w]|] eqn:He; [|..|done].
    + destruct (Hc2 n eq_refl) as [|(m & Hm & _)]; [congruence|]. unfold ctime_of in Hm. by rewrite Hb, Hu in Hm.
    + destruct (w =? t) eqn:Hwt.
      * apply Z.eqb_eq in Hwt as ->. destruct (Hc1 t x eq_refl Hx) as [|[|[(n & Hn & Hlt') _]]]; [congruence..|].
        unfold time_of in Hn. rewrite Hb, Hu in Hn. by injection Hn as ->.
      * destruct (sig a !! w) as [[]|] eqn:Hw; try done. exfalso. eapply committed_end_begin; eauto.
  - destruct (Hc1 u y He Hy) as [Hb|[Hb|[(n & Hn & Hlt') _]]]; rewrite He, Hneb, Hu in Hno.
    + by rewrite Hb, Hltb in Hno.
    + by rewrite Hb, Hneb, Hu, Hltb in Hno.
    + unfold time_of in Hn. destruct (rv_begin v) as [[m|w]|]; [done| |done]. destruct (w =? t) eqn:Hwt.
      * apply Z.eqb_eq in Hwt as ->. rewrite Htt in Hn. injection Hn as ->. lia.
      * destruct (sig a !! w) as [[]|]; try done. injection Hn as ->. apply Z.ltb_ge in Hno. lia.
Qed.
(** And so would one that has committed after this one began. *)
Lemma no_conflict_mark r v : r ∈ x_ws x -> v ∈ achain a r -> mark_after a (x_begin x) v -> False.
Proof.
  intros Hr Hv Hm. destruct (preparing_at t x e Hx) as [Htt Hbt]; [by rewrite Hp..|].
  pose proof (Hval _ _ Hr Hv) as Hno. destruct (inv_rows _ Hi _ _ Hv) as [Hex _ [Hc1 Hc2]].
  destruct Hm as [(n & Hn & Hlt)|(n & Hn & Hlt)].
  - assert (Hbc : begin_conflict (sig a) t e v = true).
    { unfold begin_conflict. unfold ctime_of in Hn. destruct (rv_begin v) as [[m|w]|]; try done. destruct (w =? t) eqn:Hwt.
      - apply Z.eqb_eq in Hwt as ->. by rewrite Htt in Hn.
      - by destruct (sig a !! w) as [[]|]. }
    assert (Htn : time_of (sig a) (rv_begin v) = Some n).
    { unfold time_of, ctime_of in *. by repeat case_match. }
    unfold conflict in Hno. rewrite Hbc in Hno. destruct (rv_end v) as [[m|w]|] eqn:He; [| |done].
    + destruct (Hc2 m eq_refl) as [Hb|(n' & Hn' & Hle)]; [by rewrite Hb in Hn|]. apply Z.ltb_ge in Hno. simplify_eq. lia.
    + destruct (Hex w) as (z & Hz & _); [by right|]. specialize (Hc1 w z eq_refl Hz). destruct (w =? t) eqn:Hwt.
      * apply Z.eqb_eq in Hwt as ->. rewrite Hx in Hz. injection Hz as <-. destruct Hc1 as [Hb|[Hb|[(n' & Hn' & Hlt') _]]].
        -- by rewrite Hb in Hn.
        -- unfold ctime_of in Hn. by rewrite Hb, Htt in Hn.
        -- simplify_eq. lia.
      * assert (Hcm : exists m, sig a !! w = Some (Committed m) /\ m <= x_begin x).
        { destruct (rv_begin v); [|done]. destruct (sig a !! w) as [[]|]; try done. eexists. split; [done|]. by apply Z.ltb_ge. }
        destruct Hcm as (m & Hw & Hle). rewrite (sig_at _ _ _ Hz) in Hw.
        destruct (i_tx _ (inv_txs _ Hi) _ _ Hz) as (_ & _ & Hbz & _). destruct (x_phase z) as [| | |m'] eqn:Hpz; try done. injection Hw as ->.
        specialize (Hbz _ eq_refl). destruct Hc1 as [Hb|[Hb|[(n' & Hn' & Hlt') _]]].
        -- by rewrite Hb in Hn.
        -- unfold ctime_of in Hn. rewrite Hb, (sig_at _ _ _ Hz), Hpz in Hn. cbn in Hn. simplify_eq. lia.
        -- simplify_eq. lia.
  - unfold conflict in Hno. unfold ctime_of in Hn. apply Z.ltb_lt in Hlt. destruct (rv_end v) as [[m|w]|]; [|..|done].
    + simplify_eq. congruence.
    + destruct (w =? t) eqn:Hwt; [apply Z.eqb_eq in Hwt as ->; by rewrite Htt in Hn|].
      destruct (sig a !! w) as [[]|]; try done. simplify_eq. destruct (rv_begin v); congruence.
Qed.

Lemma validated : val_ok a t x e.
Proof.
  split.
  - intros u y e' r Hne Hy Hpe Hee Hlt Hrx Hry. destruct (i_mark _ (inv_sets _ Hi) _ _ _ Hy Hpe Hry) as [|(v & Hv & Href)]; [by right|].
    left. by eapply no_conflict_pending.
  - intros c r Hc Hrx Hrc. destruct (i_hist _ (inv_sets _ Hi) c Hc) as [_ Hh]. destruct (Hh t x Hx) as [Hne Hm].
    left. destruct (Z.lt_ge_cases (c_end c) (x_begin x)); [done|]. destruct (Hm ltac:(by rewrite Hp) r Hrc ltac:(lia)) as (v & Hv & Hmk).
    destruct (no_conflict_mark _ _ Hrx Hv Hmk).
Qed.
End validate.

Lemma change_val a t x p c h e u y :
  a_txs a !! t = Some x -> (forall e', pending p = true -> end_of p = Some e' -> pending (x_phase x) = true /\ end_of (x_phase x) = Some e') ->
  (forall cr, cr ∈ h -> cr ∈ a_hist a) -> val_ok a u y e ->
  val_ok {| a_rows := a_rows a; a_txs := <[t := with_phase p x]> (a_txs a); a_clock := c; a_next := a_next a; a_hist := h |} u y e.
Proof.
  intros Hx Hpp Hh [H1 H2]. split; [|eauto]. intros w z' e' r Hne Hz'.
  destruct (change_back _ _ _ Hx _ _ _ _ _ Hz') as (z & Hz & Hzx & _ & Hpz & _ & Hw & Hab & _). rewrite Hpz, Hw, Hab.
  intros Hpe Hee. destruct (decide (w = t)) as [->|]; [|eauto]. rewrite Hzx in * by done. destruct (Hpp _ Hpe Hee). eauto.
Qed.

Lemma inv_validate a t x e :
  inv a -> a_txs a !! t = Some x -> x_phase x = Prep e ->
  (forall r v, r ∈ x_ws x -> v ∈ achain a r -> conflict (sig a) t (x_begin x) e v = false) ->
  inv (upd a t (with_phase (Val e) x)).
Proof.
  intros Hi Hx Hp Hval. pose proof (validated a Hi t x e Hx Hp Hval) as Hv. destruct Hi as [Ht Hr Hs].
  assert (Hsig : sig (upd a t (with_phase (Val e) x)) = sig a).
  { unfold upd. rewrite (change_sig a t x (Val e)). apply insert_id. rewrite (sig_at _ _ _ Hx). by rewrite Hp. }
  unfold upd in *. split.
  - apply change_inv_t; try done.
    + intros e' [= <-]. destruct (i_tx _ Ht _ _ Hx) as (_ & _ & He & _). apply He. by rewrite Hp.
    + intros e' u y [= <-] Hne Hy. destruct (i_apart _ Ht _ _ _ _ Hy Hx Hne) as [_ Hap]. apply Hap. by rewrite Hp.
    + by rewrite Hp.
  - apply change_inv_r; try done; by rewrite Hsig.
  - split.
    + apply change_mark; [done..|]. by rewrite Hp.
    + apply change_reads; [done..|by rewrite Hp|]. intros. apply kept_same; try done; [|by intros; apply change_registered].
      intros. by rewrite Hsig.
    + intros cr Hcr. apply change_hist; [done..|by rewrite Hp| |by apply (i_hist _ Hs)].
      by rewrite Hsig.
    + intros u y' e' Hy' Hpv. destruct (change_back _ _ _ Hx _ _ _ _ _ Hy') as (y & Hy & Hyx & Hyy & Hpy & _). rewrite Hpy in Hpv.
      apply change_val; [done|by rewrite Hp|done|]. destruct (decide (u = t)) as [->|].
      * injection Hpv as <-. cbn in Hy'. rewrite lookup_insert_eq in Hy'. injection Hy' as <-. done.
      * rewrite Hyy by done. by apply (i_val _ Hs).
    + apply Hs.
Qed.

(** ** Committing *)

Section commit.
Context (a : astate) (Hi : inv a) (t : TxID) (x : atx) (e : Z) (Hx : a_txs a !! t = Some x) (Hp : x_phase x = Val e).
Context (Hab : x_abort x = false) (Hfree : dependees (a_txs a) t = ∅).
Let s' : gmap TxID TransactionState := <[t := Committed e]> (sig a).
Let cr := {| c_begin := x_begin x; c_end := e; c_rows := x_ws x |}.

Lemma commit_preparing : sig a !! t = Some (Preparing e).
Proof. rewrite (sig_at _ _ _ Hx). by rewrite Hp. Qed.
Lemma commit_time f n : time_of (sig a) f = Some n -> time_of s' f = Some n.
Proof.
  destruct f as [[|u]|]; cbn; try done. unfold s'.
  destruct (decide (u = t)) as [->|]; [by rewrite commit_preparing, lookup_insert_eq|by rewrite lookup_insert_ne].
Qed.
Lemma commit_ctime f n : ctime_of (sig a) f = Some n -> ctime_of s' f = Some n.
Proof.
  destruct f as [[|u]|]; cbn; try done. unfold s'.
  destruct (decide (u = t)) as [->|]; [by rewrite commit_preparing|by rewrite lookup_insert_ne].
Qed.
Lemma commit_spec v b w : spec_begin s' b v = Some w -> spec_begin (sig a) b v = Some w.
Proof.
  unfold spec_begin. destruct (rv_begin v) as [[|u]|]; try done. unfold s'.
  destruct (decide (u = t)) as [->|]; [by rewrite lookup_insert_eq|by rewrite lookup_insert_ne].
Qed.
(** Others saw the transaction as if it had committed. *)
Lemma commit_kept a' u b v :
  sig a' = s' -> (forall t u, registered a t u -> registered a' t u) -> kept a a' u b v v.
Proof.
  intros Hsig Hreg. apply kept_fields; [done|]. intros [Hs1 Hs2]. rewrite Hsig. split_and!.
  - unfold vis_begin. destruct (rv_begin v) as [[|w]|]; try done. unfold s'. destruct (decide (w = t)) as [->|]; [|by rewrite lookup_insert_ne].
    by rewrite lookup_insert_eq, commit_preparing.
  - intros _. unfold vis_end. destruct (rv_end v) as [[|w]|]; try done. unfold s'. destruct (decide (w = t)) as [->|]; [|by rewrite lookup_insert_ne].
    by rewrite lookup_insert_eq, commit_preparing.
  - intros w Hw%commit_spec. by apply Hreg, Hs1.
  - intros w Hv Hw. apply Hreg, Hs2; [done|]. revert Hw. unfold spec_end. destruct (rv_end v) as [[|w']|]; try done. unfold s'.
    destruct (decide (w' = t)) as [->|]; [|by rewrite lookup_insert_ne]. by rewrite lookup_insert_eq.
Qed.
(** The new commit is apart from the old ones, and from what the validated transactions write. *)
Lemma commit_disjoint c r : c ∈ a_hist a -> r ∈ c_rows c -> r ∈ x_ws x -> disjoint_commits c cr.
Proof.
  intros Hc Hrc Hrx. destruct (i_val _ (inv_sets _ Hi) _ _ _ Hx Hp) as [_ H2]. unfold disjoint_commits. cbn.
  destruct (H2 c r Hc Hrx Hrc) as [|[|]]; [auto..|congruence].
Qed.
Lemma commit_val u y e' r :
  a_txs a !! u = Some y -> u <> t -> x_phase y = Val e' -> r ∈ x_ws y -> r ∈ x_ws x -> e < x_begin y \/ e' < x_begin x \/ x_abort y = true.
Proof.
  intros Hy Hne Hpy Hry Hrx. destruct (i_val _ (inv_sets _ Hi) _ _ _ Hx Hp) as [H1 _]. destruct (i_val _ (inv_sets _ Hi) _ _ _ Hy Hpy) as [H2 _].
  destruct (i_apart _ (inv_txs _ Hi) _ _ _ _ Hy Hx Hne) as [_ Hap]. rewrite Hp, Hpy in Hap. destruct (Hap e eq_refl) as [_ Hee].
  specialize (Hee e' eq_refl). destruct (Z.lt_ge_cases e e').
  - destruct (H2 t x e r ltac:(done) Hx) as [|]; try done; [by rewrite Hp..|auto|congruence].
  - destruct (H1 u y e' r Hne Hy) as [|]; try done; [by rewrite Hpy..|lia|auto|auto].
Qed.

Lemma inv_commit :
  inv {| a_rows := a_rows a; a_txs := <[t := with_phase (Com e) x]> (a_txs a); a_clock := a_clock a;
         a_next := a_next a; a_hist := a_hist a ++ [cr] |}.
Proof.
  pose proof (change_sig a t x (Com e) (a_clock a) (a_hist a ++ [cr])) as Hsig. pose proof commit_val as Hcv. pose proof commit_disjoint as Hcd.
  destruct Hi as [Ht Hr Hs]. destruct (i_tx _ Ht _ _ Hx) as (_ & _ & Hbe & _). rewrite Hp in Hbe. specialize (Hbe e eq_refl).
  assert (Hapart : forall u y, u <> t -> a_txs a !! u = Some y -> x_begin y <> e /\ forall e', end_of (x_phase y) = Some e' -> e' <> e).
  { intros u y Hne Hy. destruct (i_apart _ Ht _ _ _ _ Hy Hx Hne) as [_ Hap]. apply Hap. by rewrite Hp. }
  split.
  - apply change_inv_t; try done; [by intros ? [= <-]|intros ? u y [= <-]; apply Hapart|by rewrite Hp].
  - apply change_inv_r; try done; rewrite Hsig; eauto using commit_time, commit_ctime, commit_spec.
  - split.
    + by apply change_mark.
    + apply change_reads; [done..|]. intros. apply commit_kept; [done|by intros; apply change_registered].
    + intros c [Hc|Hc%list_elem_of_singleton]%elem_of_app; [|subst c].
      * apply change_hist; [done..| |by apply (i_hist _ Hs)]. rewrite Hsig. apply commit_ctime.
      * split; [done|]. intros u y' (y & Hy & Hyx & Hyy & Hpy & -> & _)%(change_back _ _ _ Hx). rewrite Hpy. case_decide as Hut; [subst u|].
        { rewrite Hyx by done. split; [cbn; lia|done]. }
        split; [exact (proj1 (Hapart _ _ Hut Hy))|]. intros _ r Hin Hlt. destruct (i_mark _ Hs t x r Hx) as [|(v & Hv & Href)]; [by rewrite Hp|done|congruence|].
        exists v. split; [done|]. unfold mark_after, ctime_of. rewrite Hsig.
        destruct Href as [->| ->]; [left|right]; rewrite lookup_insert_eq; eauto.
    + intros u y' e' Hy' Hpv. destruct (change_back _ _ _ Hx _ _ _ _ _ Hy') as (y & Hy & _ & Hyy & Hpy & _). rewrite Hpy in Hpv.
      case_decide; [done|]. rewrite Hyy by done. pose proof (i_val _ Hs _ _ _ Hy Hpv) as Hvo. pose proof Hvo as [_ H2]. split.
      * apply (change_val a t x (Com e) (a_clock a) (a_hist a) e' u y); try done.
      * intros c r [Hc|Hc%list_elem_of_singleton]%elem_of_app; [|subst c]; eauto.
    + intros i j c1 c2 r Hij H1 H2 Hr1 Hr2. apply lookup_snoc_Some in H1 as [[Hi1 H1]|[-> <- ]], H2 as [[Hj1 H2]|[-> <- ]]; [..|done].
      * by apply (i_fcw _ Hs i j c1 c2 r).
      * apply list_elem_of_lookup_2 in H1. by eapply Hcd.
      * apply list_elem_of_lookup_2 in H2. destruct (Hcd _ _ H2 Hr2 Hr1); [right|left]; done.
Qed.
End commit.

(** * Turning a committed transaction's marks into timestamps *)

(** A version whose end has been committed has a committed beginning. *)
Lemma committed_begin a r v n u :
  inv a -> v ∈ achain a r -> ctime_of (sig a) (rv_end v) = Some n -> rv_begin v = Some (TxId u) ->
  exists m, sig a !! u = Some (Committed m).
Proof.
  intros Hi Hv Hn Hb. destruct (inv_rows _ Hi _ _ Hv) as [Href _ [Hc1 Hc2]]. unfold ctime_of in Hn.
  destruct (rv_end v) as [[m|w]|] eqn:He; [| |done].
  - destruct (Hc2 m eq_refl) as [|(k & Hk & _)]; [congruence|]. unfold ctime_of in Hk. rewrite Hb in Hk. repeat case_match; naive_solver.
  - destruct (Href w) as (z & Hz & _); [by right|]. destruct (sig a !! w) as [[]|] eqn:Hw; try done.
    destruct (Hc1 w z eq_refl Hz) as [|[|[(k & Hk & _) _]]]; [congruence|naive_solver|]. unfold time_of in Hk. rewrite Hb in Hk.
    destruct (sig a !! u) as [[]|] eqn:Hu; try done; [|by eauto]. exfalso. eapply committed_end_begin; eauto.
Qed.

Definition stamp_field (t : TxID) (e : Z) (f : option TxTimestampOrID) : option TxTimestampOrID :=
  if bool_decide (f = Some (TxId t)) then Some (Timestamp e) else f.

Section rewrite.
Context (a : astate) (Hi : inv a) (t : TxID) (x : atx) (e : Z) (Hx : a_txs a !! t = Some x) (Hp : x_phase x = Com e).

Lemma rewrite_begin v : rv_begin (rewrite_txid_to_timestamp t e v) = stamp_field t e (rv_begin v).
Proof. unfold rewrite_txid_to_timestamp, stamp_field. by repeat case_bool_decide. Qed.
Lemma rewrite_end v : rv_end (rewrite_txid_to_timestamp t e v) = stamp_field t e (rv_end v).
Proof. unfold rewrite_txid_to_timestamp, stamp_field. by repeat case_bool_decide. Qed.
Lemma rewrite_row v : row (rewrite_txid_to_timestamp t e v) = row v.
Proof. unfold rewrite_txid_to_timestamp. by repeat case_bool_decide. Qed.

Lemma rewrite_committed : sig a !! t = Some (Committed e).
Proof. rewrite (sig_at _ _ _ Hx). by rewrite Hp. Qed.
Lemma stamp_TxId f u : stamp_field t e f = Some (TxId u) <-> f = Some (TxId u) /\ u <> t.
Proof. unfold stamp_field. case_bool_decide; naive_solver. Qed.
Lemma stamp_Timestamp f n : stamp_field t e f = Some (Timestamp n) -> f = Some (Timestamp n) \/ f = Some (TxId t) /\ n = e.
Proof. unfold stamp_field. case_bool_decide; naive_solver. Qed.
Lemma stamp_None f : stamp_field t e f = None <-> f = None.
Proof. unfold stamp_field. case_bool_decide; naive_solver. Qed.
Lemma stamp_time f : time_of (sig a) (stamp_field t e f) = time_of (sig a) f.
Proof. unfold stamp_field. case_bool_decide; [|done]. subst. cbn. by rewrite rewrite_committed. Qed.
Lemma stamp_ctime f : ctime_of (sig a) (stamp_field t e f) = ctime_of (sig a) f.
Proof. unfold stamp_field. case_bool_decide; [|done]. subst. cbn. by rewrite rewrite_committed. Qed.
Lemma stamp_refers v u : refers (rewrite_txid_to_timestamp t e v) u <-> refers v u /\ u <> t.
Proof. unfold refers. rewrite rewrite_begin, rewrite_end, !stamp_TxId. tauto. Qed.
Lemma stamp_spec b v w : spec_begin (sig a) b (rewrite_txid_to_timestamp t e v) = Some w -> spec_begin (sig a) b v = Some w.
Proof.
  unfold spec_begin. rewrite rewrite_begin. unfold stamp_field. case_bool_decide as H; [|done]. done.
Qed.
Lemma rewrite_kept a' u b v :
  sig a' = sig a -> (forall t u, registered a t u -> registered a' t u) -> kept a a' u b v (rewrite_txid_to_timestamp t e v).
Proof.
  intros Hsig Hreg. apply kept_fields; [apply rewrite_row|]. intros [Hs1 Hs2]. rewrite Hsig. pose proof rewrite_committed as Hc. split_and!.
  - unfold vis_begin. rewrite rewrite_begin, rewrite_end, (bool_decide_ext _ _ (stamp_None (rv_end v))). unfold stamp_field at 1.
    case_bool_decide as H; [|done]. by rewrite H, Hc.
  - intros _. unfold vis_end. rewrite rewrite_end. unfold stamp_field. case_bool_decide as H; [|done]. by rewrite H, Hc.
  - intros w Hw%stamp_spec. by apply Hreg, Hs1.
  - intros w Hv Hw. apply Hreg, Hs2; [done|]. revert Hw. unfold spec_end. rewrite rewrite_end. unfold stamp_field. by case_bool_decide.
Qed.
Lemma rewrite_version_ok a' r v :
  a_txs a' = a_txs a -> a_clock a' = a_clock a -> v ∈ achain a r -> version_ok a' r (rewrite_txid_to_timestamp t e v).
Proof.
  intros Htx Hcl Hv. assert (Hsig : sig a' = sig a) by (unfold sig; by rewrite Htx).
  destruct (inv_rows _ Hi _ _ Hv) as [H1 H2 [H3 H4]]. destruct (i_tx _ (inv_txs _ Hi) _ _ Hx) as (_ & _ & Hbe & _).
  rewrite Hp in Hbe. specialize (Hbe e eq_refl). split.
  - intros u [Hu _]%stamp_refers. rewrite Htx. auto.
  - intros n Hn. rewrite Hcl, Htx. assert (Hcase : stamped v n \/ n = e).
    { destruct Hn as [Hn|Hn]; rewrite ?rewrite_begin, ?rewrite_end in Hn; apply stamp_Timestamp in Hn; unfold stamped; tauto. }
    destruct Hcase as [|Hn']; [auto|]. subst n. split; [lia|]. intros u y Hy. destruct (decide (u = t)) as [->|Hne]; [naive_solver lia|].
    destruct (i_apart _ (inv_txs _ Hi) _ _ _ _ Hy Hx Hne) as [_ Hap]. rewrite Hp in Hap. exact (proj1 (Hap e eq_refl)).
  - split; rewrite rewrite_begin, rewrite_end, Hsig, ?Htx.
    + intros u y [Hu Hne]%stamp_TxId Hy. rewrite stamp_None, stamp_TxId, stamp_time.
      destruct (H3 u y Hu Hy) as [|[|[? Hw]]]; [by left|by right; left|]. right; right. split; [done|].
      intros w Hs%stamp_spec. specialize (Hw w Hs). unfold registered. by rewrite Htx.
    + intros n Hn. rewrite stamp_None, stamp_ctime. apply stamp_Timestamp in Hn as [Hn|[Hn ->]]; [eauto|].
      destruct (rv_begin v) as [[m|w]|] eqn:Hb; [|..|by left]; right.
      * destruct (H3 t x Hn Hx) as [|[|[(k & Hk & Hlt) _]]]; [done..|]. cbn in *. exists m. split; [done|]. simplify_eq. lia.
      * destruct (committed_begin a r v e w) as (m & Hm); [done..| |done|].
        { rewrite Hn. cbn. by rewrite rewrite_committed. }
        cbn. rewrite Hm. exists m. split; [done|]. destruct (H3 t x Hn Hx) as [|[Hwt|[(k & Hk & Hlt) _]]]; [done| |].
        -- injection Hwt as ->. rewrite rewrite_committed in Hm. naive_solver lia.
        -- cbn in Hk. rewrite Hm in Hk. naive_solver lia.
Qed.

Lemma inv_rewrite ids : NoDup ids -> inv (set_arows a (map_rows (rewrite_txid_to_timestamp t e) ids (a_rows a))).
Proof.
  intros Hnd. set (a' := set_arows _ _). destruct Hi as [Ht Hr Hs].
  assert (Hch : forall r, achain a' r = if decide (r ∈ ids) then map (rewrite_txid_to_timestamp t e) (achain a r) else achain a r).
  { intros r. by apply achain_map_rows. }
  split; [by split; apply Ht| |split].
  - intros r v. rewrite Hch. case_decide; [|intros Hv; destruct (Hr r v Hv); by split].
    intros (v0 & -> & Hv)%list_elem_of_fmap. by apply rewrite_version_ok.
  - intros u y r Hy Hpe Hin. destruct (i_mark _ Hs u y r Hy Hpe Hin) as [|(v & Hv & Hu)]; [by left|]. right. rewrite Hch. case_decide; [|eauto].
    exists (rewrite_txid_to_timestamp t e v). split; [by apply list_elem_of_fmap_2|]. apply stamp_refers. split; [done|].
    intros ->. cbn in Hy. rewrite Hx in Hy. injection Hy as <-. by rewrite Hp in Hpe.
  - intros u y r o Hy Hpe Hrd. pose proof (i_reads _ Hs u y r o Hy Hpe Hrd) as Hro. eapply reads_ok_evolves; [done|by destruct Hro|done..|].
    right. rewrite Hch. case_decide; [apply evolves_map; intros; by apply rewrite_kept|apply evolves_same; intros; by apply kept_same].
  - intros c Hc. destruct (i_hist _ Hs c Hc) as [? Hh]. split; [done|]. intros u y Hy. destruct (Hh u y Hy) as [? Hm]. split; [done|].
    intros Hpe r Hin Hlt. destruct (Hm Hpe r Hin Hlt) as (v & Hv & Hmk). rewrite Hch. case_decide; [|eauto].
    exists (rewrite_txid_to_timestamp t e v). split; [by apply list_elem_of_fmap_2|]. unfold mark_after. change (sig a') with (sig a).
    by rewrite rewrite_begin, rewrite_end, !stamp_ctime.
  - apply (i_val _ Hs).
  - apply (i_fcw _ Hs).
Qed.
End rewrite.

(** * Leaving *)

(** The news [f] to a dependent takes one from its counter, and may condemn it. *)
Definition tells (f : atx -> atx) : Prop :=
  forall y, x_phase (f y) = x_phase y /\ x_begin (f y) = x_begin y /\ x_ws (f y) = x_ws y /\ x_deps (f y) = x_deps y /\
            x_reads (f y) = x_reads y /\ x_ctr (f y) = wrap 64 (x_ctr y - 1) /\ (x_abort y = true -> x_abort (f y) = true).
Lemma tells_committed : tells (bump (-1)).
Proof. intros y. by split_and!. Qed.
Lemma tells_aborted : tells (fun y => bump (-1) (with_abort y)).
Proof. intros y. by split_and!. Qed.
#[local] Hint Resolve tells_committed tells_aborted : core.

Section leave.
Context (a : astate) (Hi : inv a) (t : TxID) (x : atx) (Hx : a_txs a !! t = Some x) (f : atx -> atx) (rows' : gmap RowID (list RowVersion)).
Context (Hf : tells f).
Let a' := {| a_rows := rows'; a_txs := leave t f (x_deps x) (a_txs a); a_clock := a_clock a; a_next := a_next a; a_hist := a_hist a |}.

Lemma leave_back u y' :
  a_txs a' !! u = Some y' ->
  exists y, u <> t /\ a_txs a !! u = Some y /\ y' = (if decide (u ∈ x_deps x) then f y else y) /\ x_phase y' = x_phase y /\
    x_begin y' = x_begin y /\ x_ws y' = x_ws y /\ x_deps y' = x_deps y /\ x_reads y' = x_reads y /\ (x_abort y = true -> x_abort y' = true).
Proof.
  cbn. rewrite leave_lookup. case_decide; [done|]. destruct (decide (u ∈ x_deps x)); [|intros Hy; exists y'; by split_and!].
  intros (y & Hy & ->)%fmap_Some. exists y. destruct (Hf y) as (? & ? & ? & ? & ? & ? & ?). by split_and!.
Qed.
Lemma leave_fwd u y : a_txs a !! u = Some y -> u <> t ->
  exists y', a_txs a' !! u = Some y' /\ x_phase y' = x_phase y /\ x_begin y' = x_begin y /\ x_ws y' = x_ws y /\ x_deps y' = x_deps y.
Proof.
  intros Hy Hne. cbn. rewrite leave_lookup, decide_False by done. destruct (Hf y) as (? & ? & ? & ? & _).
  case_decide; rewrite Hy; [exists (f y)|exists y]; by split_and!.
Qed.
Lemma leave_sig u : u <> t -> sig a' !! u = sig a !! u.
Proof.
  intros Hne. rewrite !sig_lookup. destruct (a_txs a !! u) as [y|] eqn:Hy.
  - destruct (leave_fwd u y Hy Hne) as (y' & -> & Hp & _). cbn. by rewrite Hp.
  - destruct (a_txs a' !! u) as [y'|] eqn:Hy'; [|done]. destruct (leave_back _ _ Hy') as (y & _ & Hy2 & _). by rewrite Hy in Hy2.
Qed.
Lemma leave_registered t' u : u <> t -> registered a t' u -> registered a' t' u.
Proof. intros Hne (y & Hy & Hin). destruct (leave_fwd u y Hy Hne) as (y' & Hy' & _ & _ & _ & Hd). exists y'. by rewrite Hd. Qed.
Lemma leave_dependees u : dependees (a_txs a') u = dependees (a_txs a) u ∖ {[t]}.
Proof.
  apply set_eq. intros w. rewrite elem_of_difference, elem_of_singleton, !elem_of_dependees. split.
  - intros (z & Hz & Hu). destruct (leave_back _ _ Hz) as (z0 & Hne & Hz0 & _ & _ & _ & _ & Hd & _). split; [|done]. exists z0. by rewrite <- Hd.
  - intros [(z & Hz & Hu) Hne]. destruct (leave_fwd _ _ Hz Hne) as (z' & Hz' & _ & _ & _ & Hd). exists z'. by rewrite Hd.
Qed.
Lemma leave_ctr u y' : a_txs a' !! u = Some y' -> x_ctr y' = wrap 64 (Z.of_nat (size (dependees (a_txs a') u))).
Proof.
  intros (y & Hne & Hy & -> & _)%leave_back. pose proof (i_ctr _ (inv_txs _ Hi) _ _ Hy) as Hc. rewrite leave_dependees.
  destruct (decide (u ∈ x_deps x)) as [Hin|Hni].
  - assert (Ht : t ∈ dependees (a_txs a) u) by (apply elem_of_dependees; eauto).
    destruct (Hf y) as (_ & _ & _ & _ & _ & -> & _). rewrite Hc, (union_difference_singleton_L t (dependees (a_txs a) u)) at 1 by done.
    rewrite size_union, size_singleton by set_solver. unfold wrap. rewrite Zminus_mod_idemp_l. f_equal. lia.
  - rewrite Hc. do 3 f_equal. apply set_eq. intros w. rewrite elem_of_difference, elem_of_singleton. split; [|tauto]. intros Hw. split; [done|].
    intros ->. apply elem_of_dependees in Hw as (z & Hz & Hu). rewrite Hx in Hz. by injection Hz as <-.
Qed.
Lemma leave_inv_t : inv_t a'.
Proof.
  destruct Hi as [[] _ _]. apply (inv_t_phases a a'); [by split|done..| | | |intros; by apply leave_ctr].
  - intros u y' (y & _ & Hy & _ & ? & ? & _)%leave_back. eauto.
  - intros u y' (y & _ & Hy & _ & _ & _ & -> & _)%leave_back. destruct (i_tx0 _ _ Hy) as (_ & _ & _ & ?). done.
  - intros w z' u Hz' Hu. destruct (leave_back _ _ Hz') as (z & _ & Hz & _ & Hp & _ & _ & Hd & _). rewrite Hd in Hu.
    destruct (i_dep0 _ _ _ Hz Hu) as (? & ? & e & He & Hy). split_and!; [done..|]. exists e. rewrite Hp. split; [done|].
    intros y' (y & _ & Hy0 & _ & -> & -> & _)%leave_back. auto.
Qed.
Lemma leave_version_ok r v v' :
  v ∈ achain a r -> ~ refers v t -> rv_begin v' = rv_begin v -> rv_end v' = rv_end v -> version_ok a' r v'.
Proof.
  intros Hv Hno Hb He. apply version_ok_ext with a v; [by apply (inv_rows _ Hi)|done..| | |].
  - intros u y Hu Hy. destruct (leave_fwd u y Hy) as (y' & Hy' & Hp & Hbe & Hw & _); [congruence|]. exists y'. by rewrite Hp, Hbe, Hw.
  - intros u y' (y & _ & Hy & _ & _ & ? & _)%leave_back. right. eauto.
  - intros w u _ Hu. apply leave_registered. congruence.
Qed.
Lemma leave_mark_after b v : ~ refers v t -> mark_after a b v -> mark_after a' b v.
Proof. intros Hno. apply mark_after_ext. intros u Hu. apply leave_sig. congruence. Qed.
Lemma leave_kept u b v v' : ~ refers v t -> row v' = row v -> rv_begin v' = rv_begin v -> rv_end v' = rv_end v -> kept a a' u b v v'.
Proof. intros Hno ???. apply kept_same; try done; intros w Hw; [apply leave_sig|apply leave_registered]; congruence. Qed.
Lemma leave_val u y' e : a_txs a' !! u = Some y' -> x_phase y' = Val e -> val_ok a' u y' e.
Proof.
  intros (y & _ & Hy & _ & -> & Hb & Hw & _ & _ & Hab)%leave_back Hv. destruct (i_val _ (inv_sets _ Hi) _ _ _ Hy Hv) as [H1 H2].
  split; rewrite Hb, Hw.
  - intros w z' e' r Hne (z & _ & Hz & _ & -> & _ & -> & _ & _ & Hab')%leave_back Hpe Hee Hlt Hr1 Hr2.
    destruct (H1 w z e' r Hne Hz Hpe Hee Hlt Hr1 Hr2); auto.
  - intros c r Hc Hr1 Hr2. destruct (H2 c r Hc Hr1 Hr2) as [|[|]]; auto.
Qed.
(** Reads, marks and commits, when the versions of the leaver are dealt with. *)
Lemma leave_inv_s :
  (forall u y r, a_txs a !! u = Some y -> u <> t -> pending (x_phase y) = true -> (exists v, v ∈ achain a r /\ refers v u) ->
     u ∈ x_deps x /\ x_abort (f y) = true \/ exists v, v ∈ achain a' r /\ refers v u) ->
  (forall u y r, a_txs a !! u = Some y -> u <> t -> pending (x_phase y) = true ->
     (forall v, v ∈ achain a r -> ~ refers v u) ->
     u ∈ x_deps x /\ x_abort (f y) = true \/ evolves a a' u (x_begin y) (achain a r) (achain a' r)) ->
  (forall r b v, v ∈ achain a r -> mark_after a b v -> exists v', v' ∈ achain a' r /\ mark_after a' b v') -> inv_s a'.
Proof.
  intros Hmk Hrd Hma. pose proof (inv_sets _ Hi) as []. split; [..|intros; by eapply leave_val|done].
  - intros u y' r (y & Hne & Hy & Hyy & -> & _ & -> & _ & _ & Hab)%leave_back Hpe Hin.
    destruct (i_mark0 u y r Hy Hpe Hin) as [|Hv]; [auto|]. destruct (Hmk u y r Hy Hne Hpe Hv) as [[Hd ?]|]; [|by right].
    rewrite decide_True in Hyy by done. subst. by left.
  - intros u y' r o (y & Hne & Hy & Hyy & -> & Hb & Hw & _ & -> & Hab)%leave_back Hpe Hro. pose proof (i_reads0 u y r o Hy Hpe Hro) as Hok.
    eapply reads_ok_evolves; [done|by rewrite Hw; destruct Hok|done..|].
    destruct (Hrd u y r Hy Hne Hpe) as [[Hd ?]|]; [|left|by right].
    + intros v Hv Href. destruct (v_ref _ _ _ (inv_rows _ Hi _ _ Hv) _ Href) as (y2 & Hy2 & Hin). rewrite Hy in Hy2. injection Hy2 as <-. by destruct Hok.
    + rewrite decide_True in Hyy by done. by subst.
  - intros c Hc. destruct (i_hist0 c Hc) as [? Hh]. split; [done|]. intros u y' (y & _ & Hy & _ & -> & -> & _)%leave_back.
    destruct (Hh u y Hy) as [? Hm]. split; [done|]. intros Hpe r Hin Hlt. destruct (Hm Hpe r Hin Hlt) as (v & Hv & Hk). eauto.
Qed.
End leave.

Lemma inv_finish a t x e :
  inv a -> a_txs a !! t = Some x -> x_phase x = Com e -> no_refs t a ->
  inv (set_atxs a (leave t (bump (-1)) (x_deps x) (a_txs a))).
Proof.
  intros Hi Hx Hp Hno. assert (Hnr : forall r v, v ∈ achain a r -> ~ refers v t) by (intros r v Hv [|]; by destruct (Hno r v Hv)).
  unfold set_atxs. split.
  - by apply leave_inv_t.
  - intros r v Hv. eapply leave_version_ok; eauto.
  - apply leave_inv_s; [done..| | |].
    + intros u y r _ _ _ Hv. by right.
    + intros u y r Hy Hne Hpe _. right. apply evolves_same. intros v Hv. apply leave_kept; eauto.
    + intros r b v Hv Hm. exists v. split; [done|]. apply leave_mark_after; eauto.
Qed.

Section abort.
Context (a : astate) (Hi : inv a) (t : TxID) (x : atx) (Hx : a_txs a !! t = Some x) (Hp : pending (x_phase x) = true).

Lemma abort_uncommitted m : sig a !! t <> Some (Committed m).
Proof. rewrite (sig_at _ _ _ Hx). destruct (x_phase x); naive_solver. Qed.
Lemma rollback_refers v u : refers (rollback_row_version t v) u -> refers v u /\ u <> t.
Proof. unfold rollback_row_version, refers. repeat case_bool_decide; cbn; naive_solver. Qed.
Lemma rollback_same v : ~ refers v t -> rollback_row_version t v = v.
Proof. unfold refers, rollback_row_version. intros H. rewrite !bool_decide_false by tauto. done. Qed.
Lemma rollback_cases v :
  ~ refers v t /\ rollback_row_version t v = v \/
  rv_begin v = Some (TxId t) /\ rollback_row_version t v = set_end (set_begin v None) None \/
  rv_begin v <> Some (TxId t) /\ rv_end v = Some (TxId t) /\ rollback_row_version t v = set_end v None.
Proof. unfold rollback_row_version, refers. repeat case_bool_decide; tauto. Qed.

Lemma rollback_version_ok f rows' r v :
  tells f -> v ∈ achain a r ->
  version_ok {| a_rows := rows'; a_txs := leave t f (x_deps x) (a_txs a); a_clock := a_clock a; a_next := a_next a; a_hist := a_hist a |}
    r (rollback_row_version t v).
Proof.
  intros Hf Hv. destruct (rollback_cases v) as [[Hno ->]|[[Hb ->]|(Hb & He & ->)]].
  - by eapply leave_version_ok.
  - split; [intros u [|]; done|intros n [|]; done|by split].
  - destruct (inv_rows _ Hi _ _ Hv) as [H1 H2 _]. split; [| |by split].
    + intros u [Hu|]; [|done]. cbn in Hu. destruct (H1 u) as (y & Hy & Hw); [by left|].
      destruct (leave_fwd a t x f rows' Hf u y Hy) as (y' & Hy' & _ & _ & Hw' & _); [congruence|]. exists y'. by rewrite Hw'.
    + intros n [Hn|]; [|done]. cbn in Hn. destruct (H2 n) as [? Hne]; [by left|]. split; [done|].
      intros u y' (y & _ & Hy & _ & _ & -> & _)%(leave_back a t x f rows' Hf). eauto.
Qed.
(** The reader did not bet on the leaver: its writes were hidden and its deletions not yet seen. *)
Lemma rollback_kept a' u b v :
  ~ refers v u -> u <> t -> u ∉ x_deps x -> (forall w, w <> t -> sig a' !! w = sig a !! w) ->
  (forall t' w, w <> t -> registered a t' w -> registered a' t' w) -> kept a a' u b v (rollback_row_version t v).
Proof.
  intros Hnu Hne Hnd Hsig Hreg. destruct (rollback_cases v) as [[Hno ->]|[[Hb ->]|(Hb & He & ->)]].
  - apply kept_same; try done; intros w Hw; [apply Hsig|apply Hreg]; congruence.
  - apply kept_fields; [done|]. intros [Hs1 _]. assert (Hf : vis_begin (sig a) u b v = false); [|rewrite Hf; by split_and!].
    unfold vis_begin. unfold spec_begin in Hs1. rewrite Hb in *. apply Z.eqb_neq in Hne. destruct (sig a !! t) as [[|end_ts| | |end_ts]|] eqn:Ht; try done.
    + by rewrite Hne.
    + destruct (end_ts <? b); [|done]. destruct (Hs1 t eq_refl) as (y & Hy & Hin). rewrite Hx in Hy. by injection Hy as <-.
    + by destruct (abort_uncommitted end_ts).
  - apply kept_fields; [done|]. intros [Hs1 Hs2]. assert (Hsb : forall w, rv_begin v = Some (TxId w) -> sig a' !! w = sig a !! w).
    { intros w Hw. apply Hsig. congruence. }
    split_and!; [| |intros w Hw; apply Hreg, Hs1|by intros].
    + unfold vis_begin. cbn. destruct (rv_begin v) as [[n|w]|] eqn:Hbv; try done. rewrite Hsb by done.
      destruct (sig a !! w) as [[]|]; try done. destruct (u =? w) eqn:Huw; [|done]. apply Z.eqb_eq in Huw as <-. destruct Hnu. by left.
    + intros Hvb. unfold vis_end. unfold spec_end in Hs2. cbn. rewrite He in *. apply Z.eqb_neq in Hne. destruct (sig a !! t) as [[|end_ts| | |end_ts]|] eqn:Ht; try done.
      * by rewrite Hne.
      * destruct (b <? end_ts); [done|]. destruct (Hs2 t Hvb eq_refl) as (y & Hy & Hin). rewrite Hx in Hy. by injection Hy as <-.
      * by destruct (abort_uncommitted end_ts).
    + apply spec_begin_refers in Hw. destruct Hw as [Hw|]; [cbn in Hw; congruence|done].
    + revert Hw. unfold spec_begin. cbn. destruct (rv_begin v) as [[n|w']|] eqn:Hbv; try done. by rewrite Hsb.
Qed.
Lemma rollback_mark r v b a' :
  v ∈ achain a r -> (forall w, w <> t -> sig a' !! w = sig a !! w) -> mark_after a b v -> mark_after a' b (rollback_row_version t v).
Proof.
  intros Hv Hsig Hm. assert (Hct : forall g n, ctime_of (sig a) g = Some n -> g <> Some (TxId t) /\ ctime_of (sig a') g = Some n).
  { intros [[k|w]|] n Hn; try done. cbn in *. destruct (sig a !! w) as [[|end_ts| | |end_ts]|] eqn:Hw; try done.
    assert (w <> t) by (intros ->; by destruct (abort_uncommitted end_ts)). rewrite Hsig, Hw by done. split; [congruence|done]. }
  destruct (rollback_cases v) as [[Hno ->]|[[Hb ->]|(Hb & He & ->)]]; destruct Hm as [(n & Hn & Hlt)|(n & Hn & Hlt)].
  - left. destruct (Hct _ _ Hn). eauto.
  - right. destruct (Hct _ _ Hn). eauto.
  - by destruct (Hct _ _ Hn).
  - destruct (committed_begin a r v n t Hi Hv Hn Hb) as (m & Hm). by destruct (abort_uncommitted m).
  - left. destruct (Hct _ _ Hn). eauto.
  - by destruct (Hct _ _ Hn).
Qed.

Lemma inv_abort :
  inv (set_atxs (set_arows a (map_rows (rollback_row_version t) (x_ws x) (a_rows a)))
                (leave t (fun y => bump (-1) (with_abort y)) (x_deps x) (a_txs a))).
Proof.
  set (rows' := map_rows _ _ _). change (inv {| a_rows := rows'; a_txs := leave t (fun y => bump (-1) (with_abort y)) (x_deps x) (a_txs a);
    a_clock := a_clock a; a_next := a_next a; a_hist := a_hist a |}).
  set (a' := {| a_rows := rows' |}). destruct (i_tx _ (inv_txs _ Hi) _ _ Hx) as (_ & _ & _ & Hnd).
  assert (Hsame : forall r v, r ∉ x_ws x -> v ∈ achain a r -> ~ refers v t).
  { intros r v Hr Hv Ht. destruct (v_ref _ _ _ (inv_rows _ Hi _ _ Hv) _ Ht) as (y & Hy & Hin). rewrite Hx in Hy. by injection Hy as <-. }
  assert (Hch : forall r, achain a' r = map (rollback_row_version t) (achain a r)).
  { intros r. etransitivity; [exact (achain_map_rows a _ _ r Hnd)|]. case_decide as Hr; [done|]. symmetry.
    transitivity (map (fun v => v) (achain a r)); [|apply map_id]. apply map_ext_in. intros v Hv%list_elem_of_In. apply rollback_same. eauto. }
  split.
  - by apply leave_inv_t.
  - intros r v. rewrite Hch. intros (v0 & -> & Hv)%list_elem_of_fmap. by apply rollback_version_ok.
  - apply leave_inv_s; [done..| | |]; change {| a_rows := rows' |} with a'.
    + intros u y r Hy Hne Hpe (v & Hv & Hu). destruct (decide (u ∈ x_deps x)) as [|Hnd2]; [by left|]. right. rewrite Hch.
      exists (rollback_row_version t v). split; [by apply list_elem_of_fmap_2|].
      destruct (rollback_cases v) as [[Hno ->]|[[Hb ->]|(Hb & He & ->)]]; [done| |destruct Hu; [by left|congruence]].
      exfalso. destruct Hu as [|He]; [congruence|]. destruct (inv_rows _ Hi _ _ Hv) as [_ _ [Hc _]].
      destruct (Hc u y He Hy) as [|[|[(n & Hn & Hlt) Hsp]]]; [congruence..|]. unfold time_of in Hn. unfold spec_begin in Hsp. rewrite Hb in Hn, Hsp.
      destruct (sig a !! t) as [[|end_ts| | |end_ts]|] eqn:Ht; try done; [|by destruct (abort_uncommitted end_ts)]. injection Hn as ->.
      apply Z.ltb_lt in Hlt. rewrite Hlt in Hsp. destruct (Hsp t eq_refl) as (y2 & Hy2 & Hin). rewrite Hx in Hy2. by injection Hy2 as <-.
    + intros u y r Hy Hne Hpe Hnr. destruct (decide (u ∈ x_deps x)) as [|Hnd2]; [by left|]. right. rewrite Hch. apply evolves_map. intros v Hv.
      apply rollback_kept; auto; intros; [by apply leave_sig|by apply leave_registered].
    + intros r b v Hv Hm. rewrite Hch. exists (rollback_row_version t v). split; [by apply list_elem_of_fmap_2|].
      eapply rollback_mark; [done| |done]. intros. by apply leave_sig.
Qed.
End abort.

(** * Undoing a transaction's own writes *)

Lemma undone_back t l l' v' : undone t l l' -> v' ∈ l' -> v' ∈ l \/ exists v, v ∈ l /\ ended_by t v /\ v' = set_end v None.
Proof.
  induction 1 as [|v l l' _ IH|v l l' _ _ IH|v l l' He _ IH]; [by left| | |]; rewrite ?elem_of_cons.
  - intros [->|Hv]; [by left; left|]. destruct (IH Hv) as [|(w & Hw & ?)]; [by left; right|]. right. exists w. rewrite elem_of_cons. auto.
  - intros Hv. destruct (IH Hv) as [|(w & Hw & ?)]; [by left; right|]. right. exists w. rewrite elem_of_cons. auto.
  - intros [->|Hv]; [right; exists v; rewrite elem_of_cons; auto|]. destruct (IH Hv) as [|(w & Hw & ?)]; [by left; right|].
    right. exists w. rewrite elem_of_cons. auto.
Qed.
Lemma undone_fwd t l l' v : undone t l l' -> v ∈ l -> v ∈ l' \/ created_by t v \/ ended_by t v /\ set_end v None ∈ l'.
Proof.
  induction 1 as [|w l l' _ IH|w l l' Hc _ IH|w l l' He _ IH]; [by left| | |]; rewrite !elem_of_cons; intros [->|Hv]; auto.
  - destruct (IH Hv) as [|[|[]]]; auto.
  - destruct (IH Hv) as [|[|[]]]; auto.
Qed.

Section undo.
Context (a : astate) (Hi : inv a) (t : TxID) (x : atx) (Hx : a_txs a !! t = Some x) (Hp : x_phase x = Act).
Context (ws : list RowID) (Hws : ws `sublist_of` x_ws x) (m : gmap RowID (list RowVersion)).
Let a' := set_arows (upd a t (with_ws ws x)) m.
Context (U1 : forall r, undone t (achain a r) (achain a' r)).
Context (U2 : forall r v, v ∈ achain a' r -> refers v t -> r ∈ ws).
Context (U3 : forall r, r ∈ ws -> x_abort x = true \/ exists v, v ∈ achain a' r /\ refers v t).

Lemma undo_active : sig a !! t = Some Active.
Proof. rewrite sig_lookup, Hx. cbn. by rewrite Hp. Qed.
Lemma undo_ws r : r ∈ ws -> r ∈ x_ws x.
Proof. intros. by eapply elem_of_sublist. Qed.
Lemma undo_back u y' :
  a_txs a' !! u = Some y' ->
  exists y, a_txs a !! u = Some y /\ y' = (if decide (u = t) then with_ws ws x else y) /\ (u = t -> y = x) /\
    x_phase y' = x_phase y /\ x_begin y' = x_begin y /\ x_abort y' = x_abort y /\ x_deps y' = x_deps y /\ x_ctr y' = x_ctr y /\ x_reads y' = x_reads y.
Proof.
  cbn. case_decide as H; [subst u; rewrite lookup_insert_eq|rewrite lookup_insert_ne by done].
  - intros [= <-]. exists x. by split_and!.
  - intros Hy. exists y'. by split_and!.
Qed.
Lemma undo_fwd u y : a_txs a !! u = Some y ->
  exists y', a_txs a' !! u = Some y' /\ x_begin y' = x_begin y /\ x_phase y' = x_phase y /\ x_deps y' = x_deps y /\ (u <> t -> y' = y) /\ (u = t -> x_ws y' = ws).
Proof.
  intros Hy. cbn. destruct (decide (u = t)) as [->|]; [rewrite lookup_insert_eq|rewrite lookup_insert_ne by done].
  - rewrite Hx in Hy. injection Hy as <-. eexists. by split_and!.
  - eexists. by split_and!.
Qed.
Lemma undo_sig : sig a' = sig a.
Proof.
  apply map_eq. intros u. rewrite !sig_lookup. destruct (a_txs a !! u) as [y|] eqn:Hy.
  - destruct (undo_fwd _ _ Hy) as (y' & -> & _ & Hpy & _). cbn. by rewrite Hpy.
  - destruct (a_txs a' !! u) as [y'|] eqn:Hy'; [|done]. destruct (undo_back _ _ Hy') as (y & Hy2 & _). by rewrite Hy in Hy2.
Qed.
Lemma undo_dependees u : dependees (a_txs a') u = dependees (a_txs a) u.
Proof.
  apply set_eq. intros w. rewrite !elem_of_dependees. split.
  - intros (z & (z0 & Hz0 & _ & _ & _ & _ & _ & Hd & _)%undo_back & Hu). exists z0. by rewrite <- Hd.
  - intros (z & (z' & Hz' & _ & _ & Hd & _)%undo_fwd & Hu). exists z'. by rewrite Hd.
Qed.
Lemma undo_registered t' u : registered a t' u -> registered a' t' u.
Proof. by rewrite !registered_dependees, undo_dependees. Qed.

(** A version that [t] has made refers to nobody else, and no commit has touched it. *)
Lemma created_only r v : v ∈ achain a r -> created_by t v ->
  (forall u, refers v u -> u = t) /\ ctime_of (sig a) (rv_begin v) = None /\ ctime_of (sig a) (rv_end v) = None.
Proof.
  intros Hv Hc. pose proof undo_active as Hact. destruct (inv_rows _ Hi r v Hv) as [Hr _ [C1 C2]].
  destruct Hc as [Hb|[Hb [He|He]]]; [|unfold refers; rewrite Hb, He; cbn; rewrite ?Hact; split_and!; [|done..]; intros u [|]; congruence..].
  rewrite Hb in *. cbn. rewrite Hact. assert (He : rv_end v = None \/ rv_end v = Some (TxId t)).
  { destruct (rv_end v) as [[e|u]|] eqn:He; [| |by left].
    - destruct (C2 e eq_refl) as [|(n & Hn & _)]; [done|]. cbn in Hn. by rewrite Hact in Hn.
    - destruct (Hr u) as (y & Hy & _); [by right|]. destruct (C1 u y eq_refl Hy) as [|[Hu|[(n & Hn & _) _]]]; [done|right; congruence|].
      cbn in Hn. by rewrite Hact in Hn. }
  split_and!; [|done|destruct He as [-> | ->]; [done|cbn; by rewrite Hact]]. unfold refers. rewrite Hb. intros u [|]; destruct He; congruence.
Qed.
(** A version that lives again is seen by the others as before. *)
Lemma restored_kept r v u b : v ∈ achain a r -> ended_by t v -> u <> t -> kept a a' u b v (set_end v None).
Proof.
  intros Hv [He|[Hb He]] Hne; [|apply kept_same; try done; [by rewrite undo_sig|intros; by apply undo_registered]].
  pose proof undo_active as Hact. apply kept_fields; [done|]. intros [Hs1 Hs2]. rewrite undo_sig. split_and!.
  - unfold vis_begin. cbn. destruct (rv_begin v) as [[n|w]|] eqn:Hb; try done. destruct (sig a !! w) as [[]|] eqn:Hw; try done.
    rewrite (bool_decide_false (rv_end v = None)) by congruence. rewrite andb_false_r. apply andb_false_intro1, Z.eqb_neq. intros ->.
    destruct (inv_rows _ Hi r v Hv) as [_ _ [C1 _]]. destruct (C1 t x He Hx) as [|[|[(n & Hn & _) _]]]; [congruence..|].
    rewrite Hb in Hn. cbn in Hn. by rewrite Hw in Hn.
  - intros _. unfold vis_end. cbn. rewrite He, Hact. apply Z.eqb_neq in Hne. by rewrite Hne.
  - intros w Hw. apply undo_registered, Hs1, Hw.
  - done.
Qed.
Lemma undo_evolves r u b l l' : (forall v, v ∈ l -> v ∈ achain a r) -> undone t l l' ->
  u <> t \/ (forall v, v ∈ l -> ~ refers v t) -> evolves a a' u b l l'.
Proof.
  intros Hin Hu Hne. assert (Hsame : forall v v', row v' = row v -> rv_begin v' = rv_begin v -> rv_end v' = rv_end v -> kept a a' u b v v').
  { intros. apply kept_same; try done; [by rewrite undo_sig|intros; by apply undo_registered]. }
  induction Hu as [|v l l' _ IH|v l l' Hc _ IH|v l l' He _ IH]; [constructor|..].
  all: assert (IH' : evolves a a' u b l l') by (apply IH; [intros; apply Hin; by right|destruct Hne as [|Hn]; [by left|right; intros; apply Hn; by right]]).
  - apply ev_keep; [by apply Hsame|done].
  - apply ev_drop; [|done]. intros _. unfold vis, vis_begin. destruct Hc as [Hb|[-> _]]; [|done].
    destruct Hne as [Hne|Hn]; [|destruct (Hn v); by left]. rewrite Hb, undo_active. apply Z.eqb_neq in Hne. by rewrite Hne.
  - apply ev_keep; [|done]. destruct Hne as [Hne|Hn]; [eapply restored_kept; [apply Hin; by left|done..]|].
    destruct He as [He|[Hb He]]; [destruct (Hn v); [by left|by right]|]. by apply Hsame.
Qed.

Lemma undo_inv_t : inv_t a'.
Proof.
  pose proof (inv_txs _ Hi) as Ht. apply (inv_t_phases a a'); try done.
  - intros u y' (y & Hy & _ & _ & Hpy & Hb & _)%undo_back. eauto.
  - intros u y' (y & Hy & -> & Hyx & _)%undo_back. destruct (i_tx _ Ht _ _ Hy) as (_ & _ & _ & Hnd).
    case_decide; [|done]. cbn. eapply sublist_NoDup; [|done]. by rewrite <- Hyx.
  - intros w z u (z0 & Hz & _ & _ & Hpz & Hb & _ & Hd & _)%undo_back. rewrite Hd. intros Hu.
    destruct (i_dep _ Ht _ _ _ Hz Hu) as (? & ? & e & He & Hy). split_and!; [done|done|]. exists e. rewrite Hpz. split; [done|].
    intros y' (y & Hy0 & _ & _ & Hpy & Hby & _)%undo_back. rewrite Hpy, Hby. auto.
  - intros u y' (y & Hy & _ & _ & _ & _ & _ & _ & Hc & _)%undo_back. by rewrite Hc, undo_dependees, (i_ctr _ Ht _ _ Hy).
Qed.
Lemma undo_inv_r : inv_r a'.
Proof.
  intros r v' Hv'. assert (Hok : forall v, v ∈ achain a r -> v ∈ achain a' r -> version_ok a' r v).
  { intros v Hv Hv1. apply version_ok_ext with a v; [by apply (inv_rows _ Hi)|done..| | |by intros ? ? _ _; apply undo_registered].
    - intros u y Hu Hy. destruct (undo_fwd _ _ Hy) as (y' & Hy' & Hb & Hpy & _ & Hn & He). exists y'. rewrite Hpy. split_and!; [done..|].
      intros Hin. destruct (decide (u = t)) as [->|]; [rewrite He by done; by eapply U2|by rewrite Hn].
    - intros u y' (y & Hy & _ & _ & _ & Hb & _)%undo_back. right. eauto. }
  destruct (undone_back _ _ _ _ (U1 r) Hv') as [|(v & Hv & _ & ->)]; [by apply Hok|]. destruct (inv_rows _ Hi r v Hv) as [Hr Hs _]. split; [| |by split].
  - intros u Hu. destruct (decide (u = t)) as [->|Hne].
    + destruct (undo_fwd _ _ Hx) as (y' & Hy' & _ & _ & _ & _ & He). exists y'. rewrite He by done. split; [done|]. by eapply U2.
    + destruct Hu as [Hu|]; [|done]. destruct (Hr u) as (y & Hy & Hw); [by left|]. destruct (undo_fwd _ _ Hy) as (y' & Hy' & _ & _ & _ & Hn & _).
      exists y'. by rewrite Hn in *.
  - intros n [Hn|]; [|done]. destruct (Hs n) as [? Hne]; [by left|]. split; [done|].
    intros u y' (y & Hy & _ & _ & _ & -> & _)%undo_back. eauto.
Qed.
Lemma undo_inv_s : inv_s a'.
Proof.
  pose proof (inv_sets _ Hi) as []. split; [..|done].
  - intros u y' r Hy' Hpe Hin. destruct (undo_back _ _ Hy') as (y & Hy & Hyy & Hyx & Hpy & _ & Hab & _). rewrite Hab.
    destruct (decide (u = t)) as [->|Hne]; [subst y'; rewrite Hyx by done; by apply U3|]. subst y'.
    destruct (i_mark0 _ _ _ Hy Hpe Hin) as [|(v & Hv & Href)]; [by left|]. right.
    destruct (undone_fwd _ _ _ _ (U1 r) Hv) as [|[Hc|[He Hv']]]; [by eauto| |].
    + destruct (created_only r v Hv Hc) as [Ho _]. by destruct Hne, (Ho u Href).
    + exists (set_end v None). split; [done|]. destruct Href as [|Hu]; [by left|]. destruct He as [He|[_ He]]; congruence.
  - intros u y' r o Hy' Hpe Hrd. destruct (undo_back _ _ Hy') as (y & Hy & Hyy & Hyx & Hpy & Hb & Hab & _ & _ & Hrs).
    rewrite Hrs in Hrd. rewrite Hpy in Hpe. destruct (i_reads0 _ _ _ _ Hy Hpe Hrd) as [Hw Hf].
    eapply reads_ok_evolves with (a := a) (x := y); [by split| |done|by rewrite Hab|].
    + subst y'. case_decide as Hu; [|done]. cbn. intros Hin%undo_ws. by rewrite Hyx in Hw.
    + right. apply (undo_evolves r); [done|apply U1|]. destruct (decide (u = t)) as [->|]; [|by left]. right. intros v Hv Href.
      destruct (v_ref _ _ _ (inv_rows _ Hi r v Hv) t Href) as (z & Hz & Hin). rewrite Hy in Hz. by injection Hz as <-.
  - intros c Hc. destruct (i_hist0 _ Hc) as [? Hh]. split; [done|].
    intros u y' (y & Hy & _ & _ & Hpy & Hb & _)%undo_back. rewrite Hpy, Hb. destruct (Hh _ _ Hy) as [? Hm]. split; [done|].
    intros Hpe r Hin Hlt. destruct (Hm Hpe r Hin Hlt) as (v & Hv & Hmk). destruct (undone_fwd _ _ _ _ (U1 r) Hv) as [|[Hcr|[He Hv']]].
    + exists v. split; [done|]. apply mark_after_ext with a; [|done]. by rewrite undo_sig.
    + destruct (created_only r v Hv Hcr) as (_ & H1 & H2). destruct Hmk as [(n & Hn & _)|(n & Hn & _)]; congruence.
    + exists (set_end v None). split; [done|]. unfold mark_after in *. rewrite undo_sig. destruct Hmk as [|(n & Hn & _)]; [by left|].
      destruct He as [He|[_ He]]; rewrite He in Hn; [|done]. cbn in Hn. by rewrite undo_active in Hn.
  - intros u y' e Hy' Hv. destruct (undo_back _ _ Hy') as (y & Hy & Hyy & Hyx & Hpy & Hb & Hab & _). rewrite Hpy in Hv.
    assert (u <> t) by (intros ->; rewrite Hyx in Hv by done; congruence). rewrite decide_False in Hyy by done. subst y'.
    destruct (i_val0 _ _ _ Hy Hv) as [H1 H2]. split; [|done]. intros w z' e' r Hne Hz' Hpz Hez Hlt Hin Hin'.
    destruct (undo_back _ _ Hz') as (z & Hz & Hzz & Hzx & Hpz' & _ & Habz & _). rewrite Hpz' in *.
    assert (w <> t) by (intros ->; rewrite Hzx in Hez by done; by rewrite Hp in Hez). rewrite decide_False in Hzz by done. subst z'. eauto.
Qed.
Lemma inv_undo : inv a'.
Proof. split; [apply undo_inv_t|apply undo_inv_r|apply undo_inv_s]. Qed.
End undo.

(** * Collecting garbage *)

(** The versions that a collection drops: those without fields, those that have ended before
    every transaction under way began, and a version that is alone and in the B-tree. *)
Lemma gc_version_chain_filter vs lwm ckpt_max passive mark :
  exists keep : RowVersion -> bool, gc_version_chain vs lwm ckpt_max passive mark = List.filter keep vs /\
    forall v, v ∈ vs -> keep v = false ->
      rv_begin v = None /\ rv_end v = None \/ (exists e, rv_end v = Some (Timestamp e) /\ e <= lwm) \/
      leaves_for_btree vs lwm ckpt_max passive mark = true /\ rv_end v = None /\ exists b, rv_begin v = Some (Timestamp b) /\ b < lwm.
Proof.
  set (vs1 := List.filter (fun rv => negb (is_garbage rv)) vs). set (hc := existsb is_current vs1).
  set (keep := fun v => negb (is_garbage v) && keep_superseded lwm ckpt_max passive mark hc v).
  assert (Hf : List.filter (keep_superseded lwm ckpt_max passive mark hc) vs1 = List.filter keep vs).
  { unfold vs1, keep. generalize hc. intros hc'. clear. induction vs as [|v vs IH]; [done|]. cbn.
    destruct (negb (is_garbage v)); cbn; [|done]. destruct (keep_superseded _ _ _ _ _ v); [by rewrite IH|done]. }
  assert (Hk : forall v, keep v = false -> rv_begin v = None /\ rv_end v = None \/ exists e, rv_end v = Some (Timestamp e) /\ e <= lwm).
  { intros v. unfold keep, is_garbage, keep_superseded. repeat case_bool_decide; cbn; try by left; auto.
    all: destruct (rv_end v) as [[e|]|]; cbn; try done; destruct (e <=? lwm) eqn:He; cbn; try done; apply Z.leb_le in He; eauto. }
  assert (Hgc : gc_version_chain vs lwm ckpt_max passive mark =
    if leaves_for_btree vs lwm ckpt_max passive mark then [] else List.filter keep vs).
  { unfold gc_version_chain, leaves_for_btree. cbv zeta. fold vs1. fold hc. by rewrite Hf. }
  destruct (leaves_for_btree vs lwm ckpt_max passive mark) eqn:Hl; [|exists keep; split; [done|]; intros v _ [?|?]%Hk; auto].
  exists (fun _ => false). split; [rewrite Hgc; clear; by induction vs|]. intros v Hv _.
  destruct (keep v) eqn:Hkv; [|destruct (Hk v Hkv); auto]. right; right. split; [done|].
  assert (Hin : v ∈ List.filter keep vs) by (by rewrite list_elem_of_In, List.filter_In, <- list_elem_of_In).
  unfold leaves_for_btree in Hl. cbv zeta in Hl. fold vs1 in Hl. fold hc in Hl. rewrite Hf in Hl. unfold sole_survivor_removable in Hl.
  destruct (List.filter keep vs) as [|w [|]]; try done. apply list_elem_of_singleton in Hin as <-.
  destruct (rv_begin v) as [[b|]|]; try done. destruct (rv_end v); [done|]. split; [done|]. exists b. split; [done|].
  destruct passive; apply andb_prop in Hl as [_ Hb]; by apply Z.ltb_lt.
Qed.
Lemma evolves_filter a a' t b (keep : RowVersion -> bool) l :
  (forall v, v ∈ l -> keep v = true -> kept a a' t b v v) ->
  (forall v, v ∈ l -> keep v = false -> vis (sig a) t b v = false) -> evolves a a' t b l (List.filter keep l).
Proof.
  induction l as [|v l IH]; intros Hk Hd; cbn; [constructor|]. destruct (keep v) eqn:Hv; [apply ev_keep|apply ev_drop].
  all: try (apply IH; intros; [apply Hk|apply Hd]; try done; by right).
  - apply Hk; [by left|done].
  - intros _. apply Hd; [by left|done].
Qed.

Lemma forget_sims r a : sims (a_txs a) (a_txs (forget r a)).
Proof. intros u. cbn. rewrite lookup_fmap. by destruct (a_txs a !! u). Qed.
Lemma forget_lookup r a u y : a_txs (forget r a) !! u = Some y -> exists y0, a_txs a !! u = Some y0 /\ y = with_reads (base.delete r (x_reads y0)) y0.
Proof. cbn. rewrite lookup_fmap. intros (y0 & ? & ->)%fmap_Some. eauto. Qed.
Lemma forget_dependees r a u : dependees (a_txs (forget r a)) u = dependees (a_txs a) u.
Proof. apply dependees_same. intros w. cbn. rewrite lookup_fmap. by destruct (a_txs a !! w). Qed.
Lemma inv_forget r a : inv a -> inv (forget r a).
Proof.
  intros [Ht Hr Hss]. assert (Hs := forget_sims r a). assert (Hd := forget_dependees r a).
  assert (Hreg : forall t u, registered a t u -> registered (forget r a) t u) by (intros t u; by rewrite !registered_dependees, Hd).
  split.
  - apply (inv_t_sims a (forget r a)); try done.
    + intros w z u (z0 & Hz & ->)%forget_lookup Hu. eapply dep_ok_sim with (a := a); [done|done| |by eapply i_dep]. by split.
    + intros u y (y0 & Hy & ->)%forget_lookup. rewrite Hd. exact (i_ctr _ Ht _ _ Hy).
  - by apply (inv_r_sims a (forget r a)).
  - apply (inv_s_sims a (forget r a)); try done. intros u y y' r' v Hy (y0 & Hy0 & ->)%forget_lookup. cbn. rewrite Hy in Hy0. injection Hy0 as <-.
    intros [_ ?]%lookup_delete_Some. by left.
Qed.

Lemma inv_gc a r lwm ckpt_max passive mark :
  inv a -> (forall t x, a_txs a !! t = Some x -> pending (x_phase x) = true -> lwm <= x_begin x) ->
  (leaves_for_btree (achain a r) lwm ckpt_max passive mark = true -> forall t x, a_txs a !! t = Some x -> x_reads x !! r = None) ->
  inv (set_arows a (alter (fun vs => gc_version_chain vs lwm ckpt_max passive mark) r (a_rows a))).
Proof.
  intros Hi Hlwm Hno. destruct (gc_version_chain_filter (achain a r) lwm ckpt_max passive mark) as (keep & Hgc & Hdrop). set (a' := set_arows _ _).
  assert (Hch : forall r', achain a' r' = if decide (r' = r) then List.filter keep (achain a r') else achain a r').
  { intros r'. unfold achain in *. cbn. case_decide as Hr; [subst r'; rewrite lookup_alter_eq|by rewrite lookup_alter_ne].
    destruct (a_rows a !! r); [exact Hgc|done]. }
  assert (Hsub : forall r' v, v ∈ achain a' r' -> v ∈ achain a r').
  { intros r' v. rewrite Hch. case_decide; [|done]. rewrite !list_elem_of_In, List.filter_In. tauto. }
  assert (Hkeep : forall r' v, v ∈ achain a r' -> v ∈ achain a' r' \/ rv_begin v = None /\ rv_end v = None \/
                                 (exists e, rv_end v = Some (Timestamp e) /\ e <= lwm) \/ rv_end v = None /\ exists b, rv_begin v = Some (Timestamp b) /\ b < lwm).
  { intros r' v Hv. rewrite Hch. case_decide as Hr; [subst r'|by left]. destruct (keep v) eqn:Hk.
    - left. rewrite list_elem_of_In, List.filter_In. by rewrite <- list_elem_of_In.
    - right. destruct (Hdrop v Hv Hk) as [|[|[_ ?]]]; auto. }
  pose proof Hi as [Ht Hr Hs]. split; [by split; apply Ht| |split].
  - intros r' v Hv%Hsub. destruct (Hr r' v Hv). by split.
  - intros u y r' Hy Hpe Hin. destruct (i_mark _ Hs u y r' Hy Hpe Hin) as [|(v & Hv & Href)]; [by left|]. right. exists v. split; [|done].
    destruct (Hkeep r' v Hv) as [|[[Hb He]|[(e & He & _)|(He & b & Hb & _)]]]; [done|destruct Href; congruence| |destruct Href; congruence]. exfalso.
    destruct Href as [Hb|]; [|congruence]. destruct (committed_begin a r' v e u Hi Hv) as (m & Hm); [by rewrite He|done|].
    rewrite (sig_at a _ _ Hy) in Hm. destruct (x_phase y); naive_solver.
  - intros u y r' o Hy Hpe Hrd. pose proof (i_reads _ Hs u y r' o Hy Hpe Hrd) as Hro. eapply reads_ok_evolves; [done|by destruct Hro|done..|].
    right. rewrite Hch. case_decide as Hrr; [subst r'|by apply evolves_same; intros; apply kept_same]. apply evolves_filter; [by intros; apply kept_same|].
    intros v Hv Hk. unfold vis, vis_begin, vis_end. destruct (Hdrop v Hv Hk) as [[-> _]|[(e & -> & Hle)|[Hl _]]]; [done| |].
    + apply andb_false_intro2, Z.ltb_ge. specialize (Hlwm _ _ Hy Hpe). lia.
    + pose proof (Hno Hl u y Hy). congruence.
  - intros c Hc. destruct (i_hist _ Hs c Hc) as [? Hh]. split; [done|]. intros u y Hy. destruct (Hh u y Hy) as [? Hm]. split; [done|].
    intros Hpe r' Hin Hlt. destruct (Hm Hpe r' Hin Hlt) as (v & Hv & Hmk). exists v. split; [|done]. specialize (Hlwm _ _ Hy Hpe).
    destruct (Hkeep r' v Hv) as [|[[Hb He]|[(e & He & Hle)|(He & b & Hb & Hlb)]]]; [done|..]; exfalso; destruct Hmk as [(n & Hn & Hlt')|(n & Hn & Hlt')];
      rewrite ?Hb, ?He in Hn; try done; try (cbn in Hn; simplify_eq; lia).
    destruct (Hr r' v Hv) as [_ _ [_ Hc2]]. destruct (Hc2 e He) as [Hb|(n' & Hn' & ?)]; [by rewrite Hb in Hn|]. simplify_eq. lia.
  - apply (i_val _ Hs).
  - apply (i_fcw _ Hs).
Qed.
Lemma inv_collect a r lwm ckpt_max passive mark :
  inv a -> (forall t x, a_txs a !! t = Some x -> pending (x_phase x) = true -> lwm <= x_begin x) ->
  inv (set_arows (if leaves_for_btree (achain a r) lwm ckpt_max passive mark then forget r a else a)
                 (alter (fun vs => gc_version_chain vs lwm ckpt_max passive mark) r (a_rows a))).
Proof.
  intros Hi Hlwm. destruct (leaves_for_btree _ _ _ _ _) eqn:Hl; [|by apply inv_gc; [..|congruence]].
  apply (inv_gc (forget r a)); [by apply inv_forget| |].
  - intros t x (y & Hy & ->)%forget_lookup. exact (Hlwm t y Hy).
  - intros _ t x (y & _ & ->)%forget_lookup. apply lookup_delete_eq.
Qed.

(** * Stamps of a checkpoint *)

Lemma restamped_back l l' v' : restamped l l' -> v' ∈ l' -> exists v pos, v ∈ l /\ v' = set_materialized_at v pos.
Proof. intros H Hv. apply list_elem_of_lookup in Hv as (i & Hi). destruct (Forall2_lookup_r _ _ _ _ _ H Hi) as (v & Hv & pos & ->). exists v, pos. split; [by eapply list_elem_of_lookup_2|done]. Qed.
Lemma restamped_fwd l l' v : restamped l l' -> v ∈ l -> exists pos, set_materialized_at v pos ∈ l'.
Proof. intros H Hv. apply list_elem_of_lookup in Hv as (i & Hi). destruct (Forall2_lookup_l _ _ _ _ _ H Hi) as (v' & Hv & pos & ->). exists pos. by eapply list_elem_of_lookup_2. Qed.
Lemma inv_stamp a m : inv a -> (forall r, restamped (achain a r) (default [] (m !! r))) -> inv (set_arows a m).
Proof.
  intros [Ht Hr Hs] Hm. change (forall r, restamped (achain a r) (achain (set_arows a m) r)) in Hm. set (a' := set_arows a m) in *.
  split; [by split; apply Ht| |split].
  - intros r v' Hv'. destruct (restamped_back _ _ _ (Hm r) Hv') as (v & pos & Hv & ->). destruct (Hr r v Hv). by split.
  - intros u y r Hy Hpe Hin. destruct (i_mark _ Hs u y r Hy Hpe Hin) as [|(v & Hv & Href)]; [by left|]. right.
    destruct (restamped_fwd _ _ _ (Hm r) Hv) as (pos & Hp). eauto.
  - intros u y r o Hy Hpe Hrd. pose proof (i_reads _ Hs u y r o Hy Hpe Hrd) as Hro. eapply reads_ok_evolves; [done|by destruct Hro|done..|].
    right. specialize (Hm r). induction Hm as [|v v' l l' [pos ->] _ IH]; [constructor|]. apply ev_keep; [by apply kept_same|done].
  - intros c Hc. destruct (i_hist _ Hs c Hc) as [? Hh]. split; [done|]. intros u y Hy. destruct (Hh u y Hy) as [? Hmk]. split; [done|].
    intros Hpe r Hin Hlt. destruct (Hmk Hpe r Hin Hlt) as (v & Hv & Hmv). destruct (restamped_fwd _ _ _ (Hm r) Hv) as (pos & Hp). eauto.
  - apply (i_val _ Hs).
  - apply (i_fcw _ Hs).
Qed.

(** * Reachable states *)

(** The dependences are on live transactions, so their number is the counter's value. *)
Lemma dependees_free a t x :
  inv_t a -> a_next a <= 2 ^ 64 -> a_txs a !! t = Some x -> x_ctr x = 0 -> dependees (a_txs a) t = ∅.
Proof.
  intros Ht Hn Hx Hc. rewrite (i_ctr _ Ht _ _ Hx) in Hc.
  assert (Hsub : dependees (a_txs a) t ⊆ list_to_set (seqZ 1 (a_next a - 1))).
  { intros w (z & Hz & _)%elem_of_dependees. apply elem_of_list_to_set, elem_of_seqZ. destruct (i_tx _ Ht _ _ Hz) as (? & _). lia. }
  apply subseteq_size in Hsub. rewrite size_list_to_set, length_seqZ in Hsub by apply NoDup_seqZ.
  pose proof (i_next _ Ht). unfold wrap in Hc. rewrite Z.mod_small in Hc by lia. apply leibniz_equiv, size_empty_iff. lia.
Qed.

Lemma astep_inv a a' : astep a a' -> a_next a <= 2 ^ 64 -> inv a -> inv a'.
Proof.
  intros Hstep Hn Hi. destruct Hstep.
  - by apply inv_tick.
  - subst. by apply inv_begin.
  - by eapply inv_register.
  - by apply inv_read.
  - by apply inv_put.
  - by apply inv_end.
  - by apply inv_prepare.
  - by apply inv_validate.
  - apply inv_commit; try done. eapply dependees_free; eauto. apply Hi.
  - by eapply inv_rewrite.
  - by eapply inv_finish.
  - by apply inv_abort.
  - by apply inv_collect.
  - by eapply inv_undo.
  - by apply inv_stamp.
Qed.

(** * Committed data *)

(** The version that a transaction which began at [b] sees of the committed data alone. *)
Definition cvis (s : gmap TxID TransactionState) (b : Z) (rv : RowVersion) : bool :=
  match ctime_of s (rv_begin rv) with Some n => n <? b | None => false end &&
  match ctime_of s (rv_end rv) with Some n => b <? n | None => true end.
Definition committed_at (s : gmap TxID TransactionState) (b : Z) (versions : list RowVersion) : option Row :=
  row <$> List.find (cvis s b) (reverse versions).

(** Without bets, what a transaction sees of the others' writes is committed. *)
Lemma vis_committed a t b v :
  dependees (a_txs a) t = ∅ -> ~ refers v t -> settled a t b v -> vis (sig a) t b v = cvis (sig a) b v.
Proof.
  intros Hd Hno [Hs1 Hs2]. assert (Hnr : forall u, ~ registered a t u).
  { intros u Hu%registered_dependees. rewrite Hd in Hu. by apply not_elem_of_empty in Hu. }
  unfold vis, cvis. assert (Hb : vis_begin (sig a) t b v = match ctime_of (sig a) (rv_begin v) with Some n => n <? b | None => false end).
  { unfold vis_begin, spec_begin, ctime_of in *. destruct (rv_begin v) as [[n|u]|] eqn:Hv; try done.
    destruct (sig a !! u) as [[|e| | |e]|]; try done.
    - destruct (t =? u) eqn:Htu; [|done]. apply Z.eqb_eq in Htu as <-. destruct Hno. by left.
    - destruct (e <? b); [|done]. by destruct (Hnr u (Hs1 u eq_refl)). }
  rewrite Hb in *. destruct (match ctime_of _ _ with Some _ => _ | None => _ end); [|done]. cbn.
  unfold vis_end, spec_end, ctime_of in *. destruct (rv_end v) as [[n|u]|] eqn:Hv; try done.
  destruct (sig a !! u) as [[|e| | |e]|]; try done.
  - destruct (t =? u) eqn:Htu; [|done]. apply Z.eqb_eq in Htu as <-. destruct Hno. by right.
  - destruct (b <? e); [done|]. by destruct (Hnr u (Hs2 u eq_refl eq_refl)).
Qed.
Lemma finds_committed a t b l found :
  dependees (a_txs a) t = ∅ -> (forall v, v ∈ l -> ~ refers v t) -> finds a t b l found -> found = List.find (cvis (sig a) b) l.
Proof.
  intros Hd. induction l as [|v l IH]; intros Hno Hf; [done|]. destruct Hf as [Hs Hf]. cbn [List.find].
  rewrite <- (vis_committed a t b v) by (try done; apply Hno; by left).
  destruct (vis (sig a) t b v); [done|]. apply IH; [|done]. intros. apply Hno. by right.
Qed.

(** * What stays *)

(** The transaction has nothing to wait for any more: it will commit, or leave. *)
Definition ready (t : TxID) (a : astate) : Prop :=
  t < a_next a /\
  forall x, a_txs a !! t = Some x ->
    (exists e, x_phase x = Val e /\ x_abort x = false /\ dependees (a_txs a) t = ∅) \/ exists e, x_phase x = Com e.
(** The transaction is committed, and its id is found in versions of the rows in [S] only. *)
Definition drained (t : TxID) (S : RowID -> Prop) (a : astate) : Prop :=
  t < a_next a /\
  forall x, a_txs a !! t = Some x ->
    (exists e, x_phase x = Com e) /\ forall r v, v ∈ achain a r -> refers v t -> S r.

Definition bstep (a a' : astate) : Prop := astep a a' /\ a_next a <= 2 ^ 64.
Definition bsteps : astate -> astate -> Prop := rtc bstep.

Lemma bsteps_inv a a' : bsteps a a' -> inv a -> inv a'.
Proof. induction 1 as [|a1 a2 a3 [Hs Hn] _ IH]; [done|]. intros. by eapply IH, astep_inv. Qed.

Lemma astep_next a a' : astep a a' -> a_next a <= a_next a'.
Proof. intros []; try case_match; cbn; lia. Qed.

(** The transactions after a transition. *)
Ltac look H :=
  repeat match type of H with
  | <[_ := _]> _ !! _ = Some _ => apply lookup_insert_Some in H as [[<- <-]|[? H]]
  | _ <$> _ !! _ = Some _ => apply fmap_Some in H as (? & H & ->)
  | (_ <$> _) !! _ = Some _ => rewrite lookup_fmap in H
  | leave _ _ _ _ !! _ = Some _ => rewrite leave_lookup in H; repeat case_decide; [done| |]; try (apply fmap_Some in H as (? & H & ->))
  end.

Lemma astep_tx a a' t x' :
  astep a a' -> t < a_next a -> a_txs a' !! t = Some x' ->
  exists x, a_txs a !! t = Some x /\
    (x_phase x' = x_phase x \/ x_phase x = Act \/ (exists e, x_phase x = Prep e) \/ exists e, x_phase x = Val e /\ x_phase x' = Com e) /\
    (x_abort x' = x_abort x \/ exists u, registered a t u).
Proof.
  intros Hs Hlt Hx'. destruct Hs; try case_match; cbn [a_txs set_arows set_atxs upd forget] in Hx'; look Hx'; try by (eexists; split_and!; [done|by auto..]).
  - lia.
  - eexists. split_and!; [done|eauto 10..].
  - eexists. split_and!; [done|eauto 10..].
  - eexists. split_and!; [done|eauto 10|]. right. exists t0. by eexists.
Qed.
Lemma astep_registered a a' t x u :
  astep a a' -> a_txs a !! t = Some x -> x_phase x <> Act -> registered a' t u -> registered a t u.
Proof.
  intros Hs Hx Hp (y & Hy & Hin). destruct Hs; try case_match; cbn [a_txs set_arows set_atxs upd forget] in Hy; look Hy; try (by exists y); try (eexists; split; [eassumption|exact Hin]).
  - cbn in Hin. by apply not_elem_of_empty in Hin.
  - cbn in Hin. apply elem_of_union in Hin as [->%elem_of_singleton|]; [congruence|by eexists].
Qed.
Lemma achain_map_rows_in a f ids r v :
  v ∈ achain (set_arows a (map_rows f ids (a_rows a))) r -> NoDup ids -> exists v0, v0 ∈ achain a r /\ (v = v0 \/ v = f v0).
Proof.
  intros Hv Hnd. rewrite achain_map_rows in Hv by done. case_decide; [|by eauto]. apply list_elem_of_fmap in Hv as (v0 & -> & ?). eauto.
Qed.
Lemma astep_refers a a' t x r v :
  inv a -> astep a a' -> a_txs a !! t = Some x -> x_phase x <> Act -> v ∈ achain a' r -> refers v t ->
  exists v0, v0 ∈ achain a r /\ refers v0 t.
Proof.
  intros Hi Hs Hx Hp Hv Href. destruct Hs.
  all: try (by exists v).
  - revert Hv. rewrite (achain_set (upd a t0 (wrote r0 x0))). case_decide; [subst r0|by exists v]. intros [?|[->|?]%elem_of_cons]%elem_of_app.
    all: try (exists v; split; [|done]; rewrite H1; set_solver).
    destruct H2 as [[? ?]|[? ?]], Href; naive_solver.
  - revert Hv. rewrite (achain_set (upd a t0 (wrote r0 x0))). case_decide; [subst r0|by exists v]. intros [?|[->|?]%elem_of_cons]%elem_of_app.
    all: try (exists v; split; [|done]; rewrite H1; set_solver). exists v0. split; [rewrite H1; set_solver|].
    destruct Href as [|He]; [by left|]. cbn in He. naive_solver.
  - destruct (achain_map_rows_in _ _ _ _ _ Hv) as (v0 & Hv0 & [->| ->]); [done|by exists v0|]. exists v0. split; [done|]. by apply stamp_refers in Href as [? _].
  - destruct (achain_map_rows_in _ _ _ _ _ Hv) as (v0 & Hv0 & [->| ->]); [by apply (i_tx _ (inv_txs _ Hi) _ _ H)|by exists v0|].
    exists v0. split; [done|]. by apply rollback_refers in Href as [? _].
  - exists v. split; [|done]. destruct (gc_version_chain_filter (achain a r0) lwm ckpt_max passive mark) as (keep & Hgc & _). revert Hv. unfold achain in *. cbn.
    destruct (decide (r = r0)) as [->|]; [rewrite lookup_alter_eq|by rewrite lookup_alter_ne]. destruct (a_rows a !! r0); [|done]. cbn in *. rewrite Hgc.
    rewrite !list_elem_of_In, List.filter_In. tauto.
  - destruct (undone_back _ _ _ _ (H2 r) Hv) as [|(v0 & Hv0 & _ & ->)]; [by exists v|]. exists v0. split; [done|]. destruct Href; [by left|done].
  - destruct (restamped_back _ _ _ (H r) Hv) as (v0 & pos & Hv0 & ->). by exists v0.
Qed.

(** Nobody enters whose id has been given, and a transaction past its last read depends on
    no others. *)
Lemma ready_step t a a' : inv a -> astep a a' -> ready t a -> ready t a'.
Proof.
  intros Hi Hs [Hlt Hr]. split; [pose proof (astep_next _ _ Hs); lia|]. intros x' Hx'.
  destruct (astep_tx _ _ _ _ Hs Hlt Hx') as (x & Hx & Hp & Hab). destruct (Hr x Hx) as [(e & Hv & Ha & Hd)|(e & Hc)].
  - assert (Hno : forall u, ~ registered a t u).
    { intros u Hu%registered_dependees. rewrite Hd in Hu. by apply not_elem_of_empty in Hu. }
    destruct Hp as [Hp|[Hp|[(e' & Hp)|(e' & _ & Hp)]]]; [|congruence..|by eauto]. left. exists e. split_and!; [congruence| |].
    + destruct Hab as [->|(u & Hu)]; [done|]. by destruct (Hno u).
    + apply set_eq. intros u. split; [|set_solver]. intros Hu%registered_dependees. exfalso. apply (Hno u).
      eapply astep_registered; [done..| |done]. congruence.
  - right. destruct Hp as [Hp|[Hp|[(e' & Hp)|(e' & Hp & _)]]]; [|congruence..]. exists e. congruence.
Qed.
Lemma drained_step t S a a' : inv a -> astep a a' -> drained t S a -> drained t S a'.
Proof.
  intros Hi Hs [Hlt Hr]. split; [pose proof (astep_next _ _ Hs); lia|]. intros x' Hx'.
  destruct (astep_tx _ _ _ _ Hs Hlt Hx') as (x & Hx & Hp & _). destruct (Hr x Hx) as [(e & Hc) HS]. split.
  - exists e. destruct Hp as [Hp|[Hp|[(e' & Hp)|(e' & Hp & _)]]]; congruence.
  - intros r v Hv Href. destruct (astep_refers _ _ t x r v Hi Hs Hx) as (v0 & Hv0 & Hr0); [congruence|done..|]. eauto.
Qed.
Lemma ready_steps t a a' : bsteps a a' -> inv a -> ready t a -> ready t a'.
Proof. induction 1 as [|a1 a2 a3 [Hs Hn] _ IH]; [done|]. intros. apply IH; [by eapply astep_inv|by eapply ready_step]. Qed.
Lemma drained_steps t S a a' : bsteps a a' -> inv a -> drained t S a -> drained t S a'.
Proof. induction 1 as [|a1 a2 a3 [Hs Hn] _ IH]; [done|]. intros. apply IH; [by eapply astep_inv|by eapply drained_step]. Qed.
