(* ===== verification/MvccRefine.v ===== *)
(** The multi-version store implements snapshot isolation.

    The system is a store together with the commits under way.  Its steps are the calls
    that connections make on the store, each one whole, in any order: beginning, reading
    and writing, savepoints and their rollback, the steps of the commit machine, rollback, the
    clean-up of a commit that is dropped; and what a checkpoint and garbage collection do.  A
    checkpoint may stamp any chains and publish any boundary at any time, and a collection
    may take any chains, blocking or passive; it uses the marks of the time it runs, as
    [gc_incremental] and [drop_unused_row_versions] do, and the collection that a checkpoint
    makes of its own rows, with the mark it has saved, is not a step.  The calls are restricted in two
    ways: only the exclusive transaction writes the database header ([allowed]), which the
    commit asserts, and transactions begin while fewer than 2^62 ids have been given out.  Every step is
    matched by transitions of the abstract system, and the only one that panics is the drop
    of a commit that is committed while others still depend on it. *)

From stdpp Require Import base list gmap numbers strings relations.
From Stdlib Require Import ZArith Lia.
From S2P Require Import Prelude DbHeader Mvcc MvccSpec.

(** * The system *)

(** A commit under way: its machine, and whether a step of it has failed. *)
Definition mode : Type := option (CommitStateMachine * bool).
(** What the store does not keep: the commits under way, what the transactions have read
    and not written since, and the commits so far. *)
Record ghost : Type := {
  g_modes : gmap TxID (CommitStateMachine * bool);
  g_reads : gmap TxID (gmap RowID (option Row));
  g_hist : list commit_record
}.
Record sys : Type := { store : MvStore; gh : ghost }.

Definition validated (m : mode) : bool :=
  match m with
  | Some (m, _) => match cs m with Initial | Commit _ => false | _ => true end
  | None => false
  end.
Definition phase_of (m : mode) (s : TransactionState) : phase :=
  match s with
  | Preparing e => if validated m then Val e else Prep e
  | Committed e => Com e
  | _ => Act
  end.
Definition abs_tx (g : ghost) (id : TxID) (tx : Transaction) : atx :=
  {| x_phase := phase_of (g_modes g !! id) (state tx); x_begin := begin_ts tx; x_ws := write_set tx;
     x_abort := abort_now tx; x_deps := commit_dep_set tx; x_ctr := commit_dep_counter tx;
     x_reads := default ∅ (g_reads g !! id) |}.
Definition abs_txs (g : ghost) (m : gmap TxID Transaction) : gmap TxID atx := map_imap (fun id tx => Some (abs_tx g id tx)) m.
Definition abs (g : ghost) (st : MvStore) : astate :=
  {| a_rows := rows st; a_txs := abs_txs g (txs st); a_clock := clock st; a_next := tx_ids st; a_hist := g_hist g |}.

(** The calls of a connection that is not committing. *)
Inductive client_op : Type :=
| ORead (id : RowID)
| OBtreeValid (id : RowID)
| OInsert (r : Row)
| OInsertResident (r : Row)
| OTombstone (id : RowID) (r : Row)
| ODelete (id : RowID)
| OUpdate (r : Row)
| OUpsert (r : Row)
| OBeginSavepoint
| OBeginNamedSavepoint (name : string) (starts_transaction : bool) (fk : Z)
| OReleaseSavepoint
| OReleaseNamedSavepoint (name : string)
| ORollbackSavepoint
| ORollbackToSavepoint (name : string)
| OUpgrade (page1 : DatabaseHeader)
| OHeader (f : DatabaseHeader -> DatabaseHeader).
Definition row_of (o : client_op) : option RowID :=
  match o with
  | ORead id | OBtreeValid id | OTombstone id _ | ODelete id => Some id
  | OInsert r | OInsertResident r | OUpdate r | OUpsert r => Some (row_id r)
  | _ => None
  end.
(** The call and, for a read, its answer. *)
Definition run_client (t : TxID) (o : client_op) : MV (option (option Row)) :=
  match o with
  | ORead id => v ← read t id; mret (Some v)
  | OBtreeValid id => _ ← query_btree_version_is_valid id t; mret None
  | OInsert r => _ ← insert t r; mret None
  | OInsertResident r => _ ← insert_btree_resident t r; mret None
  | OTombstone id r => _ ← insert_tombstone t id r; mret None
  | ODelete id => _ ← delete t id; mret None
  | OUpdate r => _ ← update t r; mret None
  | OUpsert r => _ ← upsert t r; mret None
  | OBeginSavepoint => _ ← update_tx t begin_savepoint; mret None
  | OBeginNamedSavepoint name starts fk => _ ← update_tx t (begin_named_savepoint name starts fk); mret None
  | OReleaseSavepoint => _ ← update_tx t release_savepoint; mret None
  | OReleaseNamedSavepoint name => _ ← update_tx t (fun tx => snd (release_named_savepoint name tx)); mret None
  | ORollbackSavepoint => _ ← rollback_first_savepoint t; mret None
  | ORollbackToSavepoint name => _ ← rollback_to_named_savepoint t name; mret None
  | OUpgrade page1 => _ ← begin_exclusive_upgrade t page1; mret None
  | OHeader f => _ ← with_header_mut t f; mret None
  end.

Definition write_set_of (st : MvStore) (t : TxID) : list RowID :=
  match txs st !! t with Some tx => write_set tx | None => [] end.
Definition set_reads (t : TxID) (m : gmap RowID (option Row)) (g : ghost) : ghost :=
  {| g_modes := g_modes g; g_reads := <[t := m]> (g_reads g); g_hist := g_hist g |}.
Definition set_mode (t : TxID) (m : CommitStateMachine) (failed : bool) (g : ghost) : ghost :=
  {| g_modes := <[t := (m, failed)]> (g_modes g); g_reads := g_reads g; g_hist := g_hist g |}.
Definition add_commit (c : commit_record) (g : ghost) : ghost :=
  {| g_modes := g_modes g; g_reads := g_reads g; g_hist := g_hist g ++ [c] |}.
Definition drop_read (t : TxID) (r : RowID) (g : ghost) : ghost := set_reads t (base.delete r (default ∅ (g_reads g !! t))) g.
Definition add_read (t : TxID) (r : RowID) (v : option Row) (g : ghost) : ghost :=
  set_reads t (<[r := v]> (default ∅ (g_reads g !! t))) g.
(** An answer is kept until the row is written. *)
Definition after_client (t : TxID) (o : client_op) (r : res LimboError (option (option Row))) (st : MvStore) (g : ghost) : ghost :=
  match row_of o with
  | Some id =>
      if decide (id ∈ write_set_of st t) then drop_read t id g
      else match r with Ok (Some v) => add_read t id v g | _ => g end
  | None => g
  end.
(** A step of a commit machine; the commits are recorded when the transaction's state says so. *)
Definition commit_of (st : MvStore) (t : TxID) (m : CommitStateMachine) : option commit_record :=
  match txs st !! t, cs m with
  | Some tx, CommitEnd e | Some tx, WaitForDependencies e => Some {| c_begin := begin_ts tx; c_end := e; c_rows := write_set tx |}
  | Some tx, Initial => Some {| c_begin := begin_ts tx; c_end := clock st; c_rows := write_set tx |}
  | _, _ => None
  end.
Definition commits (m m' : CommitStateMachine) : bool :=
  match cs m, cs m' with
  | CommitEnd _, _ | Initial, CommitDone | WaitForDependencies _, CommitDone => true
  | _, _ => false
  end.
Definition after_commit_step (t : TxID) (m : CommitStateMachine) (r : res LimboError CommitStateMachine) (st : MvStore) (g : ghost) : ghost :=
  match r with
  | Ok m' =>
      let g := set_mode t m' false g in
      if commits m m' then match commit_of st t m with Some c => add_commit c g | None => g end else g
  | _ => set_mode t m true g
  end.

(** A connection changes the database header only when it is the exclusive one. *)
Definition allowed (t : TxID) (o : client_op) (st : MvStore) : Prop :=
  match o with OHeader _ => is_exclusive_tx t st = true | _ => True end.
Definition machine (did_commit_schema_change : bool) : CommitStateMachine :=
  {| cs := Initial; did_commit_schema_change := did_commit_schema_change |}.
Definition is_panic {A} (r : res LimboError A) : bool := match r with Panic => true | _ => false end.
(** A collection that drops the only version of a row, because the row is in the B-tree: what
    was read of the row through the store is read from the B-tree from now on. *)
Definition collected (passive : bool) (st : MvStore) (id : RowID) : bool :=
  leaves_for_btree (chain st id) (compute_lwm st) (durable_txid_max st) passive (pos_min (compute_min_reader_mark st) (backfill_floor st)).
Definition forget_reads (id : RowID) (g : ghost) : ghost :=
  {| g_modes := g_modes g; g_reads := base.delete id <$> g_reads g; g_hist := g_hist g |}.
Definition after_gc (passive : bool) (st : MvStore) (ids : list RowID) (g : ghost) : ghost :=
  foldr (fun id g => if collected passive st id then forget_reads id g else g) g ids.

(** A step, with whether the call has panicked. *)
Inductive step : sys -> bool -> sys -> Prop :=
| s_begin st g r st' passive got_lock page1 mark expected :
    tx_ids st < 2 ^ 62 -> begin_tx passive got_lock page1 mark expected st = (r, st') ->
    step {| store := st; gh := g |} (is_panic r) {| store := st'; gh := g |}
| s_begin_exclusive st g r st' passive got_lock page1 mark expected :
    tx_ids st < 2 ^ 62 -> begin_exclusive_fresh passive got_lock page1 mark expected st = (r, st') ->
    step {| store := st; gh := g |} (is_panic r) {| store := st'; gh := g |}
| s_client st g t tx o r st' :
    txs st !! t = Some tx -> g_modes g !! t = None -> allowed t o st -> run_client t o st = (r, st') ->
    step {| store := st; gh := g |} (is_panic r) {| store := st'; gh := after_client t o r st' g |}
| s_commit st g t tx did :
    txs st !! t = Some tx -> g_modes g !! t = None ->
    step {| store := st; gh := g |} false {| store := st; gh := set_mode t (machine did) false g |}
| s_commit_step st g t env m r st' :
    g_modes g !! t = Some (m, false) -> commit_step t env m st = (r, st') ->
    step {| store := st; gh := g |} (is_panic r) {| store := st'; gh := after_commit_step t m r st g |}
| s_rollback st g t tx r st' :
    txs st !! t = Some tx -> (forall m, g_modes g !! t <> Some (m, false)) -> rollback_tx t st = (r, st') ->
    step {| store := st; gh := g |} (is_panic r) {| store := st'; gh := g |}
| s_drop st g t m r st' :
    g_modes g !! t = Some (m, false) -> cleanup_dropped_commit t st = (r, st') ->
    step {| store := st; gh := g |} (is_panic r) {| store := st'; gh := set_mode t m true g |}
| s_gc st g passive ids :
    NoDup ids ->
    step {| store := st; gh := g |} false {| store := gc_chains passive ids st; gh := after_gc passive st ids g |}
| s_stamp st g at_frame snapshot_ts ids :
    NoDup ids ->
    step {| store := st; gh := g |} false {| store := stamp_chains at_frame snapshot_ts ids st; gh := g |}
| s_publish st g snapshot_ts h :
    step {| store := st; gh := g |} false {| store := publish_checkpoint snapshot_ts h st; gh := g |}
| s_finish st g snapshot_ts backfill :
    step {| store := st; gh := g |} false {| store := finish_checkpoint snapshot_ts backfill st; gh := g |}
| s_prune st g :
    step {| store := st; gh := g |} false {| store := prune_finalized_tx_states st; gh := g |}
| s_snapshot st g r st' :
    checkpoint_snapshot_ts st = (r, st') ->
    step {| store := st; gh := g |} (is_panic r) {| store := st'; gh := g |}.

Definition init : sys := {| store := MvStore_new; gh := {| g_modes := ∅; g_reads := ∅; g_hist := [] |} |}.
(** The states after any steps, as long as none has panicked. *)
Definition reachable : sys -> Prop := rtc (fun s s' => step s false s') init.

(** * The invariant *)

Definition state_ok (m : mode) (s : TransactionState) : Prop :=
  match m with
  | None => s = Active
  | Some (m, failed) =>
      match cs m with
      | Initial => s = Active \/ failed = true /\ exists e, s = Preparing e
      | Commit e | WaitForDependencies e | BuildLogRecord e | BeginCommitLogicalLog e | UpgradeLogicalLogHeader e
      | WriteLogicalLog e | FinishLogicalLogWrite e | SyncLogicalLog e | EndCommitLogicalLog e | CommitEnd e => s = Preparing e
      | RewriteLiveVersions e _ | FinalizeCommit e => failed = false /\ s = Committed e
      | CommitDone => False
      end
  end.
Definition progress (m : mode) (ws : list RowID) (t : TxID) (a : astate) : Prop :=
  match m with
  | None => True
  | Some (m, _) =>
      match cs m with
      | Initial | Commit _ | WaitForDependencies _ | CommitDone => True
      | RewriteLiveVersions _ cursor => drained t (fun r => r ∈ drop cursor ws) a
      | FinalizeCommit _ => drained t (fun _ => False) a
      | _ => ready t a
      end
  end.
(** Versions have ids of their own, and an entry of a savepoint names a version that the
    transaction has made or ended, for as long as the version is there. *)
Definition versions_ok (st : MvStore) : Prop :=
  forall r, NoDup (rv_id <$> chain st r) /\ forall v, v ∈ chain st r -> rv_id v < version_id_counter st.
Definition entry_ok (st : MvStore) (P : RowVersion -> Prop) (e : RowID * Z) : Prop :=
  e.2 < version_id_counter st /\ forall v, v ∈ chain st e.1 -> rv_id v = e.2 -> P v.
Record stack_ok (st : MvStore) (t : TxID) (sps : list Savepoint) : Prop := {
  y_created : forall e, e ∈ (sps ≫= created_table_versions) -> entry_ok st (created_by t) e;
  y_deleted : forall e, e ∈ (sps ≫= deleted_table_versions) -> entry_ok st (ended_by t) e;
  y_once : NoDup (sps ≫= deleted_table_versions)
}.
(** The header flags that a transaction has or can get back. *)
Definition dirty_marks (tx : Transaction) : list bool := header_dirty tx :: (sp_header_dirty <$> savepoint_stack tx).
(** The exclusive transaction holds the commit lock until its record is built. *)
Definition holds_lock (m : mode) : bool :=
  match m with
  | Some (m, _) => match cs m with Initial | Commit _ | WaitForDependencies _ => true | _ => false end
  | None => true
  end.
Definition holder (t : TxID) (st : MvStore) : Prop := exists tx, txs st !! t = Some tx /\ pager_commit_lock_held tx = true.
Definition lock_ok (st : MvStore) : Prop :=
  forall t, holder t st -> pager_commit_lock st = true /\ forall u, holder u st -> u = t.
Record tx_inv (g : ghost) (st : MvStore) (t : TxID) (tx : Transaction) : Prop := {
  k_id : tx_id tx = t;
  k_header : true ∈ dirty_marks tx -> exclusive_tx st = t;
  k_stack : state tx = Active -> stack_ok st t (savepoint_stack tx);
  k_lock : exclusive_tx st = t -> holds_lock (g_modes g !! t) = true -> pager_commit_lock_held tx = true;
  k_deps : commit_dep_set tx <> ∅ -> write_set tx <> [];
  k_state : state_ok (g_modes g !! t) (state tx);
  k_progress : progress (g_modes g !! t) (write_set tx) t (abs g st)
}.
Record cinv (g : ghost) (st : MvStore) : Prop := {
  c_txs : forall t tx, txs st !! t = Some tx -> tx_inv g st t tx;
  c_header : forall t tx, txs st !! t = Some tx -> is_Some (global_header st);
  c_final : forall t s, finalized_tx_states st !! t = Some s -> is_final s = true;
  c_fresh : forall t : TxID, tx_ids st <= t -> g_modes g !! t = None /\ g_reads g !! t = None;
  c_bound : tx_ids st <= 2 ^ 62;
  c_versions : versions_ok st;
  c_lock : lock_ok st;
  c_exclusive : exclusive_tx st < tx_ids st
}.
Definition Inv (g : ghost) (st : MvStore) : Prop := inv (abs g st) /\ cinv g st.

(** ** The abstraction *)

Lemma abs_lookup g m t : abs_txs g m !! t = abs_tx g t <$> m !! t.
Proof. unfold abs_txs. rewrite map_lookup_imap. by destruct (m !! t). Qed.
Lemma abs_back g m t x : abs_txs g m !! t = Some x -> exists tx, m !! t = Some tx /\ x = abs_tx g t tx.
Proof. rewrite abs_lookup. intros (tx & ? & ->)%fmap_Some. eauto. Qed.
Lemma abs_fwd g m t tx : m !! t = Some tx -> abs_txs g m !! t = Some (abs_tx g t tx).
Proof. rewrite abs_lookup. by intros ->. Qed.
(** Two stores with the same abstract transactions. *)
Lemma abs_txs_ext g g' m m' :
  (forall t, match m !! t, m' !! t with Some tx, Some tx' => abs_tx g' t tx' = abs_tx g t tx | None, None => True | _, _ => False end) ->
  abs_txs g' m' = abs_txs g m.
Proof.
  intros H. apply map_eq. intros t. rewrite !abs_lookup. specialize (H t). destruct (m !! t), (m' !! t); try done. cbn. by rewrite H.
Qed.
Lemma abs_txs_alter g m t tx f x' :
  m !! t = Some tx -> abs_tx g t (f tx) = x' -> abs_txs g (alter f t m) = <[t := x']> (abs_txs g m).
Proof.
  intros Htx <-. apply map_eq. intros u. rewrite abs_lookup. destruct (decide (u = t)) as [->|].
  - by rewrite lookup_alter_eq, Htx, lookup_insert_eq.
  - by rewrite lookup_alter_ne, lookup_insert_ne, abs_lookup.
Qed.
Lemma abs_txs_delete g m t : abs_txs g (base.delete t m) = base.delete t (abs_txs g m).
Proof.
  apply map_eq. intros u. rewrite abs_lookup. destruct (decide (u = t)) as [->|].
  - by rewrite !lookup_delete_eq.
  - by rewrite !lookup_delete_ne, abs_lookup.
Qed.
Lemma abs_sig g st u : (forall tx, txs st !! u = Some tx -> state tx <> Aborted /\ state tx <> Terminated) ->
  sig (abs g st) !! u = state <$> txs st !! u.
Proof.
  intros H. rewrite sig_lookup. cbn. rewrite abs_lookup. destruct (txs st !! u) as [tx|]; [|done]. cbn. destruct (H tx eq_refl).
  unfold phase_of. f_equal. destruct (state tx); try done. by destruct (validated _).
Qed.
Lemma Inv_state g st t tx : Inv g st -> txs st !! t = Some tx -> state tx <> Aborted /\ state tx <> Terminated.
Proof.
  intros [_ Hc] Htx. pose proof (k_state _ _ _ _ (c_txs _ _ Hc _ _ Htx)) as Hs. unfold state_ok in Hs.
  destruct (g_modes g !! t) as [[m fl]|]; [|by rewrite Hs]. destruct (cs m); try done; try (by rewrite Hs); try by destruct Hs as [_ ->].
  by destruct Hs as [->|[_ [e ->]]].
Qed.
Lemma Inv_sig g st u : Inv g st -> sig (abs g st) !! u = state <$> txs st !! u.
Proof. intros HI. apply abs_sig. intros tx Htx. by eapply Inv_state. Qed.

(** * Commit dependencies *)

Definition add_dep (t : TxID) (d : Transaction) : Transaction := set_commit_dep_set ({[t]} ∪ commit_dep_set d) d.
Definition inc_ctr (d : Transaction) : Transaction := set_commit_dep_counter (wrap 64 (commit_dep_counter d + 1)) d.
(** A registration of [t], and what it changes. *)
Definition reg_step (t : TxID) (st st' : MvStore) : Prop :=
  exists tx u d e, txs st !! t = Some tx /\ state tx = Active /\ txs st !! u = Some d /\ state d = Preparing e /\ u <> t /\
    e < begin_ts tx /\ t ∉ commit_dep_set d /\ write_set d <> [] /\
    st' = set_txs (alter inc_ctr t (alter (add_dep t) u (txs st))) st.
Definition regs (t : TxID) : MvStore -> MvStore -> Prop := rtc (reg_step t).
Definition alike_tx (tx tx' : Transaction) : Prop :=
  exists c d, tx' = set_commit_dep_counter c (set_commit_dep_set d tx).
Definition alike (m m' : gmap TxID Transaction) : Prop :=
  forall u, match m !! u, m' !! u with Some tx, Some tx' => alike_tx tx tx' | None, None => True | _, _ => False end.

Lemma alike_tx_refl tx : alike_tx tx tx.
Proof. exists (commit_dep_counter tx), (commit_dep_set tx). by destruct tx. Qed.
Lemma alike_tx_trans a b c : alike_tx a b -> alike_tx b c -> alike_tx a c.
Proof. intros (c1 & d1 & ->) (c2 & d2 & ->). by exists c2, d2. Qed.
Lemma alike_refl m : alike m m.
Proof. intros u. destruct (m !! u); [apply alike_tx_refl|done]. Qed.
Lemma alike_trans m1 m2 m3 : alike m1 m2 -> alike m2 m3 -> alike m1 m3.
Proof.
  intros H1 H2 u. specialize (H1 u). specialize (H2 u). destruct (m1 !! u), (m2 !! u), (m3 !! u); try done.
  by eapply alike_tx_trans.
Qed.
Lemma alike_alter m u f : (forall tx, alike_tx tx (f tx)) -> alike m (alter f u m).
Proof.
  intros H w. destruct (decide (w = u)) as [->|]; [rewrite lookup_alter_eq; destruct (m !! u); cbn; auto|].
  rewrite lookup_alter_ne by done. apply alike_refl.
Qed.
Lemma alike_add_dep t tx : alike_tx tx (add_dep t tx).
Proof. exists (commit_dep_counter tx), ({[t]} ∪ commit_dep_set tx). by destruct tx. Qed.
Lemma alike_inc_ctr tx : alike_tx tx (inc_ctr tx).
Proof. exists (wrap 64 (commit_dep_counter tx + 1)), (commit_dep_set tx). by destruct tx. Qed.
Lemma alike_back m m' u tx' : alike m m' -> m' !! u = Some tx' -> exists tx, m !! u = Some tx /\ alike_tx tx tx'.
Proof. intros H Hu. specialize (H u). rewrite Hu in H. destruct (m !! u); [eauto|done]. Qed.
Lemma alike_fwd m m' u tx : alike m m' -> m !! u = Some tx -> exists tx', m' !! u = Some tx' /\ alike_tx tx tx'.
Proof. intros H Hu. specialize (H u). rewrite Hu in H. destruct (m' !! u); [eauto|done]. Qed.

Lemma reg_step_alike t st st' : reg_step t st st' -> st' = set_txs (txs st') st /\ alike (txs st) (txs st').
Proof.
  intros (tx & u & d & e & _ & _ & _ & _ & _ & _ & _ & _ & ->). split; [done|]. cbn.
  eapply alike_trans; apply alike_alter; auto using alike_add_dep, alike_inc_ctr.
Qed.
Lemma regs_alike t st st' : regs t st st' -> st' = set_txs (txs st') st /\ alike (txs st) (txs st').
Proof.
  induction 1 as [st|st1 st2 st3 H1 _ [IH1 IH2]]; [split; [by destruct st|apply alike_refl]|].
  destruct (reg_step_alike _ _ _ H1) as [Hs Ha]. split; [|by eapply alike_trans].
  rewrite IH1, Hs. done.
Qed.

Lemma reg_step_bstep g t st st' : Inv g st -> reg_step t st st' -> bstep (abs g st) (abs g st').
Proof.
  intros [Hi Hc] (tx & u & d & e & Htx & Hst & Hd & Hsd & Hne & He & Hni & _ & ->). split; [|pose proof (c_bound _ _ Hc); cbn; lia].
  assert (Ht : abs g (set_txs (alter inc_ctr t (alter (add_dep t) u (txs st))) st) =
    set_atxs (abs g st) (<[t := bump 1 (abs_tx g t tx)]> (<[u := with_dep t (abs_tx g u d)]> (a_txs (abs g st))))).
  { unfold abs, set_atxs. cbn. f_equal. rewrite (abs_txs_alter g _ t tx inc_ctr (bump 1 (abs_tx g t tx))); [|by rewrite lookup_alter_ne|done].
    by rewrite (abs_txs_alter g _ u d (add_dep t) (with_dep t (abs_tx g u d))). }
  rewrite Ht. eapply a_register with (e := e); [by apply abs_fwd| |by apply abs_fwd| |done..].
  - cbn. by rewrite Hst.
  - cbn. rewrite Hsd. cbn. by destruct (validated _).
Qed.

(** * Calls of one transaction leave the others in good standing *)

(** What a call of another transaction leaves of a transaction. *)
Record untouched (tx tx' : Transaction) : Prop := {
  u_id : tx_id tx' = tx_id tx;
  u_state : state tx' = state tx;
  u_ws : write_set tx' = write_set tx;
  u_dirty : header_dirty tx' = header_dirty tx;
  u_stack : savepoint_stack tx' = savepoint_stack tx;
  u_held : pager_commit_lock_held tx' = pager_commit_lock_held tx;
  u_deps : commit_dep_set tx' <> ∅ -> commit_dep_set tx <> ∅ \/ write_set tx <> []
}.
(** What a call of [t] leaves of the versions that others have made or ended. *)
Record rows_step (t : TxID) (st st' : MvStore) : Prop := {
  r_ok : versions_ok st -> versions_ok st';
  r_counter : version_id_counter st <= version_id_counter st';
  r_back : forall r v', v' ∈ chain st' r -> version_id_counter st <= rv_id v' \/
    exists v, v ∈ chain st r /\ rv_id v = rv_id v' /\
      forall u, u <> t -> (created_by u v -> created_by u v') /\ (ended_by u v -> ended_by u v')
}.
(** ... and of the commit lock. *)
Record lock_step (t : TxID) (st st' : MvStore) : Prop := {
  p_held : holder t st' -> pager_commit_lock st' = true /\ (pager_commit_lock st = false \/ holder t st);
  p_lock : pager_commit_lock st' = pager_commit_lock st \/ pager_commit_lock st = false \/ holder t st
}.
Record others_kept (t : TxID) (g : ghost) (st : MvStore) (g' : ghost) (st' : MvStore) : Prop := {
  o_modes : forall u, u <> t -> g_modes g' !! u = g_modes g !! u;
  o_txs : forall u tx', u <> t -> txs st' !! u = Some tx' -> exists tx, txs st !! u = Some tx /\ untouched tx tx';
  o_exclusive : forall u, u <> t -> 1 <= u -> exclusive_tx st = u <-> exclusive_tx st' = u;
  o_rows : rows_step t st st';
  o_lock : lock_step t st st';
  o_old : t < tx_ids st';
  o_header : is_Some (global_header st) -> is_Some (global_header st');
  o_final : forall u s, finalized_tx_states st' !! u = Some s -> finalized_tx_states st !! u = Some s \/ is_final s = true
}.

Lemma untouched_refl tx : untouched tx tx.
Proof. split; auto. Qed.
Lemma untouched_marks tx tx' : untouched tx tx' -> dirty_marks tx' = dirty_marks tx.
Proof. intros [_ _ _ H1 H2 _ _]. unfold dirty_marks. by rewrite H1, H2. Qed.

Lemma rows_step_same t st st' : rows st' = rows st -> version_id_counter st <= version_id_counter st' -> rows_step t st st'.
Proof.
  intros Hr Hv. assert (Hc : forall r, chain st' r = chain st r) by (intros r; unfold chain; by rewrite Hr). split; [|done|].
  - intros H r. rewrite Hc. destruct (H r) as [H1 H2]. split; [done|]. intros v Hin. specialize (H2 v Hin). lia.
  - intros r v. rewrite Hc. intros Hin. right. eauto 10.
Qed.
(** Versions that are rewritten in place or dropped. *)
Lemma rows_step_sub t st st' :
  version_id_counter st' = version_id_counter st ->
  (forall r, exists f keep, chain st' r = map f (List.filter keep (chain st r)) /\
     forall v, v ∈ chain st r -> keep v = true -> rv_id (f v) = rv_id v /\
       forall u, u <> t -> (created_by u v -> created_by u (f v)) /\ (ended_by u v -> ended_by u (f v))) ->
  rows_step t st st'.
Proof.
  intros Hv Hc. assert (Hin : forall r v', v' ∈ chain st' r -> exists v, v ∈ chain st r /\ rv_id v = rv_id v' /\
    forall u, u <> t -> (created_by u v -> created_by u v') /\ (ended_by u v -> ended_by u v')).
  { intros r v'. destruct (Hc r) as (f & keep & -> & Hf). intros (v & -> & Hin)%list_elem_of_fmap. rewrite list_elem_of_In, List.filter_In, <- list_elem_of_In in Hin.
    destruct Hin as [Hin Hk]. destruct (Hf v Hin Hk). eauto. }
  split; [|lia|eauto]. intros H r. destruct (H r) as [H1 H2]. split.
  - destruct (Hc r) as (f & keep & -> & Hf). revert H1 Hf. clear. induction (chain st r) as [|v l IH]; intros H1 Hf; [constructor|].
    apply list.NoDup_cons in H1 as [Hni Hnd]. assert (IH' := IH Hnd ltac:(intros; apply Hf; [by right|done])). cbn [List.filter].
    destruct (keep v) eqn:Hk; [|done]. cbn. apply list.NoDup_cons. split; [|done]. destruct (Hf v ltac:(by left) Hk) as [-> _]. contradict Hni.
    apply list_elem_of_fmap in Hni as (w & Hw & (v0 & -> & Hv0)%list_elem_of_fmap). rewrite list_elem_of_In, List.filter_In, <- list_elem_of_In in Hv0.
    destruct Hv0 as [Hv0 Hk0]. destruct (Hf v0 ltac:(by right) Hk0) as [Hid _]. rewrite Hw, Hid. by apply list_elem_of_fmap_2.
  - intros v' (v & Hin' & Hid & _)%Hin. rewrite <- Hid, Hv. auto.
Qed.
Lemma stack_ok_step t st st' u sps : rows_step t st st' -> u <> t -> stack_ok st u sps -> stack_ok st' u sps.
Proof.
  intros [_ Hv Hb] Hne [H1 H2 H3]. split; [..|done].
  - intros e He. destruct (H1 e He) as [Hlt Hp]. split; [lia|]. intros v' Hin Hid.
    destruct (Hb _ _ Hin) as [|(v & Hin' & Hid' & Hu)]; [lia|]. apply Hu; [done|]. apply Hp; [done|congruence].
  - intros e He. destruct (H2 e He) as [Hlt Hp]. split; [lia|]. intros v' Hin Hid.
    destruct (Hb _ _ Hin) as [|(v & Hin' & Hid' & Hu)]; [lia|]. apply Hu; [done|]. apply Hp; [done|congruence].
Qed.
Lemma stack_ok_same st st' t sps :
  rows st' = rows st -> version_id_counter st <= version_id_counter st' -> stack_ok st t sps -> stack_ok st' t sps.
Proof. intros Hr Hv. apply (stack_ok_step (t + 1)); [by apply rows_step_same|lia]. Qed.
Lemma stack_ok_nil st t : stack_ok st t [].
Proof. split; [by intros e ?%not_elem_of_nil..|constructor]. Qed.
Lemma lock_step_same t st st' :
  pager_commit_lock st' = pager_commit_lock st -> (holder t st' -> holder t st) -> lock_ok st -> lock_step t st st'.
Proof. intros Hl Hh Hok. split; [|by left]. intros H%Hh. rewrite Hl. split; [by apply (Hok t)|by right]. Qed.
Lemma alike_untouched tx tx' : alike_tx tx tx' -> (commit_dep_set tx' <> ∅ -> commit_dep_set tx <> ∅ \/ write_set tx <> []) -> untouched tx tx'.
Proof. intros (c & d & ->) ?. by split. Qed.

Lemma progress_steps m ws t a a' : bsteps a a' -> inv a -> progress m ws t a -> progress m ws t a'.
Proof.
  intros Hs Hi. unfold progress. destruct m as [[m f]|]; [|done]. destruct (cs m); eauto using ready_steps, drained_steps.
Qed.
Lemma bsteps_next a a' : bsteps a a' -> a_next a <= a_next a'.
Proof. induction 1 as [|a1 a2 a3 [Hs _] _ IH]; [lia|]. pose proof (astep_next _ _ Hs). lia. Qed.
Lemma tx_old g st t tx : Inv g st -> txs st !! t = Some tx -> t < tx_ids st.
Proof. intros [Hi _] Htx. by destruct (i_tx _ (inv_txs _ Hi) _ _ (abs_fwd g _ _ _ Htx)) as ([_ ?] & _). Qed.
Lemma cinv_step t g st g' st' :
  Inv g st -> bsteps (abs g st) (abs g' st') -> others_kept t g st g' st' ->
  (forall tx', txs st' !! t = Some tx' -> tx_inv g' st' t tx' /\ is_Some (global_header st')) ->
  (forall u, tx_ids st' <= u -> g_modes g' !! u = None /\ g_reads g' !! u = None) -> tx_ids st' <= 2 ^ 62 ->
  cinv g' st'.
Proof.
  intros [Hi Hc] Hs [Hm Ht He Hrs [Hl1 Hl2] Hold Hh Hf] Hown Hfr Hb. split; [..|done|done| | |].
  - intros u tx' Hu. destruct (decide (u = t)) as [->|Hne]; [by apply Hown|]. destruct (Ht u tx' Hne Hu) as (tx & Htx & Hun).
    pose proof (untouched_marks _ _ Hun) as Hdm. destruct Hun as [H1 H2 H3 H4 H5 H6 H7].
    assert (1 <= u) by (destruct (i_tx _ (inv_txs _ Hi) _ _ (abs_fwd g _ _ _ Htx)) as (? & _); lia).
    destruct (c_txs _ _ Hc _ _ Htx) as [K1 K2 K6 K7 K3 K4 K5]. split; rewrite ?H1, ?H2, ?H3, ?Hdm, ?H5, ?H6, ?(Hm u Hne); try done.
    + intros Hd. apply He; [done..|auto].
    + intros Ha. eapply stack_ok_step; [done..|auto].
    + intros Hx. apply K7. by apply He.
    + intros Hd. destruct (H7 Hd); auto.
    + by eapply progress_steps.
  - intros u tx' Hu. destruct (decide (u = t)) as [->|Hne]; [by apply (Hown tx')|]. destruct (Ht u tx' Hne Hu) as (tx & Htx & _).
    by apply Hh, (c_header _ _ Hc u tx).
  - intros u s Hu. destruct (Hf u s Hu); [|done]. by apply (c_final _ _ Hc u).
  - by apply (r_ok _ _ _ Hrs), (c_versions _ _ Hc).
  - pose proof (c_lock _ _ Hc) as Hlk. assert (Hback : forall u, u <> t -> holder u st' -> holder u st).
    { intros u Hne (tx' & Hu & Hh'). destruct (Ht u tx' Hne Hu) as (tx & Htx & Hun). exists tx. by rewrite <- (u_held _ _ Hun). }
    intros u Hu. assert (Hex : forall w, w <> t -> holder w st' -> pager_commit_lock st' = true /\ pager_commit_lock st = true /\ ~ holder t st).
    { intros w Hne Hw%Hback; [|done]. destruct (Hlk w Hw) as [Hl Huq]. assert (~ holder t st) by (intros Hn; by destruct Hne, (Huq t Hn)).
      destruct Hl2 as [->|[|]]; [by split_and!|congruence|done]. }
    split; [destruct (decide (u = t)) as [->|]; [by apply Hl1|by eapply Hex]|]. intros w Hw.
    destruct (decide (w = t)) as [->|Hwt], (decide (u = t)) as [->|Hut]; [done|..].
    + destruct (Hex u Hut Hu) as (_ & ? & ?). destruct (Hl1 Hw) as [_ [|]]; [congruence|done].
    + destruct (Hex w Hwt Hw) as (_ & ? & ?). destruct (Hl1 Hu) as [_ [|]]; [congruence|done].
    + destruct (Hlk u (Hback u Hut Hu)) as [_ Huq]. apply Huq, Hback; done.
  - pose proof (bsteps_next _ _ Hs) as Hn. pose proof (i_next _ (inv_txs _ Hi)) as [Hn1 _]. pose proof (c_exclusive _ _ Hc). cbn in Hn, Hn1.
    destruct (decide (exclusive_tx st' = t)) as [->|Hne]; [done|]. destruct (decide (1 <= exclusive_tx st')) as [Hge|]; [|lia].
    assert (exclusive_tx st = exclusive_tx st') by (by apply He). lia.
Qed.
(** ... and the transaction itself, when only its own dependencies grow. *)
Lemma tx_inv_alike g st g' st' t tx tx' :
  Inv g st -> bsteps (abs g st) (abs g' st') -> txs st !! t = Some tx -> untouched tx tx' -> g_modes g' !! t = g_modes g !! t ->
  exclusive_tx st' = exclusive_tx st -> rows st' = rows st -> version_id_counter st' = version_id_counter st -> tx_inv g' st' t tx'.
Proof.
  intros [Hi Hc] Hs Htx Hun Hm He Hr Hv. pose proof (untouched_marks _ _ Hun) as Hdm. destruct Hun as [H1 H2 H3 H4 H5 H6 H7].
  destruct (c_txs _ _ Hc _ _ Htx) as [K1 K2 K6 K7 K3 K4 K5].
  split; rewrite ?H1, ?H2, ?H3, ?Hdm, ?H5, ?H6, ?Hm, ?He; try done; auto.
  - intros Ha. eapply stack_ok_same; [done|lia|auto].
  - intros Hd. destruct (H7 Hd); auto.
  - by eapply progress_steps.
Qed.

Lemma reg_step_Inv g t st st' : Inv g st -> reg_step t st st' -> Inv g st'.
Proof.
  intros HI Hr. pose proof (reg_step_bstep _ _ _ _ HI Hr) as Hb. assert (Hbs : bsteps (abs g st) (abs g st')) by by apply rtc_once.
  split; [eapply bsteps_inv; [done|apply HI]|]. pose proof Hr as (tx & u & d & e & Htx & Hst & Hd & Hsd & Hne & He & Hni & Hws & ->).
  assert (Hun : forall w tx', alter inc_ctr t (alter (add_dep t) u (txs st)) !! w = Some tx' -> exists tx, txs st !! w = Some tx /\ untouched tx tx').
  { intros w tx'. destruct (decide (w = t)) as [->|]; [rewrite lookup_alter_eq|rewrite lookup_alter_ne by done].
    - rewrite lookup_alter_ne, Htx by done. intros [= <-]. exists tx. split; [done|]. split; auto.
    - destruct (decide (w = u)) as [->|]; [rewrite lookup_alter_eq, Hd|rewrite lookup_alter_ne by done; eauto using untouched_refl].
      intros [= <-]. exists d. split; [done|]. split; auto. }
  eapply (cinv_step t); [done|done| | |apply HI|apply HI].
  - split; auto; [by apply rows_step_same| |exact (tx_old _ _ _ _ HI Htx)]. apply lock_step_same; [done| |apply HI].
    intros (tx' & (tx0 & Htx0 & Hu)%Hun & Hh). exists tx0. by rewrite <- (u_held _ _ Hu).
  - cbn. intros tx' Htx'. destruct (Hun _ _ Htx') as (tx0 & Htx0 & Hu). split; [|by eapply (c_header g st); [apply HI|]].
    by eapply tx_inv_alike.
Qed.
Lemma regs_Inv g t st st' : Inv g st -> regs t st st' -> Inv g st' /\ bsteps (abs g st) (abs g st').
Proof.
  intros HI Hr. induction Hr as [st|st1 st2 st3 H1 _ IH]; [split; [done|apply rtc_refl]|].
  destruct (IH (reg_step_Inv _ _ _ _ HI H1)) as [HI3 Hb]. split; [done|]. eapply rtc_l; [|done]. by eapply reg_step_bstep.
Qed.

(** * Visibility *)

(** [tx] is the transaction [t] as it was looked up before. *)
Definition acting (st : MvStore) (t : TxID) (tx : Transaction) : Prop :=
  tx_id tx = t /\ exists tx0, txs st !! t = Some tx0 /\ state tx0 = Active /\ begin_ts tx0 = begin_ts tx.

Lemma acting_regs t tx st st' : regs t st st' -> acting st t tx -> acting st' t tx.
Proof.
  intros [_ Ha]%regs_alike (H1 & tx0 & H2 & H3 & H4). split; [done|]. destruct (alike_fwd _ _ _ _ Ha H2) as (tx1 & Htx1 & c & d & ->).
  eexists. split_and!; done.
Qed.
Lemma regs_sig g t st st' : Inv g st -> regs t st st' -> sig (abs g st') = sig (abs g st).
Proof.
  intros HI Hr. destruct (regs_Inv _ _ _ _ HI Hr) as [HI' _]. destruct (regs_alike _ _ _ Hr) as [_ Ha]. apply map_eq. intros u.
  rewrite !Inv_sig by done. specialize (Ha u). destruct (txs st !! u), (txs st' !! u); try done. by destruct Ha as (c & d & ->).
Qed.
Lemma regs_rows t st st' : regs t st st' -> rows st' = rows st.
Proof. by intros [-> _]%regs_alike. Qed.
Lemma reg_step_registered g t st st' t' u : reg_step t st st' -> registered (abs g st) t' u -> registered (abs g st') t' u.
Proof.
  intros (tx & w & d & e & Htx & _ & Hd & _ & Hne & _ & _ & _ & ->) (y & Hy & Hin). apply abs_back in Hy as (ty & Hty & ->).
  unfold registered. cbn. destruct (decide (u = t)) as [->|Hut].
  - eexists. rewrite abs_lookup, lookup_alter_eq, lookup_alter_ne, Hty by done. split; [done|]. done.
  - destruct (decide (u = w)) as [->|]; eexists; rewrite abs_lookup, lookup_alter_ne by done.
    + rewrite lookup_alter_eq, Hty. split; [done|]. cbn in *. set_solver.
    + rewrite lookup_alter_ne, Hty by done. done.
Qed.
Lemma regs_registered g t st st' t' u : regs t st st' -> registered (abs g st) t' u -> registered (abs g st') t' u.
Proof. induction 1; eauto using reg_step_registered. Qed.
Lemma settled_regs g t st st' t' b v : Inv g st -> regs t st st' -> settled (abs g st) t' b v -> settled (abs g st') t' b v.
Proof.
  intros HI Hr [H1 H2]. unfold settled. rewrite (regs_sig _ _ _ _ HI Hr). split; eauto using regs_registered.
Qed.
Lemma finds_regs g t st st' t' b l found :
  Inv g st -> regs t st st' -> finds (abs g st) t' b l found -> finds (abs g st') t' b l found.
Proof.
  intros HI Hr. induction l as [|v l IH]; [done|]. intros [Hs Hf]. split; [by eapply settled_regs|].
  rewrite (regs_sig _ _ _ _ HI Hr). destruct (vis _ _ _ _); auto.
Qed.

Lemma register_wp g st t tx u d e r v :
  Inv g st -> acting st t tx -> txs st !! u = Some d -> state d = Preparing e -> e < begin_ts tx -> v ∈ chain st r -> refers v u ->
  wp (register_commit_dependency t u) st (fun _ st' => regs t st st' /\ registered (abs g st') t u) (fun _ _ => False).
Proof.
  intros [Hi Hc] (Hid & tx0 & Htx0 & Hact & Hb) Hd Hsd He Hv Hrf. assert (Hne : t <> u) by (intros ->; congruence).
  unfold register_commit_dependency. repeat wstep; [by apply negb_true_iff, Z.eqb_neq|]. rewrite Hd, Hsd. case_decide as Hin; [wstep|repeat wstep].
  - split; [apply rtc_refl|]. exists (abs_tx g u d). split; [by apply abs_fwd|done].
  - split.
    + apply rtc_once. exists tx0, u, d, e. split_and!; try done; [lia|]. intros Hws.
      destruct (v_ref _ _ _ (inv_rows _ Hi r v Hv) _ Hrf) as (y & (dy & Hdy & ->)%abs_back & Hy). rewrite Hd in Hdy. injection Hdy as <-.
      cbn in Hy. rewrite Hws in Hy. by apply not_elem_of_nil in Hy.
    + eexists. cbn. rewrite abs_lookup, lookup_alter_ne, lookup_alter_eq, Hd by done. split; [done|]. cbn. set_solver.
Qed.

Section visible.
Context (g : ghost) (st : MvStore) (HI : Inv g st) (t : TxID) (tx : Transaction) (Ha : acting st t tx) (r : RowID) (v : RowVersion) (Hv : v ∈ chain st r).
Let s := sig (abs g st).

Lemma visible_tx : exists x, a_txs (abs g st) !! t = Some x /\ x_begin x = begin_ts tx /\ s !! t = Some Active.
Proof.
  destruct Ha as (Hid & tx0 & Htx0 & Hact & Hb). exists (abs_tx g t tx0). split_and!; [by apply abs_fwd|done|]. unfold s.
  by rewrite Inv_sig, Htx0 by done; cbn; rewrite Hact.
Qed.
(** The transaction a version refers to is found among the transactions, and its end is not the reader's beginning. *)
Lemma visible_ref u : refers v u ->
  exists d, txs st !! u = Some d /\ tx_id d = u /\ s !! u = Some (state d) /\
    forall e, state d = Preparing e \/ state d = Committed e -> u <> t /\ begin_ts tx <> e.
Proof.
  intros Hu. destruct (v_ref _ _ _ (inv_rows _ (proj1 HI) r v Hv) _ Hu) as (y & (d & Hd & ->)%abs_back & _). exists d.
  split_and!; [done|by apply (k_id g st), (c_txs _ _ (proj2 HI))|unfold s; by rewrite Inv_sig, Hd by done|].
  intros e He. destruct visible_tx as (x & Hx & Hb & Hact). assert (Hne : u <> t).
  { intros ->. unfold s in Hact. rewrite Inv_sig, Hd in Hact by done. cbn in Hact. destruct He; congruence. }
  split; [done|]. destruct (i_apart _ (inv_txs _ (proj1 HI)) _ _ _ _ Hx (abs_fwd g _ _ _ Hd)) as [_ Hap]; [congruence|].
  rewrite <- Hb. refine (proj1 (Hap e _)). cbn. destruct He as [-> | ->]; [|done]. cbn. by case_match.
Qed.
Lemma visible_stamp n : stamped v n -> begin_ts tx <> n.
Proof.
  intros Hn. destruct visible_tx as (x & Hx & Hb & _). destruct (v_stamp _ _ _ (inv_rows _ (proj1 HI) r v Hv) _ Hn) as [_ Hne].
  rewrite <- Hb. exact (Hne _ _ Hx).
Qed.

Lemma is_begin_visible_wp :
  wp (is_begin_visible tx v) st
    (fun b st' => b = vis_begin s t (begin_ts tx) v /\ regs t st st' /\
       forall w, spec_begin s (begin_ts tx) v = Some w -> registered (abs g st') t w) (fun _ _ => False).
Proof.
  pose proof Ha as (Hid & _). unfold is_begin_visible, vis_begin, spec_begin. destruct (rv_begin v) as [[n|u]|] eqn:Hb; [| |by repeat wstep; split_and!; [|apply rtc_refl|]].
  - repeat wstep; [apply negb_true_iff, Z.eqb_neq, visible_stamp; by left|]. split_and!; [done|apply rtc_refl|done].
  - destruct (visible_ref u ltac:(by left)) as (d & Hd & Hidd & Hs & He). repeat wstep. rewrite Hd, Hs.
    destruct (state d) as [|e| | |e] eqn:Hsd; repeat wstep; try (by split_and!; [|apply rtc_refl|]).
    + rewrite Hid, Hidd. split_and!; [done|apply rtc_refl|done].
    + destruct (He e (or_introl eq_refl)). rewrite Hid, Hidd. by apply negb_true_iff, Z.eqb_neq, not_eq_sym.
    + destruct (He e (or_introl eq_refl)). by apply negb_true_iff, Z.eqb_neq.
    + destruct (e <? begin_ts tx) eqn:Hlt; repeat wstep; [|by split_and!; [|apply rtc_refl|]]. apply Z.ltb_lt in Hlt. rewrite Hid.
      eapply wp_conseq; [eapply (register_wp g st t tx u d e r v); try done; by left| |done].
      intros _ st' [Hr Hreg]. repeat wstep. split_and!; [done..|]. by intros w [= <-].
    + destruct (He e (or_intror eq_refl)). by apply negb_true_iff, Z.eqb_neq.
Qed.
Lemma is_end_visible_wp :
  wp (is_end_visible tx v) st
    (fun b st' => b = vis_end s t (begin_ts tx) v /\ regs t st st' /\
       forall w, spec_end s (begin_ts tx) v = Some w -> registered (abs g st') t w) (fun _ _ => False).
Proof.
  pose proof Ha as (Hid & _). unfold is_end_visible, vis_end, spec_end. destruct (rv_end v) as [[n|u]|] eqn:Hb; [by repeat wstep; split_and!; [|apply rtc_refl|]| |by repeat wstep; split_and!; [|apply rtc_refl|]].
  destruct (visible_ref u ltac:(by right)) as (d & Hd & Hidd & Hs & He). repeat wstep. rewrite Hd, Hs.
  destruct (state d) as [|e| | |e] eqn:Hsd; repeat wstep; try (by split_and!; [|apply rtc_refl|]).
  - rewrite Hid, Hidd. split_and!; [done|apply rtc_refl|done].
  - destruct (He e (or_introl eq_refl)). rewrite Hid, Hidd. by apply negb_true_iff, Z.eqb_neq, not_eq_sym.
  - destruct (begin_ts tx <? e) eqn:Hlt; repeat wstep; [by split_and!; [|apply rtc_refl|]|]. apply Z.ltb_ge in Hlt. rewrite Hid.
    destruct (He e (or_introl eq_refl)) as [_ Hne]. eapply wp_conseq; [eapply (register_wp g st t tx u d e r v); try done; [lia|by right]| |done].
    intros _ st' [Hr Hreg]. repeat wstep. split_and!; [done..|]. by intros w [= <-].
Qed.
End visible.

Lemma is_visible_to_wp g st t tx r v :
  Inv g st -> acting st t tx -> v ∈ chain st r ->
  wp (is_visible_to tx v) st
    (fun b st' => b = vis (sig (abs g st)) t (begin_ts tx) v /\ regs t st st' /\ settled (abs g st') t (begin_ts tx) v) (fun _ _ => False).
Proof.
  intros HI Ha Hv. unfold is_visible_to. wstep. eapply wp_conseq; [by eapply is_begin_visible_wp| |done].
  intros b st1 (-> & Hr1 & Hs1). destruct (regs_Inv _ _ _ _ HI Hr1) as [HI1 _]. pose proof (regs_sig _ _ _ _ HI Hr1) as Hsig.
  destruct (vis_begin (sig (abs g st)) t (begin_ts tx) v) eqn:Hb.
  - eapply wp_conseq; [eapply (is_end_visible_wp g st1 HI1 t tx (acting_regs _ _ _ _ Hr1 Ha) r v)| |done].
    { unfold chain. by rewrite (regs_rows _ _ _ Hr1). }
    rewrite Hsig. intros b st2 (-> & Hr2 & Hs2). split_and!; [unfold vis; by rewrite Hb|by etrans|].
    unfold settled. rewrite (regs_sig _ _ _ _ HI1 Hr2), Hsig. split; eauto using regs_registered.
  - wstep. split_and!; [unfold vis; by rewrite Hb|done|]. unfold settled. rewrite Hsig. split; [eauto|]. rewrite Hb. done.
Qed.

Lemma regs_chain t st st' r : regs t st st' -> chain st' r = chain st r.
Proof. unfold chain. by intros ->%regs_rows. Qed.
Lemma finds_fun a t b l f1 f2 : finds a t b l f1 -> finds a t b l f2 -> f1 = f2.
Proof. induction l as [|v l IH]; cbn; [congruence|]. destruct (vis _ _ _ _); naive_solver congruence. Qed.

Lemma find_visible_wp g t tx r versions st :
  Inv g st -> acting st t tx -> (forall v, v ∈ versions -> v ∈ chain st r) ->
  wp (find_visible tx versions) st
    (fun found st' => regs t st st' /\ finds (abs g st') t (begin_ts tx) versions found) (fun _ _ => False).
Proof.
  revert st. induction versions as [|v versions IH]; intros st HI Ha Hin; cbn [find_visible]; [by wstep; split; [apply rtc_refl|]|].
  wstep. eapply wp_conseq; [eapply is_visible_to_wp; [done|done|apply Hin; by left]| |done]. intros b st1 (-> & Hr & Hs).
  destruct (regs_Inv _ _ _ _ HI Hr) as [HI1 _]. pose proof (regs_sig _ _ _ _ HI Hr) as Hsig. destruct (vis (sig (abs g st)) t (begin_ts tx) v) eqn:Hvis.
  - wstep. split; [done|]. split; [done|]. by rewrite Hsig, Hvis.
  - eapply wp_conseq; [apply IH; [done|by eapply acting_regs|]| |done].
    + intros v' Hv'. rewrite (regs_chain _ _ _ _ Hr). apply Hin. by right.
    + intros found st2 [Hr2 Hf]. split; [by etrans|]. split; [by eapply settled_regs|]. by rewrite (regs_sig _ _ _ _ HI1 Hr2), Hsig, Hvis.
Qed.

Lemma regs_trans t st1 st2 st3 : regs t st1 st2 -> regs t st2 st3 -> regs t st1 st3.
Proof. intros. by etrans. Qed.
Lemma regs_refl t st : regs t st st.
Proof. apply rtc_refl. Qed.
#[local] Hint Resolve regs_trans regs_refl : core.

(** Whether a version hides the row in the B-tree from transaction [t]. *)
Definition hides (s : gmap TxID TransactionState) (t : TxID) (b : Z) (rv : RowVersion) : bool :=
  vis s t b rv ||
  match rv_end rv with
  | Some (Timestamp e) => e <? b
  | Some (TxId u) => (u =? t) || match s !! u with Some (Preparing e) | Some (Committed e) => e <? b | _ => false end
  | None => false
  end.
Lemma invalidating_wp g t tx r v st :
  Inv g st -> acting st t tx -> v ∈ chain st r ->
  wp (is_btree_invalidating_version tx v) st (fun b st' => b = hides (sig (abs g st)) t (begin_ts tx) v /\ regs t st st') (fun _ _ => False).
Proof.
  intros HI Ha Hv. unfold is_btree_invalidating_version, hides. wstep. eapply wp_conseq; [by eapply is_visible_to_wp| |done]. intros b st1 (-> & Hr & _).
  destruct (vis _ _ _ v); [by wstep|]. destruct (regs_Inv _ _ _ _ HI Hr) as [HI1 _]. pose proof (acting_regs _ _ _ _ Hr Ha) as Ha1.
  assert (Hv1 : v ∈ chain st1 r) by by rewrite (regs_chain _ _ _ _ Hr). rewrite <- (regs_sig _ _ _ _ HI Hr). cbn [orb].
  destruct (rv_end v) as [[n|u]|] eqn:He; repeat wstep; try done.
  - apply negb_true_iff, Z.eqb_neq. eapply visible_stamp; eauto. by right.
  - pose proof Ha1 as (Hid & _). rewrite Hid. destruct (u =? t) eqn:Hut; repeat wstep; [done|].
    destruct (visible_ref g st1 HI1 t tx Ha1 r v Hv1 u) as (d & Hd & _ & _ & _); [by right|]. unfold lookup_tx_state. rewrite Hd, Inv_sig, Hd by done.
    cbn [fmap option_fmap option_map]. destruct (state d) as [|e| | |e] eqn:Hsd; repeat wstep; try done. destruct (e <? begin_ts tx) eqn:Hlt; repeat wstep; [|done].
    apply Z.ltb_lt in Hlt. eapply wp_conseq; [eapply (register_wp g st1 t tx u d e r v); try done; by right| |done].
    intros _ st2 [Hr2 _]. repeat wstep. eauto.
Qed.
Lemma any_invalidating_wp g t tx r versions st :
  Inv g st -> acting st t tx -> (forall v, v ∈ versions -> v ∈ chain st r) ->
  wp (any_invalidating tx versions) st
    (fun b st' => b = existsb (hides (sig (abs g st)) t (begin_ts tx)) versions /\ regs t st st') (fun _ _ => False).
Proof.
  revert st. induction versions as [|v versions IH]; intros st HI Ha Hin; cbn [any_invalidating existsb]; [by wstep|].
  wstep. eapply wp_conseq; [eapply invalidating_wp; [done|done|apply Hin; by left]| |done]. intros b st1 [-> Hr].
  destruct (hides _ _ _ v); [by wstep|]. destruct (regs_Inv _ _ _ _ HI Hr) as [HI1 _]. cbn [orb].
  eapply wp_conseq; [apply IH; [done|by eapply acting_regs|]| |done].
  - intros v' Hv'. rewrite (regs_chain _ _ _ _ Hr). apply Hin. by right.
  - intros b st2 [-> Hr2]. rewrite (regs_sig _ _ _ _ HI Hr). eauto.
Qed.

Lemma get_tx_acting g st t tx : Inv g st -> txs st !! t = Some tx -> state tx = Active -> acting st t tx.
Proof. intros [_ Hc] Htx Hst. split; [by apply (k_id g st), (c_txs _ _ Hc)|eauto]. Qed.

Lemma wp_get_tx st t tx (Q : Transaction -> MvStore -> Prop) E : txs st !! t = Some tx -> Q tx st -> wp (get_tx t) st Q E.
Proof. intros Htx HQ. unfold wp, get_tx. by rewrite Htx. Qed.
Lemma wp_expect_tx st t tx (Q : Transaction -> MvStore -> Prop) E : txs st !! t = Some tx -> Q tx st -> wp (expect_tx t) st Q E.
Proof. intros Htx HQ. unfold wp, expect_tx. by rewrite Htx. Qed.
Lemma wp_throw {A} e st (Q : A -> MvStore -> Prop) (E : LimboError -> MvStore -> Prop) : E e st -> wp (throw e) st Q E.
Proof. done. Qed.

(** What deletion finds: a version that is seen, not yet ended. *)
Lemma delete_rev_wp g t tx r versions st :
  Inv g st -> txs st !! t = Some tx -> state tx = Active -> (forall v, v ∈ versions -> v ∈ chain st r) ->
  wp (delete_rev t versions) st
    (fun found st' => regs t st st' /\
       match found with
       | Some (versions', version_id) => exists l1 v l2, versions = l1 ++ v :: l2 /\ versions' = l1 ++ set_end v (Some (TxId t)) :: l2 /\
           rv_end v = None /\ vis (sig (abs g st')) t (begin_ts tx) v = true /\ settled (abs g st') t (begin_ts tx) v /\ version_id = rv_id v
       | None => True
       end)
    (fun e st' => regs t st st').
Proof.
  revert st tx. induction versions as [|v versions IH]; intros st tx HI Htx Hst Hin; cbn [delete_rev]; [by wstep|].
  pose proof (get_tx_acting _ _ _ _ HI Htx Hst) as Ha. wstep. eapply wp_get_tx; [done|]. unfold assert_active. repeat wstep; [by rewrite bool_decide_true|].
  eapply wp_conseq; [eapply is_visible_to_wp; [done|done|apply Hin; by left]| |done]. intros b st1 (-> & Hr & Hs).
  destruct (regs_Inv _ _ _ _ HI Hr) as [HI1 _]. pose proof (regs_sig _ _ _ _ HI Hr) as Hsig. destruct (vis (sig (abs g st)) t (begin_ts tx) v) eqn:Hvis.
  - wstep. wstep. pose proof Ha as (Hid & _). destruct (is_write_write_conflict st1 tx v) eqn:Hww; [apply wp_throw; eauto|]. wstep. split; [done|].
    exists [], v, versions. rewrite Hid, Hsig. split_and!; try done. revert Hww Hvis. unfold is_write_write_conflict, vis, vis_end. intros Hww.
    destruct (rv_end v) as [[n|u]|] eqn:He; [done| |done]. intros [_ Hve]%andb_prop. rewrite Hid in Hww.
    destruct (visible_ref g st1 HI1 t tx (acting_regs _ _ _ _ Hr Ha) r v) with (u := u) as (d & Hd & _ & Hsd & _); [|by right|].
    { rewrite (regs_chain _ _ _ _ Hr). apply Hin. by left. }
    rewrite Hsig in Hsd. unfold lookup_tx_state in Hww. rewrite Hd in Hww. destruct (visible_tx g st HI t tx Ha) as (_ & _ & _ & Hact).
    destruct (u =? t) eqn:Hut; [apply Z.eqb_eq in Hut as ->; rewrite Hact, Z.eqb_refl in Hve; done|].
    rewrite Inv_sig in Hsd by done. destruct (alike_back _ _ _ _ (proj2 (regs_alike _ _ _ Hr)) Hd) as (d0 & Hd0 & _).
    destruct (Inv_state _ _ _ _ HI1 Hd). by destruct (state d).
  - destruct (alike_fwd _ _ _ _ (proj2 (regs_alike _ _ _ Hr)) Htx) as (tx1 & Htx1 & c & d & ->). wstep.
    eapply wp_conseq; [apply (IH st1 _ HI1 Htx1 Hst)| |].
    + intros v' Hv'. rewrite (regs_chain _ _ _ _ Hr). apply Hin. by right.
    + intros [[versions' vid]|] st2 [Hr2 Hf]; wstep; (split; [by eauto|]); [|done]. destruct Hf as (l1 & v1 & l2 & -> & -> & Hf). by exists (v :: l1), v1, l2.
    + eauto.
Qed.

(** * Writing *)

Lemma insert_rev_spec st rv versions nb :
  resolve_begin_timestamp st (rv_begin rv) = Ok nb ->
  (forall v, v ∈ versions -> exists b, resolve_begin_timestamp st (rv_begin v) = Ok b) ->
  (forall n, rv_begin rv <> Some (Timestamp n)) ->
  exists l1 l2, versions = l1 ++ l2 /\ insert_rev st rv versions = Ok (l1 ++ rv :: l2, true) /\
    forall v, v ∈ l1 -> exists b, resolve_begin_timestamp st (rv_begin v) = Ok b /\ nb < b.
Proof.
  intros Hnb Hres Hno. induction versions as [|v versions IH].
  - exists [], []. split_and!; try done. by intros v ?%not_elem_of_nil.
  - destruct (Hres v) as (b & Hb); [by left|]. cbn [insert_rev]. rewrite Hb, Hnb. rstep. destruct (b <=? nb) eqn:Hle.
    + exists [], (v :: versions). split_and!; [done| |by intros v' ?%not_elem_of_nil].
      replace (same_begin (rv_begin v) (rv_begin rv)) with false; [by rewrite andb_false_r|].
      destruct (rv_begin v) as [[|]|], (rv_begin rv) as [[n|]|]; try done. by destruct (Hno n).
    + destruct IH as (l1 & l2 & -> & -> & Hl1); [intros; apply Hres; by right|]. exists (v :: l1), l2. split_and!; [done|done|].
      intros v' [->|Hv']%elem_of_cons; [|auto]. exists b. split; [done|]. apply Z.leb_gt in Hle. lia.
Qed.
Lemma reverse_split {A} (l l1 l2 : list A) : reverse l = l1 ++ l2 -> l = reverse l2 ++ reverse l1.
Proof. intros H. by rewrite <- (reverse_involutive l), H, reverse_app. Qed.

Lemma insert_version_wp g st t tx r rv :
  Inv g st -> txs st !! t = Some tx ->
  (rv_begin rv = Some (TxId t) \/ rv_begin rv = None) ->
  wp (insert_version r rv) st
    (fun _ st' => exists l1 l2 c, chain st r = l1 ++ l2 /\
       (forall v, v ∈ l2 -> exists b, resolve_begin_timestamp st (rv_begin v) = Ok b /\ (rv_begin rv = Some (TxId t) -> begin_ts tx < b)) /\
       st' = set_rows (<[r := l1 ++ rv :: l2]> (rows st)) (set_live_version_count_approx c st)) (fun _ _ => False).
Proof.
  intros [Hi Hc] Htx Hrv. unfold insert_version, insert_version_raw. repeat wstep.
  assert (Hex : exists nb, resolve_begin_timestamp st (rv_begin rv) = Ok nb /\ (rv_begin rv = Some (TxId t) -> nb = begin_ts tx)).
  { destruct Hrv as [-> | ->]; cbn; [rewrite Htx|]; by eexists; split; [done|]. }
  destruct Hex as (nb & Hnb & Hnb'). destruct (insert_rev_spec st rv (reverse (chain st r)) nb Hnb) as (l1 & l2 & Hl & Hins & Hl1).
  - intros v Hv. rewrite elem_of_reverse in Hv. unfold resolve_begin_timestamp. destruct (rv_begin v) as [[n|u]|] eqn:Hb; [by eauto| |by eauto].
    destruct (v_ref _ _ _ (inv_rows _ Hi r v Hv) u) as (y & (d & Hd & ->)%abs_back & _); [by left|]. rewrite Hd. eauto.
  - intros n. destruct Hrv as [-> | ->]; done.
  - unfold wp at 1, slift. rewrite Hins. repeat wstep. exists (reverse l2), (reverse l1), (live_version_count_approx st + 1).
    split_and!; [by apply reverse_split| |by rewrite reverse_app, reverse_cons, <- app_assoc].
    intros v Hv. rewrite elem_of_reverse in Hv. destruct (Hl1 v Hv) as (b & Hb & Hlt). exists b. split; [done|]. intros He. by rewrite <- (Hnb' He).
Qed.

Definition wrote_tx (r : RowID) (tx tx' : Transaction) : Prop :=
  tx_id tx' = tx_id tx /\ state tx' = state tx /\ begin_ts tx' = begin_ts tx /\ abort_now tx' = abort_now tx /\
  commit_dep_set tx' = commit_dep_set tx /\ commit_dep_counter tx' = commit_dep_counter tx /\ dirty_marks tx' = dirty_marks tx /\
  write_set tx' = WriteSet_insert r (write_set tx) /\ pager_commit_lock_held tx' = pager_commit_lock_held tx.
(** The store after a write of row [r] by [t]. *)
Record write_frame (t : TxID) (r : RowID) (l : list RowVersion) (st st' : MvStore) : Prop := {
  w_rows : rows st' = <[r := l]> (rows st);
  w_txs : exists f, txs st' = alter f t (txs st) /\ (forall tx, wrote_tx r tx (f tx)) /\
    forall tx, txs st !! t = Some tx -> versions_ok st -> stack_ok st t (savepoint_stack tx) -> stack_ok st' t (savepoint_stack (f tx));
  w_clock : clock st' = clock st;
  w_ids : tx_ids st' = tx_ids st;
  w_exclusive : exclusive_tx st' = exclusive_tx st;
  w_header : global_header st' = global_header st;
  w_final : finalized_tx_states st' = finalized_tx_states st;
  w_versions : rows_step t st st';
  w_lock : pager_commit_lock st' = pager_commit_lock st
}.
Lemma write_frame_abs g st st' t tx r l :
  txs st !! t = Some tx -> write_frame t r l st st' ->
  abs (drop_read t r g) st' = set_arows (upd (abs g st) t (wrote r (abs_tx g t tx))) (<[r := l]> (rows st)).
Proof.
  intros Htx [Hr (f & Hf & Hfx & _) Hcl Hid _ _ _ _ _]. unfold abs, set_arows, upd. cbn. rewrite Hr, Hcl, Hid, Hf. f_equal.
  destruct (Hfx tx) as (H1 & H2 & H3 & H4 & H5 & H6 & _ & H8 & _). apply map_eq. intros u. rewrite abs_lookup. destruct (decide (u = t)) as [->|Hne].
  - rewrite lookup_alter_eq, Htx, lookup_insert_eq. cbn. f_equal. unfold abs_tx, wrote. cbn. rewrite lookup_insert_eq. by rewrite H2, H3, H4, H5, H6, H8.
  - rewrite lookup_alter_ne, lookup_insert_ne, abs_lookup by done. unfold abs_tx, drop_read. cbn. by rewrite lookup_insert_ne.
Qed.
Lemma write_frame_Inv g st st' t tx r l :
  Inv g st -> txs st !! t = Some tx -> g_modes g !! t = None -> write_frame t r l st st' ->
  astep (abs g st) (abs (drop_read t r g) st') -> Inv (drop_read t r g) st' /\ bsteps (abs g st) (abs (drop_read t r g) st').
Proof.
  intros HI Htx Hm Hw Hs. pose proof HI as [Hi Hc]. assert (Hb : bsteps (abs g st) (abs (drop_read t r g) st')).
  { apply rtc_once. split; [done|]. pose proof (c_bound _ _ Hc). cbn. lia. }
  split; [|done]. split; [by eapply bsteps_inv|]. destruct Hw as [Hr (f & Hf & Hfx & Hfs) Hcl Hid Hex Hh Hfin Hvs Hlk].
  eapply (cinv_step t); [done|done| | | |rewrite Hid; apply Hc].
  - split; [done| | |done| |rewrite Hid; exact (tx_old _ _ _ _ HI Htx)| |].
    + intros u tx' Hne. rewrite Hf, lookup_alter_ne by done. eauto using untouched_refl.
    + by rewrite Hex.
    + apply lock_step_same; [done| |apply Hc]. intros (tx' & Htx' & Hh'). rewrite Hf, lookup_alter_eq, Htx in Htx'. injection Htx' as <-.
      exists tx. split; [done|]. by destruct (Hfx tx) as (_ & _ & _ & _ & _ & _ & _ & _ & <-).
    + by rewrite Hh.
    + rewrite Hfin. auto.
  - rewrite Hf, lookup_alter_eq, Htx, Hh. intros tx' [= <-]. split; [|by eapply c_header].
    destruct (Hfx tx) as (H1 & H2 & H3 & H4 & H5 & H6 & H7 & H8 & H9). destruct (c_txs _ _ Hc _ _ Htx) as [K1 K2 K6 K7 K3 K4 K5].
    split; rewrite ?H1, ?H2, ?H5, ?H7, ?H8, ?H9, ?Hex; try done.
    + intros Ha. apply Hfs; [done|apply Hc|auto].
    + unfold WriteSet_insert. case_decide; [done|]. by destruct (write_set tx).
    + cbn. by rewrite Hm.
  - intros u Hu. rewrite Hid in Hu. destruct (c_fresh _ _ Hc u Hu) as [? Hrd]. split; [done|]. cbn.
    rewrite lookup_insert_ne; [done|]. intros <-. destruct (i_tx _ (inv_txs _ Hi) _ _ (abs_fwd g _ _ _ Htx)) as (? & _). cbn in *. lia.
Qed.

(** A change of the store that concerns neither versions nor transactions. *)
Record quiet (st st' : MvStore) : Prop := {
  q_rows : rows st' = rows st;
  q_txs : txs st' = txs st;
  q_clock : clock st' = clock st;
  q_ids : tx_ids st' = tx_ids st;
  q_exclusive : exclusive_tx st' = exclusive_tx st;
  q_header : is_Some (global_header st) -> is_Some (global_header st');
  q_final : finalized_tx_states st' = finalized_tx_states st;
  q_counter : version_id_counter st <= version_id_counter st';
  q_lock : pager_commit_lock st' = pager_commit_lock st
}.
Lemma quiet_abs g st st' : quiet st st' -> abs g st' = abs g st.
Proof. intros [H1 H2 H3 H4 _ _ _ _ _]. unfold abs. by rewrite H1, H2, H3, H4. Qed.
Lemma quiet_Inv g st st' : quiet st st' -> Inv g st -> Inv g st'.
Proof.
  intros Hq [Hi Hc]. pose proof (quiet_abs g _ _ Hq) as Ha. destruct Hq as [H1 H2 H3 H4 H5 H6 H7 H8 H9]. unfold Inv. rewrite Ha. split; [done|].
  destruct Hc as [C1 C2 C3 C4 C5 C6 C7 C8]. split; rewrite ?H2, ?H4, ?H5, ?H7; try done; [|by eauto| |].
  - intros t tx Htx. destruct (C1 t tx Htx). split; rewrite ?Ha, ?H5; try done. intros. eapply stack_ok_same; [done..|auto].
  - by apply (r_ok (-1) st), C6; apply rows_step_same.
  - intros t. unfold holder. rewrite H2, H9. apply C7.
Qed.

Lemma put_Inv g st st' t tx r l1 l2 v :
  Inv g st -> txs st !! t = Some tx -> g_modes g !! t = None -> chain st r = l1 ++ l2 ->
  (rv_begin v = Some (TxId t) /\ rv_end v = None \/ rv_begin v = None /\ rv_end v = Some (TxId t)) ->
  write_frame t r (l1 ++ v :: l2) st st' -> Inv (drop_read t r g) st' /\ bsteps (abs g st) (abs (drop_read t r g) st').
Proof.
  intros HI Htx Hm Hl Hv Hw. eapply write_frame_Inv; [done..|]. rewrite (write_frame_abs g st st' t tx r _ Htx Hw).
  apply (a_put (abs g st)); [by apply abs_fwd| |done|done]. cbn.
  pose proof (k_state _ _ _ _ (c_txs _ _ (proj2 HI) _ _ Htx)) as Hs. rewrite Hm in Hs. cbn in Hs. by rewrite Hs.
Qed.
Lemma WriteSet_insert_in r ws : r ∈ WriteSet_insert r ws.
Proof. apply WriteSet_insert_spec. by left. Qed.
(** A change of the newest savepoint that leaves its header flag alone. *)
Definition keeps_flag (f : Savepoint -> Savepoint) : Prop := forall sp, sp_header_dirty (f sp) = sp_header_dirty sp.
Lemma on_savepoint_marks g tx : keeps_flag g -> dirty_marks (on_savepoint g tx) = dirty_marks tx.
Proof. intros Hg. unfold dirty_marks, on_savepoint. destruct (savepoint_stack tx) eqn:Hs; cbn; [by rewrite Hs|by rewrite Hg]. Qed.
Lemma wrote_tx_on f r : (forall tx, wrote_tx r tx (f tx)) -> forall g : Savepoint -> Savepoint, keeps_flag g -> forall tx, wrote_tx r tx (f (on_savepoint g tx)).
Proof.
  intros Hf g Hg tx. specialize (Hf (on_savepoint g tx)). unfold wrote_tx in *. rewrite (on_savepoint_marks g tx Hg) in Hf.
  unfold on_savepoint in *. by destruct (savepoint_stack tx).
Qed.
Lemma insert_to_write_set_wrote r tx : wrote_tx r tx (insert_to_write_set r tx).
Proof.
  assert (Hm := on_savepoint_marks (record_newly_added r) tx ltac:(done)). unfold insert_to_write_set, wrote_tx. cbn.
  rewrite <- Hm. unfold on_savepoint. by destruct (savepoint_stack tx).
Qed.

(** What the newest savepoint is told of a write. *)
Lemma stack_ok_on st t f tx :
  (forall sp e, e ∈ created_table_versions (f sp) -> e ∈ created_table_versions sp \/ entry_ok st (created_by t) e) ->
  (forall sp, sp ∈ savepoint_stack tx -> deleted_table_versions (f sp) = deleted_table_versions sp \/
     exists e, deleted_table_versions (f sp) = deleted_table_versions sp ++ [e] /\ entry_ok st (ended_by t) e /\
       e ∉ (savepoint_stack tx ≫= deleted_table_versions)) ->
  stack_ok st t (savepoint_stack tx) -> stack_ok st t (savepoint_stack (on_savepoint f tx)).
Proof.
  intros Hc Hd Hok. unfold on_savepoint. destruct (savepoint_stack tx) as [|sp sps] eqn:Hs; [by rewrite Hs|]. cbn. destruct Hok as [H1 H2 H3].
  cbn in H1, H2. setoid_rewrite elem_of_app in H1. setoid_rewrite elem_of_app in H2. assert (Hsp : sp ∈ sp :: sps) by by left. split; cbn.
  - intros e [He|He]%elem_of_app; [|auto]. destruct (Hc sp e He); auto.
  - intros e [He|He]%elem_of_app; [|auto]. revert He. destruct (Hd sp Hsp) as [->|(e' & -> & He' & _)]; [auto|].
    rewrite elem_of_app, list_elem_of_singleton. intros [He| ->]; auto.
  - cbn in *. destruct (Hd sp Hsp) as [->|(e' & -> & _ & Hni)]; [done|]. rewrite <- app_assoc. rewrite elem_of_app in Hni.
    apply list.NoDup_app in H3 as (N1 & N2 & N3). apply list.NoDup_app. split_and!; [done| |].
    + intros e He. cbn. rewrite elem_of_cons. intros [->|]; [tauto|]. by eapply N2.
    + cbn. apply list.NoDup_cons. tauto.
Qed.
Lemma stack_ok_added st t r tx : stack_ok st t (savepoint_stack tx) -> stack_ok st t (savepoint_stack (insert_to_write_set r tx)).
Proof. apply stack_ok_on; auto. Qed.
Lemma stack_ok_created st t r i tx :
  entry_ok st (created_by t) (r, i) -> stack_ok st t (savepoint_stack tx) -> stack_ok st t (savepoint_stack (record_created_table_version r i tx)).
Proof.
  intros He. apply stack_ok_on; [|auto]. intros sp e. cbn. rewrite elem_of_app, list_elem_of_singleton. intros [| ->]; auto.
Qed.
Lemma stack_ok_deleted st t r i tx :
  entry_ok st (ended_by t) (r, i) -> (r, i) ∉ (savepoint_stack tx ≫= deleted_table_versions) ->
  stack_ok st t (savepoint_stack tx) -> stack_ok st t (savepoint_stack (record_deleted_table_version r i tx)).
Proof. intros He Hni. apply stack_ok_on; [auto|]. intros sp _. right. by exists (r, i). Qed.
Lemma chain_insert st st' r l r' : rows st' = <[r := l]> (rows st) -> chain st' r' = if decide (r = r') then l else chain st r'.
Proof. intros H. unfold chain. rewrite H. case_decide as Hr; [subst; by rewrite lookup_insert_eq|by rewrite lookup_insert_ne]. Qed.
Lemma put_rows_step t0 st st' r l1 l2 rv :
  chain st r = l1 ++ l2 -> rows st' = <[r := l1 ++ rv :: l2]> (rows st) -> version_id_counter st <= rv_id rv < version_id_counter st' ->
  rows_step t0 st st'.
Proof.
  intros Hl Hr Hid. split; [|lia|].
  - intros H r'. rewrite (chain_insert _ _ _ _ _ Hr). destruct (H r') as [H1 H2]. case_decide as Hrr; [subst r'|split; [done|]; intros v Hv; specialize (H2 v Hv); lia].
    rewrite Hl in H1, H2. assert (H3 : forall v, v ∈ l1 \/ v ∈ l2 -> rv_id v < version_id_counter st) by (intros; apply H2; by rewrite elem_of_app). split.
    + rewrite fmap_app, fmap_cons. rewrite fmap_app in H1. apply list.NoDup_app in H1 as (N1 & N2 & N3).
      apply list.NoDup_app. split_and!; [done| |].
      * intros i Hi. rewrite elem_of_cons. intros [->|]; [|by eapply N2]. apply list_elem_of_fmap in Hi as (v & Hv & Hin). specialize (H3 v (or_introl Hin)). lia.
      * apply list.NoDup_cons. split; [|done]. intros (v & Hv & Hin)%list_elem_of_fmap. specialize (H3 v (or_intror Hin)). lia.
    + intros v. rewrite elem_of_app, elem_of_cons. intros [Hin|[->|Hin]]; [specialize (H3 v (or_introl Hin))| |specialize (H3 v (or_intror Hin))]; lia.
  - intros r' v'. rewrite (chain_insert _ _ _ _ _ Hr). case_decide as Hrr; [subst r'|intros; right; eauto 10].
    rewrite Hl, elem_of_app, elem_of_cons. intros [|[->|]]; [right|by left; lia|right]; exists v'; rewrite elem_of_app; auto.
Qed.
Lemma end_rows_step t0 t st st' r l1 l2 v :
  chain st r = l1 ++ v :: l2 -> rows st' = <[r := l1 ++ set_end v (Some (TxId t)) :: l2]> (rows st) -> version_id_counter st' = version_id_counter st ->
  rv_end v = None -> rv_begin v <> None -> rows_step t0 st st'.
Proof.
  intros Hl Hr Hc He Hb. split; [|lia|].
  - intros H r'. rewrite (chain_insert _ _ _ _ _ Hr), Hc. destruct (H r') as [H1 H2]. case_decide as Hrr; [subst r'|by split].
    rewrite Hl in H1, H2. split; [by rewrite fmap_app, fmap_cons in H1 |- *|]. intros w. rewrite elem_of_app, elem_of_cons.
    assert (rv_id v < version_id_counter st) by (apply H2; set_solver). intros [|[->|]]; [|done|]; apply H2; set_solver.
  - intros r' v'. rewrite (chain_insert _ _ _ _ _ Hr). case_decide as Hrr; [subst r'|intros; right; eauto 10].
    rewrite Hl, elem_of_app, elem_of_cons. intros [|[->|]]; right; [by exists v'; rewrite elem_of_app; auto| |by exists v'; rewrite elem_of_app, elem_of_cons; auto].
    exists v. split; [set_solver|]. split; [done|]. intros u _. unfold created_by, ended_by. cbn. rewrite He. split; [intros [|[]]; [by left|done]|intros [|[]]; done].
Qed.

(** What a successful write leaves. *)
Definition written (g : ghost) (st : MvStore) (t : TxID) (r : RowID) (st' : MvStore) : Prop :=
  Inv (drop_read t r g) st' /\ bsteps (abs g st) (abs (drop_read t r g) st') /\ r ∈ write_set_of st' t /\
  exists tx', txs st' !! t = Some tx'.
Lemma write_frame_in t tx r l st st' :
  txs st !! t = Some tx -> write_frame t r l st st' -> r ∈ write_set_of st' t /\ exists tx', txs st' !! t = Some tx'.
Proof.
  intros Htx [_ (f & Hf & Hfx & _) _ _ _ _ _ _ _]. unfold write_set_of. rewrite Hf, lookup_alter_eq, Htx. cbn.
  destruct (Hfx tx) as (_ & _ & _ & _ & _ & _ & _ & -> & _). split; [apply WriteSet_insert_in|eauto].
Qed.

Lemma write_frame_resolve t r l st st' f : write_frame t r l st st' -> resolve_begin_timestamp st' f = resolve_begin_timestamp st f.
Proof.
  intros [_ (h & Hh & Hx & _) _ _ _ _ _ _ _]. destruct f as [[n|u]|]; try done. cbn. rewrite Hh.
  destruct (decide (u = t)) as [->|]; [rewrite lookup_alter_eq|by rewrite lookup_alter_ne].
  destruct (txs st !! t) as [tx|]; [|done]. cbn. by destruct (Hx tx) as (_ & _ & -> & _).
Qed.
Lemma alter_alter {A} (f g : A -> A) (t : TxID) (m : gmap TxID A) : alter f t (alter g t m) = alter (f ∘ g) t m.
Proof.
  apply map_eq. intros u. destruct (decide (u = t)) as [->|]; [|by rewrite !lookup_alter_ne].
  rewrite !lookup_alter_eq. by destruct (m !! t).
Qed.
Lemma wp_get_version_id st Q E :
  Q (version_id_counter st) (set_version_id_counter (version_id_counter st + 1) st) -> wp get_version_id st Q E.
Proof. intros HQ. unfold get_version_id. by repeat wstep. Qed.

Section client.
Context (g : ghost) (st : MvStore) (HI : Inv g st) (t : TxID) (tx : Transaction) (Htx : txs st !! t = Some tx) (Hm : g_modes g !! t = None).

Lemma client_active : state tx = Active.
Proof. pose proof (k_state _ _ _ _ (c_txs _ _ (proj2 HI) _ _ Htx)) as Hs. by rewrite Hm in Hs. Qed.
Lemma client_id : tx_id tx = t.
Proof. by apply (k_id g st), (c_txs _ _ (proj2 HI)). Qed.

(** The version that an insertion adds, in place. *)
Lemma put_wp (r : RowID) (rv : RowVersion) (vid : Z) (st1 : MvStore) (h : MvStore -> MvStore) :
  (rv_begin rv = Some (TxId t) /\ rv_end rv = None \/ rv_begin rv = None /\ rv_end rv = Some (TxId t)) ->
  rv_id rv = vid -> version_id_counter st <= vid < version_id_counter st1 ->
  quiet st st1 -> global_header st1 = global_header st ->
  (forall s, quiet s (h s) /\ global_header (h s) = global_header s) ->
  wp (_ ← insert_version r rv; _ ← smodify h; _ ← update_tx t (record_created_table_version r vid); update_tx t (insert_to_write_set r)) st1
    (fun _ st' => written g st t r st' /\ (exists tx', txs st' !! t = Some tx' /\ begin_ts tx' = begin_ts tx) /\
       exists l1 l2, chain st' r = l1 ++ rv :: l2 /\
         forall v, v ∈ l2 -> exists b, resolve_begin_timestamp st' (rv_begin v) = Ok b /\ (rv_begin rv = Some (TxId t) -> begin_ts tx < b)) (fun _ _ => False).
Proof.
  intros Hrv Hvid Hlt Hq Hh1 Hh. pose proof (quiet_Inv g _ _ Hq HI) as HI1. assert (Htx1 : txs st1 !! t = Some tx) by by rewrite (q_txs _ _ Hq).
  wstep. eapply wp_conseq; [eapply (insert_version_wp g st1 t tx); [done|done|tauto]| |done].
  intros _ st2 (l1 & l2 & c & Hl & Hl2 & ->). unfold update_tx. repeat wstep. set (st2 := set_rows _ _). destruct (Hh st2) as [[Q1 Q2 Q3 Q4 Q5 _ Q7 Q8 Q9] Q6].
  unfold chain in Hl. rewrite (q_rows _ _ Hq) in Hl. fold (chain st r) in Hl.
  assert (Hw : write_frame t r (l1 ++ rv :: l2) st (set_txs (alter (insert_to_write_set r) t (alter (record_created_table_version r vid) t (txs (h st2)))) (h st2))).
  { destruct Hq as [P1 P2 P3 P4 P5 _ P7 P8 P9]. set (st' := set_txs _ _). assert (Hr' : rows st' = <[r := l1 ++ rv :: l2]> (rows st)).
    { cbn. rewrite Q1. cbn. by rewrite P1. }
    assert (Hst : forall t0, rows_step t0 st st') by (intros t0; eapply put_rows_step; [done..|]; cbn in *; lia).
    split; cbn; rewrite ?Q2, ?Q3, ?Q4, ?Q5, ?Q6, ?Q7, ?Q9; unfold st2; cbn; try done.
    exists (insert_to_write_set r ∘ record_created_table_version r vid). rewrite <- alter_alter. split; [by rewrite <- P2|].
    split; [by apply wrote_tx_on; [apply insert_to_write_set_wrote|]|]. intros tx0 _ Hvok Hok. apply stack_ok_added, stack_ok_created.
    - split; [cbn in *; lia|]. intros v. cbn [fst snd]. rewrite (chain_insert _ _ _ _ _ Hr'), decide_True by done. intros Hin Hid.
      assert (v = rv \/ v ∈ chain st r) as [->|Hin'] by (rewrite Hl; set_solver); [unfold created_by; tauto|]. destruct (Hvok r) as [_ H2]. specialize (H2 v Hin'). lia.
    - apply (stack_ok_step (t + 1) st); [done|lia|done]. }
  destruct (put_Inv g st _ t tx r l1 l2 rv HI Htx Hm Hl Hrv Hw) as [HI' Hb].
  destruct (write_frame_in _ _ _ _ _ _ Htx Hw). split; [by split_and!|]. split.
  { destruct (w_txs _ _ _ _ _ Hw) as (f & Hf & Hfx & _). cbn in Hf |- *. rewrite Hf, lookup_alter_eq, Htx. eexists. split; [done|]. by destruct (Hfx tx) as (_ & _ & ? & _). }
  exists l1, l2. split.
  - unfold chain. pose proof (w_rows _ _ _ _ _ Hw) as Hrw. cbn in Hrw |- *. by rewrite Hrw, lookup_insert_eq.
  - intros v Hv. destruct (Hl2 v Hv) as (b & Hb2 & ?). exists b. split; [|done]. rewrite (write_frame_resolve _ _ _ _ _ _ Hw). unfold resolve_begin_timestamp in *. by rewrite (q_txs _ _ Hq) in Hb2.
Qed.

Lemma insert_wp r :
  wp (insert t r) st
    (fun _ st' => written g st t (row_id r) st' /\ (exists tx', txs st' !! t = Some tx' /\ begin_ts tx' = begin_ts tx) /\
       exists l1 rv l2, chain st' (row_id r) = l1 ++ rv :: l2 /\ rv_begin rv = Some (TxId t) /\ rv_end rv = None /\ row rv = r /\
         forall v, v ∈ l2 -> exists b, resolve_begin_timestamp st' (rv_begin v) = Ok b /\ begin_ts tx < b) (fun _ _ => False).
Proof.
  unfold insert, assert_active. wstep. eapply wp_get_tx; [done|]. do 2 wstep; [by rewrite bool_decide_true by apply client_active|].
  wstep. apply wp_get_version_id. rewrite client_id. eapply wp_conseq; [apply put_wp| |done]; [by left|done|cbn; lia|by split; cbn; try done; lia|done|by intros|].
  intros _ st' (Hw & Htx' & l1 & l2 & Hl & Hl2). split; [done|]. split; [done|]. eexists l1, _, l2. split_and!; [done..|].
  intros v Hv. destruct (Hl2 v Hv) as (b & ? & Hb). eauto.
Qed.
Lemma insert_btree_resident_wp r :
  wp (insert_btree_resident t r) st (fun _ st' => written g st t (row_id r) st') (fun _ _ => False).
Proof.
  unfold insert_btree_resident, assert_active. wstep. eapply wp_get_tx; [done|]. do 2 wstep; [by rewrite bool_decide_true by apply client_active|].
  wstep. apply wp_get_version_id. rewrite client_id. eapply wp_conseq; [eapply (put_wp (row_id r) _ _ _ (fun s => s))| |done]; [by left|done|cbn; lia|by split; cbn; try done; lia|done|by intros|].
  by intros _ st' [? _].
Qed.
Lemma insert_tombstone_wp id r :
  wp (insert_tombstone t id r) st (fun _ st' => written g st t id st') (fun _ _ => False).
Proof.
  unfold insert_tombstone. wstep. apply wp_get_version_id. wstep. eapply wp_get_tx; [done|].
  eapply wp_conseq; [eapply (put_wp id _ _ _ (fun s => s))| |done]; [by right|done|cbn; lia|by split; cbn; try done; lia|done|by intros|].
  by intros _ st' [? _].
Qed.
End client.

Lemma wrote_tx_after f r : (forall tx, wrote_tx r tx (f tx)) -> forall g : Savepoint -> Savepoint, keeps_flag g -> forall tx, wrote_tx r tx (on_savepoint g (f tx)).
Proof.
  intros Hf g Hg tx. specialize (Hf tx). unfold wrote_tx in *. rewrite (on_savepoint_marks g (f tx) Hg). unfold on_savepoint. by destruct (savepoint_stack (f tx)).
Qed.
Lemma drop_read_idemp t r g : drop_read t r (drop_read t r g) = drop_read t r g.
Proof. unfold drop_read, set_reads. cbn. rewrite lookup_insert_eq, insert_insert_eq. cbn. by rewrite delete_delete_eq. Qed.
Lemma written_after_regs g st st1 t r st' : Inv g st -> regs t st st1 -> written g st1 t r st' -> written g st t r st'.
Proof. intros HI Hr (? & Hb & ? & ?). destruct (regs_Inv _ _ _ _ HI Hr) as [_ Hb0]. split_and!; try done; by etrans. Qed.
Lemma written_twice g st st1 t r st' : written g st t r st1 -> written (drop_read t r g) st1 t r st' -> written g st t r st'.
Proof. unfold written. rewrite drop_read_idemp. intros (_ & Hb0 & _) (? & Hb & ? & ?). split_and!; try done; by etrans. Qed.
Lemma regs_lookup t st st' u tx : regs t st st' -> txs st !! u = Some tx -> exists tx', txs st' !! u = Some tx' /\ alike_tx tx tx'.
Proof. intros [_ Ha]%regs_alike. by apply alike_fwd. Qed.

Lemma end_Inv g st st' t tx r l1 l2 v :
  Inv g st -> txs st !! t = Some tx -> g_modes g !! t = None -> chain st r = l1 ++ v :: l2 -> rv_end v = None ->
  vis (sig (abs g st)) t (begin_ts tx) v = true -> settled (abs g st) t (begin_ts tx) v ->
  write_frame t r (l1 ++ set_end v (Some (TxId t)) :: l2) st st' ->
  Inv (drop_read t r g) st' /\ bsteps (abs g st) (abs (drop_read t r g) st').
Proof.
  intros HI Htx Hm Hl He Hv Hs Hw. eapply write_frame_Inv; [done..|]. rewrite (write_frame_abs g st st' t tx r _ Htx Hw).
  apply (a_end (abs g st)); try done; [by apply abs_fwd|]. cbn. by rewrite (client_active g st HI t tx Htx Hm).
Qed.

Lemma delete_wp g st t tx r :
  Inv g st -> txs st !! t = Some tx -> g_modes g !! t = None ->
  wp (delete t r) st (fun b st' => if (b : bool) then written g st t r st' else regs t st st') (fun _ st' => regs t st st').
Proof.
  intros HI Htx Hm. pose proof (client_active _ _ HI _ _ Htx Hm) as Hact. unfold delete. do 2 wstep.
  destruct (rows st !! r) as [versions|] eqn:Hrow; [|by wstep].
  assert (Hch : chain st r = versions) by (unfold chain; by rewrite Hrow).
  wstep. eapply wp_conseq; [eapply (delete_rev_wp g t tx r (reverse versions)); [done..|]| |done].
  { intros v Hv. rewrite elem_of_reverse in Hv. by rewrite Hch. }
  intros [[versions' vid]|] st1 [Hr Hf]; [|by wstep]. destruct Hf as (l1 & v & l2 & Hl & -> & He & Hv & Hs & ->).
  destruct (regs_Inv _ _ _ _ HI Hr) as [HI1 Hb1]. destruct (regs_lookup _ _ _ _ _ Hr Htx) as (tx1 & Htx1 & c & d & ->).
  unfold set_chain, update_tx. do 3 wstep. eapply wp_get_tx; [done|]. repeat wstep. eapply written_after_regs; [done..|].
  assert (Hl1 : chain st1 r = reverse l2 ++ v :: reverse l1).
  { rewrite (regs_chain _ _ _ _ Hr), Hch. apply reverse_split in Hl. rewrite Hl, reverse_cons, <- app_assoc. done. }
  assert (Hbn : rv_begin v <> None) by (intros Hb; revert Hv; unfold vis, vis_begin; by rewrite Hb).
  set (st' := set_txs _ _). assert (Hw : write_frame t r (reverse l2 ++ set_end v (Some (TxId t)) :: reverse l1) st1 st').
  { assert (Hr' : rows st' = <[r := reverse l2 ++ set_end v (Some (TxId t)) :: reverse l1]> (rows st1)) by (cbn; by rewrite reverse_app, reverse_cons, <- app_assoc).
    assert (Hst : forall t0, rows_step t0 st1 st') by (intros t0; by eapply end_rows_step).
    split; try done. exists (record_deleted_table_version r (rv_id v) ∘ insert_to_write_set r). rewrite <- alter_alter. split; [done|].
    split; [by apply wrote_tx_after; [apply insert_to_write_set_wrote|]|]. intros tx0 _ Hvok Hok.
    assert (Hin : v ∈ chain st1 r) by (rewrite Hl1; set_solver). destruct (Hvok r) as [Hnd Hlt].
    assert (Hok' : stack_ok st' t (savepoint_stack (insert_to_write_set r tx0))) by (apply stack_ok_added; by apply (stack_ok_step (t + 1) st1); [|lia|]).
    apply stack_ok_deleted; [|intros Hi|done].
    - split; [by apply (Hlt v)|]. intros w. cbn [fst snd]. rewrite (chain_insert _ _ _ _ _ Hr'), decide_True by done. rewrite elem_of_app, elem_of_cons. intros Hw Hid.
      destruct Hw as [Hw|[->|Hw]]; [|by left|]; exfalso; rewrite Hl1, fmap_app, fmap_cons in Hnd; apply list.NoDup_app in Hnd as (_ & N2 & N3%list.NoDup_cons).
      + apply (N2 (rv_id v)); [rewrite <- Hid; by apply list_elem_of_fmap_2|by left].
      + apply (proj1 N3). rewrite <- Hid. by apply list_elem_of_fmap_2.
    - assert (Hi' : (r, rv_id v) ∈ (savepoint_stack tx0 ≫= deleted_table_versions)).
      { revert Hi. unfold insert_to_write_set, on_savepoint. destruct (savepoint_stack tx0) eqn:Hsp; [cbn; by rewrite Hsp|done]. }
      destruct (y_deleted _ _ _ Hok _ Hi') as [_ He'].
      destruct (He' v Hin eq_refl) as [|[? _]]; congruence. }
  destruct (end_Inv g st1 st' t _ r _ _ v HI1 Htx1 Hm Hl1 He Hv Hs Hw). destruct (write_frame_in _ _ _ _ _ _ Htx1 Hw). by split_and!.
Qed.
Lemma upsert_wp g st t tx r :
  Inv g st -> txs st !! t = Some tx -> g_modes g !! t = None ->
  wp (upsert t r) st (fun _ st' => written g st t (row_id r) st') (fun _ st' => regs t st st').
Proof.
  intros HI Htx Hm. unfold upsert. wstep. eapply wp_conseq; [by eapply delete_wp| |done]. intros b st1 H1. destruct b.
  - pose proof H1 as (HI1 & _ & _ & tx1 & Htx1). eapply wp_conseq; [by eapply (insert_wp (drop_read t (row_id r) g) st1)| |done].
    intros _ st2 [Hw _]. by eapply written_twice.
  - destruct (regs_Inv _ _ _ _ HI H1) as [HI1 _]. destruct (regs_lookup _ _ _ _ _ H1 Htx) as (tx1 & Htx1 & _).
    eapply wp_conseq; [by eapply (insert_wp g st1)| |done]. intros _ st2 [Hw _]. by eapply written_after_regs.
Qed.
Lemma update_wp g st t tx r :
  Inv g st -> txs st !! t = Some tx -> g_modes g !! t = None ->
  wp (update t r) st (fun b st' => if (b : bool) then written g st t (row_id r) st' else regs t st st') (fun _ st' => regs t st st').
Proof.
  intros HI Htx Hm. unfold update. wstep. eapply wp_conseq; [by eapply delete_wp| |done]. intros b st1 H1. destruct b; [|by wstep].
  pose proof H1 as (HI1 & _ & _ & tx1 & Htx1). wstep. eapply wp_conseq; [by eapply (insert_wp (drop_read t (row_id r) g) st1)| |done].
  intros _ st2 [Hw _]. wstep. by eapply written_twice.
Qed.

(** * Reading *)

(** What was read may be told otherwise, as long as the abstraction is the same. *)
Lemma ghost_Inv g g' st :
  Inv g st -> abs g' st = abs g st -> g_modes g' = g_modes g -> (forall t, tx_ids st <= t -> g_reads g' !! t = None) -> Inv g' st.
Proof.
  intros [Hi [C1 C2 C3 C4 C5 C6 C7 C8]] Ha Hm Hr. split; [by rewrite Ha|]. split; try done.
  - intros t tx Htx. destruct (C1 t tx Htx). split; rewrite ?Hm, ?Ha; done.
  - intros t Ht. rewrite Hm. split; [by apply C4|auto].
Qed.
Lemma set_reads_fresh g st t tx m u : Inv g st -> txs st !! t = Some tx -> tx_ids st <= u -> g_reads (set_reads t m g) !! u = None.
Proof.
  intros [Hi Hc] Htx Hu. cbn. rewrite lookup_insert_ne; [by apply (c_fresh _ _ Hc)|]. intros <-.
  destruct (i_tx _ (inv_txs _ Hi) _ _ (abs_fwd g _ _ _ Htx)) as (? & _). cbn in *. lia.
Qed.
Lemma drop_read_noop g st t tx r :
  Inv g st -> txs st !! t = Some tx -> g_modes g !! t = None -> r ∈ write_set tx ->
  Inv (drop_read t r g) st /\ abs (drop_read t r g) st = abs g st.
Proof.
  intros HI Htx Hm Hin. assert (Ha : abs (drop_read t r g) st = abs g st).
  { unfold abs. f_equal. apply abs_txs_ext. intros u. destruct (txs st !! u) as [tu|] eqn:Hu; [|done]. unfold abs_tx. cbn. f_equal.
    destruct (decide (u = t)) as [->|]; [rewrite lookup_insert_eq|by rewrite lookup_insert_ne]. cbn. apply delete_id.
    destruct (default ∅ (g_reads g !! t) !! r) as [o|] eqn:Ho; [|done]. destruct HI as [Hi Hc]. exfalso.
    pose proof (client_active g st (conj Hi Hc) t tx Htx Hm) as Hact. rewrite Htx in Hu. injection Hu as <-.
    destruct (i_reads _ (inv_sets _ Hi) t (abs_tx g t tx) r o) as [Hno _]; [by apply abs_fwd|cbn; by rewrite Hact|done|done]. }
  split; [|done]. eapply ghost_Inv; [done..|]. intros. by eapply set_reads_fresh.
Qed.
Lemma regs_after g st st' t tx r :
  Inv g st -> txs st !! t = Some tx -> g_modes g !! t = None -> regs t st st' ->
  let g' := if decide (r ∈ write_set_of st' t) then drop_read t r g else g in
  Inv g' st' /\ bsteps (abs g st) (abs g' st').
Proof.
  intros HI Htx Hm Hr g'. destruct (regs_Inv _ _ _ _ HI Hr) as [HI' Hb]. unfold g'. case_decide as Hin; [|done].
  destruct (regs_lookup _ _ _ _ _ Hr Htx) as (tx' & Htx' & _). unfold write_set_of in Hin. rewrite Htx' in Hin.
  destruct (drop_read_noop g st' t tx' r HI' Htx' Hm Hin) as [? ->]. done.
Qed.
Lemma written_after g st st' t r : written g st t r st' ->
  let g' := if decide (r ∈ write_set_of st' t) then drop_read t r g else g in
  Inv g' st' /\ bsteps (abs g st) (abs g' st').
Proof. intros (? & ? & ? & _). cbn. by rewrite decide_True. Qed.

Lemma add_read_Inv g st t tx r found :
  Inv g st -> txs st !! t = Some tx -> g_modes g !! t = None -> r ∉ write_set tx ->
  finds (abs g st) t (begin_ts tx) (reverse (chain st r)) found ->
  Inv (add_read t r (row <$> found) g) st /\ bsteps (abs g st) (abs (add_read t r (row <$> found) g) st).
Proof.
  intros HI Htx Hm Hni Hf. pose proof HI as [Hi Hc]. set (g' := add_read _ _ _ _).
  assert (Ha : abs g' st = upd (abs g st) t (with_reads (<[r := row <$> found]> (x_reads (abs_tx g t tx))) (abs_tx g t tx))).
  { unfold abs, upd. cbn. f_equal. apply map_eq. intros u. rewrite abs_lookup. destruct (decide (u = t)) as [->|].
    - rewrite Htx, lookup_insert_eq. cbn. unfold abs_tx. cbn. by rewrite lookup_insert_eq.
    - rewrite lookup_insert_ne, abs_lookup by done. unfold abs_tx. cbn. by rewrite lookup_insert_ne. }
  assert (Hb : bsteps (abs g st) (abs g' st)).
  { apply rtc_once. split; [|pose proof (c_bound _ _ Hc); cbn; lia]. rewrite Ha. apply a_read; [by apply abs_fwd| |done|done].
    cbn. by rewrite (client_active g st HI t tx Htx Hm). }
  split; [|done]. split; [by eapply bsteps_inv|]. eapply (cinv_step t); [done|done| | | |apply Hc].
  - split; eauto using untouched_refl; [by apply rows_step_same| |exact (tx_old _ _ _ _ HI Htx)]. by apply lock_step_same; [..|apply Hc].
  - intros tx' Htx'. split; [|by eapply c_header]. eapply tx_inv_alike; try done. apply untouched_refl.
  - intros u Hu. split; [by apply (c_fresh _ _ Hc)|by eapply set_reads_fresh].
Qed.

Lemma read_wp g st t tx r :
  Inv g st -> txs st !! t = Some tx -> g_modes g !! t = None ->
  wp (read t r) st
    (fun v st' => regs t st st' /\ exists found, v = row <$> found /\ finds (abs g st') t (begin_ts tx) (reverse (chain st r)) found)
    (fun _ _ => False).
Proof.
  intros HI Htx Hm. pose proof (client_active _ _ HI _ _ Htx Hm) as Hact. unfold read, assert_active. wstep. eapply wp_get_tx; [done|].
  do 2 wstep; [by rewrite bool_decide_true|]. do 2 wstep. destruct (rows st !! r) as [versions|] eqn:Hrow.
  - assert (Hch : chain st r = versions) by (unfold chain; by rewrite Hrow). rewrite Hch. wstep.
    eapply wp_conseq; [eapply (find_visible_wp g t tx r); [done|by eapply get_tx_acting|]| |done].
    + intros v Hv. rewrite elem_of_reverse in Hv. by rewrite Hch.
    + intros found st' [Hr Hf]. wstep. eauto.
  - wstep. unfold chain. rewrite Hrow. split; [done|]. by exists None.
Qed.

(** * Changes that are the transaction's own *)

Record local_frame (t : TxID) (st st' : MvStore) : Prop := {
  l_rows : rows st' = rows st;
  l_txs : forall u, u <> t -> txs st' !! u = txs st !! u;
  l_clock : clock st' = clock st;
  l_ids : tx_ids st' = tx_ids st;
  l_exclusive : forall u, u <> t -> 1 <= u -> exclusive_tx st = u <-> exclusive_tx st' = u;
  l_header : is_Some (global_header st) -> is_Some (global_header st');
  l_final : finalized_tx_states st' = finalized_tx_states st;
  l_counter : version_id_counter st' = version_id_counter st;
  l_lock : lock_step t st st'
}.
Lemma local_Inv g st st' t tx tx' :
  Inv g st -> txs st !! t = Some tx -> local_frame t st st' -> txs st' !! t = Some tx' ->
  abs_tx g t tx' = abs_tx g t tx -> tx_id tx' = tx_id tx -> state tx' = state tx -> (true ∈ dirty_marks tx' -> exclusive_tx st' = t) ->
  (stack_ok st t (savepoint_stack tx) -> stack_ok st t (savepoint_stack tx')) ->
  (exclusive_tx st' = t -> holds_lock (g_modes g !! t) = true -> pager_commit_lock_held tx' = true) ->
  Inv g st' /\ abs g st' = abs g st.
Proof.
  intros HI Htx [H1 H2 H3 H4 H5 H6 H7 H8 H9] Htx' Ha Hid Hst Hd Hsk Hlk. pose proof HI as [Hi Hc]. assert (Habs : abs g st' = abs g st).
  { unfold abs. rewrite H1, H3, H4. f_equal. apply abs_txs_ext. intros u. destruct (decide (u = t)) as [->|]; [by rewrite Htx, Htx'|].
    rewrite H2 by done. by destruct (txs st !! u). }
  split; [|done]. split; [by rewrite Habs|]. assert (Hb : bsteps (abs g st) (abs g st')) by (rewrite Habs; apply rtc_refl).
  eapply (cinv_step t); [done|done| | |by rewrite H4; apply Hc|by rewrite H4; apply Hc].
  - split; auto; [|apply rows_step_same; [done|lia]|rewrite H4; exact (tx_old _ _ _ _ HI Htx)|rewrite H7; auto]. intros u tu Hne Hu. rewrite H2 in Hu by done. eauto using untouched_refl.
  - intros tx1 Htx1. rewrite Htx' in Htx1. injection Htx1 as <-. split; [|by eapply H6, c_header].
    destruct (c_txs _ _ Hc _ _ Htx) as [K1 K2 K6 K7 K3 K4 K5].
    assert (Hws : write_set tx' = write_set tx) by exact (f_equal x_ws Ha). assert (Hds : commit_dep_set tx' = commit_dep_set tx) by exact (f_equal x_deps Ha).
    split; rewrite ?Hid, ?Hst, ?Hws, ?Hds, ?Habs; try done. intros. eapply stack_ok_same; [done|lia|auto].
Qed.
(** [update_tx] of a field that the abstraction does not see. *)
Lemma update_tx_Inv g st t tx f :
  Inv g st -> txs st !! t = Some tx -> abs_tx g t (f tx) = abs_tx g t tx -> tx_id (f tx) = tx_id tx -> state (f tx) = state tx ->
  (true ∈ dirty_marks (f tx) -> true ∈ dirty_marks tx \/ exclusive_tx st = t) ->
  (stack_ok st t (savepoint_stack tx) -> stack_ok st t (savepoint_stack (f tx))) ->
  pager_commit_lock_held (f tx) = pager_commit_lock_held tx ->
  let st' := set_txs (alter f t (txs st)) st in Inv g st' /\ abs g st' = abs g st.
Proof.
  intros HI Htx Ha Hid Hs Hd Hsk Hh st'. assert (Htx' : txs st' !! t = Some (f tx)) by (cbn; by rewrite lookup_alter_eq, Htx).
  eapply (local_Inv g st st' t tx (f tx)); try done.
  - split; try done; [intros u Hne; cbn; by rewrite lookup_alter_ne|]. apply lock_step_same; [done| |apply HI].
    intros (tx' & Hx' & Hl). rewrite Htx' in Hx'. injection Hx' as <-. exists tx. by rewrite <- Hh.
  - intros H. destruct (Hd H) as [H1|]; [|done]. by apply (k_header g st t tx (c_txs _ _ (proj2 HI) _ _ Htx)).
  - rewrite Hh. apply (k_lock g st t tx (c_txs _ _ (proj2 HI) _ _ Htx)).
Qed.

Lemma wp_release t st (Q : unit -> MvStore -> Prop) E :
  exclusive_tx st = t -> Q tt (set_exclusive_tx NO_EXCLUSIVE_TX st) -> wp (release_exclusive_tx t) st Q E.
Proof. intros He HQ. unfold release_exclusive_tx. repeat wstep; [by apply Z.eqb_eq|done]. Qed.
Lemma set_exclusive_same st : set_exclusive_tx (exclusive_tx st) st = st.
Proof. by destruct st. Qed.
Lemma acquire_wp t st :
  wp (acquire_exclusive_tx t) st
    (fun _ st' => (exclusive_tx st = t \/ exclusive_tx st = NO_EXCLUSIVE_TX) /\ st' = set_exclusive_tx t st) (fun _ st' => st' = st).
Proof.
  unfold acquire_exclusive_tx. do 2 wstep. destruct (exclusive_tx st =? t) eqn:He; [apply Z.eqb_eq in He; wstep; split; [by left|subst; by rewrite set_exclusive_same]|].
  destruct (has_preparing_tx_other_than t st); [by apply wp_throw|]. destruct (begin_is_old t st); [by apply wp_throw|].
  destruct (exclusive_tx st =? NO_EXCLUSIVE_TX) eqn:Hn; [|by apply wp_throw]. apply Z.eqb_eq in Hn. do 4 wstep.
  assert (Hback : set_exclusive_tx NO_EXCLUSIVE_TX (set_exclusive_tx t st) = st).
  { transitivity (set_exclusive_tx (exclusive_tx st) st); [by rewrite Hn|by destruct st]. }
  destruct (has_preparing_tx_other_than _ _); [wstep; apply wp_release; [done|]; by apply wp_throw|].
  destruct (begin_is_old _ _); [wstep; apply wp_release; [done|]; by apply wp_throw|]. wstep. auto.
Qed.

Definition same (g : ghost) (st st' : MvStore) : Prop := Inv g st' /\ abs g st' = abs g st.
Lemma same_refl g st : Inv g st -> same g st st.
Proof. by split. Qed.

Lemma get_header_wp page1 st :
  wp (get_new_transaction_database_header page1) st
    (fun h st' => exists o, global_header st' = Some h /\ st' = set_global_header o st) (fun _ _ => False).
Proof.
  unfold get_new_transaction_database_header. do 2 wstep. destruct (global_header st) as [h|] eqn:Hh; repeat wstep.
  - exists (Some h). split; [done|]. destruct st. cbn in *. by subst.
  - by exists (Some page1).
Qed.

Lemma upgrade_wp g st t tx page1 :
  Inv g st -> txs st !! t = Some tx -> g_modes g !! t = None ->
  wp (begin_exclusive_upgrade t page1) st (fun _ st' => same g st st') (fun _ st' => same g st st').
Proof.
  intros HI Htx Hm. unfold begin_exclusive_upgrade. wstep. eapply wp_get_tx; [done|]. do 3 wstep.
  eapply (wp_conseq _ _ (fun _ st' => (exclusive_tx st = t \/ exclusive_tx st = NO_EXCLUSIVE_TX) /\ st' = set_exclusive_tx t st) _ (fun _ st' => st' = st)).
  { unfold is_exclusive_tx. destruct (exclusive_tx st =? t) eqn:He; [|apply acquire_wp]. apply Z.eqb_eq in He. wstep. split; [by left|].
    rewrite <- He. by rewrite set_exclusive_same. }
  2: { intros e st' ->. by apply same_refl. }
  intros _ st1 [Hex ->]. wstep. eapply (wp_get_tx _ _ tx); [done|]. do 2 wstep. cbn [pager_commit_lock set_exclusive_tx].
  destruct (negb (pager_commit_lock_held tx) && pager_commit_lock st) eqn:Hbusy.
  - wstep. eapply (wp_conseq _ _ (fun _ st' => st' = st) _ (fun _ _ => False)); [|intros _ ? ->; apply wp_throw; by apply same_refl|done].
    unfold is_exclusive_tx. destruct (exclusive_tx st =? t) eqn:He.
    + apply Z.eqb_eq in He. wstep. rewrite <- He. apply set_exclusive_same.
    + apply Z.eqb_neq in He. destruct Hex as [|Hex]; [done|]. apply wp_release; [done|].
      transitivity (set_exclusive_tx (exclusive_tx st) st); [by rewrite Hex|apply set_exclusive_same].
  - wstep. eapply (wp_conseq _ _ (fun _ st' => st' = set_pager_commit_lock true (set_exclusive_tx t st)) _ (fun _ _ => False)); [|intros _ st2 ->|done].
    { destruct (pager_commit_lock_held tx) eqn:Hheld; wstep; [|done]. destruct (c_lock _ _ (proj2 HI) t) as [Hl _]; [by exists tx|]. destruct st. cbn in *. by rewrite Hl. }
    wstep. eapply wp_conseq; [apply get_header_wp| |done]. intros h st3 (o & Hh & ->). wstep. eapply (wp_get_tx _ _ tx); [done|].
    unfold update_tx. repeat wstep. set (st' := set_txs _ _).
    eapply (local_Inv g st st' t tx (set_header h (set_pager_commit_lock_held true tx))); try done.
    + split; try done; cbn.
      * intros u Hne. by rewrite !lookup_alter_ne.
      * intros u Hne Hu. unfold NO_EXCLUSIVE_TX in Hex. split; [|congruence]. intros He. destruct Hex as [|Hex]; [congruence|lia].
      * assert (Hl : pager_commit_lock st = false \/ holder t st).
        { destruct (pager_commit_lock_held tx) eqn:Hh'; [right; by exists tx|by left]. }
        split; [done|by right].
    + cbn. rewrite !lookup_alter_eq, Htx. done.
Qed.

(** * The calls of a connection *)

(** A stack whose entries are among those of another, each deleted version at most as often. *)
Lemma stack_ok_regroup st t sps sps' :
  (forall e, e ∈ (sps' ≫= created_table_versions) -> e ∈ (sps ≫= created_table_versions)) ->
  (sps' ≫= deleted_table_versions) ⊆+ (sps ≫= deleted_table_versions) -> stack_ok st t sps -> stack_ok st t sps'.
Proof.
  intros Hc Hd [H1 H2 H3]. split; [auto| |].
  - intros e He. apply H2. by eapply elem_of_submseteq.
  - apply submseteq_Permutation in Hd as [l Hl]. rewrite Hl in H3. by apply list.NoDup_app in H3 as (? & _).
Qed.
(** What a change of the stack may not bring: header flags that were not there. *)
Definition stack_change (tx : Transaction) (sps : list Savepoint) : Prop :=
  (true ∈ (sp_header_dirty <$> sps) -> true ∈ dirty_marks tx) /\
  forall st t, stack_ok st t (savepoint_stack tx) -> stack_ok st t sps.
Lemma stack_change_refl tx : stack_change tx (savepoint_stack tx).
Proof. split; [|done]. intros. by right. Qed.
Lemma stack_change_nil tx : stack_change tx [].
Proof. split; [by intros ?%not_elem_of_nil|]. intros st t. apply stack_ok_regroup; [by intros e ?%not_elem_of_nil|apply submseteq_nil_l]. Qed.
Lemma begin_change tx k fk : stack_change tx (Savepoint_new k fk (header tx) (header_dirty tx) :: savepoint_stack tx).
Proof. split; [done|]. intros st t. by apply stack_ok_regroup. Qed.
(** Savepoints that are merged into the one below. *)
Lemma foldl_merge_from sps parent :
  let sp := foldl merge_from parent sps in
  sp_header_dirty sp = sp_header_dirty parent /\ created_table_versions sp = created_table_versions parent ++ (sps ≫= created_table_versions) /\
  deleted_table_versions sp = deleted_table_versions parent ++ (sps ≫= deleted_table_versions).
Proof.
  revert parent. induction sps as [|sp sps IH]; intros parent; cbn; [by rewrite !app_nil_r|].
  destruct (IH (merge_from parent sp)) as (-> & -> & ->). cbn. by rewrite <- !app_assoc.
Qed.
Lemma merge_change tx parent above rest :
  savepoint_stack tx = above ++ parent :: rest -> stack_change tx (foldl merge_from parent (reverse above) :: rest).
Proof.
  intros Hs. destruct (foldl_merge_from (reverse above) parent) as (H1 & H2 & H3). unfold stack_change, dirty_marks. rewrite Hs. split.
  - cbn. rewrite H1, fmap_app. cbn. set_solver.
  - intros st t. assert (Hp : forall f : Savepoint -> list (RowID * Z), (f parent ++ (reverse above ≫= f)) ++ (rest ≫= f) ≡ₚ (above ++ parent :: rest) ≫= f).
    { intros f. rewrite bind_app, bind_cons, reverse_Permutation. solve_Permutation. }
    apply stack_ok_regroup; [intros e; by rewrite bind_cons, H2, Hp|by rewrite bind_cons, H3, Hp].
Qed.
Lemma split_at_name_app name sps above target below : split_at_name name sps = Some (above, target, below) -> sps = above ++ target :: below.
Proof.
  revert above. induction sps as [|sp sps IH]; intros above; cbn; [done|]. destruct (is_named name sp); [by intros [= <- <- <-]|].
  destruct (split_at_name name sps) as [[[above' target'] below']|]; [|done]. intros [= <- <- <-]. cbn. f_equal. by apply IH.
Qed.
Lemma set_savepoint_stack_same tx : set_savepoint_stack (savepoint_stack tx) tx = tx.
Proof. by destruct tx. Qed.
Lemma release_savepoint_keeps tx : exists sps, release_savepoint tx = set_savepoint_stack sps tx /\ stack_change tx sps.
Proof.
  unfold release_savepoint. destruct (savepoint_stack tx) as [|sp [|parent rest]] eqn:Hs; [|case_bool_decide..].
  all: try (exists (savepoint_stack tx); split; [by rewrite set_savepoint_stack_same|apply stack_change_refl]).
  - exists []. split; [done|apply stack_change_nil].
  - eexists. split; [done|]. by apply (merge_change tx parent [sp] rest).
Qed.
Lemma release_named_savepoint_keeps name tx : exists sps, snd (release_named_savepoint name tx) = set_savepoint_stack sps tx /\ stack_change tx sps.
Proof.
  unfold release_named_savepoint. destruct (split_at_name name (savepoint_stack tx)) as [[[above target] below]|] eqn:Hsp; [destruct (starts_tx target && bool_decide (below = []))|].
  all: try (exists (savepoint_stack tx); split; [by rewrite set_savepoint_stack_same|apply stack_change_refl]).
  apply split_at_name_app in Hsp. eexists. split; [done|]. destruct below as [|parent rest]; [apply stack_change_nil|].
  replace (target :: reverse above) with (reverse (above ++ [target])) by (by rewrite reverse_app).
  apply merge_change. by rewrite <- app_assoc.
Qed.
Lemma savepoint_Inv g st t tx f :
  Inv g st -> txs st !! t = Some tx -> (exists sps, f tx = set_savepoint_stack sps tx /\ stack_change tx sps) ->
  same g st (set_txs (alter f t (txs st)) st).
Proof.
  intros HI Htx (sps & Hf & Hd & Hs). apply (update_tx_Inv g st t tx f); try done; rewrite Hf; try done; [|apply Hs].
  unfold dirty_marks at 1. cbn. intros [He|He]%elem_of_cons; left; [rewrite He; left|auto].
Qed.

(** * Beginning *)


Definition moves (g : ghost) (st : MvStore) (g' : ghost) (st' : MvStore) : Prop := Inv g' st' /\ bsteps (abs g st) (abs g' st').
Lemma moves_trans g st g1 st1 g2 st2 : moves g st g1 st1 -> moves g1 st1 g2 st2 -> moves g st g2 st2.
Proof. intros [? ?] [? ?]. split; [done|by etrans]. Qed.
Lemma moves_same g st st' : same g st st' -> moves g st g st'.
Proof. intros [? Ha]. split; [done|]. rewrite Ha. apply rtc_refl. Qed.
Lemma abs_step g st g' st' : Inv g st -> astep (abs g st) (abs g' st') -> bsteps (abs g st) (abs g' st').
Proof. intros [_ Hc] Hs. apply rtc_once. split; [done|]. pose proof (c_bound _ _ Hc). cbn. lia. Qed.

Lemma tick_Inv g st st' :
  Inv g st -> rows st' = rows st -> txs st' = txs st -> clock st <= clock st' -> tx_ids st <= tx_ids st' -> tx_ids st' <= 2 ^ 62 ->
  exclusive_tx st' = exclusive_tx st -> (is_Some (global_header st) -> is_Some (global_header st')) ->
  finalized_tx_states st' = finalized_tx_states st -> version_id_counter st' = version_id_counter st ->
  pager_commit_lock st' = pager_commit_lock st -> moves g st g st'.
Proof.
  intros HI Hr Ht Hcl Hid Hbd He Hh Hf Hvc Hlk. pose proof HI as [Hi Hc]. assert (Hb : bsteps (abs g st) (abs g st')).
  { apply abs_step; [done|]. unfold abs at 2. rewrite Hr, Ht. by apply (a_tick (abs g st)). }
  split; [|done]. split; [by eapply bsteps_inv|]. eapply (cinv_step (-1)); [done|done| | |intros u Hu; apply (c_fresh _ _ Hc); lia|done].
  - split; auto; [|by rewrite He|apply rows_step_same; [done|lia]| |pose proof (i_next _ (inv_txs _ Hi)) as [? _]; cbn in *; lia|rewrite Hf; auto]; [rewrite Ht; eauto using untouched_refl|].
    apply lock_step_same; [done| |apply Hc]. unfold holder. by rewrite Ht.
  - rewrite Ht. intros tx' Htx'. destruct (i_tx _ (inv_txs _ Hi) _ _ (abs_fwd g _ _ _ Htx')) as (? & _). cbn in *. lia.
Qed.
Lemma begin_Inv g st st' tx' :
  Inv g st -> rows st' = rows st -> txs st' = <[tx_ids st := tx']> (txs st) -> clock st' = clock st + 1 ->
  tx_ids st' = tx_ids st + 1 -> tx_ids st < 2 ^ 62 -> exclusive_tx st' = exclusive_tx st -> is_Some (global_header st') ->
  finalized_tx_states st' = finalized_tx_states st -> abs_tx g (tx_ids st) tx' = atx_new (clock st) -> tx_id tx' = tx_ids st ->
  state tx' = Active -> header_dirty tx' = false -> savepoint_stack tx' = [] -> pager_commit_lock_held tx' = false ->
  version_id_counter st' = version_id_counter st -> pager_commit_lock st' = pager_commit_lock st -> moves g st g st'.
Proof.
  intros HI Hr Ht Hcl Hid Hbd He Hh Hf Ha Htid Hst Hdirty Hsp Hheld Hvc Hlk. pose proof HI as [Hi Hc]. assert (Hb : bsteps (abs g st) (abs g st')).
  { apply abs_step; [done|]. unfold abs at 2. rewrite Hr, Ht, Hcl, Hid.
    replace (abs_txs g (<[tx_ids st:=tx']> (txs st))) with (<[tx_ids st := atx_new (clock st)]> (abs_txs g (txs st))).
    { apply (a_begin (abs g st)); [|done]. apply (i_next _ (inv_txs _ Hi)). }
    apply map_eq. intros u. rewrite abs_lookup. destruct (decide (u = tx_ids st)) as [->|]; [by rewrite !lookup_insert_eq; cbn; rewrite Ha|].
    by rewrite !lookup_insert_ne, abs_lookup. }
  split; [|done]. split; [by eapply bsteps_inv|]. eapply (cinv_step (tx_ids st)); [done|done| | |intros u Hu; apply (c_fresh _ _ Hc); lia|lia].
  - split; auto; [|by rewrite He|apply rows_step_same; [done|lia]| |lia|rewrite Hf; auto].
    + rewrite Ht. intros u tu Hne. rewrite lookup_insert_ne by done. eauto using untouched_refl.
    + apply lock_step_same; [done| |apply Hc]. unfold holder. rewrite Ht, lookup_insert_eq. intros (tx & [= <-] & ?). congruence.
  - rewrite Ht, lookup_insert_eq. intros tx [= <-]. split; [|done]. destruct (c_fresh _ _ Hc (tx_ids st) ltac:(lia)) as [Hm _].
    assert (Hd : commit_dep_set tx' = ∅) by exact (f_equal x_deps Ha).
    split; rewrite ?Hm, ?Hd, ?Hsp; try done; [|intros _; apply stack_ok_nil|intros Hx; pose proof (c_exclusive _ _ Hc); rewrite He in Hx; exfalso; lia].
    unfold dirty_marks. rewrite Hdirty, Hsp. cbn. by intros ?%list_elem_of_singleton.
Qed.

(** The common start of a transaction: it is published, or the schema was stale. *)
Lemma publish_wp {A} g st (k : TxID -> MV A) (Q : A -> MvStore -> Prop) E (passive : bool) page1 mark expected :
  Inv g st -> tx_ids st < 2 ^ 62 ->
  (forall st', moves g st g st' -> exclusive_tx st' = exclusive_tx st ->
     (exists tx', txs st' !! tx_ids st = Some tx' /\ write_set tx' = [] /\ commit_dep_set tx' = ∅) -> g_modes g !! tx_ids st = None -> wp (k (tx_ids st)) st' Q E) ->
  (forall e st', moves g st g st' -> E e st') ->
  wp (id ← get_tx_id;
      _ ← get_new_transaction_database_header page1;
      '(_, schema_stale) ← get_timestamp (publish_tx id mark expected);
      if (schema_stale : bool) then throw SchemaUpdated
      else _ ← (if passive then mret tt else update_tx id (set_holds_blocking_checkpoint_read true)); k id) st Q E.
Proof.
  intros HI Hbd HQ HE. unfold get_tx_id. repeat wstep. eapply wp_conseq; [apply get_header_wp| |done]. intros h st1 (o & Hh & ->).
  cbn in Hh. subst o. unfold get_timestamp, publish_tx. repeat wstep. case_match; cbn.
  - apply HE. apply tick_Inv; cbn; try done; lia.
  - repeat wstep. set (st' := set_txs _ _). unfold update_tx. destruct passive; repeat wstep.
    + apply HQ; [|done| |by apply (c_fresh _ _ (proj2 HI))].
      * eapply begin_Inv; try done. cbn. unfold abs_tx. destruct (c_fresh _ _ (proj2 HI) (tx_ids st)) as [-> ->]; done.
      * eexists. cbn. by rewrite lookup_insert_eq.
    + apply HQ; [|done| |by apply (c_fresh _ _ (proj2 HI))].
      * eapply begin_Inv; [done|done|cbn; apply alter_insert_eq|..]; try done. cbn. unfold abs_tx. destruct (c_fresh _ _ (proj2 HI) (tx_ids st)) as [-> ->]; done.
      * eexists. cbn. by rewrite lookup_alter_eq, lookup_insert_eq.
Qed.
Lemma begin_tx_wp g st passive got_lock page1 mark expected :
  Inv g st -> tx_ids st < 2 ^ 62 ->
  wp (begin_tx passive got_lock page1 mark expected) st (fun _ st' => moves g st g st') (fun _ st' => moves g st g st').
Proof.
  intros HI Hbd. unfold begin_tx. destruct (negb passive && negb got_lock); [apply wp_throw, moves_same; by apply same_refl|].
  apply (publish_wp g st (fun id => mret id)); done.
Qed.

(** * Leaving *)

Lemma abs_txs_foldr g (f : Transaction -> Transaction) (h : atx -> atx) m (ds : list TxID) :
  (forall u tx, abs_tx g u (f tx) = h (abs_tx g u tx)) ->
  abs_txs g (foldr (fun d m => alter f d m) m ds) = foldr (fun d m => alter h d m) (abs_txs g m) ds.
Proof.
  intros Hf. induction ds as [|d ds IH]; [done|]. cbn [foldr]. rewrite <- IH. apply map_eq. intros u. rewrite abs_lookup.
  destruct (decide (u = d)) as [->|].
  - rewrite !lookup_alter_eq, abs_lookup. destruct (_ !! d); cbn; [by rewrite Hf|done].
  - by rewrite !lookup_alter_ne, abs_lookup.
Qed.
Lemma foldr_alter_back (f : Transaction -> Transaction) (ds : list TxID) (m : gmap TxID Transaction) (u : TxID) tx' :
  foldr (fun d m => alter f d m) m ds !! u = Some tx' -> (forall tx, untouched tx (f tx)) ->
  exists tx, m !! u = Some tx /\ untouched tx tx'.
Proof.
  intros H Hf. revert tx' H. induction ds as [|d ds IH]; intros tx'; cbn [foldr]; [eauto using untouched_refl|].
  destruct (decide (u = d)) as [->|]; [rewrite lookup_alter_eq|rewrite lookup_alter_ne by done; apply IH].
  intros (tx1 & H1 & ->)%fmap_Some. destruct (IH _ H1) as (tx & Htx & Hu). exists tx. split; [done|]. destruct Hu, (Hf tx1).
  split; try congruence. intros Hd. destruct (u_deps1 Hd); [auto|right; congruence].
Qed.

(** The store after [t] is gone, having told its dependents [f]. *)
Record leave_frame (t : TxID) (tx : Transaction) (f : Transaction -> Transaction) (st st' : MvStore) : Prop := {
  f_txs : txs st' = base.delete t (foldr (fun d m => alter f d m) (txs st) (elements (commit_dep_set tx)));
  f_clock : clock st' = clock st;
  f_ids : tx_ids st' = tx_ids st;
  f_exclusive : forall u, u <> t -> 1 <= u -> exclusive_tx st = u <-> exclusive_tx st' = u;
  f_header : is_Some (global_header st) -> is_Some (global_header st');
  f_final : forall u s, finalized_tx_states st' !! u = Some s -> finalized_tx_states st !! u = Some s \/ is_final s = true;
  f_rows : rows_step t st st';
  f_lock : pager_commit_lock st' = pager_commit_lock st \/ holder t st
}.
Lemma leave_cinv g st g' st' t tx f :
  Inv g st -> bsteps (abs g st) (abs g' st') -> leave_frame t tx f st st' -> (forall tx, untouched tx (f tx)) ->
  (forall u, u <> t -> g_modes g' !! u = g_modes g !! u) -> g_reads g' = g_reads g -> txs st !! t = Some tx -> Inv g' st'.
Proof.
  intros HI Hb [H1 H2 H3 H4 H5 H6 H7 H8] Hf Hm Hr Htx. pose proof HI as [Hi Hc]. split; [by eapply bsteps_inv|].
  eapply (cinv_step t); [done|done| | | |rewrite H3; apply Hc].
  - split; try done; [| |rewrite H3; exact (tx_old _ _ _ _ HI Htx)].
    + rewrite H1. intros u tx' Hne. rewrite lookup_delete_ne by done. intros H. by eapply foldr_alter_back.
    + split; [|tauto]. intros (tx' & Hx' & _). by rewrite H1, lookup_delete_eq in Hx'.
  - rewrite H1, lookup_delete_eq. done.
  - intros u Hu. rewrite H3 in Hu. rewrite Hr. rewrite Hm; [by apply (c_fresh _ _ Hc)|]. intros ->.
    destruct (i_tx _ (inv_txs _ Hi) _ _ (abs_fwd g _ _ _ Htx)) as (? & _). cbn in *. lia.
Qed.

Lemma abort_Inv g st st' t tx :
  Inv g st -> txs st !! t = Some tx -> is_live tx = true -> leave_frame t tx dep_aborted st st' ->
  rows st' = foldr (fun id m => alter (map (rollback_row_version t)) id m) (rows st) (write_set tx) -> moves g st g st'.
Proof.
  intros HI Htx Hl Hf Hr. assert (Hb : bsteps (abs g st) (abs g st')).
  { apply abs_step; [done|]. destruct Hf as [H1 H2 H3 _ _ _ _ _]. unfold abs at 2. rewrite H1, H2, H3, Hr, abs_txs_delete.
    rewrite (abs_txs_foldr g dep_aborted (fun y => bump (-1) (with_abort y))) by done.
    apply (a_abort (abs g st) t (abs_tx g t tx)); [by apply abs_fwd|]. cbn. unfold is_live in Hl. unfold phase_of.
    destruct (state tx); try done. by case_match. }
  split; [|done]. eapply leave_cinv; try done. intros tx1. split; auto.
Qed.

(** Maps that differ at [t] only. *)
Definition off (t : TxID) (m m' : gmap TxID Transaction) : Prop := forall u, u <> t -> m' !! u = m !! u.
Lemma off_refl t m : off t m m.
Proof. done. Qed.
Lemma off_trans t m1 m2 m3 : off t m1 m2 -> off t m2 m3 -> off t m1 m3.
Proof. intros H1 H2 u Hne. by rewrite H2, H1. Qed.
Lemma off_alter t f m m' : off t m m' -> off t m (alter f t m').
Proof. intros H u Hne. rewrite lookup_alter_ne by done. auto. Qed.
Lemma off_foldr t (f : Transaction -> Transaction) (ds : list TxID) m m' :
  off t m m' -> off t (foldr (fun d m => alter f d m) m ds) (foldr (fun d m => alter f d m) m' ds).
Proof.
  intros H. induction ds as [|d ds IH]; [done|]. cbn [foldr]. intros u Hne. destruct (decide (u = d)) as [->|].
  - by rewrite !lookup_alter_eq, IH.
  - rewrite !lookup_alter_ne by done. auto.
Qed.
Lemma off_delete t m m' : off t m m' -> base.delete t m' = base.delete t m.
Proof. intros H. apply map_eq. intros u. destruct (decide (u = t)) as [->|]; [by rewrite !lookup_delete_eq|]. rewrite !lookup_delete_ne by done. auto. Qed.
Lemma foldr_alter_notin (f : Transaction -> Transaction) (ds : list TxID) (m : gmap TxID Transaction) (t : TxID) :
  t ∉ ds -> foldr (fun d m => alter f d m) m ds !! t = m !! t.
Proof.
  induction ds as [|d ds IH]; [done|]. intros [Hne Hni]%not_elem_of_cons. cbn [foldr]. rewrite lookup_alter_ne by done. auto.
Qed.

Lemma wp_inspect_err {A} (m : MV A) h st (Q : A -> MvStore -> Prop) E :
  wp m st Q (fun e st' => wp h st' (fun _ st'' => E e st'') (fun _ st'' => E e st'')) -> wp (inspect_err m h) st Q E.
Proof.
  unfold wp, inspect_err. destruct (m st) as [[a|e|] st']; [done| |done]. by destruct (h st') as [[] ?].
Qed.

Lemma begin_exclusive_fresh_wp g st passive got_lock page1 mark expected :
  Inv g st -> tx_ids st < 2 ^ 62 ->
  wp (begin_exclusive_fresh passive got_lock page1 mark expected) st (fun _ st' => moves g st g st') (fun _ st' => moves g st g st').
Proof.
  intros HI Hbd. unfold begin_exclusive_fresh. destruct (negb passive && negb got_lock); [apply wp_throw, moves_same; by apply same_refl|].
  eapply (publish_wp g st (fun id => _ ← inspect_err (acquire_exclusive_tx id) (remove_from_txs id); _)); [done|done| |done].
  set (id := tx_ids st). intros st1 Hmv Hex (tx & Htx & Hws & Hds) Hm. pose proof Hmv as [HI1 _].
  assert (Hlive : is_live tx = true) by (unfold is_live; by rewrite (client_active _ _ HI1 _ _ Htx Hm)).
  assert (Hgone : forall st2, txs st2 = base.delete id (txs st1) -> rows st2 = rows st1 -> clock st2 = clock st1 -> tx_ids st2 = tx_ids st1 ->
    global_header st2 = global_header st1 -> finalized_tx_states st2 = finalized_tx_states st1 ->
    (forall u, u <> id -> 1 <= u -> exclusive_tx st1 = u <-> exclusive_tx st2 = u) ->
    version_id_counter st2 = version_id_counter st1 -> pager_commit_lock st2 = pager_commit_lock st1 -> moves g st g st2).
  { intros st2 G1 G2 G3 G4 G5 G6 G7 G8 G9. eapply moves_trans; [done|]. eapply (abort_Inv g st1 st2 id tx); try done; [|by rewrite Hws].
    split; try done; [by rewrite Hds, elements_empty|by rewrite G5|rewrite G6; auto|apply rows_step_same; [done|lia]|by left]. }
  wstep. apply wp_inspect_err. eapply wp_conseq; [apply acquire_wp| |].
  2: { intros e st2 ->. unfold remove_from_txs. wstep. by apply Hgone. }
  intros _ st2 [Hfree ->]. do 2 wstep. cbn [pager_commit_lock set_exclusive_tx]. unfold NO_EXCLUSIVE_TX in Hfree.
  destruct (pager_commit_lock st1) eqn:Hlock.
  - unfold remove_from_txs. do 3 wstep. apply wp_release; [done|]. apply wp_throw, Hgone; try done. cbn. intros u Hne Hu. unfold NO_EXCLUSIVE_TX.
    split; [|lia]. intros He. destruct Hfree; [congruence|lia].
  - do 3 wstep. eapply (wp_expect_tx _ _ tx); [done|]. unfold update_tx. repeat wstep. set (st' := set_txs _ _).
    eapply moves_trans; [done|]. apply moves_same. eapply (local_Inv g st1 st' id tx (set_pager_commit_lock_held true tx)); try done.
    + split; try done; cbn.
      * intros u Hne. by rewrite lookup_alter_ne.
      * intros u Hne Hu. split; [|congruence]. intros He. destruct Hfree; [congruence|lia].
      * split; [by split; [|left]|by right; left].
    + cbn. by rewrite lookup_alter_eq, Htx.
Qed.

Lemma unlock_wp st t tx :
  txs st !! t = Some tx -> (pager_commit_lock_held tx = true -> pager_commit_lock st = true) ->
  wp (unlock_commit_lock_if_held t) st
    (fun _ st' => exists m, st' = set_pager_commit_lock (negb (pager_commit_lock_held tx) && pager_commit_lock st) (set_txs m st) /\
       off t (txs st) m /\ m !! t = Some (set_pager_commit_lock_held false tx)) (fun _ _ => False).
Proof.
  intros Htx Hl. unfold unlock_commit_lock_if_held, unlock_commit_lock. wstep. eapply wp_expect_tx; [done|]. destruct (pager_commit_lock_held tx) eqn:Hh.
  - unfold update_tx. repeat wstep; [by apply Hl|]. exists (alter (set_pager_commit_lock_held false) t (txs st)). split_and!; [done|by apply off_alter|].
    by rewrite lookup_alter_eq, Htx.
  - wstep. exists (txs st). split_and!; [by destruct st|done|]. rewrite Htx. f_equal. destruct tx. cbn in *. by subst.
Qed.
(** What becomes of the lock when its transaction gives it up. *)
Lemma unlocked st t tx : txs st !! t = Some tx -> negb (pager_commit_lock_held tx) && pager_commit_lock st = pager_commit_lock st \/ holder t st.
Proof. intros Htx. destruct (pager_commit_lock_held tx) eqn:Hh; [right; by exists tx|by left]. Qed.
Lemma held_locked g st t tx : Inv g st -> txs st !! t = Some tx -> pager_commit_lock_held tx = true -> pager_commit_lock st = true.
Proof. intros [_ Hc] Htx Hh. apply (c_lock _ _ Hc t). by exists tx. Qed.
Lemma release_if_wp st t :
  wp (if is_exclusive_tx t st then release_exclusive_tx t else mret tt) st
    (fun _ st' => exists e, st' = set_exclusive_tx e st /\ forall u, u <> t -> 1 <= u -> exclusive_tx st = u <-> e = u) (fun _ _ => False).
Proof.
  unfold is_exclusive_tx. destruct (exclusive_tx st =? t) eqn:He.
  - apply Z.eqb_eq in He. apply wp_release; [done|]. exists NO_EXCLUSIVE_TX. split; [done|]. intros u Hne Hu. unfold NO_EXCLUSIVE_TX. split; [congruence|lia].
  - wstep. exists (exclusive_tx st). split; [by destruct st|done].
Qed.
(** [remove_tx] of a transaction with no dependents left. *)
Lemma remove_tx_wp st t tx :
  txs st !! t = Some tx -> commit_dep_set tx = ∅ ->
  wp (remove_tx t) st
    (fun _ st' => exists m fin, st' = set_txs (base.delete t m) (set_finalized_tx_states fin st) /\ off t (txs st) m /\
       forall u s, fin !! u = Some s -> finalized_tx_states st !! u = Some s \/ is_final s = true) (fun _ _ => False).
Proof.
  intros Htx Hd. unfold remove_tx. do 2 wstep. rewrite Htx. wstep.
  eapply (wp_conseq _ _ (fun _ st' => exists fin, st' = set_finalized_tx_states fin st /\
    forall u s, fin !! u = Some s -> finalized_tx_states st !! u = Some s \/ is_final s = true) _ (fun _ _ => False)); [| |done].
  - destruct (state tx) as [| | | |e]; try (wstep; exists (finalized_tx_states st); split; [by destruct st|by auto]).
    case_decide; wstep; [exists (finalized_tx_states st); split; [by destruct st|by auto]|]. eexists. split; [done|].
    intros u s [[<- <-]|[_ ?]]%lookup_insert_Some; auto.
  - intros _ st1 (fin & -> & Hfin). unfold update_tx, remove_from_txs. repeat wstep; [by rewrite bool_decide_true|].
    exists (alter (set_commit_dep_set ∅) t (txs st)), fin. split_and!; [done|by apply off_alter|done].
Qed.

(** Versions rewritten in place, row by row. *)
Definition version_step (t : TxID) (f : RowVersion -> RowVersion) : Prop :=
  forall v, rv_id (f v) = rv_id v /\ forall u, u <> t -> (created_by u v -> created_by u (f v)) /\ (ended_by u v -> ended_by u (f v)).
Lemma filter_all {A} (l : list A) : List.filter (fun _ => true) l = l.
Proof. induction l as [|x l IH]; cbn; [done|by rewrite IH]. Qed.
Lemma rows_step_map t st st' f ids :
  version_id_counter st' = version_id_counter st -> NoDup ids ->
  rows st' = foldr (fun id m => alter (map f) id m) (rows st) ids -> version_step t f -> rows_step t st st'.
Proof.
  intros Hv Hnd Hr Hf. apply rows_step_sub; [done|]. intros r. exists (if decide (r ∈ ids) then f else id), (fun _ => true).
  rewrite filter_all. unfold chain. rewrite Hr, foldr_alter_lookup by done. split.
  - case_decide; destruct (rows st !! r); try done. cbn. by rewrite map_id.
  - intros v _ _. case_decide; [apply Hf|done].
Qed.
Lemma rollback_step t : version_step t (rollback_row_version t).
Proof.
  intros v. unfold rollback_row_version. repeat case_bool_decide; (split; [done|]); intros u Hne; unfold created_by, ended_by in *; cbn in *; naive_solver congruence.
Qed.
Lemma rewrite_step t e : version_step t (rewrite_txid_to_timestamp t e).
Proof.
  intros v. unfold rewrite_txid_to_timestamp. repeat case_bool_decide; (split; [done|]); intros u Hne; unfold created_by, ended_by in *; cbn in *; naive_solver congruence.
Qed.
Lemma rollback_tx_wp g st t tx :
  Inv g st -> txs st !! t = Some tx -> is_live tx = true ->
  wp (rollback_tx t) st (fun _ st' => moves g st g st' /\ txs st' !! t = None) (fun _ _ => False).
Proof.
  intros HI Htx Hl. unfold rollback_tx, update_tx, notify, map_chains. wstep. eapply wp_expect_tx; [done|]. do 2 wstep; [done|]. do 3 wstep.
  set (st1 := set_txs _ _). assert (Htx1 : txs st1 !! t = Some (set_state Aborted tx)) by (cbn; by rewrite lookup_alter_eq, Htx).
  assert (Ho1 : off t (txs st) (txs st1)) by (by apply off_alter).
  eapply wp_conseq; [eapply unlock_wp; [done|exact (held_locked _ _ _ _ HI Htx)]| |done]. intros _ st2 (m2 & -> & Ho2 & Hm2). cbv zeta. do 4 wstep.
  { apply negb_true_iff, bool_decide_eq_false. intros Hin. destruct (i_dep _ (inv_txs _ (proj1 HI)) _ _ t (abs_fwd g _ _ _ Htx)); [done|]. done. }
  assert (Hni : t ∉ elements (commit_dep_set tx)).
  { rewrite elem_of_elements. intros Hin. destruct (i_dep _ (inv_txs _ (proj1 HI)) _ _ t (abs_fwd g _ _ _ Htx)); [done|]. done. }
  do 5 wstep. eapply wp_conseq; [apply release_if_wp| |done]. intros _ st3 (ex & -> & Hex). do 4 wstep.
  set (st4 := set_txs _ _). set (tx4 := set_state Terminated (set_commit_dep_set ∅ (set_pager_commit_lock_held false (set_state Aborted tx)))).
  assert (Htx4 : txs st4 !! t = Some tx4).
  { cbn. rewrite lookup_alter_eq, foldr_alter_notin, lookup_alter_eq, Hm2 by done. done. }
  eapply wp_conseq; [by eapply (remove_tx_wp st4 t tx4)| |done]. intros _ st5 (m5 & fin & -> & Ho5 & Hfin).
  split; [|apply lookup_delete_eq].
  eapply (abort_Inv g st _ t tx); try done. split; cbn; try done; [| |by apply unlocked].
  - apply off_delete. eapply off_trans; [|done]. cbn. apply off_alter, off_foldr, off_alter. by eapply off_trans.
  - eapply (rows_step_map t _ _ (rollback_row_version t) (write_set tx)); [done| |done|apply rollback_step].
    by destruct (i_tx _ (inv_txs _ (proj1 HI)) _ _ (abs_fwd g _ _ _ Htx)) as (_ & _ & _ & ?).
Qed.

(** * Committing *)

(** A change that is the transaction's own, with the transitions that match it. *)
Record own_frame (t : TxID) (st st' : MvStore) : Prop := {
  n_txs : off t (txs st) (txs st');
  n_ids : tx_ids st' = tx_ids st;
  n_exclusive : forall u, u <> t -> 1 <= u -> exclusive_tx st = u <-> exclusive_tx st' = u;
  n_header : is_Some (global_header st) -> is_Some (global_header st');
  n_final : forall u s, finalized_tx_states st' !! u = Some s -> finalized_tx_states st !! u = Some s \/ is_final s = true;
  n_rows : rows_step t st st';
  n_lock : lock_ok st -> lock_step t st st'
}.
Record own_ghost (t : TxID) (g g' : ghost) : Prop := {
  m_modes : forall u, u <> t -> g_modes g' !! u = g_modes g !! u;
  m_reads : g_reads g' = g_reads g
}.
Lemma own_Inv g st g' st' (t : TxID) :
  Inv g st -> bsteps (abs g st) (abs g' st') -> own_frame t st st' -> own_ghost t g g' -> t < tx_ids st ->
  (is_Some (txs st' !! t) -> is_Some (txs st !! t)) ->
  (forall tx', txs st' !! t = Some tx' -> tx_inv g' st' t tx') -> moves g st g' st'.
Proof.
  intros HI Hb [H1 H2 H3 H4 H5 H6 H7] [M1 M2] Hlt Hwas Hown. pose proof HI as [Hi Hc]. split; [|done]. split; [by eapply bsteps_inv|].
  eapply (cinv_step t); [done|done| | | |rewrite H2; apply Hc].
  - split; try done; [|apply H7, Hc|by rewrite H2]. intros u tx' Hne Hu. rewrite H1 in Hu by done. eauto using untouched_refl.
  - intros tx' Htx'. split; [auto|]. destruct Hwas as [tx Htx]; [by eauto|]. by eapply H4, c_header.
  - intros u Hu. rewrite H2 in Hu. rewrite M2, M1 by lia. by apply (c_fresh _ _ Hc).
Qed.
Lemma abs_txs_own g g' m m' t tx' :
  off t m m' -> own_ghost t g g' -> m' !! t = Some tx' -> abs_txs g' m' = <[t := abs_tx g' t tx']> (abs_txs g m).
Proof.
  intros Ho [M1 M2] Htx'. apply map_eq. intros u. rewrite abs_lookup. destruct (decide (u = t)) as [->|Hne]; [by rewrite Htx', lookup_insert_eq|].
  rewrite lookup_insert_ne, abs_lookup, Ho by done. destruct (m !! u); [|done]. cbn. unfold abs_tx. by rewrite M1, M2.
Qed.
Lemma own_set_mode t m f g : own_ghost t g (set_mode t m f g).
Proof. split; [|done]. intros u Hne. cbn. by rewrite lookup_insert_ne. Qed.
Lemma set_mode_at t m f g : g_modes (set_mode t m f g) !! t = Some (m, f).
Proof. cbn. apply lookup_insert_eq. Qed.
Lemma own_add_commit t c g g' : own_ghost t g g' -> own_ghost t g (add_commit c g').
Proof. intros []. by split. Qed.
Lemma own_frame_refl t st : own_frame t st st.
Proof. split; auto; [apply off_refl|by apply rows_step_same|by apply lock_step_same]. Qed.
(** The transaction is changed, and the rest is as it was. *)
Lemma own_frame_quiet t st st' tx tx' :
  off t (txs st) (txs st') -> txs st !! t = Some tx -> txs st' !! t = Some tx' -> pager_commit_lock_held tx' = pager_commit_lock_held tx ->
  tx_ids st' = tx_ids st -> exclusive_tx st' = exclusive_tx st -> (is_Some (global_header st) -> is_Some (global_header st')) ->
  finalized_tx_states st' = finalized_tx_states st -> rows st' = rows st -> version_id_counter st' = version_id_counter st ->
  pager_commit_lock st' = pager_commit_lock st -> own_frame t st st'.
Proof.
  intros Ho Htx Htx' Hh H1 H2 H3 H4 H5 H6 H7. split; try done; [by rewrite H2|rewrite H4; auto|apply rows_step_same; [done|lia]|].
  intros Hok. apply lock_step_same; [done| |done]. intros (tx1 & Hx1 & Hh1). rewrite Htx' in Hx1. injection Hx1 as <-. exists tx. by rewrite <- Hh.
Qed.
Lemma abs_txs_mode g g' m t : own_ghost t g g' -> m !! t = None -> abs_txs g' m = abs_txs g m.
Proof.
  intros [M1 M2] Hno. apply abs_txs_ext. intros u. destruct (m !! u) eqn:Hu; [|done]. assert (u <> t) by congruence.
  unfold abs_tx. by rewrite M1, M2.
Qed.
(** The machine of a transaction that is gone. *)
Lemma absent_moves g st (t : TxID) m f : Inv g st -> txs st !! t = None -> t < tx_ids st -> moves g st (set_mode t m f g) st.
Proof.
  intros HI Hno Hlt. eapply (own_Inv _ _ _ _ t); [done| |apply own_frame_refl|apply own_set_mode|done|done|intros; congruence].
  assert (abs (set_mode t m f g) st = abs g st) as ->; [|apply rtc_refl]. unfold abs. f_equal. eapply abs_txs_mode; [apply own_set_mode|done].
Qed.

Section commit_steps.
Context (g : ghost) (st : MvStore) (HI : Inv g st) (t : TxID) (tx : Transaction) (Htx : txs st !! t = Some tx).

Lemma own_lt : t < tx_ids st.
Proof. destruct (i_tx _ (inv_txs _ (proj1 HI)) _ _ (abs_fwd g _ _ _ Htx)) as (? & _). cbn in *. lia. Qed.
Lemma own_begin : 0 <= begin_ts tx < clock st.
Proof. by destruct (i_tx _ (inv_txs _ (proj1 HI)) _ _ (abs_fwd g _ _ _ Htx)) as (_ & ? & _). Qed.
Lemma own_inv : tx_inv g st t tx.
Proof. by apply (c_txs _ _ (proj2 HI)). Qed.
Lemma own_header : is_Some (global_header st).
Proof. by apply (c_header _ _ (proj2 HI) t tx). Qed.
Lemma own_ctr : commit_dep_counter tx = wrap 64 (Z.of_nat (size (dependees (a_txs (abs g st)) t))).
Proof. exact (i_ctr _ (inv_txs _ (proj1 HI)) _ _ (abs_fwd g _ _ _ Htx)). Qed.
Lemma own_free : 0 <? commit_dep_counter tx = false -> commit_dep_counter tx = 0 /\ dependees (a_txs (abs g st)) t = ∅.
Proof.
  intros Hz%Z.ltb_ge. pose proof own_ctr as Hc. assert (commit_dep_counter tx = 0) as H0.
  { assert (0 <= commit_dep_counter tx); [rewrite Hc; apply wrap_is_u; lia|lia]. }
  split; [done|]. eapply (dependees_free (abs g st)); [apply HI|pose proof (c_bound _ _ (proj2 HI)); cbn; lia|by apply abs_fwd|done].
Qed.
(** A transaction with an empty write set is referred to by no version. *)
Lemma empty_no_refs : write_set tx = [] -> no_refs t (abs g st).
Proof.
  intros Hws. assert (Hno : forall r v, v ∈ achain (abs g st) r -> ~ refers v t).
  { intros r v Hv Hr. destruct (v_ref _ _ _ (inv_rows _ (proj1 HI) r v Hv) t Hr) as (y & (d & Hd & ->)%abs_back & Hin). rewrite Htx in Hd.
    injection Hd as <-. cbn in Hin. rewrite Hws in Hin. by apply not_elem_of_nil in Hin. }
  intros r v Hv. specialize (Hno r v Hv). unfold refers in Hno. tauto.
Qed.

(** A step of the machine that leaves the transaction as it is, but for its hold on the commit lock. *)
Lemma stay st' h m f :
  own_frame t st st' -> rows st' = rows st -> clock st' = clock st -> txs st' !! t = Some (set_pager_commit_lock_held h tx) ->
  (exclusive_tx st = t -> exclusive_tx st' = t) -> (exclusive_tx st' = t -> holds_lock (Some (m, f)) = true -> h = true) ->
  phase_of (Some (m, f)) (state tx) = phase_of (g_modes g !! t) (state tx) -> state_ok (Some (m, f)) (state tx) ->
  progress (Some (m, f)) (write_set tx) t (abs g st) -> moves g st (set_mode t m f g) st'.
Proof.
  intros Hf Hr Hcl Htx' Hex Hlk Hp Hs Hpr. assert (Ha : abs (set_mode t m f g) st' = abs g st).
  { unfold abs. rewrite Hr, Hcl, (n_ids _ _ _ Hf). f_equal. rewrite (abs_txs_own g _ _ _ t _ (n_txs _ _ _ Hf) (own_set_mode t m f g) Htx').
    apply insert_id. rewrite abs_lookup, Htx. cbn. f_equal. unfold abs_tx. rewrite set_mode_at. cbn. by rewrite Hp. }
  destruct own_inv as [K1 K2 K6 K7 K3 K4 K5]. eapply (own_Inv _ _ _ _ t); [done| |done|apply own_set_mode|apply own_lt|by eauto|].
  - rewrite Ha. apply rtc_refl.
  - rewrite Htx'. intros tx' [= <-]. split; rewrite ?set_mode_at; try done; [by auto| |by rewrite Ha].
    intros. eapply stack_ok_same; [done|apply (r_counter _ _ _ (n_rows _ _ _ Hf))|auto].
Qed.
Lemma stay_same m f :
  (holds_lock (Some (m, f)) = true -> holds_lock (g_modes g !! t) = true) ->
  phase_of (Some (m, f)) (state tx) = phase_of (g_modes g !! t) (state tx) -> state_ok (Some (m, f)) (state tx) ->
  progress (Some (m, f)) (write_set tx) t (abs g st) -> moves g st (set_mode t m f g) st.
Proof.
  intros Hh **. eapply (stay st (pager_commit_lock_held tx)); try done; [apply own_frame_refl|rewrite Htx; f_equal; by destruct tx|].
  intros Hx Hm%Hh. by apply (k_lock _ _ _ _ own_inv).
Qed.

(** The transaction takes its end timestamp. *)
Lemma prepare_moves st' m f :
  own_frame t st st' -> rows st' = rows st -> clock st' = clock st + 1 -> exclusive_tx st' = exclusive_tx st ->
  txs st' !! t = Some (set_state (Preparing (clock st)) tx) -> state tx = Active -> validated (Some (m, f)) = false ->
  state_ok (Some (m, f)) (Preparing (clock st)) -> moves g st (set_mode t m f g) st'.
Proof.
  intros Hf Hr Hcl Hex Htx' Hact Hv Hs. destruct own_inv as [K1 K2 K6 K7 K3 K4 K5]. assert (Hb : bsteps (abs g st) (abs (set_mode t m f g) st')).
  { apply abs_step; [done|]. unfold abs at 2. rewrite Hr, Hcl, (n_ids _ _ _ Hf).
    rewrite (abs_txs_own g _ _ _ t _ (n_txs _ _ _ Hf) (own_set_mode t m f g) Htx').
    replace (abs_tx (set_mode t m f g) t _) with (with_phase (Prep (clock st)) (abs_tx g t tx)).
    - apply (a_prepare (abs g st)); [by apply abs_fwd|]. cbn. by rewrite Hact.
    - unfold abs_tx, with_phase, phase_of. rewrite set_mode_at. cbn [state set_state]. by rewrite Hv. }
  eapply (own_Inv _ _ _ _ t); [done..|apply own_set_mode|apply own_lt|by eauto|]. rewrite Htx'. intros tx' [= <-].
  split; rewrite ?set_mode_at; try done; [by rewrite Hex| |].
  - rewrite Hex. intros Hx _. apply K7; [done|]. rewrite Hact in K4. unfold state_ok, holds_lock in *. destruct (g_modes g !! t) as [[m0 f0]|]; [|done].
    destruct (cs m0); try done; by destruct K4.
  - revert Hv. unfold progress, validated. by destruct (cs m).
Qed.
(** Validation has nothing to say against it. *)
Lemma validate_moves m0 m f e :
  g_modes g !! t = Some (m0, false) -> validated (Some (m0, false)) = false -> state tx = Preparing e ->
  (forall r v, r ∈ write_set tx -> v ∈ chain st r -> conflict (sig (abs g st)) t (begin_ts tx) e v = false) ->
  cs m = WaitForDependencies e -> moves g st (set_mode t m f g) st.
Proof.
  intros Hm Hv Hst Hno Hcs. destruct own_inv as [K1 K2 K6 K7 K3 K4 K5]. assert (Hb : bsteps (abs g st) (abs (set_mode t m f g) st)).
  { apply abs_step; [done|]. unfold abs at 2. rewrite (abs_txs_own g _ _ _ t _ (off_refl _ _) (own_set_mode t m f g) Htx).
    replace (abs_tx (set_mode t m f g) t _) with (with_phase (Val e) (abs_tx g t tx)).
    - apply (a_validate (abs g st)); [by apply abs_fwd| |done].
      change (phase_of (g_modes g !! t) (state tx) = Prep e). rewrite Hm, Hst. unfold phase_of. by rewrite Hv.
    - unfold abs_tx, with_phase, phase_of. rewrite set_mode_at, Hst. unfold validated. by rewrite Hcs. }
  eapply (own_Inv _ _ _ _ t); [done|done|apply own_frame_refl|apply own_set_mode|apply own_lt|by eauto|]. rewrite Htx. intros tx' [= <-].
  split; rewrite ?set_mode_at; try done; try (cbn; by rewrite Hcs). intros Hx _. apply K7; [done|]. rewrite Hm. revert Hv. unfold validated, holds_lock. by destruct (cs m0).
Qed.

Definition record_of (e : Z) : commit_record := {| c_begin := begin_ts tx; c_end := e; c_rows := write_set tx |}.
(** It commits, having nothing to wait for. *)
Lemma commit_moves st' m0 m e :
  g_modes g !! t = Some (m0, false) -> validated (Some (m0, false)) = true -> state tx = Preparing e -> abort_now tx = false ->
  dependees (a_txs (abs g st)) t = ∅ -> own_frame t st st' -> rows st' = rows st -> clock st' = clock st ->
  exclusive_tx st' = exclusive_tx st -> txs st' !! t = Some (set_state (Committed e) tx) -> cs m = RewriteLiveVersions e 0 ->
  moves g st (add_commit (record_of e) (set_mode t m false g)) st'.
Proof.
  intros Hm Hv Hst Hab Hd Hf Hr Hcl Hex Htx' Hcs. destruct own_inv as [K1 K2 K6 K7 K3 K4 K5]. set (g' := add_commit _ _).
  assert (Hg : own_ghost t g g') by (apply own_add_commit, own_set_mode). assert (Hgm : g_modes g' !! t = Some (m, false)) by apply lookup_insert_eq.
  assert (Hb : bsteps (abs g st) (abs g' st')).
  { apply abs_step; [done|]. unfold abs at 2. rewrite Hr, Hcl, (n_ids _ _ _ Hf), (abs_txs_own g _ _ _ t _ (n_txs _ _ _ Hf) Hg Htx').
    replace (abs_tx g' t _) with (with_phase (Com e) (abs_tx g t tx)) by done.
    apply (a_commit (abs g st) t (abs_tx g t tx) e); [by apply abs_fwd| |done|].
    - change (phase_of (g_modes g !! t) (state tx) = Val e). rewrite Hm, Hst. unfold phase_of. by rewrite Hv.
    - change (commit_dep_counter tx = 0). rewrite own_ctr, Hd, size_empty. done. }
  eapply (own_Inv _ _ _ _ t); [done..|apply own_lt|by eauto|]. rewrite Htx'. intros tx' [= <-].
  assert (Hlt : t < tx_ids st) by apply own_lt. split; rewrite ?Hgm; try done; [by rewrite Hex|cbn; by rewrite Hcs|cbn; by rewrite Hcs|]. cbn. rewrite Hcs.
  split; [cbn; rewrite (n_ids _ _ _ Hf); done|]. intros y (ty & Hty & ->)%abs_back. rewrite Htx' in Hty. injection Hty as <-. split; [by exists e|].
  intros r v Hv' Href. unfold achain in Hv'. cbn in Hv'. rewrite Hr in Hv'. destruct (v_ref _ _ _ (inv_rows _ (proj1 HI) r v Hv') t Href) as (y & (d & Hd' & ->)%abs_back & Hin).
  rewrite Htx in Hd'. by injection Hd' as <-.
Qed.
(** It is gone, and its dependents know. *)
Lemma finish_moves g' st' e :
  state tx = Committed e -> no_refs t (abs g st) -> leave_frame t tx dep_committed st st' -> rows st' = rows st ->
  own_ghost t g g' -> g_hist g' = g_hist g -> moves g st g' st'.
Proof.
  intros Hst Hno Hf Hr Hg Hh. assert (Hb : bsteps (abs g st) (abs g' st')).
  { apply abs_step; [done|]. destruct Hf as [H1 H2 H3 _ _ _ _ _]. unfold abs at 2. rewrite H1, H2, H3, Hr, Hh.
    rewrite (abs_txs_mode g g' _ t Hg) by apply lookup_delete_eq. rewrite abs_txs_delete, (abs_txs_foldr g dep_committed (bump (-1))) by done.
    apply (a_finish (abs g st) t (abs_tx g t tx) e); [by apply abs_fwd| |done]. cbn. by rewrite Hst. }
  split; [|done]. destruct Hg. eapply leave_cinv; try done. intros tx1. split; auto.
Qed.
End commit_steps.

Lemma holder_alter t f st st' :
  txs st' = alter f t (txs st) -> (forall tx, pager_commit_lock_held (f tx) = pager_commit_lock_held tx) -> holder t st -> holder t st'.
Proof. intros Hm Hf (tx & Htx & Hh). exists (f tx). by rewrite Hm, lookup_alter_eq, Htx, Hf. Qed.
Lemma leave_frame_off t tx tx' f st st1 st' :
  leave_frame t tx f st st' -> off t (txs st) (txs st1) -> commit_dep_set tx' = commit_dep_set tx -> clock st1 = clock st -> tx_ids st1 = tx_ids st ->
  exclusive_tx st1 = exclusive_tx st -> global_header st1 = global_header st -> finalized_tx_states st1 = finalized_tx_states st ->
  rows st1 = rows st -> version_id_counter st1 = version_id_counter st -> pager_commit_lock st1 = pager_commit_lock st -> (holder t st -> holder t st1) ->
  leave_frame t tx' f st1 st'.
Proof.
  intros [H1 H2 H3 H4 H5 H6 [R1 R2 R3] H8] Ho Hd E1 E2 E3 E4 E5 E6 E7 E8 E9. split; rewrite ?E1, ?E2, ?E3, ?E4, ?E5, ?E8; try done.
  - rewrite H1, Hd. symmetry. by apply off_delete, off_foldr.
  - unfold versions_ok, chain in *. split; unfold versions_ok, chain; rewrite ?E6, ?E7; done.
  - destruct H8; auto.
Qed.
Lemma set_mode_twice t m f m' f' c g : set_mode t m' f' (add_commit c (set_mode t m f g)) = add_commit c (set_mode t m' f' g).
Proof. unfold set_mode, add_commit. cbn. by rewrite insert_insert_eq. Qed.
(** The end of a transaction that has written nothing. *)
Lemma read_only_moves g st t tx st' m0 m e :
  Inv g st -> txs st !! t = Some tx -> g_modes g !! t = Some (m0, false) -> validated (Some (m0, false)) = true ->
  state tx = Preparing e -> abort_now tx = false -> dependees (a_txs (abs g st)) t = ∅ -> write_set tx = [] ->
  leave_frame t tx dep_committed st st' -> rows st' = rows st ->
  moves g st (add_commit (record_of tx e) (set_mode t m false g)) st'.
Proof.
  intros HI Htx Hm Hv Hst Hab Hd Hws Hf Hr. set (st1 := set_txs (alter (set_state (Committed e)) t (txs st)) st).
  set (m1 := at_state m (RewriteLiveVersions e 0)). assert (Ho : off t (txs st) (txs st1)) by by apply off_alter.
  assert (Htx1 : txs st1 !! t = Some (set_state (Committed e) tx)) by (cbn; by rewrite lookup_alter_eq, Htx).
  assert (Hmv : moves g st (add_commit (record_of tx e) (set_mode t m1 false g)) st1).
  { eapply commit_moves; try done. by apply (own_frame_quiet t st st1 tx (set_state (Committed e) tx)). }
  eapply moves_trans; [done|]. destruct Hmv as [HI1 _]. eapply (finish_moves _ st1 HI1 t _ Htx1); [done|by eapply empty_no_refs| |done| |done].
  - eapply leave_frame_off; try done. by eapply holder_alter.
  - rewrite <- (set_mode_twice t m1 false m false). apply own_set_mode.
Qed.

(** ** Validation *)

Section conflicts.
Context (g : ghost) (st : MvStore) (HI : Inv g st) (t : TxID) (tx : Transaction) (e : Z) (Htx : txs st !! t = Some tx) (Hst : state tx = Preparing e).

Lemma conflict_ref r v u : v ∈ chain st r -> refers v u ->
  exists d, txs st !! u = Some d /\ lookup_tx_state st u = Some (state d) /\ sig (abs g st) !! u = Some (state d) /\
    (u <> t -> forall n, state d = Committed n -> n <> begin_ts tx).
Proof.
  intros Hv Hu. destruct (v_ref _ _ _ (inv_rows _ (proj1 HI) r v Hv) u Hu) as (y & (d & Hd & ->)%abs_back & _). exists d.
  unfold lookup_tx_state. rewrite Inv_sig, Hd by done. split_and!; [done..|]. intros Hne n Hn.
  destruct (i_apart _ (inv_txs _ (proj1 HI)) _ _ _ _ (abs_fwd g _ _ _ Htx) (abs_fwd g _ _ _ Hd)) as [_ Hap]; [congruence|].
  apply not_eq_sym. refine (proj1 (Hap n _)). cbn. by rewrite Hn.
Qed.
Lemma version_conflict_spec r v :
  v ∈ chain st r ->
  match version_conflict st e tx v with Ok _ => conflict (sig (abs g st)) t (begin_ts tx) e v = false | Err _ => True | Panic => False end.
Proof.
  intros Hv. assert (Hid : tx_id tx = t) by by apply (k_id g st), (c_txs _ _ (proj2 HI)). unfold version_conflict, conflict, begin_conflict. rewrite Hid.
  destruct (rv_end v) as [[n|u]|] eqn:He.
  - destruct (v_stamp _ _ _ (inv_rows _ (proj1 HI) r v Hv) n) as [_ Hne]; [by right|]. specialize (Hne t _ (abs_fwd g _ _ _ Htx)). cbn in Hne.
    assert (Hneb : (n =? begin_ts tx) = false) by (apply Z.eqb_neq; congruence). rewrite Hneb. rstep. destruct (begin_ts tx <? n) eqn:Hlt; [done|].
    rstep. destruct (rv_begin v); [|done]. unfold rassert. apply Z.ltb_ge in Hlt. destruct (n <? begin_ts tx) eqn:Hn; [done|]. apply Z.ltb_ge in Hn. lia.
  - rstep. destruct (conflict_ref r v u Hv ltac:(by right)) as (d & Hd & Hl & Hs & Hc). rewrite Hd, Hl, Hs.
    destruct (rv_begin v) as [b|] eqn:Hb.
    + destruct (u =? t) eqn:Hut; [done|]. apply Z.eqb_neq in Hut. destruct (state d) as [|e'| | |n] eqn:Hsd.
      5: { assert (Hnb : (n =? begin_ts tx) = false) by (apply Z.eqb_neq; by apply Hc). rewrite Hnb. rstep. by destruct (begin_ts tx <? n). }
      all: destruct b as [n|w]; [done|]; destruct (w =? t); [done|];
        destruct (conflict_ref r v w Hv ltac:(by left)) as (dw & _ & Hlw & Hsw & _); rewrite Hlw, Hsw; destruct (state dw) as [|ew| | |]; try done;
        by destruct (ew <? e).
    + destruct (u =? t); [done|]. destruct (state d) as [|e'| | |n]; try done. by destruct (e' <? e).
  - rstep. destruct (rv_begin v) as [[n|w]|] eqn:Hb; [done| |done]. destruct (w =? t); [done|].
    destruct (conflict_ref r v w Hv ltac:(by left)) as (dw & _ & Hlw & Hsw & _). rewrite Hlw, Hsw. destruct (state dw) as [|ew| | |]; try done.
    by destruct (ew <? e).
Qed.
Lemma check_version_conflicts_spec r versions :
  (forall v, v ∈ versions -> v ∈ chain st r) ->
  match check_version_conflicts st e tx versions with
  | Ok _ => forall v, v ∈ versions -> conflict (sig (abs g st)) t (begin_ts tx) e v = false
  | Err _ => True | Panic => False
  end.
Proof.
  induction versions as [|v versions IH]; intros Hin; cbn [check_version_conflicts]; [by intros v ?%not_elem_of_nil|].
  pose proof (version_conflict_spec r v ltac:(apply Hin; by left)) as Hv. destruct (version_conflict st e tx v); rstep; try done.
  pose proof (IH ltac:(intros; apply Hin; by right)) as Hrest. destruct (check_version_conflicts st e tx versions); try done.
  intros v' [->|Hv']%elem_of_cons; auto.
Qed.
Lemma check_write_set_spec ids :
  match check_write_set st e tx ids with
  | Ok _ => forall r v, r ∈ ids -> v ∈ chain st r -> conflict (sig (abs g st)) t (begin_ts tx) e v = false
  | Err _ => True | Panic => False
  end.
Proof.
  induction ids as [|id ids IH]; cbn [check_write_set]; [by intros r v ?%not_elem_of_nil|].
  assert (Hid : match check_rowid_for_conflicts st e tx id with
    | Ok _ => forall v, v ∈ chain st id -> conflict (sig (abs g st)) t (begin_ts tx) e v = false | Err _ => True | Panic => False end).
  { unfold check_rowid_for_conflicts, chain. destruct (rows st !! id) as [versions|] eqn:Hrow; cbn; [|by intros v ?%not_elem_of_nil].
    pose proof (check_version_conflicts_spec id (reverse versions)) as Hs.
    destruct (check_version_conflicts st e tx (reverse versions)); try done; [intros v Hv|..].
    - apply Hs; [intros v'|]; rewrite elem_of_reverse; [unfold chain; by rewrite Hrow|done].
    - apply Hs. intros v'. rewrite elem_of_reverse. unfold chain. by rewrite Hrow. }
  destruct (check_rowid_for_conflicts st e tx id); rstep; try done. destruct (check_write_set st e tx ids); try done.
  intros r v [->|Hr]%elem_of_cons; eauto.
Qed.
End conflicts.

(** ** The steps of the machine *)

(** A computation that starts with a lookup of the transaction. *)
Lemma wp_with_tx {A} (f : Transaction -> MV A) (d : MV A) st t tx Q E :
  txs st !! t = Some tx -> wp (f tx) st Q E -> wp (fun st => match txs st !! t with None => d st | Some tx => f tx st end) st Q E.
Proof. intros Htx H. unfold wp in *. by rewrite Htx. Qed.

Ltac weta := match goal with |- wp (fun s => ?m s) ?s0 ?Q ?E => change (wp m s0 Q E) end.

Section machine_steps.
Context (g : ghost) (st : MvStore) (HI : Inv g st) (t : TxID) (tx : Transaction) (Htx : txs st !! t = Some tx) (m : CommitStateMachine).
Context (Hm : g_modes g !! t = Some (m, false)).
Let done_ (m' : CommitStateMachine) (st' : MvStore) : Prop := moves g st (after_commit_step t m (Ok m') st g) st'.
Let failed_ (e : LimboError) (st' : MvStore) : Prop := moves g st (after_commit_step t m (Err e) st g) st'.

Lemma prepare_wp :
  state tx = Active ->
  wp (get_timestamp (prepare t)) st
    (fun r st' => fst r = clock st /\
       let can := negb (fst (snd r) || snd (snd r)) || read_only tx in
       st' = (if can then set_txs (alter (set_state (Preparing (clock st))) t (txs st)) (set_clock (clock st + 1) st)
              else set_clock (clock st + 1) st)) (fun _ _ => False).
Proof.
  intros Hact. destruct (own_header g st HI t tx Htx) as [h Hh]. destruct (own_inv g st HI t tx Htx) as [K1 K2 _ _ K3 K4 K5].
  pose proof (own_begin g st HI t tx Htx). unfold get_timestamp, prepare. do 6 wstep. eapply (wp_expect_tx _ _ tx); [done|].
  do 2 wstep; [apply Z.ltb_lt; lia|]. do 2 wstep. cbn [global_header set_clock]. rewrite Hh. do 2 wstep.
  { unfold is_exclusive_tx. destruct (header_dirty tx) eqn:Hd; [|done]. cbn. apply Z.eqb_eq, K2. unfold dirty_marks. rewrite Hd. by left. }
  cbv zeta. set (ec := negb _ && _). set (sc := _ || (_ <? _)). unfold update_tx. wstep. destruct (negb (ec || sc) || read_only tx) eqn:Hcan; repeat wstep.
  - split; [done|]. cbn -[ec sc negb orb]. by rewrite Hcan.
  - split; [done|]. cbn -[ec sc negb orb]. by rewrite Hcan.
Qed.


Lemma read_only_empty : read_only tx = true -> write_set tx = [] /\ commit_dep_set tx = ∅.
Proof.
  unfold read_only. intros [Hw%bool_decide_eq_true _]%andb_prop. split; [done|]. destruct (own_inv g st HI t tx Htx) as [_ _ _ _ K3 _ _].
  destruct (decide (commit_dep_set tx = ∅)) as [|Hne]; [done|]. by destruct (K3 Hne).
Qed.
Lemma initial_conflict : state tx = Active -> cs m = Initial -> moves g st (set_mode t m true g) (set_clock (clock st + 1) st).
Proof.
  intros Hact Hcs. assert (Hs : moves g st (set_mode t m true g) st).
  { eapply stay_same; [done|done|by rewrite Hm|by rewrite Hact|cbn; rewrite Hcs, Hact; by left|cbn; by rewrite Hcs]. }
  eapply moves_trans; [done|]. destruct Hs as [HIs _]. apply tick_Inv; cbn; try done; try lia. apply (c_bound _ _ (proj2 HI)).
Qed.
Let prepared : MvStore := set_txs (alter (set_state (Preparing (clock st))) t (txs st)) (set_clock (clock st + 1) st).
Lemma prepared_tx : txs prepared !! t = Some (set_state (Preparing (clock st)) tx).
Proof. cbn. by rewrite lookup_alter_eq, Htx. Qed.
Lemma initial_prepared m' f :
  state tx = Active -> validated (Some (m', f)) = false -> state_ok (Some (m', f)) (Preparing (clock st)) ->
  moves g st (set_mode t m' f g) prepared.
Proof.
  intros. eapply prepare_moves; try done; [|apply prepared_tx]. eapply (own_frame_quiet t st prepared tx (set_state (Preparing (clock st)) tx)); try done; [by apply off_alter|apply prepared_tx].
Qed.
Lemma set_mode_set_mode m1 f1 m2 f2 g0 : set_mode t m2 f2 (set_mode t m1 f1 g0) = set_mode t m2 f2 g0.
Proof. unfold set_mode. cbn. by rewrite insert_insert_eq. Qed.
(** With nothing written, there is nothing to validate. *)
Lemma initial_validated : state tx = Active -> read_only tx = true -> moves g st (set_mode t (at_state m (WaitForDependencies (clock st))) false g) prepared.
Proof.
  intros Hact [Hws _]%read_only_empty. eapply moves_trans; [by apply (initial_prepared (at_state m (Commit (clock st))) false)|].
  rewrite <- (set_mode_set_mode (at_state m (Commit (clock st))) false (at_state m (WaitForDependencies (clock st)))).
  destruct (initial_prepared (at_state m (Commit (clock st))) false) as [HI1 _]; [done..|].
  eapply (validate_moves _ _ HI1 t _ prepared_tx); [apply set_mode_at|done|done| |done]. cbn. rewrite Hws. by intros r v ?%not_elem_of_nil.
Qed.
Lemma initial_done st' : state tx = Active -> cs m = Initial -> read_only tx = true -> abort_now tx = false -> 0 <? commit_dep_counter tx = false ->
  leave_frame t tx dep_committed prepared st' -> rows st' = rows st -> done_ (at_state m CommitDone) st'.
Proof.
  intros Hact Hcs Hro Hab Hz Hf Hr. destruct (read_only_empty Hro) as [Hws _]. pose proof (initial_validated Hact Hro) as Hv. pose proof Hv as [HI1 _].
  unfold done_, after_commit_step, commits, commit_of. rewrite Htx, Hcs. cbn [cs at_state].
  set (mw := at_state m (WaitForDependencies (clock st))) in *. eapply moves_trans; [done|].
  rewrite <- (set_mode_set_mode mw false (at_state m CommitDone)). change {| c_begin := _ |} with (record_of (set_state (Preparing (clock st)) tx) (clock st)).
  eapply (read_only_moves _ _ t _ _ mw); [done|apply prepared_tx|apply set_mode_at|done|done|done| |done| |done].
  - by apply (own_free _ _ HI1 t _ prepared_tx).
  - eapply leave_frame_off; try done.
Qed.
Lemma close_wp st1 (tx1 : Transaction) (Q : CommitStateMachine -> MvStore -> Prop) E m' :
  txs st1 !! t = Some tx1 -> commit_dep_set tx1 = ∅ -> (pager_commit_lock_held tx1 = true -> pager_commit_lock st1 = true) ->
  (forall st', leave_frame t tx1 dep_committed st1 st' -> rows st' = rows st1 -> Q m' st') ->
  wp (st ← sget; _ ← (if is_exclusive_tx t st then release_exclusive_tx t else mret tt); _ ← unlock_commit_lock_if_held t; _ ← remove_tx t; mret m') st1 Q E.
Proof.
  intros Htx1 Hd Hlk HQ. do 3 wstep. eapply wp_conseq; [apply release_if_wp| |done]. intros _ st2 (ex & -> & Hex). wstep.
  eapply wp_conseq; [by eapply unlock_wp| |done]. intros _ st3 (m3 & -> & Ho3 & Hm3). wstep.
  eapply wp_conseq; [by eapply (remove_tx_wp _ t (set_pager_commit_lock_held false tx1))| |done]. intros _ st4 (m4 & fin & -> & Ho4 & Hfin). wstep.
  apply HQ; [|done]. split; cbn; try done; [|by apply rows_step_same|by apply unlocked]. rewrite Hd, elements_empty. apply off_delete. by eapply off_trans.
Qed.

Lemma initial_wp : cs m = Initial -> wp (commit_initial t m) st done_ failed_.
Proof.
  intros Hcs. destruct (own_inv g st HI t tx Htx) as [K1 K2 _ _ K3 K4 K5]. rewrite Hm in K4. cbn in K4. rewrite Hcs in K4.
  destruct K4 as [Hact|[? _]]; [|done]. unfold commit_initial. eapply wp_with_tx; [done|]. cbv beta. case_bool_decide; [congruence|].
  weta. unfold assert_active. do 2 wstep; [by rewrite bool_decide_true|]. wstep. eapply wp_conseq; [by apply prepare_wp| |done].
  intros [ts [ec sc]] st1. cbn [fst snd]. intros [-> Hst1].
  assert (Hok : forall m', cs m' <> CommitDone -> after_commit_step t m (Ok m') st g = set_mode t m' false g).
  { intros m' Hne. unfold after_commit_step, commits. rewrite Hcs. by destruct (cs m'). }
  destruct (read_only tx) eqn:Hro; [rewrite orb_true_r in Hst1|rewrite orb_false_r in Hst1]; rewrite ?andb_false_r, ?andb_true_r.
  - change (st1 = prepared) in Hst1. subst st1. destruct (read_only_empty Hro) as [Hws Hd]. do 2 wstep; [by rewrite bool_decide_true|].
    destruct (abort_now tx) eqn:Hab; [apply wp_throw, initial_prepared; try done; cbn; rewrite Hcs; eauto|].
    destruct (0 <? commit_dep_counter tx) eqn:Hz; [wstep; unfold done_; rewrite Hok by done; by apply initial_validated|].
    unfold update_tx. do 2 wstep. eapply close_wp; [cbn; rewrite lookup_alter_eq, lookup_alter_eq, Htx; done|done|exact (held_locked _ _ _ _ HI Htx)|]. intros st' Hf Hr.
    apply initial_done; try done. eapply leave_frame_off; try done; [cbn; intros u Hne; by rewrite !lookup_alter_ne|].
    intros (tx' & Htx' & Hh). cbn in Htx'. rewrite !lookup_alter_eq, Htx in Htx'. injection Htx' as <-. exists (set_state (Preparing (clock st)) tx). by rewrite prepared_tx.
  - destruct ec; [|destruct sc]; cbn in Hst1; subst st1; [by apply wp_throw, initial_conflict..|]. wstep. unfold done_. rewrite Hok by done.
    by apply initial_prepared.
Qed.

Lemma step_ok m' : commits m m' = false -> after_commit_step t m (Ok m') st g = set_mode t m' false g.
Proof. intros H. unfold after_commit_step. by rewrite H. Qed.
Lemma step_failed : state_ok (Some (m, true)) (state tx) -> forall e, failed_ e st.
Proof.
  intros Hs e. unfold failed_. cbn. destruct (own_inv g st HI t tx Htx) as [_ _ _ _ _ _ K5]. rewrite Hm in K5.
  eapply stay_same; [done|done|by rewrite Hm| |done|done]. by rewrite Hm.
Qed.

Lemma validate_wp e : cs m = Commit e -> wp (commit_validate t e m) st done_ failed_.
Proof.
  intros Hcs. destruct (own_inv g st HI t tx Htx) as [_ _ _ _ _ K4 _]. rewrite Hm in K4. cbn in K4. rewrite Hcs in K4.
  unfold commit_validate. eapply wp_with_tx; [done|]. cbv beta.
  change (wp (_ ← slift (check_write_set st e tx (write_set tx)); mret (at_state m (WaitForDependencies e))) st done_ failed_). wstep. pose proof (check_write_set_spec g st HI t tx e Htx K4 (write_set tx)) as Hc.
  unfold slift, wp at 1. destruct (check_write_set st e tx (write_set tx)); [|by apply step_failed; cbn; rewrite Hcs|done]. wstep.
  unfold done_. rewrite step_ok by (unfold commits; by rewrite Hcs). eapply (validate_moves g st HI t tx Htx m); try done. cbn. by rewrite Hcs.
Qed.

Lemma wait_wp e : cs m = WaitForDependencies e -> wp (commit_wait t e m) st done_ failed_.
Proof.
  intros Hcs. destruct (own_inv g st HI t tx Htx) as [_ _ _ _ _ K4 _]. rewrite Hm in K4. cbn in K4. rewrite Hcs in K4.
  unfold commit_wait. eapply wp_with_tx; [done|]. cbv beta. weta. destruct (abort_now tx) eqn:Hab; [by apply wp_throw, step_failed; cbn; rewrite Hcs|].
  assert (Hv : validated (Some (m, false)) = true) by (cbn; by rewrite Hcs).
  assert (Hph : forall m', validated (Some (m', false)) = true -> phase_of (Some (m', false)) (state tx) = phase_of (g_modes g !! t) (state tx)).
  { intros m' Hm'. rewrite Hm, K4. unfold phase_of. by rewrite Hm', Hv. }
  destruct (0 <? commit_dep_counter tx) eqn:Hz.
  { wstep. unfold done_. rewrite step_ok by (unfold commits; by rewrite Hcs). eapply stay_same; [done|done|by rewrite Hm|by apply Hph|cbn; by rewrite Hcs|cbn; by rewrite Hcs]. }
  destruct (own_free g st HI t tx Htx Hz) as [_ Hfree]. destruct (read_only tx) eqn:Hro.
  - destruct (read_only_empty Hro) as [Hws Hd]. unfold update_tx. do 2 wstep; [by rewrite bool_decide_true|]. do 5 wstep.
    set (st1 := set_txs _ _). eapply (wp_conseq _ _ (fun _ st' => exists ex b, st' = set_pager_commit_lock b (set_exclusive_tx ex st1) /\
      (forall u, u <> t -> 1 <= u -> exclusive_tx st = u <-> ex = u) /\ (b = pager_commit_lock st \/ holder t st)) _ (fun _ _ => False)); [| |done].
    + unfold is_exclusive_tx, unlock_commit_lock. destruct (exclusive_tx st1 =? t) eqn:Hex.
      * apply Z.eqb_eq in Hex. cbn in Hex. assert (Hh : pager_commit_lock_held tx = true).
        { apply (k_lock _ _ _ _ (own_inv g st HI t tx Htx)); [done|]. rewrite Hm. cbn. by rewrite Hcs. }
        wstep. apply wp_release; [done|]. repeat wstep; [exact (held_locked _ _ _ _ HI Htx Hh)|]. exists NO_EXCLUSIVE_TX, false. split; [done|]. split; [|right; by exists tx].
        intros u Hne Hu. unfold NO_EXCLUSIVE_TX. split; [congruence|lia].
      * wstep. exists (exclusive_tx st), (pager_commit_lock st). split; [by unfold st1; destruct st|auto].
    + intros _ st2 (ex & b & -> & Hex & Hb). wstep.
      eapply wp_conseq; [eapply (remove_tx_wp _ t (set_state (Committed e) tx)); [cbn; by rewrite lookup_alter_eq, Htx|done]| |done].
      intros _ st3 (m3 & fin & -> & Ho3 & Hfin). wstep. unfold done_, after_commit_step, commits, commit_of. rewrite Hcs, Htx. cbn [cs at_state].
      change {| c_begin := _ |} with (record_of tx e). eapply (read_only_moves g st t tx); try done. split; cbn; try done; [|by apply rows_step_same].
      rewrite Hd, elements_empty. apply off_delete. eapply off_trans; [|done]. by apply off_alter.
  - wstep. unfold done_. rewrite step_ok by (unfold commits; by rewrite Hcs). eapply stay_same; [done|done|done|by apply Hph|done|]. split.
    + apply (own_lt g st HI t tx Htx).
    + intros x (ty & Hty & ->)%abs_back. rewrite Htx in Hty. injection Hty as <-. left. exists e. split_and!; [|done|done].
      change (phase_of (g_modes g !! t) (state tx) = Val e). rewrite Hm, K4. unfold phase_of. by rewrite Hv.
Qed.

(** The states in which the log record is built and written. *)
Definition log_at (e : Z) (s : CommitState) : Prop :=
  match s with
  | BuildLogRecord e' | BeginCommitLogicalLog e' | UpgradeLogicalLogHeader e' | WriteLogicalLog e' | FinishLogicalLogWrite e'
  | SyncLogicalLog e' | EndCommitLogicalLog e' | CommitEnd e' => e' = e
  | _ => False
  end.
Lemma log_inv e : log_at e (cs m) -> state tx = Preparing e /\ ready t (abs g st).
Proof.
  intros Hl. destruct (own_inv g st HI t tx Htx) as [_ _ _ _ _ K4 K5]. rewrite Hm in K4, K5. cbn in K4, K5.
  destruct (cs m); try done; cbn in Hl; by subst.
Qed.
Lemma log_step m' h st' e :
  log_at e (cs m) -> log_at e (cs m') -> (forall e, cs m <> CommitEnd e) ->
  own_frame t st st' -> rows st' = rows st -> clock st' = clock st -> exclusive_tx st' = exclusive_tx st ->
  txs st' !! t = Some (set_pager_commit_lock_held h tx) -> done_ m' st'.
Proof.
  intros Hl Hl' Hne Hf Hr Hcl Hex Htx'. destruct (log_inv e Hl) as [Hst Hrd]. unfold done_. rewrite step_ok.
  - eapply stay; try done; [by rewrite Hex|cbn; by destruct (cs m')|..].
    + rewrite Hm, Hst. unfold phase_of, validated. destruct (cs m), (cs m'); done.
    + rewrite Hst. unfold state_ok. destruct (cs m'); try done; cbn in Hl'; by subst.
    + unfold progress. by destruct (cs m').
  - unfold commits. destruct (cs m); try done. by destruct (Hne end_ts).
Qed.
Lemma log_step_same m' e : log_at e (cs m) -> log_at e (cs m') -> (forall e, cs m <> CommitEnd e) -> done_ m' st.
Proof.
  intros. eapply (log_step m' (pager_commit_lock_held tx)); try done; [apply own_frame_refl|]. rewrite Htx. f_equal. by destruct tx.
Qed.
Lemma log_failed e : log_at e (cs m) -> forall err, failed_ err st.
Proof. intros Hl. destruct (log_inv e Hl) as [Hst _]. apply step_failed. rewrite Hst. cbn. destruct (cs m); try done; cbn in Hl; by subst. Qed.

Lemma own_frame_lock b m1 :
  off t (txs st) m1 -> lock_step t st (set_pager_commit_lock b (set_txs m1 st)) -> own_frame t st (set_pager_commit_lock b (set_txs m1 st)).
Proof. intros. split; auto. by apply rows_step_same. Qed.
(** The lock given up by a transaction that stays. *)
Lemma unlock_step m1 :
  m1 !! t = Some (set_pager_commit_lock_held false tx) ->
  lock_step t st (set_pager_commit_lock (negb (pager_commit_lock_held tx) && pager_commit_lock st) (set_txs m1 st)).
Proof.
  intros Hm1. split; [|destruct (unlocked st t tx Htx); auto]. intros (tx' & Htx' & Hh). cbn in Htx'. rewrite Hm1 in Htx'. by injection Htx' as <-.
Qed.
Lemma begin_log_wp e : cs m = BeginCommitLogicalLog e -> wp (commit_begin_log t e m) st done_ failed_.
Proof.
  intros Hcs. assert (Hl : log_at e (cs m)) by by rewrite Hcs. assert (Hne : forall e, cs m <> CommitEnd e) by (intros; congruence).
  unfold commit_begin_log. do 2 wstep. destruct (is_exclusive_tx t st); [wstep; by eapply log_step_same|]. wstep. eapply wp_get_tx; [done|].
  destruct (pager_commit_lock st) eqn:Hlock; [wstep; by eapply log_step_same|]. unfold update_tx. repeat wstep. eapply (log_step _ true); try done.
  - apply (own_frame_lock true); [by apply off_alter|]. split; [by split; [|left]|by right; left].
  - cbn. by rewrite lookup_alter_eq, Htx.
Qed.
Lemma build_log_wp e env : cs m = BuildLogRecord e -> wp (commit_step t env m) st done_ failed_.
Proof.
  intros Hcs. assert (Hl : log_at e (cs m)) by by rewrite Hcs. assert (Hne : forall e, cs m <> CommitEnd e) by (intros; congruence).
  unfold commit_step. rewrite Hcs. wstep. eapply wp_get_tx; [done|]. destruct (storage_fails env); [apply wp_throw; by eapply log_failed|].
  destruct (log_pending env); [wstep; by eapply log_step_same|]. destruct (log_is_empty env); [|wstep; by eapply log_step_same].
  do 3 wstep. destruct (is_exclusive_tx t st).
  - eapply wp_conseq; [eapply unlock_wp; [done|exact (held_locked _ _ _ _ HI Htx)]| |done]. intros _ st1 (m1 & -> & Ho & Hm1). wstep.
    eapply (log_step _ false); try done. by apply own_frame_lock, unlock_step.
  - repeat wstep. by eapply log_step_same.
Qed.
Lemma end_log_wp e : cs m = EndCommitLogicalLog e -> wp (commit_end_log t e m) st done_ failed_.
Proof.
  intros Hcs. assert (Hl : log_at e (cs m)) by by rewrite Hcs. assert (Hne : forall e, cs m <> CommitEnd e) by (intros; congruence).
  unfold commit_end_log. wstep. eapply wp_get_tx; [done|]. do 2 wstep. cbv zeta. do 3 wstep.
  assert (Heta : Some tx = Some (set_pager_commit_lock_held (pager_commit_lock_held tx) tx)) by (f_equal; by destruct tx).
  destruct (last_global_header_ts st <=? e); repeat wstep.
  all: eapply (log_step _ (pager_commit_lock_held tx)); try done; [|cbn; by rewrite Htx].
  all: eapply (own_frame_quiet t st _ tx tx); try done.
Qed.
Lemma commit_end_wp env e : cs m = CommitEnd e -> wp (commit_end t env e m) st done_ failed_.
Proof.
  intros Hcs. destruct (log_inv e ltac:(by rewrite Hcs)) as [Hst [_ Hrd]]. destruct (Hrd _ (abs_fwd g _ _ _ Htx)) as [(e' & Hv & Hab & Hd)|(e' & Hc)].
  2: { cbn in Hc. rewrite Hst in Hc. cbn in Hc. by destruct (validated _). }
  unfold commit_end, update_tx. wstep. eapply wp_get_tx; [done|].
  destruct (storage_fails env); [apply wp_throw; apply (log_failed e); by rewrite Hcs|]. repeat wstep.
  unfold done_, after_commit_step, commits, commit_of. rewrite Hcs, Htx. change {| c_begin := _ |} with (record_of tx e).
  eapply (commit_moves g st HI t tx Htx _ m); try done; [cbn; by rewrite Hcs| |cbn; by rewrite lookup_alter_eq, Htx].
  eapply (own_frame_quiet t st _ tx (set_state (Committed e) tx)); try done; [by apply off_alter|cbn; by rewrite lookup_alter_eq, Htx].
Qed.

Lemma own_NoDup : NoDup (write_set tx).
Proof. by destruct (i_tx _ (inv_txs _ (proj1 HI)) _ _ (abs_fwd g _ _ _ Htx)) as (_ & _ & _ & ?). Qed.
(** Rewriting the rows of [ids] takes the transaction's id out of them. *)
Lemma rewrite_moves e ids m' f S :
  state tx = Committed e -> NoDup ids -> drained t S (abs g st) -> state_ok (Some (m', f)) (Committed e) ->
  let st' := set_rows (foldr (fun id m => alter (map (rewrite_txid_to_timestamp t e)) id m) (rows st) ids) st in
  (drained t (fun r => S r /\ r ∉ ids) (abs (set_mode t m' f g) st') ->
     progress (Some (m', f)) (write_set tx) t (abs (set_mode t m' f g) st')) ->
  moves g st (set_mode t m' f g) st'.
Proof.
  intros Hst Hnd HS Hok st' Hpr. destruct (own_inv g st HI t tx Htx) as [K1 K2 _ _ K3 K4 K5].
  assert (Hph : x_phase (abs_tx g t tx) = Com e) by (cbn; by rewrite Hst).
  assert (Ha : abs (set_mode t m' f g) st' = set_arows (abs g st) (map_rows (rewrite_txid_to_timestamp t e) ids (rows st))).
  { unfold abs, set_arows. cbn. f_equal. apply abs_txs_ext. intros u. destruct (txs st !! u) as [tu|] eqn:Hu; [|done].
    unfold abs_tx. cbn. destruct (decide (u = t)) as [->|]; [|by rewrite lookup_insert_ne]. rewrite Htx in Hu. injection Hu as <-. by rewrite Hst. }
  assert (Hb : bsteps (abs g st) (abs (set_mode t m' f g) st')).
  { apply abs_step; [done|]. rewrite Ha. by apply (a_rewrite (abs g st) t (abs_tx g t tx) e); [apply abs_fwd|..]. }
  assert (Hdr : drained t (fun r => S r /\ r ∉ ids) (abs (set_mode t m' f g) st')).
  { rewrite Ha. destruct HS as [Hlt HS]. split; [done|]. intros x Hx. destruct (HS x Hx) as [He HS']. split; [done|]. intros r v Hv Href.
    rewrite (achain_map_rows (abs g st)) in Hv by done. case_decide as Hr; [|split; [by eapply HS'|done]].
    apply list_elem_of_fmap in Hv as (v0 & -> & _). by apply stamp_refers in Href as [_ ?]. }
  eapply (own_Inv _ _ _ _ t); [done|done| |apply own_set_mode|apply (own_lt g st HI t tx Htx)|by eauto|].
  - split; auto; [apply off_refl| |by apply lock_step_same]. by apply (rows_step_map t st st' (rewrite_txid_to_timestamp t e) ids), rewrite_step.
  - cbn. rewrite Htx. intros tx' [= <-]. split; rewrite ?set_mode_at; try done; [by rewrite Hst| |by rewrite Hst|by eauto].
    intros _ Hh. exfalso. revert Hok Hh. unfold state_ok, holds_lock. destruct (cs m'); try done. by intros [|[_ []]].
Qed.
Lemma drained_mono u (S S' : RowID -> Prop) a : drained u S a -> (forall r, S r -> S' r) -> drained u S' a.
Proof. intros [H1 H2] HS. split; [done|]. intros x Hx. destruct (H2 x Hx). split; [done|]. eauto. Qed.
Lemma elem_of_drop_batch {A} (r : A) (c n : nat) (l : list A) :
  r ∈ drop c l -> r ∉ take n (drop c l) -> r ∈ drop (c + length (take n (drop c l))) l.
Proof.
  intros Hin Hni. rewrite <- (take_drop n (drop c l)), elem_of_app in Hin. destruct Hin as [|Hin]; [done|].
  rewrite length_take. destruct (Nat.le_ge_cases n (length (drop c l))).
  - rewrite Nat.min_l by done. by rewrite <- drop_drop.
  - rewrite drop_ge in Hin by done. by apply not_elem_of_nil in Hin.
Qed.
Lemma rewrite_wp e c : cs m = RewriteLiveVersions e c -> wp (commit_rewrite t e c m) st done_ failed_.
Proof.
  intros Hcs. destruct (own_inv g st HI t tx Htx) as [_ _ _ _ _ K4 K5]. rewrite Hm in K4, K5. cbn in K4, K5. rewrite Hcs in K4, K5.
  destruct K4 as [_ K4]. unfold commit_rewrite, map_chains. wstep. eapply wp_get_tx; [done|]. do 2 wstep; [by rewrite (bool_decide_true (_ = Committed e)), orb_true_r|].
  cbv zeta. do 2 wstep. set (batch := take _ _). assert (Hnd : NoDup batch).
  { eapply sublist_NoDup; [apply own_NoDup|]. etrans; [apply sublist_take|apply sublist_drop]. }
  case_bool_decide as Hlt; wstep; unfold done_; rewrite step_ok by (unfold commits; by rewrite Hcs).
  - eapply rewrite_moves; [done|done|done|done|]. intros Hd. eapply drained_mono; [exact Hd|]. intros r [Hin Hni]. by apply elem_of_drop_batch.
  - eapply rewrite_moves; [done|done|done|done|]. intros Hd. eapply drained_mono; [exact Hd|]. intros r [Hin Hni].
    apply (elem_of_drop_batch r c MVCC_COMMIT_BATCH_SIZE) in Hin; [|done]. rewrite drop_ge in Hin by (fold batch; lia). by apply not_elem_of_nil in Hin.
Qed.

Lemma finalize_wp e : cs m = FinalizeCommit e -> wp (commit_finalize t e m) st done_ failed_.
Proof.
  intros Hcs. destruct (own_inv g st HI t tx Htx) as [_ _ _ _ _ K4 K5]. rewrite Hm in K4, K5. cbn in K4, K5. rewrite Hcs in K4, K5.
  destruct K4 as [_ K4]. assert (Hni : t ∉ elements (commit_dep_set tx)).
  { rewrite elem_of_elements. intros Hin. by destruct (i_dep _ (inv_txs _ (proj1 HI)) _ _ t (abs_fwd g _ _ _ Htx)). }
  unfold commit_finalize, update_tx, notify. wstep. eapply wp_get_tx; [done|]. do 5 wstep. set (st1 := set_txs _ _).
  assert (Htx1 : txs st1 !! t = Some (set_commit_dep_set ∅ tx)).
  { cbn. by rewrite foldr_alter_notin, lookup_alter_eq, Htx. }
  eapply wp_conseq; [eapply unlock_wp; [done|exact (held_locked _ _ _ _ HI Htx)]| |done]. intros _ st2 (m2 & -> & Ho2 & Hm2). do 2 wstep. cbv zeta. do 3 wstep.
  set (b := negb _ && _) in *. eapply (wp_conseq _ _ (fun _ st' => exists o, st' = set_global_header o (set_last_committed_tx_ts (Z.max (last_committed_tx_ts st) e)
    (set_pager_commit_lock b (set_txs m2 st1))) /\ is_Some o) _ (fun _ _ => False)); [| |done].
  { destruct (own_header g st HI t tx Htx) as [hd Hhd]. case_match; wstep; [by eauto|]. exists (Some hd). split; [|by eauto]. unfold st1. destruct st. cbn in *. by rewrite Hhd. }
  intros _ st3 (o & -> & Ho). wstep.
  eapply (wp_conseq _ _ (fun _ st' => exists z, st' = set_last_committed_schema_change_ts z (set_global_header o
    (set_last_committed_tx_ts (Z.max (last_committed_tx_ts st) e) (set_pager_commit_lock b (set_txs m2 st1))))) _ (fun _ _ => False)); [| |done].
  { case_match; wstep; [by eexists|]. exists (last_committed_schema_change_ts st). by destruct st. }
  intros _ st4 (z & ->). do 3 wstep. eapply wp_conseq; [apply release_if_wp| |done]. intros _ st5 (ex & -> & Hex). wstep.
  eapply wp_conseq; [by eapply (remove_tx_wp _ t (set_pager_commit_lock_held false (set_commit_dep_set ∅ tx)))| |done].
  intros _ st6 (m6 & fin & -> & Ho6 & Hfin). wstep. unfold done_. rewrite step_ok by (unfold commits; by rewrite Hcs).
  eapply (finish_moves g st HI t tx Htx); [done| | |done|apply own_set_mode|done].
  - destruct K5 as [_ K5]. destruct (K5 _ (abs_fwd g _ _ _ Htx)) as [_ Hno]. intros r v Hv. specialize (Hno r v Hv). unfold refers in Hno. tauto.
  - split; cbn; try done; [|by apply rows_step_same|exact (unlocked st t tx Htx)]. apply off_delete. eapply off_trans; [|done]. eapply off_trans; [|done].
    cbn. by apply off_foldr, off_alter.
Qed.
End machine_steps.

Lemma commit_step_wp g st t tx m env :
  Inv g st -> txs st !! t = Some tx -> g_modes g !! t = Some (m, false) ->
  wp (commit_step t env m) st (fun m' st' => moves g st (after_commit_step t m (Ok m') st g) st')
     (fun e st' => moves g st (after_commit_step t m (Err e) st g) st').
Proof.
  intros HI Htx Hm. destruct (cs m) eqn:Hcs; [..|].
  4: by eapply build_log_wp.
  all: unfold commit_step; rewrite Hcs.
  - by eapply initial_wp.
  - by eapply validate_wp.
  - by eapply wait_wp.
  - by eapply begin_log_wp.
  - destruct (storage_fails env); [apply wp_throw; eapply log_failed|wstep; eapply log_step_same]; try done; rewrite Hcs; done.
  - destruct (storage_fails env); [apply wp_throw; eapply log_failed|wstep; eapply log_step_same]; try done; rewrite Hcs; done.
  - destruct (storage_fails env); [apply wp_throw; eapply log_failed|wstep; eapply log_step_same]; try done; rewrite Hcs; done.
  - destruct (storage_fails env); [apply wp_throw; eapply log_failed|wstep; eapply log_step_same]; try done; rewrite Hcs; done.
  - by eapply end_log_wp.
  - by eapply commit_end_wp.
  - by eapply rewrite_wp.
  - by eapply finalize_wp.
  - pose proof (k_state _ _ _ _ (c_txs _ _ (proj2 HI) _ _ Htx)) as Hs. rewrite Hm in Hs. cbn in Hs. by rewrite Hcs in Hs.
Qed.
(** The machine of a transaction that is gone changes nothing. *)
Lemma commit_step_absent t env m st : txs st !! t = None -> exists r, commit_step t env m st = (r, st) /\ is_panic r = false.
Proof.
  intros Hno. unfold commit_step, commit_initial, commit_validate, commit_wait, commit_begin_log, commit_end_log, commit_end, commit_rewrite, commit_finalize.
  assert (Hget : get_tx t st = (Err NoSuchTransactionID, st)) by (unfold get_tx; by rewrite Hno).
  destruct (cs m); unfold mbind, ST_bind, sget; rewrite ?Hno, ?Hget; try (by eexists); try (by case_match; eexists).
  destruct (is_exclusive_tx t st); [by eexists|]. rewrite Hget. by eexists.
Qed.
Lemma absent_after g st t env m r st' :
  Inv g st -> txs st !! t = None -> g_modes g !! t = Some (m, false) -> commit_step t env m st = (r, st') ->
  is_panic r = false /\ moves g st (after_commit_step t m r st g) st'.
Proof.
  intros HI Hno Hm Hs. destruct (commit_step_absent t env m st Hno) as (r0 & Hr & Hp). rewrite Hr in Hs. injection Hs as <- <-. split; [done|].
  assert (Hlt : t < tx_ids st).
  { destruct (Z.lt_ge_cases t (tx_ids st)); [done|]. destruct (c_fresh _ _ (proj2 HI) t) as [H0 _]; [done|]. congruence. }
  unfold after_commit_step, commit_of. rewrite Hno. destruct r0 as [m'|e|]; [|by apply absent_moves|done].
  destruct (commits m m'); by apply absent_moves.
Qed.

Lemma rollback_ok g st t tx r st' :
  Inv g st -> txs st !! t = Some tx -> is_live tx = true -> rollback_tx t st = (r, st') ->
  is_panic r = false /\ moves g st g st' /\ txs st' !! t = None.
Proof. intros HI Htx Hl Hr. pose proof (wp_run _ _ _ _ _ _ (rollback_tx_wp g st t tx HI Htx Hl) Hr) as H. by destruct r. Qed.

Lemma idle_live g st t tx :
  Inv g st -> txs st !! t = Some tx -> (forall m, g_modes g !! t <> Some (m, false)) -> is_live tx = true.
Proof.
  intros HI Htx Hm. pose proof (k_state _ _ _ _ (c_txs _ _ (proj2 HI) _ _ Htx)) as Hs. unfold is_live, state_ok in *.
  destruct (g_modes g !! t) as [[m []]|] eqn:Hg; [|by destruct (Hm m)|by rewrite Hs].
  destruct (cs m); try (by rewrite Hs); try (by destruct Hs); by destruct Hs as [->|[_ [e ->]]].
Qed.

Lemma committed_drop_wp g st t tx m e :
  Inv g st -> txs st !! t = Some tx -> state tx = Committed e -> commit_dep_set tx = ∅ ->
  wp (tx ← expect_tx t;
      _ ← map_chains (rewrite_txid_to_timestamp t e) (write_set tx);
      _ ← unlock_commit_lock_if_held t;
      st ← sget;
      _ ← (if is_exclusive_tx t st then release_exclusive_tx t else mret tt);
      remove_tx t) st (fun _ st' => moves g st (set_mode t m true g) st') (fun _ _ => False).
Proof.
  intros HI Htx Hst Hd. wstep. eapply wp_expect_tx; [done|]. unfold map_chains. do 3 wstep. set (st1 := set_rows _ _).
  set (m1 := at_state m (FinalizeCommit e)). assert (Hmv : moves g st (set_mode t m1 false g) st1).
  { eapply (rewrite_moves g st HI t tx Htx e _ m1 false (fun r => r ∈ write_set tx)); [done|by eapply own_NoDup| |done|].
    - split; [by apply (own_lt g st HI t tx)|]. intros x (ty & Hty & ->)%abs_back. rewrite Htx in Hty. injection Hty as <-.
      split; [exists e; cbn; by rewrite Hst|]. intros r v Hv Href.
      destruct (v_ref _ _ _ (inv_rows _ (proj1 HI) r v Hv) t Href) as (y & (d & Hd' & ->)%abs_back & Hin). rewrite Htx in Hd'. by injection Hd' as <-.
    - intros Hdr. eapply drained_mono; [exact Hdr|]. intros r [? ?]. done. }
  pose proof Hmv as [HI1 _]. assert (Htx1 : txs st1 !! t = Some tx) by done.
  eapply wp_conseq; [eapply unlock_wp; [done|exact (held_locked _ _ _ _ HI Htx)]| |done]. intros _ st2 (m2 & -> & Ho2 & Hm2). do 3 wstep.
  eapply wp_conseq; [apply release_if_wp| |done]. intros _ st3 (ex & -> & Hex).
  eapply wp_conseq; [by eapply (remove_tx_wp _ t (set_pager_commit_lock_held false tx))| |done]. intros _ st4 (m4 & fin & -> & Ho4 & Hfin).
  eapply moves_trans; [done|]. eapply (finish_moves _ st1 HI1 t tx Htx1); [done| | |done| |done].
  - pose proof (k_progress _ _ _ _ (c_txs _ _ (proj2 HI1) _ _ Htx1)) as Hpr. rewrite set_mode_at in Hpr. destruct Hpr as [_ Hpr].
    destruct (Hpr _ (abs_fwd _ _ _ _ Htx1)) as [_ Hno]. intros r v Hv. specialize (Hno r v Hv). unfold refers in Hno. tauto.
  - split; cbn; try done; [|by apply rows_step_same|exact (unlocked st1 t tx Htx1)]. rewrite Hd, elements_empty. apply off_delete. by eapply off_trans.
  - split; [|done]. intros u Hne. cbn. by rewrite !lookup_insert_ne.
Qed.
(** A commit is dropped that has committed and still has dependents. *)
Definition stranding (t : TxID) (st : MvStore) : Prop :=
  exists tx e, txs st !! t = Some tx /\ state tx = Committed e /\ commit_dep_set tx <> ∅.
Lemma wp_total {A} (p : MV A) st Q : wp p st Q (fun _ _ => False) -> exists a st', p st = (Ok a, st') /\ Q a st'.
Proof. unfold wp. destruct (p st) as [[a|e|] st']; [|done..]. eauto. Qed.
Lemma remove_tx_panics t st tx : txs st !! t = Some tx -> commit_dep_set tx <> ∅ -> fst (remove_tx t st) = Panic.
Proof.
  intros Htx Hd. unfold remove_tx. rewrite (sbind_eq sget _ st st st eq_refl), Htx. unfold mbind, ST_bind, update_tx, smodify, sassert.
  destruct (state tx); try (by rewrite bool_decide_false). case_decide; by rewrite bool_decide_false.
Qed.
Lemma stranding_panics g st t : Inv g st -> stranding t st -> fst (cleanup_dropped_commit t st) = Panic.
Proof.
  intros HI (tx & e & Htx & Hst & Hd). unfold cleanup_dropped_commit. rewrite (sbind_eq sget _ st st st eq_refl), Htx. cbn [fmap option_fmap option_map]. rewrite Hst.
  destruct (wp_total (expect_tx t) st (fun a s => a = tx /\ s = st)) as (? & ? & He & -> & ->); [by eapply wp_expect_tx|]. rewrite (sbind_eq _ _ _ _ _ He).
  erewrite (sbind_eq (map_chains _ _)) by done. set (st1 := set_rows _ st). assert (Htx1 : txs st1 !! t = Some tx) by done.
  destruct (wp_total _ _ _ (unlock_wp st1 t tx Htx1 (held_locked g st t tx HI Htx))) as (? & st2 & Hu & m2 & -> & _ & Hm2). rewrite (sbind_eq _ _ _ _ _ Hu).
  set (st2 := set_pager_commit_lock _ _). rewrite (sbind_eq sget _ st2 st2 st2 eq_refl).
  destruct (wp_total _ _ _ (release_if_wp st2 t)) as (? & st3 & Hrel & ex & -> & _). rewrite (sbind_eq _ _ _ _ _ Hrel). by eapply remove_tx_panics.
Qed.
Lemma drop_ok g st t m r st' :
  Inv g st -> g_modes g !! t = Some (m, false) -> ~ stranding t st -> cleanup_dropped_commit t st = (r, st') ->
  is_panic r = false /\ moves g st (set_mode t m true g) st'.
Proof.
  intros HI Hm Hdr Hr. assert (Hlt : t < tx_ids st).
  { destruct (Z.lt_ge_cases t (tx_ids st)); [done|]. destruct (c_fresh _ _ (proj2 HI) t) as [H0 _]; [done|]. congruence. }
  destruct (txs st !! t) as [tx|] eqn:Htx.
  - destruct (is_live tx) eqn:Hl.
    + assert (Hrb : rollback_tx t st = (r, st')).
      { rewrite <- Hr. unfold cleanup_dropped_commit, mbind, ST_bind, sget. rewrite Htx. unfold is_live in Hl. cbn. by destruct (state tx). }
      destruct (rollback_ok g st t tx r st' HI Htx Hl Hrb) as (Hp & Hmv & Hno). split; [done|]. eapply moves_trans; [done|].
      apply absent_moves; [apply Hmv|done|]. destruct Hmv as [_ Hb%bsteps_next]. cbn in Hb. lia.
    + destruct (Inv_state _ _ _ _ HI Htx) as [Hs1 Hs2]. unfold is_live in Hl. destruct (state tx) as [| | | |e] eqn:Hst; try done.
      assert (Hde : commit_dep_set tx = ∅) by (destruct (decide (commit_dep_set tx = ∅)); [done|]; destruct Hdr; by exists tx, e).
      assert (Hd : match r with Ok _ => moves g st (set_mode t m true g) st' | Err _ => False | Panic => False end); [|by destruct r].
      eapply (wp_run _ _ _ _ r st' (committed_drop_wp g st t tx m e HI Htx Hst Hde)). rewrite <- Hr. unfold cleanup_dropped_commit.
      rewrite (sbind_eq sget _ st st st eq_refl). rewrite Htx. cbn [fmap option_fmap option_map]. by rewrite Hst.
  - assert (Hr' : (if is_exclusive_tx t st then release_exclusive_tx t else mret tt) st = (r, st')).
    { rewrite <- Hr. unfold cleanup_dropped_commit, mbind, ST_bind, sget. by rewrite Htx. }
    pose proof (wp_run _ _ _ _ _ _ (release_if_wp st t) Hr') as H. destruct r; [|done..]. destruct H as (ex & -> & Hex). split; [done|].
    eapply (own_Inv _ _ _ _ t); [done| | |apply own_set_mode|done|done|cbn; intros; congruence].
    + assert (abs (set_mode t m true g) (set_exclusive_tx ex st) = abs g st) as ->; [|apply rtc_refl]. unfold abs. cbn. f_equal.
      eapply abs_txs_mode; [apply own_set_mode|done].
    + split; auto; [apply off_refl|by apply rows_step_same|by apply lock_step_same].
Qed.

(** * Garbage collection and the rest *)

Lemma compute_lwm_le st t tx : txs st !! t = Some tx -> is_live tx = true -> compute_lwm st <= begin_ts tx.
Proof.
  unfold compute_lwm. revert t tx. apply (map_fold_weak_ind (fun r m => forall t tx, m !! t = Some tx -> is_live tx = true -> r <= begin_ts tx)).
  - by intros t tx ?%lookup_empty_Some.
  - intros u tu m r Hu IH t tx [[-> ->]|[Hne Htx]]%lookup_insert_Some Hl; [rewrite Hl; lia|]. specialize (IH t tx Htx Hl). case_match; lia.
Qed.

(** What is done on behalf of no transaction. *)
Lemma background_moves g st g' st' :
  Inv g st -> bsteps (abs g st) (abs g' st') -> txs st' = txs st -> tx_ids st' = tx_ids st -> exclusive_tx st' = exclusive_tx st ->
  pager_commit_lock st' = pager_commit_lock st -> g_modes g' = g_modes g -> (forall u, g_reads g !! u = None -> g_reads g' !! u = None) ->
  rows_step (-1) st st' -> (is_Some (global_header st) -> is_Some (global_header st')) ->
  (forall u s, finalized_tx_states st' !! u = Some s -> finalized_tx_states st !! u = Some s) -> moves g st g' st'.
Proof.
  intros HI Hb Ht Hid He Hl Hm Hr Hrs Hh Hf. pose proof HI as [Hi Hc]. split; [|done]. split; [by eapply bsteps_inv|].
  eapply (cinv_step (-1)); [done|done| | | |rewrite Hid; apply Hc].
  - split; rewrite ?He, ?Hm, ?Ht; try done; auto.
    + intros u tx _ Hu. exists tx. split; [done|apply untouched_refl].
    + apply lock_step_same; [done| |apply Hc]. intros (tx & Htx & Hh'). exists tx. by rewrite <- Ht.
    + rewrite Hid. pose proof (i_next _ (inv_txs _ Hi)) as [? _]. cbn in *. lia.
  - rewrite Ht. intros tx Htx. destruct (i_tx _ (inv_txs _ Hi) _ _ (abs_fwd g _ _ _ Htx)) as (? & _). cbn in *. lia.
  - rewrite Hid, Hm. intros u Hu. destruct (c_fresh _ _ Hc u Hu). auto.
Qed.
Lemma forget_abs id g st : abs (forget_reads id g) st = forget id (abs g st).
Proof.
  unfold abs, forget, set_atxs. cbn. f_equal. apply map_eq. intros u. rewrite lookup_fmap, !abs_lookup. destruct (txs st !! u); [|done]. cbn. f_equal.
  unfold abs_tx, with_reads. cbn. rewrite lookup_fmap. f_equal. destruct (g_reads g !! u); [done|]. cbn. by rewrite delete_empty.
Qed.
(** A pass over the chains of [ids], one transition for each. *)
Lemma gc_moves g st passive ids : Inv g st -> NoDup ids -> moves g st (after_gc passive st ids g) (gc_chains passive ids st).
Proof.
  intros HI Hnd. unfold gc_chains. set (lwm := compute_lwm st). set (mark := pos_min _ _).
  set (f := fun vs => gc_version_chain vs lwm (durable_txid_max st) passive mark).
  induction ids as [|id ids IH]; [apply moves_same; split; [by destruct st|done]|].
  pose proof (foldr_alter_lookup f ids (rows st) id) as Hoff. apply list.NoDup_cons in Hnd as [Hni Hnd]. specialize (Hoff Hnd). rewrite decide_False in Hoff by done.
  eapply moves_trans; [by apply IH|]. destruct (IH Hnd) as [HI1 _]. set (st1 := set_rows (foldr _ (rows st) ids) st) in *.
  set (g1 := after_gc passive st ids g) in *. set (st2 := set_rows _ st).
  assert (Hs : astep (abs g1 st1) (abs (after_gc passive st (id :: ids) g) st2)).
  { pose proof (a_gc (abs g1 st1) id lwm (durable_txid_max st) passive mark) as Hgc.
    replace (abs (after_gc _ _ _ _) st2) with (set_arows (if leaves_for_btree (achain (abs g1 st1) id) lwm (durable_txid_max st) passive mark then forget id (abs g1 st1)
      else abs g1 st1) (alter f id (a_rows (abs g1 st1)))); [apply Hgc|].
    - intros t x (tx & Htx & ->)%abs_back Hp. apply (compute_lwm_le st t tx Htx). cbn in Hp. unfold is_live. unfold phase_of in Hp.
      destruct (Inv_state _ _ _ _ HI Htx). by destruct (state tx).
    - cbn [after_gc foldr]. fold (after_gc passive st ids g). fold g1. unfold collected. fold lwm mark.
      replace (achain (abs g1 st1) id) with (chain st id); [|unfold achain, chain; cbn; by rewrite Hoff].
      destruct (leaves_for_btree (chain st id) lwm (durable_txid_max st) passive mark); [rewrite <- forget_abs|]; done. }
  eapply background_moves; try done; [by apply abs_step| | |].
  - cbn. by destruct (collected _ _ _).
  - cbn. fold (after_gc passive st ids g). fold g1. destruct (collected _ _ _); [|done]. cbn. intros u. rewrite lookup_fmap. by intros ->.
  - apply rows_step_sub; [done|]. intros r. destruct (decide (r = id)) as [->|Hne].
    + destruct (gc_version_chain_filter (chain st1 id) lwm (durable_txid_max st) passive mark) as (keep & Hk & _). exists (fun v => v), keep. split; [|done].
      rewrite List.map_id, <- Hk. unfold chain. cbn. rewrite lookup_alter_eq. fold f. by destruct (foldr _ _ _ !! id).
    + exists (fun v => v), (fun _ => true). split; [|done]. unfold chain. cbn. rewrite lookup_alter_ne by done. by rewrite List.map_id, filter_all.
Qed.
Lemma stamp_moves g st at_frame snapshot_ts ids : Inv g st -> NoDup ids -> moves g st g (stamp_chains at_frame snapshot_ts ids st).
Proof.
  intros HI Hnd. set (st' := stamp_chains _ _ _ _).
  assert (Hc : forall r, exists f, chain st' r = map f (chain st r) /\ forall v, exists pos, f v = set_materialized_at v pos).
  { intros r. unfold chain. cbn. rewrite foldr_alter_lookup by done. case_decide.
    - unfold stamp_chain_materialized. destruct (rows st !! r) as [vs|]; cbn; [eexists; split; [done|]|exists (fun v => v); split; [done|]].
      + intros v. cbv beta. repeat case_match; first [by eexists|exists (materialized_at v); by destruct v|idtac].
      + intros v. exists (materialized_at v). by destruct v.
    - exists (fun v => v). split; [by rewrite List.map_id|]. intros v. exists (materialized_at v). by destruct v. }
  eapply background_moves; try done.
  - apply abs_step; [done|]. apply (a_stamp (abs g st)). intros r. destruct (Hc r) as (f & Hr & Hf). change (default [] (rows st' !! r)) with (chain st' r).
    rewrite Hr. change (achain (abs g st) r) with (chain st r). apply Forall2_fmap_r, Forall_Forall2_diag, Forall_true. intros v. apply Hf.
  - apply rows_step_sub; [done|]. intros r. destruct (Hc r) as (f & Hr & Hf). exists f, (fun _ => true). split.
    + by rewrite filter_all.
    + intros v _ _. destruct (Hf v) as [pos ->]. by split.
Qed.
Lemma finish_checkpoint_moves g st snapshot_ts backfill : Inv g st -> moves g st g (finish_checkpoint snapshot_ts backfill st).
Proof. intros HI. eapply background_moves; try done. by apply rows_step_same. Qed.
Lemma publish_moves g st snapshot_ts h : Inv g st -> moves g st g (publish_checkpoint snapshot_ts h st).
Proof. intros HI. eapply background_moves; try done. by apply rows_step_same. Qed.
Lemma prune_moves g st : Inv g st -> moves g st g (prune_finalized_tx_states st).
Proof.
  intros HI. eapply background_moves; try done; [by apply rows_step_same|]. by intros t s [Hs _]%map_lookup_filter_Some.
Qed.
Lemma snapshot_wp g st : Inv g st -> wp checkpoint_snapshot_ts st (fun _ st' => moves g st g st') (fun _ _ => False).
Proof.
  intros HI. unfold checkpoint_snapshot_ts, get_timestamp. repeat wstep. apply tick_Inv; cbn; try done; try lia. apply (c_bound _ _ (proj2 HI)).
Qed.

(** * Rolling back savepoints *)

(** The chain of row [r] without the versions of [cs], and with those of [ds] alive again. *)
Definition cut (cs : list (RowID * Z)) (r : RowID) (v : RowVersion) : bool := negb (bool_decide ((r, rv_id v) ∈ cs)).
Definition revive (ds : list (RowID * Z)) (r : RowID) (v : RowVersion) : RowVersion :=
  if bool_decide ((r, rv_id v) ∈ ds) then set_end v None else v.
Lemma revive_id ds r v : rv_id (revive ds r v) = rv_id v.
Proof. unfold revive. by case_bool_decide. Qed.
Lemma removed_chain c st r : chain (remove_created st c) r = List.filter (cut [c] r) (chain st r).
Proof.
  destruct c as [r0 i]. unfold remove_created, chain. cbn. destruct (decide (r0 = r)) as [->|Hne].
  - destruct (rows st !! r) as [l|] eqn:Hl; cbn; [rewrite lookup_insert_eq|by rewrite Hl]. cbn. clear Hl. induction l as [|v l IH]; [done|]. rewrite filter_cons. cbn.
    unfold cut at 1. rewrite IH. destruct (decide (rv_id v = i)) as [->|Hi]; [rewrite decide_False, bool_decide_true by set_solver; done|].
    rewrite decide_True, bool_decide_false by set_solver. done.
  - assert (Hid : forall l, l = List.filter (cut [(r0, i)] r) l).
    { induction l as [|v l IH]; [done|]. cbn. unfold cut at 1. rewrite bool_decide_false by set_solver. cbn. by rewrite <- IH. }
    rewrite <- Hid. destruct (rows st !! r0); [|done]. cbn. by rewrite lookup_insert_ne.
Qed.
Lemma cut_cons c cs r v : cut (c :: cs) r v = cut [c] r v && cut cs r v.
Proof. unfold cut. repeat case_bool_decide; set_solver. Qed.
Lemma filter_cut cs c r l : List.filter (cut cs r) (List.filter (cut [c] r) l) = List.filter (cut (c :: cs) r) l.
Proof.
  induction l as [|v l IH]; [done|]. cbn [List.filter]. rewrite (cut_cons c cs). destruct (cut [c] r v); cbn [andb List.filter]; rewrite IH; done.
Qed.
Lemma removed_all cs st :
  exists m n, foldl remove_created st cs = set_live_version_count_approx n (set_rows m st) /\
    forall r, default [] (m !! r) = List.filter (cut cs r) (chain st r).
Proof.
  revert st. induction cs as [|c cs IH]; intros st; cbn [foldl].
  - exists (rows st), (live_version_count_approx st). split; [by destruct st|]. intros r. by rewrite filter_all.
  - destruct (IH (remove_created st c)) as (m & n & -> & Hm). exists m, n. split; [unfold remove_created; by destruct (rows st !! _)|].
    intros r. by rewrite Hm, removed_chain, filter_cut.
Qed.
Lemma map_unchanged {A} (f : A -> A) l : (forall x, x ∈ l -> f x = x) -> map f l = l.
Proof. induction l as [|x l IH]; intros H; cbn; [done|]. rewrite H by left. f_equal. apply IH. intros y Hy. apply H. by right. Qed.
Lemma restore_first_map r i l : NoDup (rv_id <$> l) -> restore_first i l = map (revive [(r, i)] r) l.
Proof.
  induction l as [|v l IH]; [done|]. cbn [fmap list_fmap restore_first map]. intros [Hni Hnd]%list.NoDup_cons. unfold revive at 1.
  destruct (rv_id v =? i) eqn:Hi; zbool.
  - subst i. rewrite bool_decide_true by set_solver. f_equal. symmetry. apply map_unchanged. intros w Hw. unfold revive. rewrite bool_decide_false; [done|].
    intros Heq%list_elem_of_singleton. injection Heq as Heq. apply Hni. rewrite <- Heq. by apply list_elem_of_fmap_2.
  - rewrite bool_decide_false by set_solver. f_equal. by apply IH.
Qed.
Lemma restored_chain d st r : NoDup (rv_id <$> chain st d.1) -> chain (restore_deleted st d) r = map (revive [d] r) (chain st r).
Proof.
  destruct d as [r0 i]. unfold restore_deleted, chain. cbn. intros Hnd. destruct (decide (r0 = r)) as [->|Hne].
  - destruct (rows st !! r) as [l|] eqn:Hl; cbn; [rewrite lookup_insert_eq|by rewrite Hl]. cbn in *. by apply restore_first_map.
  - rewrite map_unchanged; [destruct (rows st !! r0); [|done]; cbn; by rewrite lookup_insert_ne|].
    intros v _. unfold revive. by rewrite bool_decide_false by set_solver.
Qed.
Lemma map_revive ds d r l : map (revive ds r) (map (revive [d] r) l) = map (revive (d :: ds) r) l.
Proof.
  induction l as [|v l IH]; [done|]. cbn. rewrite IH. f_equal. unfold revive at 1. rewrite revive_id. unfold revive.
  repeat case_bool_decide; set_solver.
Qed.
Lemma restored_all ds st :
  (forall r, NoDup (rv_id <$> chain st r)) ->
  exists m, foldl restore_deleted st ds = set_rows m st /\ forall r, default [] (m !! r) = map (revive ds r) (chain st r).
Proof.
  revert st. induction ds as [|d ds IH]; intros st Hnd; cbn [foldl].
  - exists (rows st). split; [by destruct st|]. intros r. by rewrite map_unchanged.
  - destruct (IH (restore_deleted st d)) as (m & -> & Hm).
    + intros r. rewrite restored_chain by done. assert (rv_id <$> map (revive [d] r) (chain st r) = rv_id <$> chain st r) as ->; [|done].
      rewrite <- list_fmap_compose. apply list_fmap_ext. intros i v _. apply revive_id.
    + exists m. split; [unfold restore_deleted; by destruct (rows st !! _)|]. intros r. by rewrite Hm, restored_chain, map_revive.
Qed.

(** A savepoint's changes are undone: those of the savepoints below can be, too. *)
Section undo_savepoint.
Context (g : ghost) (st : MvStore) (HI : Inv g st) (t : TxID) (tx : Transaction) (Htx : txs st !! t = Some tx) (Hm : g_modes g !! t = None).
Context (sp : Savepoint) (Hsp : stack_ok st t [sp]) (m : gmap RowID (list RowVersion)).
Let cs := created_table_versions sp.
Let ds := deleted_table_versions sp.
Context (Hrows : forall r, default [] (m !! r) = map (revive ds r) (List.filter (cut cs r) (chain st r))).

Lemma undone_entries r v : v ∈ chain st r -> (cut cs r v = false -> created_by t v) /\ ((r, rv_id v) ∈ ds -> ended_by t v).
Proof.
  intros Hv. destruct Hsp as [H1 H2 _]. cbn in H1, H2. rewrite app_nil_r in H1, H2. split.
  - unfold cut. intros Hc%negb_false_iff%bool_decide_eq_true. by apply (H1 _ Hc).
  - intros Hd. by apply (H2 _ Hd).
Qed.
Lemma undone_chain r : undone t (chain st r) (default [] (m !! r)).
Proof.
  rewrite Hrows. pose proof (undone_entries r) as H. revert H. induction (chain st r) as [|v l IH]; intros H; [constructor|]. cbn.
  assert (IH' : undone t l (map (revive ds r) (List.filter (cut cs r) l))) by (apply IH; intros; apply H; by right).
  destruct (H v) as [Hc Hd]; [by left|]. destruct (cut cs r v); [|apply un_drop; auto]. cbn. unfold revive at 1.
  case_bool_decide; [apply un_restore; auto|by apply un_keep].
Qed.
Lemma undone_rows st' : rows st' = m -> version_id_counter st' = version_id_counter st -> rows_step t st st'.
Proof.
  intros Hr Hv. apply rows_step_sub; [done|]. intros r. exists (revive ds r), (cut cs r). split; [unfold chain at 1; by rewrite Hr|].
  intros v Hin _. split; [apply revive_id|]. intros u Hne. unfold revive. case_bool_decide as Hd; [|done].
  destruct (undone_entries r v Hin) as [_ He]. specialize (He Hd). unfold created_by, ended_by in *. cbn. naive_solver congruence.
Qed.
Lemma undone_below st' sps :
  rows st' = m -> version_id_counter st' = version_id_counter st -> stack_ok st t (sp :: sps) -> stack_ok st' t sps.
Proof.
  intros Hr Hv [H1 H2 H3]. rewrite bind_cons in H1, H2, H3. apply list.NoDup_app in H3 as (_ & Hdis & Hnd).
  assert (Hback : forall r v', v' ∈ chain st' r -> exists v, v ∈ chain st r /\ v' = revive ds r v).
  { intros r v'. unfold chain at 1. rewrite Hr, Hrows. intros (v & -> & Hin)%list_elem_of_fmap. rewrite list_elem_of_In, List.filter_In, <- list_elem_of_In in Hin.
    exists v. by destruct Hin. }
  split; [..|done]; intros e He.
  - destruct (H1 e) as [Hlt Hp]; [set_solver|]. split; [lia|]. intros v' (v & Hin & ->)%Hback. rewrite revive_id. intros Hid. specialize (Hp v Hin Hid).
    unfold revive. case_bool_decide as Hd; [|done]. destruct (undone_entries _ v Hin) as [_ Hen]. specialize (Hen Hd). unfold created_by, ended_by in *. cbn. naive_solver.
  - destruct (H2 e) as [Hlt Hp]; [set_solver|]. split; [lia|]. intros v' (v & Hin & ->)%Hback. rewrite revive_id. intros Hid. specialize (Hp v Hin Hid).
    unfold revive. rewrite bool_decide_false; [done|]. rewrite Hid. destruct e as [r i]. intros Hd. by apply (Hdis (r, i)).
Qed.
Lemma untouched_chain (ids : list RowID) r : (forall e, e ∈ cs ++ ds -> e.1 ∈ ids) -> r ∉ ids -> default [] (m !! r) = chain st r.
Proof.
  intros Hids Hni. assert (Hno : forall i, (r, i) ∉ cs ++ ds) by (intros i Hin; by apply Hni, (Hids (r, i))).
  rewrite Hrows, (List.filter_ext _ (fun _ => true)), filter_all.
  - apply map_unchanged. intros v _. unfold revive. by rewrite bool_decide_false by set_solver.
  - intros v. unfold cut. by rewrite bool_decide_false by set_solver.
Qed.
Lemma has_uncommitted st' r : row_has_uncommitted_version_for_tx st' t r = true <-> exists v, v ∈ chain st' r /\ refers v t.
Proof.
  unfold row_has_uncommitted_version_for_tx, refers. rewrite existsb_exists. split; intros (v & Hv & Hb); exists v.
  - rewrite list_elem_of_In. split; [done|]. apply orb_prop in Hb as [Hb|Hb]; apply bool_decide_eq_true in Hb; auto.
  - rewrite <- list_elem_of_In. split; [done|]. apply orb_true_iff. by rewrite !bool_decide_eq_true.
Qed.
Lemma undo_abs st' (ids : list RowID) tx' :
  let ws := filter (fun id => id ∉ ids \/ row_has_uncommitted_version_for_tx st' t id = true) (write_set tx) in
  rows st' = m -> clock st' = clock st -> tx_ids st' = tx_ids st -> off t (txs st) (txs st') -> txs st' !! t = Some tx' ->
  abs_tx g t tx' = with_ws ws (abs_tx g t tx) -> (forall e, e ∈ cs ++ ds -> e.1 ∈ ids) -> bsteps (abs g st) (abs g st').
Proof.
  intros ws Hr Hcl Hid Hoff Htx' Ha Hids. pose proof HI as [Hi Hc]. pose proof (client_active g st HI t tx Htx Hm) as Hact.
  assert (Hph : x_phase (abs_tx g t tx) = Act) by (cbn; by rewrite Hm, Hact). apply abs_step; [done|].
  replace (abs g st') with (set_arows (upd (abs g st) t (with_ws ws (abs_tx g t tx))) m).
  - apply a_undo; [by apply abs_fwd|done|apply sublist_filter|exact undone_chain| |].
    + intros r v Hv Href. apply list_elem_of_filter. split; [right; apply has_uncommitted; exists v; unfold chain; by rewrite Hr|].
      assert (Hold : exists v0, v0 ∈ chain st r /\ refers v0 t).
      { destruct (undone_back _ _ _ _ (undone_chain r) Hv) as [|(v0 & Hv0 & _ & ->)]; [by eauto|]. exists v0. unfold refers in *. cbn in Href. naive_solver. }
      destruct Hold as (v0 & Hv0 & Hr0). destruct (v_ref _ _ _ (inv_rows _ Hi r v0 Hv0) t Hr0) as (y & (ty & Hty & ->)%abs_back & Hin).
      rewrite Htx in Hty. by injection Hty as <-.
    + intros r [[Hni|Hh] Hin]%list_elem_of_filter; [|right; apply has_uncommitted in Hh; unfold chain in Hh; by rewrite Hr in Hh].
      rewrite (untouched_chain ids) by done. apply (i_mark _ (inv_sets _ Hi) t (abs_tx g t tx)); [by apply abs_fwd|by rewrite Hph|done].
  - unfold abs, set_arows, upd. cbn. rewrite Hr, Hcl, Hid, (abs_txs_own g g (txs st) (txs st') t tx'); [by rewrite Ha|done..].
Qed.
Lemma undo_moves mm n (ids : list RowID) d h :
  let st1 := set_live_version_count_approx n (set_rows m st) in
  let ws := filter (fun id => id ∉ ids \/ row_has_uncommitted_version_for_tx st1 t id = true) (write_set tx) in
  off t (txs st) mm -> mm !! t = Some (set_header_dirty d (set_header h (set_write_set ws tx))) ->
  (forall e, e ∈ cs ++ ds -> e.1 ∈ ids) -> (d = true -> exclusive_tx st = t) -> stack_ok st t (sp :: savepoint_stack tx) ->
  moves g st g (set_txs mm st1).
Proof.
  intros st1 ws Hoff Htx' Hids Hd Hsk. pose proof HI as [Hi Hc]. pose proof (client_active g st HI t tx Htx Hm) as Hact.
  assert (Hb : bsteps (abs g st) (abs g (set_txs mm st1))) by by eapply (undo_abs (set_txs mm st1)).
  destruct (c_txs _ _ Hc _ _ Htx) as [K1 K2 K6 K7 K3 K4 K5].
  eapply (own_Inv g st g _ t); [done|done| |by split|exact (tx_old _ _ _ _ HI Htx)|by eauto|].
  - split; auto; [by apply undone_rows|]. apply lock_step_same; [done|]. intros (tx1 & Htx1 & Hh). cbn in Htx1. rewrite Htx' in Htx1.
    injection Htx1 as <-. by exists tx.
  - cbn. rewrite Htx'. intros tx1 [= <-]. split; cbn; rewrite ?Hm; try done.
    + unfold dirty_marks. cbn. intros [He|He]%elem_of_cons; [by apply Hd|]. apply K2. by right.
    + intros _. by apply undone_below.
    + by rewrite <- Hm.
    + intros Hne. destruct Hne. destruct (set_choose_or_empty (commit_dep_set tx)) as [[u Hu]|He]; [|by apply leibniz_equiv].
      destruct (i_dep _ (inv_txs _ Hi) _ _ u (abs_fwd g _ _ _ Htx) Hu) as (_ & _ & e & He & _). exfalso. cbn in He. by rewrite Hm, Hact in He.
Qed.
End undo_savepoint.

Lemma rollback_changes_wp g st t tx sp sps :
  Inv g st -> txs st !! t = Some tx -> g_modes g !! t = None -> stack_ok st t (sp :: sps ++ savepoint_stack tx) ->
  (sp_header_dirty sp = true -> exclusive_tx st = t) ->
  wp (rollback_savepoint_changes t sp) st
    (fun _ st' => moves g st g st' /\ exclusive_tx st' = exclusive_tx st /\
       exists tx', txs st' !! t = Some tx' /\ savepoint_stack tx' = savepoint_stack tx /\ stack_ok st' t (sps ++ savepoint_stack tx')) (fun _ _ => False).
Proof.
  intros HI Htx Hm Hsk Hd. unfold rollback_savepoint_changes, remove_rolled_back_rows_from_write_set, update_tx. do 2 wstep.
  destruct (removed_all (created_table_versions sp) st) as (m1 & n & -> & Hm1). do 2 wstep. set (st1 := set_live_version_count_approx _ _).
  destruct (restored_all (deleted_table_versions sp) st1) as (m2 & -> & Hm2).
  { intros r. unfold chain, st1. cbn. rewrite Hm1. destruct (c_versions _ _ (proj2 HI) r) as [Hnd _]. eapply sublist_NoDup; [exact Hnd|].
    clear. induction (chain st r) as [|v l IH]; cbn; [done|]. case_match; cbn; by constructor. }
  assert (Hrows : forall r, default [] (m2 !! r) = map (revive (deleted_table_versions sp) r) (List.filter (cut (created_table_versions sp) r) (chain st r))).
  { intros r. rewrite Hm2. unfold chain at 1, st1. cbn. by rewrite Hm1. }
  assert (Hsp : stack_ok st t [sp]).
  { revert Hsk. apply stack_ok_regroup; [set_solver|]. rewrite !bind_cons. cbn. rewrite app_nil_r. apply submseteq_inserts_r. done. }
  assert (Hsk0 : stack_ok st t (sp :: savepoint_stack tx)).
  { revert Hsk. apply stack_ok_regroup; [set_solver|]. rewrite !bind_cons, bind_app. apply submseteq_app; [done|]. by apply submseteq_inserts_l. }
  do 4 wstep. set (ids := _ ++ _ ++ _). do 1 wstep. eapply wp_expect_tx; [cbn; by rewrite lookup_alter_eq, Htx|]. repeat wstep. split; [|split; [done|]].
  - eapply (undo_moves g st HI t tx Htx Hm sp Hsp m2 Hrows _ n ids); try done.
    + cbn. intros u Hne. by rewrite !lookup_alter_ne.
    + cbn. by rewrite !lookup_alter_eq, Htx.
    + intros e He. unfold ids. apply elem_of_app in He as [He|He]; rewrite !elem_of_app; [left|right; left]; by apply list_elem_of_fmap_2.
  - cbn. rewrite !lookup_alter_eq, Htx. eexists. split_and!; [done|done|]. cbn. by eapply undone_below.
Qed.
Lemma rollback_all_wp g st t tx sps :
  Inv g st -> txs st !! t = Some tx -> g_modes g !! t = None -> stack_ok st t (sps ++ savepoint_stack tx) ->
  (true ∈ (sp_header_dirty <$> sps) -> exclusive_tx st = t) -> wp (rollback_all t sps) st (fun _ st' => moves g st g st') (fun _ _ => False).
Proof.
  intros HI. revert st tx HI. induction sps as [|sp sps IH]; intros st tx HI Htx Hm Hsk Hd; cbn [rollback_all]; wstep; [by apply moves_same|].
  eapply wp_conseq; [eapply rollback_changes_wp; [done..|]| |done].
  - intros Hs. apply Hd. rewrite fmap_cons, Hs. by left.
  - intros _ st1 (Hmv & He & tx1 & Htx1 & _ & Hsk1). eapply wp_conseq; [eapply (IH st1 tx1); [apply Hmv|done..|]| |done].
    + intros Hs. rewrite He. apply Hd. by right.
    + intros [] st2 Hmv2. by eapply moves_trans.
Qed.
(** The savepoints of a prefix of the stack, taken off it. *)
Lemma rollback_stack_wp g st t tx sps sps' :
  Inv g st -> txs st !! t = Some tx -> g_modes g !! t = None -> stack_ok st t (sps ++ sps') ->
  (true ∈ (sp_header_dirty <$> sps ++ sps') -> true ∈ dirty_marks tx) ->
  wp (rollback_all t sps) (set_txs (alter (fun _ => set_savepoint_stack sps' tx) t (txs st)) st) (fun _ st' => moves g st g st') (fun _ _ => False).
Proof.
  intros HI Htx Hm Hsk Hd. set (st1 := set_txs _ st). rewrite fmap_app in Hd.
  assert (Hs : same g st st1).
  { apply (update_tx_Inv g st t tx); try done.
    - cbn. intros [He|He]%elem_of_cons; left; [rewrite He; by left|]. apply Hd, elem_of_app. by right.
    - intros _. revert Hsk. apply stack_ok_regroup; [set_solver|]. rewrite bind_app. by apply submseteq_inserts_l. }
  eapply wp_conseq; [eapply (rollback_all_wp g st1 t (set_savepoint_stack sps' tx))| |done]; [apply Hs| |done| | |].
  - cbn. by rewrite lookup_alter_eq, Htx.
  - by apply (stack_ok_same st).
  - intros He. apply (k_header g st t tx (c_txs _ _ (proj2 HI) _ _ Htx)), Hd, elem_of_app. by left.
  - intros [] st2 Hmv. eapply moves_trans; [by apply moves_same|done].
Qed.
Lemma rollback_first_wp g st t tx :
  Inv g st -> txs st !! t = Some tx -> g_modes g !! t = None -> wp (rollback_first_savepoint t) st (fun _ st' => moves g st g st') (fun _ _ => False).
Proof.
  intros HI Htx Hm. unfold rollback_first_savepoint. wstep. eapply wp_expect_tx; [done|]. unfold pop_statement_savepoint.
  destruct (savepoint_stack tx) as [|sp sps] eqn:Hs; [wstep; by apply moves_same|]. case_bool_decide; [|wstep; by apply moves_same].
  pose proof (k_stack g st t tx (c_txs _ _ (proj2 HI) _ _ Htx) (client_active g st HI t tx Htx Hm)) as Hsk. rewrite Hs in Hsk.
  assert (H0 := rollback_stack_wp g st t tx [sp] sps HI Htx Hm Hsk). unfold dirty_marks in H0. rewrite Hs in H0. specialize (H0 ltac:(by right)).
  unfold update_tx. do 3 wstep. revert H0. cbn [rollback_all]. unfold wp at 1 2, mbind, ST_bind. by destruct (rollback_savepoint_changes t sp _) as [[] ?].
Qed.
Lemma rollback_to_wp g st t tx name :
  Inv g st -> txs st !! t = Some tx -> g_modes g !! t = None ->
  wp (rollback_to_named_savepoint t name) st (fun _ st' => moves g st g st') (fun _ _ => False).
Proof.
  intros HI Htx Hm. unfold rollback_to_named_savepoint. wstep. eapply wp_expect_tx; [done|]. unfold rollback_to_named.
  destruct (split_at_name name (savepoint_stack tx)) as [[[above target] below]|] eqn:Hs; [|wstep; by apply moves_same].
  apply split_at_name_app in Hs. pose proof (k_stack g st t tx (c_txs _ _ (proj2 HI) _ _ Htx) (client_active g st HI t tx Htx Hm)) as Hsk. rewrite Hs in Hsk.
  rewrite reverse_cons, reverse_involutive. set (fresh := Savepoint_new _ _ _ _).
  unfold update_tx. do 3 wstep. eapply wp_conseq; [apply (rollback_stack_wp g st t tx (above ++ [target]) (fresh :: below)); try done| |done].
  - revert Hsk. rewrite <- app_assoc. cbn [app]. apply stack_ok_regroup; [intros e; by rewrite !bind_app, !bind_cons|]. by rewrite !bind_app, !bind_cons.
  - unfold dirty_marks. rewrite Hs, <- app_assoc, !fmap_app, !fmap_cons. cbn. set_solver.
  - intros [] st' Hmv. by wstep.
Qed.

(** A call that leaves the abstract state as it is, but for registrations. *)
Lemma client_wp g st t tx o :
  Inv g st -> txs st !! t = Some tx -> g_modes g !! t = None -> allowed t o st ->
  wp (run_client t o) st
    (fun v st' => Inv (after_client t o (Ok v) st' g) st' /\ bsteps (abs g st) (abs (after_client t o (Ok v) st' g) st'))
    (fun e st' => Inv (after_client t o (Err e) st' g) st' /\ bsteps (abs g st) (abs (after_client t o (Err e) st' g) st')).
Proof.
  intros HI Htx Hm Hal. assert (Hsame : forall st', same g st st' -> Inv g st' /\ bsteps (abs g st) (abs g st')).
  { intros st' [? ->]. split; [done|apply rtc_refl]. }
  destruct o as [r|r|r|r|r row|r|r|r| | | | | | | |]; cbn [run_client]; unfold after_client; cbn [row_of]; wstep.
  - eapply wp_conseq; [by eapply read_wp| |done]. intros v st' (Hr & found & -> & Hf). wstep.
    destruct (decide (r ∈ write_set_of st' t)) as [Hin|Hni].
    + pose proof (regs_after g st st' t tx r HI Htx Hm Hr) as Hra. cbn in Hra. by rewrite decide_True in Hra.
    + destruct (regs_Inv _ _ _ _ HI Hr) as [HI' Hb]. destruct (regs_lookup _ _ _ _ _ Hr Htx) as (tx' & Htx' & c & d & ->).
      unfold write_set_of in Hni. rewrite Htx' in Hni. rewrite <- (regs_chain _ _ _ _ Hr) in Hf.
      destruct (add_read_Inv g st' t _ r found HI' Htx' Hm Hni Hf) as [? Hb']. split; [done|by etrans].
  - unfold query_btree_version_is_valid. wstep. eapply wp_expect_tx; [done|]. do 2 wstep.
    destruct (rows st !! r) as [versions|] eqn:Hrow; repeat wstep; [|by apply (regs_after g st st t tx r)].
    eapply wp_conseq; [eapply (any_invalidating_wp g t tx r); [done|eapply get_tx_acting; [done..|by eapply client_active]|]| |done].
    + intros v Hv. rewrite elem_of_reverse in Hv. unfold chain. by rewrite Hrow.
    + intros b st' [_ Hr]. repeat wstep. by apply (regs_after g st st' t tx r).
  - eapply wp_conseq; [by eapply insert_wp| |done]. intros _ st' [Hw _]. wstep. by apply (written_after g st st' t (row_id r)).
  - eapply wp_conseq; [by eapply insert_btree_resident_wp| |done]. intros ? st' Hw. wstep. by apply (written_after g st st' t (row_id r)).
  - eapply wp_conseq; [by eapply insert_tombstone_wp| |done]. intros ? st' Hw. wstep. by apply (written_after g st st' t r).
  - eapply wp_conseq; [by eapply delete_wp| |by intros e st'; apply (regs_after g st st' t tx r)].
    intros b st' Hw; destruct b; wstep; [by apply (written_after g st st' t r)|by apply (regs_after g st st' t tx r)].
  - eapply wp_conseq; [by eapply update_wp| |by intros e st'; apply (regs_after g st st' t tx (row_id r))].
    intros b st' Hw; destruct b; wstep; [by apply (written_after g st st' t (row_id r))|by apply (regs_after g st st' t tx (row_id r))].
  - eapply wp_conseq; [by eapply upsert_wp| |by intros e st'; apply (regs_after g st st' t tx (row_id r))].
    intros ? st' Hw; wstep. by apply (written_after g st st' t (row_id r)).
  - unfold update_tx. repeat wstep. apply Hsame, (savepoint_Inv _ _ _ tx); try done. eexists. split; [done|apply begin_change].
  - unfold update_tx. repeat wstep. apply Hsame, (savepoint_Inv _ _ _ tx); try done. eexists. split; [done|apply begin_change].
  - unfold update_tx. repeat wstep. apply Hsame, (savepoint_Inv _ _ _ tx); try done. apply release_savepoint_keeps.
  - unfold update_tx. repeat wstep. apply Hsame, (savepoint_Inv _ _ _ tx); try done. apply release_named_savepoint_keeps.
  - eapply wp_conseq; [by eapply rollback_first_wp| |done]. intros ? st' Hmv. by wstep.
  - eapply wp_conseq; [by eapply rollback_to_wp| |done]. intros ? st' Hmv. by wstep.
  - eapply wp_conseq; [by eapply upgrade_wp| |by intros; apply Hsame]. intros ? st' Hw. wstep. by apply Hsame.
  - unfold with_header_mut. wstep. eapply wp_get_tx; [done|]. unfold update_tx. repeat wstep. apply Hsame. cbn. rewrite alter_alter.
    apply (update_tx_Inv g st t tx); try done. intros _. right. by apply Z.eqb_eq.
Qed.

(** * Every step is matched *)

Lemma stranding_dec t st : stranding t st \/ ~ stranding t st.
Proof.
  unfold stranding. destruct (txs st !! t) as [tx|]; [|right; by intros (? & ? & ? & _)].
  destruct (state tx) as [| | | |e] eqn:Hst; try (right; intros (ty & e' & [= <-] & Hs & _); congruence).
  destruct (decide (commit_dep_set tx = ∅)); [right; intros (ty & e' & [= <-] & _ & Hn); by apply Hn|left; eauto].
Qed.
(** A call that panics is the drop of such a commit; the others are matched. *)
Lemma step_moves st g b st' g' :
  Inv g st -> step {| store := st; gh := g |} b {| store := st'; gh := g' |} ->
  b = false /\ moves g st g' st' \/
  b = true /\ exists t m, g_modes g !! t = Some (m, false) /\ stranding t st /\ cleanup_dropped_commit t st = (Panic, st').
Proof.
  intros HI Hs. inversion Hs; subst; try (left; split; [done|]; by eauto using gc_moves, prune_moves, stamp_moves, publish_moves, finish_checkpoint_moves); [left..| |left].
  - pose proof (wp_run _ _ _ _ _ _ (begin_tx_wp _ st passive got_lock page1 mark expected HI ltac:(done)) ltac:(done)) as H. by destruct r.
  - pose proof (wp_run _ _ _ _ _ _ (begin_exclusive_fresh_wp _ st passive got_lock page1 mark expected HI ltac:(done)) ltac:(done)) as H. by destruct r.
  - pose proof (wp_run _ _ _ _ _ _ (client_wp _ st t tx o HI ltac:(done) ltac:(done) ltac:(done)) ltac:(done)) as H. by destruct r.
  - split; [done|]. pose proof (client_active g st' HI t tx ltac:(done) ltac:(done)) as Ha. match goal with H : g_modes g !! t = None |- _ => rename H into Hm end.
    eapply stay_same; try done; rewrite ?Hm, ?Ha; try done. by left.
  - destruct (txs st !! t) as [tx|] eqn:Htx; [|by eapply absent_after].
    pose proof (wp_run _ _ _ _ _ _ (commit_step_wp g st t tx m env HI Htx ltac:(done)) ltac:(done)) as H. by destruct r.
  - destruct (rollback_ok g' st t tx r st' HI) as (? & ? & _); try done. by eapply idle_live.
  - destruct (stranding_dec t st) as [Hstr|Hno]; [right|left; by eapply drop_ok].
    pose proof (stranding_panics g st t HI Hstr) as Hp. match goal with H : cleanup_dropped_commit _ _ = _ |- _ => rewrite H in Hp end. cbn in Hp. subst r. eauto 10.
  - pose proof (wp_run _ _ _ _ _ _ (snapshot_wp _ st HI) ltac:(done)) as H. by destruct r.
Qed.

Lemma ainit_inv : inv ainit.
Proof.
  assert (Hno : forall t x, a_txs ainit !! t <> Some x) by (intros t x; cbn; by rewrite lookup_empty).
  split; [split|intros r v Hv; by apply not_elem_of_nil in Hv|split].
  all: try (intros; exfalso; eapply Hno; eassumption).
  - done.
  - by intros c ?%not_elem_of_nil.
  - intros i j c1 c2 r _ H. cbn in H. by rewrite lookup_nil in H.
Qed.
Lemma init_Inv : Inv (gh init) (store init).
Proof.
  split; [exact ainit_inv|]. split; cbn; try (intros *; by rewrite lookup_empty); try done.
  - intros r. unfold chain. cbn. rewrite lookup_empty. split; [constructor|by intros v ?%not_elem_of_nil].
  - intros u (tx & Htx & _). cbn in Htx. by rewrite lookup_empty in Htx.
Qed.
Lemma reachable_Inv s : reachable s -> Inv (gh s) (store s) /\ bsteps ainit (abs (gh s) (store s)).
Proof.
  assert (H0 : Inv (gh init) (store init) /\ bsteps ainit (abs (gh init) (store init))) by (split; [apply init_Inv|apply rtc_refl]).
  unfold reachable. intros H. revert H0. induction H as [s|[st1 g1] [st2 g2] s3 Hs _ IH]; [done|]. intros [HI Hb]. apply IH.
  destruct (step_moves _ _ _ _ _ HI Hs) as [[_ [HI2 Hb2]]|[? _]]; [|done]. split; [done|]. by etrans.
Qed.

(** * Snapshot isolation *)

Lemma Inv_sig_map g st : Inv g st -> sig (abs g st) = state <$> txs st.
Proof. intros HI. apply map_eq. intros u. by rewrite Inv_sig, lookup_fmap. Qed.
(** What was read is what is there to be read. *)
Lemma Inv_reads g st t tx m r o :
  Inv g st -> txs st !! t = Some tx -> is_live tx = true -> abort_now tx = false -> g_reads g !! t = Some m -> m !! r = Some o ->
  r ∉ write_set tx /\ exists found, row <$> found = o /\ finds (abs g st) t (begin_ts tx) (reverse (chain st r)) found.
Proof.
  intros HI Htx Hl Hab Hg Hr. destruct (i_reads _ (inv_sets _ (proj1 HI)) t (abs_tx g t tx) r o) as [Hni Hf]; [by apply abs_fwd| | |].
  - cbn. unfold is_live in Hl. unfold phase_of. destruct (state tx); try done. by case_match.
  - cbn. by rewrite Hg.
  - split; [done|]. cbn in Hf. rewrite Hab in Hf. destruct Hf as [|Hf]; [done|exact Hf].
Qed.
Lemma Inv_reads_committed g st t tx m r o :
  Inv g st -> txs st !! t = Some tx -> is_live tx = true -> abort_now tx = false -> dependees (a_txs (abs g st)) t = ∅ ->
  g_reads g !! t = Some m -> m !! r = Some o -> committed_at (state <$> txs st) (begin_ts tx) (chain st r) = o.
Proof.
  intros HI Htx Hl Hab Hd Hg Hr. destruct (Inv_reads g st t tx m r o HI Htx Hl Hab Hg Hr) as (Hni & found & <- & Hf).
  unfold committed_at. rewrite <- (Inv_sig_map g st HI). f_equal. symmetry. eapply finds_committed; [done| |done].
  intros v Hv Href. rewrite elem_of_reverse in Hv. destruct (v_ref _ _ _ (inv_rows _ (proj1 HI) r v Hv) t Href) as (y & (d & Hd' & ->)%abs_back & Hin).
  rewrite Htx in Hd'. by injection Hd' as <-.
Qed.
(** A machine whose next step commits has nothing to wait for. *)
Lemma initial_free_wp g st t tx m :
  Inv g st -> txs st !! t = Some tx -> state tx = Active ->
  wp (commit_initial t m) st
    (fun m' _ => cs m' = CommitDone -> abort_now tx = false /\ 0 <? commit_dep_counter tx = false) (fun _ _ => True).
Proof.
  intros HI Htx Hact. unfold commit_initial. eapply wp_with_tx; [done|]. cbv beta. case_bool_decide; [congruence|].
  weta. unfold assert_active. do 2 wstep; [by rewrite bool_decide_true|]. wstep. eapply wp_conseq; [by eapply prepare_wp| |done].
  intros [ts [ec sc]] st1. cbn [fst snd]. intros [-> Hst1].
  destruct (ec && negb (read_only tx)) eqn:He; [by apply wp_throw|]. destruct (sc && negb (read_only tx)) eqn:Hsc; [by apply wp_throw|].
  destruct (read_only tx) eqn:Hro; [|by wstep]. destruct (read_only_empty g st HI t tx Htx Hro) as [Hws Hd]. rewrite orb_true_r in Hst1. subst st1.
  do 2 wstep; [by rewrite bool_decide_true|]. destruct (abort_now tx) eqn:Hab; [by apply wp_throw|].
  destruct (0 <? commit_dep_counter tx) eqn:Hz; [by wstep|]. unfold update_tx. do 2 wstep.
  eapply close_wp; [cbn; rewrite !lookup_alter_eq, Htx; done|done|exact (held_locked _ _ _ _ HI Htx)|by intros].
Qed.
Lemma commit_step_free g st t tx env m m' st' :
  Inv g st -> txs st !! t = Some tx -> g_modes g !! t = Some (m, false) -> commit_step t env m st = (Ok m', st') -> commits m m' = true ->
  is_live tx = true /\ abort_now tx = false /\ dependees (a_txs (abs g st)) t = ∅.
Proof.
  intros HI Htx Hm Hs Hc. pose proof (own_inv g st HI t tx Htx) as [_ _ _ _ _ K4 _]. rewrite Hm in K4. cbn in K4. unfold commits in Hc.
  unfold commit_step in Hs. destruct (cs m) eqn:Hcs; try done.
  - destruct K4 as [Hact|[? _]]; [|done]. split; [unfold is_live; by rewrite Hact|].
    pose proof (wp_run _ _ _ _ _ _ (initial_free_wp g st t tx m HI Htx Hact) Hs) as Hf. cbn in Hf. destruct (cs m'); try done.
    destruct (Hf eq_refl) as [? Hz]. split; [done|]. by eapply own_free.
  - split; [unfold is_live; by rewrite K4|]. unfold commit_wait in Hs. rewrite Htx in Hs. destruct (abort_now tx); [done|]. split; [done|].
    destruct (0 <? commit_dep_counter tx) eqn:Hz; [|by eapply own_free]. injection Hs as <- <-. by rewrite Hcs in Hc.
  - split; [unfold is_live; by rewrite K4|]. destruct (log_inv g st HI t tx Htx m Hm end_ts ltac:(by rewrite Hcs)) as [Hst [_ Hrd]].
    destruct (Hrd _ (abs_fwd g _ _ _ Htx)) as [(e' & _ & Hab & Hd)|(e' & Hc')]; [done|]. cbn in Hc'. rewrite Hst in Hc'. cbn in Hc'. by destruct (validated _).
Qed.

(** ** Runs *)

(** The steps by name, to run them. *)
Inductive label : Type :=
| LBegin
| LClient (t : TxID) (o : client_op)
| LCommit (t : TxID)
| LStep (t : TxID)
| LPublish (snapshot_ts : Z)
| LGc (passive : bool) (id : RowID).
Definition quiet_env : CommitEnv := {| log_pending := false; log_is_empty := false; storage_fails := false |}.
Definition run_label (l : label) (s : sys) : option sys :=
  match l with
  | LBegin =>
      let '(r, st) := begin_tx false true DatabaseHeader_default ORIGIN None (store s) in
      if (tx_ids (store s) <? 2 ^ 62) && negb (is_panic r) then Some {| store := st; gh := gh s |} else None
  | LClient t o =>
      match txs (store s) !! t, g_modes (gh s) !! t, o with
      | _, _, OHeader _ => None
      | Some _, None, _ =>
          let '(r, st) := run_client t o (store s) in
          if is_panic r then None else Some {| store := st; gh := after_client t o r st (gh s) |}
      | _, _, _ => None
      end
  | LCommit t =>
      match txs (store s) !! t, g_modes (gh s) !! t with
      | Some _, None => Some {| store := store s; gh := set_mode t (machine false) false (gh s) |}
      | _, _ => None
      end
  | LStep t =>
      match g_modes (gh s) !! t with
      | Some (m, false) =>
          let '(r, st) := commit_step t quiet_env m (store s) in
          if is_panic r then None else Some {| store := st; gh := after_commit_step t m r (store s) (gh s) |}
      | _ => None
      end
  | LPublish snapshot_ts => Some {| store := publish_checkpoint snapshot_ts DatabaseHeader_default (store s); gh := gh s |}
  | LGc passive id => Some {| store := gc_chains passive [id] (store s); gh := after_gc passive (store s) [id] (gh s) |}
  end.
Fixpoint run (ls : list label) (s : sys) : option sys :=
  match ls with
  | [] => Some s
  | l :: ls => match run_label l s with Some s => run ls s | None => None end
  end.
Lemma run_label_step l s s' : run_label l s = Some s' -> step s false s'.
Proof.
  destruct s as [st g]. destruct l as [|t o|t|t|ts|passive id]; cbn [run_label store gh].
  - destruct (begin_tx _ _ _ _ _ st) as [r st1] eqn:Hr. destruct (tx_ids st <? 2 ^ 62) eqn:Hlt; [|done]. apply Z.ltb_lt in Hlt.
    destruct (is_panic r) eqn:Hp; [done|]. intros [= <-]. rewrite <- Hp. by eapply s_begin.
  - destruct (txs st !! t) as [tx|] eqn:Htx; [|by destruct o]. destruct (g_modes g !! t) eqn:Hm; [by destruct o|].
    destruct (run_client t o st) as [r st1] eqn:Hr. destruct (is_panic r) eqn:Hp; [by destruct o|]. intros H. rewrite <- Hp.
    assert (Ho : allowed t o st /\ s' = {| store := st1; gh := after_client t o r st1 g |}) by (destruct o; try done; by injection H as <-).
    destruct Ho as [Ha ->]. by eapply s_client.
  - destruct (txs st !! t) as [tx|] eqn:Htx; [|done]. destruct (g_modes g !! t) eqn:Hm; [done|]. intros [= <-]. by eapply s_commit.
  - destruct (g_modes g !! t) as [[m []]|] eqn:Hm; [done| |done]. destruct (commit_step t quiet_env m st) as [r st1] eqn:Hr.
    destruct (is_panic r) eqn:Hp; [done|]. intros [= <-]. rewrite <- Hp. by eapply s_commit_step.
  - intros [= <-]. apply s_publish.
  - intros [= <-]. apply s_gc, list.NoDup_singleton.
Qed.
Lemma run_reachable ls s s' : run ls s = Some s' -> reachable s -> reachable s'.
Proof.
  revert s. induction ls as [|l ls IH]; cbn; intros s; [by intros [= <-]|]. destruct (run_label l s) as [s1|] eqn:Hl; [|done].
  intros Hr Hs. apply (IH s1 Hr). unfold reachable in *. eapply rtc_r; [done|]. by eapply run_label_step.
Qed.

(** A history for the examples: transaction 1 inserts a row and commits, transaction 2 reads
    it, and transaction 3 changes it and commits. *)
Definition a_row (v : Z) : Row := {| row_id := (1, 7); data := [v] |}.
Definition commit_all (t : TxID) : list label := LCommit t :: repeat (LStep t) 13.
Definition history : list label :=
  [LBegin; LClient 1 (OInsert (a_row 10))] ++ commit_all 1 ++ [LBegin; LClient 2 (ORead (1, 7)); LBegin; LClient 3 (OUpdate (a_row 30))].
(** Transaction 2 changes the row within a savepoint. *)
Definition undoing : list label :=
  [LBegin; LClient 1 (OInsert (a_row 10))] ++ commit_all 1 ++
  [LBegin; LClient 2 (OBeginNamedSavepoint "a" false 0); LClient 2 (OUpdate (a_row 20)); LClient 2 OBeginSavepoint; LClient 2 (ODelete (1, 7))].
Definition at_end (ls : list label) : sys := default init (run ls init).

Definition runs (ls : list label) : bool := match run ls init with Some _ => true | None => false end.
Lemma at_end_reachable ls : runs ls = true -> reachable (at_end ls).
Proof.
  unfold runs, at_end. destruct (run ls init) as [s|] eqn:Hs; [|done]. intros _. eapply run_reachable; [done|apply rtc_refl].
Qed.

(** ** No call panics *)

(** C7: in every reachable state of the store, whatever the transactions under way and the
    order of their calls, a call that fails an assertion, an [expect] or an [unreachable!] is
    the drop of a commit machine whose transaction has committed and still has dependents.
    No other call does: no operation of a connection, the rollbacks of savepoints included,
    no step of a commit, no other drop, no rollback, checkpoint publication or collection.
    (Timestamps are unbounded here: that the packed fields hold them is [pack_unpack].) *)
Theorem no_call_panics s b s' :
  reachable s -> step s b s' ->
  b = false \/
  exists t m tx e, g_modes (gh s) !! t = Some (m, false) /\ txs (store s) !! t = Some tx /\ state tx = Committed e /\
    commit_dep_set tx <> ∅ /\ cleanup_dropped_commit t (store s) = (Panic, store s').
Proof.
  intros [HI _]%reachable_Inv Hs. destruct s as [st g], s' as [st' g'].
  destruct (step_moves _ _ _ _ _ HI Hs) as [[-> _]|(_ & t & m & Hm & (tx & e & Htx & He & Hd) & Hp)]; [by left|]. right. by exists t, m, tx, e.
Qed.
Lemma no_call_panics_witness :
  exists s', step (at_end undoing) false s' /\
    (false = false \/ exists t m tx e, g_modes (gh (at_end undoing)) !! t = Some (m, false) /\ txs (store (at_end undoing)) !! t = Some tx /\ state tx = Committed e /\
       commit_dep_set tx <> ∅ /\ cleanup_dropped_commit t (store (at_end undoing)) = (Panic, store s')).
Proof.
  assert (Hr : reachable (at_end undoing)) by (apply at_end_reachable; vm_compute; reflexivity).
  pose proof (run_label_step (LClient 2 (ORollbackToSavepoint "a")) (at_end undoing)
    (default init (run_label (LClient 2 (ORollbackToSavepoint "a")) (at_end undoing))) ltac:(vm_compute; reflexivity)) as Hs.
  eexists. split; [exact Hs|]. exact (no_call_panics _ _ _ Hr Hs).
Defined.

(** C3: the store implements the abstract transition system of snapshot isolation: its first
    state is the abstract one, and every call from a reachable state that does not panic,
    every step of a commit, every collection and every step of a checkpoint is a sequence of
    abstract transitions. *)
Theorem store_refines_spec s s' :
  reachable s -> step s false s' ->
  abs (gh init) (store init) = ainit /\ bsteps ainit (abs (gh s) (store s)) /\ bsteps (abs (gh s) (store s)) (abs (gh s') (store s')) /\
  inv (abs (gh s') (store s')).
Proof.
  intros [HI Hb]%reachable_Inv Hs. destruct s as [st g], s' as [st' g']. destruct (step_moves _ _ _ _ _ HI Hs) as [[_ [HI' Hb']]|[? _]]; [|done].
  split_and!; [done..|apply HI'].
Qed.
Lemma store_refines_spec_witness :
  exists s', rows (store s') !! (1, 7) <> rows (store (at_end undoing)) !! (1, 7) /\
    bsteps (abs (gh (at_end undoing)) (store (at_end undoing))) (abs (gh s') (store s')) /\ inv (abs (gh s') (store s')).
Proof.
  assert (Hr : reachable (at_end undoing)) by (apply at_end_reachable; vm_compute; reflexivity).
  pose proof (run_label_step (LClient 2 (ORollbackToSavepoint "a")) (at_end undoing)
    (default init (run_label (LClient 2 (ORollbackToSavepoint "a")) (at_end undoing))) ltac:(vm_compute; reflexivity)) as Hs.
  eexists. split; [|destruct (store_refines_spec _ _ Hr Hs) as (_ & _ & H1 & H2); split; [exact H1|exact H2]]. vm_compute. discriminate.
Defined.

(** C5: repeatable reads.  What a transaction has read of a row, and not written since, it
    reads again as long as it is not told to abort, whatever the other transactions have
    begun, written, committed or rolled back, savepoints included, and whatever checkpoints
    and collections have done in between; a collection that hands the row over to the B-tree
    ends this, since the row is read from there from then on. *)
Theorem repeatable_read s t tx m r o :
  reachable s -> txs (store s) !! t = Some tx -> g_modes (gh s) !! t = None -> abort_now tx = false ->
  g_reads (gh s) !! t = Some m -> m !! r = Some o -> fst (read t r (store s)) = Ok o.
Proof.
  intros [HI _]%reachable_Inv Htx Hm Hab Hg Hr. pose proof (client_active _ _ HI _ _ Htx Hm) as Hact.
  destruct (Inv_reads _ _ t tx m r o HI Htx) as (_ & found & <- & Hf); try done; [unfold is_live; by rewrite Hact|].
  destruct (read t r (store s)) as [v st'] eqn:Hrd. pose proof (wp_run _ _ _ _ _ _ (read_wp _ _ t tx r HI Htx Hm) Hrd) as Hw.
  destruct v as [v| |]; try done. destruct Hw as (Hregs & found' & -> & Hf'). cbn. do 2 f_equal.
  eapply finds_fun; [done|]. by eapply finds_regs.
Qed.
Lemma repeatable_read_witness :
  fst (read 2 (1, 7) (store (at_end (history ++ commit_all 3)))) = Ok (Some (a_row 10)).
Proof.
  eapply (repeatable_read (at_end (history ++ commit_all 3)) 2).
  - apply at_end_reachable. vm_compute. reflexivity.
  - vm_compute. reflexivity.
  - vm_compute. reflexivity.
  - vm_compute. reflexivity.
  - vm_compute. reflexivity.
  - vm_compute. reflexivity.
Defined.

(** ** Commits *)

Lemma after_gc_modes passive st ids g : g_modes (after_gc passive st ids g) = g_modes g.
Proof. induction ids as [|id ids IH]; [done|]. cbn. by destruct (collected passive st id). Qed.
Lemma after_gc_hist passive st ids g : g_hist (after_gc passive st ids g) = g_hist g.
Proof. induction ids as [|id ids IH]; [done|]. cbn. by destruct (collected passive st id). Qed.

(** C6: a transaction commits only on committed data.  When a step records a commit, every
    row that the transaction has read, and not written, has the value that the commits
    before its beginning gave it; no value that was read from a transaction in preparation
    has been withdrawn. *)
Theorem commits_read_committed s b s' c :
  reachable s -> step s b s' -> g_hist (gh s') = g_hist (gh s) ++ [c] ->
  exists t tx, txs (store s) !! t = Some tx /\ c_begin c = begin_ts tx /\ c_rows c = write_set tx /\
    forall m r o, g_reads (gh s) !! t = Some m -> m !! r = Some o ->
      committed_at (state <$> txs (store s)) (begin_ts tx) (chain (store s) r) = o.
Proof.
  intros [HI _]%reachable_Inv Hs Hc. assert (Hno : forall l : list commit_record, l <> l ++ [c]).
  { intros l H%(f_equal length). rewrite length_app in H. cbn in H. lia. }
  inversion Hs; subst; cbn [store gh] in *; try (by destruct (Hno _ Hc)); try (by rewrite after_gc_hist in Hc; destruct (Hno _ Hc)).
  - unfold after_client in Hc. destruct (row_of o); [|by destruct (Hno _ Hc)]. case_decide; [by destruct (Hno _ Hc)|].
    destruct r as [[v|]| |]; by destruct (Hno _ Hc).
  - unfold after_commit_step in Hc. destruct r as [m'| |]; [|by destruct (Hno _ Hc)..]. destruct (commits m m') eqn:Hcm; [|by destruct (Hno _ Hc)].
    destruct (commit_of st t m) as [c'|] eqn:Hco; [|by destruct (Hno _ Hc)]. cbn in Hc. apply app_inj_1 in Hc as [_ [= ->]]; [|done].
    unfold commit_of in Hco. destruct (txs st !! t) as [tx|] eqn:Htx; [|done]. exists t, tx.
    destruct (commit_step_free g st t tx env m m' st' HI Htx) as (Hl & Hab & Hd); try done.
    split_and!; [done|by destruct (cs m); try done; injection Hco as <-..|]. intros m0 r o. by eapply Inv_reads_committed.
Qed.
Lemma commits_read_committed_witness :
  exists t tx, txs (store (at_end (history ++ [LCommit 2]))) !! t = Some tx /\ begin_ts tx = 2 /\
    forall m r o, g_reads (gh (at_end (history ++ [LCommit 2]))) !! t = Some m -> m !! r = Some o ->
      committed_at (state <$> txs (store (at_end (history ++ [LCommit 2])))) (begin_ts tx) (chain (store (at_end (history ++ [LCommit 2]))) r) = o.
Proof.
  assert (Hr : reachable (at_end (history ++ [LCommit 2]))) by (apply at_end_reachable; vm_compute; reflexivity).
  pose proof (run_label_step (LStep 2) (at_end (history ++ [LCommit 2]))
    (default init (run_label (LStep 2) (at_end (history ++ [LCommit 2])))) ltac:(vm_compute; reflexivity)) as Hs.
  destruct (commits_read_committed _ false _ {| c_begin := 2; c_end := 4; c_rows := [] |} Hr Hs) as (t & tx & Htx & Hb & _ & Hrd); [vm_compute; reflexivity|].
  exists t, tx. split; [exact Htx|]. split; [symmetry; exact Hb|exact Hrd].
Defined.

(** C4: first committer wins.  Two transactions that commit and have a row in common in
    their write sets do not overlap: one of them has ended before the other began. *)
Theorem first_committer_wins s i j c1 c2 r :
  reachable s -> i <> j -> g_hist (gh s) !! i = Some c1 -> g_hist (gh s) !! j = Some c2 -> r ∈ c_rows c1 -> r ∈ c_rows c2 ->
  c_end c1 < c_begin c2 \/ c_end c2 < c_begin c1.
Proof. intros [[Hi _] _]%reachable_Inv Hij H1 H2. exact (i_fcw _ (inv_sets _ Hi) i j c1 c2 r Hij H1 H2). Qed.
Lemma first_committer_wins_witness : exists c1 c2, c_rows c1 = [(1, 7)] /\ c_rows c2 = [(1, 7)] /\ (c_end c1 < c_begin c2 \/ c_end c2 < c_begin c1).
Proof.
  exists {| c_begin := 0; c_end := 1; c_rows := [(1, 7)] |}, {| c_begin := 3; c_end := 4; c_rows := [(1, 7)] |}. split; [reflexivity|]. split; [reflexivity|].
  eapply (first_committer_wins (at_end (history ++ commit_all 3)) 0 1 _ _ (1, 7)).
  - apply at_end_reachable. vm_compute. reflexivity.
  - done.
  - vm_compute. reflexivity.
  - vm_compute. reflexivity.
  - left.
  - left.
Defined.

(** ** A transaction's own writes *)

Lemma finds_first a t b l v l' found :
  finds a t b (l ++ v :: l') found -> (forall v', v' ∈ l -> vis (sig a) t b v' = false) -> vis (sig a) t b v = true -> found = Some v.
Proof.
  induction l as [|v' l IH]; cbn [app finds]; intros [_ Hf] Hl Hv; [by rewrite Hv in Hf|]. rewrite Hl in Hf by (by left). apply IH; [done| |done].
  intros. apply Hl. by right.
Qed.
(** A version placed after one's own was begun by a later transaction, and is not seen. *)
Lemma later_unseen g st t tx r v b :
  Inv g st -> txs st !! t = Some tx -> v ∈ chain st r -> resolve_begin_timestamp st (rv_begin v) = Ok b -> begin_ts tx < b ->
  vis (sig (abs g st)) t (begin_ts tx) v = false.
Proof.
  intros HI Htx Hv Hb Hlt. unfold vis. apply andb_false_intro1. unfold vis_begin. destruct (rv_begin v) as [[n|u]|] eqn:Hbe; [| |done].
  - cbn in Hb. injection Hb as ->. apply Z.ltb_ge. lia.
  - cbn in Hb. destruct (txs st !! u) as [d|] eqn:Hd; [|done]. injection Hb as <-. rewrite Inv_sig, Hd by done. cbn.
    destruct (i_tx _ (inv_txs _ (proj1 HI)) _ _ (abs_fwd g _ _ _ Hd)) as (_ & _ & He & _). cbn in He.
    destruct (state d) as [|e| | |e]; try done.
    + apply andb_false_intro1, Z.eqb_neq. intros <-. rewrite Htx in Hd. injection Hd as <-. lia.
    + apply Z.ltb_ge. specialize (He e). cbn in He. destruct (validated (g_modes g !! u)); specialize (He eq_refl); lia.
    + apply Z.ltb_ge. specialize (He e eq_refl). lia.
Qed.

(** a transaction reads what it has inserted, wherever among the versions of the row the
    insertion has put it. *)
Theorem read_your_insert s t tx r :
  reachable s -> txs (store s) !! t = Some tx -> g_modes (gh s) !! t = None ->
  fst (insert t r (store s)) = Ok tt /\ fst (read t (row_id r) (snd (insert t r (store s)))) = Ok (Some r).
Proof.
  intros [HI _]%reachable_Inv Htx Hm. destruct (insert t r (store s)) as [v st1] eqn:Hins.
  pose proof (wp_run _ _ _ _ _ _ (insert_wp _ _ HI t tx Htx Hm r) Hins) as Hw. destruct v as [[]| |]; try done. split; [done|]. cbn [snd].
  destruct Hw as ((HI1 & _) & (tx1 & Htx1 & Hbt) & (l1 & rv & l2 & Hl & Hbe & Hen & Hrow & Hl2)). set (g1 := drop_read t (row_id r) (gh s)) in *.
  assert (Hm1 : g_modes g1 !! t = None) by done. pose proof (client_active _ _ HI1 _ _ Htx1 Hm1) as Hact.
  destruct (read t (row_id r) st1) as [v st2] eqn:Hrd. pose proof (wp_run _ _ _ _ _ _ (read_wp _ _ t tx1 (row_id r) HI1 Htx1 Hm1) Hrd) as Hw.
  destruct v as [v| |]; try done. destruct Hw as (Hregs & found & -> & Hf). cbn. rewrite Hl, reverse_app, reverse_cons, <- app_assoc in Hf.
  pose proof (regs_sig _ _ _ _ HI1 Hregs) as Hsig. rewrite (finds_first _ _ _ _ _ _ _ Hf); [cbn; by rewrite Hrow|..].
  - intros v' Hv'. rewrite elem_of_reverse in Hv'. destruct (Hl2 v' Hv') as (b & Hb' & Hlt). rewrite Hsig, Hbt.
    rewrite <- Hbt in Hlt |- *. eapply later_unseen; try done. rewrite Hl. set_solver.
  - rewrite Hsig. unfold vis, vis_begin, vis_end. rewrite Hbe, Hen, Inv_sig, Htx1 by done. cbn. rewrite Hact. by rewrite Z.eqb_refl.
Qed.
Lemma read_your_insert_witness :
  fst (insert 2 (a_row 20) (store (at_end (history ++ commit_all 3)))) = Ok tt /\
  fst (read 2 (1, 7) (snd (insert 2 (a_row 20) (store (at_end (history ++ commit_all 3)))))) = Ok (Some (a_row 20)).
Proof.
  eapply (read_your_insert (at_end (history ++ commit_all 3)) 2 _ (a_row 20)).
  - apply at_end_reachable. vm_compute. reflexivity.
  - vm_compute. reflexivity.
  - vm_compute. reflexivity.
Defined.

(** ** Collection and the readers *)

Lemma finds_find a t b l found : finds a t b l found -> found = List.find (vis (sig a) t b) l.
Proof. induction l as [|v l IH]; cbn; [done|]. intros [_ Hf]. destruct (vis _ _ _ v); auto. Qed.
Lemma find_reverse_filter (p keep : RowVersion -> bool) l :
  (forall v, v ∈ l -> keep v = false -> p v = false) -> List.find p (reverse (List.filter keep l)) = List.find p (reverse l).
Proof.
  assert (Happ : forall l1 l2, List.find p (l1 ++ l2) = match List.find p l1 with Some v => Some v | None => List.find p l2 end).
  { induction l1 as [|v l1 IH]; cbn; [done|]. intros l2. by destruct (p v). }
  induction l as [|v l IH]; intros Hp; [done|]. assert (IH' := IH (fun v' Hv' => Hp v' ltac:(by right))). rewrite reverse_cons, Happ, <- IH'.
  cbn [List.filter]. destruct (keep v) eqn:Hk; [by rewrite reverse_cons, Happ|]. cbn. rewrite (Hp v) by (done || by left).
  by destruct (List.find p _).
Qed.
(** The two questions of a reader, as functions of the chain. *)
Lemma read_pure g st t tx r :
  Inv g st -> txs st !! t = Some tx -> g_modes g !! t = None ->
  fst (read t r st) = Ok (row <$> List.find (vis (sig (abs g st)) t (begin_ts tx)) (reverse (chain st r))).
Proof.
  intros HI Htx Hm. destruct (wp_total _ _ _ (read_wp g st t tx r HI Htx Hm)) as (v & st' & -> & Hr & found & -> & Hf). cbn [fst].
  by rewrite (finds_find _ _ _ _ _ Hf), (regs_sig _ _ _ _ HI Hr).
Qed.
Lemma valid_pure g st t tx r :
  Inv g st -> txs st !! t = Some tx -> g_modes g !! t = None ->
  fst (query_btree_version_is_valid r t st) = Ok (negb (existsb (hides (sig (abs g st)) t (begin_ts tx)) (reverse (chain st r)))).
Proof.
  intros HI Htx Hm. assert (Hw : wp (query_btree_version_is_valid r t) st
    (fun b _ => b = negb (existsb (hides (sig (abs g st)) t (begin_ts tx)) (reverse (chain st r)))) (fun _ _ => False)).
  { unfold query_btree_version_is_valid. wstep. eapply wp_expect_tx; [done|]. do 2 wstep. unfold chain. destruct (rows st !! r) as [l|] eqn:Hl; repeat wstep; [|done].
    eapply wp_conseq; [eapply (any_invalidating_wp g t tx r); [done|eapply get_tx_acting; [done..|by eapply client_active]|]| |done].
    - intros v Hv. rewrite elem_of_reverse in Hv. unfold chain. by rewrite Hl.
    - intros b st' [-> _]. by wstep. }
  by destruct (wp_total _ _ _ Hw) as (b & st' & -> & ->).
Qed.
Lemma gc_chain passive ids st r :
  NoDup ids -> chain (gc_chains passive ids st) r =
    if decide (r ∈ ids)
    then gc_version_chain (chain st r) (compute_lwm st) (durable_txid_max st) passive (pos_min (compute_min_reader_mark st) (backfill_floor st))
    else chain st r.
Proof.
  intros Hnd. unfold chain, gc_chains. cbn. rewrite foldr_alter_lookup by done. case_decide; [|done]. destruct (rows st !! r); [done|].
  cbn. unfold gc_version_chain. cbn. done.
Qed.

(** A reader's mark bounds what counts as materialized. *)
Lemma pos_leb_trans a b c : pos_leb a b = true -> pos_leb b c = true -> pos_leb a c = true.
Proof. unfold pos_leb. intros H1 H2. apply orb_true_iff in H1, H2. rewrite !andb_true_iff in H1, H2. apply orb_true_iff. rewrite andb_true_iff. lia. Qed.
Lemma pos_leb_min p a b : pos_leb p (pos_min a b) = true -> pos_leb p a = true /\ pos_leb p b = true.
Proof.
  unfold pos_min. destruct (pos_leb a b) eqn:Hab; intros H.
  - split; [done|]. by eapply pos_leb_trans.
  - split; [|done]. eapply pos_leb_trans; [done|]. revert Hab. unfold pos_leb. rewrite orb_false_iff, andb_false_iff, orb_true_iff, andb_true_iff. lia.
Qed.
Lemma min_reader_mark_le st t tx p :
  txs st !! t = Some tx -> is_live tx = true -> pos_leb p (compute_min_reader_mark st) = true -> pos_leb p (read_mark tx) = true.
Proof.
  unfold compute_min_reader_mark. revert t tx.
  apply (map_fold_weak_ind (fun x m => forall t tx, m !! t = Some tx -> is_live tx = true -> pos_leb p x = true -> pos_leb p (read_mark tx) = true)).
  - by intros t tx ?%lookup_empty_Some.
  - intros u tu m x Hu IH t tx [[-> ->]|[Hne Htx]]%lookup_insert_Some Hl.
    + rewrite Hl. by intros [? _]%pos_leb_min.
    + case_match; [intros [_ ?]%pos_leb_min|]; eauto.
Qed.
(** What [v] stands for, written or deleted at [ts], is in the B-tree that [tx] reads: for a
    blocking checkpoint it is at or below the durable boundary, for a passive one it is
    materialized at a frame of the reader's snapshot that is in the database file. *)
Definition in_btree (passive : bool) (st : MvStore) (tx : Transaction) (v : RowVersion) (ts : Z) : Prop :=
  if passive then materialized_at v <> ORIGIN /\ pos_leb (materialized_at v) (read_mark tx) = true /\ pos_leb (materialized_at v) (backfill_floor st) = true
  else ts <= durable_txid_max st.
Lemma in_btree_gc (passive : bool) st t tx v ts :
  txs st !! t = Some tx -> is_live tx = true ->
  (if passive then materialized_for_readers (pos_min (compute_min_reader_mark st) (backfill_floor st)) v = true else ts <= durable_txid_max st) ->
  in_btree passive st tx v ts.
Proof.
  intros Htx Hl. unfold in_btree. destruct passive; [|done]. unfold materialized_for_readers. intros [H1%negb_true_iff%bool_decide_eq_false [H2 H3]%pos_leb_min]%andb_prop.
  split_and!; [done|by eapply min_reader_mark_le|done].
Qed.

(** Why a version is gone. *)
Definition kept_by_gc (lwm ckpt : Z) (passive : bool) (mark : WalPos) (vs : list RowVersion) (v : RowVersion) : bool :=
  negb (is_garbage v) && keep_superseded lwm ckpt passive mark (existsb is_current (List.filter (fun rv => negb (is_garbage rv)) vs)) v.
Lemma gc_cases vs lwm ckpt (passive : bool) mark :
  let kept := List.filter (kept_by_gc lwm ckpt passive mark vs) vs in
  gc_version_chain vs lwm ckpt passive mark = kept \/
  gc_version_chain vs lwm ckpt passive mark = [] /\
  exists v b, kept = [v] /\ rv_begin v = Some (Timestamp b) /\ rv_end v = None /\ b < lwm /\
    (if passive then materialized_for_readers mark v = true else b <= ckpt).
Proof.
  cbv zeta. unfold gc_version_chain. set (l1 := List.filter (fun rv => negb (is_garbage rv)) vs).
  assert (Hk : List.filter (keep_superseded lwm ckpt passive mark (existsb is_current l1)) l1 = List.filter (kept_by_gc lwm ckpt passive mark vs) vs).
  { unfold kept_by_gc. fold l1. generalize (existsb is_current l1). intros hc. unfold l1. induction vs as [|v l IH]; [done|]. cbn.
    destruct (is_garbage v); cbn; [done|]. by rewrite IH. }
  rewrite Hk. destruct (sole_survivor_removable _ _ _ _ _) eqn:Hss; [|by left]. right. split; [done|]. revert Hss. unfold sole_survivor_removable.
  clear. generalize (List.filter (kept_by_gc lwm ckpt passive mark vs) vs). intros [|v [|]]; try done. destruct (rv_begin v) as [[b|]|] eqn:Hb; try done. destruct (rv_end v) eqn:He; [done|].
  intros H. exists v, b. destruct passive; apply andb_prop in H as [H1 H2]; zbool; by split_and!.
Qed.
Lemma gone_by_gc lwm ckpt (passive : bool) mark vs v :
  kept_by_gc lwm ckpt passive mark vs v = false ->
  rv_begin v = None /\ rv_end v = None \/
  exists e, rv_end v = Some (Timestamp e) /\ e <= lwm /\
    (if passive then materialized_for_readers mark v = true
     else e <= ckpt \/ btree_resident v = false /\ (forall b, rv_begin v = Some (Timestamp b) -> ckpt < b) /\ exists w, w ∈ vs /\ is_current w = true).
Proof.
  unfold kept_by_gc. intros [Hg|Hk]%andb_false_iff.
  - left. apply negb_false_iff, andb_prop in Hg as [?%bool_decide_eq_true ?%bool_decide_eq_true]. done.
  - right. unfold keep_superseded in Hk. destruct (rv_end v) as [[e|]|]; try done. destruct (e <=? lwm) eqn:Hle; [|done]. exists e. split; [done|]. zbool. split; [done|].
    destruct passive; [by apply negb_false_iff|]. apply andb_false_iff in Hk as [Hk|Hk]; [left; by zbool|]. apply orb_false_iff in Hk as [[Hr Hb]%orb_false_iff Hc%negb_false_iff].
    right. split_and!; [done|intros b Hvb; rewrite Hvb in Hb; by zbool|]. apply existsb_exists in Hc as (w & [Hw _]%List.filter_In & Hcw). exists w. by rewrite list_elem_of_In.
Qed.

(** A version that transaction [tx] does not need in its chain [vs] any more.  Either it is
    committed before [tx] began and is in the B-tree, or it ended before [tx] began and the
    B-tree has that too, or else never had the version while the chain has a newer one. *)
Definition outlived (passive : bool) (st : MvStore) (tx : Transaction) (vs : list RowVersion) (v : RowVersion) : Prop :=
  (exists b, rv_begin v = Some (Timestamp b) /\ rv_end v = None /\ b < begin_ts tx /\ in_btree passive st tx v b) \/
  (exists e, rv_end v = Some (Timestamp e) /\ e < begin_ts tx /\
    (in_btree passive st tx v e \/
     passive = false /\ btree_resident v = false /\ (forall b, rv_begin v = Some (Timestamp b) -> durable_txid_max st < b) /\
     exists w, w ∈ vs /\ is_current w = true)).

Section collection.
Context (g : ghost) (st : MvStore) (HI : Inv g st) (t : TxID) (tx : Transaction) (Htx : txs st !! t = Some tx) (Hm : g_modes g !! t = None).
Context (passive : bool) (ids : list RowID) (Hnd : NoDup ids) (r : RowID).
Let st' := gc_chains passive ids st.
Let mark := pos_min (compute_min_reader_mark st) (backfill_floor st).
Let kept := kept_by_gc (compute_lwm st) (durable_txid_max st) passive mark (chain st r).

Lemma reader_live : is_live tx = true.
Proof. unfold is_live. by rewrite (client_active _ _ HI _ _ Htx Hm). Qed.
Lemma reader_lwm : compute_lwm st <= begin_ts tx.
Proof. apply (compute_lwm_le st t tx Htx reader_live). Qed.
Lemma gc_outcome :
  chain st' r = chain st r \/ chain st' r = List.filter kept (chain st r) \/
  chain st' r = [] /\ exists v b, List.filter kept (chain st r) = [v] /\ rv_begin v = Some (Timestamp b) /\ rv_end v = None /\ b < begin_ts tx /\
    in_btree passive st tx v b.
Proof.
  pose proof reader_lwm as Hlwm. unfold st'. rewrite gc_chain by done. case_decide; [|by left]. right. fold mark.
  destruct (gc_cases (chain st r) (compute_lwm st) (durable_txid_max st) passive mark) as [->|(-> & v & b & Hk & Hb & He & Hlt & Hp)]; [by left|]. right. split; [done|].
  exists v, b. split_and!; [done..|lia|]. eapply in_btree_gc; [done|apply reader_live|done].
Qed.
Lemma gone_outlived v : v ∈ chain st r -> kept v = false -> is_garbage v = true \/ outlived passive st tx (chain st r) v /\ rv_end v <> None.
Proof.
  intros Hv Hk. pose proof reader_lwm as Hlwm. destruct (gone_by_gc _ _ _ _ _ _ Hk) as [[Hb He]|(e & He & Hle & Hp)].
  - left. unfold is_garbage. by rewrite Hb, He, !bool_decide_true.
  - right. split; [|by rewrite He]. right. exists e. split; [done|].
    assert (Hne : begin_ts tx <> e) by (apply (proj2 (v_stamp _ _ _ (inv_rows _ (proj1 HI) r v Hv) e ltac:(by right)) t (abs_tx g t tx)); by apply abs_fwd).
    split; [lia|]. destruct passive; [left; eapply in_btree_gc; [done|apply reader_live|done]|]. destruct Hp as [Hp|Hp]; [by left|by right].
Qed.
Lemma gc_gone v : v ∈ chain st r -> v ∉ chain st' r -> is_garbage v = true \/ outlived passive st tx (chain st r) v.
Proof.
  intros Hv Hno. destruct (kept v) eqn:Hk; [|destruct (gone_outlived v Hv Hk) as [|[]]; auto]. right. left.
  assert (Hin : v ∈ List.filter kept (chain st r)) by (rewrite list_elem_of_In, List.filter_In, <- list_elem_of_In; done).
  destruct gc_outcome as [Hc|[Hc|(Hc & v' & b & Hs & Hb)]]; rewrite Hc in Hno; [done|done|]. rewrite Hs in Hin. apply list_elem_of_singleton in Hin as ->. by exists b.
Qed.
Lemma gone_unseen v : v ∈ chain st r -> kept v = false -> vis (sig (abs g st)) t (begin_ts tx) v = false.
Proof.
  intros Hv Hk. unfold vis, vis_begin, vis_end. destruct (gone_outlived v Hv Hk) as [Hg|[[(b & _ & He & _)|(e & -> & Hlt & _)] Hn]]; [|done|].
  - unfold is_garbage in Hg. apply andb_prop in Hg as [->%bool_decide_eq_true _]. done.
  - apply andb_false_intro2, Z.ltb_ge. lia.
Qed.
Lemma gc_Inv : Inv (after_gc passive st ids g) st' /\ sig (abs (after_gc passive st ids g) st') = sig (abs g st).
Proof.
  destruct (gc_moves g st passive ids HI Hnd) as [HI' _]. split; [done|]. etrans; [exact (Inv_sig_map _ _ HI')|]. symmetry. exact (Inv_sig_map _ _ HI).
Qed.
Lemma gc_read :
  fst (read t r st') = fst (read t r st) \/
  chain st' r = [] /\ exists v, v ∈ chain st r /\ rv_end v = None /\ outlived passive st tx (chain st r) v /\ fst (read t r st) = Ok (Some (row v)).
Proof.
  destruct gc_Inv as [HI' Hsig]. rewrite (read_pure g st t tx r), (read_pure _ st' t tx r HI'), Hsig by (done || by rewrite after_gc_modes).
  pose proof (find_reverse_filter (vis (sig (abs g st)) t (begin_ts tx)) kept (chain st r) gone_unseen) as Hf.
  destruct gc_outcome as [Hc|[Hc|(Hc & v & b & Hs & Hb & He & Hlt & Hbt)]]; rewrite Hc; [by left|left; by rewrite Hf|]. right. split; [done|]. exists v.
  assert (Hin : In v [v]) by (by left). rewrite <- Hs, List.filter_In, <- list_elem_of_In in Hin. split_and!; [apply Hin|done|by left; exists b|].
  rewrite <- Hf, Hs. cbn. unfold vis, vis_begin, vis_end. rewrite Hb, He. by rewrite (proj2 (Z.ltb_lt _ _)) by lia.
Qed.
Lemma gc_valid :
  fst (query_btree_version_is_valid r t st') = fst (query_btree_version_is_valid r t st) \/
  fst (query_btree_version_is_valid r t st) = Ok false /\ fst (query_btree_version_is_valid r t st') = Ok true /\
  exists v, v ∈ chain st r /\ v ∉ chain st' r /\ outlived passive st tx (chain st r) v.
Proof.
  destruct gc_Inv as [HI' Hsig]. rewrite (valid_pure g st t tx r), (valid_pure _ st' t tx r HI'), Hsig by (done || by rewrite after_gc_modes).
  set (h := hides _ _ _). destruct (existsb h (reverse (chain st r))) eqn:H1, (existsb h (reverse (chain st' r))) eqn:H2; [by left| | |by left].
  - right. split; [done|]. split; [done|]. apply existsb_exists in H1 as (v & Hv & Hh). rewrite <- list_elem_of_In, elem_of_reverse in Hv. exists v.
    assert (Hno : v ∉ chain st' r).
    { intros Hin. apply not_true_iff_false in H2. apply H2, existsb_exists. exists v. by rewrite <- list_elem_of_In, elem_of_reverse. }
    split_and!; [done|done|]. destruct (gc_gone v Hv Hno) as [Hg|]; [|done]. exfalso. revert Hh. unfold h, hides, vis, vis_begin.
    apply andb_prop in Hg as [->%bool_decide_eq_true ->%bool_decide_eq_true]. done.
  - exfalso. apply existsb_exists in H2 as (v & Hv & Hh). rewrite <- list_elem_of_In, elem_of_reverse in Hv. apply not_true_iff_false in H1.
    apply H1, existsb_exists. exists v. rewrite <- list_elem_of_In, elem_of_reverse. split; [|done].
    destruct gc_outcome as [Hc|[Hc|(Hc & _)]]; rewrite Hc in Hv; [done| |by apply not_elem_of_nil in Hv].
    rewrite list_elem_of_In, List.filter_In, <- list_elem_of_In in Hv. by destruct Hv.
Qed.
End collection.

(** C29: garbage collection is invisible to the transactions under way.  A version that a pass
    over any chains, blocking or passive, has dropped is garbage, or every transaction under
    way has outlived it: it was committed, or was ended, before the transaction began, and
    the B-tree that the transaction reads has caught up with it.  After the pass a
    transaction reads what it read before, unless the chain is now empty and what it read was
    such a version; and a row of the B-tree that was hidden from it stays hidden, unless such
    a version is gone. *)
Theorem gc_keeps_reads s passive ids t tx r :
  reachable s -> NoDup ids -> txs (store s) !! t = Some tx -> g_modes (gh s) !! t = None ->
  let st := store s in
  let st' := gc_chains passive ids st in
  (forall v, v ∈ chain st r -> v ∉ chain st' r -> is_garbage v = true \/ outlived passive st tx (chain st r) v) /\
  (fst (read t r st') = fst (read t r st) \/
   chain st' r = [] /\ exists v, v ∈ chain st r /\ rv_end v = None /\ outlived passive st tx (chain st r) v /\ fst (read t r st) = Ok (Some (row v))) /\
  (fst (query_btree_version_is_valid r t st') = fst (query_btree_version_is_valid r t st) \/
   fst (query_btree_version_is_valid r t st) = Ok false /\ fst (query_btree_version_is_valid r t st') = Ok true /\
   exists v, v ∈ chain st r /\ v ∉ chain st' r /\ outlived passive st tx (chain st r) v).
Proof. intros [HI _]%reachable_Inv Hnd Htx Hm st st'. split_and!; [by eapply gc_gone|by eapply gc_read|by eapply gc_valid]. Qed.
Lemma gc_keeps_reads_witness :
  let s := at_end ([LBegin; LClient 1 (OInsert (a_row 10))] ++ commit_all 1 ++ [LPublish 1; LBegin]) in
  let tx := default (Transaction_new 0 0 DatabaseHeader_default ORIGIN 0) (txs (store s) !! 2) in
  exists v, v ∈ chain (store s) (1, 7) /\ chain (gc_chains false [(1, 7)] (store s)) (1, 7) = [] /\
    outlived false (store s) tx (chain (store s) (1, 7)) v /\ fst (read 2 (1, 7) (store s)) = Ok (Some (row v)).
Proof.
  intros s tx. destruct (gc_keeps_reads s false [(1, 7)] 2 tx (1, 7)) as (_ & H & _).
  - apply at_end_reachable. vm_compute. reflexivity.
  - apply list.NoDup_singleton.
  - vm_compute. reflexivity.
  - vm_compute. reflexivity.
  - destruct H as [H|(Hc & v & Hv & _ & Ho & Hr)]; [exfalso; vm_compute in H; discriminate H|].
    exists v. split; [exact Hv|]. split; [exact Hc|]. split; [exact Ho|exact Hr].
Defined.

(** ** A dropped commit *)

(** Transaction 1 inserts more rows than one step of its commit rewrites; transaction 2 reads
    one of them while transaction 1 is in preparation. *)
Definition big_row (i : nat) : Row := {| row_id := (1, Z.of_nat i); data := [] |}.
Definition dropped : list label :=
  [LBegin] ++ map (fun i => LClient 1 (OInsert (big_row i))) (seq 1 1025) ++ [LCommit 1] ++ repeat (LStep 1) 4 ++
  [LBegin; LClient 2 (ORead (1, 1))] ++ repeat (LStep 1) 8.

(** Transaction 1 is between two batches, and dropping its commit panics. *)
Definition mid_rewrite (o : option sys) : bool :=
  match o with
  | Some s =>
      match g_modes (gh s) !! 1 with
      | Some (m, false) =>
          match cs m with RewriteLiveVersions e cursor => (e =? 1) && (cursor =? 1024)%nat | _ => false end &&
          is_panic (fst (cleanup_dropped_commit 1 (store s)))
      | _ => false
      end
  | None => false
  end.

Lemma mid_rewrite_panics ls :
  mid_rewrite (run ls init) = true ->
  exists s m, reachable s /\ g_modes (gh s) !! 1 = Some (m, false) /\ cs m = RewriteLiveVersions 1 1024 /\
    fst (cleanup_dropped_commit 1 (store s)) = Panic.
Proof.
  unfold mid_rewrite. destruct (run ls init) as [s|] eqn:Hs; [|done].
  destruct (g_modes (gh s) !! 1) as [[m []]|] eqn:Hm; [done| |done]. intros H.
  apply andb_prop in H as [H1 H2]. exists s, m. split_and!; [eapply run_reachable; [exact Hs|apply rtc_refl]|done|..].
  - destruct (cs m); try done. apply andb_prop in H1 as [->%Z.eqb_eq ->%Nat.eqb_eq]. done.
  - by destruct (fst _).
Qed.

(** C35: a commit that is dropped after the transaction is committed and before its dependents
    are told, which the rewriting of many rows allows by yielding, panics: its clean-up
    removes the transaction, and [remove_tx] asserts that no dependent is left. *)
Theorem dropped_commit_panics :
  exists s m, reachable s /\ g_modes (gh s) !! 1 = Some (m, false) /\ cs m = RewriteLiveVersions 1 1024 /\
    fst (cleanup_dropped_commit 1 (store s)) = Panic.
Proof.
  apply (mid_rewrite_panics dropped). vm_compute. reflexivity.
Qed.
