(* ===== verification/Steps.v ===== *)
(** Programs of several threads over one shared state.  A thread's code is a tree of atomic
    accesses to the shared state, written in the order of the source; between two accesses
    of a thread the others may make theirs.  The component that uses it is the WAL
    coordination (WalCoord.v). *)

From stdpp Require Import base list numbers relations.
From Stdlib Require Import ZArith Lia.
From S2P Require Import Prelude.

(** * Programs *)

(** [Atomic fresh f k]: one access [f], then [k] of what it returned.  [f] gets a number
    the environment chooses (a failed I/O, a lost race, a random number) and panics when it
    is [None].  [fresh] does not change what the program does: it says what a value the
    program loaded earlier was relied on to be still true of the state at this access. *)
Inductive prog (S A : Type) : Type :=
| Ret (a : A)
| Atomic {X : Type} (fresh : S -> bool) (f : Z -> S -> option (X * S)) (k : X -> prog S A).
Arguments Ret {S A} a.
Arguments Atomic {S A X} fresh f k.

Fixpoint prog_bind {S A B} (h : A -> prog S B) (p : prog S A) : prog S B :=
  match p with
  | Ret a => h a
  | Atomic fresh f k => Atomic fresh f (fun x => prog_bind h (k x))
  end.
Global Instance prog_MRet {S} : MRet (prog S) := fun A a => Ret a.
Global Instance prog_MBind {S} : MBind (prog S) := fun A B h p => prog_bind h p.

(** One access that relies on nothing loaded before. *)
Definition act {S X} (f : Z -> S -> option (X * S)) : prog S X := Atomic (fun _ => true) f Ret.
(** One access whose only effect is on the state. *)
Definition store {S} (f : S -> S) : prog S unit := act (fun _ s => Some (tt, f s)).
Definition load {S X} (f : S -> X) : prog S X := act (fun _ s => Some (f s, s)).
(** [assert!(b)] on values the thread has. *)
Definition passert {S} (b : bool) : prog S unit := act (fun _ s => if b then Some (tt, s) else None).
(** An I/O operation that may fail. *)
Definition io {S} (f : S -> S) : prog S bool :=
  act (fun e s => if e =? 0 then Some (false, s) else Some (true, f s)).
