(* ===== verification/WalCoord.v ===== *)
(** The write-ahead log shared by the connections of a process: read transactions that pin
    a snapshot with a read mark, the single writer that appends frames and publishes its
    commit, checkpoints that copy frames into the database file, and restarts of the log
    ([InProcessWalCoordination] and [WalFile] of core/storage/wal.rs, driven as
    core/storage/pager.rs drives them).

    Every access to the shared state is one atomic step, in the order of the source, so the
    operations of the connections interleave.  A call of a [TursoRwLock] is one step here,
    with the effect RwLock.v gives it ([spec_call]); an attempt to take one may also fail
    for no reason, as a lost [compare_exchange] does. *)

From stdpp Require Import base list gmap numbers relations sorting functions.
From Stdlib Require Import ZArith Lia.
From S2P Require Import Prelude WalFormat RwLock Steps.

(** * Shared state *)

(** [WalSnapshot]. *)
Record WalSnapshot : Type := MkSnapshot {
  max_frame : Z;
  nbackfills : Z;
  last_checksum : Z * Z;
  snap_checkpoint_seq : Z;
  transaction_count : Z
}.
Global Instance WalSnapshot_eq_dec : EqDecision WalSnapshot.
Proof. solve_decision. Defined.
Definition min_frame (s : WalSnapshot) : Z := nbackfills s + 1.

(** The locks of [WalSharedRuntime]. *)
Inductive lockname : Type := LRead (slot : nat) | LWrite | LCheckpoint | LVacuum.
Global Instance lockname_eq_dec : EqDecision lockname.
Proof. solve_decision. Defined.

Definition READMARK_NOT_USED : Z := 0xffffffff.
Definition U32_MAX : Z := 2 ^ 32 - 1.
Definition IOV_MAX : Z := 1024.

(** [WalSharedMetadata] and [WalSharedRuntime], with the contents of the log file (its
    frames by number) and of the database file (its pages). *)
Record WalShared : Type := MkShared {
  sh_header : WalHeader;
  sh_max_frame : Z;
  sh_nbackfills : Z;
  sh_last_checksum : Z * Z;
  sh_transaction_count : Z;
  sh_initialized : bool;
  sh_frame_cache : gmap Z (list Z);
  sh_high_water : Z;
  sh_locks : lockname -> alock;
  sh_epoch : Z;
  sh_wal : gmap Z wframe;
  sh_db : Z -> list Z
}.

Definition set_lock (l : lockname) (a : alock) (s : WalShared) : WalShared :=
  let 'MkShared h m nb ck tx ini fc hw lk ep w db := s in
  MkShared h m nb ck tx ini fc hw (<[l := a]> lk) ep w db.
Definition set_cache (fc : gmap Z (list Z)) (hw : Z) (s : WalShared) : WalShared :=
  let 'MkShared h m nb ck tx ini _ _ lk ep w db := s in MkShared h m nb ck tx ini fc hw lk ep w db.
Definition set_initialized (b : bool) (s : WalShared) : WalShared :=
  let 'MkShared h m nb ck tx _ fc hw lk ep w db := s in MkShared h m nb ck tx b fc hw lk ep w db.
Definition set_wal (w : gmap Z wframe) (s : WalShared) : WalShared :=
  let 'MkShared h m nb ck tx ini fc hw lk ep _ db := s in MkShared h m nb ck tx ini fc hw lk ep w db.
Definition set_db (db : Z -> list Z) (s : WalShared) : WalShared :=
  let 'MkShared h m nb ck tx ini fc hw lk ep w _ := s in MkShared h m nb ck tx ini fc hw lk ep w db.
Definition set_header (h : WalHeader) (ck : Z * Z) (s : WalShared) : WalShared :=
  let 'MkShared _ m nb _ tx ini fc hw lk ep w db := s in MkShared h m nb ck tx ini fc hw lk ep w db.

(** [read_locks[slot].get_value()]. *)
Definition mark_of (s : WalShared) (slot : nat) : Z := a_value (sh_locks s (LRead slot)).

Definition snapshot_of (s : WalShared) : WalSnapshot :=
  MkSnapshot (sh_max_frame s) (sh_nbackfills s) (sh_last_checksum s) (checkpoint_seq (sh_header s))
    (sh_transaction_count s).

(** ** Locks *)

Definition granted (c : call) (h : held) : bool :=
  match c, h with
  | CRead, HRead | CWrite, HWrite | CUpgrade, HWrite => true
  | _, _ => false
  end.
(** [read()], [write()] and [upgrade()]: whether the lock was taken. *)
Definition try_lock (c : call) (l : lockname) : prog WalShared bool :=
  act (fun e s =>
    if e =? 0 then Some (false, s)
    else let '(a, h) := spec_call c (sh_locks s l) in Some (granted c h, set_lock l a s)).
(** [unlock()] panics when nobody holds the lock. *)
Definition unlock (l : lockname) : prog WalShared unit :=
  act (fun _ s =>
    let a := sh_locks s l in
    if a_writer a || (0 <? a_readers a) then Some (tt, set_lock l (fst (spec_call CUnlock a)) s) else None).
Definition downgrade (l : lockname) : prog WalShared unit :=
  act (fun _ s =>
    let a := sh_locks s l in
    if a_writer a then Some (tt, set_lock l (fst (spec_call CDowngrade a)) s) else None).
(** [set_value_exclusive] panics without the writer bit. *)
Definition set_value (slot : nat) (v : Z) (s : WalShared) : option WalShared :=
  let a := sh_locks s (LRead slot) in
  if a_writer a then Some (set_lock (LRead slot) (fst (spec_call (CSetValue v) a)) s) else None.

Definition try_read_mark_shared (slot : nat) : prog WalShared bool := try_lock CRead (LRead slot).
Definition try_read_mark_exclusive (slot : nat) : prog WalShared bool := try_lock CWrite (LRead slot).
Definition try_upgrade_read_mark (slot : nat) : prog WalShared bool := try_lock CUpgrade (LRead slot).
Definition downgrade_read_mark (slot : nat) : prog WalShared unit := downgrade (LRead slot).
Definition unlock_read_mark (slot : nat) : prog WalShared unit := unlock (LRead slot).
Definition read_mark_value (slot : nat) : prog WalShared Z := load (fun s => mark_of s slot).
Definition set_read_mark_value_exclusive (slot : nat) (v : Z) : prog WalShared unit :=
  act (fun _ s => s' ← set_value slot v s; Some (tt, s')).
Definition try_write_lock : prog WalShared bool := try_lock CWrite LWrite.
Definition unlock_write_lock : prog WalShared unit := unlock LWrite.
Definition unlock_checkpoint_lock : prog WalShared unit := unlock LCheckpoint.

(** The slots [1..5]. *)
Definition mark_slots : list nat := [1; 2; 3; 4]%nat.

(** ** Metadata *)

Definition load_snapshot : prog WalShared WalSnapshot := load snapshot_of.
Definition publish_commit (max : Z) (ck : Z * Z) (tx : Z) : prog WalShared unit :=
  store (fun s =>
    let 'MkShared h _ nb _ _ ini fc hw lk ep w db := s in MkShared h max nb ck tx ini fc hw lk ep w db).
Definition coord_publish_backfill (max : Z) : prog WalShared unit :=
  store (fun s =>
    let 'MkShared h m _ ck tx ini fc hw lk ep w db := s in MkShared h m max ck tx ini fc hw lk ep w db).
Definition bump_checkpoint_epoch : prog WalShared unit :=
  store (fun s =>
    let 'MkShared h m nb ck tx ini fc hw lk ep w db := s in MkShared h m nb ck tx ini fc hw lk (wrap 32 (ep + 1)) w db).

(** ** The frame cache *)

(** [frames.iter().rfind(|f| (lo..=hi).contains(f))]. *)
Definition rfind_frame (lo hi : Z) (frames : list Z) : option Z :=
  list.last (filter (fun f => (lo <=? f) && (f <=? hi) = true) frames).
Definition cache_find (fc : gmap Z (list Z)) (page lo hi : Z) : option Z :=
  fc !! page ≫= rfind_frame lo hi.
Definition coord_find_frame (page lo hi : Z) : prog WalShared (option Z) :=
  load (fun s => cache_find (sh_frame_cache s) page lo hi).

(** [while frames.last() > bound { frames.pop() }]. *)
Fixpoint pop_above (bound : Z) (rev_frames : list Z) : list Z :=
  match rev_frames with
  | f :: rest => if bound <? f then pop_above bound rest else rev_frames
  | [] => []
  end.
(** The closure of the [retain]: a page whose list becomes empty is dropped. *)
Definition truncate_frames (bound : Z) (frames : list Z) : option (list Z) :=
  match reverse (pop_above bound (reverse frames)) with [] => None | l => Some l end.
Definition truncate_cache (bound : Z) (fc : gmap Z (list Z)) : gmap Z (list Z) :=
  omap (truncate_frames bound) fc.

Definition cache_insert (page frame : Z) (fc : gmap Z (list Z)) : gmap Z (list Z) :=
  match fc !! page with
  | Some frames => <[page := frames ++ [frame]]> fc
  | None => <[page := [frame]]> fc
  end.
Definition cache_frame (page frame : Z) : prog WalShared unit :=
  store (fun s =>
    let fc := sh_frame_cache s in
    let fc := if frame <=? sh_high_water s then truncate_cache (frame - 1) fc else fc in
    set_cache (cache_insert page frame fc) frame s).
Definition rollback_cache (max : Z) : prog WalShared unit :=
  store (fun s =>
    set_cache (truncate_cache max (sh_frame_cache s))
      (if max <? sh_high_water s then max else sh_high_water s) s).

(** [(frame, page)] order, as [checkpoint_inner] sorts what [iter_latest_frames] returns. *)
Definition frame_le (x y : Z * Z) : Prop := snd x < snd y \/ snd x = snd y /\ fst x <= fst y.
Global Instance frame_le_dec : RelDecision frame_le.
Proof. intros x y. unfold frame_le. apply _. Defined.
Definition latest_frames (lo hi : Z) (fc : gmap Z (list Z)) : list (Z * Z) :=
  omap (fun '(page, frames) => f ← rfind_frame lo hi frames; Some (page, f)) (map_to_list fc).
Definition iter_latest_frames (lo hi : Z) : prog WalShared (list (Z * Z)) :=
  load (fun s => merge_sort frame_le (latest_frames lo hi (sh_frame_cache s))).

(** ** Read marks *)

Inductive ReadGuardKind : Type := GuardNone | DbFile | ReadMark (slot : nat).
Global Instance ReadGuardKind_eq_dec : EqDecision ReadGuardKind.
Proof. solve_decision. Defined.

(** The best mark so far: its slot, if any, and its value. *)
Fixpoint scan_marks (slots : list nat) (max : Z) (best_idx : option nat) (best_mark : Z) :
    prog WalShared (option nat * Z) :=
  match slots with
  | [] => mret (best_idx, best_mark)
  | idx :: slots =>
      mark ← read_mark_value idx;
      if negb (mark =? READMARK_NOT_USED) && (mark <=? wrap 32 max) && (best_mark <? mark)
      then scan_marks slots max (Some idx) mark
      else scan_marks slots max best_idx best_mark
  end.
Fixpoint claim_mark (slots : list nat) (max : Z) (best_idx : option nat) (best_mark : Z) :
    prog WalShared (option nat * Z) :=
  match slots with
  | [] => mret (best_idx, best_mark)
  | idx :: slots =>
      ok ← try_read_mark_exclusive idx;
      if ok : bool then
        _ ← set_read_mark_value_exclusive idx (wrap 32 max);
        _ ← unlock_read_mark idx;
        mret (Some idx, wrap 32 max)
      else claim_mark slots max best_idx best_mark
  end.

Definition coord_try_begin_read_tx (snapshot : WalSnapshot) : prog WalShared (option ReadGuardKind) :=
  _ ← passert (max_frame snapshot <=? U32_MAX);
  if max_frame snapshot =? nbackfills snapshot then
    ok ← try_read_mark_shared 0;
    if negb ok then mret None
    else
      after ← load_snapshot;
      if decide (after = snapshot) then mret (Some DbFile)
      else _ ← unlock_read_mark 0; mret None
  else
    '(best_idx, best_mark) ← scan_marks mark_slots (max_frame snapshot) None 0;
    '(best_idx, best_mark) ←
      (if bool_decide (best_idx = None) || (best_mark <? max_frame snapshot)
       then claim_mark mark_slots (max_frame snapshot) best_idx best_mark
       else mret (best_idx, best_mark));
    match best_idx with
    | None => mret None
    | Some idx =>
        ok ← try_read_mark_shared idx;
        if negb ok then mret None
        else
          after ← load_snapshot;
          current ← read_mark_value idx;
          if negb (current =? best_mark) || bool_decide (after <> snapshot)
          then _ ← unlock_read_mark idx; mret None
          else mret (Some (ReadMark idx))
    end.

Definition guard_slot (g : ReadGuardKind) : option nat :=
  match g with GuardNone => None | DbFile => Some 0%nat | ReadMark s => Some s end.
Definition coord_end_read_tx (g : ReadGuardKind) : prog WalShared unit :=
  match guard_slot g with None => mret tt | Some s => unlock_read_mark s end.

(** * A connection *)

(** The connection's fields of [WalFile]; [wal_vacuum_guard] is whether it holds the read
    side of the VACUUM lock. *)
Record WalFile : Type := MkWal {
  wal_max_frame : Z;
  wal_min_frame : Z;
  wal_last_checksum : Z * Z;
  wal_checkpoint_seq : Z;
  wal_transaction_count : Z;
  wal_read_guard : ReadGuardKind;
  wal_write_lock_held : bool;
  wal_vacuum_guard : bool
}.
(** [connection_state().snapshot]. *)
Definition local_snapshot (w : WalFile) : WalSnapshot :=
  MkSnapshot (wal_max_frame w) (Z.max 0 (wal_min_frame w - 1)) (wal_last_checksum w) (wal_checkpoint_seq w)
    (wal_transaction_count w).
(** [install_connection_state]. *)
Definition install_connection_state (s : WalSnapshot) (g : ReadGuardKind) (w : WalFile) : WalFile :=
  MkWal (max_frame s) (min_frame s) (last_checksum s) (snap_checkpoint_seq s) (transaction_count s) g
    (wal_write_lock_held w) (wal_vacuum_guard w).
Definition set_guards (g : ReadGuardKind) (v : bool) (w : WalFile) : WalFile :=
  MkWal (wal_max_frame w) (wal_min_frame w) (wal_last_checksum w) (wal_checkpoint_seq w)
    (wal_transaction_count w) g (wal_write_lock_held w) v.
Definition set_write_lock_held (b : bool) (w : WalFile) : WalFile :=
  MkWal (wal_max_frame w) (wal_min_frame w) (wal_last_checksum w) (wal_checkpoint_seq w)
    (wal_transaction_count w) (wal_read_guard w) b (wal_vacuum_guard w).
(** The connection's write cursor: [max_frame] and [last_checksum]. *)
Definition set_cursor (max : Z) (ck : Z * Z) (w : WalFile) : WalFile :=
  MkWal max (wal_min_frame w) ck (wal_checkpoint_seq w) (wal_transaction_count w) (wal_read_guard w)
    (wal_write_lock_held w) (wal_vacuum_guard w).
Definition set_transaction_count (tx : Z) (w : WalFile) : WalFile :=
  MkWal (wal_max_frame w) (wal_min_frame w) (wal_last_checksum w) (wal_checkpoint_seq w) tx
    (wal_read_guard w) (wal_write_lock_held w) (wal_vacuum_guard w).

(** What a method returns to its caller. *)
Definition reply (A : Type) : Type := (A + LimboError)%type.

(** ** Read transactions *)

Inductive TryBeginReadResult : Type := TryOk (changed : bool) | TryRetry | TryBusy.

Definition try_begin_read_tx (w : WalFile) : prog WalShared (TryBeginReadResult * WalFile) :=
  _ ← passert (bool_decide (wal_read_guard w = GuardNone));
  _ ← passert (negb (wal_vacuum_guard w));
  ok ← try_lock CRead LVacuum;
  if negb ok then mret (TryBusy, w)
  else
    shared_snapshot ← load_snapshot;
    _ ← passert (nbackfills shared_snapshot <=? max_frame shared_snapshot);
    let db_changed := bool_decide (shared_snapshot <> local_snapshot w) in
    read_guard ← coord_try_begin_read_tx shared_snapshot;
    match read_guard with
    | None => _ ← unlock LVacuum; mret (TryRetry, w)
    | Some g => mret (TryOk db_changed, install_connection_state shared_snapshot g (set_guards g true w))
    end.

(** [begin_read_tx] tries again after a transient failure, [retries] times. *)
Fixpoint begin_read_loop (retries : nat) (w : WalFile) : prog WalShared (reply bool * WalFile) :=
  '(r, w') ← try_begin_read_tx w;
  match r with
  | TryOk changed => mret (inl changed, w')
  | TryBusy => mret (inr Busy, w')
  | TryRetry =>
      match retries with
      | O => mret (inr Busy, w')
      | Datatypes.S retries => begin_read_loop retries w'
      end
  end.
Definition begin_read_tx (w : WalFile) : prog WalShared (reply bool * WalFile) := begin_read_loop 100 w.

Definition end_read_tx (w : WalFile) : prog WalShared WalFile :=
  match guard_slot (wal_read_guard w) with
  | Some _ =>
      _ ← coord_end_read_tx (wal_read_guard w);
      _ ← passert (wal_vacuum_guard w);
      _ ← unlock LVacuum;
      mret (set_guards GuardNone false w)
  | None => _ ← passert (negb (wal_vacuum_guard w)); mret w
  end.

(** [find_frame] without a watermark. *)
Definition find_frame (w : WalFile) (page : Z) : prog WalShared (option Z) :=
  _ ← load_snapshot;
  if bool_decide (wal_read_guard w = DbFile) && (wal_max_frame w <? wal_min_frame w) then mret None
  else coord_find_frame page (wal_min_frame w) (wal_max_frame w).

(** [read_frame] and the read of the database file: [None] is a failed or a short read. *)
Definition read_wal_frame (frame : Z) : prog WalShared (option (list Z)) :=
  act (fun e s => if e =? 0 then Some (None, s) else Some (wf_data <$> sh_wal s !! frame, s)).
Definition read_db_page (page : Z) : prog WalShared (option (list Z)) :=
  act (fun e s => if e =? 0 then Some (None, s) else Some (Some (sh_db s page), s)).
(** [Pager::read_page_no_cache]. *)
Definition read_page_no_cache (w : WalFile) (page : Z) : prog WalShared (option (list Z)) :=
  frame ← find_frame w page;
  match frame with
  | Some f => read_wal_frame f
  | None => read_db_page page
  end.

(** ** Restarting the log *)

(** [begin_restart]'s loop: every slot taken and freed of its mark, or none. *)
Fixpoint unlock_marks (slots : list nat) : prog WalShared unit :=
  match slots with
  | [] => mret tt
  | idx :: slots => _ ← unlock_read_mark idx; unlock_marks slots
  end.
Fixpoint lock_marks (taken slots : list nat) : prog WalShared bool :=
  match slots with
  | [] => mret true
  | idx :: slots =>
      ok ← try_read_mark_exclusive idx;
      if ok : bool then
        _ ← set_read_mark_value_exclusive idx READMARK_NOT_USED;
        lock_marks (taken ++ [idx]) slots
      else _ ← unlock_marks taken; mret false
  end.

Definition restart_header (rnd : Z) (h : WalHeader) : WalHeader := {|
  magic := magic h; file_format := file_format h; wal_page_size := wal_page_size h;
  checkpoint_seq := wrap 32 (checkpoint_seq h + 1); salt_1 := wrap 32 (salt_1 h + 1); salt_2 := wrap 32 rnd;
  checksum_1 := checksum_1 h; checksum_2 := checksum_2 h |}.
Definition restart_wal_header (rnd : Z) (s : WalShared) : option WalShared :=
  let h := restart_header rnd (sh_header s) in
  let s := MkShared h 0 0 (checksum_1 h, checksum_2 h) (sh_transaction_count s) false ∅ 0 (sh_locks s)
             (sh_epoch s) (sh_wal s) (sh_db s) in
  s ← set_value 0 0 s;
  s ← set_value 1 0 s;
  s ← set_value 2 READMARK_NOT_USED s;
  s ← set_value 3 READMARK_NOT_USED s;
  set_value 4 READMARK_NOT_USED s.
Definition begin_restart : prog WalShared (reply WalSnapshot) :=
  ok ← lock_marks [] mark_slots;
  if negb ok then mret (inr Busy)
  else act (fun e s => s' ← restart_wal_header e s; Some (inl (snapshot_of s'), s')).
Definition end_restart : prog WalShared unit := unlock_marks mark_slots.

Definition apply_restart_snapshot (s : WalSnapshot) (w : WalFile) : WalFile :=
  MkWal (max_frame s) 0 (last_checksum s) (snap_checkpoint_seq s) (wal_transaction_count w) (wal_read_guard w)
    (wal_write_lock_held w) (wal_vacuum_guard w).

Definition try_restart_log_for_write : prog WalShared (reply (option WalSnapshot)) :=
  ok ← try_upgrade_read_mark 0;
  if negb ok then mret (inl None)
  else
    result ← begin_restart;
    _ ← downgrade_read_mark 0;
    match result with
    | inl snapshot => _ ← end_restart; mret (inl (Some snapshot))
    | inr e => mret (inr e)
    end.
Definition try_restart_log_before_write (w : WalFile) : prog WalShared (reply unit * WalFile) :=
  if negb (bool_decide (wal_read_guard w = DbFile)) then mret (inl tt, w)
  else
    snapshot ← load_snapshot;
    if nbackfills snapshot =? 0 then mret (inl tt, w)
    else
      _ ← passert (nbackfills snapshot <=? max_frame snapshot);
      if negb (max_frame snapshot =? nbackfills snapshot) then mret (inl tt, w)
      else
        r ← try_restart_log_for_write;
        match r with
        | inl (Some snapshot) => _ ← bump_checkpoint_epoch; mret (inl tt, apply_restart_snapshot snapshot w)
        | inl None => mret (inl tt, w)
        | inr e => mret (inr e, w)
        end.

(** ** Write transactions *)

(** [restart] is whether [allowed_auto_actions] contains [Restart]. *)
Definition begin_write_tx (restart : bool) (w : WalFile) : prog WalShared (reply unit * WalFile) :=
  _ ← passert (negb (bool_decide (wal_read_guard w = GuardNone)));
  _ ← passert (negb (wal_write_lock_held w));
  ok ← try_write_lock;
  if negb ok then mret (inr Busy, w)
  else
    snapshot ← load_snapshot;
    if bool_decide (snapshot <> local_snapshot w) then
      _ ← unlock_write_lock; mret (inr BusySnapshot, w)
    else
      let w := set_write_lock_held true w in
      if negb restart then mret (inl tt, w)
      else
        '(result, w) ← try_restart_log_before_write w;
        match result with
        | inl _ | inr Busy => mret (inl tt, w)
        | inr e => _ ← unlock_write_lock; mret (inr e, set_write_lock_held false w)
        end.
Definition end_write_tx (w : WalFile) : prog WalShared WalFile :=
  _ ← passert (wal_write_lock_held w);
  _ ← unlock_write_lock;
  mret (set_write_lock_held false w).

(** [RollbackTo]: a position of the connection's write cursor. *)
Record RollbackTo : Type := MkPos { pos_frame : Z; pos_checksum : Z * Z; pos_checkpoint_seq : Z }.
Definition connection_wal_pos (w : WalFile) : RollbackTo :=
  MkPos (wal_max_frame w) (wal_last_checksum w) (wal_checkpoint_seq w).
Definition rollback (to : option RollbackTo) (w : WalFile) : prog WalShared WalFile :=
  snapshot ← load_snapshot;
  _ ← passert (match to with
               | Some r => (pos_checkpoint_seq r =? snap_checkpoint_seq snapshot) && (max_frame snapshot <=? pos_frame r)
               | None => true
               end);
  let max := match to with Some r => pos_frame r | None => max_frame snapshot end in
  let ck := match to with Some r => pos_checksum r | None => last_checksum snapshot end in
  _ ← rollback_cache max;
  mret (set_cursor max ck w).

Section frames.
(** The machine's byte order and the page size of the database. *)
Context (big : bool) (page_sz : Z).

(** [prepare_wal_header] of the coordination, under the write side of the shared lock. *)
Definition coord_prepare_wal_header : prog WalShared (option WalHeader) :=
  act (fun e s =>
    if sh_initialized s then Some (None, s)
    else match prepare_wal_header big (e / 2 ^ 32) e page_sz (sh_header s) with
         | Ok h => Some (Some h, set_header h (checksum_1 h, checksum_2 h) s)
         | _ => None
         end).
(** The write of the header and the truncation of what an earlier generation left: either
    may fail, and the truncation is skipped when the size of the file is not known. *)
Definition write_header : prog WalShared bool :=
  act (fun e s => Some (Z.odd e, if Z.odd (e / 2) then set_wal ∅ s else s)).
Definition prepare_wal_start (w : WalFile) : prog WalShared (reply bool * WalFile) :=
  initialized ← load sh_initialized;
  if initialized : bool then mret (inl false, w)
  else
    header ← coord_prepare_wal_header;
    match header with
    | None => mret (inl false, w)
    | Some h =>
        let w := set_cursor 0 (checksum_1 h, checksum_2 h) w in
        ok ← write_header;
        mret (if ok : bool then inl true else inr IOError, w)
    end.
Definition prepare_wal_finish : prog WalShared (reply unit) :=
  ok ← io (set_initialized true);
  mret (if ok : bool then inl tt else inr IOError).

(** A frame to append: the page, the frame's number, its contents and rolling checksum. *)
Record PFrame : Type := MkPFrame { pf_page : Z; pf_id : Z; pf_frame : wframe; pf_checksum : Z * Z }.
(** The loop over the pages of a batch; [frame_ck] is what WalFormat.v proves
    [prepare_wal_frame] to compute. *)
Fixpoint build_frames (h : WalHeader) (ck : Z * Z) (next : Z) (pages : list (Z * list Z)) (db_size_on_commit : Z) :
    list PFrame :=
  match pages with
  | [] => []
  | (page, data) :: pages =>
      let f := {| wf_page := wrap 32 page; wf_data := data;
                  wf_db_size := match pages with [] => db_size_on_commit | _ => 0 end |} in
      let ck := frame_ck h ck f in
      MkPFrame page next f ck :: build_frames h ck (next + 1) pages db_size_on_commit
  end.
Definition final_checksum (ck : Z * Z) (frames : list PFrame) : Z * Z :=
  default ck (pf_checksum <$> list.last frames).

(** The vectored write of a batch: the frames land one after the other. *)
Fixpoint write_frames (frames : list PFrame) : prog WalShared bool :=
  match frames with
  | [] => mret true
  | f :: frames =>
      ok ← io (fun s => set_wal (<[pf_id f := pf_frame f]> (sh_wal s)) s);
      if ok : bool then write_frames frames else mret false
  end.
Fixpoint cache_frames (frames : list PFrame) : prog WalShared unit :=
  match frames with
  | [] => mret tt
  | f :: frames => _ ← cache_frame (pf_page f) (pf_id f); cache_frames frames
  end.

(** The checks both appending paths begin with, and the header they use. *)
Definition wal_ready (pages : list (Z * list Z)) : prog WalShared WalHeader :=
  _ ← passert (len pages <=? IOV_MAX);
  initialized ← load sh_initialized;
  _ ← passert initialized;
  header ← load sh_header;
  _ ← passert (wal_page_size header =? page_sz);
  mret header.

(** The write cursor moves when the write is submitted; the frames are cached when it has
    succeeded. *)
Definition append_frames_vectored (pages : list (Z * list Z)) (w : WalFile) : prog WalShared (reply unit * WalFile) :=
  header ← wal_ready pages;
  let frames := build_frames header (wal_last_checksum w) (wal_max_frame w + 1) pages 0 in
  let w' := set_cursor (wal_max_frame w + len pages) (final_checksum (wal_last_checksum w) frames) w in
  ok ← write_frames frames;
  if negb ok then mret (inr IOError, w')
  else _ ← cache_frames frames; mret (inl tt, w').

(** [PreparedFrames]. *)
Record PreparedFrames : Type := MkPrepared {
  prep_frames : list PFrame;
  prep_final_checksum : Z * Z;
  prep_final_max_frame : Z
}.
Definition prepare_frames (pages : list (Z * list Z)) (db_size_on_commit : option Z) (prev : option PreparedFrames)
    (w : WalFile) : prog WalShared (PreparedFrames * WalFile) :=
  _ ← passert (0 <? len pages);
  header ← wal_ready pages;
  '(rolling, next, w) ←
    (match prev with
     | Some p => mret (prep_final_checksum p, prep_final_max_frame p + 1, w)
     | None =>
         snapshot ← load_snapshot;
         if max_frame snapshot <? wal_max_frame w then mret (wal_last_checksum w, wal_max_frame w + 1, w)
         else
           _ ← passert (wal_max_frame w =? max_frame snapshot);
           let w := if bool_decide (snapshot <> local_snapshot w)
                    then install_connection_state snapshot (wal_read_guard w) w else w in
           mret (last_checksum snapshot, max_frame snapshot + 1, w)
     end);
  let rolling := if next =? 1 then (checksum_1 header, checksum_2 header) else rolling in
  let frames := build_frames header rolling next pages (default 0 db_size_on_commit) in
  mret (MkPrepared frames (final_checksum rolling frames) (next + len pages - 1), w).

(** [complete_append_frame] for every frame of a batch, and its final position. *)
Fixpoint complete_append_frames (frames : list PFrame) (w : WalFile) : prog WalShared WalFile :=
  match frames with
  | [] => mret w
  | f :: frames =>
      let w := set_cursor (pf_id f) (pf_checksum f) w in
      _ ← cache_frame (pf_page f) (pf_id f);
      complete_append_frames frames w
  end.
Fixpoint commit_prepared_frames (batches : list PreparedFrames) (w : WalFile) : prog WalShared WalFile :=
  match batches with
  | [] => mret w
  | b :: batches =>
      w ← complete_append_frames (prep_frames b) w;
      commit_prepared_frames batches (set_cursor (prep_final_max_frame b) (prep_final_checksum b) w)
  end.
Definition finish_append_frames_commit (w : WalFile) : prog WalShared WalFile :=
  let tx := wrap 64 (wal_transaction_count w + 1) in
  _ ← publish_commit (wal_max_frame w) (wal_last_checksum w) tx;
  mret (set_transaction_count tx w).

(** ** The pager's paths *)

(** [prepare_wal_start] and, when it wrote a header, [prepare_wal_finish]. *)
Definition prepare_wal (w : WalFile) : prog WalShared (reply unit * WalFile) :=
  '(r, w) ← prepare_wal_start w;
  match r with
  | inl true => r ← prepare_wal_finish; mret (r, w)
  | inl false => mret (inl tt, w)
  | inr e => mret (inr e, w)
  end.
(** [try_spill_dirty_pages]. *)
Definition spill (pages : list (Z * list Z)) (w : WalFile) : prog WalShared (reply unit * WalFile) :=
  '(r, w) ← prepare_wal w;
  match r with
  | inl _ => append_frames_vectored pages w
  | inr e => mret (inr e, w)
  end.

(** [prepare_collected_frames] batch by batch, each chained to the one before it; the last
    one carries the commit marker. *)
Fixpoint prepare_batches (batches : list (list (Z * list Z))) (db_size : Z) (prev : option PreparedFrames)
    (w : WalFile) : prog WalShared (list PreparedFrames * WalFile) :=
  match batches with
  | [] => mret ([], w)
  | pages :: batches =>
      '(p, w) ← prepare_frames pages (match batches with [] => Some db_size | _ => None end) prev w;
      '(ps, w) ← prepare_batches batches db_size (Some p) w;
      mret (p :: ps, w)
  end.
Fixpoint write_batches (batches : list PreparedFrames) : prog WalShared bool :=
  match batches with
  | [] => mret true
  | b :: batches => ok ← write_frames (prep_frames b); if ok : bool then write_batches batches else mret false
  end.
(** [commit_wal_inner]: the log is made ready, the dirty pages are written and synced, and
    only then the frames enter the cache and the commit is published. *)
Definition commit_wal (batches : list (list (Z * list Z))) (db_size : Z) (w : WalFile) :
    prog WalShared (reply unit * WalFile) :=
  '(r, w) ← prepare_wal w;
  match r with
  | inr e => mret (inr e, w)
  | inl _ =>
      match batches with
      | [] => mret (inl tt, w)
      | _ =>
          '(prepared, w) ← prepare_batches batches db_size None w;
          ok ← write_batches prepared;
          if negb ok then mret (inr IOError, w)
          else
            ok ← io id;
            if negb ok then mret (inr IOError, w)
            else
              w ← commit_prepared_frames prepared w;
              w ← finish_append_frames_commit w;
              mret (inl tt, w)
      end
  end.
End frames.

(** * Checkpoints *)

Inductive CheckpointMode : Type :=
| Passive (upper_bound_inclusive : option Z)
| Full
| Restart
| Truncate (upper_bound_inclusive : option Z).
Definition should_restart_log (m : CheckpointMode) : bool :=
  match m with Truncate _ | Restart => true | _ => false end.
Definition require_all_backfilled (m : CheckpointMode) : bool :=
  match m with Passive _ => false | _ => true end.

(** [CoordinationCheckpointGuardKind]. *)
Inductive CheckpointGuard : Type := GuardWriter | GuardRead0.
Definition release_checkpoint_guard (g : CheckpointGuard) : prog WalShared unit :=
  match g with
  | GuardWriter => _ ← unlock_write_lock; _ ← unlock_read_mark 0; unlock_checkpoint_lock
  | GuardRead0 => _ ← unlock_read_mark 0; unlock_checkpoint_lock
  end.

(** [acquire_checkpoint_guard].  The checkpoint goes on to copy from the frame after
    [nbackfills], which it loaded before: what it relies on when it holds the guard is that
    no other checkpoint or restart has moved it. *)
Definition try_read0_for_checkpoint (nbackfills : Z) : prog WalShared bool :=
  Atomic (fun s => sh_nbackfills s =? nbackfills)
    (fun e s =>
      if e =? 0 then Some (false, s)
      else let '(a, h) := spec_call CWrite (sh_locks s (LRead 0)) in
           Some (granted CWrite h, set_lock (LRead 0) a s)) Ret.
Definition acquire_checkpoint_guard (mode : CheckpointMode) (nbackfills : Z) :
    prog WalShared (reply CheckpointGuard) :=
  ok ← try_lock CWrite LCheckpoint;
  if negb ok then mret (inr Busy)
  else
    ok ← try_read0_for_checkpoint nbackfills;
    if negb ok then _ ← unlock_checkpoint_lock; mret (inr Busy)
    else
      match mode with
      | Passive _ => mret (inl GuardRead0)
      | Full =>
          ok ← try_write_lock;
          if ok : bool then mret (inl GuardWriter)
          else _ ← unlock_read_mark 0; _ ← unlock_checkpoint_lock; mret (inr Busy)
      | Restart | Truncate _ =>
          ok ← try_write_lock;
          if ok : bool then mret (inl GuardWriter)
          else _ ← unlock_checkpoint_lock; _ ← unlock_read_mark 0; mret (inr Busy)
      end.

(** [determine_max_safe_checkpoint_frame]. *)
Fixpoint max_safe_loop (slots : list nat) (max_safe : Z) : prog WalShared Z :=
  match slots with
  | [] => mret max_safe
  | idx :: slots =>
      this_mark ← read_mark_value idx;
      if this_mark <? wrap 32 max_safe then
        ok ← try_read_mark_exclusive idx;
        if ok : bool then
          _ ← set_read_mark_value_exclusive idx (if (idx =? 1)%nat then wrap 32 max_safe else READMARK_NOT_USED);
          _ ← unlock_read_mark idx;
          max_safe_loop slots max_safe
        else max_safe_loop slots this_mark
      else max_safe_loop slots max_safe
  end.
Definition determine_max_safe_checkpoint_frame : prog WalShared Z :=
  snapshot ← load_snapshot;
  _ ← passert (max_frame snapshot <=? U32_MAX);
  max_safe_loop mark_slots (max_frame snapshot).

(** The copy of the pages into the database file.  [todo] are the pages whose frame has not
    been read yet and [buf] the pages read and not yet written; reads and writes complete in
    any order, so the environment picks the next one.  A failed one ends the checkpoint. *)
Definition pick {X} (e : Z) (l : list X) : option (X * list X) :=
  let i := Z.to_nat (e mod len l) in
  x ← l !! i; Some (x, delete i l).
Definition copy_step (todo : list (Z * Z)) (buf : list (Z * list Z)) :
    prog WalShared (option (list (Z * Z) * list (Z * list Z))) :=
  act (fun e s =>
    if e =? 0 then Some (None, s)
    else if bool_decide (buf = []) || (Z.odd e && negb (bool_decide (todo = []))) then
      match pick (e / 2) todo with
      | None => Some (None, s)
      | Some ((page, frame), todo') =>
          match sh_wal s !! frame with
          | None => Some (None, s)
          | Some f => Some (Some (todo', (page, wf_data f) :: buf), s)
          end
      end
    else
      match pick (e / 2) buf with
      | None => Some (None, s)
      | Some ((page, data), buf') => Some (Some (todo, buf'), set_db (<[page := data]> (sh_db s)) s)
      end).
(** One read and one write for every page. *)
Fixpoint copy_loop (steps : nat) (todo : list (Z * Z)) (buf : list (Z * list Z)) : prog WalShared bool :=
  match steps with
  | O => mret true
  | Datatypes.S steps =>
      r ← copy_step todo buf;
      match r with
      | None => mret false
      | Some (todo, buf) => copy_loop steps todo buf
      end
  end.

(** [CheckpointResult] and whether the guard moved into it. *)
Record CheckpointResult : Type := MkResult {
  wal_max_frame_after : Z;
  wal_total_backfilled : Z;
  wal_checkpoint_backfilled : Z;
  maybe_guard : option CheckpointGuard
}.
Definition everything_backfilled (r : CheckpointResult) : bool := wal_max_frame_after r =? wal_total_backfilled r.
Definition should_truncate (r : CheckpointResult) : bool := everything_backfilled r.

(** [WalFile::checkpoint_inner] once the guard is held; the caller drops the guard when it
    fails. *)
Definition checkpoint_guarded (mode : CheckpointMode) (nbackfills : Z) (guard : CheckpointGuard) (w : WalFile) :
    prog WalShared (reply CheckpointResult * WalFile) :=
  safe ← determine_max_safe_checkpoint_frame;
  if match mode with Truncate (Some upper) => upper <? safe | _ => false end then mret (inr Busy, w)
  else
    let max := match mode with Passive (Some upper) => Z.min safe upper | _ => safe end in
    todo ← iter_latest_frames (nbackfills + 1) max;
    copied ← copy_loop (2 * length todo) todo [];
    if negb copied then mret (inr IOError, w)
    else
      snapshot ← load_snapshot;
      let backfilled := Z.max 0 (max - nbackfills) in
      let result := MkResult (max_frame snapshot) max backfilled None in
      if require_all_backfilled mode && negb (everything_backfilled result) then mret (inr Busy, w)
      else
        '(r, w) ←
          (if should_restart_log mode then
             _ ← passert (match guard with GuardWriter => true | GuardRead0 => false end);
             r ← begin_restart;
             match r with
             | inl snapshot => _ ← end_restart; mret (inl tt, apply_restart_snapshot snapshot w)
             | inr e => mret (inr e, w)
             end
           else mret (inl tt, w));
        match r with
        | inr e => mret (inr e, w)
        | inl _ =>
            _ ← bump_checkpoint_epoch;
            if should_truncate result || (0 <? backfilled) then
              mret (inl (MkResult (max_frame snapshot) max backfilled (Some guard)), w)
            else _ ← release_checkpoint_guard guard; mret (inl result, w)
        end.
(** [WalFile::checkpoint]. *)
Definition wal_checkpoint (mode : CheckpointMode) (w : WalFile) : prog WalShared (reply CheckpointResult * WalFile) :=
  snapshot ← load_snapshot;
  let needs_backfill := nbackfills snapshot <? max_frame snapshot in
  if negb needs_backfill && negb (should_restart_log mode) then
    mret (inl (MkResult (max_frame snapshot) (nbackfills snapshot) 0 None), w)
  else
    g ← acquire_checkpoint_guard mode (nbackfills snapshot);
    match g with
    | inr e => mret (inr e, w)
    | inl guard =>
        '(r, w) ← checkpoint_guarded mode (nbackfills snapshot) guard w;
        match r with
        | inr e => _ ← release_checkpoint_guard guard; mret (inr e, w)
        | inl result => mret (inl result, w)
        end
    end.

(** [WalFile::publish_backfill]. *)
Definition publish_backfill (max : Z) : prog WalShared unit :=
  snapshot ← load_snapshot;
  _ ← passert ((nbackfills snapshot <=? max) && (max <=? max_frame snapshot));
  coord_publish_backfill max.
(** [truncate_log]: the log is marked uninitialized and its file emptied and synced. *)
Definition truncate_log : prog WalShared bool :=
  _ ← store (set_initialized false);
  ok ← io (set_wal ∅);
  if negb ok then mret false else _ ← store (set_initialized false); io id.

Definition release_result (r : CheckpointResult) : prog WalShared unit :=
  match maybe_guard r with Some g => release_checkpoint_guard g | None => mret tt end.
(** [Pager::checkpoint_inner] after the copy: sync the database file, publish what was
    backfilled or truncate the log, and release the guard; an error drops the result, and
    with it the guard.  [sync] is whether the mode syncs at all. *)
Definition post_sync (mode : CheckpointMode) (r : CheckpointResult) : prog WalShared bool :=
  if (0 <? wal_checkpoint_backfilled r) && negb (should_restart_log mode) then
    ok ← io id;
    if negb ok then mret false
    else
      _ ← passert (wal_total_backfilled r <=? wal_max_frame_after r);
      _ ← publish_backfill (wal_total_backfilled r);
      mret true
  else match mode with Truncate _ => truncate_log | _ => mret true end.
Definition checkpoint_phases (mode : CheckpointMode) (sync : bool) (r : CheckpointResult) : prog WalShared bool :=
  if match mode with Truncate _ => should_truncate r | _ => false end then
    if negb sync then truncate_log
    else ok ← io id; if negb ok then mret false else post_sync mode r
  else if (wal_checkpoint_backfilled r =? 0) || negb sync then mret true
  else ok ← io id; if negb ok then mret false else post_sync mode r.
Definition checkpoint (mode : CheckpointMode) (sync : bool) (w : WalFile) :
    prog WalShared (reply CheckpointResult * WalFile) :=
  '(r, w) ← wal_checkpoint mode w;
  match r with
  | inr e => mret (inr e, w)
  | inl result =>
      ok ← checkpoint_phases mode sync result;
      _ ← release_result result;
      mret (if ok : bool then inl result else inr IOError, w)
  end.

(** * The system *)

(** The calls a connection's client makes. *)
Inductive op : Type :=
| OBeginRead
| OEndRead
| ORead (page : Z)
| OBeginWrite (restart : bool)
| OSpill (pages : list (Z * list Z))
| OCommit (batches : list (list (Z * list Z))) (db_size : Z)
| ORollback
| OSavepoint
| ORollbackTo
| OEndWrite
| OCheckpoint (mode : CheckpointMode) (sync : bool).

Inductive result : Type :=
| RUnit (r : reply unit)
| RBool (r : reply bool)
| RPage (r : option (list Z))
| RCheckpoint (r : reply (Z * Z * Z)).

(** What the client remembers: the transaction it is in; in a write transaction, whether
    frames were appended since the last commit or rollback ([dirty]), whether an append
    failed ([failed]), and the position of its savepoint. *)
Inductive client : Type :=
| ClIdle
| ClRead
| ClWrite (dirty failed : bool) (savepoint : option RollbackTo).

Definition pages_ok (pages : list (Z * list Z)) : bool :=
  forallb (fun '(page, _) => (0 <=? page) && (page <? 2 ^ 32)) pages.
(** The calls the pager makes in each state.  A transaction ends only after what it
    appended is committed or rolled back, and after a failed append it is rolled back. *)
Definition call_ok (o : op) (cl : client) (w : WalFile) : bool :=
  match o, cl with
  | OBeginRead, ClIdle => true
  | OEndRead, ClIdle | OEndRead, ClRead => true
  | ORead _, ClRead | ORead _, ClWrite _ false _ => true
  | OBeginWrite _, ClRead => true
  | OSpill pages, ClWrite _ false _ =>
      pages_ok pages && (len pages <=? IOV_MAX) && (wal_max_frame w + len pages <=? U32_MAX)
  | OCommit batches _, ClWrite _ false _ =>
      forallb pages_ok batches && forallb (fun b => (0 <? len b) && (len b <=? IOV_MAX)) batches
      && (wal_max_frame w + len (concat batches) <=? U32_MAX)
  | ORollback, ClWrite _ _ _ => true
  | OSavepoint, ClWrite _ false _ => true
  | ORollbackTo, ClWrite _ _ (Some _) => true
  | OEndWrite, ClWrite false false _ => true
  | OCheckpoint (Passive (Some upper)) _, _ => 0 <=? upper
  | OCheckpoint _ _, _ => true
  | _, _ => false
  end.

Definition conn : Type := client * WalFile.
Definition is_inl {A B} (r : A + B) : bool := match r with inl _ => true | inr _ => false end.

Section system.
Context (big : bool) (page_sz : Z).

(** The code a call runs, and what its client remembers afterwards. *)
Definition run_op (o : op) (c : conn) : prog WalShared (result * conn) :=
  let '(cl, w) := c in
  match o with
  | OBeginRead => '(r, w) ← begin_read_tx w; mret (RBool r, (if is_inl r then ClRead else cl, w))
  | OEndRead => w ← end_read_tx w; mret (RUnit (inl tt), (ClIdle, w))
  | ORead page => r ← read_page_no_cache w page; mret (RPage r, (cl, w))
  | OBeginWrite restart =>
      '(r, w) ← begin_write_tx restart w;
      mret (RUnit r, (if is_inl r then ClWrite false false None else cl, w))
  | OSpill pages =>
      '(r, w) ← spill big page_sz pages w;
      mret (RUnit r, (match cl with
                      | ClWrite dirty failed sp =>
                          ClWrite (dirty || negb (bool_decide (pages = []))) (failed || negb (is_inl r)) sp
                      | _ => cl
                      end, w))
  | OCommit batches db_size =>
      '(r, w) ← commit_wal big page_sz batches db_size w;
      mret (RUnit r, (match cl with
                      | ClWrite dirty failed sp =>
                          if is_inl r && negb (bool_decide (batches = [])) then ClWrite false false None
                          else ClWrite dirty failed sp
                      | _ => cl
                      end, w))
  | ORollback =>
      w ← rollback None w;
      mret (RUnit (inl tt), (ClWrite false false None, w))
  | OSavepoint =>
      mret (RUnit (inl tt), (match cl with
                             | ClWrite dirty failed _ => ClWrite dirty failed (Some (connection_wal_pos w))
                             | _ => cl
                             end, w))
  | ORollbackTo =>
      match cl with
      | ClWrite dirty _ (Some r) =>
          w ← rollback (Some r) w;
          mret (RUnit (inl tt), (ClWrite dirty false (Some r), w))
      | _ => mret (RUnit (inl tt), c)
      end
  | OEndWrite => w ← end_write_tx w; mret (RUnit (inl tt), (ClRead, w))
  | OCheckpoint mode sync =>
      '(r, w) ← checkpoint mode sync w;
      mret (RCheckpoint (match r with
                         | inl c => inl (wal_max_frame_after c, wal_total_backfilled c, wal_checkpoint_backfilled c)
                         | inr e => inr e
                         end), (cl, w))
  end.

(** A connection between two calls, or inside one with the code left to run. *)
Inductive cstate : Type :=
| CReady (c : conn)
| CRunning (o : op) (p : prog WalShared (result * conn)).
Definition system : Type := WalShared * list cstate.

(** The calls and returns an outside observer sees. *)
Inductive event : Type := ECall (i : nat) (o : op) | ERet (i : nat) (r : result).

(** What happens next: connection [i] makes a call, makes its next access, or returns. *)
Inductive move : Type := MCall (i : nat) (o : op) | MStep (i : nat) (e : Z) | MRet_ (i : nat).

Definition do_move (m : move) (s : system) : option (option event * system) :=
  let '(sh, cs) := s in
  match m with
  | MCall i o =>
      match cs !! i with
      | Some (CReady (cl, w)) =>
          if call_ok o cl w
          then Some (Some (ECall i o), (sh, <[i := CRunning o (run_op o (cl, w))]> cs)) else None
      | _ => None
      end
  | MStep i e =>
      match cs !! i with
      | Some (CRunning o (Atomic _ f k)) =>
          '(x, sh') ← f e sh; Some (None, (sh', <[i := CRunning o (k x)]> cs))
      | _ => None
      end
  | MRet_ i =>
      match cs !! i with
      | Some (CRunning _ (Ret (r, c))) => Some (Some (ERet i r), (sh, <[i := CReady c]> cs))
      | _ => None
      end
  end.

(** A connection is about to panic when some choice makes its next access do so. *)
Definition panics (s : system) : Prop :=
  exists i o X fresh (f : Z -> WalShared -> option (X * WalShared)) k e,
    s.2 !! i = Some (CRunning o (Atomic fresh f k)) /\ fresh s.1 = true /\ f e s.1 = None.

(** Whether what the next access of [i] relies on is still true. *)
Definition move_fresh (m : move) (s : system) : bool :=
  match m with
  | MStep i _ =>
      match s.2 !! i with
      | Some (CRunning _ (Atomic fresh _ _)) => fresh s.1
      | _ => true
      end
  | _ => true
  end.

(** The events of a run, and the state it ends in. *)
Fixpoint run (ms : list move) (s : system) : option (list event * system) :=
  match ms with
  | [] => Some ([], s)
  | m :: ms =>
      '(ev, s) ← do_move m s;
      '(evs, s) ← run ms s;
      Some (match ev with Some e => e :: evs | None => evs end, s)
  end.
(** Every access of the run found what it relies on still true. *)
Fixpoint run_fresh (ms : list move) (s : system) : bool :=
  match ms with
  | [] => true
  | m :: ms =>
      move_fresh m s && match do_move m s with Some (_, s) => run_fresh ms s | None => true end
  end.

(** [n] new connections to a database file with an empty log. *)
Definition fresh_lock (l : lockname) : alock :=
  ALock (match l with LRead (S (S _)) => READMARK_NOT_USED | _ => 0 end) 0 false.
Definition initial_shared (db : Z -> list Z) : WalShared :=
  MkShared (WalHeader_new big) 0 0 (0, 0) 0 false ∅ 0 fresh_lock 0 ∅ db.
Definition new_wal : WalFile := MkWal 0 0 (0, 0) 0 0 GuardNone false false.
Definition initial (n : nat) (db : Z -> list Z) : system :=
  (initial_shared db, replicate n (CReady (ClIdle, new_wal))).
End system.
