(* ===== verification/WalSpec.v ===== *)
(** What the WAL promises its clients: a store of pages with atomic commits, in which a read
    transaction sees the store as it was at one moment of its [begin_read_tx], one
    transaction writes at a time and only from the newest contents, and a checkpoint changes
    nothing.  Every call takes effect at one moment between its start and its return, so a
    trace of calls and returns of the specification is a linearizable history. *)

From stdpp Require Import base list gmap numbers relations functions sorting.
From Stdlib Require Import ZArith Lia.
From S2P Require Import Prelude WalFormat RwLock Steps WalCoord.

(** * Contents *)

Notation content := (Z -> list Z).
(** The contents after a list of page writes. *)
Definition apply_log (c : content) (log : list (Z * list Z)) : content :=
  fold_left (fun c '(p, d) => <[p := d]> c) log c.

(** * The specification *)

(** The transaction a connection is in: what it reads ([c]), and in a write transaction
    the pages appended since ([log]), whether an append failed and must be rolled back, and
    how much of [log] the savepoint keeps. *)
Inductive smode : Type :=
| MIdle
| MRead (c : content)
| MWrite (c : content) (log : list (Z * list Z)) (failed : bool) (savepoint : option nat).

Definition writing (m : smode) : bool := match m with MWrite _ _ _ _ => true | _ => false end.

(** A call taking effect: from a transaction [m] and committed contents [com], the result
    and what they become.  [alone] says that no other connection is writing. *)
Inductive lin (alone : Prop) : op -> smode -> content -> result -> smode -> content -> Prop :=
| lin_begin_read com changed : lin alone OBeginRead MIdle com (RBool (inl changed)) (MRead com) com
| lin_begin_read_busy com : lin alone OBeginRead MIdle com (RBool (inr Busy)) MIdle com
| lin_end_read m com : writing m = false -> lin alone OEndRead m com (RUnit (inl tt)) MIdle com
| lin_read p c com : lin alone (ORead p) (MRead c) com (RPage (Some (c p))) (MRead c) com
| lin_read_own p c log sp com :
    lin alone (ORead p) (MWrite c log false sp) com (RPage (Some (apply_log c log p))) (MWrite c log false sp) com
| lin_read_failed p m com : m <> MIdle -> lin alone (ORead p) m com (RPage None) m com
| lin_begin_write restart c com :
    alone -> (forall p, c p = com p) ->
    lin alone (OBeginWrite restart) (MRead c) com (RUnit (inl tt)) (MWrite c [] false None) com
| lin_begin_write_busy restart c com e :
    e = Busy \/ e = BusySnapshot -> lin alone (OBeginWrite restart) (MRead c) com (RUnit (inr e)) (MRead c) com
| lin_spill pages c log sp com :
    lin alone (OSpill pages) (MWrite c log false sp) com (RUnit (inl tt)) (MWrite c (log ++ pages) false sp) com
| lin_spill_failed pages c log sp com :
    lin alone (OSpill pages) (MWrite c log false sp) com (RUnit (inr IOError)) (MWrite c log true sp) com
| lin_commit batches db_size c log sp com com' :
    batches <> [] -> com' = apply_log c (log ++ concat batches) ->
    lin alone (OCommit batches db_size) (MWrite c log false sp) com (RUnit (inl tt)) (MWrite com' [] false None) com'
| lin_commit_nothing db_size c log sp com :
    lin alone (OCommit [] db_size) (MWrite c log false sp) com (RUnit (inl tt)) (MWrite c log false sp) com
| lin_commit_failed batches db_size c log sp com :
    lin alone (OCommit batches db_size) (MWrite c log false sp) com (RUnit (inr IOError)) (MWrite c log false sp) com
| lin_rollback c log failed sp com :
    lin alone ORollback (MWrite c log failed sp) com (RUnit (inl tt)) (MWrite c [] false None) com
| lin_savepoint c log sp com :
    lin alone OSavepoint (MWrite c log false sp) com (RUnit (inl tt)) (MWrite c log false (Some (length log))) com
| lin_rollback_to c log failed n com :
    lin alone ORollbackTo (MWrite c log failed (Some n)) com (RUnit (inl tt)) (MWrite c (take n log) false (Some n)) com
| lin_end_write c sp com :
    lin alone OEndWrite (MWrite c [] false sp) com (RUnit (inl tt)) (MRead c) com
| lin_checkpoint mode sync m com r : lin alone (OCheckpoint mode sync) m com (RCheckpoint r) m com.

(** A connection between calls, in a call that has not taken effect, or in one that has. *)
Inductive sphase : Type :=
| PReady (m : smode)
| PBusy (o : op) (m : smode)
| PDone (o : op) (r : result) (m : smode).
Definition phase_mode (ph : sphase) : smode :=
  match ph with PReady m | PBusy _ m | PDone _ _ m => m end.

Record spec : Type := MkSpec { sp_committed : content; sp_conns : list sphase }.

Definition no_other_writer (phs : list sphase) (i : nat) : Prop :=
  forall j ph, j <> i -> phs !! j = Some ph -> writing (phase_mode ph) = false.

Inductive spec_step : spec -> option event -> spec -> Prop :=
| spec_call_ com phs i o m :
    phs !! i = Some (PReady m) ->
    spec_step (MkSpec com phs) (Some (ECall i o)) (MkSpec com (<[i := PBusy o m]> phs))
| spec_lin com phs i o m r m' com' :
    phs !! i = Some (PBusy o m) -> lin (no_other_writer phs i) o m com r m' com' ->
    spec_step (MkSpec com phs) None (MkSpec com' (<[i := PDone o r m']> phs))
| spec_return com phs i o r m :
    phs !! i = Some (PDone o r m) ->
    spec_step (MkSpec com phs) (Some (ERet i r)) (MkSpec com (<[i := PReady m]> phs)).

(** The runs of the specification with their visible events. *)
Inductive spec_run : spec -> list event -> spec -> Prop :=
| spec_run_nil s : spec_run s [] s
| spec_run_step s ev s' evs s'' :
    spec_step s ev s' -> spec_run s' evs s'' ->
    spec_run s (match ev with Some e => e :: evs | None => evs end) s''.

Definition spec_initial (n : nat) (db : content) : spec := MkSpec db (replicate n (PReady MIdle)).

(** * Frames and the contents they give *)

Definition page_at (w : gmap Z wframe) (f : Z) : option Z := wf_page <$> w !! f.
Fixpoint latest_n (w : gmap Z wframe) (p : Z) (n : nat) : Z :=
  match n with
  | O => 0
  | Datatypes.S n' => if decide (page_at w (Z.of_nat n) = Some p) then Z.of_nat n else latest_n w p n'
  end.
(** The last of the frames [1..n] that holds page [p], or 0. *)
Definition latest (w : gmap Z wframe) (p n : Z) : Z := latest_n w p (Z.to_nat n).
(** The contents after frame [n], over those the log started from. *)
Definition at_frame (base : content) (w : gmap Z wframe) (n : Z) : content :=
  fun p => let f := latest w p n in if f =? 0 then base p else default [] (wf_data <$> w !! f).

(** The frame cache lists the frames of every page in order; below [hw] when recorded. *)
Record cache_shape (fc : gmap Z (list Z)) (hw : Z) : Prop := {
  cs_sorted p l : fc !! p = Some l -> StronglySorted Z.lt l;
  cs_range p l f : fc !! p = Some l -> f ∈ l -> 1 <= f <= hw
}.
(** It lists exactly the frames up to [n] (and maybe others above). *)
Definition cache_exact (w : gmap Z wframe) (fc : gmap Z (list Z)) (n : Z) : Prop :=
  forall p f, 1 <= f <= n -> (exists l, fc !! p = Some l /\ f ∈ l) <-> page_at w f = Some p.

(** * Auxiliary state of the proof *)

(** A pinned snapshot: its slot, the frames [(rv_from, rv_upto]] it reads from the log, and
    the contents it sees. *)
Record rview : Type := MkView { rv_slot : nat; rv_from : Z; rv_upto : Z; rv_content : content }.
(** A writer: the frames it has cached after the committed ones, those it has written to
    the file and not cached, whether the log has its header, and the header's page size and
    generation. *)
Record wview : Type := MkWriter {
  wv_log : list (Z * list Z); wv_pend : list (Z * list Z); wv_init : bool; wv_page_size : Z; wv_seq : Z
}.
(** How far a checkpoint that holds its guard is. *)
Inductive ckphase : Type :=
| CkNone
| CkGuard (nb : Z)
| CkDet (nb m : Z) (slot : nat)
| CkMark (nb m : Z) (slot : nat) (v : Z)
| CkCopy (nb m : Z) (todo : list (Z * Z)) (buf : list (Z * list Z))
| CkAll
| CkReset.

Record ghost : Type := MkGhost {
  g_held : lockname -> held;
  g_pin : option (nat * Z);
  g_read : option rview;
  g_find : option (Z * option Z);
  g_write : option wview;
  g_ck : ckphase;
  g_phase : sphase
}.

(** The last frame a connection sees: its own frames count. *)
Definition seen_upto (g : ghost) (r : rview) : Z :=
  rv_upto r + match g_write g with Some wv => len (wv_log wv) | None => 0 end.

Global Instance held_eq_dec : EqDecision held.
Proof. solve_decision. Defined.
Definition is_read (h : held) : bool := match h with HRead => true | _ => false end.
Definition is_write (h : held) : bool := match h with HWrite => true | _ => false end.
Definition lock_inv (gs : list ghost) (l : lockname) (a : alock) : Prop :=
  let r := count_of (fun g => is_read (g_held g l)) gs in
  let x := count_of (fun g => is_write (g_held g l)) gs in
  a_readers a = r /\ a_writer a = (0 <? x) /\ (x = 0 \/ x = 1 /\ r = 0).

Definition readers (gs : list ghost) (r : rview) : Prop :=
  exists j g, gs !! j = Some g /\ g_read g = Some r.

Definition frame_entry (f : wframe) : Z * list Z := (wf_page f, wf_data f).

Section invariant.
Context (page_sz : Z) (base : content) (hz : Z).

Definition read_inv (sh : WalShared) (g : ghost) (r : rview) : Prop :=
  (rv_slot r <= 4)%nat /\ g_held g (LRead (rv_slot r)) <> HNone /\
  (rv_slot r = 0%nat -> sh_nbackfills sh = rv_from r /\ hz = rv_from r) /\
  (rv_slot r <> 0%nat -> exists v, g_pin g = Some (rv_slot r, v) /\ v <= rv_upto r) /\
  0 <= rv_from r <= sh_nbackfills sh /\ hz <= rv_upto r <= sh_max_frame sh /\
  forall p, rv_content r p = at_frame base (sh_wal sh) (rv_upto r) p.

Definition find_inv (sh : WalShared) (g : ghost) (r : rview) (p : Z) (found : option Z) : Prop :=
  let l := latest (sh_wal sh) p (seen_upto g r) in
  match found with Some f => f = l /\ rv_from r < f | None => l <= rv_from r end.

Definition write_inv (sh : WalShared) (g : ghost) (wv : wview) : Prop :=
  let n := sh_max_frame sh in
  g_held g LWrite = HWrite /\
  (exists r, g_read g = Some r /\ rv_upto r = n) /\
  sh_initialized sh = wv_init wv /\ (wv_init wv = false -> wv_log wv = []) /\
  wal_page_size (sh_header sh) = wv_page_size wv /\ checkpoint_seq (sh_header sh) = wv_seq wv /\
  (forall k x, (wv_log wv ++ wv_pend wv) !! k = Some x ->
    frame_entry <$> sh_wal sh !! (n + 1 + Z.of_nat k) = Some x) /\
  cache_exact (sh_wal sh) (sh_frame_cache sh) (n + len (wv_log wv)) /\
  n + len (wv_log wv) <= U32_MAX.

Definition copied (sh : WalShared) (m : Z) (todo : list (Z * Z)) (buf : list (Z * list Z)) : Prop :=
  let w := sh_wal sh in
  (forall p f, (p, f) ∈ todo -> sh_nbackfills sh < f /\ f = latest w p m) /\
  (forall p d, (p, d) ∈ buf -> sh_nbackfills sh < latest w p m /\ d = at_frame base w m p) /\
  forall p, sh_nbackfills sh < latest w p m -> latest w p hz <= m ->
    sh_db sh p = at_frame base w m p \/ p ∈ todo.*1 \/ p ∈ buf.*1.

Definition ck_inv (sh : WalShared) (gs : list ghost) (g : ghost) : Prop :=
  let own := g_held g (LRead 0) = HWrite in
  match g_ck g with
  | CkNone => True
  | CkGuard nb => own /\ sh_nbackfills sh = nb
  | CkDet nb m k =>
      own /\ sh_nbackfills sh = nb /\ m <= sh_max_frame sh /\
      forall r, readers gs r -> m <= rv_upto r \/ (k <= rv_slot r)%nat
  | CkMark nb m k v =>
      own /\ sh_nbackfills sh = nb /\ m <= sh_max_frame sh /\
      (forall r, readers gs r -> m <= rv_upto r \/ (k <= rv_slot r)%nat) /\
      forall r, readers gs r -> rv_slot r = k -> m <= rv_upto r \/ v <= rv_upto r
  | CkCopy nb m todo buf => own /\ sh_nbackfills sh = nb /\ m <= hz /\ copied sh m todo buf
  | CkAll => own /\ g_held g LWrite = HWrite /\ forall p, sh_db sh p = at_frame base (sh_wal sh) (sh_max_frame sh) p
  | CkReset => own /\ g_held g LWrite = HWrite /\ sh_max_frame sh = 0
  end.

Record conn_inv (sh : WalShared) (gs : list ghost) (g : ghost) : Prop := {
  ci_pin s v : g_pin g = Some (s, v) -> (s <= 4)%nat /\ g_held g (LRead s) = HRead /\ mark_of sh s = v;
  ci_read r : g_read g = Some r -> read_inv sh g r;
  ci_find p found : g_find g = Some (p, found) -> exists r, g_read g = Some r /\ find_inv sh g r p found;
  ci_write wv : g_write g = Some wv -> write_inv sh g wv;
  ci_phase : writing (phase_mode (g_phase g)) = true -> g_write g <> None;
  ci_ck : ck_inv sh gs g
}.

Record inv (sh : WalShared) (com : content) (gs : list ghost) : Prop := {
  i_locks l : lock_inv gs l (sh_locks sh l);
  i_bounds : 0 <= sh_nbackfills sh <= hz /\ hz <= sh_max_frame sh <= U32_MAX;
  i_init : sh_initialized sh = false -> sh_max_frame sh = 0;
  i_page_size : wal_page_size (sh_header sh) = page_sz \/ (wal_page_size (sh_header sh) = 0 /\ sh_initialized sh = false);
  i_frames f : 1 <= f <= sh_max_frame sh -> is_Some (sh_wal sh !! f);
  i_shape : cache_shape (sh_frame_cache sh) (sh_high_water sh);
  i_exact : cache_exact (sh_wal sh) (sh_frame_cache sh) (sh_max_frame sh);
  i_committed p : com p = at_frame base (sh_wal sh) (sh_max_frame sh) p;
  i_db p : sh_db sh p = at_frame base (sh_wal sh) (sh_nbackfills sh) p \/ sh_nbackfills sh < latest (sh_wal sh) p hz;
  i_marks s : 0 <= mark_of sh s <= U32_MAX;
  i_conn i g : gs !! i = Some g -> conn_inv sh gs g
}.
End invariant.

(** The invariant, whatever contents the log started from and however far a checkpoint has
    written the database file ([hz]). *)
Definition INV (page_sz : Z) (sh : WalShared) (com : content) (gs : list ghost) : Prop :=
  exists base hz, inv page_sz base hz sh com gs.
