(* ===== verification/WalInv.v ===== *)
(** Lemmas on the parts of the invariant of the shared WAL (WalSpec.v): the frames and the
    contents they give, the frame cache and the locks. *)

From stdpp Require Import base list gmap numbers relations functions sorting.
From Stdlib Require Import ZArith Lia.
From S2P Require Import Prelude WalFormat RwLock Steps WalCoord WalSpec.

(** * Frames *)

Lemma latest_n_spec w p k :
  0 <= latest_n w p k <= Z.of_nat k /\ (latest_n w p k = 0 \/ page_at w (latest_n w p k) = Some p) /\
  forall f, latest_n w p k < f <= Z.of_nat k -> page_at w f <> Some p.
Proof.
  induction k as [|k IH]; cbn [latest_n]; [split_and!; [lia|lia|by left|lia]|].
  case_decide as Hd; [split_and!; [lia|lia|by right|lia]|].
  destruct IH as (Hb & Hp & Hu). split_and!; [lia|lia|done|].
  intros f Hf. destruct (decide (f = Z.of_nat (Datatypes.S k))) as [->|]; [done|]. apply Hu. lia.
Qed.
Lemma latest_spec w p n :
  0 <= n ->
  0 <= latest w p n <= n /\ (latest w p n = 0 \/ page_at w (latest w p n) = Some p) /\
  forall f, latest w p n < f <= n -> page_at w f <> Some p.
Proof. intros Hn. assert (H := latest_n_spec w p (Z.to_nat n)). by rewrite Z2Nat.id in H. Qed.
Lemma latest_neg w p n : n <= 0 -> latest w p n = 0.
Proof. intros. unfold latest. by replace (Z.to_nat n) with 0%nat by lia. Qed.
Lemma latest_bounds w p n : 0 <= latest w p n <= Z.max 0 n.
Proof.
  destruct (decide (0 <= n)); [destruct (latest_spec w p n) as [? _]; lia|]. rewrite latest_neg; lia.
Qed.
Lemma latest_unique w p n f :
  0 <= f <= n -> (f = 0 \/ page_at w f = Some p) -> (forall f', f < f' <= n -> page_at w f' <> Some p) ->
  latest w p n = f.
Proof.
  intros Hf Hp Hu. destruct (latest_spec w p n) as (Hb & Hl & Hul); [lia|].
  destruct (Z.lt_trichotomy (latest w p n) f) as [?|[?|?]]; [|done|].
  - destruct Hp as [->|Hp]; [lia|]. destruct (Hul f); [lia|done].
  - destruct Hl as [Hl|Hl]; [lia|]. destruct (Hu (latest w p n)); [lia|done].
Qed.
Lemma latest_agree w w' p n :
  (forall f, 1 <= f <= n -> w !! f = w' !! f) -> latest w p n = latest w' p n.
Proof.
  intros Hw. destruct (decide (0 <= n)); [|by rewrite !latest_neg by lia].
  destruct (latest_spec w' p n) as (Hb & Hl & Hu); [done|]. apply latest_unique; [done| |].
  - destruct Hl as [->|Hl]; [by left|]. destruct (decide (latest w' p n = 0)) as [->|]; [by left|].
    right. unfold page_at in *. by rewrite Hw by lia.
  - intros f Hf. unfold page_at. rewrite Hw by lia. by apply Hu.
Qed.
Lemma latest_mono w p lo hi : lo <= hi -> latest w p lo <= latest w p hi.
Proof.
  intros Hle. destruct (decide (0 <= lo)); [|rewrite (latest_neg _ _ lo) by lia; apply latest_bounds].
  destruct (latest_spec w p lo) as (Hb & Hl & _); [lia|]. destruct (latest_spec w p hi) as (Hb' & _ & Hu); [lia|].
  destruct Hl as [Hl|Hl]; [lia|]. destruct (decide (latest w p lo <= latest w p hi)); [done|].
  destruct (Hu (latest w p lo)); [lia|done].
Qed.
Lemma latest_same w p lo hi : lo <= hi -> latest w p hi <= lo -> latest w p hi = latest w p lo.
Proof.
  intros Hle Hl. destruct (decide (0 <= lo)).
  - destruct (latest_spec w p hi) as (Hb & Hp & Hu); [lia|]. symmetry. apply latest_unique; [lia|done|].
    intros f Hf. apply Hu. lia.
  - assert (H := latest_bounds w p hi). lia.
Qed.

Lemma at_frame_agree base w w' n p :
  (forall f, 1 <= f <= n -> w !! f = w' !! f) -> at_frame base w n p = at_frame base w' n p.
Proof.
  intros Hw. unfold at_frame. rewrite (latest_agree w w') by done. case_match; [done|].
  assert (H' := latest_bounds w' p n). zbool. by rewrite Hw by lia.
Qed.
Lemma at_frame_same base w p lo hi :
  lo <= hi -> latest w p hi <= lo -> at_frame base w hi p = at_frame base w lo p.
Proof. intros Hle Hl. unfold at_frame. by rewrite (latest_same w p lo hi). Qed.
Lemma at_frame_0 base w n p : n <= 0 -> at_frame base w n p = base p.
Proof. intros. unfold at_frame. by rewrite latest_neg. Qed.
(** A frame writes its page. *)
Lemma at_frame_next base w n f p :
  0 <= n -> w !! (n + 1) = Some f ->
  at_frame base w (n + 1) p = (<[wf_page f := wf_data f]> (at_frame base w n)) p.
Proof.
  intros Hn Hf. destruct (decide (wf_page f = p)) as [<-|Hp].
  - rewrite fn_lookup_insert. unfold at_frame. rewrite (latest_unique w (wf_page f) (n + 1) (n + 1)); [|lia| |lia].
    + destruct (Z.eqb_spec (n + 1) 0); [lia|]. by rewrite Hf.
    + right. unfold page_at. by rewrite Hf.
  - rewrite fn_lookup_insert_ne by done. apply at_frame_same; [lia|].
    destruct (latest_spec w p (n + 1)) as (Hb & Hl & _); [lia|].
    destruct (decide (latest w p (n + 1) = n + 1)) as [He|]; [|lia]. exfalso.
    rewrite He in Hl. unfold page_at in Hl. rewrite Hf in Hl. cbn in Hl. destruct Hl as [?|?]; [lia|naive_solver].
Qed.
(** A list of frames writes its pages in order. *)
Lemma at_frame_log base w n log p :
  0 <= n -> (forall k x, log !! k = Some x -> frame_entry <$> w !! (n + 1 + Z.of_nat k) = Some x) ->
  at_frame base w (n + len log) p = apply_log (at_frame base w n) log p.
Proof.
  intros Hn. revert p. induction log as [|x log IH] using rev_ind; intros p Hlog.
  - unfold len. cbn. by rewrite Z.add_0_r.
  - unfold apply_log. rewrite fold_left_app. cbn. destruct x as [q d].
    assert (Hx := Hlog (length log) (q, d)). rewrite lookup_app_r, Nat.sub_diag in Hx by lia.
    specialize (Hx eq_refl). unfold frame_entry in Hx.
    destruct (w !! (n + 1 + Z.of_nat (length log))) as [f|] eqn:Hf; cbn in Hx; simplify_eq.
    unfold len in *. rewrite length_app. cbn.
    replace (n + Z.of_nat (length log + 1)) with (n + Z.of_nat (length log) + 1) by lia.
    rewrite (at_frame_next _ _ _ f); [|lia|by rewrite <- Hf; f_equal; lia].
    assert (Hlog' : forall k x, log !! k = Some x -> frame_entry <$> w !! (n + 1 + Z.of_nat k) = Some x).
    { intros k x Hk. apply Hlog. by apply lookup_app_l_Some. }
    destruct (decide (wf_page f = p)) as [->|?];
      [by rewrite !fn_lookup_insert|rewrite !fn_lookup_insert_ne by done; by apply IH].
Qed.
Lemma apply_log_ext c c' log p : (forall p, c p = c' p) -> apply_log c log p = apply_log c' log p.
Proof.
  revert c c'. unfold apply_log. induction log as [|[q d] log IH]; intros c c' H; cbn; [done|].
  apply IH. intros r. destruct (decide (q = r)) as [->|?];
    [by rewrite !fn_lookup_insert|by rewrite !fn_lookup_insert_ne].
Qed.

(** * The frame cache *)

Lemma sorted_snoc (l : list Z) x :
  StronglySorted Z.lt (l ++ [x]) <-> StronglySorted Z.lt l /\ forall y, y ∈ l -> y < x.
Proof.
  rewrite StronglySorted_app. split.
  - intros (H & Hl & _). split; [done|]. intros y Hy. apply H; [done|]. by apply list_elem_of_singleton.
  - intros [Hl H]. split_and!; [|done|repeat constructor]. intros y z Hy Hz%list_elem_of_singleton. subst. by apply H.
Qed.
Lemma rfind_spec lo hi l :
  StronglySorted Z.lt l ->
  match rfind_frame lo hi l with
  | Some f => f ∈ l /\ lo <= f <= hi /\ forall f', f' ∈ l -> lo <= f' <= hi -> f' <= f
  | None => forall f', f' ∈ l -> ~ lo <= f' <= hi
  end.
Proof.
  unfold rfind_frame. induction l as [|x l IH] using rev_ind; intros Hs; [intros ? []%elem_of_nil|].
  apply sorted_snoc in Hs as [Hs Hx]. specialize (IH Hs). rewrite filter_app.
  destruct (decide ((lo <=? x) && (x <=? hi) = true)) as [Hd|Hd].
  - rewrite filter_cons_True, filter_nil, last_snoc by done. zbool. split_and!; [set_solver|lia|lia|].
    intros f' [Hf|Hf%list_elem_of_singleton]%elem_of_app _; [specialize (Hx _ Hf); lia|lia].
  - rewrite filter_cons_False, filter_nil, app_nil_r by done.
    assert (Hn : ~ lo <= x <= hi) by (intros ?; apply Hd; apply andb_true_intro; zbool; rewrite !Z.leb_le; lia).
    destruct (list.last _).
    + destruct IH as (Hf & Hr & Hm). split_and!; [set_solver|lia|lia|].
      intros f' [Hf'|Hf'%list_elem_of_singleton]%elem_of_app ?; [by apply Hm|lia].
    + intros f' [Hf'|Hf'%list_elem_of_singleton]%elem_of_app; [by apply IH|by subst].
Qed.
(** What a lookup in the cache finds: the latest frame of the page in the range. *)
Lemma rfind_exact w fc hw p l lo n :
  cache_shape fc hw -> cache_exact w fc n -> 0 <= n -> fc !! p = Some l ->
  rfind_frame lo n l = (if Z.max 1 lo <=? latest w p n then Some (latest w p n) else None).
Proof.
  intros Hsh He Hn Hl. assert (H := rfind_spec lo n l (cs_sorted _ _ Hsh p l Hl)).
  assert (Hin : forall f, 1 <= f <= n -> f ∈ l <-> page_at w f = Some p).
  { intros f Hf. rewrite <- (He p f Hf). split; [by exists l|]. intros (l' & Hl' & ?). by simplify_eq. }
  assert (Hpos := cs_range _ _ Hsh p l).
  destruct (latest_spec w p n Hn) as (Hb & Hp & Hu). destruct (rfind_frame lo n l) as [f|].
  - destruct H as (Hf & Hr & Hm). assert (Hf1 := Hpos f Hl Hf).
    assert (latest w p n = f) as ->; [|by destruct (Z.leb_spec (Z.max 1 lo) f); [|lia]].
    apply latest_unique; [lia|right; apply Hin; [lia|done]|]. intros f' Hf' Hpf. apply Hin in Hpf; [|lia].
    specialize (Hm f' Hpf). lia.
  - destruct (Z.leb_spec (Z.max 1 lo) (latest w p n)); [|done]. exfalso.
    destruct Hp as [?|Hp]; [lia|]. apply (H (latest w p n)); [apply Hin; [lia|done]|lia].
Qed.
Lemma cache_find_exact w fc hw p lo n :
  cache_shape fc hw -> cache_exact w fc n -> 0 <= n ->
  cache_find fc p lo n = (if Z.max 1 lo <=? latest w p n then Some (latest w p n) else None).
Proof.
  intros Hsh He Hn. unfold cache_find. destruct (fc !! p) as [l|] eqn:Hl; cbn; [by eapply rfind_exact|].
  destruct (Z.leb_spec (Z.max 1 lo) (latest w p n)); [|done]. exfalso.
  destruct (latest_spec w p n Hn) as (Hb & [?|Hp] & _); [lia|].
  destruct (proj2 (He p (latest w p n) ltac:(lia)) Hp) as (l & ? & _). congruence.
Qed.
Lemma iter_latest_exact w fc hw lo n p f :
  cache_shape fc hw -> cache_exact w fc n -> 0 <= n ->
  (p, f) ∈ merge_sort frame_le (latest_frames lo n fc) <-> f = latest w p n /\ Z.max 1 lo <= f.
Proof.
  intros Hsh He Hn. rewrite merge_sort_Permutation. unfold latest_frames. rewrite list_elem_of_omap. split.
  - intros ([q l] & Hql%elem_of_map_to_list & H).
    destruct (rfind_frame lo n l) as [g|] eqn:Hg; cbn in H; simplify_eq.
    rewrite (rfind_exact w fc hw p l lo n) in Hg by done. case_match; simplify_eq. by zbool.
  - intros [-> Hlo]. assert (H := cache_find_exact w fc hw p lo n Hsh He Hn).
    rewrite (proj2 (Z.leb_le _ _) Hlo) in H. unfold cache_find in H.
    destruct (fc !! p) as [l|] eqn:Hl; cbn in H; [|done].
    exists (p, l). split; [by apply elem_of_map_to_list|]. by rewrite H.
Qed.

Lemma pop_above_spec b l :
  StronglySorted Z.lt l ->
  StronglySorted Z.lt (reverse (pop_above b (reverse l))) /\
  forall f, f ∈ reverse (pop_above b (reverse l)) <-> f ∈ l /\ f <= b.
Proof.
  induction l as [|x l IH] using rev_ind; intros Hs; [split; [constructor|cbn; set_solver]|].
  assert (Hs' := Hs). apply sorted_snoc in Hs' as [Hs' Hx]. destruct (IH Hs') as [IHs IHe].
  rewrite reverse_snoc. cbn [pop_above]. destruct (Z.ltb_spec b x).
  - split; [done|]. intros f. rewrite IHe, elem_of_app, list_elem_of_singleton. split; [tauto|].
    intros [[?| ->] ?]; [done|lia].
  - rewrite reverse_cons, reverse_involutive. split; [done|]. intros f. split; [|tauto]. intros Hf. split; [done|].
    apply elem_of_app in Hf as [Hf|Hf%list_elem_of_singleton]; [specialize (Hx _ Hf)|]; lia.
Qed.
Lemma truncate_lookup b fc p l :
  truncate_cache b fc !! p = Some l <->
  exists l0, fc !! p = Some l0 /\ l = reverse (pop_above b (reverse l0)) /\ l <> [].
Proof.
  unfold truncate_cache. rewrite lookup_omap. destruct (fc !! p) as [l0|]; cbn; [|split; [done|by intros (?&?&_)]].
  unfold truncate_frames. split.
  - intros H. exists l0. case_match; simplify_eq. done.
  - intros (l1 & ? & -> & Hne). simplify_eq. by case_match.
Qed.
Lemma truncate_elem b fc hw p f :
  cache_shape fc hw ->
  (exists l, truncate_cache b fc !! p = Some l /\ f ∈ l) <-> f <= b /\ exists l, fc !! p = Some l /\ f ∈ l.
Proof.
  intros Hsh. split.
  - intros (l & (l0 & Hl0 & -> & _)%truncate_lookup & Hf).
    apply (pop_above_spec b l0) in Hf; [|by eapply cs_sorted]. destruct Hf. split; [done|]. by exists l0.
  - intros (Hb & l & Hl & Hf). assert (Hf' : f ∈ reverse (pop_above b (reverse l))).
    { apply (pop_above_spec b l); [by eapply cs_sorted|done]. }
    exists (reverse (pop_above b (reverse l))). split; [|done]. apply truncate_lookup. exists l. split_and!; [done|done|].
    intros He. rewrite He in Hf'. by apply elem_of_nil in Hf'.
Qed.
Lemma truncate_shape b fc hw hw' :
  cache_shape fc hw -> Z.min b hw <= hw' -> cache_shape (truncate_cache b fc) hw'.
Proof.
  intros Hsh Hhw. constructor.
  - intros p l (l0 & Hl0 & -> & _)%truncate_lookup. apply pop_above_spec. by eapply cs_sorted.
  - intros p l f Hl Hf. destruct (proj1 (truncate_elem b fc hw p f Hsh)) as (Hb & l0 & Hl0 & Hf0); [by exists l|].
    assert (H := cs_range _ _ Hsh p l0 f Hl0 Hf0). lia.
Qed.
Lemma truncate_exact w b fc hw n m :
  cache_shape fc hw -> cache_exact w fc n -> m <= n -> m <= b -> cache_exact w (truncate_cache b fc) m.
Proof.
  intros Hsh He Hn Hb p f Hf. rewrite <- (He p f) by lia. rewrite (truncate_elem b fc hw) by done.
  split; [by intros []|]. intros ?. split; [lia|done].
Qed.

Lemma cache_insert_ok w fc hw n p :
  cache_shape fc hw -> hw <= n -> cache_exact w fc n -> 0 <= n -> page_at w (n + 1) = Some p ->
  cache_shape (cache_insert p (n + 1) fc) (n + 1) /\ cache_exact w (cache_insert p (n + 1) fc) (n + 1).
Proof.
  intros Hsh Hhw He Hn Hp.
  assert (Hlk : forall q, cache_insert p (n + 1) fc !! q =
    if decide (q = p) then Some (default [] (fc !! p) ++ [n + 1]) else fc !! q).
  { intros q. unfold cache_insert. destruct (fc !! p) eqn:Hfp; case_decide as Hq; subst;
      by rewrite ?lookup_insert_eq, ?lookup_insert_ne. }
  assert (Hold : forall q l f, fc !! q = Some l -> f ∈ l -> 1 <= f <= n)
    by (intros q l f Hl Hf; assert (H := cs_range _ _ Hsh q l f Hl Hf); lia).
  assert (Hd : forall f, f ∈ default [] (fc !! p) -> 1 <= f <= n).
  { intros f Hf. destruct (fc !! p) as [l|] eqn:Hl; [by eapply Hold|by apply elem_of_nil in Hf]. }
  split; [constructor|].
  - intros q l. rewrite Hlk. case_decide; [intros [= <-]|by apply (cs_sorted _ _ Hsh)].
    apply sorted_snoc. split; [|intros y Hy; specialize (Hd y Hy); lia].
    destruct (fc !! p) eqn:Hl; [by eapply cs_sorted|constructor].
  - intros q l f. rewrite Hlk. case_decide; [intros [= <-]|intros Hl Hf; specialize (Hold q l f Hl Hf); lia].
    intros [Hf|Hf%list_elem_of_singleton]%elem_of_app; [specialize (Hd f Hf)|]; lia.
  - intros q f Hf. rewrite Hlk. destruct (decide (f = n + 1)) as [->|Hne].
    + rewrite Hp. case_decide as Hq; subst; split.
      * done.
      * intros _. eexists. split; [done|]. set_solver.
      * intros (l & Hl & Hin). specialize (Hold q l _ Hl Hin). lia.
      * intros. congruence.
    + rewrite <- (He q f) by lia. case_decide as Hq; [subst|done]. split.
      * intros (l & [= <-] & [Hin|Hin%list_elem_of_singleton]%elem_of_app); [|lia].
        destruct (fc !! p) as [l|]; [by exists l|by apply elem_of_nil in Hin].
      * intros (l & Hl & Hin). rewrite Hl. eexists. split; [done|]. cbn. set_solver.
Qed.
(** [cache_frame] after the frames up to [n]: stale entries above are gone. *)
Lemma cache_frame_ok w fc hw n p :
  cache_shape fc hw -> cache_exact w fc n -> 0 <= n -> page_at w (n + 1) = Some p ->
  let fc' := cache_insert p (n + 1) (if n + 1 <=? hw then truncate_cache (n + 1 - 1) fc else fc) in
  cache_shape fc' (n + 1) /\ cache_exact w fc' (n + 1).
Proof.
  intros Hsh He Hn Hp. cbn zeta. destruct (Z.leb_spec (n + 1) hw).
  - apply (cache_insert_ok w _ n); [|lia| |done|done].
    + eapply truncate_shape; [done|lia].
    + eapply truncate_exact; [done|done|lia|lia].
  - by apply (cache_insert_ok w _ hw); [done|lia|..].
Qed.

(** * Locks *)

(** What a connection must hold for a call of a lock. *)
Definition perm (c : call) (h : held) : Prop :=
  match c, h with
  | CRead, HNone | CWrite, HNone | CUpgrade, HRead | CDowngrade, HWrite => True
  | CUnlock, HRead | CUnlock, HWrite | CSetValue _, HWrite => True
  | _, _ => False
  end.

Lemma lock_inv_holds gs l a i g :
  lock_inv gs l a -> gs !! i = Some g ->
  (g_held g l = HRead -> 1 <= a_readers a /\ a_writer a = false) /\
  (g_held g l = HWrite -> a_readers a = 0 /\ a_writer a = true).
Proof.
  intros (Hr & Hx & Ho) Hi. set (r := count_of _ gs) in *. set (x := count_of (fun g => is_write _) gs) in *. split; intros Hh.
  - assert (1 <= r) by (eapply count_of_in; [done|by rewrite Hh]). rewrite Hx. split; [lia|]. apply Z.ltb_ge. lia.
  - assert (1 <= x) by (eapply count_of_in; [done|by rewrite Hh]). rewrite Hx. split; [lia|]. apply Z.ltb_lt. lia.
Qed.
Lemma lock_inv_call gs i g g' l a c :
  gs !! i = Some g -> lock_inv gs l a -> perm c (g_held g l) -> g_held g' l = snd (spec_call c a) ->
  lock_inv (<[i := g']> gs) l (fst (spec_call c a)).
Proof.
  intros Hi Hl Hp Hg'. destruct (lock_inv_holds gs l a i g Hl Hi) as [Hhr Hhw].
  unfold lock_inv in *. rewrite !(count_of_insert _ _ _ g) by done. rewrite Hg'.
  destruct a as [v r x]. cbn in Hl, Hhr, Hhw. destruct Hl as (Hr & Hx & Ho).
  set (cr := count_of _ gs) in *. set (cx := count_of (fun g => is_write _) gs) in *.
  destruct c, (g_held g l); try done; try (destruct (Hhr eq_refl)); try (destruct (Hhw eq_refl)); subst x; cbn.
  all: repeat match goal with |- context [if ?b then _ else _] => destruct b eqn:?E; cbn end.
  all: rewrite ?orb_true_iff, ?orb_false_iff in *; zbool.
  all: unfold bit; cbn; split_and!; try lia; try done.
  all: try (symmetry; rewrite ?Z.ltb_lt, ?Z.ltb_ge; lia); try (rewrite ?Z.ltb_lt, ?Z.ltb_ge; lia).
  all: try (destruct E as [E|E]; rewrite ?Z.ltb_lt, ?Z.ltb_ge in E; zbool); try lia.
Qed.
Lemma lock_inv_same gs i g g' l a :
  gs !! i = Some g -> g_held g' l = g_held g l -> lock_inv gs l a -> lock_inv (<[i := g']> gs) l a.
Proof.
  intros Hi He Hl. unfold lock_inv in *. rewrite !(count_of_insert _ _ _ g) by done. rewrite He.
  by rewrite !Z.sub_add.
Qed.
(** A lock held exclusively is held by nobody else. *)
Lemma lock_excl gs l a i j g g' :
  lock_inv gs l a -> gs !! i = Some g -> gs !! j = Some g' -> i <> j -> g_held g l = HWrite -> g_held g' l = HNone.
Proof.
  intros (Hr & Hx & Ho) Hi Hj Hij Hg. destruct (g_held g' l) eqn:Hg'; [done|exfalso..].
  - assert (1 <= count_of (fun g => is_read (g_held g l)) gs) by (eapply count_of_in; [exact Hj|by rewrite Hg']).
    assert (1 <= count_of (fun g => is_write (g_held g l)) gs) by (eapply count_of_in; [exact Hi|by rewrite Hg]). lia.
  - assert (2 <= count_of (fun g => is_write (g_held g l)) gs)
      by (eapply (count_of_two _ _ i j); [done|done|done|by rewrite Hg|by rewrite Hg']). lia.
Qed.
