(* ===== verification/WalAccess.v ===== *)
(** A logic for the programs of WalCoord.v over the invariant of WalSpec.v: what a connection
    knows is in its own auxiliary state, which only its own accesses change, so nothing
    another connection does can invalidate it.  The rules below are the accesses; the
    operations are proved with them in WalOps.v. *)

From stdpp Require Import base list gmap numbers relations functions sorting.
From Stdlib Require Import ZArith Lia.
From S2P Require Import Prelude WalFormat RwLock Steps WalCoord WalSpec WalInv.

(** * The logic *)

(** A call takes effect, or nothing visible happens. *)
Definition slin (alone : Prop) (com : content) (ph : sphase) (com' : content) (ph' : sphase) : Prop :=
  com' = com /\ ph' = ph \/
  exists o m r m', ph = PBusy o m /\ ph' = PDone o r m' /\ lin alone o m com r m' com'.

Lemma slin_trans alone com ph com' ph' com'' ph'' :
  slin alone com ph com' ph' -> slin alone com' ph' com'' ph'' -> slin alone com ph com'' ph''.
Proof.
  intros [[-> ->]|H] H'; [done|]. destruct H as (o & m & r & m' & -> & -> & H).
  destruct H' as [[-> ->]|(? & ? & ? & ? & ? & _)]; [|done]. right. by exists o, m, r, m'.
Qed.

Section logic.
Context (page_sz : Z).

(** What a connection may do between its accesses: restate what it knows, or let its call
    take effect. *)
Definition upd (g g' : ghost) : Prop :=
  forall i sh com gs, INV page_sz sh com gs -> gs !! i = Some g ->
  exists com', slin (no_other_writer (g_phase <$> gs) i) com (g_phase g) com' (g_phase g') /\
    INV page_sz sh com' (<[i := g']> gs).

(** [p] run by a connection whose auxiliary state is [g], interleaved with any others:
    no access panics, each keeps the invariant, and [Q] holds of the result. *)
Fixpoint wpp {A} (p : prog WalShared A) (g : ghost) (Q : A -> ghost -> Prop) : Prop :=
  match p with
  | Ret a => exists g', upd g g' /\ Q a g'
  | Atomic fresh f k =>
      forall i e sh com gs, INV page_sz sh com gs -> gs !! i = Some g -> fresh sh = true ->
      exists x sh' com' g', f e sh = Some (x, sh') /\
        slin (no_other_writer (g_phase <$> gs) i) com (g_phase g) com' (g_phase g') /\
        INV page_sz sh' com' (<[i := g']> gs) /\ wpp (k x) g' Q
  end.

Lemma upd_refl g : upd g g.
Proof. intros i sh com gs Hinv Hi. exists com. split; [by left|]. by rewrite list_insert_id. Qed.
(** Whether another connection is writing does not depend on this one. *)
Lemma no_other_writer_insert (gs : list ghost) i g :
  no_other_writer (g_phase <$> <[i := g]> gs) i <-> no_other_writer (g_phase <$> gs) i.
Proof.
  unfold no_other_writer. split; intros H j ph Hj; specialize (H j ph Hj);
    rewrite list_fmap_insert, list_lookup_insert_ne in * by done; done.
Qed.
Lemma slin_iff (P P' : Prop) com ph com' ph' : (P -> P') -> slin P com ph com' ph' -> slin P' com ph com' ph'.
Proof.
  intros HP [?|(o & m & r & m' & ? & ? & H)]; [by left|]. right. exists o, m, r, m'. split_and!; [done..|].
  inversion H; subst; econstructor; eauto.
Qed.
Lemma upd_trans g g' g'' : upd g g' -> upd g' g'' -> upd g g''.
Proof.
  intros H H' i sh com gs Hinv Hi. assert (Hlt := lookup_lt_Some _ _ _ Hi).
  destruct (H i sh com gs Hinv Hi) as (com' & Hs & Hinv').
  destruct (H' i sh com' (<[i := g']> gs) Hinv') as (com'' & Hs' & Hinv''); [by apply list_lookup_insert_eq|].
  rewrite list_insert_insert_eq in Hinv''. exists com''. split; [|done].
  eapply slin_trans; [done|]. eapply slin_iff; [|exact Hs']. by apply no_other_writer_insert.
Qed.

Lemma wpp_mono {A} (p : prog WalShared A) g (Q Q' : A -> ghost -> Prop) :
  wpp p g Q -> (forall a g', Q a g' -> Q' a g') -> wpp p g Q'.
Proof.
  intros H HQ. revert g H. induction p as [a|X fresh f k IH]; intros g H; cbn in *.
  { destruct H as (g' & ? & ?). eauto. }
  intros i e sh com gs Hinv Hi Hf. destruct (H i e sh com gs Hinv Hi Hf) as (x & sh' & com' & g' & ? & ? & ? & ?).
  exists x, sh', com', g'. eauto.
Qed.
Lemma wpp_upd {A} (p : prog WalShared A) g g' Q : upd g g' -> wpp p g' Q -> wpp p g Q.
Proof.
  intros Hu. destruct p as [a|X fresh f k]; cbn.
  { intros (g'' & ? & ?). exists g''. split; [by eapply upd_trans|done]. }
  intros H i e sh com gs Hinv Hi Hf. assert (Hlt := lookup_lt_Some _ _ _ Hi).
  destruct (Hu i sh com gs Hinv Hi) as (com' & Hs & Hinv').
  destruct (H i e sh com' (<[i := g']> gs)) as (x & sh' & com'' & g'' & ? & Hs' & Hi' & ?);
    [done|by rewrite list_lookup_insert_eq|done|].
  exists x, sh', com'', g''. rewrite list_insert_insert_eq in Hi'. split_and!; [done| |done|done].
  eapply slin_trans; [done|]. eapply slin_iff; [|exact Hs']. by apply no_other_writer_insert.
Qed.
Lemma wpp_bind {A B} (p : prog WalShared A) (h : A -> prog WalShared B) g Q :
  wpp p g (fun a g' => wpp (h a) g' Q) -> wpp (p ≫= h) g Q.
Proof.
  change (p ≫= h) with (prog_bind h p).
  revert g. induction p as [a|X fresh f k IH]; intros g H; cbn in *.
  { destruct H as (g' & ? & ?). by eapply wpp_upd. }
  intros i e sh com gs Hinv Hi Hf. destruct (H i e sh com gs Hinv Hi Hf) as (x & sh' & com' & g' & ? & ? & ? & ?).
  exists x, sh', com', g'. eauto.
Qed.
Lemma wpp_ret {A} (a : A) g (Q : A -> ghost -> Prop) : Q a g -> wpp (mret a) g Q.
Proof. intros H. exists g. split; [apply upd_refl|done]. Qed.
(** One access. *)
Lemma wpp_act {X} fresh (f : Z -> WalShared -> option (X * WalShared)) g Q :
  (forall i e sh com gs base hz, inv page_sz base hz sh com gs -> gs !! i = Some g -> fresh sh = true ->
    exists x sh' com' g', f e sh = Some (x, sh') /\
      slin (no_other_writer (g_phase <$> gs) i) com (g_phase g) com' (g_phase g') /\
      INV page_sz sh' com' (<[i := g']> gs) /\ Q x g') ->
  wpp (Atomic fresh f Ret) g Q.
Proof.
  intros H i e sh com gs (base & hz & Hinv) Hi Hf.
  destruct (H i e sh com gs base hz Hinv Hi Hf) as (x & sh' & com' & g' & ? & ? & ? & ?).
  exists x, sh', com', g'. split_and!; [done..|]. by apply wpp_ret.
Qed.
(** One access that changes nothing visible. *)
Lemma wpp_silent {X} fresh (f : Z -> WalShared -> option (X * WalShared)) g Q :
  (forall i e sh com gs base hz, inv page_sz base hz sh com gs -> gs !! i = Some g -> fresh sh = true ->
    exists x sh' g', f e sh = Some (x, sh') /\ g_phase g' = g_phase g /\
      INV page_sz sh' com (<[i := g']> gs) /\ Q x g') ->
  wpp (Atomic fresh f Ret) g Q.
Proof.
  intros H. apply wpp_act. intros i e sh com gs base hz Hinv Hi Hf.
  destruct (H i e sh com gs base hz Hinv Hi Hf) as (x & sh' & g' & ? & Hp & ? & ?).
  exists x, sh', com, g'. split_and!; [done| |done|done]. by left.
Qed.
(** A load tells what the invariant says of the state. *)
Lemma wpp_load {X} (f : WalShared -> X) g Q :
  (forall i sh com gs base hz, inv page_sz base hz sh com gs -> gs !! i = Some g -> Q (f sh) g) ->
  wpp (load f) g Q.
Proof.
  intros H. apply wpp_silent. intros i e sh com gs base hz Hinv Hi _. exists (f sh), sh, g.
  split_and!; [done|done|rewrite list_insert_id by done; by exists base, hz|by eapply H].
Qed.
Lemma wpp_passert b g Q : b = true -> Q tt g -> wpp (passert b) g Q.
Proof.
  intros -> HQ. apply wpp_silent. intros i e sh com gs base hz Hinv Hi _. exists tt, sh, g.
  split_and!; [done|done|rewrite list_insert_id by done; by exists base, hz|done].
Qed.
End logic.
Arguments wpp : simpl never.

(** * Steps that leave the contents alone *)

(** The shared state but its locks, its epoch and the fields only copied around. *)
Definition core (sh : WalShared) :=
  (sh_header sh, sh_max_frame sh, sh_nbackfills sh, sh_initialized sh, sh_frame_cache sh, sh_high_water sh,
   sh_wal sh, sh_db sh).

Lemma readers_insert gs i g g' r :
  gs !! i = Some g -> readers (<[i := g']> gs) r -> readers gs r \/ g_read g' = Some r.
Proof.
  intros Hi (j & x & Hj & Hr). destruct (decide (j = i)) as [->|Hne].
  - rewrite list_lookup_insert_eq in Hj by (by eapply lookup_lt_Some). simplify_eq. by right.
  - rewrite list_lookup_insert_ne in Hj by done. left. by exists j, x.
Qed.

(** Rewrite a state to one with the same contents. *)
Ltac by_core Hc :=
  unfold core in Hc; injection Hc as ? ? ? ? ? ? ? ?;
  repeat match goal with E : ?f ?sh' = ?f ?sh |- _ => progress (rewrite E in *); clear E end.

Section frame.
Context (page_sz : Z) (base : content) (hz : Z).

(** Marks that a connection has pinned stay, and a new reader reads up to the last frame. *)
Definition new_readers (sh : WalShared) (gs gs' : list ghost) : Prop :=
  forall r, readers gs' r -> readers gs r \/ rv_upto r = sh_max_frame sh.

Lemma ck_inv_frame sh sh' gs gs' g :
  ck_inv base hz sh gs g -> core sh' = core sh -> new_readers sh gs gs' -> ck_inv base hz sh' gs' g.
Proof.
  unfold ck_inv, copied. intros H Hc Hr.
  assert (Hrd : forall m k, m <= sh_max_frame sh -> (forall r, readers gs r -> m <= rv_upto r \/ (k <= rv_slot r)%nat) ->
    forall r, readers gs' r -> m <= rv_upto r \/ (k <= rv_slot r)%nat).
  { intros m k Hm Hk r [Hr'|Hr']%Hr; [by apply Hk|left; lia]. }
  by_core Hc. destruct (g_ck g); try done; destruct_and?; split_and!; try done.
  - by apply Hrd.
  - by apply Hrd.
  - intros r [Hr'|Hr']%Hr Hs; [eauto|left; lia].
Qed.
Lemma conn_inv_frame sh sh' gs gs' g :
  conn_inv base hz sh gs g -> core sh' = core sh -> new_readers sh gs gs' ->
  (forall s v, g_pin g = Some (s, v) -> mark_of sh' s = mark_of sh s) ->
  conn_inv base hz sh' gs' g.
Proof.
  intros [Hp Hr Hf Hw Hph Hck] Hc Hrd Hm. assert (Hck' := ck_inv_frame _ _ _ _ _ Hck Hc Hrd).
  constructor; [| | | |done|done].
  - intros s v Hs. rewrite (Hm s v Hs). by apply Hp.
  - intros r Hg. specialize (Hr r Hg). unfold read_inv in *. by by_core Hc.
  - intros p f Hg. destruct (Hf p f Hg) as (r & ? & H). exists r. split; [done|]. unfold find_inv in *. by by_core Hc.
  - intros wv Hg. specialize (Hw wv Hg). unfold write_inv in *. by by_core Hc.
Qed.

(** The invariant after a step of connection [i] that changes no contents. *)
Lemma inv_quiet sh sh' com gs i g g' :
  inv page_sz base hz sh com gs -> gs !! i = Some g -> core sh' = core sh ->
  (forall l, lock_inv (<[i := g']> gs) l (sh_locks sh' l)) -> (forall s, 0 <= mark_of sh' s <= U32_MAX) ->
  (forall j x s v, j <> i -> gs !! j = Some x -> g_pin x = Some (s, v) -> mark_of sh' s = mark_of sh s) ->
  (forall r, g_read g' = Some r -> g_read g = Some r \/ rv_upto r = sh_max_frame sh) ->
  conn_inv base hz sh' (<[i := g']> gs) g' ->
  inv page_sz base hz sh' com (<[i := g']> gs).
Proof.
  intros Hinv Hi Hc Hl Hmr Hm Hr Hg'. assert (Hrd : new_readers sh gs (<[i := g']> gs)).
  { intros r [?|Hr']%(readers_insert _ _ g); [by left| |done]. destruct (Hr r Hr'); [|by right]. left. by exists i, g. }
  assert (Hcn : forall j x, <[i := g']> gs !! j = Some x -> conn_inv base hz sh' (<[i := g']> gs) x).
  { intros j x Hj. destruct (decide (j = i)) as [->|Hne].
    - rewrite list_lookup_insert_eq in Hj by (by eapply lookup_lt_Some). by simplify_eq.
    - rewrite list_lookup_insert_ne in Hj by done. eapply conn_inv_frame; [by eapply (i_conn _ _ _ _ _ _ Hinv)|done|done|].
      intros s v. by apply (Hm j). }
  destruct Hinv as [? ? ? ? ? ? ? ? ? _ _]. clear Hg' Hrd Hm Hr. constructor; try done; by by_core Hc.
Qed.
End frame.

(** * Locks *)

Definition with_held (f : lockname -> held) (g : ghost) : ghost :=
  MkGhost f (g_pin g) (g_read g) (g_find g) (g_write g) (g_ck g) (g_phase g).

(** The locks [f] are enough for what [g] claims. *)
Definition supports (f : lockname -> held) (g : ghost) : Prop :=
  (forall s v, g_pin g = Some (s, v) -> f (LRead s) = HRead) /\
  (forall r, g_read g = Some r -> f (LRead (rv_slot r)) <> HNone) /\
  (g_write g <> None -> f LWrite = HWrite) /\
  match g_ck g with
  | CkNone => True
  | CkAll | CkReset => f (LRead 0) = HWrite /\ f LWrite = HWrite
  | _ => f (LRead 0) = HWrite
  end.

Lemma conn_supports base hz sh gs g : conn_inv base hz sh gs g -> supports (g_held g) g.
Proof.
  intros [Hp Hr _ Hw _ Hck]. split_and!.
  - intros s v H. by apply (Hp s v).
  - intros r H. by apply (Hr r).
  - destruct (g_write g) as [wv|]; [|done]. intros _. by apply (Hw wv).
  - unfold ck_inv in Hck. destruct (g_ck g); naive_solver.
Qed.
Lemma conn_inv_held base hz sh gs g f :
  conn_inv base hz sh gs g -> supports f g -> conn_inv base hz sh gs (with_held f g).
Proof.
  intros [Hp Hr Hf Hw Hph Hck] (Sp & Sr & Sw & Sck). constructor; cbn.
  - intros s v H. destruct (Hp s v H) as (? & _ & ?). split_and!; [done|by eapply Sp|done].
  - intros r H. destruct (Hr r H) as (? & _ & H'). split_and!; [done|by apply Sr|apply H'..].
  - intros p fd H. by apply Hf.
  - intros wv H. destruct (Hw wv H) as (_ & H'). split; [apply Sw; cbn; congruence|done].
  - done.
  - unfold ck_inv in *. cbn. destruct (g_ck g); naive_solver.
Qed.
(** A lock taken on top of what is held. *)
Lemma supports_take base hz sh gs g l h :
  conn_inv base hz sh gs g -> g_held g l = HNone -> supports (<[l := h]> (g_held g)) g.
Proof.
  intros (Sp & Sr & Sw & Sck)%conn_supports Hl.
  assert (Hne : forall l', g_held g l' <> HNone -> <[l := h]> (g_held g) l' = g_held g l')
    by (intros l' Hl'; rewrite fn_lookup_insert_ne; [done|congruence]).
  split_and!.
  - intros s v H. rewrite Hne; [by eapply Sp|]. by rewrite (Sp s v H).
  - intros r H. rewrite Hne; [by apply Sr|by apply Sr].
  - intros H. rewrite Hne; [by apply Sw|]. by rewrite (Sw H).
  - destruct (g_ck g); try done; destruct_and?; split_and?; rewrite Hne; congruence.
Qed.

Lemma set_lock_locks l a sh : sh_locks (set_lock l a sh) = <[l := a]> (sh_locks sh).
Proof. by destruct sh. Qed.
Lemma set_lock_core l a sh : core (set_lock l a sh) = core sh.
Proof. by destruct sh. Qed.
Lemma spec_call_value c a : (forall v, c <> CSetValue v) -> a_value (fst (spec_call c a)) = a_value a.
Proof. destruct a as [u r []], c; cbn; intros Hc; try (by repeat case_match); by destruct (Hc v). Qed.

Section locks.
Context (page_sz : Z) (base : content) (hz : Z).

Lemma inv_lock sh com gs i g c l :
  inv page_sz base hz sh com gs -> gs !! i = Some g -> perm c (g_held g l) -> (forall v, c <> CSetValue v) ->
  let a := sh_locks sh l in
  let f := <[l := snd (spec_call c a)]> (g_held g) in
  supports f g ->
  inv page_sz base hz (set_lock l (fst (spec_call c a)) sh) com (<[i := with_held f g]> gs).
Proof.
  intros Hinv Hi Hp Hc a f Hs. assert (Hconn := i_conn _ _ _ _ _ _ Hinv i g Hi).
  assert (Hmark : forall s, mark_of (set_lock l (fst (spec_call c a)) sh) s = mark_of sh s).
  { intros s. unfold mark_of. rewrite set_lock_locks. destruct (decide (l = LRead s)) as [->|?];
      [by rewrite fn_lookup_insert, spec_call_value|by rewrite fn_lookup_insert_ne]. }
  eapply inv_quiet; [done|done|apply set_lock_core| |intros s; rewrite Hmark; apply Hinv| |by left|].
  - intros l'. rewrite set_lock_locks. assert (Hl' := i_locks _ _ _ _ _ _ Hinv l').
    destruct (decide (l = l')) as [<-|Hne].
    + rewrite fn_lookup_insert. apply (lock_inv_call _ _ g); [done|done|done|]. cbn. unfold f. by rewrite fn_lookup_insert.
    + rewrite fn_lookup_insert_ne by done. apply (lock_inv_same _ _ g); [done| |done]. cbn. unfold f.
      by rewrite fn_lookup_insert_ne.
  - intros. apply Hmark.
  - apply conn_inv_held; [|done]. eapply conn_inv_frame; [done|apply set_lock_core| |by intros].
    intros r [?|Hr]%(readers_insert _ _ g); [by left|left; by exists i, g|done].
Qed.
Lemma inv_set_mark sh com gs i g s v :
  inv page_sz base hz sh com gs -> gs !! i = Some g -> g_held g (LRead s) = HWrite -> 0 <= v <= U32_MAX ->
  inv page_sz base hz (set_lock (LRead s) (fst (spec_call (CSetValue v) (sh_locks sh (LRead s)))) sh) com gs.
Proof.
  intros Hinv Hi Hg Hv. assert (Hconn := i_conn _ _ _ _ _ _ Hinv i g Hi). set (sh' := set_lock _ _ sh).
  rewrite <- (list_insert_id gs i g Hi). assert (Hmark : forall s', s' <> s -> mark_of sh' s' = mark_of sh s').
  { intros s' Hs. unfold mark_of, sh'. rewrite set_lock_locks, fn_lookup_insert_ne; [done|congruence]. }
  assert (Hpin : forall x s' u, conn_inv base hz sh gs x -> g_held x (LRead s) <> HRead ->
    g_pin x = Some (s', u) -> mark_of sh' s' = mark_of sh s').
  { intros x s' u Hx Hn Hu. apply Hmark. intros ->. by apply (ci_pin _ _ _ _ _ Hx) in Hu as (_ & ? & _). }
  eapply inv_quiet; [done|done|apply set_lock_core| | | |by left|].
  - intros l. unfold sh'. rewrite set_lock_locks. assert (Hl := i_locks _ _ _ _ _ _ Hinv l).
    destruct (decide (LRead s = l)) as [<-|Hne].
    + rewrite fn_lookup_insert. apply (lock_inv_call _ _ g); [done|done|by rewrite Hg|]. rewrite Hg.
      by destruct (sh_locks sh _).
    + rewrite fn_lookup_insert_ne by done. by apply (lock_inv_same _ _ g).
  - intros s'. destruct (decide (s' = s)) as [->|?]; [|rewrite Hmark by done; apply Hinv].
    unfold mark_of, sh'. rewrite set_lock_locks, fn_lookup_insert. by destruct (sh_locks sh _).
  - intros j x s' u Hji Hj Hu. eapply Hpin; [by eapply (i_conn _ _ _ _ _ _ Hinv)| |done].
    by rewrite (lock_excl _ _ _ i j g x (i_locks _ _ _ _ _ _ Hinv (LRead s)) Hi Hj).
  - rewrite (list_insert_id gs i g Hi). eapply conn_inv_frame; [done|apply set_lock_core|by left|].
    intros s' u Hu. eapply Hpin; [done| |done]. by rewrite Hg.
Qed.
End locks.

Section lock_rules.
Context (page_sz : Z).

(** The same state with its locks given by another function. *)
Lemma inv_same_locks base hz sh sh' com gs :
  inv page_sz base hz sh com gs -> core sh' = core sh -> (forall l, sh_locks sh' l = sh_locks sh l) ->
  inv page_sz base hz sh' com gs.
Proof.
  intros Hinv Hc Hl.
  assert (Hconn : forall i g, gs !! i = Some g -> conn_inv base hz sh' gs g).
  { intros i g Hi. eapply conn_inv_frame; [by eapply (i_conn _ _ _ _ _ _ Hinv)|done|by left|].
    intros s v _. unfold mark_of. by rewrite Hl. }
  assert (Hlk : forall l, lock_inv gs l (sh_locks sh' l)) by (intros l; rewrite Hl; apply Hinv).
  assert (Hmk : forall s, 0 <= mark_of sh' s <= U32_MAX) by (intros s; unfold mark_of; rewrite Hl; apply Hinv).
  destruct Hinv as [? ? ? ? ? ? ? ? ? _ _]. clear Hl. constructor; try done; by by_core Hc.
Qed.

(** What the call takes. *)
Definition taken (c : call) : held := match c with CRead => HRead | _ => HWrite end.
Lemma wpp_try_lock_gen fresh c l g (Q : bool -> ghost -> Prop) :
  c = CRead \/ c = CWrite -> g_held g l = HNone -> Q false g ->
  ((exists sh base hz com gs i, inv page_sz base hz sh com gs /\ gs !! i = Some g /\ fresh sh = true) ->
    Q true (with_held (<[l := taken c]> (g_held g)) g)) ->
  wpp page_sz (Atomic fresh (fun e s =>
    if e =? 0 then Some (false, s)
    else let '(a, h) := spec_call c (sh_locks s l) in Some (granted c h, set_lock l a s)) Ret) g Q.
Proof.
  intros Hc Hl Hf Ht. apply wpp_silent. intros i e sh com gs base hz Hinv Hi Hfr.
  destruct (Z.eqb_spec e 0).
  { exists false, sh, g. rewrite list_insert_id by done. split_and!; try done. by exists base, hz. }
  destruct (spec_call c (sh_locks sh l)) as [a h] eqn:Hsc.
  assert (Hs := inv_lock page_sz base hz sh com gs i g c l Hinv Hi). cbn zeta in Hs. rewrite Hsc in Hs. cbn in Hs.
  assert (Hno : a = sh_locks sh l -> exists x sh' g', Some (false, set_lock l a sh) = Some (x, sh') /\
    g_phase g' = g_phase g /\ INV page_sz sh' com (<[i := g']> gs) /\ Q x g').
  { intros ->. exists false, (set_lock l (sh_locks sh l) sh), g. rewrite list_insert_id by done. split_and!; try done.
    exists base, hz. eapply inv_same_locks; [done|apply set_lock_core|]. intros l'. rewrite set_lock_locks.
    destruct (decide (l = l')) as [<-|?]; [by rewrite fn_lookup_insert|by rewrite fn_lookup_insert_ne]. }
  assert (Hsup : forall h, supports (<[l := h]> (g_held g)) g)
    by (intros h'; eapply supports_take; [by eapply (i_conn _ _ _ _ _ _ Hinv)|done]).
  assert (Hyes : h = taken c ->
    exists x sh' g', Some (true, set_lock l a sh) = Some (x, sh') /\
    g_phase g' = g_phase g /\ INV page_sz sh' com (<[i := g']> gs) /\ Q x g').
  { intros ->. eexists true, _, _. split_and!; [done| | |apply Ht; by exists sh, base, hz, com, gs, i]; [done|].
    exists base, hz. apply Hs; [by destruct Hc as [-> | ->]; rewrite Hl|by destruct Hc as [-> | ->]|done]. }
  destruct (sh_locks sh l) as [v r x] eqn:Ha. destruct Hc as [-> | ->]; cbn in Hsc; case_match; simplify_eq; cbn; auto.
Qed.
Lemma wpp_try_lock c l g Q :
  c = CRead \/ c = CWrite -> g_held g l = HNone -> Q false g ->
  Q true (with_held (<[l := taken c]> (g_held g)) g) ->
  wpp page_sz (try_lock c l) g Q.
Proof. intros. by apply wpp_try_lock_gen. Qed.
Lemma wpp_upgrade g Q :
  g_held g (LRead 0) = HRead -> g_pin g = None -> Q false g ->
  Q true (with_held (<[LRead 0 := HWrite]> (g_held g)) g) ->
  wpp page_sz (try_upgrade_read_mark 0) g Q.
Proof.
  intros Hl Hpin Hf Ht. apply wpp_silent. intros i e sh com gs base hz Hinv Hi _. destruct (Z.eqb_spec e 0).
  { exists false, sh, g. rewrite list_insert_id by done. split_and!; try done. by exists base, hz. }
  destruct (spec_call CUpgrade (sh_locks sh (LRead 0))) as [a h] eqn:Hsc.
  assert (Hs := inv_lock page_sz base hz sh com gs i g CUpgrade (LRead 0) Hinv Hi). cbn zeta in Hs. rewrite Hsc, Hl in Hs. cbn in Hs.
  assert (Hsup : supports (<[LRead 0 := HWrite]> (g_held g)) g).
  { assert (Hc := conn_supports _ _ _ _ _ (i_conn _ _ _ _ _ _ Hinv i g Hi)). destruct Hc as (Sp & Sr & Sw & Sck).
    split_and!.
    - intros s v H. congruence.
    - intros r H. destruct (decide (LRead 0 = LRead (rv_slot r))) as [<-|?];
        [by rewrite fn_lookup_insert|rewrite fn_lookup_insert_ne by done; by apply Sr].
    - intros H. by rewrite fn_lookup_insert_ne; [apply Sw|].
    - rewrite Hl in Sck. by destruct (g_ck g); destruct_and?. }
  destruct (sh_locks sh (LRead 0)) as [v r x] eqn:Ha. cbn in Hsc. case_match; simplify_eq; cbn.
  - eexists true, _, _. split_and!; [done| | |exact Ht]; [done|]. exists base, hz.
    by apply Hs.
  - exists false, (set_lock (LRead 0) (ALock v r x) sh), g. rewrite list_insert_id by done. split_and!; try done.
    exists base, hz. eapply inv_same_locks; [done|apply set_lock_core|]. intros l'. rewrite set_lock_locks.
    destruct (decide (LRead 0 = l')) as [<-|?]; [by rewrite fn_lookup_insert|by rewrite fn_lookup_insert_ne].
Qed.
Lemma wpp_unlock l g Q :
  g_held g l <> HNone ->
  (forall base hz sh gs, conn_inv base hz sh gs g -> supports (<[l := HNone]> (g_held g)) g) ->
  Q tt (with_held (<[l := HNone]> (g_held g)) g) -> wpp page_sz (unlock l) g Q.
Proof.
  intros Hl Hsup HQ. apply wpp_silent. intros i e sh com gs base hz Hinv Hi _. cbn.
  destruct (lock_inv_holds gs l _ i g (i_locks _ _ _ _ _ _ Hinv l) Hi) as [Hhr Hhw].
  assert (a_writer (sh_locks sh l) || (0 <? a_readers (sh_locks sh l)) = true) as ->.
  { destruct (g_held g l); [done|destruct Hhr as [? _]; [done|]|by destruct Hhw as [_ ->]].
    rewrite orb_true_iff, Z.ltb_lt. lia. }
  eexists tt, _, _. split_and!; [done| | |exact HQ]; [done|]. exists base, hz.
  assert (Hs := inv_lock page_sz base hz sh com gs i g CUnlock l Hinv Hi).
  assert (Hn : snd (spec_call CUnlock (sh_locks sh l)) = HNone) by by destruct (sh_locks sh l).
  cbn zeta in Hs. rewrite Hn in Hs. apply Hs; [by destruct (g_held g l)|done|].
  by eapply Hsup, (i_conn _ _ _ _ _ _ Hinv).
Qed.
Lemma wpp_downgrade l g Q :
  g_held g l = HWrite ->
  (forall base hz sh gs, conn_inv base hz sh gs g -> supports (<[l := HRead]> (g_held g)) g) ->
  Q tt (with_held (<[l := HRead]> (g_held g)) g) -> wpp page_sz (downgrade l) g Q.
Proof.
  intros Hl Hsup HQ. apply wpp_silent. intros i e sh com gs base hz Hinv Hi _. cbn.
  destruct (lock_inv_holds gs l _ i g (i_locks _ _ _ _ _ _ Hinv l) Hi) as [_ [_ ->]]; [done|].
  eexists tt, _, _. split_and!; [done| | |exact HQ]; [done|]. exists base, hz.
  assert (Hs := inv_lock page_sz base hz sh com gs i g CDowngrade l Hinv Hi).
  assert (Hn : snd (spec_call CDowngrade (sh_locks sh l)) = HRead) by by destruct (sh_locks sh l).
  cbn zeta in Hs. rewrite Hn in Hs. apply Hs; [by rewrite Hl|done|].
  by eapply Hsup, (i_conn _ _ _ _ _ _ Hinv).
Qed.
Lemma wpp_set_mark s v g (Q : unit -> ghost -> Prop) :
  g_held g (LRead s) = HWrite -> 0 <= v <= U32_MAX -> Q tt g -> wpp page_sz (set_read_mark_value_exclusive s v) g Q.
Proof.
  intros Hl Hv HQ. apply wpp_silent. intros i e sh com gs base hz Hinv Hi _. unfold set_value.
  destruct (lock_inv_holds gs (LRead s) _ i g (i_locks _ _ _ _ _ _ Hinv _) Hi) as [_ [_ ->]]; [done|].
  eexists tt, _, _. split_and!; [done| | |exact HQ]; [done|]. exists base, hz. rewrite list_insert_id by done.
  by eapply inv_set_mark.
Qed.
(** The epoch is not part of what the invariant speaks of. *)
Lemma wpp_bump_epoch g (Q : unit -> ghost -> Prop) : Q tt g -> wpp page_sz bump_checkpoint_epoch g Q.
Proof.
  intros HQ. apply wpp_silent. intros i e sh com gs base hz Hinv Hi _. eexists tt, _, g. split_and!; [done|done| |done].
  rewrite list_insert_id by done. exists base, hz. by destruct sh; eapply inv_same_locks.
Qed.
End lock_rules.

(** * Auxiliary steps *)

Definition with_pin (x : option (nat * Z)) (g : ghost) : ghost :=
  MkGhost (g_held g) x (g_read g) (g_find g) (g_write g) (g_ck g) (g_phase g).
Definition with_read (x : option rview) (g : ghost) : ghost :=
  MkGhost (g_held g) (g_pin g) x (g_find g) (g_write g) (g_ck g) (g_phase g).
Definition with_find (x : option (Z * option Z)) (g : ghost) : ghost :=
  MkGhost (g_held g) (g_pin g) (g_read g) x (g_write g) (g_ck g) (g_phase g).
Definition with_write (x : option wview) (g : ghost) : ghost :=
  MkGhost (g_held g) (g_pin g) (g_read g) (g_find g) x (g_ck g) (g_phase g).
Definition with_ck (x : ckphase) (g : ghost) : ghost :=
  MkGhost (g_held g) (g_pin g) (g_read g) (g_find g) (g_write g) x (g_phase g).
Definition with_phase (x : sphase) (g : ghost) : ghost :=
  MkGhost (g_held g) (g_pin g) (g_read g) (g_find g) (g_write g) (g_ck g) x.

Section auxiliary.
Context (page_sz : Z).

(** The shared state stays; only what connection [i] knows changes. *)
Lemma inv_ghost base hz sh com gs i g g' :
  inv page_sz base hz sh com gs -> gs !! i = Some g -> (forall l, g_held g' l = g_held g l) ->
  (forall r, g_read g' = Some r -> g_read g = Some r \/ rv_upto r = sh_max_frame sh) ->
  conn_inv base hz sh gs g' -> inv page_sz base hz sh com (<[i := g']> gs).
Proof.
  intros Hinv Hi Hl Hr Hg'. eapply inv_quiet; [done|done|done| |apply Hinv|done|done|].
  - intros l. apply (lock_inv_same _ _ g); [done|done|]. apply Hinv.
  - eapply conn_inv_frame; [done|done| |done].
    intros r [?|Hr']%(readers_insert _ _ g); [by left| |done]. destruct (Hr r Hr'); [|by right]. left. by exists i, g.
Qed.
Lemma upd_ghost g g' :
  (forall l, g_held g' l = g_held g l) -> g_phase g' = g_phase g -> (forall r, g_read g' = Some r -> g_read g = Some r) ->
  (forall i sh com gs base hz, inv page_sz base hz sh com gs -> gs !! i = Some g -> conn_inv base hz sh gs g ->
    conn_inv base hz sh gs g') ->
  upd page_sz g g'.
Proof.
  intros Hl Hp Hr Hc i sh com gs (base & hz & Hinv) Hi. exists com. split; [by left|]. exists base, hz.
  eapply inv_ghost; [done|done|done|by left; apply Hr|]. eapply Hc; [done..|]. by eapply (i_conn _ _ _ _ _ _ Hinv).
Qed.
(** A call that leaves the committed contents takes effect. *)
Lemma upd_lin g o m r m' :
  g_phase g = PBusy o m -> (forall alone com, lin alone o m com r m' com) ->
  (writing m' = true -> g_write g <> None) -> upd page_sz g (with_phase (PDone o r m') g).
Proof.
  intros Hp Hlin Hw i sh com gs (base & hz & Hinv) Hi. exists com. split.
  - right. exists o, m, r, m'. by split_and!.
  - exists base, hz. eapply inv_ghost; [done|done|done|by left|].
    destruct (i_conn _ _ _ _ _ _ Hinv i g Hi). by constructor.
Qed.

Lemma upd_drop_find g : upd page_sz g (with_find None g).
Proof. apply upd_ghost; try done. intros i sh com gs base hz _ _ []. by constructor. Qed.
(** The end of a snapshot, of a writer's claim, of a checkpoint's. *)
Lemma upd_drop_read g :
  g_write g = None -> upd page_sz g (with_find None (with_read None (with_pin None g))).
Proof. intros. apply upd_ghost; try done. intros i sh com gs base hz _ _ []. constructor; try done. by cbn; congruence. Qed.
Lemma upd_drop_pin g : g_read g = None -> upd page_sz g (with_pin None g).
Proof.
  intros Hr. apply upd_ghost; try done. intros i sh com gs base hz _ _ []. constructor; try done.
  intros r. cbn. congruence.
Qed.
Lemma upd_drop_write g :
  g_find g = None -> writing (phase_mode (g_phase g)) = false -> upd page_sz g (with_write None g).
Proof.
  intros Hf Hp. apply upd_ghost; try done. intros i sh com gs base hz _ _ []. constructor; try done; cbn; congruence.
Qed.
Lemma upd_drop_ck g : upd page_sz g (with_ck CkNone g).
Proof. apply upd_ghost; try done. intros i sh com gs base hz _ _ []. by constructor. Qed.
Lemma upd_drop_pend g wv :
  g_write g = Some wv -> upd page_sz g (with_write (Some (MkWriter (wv_log wv) [] (wv_init wv) (wv_page_size wv) (wv_seq wv))) g).
Proof.
  intros Hg. apply upd_ghost; try done. intros i sh com gs base hz _ _ [? ? Hf Hw ? ?]. constructor; try done; cbn.
  - intros p f Hfd. destruct (Hf p f Hfd) as (r & ? & H). exists r. split; [done|]. unfold find_inv, seen_upto in *.
    cbn. by rewrite Hg in H.
  - intros ? [= <-]. destruct (Hw wv Hg) as (? & ? & ? & ? & ? & ? & He & ?). unfold write_inv. cbn. split_and!; try done; [|naive_solver..].
    intros k x Hk. rewrite app_nil_r in Hk. apply He. by apply lookup_app_l_Some.
Qed.
End auxiliary.

(** * Reading *)

Definition seen_content (g : ghost) (r : rview) : content :=
  match g_write g with Some wv => apply_log (rv_content r) (wv_log wv) | None => rv_content r end.

Section reading.
Context (page_sz : Z).

Lemma seen_at_frame base hz sh com gs i g r p :
  inv page_sz base hz sh com gs -> gs !! i = Some g -> g_read g = Some r ->
  seen_content g r p = at_frame base (sh_wal sh) (seen_upto g r) p.
Proof.
  intros Hinv Hi Hr. assert (Hc := i_conn _ _ _ _ _ _ Hinv i g Hi).
  destruct (ci_read _ _ _ _ _ Hc r Hr) as (_ & _ & _ & _ & Hb & Hb' & Hcont). unfold seen_content, seen_upto.
  destruct (g_write g) as [wv|] eqn:Hw; [|by rewrite Z.add_0_r, Hcont].
  destruct (ci_write _ _ _ _ _ Hc wv Hw) as (_ & (r' & Hr' & Hmax) & _ & _ & _ & _ & He & _). simplify_eq.
  rewrite Hmax in *. rewrite at_frame_log; [by apply apply_log_ext|destruct (i_bounds _ _ _ _ _ _ Hinv); lia|].
  intros k x Hk. apply He. by apply lookup_app_l_Some.
Qed.
Lemma seen_exact base hz sh com gs i g r :
  inv page_sz base hz sh com gs -> gs !! i = Some g -> g_read g = Some r ->
  0 <= rv_from r <= hz /\ hz <= seen_upto g r /\ cache_exact (sh_wal sh) (sh_frame_cache sh) (seen_upto g r) /\
  sh_nbackfills sh <= hz /\ rv_from r <= sh_nbackfills sh.
Proof.
  intros Hinv Hi Hr. assert (Hc := i_conn _ _ _ _ _ _ Hinv i g Hi). assert (Hbb := i_bounds _ _ _ _ _ _ Hinv).
  destruct (ci_read _ _ _ _ _ Hc r Hr) as (_ & _ & _ & _ & Hb & Hb' & Hcont). unfold seen_upto.
  destruct (g_write g) as [wv|] eqn:Hw.
  - destruct (ci_write _ _ _ _ _ Hc wv Hw) as (_ & (r' & Hr' & Hmax) & _ & _ & _ & _ & _ & He & _). simplify_eq.
    rewrite Hmax. unfold len in *. split_and!; try lia. done.
  - rewrite Z.add_0_r. split_and!; try lia. intros p f Hf. apply (i_exact _ _ _ _ _ _ Hinv). lia.
Qed.

Lemma wpp_find_frame g r p lo Q :
  g_read g = Some r -> Z.max 1 lo = rv_from r + 1 ->
  (forall found, Q found (with_find (Some (p, found)) g)) ->
  wpp page_sz (coord_find_frame p lo (seen_upto g r)) g Q.
Proof.
  intros Hr Hlo HQ. apply wpp_silent. intros i e sh com gs base hz Hinv Hi _.
  destruct (seen_exact base hz sh com gs i g r Hinv Hi Hr) as (Hb & Hb' & He & _).
  eexists _, sh, _. split_and!; [done| | |apply HQ]; [done|]. exists base, hz.
  eapply inv_ghost; [done|done|done|by left|]. destruct (i_conn _ _ _ _ _ _ Hinv i g Hi). constructor; try done; cbn.
  intros q f [= <- <-]. exists r. split; [done|]. unfold find_inv. cbn.
  rewrite (cache_find_exact _ _ _ _ _ _ (i_shape _ _ _ _ _ _ Hinv) He) by lia.
  change (seen_upto (with_find _ g) r) with (seen_upto g r). destruct (Z.leb_spec (Z.max 1 lo) (latest (sh_wal sh) p (seen_upto g r))); lia.
Qed.
(** A snapshot with no frame of the log: nothing to look up. *)
Lemma upd_find_none g r p :
  g_read g = Some r -> seen_upto g r <= rv_from r -> upd page_sz g (with_find (Some (p, None)) g).
Proof.
  intros Hr Hle. apply upd_ghost; try done. intros i sh com gs base hz Hinv Hi [? Hrd ? ? ? ?]. constructor; try done; cbn.
  intros q f [= <- <-]. exists r. split; [done|]. unfold find_inv. change (seen_upto (with_find _ g) r) with (seen_upto g r).
  destruct (Hrd r Hr) as (_ & _ & _ & _ & Hb & _).
  assert (H := latest_bounds (sh_wal sh) p (seen_upto g r)). lia.
Qed.
Lemma wpp_read_frame g r p f Q :
  g_read g = Some r -> g_find g = Some (p, Some f) ->
  Q None g -> Q (Some (seen_content g r p)) g -> wpp page_sz (read_wal_frame f) g Q.
Proof.
  intros Hr Hf HN HS. apply wpp_silent. intros i e sh com gs base hz Hinv Hi _.
  assert (Hid : INV page_sz sh com (<[i := g]> gs)) by (rewrite list_insert_id by done; by exists base, hz).
  destruct (Z.eqb_spec e 0); [by exists None, sh, g|]. eexists _, sh, g. split_and!; [done|done|done|].
  destruct (ci_find _ _ _ _ _ (i_conn _ _ _ _ _ _ Hinv i g Hi) p (Some f) Hf) as (r' & ? & -> & Hlt). simplify_eq.
  destruct (seen_exact base hz sh com gs i g r Hinv Hi Hr) as (Hb & Hb' & He & _).
  assert (Hv := seen_at_frame base hz sh com gs i g r p Hinv Hi Hr). unfold at_frame in Hv.
  destruct (Z.eqb_spec (latest (sh_wal sh) p (seen_upto g r)) 0); [lia|].
  destruct (latest_spec (sh_wal sh) p (seen_upto g r)) as (_ & [?|Hp] & _); [lia|lia|]. unfold page_at in Hp.
  destruct (sh_wal sh !! _); [|done]. cbn in *. by rewrite <- Hv.
Qed.
Lemma wpp_read_db g r p Q :
  g_read g = Some r -> g_find g = Some (p, None) ->
  Q None g -> Q (Some (seen_content g r p)) g -> wpp page_sz (read_db_page p) g Q.
Proof.
  intros Hr Hf HN HS. apply wpp_silent. intros i e sh com gs base hz Hinv Hi _.
  assert (Hid : INV page_sz sh com (<[i := g]> gs)) by (rewrite list_insert_id by done; by exists base, hz).
  destruct (Z.eqb_spec e 0); [by exists None, sh, g|]. eexists _, sh, g. split_and!; [done|done|done|].
  destruct (ci_find _ _ _ _ _ (i_conn _ _ _ _ _ _ Hinv i g Hi) p None Hf) as (r' & ? & Hle). simplify_eq.
  unfold find_inv in Hle. cbn zeta in Hle.
  destruct (seen_exact base hz sh com gs i g r Hinv Hi Hr) as (Hb & Hb' & He & Hnb & Hfn).
  rewrite (seen_at_frame base hz sh com gs i g r p Hinv Hi Hr) in HS.
  assert (Hm := latest_mono (sh_wal sh) p hz (seen_upto g r) Hb').
  destruct (i_db _ _ _ _ _ _ Hinv p) as [->|?]; [|lia].
  rewrite (at_frame_same base (sh_wal sh) p (sh_nbackfills sh) (seen_upto g r)) in HS by lia. done.
Qed.
End reading.
