(* ===== verification/WalRules.v ===== *)
(** The accesses that change what connections see or know: the start of a snapshot and the
    steps of a writer.  Those of a checkpoint are in WalCkRules.v. *)

From stdpp Require Import base list gmap numbers relations functions sorting.
From Stdlib Require Import ZArith Lia.
From S2P Require Import Prelude WalFormat RwLock Steps WalCoord WalSpec WalInv WalAccess.

(** A connection that holds no snapshot. *)
Definition no_claims (g : ghost) : Prop :=
  g_pin g = None /\ g_read g = None /\ g_find g = None /\ g_write g = None /\ g_ck g = CkNone.

(** * The start of a snapshot *)

Section snapshots.
Context (page_sz : Z).

(** The effect of [begin_read_tx] at the moment its snapshot is found unchanged. *)
Definition reading (slot : nat) (pin : option (nat * Z)) (s : WalSnapshot) (com : content) (b : bool) (g : ghost) : ghost :=
  MkGhost (g_held g) pin (Some (MkView slot (nbackfills s) (max_frame s) com)) None None CkNone
    (PDone OBeginRead (RBool (inl b)) (MRead com)).

Lemma inv_reading base hz sh com gs i g slot pin b :
  inv page_sz base hz sh com gs -> gs !! i = Some g -> no_claims g -> (slot <= 4)%nat ->
  g_held g (LRead slot) = HRead ->
  (slot = 0%nat -> pin = None /\ sh_max_frame sh = sh_nbackfills sh) ->
  (slot <> 0%nat -> pin = Some (slot, mark_of sh slot) /\ mark_of sh slot <= sh_max_frame sh) ->
  inv page_sz base hz sh com (<[i := reading slot pin (snapshot_of sh) com b g]> gs).
Proof.
  intros Hinv Hi (Hp & Hr & Hf & Hw & Hck) Hslot Hl H0 H1. assert (Hb := i_bounds _ _ _ _ _ _ Hinv).
  eapply inv_ghost; [done|done|done|intros r [= <-]; by right|]. constructor; cbn; try done.
  - intros s v ->. destruct (decide (slot = 0%nat)) as [->|Hne]; [by destruct H0|].
    destruct (H1 Hne) as ([= -> ->] & _). by split_and!.
  - intros r [= <-]. unfold read_inv. cbn. split_and!; try lia; try done.
    + by rewrite Hl.
    + intros H. destruct (H1 H) as [-> ?]. eauto.
    + intros p. apply Hinv.
Qed.
Lemma wpp_load_db_snapshot g s b Q :
  no_claims g -> g_phase g = PBusy OBeginRead MIdle -> g_held g (LRead 0) = HRead -> max_frame s = nbackfills s ->
  (forall com, Q s (reading 0 None s com b g)) -> (forall s', s' <> s -> Q s' g) ->
  wpp page_sz load_snapshot g Q.
Proof.
  intros Hg Hph Hl Hs HQ HQ'. apply wpp_act. intros i e sh com gs base hz Hinv Hi _.
  destruct (decide (snapshot_of sh = s)) as [<-|Hne].
  - eexists _, sh, com, _. split_and!; [done| | |apply (HQ com)].
    + right. exists OBeginRead, MIdle, (RBool (inl b)), (MRead com). split_and!; [done|done|constructor].
    + exists base, hz. apply inv_reading; try done; lia.
  - eexists _, sh, com, g. split_and!; [done|by left| |by apply HQ'].
    rewrite list_insert_id by done. by exists base, hz.
Qed.
Lemma wpp_load_mark_snapshot g s slot best b Q :
  no_claims g -> g_phase g = PBusy OBeginRead MIdle -> (1 <= slot <= 4)%nat -> g_held g (LRead slot) = HRead ->
  best <= max_frame s ->
  (forall com, Q s (reading slot (Some (slot, best)) s com b g)) ->
  (forall v, v <> best -> Q s (with_pin (Some (slot, v)) g)) -> (forall s', s' <> s -> Q s' g) ->
  wpp page_sz load_snapshot g Q.
Proof.
  intros Hg Hph Hslot Hl Hs HQ HQm HQ'. apply wpp_act. intros i e sh com gs base hz Hinv Hi _.
  destruct (decide (snapshot_of sh = s)) as [<-|Hne].
  - destruct (decide (mark_of sh slot = best)) as [Hm|Hm].
    + eexists _, sh, com, _. split_and!; [done| | |apply (HQ com)].
      * right. exists OBeginRead, MIdle, (RBool (inl b)), (MRead com). split_and!; [done|done|constructor].
      * exists base, hz. rewrite <- Hm in *. apply inv_reading; try done; lia.
    + eexists _, sh, com, (with_pin (Some (slot, mark_of sh slot)) g). split_and!; [done|by left| |by apply HQm]. exists base, hz.
      eapply inv_ghost; [done|done|done|by left|]. destruct Hg as (? & Hr & _).
      destruct (i_conn _ _ _ _ _ _ Hinv i g Hi). constructor; try done; cbn; [|by rewrite Hr].
      intros s v [= <- <-]. split_and!; [lia|done|done].
  - eexists _, sh, com, g. split_and!; [done|by left| |by apply HQ'].
    rewrite list_insert_id by done. by exists base, hz.
Qed.
(** A pinned mark does not change. *)
Lemma wpp_mark_pinned g slot v Q : g_pin g = Some (slot, v) -> Q v g -> wpp page_sz (read_mark_value slot) g Q.
Proof.
  intros Hp HQ. apply wpp_load. intros i sh com gs base hz Hinv Hi.
  by destruct (ci_pin _ _ _ _ _ (i_conn _ _ _ _ _ _ Hinv i g Hi) slot v Hp) as (_ & _ & ->).
Qed.
Lemma wpp_mark g slot Q : (forall v, 0 <= v <= U32_MAX -> Q v g) -> wpp page_sz (read_mark_value slot) g Q.
Proof. intros HQ. apply wpp_load. intros i sh com gs base hz Hinv Hi. apply HQ, Hinv. Qed.
Lemma wpp_snapshot g Q :
  (forall s, 0 <= nbackfills s <= max_frame s -> max_frame s <= U32_MAX -> Q s g) -> wpp page_sz load_snapshot g Q.
Proof.
  intros HQ. apply wpp_load. intros i sh com gs base hz Hinv Hi. assert (H := i_bounds _ _ _ _ _ _ Hinv).
  apply HQ; cbn; lia.
Qed.

(** [begin_write_tx] takes effect when the snapshot is found to be the newest. *)
Definition begun_write (r : rview) (ini : bool) (ps : Z) (s : WalSnapshot) (restart : bool) (g : ghost) : ghost :=
  MkGhost (g_held g) (g_pin g) (g_read g) None (Some (MkWriter [] [] ini ps (snap_checkpoint_seq s))) (g_ck g)
    (PDone (OBeginWrite restart) (RUnit (inl tt)) (MWrite (rv_content r) [] false None)).
Lemma wpp_load_write_snapshot g r s restart Q :
  g_read g = Some r -> g_write g = None -> g_held g LWrite = HWrite ->
  g_phase g = PBusy (OBeginWrite restart) (MRead (rv_content r)) -> max_frame s = rv_upto r ->
  (forall ini ps, Q s (begun_write r ini ps s restart g)) -> (forall s', s' <> s -> Q s' g) ->
  wpp page_sz load_snapshot g Q.
Proof.
  intros Hr Hw Hl Hph Hs HQ HQ'. apply wpp_act. intros i e sh com gs base hz Hinv Hi _.
  destruct (decide (snapshot_of sh = s)) as [<-|Hne].
  2: { eexists _, sh, com, g. split_and!; [done|by left| |by apply HQ']. rewrite list_insert_id by done. by exists base, hz. }
  assert (Hc := i_conn _ _ _ _ _ _ Hinv i g Hi). cbn in Hs.
  destruct (ci_read _ _ _ _ _ Hc r Hr) as (_ & _ & _ & _ & Hb & Hb' & Hcont).
  eexists _, sh, com, _. split_and!; [done| | |apply (HQ (sh_initialized sh) (wal_page_size (sh_header sh)))].
  - right. exists (OBeginWrite restart), (MRead (rv_content r)), (RUnit (inl tt)), (MWrite (rv_content r) [] false None).
    split_and!; [done|done|]. constructor.
    + intros j ph Hj Hph'. rewrite list_lookup_fmap, fmap_Some in Hph'. destruct Hph' as (x & Hx & ->).
      destruct (writing (phase_mode (g_phase x))) eqn:Hwx; [|done]. exfalso.
      assert (Hcx := i_conn _ _ _ _ _ _ Hinv j x Hx). assert (Hwx' := ci_phase _ _ _ _ _ Hcx Hwx).
      destruct (g_write x) as [wv|] eqn:Hwv; [|done]. destruct (ci_write _ _ _ _ _ Hcx wv Hwv) as (Hlx & _).
      rewrite (lock_excl _ _ _ i j g x (i_locks _ _ _ _ _ _ Hinv LWrite) Hi Hx) in Hlx by done. done.
    + intros p. by rewrite Hcont, (i_committed _ _ _ _ _ _ Hinv), Hs.
  - exists base, hz. eapply inv_ghost; [done|done|done|by left|]. destruct Hc. constructor; cbn; try done.
    intros wv [= <-]. unfold write_inv. cbn. unfold len. cbn. rewrite Z.add_0_r. split_and!; try done.
    + by exists r.
    + apply Hinv.
    + apply Hinv.
Qed.
End snapshots.

(** * The writer *)

Section writer.
Context (page_sz : Z) (base : content) (hz : Z).

(** What a writer's access leaves alone: the committed frames, the database file, what is
    backfilled, and the marks. *)
Record writer_step (sh sh' : WalShared) : Prop := {
  ws_nb : sh_nbackfills sh' = sh_nbackfills sh;
  ws_db : sh_db sh' = sh_db sh;
  ws_locks : sh_locks sh' = sh_locks sh;
  ws_max : sh_max_frame sh <= sh_max_frame sh';
  ws_wal f : 1 <= f <= sh_max_frame sh -> sh_wal sh' !! f = sh_wal sh !! f
}.

Lemma ws_at_frame sh sh' n p :
  writer_step sh sh' -> n <= sh_max_frame sh -> at_frame base (sh_wal sh') n p = at_frame base (sh_wal sh) n p.
Proof. intros Hs Hn. apply at_frame_agree. intros f Hf. apply Hs. lia. Qed.
Lemma ws_latest sh sh' n p :
  writer_step sh sh' -> n <= sh_max_frame sh -> latest (sh_wal sh') p n = latest (sh_wal sh) p n.
Proof. intros Hs Hn. apply latest_agree. intros f Hf. apply Hs. lia. Qed.

Lemma copied_writer sh sh' m todo buf :
  writer_step sh sh' -> hz <= sh_max_frame sh -> m <= hz -> copied base hz sh m todo buf -> copied base hz sh' m todo buf.
Proof.
  intros Hs Hz Hm (Ht & Hb & Hc). unfold copied. rewrite (ws_nb _ _ Hs), (ws_db _ _ Hs). split_and!.
  - intros p f Hf. rewrite (ws_latest sh sh') by (done || lia). by apply Ht.
  - intros p d Hd. rewrite (ws_latest sh sh'), (ws_at_frame sh sh') by (done || lia). by apply Hb.
  - intros p. rewrite !(ws_latest sh sh'), (ws_at_frame sh sh') by (done || lia). by apply Hc.
Qed.
(** The other connections do not notice. *)
Lemma conn_inv_writer sh sh' gs gs' g :
  writer_step sh sh' -> hz <= sh_max_frame sh -> conn_inv base hz sh gs g -> g_held g LWrite <> HWrite ->
  (forall r, readers gs' r -> readers gs r \/ rv_upto r = sh_max_frame sh') ->
  conn_inv base hz sh' gs' g.
Proof.
  intros Hs Hz [Hp Hr Hf Hw Hph Hck] Hl Hrd. assert (Hmax := ws_max _ _ Hs). constructor; [| | | |done|].
  - intros s v H. unfold mark_of. rewrite (ws_locks _ _ Hs). by apply Hp.
  - intros r H. destruct (Hr r H) as (? & ? & ? & ? & ? & ? & Hc). unfold read_inv. rewrite (ws_nb _ _ Hs).
    split_and!; try done; try lia. intros p. rewrite (ws_at_frame sh sh') by (done || lia). apply Hc.
  - intros p f H. destruct (Hf p f H) as (r & Hg & Hfd). exists r. split; [done|]. unfold find_inv, seen_upto in *.
    destruct (g_write g) as [wv|] eqn:Hwv; [by destruct (Hw wv eq_refl)|].
    destruct (Hr r Hg) as (_ & _ & _ & _ & _ & ? & _). by rewrite (ws_latest sh sh') by (done || lia).
  - intros wv H. by destruct (Hw wv H).
  - assert (Hk : forall m k, m <= sh_max_frame sh -> (forall r, readers gs r -> m <= rv_upto r \/ (k <= rv_slot r)%nat) ->
      forall r, readers gs' r -> m <= rv_upto r \/ (k <= rv_slot r)%nat).
    { intros m k Hm H r [Hr'|Hr']%Hrd; [by apply H|left; lia]. }
    unfold ck_inv in *. rewrite (ws_nb _ _ Hs).
    destruct (g_ck g); destruct_and?; split_and?; try done; try lia; try by apply Hk.
    + intros r [Hr'|Hr']%Hrd Hsl; [eauto|left; lia].
    + by apply (copied_writer sh).
Qed.

Lemma inv_writer sh sh' com com' gs i g g' :
  inv page_sz base hz sh com gs -> gs !! i = Some g -> g_held g LWrite = HWrite ->
  (forall l, g_held g' l = g_held g l) -> writer_step sh sh' ->
  sh_max_frame sh' <= U32_MAX -> (sh_initialized sh' = false -> sh_max_frame sh' = 0) ->
  (wal_page_size (sh_header sh') = page_sz \/ wal_page_size (sh_header sh') = 0 /\ sh_initialized sh' = false) ->
  (forall f, 1 <= f <= sh_max_frame sh' -> is_Some (sh_wal sh' !! f)) ->
  cache_shape (sh_frame_cache sh') (sh_high_water sh') ->
  cache_exact (sh_wal sh') (sh_frame_cache sh') (sh_max_frame sh') ->
  (forall p, com' p = at_frame base (sh_wal sh') (sh_max_frame sh') p) ->
  (forall r, g_read g' = Some r -> g_read g = Some r \/ rv_upto r = sh_max_frame sh') ->
  conn_inv base hz sh' (<[i := g']> gs) g' ->
  inv page_sz base hz sh' com' (<[i := g']> gs).
Proof.
  intros Hinv Hi Hl Hl' Hs Hu Hini Hps Hfr Hsh Hex Hcom Hrd Hg'. assert (Hb := i_bounds _ _ _ _ _ _ Hinv).
  assert (Hmax := ws_max _ _ Hs). constructor; try done.
  - intros l. rewrite (ws_locks _ _ Hs). apply (lock_inv_same _ _ g); [done|done|apply Hinv].
  - rewrite (ws_nb _ _ Hs). lia.
  - intros p. rewrite (ws_nb _ _ Hs), (ws_db _ _ Hs), (ws_latest sh sh'), (ws_at_frame sh sh') by (done || lia). apply Hinv.
  - intros s. unfold mark_of. rewrite (ws_locks _ _ Hs). apply Hinv.
  - intros j x Hj. destruct (decide (j = i)) as [->|Hne].
    + rewrite list_lookup_insert_eq in Hj by (by eapply lookup_lt_Some). by simplify_eq.
    + rewrite list_lookup_insert_ne in Hj by done. eapply conn_inv_writer; [done|lia|by eapply (i_conn _ _ _ _ _ _ Hinv)| |].
      * by rewrite (lock_excl _ _ _ i j g x (i_locks _ _ _ _ _ _ Hinv LWrite) Hi Hj).
      * intros r [?|Hr]%(readers_insert _ _ g); [by left| |done]. destruct (Hrd r Hr); [|by right]. left. by exists i, g.
Qed.

(** The writer's own claims after an access that leaves its view. *)
Lemma conn_inv_own sh sh' gs gs' g g' wv wv' r :
  conn_inv base hz sh gs g -> hz <= sh_max_frame sh -> writer_step sh sh' -> sh_max_frame sh' = sh_max_frame sh ->
  g_write g = Some wv -> g_read g = Some r -> g_find g = None -> g_ck g = CkNone ->
  (forall l, g_held g' l = g_held g l) -> g_pin g' = g_pin g -> g_read g' = Some r -> g_find g' = None ->
  g_ck g' = CkNone -> g_write g' = Some wv' -> write_inv sh' g' wv' -> conn_inv base hz sh' gs' g'.
Proof.
  intros [Hp Hr _ Hw Hph _] Hz Hs Hmax Hwv Hrd _ _ Hl Epin Erd Ef Eck Ew Hwi. constructor.
  - intros s v H. rewrite Epin in H. unfold mark_of. rewrite (ws_locks _ _ Hs), Hl. by apply Hp.
  - intros r' H. rewrite Erd in H. injection H as <-.
    destruct (Hr r Hrd) as (? & ? & ? & ? & ? & ? & Hc). unfold read_inv. rewrite (ws_nb _ _ Hs), Hl, Epin.
    split_and!; try done; try lia. intros p. rewrite (ws_at_frame sh sh') by (done || lia). apply Hc.
  - intros p f H. congruence.
  - intros wv0 H. congruence.
  - intros _. congruence.
  - unfold ck_inv. by rewrite Eck.
Qed.
End writer.

Lemma prepare_wal_header_ok big rnd1 rnd2 psz hdr :
  exists h, prepare_wal_header big rnd1 rnd2 psz hdr = Ok h /\ checkpoint_seq h = checkpoint_seq hdr /\
    wal_page_size h = (if wal_page_size hdr =? 0 then psz else wal_page_size hdr).
Proof.
  unfold prepare_wal_header. destruct (if _ && _ then _ else _) as [s1 s2] eqn:Hs.
  assert (Hck : forall h n, exists c, checksum_wal big (header_prefix big h) (0, 0) n = Ok c).
  { intros h n. unfold checksum_wal.
    assert (len (header_prefix big h) mod 8 = 0) as -> by (unfold header_prefix, len; by rewrite !length_app, !length_ne_bytes).
    simpl rassert. rstep. by eexists. }
  match goal with |- context [checksum_wal big (header_prefix big ?h) _ ?n] => destruct (Hck h n) as [[c1 c2] ->] end.
  by eexists.
Qed.

(** A connection in a write transaction, between its lookups. *)
Record writer (g : ghost) (r : rview) (wv : wview) : Prop := {
  wr_read : g_read g = Some r;
  wr_write : g_write g = Some wv;
  wr_find : g_find g = None;
  wr_ck : g_ck g = CkNone
}.
Definition set_writer (wv : wview) (g : ghost) : ghost := with_write (Some wv) g.
Lemma set_writer_ok g r wv wv' : writer g r wv -> writer (set_writer wv' g) r wv'.
Proof. by intros []. Qed.

(** What the invariant says of the writer that makes the access. *)
Lemma writer_facts page_sz base hz sh com gs i g r wv :
  inv page_sz base hz sh com gs -> gs !! i = Some g -> writer g r wv ->
  write_inv sh g wv /\ sh_max_frame sh = rv_upto r /\ g_held g LWrite = HWrite.
Proof.
  intros Hinv Hi [Hr Hw _ _]. assert (H := ci_write _ _ _ _ _ (i_conn _ _ _ _ _ _ Hinv i g Hi) wv Hw).
  split; [done|]. destruct H as (? & (r' & ? & ?) & _). by simplify_eq.
Qed.
Ltac wfacts Hinv Hi Hw :=
  let Hb := fresh "Hb" in assert (Hb := i_bounds _ _ _ _ _ _ Hinv);
  destruct (writer_facts _ _ _ _ _ _ _ _ _ _ Hinv Hi Hw) as
    ((Hwl & Hwr & Hini & Hnl & Hps & Hseq & Hent & Hcex & Hu) & Hmax & Hl);
  assert (Hini0 := i_init _ _ _ _ _ _ Hinv); assert (Hps0 := i_page_size _ _ _ _ _ _ Hinv).

Section writer_rules.
Context (page_sz : Z).

(** An access that keeps the committed contents and the writer's view of them. *)
Lemma inv_writer_keep base hz sh sh' com gs i g r wv wv' :
  inv page_sz base hz sh com gs -> gs !! i = Some g -> writer g r wv -> writer_step sh sh' ->
  sh_max_frame sh' = sh_max_frame sh -> (sh_initialized sh' = false -> sh_max_frame sh = 0) ->
  (wal_page_size (sh_header sh') = page_sz \/ wal_page_size (sh_header sh') = 0 /\ sh_initialized sh' = false) ->
  cache_shape (sh_frame_cache sh') (sh_high_water sh') ->
  cache_exact (sh_wal sh') (sh_frame_cache sh') (sh_max_frame sh) ->
  write_inv sh' (set_writer wv' g) wv' ->
  inv page_sz base hz sh' com (<[i := set_writer wv' g]> gs).
Proof.
  intros Hinv Hi Hw Hs Hmax Hini Hps Hsh Hex Hwi. assert (Hb := i_bounds _ _ _ _ _ _ Hinv).
  destruct (writer_facts _ _ _ _ _ _ _ _ _ _ Hinv Hi Hw) as (_ & _ & Hl). assert (Hw' := Hw). destruct Hw' as [Hr Hwv Hf Hck].
  apply (inv_writer page_sz base hz sh sh' com com gs i g); try done; try (rewrite Hmax; try done; lia).
  - intros f. rewrite Hmax. intros Hf'. rewrite (ws_wal _ _ Hs) by done. by apply Hinv.
  - intros p. rewrite Hmax, (ws_at_frame base sh sh') by (done || lia). apply Hinv.
  - by left.
  - eapply (conn_inv_own base hz sh sh' gs _ g _ wv wv' r); try done; [by eapply (i_conn _ _ _ _ _ _ Hinv)|lia].
Qed.

Lemma wpp_writer_load {X} (f : WalShared -> X) g r wv Q :
  writer g r wv ->
  (forall sh, sh_max_frame sh = rv_upto r -> 0 <= rv_upto r <= U32_MAX -> sh_initialized sh = wv_init wv ->
    (wv_init wv = false -> rv_upto r = 0 /\ wv_log wv = []) -> (wv_init wv = true -> wal_page_size (sh_header sh) = page_sz) ->
    wal_page_size (sh_header sh) = wv_page_size wv -> checkpoint_seq (sh_header sh) = wv_seq wv -> Q (f sh) g) ->
  wpp page_sz (load f) g Q.
Proof.
  intros Hw HQ. apply wpp_load. intros i sh com gs base hz Hinv Hi. assert (Hb := i_bounds _ _ _ _ _ _ Hinv).
  destruct (writer_facts _ _ _ _ _ _ _ _ _ _ Hinv Hi Hw) as ((_ & _ & Hini & Hnl & Hps & Hseq & _) & Hmax & _).
  apply HQ; try done; try lia.
  - intros Hf. split; [|by apply Hnl]. rewrite <- Hmax. apply Hinv. congruence.
  - intros Ht. destruct (i_page_size _ _ _ _ _ _ Hinv) as [?|[_ ?]]; [done|congruence].
Qed.
(** A writer that has appended nothing may move its snapshot to what is backfilled now. *)
Lemma wpp_writer_snapshot g r wv Q :
  writer g r wv ->
  (forall s, max_frame s = rv_upto r -> snap_checkpoint_seq s = wv_seq wv -> 0 <= nbackfills s <= max_frame s ->
    Q s (with_read (Some (MkView (rv_slot r) (nbackfills s) (rv_upto r) (rv_content r))) g)) ->
  wpp page_sz load_snapshot g Q.
Proof.
  intros Hw HQ. apply wpp_silent. intros i e sh com gs base hz Hinv Hi _. assert (Hb := i_bounds _ _ _ _ _ _ Hinv).
  destruct (writer_facts _ _ _ _ _ _ _ _ _ _ Hinv Hi Hw) as (Hwi & Hmax & _).
  eexists _, sh, _. split_and!; [done| | |apply HQ; cbn; [done|apply Hwi|lia]]; [done|]. exists base, hz.
  destruct Hw as [Hr Hwv Hf Hck]. assert (Hc := i_conn _ _ _ _ _ _ Hinv i g Hi).
  destruct (ci_read _ _ _ _ _ Hc r Hr) as (? & ? & ? & ? & ? & ? & ?).
  eapply inv_ghost; [done|done|done|intros ? [= <-]; by right|]. destruct Hc. constructor; try done; cbn.
  - intros ? [= <-]. unfold read_inv. cbn. split_and!; try done; try lia.
  - intros p f. rewrite Hf. done.
  - intros wv'. rewrite Hwv. intros [= <-]. destruct Hwi as (? & (r' & ? & ?) & ?). split; [done|]. split; [|done].
    by eexists.
Qed.

Lemma wpp_prepare_header big g r wv Q :
  writer g r wv -> wv_init wv = false ->
  (forall h, Q (Some h) (set_writer (MkWriter (wv_log wv) (wv_pend wv) false page_sz (wv_seq wv)) g)) ->
  wpp page_sz (coord_prepare_wal_header big page_sz) g Q.
Proof.
  intros Hw Hi0 HQ. apply wpp_silent. intros i e sh com gs base hz Hinv Hi _. wfacts Hinv Hi Hw.
  rewrite Hini, Hi0. destruct (prepare_wal_header_ok big (e / 2 ^ 32) e page_sz (sh_header sh)) as (h & -> & Hsq & Hpsz).
  assert (wal_page_size h = page_sz) as Hpz.
  { rewrite Hpsz. case_match; [done|]. zbool. destruct Hps0 as [?|[? _]]; [done|lia]. }
  eexists _, _, _. split_and!; [done| | |apply HQ]; [done|]. exists base, hz.
  apply (inv_writer_keep base hz sh _ com gs i g r wv); destruct sh; cbn in *; try done.
  - by left.
  - apply Hinv.
  - apply Hinv.
  - unfold write_inv. cbn. rewrite Hsq. split_and!; try done; [congruence|auto].
Qed.
Lemma wpp_write_header g r wv Q :
  writer g r wv -> wv_init wv = false -> wv_pend wv = [] -> (forall b, Q b g) -> wpp page_sz write_header g Q.
Proof.
  intros Hw Hi0 Hp0 HQ. apply wpp_silent. intros i e sh com gs base hz Hinv Hi _. wfacts Hinv Hi Hw.
  eexists _, _, g. split_and!; [done|done| |apply HQ]. exists base, hz.
  destruct (Z.odd (e / 2)); [|by rewrite list_insert_id].
  assert (Hm0 : sh_max_frame sh = 0) by (apply Hini0; congruence).
  assert (Hg : g = set_writer wv g) by (destruct Hw as [_ Hw' _ _], g; cbn in *; by rewrite Hw').
  rewrite Hg at 1. apply (inv_writer_keep base hz sh _ com gs i g r wv); destruct sh; cbn in *; try done.
  - constructor; cbn; try done. lia.
  - apply Hinv.
  - intros p f Hf. lia.
  - unfold write_inv. cbn in *. rewrite (Hnl Hi0), Hp0 in *. split_and!; try done. intros p f. unfold len. cbn. lia.
Qed.
Lemma wpp_mark_initialized g r wv Q :
  writer g r wv -> wv_page_size wv = page_sz -> Q false g ->
  Q true (set_writer (MkWriter (wv_log wv) (wv_pend wv) true (wv_page_size wv) (wv_seq wv)) g) ->
  wpp page_sz (io (set_initialized true)) g Q.
Proof.
  intros Hw Hpz HF HT. apply wpp_silent. intros i e sh com gs base hz Hinv Hi _. wfacts Hinv Hi Hw.
  destruct (e =? 0); [exists false, sh, g; rewrite list_insert_id by done; split_and!; try done; by exists base, hz|].
  eexists _, _, _. split_and!; [done| | |apply HT]; [done|]. exists base, hz.
  apply (inv_writer_keep base hz sh _ com gs i g r wv); destruct sh; cbn in *; try done.
  - left. congruence.
  - apply Hinv.
  - apply Hinv.
Qed.

Lemma wpp_write_frame g r wv f Q :
  writer g r wv -> wv_init wv = true ->
  let id := rv_upto r + len (wv_log wv) + len (wv_pend wv) + 1 in
  Q false g ->
  Q true (set_writer (MkWriter (wv_log wv) (wv_pend wv ++ [frame_entry f]) true (wv_page_size wv) (wv_seq wv)) g) ->
  wpp page_sz (io (fun s => set_wal (<[id := f]> (sh_wal s)) s)) g Q.
Proof.
  intros Hw Hi1 id HF HT. apply wpp_silent. intros i e sh com gs base hz Hinv Hi _. wfacts Hinv Hi Hw.
  destruct (e =? 0); [exists false, sh, g; rewrite list_insert_id by done; split_and!; try done; by exists base, hz|].
  eexists _, _, _. split_and!; [done| | |apply HT]; [done|]. exists base, hz.
  assert (Hid : sh_max_frame sh < id) by (unfold id, len in *; lia).
  assert (Hex : forall n, n < id -> cache_exact (sh_wal sh) (sh_frame_cache sh) n ->
    cache_exact (<[id := f]> (sh_wal sh)) (sh_frame_cache sh) n).
  { intros n Hn H p q Hq. rewrite (H p q Hq). unfold page_at. by rewrite lookup_insert_ne by lia. }
  assert (Hcex0 := Hex _ Hid (i_exact _ _ _ _ _ _ Hinv)).
  assert (Hcex1 := Hex (sh_max_frame sh + len (wv_log wv)) ltac:(unfold id, len in *; lia) Hcex).
  apply (inv_writer_keep base hz sh _ com gs i g r wv); destruct sh; cbn in *; try done.
  - constructor; cbn; try done. intros q Hq. by rewrite lookup_insert_ne by lia.
  - apply Hinv.
  - unfold write_inv. cbn. split_and!; try done; try congruence.
    intros k x. rewrite app_assoc. intros [Hk|(Hk & Hx)]%lookup_app_Some.
    + rewrite lookup_insert_ne; [by apply Hent|]. apply lookup_lt_Some in Hk. rewrite length_app in Hk. unfold id, len. lia.
    + rewrite length_app in *. destruct (k - _)%nat eqn:Hk'; [|done]. cbn in Hx. simplify_eq.
      replace (_ + 1 + Z.of_nat k) with id by (unfold id, len in *; lia). by rewrite lookup_insert_eq.
Qed.
Lemma wpp_cache_frame g r wv p d pend Q :
  writer g r wv -> wv_init wv = true -> wv_pend wv = (p, d) :: pend ->
  let id := rv_upto r + len (wv_log wv) + 1 in
  id <= U32_MAX ->
  Q tt (set_writer (MkWriter (wv_log wv ++ [(p, d)]) pend true (wv_page_size wv) (wv_seq wv)) g) ->
  wpp page_sz (cache_frame p id) g Q.
Proof.
  intros Hw Hi1 Hp id Hid HT. apply wpp_silent. intros i e sh com gs base hz Hinv Hi _. wfacts Hinv Hi Hw.
  eexists _, _, _. split_and!; [done| | |apply HT]; [done|]. exists base, hz.
  assert (Hpage : page_at (sh_wal sh) id = Some p).
  { assert (H := Hent (length (wv_log wv)) (p, d)). rewrite lookup_app_r, Nat.sub_diag, Hp in H by lia.
    specialize (H eq_refl). unfold page_at. replace id with (sh_max_frame sh + 1 + Z.of_nat (length (wv_log wv)))
      by (unfold id, len; lia). unfold frame_entry in H. destruct (sh_wal sh !! _); cbn in *; congruence. }
  assert (Hn : id = sh_max_frame sh + len (wv_log wv) + 1) by (unfold id; lia).
  destruct (cache_frame_ok _ _ _ _ p (i_shape _ _ _ _ _ _ Hinv) Hcex) as [Hsh Hex];
    [unfold len in *; lia|by rewrite <- Hn|]. rewrite <- Hn in Hsh, Hex.
  assert (Hlog : len (wv_log wv ++ [(p, d)]) = len (wv_log wv) + 1) by (unfold len; rewrite length_app; cbn; lia).
  apply (inv_writer_keep base hz sh _ com gs i g r wv); destruct sh; cbn in *; try done.
  - intros q f Hf. apply Hex. unfold len in *. lia.
  - unfold write_inv. cbn. rewrite <- app_assoc, Hlog. cbn. rewrite <- Hp. split_and!; try done; try congruence.
    + by replace (_ + (len (wv_log wv) + 1)) with id by lia.
    + lia.
Qed.
Lemma wpp_rollback_cache g r wv k Q :
  writer g r wv -> (k <= length (wv_log wv))%nat ->
  Q tt (set_writer (MkWriter (take k (wv_log wv)) [] (wv_init wv) (wv_page_size wv) (wv_seq wv)) g) ->
  wpp page_sz (rollback_cache (rv_upto r + Z.of_nat k)) g Q.
Proof.
  intros Hw Hk HT. apply wpp_silent. intros i e sh com gs base hz Hinv Hi _. wfacts Hinv Hi Hw.
  eexists _, _, _. split_and!; [done| | |apply HT]; [done|]. exists base, hz. rewrite <- Hmax in *.
  assert (Hsh := i_shape _ _ _ _ _ _ Hinv). assert (Hex0 := i_exact _ _ _ _ _ _ Hinv).
  assert (Hlog : len (take k (wv_log wv)) = Z.of_nat k) by (unfold len; rewrite length_take; lia).
  apply (inv_writer_keep base hz sh _ com gs i g r wv); destruct sh; cbn in *; try done.
  - eapply truncate_shape; [done|]. case_match; lia.
  - eapply truncate_exact; [done|done|lia|lia].
  - unfold write_inv. cbn. rewrite Hlog. split_and!; try done.
    + intros Hf. by rewrite (Hnl Hf), take_nil.
    + intros j x. rewrite app_nil_r. intros Hj. apply Hent. apply lookup_app_l_Some.
      by apply lookup_take_Some in Hj as [? _].
    + eapply truncate_exact; [done|exact Hcex|unfold len in *; lia|lia].
    + unfold len in *. lia.
Qed.

(** The commit: the writer's frames become the committed contents. *)
Definition committed_write (r : rview) (wv : wview) (o : op) (g : ghost) : ghost :=
  let com := apply_log (rv_content r) (wv_log wv) in
  MkGhost (g_held g) (g_pin g) (Some (MkView (rv_slot r) (rv_from r) (rv_upto r + len (wv_log wv)) com)) None
    (Some (MkWriter [] [] (wv_init wv) (wv_page_size wv) (wv_seq wv))) CkNone
    (PDone o (RUnit (inl tt)) (MWrite com [] false None)).
Lemma wpp_publish_commit g r wv batches db_size log sp ck tx Q :
  writer g r wv -> wv_init wv = true ->
  g_phase g = PBusy (OCommit batches db_size) (MWrite (rv_content r) log false sp) ->
  batches <> [] -> wv_log wv = log ++ concat batches ->
  Q tt (committed_write r wv (OCommit batches db_size) g) ->
  wpp page_sz (publish_commit (rv_upto r + len (wv_log wv)) ck tx) g Q.
Proof.
  intros Hw Hi1 Hph Hne Hlog HT. apply wpp_act. intros i e sh com gs base hz Hinv Hi _. wfacts Hinv Hi Hw.
  eexists _, _, (apply_log (rv_content r) (wv_log wv)), _. split_and!; [done| | |apply HT].
  { right. exists (OCommit batches db_size), (MWrite (rv_content r) log false sp). do 2 eexists. split_and!; [done|done|].
    constructor; [done|]. by rewrite Hlog. }
  exists base, hz. assert (Hc := i_conn _ _ _ _ _ _ Hinv i g Hi). destruct Hw as [Hr Hwv Hf Hck].
  destruct (ci_read _ _ _ _ _ Hc r Hr) as (? & ? & ? & ? & ? & ? & Hcont).
  assert (Hent' : forall k x, wv_log wv !! k = Some x -> frame_entry <$> sh_wal sh !! (rv_upto r + 1 + Z.of_nat k) = Some x).
  { intros k x Hk. rewrite <- Hmax. apply Hent. by apply lookup_app_l_Some. }
  assert (Hcom : forall p, apply_log (rv_content r) (wv_log wv) p =
    at_frame base (sh_wal sh) (rv_upto r + len (wv_log wv)) p).
  { intros p. rewrite at_frame_log by (done || lia). by apply apply_log_ext. }
  rewrite Hmax in Hcex, Hu.
  assert (Hfr : forall f, 1 <= f <= rv_upto r + len (wv_log wv) -> is_Some (sh_wal sh !! f)).
  { intros f Hf'. destruct (decide (f <= rv_upto r)); [apply Hinv; lia|].
    assert (Hk : (Z.to_nat (f - rv_upto r - 1) < length (wv_log wv))%nat) by (unfold len in *; lia).
    apply lookup_lt_is_Some in Hk as [x Hx]. apply Hent' in Hx.
    replace (rv_upto r + 1 + Z.of_nat _) with f in Hx by lia. by destruct (sh_wal sh !! f). }
  assert (Hcp := ci_pin _ _ _ _ _ Hc).
  apply (inv_writer page_sz base hz sh _ com _ gs i g); destruct sh; cbn in *; try done.
  - constructor; cbn; try done. unfold len. lia.
  - intros. congruence.
  - apply Hinv.
  - intros ? [= <-]. by right.
  - assert (Hl0 : 0 <= len (wv_log wv)) by (unfold len; lia). constructor; cbn; try done.
    + intros ? [= <-]. unfold read_inv. cbn. split_and!; try done; try lia.
      intros Hs. destruct H2 as (v & ? & ?); [done|]. exists v. split; [done|lia].
    + intros ? [= <-]. unfold write_inv. cbn. unfold len. cbn. rewrite Z.add_0_r. split_and!; try done; [|congruence..].
      by eexists.
Qed.
End writer_rules.
