(* ===== verification/WalCkRules.v ===== *)
(** The accesses of a checkpoint and of a restart of the log. *)

From stdpp Require Import base list gmap numbers relations functions sorting.
From Stdlib Require Import ZArith Lia.
From S2P Require Import Prelude WalFormat RwLock Steps WalCoord WalSpec WalInv WalAccess WalRules.

(** * Steps under the guard of a checkpoint *)

(** A connection's snapshot, if it has one, is not on the database file alone: such a
    reader excludes the guard. *)
Definition off_db_file (g : ghost) : Prop := forall r, g_read g = Some r -> rv_slot r <> 0%nat.
(** The holder of slot 0's exclusive lock. *)
Record guarded (g : ghost) : Prop := {
  gd_lock : g_held g (LRead 0) = HWrite;
  gd_read : off_db_file g;
  gd_find : g_find g = None
}.

(** A step of the guard's holder: what is backfilled, and the database file. *)
Record guard_step (sh sh' : WalShared) : Prop := {
  gs_header : sh_header sh' = sh_header sh;
  gs_max : sh_max_frame sh' = sh_max_frame sh;
  gs_init : sh_initialized sh' = sh_initialized sh;
  gs_cache : sh_frame_cache sh' = sh_frame_cache sh;
  gs_high : sh_high_water sh' = sh_high_water sh;
  gs_wal : sh_wal sh' = sh_wal sh;
  gs_locks : sh_locks sh' = sh_locks sh;
  gs_nb : sh_nbackfills sh <= sh_nbackfills sh'
}.
Lemma guard_step_refl sh : guard_step sh sh.
Proof. by constructor. Qed.

Section guard.
Context (page_sz : Z) (base : content) (hz hz' : Z).

Lemma conn_inv_guard sh sh' gs gs' g ck :
  guard_step sh sh' -> conn_inv base hz sh gs g ->
  (forall r, g_read g = Some r -> rv_slot r <> 0%nat /\ hz' <= rv_upto r) ->
  ck_inv base hz' sh' gs' (with_ck ck g) -> conn_inv base hz' sh' gs' (with_ck ck g).
Proof.
  intros [Eh Em Ei Ec Ehw Ew El Hnb] [Hp Hr Hf Hw Hph _] Hz Hck. constructor; [| | | |done|done]; cbn.
  - intros s v H. unfold mark_of. rewrite El. by apply Hp.
  - intros r H. destruct (Hr r H) as (? & ? & _ & ? & ? & ? & ?). destruct (Hz r H). unfold read_inv.
    rewrite Em, Ew. split_and!; try done; lia.
  - intros p f H. destruct (Hf p f H) as (r & ? & Hfd). exists r. split; [done|]. unfold find_inv in *. by rewrite Ew.
  - intros wv H. specialize (Hw wv H). unfold write_inv in *. by rewrite Eh, Em, Ei, Ec, Ew.
Qed.
(** The holder of the guard is alone with it. *)
Lemma guard_alone sh com gs i j g x :
  inv page_sz base hz sh com gs -> gs !! i = Some g -> gs !! j = Some x -> j <> i -> g_held g (LRead 0) = HWrite ->
  g_ck x = CkNone /\ off_db_file x.
Proof.
  intros Hinv Hi Hj Hne Hl. assert (Hx := i_conn _ _ _ _ _ _ Hinv j x Hj).
  assert (Hx0 := lock_excl _ _ _ i j g x (i_locks _ _ _ _ _ _ Hinv (LRead 0)) Hi Hj ltac:(done) Hl).
  destruct (conn_supports _ _ _ _ _ Hx) as (_ & Sr & _ & Sck). rewrite Hx0 in Sck. split.
  - destruct (g_ck x); try done; by destruct_and?.
  - intros r Hr Hs. specialize (Sr r Hr). by rewrite Hs, Hx0 in Sr.
Qed.
Lemma inv_guard sh sh' com gs i g ck :
  inv page_sz base hz sh com gs -> gs !! i = Some g -> guarded g -> guard_step sh sh' ->
  0 <= sh_nbackfills sh' <= hz' -> hz' <= sh_max_frame sh ->
  (forall r, readers gs r -> hz' <= rv_upto r) ->
  (forall p, sh_db sh' p = at_frame base (sh_wal sh) (sh_nbackfills sh') p \/ sh_nbackfills sh' < latest (sh_wal sh) p hz') ->
  ck_inv base hz' sh' gs (with_ck ck g) ->
  inv page_sz base hz' sh' com (<[i := with_ck ck g]> gs).
Proof.
  intros Hinv Hi [Hl Hrd _] Hs Hb Hb' Hz Hdb Hck. assert (Hrs : forall r, readers (<[i := with_ck ck g]> gs) r -> readers gs r).
  { intros r [?|Hr]%(readers_insert _ _ g); [done|by exists i, g|done]. }
  assert (Hck' : ck_inv base hz' sh' (<[i := with_ck ck g]> gs) (with_ck ck g)).
  { unfold ck_inv in *. cbn in *. destruct ck; try done; destruct_and?; split_and?; try done; intros r ?%Hrs; auto. }
  destruct Hs as [Eh Em Ei Ec Ehw Ew El Hnb] eqn:Hse. constructor.
  - intros l. rewrite El. apply (lock_inv_same _ _ g); [done|done|apply Hinv].
  - assert (H := i_bounds _ _ _ _ _ _ Hinv). rewrite Em. lia.
  - rewrite Ei, Em. apply Hinv.
  - rewrite Eh, Ei. apply Hinv.
  - rewrite Ew, Em. apply Hinv.
  - rewrite Ec, Ehw. apply Hinv.
  - rewrite Ew, Ec, Em. apply Hinv.
  - rewrite Ew, Em. apply Hinv.
  - rewrite Ew. apply Hdb.
  - intros s. unfold mark_of. rewrite El. apply Hinv.
  - intros j x Hj. destruct (decide (j = i)) as [->|Hne].
    + rewrite list_lookup_insert_eq in Hj by (by eapply lookup_lt_Some). simplify_eq.
      eapply conn_inv_guard; [done|by eapply (i_conn _ _ _ _ _ _ Hinv)| |done].
      intros r Hr. split; [by apply Hrd|]. apply Hz. by exists i, g.
    + rewrite list_lookup_insert_ne in Hj by done.
      destruct (guard_alone sh com gs i j g x Hinv Hi Hj Hne Hl) as [Hx0 Hxr].
      assert (x = with_ck CkNone x) as -> by (destruct x; cbn in *; by subst).
      eapply conn_inv_guard; [done|by eapply (i_conn _ _ _ _ _ _ Hinv)| |done].
      intros r Hr. split; [by apply Hxr|]. apply Hz. by exists j, x.
Qed.
End guard.

(** * Determining what may be backfilled *)

Section determine.
Context (page_sz : Z).

Lemma upd_ck g ck :
  (forall i sh com gs base hz, inv page_sz base hz sh com gs -> gs !! i = Some g -> ck_inv base hz sh gs g ->
    ck_inv base hz sh gs (with_ck ck g)) ->
  upd page_sz g (with_ck ck g).
Proof.
  intros H. apply upd_ghost; try done. intros i sh com gs base hz Hinv Hi [Hp Hr Hf Hw Hph Hck]. constructor; try done.
  by eapply H.
Qed.
(** A load under the guard. *)
Lemma wpp_ck_load {X} (f : WalShared -> X) g (ck : WalShared -> ckphase) Q :
  (forall i sh com gs base hz, inv page_sz base hz sh com gs -> gs !! i = Some g -> ck_inv base hz sh gs g ->
    ck_inv base hz sh gs (with_ck (ck sh) g) /\ Q (f sh) (with_ck (ck sh) g)) ->
  wpp page_sz (load f) g Q.
Proof.
  intros H. apply wpp_silent. intros i e sh com gs base hz Hinv Hi _.
  assert (Hc := i_conn _ _ _ _ _ _ Hinv i g Hi). destruct (H i sh com gs base hz Hinv Hi (ci_ck _ _ _ _ _ Hc)) as [Hck HQ].
  eexists _, sh, _. split_and!; [done| | |exact HQ]; [done|]. exists base, hz.
  eapply inv_ghost; [done|done|done|by left|]. by destruct Hc.
Qed.

Lemma wpp_guard g nb Q :
  g_held g (LRead 0) = HNone -> g_ck g = CkNone -> Q false g ->
  Q true (with_ck (CkGuard nb) (with_held (<[LRead 0 := HWrite]> (g_held g)) g)) ->
  wpp page_sz (try_read0_for_checkpoint nb) g Q.
Proof.
  intros Hl Hck HF HT. apply wpp_silent. intros i e sh com gs base hz Hinv Hi Hfr. zbool.
  assert (Hno : forall sh', core sh' = core sh -> (forall l, sh_locks sh' l = sh_locks sh l) ->
    INV page_sz sh' com (<[i := g]> gs)).
  { intros sh' Hc Hlk. rewrite list_insert_id by done. exists base, hz. by eapply inv_same_locks. }
  destruct (Z.eqb_spec e 0); [exists false, sh, g; split_and!; try done; by apply Hno|].
  destruct (spec_call CWrite (sh_locks sh (LRead 0))) as [a h] eqn:Hsc.
  assert (Hs := inv_lock page_sz base hz sh com gs i g CWrite (LRead 0) Hinv Hi). cbn zeta in Hs. rewrite Hsc, Hl in Hs.
  cbn in Hs. assert (Hsup : supports (<[LRead 0 := HWrite]> (g_held g)) g)
    by (eapply supports_take; [by eapply (i_conn _ _ _ _ _ _ Hinv)|done]).
  destruct (sh_locks sh (LRead 0)) as [v r x] eqn:Ha. cbn in Hsc. case_match; simplify_eq; cbn.
  - exists false, (set_lock (LRead 0) (ALock v r x) sh), g. split_and!; try done. apply Hno; [apply set_lock_core|].
    intros l'. rewrite set_lock_locks.
    destruct (decide (LRead 0 = l')) as [<-|?]; [by rewrite fn_lookup_insert|by rewrite fn_lookup_insert_ne].
  - eexists true, _, _. split_and!; [done| | |exact HT]; [done|]. exists base, hz.
    specialize (Hs ltac:(done) ltac:(done) Hsup).
    assert (Hlt := lookup_lt_Some _ _ _ Hi).
    assert (Hi' : <[i := with_held (<[LRead 0 := HWrite]> (g_held g)) g]> gs !! i =
      Some (with_held (<[LRead 0 := HWrite]> (g_held g)) g)) by by apply list_lookup_insert_eq.
    rewrite <- (list_insert_insert_eq gs i _ (with_held (<[LRead 0 := HWrite]> (g_held g)) g)).
    eapply inv_ghost; [done|done|done|by left|]. destruct (i_conn _ _ _ _ _ _ Hs i _ Hi'). constructor; try done.
    cbn. split; [by rewrite fn_lookup_insert|]. by destruct sh.
Qed.

Lemma wpp_det_start g nb Q :
  guarded g -> g_ck g = CkGuard nb ->
  (forall s, 0 <= max_frame s <= U32_MAX -> Q s (with_ck (CkDet nb (max_frame s) 1) g)) ->
  wpp page_sz load_snapshot g Q.
Proof.
  intros Hg Hck HQ. apply (wpp_ck_load _ g (fun sh => CkDet nb (sh_max_frame sh) 1)).
  intros i sh com gs base hz Hinv Hi H. assert (Hb := i_bounds _ _ _ _ _ _ Hinv). split; [|apply HQ; cbn; lia].
  unfold ck_inv in *. rewrite Hck in H. cbn. destruct H. split_and!; [done|done|lia|].
  intros r (j & x & Hj & Hr). right. assert (off_db_file x) as Hx.
  { destruct (decide (j = i)) as [->|Hne]; [simplify_eq; apply Hg|].
    by eapply (guard_alone _ _ _ _ _ _ _ _ _ _ Hinv Hi Hj Hne), Hg. }
  specialize (Hx r Hr). lia.
Qed.
Lemma wpp_det_mark g nb m k Q :
  g_ck g = CkDet nb m k -> (1 <= k)%nat ->
  (forall v, 0 <= v <= U32_MAX -> Q v (with_ck (CkMark nb m k v) g)) -> wpp page_sz (read_mark_value k) g Q.
Proof.
  intros Hck Hk HQ. apply (wpp_ck_load _ g (fun sh => CkMark nb m k (mark_of sh k))).
  intros i sh com gs base hz Hinv Hi H. split; [|apply HQ; apply Hinv].
  unfold ck_inv in *. rewrite Hck in H. cbn. destruct H as (? & ? & ? & Hr). split_and!; try done.
  intros r (j & x & Hj & Hrx) Hs. right. assert (Hx := i_conn _ _ _ _ _ _ Hinv j x Hj).
  destruct (ci_read _ _ _ _ _ Hx r Hrx) as (_ & _ & _ & Hpin & _). destruct Hpin as (v & Hv & Hle); [lia|].
  destruct (ci_pin _ _ _ _ _ Hx _ _ Hv) as (_ & _ & <-). by rewrite Hs in Hle.
Qed.
(** The mark does not limit the checkpoint, or its readers do. *)
Lemma upd_det_skip g nb m k v :
  g_ck g = CkMark nb m k v -> m <= v -> upd page_sz g (with_ck (CkDet nb m (Datatypes.S k)) g).
Proof.
  intros Hck Hv. apply upd_ck. intros i sh com gs base hz Hinv Hi H. unfold ck_inv in *. rewrite Hck in H. cbn.
  destruct H as (? & ? & ? & Hr & Hk). split_and!; try done. intros r Hrd. destruct (Hr r Hrd); [by left|].
  destruct (decide (rv_slot r = k)) as [Hs|]; [|right; lia]. left. destruct (Hk r Hrd Hs); lia.
Qed.
Lemma upd_det_lower g nb m k v :
  g_ck g = CkMark nb m k v -> v <= m -> upd page_sz g (with_ck (CkDet nb v (Datatypes.S k)) g).
Proof.
  intros Hck Hv. apply upd_ck. intros i sh com gs base hz Hinv Hi H. unfold ck_inv in *. rewrite Hck in H. cbn.
  destruct H as (? & ? & ? & Hr & Hk). split_and!; try done; [lia|]. intros r Hrd. destruct (Hr r Hrd); [left; lia|].
  destruct (decide (rv_slot r = k)) as [Hs|]; [|right; lia]. left. destruct (Hk r Hrd Hs); lia.
Qed.
(** A slot held exclusively has no reader. *)
Lemma upd_det_free g nb m k v :
  g_ck g = CkMark nb m k v -> g_held g (LRead k) = HWrite -> (forall r, g_read g = Some r -> rv_slot r <> k) ->
  upd page_sz g (with_ck (CkDet nb m (Datatypes.S k)) g).
Proof.
  intros Hck Hl Hown. apply upd_ck. intros i sh com gs base hz Hinv Hi H. unfold ck_inv in *. rewrite Hck in H. cbn.
  destruct H as (? & ? & ? & Hr & _). split_and!; try done. intros r Hrd. destruct (Hr r Hrd); [by left|].
  destruct (decide (rv_slot r = k)) as [Hs|]; [|right; lia]. exfalso. destruct Hrd as (j & x & Hj & Hrx).
  destruct (decide (j = i)) as [->|Hne]; [simplify_eq; by eapply Hown|].
  assert (Hx := i_conn _ _ _ _ _ _ Hinv j x Hj). destruct (ci_read _ _ _ _ _ Hx r Hrx) as (_ & Hh & _).
  by rewrite Hs, (lock_excl _ _ _ i j g x (i_locks _ _ _ _ _ _ Hinv (LRead k)) Hi Hj) in Hh.
Qed.
End determine.

(** * Copying *)

Lemma pick_spec {X} e (l : list X) x l' : pick e l = Some (x, l') -> l ≡ₚ x :: l'.
Proof.
  unfold pick. destruct (l !! _) as [y|] eqn:Hy; [|done]. intros [= -> <-]. by apply delete_Permutation.
Qed.
Lemma pick_some {X} e (l : list X) : l <> [] -> exists x l', pick e l = Some (x, l').
Proof.
  intros Hl. unfold pick. assert (0 < len l) by (destruct l; [done|unfold len; cbn; lia]).
  assert (Hb := Z.mod_pos_bound e (len l)). destruct (lookup_lt_is_Some_2 l (Z.to_nat (e mod len l))) as [x Hx].
  - unfold len in *. lia.
  - rewrite Hx. cbn. eauto.
Qed.

Section copying.
Context (page_sz : Z).

(** Everything up to [m] is about to be copied. *)
Lemma wpp_iter_latest g nb m m' k Q :
  guarded g -> g_ck g = CkDet nb m k -> (5 <= k)%nat -> 0 <= m' <= m ->
  (forall todo, Q todo (with_ck (CkCopy nb m' todo []) g)) ->
  wpp page_sz (iter_latest_frames (nb + 1) m') g Q.
Proof.
  intros Hg Hck Hk Hm HQ. apply wpp_silent. intros i e sh com gs base hz Hinv Hi _.
  assert (Hb := i_bounds _ _ _ _ _ _ Hinv). eexists _, sh, _. split_and!; [done| | |apply HQ]; [done|].
  assert (H := ci_ck _ _ _ _ _ (i_conn _ _ _ _ _ _ Hinv i g Hi)). unfold ck_inv in H. rewrite Hck in H.
  destruct H as (_ & Hnb & Hmm & Hr). exists base, (Z.max hz m').
  assert (Hex : cache_exact (sh_wal sh) (sh_frame_cache sh) m') by (intros p f Hf; apply Hinv; lia).
  eapply inv_guard; [done|done|done|apply guard_step_refl|lia|lia| | |].
  - intros r Hrd. assert (Hrd' := Hrd). destruct Hrd' as (j & x & Hj & Hrx).
    destruct (ci_read _ _ _ _ _ (i_conn _ _ _ _ _ _ Hinv j x Hj) r Hrx) as (Hs & _ & _ & _ & _ & ? & _).
    destruct (Hr r Hrd); lia.
  - intros p. destruct (i_db _ _ _ _ _ _ Hinv p) as [?|?]; [by left|right].
    assert (Hlm := latest_mono (sh_wal sh) p hz (Z.max hz m')). lia.
  - unfold ck_inv. cbn. split_and!; [apply Hg|done|lia|]. unfold copied. split_and!.
    + intros p f. rewrite (iter_latest_exact _ _ _ _ _ _ _ (i_shape _ _ _ _ _ _ Hinv) Hex) by lia. intros [-> ?]. lia.
    + intros p d []%elem_of_nil.
    + intros p Hl _. right. left. apply list_elem_of_fmap. exists (p, latest (sh_wal sh) p m'). split; [done|].
      apply (iter_latest_exact _ _ _ _ _ _ _ (i_shape _ _ _ _ _ _ Hinv) Hex); [lia|]. lia.
Qed.

Lemma copied_read base hz sh m todo buf p f todo' fr :
  copied base hz sh m todo buf -> 0 <= sh_nbackfills sh -> todo ≡ₚ (p, f) :: todo' -> sh_wal sh !! f = Some fr ->
  copied base hz sh m todo' ((p, wf_data fr) :: buf).
Proof.
  intros (Ht & Hb & Hc) Hnb Hperm Hfr. split_and!.
  - intros q f' Hq. apply Ht. rewrite Hperm. by right.
  - intros q d [[= -> ->]|Hq]%elem_of_cons; [|by apply Hb]. destruct (Ht p f) as [Hlt ->]; [rewrite Hperm; by left|].
    split; [done|]. unfold at_frame. destruct (Z.eqb_spec (latest (sh_wal sh) p m) 0); [lia|]. by rewrite Hfr.
  - intros q Hq Hh. destruct (Hc q Hq Hh) as [?|[Hin|Hin]]; [by left| |right; right; cbn; set_solver].
    rewrite Hperm in Hin. cbn in *. set_solver.
Qed.
Lemma copied_write base hz sh sh' m todo buf p d buf' :
  copied base hz sh m todo buf -> buf ≡ₚ (p, d) :: buf' ->
  sh_nbackfills sh' = sh_nbackfills sh -> sh_wal sh' = sh_wal sh -> sh_db sh' = <[p := d]> (sh_db sh) ->
  copied base hz sh' m todo buf'.
Proof.
  intros (Ht & Hb & Hc) Hperm En Ew Ed. unfold copied. rewrite En, Ew, Ed. split_and!; [done| |].
  - intros q d' Hq. apply Hb. rewrite Hperm. by right.
  - intros q Hq Hh. destruct (decide (p = q)) as [->|Hne].
    + left. rewrite fn_lookup_insert. apply (Hb q d). rewrite Hperm. by left.
    + rewrite fn_lookup_insert_ne by done. destruct (Hc q Hq Hh) as [?|[?|Hin]]; [by left|by right; left|].
      rewrite Hperm in Hin. cbn in Hin. set_solver.
Qed.
Lemma wpp_copy_step g nb m todo buf Q :
  guarded g -> g_ck g = CkCopy nb m todo buf ->
  Q None g ->
  (forall todo' buf', (2 * length todo' + length buf' + 1 = 2 * length todo + length buf)%nat ->
    Q (Some (todo', buf')) (with_ck (CkCopy nb m todo' buf') g)) ->
  wpp page_sz (copy_step todo buf) g Q.
Proof.
  intros Hg Hck HN HS. apply wpp_silent. intros i e sh com gs base hz Hinv Hi _.
  assert (Hb := i_bounds _ _ _ _ _ _ Hinv).
  assert (H := ci_ck _ _ _ _ _ (i_conn _ _ _ _ _ _ Hinv i g Hi)). unfold ck_inv in H. rewrite Hck in H.
  destruct H as (Hl & Hnb & Hmm & Hc).
  assert (Hno : exists (x : option (list (Z * Z) * list (Z * list Z))) sh' g', Some (None, sh) = Some (x, sh') /\
    g_phase g' = g_phase g /\ INV page_sz sh' com (<[i := g']> gs) /\ Q x g').
  { exists None, sh, g. rewrite list_insert_id by done. split_and!; try done. by exists base, hz. }
  destruct (e =? 0); [done|]. case_match.
  - destruct (pick (e / 2) todo) as [[[p f] todo']|] eqn:Hp; [|done]. apply pick_spec in Hp.
    destruct (sh_wal sh !! f) as [fr|] eqn:Hfr; [|done]. eexists _, sh, _. split_and!; [done| | |apply HS]; [done| |].
    + exists base, hz. eapply inv_ghost; [done|done|done|by left|].
      destruct (i_conn _ _ _ _ _ _ Hinv i g Hi). constructor; try done. unfold ck_inv. cbn. split_and!; try done.
      eapply copied_read; [done|lia|done|done].
    + apply Permutation_length in Hp. cbn in *. lia.
  - destruct (pick (e / 2) buf) as [[[p d] buf']|] eqn:Hp; [|done]. apply pick_spec in Hp.
    eexists _, _, _. split_and!; [done| | |apply HS]; [done| |].
    + exists base, hz. assert (Hc' := Hc). destruct Hc' as (_ & Hbf & _).
      destruct (Hbf p d) as [Hlt _]; [rewrite Hp; by left|].
      eapply inv_guard; [done|done|done|by destruct sh|..].
      * by destruct sh; cbn in *; lia.
      * lia.
      * intros r (j & x & Hj & Hrx). destruct (ci_read _ _ _ _ _ (i_conn _ _ _ _ _ _ Hinv j x Hj) r Hrx) as (_ & _ & _ & _ & _ & ? & _). lia.
      * intros q. destruct sh. cbn in *. destruct (decide (p = q)) as [->|Hne].
        -- right. assert (H' := latest_mono sh_wal q m hz). lia.
        -- rewrite fn_lookup_insert_ne by done. apply Hinv.
      * unfold ck_inv. cbn. split_and!; [done|by destruct sh|done|]. eapply (copied_write base hz sh); try done; by destruct sh.
    + apply Permutation_length in Hp. cbn in *. lia.
Qed.

(** The copy is complete: the database file holds everything up to [m]. *)
Lemma copied_all base hz sh com gs m p :
  inv page_sz base hz sh com gs -> copied base hz sh m [] [] -> sh_nbackfills sh <= m -> m <= hz ->
  sh_db sh p = at_frame base (sh_wal sh) m p \/ m < latest (sh_wal sh) p hz.
Proof.
  intros Hinv (_ & _ & Hc) Hnb Hm. destruct (decide (m < latest (sh_wal sh) p hz)) as [|Hle]; [by right|left].
  destruct (decide (sh_nbackfills sh < latest (sh_wal sh) p m)) as [Hlt|Hge].
  - destruct (Hc p Hlt ltac:(lia)) as [?|[[]%elem_of_nil|[]%elem_of_nil]]. done.
  - rewrite (at_frame_same base (sh_wal sh) p (sh_nbackfills sh) m) by lia.
    destruct (i_db _ _ _ _ _ _ Hinv p) as [?|Hh]; [done|].
    rewrite (latest_same (sh_wal sh) p m hz) in Hh by lia. lia.
Qed.
Lemma wpp_publish_backfill g nb m Q :
  guarded g -> g_ck g = CkCopy nb m [] [] -> nb <= m ->
  Q tt (with_ck (CkGuard m) g) -> wpp page_sz (coord_publish_backfill m) g Q.
Proof.
  intros Hg Hck Hm HQ. apply wpp_silent. intros i e sh com gs base hz Hinv Hi _. assert (Hb := i_bounds _ _ _ _ _ _ Hinv).
  assert (H := ci_ck _ _ _ _ _ (i_conn _ _ _ _ _ _ Hinv i g Hi)). unfold ck_inv in H. rewrite Hck in H.
  destruct H as (Hl & Hnb & Hmm & Hc). eexists _, _, _. split_and!; [done| | |apply HQ]; [done|]. exists base, hz.
  assert (Hall := fun p => copied_all base hz sh com gs m p Hinv Hc ltac:(lia) Hmm).
  eapply inv_guard; [done|done|done| |..]; destruct sh; cbn in *.
  - by constructor; cbn; try lia.
  - lia.
  - lia.
  - intros r (j & x & Hj & Hrx). destruct (ci_read _ _ _ _ _ (i_conn _ _ _ _ _ _ Hinv j x Hj) r Hrx) as (_ & _ & _ & _ & _ & ? & _). lia.
  - done.
  - by unfold ck_inv.
Qed.
(** What a load under the guard tells after the copy. *)
Lemma wpp_copied_load g nb m todo buf Q :
  g_ck g = CkCopy nb m todo buf ->
  (forall s, nbackfills s = nb -> m <= max_frame s -> Q s g) -> wpp page_sz load_snapshot g Q.
Proof.
  intros Hck HQ. apply wpp_load. intros i sh com gs base hz Hinv Hi. assert (Hb := i_bounds _ _ _ _ _ _ Hinv).
  assert (H := ci_ck _ _ _ _ _ (i_conn _ _ _ _ _ _ Hinv i g Hi)). unfold ck_inv in H. rewrite Hck in H.
  apply HQ; cbn; [by destruct_and!|]. destruct_and!. lia.
Qed.
(** With the write lock too, the whole log may turn out to be copied. *)
Lemma wpp_copied_all g nb m Q :
  g_ck g = CkCopy nb m [] [] -> g_held g LWrite = HWrite ->
  (forall s, max_frame s = m -> Q s (with_ck CkAll g)) ->
  (forall s, max_frame s <> m -> Q s g) -> wpp page_sz load_snapshot g Q.
Proof.
  intros Hck Hl HQ HQ'. apply (wpp_ck_load page_sz _ g (fun sh => if decide (sh_max_frame sh = m) then CkAll else CkCopy nb m [] [])).
  intros i sh com gs base hz Hinv Hi H. assert (Hb := i_bounds _ _ _ _ _ _ Hinv).
  assert (H' := H). unfold ck_inv in H'. rewrite Hck in H'. destruct H' as (H0 & Hnb & Hmm & Hc).
  case_decide as Hd; [split; [|by apply HQ]|split].
  - unfold ck_inv. cbn. split_and!; [done|done|]. intros p. rewrite Hd.
    destruct (copied_all base hz sh com gs m p Hinv Hc) as [?|Hlt]; [lia|done|done|].
    assert (H' := latest_bounds (sh_wal sh) p hz). lia.
  - unfold ck_inv. cbn. by split_and!.
  - assert (with_ck (CkCopy nb m [] []) g = g) as -> by (destruct g; cbn in *; by subst). by apply HQ'.
Qed.
End copying.

(** * Restarting the log *)

(** The new generation: no frames, the marks reset, the locks held as before. *)
Record restarted (sh sh' : WalShared) : Prop := {
  rs_max : sh_max_frame sh' = 0;
  rs_nb : sh_nbackfills sh' = 0;
  rs_init : sh_initialized sh' = false;
  rs_cache : sh_frame_cache sh' = ∅;
  rs_high : sh_high_water sh' = 0;
  rs_page_size : wal_page_size (sh_header sh') = wal_page_size (sh_header sh);
  rs_wal : sh_wal sh' = sh_wal sh;
  rs_db : sh_db sh' = sh_db sh;
  rs_readers l : a_readers (sh_locks sh' l) = a_readers (sh_locks sh l);
  rs_writer l : a_writer (sh_locks sh' l) = a_writer (sh_locks sh l);
  rs_marks s : 0 <= mark_of sh' s <= U32_MAX
}.
Lemma set_value_ok slot v sh sh0 :
  a_writer (sh_locks sh (LRead slot)) = true -> 0 <= v <= U32_MAX -> restarted sh0 sh ->
  exists sh', set_value slot v sh = Some sh' /\ restarted sh0 sh' /\ sh_header sh' = sh_header sh.
Proof.
  intros Hw Hv [? ? ? ? ? ? ? ? Hr Hx Hm]. unfold set_value. rewrite Hw. eexists. split; [done|].
  split; [|by destruct sh].
  assert (Hlk : forall l, a_readers (sh_locks (set_lock (LRead slot) (fst (spec_call (CSetValue v) (sh_locks sh (LRead slot)))) sh) l) =
    a_readers (sh_locks sh l) /\ a_writer (sh_locks (set_lock (LRead slot) (fst (spec_call (CSetValue v) (sh_locks sh (LRead slot)))) sh) l) =
    a_writer (sh_locks sh l)).
  { intros l. rewrite set_lock_locks. destruct (decide (LRead slot = l)) as [<-|?];
      [rewrite fn_lookup_insert; by destruct (sh_locks sh (LRead slot))|by rewrite fn_lookup_insert_ne]. }
  constructor; try (by destruct sh).
  - intros l. destruct (Hlk l) as [-> _]. apply Hr.
  - intros l. destruct (Hlk l) as [_ ->]. apply Hx.
  - intros s. unfold mark_of. rewrite set_lock_locks. destruct (decide (LRead slot = LRead s)) as [<-|?];
      [rewrite fn_lookup_insert; by destruct (sh_locks sh (LRead slot))|rewrite fn_lookup_insert_ne by done; apply Hm].
Qed.
Lemma restart_wal_header_ok rnd sh :
  (forall s, (s <= 4)%nat -> a_writer (sh_locks sh (LRead s)) = true) -> (forall s, 0 <= mark_of sh s <= U32_MAX) ->
  exists sh', restart_wal_header rnd sh = Some sh' /\ restarted sh sh'.
Proof.
  intros Hw Hm. unfold restart_wal_header. set (sh0 := MkShared _ _ _ _ _ _ _ _ _ _ _ _).
  assert (H0 : restarted sh sh0) by by constructor.
  assert (Hstep : forall sh1 slot v, restarted sh sh1 -> (slot <= 4)%nat -> 0 <= v <= U32_MAX ->
    exists sh2, set_value slot v sh1 = Some sh2 /\ restarted sh sh2).
  { intros sh1 slot v H1 Hs Hv. destruct (set_value_ok slot v sh1 sh) as (sh2 & ? & ? & _); [|done|done|eauto].
    rewrite (rs_writer _ _ H1). by apply Hw. }
  assert (Hu : 0 <= READMARK_NOT_USED <= U32_MAX) by by unfold READMARK_NOT_USED, U32_MAX.
  assert (Hz : 0 <= 0 <= U32_MAX) by by unfold U32_MAX.
  destruct (Hstep sh0 0%nat 0 H0) as (sh1 & -> & H1); [lia|done|]. cbn.
  destruct (Hstep sh1 1%nat 0 H1) as (sh2 & -> & H2); [lia|done|]. cbn.
  destruct (Hstep sh2 2%nat READMARK_NOT_USED H2) as (sh3 & -> & H3); [lia|exact Hu|]. cbn.
  destruct (Hstep sh3 3%nat READMARK_NOT_USED H3) as (sh4 & -> & H4); [lia|exact Hu|]. cbn.
  destruct (Hstep sh4 4%nat READMARK_NOT_USED H4) as (sh5 & -> & H5); [lia|exact Hu|]. by exists sh5.
Qed.

(** All the locks a restart needs. *)
Definition restart_locks (g : ghost) : Prop :=
  g_held g LWrite = HWrite /\ forall s, (s <= 4)%nat -> g_held g (LRead s) = HWrite.

Section restart.
Context (page_sz : Z).

(** With them nobody else has a snapshot, a transaction or a checkpoint. *)
Lemma restart_alone base hz sh com gs i j g x :
  inv page_sz base hz sh com gs -> gs !! i = Some g -> gs !! j = Some x -> j <> i -> restart_locks g ->
  no_claims x /\ writing (phase_mode (g_phase x)) = false.
Proof.
  intros Hinv Hi Hj Hne [Hlw Hlr]. assert (Hx := i_conn _ _ _ _ _ _ Hinv j x Hj).
  assert (Hex : forall l, g_held g l = HWrite -> g_held x l = HNone)
    by (intros l Hl; by eapply (lock_excl _ _ _ i j g x (i_locks _ _ _ _ _ _ Hinv l))).
  assert (g_pin x = None) as Hp.
  { destruct (g_pin x) as [[s v]|] eqn:Hp; [|done]. destruct (ci_pin _ _ _ _ _ Hx s v Hp) as (Hs & Hh & _).
    by rewrite (Hex _ (Hlr s Hs)) in Hh. }
  assert (g_read x = None) as Hr.
  { destruct (g_read x) as [r|] eqn:Hr; [|done]. destruct (ci_read _ _ _ _ _ Hx r Hr) as (Hs & Hh & _).
    by rewrite (Hex _ (Hlr _ Hs)) in Hh. }
  assert (g_write x = None) as Hw.
  { destruct (g_write x) as [wv|] eqn:Hw; [|done]. destruct (ci_write _ _ _ _ _ Hx wv Hw) as (Hh & _).
    by rewrite (Hex _ Hlw) in Hh. }
  split; [split_and!; try done|].
  - destruct (g_find x) as [[p f]|] eqn:Hf; [|done]. destruct (ci_find _ _ _ _ _ Hx p f Hf) as (r & ? & _). congruence.
  - by eapply (guard_alone page_sz base hz sh com gs i j g x Hinv Hi Hj Hne), Hlr, Nat.le_0_l.
  - destruct (writing _) eqn:Hwr; [|done]. by destruct (ci_phase _ _ _ _ _ Hx Hwr).
Qed.
Lemma conn_inv_none base hz sh gs g :
  no_claims g -> writing (phase_mode (g_phase g)) = false -> conn_inv base hz sh gs g.
Proof.
  intros (Hp & Hr & Hf & Hw & Hck) Hph. constructor; try congruence. unfold ck_inv. by rewrite Hck.
Qed.
(** The contents committed so far are what the new generation starts from. *)
Lemma inv_restart base hz sh sh' com gs i g g' :
  inv page_sz base hz sh com gs -> gs !! i = Some g -> restart_locks g -> restarted sh sh' ->
  (forall p, sh_db sh p = at_frame base (sh_wal sh) (sh_max_frame sh) p) ->
  (forall l, g_held g' l = g_held g l) ->
  let base' := at_frame base (sh_wal sh) (sh_max_frame sh) in
  conn_inv base' 0 sh' (<[i := g']> gs) g' ->
  inv page_sz base' 0 sh' com (<[i := g']> gs).
Proof.
  intros Hinv Hi Hl Hs Hdb Hl' base' Hg'. constructor.
  - intros l. assert (H := lock_inv_same gs i g g' l _ Hi (Hl' l) (i_locks _ _ _ _ _ _ Hinv l)).
    unfold lock_inv in *. by rewrite (rs_readers _ _ Hs), (rs_writer _ _ Hs).
  - rewrite (rs_nb _ _ Hs), (rs_max _ _ Hs). unfold U32_MAX. lia.
  - intros _. apply Hs.
  - rewrite (rs_page_size _ _ Hs), (rs_init _ _ Hs). destruct (i_page_size _ _ _ _ _ _ Hinv) as [?|[? _]]; [by left|by right].
  - intros f. rewrite (rs_max _ _ Hs). lia.
  - rewrite (rs_cache _ _ Hs). constructor; intros p l; by rewrite lookup_empty.
  - intros p f. rewrite (rs_max _ _ Hs). lia.
  - intros p. rewrite (rs_max _ _ Hs), at_frame_0 by lia. apply Hinv.
  - intros p. left. rewrite (rs_nb _ _ Hs), (rs_db _ _ Hs), at_frame_0 by lia. apply Hdb.
  - apply Hs.
  - intros j x Hj. destruct (decide (j = i)) as [->|Hne].
    + rewrite list_lookup_insert_eq in Hj by (by eapply lookup_lt_Some). by simplify_eq.
    + rewrite list_lookup_insert_ne in Hj by done. destruct (restart_alone base hz sh com gs i j g x Hinv Hi Hj Hne Hl).
      by apply conn_inv_none.
Qed.

Lemma restart_writers base hz sh com gs i g s :
  inv page_sz base hz sh com gs -> gs !! i = Some g -> restart_locks g -> (s <= 4)%nat ->
  a_writer (sh_locks sh (LRead s)) = true.
Proof.
  intros Hinv Hi [_ Hlr] Hs.
  by apply (lock_inv_holds gs _ _ i g (i_locks _ _ _ _ _ _ Hinv (LRead s)) Hi), Hlr.
Qed.
Lemma restart_no_pin base hz sh gs g s v :
  conn_inv base hz sh gs g -> restart_locks g -> g_pin g = Some (s, v) -> False.
Proof.
  intros Hc [_ Hlr] Hp. destruct (ci_pin _ _ _ _ _ Hc s v Hp) as (Hs & Hh & _). by rewrite (Hlr s Hs) in Hh.
Qed.
Lemma wpp_restart_checkpoint g Q :
  guarded g -> g_ck g = CkAll -> g_write g = None -> restart_locks g ->
  writing (phase_mode (g_phase g)) = false ->
  (forall s, g_read g = None -> Q (inl s) (with_ck CkReset g)) ->
  wpp page_sz (act (fun e s => s' ← restart_wal_header e s; Some (inl (snapshot_of s') : reply WalSnapshot, s'))) g Q.
Proof.
  intros Hg Hck Hw Hl Hph HQ. apply wpp_silent. intros i e sh com gs base hz Hinv Hi _.
  assert (Hc := i_conn _ _ _ _ _ _ Hinv i g Hi).
  destruct (restart_wal_header_ok e sh) as (sh' & -> & Hs); [intros s; by eapply restart_writers|apply Hinv|].
  assert (Hr : g_read g = None).
  { destruct (g_read g) as [r|] eqn:Hr; [exfalso|done]. destruct (ci_read _ _ _ _ _ Hc r Hr) as (_ & _ & _ & Hpin & _).
    destruct (Hpin (gd_read _ Hg r Hr)) as (v & Hv & _). by eapply restart_no_pin. }
  eexists _, _, _. split_and!; [done| | |by apply HQ]; [done|]. eexists _, 0.
  assert (H := ci_ck _ _ _ _ _ Hc). unfold ck_inv in H. rewrite Hck in H. destruct H as (H0 & Hlw & Hdb).
  eapply inv_restart; [done|done|done|done|done|done|]. constructor; try done; cbn.
  - intros s v Hp. by destruct (restart_no_pin base hz sh gs g s v).
  - intros r. by rewrite Hr.
  - intros p f. by rewrite (gd_find _ Hg).
  - intros wv. by rewrite Hw.
  - congruence.
  - split_and!; [done|done|apply Hs].
Qed.
(** The writer's restart: its snapshot has nothing in the log. *)
Definition restarted_writer (wv : wview) (r : rview) (s : WalSnapshot) (g : ghost) : ghost :=
  MkGhost (g_held g) (g_pin g) (Some (MkView 0 0 0 (rv_content r))) None
    (Some (MkWriter [] [] false (wv_page_size wv) (snap_checkpoint_seq s))) CkNone (g_phase g).
Lemma wpp_restart_writer g r wv Q :
  writer g r wv -> wv_log wv = [] -> rv_slot r = 0%nat -> rv_upto r = rv_from r -> restart_locks g ->
  (forall s, max_frame s = 0 -> nbackfills s = 0 -> Q (inl s) (restarted_writer wv r s g)) ->
  wpp page_sz (act (fun e s => s' ← restart_wal_header e s; Some (inl (snapshot_of s') : reply WalSnapshot, s'))) g Q.
Proof.
  intros Hw Hlog Hslot Hup Hlk HQ. apply wpp_silent. intros i e sh com gs base hz Hinv Hi _.
  assert (Hc := i_conn _ _ _ _ _ _ Hinv i g Hi). wfacts Hinv Hi Hw.
  destruct (restart_wal_header_ok e sh) as (sh' & -> & Hs); [intros s; by eapply restart_writers|apply Hinv|].
  eexists _, _, _. split_and!; [done| | |apply HQ; apply Hs]; [done|]. eexists _, 0.
  destruct Hw as [Hr Hwv Hf Hck]. destruct (ci_read _ _ _ _ _ Hc r Hr) as (_ & _ & Hz & _ & Hb1 & Hb2 & Hcont).
  destruct (Hz Hslot) as [Hnb Hhz]. eapply inv_restart; [done|done|done|done| |done|].
  { intros p. destruct (i_db _ _ _ _ _ _ Hinv p) as [->|Hlt]; [by rewrite Hmax, Hup, Hnb|].
    assert (H := latest_bounds (sh_wal sh) p hz). lia. }
  constructor; try done; cbn.
  - intros s v Hp. by destruct (restart_no_pin base hz sh gs g s v).
  - intros ? [= <-]. unfold read_inv. cbn. rewrite (rs_nb _ _ Hs), (rs_max _ _ Hs). split_and!; try done; try lia.
    + destruct Hlk as [_ Hlr]. by rewrite Hlr by lia.
    + intros p. rewrite at_frame_0, Hmax by lia. apply Hcont.
  - intros ? [= <-]. unfold write_inv. cbn. rewrite (rs_max _ _ Hs). unfold len. cbn. split_and!; try done.
    + by eexists.
    + apply Hs.
    + by rewrite (rs_page_size _ _ Hs).
    + intros p f Hf'. lia.
Qed.

(** The file of a log without frames is emptied. *)
Lemma inv_reset base hz sh sh' com gs i g :
  inv page_sz base hz sh com gs -> gs !! i = Some g -> g_ck g = CkReset -> g_write g = None -> g_find g = None ->
  writer_step sh sh' -> sh_max_frame sh' = sh_max_frame sh ->
  sh_header sh' = sh_header sh -> sh_frame_cache sh' = sh_frame_cache sh -> sh_high_water sh' = sh_high_water sh ->
  (wal_page_size (sh_header sh) = page_sz \/ wal_page_size (sh_header sh) = 0 /\ sh_initialized sh' = false) ->
  inv page_sz base hz sh' com gs.
Proof.
  intros Hinv Hi Hck Hw Hf Hs Em Eh Ec Ehw Hps. rewrite <- (list_insert_id gs i g Hi).
  assert (Hc := i_conn _ _ _ _ _ _ Hinv i g Hi). assert (Hb := i_bounds _ _ _ _ _ _ Hinv).
  assert (H := ci_ck _ _ _ _ _ Hc). unfold ck_inv in H. rewrite Hck in H. destruct H as (H0 & Hl & Hm).
  apply (inv_writer page_sz base hz sh sh' com com gs i g); try done; rewrite ?Em, ?Hm; try done; try lia.
  - by rewrite Eh.
  - rewrite Ec, Ehw. apply Hinv.
  - intros p f Hf'. lia.
  - intros p. rewrite at_frame_0 by lia. rewrite (i_committed _ _ _ _ _ _ Hinv), Hm. by apply at_frame_0.
  - by left.
  - rewrite (list_insert_id gs i g Hi). destruct Hc as [Hp Hr _ _ Hph _]. constructor.
    + intros s v Hv. unfold mark_of. rewrite (ws_locks _ _ Hs). by apply Hp.
    + intros r Hrd. destruct (Hr r Hrd) as (? & ? & ? & ? & ? & ? & Hcont). unfold read_inv. rewrite (ws_nb _ _ Hs), Em.
      split_and!; try done; try lia. intros p. rewrite (ws_at_frame base sh sh') by (done || lia). apply Hcont.
    + intros p f. by rewrite Hf.
    + intros wv. by rewrite Hw.
    + done.
    + unfold ck_inv. rewrite Hck, Em. by split_and!.
Qed.
Lemma wpp_reset_store g Q :
  g_ck g = CkReset -> g_write g = None -> g_find g = None -> Q tt g -> wpp page_sz (store (set_initialized false)) g Q.
Proof.
  intros Hck Hw Hf HQ. apply wpp_silent. intros i e sh com gs base hz Hinv Hi _. eexists _, _, g.
  split_and!; [done|done| |done]. rewrite list_insert_id by done. exists base, hz.
  assert (Hps := i_page_size _ _ _ _ _ _ Hinv).
  eapply inv_reset; [done|done|done|done|done|..]; destruct sh; try done. cbn in *. naive_solver.
Qed.
Lemma wpp_reset_truncate g Q :
  g_ck g = CkReset -> g_write g = None -> g_find g = None -> Q false g -> Q true g ->
  wpp page_sz (io (set_wal ∅)) g Q.
Proof.
  intros Hck Hw Hf HF HT. apply wpp_silent. intros i e sh com gs base hz Hinv Hi _.
  destruct (e =? 0); [exists false, sh, g; rewrite list_insert_id by done; split_and!; try done; by exists base, hz|].
  eexists _, _, g. split_and!; [done|done| |done]. rewrite list_insert_id by done. exists base, hz.
  assert (Hb := i_bounds _ _ _ _ _ _ Hinv). assert (Hps := i_page_size _ _ _ _ _ _ Hinv).
  assert (H := ci_ck _ _ _ _ _ (i_conn _ _ _ _ _ _ Hinv i g Hi)). unfold ck_inv in H. rewrite Hck in H.
  destruct H as (_ & _ & Hm). eapply inv_reset; [done|done|done|done|done|..]; destruct sh; try done.
  cbn in *. constructor; cbn; try done. lia.
Qed.
End restart.
