(* ===== verification/WalOps.v ===== *)
(** The operations of WalCoord.v, proved with the rules of the accesses: each call, in any
    interleaving, does not panic and takes effect as the specification says. *)

From stdpp Require Import base list gmap numbers relations functions sorting.
From Stdlib Require Import ZArith Lia.
From S2P Require Import Prelude WalFormat RwLock Steps WalCoord WalSpec WalInv WalAccess WalRules WalCkRules.

(** * More rules *)

Section more_rules.
Context (page_sz : Z).

Lemma wpp_post {A} (p : prog WalShared A) g (Q : A -> ghost -> Prop) :
  wpp page_sz p g (fun a g' => exists g'', upd page_sz g' g'' /\ Q a g'') -> wpp page_sz p g Q.
Proof.
  revert g. induction p as [a|X fresh f k IH]; intros g H.
  { destruct H as (g' & ? & g'' & ? & ?). exists g''. split; [by eapply upd_trans|done]. }
  intros i e sh com gs Hinv Hi Hf. destruct (H i e sh com gs Hinv Hi Hf) as (x & sh' & com' & g' & ? & ? & ? & ?).
  exists x, sh', com', g'. eauto.
Qed.
(** The locks held, given by another function. *)
Lemma upd_held g f : (forall l, f l = g_held g l) -> upd page_sz g (with_held f g).
Proof.
  intros Hf. apply upd_ghost; try done. intros i sh com gs base hz Hinv Hi Hc. apply conn_inv_held; [done|].
  destruct (conn_supports _ _ _ _ _ Hc) as (Sp & Sr & Sw & Sck). unfold supports. split_and!.
  - intros s v H. rewrite Hf. by eapply Sp.
  - intros r H. rewrite Hf. by apply Sr.
  - intros H. rewrite Hf. by apply Sw.
  - destruct (g_ck g); rewrite ?Hf; done.
Qed.

(** Nothing the connection claims rests on lock [l]. *)
Definition unclaimed (l : lockname) (g : ghost) : Prop :=
  match l with
  | LRead s =>
      (g_held g l = HWrite \/ forall v, g_pin g <> Some (s, v)) /\
      (g_held g l = HWrite /\ s <> 0%nat \/ forall r, g_read g = Some r -> rv_slot r <> s) /\
      (s = 0%nat -> g_ck g = CkNone)
  | LWrite => g_write g = None /\ g_ck g <> CkAll /\ g_ck g <> CkReset
  | _ => True
  end.
Lemma supports_drop base hz sh gs g l :
  conn_inv base hz sh gs g -> unclaimed l g -> supports (<[l := HNone]> (g_held g)) g.
Proof.
  intros Hc Hu. destruct (conn_supports _ _ _ _ _ Hc) as (Sp & Sr & Sw & Sck). split_and!.
  - intros s v H. destruct (decide (l = LRead s)) as [->|?]; [|rewrite fn_lookup_insert_ne by done; by eapply Sp].
    destruct Hu as ([Hl|Hn] & _); [|by destruct (Hn v)]. by rewrite (Sp s v H) in Hl.
  - intros r H. destruct (decide (l = LRead (rv_slot r))) as [->|?]; [|rewrite fn_lookup_insert_ne by done; by apply Sr].
    destruct Hu as (_ & [[Hl Hs]|Hn] & _); [|by destruct (Hn r)]. exfalso.
    destruct (ci_read _ _ _ _ _ Hc r H) as (_ & _ & _ & Hpin & _). destruct (Hpin Hs) as (v & Hv & _).
    by rewrite (Sp _ _ Hv) in Hl.
  - intros H. destruct (decide (l = LWrite)) as [->|?]; [by destruct Hu|rewrite fn_lookup_insert_ne by done; by apply Sw].
  - destruct (g_ck g) eqn:Hck; try done; destruct_and?; split_and?;
      (rewrite fn_lookup_insert_ne; [done|]); intros ->; cbn in Hu; rewrite Hck in Hu; naive_solver.
Qed.
Lemma wpp_unlock_to l f g (Q : unit -> ghost -> Prop) :
  g_held g l <> HNone -> unclaimed l g -> (forall l', f l' = <[l := HNone]> (g_held g) l') ->
  Q tt (with_held f g) -> wpp page_sz (unlock l) g Q.
Proof.
  intros Hl Hu Hf HQ. apply wpp_post. apply wpp_unlock; [done|intros; by eapply supports_drop|].
  exists (with_held f g). split; [|done]. by apply (upd_held (with_held _ g)).
Qed.
(** A lock the connection already holds cannot be taken exclusively. *)
Lemma wpp_try_denied fresh l g Q :
  g_held g l <> HNone -> Q false g ->
  wpp page_sz (Atomic fresh (fun e s =>
    if e =? 0 then Some (false, s)
    else let '(a, h) := spec_call CWrite (sh_locks s l) in Some (granted CWrite h, set_lock l a s)) Ret) g Q.
Proof.
  intros Hl HQ. apply wpp_silent. intros i e sh com gs base hz Hinv Hi _.
  assert (Hid : forall sh', core sh' = core sh -> (forall l, sh_locks sh' l = sh_locks sh l) ->
    INV page_sz sh' com (<[i := g]> gs)).
  { intros sh' Hc Hlk. rewrite list_insert_id by done. exists base, hz. by eapply inv_same_locks. }
  destruct (e =? 0); [exists false, sh, g; split_and!; try done; by apply Hid|].
  destruct (lock_inv_holds gs l _ i g (i_locks _ _ _ _ _ _ Hinv l) Hi) as [Hhr Hhw].
  assert (spec_call CWrite (sh_locks sh l) = (sh_locks sh l, HNone)) as ->.
  { destruct (sh_locks sh l) as [v r x]. cbn in *. assert (x || negb (r =? 0) = true) as ->; [|done].
    destruct (g_held g l); [done|destruct Hhr as [? ->]; [done|]|by destruct Hhw as [_ ->]].
    cbn. by destruct (Z.eqb_spec r 0); [lia|]. }
  eexists false, _, g. split_and!; [done|done| |done]. apply Hid; [apply set_lock_core|]. intros l'. rewrite set_lock_locks.
  destruct (decide (l = l')) as [<-|?]; [by rewrite fn_lookup_insert|by rewrite fn_lookup_insert_ne].
Qed.
Lemma wpp_io_id g (Q : bool -> ghost -> Prop) : Q false g -> Q true g -> wpp page_sz (io id) g Q.
Proof.
  intros HF HT. apply wpp_silent. intros i e sh com gs base hz Hinv Hi _. exists (negb (e =? 0)), sh, g.
  rewrite list_insert_id by done. split_and!; [by destruct (e =? 0)|done|by exists base, hz|by destruct (e =? 0)].
Qed.
End more_rules.

(** Look up a lock among those held. *)
Ltac hlook :=
  cbn -[insert fn_insert];
  repeat (rewrite fn_lookup_insert || (rewrite fn_lookup_insert_ne by congruence)); try done.
(** Two descriptions of the locks held. *)
Ltac hsame :=
  let l := fresh "l" in intros l; cbn -[insert fn_insert];
  repeat match goal with
  | |- context [<[?k := ?v]> ?f l] =>
      destruct (decide (k = l)) as [<-|?]; [rewrite (fn_lookup_insert f k v)|rewrite (fn_lookup_insert_ne f k l v) by done]
  end; try done; try congruence.

(** * Read transactions *)

Lemma with_held_twice f f' g : with_held f (with_held f' g) = with_held f g.
Proof. done. Qed.
Lemma with_pin_id g : g_pin g = None -> with_pin None g = g.
Proof. destruct g. cbn. by intros ->. Qed.
Lemma with_held_id g : with_held (g_held g) g = g.
Proof. by destruct g. Qed.
Lemma wrap32_small x : 0 <= x <= U32_MAX -> wrap 32 x = x.
Proof. unfold U32_MAX, wrap. intros. apply Z.mod_small. lia. Qed.

Lemma len_nil {A} : len (@nil A) = 0.
Proof. done. Qed.
Lemma len_cons {A} (x : A) l : len (x :: l) = len l + 1.
Proof. unfold len. cbn. lia. Qed.

(** The slot of a mark, if one was found. *)
Definition slot_ok (x : option nat) : Prop := match x with Some s => (1 <= s <= 4)%nat | None => True end.
Definition slots_ok (l : list nat) : Prop := Forall (fun s => (1 <= s <= 4)%nat) l.
Lemma mark_slots_ok : slots_ok mark_slots.
Proof. repeat constructor. Qed.

Section reading_ops.
Context (page_sz : Z).

Lemma scan_marks_ok slots max bi bm g (Q : option nat * Z -> ghost -> Prop) :
  slots_ok slots -> 0 <= max <= U32_MAX -> slot_ok bi -> bm <= max ->
  (forall bi bm, slot_ok bi -> bm <= max -> Q (bi, bm) g) -> wpp page_sz (scan_marks slots max bi bm) g Q.
Proof.
  intros Hs Hmax. revert bi bm. induction Hs as [|idx slots Hidx Hs IH]; intros bi bm Hbi Hbm HQ; cbn [scan_marks].
  { apply wpp_ret. by apply HQ. }
  apply wpp_bind, wpp_mark. intros v Hv. rewrite wrap32_small by done. case_match eqn:Hc; [|by apply IH].
  zbool. apply IH; [done|lia|done].
Qed.
Lemma claim_mark_ok slots max bi bm g (Q : option nat * Z -> ghost -> Prop) :
  slots_ok slots -> 0 <= max <= U32_MAX -> (forall k, g_held g (LRead k) = HNone) -> slot_ok bi -> bm <= max ->
  (forall bi bm, slot_ok bi -> bm <= max -> Q (bi, bm) g) -> wpp page_sz (claim_mark slots max bi bm) g Q.
Proof.
  intros Hs Hmax Hl Hbi Hbm HQ. induction Hs as [|idx slots Hidx Hs IH]; cbn [claim_mark].
  { apply wpp_ret. by apply HQ. }
  apply wpp_bind, wpp_try_lock; [by right|done|done|]. rewrite wrap32_small by done.
  apply wpp_bind, wpp_set_mark; [hlook|done|].
  apply wpp_bind, (wpp_unlock_to page_sz _ (g_held g)); [hlook| | |].
  - cbn -[insert]. split_and!; [left; hlook|left; split; [hlook|lia]|lia].
  - hsame.
  - rewrite with_held_twice, with_held_id. apply wpp_ret. apply HQ; [done|lia].
Qed.

Lemma coord_try_begin_read_ok s b g Q :
  no_claims g -> g_phase g = PBusy OBeginRead MIdle -> (forall k, g_held g (LRead k) = HNone) ->
  0 <= nbackfills s <= max_frame s -> max_frame s <= U32_MAX ->
  Q None g ->
  (forall guard slot pin com, guard_slot guard = Some slot -> (slot = 0%nat -> pin = None) ->
    Q (Some guard) (reading slot pin s com b (with_held (<[LRead slot := HRead]> (g_held g)) g))) ->
  wpp page_sz (coord_try_begin_read_tx s) g Q.
Proof.
  intros Hg Hph Hl Hnb Hmax HN HS. unfold coord_try_begin_read_tx.
  assert (Hback : forall slot pin, wpp page_sz (unlock_read_mark slot)
    (with_pin pin (with_held (<[LRead slot := HRead]> (g_held g)) g)) (fun _ g' => wpp page_sz (mret None) g' Q)).
  { intros slot pin. eapply wpp_upd; [apply upd_drop_pin; apply Hg|]. apply (wpp_unlock_to page_sz _ (g_held g)); [hlook| | |].
    - destruct Hg as (? & Hr & ? & ? & Hck). cbn. split_and!; [by right|right; intros r; by rewrite Hr|done].
    - hsame.
    - cbn. apply wpp_ret. destruct Hg as (Hp & _). destruct g; cbn in *. by subst. }
  apply wpp_bind, wpp_passert; [by apply Z.leb_le|]. destruct (Z.eqb_spec (max_frame s) (nbackfills s)) as [He|He].
  - apply wpp_bind, wpp_try_lock; [by left|done|by apply wpp_ret|]. cbn [negb].
    apply wpp_bind, (wpp_load_db_snapshot page_sz _ s b); [by destruct Hg|done|hlook|done| |].
    + intros com. rewrite decide_True by done. apply wpp_ret. by apply HS.
    + intros s' Hs'. rewrite decide_False by done. apply wpp_bind.
      assert (H := Hback 0%nat None). by rewrite with_pin_id in H by apply Hg.
  - apply wpp_bind, scan_marks_ok; [apply mark_slots_ok|lia|done|lia|]. intros bi bm Hbi Hbm. cbn beta iota.
    apply wpp_bind. eapply (wpp_mono _ _ _ (fun x g' => g' = g /\ slot_ok x.1 /\ x.2 <= max_frame s)).
    { destruct (_ || _); [|by apply wpp_ret].
      apply claim_mark_ok; [apply mark_slots_ok|lia|done|done|done|done]. }
    intros [bi' bm'] g' (-> & Hbi' & Hbm'). cbn in Hbi', Hbm'. destruct bi' as [idx|]; [|by apply wpp_ret]. cbn in Hbi'.
    apply wpp_bind, wpp_try_lock; [by left|done|by apply wpp_ret|]. cbn [negb].
    apply wpp_bind, (wpp_load_mark_snapshot page_sz _ s idx bm' b); [by destruct Hg|done|done|hlook|done|..].
    + intros com. apply wpp_bind, (wpp_mark_pinned _ _ _ bm'); [done|]. rewrite Z.eqb_refl, bool_decide_false by auto.
      apply wpp_ret. apply HS; [done|lia].
    + intros v Hv. apply wpp_bind, (wpp_mark_pinned _ _ _ v); [done|]. rewrite (proj2 (Z.eqb_neq _ _) Hv).
      apply wpp_bind, Hback.
    + intros s' Hs'. apply wpp_bind, wpp_mark. intros v _. rewrite bool_decide_true, orb_true_r by done. apply wpp_bind.
      assert (H := Hback idx None). by rewrite with_pin_id in H by apply Hg.
Qed.
End reading_ops.

(** * A connection between its calls *)

(** The locks of a transaction. *)
Definition held_as (slot : option nat) (wr : bool) (l : lockname) : held :=
  match l with
  | LRead s => if decide (slot = Some s) then HRead else HNone
  | LWrite => if wr then HWrite else HNone
  | LCheckpoint => HNone
  | LVacuum => match slot with Some _ => HRead | None => HNone end
  end.

(** The connection's fields match its snapshot. *)
Record at_snapshot (w : WalFile) (wr : bool) (g : ghost) (r : rview) : Prop := {
  as_read : g_read g = Some r;
  as_find : g_find g = None;
  as_ck : g_ck g = CkNone;
  as_pin : rv_slot r = 0%nat -> g_pin g = None;
  as_guard : guard_slot (wal_read_guard w) = Some (rv_slot r);
  as_min : Z.max 1 (wal_min_frame w) = rv_from r + 1;
  as_vacuum : wal_vacuum_guard w = true;
  as_lock : wal_write_lock_held w = wr;
  as_held l : g_held g l = held_as (Some (rv_slot r)) wr l
}.
Definition savepoint_rel (r : rview) (wv : wview) (sp : option nat) (sp' : option RollbackTo) : Prop :=
  match sp, sp' with
  | None, None => True
  | Some k, Some pos =>
      pos_frame pos = rv_upto r + Z.of_nat k /\ (k <= length (wv_log wv))%nat /\ pos_checkpoint_seq pos = wv_seq wv
  | _, _ => False
  end.
Definition idle (cl : client) (w : WalFile) (m : smode) (g : ghost) : Prop :=
  match m with
  | MIdle =>
      cl = ClIdle /\ no_claims g /\ wal_read_guard w = GuardNone /\ wal_write_lock_held w = false /\
      wal_vacuum_guard w = false /\ forall l, g_held g l = HNone
  | MRead c =>
      cl = ClRead /\ g_write g = None /\
      exists r, at_snapshot w false g r /\ rv_content r = c /\ wal_max_frame w = rv_upto r
  | MWrite c log failed sp =>
      exists r wv dirty sp', cl = ClWrite dirty failed sp' /\ at_snapshot w true g r /\ g_write g = Some wv /\
        rv_content r = c /\ wv_log wv = log /\ wv_pend wv = [] /\ (dirty = false -> log = []) /\
        wal_checkpoint_seq w = wv_seq wv /\ savepoint_rel r wv sp sp' /\
        (failed = false -> wal_max_frame w = rv_upto r + len log)
  end.

(** The marks of slots [ss] held exclusively on top of [f]. *)
Definition hold_marks (ss : list nat) (f : lockname -> held) (l : lockname) : held :=
  match l with LRead s => if decide (s ∈ ss) then HWrite else f l | _ => f l end.

(** What a call leaves: its result, and the connection ready for the next. *)
Definition done_with (o : op) (x : result * conn) (g : ghost) : Prop :=
  exists m, g_phase g = PDone o x.1 m /\ idle x.2.1 x.2.2 m g.

(** Phases do not matter to a connection between its calls. *)
Lemma idle_phase cl w m g ph : idle cl w m g -> idle cl w m (with_phase ph g).
Proof.
  destruct m as [|c|c log failed sp]; cbn; [done| |].
  - intros (? & ? & r & [] & ? & ?). split_and!; try done. exists r. split_and!; try done; by constructor.
  - intros (r & wv & dirty & sp' & ? & [] & H). exists r, wv, dirty, sp'. split_and!; try apply H; try done; by constructor.
Qed.

Section ops.
Context (page_sz : Z).

Lemma wpp_ret_upd {A} (a : A) g g' (Q : A -> ghost -> Prop) : upd page_sz g g' -> Q a g' -> wpp page_sz (mret a) g Q.
Proof. intros. by exists g'. Qed.

Lemma try_begin_read_ok w g :
  g_phase g = PBusy OBeginRead MIdle -> idle ClIdle w MIdle g ->
  wpp page_sz (try_begin_read_tx w) g (fun x g' =>
    match x.1 with
    | TryOk b => done_with OBeginRead (RBool (inl b), (ClRead, x.2)) g'
    | _ => x.2 = w /\ g' = g
    end).
Proof.
  intros Hph (_ & Hg & Hgd & Hlk & Hvac & Hl). unfold try_begin_read_tx.
  apply wpp_bind, wpp_passert; [by rewrite bool_decide_true|]. apply wpp_bind, wpp_passert; [by rewrite Hvac|].
  apply wpp_bind, wpp_try_lock; [by left|apply Hl|by apply wpp_ret|]. cbn [negb].
  apply wpp_bind, wpp_snapshot. intros s Hs Hmax. apply wpp_bind, wpp_passert; [apply Z.leb_le; lia|].
  apply wpp_bind, (coord_try_begin_read_ok page_sz s (bool_decide (s <> local_snapshot w))); [by destruct Hg|done|..|done|done| |].
  - intros k. hlook; apply Hl.
  - apply wpp_bind, (wpp_unlock_to page_sz _ (g_held g)); [hlook|done|hsame|].
    rewrite with_held_twice, with_held_id. by apply wpp_ret.
  - intros guard slot pin com Hguard Hpin. apply wpp_ret. exists (MRead com). split; [done|]. cbn. split_and!; [done|done|].
    exists (MkView slot (nbackfills s) (max_frame s) com). split_and!; [|done|done].
    constructor; cbn -[insert]; try done; [unfold min_frame; lia|].
    destruct l; hlook; try apply Hl. case_decide; simplify_eq; hlook; apply Hl.
Qed.
Lemma begin_read_loop_ok n w g :
  g_phase g = PBusy OBeginRead MIdle -> idle ClIdle w MIdle g ->
  wpp page_sz (begin_read_loop n w) g (fun x g' =>
    done_with OBeginRead (RBool x.1, (if is_inl x.1 then ClRead else ClIdle, x.2)) g').
Proof.
  intros Hph Hid. induction n as [|n IH]; cbn [begin_read_loop];
    (apply wpp_bind; eapply wpp_mono; [by apply try_begin_read_ok|]); intros [r w'] g' Hr; cbn in Hr; cbn beta iota;
    (destruct r; [by apply wpp_ret|..]; destruct Hr as [-> ->]).
  all: try done.
  all: apply (wpp_ret_upd _ _ (with_phase (PDone OBeginRead (RBool (inr Busy)) MIdle) g));
    [by apply (upd_lin _ _ _ MIdle); [|constructor|]|]; exists MIdle; split; [done|]; by apply idle_phase.
Qed.
Lemma end_read_ok cl w m g :
  g_phase g = PBusy OEndRead m -> idle cl w m g -> writing m = false ->
  wpp page_sz (end_read_tx w) g (fun w' g' => done_with OEndRead (RUnit (inl tt), (ClIdle, w')) g').
Proof.
  intros Hph Hid Hm. assert (Hlin : upd page_sz g (with_phase (PDone OEndRead (RUnit (inl tt)) MIdle) g))
    by (by apply (upd_lin _ _ _ m); [|constructor|]).
  eapply wpp_upd; [exact Hlin|]. unfold end_read_tx. destruct m as [|c|]; [| |done].
  - destruct Hid as (-> & Hg & Hgd & Hlk & Hvac & Hl). rewrite Hgd. cbn [guard_slot]. apply wpp_bind, wpp_passert; [by rewrite Hvac|].
    apply wpp_ret. exists MIdle. by split_and!.
  - destruct Hid as (-> & Hw & r & Hs & Hc & Hmax). rewrite (as_guard _ _ _ _ Hs).
    eapply wpp_upd; [by apply upd_drop_read|]. apply wpp_bind. unfold coord_end_read_tx. rewrite (as_guard _ _ _ _ Hs).
    eapply (wpp_unlock_to page_sz _ (<[LRead (rv_slot r) := HNone]> (g_held g))); [|cbn; split_and!; [by right|by right|intros _; apply Hs]|hsame|].
    { cbn. rewrite (as_held _ _ _ _ Hs). cbn. by rewrite decide_True. }
    apply wpp_bind, wpp_passert; [by rewrite (as_vacuum _ _ _ _ Hs)|].
    apply wpp_bind, (wpp_unlock_to page_sz _ (fun _ => HNone)); [hlook; by rewrite (as_held _ _ _ _ Hs)|done| |].
    + hsame. rewrite (as_held _ _ _ _ Hs). destruct l; cbn; try done; by case_decide; simplify_eq.
    + apply wpp_ret. exists MIdle. split; [done|]. split_and!; try done; [|by apply Hs].
      by destruct Hs.
Qed.

Lemma with_find_id g : g_find g = None -> with_find None g = g.
Proof. destruct g. cbn. by intros ->. Qed.
Lemma find_frame_ok p w g r (Q : option Z -> ghost -> Prop) :
  g_read g = Some r -> Z.max 1 (wal_min_frame w) = rv_from r + 1 -> wal_max_frame w = seen_upto g r ->
  (forall found, Q found (with_find (Some (p, found)) g)) -> wpp page_sz (find_frame w p) g Q.
Proof.
  intros Hr Hmin Hmax HQ. unfold find_frame. apply wpp_bind, wpp_load. intros i sh com gs base hz Hinv Hi.
  destruct (bool_decide _ && _) eqn:Hb.
  - apply (wpp_ret_upd _ _ (with_find (Some (p, None)) g)); [|apply HQ]. apply (upd_find_none _ _ r); [done|].
    apply andb_prop in Hb as [_ Hlt%Z.ltb_lt]. lia.
  - rewrite Hmax. by apply wpp_find_frame.
Qed.
Lemma read_page_ok p w g r (Q : option (list Z) -> ghost -> Prop) :
  g_read g = Some r -> g_find g = None -> Z.max 1 (wal_min_frame w) = rv_from r + 1 -> wal_max_frame w = seen_upto g r ->
  Q None g -> Q (Some (seen_content g r p)) g -> wpp page_sz (read_page_no_cache w p) g Q.
Proof.
  intros Hr Hf Hmin Hmax HN HS. unfold read_page_no_cache. apply wpp_post, wpp_bind.
  apply (find_frame_ok p w g r); [done..|]. intros [f|].
  - apply (wpp_read_frame _ _ r p); [done|done|..]; (eexists; split; [apply upd_drop_find|]);
      change (with_find None (with_find _ g)) with (with_find None g); by rewrite with_find_id.
  - apply (wpp_read_db _ _ r p); [done|done|..]; (eexists; split; [apply upd_drop_find|]);
      change (with_find None (with_find _ g)) with (with_find None g); by rewrite with_find_id.
Qed.
Lemma read_ok p cl w m g :
  g_phase g = PBusy (ORead p) m -> idle cl w m g -> call_ok (ORead p) cl w = true ->
  wpp page_sz (read_page_no_cache w p) g (fun x g' => done_with (ORead p) (RPage x, (cl, w)) g').
Proof.
  intros Hph Hid Hok. apply wpp_post.
  assert (Hdone : forall x, (forall alone com, lin alone (ORead p) m com (RPage x) m com) ->
    (writing m = true -> g_write g <> None) ->
    exists g'', upd page_sz g g'' /\ done_with (ORead p) (RPage x, (cl, w)) g'').
  { intros x Hl Hw. exists (with_phase (PDone (ORead p) (RPage x) m) g). split; [by apply (upd_lin _ _ _ m)|].
    exists m. split; [done|]. by apply idle_phase. }
  destruct m as [|c|c log failed sp].
  - by destruct Hid as (-> & _).
  - destruct Hid as (-> & Hw & r & Hs & <- & Hmax).
    apply (read_page_ok p w g r); [apply Hs|apply Hs|apply Hs|by unfold seen_upto; rewrite Hw, Z.add_0_r|..]; apply Hdone; try done.
    + intros. by constructor.
    + intros. unfold seen_content. rewrite Hw. constructor.
  - destruct Hid as (r & wv & dirty & sp' & -> & Hs & Hw & <- & <- & _ & _ & _ & _ & Hmax). destruct failed; [done|].
    apply (read_page_ok p w g r); [apply Hs|apply Hs|apply Hs|by unfold seen_upto; rewrite Hw; apply Hmax|..];
      apply Hdone; try (intros; congruence).
    + intros. by constructor.
    + intros. unfold seen_content. rewrite Hw. constructor.
Qed.

(** ** Restarting the log *)

Lemma wpp_unlock_mark s f g Q :
  g_held g (LRead s) = HWrite -> s <> 0%nat -> (forall l', f l' = <[LRead s := HNone]> (g_held g) l') ->
  Q tt (with_held f g) -> wpp page_sz (unlock_read_mark s) g Q.
Proof.
  intros Hl Hs Hf HQ. apply (wpp_unlock_to page_sz _ f); [by rewrite Hl| |done|done].
  cbn. split_and!; [by left|by left|done].
Qed.
Lemma unlock_marks_ok ss f g Q :
  slots_ok ss -> NoDup ss -> (forall s, s ∈ ss -> f (LRead s) = HNone) ->
  Q tt (with_held f g) -> wpp page_sz (unlock_marks ss) (with_held (hold_marks ss f) g) Q.
Proof.
  intros Hok Hnd Hf HQ. revert Hnd Hf. induction Hok as [|s ss Hs Hok IH]; intros Hnd Hf; cbn [unlock_marks].
  { apply (wpp_ret_upd _ _ (with_held f g)); [|done]. apply (upd_held _ (with_held _ g)). intros []; cbn; done. }
  apply list.NoDup_cons in Hnd as [Hni Hnd].
  apply wpp_bind, (wpp_unlock_mark _ (hold_marks ss f)); [cbn; by rewrite decide_True by set_solver|lia| |].
  - intros l. cbn -[insert]. destruct (decide (l = LRead s)) as [->|Hne].
    + rewrite fn_lookup_insert. cbn. rewrite decide_False by done. apply Hf. set_solver.
    + rewrite fn_lookup_insert_ne by done. destruct l as [t| | |]; try done. cbn.
      destruct (decide (t ∈ ss)); [by rewrite decide_True by set_solver|rewrite decide_False; [done|]].
      intros [->|?]%elem_of_cons; done.
  - apply IH; [done|]. intros t Ht. apply Hf. set_solver.
Qed.
Lemma lock_marks_ok taken ss f g (Q : bool -> ghost -> Prop) :
  slots_ok taken -> slots_ok ss -> NoDup (taken ++ ss) -> (forall s, s ∈ taken -> f (LRead s) = HNone) ->
  Q false (with_held f g) ->
  ((forall s, s ∈ taken ++ ss -> f (LRead s) = HNone) -> Q true (with_held (hold_marks (taken ++ ss) f) g)) ->
  wpp page_sz (lock_marks taken ss) (with_held (hold_marks taken f) g) Q.
Proof.
  intros Ht Hok. revert taken Ht. induction Hok as [|s ss Hs Hok IH]; intros taken Ht Hnd Hf HF HT; cbn [lock_marks].
  { apply wpp_ret. rewrite app_nil_r in HT. by apply HT. }
  assert (Hns : s ∉ taken) by (apply NoDup_app in Hnd as (_ & H & _); intros Hin; apply (H s Hin); by left).
  assert (Hundo : wpp page_sz (_ ← unlock_marks taken; mret false) (with_held (hold_marks taken f) g) Q).
  { apply wpp_bind, unlock_marks_ok; [done|by apply NoDup_app in Hnd as (? & _)|done|]. by apply wpp_ret. }
  apply wpp_bind. destruct (decide (f (LRead s) = HNone)) as [Hfs|Hfs].
  - apply wpp_try_lock; [by right|cbn; by rewrite decide_False|done|].
    apply wpp_bind, wpp_set_mark; [hlook|by unfold READMARK_NOT_USED, U32_MAX|].
    eapply wpp_upd; [apply (upd_held _ _ (hold_marks (taken ++ [s]) f))|].
    + intros l. cbn -[insert]. destruct (decide (l = LRead s)) as [->|Hne].
      * rewrite fn_lookup_insert. cbn. by rewrite decide_True by set_solver.
      * rewrite fn_lookup_insert_ne by done. destruct l as [t| | |]; try done. cbn.
        destruct (decide (t ∈ taken)); [by rewrite decide_True by set_solver|rewrite decide_False; [done|]]. set_solver.
    + rewrite !with_held_twice. apply IH; [apply Forall_app; split; [done|by constructor]|by rewrite <- app_assoc| |done|].
      * intros t [?|Heq%list_elem_of_singleton]%elem_of_app; [by apply Hf|by subst].
      * rewrite <- app_assoc. done.
  - apply wpp_try_denied; [cbn; by rewrite decide_False|done].
Qed.

(** ** Write transactions *)

(** A writer that has appended nothing. *)
Definition fresh_writer (w : WalFile) (c : content) (g : ghost) : Prop :=
  exists r wv, at_snapshot w true g r /\ g_write g = Some wv /\ rv_content r = c /\ wv_log wv = [] /\ wv_pend wv = [] /\
    wal_checkpoint_seq w = wv_seq wv /\ wal_max_frame w = rv_upto r.
Lemma fresh_writer_idle w c g : fresh_writer w c g -> idle (ClWrite false false None) w (MWrite c [] false None) g.
Proof.
  intros (r & wv & Hs & Hw & Hc & Hl & Hp & Hseq & Hmax). exists r, wv, false, None. split_and!; try done.
  intros _. rewrite Hmax. unfold len. cbn. lia.
Qed.
Lemma supports_downgrade base hz sh gs g :
  conn_inv base hz sh gs g -> g_held g (LRead 0) = HWrite -> g_ck g = CkNone ->
  supports (<[LRead 0 := HRead]> (g_held g)) g.
Proof.
  intros Hc Hl Hck. destruct (conn_supports _ _ _ _ _ Hc) as (Sp & Sr & Sw & _). unfold supports. rewrite Hck. split_and!; [| | |done].
  - intros s v H. assert (H' := Sp s v H). rewrite fn_lookup_insert_ne; [done|]. intros [= <-]. congruence.
  - intros r H. destruct (decide (LRead 0 = LRead (rv_slot r))) as [<-|?];
      [by rewrite fn_lookup_insert|rewrite fn_lookup_insert_ne by done; by apply Sr].
  - intros H. rewrite fn_lookup_insert_ne by done. by apply Sw.
Qed.
Lemma held_as_restart slot l :
  hold_marks mark_slots (<[LRead 0 := HWrite]> (held_as slot true)) l = HWrite <->
  l = LWrite \/ exists s, l = LRead s /\ (s <= 4)%nat.
Proof.
  destruct l as [s| | |]; cbn -[insert].
  - assert (Hin : s ∈ mark_slots <-> (1 <= s <= 4)%nat) by (unfold mark_slots; rewrite !elem_of_cons, elem_of_nil; lia).
    case_decide as Hd; [split; [intros _; right; exists s; split; [done|]; apply Hin in Hd; lia|done]|].
    destruct (decide (s = 0%nat)) as [->|Hne]; [rewrite fn_lookup_insert; split; [|done]; intros _; right; by exists 0%nat; split; [|lia]|].
    rewrite fn_lookup_insert_ne by congruence. cbn. split; [by case_decide|]. intros [?|(t & [= <-] & ?)]; [done|].
    exfalso. apply Hd, Hin. lia.
  - rewrite fn_lookup_insert_ne by done. cbn. split; [by left|done].
  - rewrite fn_lookup_insert_ne by done. cbn. split; [done|]. by intros [?|(? & ? & _)].
  - rewrite fn_lookup_insert_ne by done. cbn. split; [by destruct slot|]. by intros [?|(? & ? & _)].
Qed.

Lemma downgrade0_ok f g (Q : unit -> ghost -> Prop) :
  g_held g (LRead 0) = HWrite -> g_ck g = CkNone -> (forall l, f l = <[LRead 0 := HRead]> (g_held g) l) ->
  Q tt (with_held f g) -> wpp page_sz (downgrade_read_mark 0) g Q.
Proof.
  intros Hl Hck Hf HQ. apply wpp_post, wpp_downgrade; [done|intros; by eapply supports_downgrade|].
  exists (with_held f g). split; [|done]. by apply (upd_held _ (with_held _ g)).
Qed.
Lemma mark_slots_nz s : s ∈ mark_slots -> s <> 0%nat.
Proof. unfold mark_slots. rewrite !elem_of_cons, elem_of_nil. lia. Qed.
Lemma mark_slots_nodup : NoDup mark_slots.
Proof. by apply (bool_decide_unpack _). Qed.

Lemma restart_for_write_ok g r wv :
  writer g r wv -> wv_log wv = [] -> rv_slot r = 0%nat -> rv_upto r = rv_from r -> g_pin g = None ->
  (forall l, g_held g l = held_as (Some 0%nat) true l) ->
  wpp page_sz try_restart_log_for_write g (fun x g' =>
    match x with
    | inl None | inr Busy => g' = with_held (held_as (Some 0%nat) true) g
    | inl (Some s) =>
        max_frame s = 0 /\ nbackfills s = 0 /\ g' = with_held (held_as (Some 0%nat) true) (restarted_writer wv r s g)
    | _ => False
    end).
Proof.
  intros Hwr Hlog Hslot Hup Hpin Hheld. set (f0 := held_as (Some 0%nat) true).
  eapply wpp_upd; [by apply (upd_held _ _ f0)|]. unfold try_restart_log_for_write.
  apply wpp_bind, wpp_upgrade; [done|done|by apply wpp_ret|]. cbn [negb]. set (f := <[LRead 0 := HWrite]> f0).
  assert (Hdown : forall ss, slots_ok ss -> forall l, hold_marks ss f0 l = <[LRead 0 := HRead]> (hold_marks ss f) l).
  { intros ss Hss l. unfold f. destruct (decide (LRead 0 = l)) as [<-|Hne].
    - rewrite fn_lookup_insert. cbn. rewrite decide_False; [done|]. intros H%(proj1 (Forall_forall _ _) Hss). lia.
    - rewrite fn_lookup_insert_ne by done. destruct l; cbn -[insert]; [case_decide; [done|]|..]; by rewrite fn_lookup_insert_ne. }
  assert (Hf : forall s, s ∈ mark_slots -> f0 (LRead s) = HNone).
  { intros s Hs%mark_slots_nz. cbn. rewrite decide_False; congruence. }
  apply wpp_bind. unfold begin_restart. apply wpp_bind.
  eapply wpp_upd; [apply (upd_held _ _ (hold_marks [] f)); intros []; done|]. rewrite !with_held_twice.
  apply lock_marks_ok; [constructor|apply mark_slots_ok|apply mark_slots_nodup|by intros ? ?%elem_of_nil| |].
  - cbn [negb]. apply wpp_ret, wpp_bind, (downgrade0_ok f0); [by unfold f; hlook|by apply Hwr| |by apply wpp_ret].
    unfold f. hsame.
  - intros _. cbn [negb app]. apply (wpp_restart_writer _ _ r wv); [by destruct Hwr|done|done|done| |].
    { split; [|intros s Hs]; apply held_as_restart; [by left|right; eauto]. }
    intros s Hm Hn. apply wpp_bind, (downgrade0_ok (hold_marks mark_slots f0)); [by apply held_as_restart; right; exists 0%nat; split; [|lia]|done| |].
    { apply Hdown, mark_slots_ok. }
    apply wpp_bind, (unlock_marks_ok _ f0 (restarted_writer wv r s g)); [apply mark_slots_ok|apply mark_slots_nodup|done|].
    apply wpp_ret. by split_and!.
Qed.
Lemma restart_before_write_ok w c g :
  fresh_writer w c g ->
  wpp page_sz (try_restart_log_before_write w) g (fun x g' =>
    (x.1 = inl tt \/ x.1 = inr Busy) /\ fresh_writer x.2 c g' /\ g_phase g' = g_phase g).
Proof.
  intros Hfw. assert (Hfw' := Hfw). destruct Hfw' as (r & wv & Hs & Hw & Hc & Hl & Hp & Hseq & Hmax).
  assert (Hsame : forall x, x = inl tt \/ x = inr Busy -> wpp page_sz (mret (x, w)) g (fun x g' =>
    (x.1 = inl tt \/ x.1 = inr Busy) /\ fresh_writer x.2 c g' /\ g_phase g' = g_phase g)) by (intros x Hx; by apply wpp_ret).
  unfold try_restart_log_before_write. case_bool_decide as Hguard; cbn [negb]; [|apply Hsame; by left].
  assert (Hslot : rv_slot r = 0%nat) by (assert (H := as_guard _ _ _ _ Hs); rewrite Hguard in H; cbn in H; congruence).
  assert (Hwr : writer g r wv) by (constructor; try done; apply Hs).
  apply wpp_bind, wpp_load. intros i sh com gs base hz Hinv Hi.
  destruct (Z.eqb_spec (nbackfills (snapshot_of sh)) 0); [apply Hsame; by left|].
  assert (Hb := i_bounds _ _ _ _ _ _ Hinv). apply wpp_bind, wpp_passert; [apply Z.leb_le; cbn; lia|].
  destruct (Z.eqb_spec (max_frame (snapshot_of sh)) (nbackfills (snapshot_of sh))) as [He|]; cbn [negb]; [|apply Hsame; by left].
  assert (Hup : rv_upto r = rv_from r).
  { destruct (writer_facts _ _ _ _ _ _ _ _ _ _ Hinv Hi Hwr) as (_ & Hm & _). cbn in He.
    destruct (ci_read _ _ _ _ _ (i_conn _ _ _ _ _ _ Hinv i g Hi) r (as_read _ _ _ _ Hs)) as (_ & _ & Hz & _).
    destruct (Hz Hslot). lia. }
  clear i sh com gs base hz Hinv Hi n He Hb. apply wpp_bind. eapply wpp_mono.
  { apply (restart_for_write_ok g r wv); [done|done|done|done|by apply Hs|]. intros l. by rewrite (as_held _ _ _ _ Hs), Hslot. }
  assert (Hold : fresh_writer w c (with_held (held_as (Some 0%nat) true) g)).
  { exists r, wv. split_and!; try done. destruct Hs. constructor; try done. intros l. cbn. by rewrite Hslot. }
  intros x g' Hx. destruct x as [[s|]|[]]; try done; try (subst; apply wpp_ret; split_and!; [auto|done|done]).
  destruct Hx as (Hm & Hn & ->). apply wpp_bind, wpp_bump_epoch, wpp_ret. split_and!; [by left| |done].
  exists (MkView 0 0 0 (rv_content r)), (MkWriter [] [] false (wv_page_size wv) (snap_checkpoint_seq s)).
  split_and!; [|done|done|done|done|done|done].
  constructor; try done; [intros _; by apply Hs|cbn; by rewrite Hguard|apply Hs|apply Hs].
Qed.

Lemma begin_write_ok restart cl w m g :
  g_phase g = PBusy (OBeginWrite restart) m -> idle cl w m g -> call_ok (OBeginWrite restart) cl w = true ->
  wpp page_sz (begin_write_tx restart w) g (fun x g' =>
    done_with (OBeginWrite restart) (RUnit x.1, (if is_inl x.1 then ClWrite false false None else cl, x.2)) g').
Proof.
  intros Hph Hid Hok. destruct m as [|c|c log failed sp].
  1: by destruct Hid as (-> & _).
  2: by destruct Hid as (? & ? & ? & ? & -> & _).
  assert (Hid' := Hid). destruct Hid' as (-> & Hw & r & Hs & Hc & Hmax).
  assert (Hbusy : forall e, e = Busy \/ e = BusySnapshot -> wpp page_sz (mret (inr e, w)) g (fun x g' =>
    done_with (OBeginWrite restart) (RUnit x.1, (if is_inl x.1 then ClWrite false false None else ClRead, x.2)) g')).
  { intros e He. apply (wpp_ret_upd _ _ (with_phase (PDone (OBeginWrite restart) (RUnit (inr e)) (MRead c)) g)).
    - apply (upd_lin _ _ _ (MRead c)); [done|by constructor|done].
    - exists (MRead c). split; [done|]. by apply (idle_phase ClRead). }
  unfold begin_write_tx.
  apply wpp_bind, wpp_passert; [rewrite bool_decide_false; [done|]; intros He; assert (H := as_guard _ _ _ _ Hs); by rewrite He in H|].
  apply wpp_bind, wpp_passert; [by rewrite (as_lock _ _ _ _ Hs)|].
  apply wpp_bind, wpp_try_lock; [by right|by rewrite (as_held _ _ _ _ Hs)|apply Hbusy; by left|]. cbn [negb].
  apply wpp_bind, (wpp_load_write_snapshot _ _ r (local_snapshot w) restart);
    [apply Hs|done|hlook|by rewrite Hc|done| |].
  - intros ini ps. rewrite bool_decide_false by auto.
    assert (Hfw : fresh_writer (set_write_lock_held true w) c
      (begun_write r ini ps (local_snapshot w) restart (with_held (<[LWrite := HWrite]> (g_held g)) g))).
    { exists r, (MkWriter [] [] ini ps (wal_checkpoint_seq w)). split_and!; try done. destruct Hs. constructor; try done.
      intros l. cbn -[insert]. destruct (decide (LWrite = l)) as [<-|?]; [by rewrite fn_lookup_insert|].
      rewrite fn_lookup_insert_ne by done. rewrite as_held0. by destruct l. }
    destruct restart; cbn [negb].
    + apply wpp_bind. eapply wpp_mono; [by apply restart_before_write_ok|]. intros [x w'] g' (Hx & Hf & Hp').
      cbn in Hx, Hf, Hp'. assert (Hd : done_with (OBeginWrite true) (RUnit (inl tt), (ClWrite false false None, w')) g').
      { exists (MWrite c [] false None). split; [by rewrite Hp', <- Hc|]. by apply fresh_writer_idle. }
      destruct Hx as [-> | ->]; by apply wpp_ret.
    + apply wpp_ret. exists (MWrite c [] false None). split; [by rewrite <- Hc|]. by apply fresh_writer_idle.
  - intros s' Hs'. rewrite bool_decide_true by done.
    apply wpp_bind, (wpp_unlock_to page_sz _ (g_held g)); [hlook|cbn; rewrite (as_ck _ _ _ _ Hs); done| |].
    + hsame. by rewrite (as_held _ _ _ _ Hs).
    + rewrite with_held_twice, with_held_id. apply Hbusy. by right.
Qed.
Lemma end_write_ok cl w m g :
  g_phase g = PBusy OEndWrite m -> idle cl w m g -> call_ok OEndWrite cl w = true ->
  wpp page_sz (end_write_tx w) g (fun w' g' => done_with OEndWrite (RUnit (inl tt), (ClRead, w')) g').
Proof.
  intros Hph Hid Hok. destruct m as [|c|c log failed sp]; [by destruct Hid as (-> & _)..|].
  destruct Hid as (r & wv & dirty & sp' & -> & Hs & Hw & Hc & Hlog & Hpend & Hdirty & Hseq & Hsp & Hmax).
  cbn in Hok. destruct dirty; [done|]. destruct failed; [done|].
  rewrite (Hdirty eq_refl) in *. unfold end_write_tx.
  apply wpp_bind, wpp_passert; [by rewrite (as_lock _ _ _ _ Hs)|].
  eapply wpp_upd; [by apply (upd_lin _ g OEndWrite (MWrite c [] false sp) (RUnit (inl tt)) (MRead c)); [|constructor|]|].
  eapply wpp_upd; [apply upd_drop_write; [apply Hs|done]|].
  apply wpp_bind, (wpp_unlock_to page_sz _ (held_as (Some (rv_slot r)) false)).
  - cbn. by rewrite (as_held _ _ _ _ Hs).
  - cbn. by rewrite (as_ck _ _ _ _ Hs).
  - intros l. cbn -[insert]. destruct (decide (LWrite = l)) as [<-|?]; [by rewrite fn_lookup_insert|].
    rewrite fn_lookup_insert_ne by done. rewrite (as_held _ _ _ _ Hs). by destruct l.
  - apply wpp_ret. exists (MRead c). split; [done|]. split_and!; [done|done|]. exists r.
    split_and!; [|done|specialize (Hmax eq_refl); unfold len in Hmax; cbn in *; lia].
    destruct Hs. by constructor.
Qed.

(** ** Appending frames *)

(** A connection in a write transaction, in the middle of a call. *)
Record writes (w : WalFile) (g : ghost) (r : rview) (wv : wview) : Prop := {
  wt_snapshot : at_snapshot w true g r;
  wt_write : g_write g = Some wv;
  wt_seq : wal_checkpoint_seq w = wv_seq wv
}.
Lemma writes_writer w g r wv : writes w g r wv -> writer g r wv.
Proof. intros [[] ? ?]. by constructor. Qed.
Lemma writes_set w g r wv wv' n ck : writes w g r wv -> wv_seq wv' = wv_seq wv -> writes (set_cursor n ck w) (set_writer wv' g) r wv'.
Proof. intros [[] ? ?] ?. constructor; [by constructor|done|cbn; congruence]. Qed.
Lemma writes_set_writer w g r wv wv' : writes w g r wv -> wv_seq wv' = wv_seq wv -> writes w (set_writer wv' g) r wv'.
Proof. intros [[] ? ?] ?. constructor; [by constructor|done|cbn; congruence]. Qed.
Lemma writes_idle w g r wv dirty failed sp sp' :
  writes w g r wv -> wv_pend wv = [] -> (dirty = false -> wv_log wv = []) -> savepoint_rel r wv sp sp' ->
  (failed = false -> wal_max_frame w = rv_upto r + len (wv_log wv)) ->
  idle (ClWrite dirty failed sp') w (MWrite (rv_content r) (wv_log wv) failed sp) g.
Proof. intros [] ? ? ? ?. by exists r, wv, dirty, sp'. Qed.
Lemma writes_idle_inv cl w g c log failed sp :
  idle cl w (MWrite c log failed sp) g -> exists r wv dirty sp',
    cl = ClWrite dirty failed sp' /\ writes w g r wv /\ c = rv_content r /\ log = wv_log wv /\ wv_pend wv = [] /\
    (dirty = false -> wv_log wv = []) /\ savepoint_rel r wv sp sp' /\
    (failed = false -> wal_max_frame w = rv_upto r + len (wv_log wv)).
Proof.
  intros (r & wv & dirty & sp' & -> & Hs & Hw & Hc & Hlog & Hpend & Hdirty & Hseq & Hsp & Hmax).
  exists r, wv, dirty, sp'. subst. by split_and!.
Qed.

(** What [prepare_wal] leaves of a writer. *)
Definition readied (wv : wview) (init : bool) (wv' : wview) : Prop :=
  wv_log wv' = wv_log wv /\ wv_pend wv' = [] /\ wv_seq wv' = wv_seq wv /\ wv_init wv' = init.
Lemma prepare_wal_ok big w g r wv (Q : reply unit * WalFile -> ghost -> Prop) :
  writes w g r wv -> wv_pend wv = [] -> wal_max_frame w = rv_upto r + len (wv_log wv) ->
  (forall init wv' w', readied wv init wv' -> writes w' (set_writer wv' g) r wv' -> wal_max_frame w' = wal_max_frame w ->
    Q (if init then inl tt else inr IOError, w') (set_writer wv' g)) ->
  wpp page_sz (prepare_wal big page_sz w) g Q.
Proof.
  intros Hwt Hpend Hmax HQ. assert (Hwr := writes_writer _ _ _ _ Hwt).
  assert (Hid : set_writer wv g = g) by (destruct Hwr; destruct g; cbn in *; by subst).
  unfold prepare_wal, prepare_wal_start. apply wpp_bind, wpp_bind, (wpp_writer_load _ _ _ r wv); [done|].
  intros sh _ _ -> Hz _ _ _. destruct (wv_init wv) eqn:Hini; cbn beta iota.
  { apply wpp_ret, wpp_ret. rewrite <- Hid. apply (HQ true wv w); [by split_and!| |done]. by rewrite Hid. }
  destruct (Hz eq_refl) as [Hup Hl]. apply wpp_bind, (wpp_prepare_header _ _ _ r wv); [done|done|]. intros h. cbn beta iota.
  set (wv1 := MkWriter (wv_log wv) (wv_pend wv) false page_sz (wv_seq wv)).
  assert (Hw1 : writer (set_writer wv1 g) r wv1) by (by apply (set_writer_ok _ _ wv)).
  assert (Hm0 : forall ck, wal_max_frame (set_cursor 0 ck w) = wal_max_frame w) by (intros; rewrite Hmax, Hl, Hup; done).
  apply wpp_bind, (wpp_write_header _ _ r wv1); [done|done|done|]. intros [|]; cbn beta iota; apply wpp_ret.
  - unfold prepare_wal_finish. apply wpp_bind, wpp_bind, (wpp_mark_initialized _ _ r wv1); [done|done|..]; apply wpp_ret, wpp_ret.
    + apply (HQ false wv1); [done|by apply (writes_set _ _ _ wv)|apply Hm0].
    + apply (HQ true (MkWriter (wv_log wv) (wv_pend wv) true page_sz (wv_seq wv))); [done|by apply (writes_set _ _ _ wv)|apply Hm0].
  - apply wpp_ret, (HQ false wv1); [done|by apply (writes_set _ _ _ wv)|apply Hm0].
Qed.

Lemma wal_ready_ok pages g r wv (Q : WalHeader -> ghost -> Prop) :
  writer g r wv -> wv_init wv = true -> len pages <= IOV_MAX -> (forall h, Q h g) -> wpp page_sz (wal_ready page_sz pages) g Q.
Proof.
  intros Hwr Hini Hlen HQ. unfold wal_ready. apply wpp_bind, wpp_passert; [by apply Z.leb_le|].
  apply wpp_bind, (wpp_writer_load _ _ _ r wv); [done|]. intros sh _ _ -> _ _ _ _.
  apply wpp_bind, wpp_passert; [done|]. apply wpp_bind, (wpp_writer_load _ _ _ r wv); [done|]. intros sh' _ _ _ _ Hps _ _.
  apply wpp_bind, wpp_passert; [apply Z.eqb_eq; by apply Hps|]. apply wpp_ret, HQ.
Qed.

(** The frames of [pages] from number [n] on. *)
Fixpoint frames_at (n : Z) (frames : list PFrame) (pages : list (Z * list Z)) : Prop :=
  match frames, pages with
  | [], [] => True
  | f :: frames, (p, d) :: pages =>
      pf_id f = n /\ pf_page f = p /\ frame_entry (pf_frame f) = (p, d) /\ frames_at (n + 1) frames pages
  | _, _ => False
  end.
Lemma frames_at_eq n n' frames pages : frames_at n' frames pages -> n = n' -> frames_at n frames pages.
Proof. by intros ? ->. Qed.
Lemma build_frames_at h ck n pages db_size : pages_ok pages = true -> frames_at n (build_frames h ck n pages db_size) pages.
Proof.
  revert ck n. induction pages as [|[p d] pages IH]; intros ck n Hok; [done|]. cbn in Hok. zbool.
  cbn. split_and!; [done|done| |by apply IH]. unfold frame_entry. cbn. rewrite wrap32_small; [done|unfold U32_MAX; lia].
Qed.
Lemma write_frames_ok frames pages g r wv (Q : bool -> ghost -> Prop) :
  writer g r wv -> wv_init wv = true -> frames_at (rv_upto r + len (wv_log wv) + len (wv_pend wv) + 1) frames pages ->
  (forall pend, Q false (set_writer (MkWriter (wv_log wv) pend true (wv_page_size wv) (wv_seq wv)) g)) ->
  Q true (set_writer (MkWriter (wv_log wv) (wv_pend wv ++ pages) true (wv_page_size wv) (wv_seq wv)) g) ->
  wpp page_sz (write_frames frames) g Q.
Proof.
  revert pages g wv. induction frames as [|f frames IH]; intros [|[p d] pages] g wv Hwr Hini Hat HF HT; try done; cbn [write_frames].
  { apply wpp_ret. rewrite app_nil_r in HT. destruct wv, Hwr, g. cbn in *. by subst. }
  destruct Hat as (Hid & _ & He & Hat). rewrite Hid. apply wpp_bind, (wpp_write_frame _ _ r wv); [done|done|..].
  { apply wpp_ret. specialize (HF (wv_pend wv)). destruct wv, Hwr, g. cbn in *. by subst. }
  rewrite He. eapply (IH pages); [by apply (set_writer_ok _ _ wv)|done| |done|].
  - eapply frames_at_eq; [exact Hat|]. cbn. rewrite len_app, len_cons, len_nil. lia.
  - cbn. by rewrite <- app_assoc.
Qed.
Lemma cache_frames_ok frames pages rest g r wv (Q : unit -> ghost -> Prop) :
  writer g r wv -> wv_init wv = true -> wv_pend wv = pages ++ rest ->
  frames_at (rv_upto r + len (wv_log wv) + 1) frames pages -> rv_upto r + len (wv_log wv) + len pages <= U32_MAX ->
  Q tt (set_writer (MkWriter (wv_log wv ++ pages) rest true (wv_page_size wv) (wv_seq wv)) g) ->
  wpp page_sz (cache_frames frames) g Q.
Proof.
  revert pages g wv. induction frames as [|f frames IH]; intros [|[p d] pages] g wv Hwr Hini Hp Hat Hle HQ; try done; cbn [cache_frames].
  { apply wpp_ret. rewrite app_nil_r in HQ. destruct wv, Hwr, g. cbn in *. by subst. }
  destruct Hat as (Hid & Hpg & He & Hat). rewrite Hid, Hpg. rewrite len_cons in Hle. assert (Hl := len_nonneg pages).
  apply wpp_bind, (wpp_cache_frame _ _ r wv p d (pages ++ rest)); [done|done|done|lia|].
  eapply (IH pages); [by apply (set_writer_ok _ _ wv)|done|done| |cbn; rewrite len_app, len_cons, len_nil; lia|].
  - eapply frames_at_eq; [exact Hat|]. cbn. rewrite len_app, len_cons, len_nil. lia.
  - cbn. by rewrite <- app_assoc.
Qed.
(** A call of a write transaction that takes effect with its view as it stands. *)
Lemma writes_done o w g r wv m0 dirty failed sp sp' res :
  writes w g r wv -> wv_pend wv = [] -> (dirty = false -> wv_log wv = []) -> savepoint_rel r wv sp sp' ->
  (failed = false -> wal_max_frame w = rv_upto r + len (wv_log wv)) -> g_phase g = PBusy o m0 ->
  (forall alone com, lin alone o m0 com res (MWrite (rv_content r) (wv_log wv) failed sp) com) ->
  exists g', upd page_sz g g' /\ done_with o (res, (ClWrite dirty failed sp', w)) g'.
Proof.
  intros Hwt Hpend Hd Hsp Hmax Hph Hlin. exists (with_phase (PDone o res (MWrite (rv_content r) (wv_log wv) failed sp)) g). split.
  - apply (upd_lin _ _ _ m0); [done|done|]. intros _. by rewrite (wt_write _ _ _ _ Hwt).
  - eexists. split; [done|]. by apply idle_phase, writes_idle.
Qed.
Lemma writes_drop_pend w g r wv :
  writes w g r wv -> exists wv', upd page_sz g (set_writer wv' g) /\ writes w (set_writer wv' g) r wv' /\
    wv_log wv' = wv_log wv /\ wv_pend wv' = [] /\ wv_seq wv' = wv_seq wv.
Proof.
  intros Hwt. eexists. split_and!; [by apply upd_drop_pend, Hwt|by apply (writes_set_writer _ _ _ wv)|done..].
Qed.
Lemma savepoint_extend r wv r' wv' sp sp' :
  savepoint_rel r wv sp sp' -> rv_upto r' = rv_upto r -> (length (wv_log wv) <= length (wv_log wv'))%nat ->
  wv_seq wv' = wv_seq wv -> savepoint_rel r' wv' sp sp'.
Proof. destruct sp, sp'; cbn; try done. intros (? & ? & ?) ? ? ?. split_and!; [lia|lia|congruence]. Qed.

Lemma spill_ok big pages cl w m g :
  g_phase g = PBusy (OSpill pages) m -> idle cl w m g -> call_ok (OSpill pages) cl w = true ->
  wpp page_sz (spill big page_sz pages w) g (fun x g' => done_with (OSpill pages)
    (RUnit x.1, (match cl with
                 | ClWrite dirty failed sp =>
                     ClWrite (dirty || negb (bool_decide (pages = []))) (failed || negb (is_inl x.1)) sp
                 | _ => cl
                 end, x.2)) g').
Proof.
  intros Hph Hid Hok. destruct m as [|c|c log failed sp]; [by destruct Hid as (-> & _)..|].
  apply writes_idle_inv in Hid as (r & wv & dirty & sp' & -> & Hwt & -> & -> & Hpend & Hdirty & Hsp & Hmax).
  destruct failed; [done|]. cbn in Hok. zbool. specialize (Hmax eq_refl). apply wpp_post.
  assert (Hfail : forall w' wv', writes w' (set_writer wv' g) r wv' -> wv_log wv' = wv_log wv -> wv_pend wv' = [] -> wv_seq wv' = wv_seq wv ->
    exists g'', upd page_sz (set_writer wv' g) g'' /\
      done_with (OSpill pages) (RUnit (inr IOError), (ClWrite (dirty || negb (bool_decide (pages = []))) true sp', w')) g'').
  { intros w' wv' Hwt' Hl' Hp' Hs'. eapply (writes_done _ _ _ r wv' _ _ _ sp); [done|done| | |done|done|].
    - rewrite Hl'. intros [? _]%orb_false_iff. by apply Hdirty.
    - eapply savepoint_extend; [done|done|by rewrite Hl'|done].
    - rewrite Hl'. constructor. }
  apply wpp_bind, (prepare_wal_ok big w g r wv); [done|done|done|]. intros init wv1 w1 (Hl1 & Hp1 & Hs1 & Hi1) Hwt1 Hm1.
  destruct init; [|by apply wpp_ret, Hfail]. cbn beta iota. unfold append_frames_vectored.
  assert (Hwr1 := writes_writer _ _ _ _ Hwt1).
  apply wpp_bind, (wal_ready_ok _ _ r wv1); [done|done|done|]. intros h. cbn zeta.
  set (frames := build_frames _ _ _ _ _).
  assert (Hat : frames_at (rv_upto r + len (wv_log wv1) + 1) frames pages).
  { eapply frames_at_eq; [by apply build_frames_at|]. rewrite Hm1, Hmax, Hl1. lia. }
  apply wpp_bind, (write_frames_ok _ pages _ r wv1); [done|done|by rewrite Hp1, len_nil, Z.add_0_r| |].
  - intros pend. cbn [negb]. set (wv2 := MkWriter _ pend _ _ _). assert (Hwt2 : writes w1 (set_writer wv2 g) r wv2)
      by (by apply (writes_set_writer _ (set_writer wv1 g) _ wv1)).
    destruct (writes_drop_pend _ _ _ _ Hwt2) as (wv3 & Hu & Hwt3 & Hl3 & Hp3 & Hs3).
    eapply wpp_upd; [exact Hu|]. apply wpp_ret, (Hfail _ wv3); [|by rewrite Hl3|done|by rewrite Hs3].
    by apply (writes_set _ (set_writer wv3 g) _ wv3).
  - cbn [negb]. rewrite Hp1. cbn [app]. set (wv2 := MkWriter _ pages _ _ _).
    apply wpp_bind, (cache_frames_ok _ pages [] _ r wv2);
      [by apply (set_writer_ok _ _ wv1)|done|by rewrite app_nil_r|done|cbn; rewrite Hl1; lia|].
    apply wpp_ret. cbn [orb is_inl negb fst snd]. set (wv3 := MkWriter (wv_log wv2 ++ pages) _ _ _ _).
    eapply (writes_done _ _ _ r wv3 _ _ _ sp); [by apply (writes_set _ (set_writer wv1 g) _ wv1)|done| | | |done|].
    + intros [Hd Hp]%orb_false_iff. cbn. rewrite Hl1, (Hdirty Hd). case_bool_decide as He; [by rewrite He|done].
    + eapply savepoint_extend; [done|done|cbn; rewrite Hl1, length_app; lia|done].
    + intros _. cbn. rewrite Hm1, Hmax, len_app, Hl1. lia.
    + cbn. rewrite Hl1. constructor.
Qed.

(** ** Commits *)

(** Batches of frames from number [n] on. *)
Fixpoint prepared_at (n : Z) (ps : list PreparedFrames) (batches : list (list (Z * list Z))) : Prop :=
  match ps, batches with
  | [], [] => True
  | p :: ps, b :: batches =>
      frames_at n (prep_frames p) b /\ prep_final_max_frame p = n + len b - 1 /\ prepared_at (n + len b) ps batches
  | _, _ => False
  end.
Definition next_frame (n : Z) (prev : option PreparedFrames) (r : rview) (wv : wview) : Prop :=
  match prev with Some p => n = prep_final_max_frame p + 1 | None => n = rv_upto r + len (wv_log wv) + 1 end.
Definition batch_ok (b : list (Z * list Z)) : bool := pages_ok b && (0 <? len b) && (len b <=? IOV_MAX).
(** The same snapshot, from another frame on. *)
Definition same_view (r r' : rview) : Prop := rv_slot r' = rv_slot r /\ rv_upto r' = rv_upto r /\ rv_content r' = rv_content r.
Lemma with_read_id g r : g_read g = Some r -> with_read (Some r) g = g.
Proof. destruct g. cbn. by intros ->. Qed.

Lemma prepare_frames_ok pages db_size prev n w g r wv (Q : PreparedFrames * WalFile -> ghost -> Prop) :
  writes w g r wv -> wv_init wv = true -> batch_ok pages = true -> wal_max_frame w = rv_upto r + len (wv_log wv) ->
  next_frame n prev r wv ->
  (forall p w' r', frames_at n (prep_frames p) pages -> prep_final_max_frame p = n + len pages - 1 ->
    same_view r r' -> writes w' (with_read (Some r') g) r' wv -> wal_max_frame w' = wal_max_frame w ->
    Q (p, w') (with_read (Some r') g)) ->
  wpp page_sz (prepare_frames page_sz pages db_size prev w) g Q.
Proof.
  intros Hwt Hini Hb Hmax Hn HQ. unfold batch_ok in Hb. zbool. assert (Hwr := writes_writer _ _ _ _ Hwt). unfold prepare_frames.
  apply wpp_bind, wpp_passert; [by apply Z.ltb_lt|]. apply wpp_bind, (wal_ready_ok _ _ r wv); [done|done|done|]. intros h.
  apply wpp_bind. eapply (wpp_mono _ _ _ (fun x g' => let '(rolling, next, w') := x in next = n /\
    exists r', same_view r r' /\ writes w' g' r' wv /\ g' = with_read (Some r') g /\ wal_max_frame w' = wal_max_frame w)).
  - assert (Hown : exists r', same_view r r' /\ writes w g r' wv /\ g = with_read (Some r') g /\ wal_max_frame w = wal_max_frame w)
      by (exists r; split_and!; [done..| |done]; by rewrite with_read_id by apply Hwr).
    destruct prev as [p|]; cbn in Hn; [by apply wpp_ret|]. destruct (decide (wv_log wv = [])) as [Hl|Hl].
    + rewrite Hl, len_nil in *. apply wpp_bind, (wpp_writer_snapshot _ _ r wv); [done|]. intros s Hs Hsq Hnb.
      rewrite (proj2 (Z.ltb_ge _ _)) by lia. apply wpp_bind, wpp_passert; [apply Z.eqb_eq; lia|]. apply wpp_ret.
      split; [lia|]. exists (MkView (rv_slot r) (nbackfills s) (rv_upto r) (rv_content r)).
      assert (Hmin := as_min _ _ _ _ (wt_snapshot _ _ _ _ Hwt)).
      split_and!; [done| |done|case_bool_decide; [cbn; lia|done]].
      destruct Hwt as [[] ? ?]. case_bool_decide as Hsn; (constructor; [constructor; try done|done|cbn; congruence]).
      * cbn. unfold min_frame. lia.
      * subst s. cbn in *. lia.
    + apply wpp_bind, (wpp_writer_load _ _ _ r wv); [done|]. intros sh Hs _ _ _ _ _ _. assert (0 < len (wv_log wv)).
      { destruct (wv_log wv) as [|x l]; [done|]. rewrite len_cons. assert (Hll := len_nonneg l). lia. }
      rewrite (proj2 (Z.ltb_lt _ _)) by (cbn; lia). apply wpp_ret. split; [lia|done].
  - intros [[rolling next] w'] g' (-> & r' & Hsv & Hwt' & -> & Hm'). apply wpp_ret. apply HQ; [by apply build_frames_at|done..].
Qed.
Lemma prepare_batches_ok batches db_size prev n w g r wv (Q : list PreparedFrames * WalFile -> ghost -> Prop) :
  writes w g r wv -> wv_init wv = true -> forallb batch_ok batches = true -> wal_max_frame w = rv_upto r + len (wv_log wv) ->
  next_frame n prev r wv ->
  (forall ps w' r', prepared_at n ps batches -> same_view r r' -> writes w' (with_read (Some r') g) r' wv ->
    wal_max_frame w' = wal_max_frame w -> Q (ps, w') (with_read (Some r') g)) ->
  wpp page_sz (prepare_batches page_sz batches db_size prev w) g Q.
Proof.
  revert prev n w g r Q. induction batches as [|b batches IH]; intros prev n w g r Q Hwt Hini Hb Hmax Hn HQ; cbn [prepare_batches].
  { apply wpp_ret. rewrite <- (with_read_id g r) by apply Hwt. apply HQ; [done..| |done]. by rewrite with_read_id by apply Hwt. }
  cbn in Hb. apply andb_prop in Hb as [Hb Hbs].
  apply wpp_bind, (prepare_frames_ok _ _ _ n w g r wv); [done..|]. intros p w1 r1 Hat Hf (Hsl & Hup & Hc) Hwt1 Hm1. cbn beta iota.
  apply wpp_bind, (IH _ (n + len b) _ _ r1); [done|done|done|congruence|cbn; lia|]. intros ps w2 r2 Hats (Hsl2 & Hup2 & Hc2) Hwt2 Hm2.
  apply wpp_ret. change (with_read (Some r2) (with_read (Some r1) g)) with (with_read (Some r2) g) in *.
  apply HQ; [done|split_and!; congruence|done|congruence].
Qed.
Lemma set_writer_id g r wv : writer g r wv -> set_writer wv g = g.
Proof. intros []. destruct g. cbn in *. by subst. Qed.
Lemma write_batches_ok ps batches g r wv (Q : bool -> ghost -> Prop) :
  writer g r wv -> wv_init wv = true -> prepared_at (rv_upto r + len (wv_log wv) + len (wv_pend wv) + 1) ps batches ->
  (forall pend, Q false (set_writer (MkWriter (wv_log wv) pend true (wv_page_size wv) (wv_seq wv)) g)) ->
  Q true (set_writer (MkWriter (wv_log wv) (wv_pend wv ++ concat batches) true (wv_page_size wv) (wv_seq wv)) g) ->
  wpp page_sz (write_batches ps) g Q.
Proof.
  revert batches g wv. induction ps as [|p ps IH]; intros [|b batches] g wv Hwr Hini Hat HF HT; try done; cbn [write_batches].
  { apply wpp_ret. cbn in HT. rewrite app_nil_r in HT. destruct wv, Hwr, g. cbn in *. by subst. }
  destruct Hat as (Hat & _ & Hats). apply wpp_bind, (write_frames_ok _ b _ r wv); [done|done|done| |].
  { intros pend. apply wpp_ret, HF. }
  eapply (IH batches); [by apply (set_writer_ok _ _ wv)|done| |done|].
  - cbn. rewrite len_app. replace (_ + _ + 1) with (rv_upto r + len (wv_log wv) + len (wv_pend wv) + 1 + len b) by lia. done.
  - cbn. by rewrite <- app_assoc.
Qed.
Lemma complete_append_ok frames pages rest w g r wv (Q : WalFile -> ghost -> Prop) :
  writer g r wv -> wv_init wv = true -> wv_pend wv = pages ++ rest ->
  frames_at (rv_upto r + len (wv_log wv) + 1) frames pages -> rv_upto r + len (wv_log wv) + len pages <= U32_MAX ->
  (forall n ck, Q (set_cursor n ck w) (set_writer (MkWriter (wv_log wv ++ pages) rest true (wv_page_size wv) (wv_seq wv)) g)) ->
  wpp page_sz (complete_append_frames frames w) g Q.
Proof.
  revert pages w g wv. induction frames as [|f frames IH]; intros [|[p d] pages] w g wv Hwr Hini Hp Hat Hle HQ; try done;
    cbn [complete_append_frames].
  { apply wpp_ret. specialize (HQ (wal_max_frame w) (wal_last_checksum w)). rewrite app_nil_r in HQ. destruct w, wv, Hwr, g.
    cbn in *. by subst. }
  destruct Hat as (Hid & Hpg & He & Hat). rewrite Hid, Hpg. rewrite len_cons in Hle. assert (Hl := len_nonneg pages).
  apply wpp_bind, (wpp_cache_frame _ _ r wv p d (pages ++ rest)); [done|done|done|lia|].
  eapply (IH pages); [by apply (set_writer_ok _ _ wv)|done|done| |cbn; rewrite len_app, len_cons, len_nil; lia|].
  - eapply frames_at_eq; [exact Hat|]. cbn. rewrite len_app, len_cons, len_nil. lia.
  - intros n ck. cbn. rewrite <- app_assoc. apply (HQ n ck).
Qed.
Lemma commit_prepared_ok ps batches w g r wv (Q : WalFile -> ghost -> Prop) :
  writer g r wv -> wv_init wv = true -> wv_pend wv = concat batches ->
  prepared_at (rv_upto r + len (wv_log wv) + 1) ps batches -> rv_upto r + len (wv_log wv) + len (concat batches) <= U32_MAX ->
  wal_max_frame w = rv_upto r + len (wv_log wv) ->
  (forall ck, Q (set_cursor (rv_upto r + len (wv_log wv ++ concat batches)) ck w)
    (set_writer (MkWriter (wv_log wv ++ concat batches) [] true (wv_page_size wv) (wv_seq wv)) g)) ->
  wpp page_sz (commit_prepared_frames ps w) g Q.
Proof.
  revert batches w g wv. induction ps as [|p ps IH]; intros [|b batches] w g wv Hwr Hini Hp Hat Hle Hmax HQ; try done;
    cbn [commit_prepared_frames concat] in *.
  { apply wpp_ret. specialize (HQ (wal_last_checksum w)). rewrite app_nil_r in HQ. rewrite <- Hmax in HQ. destruct w, wv, Hwr, g.
    cbn in *. by subst. }
  destruct Hat as (Hat & Hf & Hats). rewrite len_app in Hle. assert (Hl := len_nonneg (concat batches)).
  apply wpp_bind, (complete_append_ok _ b (concat batches) _ _ r wv); [done|done|done|done|lia|]. intros n ck.
  eapply (IH batches); [by apply (set_writer_ok _ _ wv)|done|done|..]; cbn [wv_log wv_page_size wv_seq].
  - rewrite len_app. replace (_ + _ + 1) with (rv_upto r + len (wv_log wv) + 1 + len b) by lia. done.
  - rewrite len_app. lia.
  - cbn. rewrite len_app. lia.
  - intros ck'. rewrite <- app_assoc. apply (HQ ck').
Qed.

Lemma publish_ok ps batches db_size sp w g r wv :
  writes w g r wv -> wv_init wv = true -> wv_pend wv = concat batches -> batches <> [] ->
  prepared_at (rv_upto r + len (wv_log wv) + 1) ps batches -> rv_upto r + len (wv_log wv) + len (concat batches) <= U32_MAX ->
  wal_max_frame w = rv_upto r + len (wv_log wv) ->
  g_phase g = PBusy (OCommit batches db_size) (MWrite (rv_content r) (wv_log wv) false sp) ->
  wpp page_sz (w ← commit_prepared_frames ps w; w ← finish_append_frames_commit w; mret (inl tt : reply unit, w)) g (fun x g' =>
    x.1 = inl tt /\ done_with (OCommit batches db_size) (RUnit (inl tt), (ClWrite false false None, x.2)) g').
Proof.
  intros Hwt Hini Hp Hne Hat Hle Hmax Hph. assert (Hwr := writes_writer _ _ _ _ Hwt).
  apply wpp_bind, (commit_prepared_ok _ batches _ _ r wv); [done..|]. intros ck.
  set (wv' := MkWriter _ [] _ _ _). apply wpp_bind. unfold finish_append_frames_commit.
  apply wpp_bind, (wpp_publish_commit _ _ r wv' batches db_size (wv_log wv) sp);
    [by apply (set_writer_ok _ _ wv)|done|done|done|done|].
  apply wpp_ret, wpp_ret. split; [done|]. eexists. split; [done|]. destruct Hwt as [[] ? ?].
  exists (MkView (rv_slot r) (rv_from r) (rv_upto r + len (wv_log wv')) (apply_log (rv_content r) (wv_log wv'))),
    (MkWriter [] [] true (wv_page_size wv) (wv_seq wv)), false, None.
  split_and!; [done| |done|done|done|done|done|cbn; congruence|done|cbn; rewrite len_nil; lia].
  by constructor.
Qed.
Lemma commit_ok big batches db_size cl w m g :
  g_phase g = PBusy (OCommit batches db_size) m -> idle cl w m g -> call_ok (OCommit batches db_size) cl w = true ->
  wpp page_sz (commit_wal big page_sz batches db_size w) g (fun x g' => done_with (OCommit batches db_size)
    (RUnit x.1, (match cl with
                 | ClWrite dirty failed sp =>
                     if is_inl x.1 && negb (bool_decide (batches = [])) then ClWrite false false None
                     else ClWrite dirty failed sp
                 | _ => cl
                 end, x.2)) g').
Proof.
  intros Hph Hid Hok. destruct m as [|c|c log failed sp]; [by destruct Hid as (-> & _)..|].
  apply writes_idle_inv in Hid as (r & wv & dirty & sp' & -> & Hwt & -> & -> & Hpend & Hdirty & Hsp & Hmax).
  destruct failed; [done|]. cbn in Hok. zbool. specialize (Hmax eq_refl). apply wpp_post.
  assert (Hkeep : forall res w' g' r' wv', writes w' g' r' wv' -> same_view r r' -> wv_log wv' = wv_log wv ->
    wv_seq wv' = wv_seq wv -> wal_max_frame w' = wal_max_frame w -> g_phase g' = g_phase g -> res = inr IOError \/ batches = [] /\ res = inl tt ->
    wpp page_sz (mret (res, w')) g' (fun x g' => exists g'', upd page_sz g' g'' /\ done_with (OCommit batches db_size)
      (RUnit x.1, (if is_inl x.1 && negb (bool_decide (batches = [])) then ClWrite false false None
                     else ClWrite dirty false sp', x.2)) g'')).
  { intros res w' g' r' wv' Hwt' (_ & Hup & Hc) Hl' Hs' Hm' Hp' Hr.
    destruct (writes_drop_pend _ _ _ _ Hwt') as (wv3 & Hu & Hwt3 & Hl3 & Hp3 & Hs3).
    apply (wpp_ret_upd _ _ _ _ Hu). cbn [fst snd].
    assert (is_inl res && negb (bool_decide (batches = [])) = false) as ->
      by (destruct Hr as [-> |[-> ->]]; [done|by rewrite bool_decide_true]).
    eapply (writes_done _ _ _ r' wv3 _ _ _ sp); [done|done|by rewrite Hl3, Hl'| | |by rewrite <- Hph, <- Hp'|].
    - eapply savepoint_extend; [done|done|by rewrite Hl3, Hl'|congruence].
    - intros _. by rewrite Hm', Hmax, Hl3, Hl', Hup.
    - intros alone com. rewrite Hl3, Hl', Hc. destruct Hr as [-> |[-> ->]]; constructor. }
  apply wpp_bind, (prepare_wal_ok big w g r wv); [done|done|done|]. intros init wv1 w1 (Hl1 & Hp1 & Hs1 & Hi1) Hwt1 Hm1.
  destruct init; [|by apply (Hkeep _ _ _ r wv1); [..|left]]. cbn beta iota. destruct batches as [|b bs] eqn:Hbs.
  { apply (Hkeep _ _ _ r wv1); [..|right]; done. }
  rewrite <- Hbs in *. assert (Hne : batches <> []) by congruence. clear b bs Hbs.
  apply wpp_bind, (prepare_batches_ok _ _ _ (rv_upto r + len (wv_log wv1) + 1) _ _ r wv1); [done|done| |congruence|done|].
  { rewrite forallb_forall in *. intros b Hb. unfold batch_ok. rewrite !andb_true_iff. specialize (H b Hb). specialize (H1 b Hb).
    rewrite andb_true_iff in H1. naive_solver. }
  intros ps w2 r2 Hats Hsv Hwt2 Hm2. cbn beta iota. assert (Hwr2 := writes_writer _ _ _ _ Hwt2). destruct Hsv as (Hsl & Hup & Hc).
  apply wpp_bind, (write_batches_ok _ batches _ r2 wv1); [done|done|by rewrite Hup, Hp1, len_nil, Z.add_0_r| |].
  { intros pend. cbn [negb]. eapply Hkeep; [by eapply writes_set_writer|done|cbn; done|done|congruence|done|by left]. }
  rewrite Hp1. cbn [app negb]. set (wv2 := MkWriter _ _ _ _ _). set (g2 := set_writer wv2 _).
  assert (Hwt3 : writes w2 g2 r2 wv2) by (by eapply writes_set_writer).
  apply wpp_bind, wpp_io_id; cbn [negb].
  { eapply Hkeep; [done|done|cbn; done|done|congruence|done|by left]. }
  eapply wpp_mono; [apply (publish_ok _ batches db_size sp _ _ r2 wv2)|]; [done|done|done|done|..|];
    change (wv_log wv2) with (wv_log wv1); rewrite ?Hup; [done|rewrite Hl1; lia|rewrite Hl1; lia| |].
  { cbn. by rewrite Hph, Hc, Hl1. }
  intros [x w3] g3 [Hx Hd]. cbn in Hx, Hd. subst x. exists g3. split; [apply upd_refl|]. cbn [fst snd is_inl andb].
  by rewrite bool_decide_false by done.
Qed.

(** ** Rolling back *)

Lemma rollback_to_ok to k w g r wv (Q : WalFile -> ghost -> Prop) :
  writes w g r wv -> (k <= length (wv_log wv))%nat ->
  match to with Some pos => pos_frame pos = rv_upto r + Z.of_nat k /\ pos_checkpoint_seq pos = wv_seq wv | None => k = 0%nat end ->
  (forall wv' w', writes w' (set_writer wv' g) r wv' -> wv_log wv' = take k (wv_log wv) -> wv_pend wv' = [] ->
    wv_seq wv' = wv_seq wv -> wal_max_frame w' = rv_upto r + Z.of_nat k -> Q w' (set_writer wv' g)) ->
  wpp page_sz (rollback to w) g Q.
Proof.
  intros Hwt Hk Hto HQ. assert (Hwr := writes_writer _ _ _ _ Hwt). unfold rollback.
  apply wpp_bind, (wpp_writer_load _ _ _ r wv); [done|]. intros sh Hmax _ _ _ _ _ Hseq.
  apply wpp_bind, wpp_passert.
  { destruct to as [pos|]; [|done]. destruct Hto as [Hf Hs]. cbn. rewrite Hs, Hseq, Z.eqb_refl. apply Z.leb_le. lia. }
  cbn zeta. set (max := match to with Some r => pos_frame r | None => _ end).
  assert (Hm : max = rv_upto r + Z.of_nat k) by (destruct to; [by destruct Hto|cbn in *; lia]). rewrite Hm.
  apply wpp_bind, (wpp_rollback_cache _ _ r wv); [done|done|]. apply wpp_ret, HQ; try done. by apply (writes_set _ _ _ wv).
Qed.
Lemma wal_rollback_ok cl w m g :
  g_phase g = PBusy ORollback m -> idle cl w m g -> call_ok ORollback cl w = true ->
  wpp page_sz (rollback None w) g (fun w' g' => done_with ORollback (RUnit (inl tt), (ClWrite false false None, w')) g').
Proof.
  intros Hph Hid Hok. destruct m as [|c|c log failed sp]; [by destruct Hid as (-> & _)..|].
  apply writes_idle_inv in Hid as (r & wv & dirty & sp' & -> & Hwt & -> & -> & Hpend & Hdirty & Hsp & Hmax).
  apply wpp_post, (rollback_to_ok _ 0 _ _ r wv); [done|lia|done|]. intros wv' w' Hwt' Hl Hp Hs Hm.
  eapply (writes_done _ _ _ r wv' _ _ _ None); [done|done|by rewrite Hl|done|by rewrite Hl, Hm|done|].
  rewrite Hl. constructor.
Qed.
Lemma rollback_savepoint_ok dirty failed pos w m g :
  g_phase g = PBusy ORollbackTo m -> idle (ClWrite dirty failed (Some pos)) w m g ->
  wpp page_sz (rollback (Some pos) w) g (fun w' g' =>
    done_with ORollbackTo (RUnit (inl tt), (ClWrite dirty false (Some pos), w')) g').
Proof.
  intros Hph Hid. destruct m as [|c|c log f sp]; [by destruct Hid as (? & _)..|].
  apply writes_idle_inv in Hid as (r & wv & d & sp' & [= -> -> <-] & Hwt & -> & -> & Hpend & Hdirty & Hsp & Hmax).
  destruct sp as [k|]; [|done]. destruct Hsp as (Hf & Hk & Hsq).
  apply wpp_post, (rollback_to_ok _ k _ _ r wv); [done|done|done|]. intros wv' w' Hwt' Hl Hp Hs Hm.
  eapply (writes_done _ _ _ r wv' _ _ _ (Some k)); [done|done| | |rewrite Hl, Hm; unfold len; rewrite length_take; lia|done|].
  - intros Hd. by rewrite Hl, (Hdirty Hd), take_nil.
  - cbn. rewrite Hl, length_take. split_and!; [done|lia|congruence].
  - rewrite Hl. constructor.
Qed.
Lemma savepoint_ok dirty sp' w m g :
  g_phase g = PBusy OSavepoint m -> idle (ClWrite dirty false sp') w m g ->
  exists g', upd page_sz g g' /\
    done_with OSavepoint (RUnit (inl tt), (ClWrite dirty false (Some (connection_wal_pos w)), w)) g'.
Proof.
  intros Hph Hid. destruct m as [|c|c log f sp]; [by destruct Hid as (? & _)..|].
  apply writes_idle_inv in Hid as (r & wv & d & sp'' & [= -> <- <-] & Hwt & -> & -> & Hpend & Hdirty & Hsp & Hmax).
  specialize (Hmax eq_refl).
  eapply (writes_done _ _ _ r wv _ _ _ (Some (length (wv_log wv)))); [done|done|done| |done|done|constructor].
  cbn. split_and!; [done|done|apply Hwt].
Qed.
End ops.
