(* ===== verification/WalCkOps.v ===== *)
(** Checkpoints, proved with the rules of WalCkRules.v: in any interleaving in which the
    count a checkpoint starts from is still current when it gets its guard, it does not
    panic and changes nothing that a transaction sees. *)

From stdpp Require Import base list gmap numbers relations functions sorting.
From Stdlib Require Import ZArith Lia.
From S2P Require Import Prelude WalFormat RwLock Steps WalCoord WalSpec WalInv WalAccess WalRules WalCkRules WalOps.

(** * The guard *)

(** A connection between its calls, as far as a checkpoint cares. *)
Record settled (g : ghost) : Prop := {
  st_ck : g_ck g = CkNone;
  st_find : g_find g = None;
  st_lock : g_held g LCheckpoint = HNone;
  st_read r : g_read g = Some r -> g_held g (LRead (rv_slot r)) = HRead;
  st_write : g_write g <> None -> g_held g LWrite = HWrite;
  st_phase : writing (phase_mode (g_phase g)) = true -> g_held g LWrite = HWrite
}.
(** The locks of the guard on top of those held, and the connection that holds it. *)
Definition guard_held (gd : CheckpointGuard) (f : lockname -> held) : lockname -> held :=
  match gd with
  | GuardWriter => <[LWrite := HWrite]> (<[LRead 0 := HWrite]> (<[LCheckpoint := HWrite]> f))
  | GuardRead0 => <[LRead 0 := HWrite]> (<[LCheckpoint := HWrite]> f)
  end.
Definition with_guard (gd : CheckpointGuard) (ck : ckphase) (g : ghost) : ghost :=
  with_ck ck (with_held (guard_held gd (g_held g)) g).
Definition guard_free (gd : CheckpointGuard) (g : ghost) : Prop :=
  g_held g (LRead 0) = HNone /\ (gd = GuardWriter -> g_held g LWrite = HNone).

Lemma settled_off g : settled g -> g_held g (LRead 0) = HNone -> off_db_file g.
Proof. intros Hg Hl r Hr Hs. assert (H := st_read _ Hg r Hr). congruence. Qed.
Lemma with_guard_guarded gd ck g : settled g -> guard_free gd g -> guarded (with_guard gd ck g).
Proof.
  intros Hg [Hl _]. constructor; [destruct gd; hlook|by apply (settled_off g)|apply Hg].
Qed.

Section checkpoint_ops.
Context (page_sz : Z).

Lemma release_ok gd ck g (Q : unit -> ghost -> Prop) :
  settled g -> guard_free gd g -> Q tt g -> wpp page_sz (release_checkpoint_guard gd) (with_guard gd ck g) Q.
Proof.
  intros Hg [Hl Hw] HQ. eapply wpp_upd; [apply upd_drop_ck|].
  assert (Hr0 : wpp page_sz (_ ← unlock_read_mark 0; unlock_checkpoint_lock)
    (with_ck CkNone (with_held (<[LRead 0 := HWrite]> (<[LCheckpoint := HWrite]> (g_held g))) g)) Q).
  { apply wpp_bind, (wpp_unlock_to page_sz _ (<[LCheckpoint := HWrite]> (g_held g))); [hlook| |hsame; congruence|].
    { cbn. split_and!; [left; hlook|right; by apply (settled_off g)|done]. }
    apply (wpp_unlock_to page_sz _ (g_held g)); [hlook|done|hsame; by rewrite (st_lock _ Hg)|].
    assert (Hck := st_ck _ Hg). destruct g. cbn in *. by subst. }
  destruct gd; [|exact Hr0]. cbn [release_checkpoint_guard].
  apply wpp_bind, (wpp_unlock_to page_sz _ (<[LRead 0 := HWrite]> (<[LCheckpoint := HWrite]> (g_held g)))); [hlook| |hsame|exact Hr0].
  - cbn. split_and!; [|done|done]. destruct (g_write g) eqn:Hwr; [|done]. exfalso.
    assert (H := st_write _ Hg). rewrite (Hw eq_refl), Hwr in H. by discriminate H.
  - by rewrite (Hw eq_refl).
Qed.

Lemma unlock_checkpoint_ok g (Q : unit -> ghost -> Prop) :
  settled g -> Q tt g -> wpp page_sz unlock_checkpoint_lock (with_held (<[LCheckpoint := HWrite]> (g_held g)) g) Q.
Proof.
  intros Hg HQ. apply (wpp_unlock_to page_sz _ (g_held g)); [hlook|done|hsame; by rewrite (st_lock _ Hg)|].
  by rewrite with_held_twice, with_held_id.
Qed.
Lemma acquire_ok mode nb g (Q : reply CheckpointGuard -> ghost -> Prop) :
  settled g -> Q (inr Busy) g ->
  (forall gd, guard_free gd g -> (require_all_backfilled mode = true -> gd = GuardWriter) ->
    Q (inl gd) (with_guard gd (CkGuard nb) g)) ->
  wpp page_sz (acquire_checkpoint_guard mode nb) g Q.
Proof.
  intros Hg HF HT. unfold acquire_checkpoint_guard.
  apply wpp_bind, wpp_try_lock; [by right|apply Hg|by apply wpp_ret|]. cbn [negb]. apply wpp_bind.
  set (g1 := with_held _ g). assert (Hback : wpp page_sz (_ ← unlock_checkpoint_lock; mret (inr Busy)) g1 Q)
    by (apply wpp_bind, unlock_checkpoint_ok; [done|by apply wpp_ret]).
  destruct (decide (g_held g (LRead 0) = HNone)) as [Hl|Hl]; [|by apply wpp_try_denied; [hlook|]].
  apply wpp_guard; [hlook|apply Hg|done|]. cbn [negb]. fold (with_guard GuardRead0 (CkGuard nb) g).
  assert (Hfree : guard_free GuardRead0 g) by done.
  assert (Hdenied : wpp page_sz (_ ← unlock_read_mark 0; _ ← unlock_checkpoint_lock; mret (inr Busy)) (with_guard GuardRead0 (CkGuard nb) g) Q /\
    wpp page_sz (_ ← unlock_checkpoint_lock; _ ← unlock_read_mark 0; mret (inr Busy)) (with_guard GuardRead0 (CkGuard nb) g) Q).
  { split; (eapply wpp_upd; [apply upd_drop_ck|]).
    - apply wpp_bind, (wpp_unlock_to page_sz _ (<[LCheckpoint := HWrite]> (g_held g))); [hlook| |hsame; congruence|].
      { cbn. split_and!; [left; hlook|right; by apply (settled_off g)|done]. }
      assert (Hck := st_ck _ Hg). clear - Hback Hck. subst g1. destruct g. cbn in Hck. by subst.
    - apply wpp_bind, (wpp_unlock_to page_sz _ (<[LRead 0 := HWrite]> (g_held g))); [hlook|done|hsame; by rewrite (st_lock _ Hg)|].
      apply wpp_bind, (wpp_unlock_to page_sz _ (g_held g)); [hlook| |hsame; congruence|].
      { cbn. split_and!; [left; hlook|right; by apply (settled_off g)|done]. }
      apply wpp_ret. assert (Hck := st_ck _ Hg). destruct g. cbn in *. by subst. }
  assert (Hwlock : forall k, wpp page_sz k (with_guard GuardRead0 (CkGuard nb) g) Q ->
    wpp page_sz (ok ← try_write_lock; if ok : bool then mret (inl GuardWriter) else k) (with_guard GuardRead0 (CkGuard nb) g) Q).
  { intros k Hk. apply wpp_bind. destruct (decide (g_held g LWrite = HNone)) as [Hw|Hw]; [|by apply wpp_try_denied; [hlook|]].
    apply wpp_try_lock; [by right|hlook|done|]. apply wpp_ret, HT; done. }
  destruct Hdenied. destruct mode; [apply wpp_ret, HT; done|by apply Hwlock..].
Qed.

(** * The copy *)

Lemma with_guard_lookup gd ck g k : k <> 0%nat -> g_held (with_guard gd ck g) (LRead k) = g_held g (LRead k).
Proof. intros Hk. destruct gd; cbn -[insert]; by rewrite !fn_lookup_insert_ne by congruence. Qed.
Lemma max_safe_loop_ok slots gd nb m k g (Q : Z -> ghost -> Prop) :
  settled g -> guard_free gd g -> slots = seq k (5 - k) -> (1 <= k)%nat -> 0 <= m <= U32_MAX ->
  (forall m' k', (5 <= k')%nat -> 0 <= m' <= m -> Q m' (with_guard gd (CkDet nb m' k') g)) ->
  wpp page_sz (max_safe_loop slots m) (with_guard gd (CkDet nb m k) g) Q.
Proof.
  intros Hg Hfree. revert m k. induction slots as [|s slots IH]; intros m k Hs Hk Hm HQ; cbn [max_safe_loop].
  { apply wpp_ret, HQ; [|lia]. destruct (5 - k)%nat eqn:He; [lia|done]. }
  assert (s = k /\ slots = seq (Datatypes.S k) (5 - Datatypes.S k)) as [-> Hs'].
  { destruct (5 - k)%nat as [|n] eqn:He; [done|]. cbn in Hs. injection Hs as -> ->. split; [done|]. f_equal. lia. }
  apply wpp_bind, (wpp_det_mark _ _ nb m k); [done|done|]. intros v Hv. rewrite wrap32_small by done.
  destruct (Z.ltb_spec v m).
  - assert (Hlow : wpp page_sz (max_safe_loop slots v) (with_guard gd (CkMark nb m k v) g) Q).
    { eapply wpp_upd; [apply (upd_det_lower _ _ nb m k v); [done|lia]|]. apply (IH v); [done|lia|lia|].
      intros. apply HQ; lia. }
    apply wpp_bind. destruct (decide (g_held g (LRead k) = HNone)) as [Hl|Hl];
      [|apply wpp_try_denied; [rewrite <- (with_guard_lookup gd (CkMark nb m k v) g k) in Hl by lia; exact Hl|exact Hlow]].
    apply wpp_try_lock; [by right|rewrite <- Hl; apply with_guard_lookup; lia|exact Hlow|].
    set (g' := with_held _ _). apply wpp_bind, wpp_set_mark; [subst g'; hlook| |].
    { case_match; [done|by unfold READMARK_NOT_USED, U32_MAX]. }
    eapply wpp_upd; [apply (upd_det_free _ _ nb m k v); [done|subst g'; hlook|]|].
    { intros r Hr Hrk. assert (H' := st_read _ Hg r Hr). by rewrite Hrk, Hl in H'. }
    apply wpp_bind, (wpp_unlock_mark _ _ (guard_held gd (g_held g))); [subst g'; hlook|lia| |].
    { intros l. subst g'. cbn -[insert]. destruct (decide (LRead k = l)) as [<-|?].
      - rewrite fn_lookup_insert, <- Hl. apply (with_guard_lookup gd CkNone). lia.
      - by rewrite !fn_lookup_insert_ne by done. }
    apply (IH m (Datatypes.S k)); [done|lia|done|done].
  - eapply wpp_upd; [apply (upd_det_skip _ _ nb m k v); done|]. apply (IH m (Datatypes.S k)); [done|lia|done|done].
Qed.
Lemma determine_ok gd nb g (Q : Z -> ghost -> Prop) :
  settled g -> guard_free gd g ->
  (forall m k, (5 <= k)%nat -> 0 <= m -> Q m (with_guard gd (CkDet nb m k) g)) ->
  wpp page_sz determine_max_safe_checkpoint_frame (with_guard gd (CkGuard nb) g) Q.
Proof.
  intros Hg Hfree HQ. unfold determine_max_safe_checkpoint_frame.
  apply wpp_bind, (wpp_det_start _ _ nb); [by apply with_guard_guarded|done|]. intros s Hs.
  apply wpp_bind, wpp_passert; [apply Z.leb_le; lia|].
  apply (max_safe_loop_ok _ gd nb _ 1); [done|done|done|lia|lia|]. intros. apply HQ; [done|lia].
Qed.
Lemma copy_loop_ok n gd nb m todo buf g (Q : bool -> ghost -> Prop) :
  settled g -> guard_free gd g -> (2 * length todo + length buf = n)%nat ->
  (forall ck, Q false (with_guard gd ck g)) -> Q true (with_guard gd (CkCopy nb m [] []) g) ->
  wpp page_sz (copy_loop n todo buf) (with_guard gd (CkCopy nb m todo buf) g) Q.
Proof.
  intros Hg Hfree. revert todo buf. induction n as [|n IH]; intros todo buf Hn HF HT; cbn [copy_loop].
  { destruct todo, buf; cbn in Hn; try lia. by apply wpp_ret. }
  apply wpp_bind, (wpp_copy_step _ _ nb m todo buf); [by apply with_guard_guarded|done|apply wpp_ret, HF|].
  intros todo' buf' Hlen. apply IH; [lia|done|done].
Qed.

(** * The restart and the phases after the copy *)

Lemma restart_ok w g :
  settled g -> guard_free GuardWriter g ->
  wpp page_sz (r ← begin_restart;
               match r with
               | inl snapshot => _ ← end_restart; mret (inl tt : reply unit, apply_restart_snapshot snapshot w)
               | inr e => mret (inr e, w)
               end) (with_guard GuardWriter CkAll g) (fun x g' =>
    (exists e, x = (inr e, w) /\ g' = with_guard GuardWriter CkAll g) \/
    exists s, x = (inl tt, apply_restart_snapshot s w) /\ g_read g = None /\ g' = with_guard GuardWriter CkReset g).
Proof.
  intros Hg Hfree. assert (Hfree' := Hfree). destruct Hfree' as [Hl Hw]. specialize (Hw eq_refl).
  assert (Hgd := with_guard_guarded GuardWriter CkAll g Hg Hfree). set (f := guard_held GuardWriter (g_held g)).
  unfold begin_restart. apply wpp_bind, wpp_bind.
  eapply wpp_upd; [apply (upd_held _ _ (hold_marks [] f)); intros []; done|].
  change (with_held (hold_marks [] f) (with_guard _ _ g)) with (with_held (hold_marks [] f) (with_ck CkAll g)).
  apply lock_marks_ok; [constructor|apply mark_slots_ok|apply mark_slots_nodup|by intros ? ?%elem_of_nil| |].
  - cbn [negb]. apply wpp_ret, wpp_ret. left. by eexists.
  - intros Hf. cbn [negb app] in *.
    assert (Hnw : g_write g = None).
    { destruct (g_write g) eqn:Hwr; [|done]. assert (H := st_write _ Hg). rewrite Hw, Hwr in H. by discriminate H. }
    apply wpp_restart_checkpoint; [|done|done| | |].
    + constructor; [done|apply Hgd|apply Hgd].
    + split; [done|]. intros s Hs. cbn -[insert]. case_decide as Hd; [done|].
      assert (s = 0%nat) as -> by (unfold mark_slots in Hd; rewrite !elem_of_cons, elem_of_nil in Hd; lia). unfold f. hlook.
    + cbn. destruct (writing _) eqn:Hp; [|done]. assert (H := st_phase _ Hg Hp). congruence.
    + intros s Hr. apply wpp_bind, (unlock_marks_ok _ _ f (with_ck CkReset g)); [apply mark_slots_ok|apply mark_slots_nodup|done|].
      apply wpp_ret. right. by exists s.
Qed.

(** What a checkpoint that keeps its guard leaves. *)
Definition copied_as (mode : CheckpointMode) (nb : Z) (res : CheckpointResult) (ck : ckphase) : Prop :=
  if should_restart_log mode then ck = CkReset
  else ck = CkCopy nb (wal_total_backfilled res) [] [] /\ wal_total_backfilled res <= wal_max_frame_after res /\
       wal_checkpoint_backfilled res = Z.max 0 (wal_total_backfilled res - nb).
Definition guarded_post (mode : CheckpointMode) (nb : Z) (w : WalFile) (gd : CheckpointGuard) (g : ghost)
    (x : reply CheckpointResult * WalFile) (g' : ghost) : Prop :=
  (x.2 = w \/ g_read g = None /\ exists s, x.2 = apply_restart_snapshot s w) /\
  match x.1 with
  | inr _ => exists ck, g' = with_guard gd ck g
  | inl res =>
      match maybe_guard res with
      | None => g' = g /\ should_restart_log mode = false /\ wal_checkpoint_backfilled res = 0
      | Some gd' => gd' = gd /\ exists ck, g' = with_guard gd ck g /\ copied_as mode nb res ck
      end
  end.
Lemma checkpoint_guarded_ok mode nb gd w g :
  settled g -> guard_free gd g -> (require_all_backfilled mode = true -> gd = GuardWriter) ->
  match mode with Passive (Some upper) => 0 <= upper | _ => True end ->
  wpp page_sz (checkpoint_guarded mode nb gd w) (with_guard gd (CkGuard nb) g) (guarded_post mode nb w gd g).
Proof.
  intros Hg Hfree Hgd Hup. unfold checkpoint_guarded.
  assert (Herr : forall e ck, wpp page_sz (mret (inr e, w)) (with_guard gd ck g) (guarded_post mode nb w gd g))
    by (intros e ck; apply wpp_ret; split; [by left|by eexists]).
  apply wpp_bind, determine_ok; [done|done|]. intros m k Hk Hm.
  destruct (match mode with Truncate (Some upper) => upper <? m | _ => false end); [apply Herr|].
  cbn zeta. set (max := match mode with Passive (Some upper) => Z.min m upper | _ => m end).
  assert (Hmax : 0 <= max <= m) by (subst max; clear - Hm Hup; destruct mode as [[]| | |]; lia).
  apply wpp_bind, (wpp_iter_latest _ _ nb m max k); [by apply with_guard_guarded|done|done|done|]. intros todo.
  apply wpp_bind, (copy_loop_ok _ gd nb max); [done|done|cbn; lia|intros ck; apply Herr|]. cbn [negb].
  set (g1 := with_guard gd _ g). apply wpp_bind. destruct (should_restart_log mode) eqn:Hrs.
  - assert (gd = GuardWriter) as -> by (apply Hgd; by destruct mode).
    assert (Hall : require_all_backfilled mode = true) by by destruct mode. rewrite Hall. cbn [andb].
    apply (wpp_copied_all _ _ nb max); [done|subst g1; hlook| |].
    2: { intros s Hs. unfold everything_backfilled. cbn. rewrite (proj2 (Z.eqb_neq _ _)) by done. apply Herr. }
    intros s Hs. unfold everything_backfilled. cbn [wal_max_frame_after wal_total_backfilled]. rewrite Hs, Z.eqb_refl. cbn [negb].
    apply wpp_bind, wpp_bind, wpp_passert; [done|]. eapply wpp_mono; [by apply restart_ok|].
    intros x g' [(e & -> & ->)|(s' & -> & Hr & ->)]; [apply Herr|]. cbn beta iota.
    apply wpp_bind, wpp_bump_epoch. unfold should_truncate, everything_backfilled. cbn [wal_max_frame_after wal_total_backfilled].
    rewrite Z.eqb_refl. cbn [orb]. apply wpp_ret. split; [right; eauto|]. split; [done|]. exists CkReset. split; [done|].
    unfold copied_as. by rewrite Hrs.
  - apply (wpp_copied_load _ _ nb max [] []); [done|]. intros s _ Hs. destruct (_ && _); [apply Herr|].
    apply wpp_bind, wpp_ret. cbn beta iota. apply wpp_bind, wpp_bump_epoch. destruct (_ || _) eqn:Hb.
    + apply wpp_ret. split; [by left|]. split; [done|]. eexists. split; [done|]. unfold copied_as. rewrite Hrs. by split_and!.
    + apply orb_false_iff in Hb as [_ Hb%Z.ltb_ge]. apply wpp_bind, release_ok; [done|done|]. apply wpp_ret.
      split; [by left|]. cbn in *. split_and!; [done|done|lia].
Qed.
Lemma truncate_log_ok gd g (Q : bool -> ghost -> Prop) :
  settled g -> g_write g = None -> (forall b, Q b (with_guard gd CkReset g)) ->
  wpp page_sz truncate_log (with_guard gd CkReset g) Q.
Proof.
  intros Hg Hw HQ. assert (Hf := st_find _ Hg). unfold truncate_log. apply wpp_bind, wpp_reset_store; [done..|].
  apply wpp_bind, wpp_reset_truncate; [done..|apply wpp_ret, HQ|]. cbn [negb].
  apply wpp_bind, wpp_reset_store; [done..|]. apply wpp_io_id; apply HQ.
Qed.
Lemma publish_backfill_ok gd nb m g (Q : unit -> ghost -> Prop) :
  settled g -> guard_free gd g -> nb <= m -> Q tt (with_guard gd (CkGuard m) g) ->
  wpp page_sz (publish_backfill m) (with_guard gd (CkCopy nb m [] []) g) Q.
Proof.
  intros Hg Hfree Hm HQ. unfold publish_backfill. apply wpp_bind, (wpp_copied_load _ _ nb m [] []); [done|]. intros s Hn Hs.
  apply wpp_bind, wpp_passert; [rewrite andb_true_iff, !Z.leb_le; lia|].
  by apply (wpp_publish_backfill _ _ nb m); [apply with_guard_guarded|..].
Qed.
Lemma phases_ok mode sync nb gd res ck g (Q : bool -> ghost -> Prop) :
  settled g -> guard_free gd g -> g_write g = None \/ should_restart_log mode = false -> copied_as mode nb res ck ->
  (forall b ck, Q b (with_guard gd ck g)) ->
  wpp page_sz (checkpoint_phases mode sync res) (with_guard gd ck g) Q.
Proof.
  intros Hg Hfree Hw Hck HQ. unfold checkpoint_phases.
  assert (Htr : should_restart_log mode = true -> wpp page_sz truncate_log (with_guard gd ck g) Q).
  { intros Hr. unfold copied_as in Hck. rewrite Hr in Hck. subst ck. apply truncate_log_ok; [done| |done].
    destruct Hw; [done|congruence]. }
  assert (Hpost : wpp page_sz (post_sync mode res) (with_guard gd ck g) Q).
  { unfold post_sync. destruct (0 <? wal_checkpoint_backfilled res) eqn:Hb; cbn [andb];
      [|destruct mode; (apply wpp_ret, HQ) || by apply Htr].
    destruct (should_restart_log mode) eqn:Hr; cbn [negb]; [destruct mode; (apply wpp_ret, HQ) || by apply Htr|].
    unfold copied_as in Hck. rewrite Hr in Hck. destruct Hck as (-> & Hle & Hbf). zbool.
    apply wpp_bind, wpp_io_id; cbn [negb]; [apply wpp_ret, HQ|]. apply wpp_bind, wpp_passert; [by apply Z.leb_le|].
    apply wpp_bind, publish_backfill_ok; [done|done|lia|]. apply wpp_ret, HQ. }
  assert (Hsync : wpp page_sz (ok ← io id; if negb ok then mret false else post_sync mode res) (with_guard gd ck g) Q)
    by (apply wpp_bind, wpp_io_id; cbn [negb]; [apply wpp_ret, HQ|done]).
  destruct mode; cbn -[post_sync truncate_log]; repeat case_match; try done; try (apply wpp_ret, HQ); by apply Htr.
Qed.

Lemma idle_settled cl w m g : idle cl w m g -> writing (phase_mode (g_phase g)) = writing m -> settled g.
Proof.
  intros Hid Hph. destruct m as [|c|c log failed sp].
  - destruct Hid as (_ & (_ & Hr & Hf & Hw & Hck) & _ & _ & _ & Hl). constructor; try done; try congruence.
    by rewrite Hph.
  - destruct Hid as (_ & Hw & r & Hs & _). assert (Hl := as_held _ _ _ _ Hs). constructor; [apply Hs..|by rewrite Hl| |done|by rewrite Hph].
    intros r' Hr. rewrite (as_read _ _ _ _ Hs) in Hr. injection Hr as <-. rewrite Hl. cbn. by rewrite decide_True.
  - destruct Hid as (r & wv & _ & _ & _ & Hs & _). assert (Hl := as_held _ _ _ _ Hs).
    constructor; [apply Hs..|by rewrite Hl| |by rewrite Hl|by rewrite Hl].
    intros r' Hr. rewrite (as_read _ _ _ _ Hs) in Hr. injection Hr as <-. rewrite Hl. cbn. by rewrite decide_True.
Qed.
(** Without a snapshot the position of the connection does not matter. *)
Lemma idle_restarted cl w s m g : idle cl w m g -> g_read g = None -> idle cl (apply_restart_snapshot s w) m g.
Proof.
  intros Hid Hr. destruct m as [|c|c log failed sp]; cbn in *; [done|exfalso..].
  - destruct Hid as (_ & _ & r & [] & _). congruence.
  - destruct Hid as (r & wv & _ & _ & _ & [] & _). congruence.
Qed.

(** * The checkpoint *)

Lemma phases_nothing mode sync res g (Q : bool -> ghost -> Prop) :
  should_restart_log mode = false -> wal_checkpoint_backfilled res = 0 -> Q true g ->
  wpp page_sz (checkpoint_phases mode sync res) g Q.
Proof. intros Hr Hb HQ. unfold checkpoint_phases. rewrite Hb. destruct mode; try done; by apply wpp_ret. Qed.
Lemma wal_checkpoint_ok mode sync w g (Q : reply CheckpointResult * WalFile -> ghost -> Prop) :
  settled g -> match mode with Passive (Some upper) => 0 <= upper | _ => True end ->
  (forall x w', w' = w \/ (g_read g = None /\ exists s, w' = apply_restart_snapshot s w) -> Q (x, w') g) ->
  wpp page_sz (checkpoint mode sync w) g Q.
Proof.
  intros Hg Hup HQ. unfold checkpoint, wal_checkpoint. apply wpp_bind, wpp_bind, wpp_snapshot. intros s Hnb _.
  destruct (negb _ && negb _) eqn:Hskip.
  { apply andb_prop in Hskip as [_ Hr%negb_true_iff]. apply wpp_ret. cbn beta iota.
    apply wpp_bind, phases_nothing; [done|done|]. apply wpp_bind, wpp_ret, wpp_ret. apply HQ. by left. }
  clear Hskip. apply wpp_bind, acquire_ok; [done|apply wpp_ret, wpp_ret, HQ; by left|]. intros gd Hfree Hgd. cbn beta iota.
  apply wpp_bind. eapply wpp_mono; [by apply checkpoint_guarded_ok|]. intros [[res|e] w'] g' [Hw' Hres]; cbn in Hw', Hres; cbn beta iota.
  2: { destruct Hres as [ck ->]. apply wpp_bind, release_ok; [done|done|]. by apply wpp_ret, wpp_ret, HQ. }
  apply wpp_ret. cbn beta iota. unfold release_result. destruct (maybe_guard res) as [gd'|].
  - destruct Hres as (-> & ck & -> & Hck). apply wpp_bind, (phases_ok _ _ (nbackfills s)); [done|done| |done|].
    + destruct (should_restart_log mode) eqn:Hr; [left|by right]. destruct (g_write g) eqn:Hwr; [exfalso|done].
      assert (gd = GuardWriter) as -> by (apply Hgd; by destruct mode). destruct Hfree as [_ Hl].
      assert (H := st_write _ Hg). rewrite (Hl eq_refl), Hwr in H. by discriminate H.
    + intros b ck'. apply wpp_bind, release_ok; [done|done|]. by apply wpp_ret, HQ.
  - destruct Hres as (-> & Hr & Hb). apply wpp_bind, phases_nothing; [done|done|]. by apply wpp_bind, wpp_ret, wpp_ret, HQ.
Qed.
Lemma checkpoint_ok mode sync cl w m g :
  g_phase g = PBusy (OCheckpoint mode sync) m -> idle cl w m g -> call_ok (OCheckpoint mode sync) cl w = true ->
  wpp page_sz (checkpoint mode sync w) g (fun x g' =>
    forall res, exists g'', upd page_sz g' g'' /\ done_with (OCheckpoint mode sync) (RCheckpoint res, (cl, x.2)) g'').
Proof.
  intros Hph Hid Hok. apply wal_checkpoint_ok; [apply (idle_settled cl w m); [done|by rewrite Hph]| |].
  { destruct mode as [[]| | |]; try done. by apply Z.leb_le. }
  intros x w' Hw res. exists (with_phase (PDone (OCheckpoint mode sync) (RCheckpoint res) m) g). split.
  - apply (upd_lin _ _ _ m); [done|by constructor|]. destruct m; try done. by destruct Hid as (? & ? & ? & ? & _ & _ & -> & _).
  - exists m. split; [done|]. apply idle_phase. destruct Hw as [-> |[Hr [s' ->]]]; [done|by apply idle_restarted].
Qed.

(** * Every call *)

(** A call of a connection, interleaved with any others, does not panic and takes effect
    once, as the specification says. *)
Lemma run_op_ok big o cl w m g :
  g_phase g = PBusy o m -> idle cl w m g -> call_ok o cl w = true ->
  wpp page_sz (run_op big page_sz o (cl, w)) g (done_with o).
Proof.
  intros Hph Hid Hok. destruct o; cbn [run_op]; try (apply wpp_bind).
  - destruct m as [| |]; [|by destruct Hid as (-> & _)|by destruct Hid as (? & ? & ? & ? & -> & _)].
    assert (cl = ClIdle) as -> by by destruct Hid. eapply wpp_mono; [by apply begin_read_loop_ok|].
    intros [r w'] g' Hd. by apply wpp_ret.
  - eapply wpp_mono; [apply (end_read_ok _ cl w m); [done|done|]|intros; by apply wpp_ret].
    destruct m; [done|done|]. by destruct Hid as (? & ? & ? & ? & -> & _).
  - eapply wpp_mono; [by apply (read_ok _ page cl w m)|intros; by apply wpp_ret].
  - eapply wpp_mono; [by apply (begin_write_ok _ restart cl w m)|intros [] ? ?; by apply wpp_ret].
  - eapply wpp_mono; [by apply (spill_ok _ big pages cl w m)|intros [] ? ?; by apply wpp_ret].
  - eapply wpp_mono; [by apply (commit_ok _ big batches db_size cl w m)|intros [] ? ?; by apply wpp_ret].
  - eapply wpp_mono; [by apply (wal_rollback_ok _ cl w m)|intros; by apply wpp_ret].
  - destruct cl as [| |dirty [] sp]; try done. destruct (savepoint_ok page_sz dirty sp w m g Hph Hid) as (g' & Hu & Hd).
    by apply (wpp_ret_upd _ _ _ _ _ Hu).
  - destruct cl as [| |dirty failed [pos|]]; try done. apply wpp_bind.
    eapply wpp_mono; [by apply (rollback_savepoint_ok _ dirty failed pos w m)|intros; by apply wpp_ret].
  - eapply wpp_mono; [by apply (end_write_ok _ cl w m)|intros; by apply wpp_ret].
  - eapply wpp_mono; [by apply (checkpoint_ok mode sync cl w m)|]. intros [r w'] g' Hd. apply wpp_post, wpp_ret. apply Hd.
Qed.
End checkpoint_ops.
