(* ===== verification/WalSafety.v ===== *)
(** The connections of WalCoord.v together implement the specification of WalSpec.v. *)

From stdpp Require Import base list gmap numbers relations functions sorting.
From Stdlib Require Import ZArith Lia.
From S2P Require Import Prelude WalFormat RwLock Steps WalCoord WalSpec WalInv WalAccess WalRules WalCkRules WalOps WalCkOps.

(** What the two files hold: the last committed frame of a page, or the database file. *)
Definition recovered (sh : WalShared) (p : Z) : list Z :=
  let f := latest (sh_wal sh) p (sh_max_frame sh) in
  if f =? 0 then sh_db sh p else default [] (wf_data <$> sh_wal sh !! f).

(** A connection in a write transaction. *)
Definition is_writing (c : conn) : Prop := match c.1 with ClWrite _ _ _ => True | _ => False end.

(** * Runs of the specification *)

Lemma spec_run_app s evs s' evs' s'' : spec_run s evs s' -> spec_run s' evs' s'' -> spec_run s (evs ++ evs') s''.
Proof.
  intros H. revert evs' s''. induction H as [|s ev s1 evs s2 Hs H IH]; intros evs' s'' H'; [done|].
  specialize (IH _ _ H'). assert (Hr := spec_run_step _ _ _ _ _ Hs IH). by destruct ev.
Qed.
Lemma spec_run_one s ev s' : spec_step s ev s' -> spec_run s (option_list ev) s'.
Proof. intros H. assert (Hr := spec_run_step _ _ _ _ _ H (spec_run_nil s')). by destruct ev. Qed.
Lemma slin_run com phs i ph com' ph' :
  phs !! i = Some ph -> slin (no_other_writer phs i) com ph com' ph' ->
  spec_run (MkSpec com phs) [] (MkSpec com' (<[i := ph']> phs)).
Proof.
  intros Hi [[-> ->]|(o & m & r & m' & -> & -> & Hl)].
  - rewrite list_insert_id by done. constructor.
  - apply (spec_run_one _ None). by econstructor.
Qed.

(** * The simulation *)

Section simulation.
Context (big : bool) (page_sz : Z).

Definition conn_sim (c : cstate) (g : ghost) : Prop :=
  match c with
  | CReady (cl, w) => exists m, g_phase g = PReady m /\ idle cl w m g
  | CRunning o p => wpp page_sz p g (done_with o)
  end.
Definition sim (s : system) (sp : spec) : Prop :=
  exists gs, INV page_sz s.1 (sp_committed sp) gs /\ sp_conns sp = g_phase <$> gs /\ Forall2 conn_sim s.2 gs.

Lemma inv_phase sh com gs i g ph :
  INV page_sz sh com gs -> gs !! i = Some g -> phase_mode ph = phase_mode (g_phase g) ->
  INV page_sz sh com (<[i := with_phase ph g]> gs).
Proof.
  intros (base & hz & Hinv) Hi Hm. exists base, hz. apply (inv_ghost _ _ _ _ _ _ _ g); [done|done|done|by left|].
  destruct (i_conn _ _ _ _ _ _ Hinv i g Hi). constructor; try done. cbn. by rewrite Hm.
Qed.
Lemma sim_insert sh cs gs com i c g :
  Forall2 conn_sim cs gs -> INV page_sz sh com (<[i := g]> gs) -> conn_sim c g ->
  sim (sh, <[i := c]> cs) (MkSpec com (<[i := g_phase g]> (g_phase <$> gs))).
Proof.
  intros Hall Hinv Hc. exists (<[i := g]> gs). split_and!; [done|by rewrite list_fmap_insert|]. by apply Forall2_insert.
Qed.
Lemma sim_step mv s sp ev s' :
  sim s sp -> do_move big page_sz mv s = Some (ev, s') -> move_fresh mv s = true ->
  exists sp', spec_run sp (option_list ev) sp' /\ sim s' sp'.
Proof.
  destruct s as [sh cs], sp as [com phs]. intros (gs & Hinv & Hphs & Hall) Hmv Hfr. cbn in Hinv, Hphs, Hall. subst phs.
  assert (Hget : forall i c, cs !! i = Some c -> exists g, gs !! i = Some g /\ conn_sim c g)
    by (intros i c Hi; by eapply Forall2_lookup_l).
  destruct mv as [i o|i e|i]; unfold do_move in Hmv; unfold move_fresh in Hfr; cbn [fst snd] in Hfr;
    destruct (cs !! i) as [[[cl w]|o' p]|] eqn:Hi; try discriminate Hmv;
    destruct (Hget i _ Hi) as (g & Hg & Hc); assert (Hlt := lookup_lt_Some _ _ _ Hg);
    assert (Hp : (g_phase <$> gs) !! i = Some (g_phase g)) by by rewrite list_lookup_fmap, Hg.
  - destruct (call_ok o cl w) eqn:Hok; [|discriminate Hmv]. injection Hmv as <- <-. destruct Hc as (m & Hph & Hid). rewrite Hph in Hp.
    exists (MkSpec com (<[i := PBusy o m]> (g_phase <$> gs))). split; [apply (spec_run_one _ (Some _)); by constructor|].
    apply (sim_insert _ _ _ _ _ _ (with_phase (PBusy o m) g)); [done|apply inv_phase; [done|done|by rewrite Hph]|].
    apply (run_op_ok page_sz big o cl w m); [done|by apply idle_phase|done].
  - destruct p as [|X fresh f k]; [discriminate Hmv|].
    destruct (Hc i e sh com gs Hinv Hg Hfr) as (x & sh' & com' & g' & Hf & Hs & Hinv' & Hk).
    rewrite Hf in Hmv. injection Hmv as <- <-.
    exists (MkSpec com' (<[i := g_phase g']> (g_phase <$> gs))). split; [by eapply slin_run|]. by apply sim_insert.
  - destruct p as [[r [cl w]]|]; [|discriminate Hmv]. injection Hmv as <- <-. destruct Hc as (g' & Hu & m & Hph & Hid).
    destruct (Hu i sh com gs Hinv Hg) as (com' & Hs & Hinv'). rewrite Hph in Hs. cbn in Hph.
    exists (MkSpec com' (<[i := PReady m]> (g_phase <$> gs))). split.
    + apply (spec_run_app _ [] (MkSpec com' (<[i := PDone o' r m]> (g_phase <$> gs)))); [by eapply slin_run|].
      apply (spec_run_one _ (Some _)). rewrite <- (list_insert_insert_eq (g_phase <$> gs) i (PReady m) (PDone o' r m)).
      apply (spec_return _ _ _ o' r). apply list_lookup_insert_eq. by rewrite length_fmap.
    + apply (sim_insert _ _ _ _ _ _ (with_phase (PReady m) g')); [done| |exists m; split; [done|by apply idle_phase]].
      rewrite <- (list_insert_insert_eq gs i _ g'). apply (inv_phase _ _ _ _ g'); [done|by apply list_lookup_insert_eq|by rewrite Hph].
Qed.
Lemma sim_run ms s sp evs s' :
  sim s sp -> run big page_sz ms s = Some (evs, s') -> run_fresh big page_sz ms s = true ->
  exists sp', spec_run sp evs sp' /\ sim s' sp'.
Proof.
  revert s sp evs. induction ms as [|mv ms IH]; intros s sp evs Hsim Hrun Hfr; cbn in Hrun, Hfr.
  { simplify_eq. exists sp. split; [constructor|done]. }
  apply andb_prop in Hfr as [Hfr Hfrs]. destruct (do_move big page_sz mv s) as [[ev s1]|] eqn:Hmv; [|done]. cbn in Hrun.
  destruct (run big page_sz ms s1) as [[evs1 s2]|] eqn:Hr; [|done]. cbn in Hrun. simplify_eq.
  destruct (sim_step mv s sp ev s1 Hsim Hmv Hfr) as (sp1 & H1 & Hsim1).
  destruct (IH s1 sp1 evs1 Hsim1 Hr Hfrs) as (sp2 & H2 & Hsim2). exists sp2. split; [|done].
  assert (H := spec_run_app _ _ _ _ _ H1 H2). by destruct ev.
Qed.

Lemma count_of_none {A} (p : A -> bool) x n : p x = false -> count_of p (replicate n x) = 0.
Proof. intros Hp. induction n as [|n IH]; [done|]. unfold count_of in *. cbn. by rewrite Hp, IH. Qed.
Lemma sim_initial n db : sim (initial big n db) (spec_initial n db).
Proof.
  set (g0 := MkGhost (fun _ => HNone) None None None None CkNone (PReady MIdle)).
  exists (replicate n g0). split_and!.
  - exists db, 0. constructor; try done; cbn.
    + intros l. unfold lock_inv. rewrite !count_of_none by done. cbn. split_and!; [done|done|by left].
    + by right.
    + intros f. lia.
    + intros p f. lia.
    + intros p. by left.
    + intros s. unfold mark_of. cbn. repeat case_match; by unfold READMARK_NOT_USED, U32_MAX.
    + intros i g [-> _]%lookup_replicate_1. by apply conn_inv_none.
  - cbn. by rewrite fmap_replicate.
  - cbn. apply Forall2_replicate. exists MIdle. by split_and!.
Qed.

Lemma sim_recovered s sp p : sim s sp -> recovered s.1 p = sp_committed sp p.
Proof.
  intros (gs & (base & hz & Hinv) & _). rewrite (i_committed _ _ _ _ _ _ Hinv). unfold recovered, at_frame. cbn zeta.
  case_match eqn:He; [|done]. zbool. assert (Hb := i_bounds _ _ _ _ _ _ Hinv).
  assert (H1 := latest_mono (sh_wal s.1) p hz (sh_max_frame s.1)). assert (H2 := latest_mono (sh_wal s.1) p (sh_nbackfills s.1) hz).
  assert (H3 := latest_bounds (sh_wal s.1) p (sh_nbackfills s.1)).
  destruct (i_db _ _ _ _ _ _ Hinv p) as [->|]; [|lia]. unfold at_frame. cbn zeta. by rewrite (proj2 (Z.eqb_eq _ _)) by lia.
Qed.
Lemma sim_panics s sp : sim s sp -> ~ panics s.
Proof.
  intros (gs & Hinv & _ & Hall) (i & o & X & fresh & f & k & e & Hi & Hfr & Hf).
  destruct (Forall2_lookup_l _ _ _ _ _ Hall Hi) as (g & Hg & Hc).
  destruct (Hc i e s.1 _ gs Hinv Hg Hfr) as (x & sh' & com' & g' & Hf' & _). congruence.
Qed.
Lemma sim_writers s sp i j ci cj :
  sim s sp -> s.2 !! i = Some (CReady ci) -> s.2 !! j = Some (CReady cj) -> is_writing ci -> is_writing cj -> i = j.
Proof.
  intros (gs & (base & hz & Hinv) & _ & Hall) Hi Hj Hwi Hwj. destruct (decide (i = j)) as [|Hne]; [done|exfalso].
  assert (Hw : forall k c, s.2 !! k = Some (CReady c) -> is_writing c -> exists g, gs !! k = Some g /\ g_held g LWrite = HWrite).
  { intros k [cl w] Hk Hwk. destruct (Forall2_lookup_l _ _ _ _ _ Hall Hk) as (g & Hg & m & _ & Hid). exists g. split; [done|].
    destruct m; [by destruct Hid as (-> & _)..|]. destruct Hid as (r & wv & ? & ? & _ & Hs & _). by rewrite (as_held _ _ _ _ Hs). }
  destruct (Hw i ci Hi Hwi) as (gi & Hgi & Hli), (Hw j cj Hj Hwj) as (gj & Hgj & Hlj).
  assert (H := lock_excl _ _ _ i j gi gj (i_locks _ _ _ _ _ _ Hinv LWrite) Hgi Hgj). by rewrite (H Hne Hli) in Hlj.
Qed.
End simulation.

(** * The WAL implements its specification *)

(** A call run to its end without interruption, its lock attempts and I/O succeeding. *)
Definition solo (i : nat) (o : op) (steps : nat) : list move := MCall i o :: replicate steps (MStep i 1) ++ [MRet_ i].
(** A write transaction that sets page 1; [k] and [k'] are the accesses of its
    [begin_read_tx] and of its commit. *)
Definition set_page (i : nat) (d : list Z) (k k' w : nat) : list move :=
  solo i OBeginRead k ++ solo i (OBeginWrite true) w ++ solo i (OCommit [[(1, d)]] 1) k' ++ solo i OEndWrite 2 ++
  solo i OEndRead 3.

(** C1: Whatever the schedule of the connections' accesses, the calls and returns of any
    number of connections (transactions, page reads, spills, commits, rollbacks, savepoints
    and checkpoints of every mode) form a linearizable history of the specification, and the
    log and the database file together hold the contents committed so far: provided that
    every checkpoint finds the backfill count it has loaded unchanged when it gets its
    guard. *)
Theorem wal_linearizable big page_sz n db ms evs s :
  run big page_sz ms (initial big n db) = Some (evs, s) -> run_fresh big page_sz ms (initial big n db) = true ->
  exists sp, spec_run (spec_initial n db) evs sp /\ forall p, recovered s.1 p = sp_committed sp p.
Proof.
  intros Hrun Hfr. destruct (sim_run _ _ _ _ _ _ _ (sim_initial big page_sz n db) Hrun Hfr) as (sp & Hsp & Hsim).
  exists sp. split; [done|]. intros p. by eapply sim_recovered.
Qed.
(** A reader's snapshot taken before a commit and a checkpoint, and used after them. *)
Definition witness_moves : list move :=
  set_page 0 [7] 8 16 5 ++ solo 1 OBeginRead 16 ++ set_page 0 [8] 13 13 4 ++ solo 2 (OCheckpoint (Passive None) true) 23 ++
  solo 1 (ORead 1) 3.
(** Whether the run goes through, every access finding what it relies on, to a state that
    satisfies [P]. *)
Definition runs_to (n : nat) (ms : list move) (P : list event -> system -> bool) : bool :=
  run_fresh false 512 ms (initial false n (fun _ => [0])) &&
  match run false 512 ms (initial false n (fun _ => [0])) with Some (evs, s) => P evs s | None => false end.
Lemma runs_to_spec n ms P :
  runs_to n ms P = true -> exists evs s, run false 512 ms (initial false n (fun _ => [0])) = Some (evs, s) /\
    run_fresh false 512 ms (initial false n (fun _ => [0])) = true /\ P evs s = true.
Proof.
  unfold runs_to. intros [Hf Hr]%andb_prop. destruct (run _ _ _ _) as [[evs s]|]; [|done]. by exists evs, s.
Qed.
Definition last_read (d : list Z) (evs : list event) : bool :=
  match list.last evs with Some (ERet _ (RPage (Some d'))) => bool_decide (d' = d) | _ => false end.
Lemma wal_linearizable_witness :
  exists evs s sp, run false 512 witness_moves (initial false 3 (fun _ => [0])) = Some (evs, s) /\
    spec_run (spec_initial 3 (fun _ => [0])) evs sp /\ last_read [7] evs = true /\ recovered s.1 1 = sp_committed sp 1.
Proof.
  destruct (runs_to_spec 3 witness_moves (fun evs _ => last_read [7] evs)) as (evs & s & Hr & Hf & Hl); [vm_compute; reflexivity|].
  destruct (wal_linearizable false 512 3 (fun _ => [0]) witness_moves evs s Hr Hf) as (sp & Hsp & Hp).
  exists evs, s, sp. split_and!; [done|done|done|exact (Hp 1)].
Defined.

(** C2: No schedule of such connections reaches a state in which an access panics, as long as
    no checkpoint goes on with a backfill count that has changed since it was loaded
    ([run_fresh], which the code does not enforce): the assertions on frames, marks, locks and
    headers never fail. *)
Theorem wal_never_panics big page_sz n db ms evs s :
  run big page_sz ms (initial big n db) = Some (evs, s) -> run_fresh big page_sz ms (initial big n db) = true -> ~ panics s.
Proof.
  intros Hrun Hfr. destruct (sim_run _ _ _ _ _ _ _ (sim_initial big page_sz n db) Hrun Hfr) as (sp & _ & Hsim).
  by eapply sim_panics.
Qed.
Lemma wal_never_panics_witness :
  exists evs s, run false 512 witness_moves (initial false 3 (fun _ => [0])) = Some (evs, s) /\ ~ panics s.
Proof.
  destruct (runs_to_spec 3 witness_moves (fun _ _ => true)) as (evs & s & Hr & Hf & _); [vm_compute; reflexivity|].
  exists evs, s. split; [done|]. exact (wal_never_panics false 512 3 (fun _ => [0]) witness_moves evs s Hr Hf).
Defined.

(** Two connections are never in a write transaction at once. *)
Theorem wal_single_writer big page_sz n db ms evs s i j ci cj :
  run big page_sz ms (initial big n db) = Some (evs, s) -> run_fresh big page_sz ms (initial big n db) = true ->
  s.2 !! i = Some (CReady ci) -> s.2 !! j = Some (CReady cj) -> is_writing ci -> is_writing cj -> i = j.
Proof.
  intros Hrun Hfr. destruct (sim_run _ _ _ _ _ _ _ (sim_initial big page_sz n db) Hrun Hfr) as (sp & _ & Hsim).
  by apply (sim_writers page_sz _ sp).
Qed.
Lemma wal_single_writer_witness :
  let ms := solo 0 OBeginRead 8 ++ solo 0 (OBeginWrite true) 5 ++ solo 1 OBeginRead 8 ++ solo 1 (OBeginWrite true) 3 in
  exists evs s c, run false 512 ms (initial false 2 (fun _ => [0])) = Some (evs, s) /\ s.2 !! 0%nat = Some (CReady c) /\
    is_writing c /\ forall j cj, s.2 !! j = Some (CReady cj) -> is_writing cj -> 0%nat = j.
Proof.
  intros ms. destruct (runs_to_spec 2 ms (fun _ s => match s.2 !! 0%nat with Some (CReady (ClWrite _ _ _, _)) => true | _ => false end))
    as (evs & s & Hr & Hf & Hw); [vm_compute; reflexivity|].
  destruct (s.2 !! 0%nat) as [[c|]|] eqn:H0; [|discriminate Hw|discriminate Hw]. exists evs, s, c.
  assert (Hc : is_writing c) by (clear - Hw; destruct c as [[] w]; done).
  split; [exact Hr|]. split; [exact H0|]. split; [exact Hc|]. intros j cj Hj Hwj.
  exact (wal_single_writer false 512 2 (fun _ => [0]) ms evs s 0 j c cj Hr Hf H0 Hj Hc Hwj).
Defined.
