(* ===== verification/WalStale.v ===== *)
(** What happens when a checkpoint relies on a backfill count that is no longer current:
    [checkpoint_inner] loads the count before it has its guard, and between the two another
    checkpoint may restart the log or publish a higher count.  In the first case a commit of
    the new generation is lost, in the second [publish_backfill] can panic. *)

From stdpp Require Import base list gmap numbers relations functions sorting.
From Stdlib Require Import ZArith Lia.
From S2P Require Import Prelude WalFormat RwLock Steps WalCoord WalSpec WalSafety.

(** Connection 1 starts a checkpoint and loads the count of the first generation; connection
    2 restarts the log, connection 0 commits to the new one, and connection 1 goes on. *)
Definition stale_moves : list move :=
  set_page 0 [7] 8 16 5 ++ solo 2 (OCheckpoint (Passive None) true) 25 ++
  [MCall 1 (OCheckpoint Restart true); MStep 1 1] ++ solo 2 (OCheckpoint Restart true) 30 ++
  set_page 0 [8] 8 16 5 ++ replicate 32 (MStep 1 1) ++ [MRet_ 1] ++ solo 0 OBeginRead 8 ++ solo 0 (ORead 1) 2.

(** A call that returns at once. *)
Definition at_once (i : nat) (o : op) (r : result) : list event := [ECall i o; ERet i r].
Definition set_page_events (i : nat) (d : list Z) (changed : bool) : list event :=
  at_once i OBeginRead (RBool (inl changed)) ++ at_once i (OBeginWrite true) (RUnit (inl tt)) ++
  at_once i (OCommit [[(1, d)]] 1) (RUnit (inl tt)) ++ at_once i OEndWrite (RUnit (inl tt)) ++ at_once i OEndRead (RUnit (inl tt)).
Definition stale_events : list event :=
  set_page_events 0 [7] false ++ at_once 2 (OCheckpoint (Passive None) true) (RCheckpoint (inl (1, 1, 1))) ++
  [ECall 1 (OCheckpoint Restart true)] ++ at_once 2 (OCheckpoint Restart true) (RCheckpoint (inl (1, 1, 0))) ++
  set_page_events 0 [8] true ++ [ERet 1 (RCheckpoint (inl (1, 1, 0)))] ++ at_once 0 OBeginRead (RBool (inl true)) ++
  at_once 0 (ORead 1) (RPage (Some [7])).

(** * Histories whose only overlapping calls are checkpoints *)

Definition quiet (ph : sphase) : Prop :=
  match ph with PReady _ | PBusy (OCheckpoint _ _) _ | PDone (OCheckpoint _ _) _ _ => True | _ => False end.
Lemma spec_run_first s e evs s' :
  spec_run s (e :: evs) s' -> exists s1 s2, spec_run s [] s1 /\ spec_step s1 (Some e) s2 /\ spec_run s2 evs s'.
Proof.
  intros H. remember (e :: evs) as l eqn:Hl. revert Hl. induction H as [|s ev s1 evs' s2 Hs H IH]; intros Hl; [done|].
  destruct ev as [e'|].
  - simplify_eq. exists s, s1. split_and!; [constructor|done|done].
  - destruct (IH Hl) as (s3 & s4 & H3 & Hs4 & H4). exists s3, s4. split_and!; [|done|done].
    by apply (spec_run_step _ None _ _ _ Hs).
Qed.
Lemma silent_inv (J : spec -> Prop) s s' :
  (forall s s', J s -> spec_step s None s' -> J s') -> spec_run s [] s' -> J s -> J s'.
Proof.
  intros HJ H. remember [] as l eqn:Hl. revert Hl. induction H as [|s ev s1 evs' s2 Hs H IH]; intros Hl Hq; [done|].
  destruct ev; [done|]. apply IH; [done|]. by eapply HJ.
Qed.

Definition calm (s : spec) : Prop := Forall quiet (sp_conns s).
Definition mode_of (s : spec) (i : nat) : option smode := phase_mode <$> sp_conns s !! i.
(** Steps nobody sees change nothing but the pending checkpoints. *)
Lemma silent_calm s s' :
  spec_run s [] s' -> calm s -> calm s' /\ sp_committed s' = sp_committed s /\ forall i, mode_of s' i = mode_of s i.
Proof.
  intros H Hq. apply (silent_inv (fun s' => calm s' /\ sp_committed s' = sp_committed s /\ forall i, mode_of s' i = mode_of s i) _ _) with (2 := H); [|done].
  clear s' H. intros s1 s2 (Hq1 & Hc & Hm) Hs. inversion Hs as [|com phs i o m r m' com' Hi Hlin|]; subst.
  assert (Hqi := proj1 (Forall_lookup _ _) Hq1 i _ Hi). cbn in Hqi. destruct o; try done. inversion Hlin; subst.
  split_and!; [by apply Forall_insert|done|]. intros j. rewrite <- Hm. unfold mode_of. cbn.
  destruct (decide (j = i)) as [->|?]; [|by rewrite list_lookup_insert_ne].
  rewrite list_lookup_insert_eq by (by eapply lookup_lt_Some). by rewrite Hi.
Qed.
(** While connection [i] is in a call, its call may take effect. *)
Definition in_call (i : nat) (o : op) (m : smode) (com : content) (s : spec) : Prop :=
  (forall j ph, j <> i -> sp_conns s !! j = Some ph -> quiet ph) /\
  (sp_conns s !! i = Some (PBusy o m) /\ sp_committed s = com \/
   exists P r m', sp_conns s !! i = Some (PDone o r m') /\ lin P o m com r m' (sp_committed s)).
Lemma silent_in_call i o m com s s' : spec_run s [] s' -> in_call i o m com s -> in_call i o m com s'.
Proof.
  apply silent_inv. clear s s'. intros s s' (Hq & Hi) Hs. inversion Hs as [|com1 phs j o' m0 r m' com' Hj Hlin|]; subst. cbn in *.
  assert (Hlt := lookup_lt_Some _ _ _ Hj). destruct (decide (j = i)) as [->|Hne].
  - destruct Hi as [[Hi ->]|(P & r' & m1 & Hi & _)]; rewrite Hi in Hj; [|done]. injection Hj as <- <-. split.
    + intros k ph Hk. cbn. rewrite list_lookup_insert_ne by done. by apply Hq.
    + right. eexists _, r, m'. split; [|exact Hlin]. cbn. by rewrite list_lookup_insert_eq.
  - assert (Hqj := Hq j _ Hne Hj). cbn in Hqj. destruct o'; try done. inversion Hlin; subst. split.
    + intros k ph Hk. cbn. destruct (decide (k = j)) as [->|?]; [|rewrite list_lookup_insert_ne by done; by apply Hq].
      rewrite list_lookup_insert_eq by done. by intros [= <-].
    + cbn. by rewrite list_lookup_insert_ne.
Qed.

(** A call that returns at once took effect on the contents of that moment. *)
Lemma run_at_once i o r evs s s' :
  calm s -> spec_run s (at_once i o r ++ evs) s' ->
  exists P m m' s2, calm s2 /\ mode_of s i = Some m /\ mode_of s2 i = Some m' /\
    lin P o m (sp_committed s) r m' (sp_committed s2) /\ spec_run s2 evs s'.
Proof.
  intros Hq (s1 & s2 & H1 & Hs & (s3 & s4 & H3 & Hs' & H4)%spec_run_first)%spec_run_first.
  destruct (silent_calm _ _ H1 Hq) as (Hq1 & Hc1 & Hm1). inversion Hs as [com phs k o' m Hi| |]; subst. cbn in Hc1.
  assert (Hlt := lookup_lt_Some _ _ _ Hi). assert (Hcall : in_call i o m com (MkSpec com (<[i := PBusy o m]> phs))).
  { split; cbn; [|left; by rewrite list_lookup_insert_eq]. intros j ph Hj. rewrite list_lookup_insert_ne by done.
    apply (proj1 (Forall_lookup _ _) Hq1). }
  apply (silent_in_call _ _ _ _ _ _ H3) in Hcall as [Hq3 Hi3].
  inversion Hs' as [| |com3 phs3 k o3 r3 m3 Hi' Hk]; subst. cbn in *. rewrite Hi' in Hi3.
  destruct Hi3 as [[? _]|(P & r' & m' & [= <- <- <-] & Hlin)]; [done|].
  exists P, m, m3. eexists. split_and!; [| | | |exact H4].
  - apply Forall_lookup. intros j ph. cbn. destruct (decide (j = i)) as [->|?]; [|rewrite list_lookup_insert_ne by done; by apply Hq3].
    rewrite list_lookup_insert_eq by (by eapply lookup_lt_Some). by intros [= <-].
  - rewrite <- Hm1. unfold mode_of. cbn. by rewrite Hi.
  - unfold mode_of. cbn. by rewrite list_lookup_insert_eq by (by eapply lookup_lt_Some).
  - done.
Qed.
(** The start and the end of a checkpoint that overlaps other calls. *)
Lemma run_checkpoint e evs s s' :
  match e with ECall _ (OCheckpoint _ _) | ERet _ (RCheckpoint _) => True | _ => False end ->
  calm s -> spec_run s (e :: evs) s' -> exists s2, calm s2 /\ sp_committed s2 = sp_committed s /\ spec_run s2 evs s'.
Proof.
  intros He Hq (s1 & s2 & H1 & Hs & H2)%spec_run_first. destruct (silent_calm _ _ H1 Hq) as (Hq1 & Hc1 & _).
  inversion Hs as [com phs i o m Hi| |com phs i o r m Hi]; subst;
    (eexists; split; [|split; [|exact H2]]; [apply Forall_insert; [exact Hq1|]|exact Hc1]); [by destruct o|done].
Qed.

(** C14: Without that proviso the WAL does not implement its specification.  In the schedule
    above connection 1's checkpoint goes on with the count of the first generation of the log
    and restarts the second one without having copied it: the commit of [8] has returned, and
    a transaction that begins afterwards reads [7]. *)
Theorem stale_checkpoint_loses_commit :
  (exists s, run false 512 stale_moves (initial false 3 (fun _ => [0])) = Some (stale_events, s)) /\
  forall sp, ~ spec_run (spec_initial 3 (fun _ => [0])) stale_events sp.
Proof.
  split.
  - assert (H : fst <$> run false 512 stale_moves (initial false 3 (fun _ => [0])) = Some stale_events) by (vm_compute; reflexivity).
    destruct (run _ _ _ _) as [[evs s]|]; [|discriminate H]. exists s. by injection H as ->.
  - intros sp H. assert (Hq : calm (spec_initial 3 (fun _ => [0]))) by repeat constructor.
    unfold stale_events, set_page_events in H. rewrite <- !app_assoc in H.
    do 6 (apply run_at_once in H as (? & ? & ? & ? & Hq' & _ & _ & _ & H); [|exact Hq]; clear Hq; rename Hq' into Hq).
    apply run_checkpoint in H as (? & Hq' & _ & H); [|done|exact Hq]. clear Hq; rename Hq' into Hq.
    do 3 (apply run_at_once in H as (? & ? & ? & ? & Hq' & _ & _ & _ & H); [|exact Hq]; clear Hq; rename Hq' into Hq).
    apply run_at_once in H as (? & ? & ? & s1 & Hq1 & _ & _ & Hl1 & H); [|exact Hq].
    apply run_at_once in H as (? & ? & ? & s2 & Hq2 & _ & _ & Hl2 & H); [|exact Hq1].
    apply run_at_once in H as (? & ? & ? & s3 & Hq3 & _ & _ & Hl3 & H); [|exact Hq2].
    apply run_checkpoint in H as (s4 & Hq4 & Hc4 & H); [|done|exact Hq3].
    apply run_at_once in H as (? & ? & ? & s5 & Hq5 & _ & Hm5 & Hl5 & H); [|exact Hq4].
    apply (run_at_once _ _ _ []) in H as (? & ? & ? & s6 & _ & Hm6 & _ & Hl6 & _); [|exact Hq5].
    rewrite Hm5 in Hm6. injection Hm6 as <-. inversion Hl5; subst. inversion Hl6; subst.
    assert (H8 : sp_committed s1 1 = [8]).
    { inversion Hl1 as [| | | | | | | | | |? ? ? ? ? ? ? _ Hcom| | | | | | |]; subst. rewrite Hcom. unfold apply_log. rewrite fold_left_app. cbn -[insert]. by rewrite fn_lookup_insert. }
    inversion Hl2; inversion Hl3; congruence.
Qed.

(** The proviso is needed for the assertions, too: connection 1 starts a checkpoint of the
    first frame only and loads the count, connection 2 copies both frames, and connection 1
    then publishes a count that is below the one it finds. *)
Definition panic_moves : list move :=
  set_page 0 [7] 8 16 5 ++ set_page 0 [8] 16 13 4 ++ [MCall 1 (OCheckpoint (Passive (Some 1)) true); MStep 1 1] ++
  solo 2 (OCheckpoint (Passive None) true) 25 ++ replicate 17 (MStep 1 1).
Definition about_to_panic (i : nat) (s : system) : bool :=
  match s.2 !! i with
  | Some (CRunning _ (Atomic fresh f _)) => fresh s.1 && match f 1 s.1 with None => true | Some _ => false end
  | _ => false
  end.
Lemma about_to_panic_ok i s : about_to_panic i s = true -> panics s.
Proof.
  unfold about_to_panic, panics. destruct (s.2 !! i) as [[|o [|X fresh f k]]|] eqn:Hi; try done. intros [H1 H2]%andb_prop.
  exists i, o, X, fresh, f, k, 1. destruct (f 1 s.1) eqn:Hf; [done|]. done.
Qed.
Lemma stale_checkpoint_panics : exists evs s, run false 512 panic_moves (initial false 3 (fun _ => [0])) = Some (evs, s) /\ panics s.
Proof.
  assert (H : match run false 512 panic_moves (initial false 3 (fun _ => [0])) with Some (_, s) => about_to_panic 1 s | None => false end = true) by (vm_compute; reflexivity).
  destruct (run _ _ _ _) as [[evs s]|]; [|discriminate H]. exists evs, s. split; [done|]. by eapply about_to_panic_ok.
Qed.
