(* ===== verification/PageCache.v ===== *)
(** The page cache (core/storage/page_cache.rs): a hash map from page numbers to entries
    that are linked into a queue, which a clock hand sweeps to evict pages (SIEVE), and the
    flags of a [Page] (core/storage/pager.rs) that the cache looks at.

    The entries are boxed and reached through raw pointers, from the map, the queue and the
    clock hand; here a pointer is a key of a heap of entries, and to follow one that is not
    there, or to point a cursor of the queue at an entry that is not linked, is a [Panic]:
    the proofs in PageCacheInv.v show that it does not happen.  The queue is the linked list
    of the intrusive-collections package, taken as an interface with its documented
    behaviour; the order in which a hash map is iterated is a parameter. *)

From stdpp Require Import base list gmap numbers sorting.
From Stdlib Require Import ZArith Lia.
From S2P Require Import Prelude.

(** * Pages *)

Definition PAGE_LOCKED : Z := 0x2.
Definition PAGE_DIRTY : Z := 0x8.
Definition PAGE_LOADED : Z := 0x10.
Definition PAGE_SPILLED : Z := 0x20.
Definition TAG_UNSET : Z := 2 ^ 64 - 1.
Definition TAG_WRITE_PENDING : Z := 2 ^ 64 - 2.
Definition FRAME_BITS : Z := 44.
Definition EPOCH_MAX : Z := 2 ^ 20 - 1.
Definition FRAME_MAX : Z := 2 ^ FRAME_BITS - 1.

(** What the cache uses of [PageInner], with the strong count of the [Arc] it is in;
    [pg_overflow_cells] is how many there are. *)
Record Page : Type := MkPage {
  pg_id : Z;
  pg_flags : Z;
  pg_pin_count : Z;
  pg_wal_tag : Z;
  pg_buffer : bool;
  pg_overflow_cells : Z;
  pg_strong : Z
}.
Definition has_flag (f : Z) (p : Page) : bool := negb (Z.land (pg_flags p) f =? 0).
Definition with_flags (f : Z) (p : Page) : Page :=
  MkPage (pg_id p) f (pg_pin_count p) (pg_wal_tag p) (pg_buffer p) (pg_overflow_cells p) (pg_strong p).
(** [fetch_or(f)] and [fetch_and(!f)]. *)
Definition set_flag (f : Z) (p : Page) : Page := with_flags (Z.lor (pg_flags p) f) p.
Definition clear_flag (f : Z) (p : Page) : Page := with_flags (Z.ldiff (pg_flags p) f) p.

Definition is_locked : Page -> bool := has_flag PAGE_LOCKED.
Definition is_dirty : Page -> bool := has_flag PAGE_DIRTY.
Definition is_spilled : Page -> bool := has_flag PAGE_SPILLED.
Definition is_loaded : Page -> bool := has_flag PAGE_LOADED.
Definition is_pinned (p : Page) : bool := 0 <? pg_pin_count p.
Definition clear_loaded : Page -> Page := clear_flag PAGE_LOADED.
Definition set_spilled : Page -> Page := set_flag PAGE_SPILLED.
Definition with_wal_tag (t : Z) (p : Page) : Page :=
  MkPage (pg_id p) (pg_flags p) (pg_pin_count p) t (pg_buffer p) (pg_overflow_cells p) (pg_strong p).
Definition clear_wal_tag : Page -> Page := with_wal_tag TAG_UNSET.
Definition set_dirty (p : Page) : Page := set_flag PAGE_DIRTY (clear_flag PAGE_SPILLED (clear_wal_tag p)).
Definition clear_dirty (p : Page) : Page := clear_wal_tag (clear_flag PAGE_DIRTY p).
Definition with_pins (n : Z) (p : Page) : Page :=
  MkPage (pg_id p) (pg_flags p) n (pg_wal_tag p) (pg_buffer p) (pg_overflow_cells p) (pg_strong p).
Definition pin (p : Page) : Page := with_pins (pg_pin_count p + 1) p.
Definition try_unpin (p : Page) : Page := if pg_pin_count p =? 0 then p else with_pins (pg_pin_count p - 1) p.
Definition set_locked : Page -> Page := set_flag PAGE_LOCKED.
Definition clear_locked : Page -> Page := clear_flag PAGE_LOCKED.
Definition set_loaded : Page -> Page := set_flag PAGE_LOADED.
Definition set_write_pending : Page -> Page := with_wal_tag TAG_WRITE_PENDING.
Definition with_buffer (b : bool) (p : Page) : Page :=
  MkPage (pg_id p) (pg_flags p) (pg_pin_count p) (pg_wal_tag p) b (pg_overflow_cells p) (pg_strong p).
(** [let _ = page.get().buffer.take()]. *)
Definition take_buffer : Page -> Page := with_buffer false.
(** [Page::new], in an [Arc]. *)
Definition new_page (id : Z) : Page := MkPage id 0 0 TAG_UNSET false 0 1.
(** [Arc::clone] and the drop of an [Arc]. *)
Definition with_strong (n : Z) (p : Page) : Page :=
  MkPage (pg_id p) (pg_flags p) (pg_pin_count p) (pg_wal_tag p) (pg_buffer p) (pg_overflow_cells p) n.
Definition arc_clone (p : Page) : Page := with_strong (pg_strong p + 1) p.
Definition arc_drop (p : Page) : Page := with_strong (pg_strong p - 1) p.

Definition pack_tag_pair (frame seq : Z) : Z := Z.lor (wrap 64 (Z.shiftl seq FRAME_BITS)) (Z.land frame FRAME_MAX).
Definition unpack_tag_pair (tag : Z) : Z * Z := (Z.land tag FRAME_MAX, Z.land (Z.shiftr tag FRAME_BITS) EPOCH_MAX).
Definition set_wal_tag (frame epoch : Z) : Page -> Page := with_wal_tag (pack_tag_pair frame (Z.land epoch EPOCH_MAX)).
Definition wal_tag_pair (p : Page) : Z * Z := unpack_tag_pair (pg_wal_tag p).
Definition has_wal_tag (p : Page) : bool :=
  negb (pg_wal_tag p =? TAG_UNSET) && negb (pg_wal_tag p =? TAG_WRITE_PENDING).

(** [DatabaseHeader::PAGE_ID]. *)
Definition HEADER_PAGE : Z := 1.
Definition counted_as_evictable (p : Page) : bool :=
  if pg_id p =? HEADER_PAGE then false else negb (is_dirty p) || is_spilled p.
Definition evictable (p : Page) : bool :=
  (negb (is_dirty p) || is_spilled p) && negb (is_locked p) && negb (is_pinned p) && negb (pg_id p =? HEADER_PAGE)
  && (pg_strong p =? 1).
Definition spillable (p : Page) : bool :=
  is_dirty p && negb (is_spilled p) && negb (is_locked p) && negb (is_pinned p) && (pg_strong p =? 1)
  && negb (pg_id p =? HEADER_PAGE) && (pg_overflow_cells p =? 0).

(** * The queue *)

(** Pointers to entries. *)
Notation eptr := positive.

(** [LinkedList<EntryAdapter>] of intrusive-collections, as far as it is used: [ll_next] is
    a cursor at an element moved by [move_next], [ll_insert_after] and [ll_remove] those of
    a cursor at the element. *)
Class LinkedList (L : Type) : Type := {
  ll_new : L;
  ll_list : L -> list eptr;
  ll_push_back : eptr -> L -> L;
  ll_front : L -> option eptr;
  ll_next : eptr -> L -> option eptr;
  ll_insert_after : eptr -> eptr -> L -> L;
  ll_remove : eptr -> L -> L
}.
(** Its documentation, for a list in which no element is linked twice. *)
Class LinkedListLaws (L : Type) `{LinkedList L} : Prop := {
  ll_list_new : ll_list ll_new = [];
  ll_list_push_back x (q : L) : ll_list (ll_push_back x q) = ll_list q ++ [x];
  ll_front_list (q : L) : ll_front q = head (ll_list q);
  ll_next_list (q : L) l x k : ll_list q = l ++ x :: k -> NoDup (ll_list q) -> ll_next x q = head k;
  ll_list_insert_after (q : L) l x k y :
    ll_list q = l ++ x :: k -> NoDup (ll_list q) -> ll_list (ll_insert_after x y q) = l ++ x :: y :: k;
  ll_list_remove (q : L) l x k : ll_list q = l ++ x :: k -> NoDup (ll_list q) -> ll_list (ll_remove x q) = l ++ k
}.

(** * The cache *)

Definition CLEAR : Z := 0.
Definition REF_MAX : Z := 3.
Definition DEFAULT_SPILL_THRESHOLD_PERCENT : Z := 90.

(** An entry of the cache; its page is the [Arc] numbered [e_page]. *)
Record PageCacheEntry : Type := MkEntry { e_key : Z; e_page : Z; e_ref_bit : Z }.
Definition bump_ref (x : PageCacheEntry) : PageCacheEntry := MkEntry (e_key x) (e_page x) (Z.min (e_ref_bit x + 1) REF_MAX).
Definition decrement_ref (x : PageCacheEntry) : PageCacheEntry :=
  MkEntry (e_key x) (e_page x) (Z.max 0 (e_ref_bit x - 1)).

Section cache.
Context {L : Type} `{LinkedList L}.

(** [PageCache], with the heap of boxed entries and the pages, which others share. *)
Record PageCache : Type := MkCache {
  pc_pages : gmap Z Page;
  pc_entries : gmap eptr PageCacheEntry;
  pc_capacity : Z;
  pc_map : gmap Z eptr;
  pc_queue : L;
  pc_clock_hand : option eptr;
  pc_spill_threshold : Z;
  pc_spill_enabled : bool;
  pc_evictable_count : Z
}.
Definition set_pages (x : gmap Z Page) (c : PageCache) : PageCache :=
  let 'MkCache _ es cap m q h th en n := c in MkCache x es cap m q h th en n.
Definition set_entries (x : gmap eptr PageCacheEntry) (c : PageCache) : PageCache :=
  let 'MkCache ps _ cap m q h th en n := c in MkCache ps x cap m q h th en n.
Definition set_limits (cap th : Z) (c : PageCache) : PageCache :=
  let 'MkCache ps es _ m q h _ en n := c in MkCache ps es cap m q h th en n.
Definition set_map (x : gmap Z eptr) (c : PageCache) : PageCache :=
  let 'MkCache ps es cap _ q h th en n := c in MkCache ps es cap x q h th en n.
Definition set_queue (x : L) (c : PageCache) : PageCache :=
  let 'MkCache ps es cap m _ h th en n := c in MkCache ps es cap m x h th en n.
Definition set_clock_hand (x : option eptr) (c : PageCache) : PageCache :=
  let 'MkCache ps es cap m q _ th en n := c in MkCache ps es cap m q x th en n.
Definition set_evictable_count (x : Z) (c : PageCache) : PageCache :=
  let 'MkCache ps es cap m q h th en _ := c in MkCache ps es cap m q h th en x.
Definition set_spill_enabled (x : bool) (c : PageCache) : PageCache :=
  let 'MkCache ps es cap m q h th _ n := c in MkCache ps es cap m q h th x n.

Notation C := (ST PageCache).
Definition cache_error {A} (e : CacheError) : C A := slift (Err (FromCache e)).

(** [&mut *entry_ptr] and what is behind an [Arc]. *)
Definition entry_at (e : eptr) : C PageCacheEntry := fun c =>
  (match pc_entries c !! e with Some x => Ok x | None => Panic end, c).
Definition page_at (p : Z) : C Page := fun c => (match pc_pages c !! p with Some x => Ok x | None => Panic end, c).
Definition update_entry (e : eptr) (f : PageCacheEntry -> PageCacheEntry) : C unit :=
  smodify (fun c => set_entries (alter f e (pc_entries c)) c).
Definition update_page (p : Z) (f : Page -> Page) : C unit :=
  smodify (fun c => set_pages (alter f p (pc_pages c)) c).
(** [cursor_mut_from_ptr(e)]: [e] must be linked. *)
Definition cursor_from_ptr (e : eptr) : C unit := fun c => (rassert (bool_decide (e ∈ ll_list (pc_queue c))), c).

Definition cache_len (c : PageCache) : Z := Z.of_nat (size (pc_map c)).
Definition new_with_spill (ps : gmap Z Page) (cap : Z) (en : bool) : res LimboError PageCache :=
  t ← umul 64 cap DEFAULT_SPILL_THRESHOLD_PERCENT;
  Ok (MkCache ps ∅ cap ∅ ll_new None (Z.max (t / 100) 1) en 0).
Definition contains_key (key : Z) (c : PageCache) : bool := bool_decide (is_Some (pc_map c !! key)).

Definition advance_clock_hand : C unit :=
  c ← sget;
  match pc_clock_hand c with
  | None => mret tt
  | Some hand =>
      _ ← cursor_from_ptr hand;
      match ll_next hand (pc_queue c) with
      | Some next => smodify (set_clock_hand (Some next))
      | None => smodify (set_clock_hand (ll_front (pc_queue c)))
      end
  end.

(** The counter: [+= 1] and [saturating_sub(1)]. *)
Definition count_up : C unit :=
  c ← sget; n ← slift (uadd 64 (pc_evictable_count c) 1); smodify (set_evictable_count n).
Definition count_down : C unit := smodify (fun c => set_evictable_count (Z.max 0 (pc_evictable_count c - 1)) c).

(** The hand leaves [e]; it becomes null when [e] was the only entry. *)
Definition hand_off (e : eptr) : C unit :=
  _ ← advance_clock_hand;
  c ← sget;
  if bool_decide (pc_clock_hand c = Some e) then smodify (set_clock_hand None) else mret tt.
(** [cursor.remove()]: the entry is unlinked and its box, with its [Arc], dropped. *)
Definition unlink (e : eptr) : C unit :=
  _ ← cursor_from_ptr e;
  x ← entry_at e;
  _ ← smodify (fun c => set_entries (delete e (pc_entries c)) (set_queue (ll_remove e (pc_queue c)) c));
  update_page (e_page x) arc_drop.

Definition _delete (key : Z) (clean_page : bool) : C unit :=
  c ← sget;
  match pc_map c !! key with
  | None => mret tt
  | Some entry_ptr =>
      entry ← entry_at entry_ptr;
      page ← page_at (e_page entry);
      if is_locked page then cache_error (CacheLocked (pg_id page))
      else if is_dirty page then cache_error (CacheDirty (pg_id page))
      else if is_pinned page then cache_error (CachePinned (pg_id page))
      else
        let was_evictable := counted_as_evictable page in
        _ ← (if clean_page then update_page (e_page entry) (take_buffer ∘ clear_loaded) else mret tt);
        _ ← smodify (fun c => set_map (delete key (pc_map c)) c);
        c ← sget;
        _ ← (if bool_decide (pc_clock_hand c = Some entry_ptr) then hand_off entry_ptr else mret tt);
        _ ← unlink entry_ptr;
        if was_evictable then count_down else mret tt
  end.
Definition delete_ (key : Z) : C unit := _delete key true.

(** ** Eviction *)

(** The loop of [evict_one]; [remaining] is [max_examinations - examined]. *)
Fixpoint evict_loop (remaining : nat) : C unit :=
  match remaining with
  | O => cache_error CacheFull
  | Datatypes.S remaining =>
      c ← sget;
      match pc_clock_hand c with
      | None => slift Panic
      | Some entry_ptr =>
          entry ← entry_at entry_ptr;
          page ← page_at (e_page entry);
          if evictable page && (e_ref_bit entry =? CLEAR) then
            _ ← sassert (counted_as_evictable page);
            _ ← hand_off entry_ptr;
            _ ← smodify (fun c => set_map (delete (e_key entry) (pc_map c)) c);
            _ ← update_page (e_page entry) (take_buffer ∘ clear_loaded);
            _ ← unlink entry_ptr;
            count_down
          else if evictable page then
            _ ← update_entry entry_ptr decrement_ref; _ ← advance_clock_hand; evict_loop remaining
          else _ ← advance_clock_hand; evict_loop remaining
      end
  end.
Definition evict_one : C unit :=
  c ← sget;
  if cache_len c =? 0 then cache_error CacheInternal else evict_loop (size (pc_map c) * (Z.to_nat REF_MAX + 1)).

(** [while len > target { evict_one()? }]; every round removes an entry. *)
Fixpoint make_room_loop (fuel : nat) (target : Z) : C unit :=
  c ← sget;
  if target <? cache_len c then
    match fuel with O => slift Panic | Datatypes.S fuel => _ ← evict_one; make_room_loop fuel target end
  else mret tt.
Definition make_room_for (n : Z) (bypass_capacity : bool) : C unit :=
  if bypass_capacity then mret tt
  else
    c ← sget;
    if pc_capacity c <? n then cache_error CacheFull else make_room_loop (size (pc_map c)) (pc_capacity c - n).

(** ** Insertion *)

(** A new box for the entry, linked after the hand. *)
Definition link_entry (key page : Z) : C unit :=
  c ← sget;
  let entry_ptr := fresh (dom (pc_entries c)) in
  _ ← smodify (fun c => set_entries (<[entry_ptr := MkEntry key page CLEAR]> (pc_entries c)) c);
  match pc_clock_hand c with
  | None =>
      _ ← smodify (fun c => set_queue (ll_push_back entry_ptr (pc_queue c)) c);
      _ ← smodify (fun c => set_map (<[key := entry_ptr]> (pc_map c)) c);
      smodify (set_clock_hand (Some entry_ptr))
  | Some hand =>
      _ ← cursor_from_ptr hand;
      _ ← smodify (fun c => set_queue (ll_insert_after hand entry_ptr (pc_queue c)) c);
      smodify (fun c => set_map (<[key := entry_ptr]> (pc_map c)) c)
  end.
Definition insert_new (key value : Z) (bypass_capacity : bool) : C unit :=
  _ ← make_room_for 1 bypass_capacity;
  page ← page_at value;
  let is_evictable := counted_as_evictable page in
  _ ← link_entry key value;
  if is_evictable then count_up else mret tt.
(** [_insert] up to the drop of [value]. *)
Definition insert_value (key value : Z) (update_in_place bypass_capacity : bool) : C unit :=
  c ← sget;
  match pc_map c !! key with
  | None => insert_new key value bypass_capacity
  | Some entry_ptr =>
      entry ← entry_at entry_ptr;
      p ← page_at (e_page entry);
      if negb (is_loaded p) && negb (is_locked p) then _ ← _delete key true; insert_new key value bypass_capacity
      else
        _ ← update_entry entry_ptr bump_ref;
        if update_in_place then
          new ← page_at value;
          let old_evictable := counted_as_evictable p in
          let new_evictable := counted_as_evictable new in
          _ ← (if old_evictable && negb new_evictable then count_down
               else if negb old_evictable && new_evictable then count_up else mret tt);
          _ ← update_entry entry_ptr (fun x => MkEntry (e_key x) value (e_ref_bit x));
          update_page (e_page entry) arc_drop
        else _ ← sassert (e_page entry =? value); cache_error CacheKeyExists
  end.
(** [value] is dropped when it does not end up in the cache. *)
Definition _insert (key value : Z) (update_in_place bypass_capacity : bool) : C unit := fun c =>
  match insert_value key value update_in_place bypass_capacity c with
  | (Err e, c) => (Err e, set_pages (alter arc_drop value (pc_pages c)) c)
  | r => r
  end.
Definition insert_ (key value : Z) : C unit := _insert key value false false.
Definition upsert_page (key value : Z) : C unit := _insert key value true false.
(** [match op(value.clone()) { Err(Full) => op', r => r }], after which [value] is dropped
    when it was not moved. *)
Definition or_bypass (value : Z) (op op' : C unit) : C unit := fun c =>
  match op (set_pages (alter arc_clone value (pc_pages c)) c) with
  | (Err (FromCache CacheFull), c) => op' c
  | (r, c) => (r, set_pages (alter arc_drop value (pc_pages c)) c)
  end.
Definition force_upsert_page (key value : Z) : C unit :=
  or_bypass value (upsert_page key value) (_insert key value true true).
Definition force_insert_page (key value : Z) : C unit :=
  or_bypass value (insert_ key value) (_insert key value false true).

(** ** Lookups *)

(** A local [Arc] to [p] goes out of scope when [m] returns. *)
Definition then_drop {A} (p : Z) (m : C A) : C A := fun c =>
  match m c with
  | (Panic, c) => (Panic, c)
  | (r, c) => (r, set_pages (alter arc_drop p (pc_pages c)) c)
  end.
Definition get_ (key : Z) : C (option Z) :=
  c ← sget;
  match pc_map c !! key with
  | None => mret None
  | Some entry_ptr =>
      entry ← entry_at entry_ptr;
      page ← page_at (e_page entry);
      _ ← update_page (e_page entry) arc_clone;
      if negb (is_loaded page) && negb (is_locked page)
      then then_drop (e_page entry) (_ ← delete_ key; mret None)
      else _ ← update_entry entry_ptr bump_ref; mret (Some (e_page entry))
  end.
Definition peek (key : Z) (touch : bool) : C (option Z) :=
  c ← sget;
  match pc_map c !! key with
  | None => mret None
  | Some entry_ptr =>
      entry ← entry_at entry_ptr;
      _ ← update_page (e_page entry) arc_clone;
      _ ← (if touch then update_entry entry_ptr bump_ref else mret tt);
      mret (Some (e_page entry))
  end.

(** ** Sizes *)

Inductive CacheResizeResult : Type := ResizeDone | PendingEvictions.
Fixpoint resize_loop (fuel : nat) (new_cap : Z) : C bool :=
  c ← sget;
  if new_cap <? cache_len c then
    match fuel with
    | O => slift Panic
    | Datatypes.S fuel => fun c =>
        match evict_one c with
        | (Ok _, c) => resize_loop fuel new_cap c
        | (Err _, c) => (Ok false, c)
        | (Panic, c) => (Panic, c)
        end
    end
  else mret true.
Definition resize (new_cap : Z) : C CacheResizeResult :=
  c ← sget;
  if new_cap =? pc_capacity c then mret ResizeDone
  else
    ok ← resize_loop (size (pc_map c)) new_cap;
    if negb ok then mret PendingEvictions
    else
      t ← slift (umul 64 new_cap DEFAULT_SPILL_THRESHOLD_PERCENT);
      _ ← smodify (set_limits new_cap (Z.max (t / 100) 1));
      mret ResizeDone.

(** ** Spilling *)

(** The pages of the entries. *)
Fixpoint look_pages (es : list eptr) : C (list Page) :=
  match es with
  | [] => mret []
  | e :: es => x ← entry_at e; page ← page_at (e_page x); ps ← look_pages es; mret (page :: ps)
  end.

Section iteration.
(** The order in which the hash map is iterated. *)
Context (iter : gmap Z eptr -> list (Z * eptr)).

Definition count_evictable_pages : C Z :=
  c ← sget; ps ← look_pages (iter (pc_map c)).*2; mret (count_of evictable ps).
Definition needs_spill : C bool :=
  c ← sget;
  let n := cache_len c in
  if (n <? pc_spill_threshold c) || negb (pc_spill_enabled c) then mret false
  else
    let needed_evictable := Z.max 0 (n - pc_spill_threshold c) in
    let empty_slots := Z.max 0 (pc_capacity c - n) in
    let available_room := Z.min (pc_evictable_count c + empty_slots) (2 ^ 64 - 1) in
    if needed_evictable <=? available_room then mret false
    else k ← count_evictable_pages; mret (k <? needed_evictable).

(** [collect_spillable_pages]: the pages are pinned as they are collected. *)
Fixpoint collect_loop (es : list eptr) (max_pages : Z) (acc : list Z) : C (list Z) :=
  match es with
  | [] => mret acc
  | e :: es =>
      x ← entry_at e;
      page ← page_at (e_page x);
      acc ← (if spillable page
             then _ ← update_page (e_page x) (pin ∘ arc_clone); mret (acc ++ [e_page x])
             else mret acc);
      if max_pages <=? len acc then mret acc else collect_loop es max_pages acc
  end.
Definition by_id (ps : gmap Z Page) (x y : Z) : Prop :=
  from_option pg_id 0 (ps !! x) <= from_option pg_id 0 (ps !! y).
Global Instance by_id_dec ps : RelDecision (by_id ps).
Proof. intros x y. unfold by_id. apply _. Defined.
Definition collect_spillable_pages (max_pages : Z) : C (list Z) :=
  c ← sget;
  if negb (pc_spill_enabled c) || (max_pages =? 0) then mret []
  else
    l ← collect_loop (iter (pc_map c)).*2 max_pages [];
    c ← sget;
    mret (merge_sort (by_id (pc_pages c)) l).
Inductive SpillResult : Type := SpillNotNeeded | PagesToSpill (ps : list Z) | SpillCacheFull.
Definition check_spill (max_pages : Z) : C SpillResult :=
  b ← needs_spill;
  if negb b then mret SpillNotNeeded
  else
    ps ← collect_spillable_pages max_pages;
    mret (match ps with [] => SpillCacheFull | _ => PagesToSpill ps end).

(** ** Dropping pages *)

Fixpoint check_clean (es : list eptr) (clear_dirty : bool) : C unit :=
  match es with
  | [] => mret tt
  | e :: es =>
      x ← entry_at e;
      page ← page_at (e_page x);
      if is_dirty page && negb clear_dirty then cache_error (CacheDirty (pg_id page)) else check_clean es clear_dirty
  end.
Fixpoint clean_pages (es : list eptr) : C unit :=
  match es with
  | [] => mret tt
  | e :: es => x ← entry_at e; _ ← update_page (e_page x) (take_buffer ∘ clear_loaded); clean_pages es
  end.
(** [queue.clear()] drops the boxes. *)
Fixpoint drop_entries (es : list eptr) : C unit :=
  match es with
  | [] => mret tt
  | e :: es =>
      x ← entry_at e;
      _ ← smodify (fun c => set_entries (delete e (pc_entries c)) c);
      _ ← update_page (e_page x) arc_drop;
      drop_entries es
  end.
Definition clear_ (clear_dirty : bool) : C unit :=
  c ← sget;
  _ ← check_clean (iter (pc_map c)).*2 clear_dirty;
  _ ← clean_pages (iter (pc_map c)).*2;
  _ ← smodify (set_map ∅);
  _ ← drop_entries (ll_list (pc_queue c));
  _ ← smodify (set_queue ll_new);
  _ ← smodify (set_clock_hand None);
  smodify (set_evictable_count 0).

Fixpoint delete_keys (keys : list Z) : C unit :=
  match keys with [] => mret tt | k :: keys => _ ← delete_ k; delete_keys keys end.
Definition truncate (max_page_num : Z) : C unit :=
  c ← sget; delete_keys (filter (fun k => max_page_num < k) (iter (pc_map c)).*1).
Definition after_wal_frame (max_frame : Z) (p : Page) : bool :=
  negb (is_dirty p) && has_wal_tag p && (max_frame <? (wal_tag_pair p).1).
Definition delete_clean_pages_after_wal_frame (max_frame : Z) : C unit :=
  c ← sget;
  ps ← look_pages (iter (pc_map c)).*2;
  delete_keys (filter (fun x => after_wal_frame max_frame x.2) (zip (iter (pc_map c)).*1 ps)).*1.
End iteration.

(** ** The pager's notifications *)

Definition notify_page_dirty (key : Z) : C unit :=
  c ← sget;
  match pc_map c !! key with
  | None => mret tt
  | Some e => x ← entry_at e; page ← page_at (e_page x); if negb (pg_id page =? HEADER_PAGE) then count_down else mret tt
  end.
Definition notify_page_spilled (key : Z) : C unit :=
  c ← sget;
  match pc_map c !! key with
  | None => mret tt
  | Some e => x ← entry_at e; page ← page_at (e_page x); if negb (pg_id page =? HEADER_PAGE) then count_up else mret tt
  end.
(** How [Pager::add_dirty] marks a page. *)
Definition mark_dirty (p : Z) : C unit :=
  page ← page_at p;
  _ ← (if negb (is_dirty page) || is_spilled page then notify_page_dirty (pg_id page) else mret tt);
  update_page p set_dirty.
(** What is done with a page whose spill is complete. *)
Definition mark_spilled (p : Z) : C unit :=
  page ← page_at p;
  if has_wal_tag page then _ ← notify_page_spilled (pg_id page); update_page p set_spilled else mret tt.

(** * The calls of the pager *)

(** What the holders of a page do to it without the cache being told. *)
Inductive page_action : Type :=
  | SetLocked | ClearLocked | SetLoaded | SetBuffer | ClearDirty | Pin | TryUnpin | Clone | Drop
  | SetWalTag (frame epoch : Z) | SetWritePending | ClearWalTag | SetOverflow (n : Z).
Definition act (a : page_action) : Page -> Page :=
  match a with
  | SetLocked => set_locked
  | ClearLocked => clear_locked
  | SetLoaded => set_loaded
  | SetBuffer => with_buffer true
  | ClearDirty => clear_dirty
  | Pin => pin
  | TryUnpin => try_unpin
  | Clone => arc_clone
  | Drop => arc_drop
  | SetWalTag frame epoch => set_wal_tag frame epoch
  | SetWritePending => set_write_pending
  | ClearWalTag => clear_wal_tag
  | SetOverflow n => fun p =>
      MkPage (pg_id p) (pg_flags p) (pg_pin_count p) (pg_wal_tag p) (pg_buffer p) n (pg_strong p)
  end.

Inductive cache_call : Type :=
  | CallInsert (key value : Z) | CallForceUpsert (key value : Z) | CallForceInsert (key value : Z)
  | CallDelete (key : Z) | CallGet (key : Z) | CallPeek (key : Z) (touch : bool)
  | CallResize (new_cap : Z) | CallCheckSpill (max_pages : Z) | CallSetSpill (enabled : bool)
  | CallClear (clear_dirty : bool) | CallTruncate (max_page_num : Z) | CallDeleteAfter (max_frame : Z)
  | CallMarkDirty (p : Z) | CallMarkSpilled (p : Z) | CallPage (p : Z) (a : page_action) | CallNewPage (p id : Z).
Inductive cache_reply : Type :=
  | ReplyUnit | ReplyPage (p : option Z) | ReplyResize (r : CacheResizeResult) | ReplySpill (r : SpillResult).
Definition call_cache (iter : gmap Z eptr -> list (Z * eptr)) (k : cache_call) : C cache_reply :=
  match k with
  | CallInsert key value => _ ← insert_ key value; mret ReplyUnit
  | CallForceUpsert key value => _ ← force_upsert_page key value; mret ReplyUnit
  | CallForceInsert key value => _ ← force_insert_page key value; mret ReplyUnit
  | CallDelete key => _ ← delete_ key; mret ReplyUnit
  | CallGet key => p ← get_ key; mret (ReplyPage p)
  | CallPeek key touch => p ← peek key touch; mret (ReplyPage p)
  | CallResize new_cap => r ← resize new_cap; mret (ReplyResize r)
  | CallCheckSpill max_pages => r ← check_spill iter max_pages; mret (ReplySpill r)
  | CallSetSpill enabled => _ ← smodify (set_spill_enabled enabled); mret ReplyUnit
  | CallClear clear_dirty => _ ← clear_ iter clear_dirty; mret ReplyUnit
  | CallTruncate max_page_num => _ ← truncate iter max_page_num; mret ReplyUnit
  | CallDeleteAfter max_frame => _ ← delete_clean_pages_after_wal_frame iter max_frame; mret ReplyUnit
  | CallMarkDirty p => _ ← mark_dirty p; mret ReplyUnit
  | CallMarkSpilled p => _ ← mark_spilled p; mret ReplyUnit
  | CallPage p a => _ ← update_page p (act a); mret ReplyUnit
  | CallNewPage p id =>
      _ ← sassert (0 <=? id); _ ← smodify (fun c => set_pages (<[p := new_page id]> (pc_pages c)) c); mret ReplyUnit
  end.

(** The page cached for a key. *)
Definition cached (c : PageCache) (key : Z) : option Z := e ← pc_map c !! key; e_page <$> pc_entries c !! e.
End cache.
Arguments PageCache L : clear implicits.
Notation CM L := (ST (PageCache L)).
