(* ===== verification/PageCacheInv.v ===== *)
(** The page cache of PageCache.v keeps its map, queue, heap of entries and clock hand
    consistent: together they are a ring of entries that starts at the hand.  On that ring
    the eviction is the SIEVE policy, no call of the pager follows a pointer that dangles,
    and no page that must stay in memory is dropped. *)

From stdpp Require Import base list gmap numbers sorting.
From Stdlib Require Import ZArith Lia.
From S2P Require Import Prelude PageCache.

(** * Lists of pairs as maps *)

Section keyed.
Context {K A : Type} `{Countable K}.
Implicit Types (l k : list (K * A)) (i : K) (x : A).

Lemma list_to_map_middle l k i x :
  NoDup (l ++ (i, x) :: k).*1 ->
  (list_to_map (l ++ (i, x) :: k) : gmap K A) = <[i := x]> (list_to_map (l ++ k)) /\
  (list_to_map (l ++ k) : gmap K A) !! i = None.
Proof.
  intros Hnd. rewrite <- list_to_map_cons. split.
  - apply list_to_map_proper; [done|]. by rewrite Permutation_middle.
  - apply not_elem_of_list_to_map_1. rewrite fmap_app in Hnd |- *. cbn in Hnd.
    apply NoDup_app in Hnd as (_ & Hl & Hk). apply NoDup_cons in Hk as [Hk _]. set_solver.
Qed.
Lemma list_to_map_hit l k i x : NoDup (l ++ (i, x) :: k).*1 -> (list_to_map (l ++ (i, x) :: k) : gmap K A) !! i = Some x.
Proof. intros Hnd. rewrite (proj1 (list_to_map_middle _ _ _ _ Hnd)). apply lookup_insert_eq. Qed.
Lemma list_to_map_delete l k i x :
  NoDup (l ++ (i, x) :: k).*1 -> delete i (list_to_map (l ++ (i, x) :: k)) = (list_to_map (l ++ k) : gmap K A).
Proof. intros Hnd. destruct (list_to_map_middle _ _ _ _ Hnd) as [-> Hn]. by apply delete_insert_id. Qed.
Lemma list_to_map_alter (f : A -> A) l k i x :
  NoDup (l ++ (i, x) :: k).*1 ->
  alter f i (list_to_map (l ++ (i, x) :: k)) = (list_to_map (l ++ (i, f x) :: k) : gmap K A).
Proof.
  intros Hnd. assert (Hnd' : NoDup (l ++ (i, f x) :: k).*1) by (rewrite fmap_app in *; done).
  rewrite (proj1 (list_to_map_middle _ _ _ _ Hnd)), (proj1 (list_to_map_middle _ _ _ _ Hnd')).
  apply alter_insert_eq.
Qed.
Lemma list_to_map_split l i x : (list_to_map l : gmap K A) !! i = Some x -> exists l1 l2, l = l1 ++ (i, x) :: l2.
Proof. intros Hi%elem_of_list_to_map_2. by apply list_elem_of_split in Hi as (l1 & l2 & ->); eauto. Qed.
End keyed.

(** * Flags *)

Lemma land_ldiff_swap a f g : Z.land (Z.ldiff a g) f = Z.land a (Z.ldiff f g).
Proof. rewrite !Z.ldiff_land, <- Z.land_assoc. f_equal. apply Z.land_comm. Qed.
Lemma has_clear_ne f g p : Z.ldiff f g = f -> has_flag f (clear_flag g p) = has_flag f p.
Proof.
  intros Hfg. unfold has_flag, clear_flag. cbn [pg_flags with_flags].
  by rewrite land_ldiff_swap, Hfg.
Qed.
Lemma has_clear_eq f p : has_flag f (clear_flag f p) = false.
Proof.
  unfold has_flag, clear_flag. cbn [pg_flags with_flags].
  by rewrite land_ldiff_swap, Z.ldiff_diag, Z.land_0_r.
Qed.
Lemma has_set_ne f g p : Z.land g f = 0 -> has_flag f (set_flag g p) = has_flag f p.
Proof. intros Hfg. unfold has_flag, set_flag. cbn [pg_flags with_flags]. by rewrite Z.land_lor_distr_l, Hfg, Z.lor_0_r. Qed.
Lemma has_set_eq f p : f <> 0 -> has_flag f (set_flag f p) = true.
Proof.
  intros Hf. unfold has_flag, set_flag. cbn [pg_flags with_flags]. rewrite Z.land_lor_distr_l, Z.land_diag.
  destruct (Z.eqb_spec (Z.lor (Z.land (pg_flags p) f) f) 0) as [Hz|]; [|done]. by apply Z.lor_eq_0_iff in Hz as [_ Hz].
Qed.
Create HintDb flags.
#[export] Hint Rewrite has_clear_ne has_set_ne using reflexivity : flags.
#[export] Hint Rewrite has_clear_eq : flags.
#[export] Hint Rewrite has_set_eq using discriminate : flags.
(** Look at the flags behind the other fields. *)
Lemma has_flag_eq f p q : pg_flags p = pg_flags q -> has_flag f p = has_flag f q.
Proof. unfold has_flag. by intros ->. Qed.

(** What becomes of the page of an entry that is removed. *)
Definition discard (p : Page) : Page := arc_drop (take_buffer (clear_loaded p)).
Lemma counted_eq p q :
  pg_id p = pg_id q -> is_dirty p = is_dirty q -> is_spilled p = is_spilled q ->
  counted_as_evictable p = counted_as_evictable q.
Proof. unfold counted_as_evictable. by intros -> -> ->. Qed.
Lemma counted_discard p : counted_as_evictable (discard p) = counted_as_evictable p.
Proof.
  apply counted_eq; [done|..]; (etrans; [by apply has_flag_eq with (q := clear_loaded p)|]);
    unfold clear_loaded, is_dirty, is_spilled; by autorewrite with flags.
Qed.
Lemma counted_strong n p : counted_as_evictable (with_strong n p) = counted_as_evictable p.
Proof. by apply counted_eq. Qed.
Lemma evictable_counted p : evictable p = true -> counted_as_evictable p = true.
Proof. unfold evictable, counted_as_evictable. intros Hp. by destruct (pg_id p =? HEADER_PAGE), (negb (is_dirty p) || is_spilled p), (is_locked p), (is_pinned p). Qed.

(** * The ring *)

Section ring.
Context {L : Type} `{LinkedListLaws L}.
Implicit Types (c : PageCache L) (ps : gmap Z Page) (ring : list (eptr * PageCacheEntry)).

(** The clock sweeps [ptrs] in this order, from the hand on. *)
Definition swept (q : L) (hand : option eptr) (ptrs : list eptr) : Prop :=
  NoDup ptrs /\ hand = head ptrs /\ exists l1 l2, ll_list q = l1 ++ l2 /\ ptrs = l2 ++ l1.
Definition key_of (x : eptr * PageCacheEntry) : Z * eptr := (e_key x.2, x.1).
(** The page of an entry is there and has the number the entry has it under. *)
Definition entry_ok ps (x : PageCacheEntry) : Prop :=
  0 <= e_ref_bit x <= REF_MAX /\ exists p, ps !! e_page x = Some p /\ pg_id p = e_key x.
Definition test_page ps (f : Page -> bool) (x : eptr * PageCacheEntry) : bool :=
  match ps !! e_page x.2 with Some p => f p | None => false end.
(** The cache is the ring: its entries in the order of the sweep. *)
Record holds c ring : Prop := {
  holds_entries : pc_entries c = list_to_map ring;
  holds_map : pc_map c = list_to_map (key_of <$> ring);
  holds_keys : NoDup (key_of <$> ring).*1;
  holds_queue : swept (pc_queue c) (pc_clock_hand c) ring.*1;
  holds_ok : Forall (fun x => entry_ok (pc_pages c) x.2) ring;
  holds_count : 0 <= pc_evictable_count c <= count_of (test_page (pc_pages c) counted_as_evictable) ring
}.
Definition wf c : Prop := exists ring, holds c ring.

(** ** Pages *)

(** The pages may change as long as they keep their number and none stops being counted. *)
Definition pages_le ps ps' : Prop :=
  forall i p, ps !! i = Some p -> exists p', ps' !! i = Some p' /\ pg_id p' = pg_id p /\
    (counted_as_evictable p = true -> counted_as_evictable p' = true).

Lemma pages_le_alter ps i (f : Page -> Page) :
  (forall p, pg_id (f p) = pg_id p) ->
  (forall p, ps !! i = Some p -> counted_as_evictable p = true -> counted_as_evictable (f p) = true) ->
  pages_le ps (alter f i ps).
Proof.
  intros Hid Hf j p Hp. destruct (decide (i = j)) as [->|Hne].
  - exists (f p). rewrite lookup_alter_eq, Hp. eauto.
  - exists p. by rewrite lookup_alter_ne.
Qed.
Lemma entry_ok_le ps ps' x : pages_le ps ps' -> entry_ok ps x -> entry_ok ps' x.
Proof. intros Hle (Hr & p & Hp & Hid). split; [done|]. destruct (Hle _ _ Hp) as (p' & ? & ? & _). exists p'. by rewrite <- Hid. Qed.
Lemma count_of_mono {A} (f g : A -> bool) l : (forall x, x ∈ l -> f x = true -> g x = true) -> count_of f l <= count_of g l.
Proof.
  induction l as [|x l IH]; intros Hfg; cbn [count_of foldr]; [done|].
  fold (count_of f l) (count_of g l). specialize (IH ltac:(set_solver)).
  specialize (Hfg x ltac:(set_solver)). unfold bit. destruct (f x), (g x); lia.
Qed.
Lemma test_page_le ps ps' ring :
  pages_le ps ps' -> count_of (test_page ps counted_as_evictable) ring <= count_of (test_page ps' counted_as_evictable) ring.
Proof.
  intros Hle. apply count_of_mono. intros x _. unfold test_page. destruct (ps !! _) as [p|] eqn:Hp; [|done].
  destruct (Hle _ _ Hp) as (p' & -> & _ & Hc). done.
Qed.
Lemma holds_pages c ring ps : holds c ring -> pages_le (pc_pages c) ps -> holds (set_pages ps c) ring.
Proof.
  intros [] Hle. destruct c; constructor; cbn in *; try done.
  - eapply Forall_impl; [done|]. intros x. by apply entry_ok_le.
  - assert (Ht := test_page_le _ _ ring Hle). lia.
Qed.

(** ** Counting *)

Lemma count_of_app {A} (f : A -> bool) l1 l2 : count_of f (l1 ++ l2) = count_of f l1 + count_of f l2.
Proof. induction l1 as [|x l1 IH]; [done|]. cbn [count_of foldr app]. fold (count_of f l1) (count_of f (l1 ++ l2)). rewrite IH. lia. Qed.
Lemma count_of_middle {A} (f : A -> bool) l1 x l2 : count_of f (l1 ++ x :: l2) = bit (f x) + count_of f (l1 ++ l2).
Proof. rewrite !count_of_app. cbn [count_of foldr]. fold (count_of f l2). lia. Qed.

(** ** The hand *)

Lemma swept_split (q : L) hand l1 x l2 :
  swept q hand (l1 ++ x :: l2) -> exists k1 k2, ll_list q = k1 ++ x :: k2 /\ NoDup (ll_list q).
Proof.
  intros (Hnd & _ & q1 & q2 & Hq & Hp).
  assert (Hin : x ∈ ll_list q) by (rewrite Hq; assert (x ∈ q2 ++ q1) by (rewrite <- Hp; set_solver); set_solver).
  apply list_elem_of_split in Hin as (k1 & k2 & Hk). exists k1, k2. split; [done|].
  rewrite Hq, (Permutation_app_comm q1 q2), <- Hp. done.
Qed.
Lemma swept_rotate (q : L) hand x l :
  swept q hand (x :: l) ->
  swept q (match ll_next x q with Some n => Some n | None => ll_front q end) (l ++ [x]).
Proof.
  intros (Hnd & -> & q1 & q2 & Hq & Hp).
  assert (Hnd' : NoDup (ll_list q)) by (by rewrite Hq, (Permutation_app_comm q1 q2), <- Hp).
  assert (Hr : NoDup (l ++ [x])) by (by rewrite Permutation_app_comm).
  assert (exists q1' q2', ll_list q = q1' ++ x :: q2' /\ l = q2' ++ q1') as (k1 & k2 & Hk & ->).
  { destruct q2 as [|y q2]; cbn in Hp; [|by simplify_eq; eauto].
    rewrite app_nil_r in Hq. exists [], l. by rewrite Hq, <- Hp, app_nil_r. }
  rewrite (ll_next_list q k1 x k2) by done. rewrite ll_front_list.
  split; [done|]. split.
  - rewrite Hk. destruct k2 as [|y k2]; cbn; [|done]. by destruct k1.
  - exists (k1 ++ [x]), k2. by rewrite Hk, <- !(assoc_L (++)).
Qed.

Lemma swept_remove (q : L) hand l1 x l2 :
  swept q hand (l1 ++ x :: l2) -> swept (ll_remove x q) (head (l1 ++ l2)) (l1 ++ l2).
Proof.
  intros Hs. destruct (swept_split _ _ _ _ _ Hs) as (_ & _ & _ & Hnd'). destruct Hs as (Hnd & _ & q1 & q2 & Hq & Hp).
  split; [|split; [done|]].
  { rewrite <- Permutation_middle in Hnd. by apply NoDup_cons in Hnd as [_ ?]. }
  symmetry in Hp. apply app_eq_inv in Hp as [(m & -> & Hm)|(m & -> & Hm)].
  - destruct m as [|y m]; cbn in Hm.
    + rewrite app_nil_r in Hq. subst q1. exists l2, l1. split; [|done].
      by rewrite (ll_list_remove q [] x (l2 ++ l1)).
    + simplify_eq. exists q1, (l1 ++ m). rewrite (ll_list_remove q (q1 ++ l1) y m), <- ?(assoc_L (++)); [done| |done].
      by rewrite Hq, <- (assoc_L (++)).
  - exists (m ++ l2), q2. rewrite (assoc_L (++)). split; [|done].
    rewrite (ll_list_remove q m x (l2 ++ q2)), <- ?(assoc_L (++)); [done| |done]. by rewrite Hq, Hm, <- (assoc_L (++)).
Qed.
Lemma swept_insert (q : L) hand x l y :
  swept q hand (x :: l) -> y ∉ x :: l -> swept (ll_insert_after x y q) hand (x :: y :: l).
Proof.
  intros Hs Hy. destruct (swept_split q hand [] x l Hs) as (_ & _ & _ & Hnd'). destruct Hs as (Hnd & -> & q1 & q2 & Hq & Hp).
  split; [|split; [done|]].
  { apply NoDup_cons in Hnd as [? ?]. rewrite !NoDup_cons. set_solver. }
  destruct q2 as [|z q2]; cbn in Hp.
  - rewrite app_nil_r in Hq. subst q1. exists [], (x :: y :: l). rewrite app_nil_r. split; [|done].
    by rewrite (ll_list_insert_after q [] x l).
  - simplify_eq. exists q1, (z :: y :: q2). split; [|done]. by rewrite (ll_list_insert_after q q1 z q2).
Qed.
Lemma swept_first (q : L) hand y : swept q hand [] -> swept (ll_push_back y q) (Some y) [y].
Proof.
  intros (_ & _ & q1 & q2 & Hq & Hp). symmetry in Hp. apply app_nil in Hp as [-> ->].
  split; [apply NoDup_singleton|]. split; [done|]. exists [], [y]. by rewrite ll_list_push_back, Hq.
Qed.

(** ** The steps of the cursor *)

Lemma wp_cursor (e : eptr) c hand l1 l2 Q E :
  swept (pc_queue c) hand (l1 ++ e :: l2) -> Q tt c -> wp (cursor_from_ptr e) c Q E.
Proof.
  intros Hs HQ. destruct (swept_split _ _ _ _ _ Hs) as (k1 & k2 & Hk & _).
  unfold wp, cursor_from_ptr. rewrite bool_decide_true by (rewrite Hk; set_solver). done.
Qed.
Lemma wp_entry_at (e : eptr) c x (Q : PageCacheEntry -> PageCache L -> Prop) E :
  pc_entries c !! e = Some x -> Q x c -> wp (entry_at e) c Q E.
Proof. intros He HQ. unfold wp, entry_at. by rewrite He. Qed.
Lemma wp_page_at p c x (Q : Page -> PageCache L -> Prop) E : pc_pages c !! p = Some x -> Q x c -> wp (page_at p) c Q E.
Proof. intros He HQ. unfold wp, page_at. by rewrite He. Qed.
Lemma wp_update_entry e f c (Q : unit -> PageCache L -> Prop) E :
  Q tt (set_entries (alter f e (pc_entries c)) c) -> wp (update_entry e f) c Q E.
Proof. done. Qed.
Lemma wp_update_page p f c (Q : unit -> PageCache L -> Prop) E :
  Q tt (set_pages (alter f p (pc_pages c)) c) -> wp (update_page p f) c Q E.
Proof. done. Qed.
Lemma wp_advance c e l (Q : unit -> PageCache L -> Prop) E :
  swept (pc_queue c) (pc_clock_hand c) (e :: l) -> Q tt (set_clock_hand (head (l ++ [e])) c) -> wp advance_clock_hand c Q E.
Proof.
  intros Hs HQ. assert (Hh : pc_clock_hand c = Some e) by apply Hs. assert (Hr := swept_rotate _ _ _ _ Hs).
  destruct Hr as (_ & Hr & _). unfold advance_clock_hand. wstep. wstep. rewrite Hh. wstep.
  apply (wp_cursor e c _ [] l _ _ Hs). rewrite <- Hr in HQ. by destruct (ll_next e (pc_queue c)).
Qed.
Lemma wp_hand_off c e l (Q : unit -> PageCache L -> Prop) E :
  swept (pc_queue c) (pc_clock_hand c) (e :: l) -> Q tt (set_clock_hand (head l) c) -> wp (hand_off e) c Q E.
Proof.
  intros Hs HQ. unfold hand_off. wstep. apply (wp_advance c e l); [done|]. wstep. wstep.
  assert (Hnd : NoDup (e :: l)) by apply Hs. apply NoDup_cons in Hnd as [He _].
  destruct c, l as [|y l]; cbn in *; [by rewrite bool_decide_true|].
  rewrite bool_decide_false by set_solver. done.
Qed.
Lemma wp_unlink c hand e x l1 l2 (Q : unit -> PageCache L -> Prop) E :
  swept (pc_queue c) hand (l1 ++ e :: l2) -> pc_entries c !! e = Some x ->
  Q tt (set_pages (alter arc_drop (e_page x) (pc_pages c))
          (set_entries (delete e (pc_entries c)) (set_queue (ll_remove e (pc_queue c)) c))) ->
  wp (unlink e) c Q E.
Proof.
  intros Hs He HQ. unfold unlink. wstep. apply (wp_cursor e c hand l1 l2); [done|]. wstep.
  apply (wp_entry_at e c x); [done|]. wstep. wstep. apply wp_update_page. by destruct c.
Qed.

(** ** Removing an entry *)

Definition same_limits c c' : Prop :=
  pc_capacity c' = pc_capacity c /\ pc_spill_threshold c' = pc_spill_threshold c /\ pc_spill_enabled c' = pc_spill_enabled c.
Definition removed c c' (x : PageCacheEntry) : Prop :=
  pc_pages c' = alter discard (e_page x) (pc_pages c) /\ same_limits c c'.

Lemma holds_nodup c ring : holds c ring -> NoDup ring.*1.
Proof. intros Hh. by destruct (holds_queue _ _ Hh). Qed.
Lemma holds_entry c l e x k : holds c (l ++ (e, x) :: k) -> pc_entries c !! e = Some x.
Proof. intros Hh. rewrite (holds_entries _ _ Hh). apply list_to_map_hit. by eapply holds_nodup. Qed.
Lemma holds_lookup c l e x k : holds c (l ++ (e, x) :: k) -> pc_map c !! e_key x = Some e.
Proof.
  intros Hh. rewrite (holds_map _ _ Hh), fmap_app, fmap_cons. apply (list_to_map_hit (key_of <$> l) _ (e_key x) e).
  by assert (Hk := holds_keys _ _ Hh); rewrite fmap_app, fmap_cons in Hk.
Qed.
Lemma holds_find c ring key e :
  holds c ring -> pc_map c !! key = Some e -> exists l x k, ring = l ++ (e, x) :: k /\ e_key x = key.
Proof.
  intros Hh He. rewrite (holds_map _ _ Hh) in He. apply elem_of_list_to_map_2, list_elem_of_fmap in He as ([e' x] & Heq & Hin).
  unfold key_of in Heq. cbn in Heq. simplify_eq. apply list_elem_of_split in Hin as (l & k & ->). eauto.
Qed.
Lemma holds_page c l e x k : holds c (l ++ (e, x) :: k) -> exists p, pc_pages c !! e_page x = Some p /\ pg_id p = e_key x.
Proof. intros Hh. assert (Ho := holds_ok _ _ Hh). apply Forall_app in Ho as [_ Ho]. by apply Forall_cons in Ho as [[_ ?] _]. Qed.
Lemma holds_size c ring : holds c ring -> size (pc_map c) = length ring.
Proof. intros Hh. rewrite (holds_map _ _ Hh), map_size_list_to_map by apply Hh. by rewrite length_fmap. Qed.

Lemma discard_le ps i : pages_le ps (alter discard i ps).
Proof. apply pages_le_alter; [done|]. intros p _. by rewrite counted_discard. Qed.

(** The counter after a page that was [counted] or not has left. *)
Definition count_after (counted : bool) (n : Z) : Z := if counted then Z.max 0 (n - 1) else n.
Lemma holds_remove c l e x k hand :
  holds c (l ++ (e, x) :: k) -> hand = head (l ++ k).*1 ->
  holds (MkCache (alter discard (e_page x) (pc_pages c)) (delete e (pc_entries c)) (pc_capacity c)
           (delete (e_key x) (pc_map c)) (ll_remove e (pc_queue c)) hand (pc_spill_threshold c) (pc_spill_enabled c)
           (count_after (test_page (pc_pages c) counted_as_evictable (e, x)) (pc_evictable_count c)))
    (l ++ k).
Proof.
  intros Hh ->. assert (Hnd := holds_nodup _ _ Hh). destruct Hh as [He Hm Hk Hq Ho Hc]. constructor; cbn.
  - rewrite He. by apply list_to_map_delete.
  - rewrite Hm, !fmap_app, fmap_cons. apply (list_to_map_delete (key_of <$> l)). by rewrite fmap_app, fmap_cons in Hk.
  - rewrite !fmap_app, fmap_cons, fmap_cons in Hk. rewrite !fmap_app. rewrite <- Permutation_middle in Hk. by apply NoDup_cons in Hk as [_ ?].
  - rewrite fmap_app. rewrite fmap_app, fmap_cons in Hq. by eapply (swept_remove _ _ (l.*1) e (k.*1)).
  - apply (Forall_impl (fun y => entry_ok (pc_pages c) y.2)); [|intros y; apply entry_ok_le, discard_le].
    rewrite Forall_app, Forall_cons in Ho. rewrite Forall_app. naive_solver.
  - assert (Ht := test_page_le _ _ (l ++ k) (discard_le (pc_pages c) (e_page x))).
    assert (Hb := count_of_bounds (test_page (pc_pages c) counted_as_evictable) (l ++ k)).
    rewrite count_of_middle in Hc. unfold count_after. destruct (test_page _ _ (e, x)); cbn in Hc; lia.
Qed.

(** A page that [_delete] refuses to drop. *)
Definition undeletable (p : Page) : bool := is_locked p || is_dirty p || is_pinned p.
Lemma wp_delete c l e x k pg (Q : unit -> PageCache L -> Prop) E :
  holds c (l ++ (e, x) :: k) -> pc_pages c !! e_page x = Some pg ->
  (undeletable pg = true -> forall err, err <> FromCache CacheFull -> E err c) ->
  (undeletable pg = false -> forall c', holds c' (l ++ k) -> removed c c' x -> Q tt c') ->
  wp (delete_ (e_key x)) c Q E.
Proof.
  intros Hh Hp HE HQ. unfold delete_, _delete. wstep. wstep. rewrite (holds_lookup _ _ _ _ _ Hh).
  wstep. eapply wp_entry_at; [by eapply holds_entry|]. wstep. eapply wp_page_at; [done|]. unfold undeletable in *.
  destruct (is_locked pg); [by apply HE|]. destruct (is_dirty pg); [by apply HE|]. destruct (is_pinned pg); [by apply HE|].
  specialize (HQ eq_refl). clear HE.
  assert (Hr := holds_remove c l e x k _ Hh eq_refl).
  assert (Hs := holds_queue _ _ Hh). assert (He := holds_entry _ _ _ _ _ Hh).
  assert (Ht : test_page (pc_pages c) counted_as_evictable (e, x) = counted_as_evictable pg) by (unfold test_page; cbn; by rewrite Hp).
  rewrite Ht in Hr. rewrite fmap_app, fmap_cons in Hs.
  destruct c as [ps es cap m q h th en n]; cbn in *.
  wstep. apply wp_update_page. wstep. wstep. wstep. wstep. cbn.
  wstep.
  assert (Hhand : wp (if bool_decide (h = Some e) then hand_off e else mret tt)
    (MkCache (alter (take_buffer ∘ clear_loaded) (e_page x) ps) es cap (delete (e_key x) m) q h th en n)
    (fun _ c' => c' = MkCache (alter (take_buffer ∘ clear_loaded) (e_page x) ps) es cap (delete (e_key x) m) q (head (l ++ k).*1) th en n) E).
  { destruct l as [|[e1 x1] l]; cbn in Hs.
    - rewrite bool_decide_true by apply Hs. by apply (wp_hand_off _ e k.*1).
    - destruct Hs as (Hnd & -> & _). apply NoDup_cons in Hnd as [Hne _]. rewrite bool_decide_false by set_solver. done. }
  eapply wp_conseq; [exact Hhand| |done]. intros _ ? ->. wstep.
  eapply (wp_unlink _ h e x); [exact Hs|done|]. cbn. rewrite alter_alter_eq.
  assert (Hrm : forall n', removed (MkCache ps es cap m q h th en n)
    (MkCache (alter discard (e_page x) ps) (delete e es) cap (delete (e_key x) m) (ll_remove e q) (head (l ++ k).*1) th en n') x) by done.
  by destruct (counted_as_evictable pg); apply HQ.
Qed.

(** ** Eviction *)

Lemma holds_rotate c e x t :
  holds c ((e, x) :: t) -> holds (set_clock_hand (head (t ++ [(e, x)]).*1) c) (t ++ [(e, x)]).
Proof.
  intros Hh. assert (Hnd := holds_nodup _ _ Hh). destruct Hh as [He Hm Hk Hq Ho Hc].
  assert (Hp : (e, x) :: t ≡ₚ t ++ [(e, x)]) by apply Permutation_cons_append.
  destruct c as [ps es cap m q h th en n]; constructor; cbn [set_clock_hand pc_entries pc_map pc_pages pc_queue pc_clock_hand pc_evictable_count] in *.
  - rewrite He. by apply list_to_map_proper.
  - rewrite Hm. apply list_to_map_proper; [done|]. by rewrite Hp.
  - by rewrite <- Hp.
  - rewrite fmap_app. cbn. apply swept_rotate in Hq as (? & _ & ?). done.
  - by rewrite <- Hp.
  - rewrite count_of_app. cbn [count_of foldr] in *. fold (count_of (test_page ps counted_as_evictable) t) in Hc. lia.
Qed.
Lemma holds_update c l e x k f :
  holds c (l ++ (e, x) :: k) -> e_key (f x) = e_key x -> e_page (f x) = e_page x -> 0 <= e_ref_bit (f x) <= REF_MAX ->
  holds (set_entries (alter f e (pc_entries c)) c) (l ++ (e, f x) :: k).
Proof.
  intros Hh Hfk Hfp Hfr. assert (Hnd := holds_nodup _ _ Hh). destruct Hh as [He Hm Hk Hq Ho Hc].
  assert (Hkey : key_of <$> l ++ (e, f x) :: k = key_of <$> l ++ (e, x) :: k).
  { rewrite !fmap_app, !fmap_cons. unfold key_of at 2 5. cbn. by rewrite Hfk. }
  destruct c as [ps es cap m q h th en n]; constructor; cbn in *.
  - rewrite He. by apply list_to_map_alter.
  - by rewrite Hkey.
  - by rewrite Hkey.
  - rewrite fmap_app, fmap_cons in Hq |- *. done.
  - rewrite Forall_app, Forall_cons in Ho |- *. destruct Ho as (? & (_ & p & ?) & ?). split_and!; [done| |done].
    split; [done|]. exists p. cbn. by rewrite Hfp, Hfk.
  - rewrite count_of_middle in Hc |- *. assert (test_page ps counted_as_evictable (e, f x) = test_page ps counted_as_evictable (e, x)) as -> by (unfold test_page; cbn; by rewrite Hfp). done.
Qed.

(** [n] sweeps over an entry whose page is evictable take [n] off its counter. *)
Definition age ps (n : Z) (x : eptr * PageCacheEntry) : eptr * PageCacheEntry :=
  if test_page ps evictable x then (x.1, MkEntry (e_key x.2) (e_page x.2) (e_ref_bit x.2 - n)) else x.
(** The policy: of the entries whose page is evictable, the first of those with the smallest
    counter goes; the hand moves on to the entry after it. *)
Definition sieved ps ring (x : eptr * PageCacheEntry) ring' : Prop :=
  exists l k, ring = l ++ x :: k /\ test_page ps evictable x = true /\
    Forall (fun y => test_page ps evictable y = true -> e_ref_bit x.2 < e_ref_bit y.2) l /\
    Forall (fun y => test_page ps evictable y = true -> e_ref_bit x.2 <= e_ref_bit y.2) k /\
    ring' = (age ps (e_ref_bit x.2) <$> k) ++ (age ps (e_ref_bit x.2 + 1) <$> l).

Lemma test_age ps f n x : test_page ps f (age ps n x) = test_page ps f x.
Proof. unfold age. by destruct (test_page ps evictable x). Qed.
Lemma age_age ps n m x : age ps n (age ps m x) = age ps (m + n) x.
Proof. unfold age at 1 3. rewrite test_age. unfold age. destruct (test_page ps evictable x); cbn; [|done]. do 2 f_equal. lia. Qed.
Lemma age_0 ps x : age ps 0 x = x.
Proof. unfold age. destruct x as [e []]; destruct (test_page _ _ _); cbn; [|done]. do 2 f_equal. lia. Qed.
Lemma age_ref ps n x : test_page ps evictable x = true -> e_ref_bit (age ps n x).2 = e_ref_bit x.2 - n.
Proof. unfold age. by intros ->. Qed.
(** A sweep over the first entry does not change what is evicted, if it is not that entry. *)
Lemma sieved_rotate ps x t y ring' :
  (test_page ps evictable x = true -> 0 < e_ref_bit x.2) ->
  sieved ps (t ++ [age ps 1 x]) y ring' -> exists y', e_page y'.2 = e_page y.2 /\ e_key y'.2 = e_key y.2 /\ sieved ps (x :: t) y' ring'.
Proof.
  intros Hx (l & k & Heq & Hy & Hl & Hk & ->). destruct k as [|z k _] using rev_ind.
  - (* the entry itself *)
    apply app_inj_tail in Heq as [-> <-]. rewrite test_age in Hy. rewrite age_ref in * by done.
    exists x. split_and!; [unfold age; by rewrite Hy..|]. exists [], l. split_and!; [done|done|constructor|..].
    + eapply Forall_impl; [exact Hl|]. cbn. intros z Hz Hzt. specialize (Hz Hzt). lia.
    + cbn. rewrite app_nil_r. apply list_fmap_ext. intros _ z _. f_equal. lia.
  - rewrite app_comm_cons, (assoc_L (++)) in Heq.
    apply app_inj_tail in Heq as [-> <-]. exists y. split_and!; [done|done|].
    apply Forall_app in Hk as [Hk Hz]. rewrite Forall_singleton, test_age in Hz.
    exists (x :: l), k. split_and!; [done|done| |done|].
    + constructor; [|done]. intros Hxt. specialize (Hz Hxt). rewrite age_ref in Hz by done. lia.
    + rewrite fmap_app. cbn. rewrite <- (assoc_L (++)). cbn. rewrite age_age. do 3 f_equal. lia.
Qed.

(** A sweep changes the counters and the hand only. *)
Definition idle c c' : Prop := pc_pages c' = pc_pages c /\ pc_map c' = pc_map c /\ same_limits c c'.
(** One examination: the entry at the hand goes, or the hand moves on. *)
Lemma wp_evict_step n c e x t (Q : unit -> PageCache L -> Prop) E :
  holds c ((e, x) :: t) ->
  (test_page (pc_pages c) evictable (e, x) = true -> e_ref_bit x = 0 ->
   forall c', holds c' t -> removed c c' x -> Q tt c') ->
  ((test_page (pc_pages c) evictable (e, x) = true -> 0 < e_ref_bit x) ->
   forall c', holds c' (t ++ [age (pc_pages c) 1 (e, x)]) -> idle c c' -> wp (evict_loop n) c' Q E) ->
  wp (evict_loop (S n)) c Q E.
Proof.
  intros Hh Hgo Hon. assert (Hs := holds_queue _ _ Hh). cbn in Hs. assert (He := holds_entry c [] e x t Hh).
  assert (Hr := holds_remove c [] e x t _ Hh eq_refl). assert (Href := proj1 (proj1 (Forall_cons_1 _ _ _ (holds_ok _ _ Hh)))). cbn in Href.
  destruct (holds_page c [] e x t Hh) as (p & Hp & _).
  assert (Ht : forall f, test_page (pc_pages c) f (e, x) = f p) by (intros f; unfold test_page; cbn; by rewrite Hp).
  unfold age in Hon. rewrite Ht in Hgo, Hon, Hr.
  cbn [evict_loop]. wstep. wstep. assert (pc_clock_hand c = Some e) as -> by apply Hs.
  wstep. eapply wp_entry_at; [done|]. wstep. eapply wp_page_at; [done|].
  destruct (evictable p) eqn:Hev; cbn [andb].
  - rewrite (evictable_counted _ Hev) in Hr |- *. destruct (Z.eqb_spec (e_ref_bit x) CLEAR) as [Hz|Hz]; unfold CLEAR in Hz.
    + wstep. wstep; [done|]. wstep. eapply wp_hand_off; [done|]. wstep. wstep. wstep. apply wp_update_page.
      destruct c as [ps es cap m q h th en k]; cbn in *. wstep.
      eapply (wp_unlink _ h e x [] t.*1); [done|done|]. cbn. rewrite alter_alter_eq. by apply Hgo.
    + specialize (Hon ltac:(intros; lia)). cbn in Hon.
      assert (Hrd : 0 <= e_ref_bit (decrement_ref x) <= REF_MAX) by (cbn; lia).
      assert (Hu := holds_update c [] e x t decrement_ref Hh eq_refl eq_refl Hrd).
      wstep. apply wp_update_entry. wstep. eapply wp_advance; [exact (holds_queue _ _ Hu)|].
      apply holds_rotate in Hu. cbn [app] in Hu. rewrite fmap_app in Hu.
      assert (Hdec : decrement_ref x = MkEntry (e_key x) (e_page x) (e_ref_bit x - 1)) by (unfold decrement_ref; f_equal; lia).
      apply Hon; [by rewrite <- Hdec|by destruct c].
  - wstep. eapply wp_advance; [done|]. apply Hon; [done| |by destruct c].
    apply holds_rotate in Hh. by rewrite fmap_app in Hh.
Qed.
Lemma idle_removed c c1 c' x : idle c c1 -> removed c1 c' x -> removed c c' x.
Proof. unfold idle, removed, same_limits. intros (-> & _ & ? & ? & ?) (-> & ? & ? & ?). split_and!; [done|congruence..]. Qed.
Lemma idle_trans c c1 c2 : idle c c1 -> idle c1 c2 -> idle c c2.
Proof. unfold idle, same_limits. intuition congruence. Qed.

(** If a page is evictable it is reached before the loop gives up. *)
Lemma wp_evict_found n c ring d y (Q : unit -> PageCache L -> Prop) E :
  holds c ring -> ring !! d = Some y -> test_page (pc_pages c) evictable y = true ->
  e_ref_bit y.2 * len ring + Z.of_nat d < Z.of_nat n ->
  (forall c' x ring', sieved (pc_pages c) ring x ring' -> holds c' ring' -> removed c c' x.2 -> Q tt c') ->
  wp (evict_loop n) c Q E.
Proof.
  revert c ring d y. induction n as [|n IH]; intros c ring d y Hh Hd Hy Hn HQ.
  { assert (Ho := holds_ok _ _ Hh). eapply Forall_lookup_1 in Ho; [|done]. destruct Ho as [? _]. unfold len in Hn. lia. }
  destruct ring as [|[e x] t]; [done|]. eapply wp_evict_step; [done|..].
  - intros Hev Hz c' Hc' Hr. apply (HQ c' (e, x) t); [|done|done]. exists [], t. cbn. rewrite Hz, app_nil_r.
    assert (Ho := holds_ok _ _ Hh). apply Forall_cons in Ho as [_ Ho].
    split_and!; [done|done|constructor| |by rewrite (list_fmap_ext _ id) by (intros; apply age_0); rewrite list_fmap_id].
    eapply Forall_impl; [exact Ho|]. intros z [Hz' _] _. apply Hz'.
  - intros Hx c1 Hc1 Hi. assert (Hps : pc_pages c1 = pc_pages c) by apply Hi.
    assert (Hq : exists d' y', (t ++ [age (pc_pages c) 1 (e, x)]) !! d' = Some y' /\ test_page (pc_pages c) evictable y' = true /\
      e_ref_bit y'.2 * len (t ++ [age (pc_pages c) 1 (e, x)]) + Z.of_nat d' < Z.of_nat n).
    { rewrite len_app. unfold len in *. cbn [length] in *. destruct d as [|d]; cbn in Hd; simplify_eq.
      - exists (length t), (age (pc_pages c) 1 (e, x)). rewrite lookup_app_r, Nat.sub_diag by done. rewrite test_age, age_ref by done.
        specialize (Hx Hy). cbn in *. split_and!; [done|done|]. nia.
      - exists d, y. rewrite lookup_app_l by (by eapply lookup_lt_Some). split_and!; [done|done|]. lia. }
    destruct Hq as (d' & y' & Hd' & Hy' & Hn'). eapply (IH c1); [done|done|by rewrite Hps|done|].
    rewrite Hps. intros c' z ring' Hsv Hc' Hr. apply sieved_rotate in Hsv as (z' & Hzp & _ & Hsv); [|done].
    apply (HQ c' z' ring'); [done|done|]. eapply idle_removed; [done|]. unfold removed in *. by rewrite Hzp.
Qed.

(** Without an evictable page the hand goes round and comes back. *)
Lemma wp_evict_pass n l k c (Q : unit -> PageCache L -> Prop) E :
  holds c (l ++ k) -> Forall (fun y => test_page (pc_pages c) evictable y = false) l ->
  (forall c', holds c' (k ++ l) -> idle c c' -> wp (evict_loop n) c' Q E) ->
  wp (evict_loop (length l + n)) c Q E.
Proof.
  revert k c. induction l as [|[e x] l IH]; intros k c Hh Hl HQ.
  { cbn. apply HQ; [by rewrite app_nil_r|done]. }
  apply Forall_cons in Hl as [Hx Hl]. rewrite <- app_comm_cons in Hh. cbn [length Nat.add]. eapply wp_evict_step; [exact Hh| |].
  { intros Hev. by rewrite Hx in Hev. }
  intros _ c1 Hc1 Hi. assert (Hps : pc_pages c1 = pc_pages c) by apply Hi.
  unfold age in Hc1. rewrite Hx, <- (assoc_L (++)) in Hc1. apply (IH (k ++ [(e, x)])); [done|by rewrite Hps|].
  rewrite <- (assoc_L (++)). intros c' Hc' Hi'. apply HQ; [done|]. by eapply idle_trans.
Qed.
Lemma wp_evict_full n ring c (Q : unit -> PageCache L -> Prop) E :
  holds c ring -> Forall (fun y => test_page (pc_pages c) evictable y = false) ring ->
  (forall c', holds c' ring -> idle c c' -> E (FromCache CacheFull) c') ->
  wp (evict_loop (n * length ring)) c Q E.
Proof.
  revert c. induction n as [|n IH]; intros c Hh Hr HE; [by apply HE|]. cbn.
  apply wp_evict_pass with (k := []); [by rewrite app_nil_r|done|]. cbn. intros c' Hc' Hi.
  assert (Hps : pc_pages c' = pc_pages c) by apply Hi. apply IH; [done|by rewrite Hps|].
  intros c2 Hc2 Hi2. apply HE; [done|]. by eapply idle_trans.
Qed.
Lemma wp_evict_one c ring (Q : unit -> PageCache L -> Prop) E :
  holds c ring -> ring <> [] ->
  (forall c' x ring', sieved (pc_pages c) ring x ring' -> holds c' ring' -> removed c c' x.2 -> Q tt c') ->
  (Forall (fun y => test_page (pc_pages c) evictable y = false) ring ->
   forall c', holds c' ring -> idle c c' -> E (FromCache CacheFull) c') ->
  wp evict_one c Q E.
Proof.
  intros Hh Hne HQ HE. assert (Hsz := holds_size _ _ Hh). unfold evict_one. wstep. wstep. unfold cache_len. rewrite Hsz.
  destruct (Z.eqb_spec (Z.of_nat (length ring)) 0); [by destruct ring|].
  destruct (decide (Exists (fun y => test_page (pc_pages c) evictable y = true) ring)) as [Hex|Hno].
  - apply Exists_exists in Hex as (y & [d Hd]%list_elem_of_lookup_1 & Hy).
    eapply wp_evict_found; [done|exact Hd|exact Hy| |done]. assert (Ho := holds_ok _ _ Hh).
    eapply Forall_lookup_1 in Ho; [|done]. destruct Ho as [Ho _]. apply lookup_lt_Some in Hd. cbn [REF_MAX] in *.
    change (Z.to_nat REF_MAX + 1)%nat with 4%nat. unfold len, REF_MAX in *. nia.
  - rewrite Nat.mul_comm. apply wp_evict_full; [done| |].
    + apply Forall_forall. intros y Hy. apply not_true_is_false. intros Hev. apply Hno. apply Exists_exists. eauto.
    + apply HE. apply Forall_forall. intros y Hy. apply not_true_is_false. intros Hev. apply Hno. apply Exists_exists. eauto.
Qed.

(** ** Pages that stay *)

(** A page that is being written or used. *)
Definition protected (p : Page) : bool := (is_dirty p && negb (is_spilled p)) || is_locked p || is_pinned p.
Definition same_page (p p' : Page) : Prop :=
  pg_id p' = pg_id p /\ pg_flags p' = pg_flags p /\ pg_buffer p' = pg_buffer p /\ pg_pin_count p <= pg_pin_count p'.
(** The protected pages stay cached and in memory, but for the one of the key [except]. *)
Definition survives (except : option Z) c c' : Prop :=
  forall key i p, except <> Some key -> cached c key = Some i -> pc_pages c !! i = Some p -> protected p = true ->
    cached c' key = Some i /\ exists p', pc_pages c' !! i = Some p' /\ same_page p p'.
(** What all the operations do but those that drop pages on purpose. *)
Definition keeps (except : option Z) c c' : Prop :=
  survives except c c' /\ same_limits c c' /\ pages_le (pc_pages c) (pc_pages c').
(** ... and those that do not insert. *)
Definition shrinks c c' : Prop := keeps None c c' /\ forall key, pc_map c !! key = None -> pc_map c' !! key = None.

Lemma pages_le_refl ps : pages_le ps ps.
Proof. intros i p Hp. eauto. Qed.
Lemma pages_le_trans ps ps1 ps2 : pages_le ps ps1 -> pages_le ps1 ps2 -> pages_le ps ps2.
Proof.
  intros H1 H2 i p Hp. destruct (H1 i p Hp) as (p1 & Hp1 & Hid1 & Hc1). destruct (H2 i p1 Hp1) as (p2 & Hp2 & Hid2 & Hc2).
  exists p2. split_and!; [done|congruence|auto].
Qed.
Lemma same_page_protected p p' : same_page p p' -> protected p = true -> protected p' = true.
Proof.
  intros (_ & Hf & _ & Hn). unfold protected, is_dirty, is_spilled, is_locked, is_pinned, has_flag. rewrite Hf.
  destruct (Z.ltb_spec 0 (pg_pin_count p)), (Z.ltb_spec 0 (pg_pin_count p')); rewrite ?orb_true_r; auto; lia.
Qed.
Lemma same_page_trans p p1 p2 : same_page p p1 -> same_page p1 p2 -> same_page p p2.
Proof. unfold same_page. intros (? & ? & ? & ?) (? & ? & ? & ?). split_and!; [congruence..|lia]. Qed.
Lemma survives_trans X c c1 c2 : survives X c c1 -> survives X c1 c2 -> survives X c c2.
Proof.
  intros H1 H2 key i p HX Hk Hp Hpr. destruct (H1 key i p HX Hk Hp Hpr) as (Hk1 & p1 & Hp1 & Hs1).
  destruct (H2 key i p1 HX Hk1 Hp1) as (Hk2 & p2 & Hp2 & Hs2); [by eapply same_page_protected|].
  split; [done|]. exists p2. split; [done|]. by eapply same_page_trans.
Qed.
Lemma same_limits_trans c c1 c2 : same_limits c c1 -> same_limits c1 c2 -> same_limits c c2.
Proof. unfold same_limits. intuition congruence. Qed.
Global Instance keeps_preorder X : PreOrder (keeps X).
Proof.
  split; [intros c|intros c c1 c2 (? & ? & ?) (? & ? & ?)].
  - split_and!; [|done|apply pages_le_refl]. intros key i p _ ? ? _. split; [done|]. exists p. done.
  - split_and!; [by eapply survives_trans|by eapply same_limits_trans|by eapply pages_le_trans].
Qed.
Lemma keeps_weaken X c c' : keeps None c c' -> keeps X c c'.
Proof. intros [Hs ?]. split; [|done]. intros key i p _. by apply Hs. Qed.
Global Instance shrinks_preorder : PreOrder shrinks.
Proof. split; [intros c|intros c c1 c2 [H1 K1] [H2 K2]]; (split; [|by auto]); [done|by etrans]. Qed.

Lemma cached_iff c ring key i :
  holds c ring -> cached c key = Some i <-> exists x, x ∈ ring /\ e_key x.2 = key /\ e_page x.2 = i.
Proof.
  intros Hh. unfold cached. split.
  - intros Hc. destruct (pc_map c !! key) as [e|] eqn:He; [|done]. cbn in Hc.
    destruct (holds_find _ _ _ _ Hh He) as (l & x & k & -> & <-). rewrite (holds_entry _ _ _ _ _ Hh) in Hc. cbn in Hc. simplify_eq.
    exists (e, x). split; [set_solver|done].
  - intros ([e x] & Hin & <- & <-). apply list_elem_of_split in Hin as (l & k & ->). cbn.
    rewrite (holds_lookup _ _ _ _ _ Hh). cbn. by rewrite (holds_entry _ _ _ _ _ Hh).
Qed.
Lemma uncached_iff c ring key : holds c ring -> pc_map c !! key = None <-> forall x, x ∈ ring -> e_key x.2 <> key.
Proof.
  intros Hh. split.
  - intros Hn [e x] Hin <-. apply list_elem_of_split in Hin as (l & k & ->). cbn in Hn. by rewrite (holds_lookup _ _ _ _ _ Hh) in Hn.
  - intros Hno. destruct (pc_map c !! key) as [e|] eqn:He; [|done].
    destruct (holds_find _ _ _ _ Hh He) as (l & x & k & -> & <-). exfalso. apply (Hno (e, x)); [set_solver|done].
Qed.
(** No page is cached twice. *)
Lemma holds_page_inj c ring x y : holds c ring -> x ∈ ring -> y ∈ ring -> e_page x.2 = e_page y.2 -> x = y.
Proof.
  intros Hh Hx Hy Heq. destruct x as [e x], y as [e' y]; cbn in *.
  assert (Hk : e_key x = e_key y).
  { assert (Ho := holds_ok _ _ Hh). rewrite Forall_forall in Ho.
    destruct (Ho _ Hx) as (_ & p & Hp & Hi), (Ho _ Hy) as (_ & p' & Hp' & Hi'). cbn in *. congruence. }
  apply list_elem_of_split in Hx as (l & k & ->). assert (He := holds_lookup _ _ _ _ _ Hh).
  apply list_elem_of_split in Hy as (l' & k' & Hr). assert (Hh' := Hh). rewrite Hr in Hh'.
  assert (He' := holds_lookup _ _ _ _ _ Hh'). assert (e = e') as -> by congruence.
  assert (H1 := holds_entry _ _ _ _ _ Hh). assert (H2 := holds_entry _ _ _ _ _ Hh'). congruence.
Qed.

(** Rings with the same keys and pages, up to entries that left. *)
Definition covered ring ring' : Prop :=
  forall y, y ∈ ring -> exists y', y' ∈ ring' /\ e_key y'.2 = e_key y.2 /\ e_page y'.2 = e_page y.2.
Lemma shrinks_remove c ring c' ring' x pg :
  holds c ring -> holds c' ring' -> x ∈ ring -> removed c c' x.2 -> pc_pages c !! e_page x.2 = Some pg -> protected pg = false ->
  (forall y, y ∈ ring -> y <> x -> exists y', y' ∈ ring' /\ e_key y'.2 = e_key y.2 /\ e_page y'.2 = e_page y.2) ->
  covered ring' ring -> shrinks c c'.
Proof.
  intros Hh Hh' Hx [Hps Hl] Hp Hpr Hrest Hcov. split; [split_and!|].
  - intros key i p _ Hk Hi Hpr'. apply (cached_iff _ _ _ _ Hh) in Hk as (y & Hy & <- & <-).
    assert (Hne : e_page y.2 <> e_page x.2) by congruence.
    destruct (Hrest y Hy) as (y' & Hy' & Hyk & Hyp); [congruence|]. split; [apply (cached_iff _ _ _ _ Hh'); eauto|].
    exists p. rewrite Hps, lookup_alter_ne by done. done.
  - done.
  - rewrite Hps. apply discard_le.
  - intros key Hn. apply (uncached_iff _ _ _ Hh'). intros y' Hy' Hk. destruct (Hcov _ Hy') as (y & Hy & Hyk & _).
    eapply (uncached_iff _ _ _ Hh) in Hn; [|done]. congruence.
Qed.
Lemma shrinks_idle c ring c' : holds c ring -> holds c' ring -> idle c c' -> shrinks c c'.
Proof.
  intros Hh Hh' (Hps & Hm & Hl). split; [split_and!; [|done|rewrite Hps; apply pages_le_refl]|by rewrite Hm].
  intros key i p _ Hk Hi _. apply (cached_iff _ _ _ _ Hh), (cached_iff _ _ _ _ Hh') in Hk. split; [done|]. exists p. by rewrite Hps.
Qed.
Lemma age_same ps n x : e_key (age ps n x).2 = e_key x.2 /\ e_page (age ps n x).2 = e_page x.2.
Proof. unfold age. by destruct (test_page _ _ _). Qed.
Lemma evictable_unprotected p : evictable p = true -> protected p = false.
Proof. unfold evictable, protected. intros Hp. by destruct (is_dirty p), (is_spilled p), (is_locked p), (is_pinned p). Qed.
Lemma undeletable_unprotected p : undeletable p = false -> protected p = false.
Proof. unfold undeletable, protected. intros Hp. by destruct (is_dirty p), (is_spilled p), (is_locked p), (is_pinned p). Qed.
Lemma test_page_inv ps f x : test_page ps f x = true -> exists p, ps !! e_page x.2 = Some p /\ f p = true.
Proof. unfold test_page. destruct (ps !! _) as [p|]; [eauto|done]. Qed.

Lemma sieved_length ps ring x ring' : sieved ps ring x ring' -> length ring = S (length ring').
Proof. intros (l & k & -> & _ & _ & _ & ->). rewrite !length_app, !length_fmap. cbn. lia. Qed.
Lemma shrinks_sieved c ring x c' ring' :
  holds c ring -> sieved (pc_pages c) ring x ring' -> holds c' ring' -> removed c c' x.2 -> shrinks c c'.
Proof.
  intros Hh (l & k & -> & Ht & _ & _ & ->) Hh' Hr. destruct (test_page_inv _ _ _ Ht) as (p & Hp & Hev).
  apply (shrinks_remove c (l ++ x :: k) c' _ x p Hh Hh'); [set_solver|done|done|by apply evictable_unprotected|..].
  - intros y Hy Hne.
    assert (exists n, age (pc_pages c) n y ∈ (age (pc_pages c) (e_ref_bit x.2) <$> k) ++ (age (pc_pages c) (e_ref_bit x.2 + 1) <$> l)) as [n Hn].
    { apply elem_of_app in Hy as [Hy|[->|Hy]%elem_of_cons]; [|done|]; eexists; apply elem_of_app; [right|left]; by apply list_elem_of_fmap_2. }
    eexists. split; [exact Hn|]. apply age_same.
  - intros y' Hy'. apply elem_of_app in Hy' as [Hy'|Hy']; apply list_elem_of_fmap in Hy' as (y & -> & Hy); exists y;
      (split; [set_solver|]); destruct (age_same (pc_pages c) (e_ref_bit x.2) y), (age_same (pc_pages c) (e_ref_bit x.2 + 1) y); done.
Qed.
(** [delete_] leaves its key uncached or fails without an effect. *)
Lemma delete_keeps c key :
  wf c -> wp (delete_ key) c (fun _ c' => wf c' /\ shrinks c c' /\ pc_map c' !! key = None)
    (fun err c' => err <> FromCache CacheFull /\ c' = c).
Proof.
  intros [ring Hh]. destruct (pc_map c !! key) as [e|] eqn:He.
  - destruct (holds_find _ _ _ _ Hh He) as (l & x & k & -> & <-). destruct (holds_page _ _ _ _ _ Hh) as (p & Hp & _).
    eapply wp_delete; [done|done|done|]. intros Hu c' Hh' Hr. split; [by eexists|]. split.
    + eapply (shrinks_remove c _ c' _ (e, x) p Hh Hh'); [set_solver|done|done|by apply undeletable_unprotected|..].
      * intros y Hy Hne. exists y. set_solver.
      * intros y Hy. exists y. set_solver.
    + apply (uncached_iff _ _ _ Hh'). intros y Hy Hk. assert (Hks := holds_keys _ _ Hh).
      rewrite !fmap_app, fmap_cons, fmap_cons, <- Permutation_middle in Hks. apply NoDup_cons in Hks as [Hks _].
      apply Hks. cbn. rewrite <- Hk, <- fmap_app, <- fmap_app. apply list_elem_of_fmap. exists (key_of y). split; [done|].
      by apply list_elem_of_fmap_2.
  - unfold delete_, _delete. wstep. wstep. rewrite He. split; [by exists ring|]. done.
Qed.

(** ** Making room *)

(** Why an insertion is refused: no page may be dropped. *)
Definition stuck c : Prop :=
  pc_capacity c < 1 \/
  (pc_capacity c <= cache_len c /\ forall key i p, cached c key = Some i -> pc_pages c !! i = Some p -> evictable p = false).
Lemma wp_make_room_loop fuel target c :
  wf c -> 0 <= target -> cache_len c <= target + Z.of_nat fuel ->
  wp (make_room_loop fuel target) c
    (fun _ c' => wf c' /\ shrinks c c' /\ cache_len c' <= target)
    (fun err c' => wf c' /\ shrinks c c' /\ err = FromCache CacheFull /\ target < cache_len c' /\
       forall key i p, cached c' key = Some i -> pc_pages c' !! i = Some p -> evictable p = false).
Proof.
  intros Hwf Ht. revert c Hwf. induction fuel as [|fuel IH]; intros c [ring Hh] Hn; assert (Hsz := holds_size _ _ Hh);
    cbn [make_room_loop]; wstep; wstep; destruct (Z.ltb_spec target (cache_len c)) as [Hlt|Hge].
  1: lia.
  1, 3: wstep; split; [by exists ring|done].
  wstep. eapply wp_evict_one; [done|unfold cache_len in Hlt; destruct ring; cbn in Hsz; [lia|done]|..].
  - intros c' x ring' Hsv Hh' Hr. assert (Hsh := shrinks_sieved _ _ _ _ _ Hh Hsv Hh' Hr). apply sieved_length in Hsv.
    assert (Hsz' := holds_size _ _ Hh'). eapply wp_conseq; [apply IH; [by exists ring'|unfold cache_len in *; lia]|..]; cbn.
    + intros _ c2 (? & ? & ?). split_and!; [done|by etrans|done].
    + intros err c2 (? & ? & ? & ? & ?). split_and!; [done|by etrans|done..].
  - intros Hno c' Hh' Hi. split_and!; [by exists ring|by eapply shrinks_idle|done| |].
    + unfold cache_len in *. by destruct Hi as (_ & -> & _).
    + intros key i p Hk Hp. apply (cached_iff _ _ _ _ Hh') in Hk as (y & Hy & _ & <-).
      rewrite Forall_forall in Hno. specialize (Hno y Hy). unfold test_page in Hno. destruct Hi as (Hps & _). rewrite Hps in Hp.
      by rewrite Hp in Hno.
Qed.
Lemma wp_make_room_for b c :
  wf c ->
  wp (make_room_for 1 b) c
    (fun _ c' => wf c' /\ shrinks c c' /\ (b = false -> cache_len c' <= pc_capacity c' - 1))
    (fun err c' => wf c' /\ shrinks c c' /\ err = FromCache CacheFull /\ b = false /\ stuck c').
Proof.
  intros Hwf. unfold make_room_for. destruct b; [by wstep|]. wstep. wstep.
  destruct (Z.ltb_spec (pc_capacity c) 1) as [Hlt|Hge].
  - split_and!; [done..|by left].
  - eapply wp_conseq; [apply wp_make_room_loop; [done|lia|unfold cache_len; lia]|..]; cbn.
    + intros _ c' (? & Hs & ?). split_and!; [done|done|]. intros _. destruct Hs as [(_ & (Hcap & _) & _) _]. by rewrite Hcap.
    + intros err c' (? & Hs & ? & ? & ?). split_and!; [done..|]. right. destruct Hs as [(_ & (Hcap & _) & _) _]. split; [lia|done].
Qed.

(** ** Inserting an entry *)

Lemma holds_add c l k e x q hand n :
  holds c (l ++ k) -> e ∉ (l ++ k).*1 -> pc_map c !! e_key x = None -> entry_ok (pc_pages c) x ->
  swept q hand (l ++ (e, x) :: k).*1 ->
  0 <= n <= pc_evictable_count c + bit (test_page (pc_pages c) counted_as_evictable (e, x)) ->
  holds (MkCache (pc_pages c) (<[e := x]> (pc_entries c)) (pc_capacity c) (<[e_key x := e]> (pc_map c)) q hand
           (pc_spill_threshold c) (pc_spill_enabled c) n) (l ++ (e, x) :: k).
Proof.
  intros Hh He Hk Hx Hs Hn. assert (Hno := proj1 (uncached_iff _ _ _ Hh) Hk). destruct Hh as [Hes Hm Hks Hq Ho Hc].
  assert (Hnd : NoDup (l ++ (e, x) :: k).*1) by apply Hs.
  assert (Hkd : NoDup (key_of <$> l ++ (e, x) :: k).*1).
  { rewrite !fmap_app, fmap_cons, fmap_cons, <- Permutation_middle. rewrite !fmap_app in Hks. apply NoDup_cons. split; [|done].
    rewrite <- !fmap_app. intros Hin. apply list_elem_of_fmap in Hin as (y & Hy & Hin). apply list_elem_of_fmap in Hin as (z & -> & Hz).
    cbn in Hy. by apply (Hno z Hz). }
  constructor; cbn; [| |done|done|..].
  - rewrite Hes. symmetry. by apply list_to_map_middle.
  - rewrite fmap_app, fmap_cons in Hkd |- *. rewrite Hm, fmap_app. symmetry. by apply (list_to_map_middle (key_of <$> l)).
  - rewrite Forall_app, Forall_cons in *. naive_solver.
  - rewrite count_of_middle. lia.
Qed.
Lemma wp_count_up (b : bool) c (Q : unit -> PageCache L -> Prop) E :
  pc_evictable_count c + 1 < 2 ^ 64 -> Q tt (set_evictable_count (pc_evictable_count c + bit b) c) ->
  wp (if b then count_up else mret tt) c Q E.
Proof.
  intros Hn HQ. destruct b; cbn [bit] in HQ.
  - unfold count_up. wstep. wstep. wstep. unfold wp at 1, slift, uadd. by destruct (Z.ltb_spec (pc_evictable_count c + 1) (2 ^ 64)); [|lia].
  - wstep. rewrite Z.add_0_r in HQ. by destruct c.
Qed.
Lemma wp_link_entry key value c pg ring :
  holds c ring -> pc_map c !! key = None -> pc_pages c !! value = Some pg -> pg_id pg = key -> cache_len c < 2 ^ 63 ->
  wp (_ ← link_entry key value; if counted_as_evictable pg then count_up else mret tt) c
    (fun _ c' => exists e ring', holds c' ring' /\ ring' ≡ₚ (e, MkEntry key value CLEAR) :: ring /\
       pc_pages c' = pc_pages c /\ same_limits c c')
    (fun _ _ => False).
Proof.
  intros Hh Hk Hp Hid Hlen. assert (Hsz := holds_size _ _ Hh). assert (Hcb := count_of_bounds (test_page (pc_pages c) counted_as_evictable) ring).
  assert (Hcnt := holds_count _ _ Hh). unfold cache_len in Hlen. rewrite Hsz in Hlen. unfold len in Hcb.
  unfold link_entry. wstep. wstep. wstep. set (e := fresh (dom (pc_entries c))).
  assert (He : e ∉ ring.*1).
  { intros Hin. assert (Hf : e ∉ dom (pc_entries c)) by apply is_fresh. apply Hf. rewrite (holds_entries _ _ Hh), dom_list_to_map. set_solver. }
  set (x := MkEntry key value CLEAR).
  assert (Hx : entry_ok (pc_pages c) x) by (split; [done|by exists pg]).
  assert (Ht : test_page (pc_pages c) counted_as_evictable (e, x) = counted_as_evictable pg) by (unfold test_page; cbn; by rewrite Hp).
  assert (Hq := holds_queue _ _ Hh).
  assert (Hb : 0 <= bit (counted_as_evictable pg)) by by destruct (counted_as_evictable pg).
  destruct ring as [|[e0 x0] t].
  - assert (Hhd : pc_clock_hand c = None) by apply Hq.
    assert (Ha := fun n => holds_add c [] [] e x _ _ n Hh He Hk Hx (swept_first _ _ e Hq)). rewrite Ht in Ha.
    rewrite Hhd. repeat wstep. apply wp_count_up; [destruct c; cbn in *; lia|]. exists e, [(e, x)].
    destruct c; cbn in *. split_and!; [apply Ha; lia|done..].
  - assert (Hhd : pc_clock_hand c = Some e0) by apply Hq. assert (Hsi := swept_insert _ _ _ _ e Hq He).
    assert (Ha := fun n => holds_add c [(e0, x0)] t e x _ _ n Hh He Hk Hx Hsi). rewrite Ht in Ha.
    rewrite Hhd. repeat wstep. eapply (wp_cursor e0 _ _ [] t.*1); [by destruct c|]. repeat wstep.
    apply wp_count_up; [destruct c; cbn in *; lia|]. exists e, ((e0, x0) :: (e, x) :: t).
    destruct c; cbn in *. split_and!; [apply Ha; lia|constructor|done..].
Qed.
Lemma shrinks_len c c' : shrinks c c' -> cache_len c' <= cache_len c.
Proof.
  intros [_ Hs]. unfold cache_len. rewrite <- !(size_dom (D := gset Z)). apply inj_le, subseteq_size. intros key.
  rewrite !elem_of_dom. destruct (pc_map c !! key) eqn:Hk; [done|]. rewrite (Hs key Hk). by intros [].
Qed.
(** Only fields of a page that the ring does not look at change. *)
Lemma touch_page c i f :
  (forall p, same_page p (f p)) -> wf c -> wf (set_pages (alter f i (pc_pages c)) c) /\ shrinks c (set_pages (alter f i (pc_pages c)) c).
Proof.
  intros Hf [ring Hh].
  assert (Hle : pages_le (pc_pages c) (alter f i (pc_pages c))).
  { apply pages_le_alter; [apply Hf|]. intros p _. destruct (Hf p) as (Hid & Hfl & _).
    by rewrite (counted_eq (f p) p) by (try done; by apply has_flag_eq). }
  split; [exists ring; by apply holds_pages|]. destruct c as [ps es cap m q h th en n]; cbn in *.
  split; [split_and!|]; [|done|done|done]. intros key j p _ Hk Hp _. split; [done|]. cbn in *.
  destruct (decide (i = j)) as [->|Hne]; [exists (f p); by rewrite lookup_alter_eq, Hp|exists p; by rewrite lookup_alter_ne].
Qed.
Lemma same_strong n p : same_page p (with_strong n p).
Proof. by split_and!. Qed.

(** The page [value] can be cached for [key]. *)
Definition page_for c key value : Prop := exists pg, pc_pages c !! value = Some pg /\ pg_id pg = key.
Lemma page_for_le c c' key value : pages_le (pc_pages c) (pc_pages c') -> page_for c key value -> page_for c' key value.
Proof. intros Hle (pg & Hp & Hid). destruct (Hle _ _ Hp) as (pg' & ? & ? & _). exists pg'. by rewrite <- Hid. Qed.

Lemma wp_insert_new key value b c :
  wf c -> pc_map c !! key = None -> page_for c key value -> cache_len c < 2 ^ 63 ->
  wp (insert_new key value b) c
    (fun _ c' => wf c' /\ keeps None c c' /\ cached c' key = Some value /\ (b = false -> cache_len c' <= pc_capacity c'))
    (fun err c' => wf c' /\ shrinks c c' /\ err = FromCache CacheFull /\ b = false /\ stuck c').
Proof.
  intros Hwf Hk Hpf Hlen. unfold insert_new. wstep. eapply wp_conseq; [by apply wp_make_room_for| |done].
  intros _ c1 ([ring Hh] & Hs & Hroom). assert (Hpf1 := page_for_le _ _ _ _ ltac:(apply Hs) Hpf). destruct Hpf1 as (pg & Hp & Hid).
  assert (Hlen1 := shrinks_len _ _ Hs). wstep. eapply wp_page_at; [done|].
  eapply wp_conseq; [eapply wp_link_entry; [done|by apply Hs|done|done|lia]| |done]. cbn.
  intros _ c' (e & ring' & Hh' & Hring & Hps & Hl). split_and!; [by exists ring'| | |].
  - transitivity c1; [apply Hs|]. split_and!; [|done|rewrite Hps; apply pages_le_refl].
    intros key' i p _ Hk' Hi _. apply (cached_iff _ _ _ _ Hh) in Hk' as (y & Hy & ? & ?). split; [|exists p; by rewrite Hps].
    apply (cached_iff _ _ _ _ Hh'). exists y. split; [|done]. rewrite Hring. set_solver.
  - apply (cached_iff _ _ _ _ Hh'). exists (e, MkEntry key value CLEAR). split; [|done]. rewrite Hring. set_solver.
  - intros Hb. specialize (Hroom Hb). unfold cache_len in *. rewrite (holds_size _ _ Hh) in Hroom. rewrite (holds_size _ _ Hh'), Hring.
    destruct Hl as (-> & _). cbn. lia.
Qed.

(** The entry of a key changes: its counter, or its page with the counter of evictable pages. *)
Lemma bump_keeps c e x l k :
  holds c (l ++ (e, x) :: k) ->
  holds (set_entries (alter bump_ref e (pc_entries c)) c) (l ++ (e, bump_ref x) :: k) /\
  shrinks c (set_entries (alter bump_ref e (pc_entries c)) c).
Proof.
  intros Hh. assert (Href : 0 <= e_ref_bit x <= REF_MAX).
  { assert (Ho := holds_ok _ _ Hh). rewrite Forall_app, Forall_cons in Ho. destruct Ho as (_ & (? & _) & _). done. }
  assert (Hh' := holds_update c l e x k bump_ref Hh eq_refl eq_refl). unfold REF_MAX in *. specialize (Hh' ltac:(cbn; unfold REF_MAX; lia)).
  split; [done|]. assert (Hps : pc_pages (set_entries (alter bump_ref e (pc_entries c)) c) = pc_pages c) by by destruct c.
  split; [split_and!|]; [|by destruct c|rewrite Hps; apply pages_le_refl|by destruct c].
  intros key i p _ Hk Hi _. split; [|exists p; by rewrite Hps].
  apply (cached_iff _ _ _ _ Hh'). apply (cached_iff _ _ _ _ Hh) in Hk as (y & Hy & ? & ?).
  rewrite elem_of_app, elem_of_cons in Hy. destruct Hy as [Hy|[->|Hy]]; [exists y; set_solver| |exists y; set_solver].
  exists (e, bump_ref x). set_solver.
Qed.
Lemma holds_replace c l e x k value pg n :
  holds c (l ++ (e, x) :: k) -> pc_pages c !! value = Some pg -> pg_id pg = e_key x ->
  0 <= n <= Z.max 0 (pc_evictable_count c + bit (counted_as_evictable pg) - bit (test_page (pc_pages c) counted_as_evictable (e, x))) ->
  holds (set_evictable_count n (set_entries (alter (fun x => MkEntry (e_key x) value (e_ref_bit x)) e (pc_entries c)) c))
    (l ++ (e, MkEntry (e_key x) value (e_ref_bit x)) :: k).
Proof.
  intros Hh Hp Hid Hn. assert (Hnd := holds_nodup _ _ Hh). destruct Hh as [He Hm Hk Hq Ho Hc].
  destruct c as [ps es cap m q h th en cnt]; constructor; cbn in *.
  - rewrite He. by apply (list_to_map_alter (fun x => MkEntry (e_key x) value (e_ref_bit x))).
  - by rewrite Hm, !fmap_app, !fmap_cons.
  - by rewrite !fmap_app, !fmap_cons in *.
  - by rewrite fmap_app, fmap_cons in *.
  - rewrite Forall_app, Forall_cons in *. destruct Ho as (? & (? & _) & ?). split_and!; [done| |done]. split; [done|]. by exists pg.
  - rewrite count_of_middle in Hc |- *.
    assert (test_page ps counted_as_evictable (e, MkEntry (e_key x) value (e_ref_bit x)) = counted_as_evictable pg) as ->
      by (unfold test_page; cbn; by rewrite Hp).
    assert (Hb := count_of_bounds (test_page ps counted_as_evictable) (l ++ k)). destruct (counted_as_evictable pg); cbn in *; lia.
Qed.

(** What the caller of an insertion vouches for: the page has the number it is inserted
    under and, unless it replaces, no other page in use is cached there. *)
Definition insert_ok c key value : Prop :=
  page_for c key value /\ cache_len c < 2 ^ 63.
Definition same_or_stale c key value : Prop :=
  forall i p, cached c key = Some i -> pc_pages c !! i = Some p -> is_loaded p || is_locked p = true -> i = value.
Definition inserted key value (u b : bool) c c' : Prop :=
  wf c' /\ keeps (if u then Some key else None) c c' /\ cached c' key = Some value /\
  (b = false -> pc_map c !! key = None -> cache_len c' <= pc_capacity c').
Definition refused key (b : bool) c (err : LimboError) c' : Prop :=
  wf c' /\ shrinks c c' /\ (err = FromCache CacheFull -> b = false /\ stuck c' /\ pc_map c' !! key = None).

Lemma wp_insert_fresh key value u b c c1 :
  wf c1 -> shrinks c c1 -> pc_map c1 !! key = None -> insert_ok c key value ->
  wp (insert_new key value b) c1 (fun _ => inserted key value u b c) (refused key b c).
Proof.
  intros Hwf Hs Hk [Hpf Hlen]. assert (Hl := shrinks_len _ _ Hs).
  eapply wp_conseq; [apply wp_insert_new; [done|done| |lia]|..]; cbn.
  - eapply page_for_le; [apply Hs|done].
  - intros _ c' (? & Hke & ? & ?). split_and!; [done| |done|auto]. apply keeps_weaken. transitivity c1; [apply Hs|done].
  - intros err c' (? & Hs' & ? & ? & ?). split_and!; [done|by etrans|]. intros _. split_and!; [done|done|by apply Hs'].
Qed.
Lemma wp_recount (old new : bool) c (Q : unit -> PageCache L -> Prop) E :
  0 <= pc_evictable_count c -> pc_evictable_count c + 1 < 2 ^ 64 ->
  (forall n, 0 <= n <= Z.max 0 (pc_evictable_count c + bit new - bit old) -> Q tt (set_evictable_count n c)) ->
  wp (if old && negb new then count_down else if negb old && new then count_up else mret tt) c Q E.
Proof.
  intros Hc Hlt HQ. destruct old, new; cbn [andb negb bit] in *.
  - wstep. destruct c. apply HQ. cbn in *. lia.
  - apply wp_modify, HQ. lia.
  - apply (wp_count_up true); [done|]. apply HQ. cbn. lia.
  - wstep. destruct c. apply HQ. cbn in *. lia.
Qed.
Lemma wp_replace l e x k c value p b c0 :
  holds c (l ++ (e, x) :: k) -> pc_pages c !! e_page x = Some p -> insert_ok c (e_key x) value -> shrinks c0 c ->
  pc_map c0 !! e_key x <> None ->
  wp (new ← page_at value;
      _ ← (if counted_as_evictable p && negb (counted_as_evictable new) then count_down
           else if negb (counted_as_evictable p) && counted_as_evictable new then count_up else mret tt);
      _ ← update_entry e (fun x => MkEntry (e_key x) value (e_ref_bit x));
      update_page (e_page x) arc_drop) c
    (fun _ => inserted (e_key x) value true b c0) (refused (e_key x) b c0).
Proof.
  intros Hh Hp [(pg & Hpg & Hid) Hlen] Hs Hin. wstep. eapply wp_page_at; [done|]. wstep.
  assert (Hcnt := holds_count _ _ Hh). assert (Hb := count_of_bounds (test_page (pc_pages c) counted_as_evictable) (l ++ (e, x) :: k)).
  unfold cache_len in Hlen. rewrite (holds_size _ _ Hh) in Hlen. unfold len in Hb. apply wp_recount; [lia|lia|].
  intros n Hn. assert (Ht : test_page (pc_pages c) counted_as_evictable (e, x) = counted_as_evictable p) by (unfold test_page; cbn; by rewrite Hp).
  rewrite <- Ht in Hn. assert (Hr := holds_replace c l e x k value pg n Hh Hpg Hid Hn).
  wstep. apply wp_update_entry. apply wp_update_page.
  set (c1 := set_evictable_count n (set_entries (alter (fun x => MkEntry (e_key x) value (e_ref_bit x)) e (pc_entries c)) c)) in *.
  match goal with |- inserted _ _ _ _ _ ?c' => assert (Heq : c' = set_pages (alter arc_drop (e_page x) (pc_pages c1)) c1) by (by destruct c); rewrite Heq; clear Heq end.
  destruct (touch_page c1 (e_page x) arc_drop ltac:(done) ltac:(by eexists)) as [Hw2 Hs2].
  assert (Hps : pc_pages c1 = pc_pages c) by (by destruct c).
  assert (Hcv : cached c1 (e_key x) = Some value) by (apply (cached_iff _ _ _ _ Hr); eexists; split; [apply elem_of_app; right; apply elem_of_cons; by left|done]).
  split_and!; [done| | |done].
  - transitivity c; [by apply keeps_weaken, Hs|]. transitivity c1; [|by apply keeps_weaken, Hs2].
    split_and!; [|by destruct c|rewrite Hps; apply pages_le_refl]. intros key i q Hne Hk Hi _. split; [|exists q; by rewrite Hps].
    apply (cached_iff _ _ _ _ Hr). apply (cached_iff _ _ _ _ Hh) in Hk as (y & Hy & Hyk & ?). exists y. split; [|done].
    rewrite elem_of_app, elem_of_cons in Hy |- *. destruct Hy as [?|[->|?]]; [by left| |by right; right]. by rewrite <- Hyk in Hne.
  - destruct c. exact Hcv.
Qed.
Lemma wp_insert_value key value u b c :
  wf c -> insert_ok c key value -> (u = false -> same_or_stale c key value) ->
  wp (insert_value key value u b) c (fun _ => inserted key value u b c) (refused key b c).
Proof.
  intros Hwf Hok Hst. assert (Hwf' := Hwf). destruct Hwf' as [ring Hh]. unfold insert_value. wstep. wstep.
  destruct (pc_map c !! key) as [e|] eqn:He; [|by apply wp_insert_fresh].
  destruct (holds_find _ _ _ _ Hh He) as (l & x & k & -> & <-). destruct (holds_page _ _ _ _ _ Hh) as (p & Hp & Hid).
  assert (Hc : cached c (e_key x) = Some (e_page x)) by (apply (cached_iff _ _ _ _ Hh); exists (e, x); set_solver).
  wstep. eapply wp_entry_at; [by eapply holds_entry|]. wstep. eapply wp_page_at; [done|].
  destruct (negb (is_loaded p) && negb (is_locked p)) eqn:Hstale.
  - wstep. eapply wp_conseq; [by apply delete_keeps| |].
    + intros _ c1 (? & ? & ?). by apply wp_insert_fresh.
    + intros err c' [? ->]. split_and!; [done|done|done].
  - destruct (bump_keeps _ _ _ _ _ Hh) as [Hh1 Hs1]. set (c1 := set_entries (alter bump_ref e (pc_entries c)) c) in *.
    wstep. apply wp_update_entry. fold c1. destruct u.
    + apply (wp_replace l e (bump_ref x) k c1 value p b c); [done|by destruct c| |done|by cbn; rewrite He].
      destruct Hok. split; [by eapply page_for_le; [apply Hs1|]|by destruct c].
    + wstep. wstep.
      * apply Z.eqb_eq. apply (Hst eq_refl _ p); [done|done|]. by destruct (is_loaded p), (is_locked p).
      * split_and!; [by eexists|done|done].
Qed.

(** A page that is not cached is not looked at. *)
Lemma cached_pages ps c key : cached (set_pages ps c) key = cached c key.
Proof. by destruct c. Qed.
Lemma uncached_page c key value : wf c -> page_for c key value -> pc_map c !! key = None -> forall k, cached c k <> Some value.
Proof.
  intros [ring Hh] (pg & Hp & Hid) Hn k Hk. apply (cached_iff _ _ _ _ Hh) in Hk as (x & Hx & <- & <-).
  assert (Ho := holds_ok _ _ Hh). rewrite Forall_forall in Ho. destruct (Ho x Hx) as (_ & p & Hp' & Hi).
  apply (uncached_iff c ring key Hh) with (x := x) in Hn; [|done]. congruence.
Qed.
Lemma stuck_touch c i f : stuck c -> (forall k, cached c k <> Some i) -> stuck (set_pages (alter f i (pc_pages c)) c).
Proof.
  intros Hst Hi. unfold stuck in *. destruct Hst as [?|[? Hno]]; [left; by destruct c|right].
  split; [by destruct c|]. intros key j p. rewrite cached_pages. intros Hk Hp. apply (Hno key j); [done|].
  assert (i <> j) by (intros ->; by apply (Hi key)). destruct c; cbn in *. by rewrite lookup_alter_ne in Hp by done.
Qed.
Lemma inserted_touch key value u b c c' n i :
  inserted key value u b c c' -> inserted key value u b c (set_pages (alter (fun p => with_strong (n p) p) i (pc_pages c')) c').
Proof.
  intros (Hw & Hk & Hc & Hl). destruct (touch_page c' i (fun p => with_strong (n p) p) ltac:(done) Hw) as [Hw' Hs'].
  split_and!; [done| |by rewrite cached_pages|by destruct c'].
  transitivity c'; [done|]. apply keeps_weaken, Hs'.
Qed.
Lemma insert_ok_shrinks c c' key value : shrinks c c' -> insert_ok c key value -> insert_ok c' key value.
Proof. intros Hs [? ?]. assert (Hl := shrinks_len _ _ Hs). split; [eapply page_for_le; [apply Hs|done]|lia]. Qed.
Lemma refused_touch key value b c err c' :
  insert_ok c key value -> refused key b c err c' -> refused key b c err (set_pages (alter arc_drop value (pc_pages c')) c').
Proof.
  intros Hok (Hw & Hs & Hf). destruct (touch_page c' value arc_drop ltac:(done) Hw) as [Hw' Hs'].
  split_and!; [done|by etrans|]. intros He. destruct (Hf He) as (? & ? & ?). split_and!; [done| |by destruct c'].
  apply stuck_touch; [done|]. eapply uncached_page; [done|by apply (insert_ok_shrinks c c' key value)|done].
Qed.
Lemma wp_insert key value u b c :
  wf c -> insert_ok c key value -> (u = false -> same_or_stale c key value) ->
  wp (_insert key value u b) c (fun _ => inserted key value u b c) (refused key b c).
Proof.
  intros Hwf Hok Hst. assert (Hi := wp_insert_value key value u b c Hwf Hok Hst). unfold wp, _insert in *.
  destruct (insert_value key value u b c) as [[| |] c']; [done| |done]. by apply refused_touch.
Qed.
Lemma wp_or_bypass key value u c :
  wf c -> insert_ok c key value -> (u = false -> same_or_stale c key value) ->
  wp (or_bypass value (_insert key value u false) (_insert key value u true)) c
    (fun _ => inserted key value u true c) (fun err c' => refused key true c err c' /\ err <> FromCache CacheFull).
Proof.
  intros Hwf Hok Hst. unfold or_bypass, wp.
  destruct (touch_page c value arc_clone ltac:(done) Hwf) as [Hw1 Hs1]. set (c1 := set_pages (alter arc_clone value (pc_pages c)) c) in *.
  assert (Hok1 := insert_ok_shrinks _ _ _ _ Hs1 Hok).
  assert (Hst1 : u = false -> same_or_stale c1 key value).
  { intros Hu i p Hk Hp Hl. unfold c1 in Hk. rewrite cached_pages in Hk.
    assert (exists p0, pc_pages c !! i = Some p0 /\ pg_flags p0 = pg_flags p) as (p0 & Hp0 & Hf).
    { destruct c; cbn in *. apply lookup_alter_Some in Hp as [(_ & p0 & ? & ->)|[_ ?]]; eauto. }
    apply (Hst Hu i p0); [done|done|]. unfold is_loaded, is_locked in *. by rewrite !(has_flag_eq _ p0 p Hf). }
  assert (Hi := wp_insert key value u false c1 Hw1 Hok1 Hst1). unfold wp in Hi.
  destruct (_insert key value u false c1) as [[[]|err|] c2]; [| |done].
  - apply inserted_touch. destruct Hi as (? & Hk & ? & ?). split_and!; [done| |done|done].
    transitivity c1; [apply keeps_weaken, Hs1|done].
  - assert (Hdone : err <> FromCache CacheFull ->
      refused key true c err (set_pages (alter arc_drop value (pc_pages c2)) c2) /\ err <> FromCache CacheFull).
    { intros Hne. split; [|done]. apply refused_touch; [done|]. destruct Hi as (? & ? & _). split_and!; [done|by etrans|done]. }
    destruct err as [| | | | | | | | | | | |[]]; try by apply Hdone.
    destruct Hi as (Hw2 & Hs2 & Hf). destruct (Hf eq_refl) as (_ & _ & Hn).
    assert (Hs02 : shrinks c c2) by by etrans.
    assert (Hi := wp_insert key value u true c2 Hw2 (insert_ok_shrinks _ _ _ _ Hs02 Hok)). unfold wp in Hi.
    assert (Hst2 : u = false -> same_or_stale c2 key value) by (intros _ i p Hk; unfold cached in Hk; by rewrite Hn in Hk).
    specialize (Hi Hst2). destruct (_insert key value u true c2) as [[[]|err|] c3]; [| |done].
    + destruct Hi as (? & ? & ? & ?). split_and!; [done| |done|done]. transitivity c2; [apply keeps_weaken, Hs02|done].
    + destruct Hi as (? & ? & Hf'). split; [|by intros He; destruct (Hf' He)]. split_and!; [done|by etrans|]. intros He. by destruct (Hf' He).
Qed.

(** ** Lookups *)

Lemma wp_then_drop {A} i (m : ST (PageCache L) A) c (Q : A -> PageCache L -> Prop) E :
  wp m c (fun a c' => Q a (set_pages (alter arc_drop i (pc_pages c')) c'))
    (fun err c' => E err (set_pages (alter arc_drop i (pc_pages c')) c')) ->
  wp (then_drop i m) c Q E.
Proof. unfold wp, then_drop. by destruct (m c) as [[| |] c']. Qed.
(** [get] gives the cached page when it is loaded or being loaded, and drops any other. *)
Definition got key c (r : option Z) c' : Prop :=
  match r with
  | Some i => cached c key = Some i /\ cached c' key = Some i /\
      exists p, pc_pages c !! i = Some p /\ is_loaded p || is_locked p = true
  | None => cached c' key = None
  end.
Lemma wp_get_ key c :
  wf c -> wp (get_ key) c (fun r c' => wf c' /\ shrinks c c' /\ got key c r c') (fun _ c' => wf c' /\ shrinks c c').
Proof.
  intros Hw. assert (Hwf := Hw). destruct Hwf as [ring Hh]. unfold get_. wstep. wstep.
  destruct (pc_map c !! key) as [e|] eqn:He; [|wstep; split_and!; [done|done|unfold got, cached; by rewrite He]].
  destruct (holds_find _ _ _ _ Hh He) as (l & x & k & -> & <-). destruct (holds_page _ _ _ _ _ Hh) as (p & Hp & _).
  assert (Hc : cached c (e_key x) = Some (e_page x)) by (apply (cached_iff _ _ _ _ Hh); exists (e, x); set_solver).
  wstep. eapply wp_entry_at; [by eapply holds_entry|]. wstep. eapply wp_page_at; [done|]. wstep. apply wp_update_page.
  destruct (touch_page c (e_page x) arc_clone ltac:(done) Hw) as [Hw1 Hs1].
  assert (Hh1 : holds (set_pages (alter arc_clone (e_page x) (pc_pages c)) c) (l ++ (e, x) :: k))
    by (apply holds_pages; [done|]; by apply pages_le_alter).
  set (c1 := set_pages (alter arc_clone (e_page x) (pc_pages c)) c) in *.
  destruct (negb (is_loaded p) && negb (is_locked p)) eqn:Hl.
  - apply wp_then_drop. wstep. eapply wp_conseq; [by apply delete_keeps|..].
    + intros _ c2 (Hw2 & Hs2 & Hn). wstep. destruct (touch_page c2 (e_page x) arc_drop ltac:(done) Hw2) as [Hw3 Hs3].
      split_and!; [done|by transitivity c1; [|etrans]|]. unfold got. rewrite cached_pages. unfold cached. by rewrite Hn.
    + intros err c2 [_ ->]. destruct (touch_page c1 (e_page x) arc_drop ltac:(done) Hw1) as [Hw3 Hs3]. split; [done|by etrans].
  - wstep. apply wp_update_entry. wstep. destruct (bump_keeps _ _ _ _ _ Hh1) as [Hh2 Hs2].
    split_and!; [by eexists|by etrans|]. split_and!; [done| |].
    + apply (cached_iff _ _ _ _ Hh2). exists (e, bump_ref x). set_solver.
    + exists p. split; [done|]. by destruct (is_loaded p), (is_locked p).
Qed.
Lemma wp_peek key touch c :
  wf c -> wp (peek key touch) c (fun r c' => wf c' /\ shrinks c c' /\ r = cached c key) (fun _ _ => False).
Proof.
  intros Hw. assert (Hwf := Hw). destruct Hwf as [ring Hh]. unfold peek. wstep. wstep.
  destruct (pc_map c !! key) as [e|] eqn:He; [|wstep; split_and!; [done|done|unfold cached; by rewrite He]].
  destruct (holds_find _ _ _ _ Hh He) as (l & x & k & -> & <-).
  assert (Hc : cached c (e_key x) = Some (e_page x)) by (apply (cached_iff _ _ _ _ Hh); exists (e, x); set_solver).
  wstep. eapply wp_entry_at; [by eapply holds_entry|]. wstep. apply wp_update_page.
  destruct (touch_page c (e_page x) arc_clone ltac:(done) Hw) as [Hw1 Hs1].
  assert (Hh1 : holds (set_pages (alter arc_clone (e_page x) (pc_pages c)) c) (l ++ (e, x) :: k))
    by (apply holds_pages; [done|]; by apply pages_le_alter).
  destruct (bump_keeps _ _ _ _ _ Hh1) as [Hh2 Hs2]. rewrite Hc.
  destruct touch; repeat wstep; [apply wp_update_entry|]; repeat wstep; (split_and!; [|by etrans|done]); [by eexists|done].
Qed.

(** ** Sizes *)

Definition resized new_cap c (r : CacheResizeResult) c' : Prop :=
  match r with
  | ResizeDone => pc_capacity c' = new_cap /\ (new_cap <> pc_capacity c -> cache_len c' <= new_cap)
  | PendingEvictions => pc_capacity c' = pc_capacity c /\ new_cap < cache_len c' /\
      forall key i p, cached c' key = Some i -> pc_pages c' !! i = Some p -> evictable p = false
  end.
Lemma wp_resize_loop fuel new_cap c :
  wf c -> 0 <= new_cap -> cache_len c <= new_cap + Z.of_nat fuel ->
  wp (resize_loop fuel new_cap) c
    (fun ok c' => wf c' /\ shrinks c c' /\ if ok then cache_len c' <= new_cap else
       new_cap < cache_len c' /\ forall key i p, cached c' key = Some i -> pc_pages c' !! i = Some p -> evictable p = false)
    (fun _ _ => False).
Proof.
  intros Hw Hn Hf. assert (Hm := wp_make_room_loop fuel new_cap c Hw Hn Hf).
  assert (Heq : forall fuel c, resize_loop fuel new_cap c = match make_room_loop fuel new_cap c with
    | (Ok _, c) => (Ok true, c) | (Err _, c) => (Ok false, c) | (Panic, c) => (Panic, c) end).
  { clear. induction fuel as [|fuel IH]; intros c; cbn [resize_loop make_room_loop]; unfold mbind, ST_bind; cbn.
    - by destruct (new_cap <? cache_len c).
    - destruct (new_cap <? cache_len c); [|done]. destruct (evict_one c) as [[| |] c']; [apply IH|done|done]. }
  unfold wp in *. rewrite Heq. destruct (make_room_loop fuel new_cap c) as [[| |] c']; [done| |done].
  destruct Hm as (? & ? & _ & ? & ?). done.
Qed.
Lemma wp_resize new_cap c :
  wf c -> 0 <= new_cap -> new_cap * DEFAULT_SPILL_THRESHOLD_PERCENT < 2 ^ 64 ->
  wp (resize new_cap) c
    (fun r c' => wf c' /\ survives None c c' /\ resized new_cap c r c') (fun _ _ => False).
Proof.
  intros Hw Hn Hov. unfold resize. wstep. wstep. destruct (Z.eqb_spec new_cap (pc_capacity c)) as [Heq|Hne].
  { wstep. split_and!; [done|by destruct (reflexivity (R := keeps None) c)|]. by split. }
  wstep. eapply wp_conseq; [apply wp_resize_loop; [done|done|unfold cache_len; lia]| |done]. cbn.
  intros [] c' (Hw' & Hs & Hr); cbn [negb].
  - wstep. unfold umul. destruct (Z.ltb_spec (new_cap * DEFAULT_SPILL_THRESHOLD_PERCENT) (2 ^ 64)); [|lia].
    unfold wp at 1, slift. cbn. wstep. wstep. wstep.
    split_and!; [|destruct c'; apply Hs|by destruct c'; split]. destruct Hw' as [ring [? ? ? ? ? ?]]. exists ring. by destruct c'.
  - wstep. split_and!; [done|apply Hs|]. split; [apply Hs|done].
Qed.
End ring.
