(* ===== verification/PageCacheSafety.v ===== *)
(** The calls of the pager on the page cache: the operations that go through the whole map,
    the notifications about pages, and what holds of every call. *)

From stdpp Require Import base list gmap numbers sorting.
From Stdlib Require Import ZArith Lia.
From S2P Require Import Prelude PageCache PageCacheInv.

Section calls.
Context {L : Type} `{LinkedListLaws L}.
(** A hash map is iterated in some order. *)
Context (iter : gmap Z eptr -> list (Z * eptr)).
Hypothesis iter_perm : forall m, iter m ≡ₚ map_to_list m.
Implicit Types (c : PageCache L) (ring : list (eptr * PageCacheEntry)).

(** * Going through the map *)

Definition linked c (es : list eptr) : Prop :=
  Forall (fun e => exists x p, pc_entries c !! e = Some x /\ pc_pages c !! e_page x = Some p) es.
(** The map holds the ring, in some order. *)
Lemma iter_ring c ring :
  holds c ring -> exists ys, ys ≡ₚ ring /\ iter (pc_map c) = key_of <$> ys /\ (iter (pc_map c)).*2 = ys.*1.
Proof.
  intros Hh. assert (Hp : iter (pc_map c) ≡ₚ key_of <$> ring).
  { rewrite iter_perm, (holds_map _ _ Hh). by apply map_to_list_to_map, Hh. }
  apply Permutation_map_inv in Hp as (ys & Hys & Hp). exists ys. split_and!; [by symmetry|done|].
  rewrite Hys, <- list_fmap_compose. by apply list_fmap_ext.
Qed.
Lemma holds_linked c ring es : holds c ring -> (forall e, e ∈ es -> e ∈ ring.*1) -> linked c es.
Proof.
  intros Hh Hes. apply Forall_forall. intros e He. apply Hes, list_elem_of_fmap in He as ([e' x] & -> & Hin). cbn.
  apply list_elem_of_split in Hin as (l & k & ->). destruct (holds_page _ _ _ _ _ Hh) as (p & Hp & _).
  exists x, p. split; [by eapply holds_entry|done].
Qed.
Lemma wf_linked c : wf c -> linked c (iter (pc_map c)).*2.
Proof. intros [ring Hh]. destruct (iter_ring _ _ Hh) as (ys & Hys & _ & ->). eapply holds_linked; [done|]. intros e. by rewrite Hys. Qed.

Lemma wp_look_pages es c (Q : list Page -> PageCache L -> Prop) E :
  linked c es -> (forall ps, length ps = length es -> Q ps c) -> wp (look_pages es) c Q E.
Proof.
  revert Q. induction es as [|e es IH]; intros Q Hl HQ; cbn [look_pages]; [wstep; by apply HQ|].
  apply Forall_cons in Hl as [(x & p & He & Hp) Hl]. wstep. eapply wp_entry_at; [done|]. wstep. eapply wp_page_at; [done|].
  wstep. apply IH; [done|]. intros ps Hps. wstep. apply HQ. cbn. lia.
Qed.
Lemma wp_needs_spill c (Q : bool -> PageCache L -> Prop) E : wf c -> (forall b, Q b c) -> wp (needs_spill iter) c Q E.
Proof.
  intros Hw HQ. unfold needs_spill. wstep. wstep. cbn zeta. destruct (_ || _); [by wstep|]. destruct (_ <=? _); [by wstep|].
  wstep. unfold count_evictable_pages. wstep. wstep. wstep. apply wp_look_pages; [by apply wf_linked|]. intros ps _. wstep. by wstep.
Qed.

(** * Collecting the pages to spill *)

Lemma same_pin p : same_page p ((pin ∘ arc_clone) p).
Proof. split_and!; [done..|]. cbn. lia. Qed.
(** The pages collected were spillable in [c0] and are pinned. *)
Definition collected c0 c (l : list Z) : Prop :=
  NoDup l /\ forall i, i ∈ l -> (exists key, cached c0 key = Some i) /\
    exists p p', pc_pages c0 !! i = Some p /\ spillable p = true /\ pc_pages c !! i = Some p' /\ pg_pin_count p' = pg_pin_count p + 1.
Lemma wp_collect_loop c0 ring ys max_pages acc c :
  holds c0 ring -> holds c ring -> shrinks c0 c -> ys ⊆ ring -> NoDup ys -> collected c0 c acc -> len acc < max_pages ->
  (forall y, y ∈ ys -> e_page y.2 ∉ acc /\ pc_pages c !! e_page y.2 = pc_pages c0 !! e_page y.2) ->
  wp (collect_loop ys.*1 max_pages acc) c
    (fun l c' => wf c' /\ shrinks c0 c' /\ collected c0 c' l /\ len l <= max_pages) (fun _ _ => False).
Proof.
  revert acc c. induction ys as [|[e x] ys IH]; intros acc c Hh0 Hh Hs Hsub Hnd Hacc Hmax Hys; cbn [collect_loop fmap list_fmap].
  { wstep. split_and!; [by eexists|done|done|lia]. }
  assert (Hin : (e, x) ∈ ring) by (apply Hsub; set_solver). apply NoDup_cons in Hnd as [Hnin Hnd].
  assert (Hsplit := Hin). apply list_elem_of_split in Hsplit as (l & k & Hr).
  assert (He : pc_entries c !! e = Some x) by (rewrite Hr in Hh; by eapply holds_entry).
  assert (Hpg : exists p, pc_pages c !! e_page x = Some p) by (rewrite Hr in Hh; destruct (holds_page _ _ _ _ _ Hh) as (p & ? & _); eauto).
  destruct Hpg as [p Hp]. wstep. eapply wp_entry_at; [done|]. wstep. eapply wp_page_at; [done|].
  destruct (Hys (e, x) ltac:(set_solver)) as [Hna Hsame]. cbn in Hna, Hsame. rewrite Hp in Hsame. symmetry in Hsame.
  wstep. destruct (spillable p) eqn:Hsp.
  - wstep. apply wp_update_page. wstep. set (c1 := set_pages (alter (pin ∘ arc_clone) (e_page x) (pc_pages c)) c).
    destruct (touch_page c (e_page x) (pin ∘ arc_clone) same_pin ltac:(by eexists)) as [Hw1 Hs1]. fold c1 in Hw1, Hs1.
    assert (Hps : pc_pages c1 = alter (pin ∘ arc_clone) (e_page x) (pc_pages c)) by by destruct c.
    assert (Hh1 : holds c1 ring) by (apply holds_pages; [done|]; rewrite <- Hps; apply Hs1).
    assert (Hacc1 : collected c0 c1 (acc ++ [e_page x])).
    { destruct Hacc as [Hnda Hacc]. split; [apply NoDup_app; split_and!; [done|set_solver|apply NoDup_singleton]|].
      intros i [Hi|Hi]%elem_of_app.
      - rewrite Hps, lookup_alter_ne by (intros <-; done). by apply Hacc.
      - apply list_elem_of_singleton in Hi as ->. split; [exists (e_key x); apply (cached_iff _ _ _ _ Hh0); by exists (e, x)|].
        exists p, ((pin ∘ arc_clone) p). rewrite Hps, lookup_alter_eq, Hp. done. }
    assert (Hlen : len (acc ++ [e_page x]) = len acc + 1) by (rewrite len_app; done).
    destruct (Z.leb_spec max_pages (len (acc ++ [e_page x]))).
    + wstep. split_and!; [done|by etrans|done|lia].
    + apply IH; [done|done|by etrans|set_solver|done|done|done|]. intros y Hy. destruct (Hys y ltac:(set_solver)) as [Hya Hyp].
      assert (e_page y.2 <> e_page x).
      { intros Heq. assert (y = (e, x)) as -> by (eapply (holds_page_inj c0 ring); [done|apply Hsub; set_solver|done|done]). done. }
      rewrite Hps, lookup_alter_ne by done. set_solver.
  - wstep. destruct (Z.leb_spec max_pages (len acc)); [lia|]. apply IH; try done; [set_solver|]. intros y Hy. apply Hys. set_solver.
Qed.

(** What [check_spill] answers: distinct spillable pages in the order of their numbers, at
    most [max_pages] of them, which are now pinned. *)
Definition spills max_pages c (r : SpillResult) c' : Prop :=
  match r with
  | PagesToSpill l => l <> [] /\ collected c c' l /\ len l <= max_pages /\ StronglySorted (by_id (pc_pages c')) l
  | _ => True
  end.
Lemma wp_check_spill max_pages c :
  wf c -> 0 <= max_pages ->
  wp (check_spill iter max_pages) c (fun r c' => wf c' /\ shrinks c c' /\ spills max_pages c r c') (fun _ _ => False).
Proof.
  intros Hw Hm. unfold check_spill. wstep. apply wp_needs_spill; [done|]. intros []; cbn [negb]; [|by wstep].
  wstep. unfold collect_spillable_pages. wstep. wstep. destruct (_ || _) eqn:Hz; [wstep; by wstep|].
  apply orb_false_iff in Hz as [_ Hz]. apply Z.eqb_neq in Hz. destruct Hw as [ring Hh].
  destruct (iter_ring _ _ Hh) as (ys & Hys & _ & ->). wstep.
  eapply wp_conseq; [apply (wp_collect_loop c ring)|..]; try done.
  - intros y Hy. by rewrite <- Hys.
  - rewrite Hys. by eapply NoDup_fmap_1, holds_nodup.
  - split; [constructor|]. set_solver.
  - unfold len. cbn. lia.
  - set_solver.
  - cbn. intros l c' (Hw' & Hs & [Hnd Hc] & Hl). wstep. wstep. wstep. split_and!; [done|done|].
    assert (Hp := merge_sort_Permutation (by_id (pc_pages c')) l).
    destruct (merge_sort (by_id (pc_pages c')) l) as [|i l'] eqn:Hs'; [done|]. split_and!; [done| |by unfold len in *; rewrite Hp|].
    + split; [by rewrite Hp|]. intros j Hj. rewrite Hp in Hj. by apply Hc.
    + rewrite <- Hs'. apply StronglySorted_merge_sort; intros ? ? *; unfold by_id; lia.
Qed.

(** * Dropping pages *)

Lemma wp_delete_keys keys c :
  wf c -> wp (delete_keys keys) c (fun _ c' => wf c' /\ shrinks c c' /\ forall key, key ∈ keys -> pc_map c' !! key = None)
    (fun _ c' => wf c' /\ shrinks c c').
Proof.
  revert c. induction keys as [|key keys IH]; intros c Hw; cbn [delete_keys]; [wstep; set_solver|].
  wstep. eapply wp_conseq; [by apply delete_keeps|..]; cbn; [|naive_solver].
  intros _ c1 (Hw1 & Hs1 & Hk). eapply wp_conseq; [by apply IH|..]; cbn.
  - intros _ c2 (Hw2 & Hs2 & Hks). split_and!; [done|by etrans|]. intros k [->|Hk']%elem_of_cons; [by apply Hs2|by apply Hks].
  - intros err c2 (? & ?). split; [done|by etrans].
Qed.
Lemma wp_truncate max_page_num c :
  wf c -> wp (truncate iter max_page_num) c
    (fun _ c' => wf c' /\ shrinks c c' /\ forall key, max_page_num < key -> pc_map c' !! key = None) (fun _ c' => wf c' /\ shrinks c c').
Proof.
  intros Hw. unfold truncate. wstep. wstep. eapply wp_conseq; [by apply wp_delete_keys| |done]. cbn.
  intros _ c' (Hw' & Hs & Hk). split_and!; [done..|]. intros key Hkey. destruct (pc_map c !! key) as [e|] eqn:He; [|by apply Hs].
  apply Hk, list_elem_of_filter. split; [done|]. apply (list_elem_of_fmap_2 fst (iter (pc_map c)) (key, e)).
  by rewrite iter_perm, elem_of_map_to_list.
Qed.
Lemma wp_delete_after max_frame c :
  wf c -> wp (delete_clean_pages_after_wal_frame iter max_frame) c (fun _ c' => wf c' /\ shrinks c c') (fun _ c' => wf c' /\ shrinks c c').
Proof.
  intros Hw. unfold delete_clean_pages_after_wal_frame. wstep. wstep. wstep. apply wp_look_pages; [by apply wf_linked|]. intros ps _.
  eapply wp_conseq; [by apply wp_delete_keys| |done]. cbn. naive_solver.
Qed.
Lemma wp_check_clean es b c :
  linked c es -> wp (check_clean es b) c (fun _ c' => c' = c /\ (b = false -> Forall (fun e => forall x p,
      pc_entries c !! e = Some x -> pc_pages c !! e_page x = Some p -> is_dirty p = false) es))
    (fun _ c' => c' = c).
Proof.
  induction es as [|e es IH]; intros Hl; cbn [check_clean]; [by wstep|]. apply Forall_cons in Hl as [(x & p & He & Hp) Hl].
  wstep. eapply wp_entry_at; [done|]. wstep. eapply wp_page_at; [done|]. destruct (is_dirty p && negb b) eqn:Hd; [done|].
  eapply wp_conseq; [by apply IH| |done]. cbn. intros _ c' [-> Hes]. split; [done|]. intros ->. constructor; [|by apply Hes].
  intros x' p' ? ?. simplify_eq. by destruct (is_dirty _).
Qed.
Lemma wp_clean_pages es c :
  linked c es -> wp (clean_pages es) c (fun _ c' => exists ps, c' = set_pages ps c /\ pages_le (pc_pages c) ps) (fun _ _ => False).
Proof.
  revert c. induction es as [|e es IH]; intros c Hl; cbn [clean_pages].
  { wstep. exists (pc_pages c). split; [by destruct c|apply pages_le_refl]. }
  apply Forall_cons in Hl as [(x & p & He & Hp) Hl]. wstep. eapply wp_entry_at; [done|]. wstep. apply wp_update_page.
  assert (Hle : pages_le (pc_pages c) (alter (take_buffer ∘ clear_loaded) (e_page x) (pc_pages c))).
  { apply pages_le_alter; [done|]. intros q _. by rewrite <- (counted_discard q). }
  eapply wp_conseq; [apply IH| |done].
  - eapply Forall_impl; [exact Hl|]. intros e' (x' & p' & He' & Hp'). destruct (Hle _ _ Hp') as (p'' & ? & _). exists x', p''. by destruct c.
  - cbn. intros _ c' (ps & -> & Hps). exists ps. split; [by destruct c|]. eapply pages_le_trans; [exact Hle|]. by destruct c.
Qed.
Lemma wp_drop_entries es c :
  NoDup es -> linked c es ->
  wp (drop_entries es) c (fun _ c' => exists ps es', c' = set_pages ps (set_entries es' c) /\ pages_le (pc_pages c) ps /\
    forall e, es' !! e = if decide (e ∈ es) then None else pc_entries c !! e) (fun _ _ => False).
Proof.
  revert c. induction es as [|e es IH]; intros c Hnd Hl; cbn [drop_entries].
  { wstep. exists (pc_pages c), (pc_entries c). split_and!; [by destruct c|apply pages_le_refl|]. intros e. by rewrite decide_False by set_solver. }
  apply Forall_cons in Hl as [(x & p & He & Hp) Hl]. apply NoDup_cons in Hnd as [Hne Hnd].
  wstep. eapply wp_entry_at; [done|]. wstep. wstep. wstep. apply wp_update_page.
  assert (Hle : pages_le (pc_pages c) (alter arc_drop (e_page x) (pc_pages c))) by by apply pages_le_alter.
  eapply wp_conseq; [apply IH; [done|]| |done].
  - apply Forall_forall. intros e' Hin. assert (e <> e') by (by intros ->). rewrite Forall_forall in Hl. destruct (Hl e' Hin) as (x' & p' & He' & Hp').
    destruct (Hle _ _ Hp') as (p'' & ? & _). exists x', p''. destruct c; cbn in *. by rewrite lookup_delete_ne.
  - cbn. intros _ c' (ps & es' & -> & Hps & Hes). exists ps, es'. split_and!; [by destruct c| |].
    + eapply pages_le_trans; [exact Hle|]. by destruct c.
    + intros e'. rewrite Hes. destruct c; cbn in *. destruct (decide (e' ∈ es)), (decide (e' ∈ e :: es)); [done|set_solver| |].
      * assert (e' = e) as -> by set_solver. apply lookup_delete_eq.
      * by rewrite lookup_delete_ne by set_solver.
Qed.
Definition cleared (b : bool) c c' : Prop :=
  (forall key, cached c' key = None) /\
  (b = false -> forall key i p, cached c key = Some i -> pc_pages c !! i = Some p -> is_dirty p = false).
Lemma wp_clear b c :
  wf c -> wp (clear_ iter b) c (fun _ c' => wf c' /\ cleared b c c') (fun _ c' => c' = c).
Proof.
  intros Hw. assert (Hlk := wf_linked _ Hw). destruct Hw as [ring Hh]. destruct (iter_ring _ _ Hh) as (ys & Hys & _ & Hit). rewrite Hit in Hlk.
  unfold clear_. wstep. wstep. rewrite Hit. wstep. eapply wp_conseq; [by apply wp_check_clean| |done].
  intros _ ? [-> Hclean]. wstep. eapply wp_conseq; [by apply wp_clean_pages| |done]. intros _ ? (ps & -> & Hle). wstep. wstep. wstep.
  assert (Hq : ll_list (pc_queue c) ≡ₚ ring.*1).
  { destruct (holds_queue _ _ Hh) as (_ & _ & l1 & l2 & -> & ->). by rewrite (comm (++)). }
  eapply wp_conseq; [apply wp_drop_entries| |done].
  - rewrite Hq. by eapply holds_nodup.
  - assert (Hl : linked (set_pages ps c) (ll_list (pc_queue c))).
    { eapply holds_linked; [by apply holds_pages|]. intros e. by rewrite Hq. }
    by destruct c.
  - intros _ ? (ps' & es' & -> & Hle' & Hes). repeat wstep.
    assert (es' = ∅) as ->.
    { apply map_eq. intros e. rewrite Hes, lookup_empty. case_decide as Hd; [done|]. rewrite Hq in Hd.
      assert (Hen : pc_entries (set_map ∅ (set_pages ps c)) = list_to_map ring) by (rewrite <- (holds_entries _ _ Hh); by destruct c).
      rewrite Hen. by apply not_elem_of_list_to_map_1. }
    split; [|split].
    + exists []. destruct c; constructor; cbn; [done|done|constructor| |constructor|done].
      split; [constructor|]. split; [done|]. exists [], []. by rewrite ll_list_new.
    + intros key. unfold cached. destruct c; cbn. done.
    + intros Hb key i p Hk Hp. apply (cached_iff _ _ _ _ Hh) in Hk as ([e x] & Hin & _ & <-). specialize (Hclean Hb).
      rewrite Forall_forall in Hclean. apply (Hclean e) with (x := x); [|apply list_elem_of_split in Hin as (l & k & ->); by eapply holds_entry|done].
      rewrite Hys. by apply (list_elem_of_fmap_2 fst) in Hin.
Qed.

(** * Notifications *)

(** Pages and counter change together. *)
Lemma holds_recount c ring ps n :
  holds c ring -> (forall i p, pc_pages c !! i = Some p -> exists p', ps !! i = Some p' /\ pg_id p' = pg_id p) ->
  0 <= n <= count_of (test_page ps counted_as_evictable) ring -> holds (set_evictable_count n (set_pages ps c)) ring.
Proof.
  intros [] Hps Hn. destruct c; constructor; cbn in *; try done. eapply Forall_impl; [done|].
  intros x (Hr & p & Hp & Hid). split; [done|]. destruct (Hps _ _ Hp) as (p' & ? & ?). exists p'. by rewrite <- Hid.
Qed.
Lemma count_alter_ne ps f i ring :
  (forall y, y ∈ ring -> e_page y.2 <> i) ->
  count_of (test_page (alter f i ps) counted_as_evictable) ring = count_of (test_page ps counted_as_evictable) ring.
Proof.
  intros Hne. apply Z.le_antisymm; apply count_of_mono; intros y Hy; unfold test_page; specialize (Hne y Hy); by rewrite lookup_alter_ne by done.
Qed.
Lemma count_alter c ring f y p :
  holds c ring -> y ∈ ring -> pc_pages c !! e_page y.2 = Some p ->
  count_of (test_page (alter f (e_page y.2) (pc_pages c)) counted_as_evictable) ring =
  count_of (test_page (pc_pages c) counted_as_evictable) ring - bit (counted_as_evictable p) + bit (counted_as_evictable (f p)).
Proof.
  intros Hh Hy Hp. assert (Hs := Hy). apply list_elem_of_split in Hs as (l & k & Hr). assert (Hnd := NoDup_fmap_1 _ _ (holds_nodup _ _ Hh)).
  assert (Hne : forall z, z ∈ l ++ k -> e_page z.2 <> e_page y.2).
  { intros z Hz Heq. rewrite Hr, <- Permutation_middle in Hnd. apply NoDup_cons in Hnd as [Hn _]. apply Hn.
    rewrite (holds_page_inj c ring y z Hh Hy); [done| |done]. rewrite Hr, <- Permutation_middle. by right. }
  rewrite Hr, !count_of_middle, (count_alter_ne _ _ _ _ Hne).
  assert (test_page (alter f (e_page y.2) (pc_pages c)) counted_as_evictable y = counted_as_evictable (f p)) as ->
    by (unfold test_page; by rewrite lookup_alter_eq, Hp).
  assert (test_page (pc_pages c) counted_as_evictable y = counted_as_evictable p) as -> by (unfold test_page; by rewrite Hp). lia.
Qed.
Lemma counted_set_dirty p : counted_as_evictable (set_dirty p) = false.
Proof.
  unfold counted_as_evictable, is_dirty, is_spilled, set_dirty. destruct (_ =? _); [done|].
  autorewrite with flags. done.
Qed.
Lemma counted_set_spilled p : counted_as_evictable (set_spilled p) = negb (pg_id p =? HEADER_PAGE).
Proof.
  unfold counted_as_evictable, is_dirty, is_spilled, set_spilled. change (pg_id (set_flag PAGE_SPILLED p)) with (pg_id p).
  destruct (_ =? _); [done|]. autorewrite with flags. by rewrite orb_true_r.
Qed.
Lemma alter_ids (ps : gmap Z Page) i (f : Page -> Page) :
  (forall p, pg_id (f p) = pg_id p) -> forall j p, ps !! j = Some p -> exists p', alter f i ps !! j = Some p' /\ pg_id p' = pg_id p.
Proof.
  intros Hf j p Hp. destruct (decide (i = j)) as [->|Hne]; [exists (f p); by rewrite lookup_alter_eq, Hp|exists p; by rewrite lookup_alter_ne].
Qed.
(** The entry that caches a page is the one of its number. *)
Lemma page_entry c ring i p : holds c ring -> pc_pages c !! i = Some p -> forall y, y ∈ ring -> e_page y.2 = i -> e_key y.2 = pg_id p.
Proof.
  intros Hh Hp y Hy <-. assert (Ho := holds_ok _ _ Hh). rewrite Forall_forall in Ho. destruct (Ho y Hy) as (_ & q & Hq & Hid). congruence.
Qed.

(** One page changes, and the counter. *)
Definition page_only (f : Page -> Page) i c c' : Prop :=
  wf c' /\ pc_pages c' = alter f i (pc_pages c) /\ forall key, cached c' key = cached c key.
Lemma page_only_le f i c :
  wf c -> pages_le (pc_pages c) (alter f i (pc_pages c)) -> page_only f i c (set_pages (alter f i (pc_pages c)) c).
Proof. intros [ring Hh] Hle. split_and!; [exists ring; by apply holds_pages|by destruct c|by destruct c]. Qed.
Lemma page_only_count f i c ring n :
  holds c ring -> (forall p, pg_id (f p) = pg_id p) ->
  0 <= n <= count_of (test_page (alter f i (pc_pages c)) counted_as_evictable) ring ->
  page_only f i c (set_evictable_count n (set_pages (alter f i (pc_pages c)) c)).
Proof.
  intros Hh Hf Hn. split_and!; [exists ring; apply holds_recount; [done|by apply alter_ids|done]|by destruct c|by destruct c].
Qed.
Lemma wp_mark_dirty i p c :
  wf c -> pc_pages c !! i = Some p -> wp (mark_dirty i) c (fun _ => page_only set_dirty i c) (fun _ _ => False).
Proof.
  intros Hw Hp. assert (Hwf := Hw). destruct Hwf as [ring Hh]. unfold mark_dirty. wstep. eapply wp_page_at; [done|].
  assert (Hc := holds_count _ _ Hh). assert (Hb := count_of_bounds (test_page (alter set_dirty i (pc_pages c)) counted_as_evictable) ring).
  assert (Huncounted : counted_as_evictable p = false -> page_only set_dirty i c (set_pages (alter set_dirty i (pc_pages c)) c)).
  { intros Hu. apply page_only_le; [done|]. apply pages_le_alter; [done|]. intros q Hq. simplify_eq. by rewrite Hu. }
  destruct (negb (is_dirty p) || is_spilled p) eqn:Hd; wstep; [|wstep; apply wp_update_page, Huncounted; unfold counted_as_evictable; by rewrite Hd; destruct (_ =? _)].
  unfold notify_page_dirty. wstep. wstep. destruct (pc_map c !! pg_id p) as [e|] eqn:He.
  - destruct (holds_find _ _ _ _ Hh He) as (l & x & k & -> & Hx). destruct (holds_page _ _ _ _ _ Hh) as (q & Hq & Hqid).
    wstep. eapply wp_entry_at; [by eapply holds_entry|]. wstep. eapply wp_page_at; [done|]. rewrite Hqid, Hx.
    destruct (Z.eqb_spec (pg_id p) HEADER_PAGE) as [Hid|Hid]; cbn [negb].
    + wstep. apply wp_update_page, Huncounted. unfold counted_as_evictable. by rewrite Hid.
    + apply wp_modify, wp_update_page.
      assert (Ho := page_only_count set_dirty i c _ (Z.max 0 (pc_evictable_count c - 1)) Hh ltac:(done)).
      destruct (decide (Exists (fun y => e_page y.2 = i) (l ++ (e, x) :: k))) as [Hex|Hno].
      * apply Exists_exists in Hex as (y & Hy & <-). rewrite (count_alter c _ set_dirty y p Hh Hy Hp), counted_set_dirty in Ho, Hb.
        destruct c; apply Ho. destruct (counted_as_evictable p); cbn in *; lia.
      * rewrite count_alter_ne in Ho by (intros y Hy Heq; apply Hno, Exists_exists; eauto). destruct c; apply Ho. cbn in *. lia.
  - wstep. apply wp_update_page. assert (Ho := page_only_count set_dirty i c ring (pc_evictable_count c) Hh ltac:(done)).
    rewrite count_alter_ne in Ho.
    + specialize (Ho Hc). by destruct c.
    + intros y Hy Heq. assert (Hk := page_entry _ _ _ _ Hh Hp y Hy Heq). by apply (uncached_iff _ _ _ Hh) with (x := y) in He.
Qed.
(** A page is marked once its spill is complete, while it is still the one that is cached. *)
Definition spill_done c i : Prop :=
  exists p, pc_pages c !! i = Some p /\ is_dirty p = true /\ is_spilled p = false /\
    cache_len c < 2 ^ 63 /\ forall j, cached c (pg_id p) = Some j -> j = i.
Lemma wp_mark_spilled i c :
  wf c -> spill_done c i ->
  wp (mark_spilled i) c (fun _ c' => page_only set_spilled i c c' \/ c' = c) (fun _ _ => False).
Proof.
  intros Hw (p & Hp & Hd & Hs & Hlen & Hone). assert (Hwf := Hw). destruct Hwf as [ring Hh]. unfold mark_spilled. wstep.
  eapply wp_page_at; [done|]. destruct (has_wal_tag p); [|wstep; by right].
  assert (Hle : pages_le (pc_pages c) (alter set_spilled i (pc_pages c))).
  { apply pages_le_alter; [done|]. intros q Hq. simplify_eq. rewrite counted_set_spilled. unfold counted_as_evictable. by destruct (_ =? _). }
  wstep. unfold notify_page_spilled. wstep. wstep. destruct (pc_map c !! pg_id p) as [e|] eqn:He.
  - destruct (holds_find _ _ _ _ Hh He) as (l & x & k & -> & Hx). destruct (holds_page _ _ _ _ _ Hh) as (q & Hq & Hqid).
    assert (Hi : e_page x = i). { apply Hone. apply (cached_iff _ _ _ _ Hh). exists (e, x). split; [set_solver|done]. }
    wstep. eapply wp_entry_at; [by eapply holds_entry|]. wstep. eapply wp_page_at; [done|]. rewrite Hqid, Hx.
    assert (Hc := holds_count _ _ Hh). assert (Hb := count_of_bounds (test_page (pc_pages c) counted_as_evictable) (l ++ (e, x) :: k)).
    unfold cache_len in Hlen. rewrite (holds_size _ _ Hh) in Hlen. unfold len in Hb.
    apply wp_count_up; [lia|]. apply wp_update_page. left.
    assert (Ho := page_only_count set_spilled i c _ (pc_evictable_count c + bit (negb (pg_id p =? HEADER_PAGE))) Hh ltac:(done)).
    assert (Hin : (e, x) ∈ l ++ (e, x) :: k) by set_solver. assert (Hp' := Hp). rewrite <- Hi in Hp'.
    assert (Hca := count_alter c _ set_spilled (e, x) p Hh Hin Hp'). cbn [snd] in Hca. rewrite Hi in Hca.
    rewrite Hca, counted_set_spilled in Ho. unfold counted_as_evictable in Ho at 2. rewrite Hd, Hs in Ho.
    destruct c; apply Ho. cbn in *. destruct (pg_id p =? HEADER_PAGE); cbn; lia.
  - wstep. apply wp_update_page. left. by apply page_only_le.
Qed.

(** * Every call *)

(** What the pager sees to when it makes a call. *)
Definition call_ok c (k : cache_call) : Prop :=
  match k with
  | CallInsert key value | CallForceInsert key value => insert_ok c key value /\ same_or_stale c key value
  | CallForceUpsert key value => insert_ok c key value
  | CallResize new_cap => 0 <= new_cap /\ new_cap * DEFAULT_SPILL_THRESHOLD_PERCENT < 2 ^ 64
  | CallCheckSpill max_pages => 0 <= max_pages
  | CallMarkDirty p => exists pg, pc_pages c !! p = Some pg
  | CallMarkSpilled p => spill_done c p
  | CallNewPage p id => pc_pages c !! p = None /\ 0 <= id
  | _ => True
  end.
(** Pages that the call must leave in the cache. *)
Definition must_stay (k : cache_call) (key : Z) (p : Page) : Prop :=
  match k with
  | CallClear clear_dirty => clear_dirty = false /\ is_dirty p = true
  | CallForceUpsert key' _ => key' <> key /\ protected p = true
  | _ => protected p = true
  end.
Definition stays k c c' : Prop :=
  forall key i p, cached c key = Some i -> pc_pages c !! i = Some p -> must_stay k key p ->
    cached c' key = Some i /\ exists p', pc_pages c' !! i = Some p' /\ pg_id p' = pg_id p /\ (pg_buffer p = true -> pg_buffer p' = true).

Lemma survives_stays X k c c' :
  survives X c c' -> (forall key p, must_stay k key p -> X <> Some key /\ protected p = true) -> stays k c c'.
Proof.
  intros Hs HX key i p Hk Hp Hm. destruct (HX _ _ Hm) as [? ?]. destruct (Hs key i p) as (? & p' & ? & Hsame); [done..|].
  split; [done|]. exists p'. split; [done|]. destruct Hsame as (? & _ & -> & _). done.
Qed.
Lemma page_only_stays f i k c c' :
  (forall p, pg_id (f p) = pg_id p /\ (pg_buffer p = true -> pg_buffer (f p) = true)) -> page_only f i c c' -> stays k c c'.
Proof.
  intros Hf (_ & Hps & Hc) key j p Hk Hp _. split; [by rewrite Hc|]. rewrite Hps. destruct (decide (i = j)) as [->|Hne].
  - exists (f p). rewrite lookup_alter_eq, Hp. by split.
  - exists p. by rewrite lookup_alter_ne.
Qed.
Lemma stays_refl k c : stays k c c.
Proof. intros key i p Hk Hp _. split; [done|]. by exists p. Qed.
Lemma act_le c i a : pages_le (pc_pages c) (alter (act a) i (pc_pages c)).
Proof.
  apply pages_le_alter; [by destruct a; intros p; unfold act, try_unpin; cbn; try case_match|]. intros p _ Hc.
  enough (Hst : forall q, pg_id q = pg_id p -> is_spilled q = is_spilled p -> (is_dirty q = is_dirty p \/ is_dirty q = false) -> counted_as_evictable q = true).
  { destruct a; apply Hst; unfold act, try_unpin; try case_match; try done; unfold is_spilled, is_dirty, set_locked, clear_locked, set_loaded, clear_dirty, clear_wal_tag;
      rewrite ?(has_flag_eq _ (with_wal_tag _ (clear_flag PAGE_DIRTY p)) (clear_flag PAGE_DIRTY p)) by done; autorewrite with flags; auto. }
  intros q Hid Hsp Hdi. unfold counted_as_evictable in *. rewrite Hid, Hsp. destruct (_ =? _); [done|]. by destruct Hdi as [->| ->].
Qed.
Lemma act_keeps a p : pg_id (act a p) = pg_id p /\ (pg_buffer p = true -> pg_buffer (act a p) = true).
Proof. destruct a; unfold act, try_unpin; try case_match; done. Qed.

Ltac reply := wstep; (eapply wp_conseq; [|intros ? ?; cbn beta|intros ? ?; cbn beta]).
Lemma call_post k c :
  wf c -> call_ok c k ->
  wp (call_cache iter k) c (fun _ c' => wf c' /\ stays k c c') (fun _ c' => wf c' /\ stays k c c').
Proof.
  intros Hw Hok. destruct k; cbn [call_cache call_ok] in *.
  - destruct Hok. reply; [by apply wp_insert|intros (? & (? & _) & _)|intros (? & ((? & _) & _) & _)]; try wstep; (split; [done|by eapply survives_stays]).
  - reply; [by apply (wp_or_bypass key value true)|intros (? & (? & _) & _)|intros [(? & ((? & _) & _) & _) _]]; try wstep;
      (split; [done|]); (eapply survives_stays; [done|]); cbn; [|naive_solver]. intros ? ? [? ?]. split; [congruence|done].
  - destruct Hok. reply; [by apply (wp_or_bypass key value false)|intros (? & (? & _) & _)|intros [(? & ((? & _) & _) & _) _]]; try wstep; (split; [done|by eapply survives_stays]).
  - reply; [by apply delete_keeps|intros (? & ((? & _) & _) & _)|intros [_ ->]]; try wstep; (split; [done|]); [by eapply survives_stays|apply stays_refl].
  - reply; [by apply wp_get_|intros (? & ((? & _) & _) & _)|intros (? & ((? & _) & _))]; try wstep; (split; [done|by eapply survives_stays]).
  - reply; [by apply wp_peek|intros (? & ((? & _) & _) & _)|done]; wstep; (split; [done|by eapply survives_stays]).
  - destruct Hok. reply; [by apply wp_resize|intros (? & ? & _)|done]; wstep; (split; [done|by eapply survives_stays]).
  - reply; [by apply wp_check_spill|intros (? & ((? & _) & _) & _)|done]; wstep; (split; [done|by eapply survives_stays]).
  - wstep. wstep. wstep. split; [|destruct c; intros key i p ? ? _; split; [done|by exists p]]. destruct Hw as [ring []]. exists ring. by destruct c.
  - reply; [by apply wp_clear|intros [? [_ Hd]]|intros ->; split; [done|apply stays_refl]]. wstep. split; [done|].
    intros key i p Hk Hp [Hb Hdirty]. specialize (Hd Hb _ _ _ Hk Hp). congruence.
  - reply; [by apply wp_truncate|intros (? & ((? & _) & _) & _)|intros (? & ((? & _) & _))]; try wstep; (split; [done|by eapply survives_stays]).
  - reply; [by apply wp_delete_after|intros (? & ((? & _) & _))|intros (? & ((? & _) & _))]; try wstep; (split; [done|by eapply survives_stays]).
  - destruct Hok. reply; [by eapply wp_mark_dirty|intros Hp|done]. wstep. split; [apply Hp|by apply (page_only_stays set_dirty p)].
  - reply; [by apply wp_mark_spilled|intros [Hp| ->]|done]; wstep; (split; [|]); [apply Hp|by apply (page_only_stays set_spilled p)|done|apply stays_refl].
  - wstep. apply wp_update_page. wstep. assert (Hp := page_only_le (act a) p c Hw (act_le c p a)).
    split; [apply Hp|eapply page_only_stays; [apply act_keeps|exact Hp]].
  - destruct Hok as [Hn Hid]. wstep. wstep; [by apply Z.leb_le|]. wstep. wstep. wstep.
    assert (Hold : forall i q, pc_pages c !! i = Some q -> <[p := new_page id]> (pc_pages c) !! i = Some q)
      by (intros i q Hq; by rewrite lookup_insert_ne by congruence).
    split; [|destruct c; intros key i q ? Hq _; split; [done|exists q; cbn in *; split; [by apply Hold|done]]].
    destruct Hw as [ring Hh]. exists ring. apply holds_pages; [done|]. intros i q Hq. exists q. split; [by apply Hold|done].
Qed.

(** The caches that the pager can bring about. *)
Inductive cache_reachable : PageCache L -> Prop :=
  | reach_new ps cap en c : new_with_spill ps cap en = Ok c -> cache_reachable c
  | reach_call c k r c' : cache_reachable c -> call_ok c k -> call_cache iter k c = (r, c') -> cache_reachable c'.

Lemma new_wf ps cap en c : new_with_spill ps cap en = Ok c -> wf c.
Proof.
  unfold new_with_spill. intros Hn. apply bind_inv_Ok in Hn as (t & _ & Hn). simplify_eq. exists [].
  constructor; cbn; [done|done|constructor| |constructor|done].
  split; [constructor|]. split; [done|]. exists [], []. by rewrite ll_list_new.
Qed.
(** C18: whatever calls the pager has made, the map, the queue, the entries and the hand are
    one ring without duplicates, every entry has its page, and the next call neither follows
    a pointer that dangles nor fails an assertion nor overflows. *)
Theorem cache_reachable_wf c k :
  cache_reachable c -> wf c /\ (call_ok c k -> (call_cache iter k c).1 <> Panic).
Proof.
  intros Hr. assert (Hw : wf c).
  { induction Hr as [ps cap en c Hn|c k' r c' _ IH Hok Hc]; [by eapply new_wf|].
    assert (Hp := call_post k' c IH Hok). apply (wp_run _ _ _ _ _ _ Hp) in Hc. destruct r; naive_solver. }
  split; [done|]. intros Hok Hp. assert (Hc := call_post k c Hw Hok). unfold wp in Hc.
  by destruct (call_cache iter k c) as [[] ?].
Qed.
(** C19: no call drops from the cache, or takes the buffer of, a page that is dirty and not
    spilled, locked or pinned, unless it replaces that very page or clears the cache; and
    [clear(false)] keeps every dirty page. *)
Theorem protected_pages_stay c k r c' :
  wf c -> call_ok c k -> call_cache iter k c = (r, c') -> stays k c c'.
Proof. intros Hw Hok Hc. assert (Hp := call_post k c Hw Hok). apply (wp_run _ _ _ _ _ _ Hp) in Hc. destruct r; naive_solver. Qed.
(** C20: the eviction is SIEVE.  In the order of the sweep from the hand, the first of the
    evictable pages with the smallest counter is dropped, the counters of the evictable pages
    it passed are lowered once per pass and the hand stands at the next entry; when no page
    is evictable, and only then, it fails with [Full] and leaves the ring as it was. *)
Theorem evict_one_sieve c ring :
  holds c ring -> ring <> [] ->
  match evict_one c with
  | (Ok _, c') => exists x ring', sieved (pc_pages c) ring x ring' /\ holds c' ring' /\ removed c c' x.2
  | (Err err, c') => err = FromCache CacheFull /\ holds c' ring /\ pc_pages c' = pc_pages c /\
      Forall (fun y => test_page (pc_pages c) evictable y = false) ring
  | (Panic, _) => False
  end.
Proof.
  intros Hh Hne.
  assert (Hp : wp evict_one c (fun _ c' => exists x ring', sieved (pc_pages c) ring x ring' /\ holds c' ring' /\ removed c c' x.2)
    (fun err c' => err = FromCache CacheFull /\ holds c' ring /\ pc_pages c' = pc_pages c /\
      Forall (fun y => test_page (pc_pages c) evictable y = false) ring)).
  { eapply wp_evict_one; [done|done|eauto 10|]. intros Hno c' Hh' Hi. split_and!; [done|done|apply Hi|done]. }
  unfold wp in Hp. by destruct (evict_one c) as [[] ?].
Qed.
(** C21: an inserted page is cached under its number, within the capacity; [insert] is refused
    for want of room only when the cache is at its capacity and no page may be dropped, and
    [force_insert_page] never is. *)
Theorem insert_outcome c key value :
  wf c -> insert_ok c key value -> same_or_stale c key value ->
  match insert_ key value c with
  | (Ok _, c') => cached c' key = Some value /\ (pc_map c !! key = None -> cache_len c' <= pc_capacity c')
  | (Err err, c') => err = FromCache CacheFull -> stuck c'
  | (Panic, _) => False
  end /\
  match force_insert_page key value c with
  | (Ok _, c') => cached c' key = Some value
  | (Err err, _) => err <> FromCache CacheFull
  | (Panic, _) => False
  end.
Proof.
  intros Hw Hok Hst. assert (H1 := wp_insert key value false false c Hw Hok (fun _ => Hst)).
  assert (H2 := wp_or_bypass key value false c Hw Hok (fun _ => Hst)).
  unfold wp, insert_, force_insert_page in *. split.
  - destruct (_insert key value false false c) as [[] c']; [|intros He; by destruct H1 as (_ & _ & H1); destruct (H1 He) as (_ & ? & _)|done].
    destruct H1 as (_ & _ & ? & ?). split; [done|]. by auto.
  - destruct (or_bypass value _ _ c) as [[] c']; [by destruct H2 as (_ & _ & ? & _)|by destruct H2|done].
Qed.
(** The pages that [check_spill] returns are distinct cached pages that were dirty, not
    spilled, not in use and without overflow cells; they are in the order of their numbers,
    no more than asked for, and each is pinned once more. *)
Theorem check_spill_pins c max_pages l c' :
  wf c -> 0 <= max_pages -> check_spill iter max_pages c = (Ok (PagesToSpill l), c') ->
  l <> [] /\ collected c c' l /\ len l <= max_pages /\ StronglySorted (by_id (pc_pages c')) l.
Proof. intros Hw Hm Hc. apply (wp_run _ _ _ _ _ _ (wp_check_spill max_pages c Hw Hm)) in Hc as (_ & _ & Hs). exact Hs. Qed.
End calls.

(** * Concrete caches *)

(** A list as the queue. *)
Fixpoint list_next (x : eptr) (l : list eptr) : option eptr :=
  match l with [] => None | y :: l => if decide (x = y) then head l else list_next x l end.
Fixpoint list_insert_after (x y : eptr) (l : list eptr) : list eptr :=
  match l with [] => [] | z :: l => if decide (x = z) then z :: y :: l else z :: list_insert_after x y l end.
Fixpoint list_unlink (x : eptr) (l : list eptr) : list eptr :=
  match l with [] => [] | y :: l => if decide (x = y) then l else y :: list_unlink x l end.
Global Instance list_linked : LinkedList (list eptr) :=
  {| ll_new := []; ll_list := id; ll_push_back x l := l ++ [x]; ll_front := head; ll_next := list_next;
     ll_insert_after := list_insert_after; ll_remove := list_unlink |}.
Global Instance list_linked_laws : LinkedListLaws (list eptr).
Proof.
  split; cbn; try done; intros q l x k *; intros -> Hnd;
    induction l as [|z l IH]; cbn; rewrite ?decide_True by done; try done;
    (apply NoDup_cons in Hnd as [Hz Hnd]; rewrite decide_False by set_solver; by rewrite ?IH by done).
Qed.

(** A cache at its capacity of two pages, page 2 clean and page 3 dirty; page 4 is not in it. *)
Definition clean_page (id : Z) : Page := MkPage id PAGE_LOADED 0 TAG_UNSET true 0 1.
Definition dirty_page (id : Z) : Page := MkPage id (PAGE_LOADED + PAGE_DIRTY) 0 TAG_UNSET true 0 1.
Definition demo_pages : gmap Z Page := list_to_map [(7, clean_page 2); (8, dirty_page 3); (9, clean_page 4)].
Definition demo_ring : list (eptr * PageCacheEntry) := [(1%positive, MkEntry 2 7 1); (2%positive, MkEntry 3 8 0)].
Definition demo : PageCache (list eptr) :=
  MkCache demo_pages (list_to_map demo_ring) 2 (list_to_map (key_of <$> demo_ring)) [1%positive; 2%positive] (Some 1%positive) 1 true 1.
Lemma demo_holds : holds demo demo_ring.
Proof.
  constructor; [done|done| | | |by vm_compute].
  - apply (bool_decide_unpack _). by vm_compute.
  - split; [apply (bool_decide_unpack _); by vm_compute|]. split; [done|]. by exists [], [1%positive; 2%positive].
  - repeat constructor; cbn; try done; eexists; (split; [by vm_compute|done]).
Qed.
Lemma demo_wf : wf demo.
Proof. exists demo_ring. exact demo_holds. Qed.
Lemma demo_insert_ok : insert_ok demo 4 9 /\ same_or_stale demo 4 9.
Proof. split; [split; [exists (clean_page 4); by vm_compute|by vm_compute]|]. intros i p Hc. by vm_compute in Hc. Qed.

Lemma cache_reachable_wf_witness :
  (call_cache map_to_list (CallInsert 4 9) (MkCache (L := list eptr) demo_pages ∅ 2 ∅ [] None 1 true 0)).1 <> Panic.
Proof.
  apply (cache_reachable_wf map_to_list ltac:(reflexivity)).
  - apply (reach_new map_to_list demo_pages 2 true). reflexivity.
  - split; [split; [exists (clean_page 4); by vm_compute|by vm_compute]|]. intros i p Hc. by vm_compute in Hc.
Defined.
Lemma protected_pages_stay_witness : cached (call_cache map_to_list (CallInsert 4 9) demo).2 3 = Some 8.
Proof.
  apply (protected_pages_stay map_to_list ltac:(reflexivity) demo (CallInsert 4 9) _ _ demo_wf demo_insert_ok (surjective_pairing _))
    with (p := dirty_page 3); by vm_compute.
Defined.
Lemma evict_one_sieve_witness : exists c', evict_one demo = (Ok tt, c') /\ exists x ring', sieved demo_pages demo_ring x ring' /\ holds c' ring'.
Proof.
  assert (Hs := evict_one_sieve demo demo_ring demo_holds ltac:(discriminate)).
  destruct (evict_one demo) as [[[]|err|] c'] eqn:He.
  - exists c'. split; [reflexivity|]. destruct Hs as (x & ring' & Hs & Hh & _). exists x, ring'. exact (conj Hs Hh).
  - apply (f_equal fst) in He. vm_compute in He. discriminate He.
  - destruct Hs.
Defined.
Lemma insert_outcome_witness : cached (insert_ 4 9 demo).2 4 = Some 9.
Proof.
  destruct (insert_outcome demo 4 9 demo_wf (proj1 demo_insert_ok) (proj2 demo_insert_ok)) as [Ho _].
  destruct (insert_ 4 9 demo) as [[[]|err|] c'] eqn:He.
  - exact (proj1 Ho).
  - apply (f_equal fst) in He. vm_compute in He. discriminate He.
  - destruct Ho.
Defined.
(** Page 8 is to be spilled when only one page fits below the threshold. *)
Definition demo_full : PageCache (list eptr) := set_limits 1 1 (set_evictable_count 0 (set_pages (<[7 := dirty_page 2]> demo_pages) demo)).
Lemma demo_full_wf : wf demo_full.
Proof.
  exists demo_ring. constructor; [done|done| | | |by vm_compute].
  - apply (bool_decide_unpack _). by vm_compute.
  - split; [apply (bool_decide_unpack _); by vm_compute|]. split; [done|]. by exists [], [1%positive; 2%positive].
  - repeat constructor; cbn; try done; eexists; (split; [by vm_compute|done]).
Qed.
Lemma check_spill_pins_witness : exists l c', check_spill map_to_list 10 demo_full = (Ok (PagesToSpill l), c') /\ collected demo_full c' l.
Proof.
  destruct (check_spill map_to_list 10 demo_full) as [[[|l|]|err|] c'] eqn:He;
    try (apply (f_equal fst) in He; vm_compute in He; discriminate He).
  exists l, c'. split; [reflexivity|].
  exact (proj1 (proj2 (check_spill_pins map_to_list ltac:(reflexivity) demo_full 10 l c' demo_full_wf ltac:(lia) He))).
Defined.
