(* ===== verification/LogicalLog.v ===== *)
(** The logical log of the multi-version store (core/mvcc/persistent_storage/logical_log.rs,
    its serializer and mod.rs): the bytes of the log header, of operations and of transaction
    frames, the decoders of the protobuf extensions, the writer and the storage object.

    The log is not encrypted and the build is without the raw-connection interface, so that
    the writer makes no extension frames; the reader handles them.  CRC-32C comes from a
    package and is an interface with its documented laws. *)

From stdpp Require Import base list numbers.
From Stdlib Require Import ZArith Lia.
From S2P Require Import Prelude Varint DbHeader.

(** * CRC-32C *)

Class Crc32c : Type := { crc32c_append : Z -> list Z -> Z }.
(** [crc32c_append(crc, data)] continues the checksum [crc] of the bytes before [data]. *)
Class Crc32cLaws `{Crc32c} : Prop := {
  crc32c_append_nil crc : crc32c_append crc [] = crc;
  crc32c_append_app crc a b : crc32c_append crc (a ++ b) = crc32c_append (crc32c_append crc a) b;
  crc32c_append_u32 crc a : is_u 32 crc -> is_u 32 (crc32c_append crc a)
}.

(** * Constants *)

Definition LOG_MAGIC : Z := 0x4C4D4C32.
Definition LOG_VERSION_V2 : Z := 2.
Definition LOG_VERSION : Z := 3.
Definition LOG_HDR_SIZE : Z := 56.
Definition FRAME_MAGIC : Z := 0x5854564D.
Definition EXT_FRAME_MAGIC : Z := 0x5845564D.
Definition END_MAGIC : Z := 0x4554564D.
Definition OP_UPSERT_TABLE : Z := 0.
Definition OP_DELETE_TABLE : Z := 1.
Definition OP_UPSERT_INDEX : Z := 2.
Definition OP_DELETE_INDEX : Z := 3.
Definition OP_UPDATE_HEADER : Z := 4.
Definition OP_FLAG_BTREE_RESIDENT : Z := 1.
Definition OP_FLAG_PORTABLE_EXTENSION : Z := 2.
Definition OP_ALLOWED_FLAGS : Z := 3.
Definition OP_EXT_FIELD_DELETE_IDENTITY_RECORD : Z := 1.
Definition OP_EXT_FIELD_DELETE_PK_RECORD : Z := 2.
Definition OP_EXT_FIELD_DELETE_ROWID : Z := 3.
Definition TX_HEADER_SIZE : Z := 24.
Definition TX_EXT_HEADER_SIZE : Z := 40.
Definition TX_TRAILER_SIZE : Z := 8.
Definition TX_MIN_FRAME_SIZE : Z := 32.
Definition TX_FRAME_FLAG_HAS_EXTENSION_BLOCK : Z := 1.
Definition EXTENSION_RECORD_HEADER_SIZE : Z := 8.
Definition EXTENSION_TYPE_PORTABLE_CHANGES : Z := 1.
Definition LOG_RECORD_PREFIX_SIZE : Z := LOG_HDR_SIZE + TX_HEADER_SIZE.
Definition PROTO_WIRE_VARINT : Z := 0.
Definition PROTO_WIRE_LENGTH_DELIMITED : Z := 2.

(** [uN::from_le_bytes(buf[i..i + n])] of bytes that are there. *)
Definition le_at (buf : list Z) (i n : nat) : Z := le_val (take n (drop i buf)).

(** * The header of the log *)

Record LogHeader : Type := MkLogHeader {
  lh_version : Z; lh_flags : Z; lh_hdr_len : Z; lh_salt : Z; lh_crc32c : Z; lh_reserved : list Z
}.

Section log.
Context `{Crc32c}.

Definition crc32c (bs : list Z) : Z := crc32c_append 0 bs.
Definition derive_initial_crc (salt : Z) : Z := crc32c (le_bytes 8 salt).

(** [random] is the [i64] that [generate_random_number] gives. *)
Definition new_with_version (random version : Z) : res LimboError LogHeader :=
  _ ← rassert ((version =? LOG_VERSION_V2) || (version =? LOG_VERSION));
  Ok (MkLogHeader version 0 LOG_HDR_SIZE (wrap 64 random) 0 (replicate 36 0)).
(** The bytes before the checksum. *)
Definition header_front (h : LogHeader) : list Z :=
  le_bytes 4 LOG_MAGIC ++ [lh_version h; lh_flags h] ++ le_bytes 2 (lh_hdr_len h) ++ le_bytes 8 (lh_salt h) ++ lh_reserved h.
Definition encode_header (h : LogHeader) : list Z :=
  let crc := crc32c (header_front h ++ replicate 4 0) in header_front h ++ le_bytes 4 crc.
Definition decode_header (buf : list Z) : res LimboError LogHeader :=
  _ ← ensure (LOG_HDR_SIZE <=? len buf) Corrupt;
  _ ← ensure (le_at buf 0 4 =? LOG_MAGIC) Corrupt;
  let version := le_at buf 4 1 in
  _ ← ensure ((version =? LOG_VERSION) || (version =? LOG_VERSION_V2)) Corrupt;
  let flags := le_at buf 5 1 in
  _ ← ensure (Z.land flags 0xFE =? 0) Corrupt;
  let hdr_len := le_at buf 6 2 in
  _ ← ensure (hdr_len =? LOG_HDR_SIZE) Corrupt;
  _ ← ensure (hdr_len <=? len buf) Corrupt;
  let hdr_crc32c := le_at buf 52 4 in
  let expected_crc := crc32c (take 52 buf ++ replicate 4 0) in
  _ ← ensure (expected_crc =? hdr_crc32c) Corrupt;
  let salt := le_at buf 8 8 in
  let reserved := take 36 (drop 16 buf) in
  _ ← ensure (forallb (Z.eqb 0) reserved) Corrupt;
  Ok (MkLogHeader version flags hdr_len salt hdr_crc32c reserved).
End log.

(** * Protocol-buffer fields *)

(** [ProtoVarint]: the loop ends within ten bytes, the size of its buffer. *)
Fixpoint proto_varint_bytes (fuel : nat) (value : Z) : list Z :=
  match fuel with
  | O => []
  | S fuel =>
      let rest := Z.shiftr value 7 in
      if rest =? 0 then [wrap 8 value] else Z.lor (wrap 8 value) 0x80 :: proto_varint_bytes fuel rest
  end.
Definition ProtoVarint (value : Z) : list Z := proto_varint_bytes 10 value.
Definition ProtoKey (field wire_type : Z) : list Z := ProtoVarint (Z.lor (wrap 64 (Z.shiftl field 3)) wire_type).
Definition zigzag (value : Z) : Z := wrap 64 (Z.lxor (to_signed 64 (wrap 64 (Z.shiftl value 1))) (Z.shiftr value 63)).
Definition ProtoSint64 (field value : Z) : list Z := ProtoKey field PROTO_WIRE_VARINT ++ ProtoVarint (zigzag value).

Definition proto_record (field : Z) (record : option (list Z)) : list Z :=
  match record with
  | Some (b :: bs) =>
      ProtoKey field PROTO_WIRE_LENGTH_DELIMITED ++ ProtoVarint (len (b :: bs)) ++ b :: bs
  | _ => []
  end.
Definition encode_delete_portable_extension (identity_record pk_record : option (list Z)) (rowid : option Z) : list Z :=
  proto_record OP_EXT_FIELD_DELETE_IDENTITY_RECORD identity_record ++
  proto_record OP_EXT_FIELD_DELETE_PK_RECORD pk_record ++
  match rowid with Some rowid => ProtoSint64 OP_EXT_FIELD_DELETE_ROWID rowid | None => [] end.

(** Reading gives the value and the bytes after it. *)
Fixpoint read_proto_varint_from (value shift : Z) (bytes : list Z) : res LimboError (Z * list Z) :=
  match bytes with
  | [] => Err Corrupt
  | byte :: bytes =>
      let value := Z.lor value (wrap 64 (Z.shiftl (Z.land byte 0x7f) shift)) in
      if Z.land byte 0x80 =? 0 then Ok (value, bytes)
      else if 64 <=? shift + 7 then Err Corrupt else read_proto_varint_from value (shift + 7) bytes
  end.
Definition read_proto_varint_from_buf (bytes : list Z) : res LimboError (Z * list Z) := read_proto_varint_from 0 0 bytes.
(** A length and as many bytes. *)
Definition read_proto_record (bytes : list Z) : res LimboError (list Z * list Z) :=
  '(n, bytes) ← read_proto_varint_from_buf bytes;
  if len bytes <? n then Err Corrupt else Ok (take (Z.to_nat n) bytes, drop (Z.to_nat n) bytes).
Definition skip_proto_field (wire_type : Z) (bytes : list Z) : res LimboError (list Z) :=
  if wire_type =? 0 then '(_, bytes) ← read_proto_varint_from_buf bytes; Ok bytes
  else if wire_type =? 2 then '(_, bytes) ← read_proto_record bytes; Ok bytes
  else Err Corrupt.
Record DeletePortableExtension : Type := MkDeleteExt { identity_record : list Z; pk_record : list Z }.
(** Every field takes a byte at least, so that the length of the bytes is fuel enough. *)
Fixpoint decode_delete_loop (fuel : nat) (decoded : DeletePortableExtension) (bytes : list Z) :
    res LimboError DeletePortableExtension :=
  match bytes, fuel with
  | [], _ => Ok decoded
  | _, O => Panic
  | _, S fuel =>
      '(key, bytes) ← read_proto_varint_from_buf bytes;
      let field := Z.shiftr key 3 in
      let wire_type := Z.land key 7 in
      if (field =? OP_EXT_FIELD_DELETE_IDENTITY_RECORD) && (wire_type =? 2) then
        '(record, bytes) ← read_proto_record bytes;
        decode_delete_loop fuel (MkDeleteExt record (pk_record decoded)) bytes
      else if (field =? OP_EXT_FIELD_DELETE_PK_RECORD) && (wire_type =? 2) then
        '(record, bytes) ← read_proto_record bytes;
        decode_delete_loop fuel (MkDeleteExt (identity_record decoded) record) bytes
      else if (field =? OP_EXT_FIELD_DELETE_ROWID) && (wire_type =? 0) then
        '(_, bytes) ← read_proto_varint_from_buf bytes;
        decode_delete_loop fuel decoded bytes
      else
        bytes ← skip_proto_field wire_type bytes;
        decode_delete_loop fuel decoded bytes
  end.
Definition decode_delete_portable_extension (extension : list Z) : res LimboError DeletePortableExtension :=
  decode_delete_loop (length extension) (MkDeleteExt [] []) extension.

(** [find_extension_payload]; every record has eight bytes at least. *)
Fixpoint find_extension_loop (fuel : nat) (count wanted_type : Z) (payload rest : list Z) : res LimboError (list Z) :=
  if count =? 0 then if len rest =? 0 then Ok payload else Err Corrupt
  else match fuel with
  | O => Panic
  | S fuel =>
      if len rest <? EXTENSION_RECORD_HEADER_SIZE then Err Corrupt
      else
        let extension_type := le_at rest 0 2 in
        if negb (le_at rest 2 2 =? 0) then Err Corrupt
        else
          let extension_len := Z.to_nat (le_at rest 4 4) in
          let body := drop 8 rest in
          if len body <? Z.of_nat extension_len then Err Corrupt
          else
            let payload := if extension_type =? wanted_type then payload ++ take extension_len body else payload in
            find_extension_loop fuel (count - 1) wanted_type payload (drop extension_len body)
  end.
Definition find_extension_payload (extension_block : list Z) (extension_record_count wanted_type : Z) : res LimboError (list Z) :=
  find_extension_loop (S (length extension_block)) extension_record_count wanted_type [] extension_block.

(** * Operations *)

Inductive RowKey : Type := IntKey (rowid : Z) | RecordKey.
(** What [serialize_op_entry] reads of a row version; [lv_deleted] is [end().is_some()]. *)
Record LoggedVersion : Type := MkLogged {
  lv_table_id : Z; lv_key : RowKey; lv_payload : list Z; lv_deleted : bool; lv_btree_resident : bool
}.

Definition SqliteVarint (v : Z) : res LimboError (list Z) :=
  '(bytes, n) ← write_varint (replicate 9 0) v; slice bytes 0 n.
Definition extension_bytes (portable_extension : option (list Z)) : res LimboError (list Z) :=
  match portable_extension with
  | Some (b :: bs) => n ← SqliteVarint (len (b :: bs)); Ok (n ++ b :: bs)
  | _ => Ok []
  end.
Definition op_flags (v : LoggedVersion) (portable_extension : option (list Z)) : Z :=
  Z.lor (if lv_btree_resident v then OP_FLAG_BTREE_RESIDENT else 0)
    (match portable_extension with Some (_ :: _) => OP_FLAG_PORTABLE_EXTENSION | _ => 0 end).
Definition serialize_op_entry (v : LoggedVersion) (portable_extension : option (list Z)) (buffer : list Z) :
    res LimboError (list Z) :=
  let flags := op_flags v portable_extension in
  _ ← rassert (lv_table_id v <? 0);
  _ ← rassert (- 2 ^ 31 <=? lv_table_id v);
  let table_id := le_bytes 4 (wrap 32 (lv_table_id v)) in
  extension ← extension_bytes portable_extension;
  match lv_key v, lv_deleted v with
  | IntKey rowid, false =>
      let rowid := wrap 64 rowid in
      n ← SqliteVarint (varint_len rowid + len (lv_payload v));
      r ← SqliteVarint rowid;
      Ok (buffer ++ [OP_UPSERT_TABLE; flags] ++ table_id ++ n ++ r ++ lv_payload v ++ extension)
  | IntKey rowid, true =>
      let rowid := wrap 64 rowid in
      n ← SqliteVarint (varint_len rowid);
      r ← SqliteVarint rowid;
      Ok (buffer ++ [OP_DELETE_TABLE; flags] ++ table_id ++ n ++ r ++ extension)
  | RecordKey, is_delete =>
      n ← SqliteVarint (len (lv_payload v));
      Ok (buffer ++ [if is_delete then OP_DELETE_INDEX else OP_UPSERT_INDEX; flags] ++ table_id ++ n ++ lv_payload v ++ extension)
  end.
Definition serialize_header_entry (header : DatabaseHeader) (buffer : list Z) : res LimboError (list Z) :=
  n ← SqliteVarint DatabaseHeader_SIZE;
  Ok (buffer ++ [OP_UPDATE_HEADER; 0] ++ le_bytes 4 0 ++ n ++ DatabaseHeader_bytes header).
Definition serialize_tx_trailer (crc : Z) (buffer : list Z) : list Z := buffer ++ le_bytes 4 crc ++ le_bytes 4 END_MAGIC.

Record LogRecord : Type := MkLogRecord { tx_timestamp : Z; lr_buf : list Z; op_count : Z; has_header : bool }.
Definition LogRecord_new (ts : Z) : LogRecord := MkLogRecord ts (replicate (Z.to_nat LOG_RECORD_PREFIX_SIZE) 0) 0 false.
(** The buffer keeps the entry when the count of operations overflows. *)
Definition count_op : ST LogRecord unit :=
  m ← sget;
  if op_count m + 1 <? 2 ^ 32 then smodify (fun m => MkLogRecord (tx_timestamp m) (lr_buf m) (op_count m + 1) (has_header m))
  else slift (Err InternalError).
Definition set_lr_buf (buf : list Z) (has : bool) (m : LogRecord) : LogRecord :=
  MkLogRecord (tx_timestamp m) buf (op_count m) (has || has_header m).
Definition serialize_row_version (v : LoggedVersion) (portable_extension : option (list Z)) : ST LogRecord unit :=
  m ← sget;
  buf ← slift (serialize_op_entry v portable_extension (lr_buf m));
  _ ← smodify (set_lr_buf buf false);
  count_op.
Definition serialize_database_header (header : DatabaseHeader) : ST LogRecord unit :=
  m ← sget;
  _ ← sassert (negb (has_header m));
  buf ← slift (serialize_header_entry header (lr_buf m));
  _ ← smodify (set_lr_buf buf true);
  count_op.

(** * The writer *)

(** [pwrite] at [off], past the end of the file too, and [truncate]. *)
Definition pwrite (file : list Z) (off : Z) (data : list Z) : list Z :=
  let o := Z.to_nat off in take o (file ++ replicate (o - length file) 0) ++ data ++ drop (o + length data) file.
Definition ftruncate (file : list Z) (n : Z) : list Z := let n := Z.to_nat n in take n (file ++ replicate (n - length file) 0).

Record LogicalLog : Type := MkLog {
  ll_file : list Z; ll_offset : Z; ll_header : option LogHeader; ll_running_crc : Z;
  ll_pending_running_crc : option Z; ll_max_appended_commit_ts : Z
}.
Definition LogicalLog_new (file : list Z) : LogicalLog := MkLog file 0 None 0 None 0.
Definition set_ll_file (f : list Z -> list Z) (l : LogicalLog) : LogicalLog :=
  MkLog (f (ll_file l)) (ll_offset l) (ll_header l) (ll_running_crc l) (ll_pending_running_crc l) (ll_max_appended_commit_ts l).
Definition set_ll_offset (offset : Z) (l : LogicalLog) : LogicalLog :=
  MkLog (ll_file l) offset (ll_header l) (ll_running_crc l) (ll_pending_running_crc l) (ll_max_appended_commit_ts l).
Definition set_ll_header (header : LogHeader) (l : LogicalLog) : LogicalLog :=
  MkLog (ll_file l) (ll_offset l) (Some header) (ll_running_crc l) (ll_pending_running_crc l) (ll_max_appended_commit_ts l).
Definition set_ll_crc (crc : Z) (l : LogicalLog) : LogicalLog :=
  MkLog (ll_file l) (ll_offset l) (ll_header l) crc (ll_pending_running_crc l) (ll_max_appended_commit_ts l).
Definition set_ll_pending (crc : option Z) (l : LogicalLog) : LogicalLog :=
  MkLog (ll_file l) (ll_offset l) (ll_header l) (ll_running_crc l) crc (ll_max_appended_commit_ts l).
Definition set_ll_max_ts (ts : Z) (l : LogicalLog) : LogicalLog :=
  MkLog (ll_file l) (ll_offset l) (ll_header l) (ll_running_crc l) (ll_pending_running_crc l) ts.

Section writer.
Context `{Crc32c}.

Definition set_header (header : LogHeader) (l : LogicalLog) : LogicalLog :=
  set_ll_header header (set_ll_crc (derive_initial_crc (lh_salt header)) l).

(** What the file system does with a write: it refuses it, or that many bytes of it get
    to the file. *)
Definition pwritten (wrote : option nat) (off : Z) (data : list Z) : ST LogicalLog unit :=
  match wrote with
  | None => slift (Err IOError)
  | Some k => smodify (set_ll_file (fun file => pwrite file off (take k data)))
  end.

Definition ensure_header (random : Z) : ST LogicalLog unit :=
  self ← sget;
  match ll_header self with
  | None =>
      if ll_offset self =? 0 then
        header ← slift (new_with_version random LOG_VERSION_V2);
        smodify (set_header header)
      else mret tt
  | Some _ => mret tt
  end.
(** Steps 3 to 5 of [frame_and_pwrite_tx] on its buffer. *)
Definition backfill_tx_header (payload_size : Z) (tx : LogRecord) : res LimboError (list Z) :=
  buf ← write_at (lr_buf tx) LOG_HDR_SIZE (le_bytes 4 FRAME_MAGIC);
  buf ← write_at buf (LOG_HDR_SIZE + 4) (le_bytes 8 payload_size);
  buf ← write_at buf (LOG_HDR_SIZE + 12) (le_bytes 4 (op_count tx));
  write_at buf (LOG_HDR_SIZE + 16) (le_bytes 8 (tx_timestamp tx)).
Definition fill_log_header (is_first_write : bool) (header : option LogHeader) (buf : list Z) : res LimboError (list Z) :=
  if is_first_write then
    match header with Some header => write_at buf 0 (encode_header header) | None => Panic end
  else Ok buf.
(** [observer] is the error that [on_serialization_complete] returns, if it does. *)
Definition frame_and_pwrite_tx (random : Z) (observer : option LimboError) (wrote : option nat)
    (tx : LogRecord) (advance_offset_immediately : bool) : ST LogicalLog Z :=
  _ ← smodify (fun l => set_ll_max_ts (Z.max (ll_max_appended_commit_ts l) (tx_timestamp tx)) l);
  payload_size ← slift (usub (len (lr_buf tx)) LOG_RECORD_PREFIX_SIZE);
  _ ← ensure_header random;
  self ← sget;
  let is_first_write := ll_offset self =? 0 in
  buf ← slift (backfill_tx_header payload_size tx);
  let crc := crc32c_append (ll_running_crc self) (drop (Z.to_nat LOG_HDR_SIZE) buf) in
  buf ← slift (fill_log_header is_first_write (ll_header self) (serialize_tx_trailer crc buf));
  let shared := if is_first_write then buf else drop (Z.to_nat LOG_HDR_SIZE) buf in
  _ ← match observer with Some e => slift (Err e) | None => mret tt end;
  _ ← pwritten wrote (ll_offset self) shared;
  _ ← (if advance_offset_immediately then
         offset ← slift (uadd 64 (ll_offset self) (len shared));
         smodify (fun l => set_ll_crc crc (set_ll_offset offset l))
       else smodify (set_ll_pending (Some crc)));
  mret (len shared).
Definition log_tx (random : Z) (wrote : option nat) (tx : LogRecord) : ST LogicalLog unit :=
  _ ← frame_and_pwrite_tx random None wrote tx true; mret tt.
Definition log_tx_deferred_offset (random : Z) (observer : option LimboError) (wrote : option nat) (tx : LogRecord) : ST LogicalLog Z :=
  frame_and_pwrite_tx random observer wrote tx false.
Definition advance_offset_after_success (bytes : Z) : ST LogicalLog unit :=
  self ← sget;
  offset ← slift (uadd 64 (ll_offset self) bytes);
  _ ← smodify (set_ll_offset offset);
  match ll_pending_running_crc self with
  | Some crc => smodify (fun l => set_ll_crc crc (set_ll_pending None l))
  | None => slift Panic
  end.

Definition current_or_new_header (random : Z) (l : LogicalLog) : res LimboError LogHeader :=
  match ll_header l with
  | Some header => Ok header
  | None => if ll_offset l =? 0 then new_with_version random LOG_VERSION_V2 else Err InternalError
  end.
Definition set_salt (salt : Z) (h : LogHeader) : LogHeader :=
  MkLogHeader (lh_version h) (lh_flags h) (lh_hdr_len h) salt (lh_crc32c h) (lh_reserved h).
Definition set_hdr_crc (crc : Z) (h : LogHeader) : LogHeader :=
  MkLogHeader (lh_version h) (lh_flags h) (lh_hdr_len h) (lh_salt h) crc (lh_reserved h).
Definition write_header (wrote : option nat) (header : LogHeader) : ST LogicalLog unit :=
  let header_bytes := encode_header header in
  _ ← smodify (set_ll_header (set_hdr_crc (le_at header_bytes 52 4) header));
  pwritten wrote 0 header_bytes.
Definition update_header (random : Z) (wrote : option nat) : ST LogicalLog unit :=
  self ← sget;
  header ← slift (current_or_new_header random self);
  write_header wrote header.

Definition truncated (ok : bool) (n : Z) : ST LogicalLog unit :=
  if ok then smodify (set_ll_file (fun file => ftruncate file n)) else slift (Err IOError).
(** The first random number is drawn when there is no header yet. *)
Definition reseed (random random' : Z) : ST LogicalLog LogHeader :=
  self ← sget;
  header ← slift (current_or_new_header random self);
  let header := set_salt (wrap 64 random') header in
  _ ← smodify (fun l => set_ll_pending None (set_header header l));
  mret header.
Definition truncate_to_zero (random random' : Z) (ok : bool) : ST LogicalLog unit :=
  _ ← reseed random random';
  _ ← truncated ok 0;
  smodify (fun l => set_ll_max_ts 0 (set_ll_offset 0 l)).
Inductive LogicalLogTruncateOutcome : Type := Truncated | Retained.
Definition log_truncate (random random' : Z) (ok : bool) (checkpointed_through_ts : Z) : ST LogicalLog LogicalLogTruncateOutcome :=
  self ← sget;
  if checkpointed_through_ts <? ll_max_appended_commit_ts self then mret Retained
  else _ ← truncate_to_zero random random' ok; mret Truncated.
(** The header write and the truncation are in flight together; [header_first] is the
    order in which they take effect. *)
Definition reset_to_fresh_header (random random' : Z) (wrote : option nat) (ok header_first : bool) : ST LogicalLog unit :=
  header ← reseed random random';
  _ ← (if ok && negb header_first then
         _ ← write_header (match wrote with Some _ => Some 0%nat | None => None end) header;
         _ ← truncated ok LOG_HDR_SIZE;
         pwritten wrote 0 (encode_header header)
       else
         _ ← write_header wrote header;
         truncated ok LOG_HDR_SIZE);
  smodify (set_ll_offset 0).
End writer.

(** ** The storage object *)

Record Storage : Type := MkStorage { st_log : LogicalLog; st_log_offset : Z; st_checkpoint_threshold : Z }.
Definition DEFAULT_LOG_CHECKPOINT_THRESHOLD : Z := 4120 * 1000.
Definition Storage_new (file : list Z) : Storage := MkStorage (LogicalLog_new file) 0 DEFAULT_LOG_CHECKPOINT_THRESHOLD.
(** A call on the log under its write lock. *)
Definition on_log {A} (m : ST LogicalLog A) : ST Storage A := fun s =>
  let '(r, l) := m (st_log s) in (r, MkStorage l (st_log_offset s) (st_checkpoint_threshold s)).
Definition shadow_offset_store (value : Z) (s : Storage) : Storage := MkStorage (st_log s) value (st_checkpoint_threshold s).
Definition shadow_offset_advance (bytes : Z) (s : Storage) : Storage :=
  shadow_offset_store (wrap 64 (st_log_offset s + bytes)) s.
Section storage.
Context `{Crc32c}.
Definition Storage_log_tx (random : Z) (observer : option LimboError) (wrote : option nat) (m : LogRecord) : ST Storage Z :=
  on_log (log_tx_deferred_offset random observer wrote m).
Definition Storage_update_header (random : Z) (wrote : option nat) : ST Storage unit := on_log (update_header random wrote).
Definition Storage_truncate (random random' : Z) (ok : bool) (checkpointed_through_ts : Z) : ST Storage LogicalLogTruncateOutcome :=
  outcome ← on_log (log_truncate random random' ok checkpointed_through_ts);
  _ ← smodify (fun s => shadow_offset_store (ll_offset (st_log s)) s);
  mret outcome.
Definition Storage_reset_to_fresh_header (random random' : Z) (wrote : option nat) (ok header_first : bool) : ST Storage unit :=
  _ ← on_log (reset_to_fresh_header random random' wrote ok header_first);
  smodify (shadow_offset_store 0).
Definition should_checkpoint (s : Storage) : bool :=
  if st_checkpoint_threshold s <? 0 then false else st_checkpoint_threshold s <=? st_log_offset s.
Definition set_checkpoint_threshold (threshold : Z) (s : Storage) : Storage := MkStorage (st_log s) (st_log_offset s) threshold.
Definition advance_logical_log_offset_after_success (bytes : Z) : ST Storage unit :=
  _ ← on_log (advance_offset_after_success bytes);
  smodify (shadow_offset_advance bytes).
Definition restore_logical_log_state_after_recovery (offset running_crc : Z) (s : Storage) : Storage :=
  shadow_offset_store offset
    (MkStorage (set_ll_crc running_crc (set_ll_offset offset (st_log s))) (st_log_offset s) (st_checkpoint_threshold s)).
Definition Storage_set_header (header : LogHeader) (s : Storage) : Storage :=
  MkStorage (set_header header (st_log s)) (st_log_offset s) (st_checkpoint_threshold s).
End storage.
