(* ===== verification/LogReader.v ===== *)
(** The streaming reader of the logical log (core/mvcc/persistent_storage/logical_log.rs),
    as recovery runs it: a buffer filled by reads that may be short and may complete later,
    a frame parser that resumes at its last checkpoint when a read was not complete, and the
    loop over frames.

    The units between two checkpoints (a header, an extension block, an operation, a trailer)
    are written once, as programs that ask for the next bytes; [run_unit] runs them on the
    reader. *)

From stdpp Require Import base list numbers.
From Stdlib Require Import ZArith Lia.
From S2P Require Import Prelude Varint DbHeader LogicalLog.

(** * Units *)

(** A program that consumes bytes; when there are not as many left it stops, and the caller
    sees the end of the log. *)
Inductive unit_prog (A : Type) : Type :=
| URet (a : A)
| UErr (e : LimboError)
| UPanic
| UConsume (amount : Z) (k : list Z -> unit_prog A).
Arguments URet {A} a.
Arguments UErr {A} e.
Arguments UPanic {A}.
Arguments UConsume {A} amount k.

Global Instance unit_ret : MRet unit_prog := fun A a => URet a.
Fixpoint unit_then {A B} (f : A -> unit_prog B) (m : unit_prog A) : unit_prog B :=
  match m with
  | URet a => f a
  | UErr e => UErr e
  | UPanic => UPanic
  | UConsume n k => UConsume n (fun bs => unit_then f (k bs))
  end.
Global Instance unit_bind : MBind unit_prog := fun A B f m => unit_then f m.
Definition consume (amount : Z) : unit_prog (list Z) := UConsume amount URet.
Definition ulift {A} (r : res LimboError A) : unit_prog A :=
  match r with Ok a => URet a | Err e => UErr e | Panic => UPanic end.

(** [consume_varint_bytes]: [k] bytes of seven bits may still come, then one of eight. *)
Fixpoint consume_varint_loop (k : nat) (v : Z) (bytes : list Z) : unit_prog (Z * list Z) :=
  match k with
  | O =>
      c ← consume 1;
      if Z.shiftr v 48 =? 0 then UErr Corrupt
      else URet (wrap 64 (Z.shiftl v 8) + le_val c, bytes ++ c)
  | S k =>
      c ← consume 1;
      let v := wrap 64 (Z.shiftl v 7) + Z.land (le_val c) 0x7f in
      if Z.land (le_val c) 0x80 =? 0 then URet (v, bytes ++ c) else consume_varint_loop k v (bytes ++ c)
  end.
Definition consume_varint_bytes : unit_prog (Z * list Z) := consume_varint_loop 8 0 [].

Inductive ParsedOp : Type :=
| UpsertTable (table_id rowid : Z) (record_bytes : list Z) (commit_ts : Z) (btree_resident : bool)
| DeleteTable (table_id rowid : Z) (record_bytes pk_record_bytes : list Z) (commit_ts : Z) (btree_resident : bool)
| UpsertIndex (table_id : Z) (payload : list Z) (commit_ts : Z) (btree_resident : bool)
| DeleteIndex (table_id : Z) (payload : list Z) (commit_ts : Z) (btree_resident : bool)
| UpdateHeader (header : DatabaseHeader) (commit_ts : Z).

(** The checks on the six bytes before the length of an operation. *)
Definition check_op_header (tag flags table_id : Z) : res LimboError unit :=
  if (tag =? OP_UPSERT_TABLE) || (tag =? OP_DELETE_TABLE) || (tag =? OP_UPSERT_INDEX) || (tag =? OP_DELETE_INDEX) then
    ensure (negb (negb (Z.land flags (Z.lnot OP_ALLOWED_FLAGS) =? 0) || (0 <=? table_id))) Corrupt
  else if tag =? OP_UPDATE_HEADER then
    ensure (negb (negb (flags =? 0) || negb (table_id =? 0))) Corrupt
  else Err Corrupt.
(** [read_varint] of a payload, its errors mapped to one. *)
Definition split_rowid (payload : list Z) : res LimboError (Z * list Z) :=
  '(rowid, n) ← match read_varint payload with Err _ => Err Corrupt | r => r end;
  _ ← ensure (n <=? len payload) Corrupt;
  Ok (to_signed 64 rowid, drop (Z.to_nat n) payload).
Definition delete_records (record_bytes extension : list Z) : res LimboError (list Z * list Z) :=
  match extension with
  | [] => Ok (record_bytes, [])
  | _ =>
      decoded ← decode_delete_portable_extension extension;
      Ok (match record_bytes with [] => identity_record decoded | _ => record_bytes end, pk_record decoded)
  end.
Definition parsed_op (tag table_id : Z) (payload extension : list Z) (commit_ts : Z) (btree_resident : bool) :
    res LimboError ParsedOp :=
  if tag =? OP_UPSERT_TABLE then
    '(rowid, record_bytes) ← split_rowid payload;
    Ok (UpsertTable table_id rowid record_bytes commit_ts btree_resident)
  else if tag =? OP_DELETE_TABLE then
    '(rowid, record_bytes) ← split_rowid payload;
    '(record_bytes, pk_record_bytes) ← delete_records record_bytes extension;
    Ok (DeleteTable table_id rowid record_bytes pk_record_bytes commit_ts btree_resident)
  else if tag =? OP_UPSERT_INDEX then Ok (UpsertIndex table_id payload commit_ts btree_resident)
  else if tag =? OP_DELETE_INDEX then Ok (DeleteIndex table_id payload commit_ts btree_resident)
  else if tag =? OP_UPDATE_HEADER then
    _ ← ensure (len payload =? DatabaseHeader_SIZE) Corrupt;
    header ← DatabaseHeader_from_bytes payload;
    _ ← ensure (bool_decide (magic header = SQLITE_MAGIC)) Corrupt;
    Ok (UpdateHeader header commit_ts)
  else Err Corrupt.

Section units.
Context `{Crc32c}.

(** One operation of [parse_streaming_payload]: the operation, the checksum and the count of
    payload bytes after it. *)
Definition parse_op (commit_ts running_crc payload_bytes_read : Z) : unit_prog (ParsedOp * Z * Z) :=
  op_bytes ← consume 6;
  let running_crc := crc32c_append running_crc op_bytes in
  let tag := le_at op_bytes 0 1 in
  let flags := le_at op_bytes 1 1 in
  let table_id := to_signed 32 (le_at op_bytes 2 4) in
  _ ← ulift (check_op_header tag flags table_id);
  let btree_resident := negb (Z.land flags OP_FLAG_BTREE_RESIDENT =? 0) in
  let has_portable_extension := negb (Z.land flags OP_FLAG_PORTABLE_EXTENSION =? 0) in
  '(payload_len, payload_len_bytes) ← consume_varint_bytes;
  let running_crc := crc32c_append running_crc payload_len_bytes in
  payload ← consume payload_len;
  let running_crc := crc32c_append running_crc payload in
  '(extension, extension_total_bytes, running_crc) ←
    (if has_portable_extension then
       '(extension_len, extension_len_bytes) ← consume_varint_bytes;
       let running_crc := crc32c_append running_crc extension_len_bytes in
       extension ← consume extension_len;
       URet (extension, len extension_len_bytes + extension_len, crc32c_append running_crc extension)
     else URet ([], 0, running_crc));
  let op_total_bytes := 6 + len payload_len_bytes + payload_len + extension_total_bytes in
  _ ← ulift (ensure (payload_bytes_read + op_total_bytes <? 2 ^ 64) Corrupt);
  op ← ulift (parsed_op tag table_id payload extension commit_ts btree_resident);
  URet (op, running_crc, payload_bytes_read + op_total_bytes).

Record FrameHeader : Type := MkFrameHeader {
  fh_payload_size : Z; fh_op_count : Z; fh_commit_ts : Z; fh_extension_size : Z;
  fh_extension_record_count : Z; fh_frame_flags : Z; fh_running_crc : Z
}.
(** The fields of an extension header; [None] when they are not valid. *)
Definition extension_fields (header_bytes : list Z) : option (Z * Z * Z) :=
  let extension_size := le_at header_bytes 24 8 in
  let extension_record_count := le_at header_bytes 32 4 in
  let frame_flags := le_at header_bytes 36 4 in
  if negb (Z.land frame_flags (Z.lnot TX_FRAME_FLAG_HAS_EXTENSION_BLOCK) =? 0) then None
  else if (extension_size =? 0) && negb (extension_record_count =? 0) then None
  else if (0 <? extension_size) && (Z.land frame_flags TX_FRAME_FLAG_HAS_EXTENSION_BLOCK =? 0) then None
  else Some (extension_size, extension_record_count, frame_flags).
(** [None] is [HeaderParseOutcome::Invalid]. *)
Definition parse_frame_header (is_v2 : bool) (running_crc : Z) : unit_prog (option FrameHeader) :=
  header_bytes ← consume TX_HEADER_SIZE;
  let frame_magic := le_at header_bytes 0 4 in
  let has_extension_header := negb is_v2 && (frame_magic =? EXT_FRAME_MAGIC) in
  if negb (frame_magic =? FRAME_MAGIC) && negb has_extension_header then URet None
  else if is_v2 && negb (frame_magic =? FRAME_MAGIC) then URet None
  else
    header_bytes ← (if has_extension_header then
                      extension_header ← consume (TX_EXT_HEADER_SIZE - TX_HEADER_SIZE);
                      URet (header_bytes ++ extension_header)
                    else URet header_bytes);
    let payload_size := le_at header_bytes 4 8 in
    let op_count := le_at header_bytes 12 4 in
    let commit_ts := le_at header_bytes 16 8 in
    match (if has_extension_header then extension_fields header_bytes else Some (0, 0, 0)) with
    | None => URet None
    | Some (extension_size, extension_record_count, frame_flags) =>
        URet (Some (MkFrameHeader payload_size op_count commit_ts extension_size extension_record_count frame_flags
          (crc32c_append running_crc header_bytes)))
    end.
End units.

(** * The reader *)

(** What a call gives back: its result, or that it waits for a read ([IOResult]). *)
Inductive io (A : Type) : Type := Done (a : A) | IO.
Arguments Done {A} a.
Arguments IO {A}.

(** [InFlightRead]: [arrived] tells whether the read has completed; a chunk then is in the
    buffer, an exact read in [out]. *)
Inductive InFlightRead : Type :=
| Chunk (to_read pre_size : Z) (arrived : bool)
| Exact (pos expected_len : Z) (out : option (list Z)).

Inductive FramePhase : Type := Header | ExtensionBlock | Payload | Trailer.
Record FrameInProgress : Type := MkFip {
  frame_start : Z; phase : FramePhase; fip_header : FrameHeader; fip_crc : Z;
  parsed_ops : list ParsedOp; portable_changes : list Z; payload_bytes_read : Z; op_index : Z
}.
Definition FrameInProgress_new (start : Z) : FrameInProgress :=
  MkFip start Header (MkFrameHeader 0 0 0 0 0 0 0) 0 [] [] 0 0.

(** [rd_env] is what the I/O layer does at each point where a read may complete: nothing
    yet, or that many bytes are read.  When it is used up reads complete in full. *)
Record Reader : Type := MkReader {
  rd_file : list Z; rd_offset : Z; rd_header : option LogHeader; rd_buffer : list Z; rd_buffer_offset : Z;
  rd_frame_anchor : Z; rd_file_size : Z; rd_last_valid_offset : Z; rd_running_crc : Z;
  rd_in_flight : option InFlightRead; rd_frame : option FrameInProgress; rd_env : list (option Z)
}.
Definition Reader_new (file : list Z) (env : list (option Z)) : Reader :=
  MkReader file 0 None [] 0 0 (len file) 0 0 None None env.

Notation RD A := (ST Reader (io A)).
(** [return_if_io!]. *)
Definition if_done {A B} (m : RD A) (k : A -> RD B) : RD B :=
  x ← m; match x with Done a => k a | IO => mret IO end.
Declare Scope reader_scope.
Delimit Scope reader_scope with reader.
Notation "'let?' x := m 'in' k" := (if_done m (fun x => k)) (at level 200, x pattern, m at level 200, k at level 200) : reader_scope.
Open Scope reader_scope.
Definition done_ {A} (a : A) : RD A := mret (Done a).

Definition set_cursor (buffer : list Z) (buffer_offset frame_anchor : Z) (r : Reader) : Reader :=
  MkReader (rd_file r) (rd_offset r) (rd_header r) buffer buffer_offset frame_anchor (rd_file_size r)
    (rd_last_valid_offset r) (rd_running_crc r) (rd_in_flight r) (rd_frame r) (rd_env r).
Definition set_buffer_offset (n : Z) (r : Reader) : Reader := set_cursor (rd_buffer r) n (rd_frame_anchor r) r.
Definition set_offset (n : Z) (r : Reader) : Reader :=
  MkReader (rd_file r) n (rd_header r) (rd_buffer r) (rd_buffer_offset r) (rd_frame_anchor r) (rd_file_size r)
    (rd_last_valid_offset r) (rd_running_crc r) (rd_in_flight r) (rd_frame r) (rd_env r).
Definition set_in_flight (f : option InFlightRead) (r : Reader) : Reader :=
  MkReader (rd_file r) (rd_offset r) (rd_header r) (rd_buffer r) (rd_buffer_offset r) (rd_frame_anchor r) (rd_file_size r)
    (rd_last_valid_offset r) (rd_running_crc r) f (rd_frame r) (rd_env r).
Definition set_frame (f : option FrameInProgress) (r : Reader) : Reader :=
  MkReader (rd_file r) (rd_offset r) (rd_header r) (rd_buffer r) (rd_buffer_offset r) (rd_frame_anchor r) (rd_file_size r)
    (rd_last_valid_offset r) (rd_running_crc r) (rd_in_flight r) f (rd_env r).
Definition set_env (env : list (option Z)) (r : Reader) : Reader :=
  MkReader (rd_file r) (rd_offset r) (rd_header r) (rd_buffer r) (rd_buffer_offset r) (rd_frame_anchor r) (rd_file_size r)
    (rd_last_valid_offset r) (rd_running_crc r) (rd_in_flight r) (rd_frame r) env.
Definition set_chain (last_valid_offset running_crc : Z) (r : Reader) : Reader :=
  MkReader (rd_file r) (rd_offset r) (rd_header r) (rd_buffer r) (rd_buffer_offset r) (rd_frame_anchor r) (rd_file_size r)
    last_valid_offset running_crc (rd_in_flight r) (rd_frame r) (rd_env r).

(** The callbacks of the reads: [n] bytes have been read, at most as many as were asked for. *)
Definition read_at (file : list Z) (pos n : Z) : list Z := take (Z.to_nat n) (drop (Z.to_nat pos) file).
Definition arrive (n : option Z) (r : Reader) : Reader :=
  match rd_in_flight r with
  | Some (Chunk to_read pre_size false) =>
      let n := match n with Some n => Z.min n to_read | None => to_read end in
      set_in_flight (Some (Chunk to_read pre_size true))
        (set_cursor (rd_buffer r ++ read_at (rd_file r) (rd_offset r) n) (rd_buffer_offset r) (rd_frame_anchor r) r)
  | Some (Exact pos expected_len None) =>
      let n := match n with Some n => Z.min n expected_len | None => expected_len end in
      set_in_flight (Some (Exact pos expected_len (Some (read_at (rd_file r) pos n)))) r
  | _ => r
  end.
Definition env_turn (r : Reader) : Reader :=
  match rd_env r with
  | [] => arrive None r
  | None :: env => set_env env r
  | Some n :: env => arrive (Some n) (set_env env r)
  end.
(** [File::pread]: the read may have completed when it returns. *)
Definition pread (f : InFlightRead) : ST Reader unit := smodify (fun r => env_turn (set_in_flight (Some f) r)).

Definition bytes_can_read (r : Reader) : Z := Z.max 0 (len (rd_buffer r) - rd_buffer_offset r).
Definition remaining_bytes (r : Reader) : Z := bytes_can_read r + Z.max 0 (rd_file_size r - rd_offset r).

(** The read that has completed moves the offset. *)
Definition observe_chunk : ST Reader unit :=
  r ← sget;
  match rd_in_flight r with
  | Some (Chunk _ pre_size _) =>
      bytes_read ← slift (usub (len (rd_buffer r)) pre_size);
      _ ← smodify (set_in_flight None);
      if bytes_read =? 0 then slift (Err Corrupt) else smodify (set_offset (rd_offset r + bytes_read))
  | _ => mret tt
  end.
(** The bytes before the last checkpoint are dropped. *)
Definition compact : ST Reader unit :=
  r ← sget;
  let drain_to := Z.min (rd_frame_anchor r) (len (rd_buffer r)) in
  if 0 <? drain_to then
    buffer_offset ← slift (usub (rd_buffer_offset r) drain_to);
    frame_anchor ← slift (usub (rd_frame_anchor r) drain_to);
    smodify (set_cursor (drop (Z.to_nat drain_to) (rd_buffer r)) buffer_offset frame_anchor)
  else mret tt.
Definition pending_chunk (r : Reader) : bool := match rd_in_flight r with Some (Chunk _ _ false) => true | _ => false end.
(** Every turn of the loop but the first and the last reads a byte at least. *)
Fixpoint read_more_loop (fuel : nat) (need : Z) : RD unit :=
  match fuel with
  | O => slift Panic
  | S fuel =>
      r ← sget;
      if pending_chunk r then mret IO
      else
        _ ← observe_chunk;
        r ← sget;
        _ ← sassert (rd_buffer_offset r <=? len (rd_buffer r));
        let still_need := Z.max 0 (need - (len (rd_buffer r) - rd_buffer_offset r)) in
        if still_need =? 0 then done_ tt
        else
          _ ← compact;
          r ← sget;
          _ ← sassert (rd_offset r <=? rd_file_size r);
          let to_read := Z.min (Z.max 4096 still_need) (rd_file_size r - rd_offset r) in
          if to_read =? 0 then slift (Err Corrupt)
          else
            _ ← pread (Chunk to_read (len (rd_buffer r)) false);
            read_more_loop fuel need
  end.
Definition read_more_data (need : Z) : RD unit := r ← sget; read_more_loop (S (S (length (rd_file r)))) need.

(** [try_consume_fixed] and [try_consume_u8] are this one at a constant amount. *)
Definition try_consume_bytes (amount : Z) : RD (option (list Z)) :=
  r ← sget;
  if remaining_bytes r <? amount then done_ None
  else
    let? _ := read_more_data amount in
    r ← sget;
    bytes ← slift (slice (rd_buffer r) (rd_buffer_offset r) (rd_buffer_offset r + amount));
    _ ← smodify (set_buffer_offset (rd_buffer_offset r + amount));
    done_ (Some bytes).
Fixpoint run_unit {A} (m : unit_prog A) : RD (option A) :=
  match m with
  | URet a => done_ (Some a)
  | UErr e => slift (Err e)
  | UPanic => slift Panic
  | UConsume amount k =>
      let? bytes := try_consume_bytes amount in
      match bytes with Some bytes => run_unit (k bytes) | None => done_ None end
  end.

(** ** Reading the header of the log *)

Inductive HeaderReadResult : Type := Valid (header : LogHeader) | NoLog | InvalidHeader.

Definition read_exact_at (pos n : Z) : RD (list Z) :=
  r ← sget;
  _ ← (match rd_in_flight r with Some (Exact _ _ _) => mret tt | _ => pread (Exact pos n None) end);
  r ← sget;
  match rd_in_flight r with
  | Some (Exact _ expected_len (Some out)) =>
      _ ← smodify (set_in_flight None);
      if len out =? expected_len then done_ out else slift (Err Corrupt)
  | _ => mret IO
  end.
Definition reset_reader (header : option LogHeader) (r : Reader) : Reader :=
  MkReader (rd_file r) LOG_HDR_SIZE header [] 0 0 (rd_file_size r) LOG_HDR_SIZE (rd_running_crc r)
    (rd_in_flight r) None (rd_env r).
Definition set_invalid_header_state : Reader -> Reader := reset_reader None.

Section reader.
Context `{Crc32c}.

Definition set_file_size (r : Reader) : Reader :=
  MkReader (rd_file r) (rd_offset r) (rd_header r) (rd_buffer r) (rd_buffer_offset r) (rd_frame_anchor r) (len (rd_file r))
    (rd_last_valid_offset r) (rd_running_crc r) (rd_in_flight r) (rd_frame r) (rd_env r).
Definition try_read_header_nonblock : RD HeaderReadResult :=
  _ ← smodify set_file_size;
  r ← sget;
  if rd_file_size r <? LOG_HDR_SIZE then done_ NoLog
  else
    let? header_bytes := read_exact_at 0 LOG_HDR_SIZE in
    if forallb (Z.eqb 0) header_bytes then done_ NoLog
    else if negb (le_at header_bytes 6 2 =? LOG_HDR_SIZE) then
      _ ← smodify set_invalid_header_state;
      done_ InvalidHeader
    else
      match decode_header header_bytes with
      | Ok header =>
          _ ← smodify (fun r => set_chain LOG_HDR_SIZE (derive_initial_crc (lh_salt header)) (reset_reader (Some header) r));
          done_ (Valid header)
      | Err Corrupt =>
          _ ← smodify set_invalid_header_state;
          done_ InvalidHeader
      | Err e => slift (Err e)
      | Panic => slift Panic
      end.

(** ** Frames *)

Inductive PayloadOutcome : Type := PayloadOk | PayloadEof.
Record ParsedFrame : Type := MkFrame {
  pf_ops : list ParsedOp; pf_portable_changes : list Z; pf_extension_record_count : Z; pf_frame_flags : Z;
  pf_commit_ts : Z; pf_end_offset : Z
}.
Inductive ParseResult : Type := Frame (frame : ParsedFrame) | Eof | InvalidFrame.

Definition get_frame : ST Reader FrameInProgress :=
  r ← sget; match rd_frame r with Some fip => mret fip | None => slift Panic end.
Definition update_frame (f : FrameInProgress -> FrameInProgress) : ST Reader unit :=
  fip ← get_frame; smodify (set_frame (Some (f fip))).
Definition advance_checkpoint : ST Reader unit := smodify (fun r => set_cursor (rd_buffer r) (rd_buffer_offset r) (rd_buffer_offset r) r).
Definition set_phase (p : FramePhase) (f : FrameInProgress) : FrameInProgress :=
  MkFip (frame_start f) p (fip_header f) (fip_crc f) (parsed_ops f) (portable_changes f) (payload_bytes_read f) (op_index f).
(** The header fields and the next phase. *)
Definition with_header (h : FrameHeader) (f : FrameInProgress) : FrameInProgress :=
  MkFip (frame_start f) (if 0 <? fh_extension_size h then ExtensionBlock else Payload) h (fh_running_crc h)
    (parsed_ops f) (portable_changes f) (payload_bytes_read f) (op_index f).
Definition with_extension (changes : list Z) (crc : Z) (f : FrameInProgress) : FrameInProgress :=
  MkFip (frame_start f) Payload (fip_header f) crc (parsed_ops f) changes (payload_bytes_read f) (op_index f).
Definition with_op (op : ParsedOp) (crc n : Z) (f : FrameInProgress) : FrameInProgress :=
  MkFip (frame_start f) (phase f) (fip_header f) crc (parsed_ops f ++ [op]) (portable_changes f) n (op_index f + 1).

Fixpoint parse_streaming_payload (fuel : nat) : RD PayloadOutcome :=
  match fuel with
  | O => slift Panic
  | S fuel =>
      fip ← get_frame;
      if fh_op_count (fip_header fip) <=? op_index fip then
        if fh_payload_size (fip_header fip) =? payload_bytes_read fip then done_ PayloadOk else slift (Err Corrupt)
      else
        let? o := run_unit (parse_op (fh_commit_ts (fip_header fip)) (fip_crc fip) (payload_bytes_read fip)) in
        match o with
        | None => done_ PayloadEof
        | Some (op, crc, n) =>
            _ ← update_frame (with_op op crc n);
            _ ← advance_checkpoint;
            parse_streaming_payload fuel
        end
  end.

Definition abort_frame_eof : RD ParseResult := _ ← smodify (set_frame None); done_ Eof.
Definition invalidate_frame : RD ParseResult :=
  fip ← get_frame;
  _ ← smodify (fun r => set_frame None (set_chain (frame_start fip) (rd_running_crc r) r));
  done_ InvalidFrame.
Definition commit_frame : RD ParseResult :=
  fip ← get_frame;
  _ ← smodify (fun r => set_frame None (set_chain (Z.max 0 (rd_offset r - bytes_can_read r)) (fip_crc fip) r));
  _ ← advance_checkpoint;
  r ← sget;
  let h := fip_header fip in
  done_ (Frame (MkFrame (parsed_ops fip) (portable_changes fip) (fh_extension_record_count h) (fh_frame_flags h)
    (fh_commit_ts h) (rd_last_valid_offset r))).
(** An error of corruption as [None]; others are passed on. *)
Definition catch_corrupt {A} (m : RD A) : RD (option A) := fun r =>
  match m r with
  | (Ok (Done a), r) => (Ok (Done (Some a)), r)
  | (Ok IO, r) => (Ok IO, r)
  | (Err Corrupt, r) => (Ok (Done None), r)
  | (Err e, r) => (Err e, r)
  | (Panic, r) => (Panic, r)
  end.

Definition is_v2 (r : Reader) : bool :=
  match rd_header r with Some h => lh_version h =? LOG_VERSION_V2 | None => false end.
(** Opening a frame: [false] when there is no room for one. *)
Definition open_frame : ST Reader bool :=
  _ ← smodify (fun r => set_buffer_offset (rd_frame_anchor r) r);
  r ← sget;
  match rd_frame r with
  | Some _ => mret true
  | None =>
      if remaining_bytes r <? TX_MIN_FRAME_SIZE then mret false
      else
        _ ← smodify (set_frame (Some (FrameInProgress_new (Z.max 0 (rd_offset r - bytes_can_read r)))));
        mret true
  end.
(** The units of an extension block and of a trailer; [None] is a corrupt block. *)
Definition parse_extension_block (h : FrameHeader) (running_crc : Z) : unit_prog (option (list Z * Z)) :=
  bytes ← consume (fh_extension_size h);
  match find_extension_payload bytes (fh_extension_record_count h) EXTENSION_TYPE_PORTABLE_CHANGES with
  | Ok changes => URet (Some (changes, crc32c_append running_crc bytes))
  | Err Corrupt => URet None
  | Err e => UErr e
  | Panic => UPanic
  end.
Definition parse_trailer (running_crc : Z) : unit_prog bool :=
  trailer_bytes ← consume TX_TRAILER_SIZE;
  URet ((le_at trailer_bytes 0 4 =? running_crc) && (le_at trailer_bytes 4 4 =? END_MAGIC)).

(** One phase and then [next], the rest of the loop. *)
Definition parse_phase (next : RD ParseResult) : RD ParseResult :=
  fip ← get_frame;
  match phase fip with
  | Header =>
      r ← sget;
      let? o := run_unit (parse_frame_header (is_v2 r) (rd_running_crc r)) in
      match o with
      | None => abort_frame_eof
      | Some None => invalidate_frame
      | Some (Some h) =>
          _ ← update_frame (with_header h);
          _ ← advance_checkpoint;
          next
      end
  | ExtensionBlock =>
      let? o := run_unit (parse_extension_block (fip_header fip) (fip_crc fip)) in
      match o with
      | None => abort_frame_eof
      | Some None => invalidate_frame
      | Some (Some (changes, crc)) =>
          _ ← update_frame (with_extension changes crc);
          _ ← advance_checkpoint;
          next
      end
  | Payload =>
      r ← sget;
      let? o := catch_corrupt (parse_streaming_payload (S (length (rd_file r)))) in
      match o with
      | None => invalidate_frame
      | Some PayloadEof => abort_frame_eof
      | Some PayloadOk =>
          _ ← update_frame (set_phase Trailer);
          _ ← advance_checkpoint;
          next
      end
  | Trailer =>
      let? o := run_unit (parse_trailer (fip_crc fip)) in
      match o with
      | None => abort_frame_eof
      | Some false => invalidate_frame
      | Some true => commit_frame
      end
  end.
(** A frame has four phases at most. *)
Fixpoint parse_next_loop (fuel : nat) : RD ParseResult :=
  match fuel with
  | O => slift Panic
  | S fuel => opened ← open_frame; if opened : bool then parse_phase (parse_next_loop fuel) else done_ Eof
  end.
Definition parse_next_transaction : RD ParseResult := parse_next_loop 4.

(** A frame without operations is skipped; it has 32 bytes at least. *)
Definition no_room : ST Reader bool :=
  r ← sget;
  match rd_frame r with
  | Some _ => mret false
  | None =>
      _ ← smodify (fun r => set_buffer_offset (rd_frame_anchor r) r);
      r ← sget;
      mret (remaining_bytes r <? TX_MIN_FRAME_SIZE)
  end.
Fixpoint next_frame_loop (fuel : nat) : RD (option (list ParsedOp)) :=
  match fuel with
  | O => slift Panic
  | S fuel =>
      stop ← no_room;
      if stop : bool then done_ None
      else
        let? x := parse_next_transaction in
        match x with
        | Frame frame => match pf_ops frame with [] => next_frame_loop fuel | ops => done_ (Some ops) end
        | Eof | InvalidFrame => done_ None
        end
  end.
Definition next_frame : RD (option (list ParsedOp)) := r ← sget; next_frame_loop (S (S (length (rd_file r)))).

(** ** Recovery *)

(** [io.block]: a call that waits is made again after the I/O layer had its turn. *)
Fixpoint block_loop {A} (fuel : nat) (m : RD A) : ST Reader A :=
  match fuel with
  | O => slift Panic
  | S fuel =>
      x ← m;
      match x with
      | Done a => mret a
      | IO => _ ← smodify env_turn; block_loop fuel m
      end
  end.
Definition block {A} (m : RD A) : ST Reader A :=
  r ← sget; block_loop (S (S (length (rd_file r) + length (rd_env r)))) m.

(** The frames that recovery replays. *)
Fixpoint replay_loop (fuel : nat) : ST Reader (list (list ParsedOp)) :=
  match fuel with
  | O => slift Panic
  | S fuel =>
      frame ← block next_frame;
      match frame with
      | None => mret []
      | Some ops => rest ← replay_loop fuel; mret (ops :: rest)
      end
  end.
(** What [maybe_recover_logical_log] does with the log: the writer takes the header, and the
    offset and checksum where the valid frames end. *)
Definition recover_logical_log (env : list (option Z)) (s : Storage) : res LimboError (list (list ParsedOp) * Storage) :=
  let file := ll_file (st_log s) in
  match block try_read_header_nonblock (Reader_new file env) with
  | (Ok InvalidHeader, _) => Err Corrupt
  | (Ok NoLog, _) => Ok ([], s)
  | (Ok (Valid header), r) =>
      let s := Storage_set_header header s in
      if len file <=? LOG_HDR_SIZE then Ok ([], s)
      else
        match replay_loop (S (length file)) r with
        | (Ok frames, r) => Ok (frames, restore_logical_log_state_after_recovery (rd_last_valid_offset r) (rd_running_crc r) s)
        | (Err e, _) => Err e
        | (Panic, _) => Panic
        end
  | (Err e, _) => Err e
  | (Panic, _) => Panic
  end.
End reader.
