(* ===== verification/LogParse.v ===== *)
(** What the streaming reader of the logical log computes: the parser of frames as a
    function of the bytes that follow, and the parts of it that cannot panic. *)

From stdpp Require Import base list numbers.
From Stdlib Require Import ZArith Lia.
From S2P Require Import Prelude Varint DbHeader LogicalLog LogReader.

(** * The parser on a list of bytes *)

Inductive outcome (A : Type) : Type :=
| Got (a : A) (rest : list Z)
| Short
| Bad (e : LimboError)
| Broken.
Arguments Got {A} a rest.
Arguments Short {A}.
Arguments Bad {A} e.
Arguments Broken {A}.

Fixpoint eval {A} (m : unit_prog A) (bs : list Z) : outcome A :=
  match m with
  | URet a => Got a bs
  | UErr e => Bad e
  | UPanic => Broken
  | UConsume n k => if len bs <? n then Short else eval (k (take (Z.to_nat n) bs)) (drop (Z.to_nat n) bs)
  end.

Section parse.
Context `{Crc32c}.

(** The operations of a frame, and then [next] with the frame in progress after them. *)
Fixpoint eval_ops (fuel : nat) (fip : FrameInProgress) (bs : list Z) : outcome FrameInProgress :=
  match fuel with
  | O => Broken
  | S fuel =>
      if fh_op_count (fip_header fip) <=? op_index fip then
        if fh_payload_size (fip_header fip) =? payload_bytes_read fip then Got fip bs else Bad Corrupt
      else
        match eval (parse_op (fh_commit_ts (fip_header fip)) (fip_crc fip) (payload_bytes_read fip)) bs with
        | Got (op, crc, n) rest => eval_ops fuel (with_op op crc n fip) rest
        | Short => Short
        | Bad e => Bad e
        | Broken => Broken
        end
  end.

Inductive frame_outcome : Type :=
| FFrame (fip : FrameInProgress) (rest : list Z)
| FEof
| FInvalid
| FBroken.
Definition eval_trailer (fip : FrameInProgress) (bs : list Z) : frame_outcome :=
  match eval (parse_trailer (fip_crc fip)) bs with
  | Got true rest => FFrame fip rest
  | Got false _ => FInvalid
  | Short => FEof
  | _ => FBroken
  end.
Definition eval_payload (fip : FrameInProgress) (bs : list Z) : frame_outcome :=
  match eval_ops (S (length bs)) fip bs with
  | Got fip rest => eval_trailer (set_phase Trailer fip) rest
  | Short => FEof
  | Bad Corrupt => FInvalid
  | _ => FBroken
  end.
Definition eval_extension (fip : FrameInProgress) (bs : list Z) : frame_outcome :=
  match eval (parse_extension_block (fip_header fip) (fip_crc fip)) bs with
  | Got (Some (changes, crc)) rest => eval_payload (with_extension changes crc fip) rest
  | Got None _ => FInvalid
  | Short => FEof
  | _ => FBroken
  end.
Definition eval_header (v2 : bool) (crc : Z) (fip : FrameInProgress) (bs : list Z) : frame_outcome :=
  match eval (parse_frame_header v2 crc) bs with
  | Got (Some h) rest =>
      let fip := with_header h fip in
      match phase fip with ExtensionBlock => eval_extension fip rest | _ => eval_payload fip rest end
  | Got None _ => FInvalid
  | Short => FEof
  | _ => FBroken
  end.
(** A frame in progress, from its phase on. *)
Definition eval_frame (v2 : bool) (crc : Z) (fip : FrameInProgress) (bs : list Z) : frame_outcome :=
  match phase fip with
  | Header => eval_header v2 crc fip bs
  | ExtensionBlock => eval_extension fip bs
  | Payload => eval_payload fip bs
  | Trailer => eval_trailer fip bs
  end.
Definition parse_frame (v2 : bool) (crc : Z) (bs : list Z) : frame_outcome :=
  if len bs <? TX_MIN_FRAME_SIZE then FEof else eval_frame v2 crc (FrameInProgress_new 0) bs.

(** The frames of a log that have operations, the checksum after the last valid frame, and
    the bytes behind it. *)
Fixpoint replay (fuel : nat) (v2 : bool) (crc : Z) (bs : list Z) : list (list ParsedOp) * Z * list Z :=
  match fuel with
  | O => ([], crc, bs)
  | S fuel =>
      match parse_frame v2 crc bs with
      | FFrame fip rest =>
          let '(frames, crc, rest) := replay fuel v2 (fip_crc fip) rest in
          (match parsed_ops fip with [] => frames | ops => ops :: frames end, crc, rest)
      | _ => ([], crc, bs)
      end
  end.
End parse.

(** * Programs that ask for a number of bytes and do not panic *)

(** It asks for no negative amount, fails with corruption only and only if [E], and ends
    with a result in [P]. *)
Fixpoint yields {A} (E : Prop) (P : A -> Prop) (m : unit_prog A) : Prop :=
  match m with
  | URet a => P a
  | UErr e => E /\ e = Corrupt
  | UPanic => False
  | UConsume n k => 0 <= n /\ forall bs, bytes_ok bs -> len bs = n -> yields E P (k bs)
  end.
Lemma yields_bind {A B} E P Q (m : unit_prog A) (f : A -> unit_prog B) :
  yields E P m -> (forall a, P a -> yields E Q (f a)) -> yields E Q (m ≫= f).
Proof.
  intros Hm Hf. unfold mbind, unit_bind. induction m as [a|e| |n k IH]; cbn in *; [by apply Hf|done|done|].
  destruct Hm as [Hn Hk]. split; [done|]. intros bs Hb Hl. by apply IH, Hk.
Qed.
Lemma yields_consume E n : 0 <= n -> yields E (fun bs => bytes_ok bs /\ len bs = n) (consume n).
Proof. intros Hn. cbn. by split. Qed.

(** Fallible code that may only report corruption. *)
Definition sound {A} (P : A -> Prop) (r : res LimboError A) : Prop :=
  match r with Ok a => P a | Err e => e = Corrupt | Panic => False end.
Lemma sound_bind {A B} P Q (m : res LimboError A) (f : A -> res LimboError B) :
  sound P m -> (forall a, P a -> sound Q (f a)) -> sound Q (m ≫= f).
Proof. destruct m; cbn; auto. Qed.
Lemma sound_ensure b : sound (fun _ => b = true) (ensure b Corrupt).
Proof. by destruct b. Qed.
Lemma sound_weaken {A} (P Q : A -> Prop) m : sound P m -> (forall a, P a -> Q a) -> sound Q m.
Proof. destruct m; cbn; auto. Qed.
Lemma yields_lift {A} P (r : res LimboError A) : sound P r -> yields True P (ulift r).
Proof. by destruct r. Qed.

(** ** Protocol-buffer fields *)

Lemma read_proto_varint_sound bytes value shift :
  sound (fun '(_, rest) => (length rest < length bytes)%nat) (read_proto_varint_from value shift bytes).
Proof.
  revert value shift. induction bytes as [|b bytes IH]; intros; [done|]. cbn [read_proto_varint_from].
  case_match; [cbn; lia|]. case_match; [done|]. eapply sound_weaken; [apply IH|]. intros [v rest] ?. cbn. lia.
Qed.
Lemma read_proto_record_sound bytes :
  sound (fun '(_, rest) => (length rest < length bytes)%nat) (read_proto_record bytes).
Proof.
  unfold read_proto_record. eapply sound_bind; [apply read_proto_varint_sound|]. intros [n rest] Hl. case_match; [done|].
  cbn. rewrite length_drop. lia.
Qed.
Lemma skip_proto_field_sound w bytes : sound (fun rest => length rest < length bytes)%nat (skip_proto_field w bytes).
Proof.
  unfold skip_proto_field. repeat case_match; [| |done].
  - eapply sound_bind; [apply read_proto_varint_sound|]. by intros [v rest] ?.
  - eapply sound_bind; [apply read_proto_record_sound|]. by intros [v rest] ?.
Qed.
Lemma decode_delete_loop_sound fuel d bytes :
  (length bytes <= fuel)%nat -> sound (fun _ => True) (decode_delete_loop fuel d bytes).
Proof.
  revert d bytes. induction fuel as [|fuel IH]; intros d bytes Hl; [destruct bytes; cbn in *; [done|lia]|].
  destruct bytes as [|b bytes]; [done|]. cbn [decode_delete_loop]. set (bs := b :: bytes) in *.
  eapply sound_bind; [apply read_proto_varint_sound|]. intros [key rest] Hr.
  repeat case_match; (eapply sound_bind;
    [first [apply read_proto_record_sound | apply read_proto_varint_sound | apply skip_proto_field_sound]|]).
  1-3: intros [x rest'] Hr'; apply IH; cbv beta iota in *; lia.
  intros rest' Hr'. apply IH. cbv beta iota in *. lia.
Qed.
Lemma decode_delete_sound bytes : sound (fun _ => True) (decode_delete_portable_extension bytes).
Proof. by apply decode_delete_loop_sound. Qed.
Lemma find_extension_loop_sound fuel count wanted payload rest :
  (length rest < fuel)%nat -> sound (fun _ => True) (find_extension_loop fuel count wanted payload rest).
Proof.
  revert count payload rest. induction fuel as [|fuel IH]; intros count payload rest Hf; [lia|]. cbn [find_extension_loop].
  case_match; [by case_match|]. case_match; [done|]. case_match; [done|]. case_match; [done|]. apply IH.
  zbool. unfold EXTENSION_RECORD_HEADER_SIZE, len in *. rewrite !length_drop. lia.
Qed.
Lemma find_extension_sound block n w : sound (fun _ => True) (find_extension_payload block n w).
Proof. apply find_extension_loop_sound. lia. Qed.

(** ** Units *)

Lemma le_val_nonneg bs : bytes_ok bs -> 0 <= le_val bs.
Proof. intros Hb. unfold le_val. apply (undigits_bound 256); [lia|]. by apply Forall_reverse. Qed.
Lemma wrap_nonneg w x : 0 <= w -> 0 <= wrap w x.
Proof. intros Hw. by apply wrap_is_u. Qed.
Lemma consume_varint_loop_yields k v bytes : 0 <= v -> yields True (fun '(v, _) => 0 <= v) (consume_varint_loop k v bytes).
Proof.
  revert v bytes. induction k as [|k IH]; intros v bytes Hv; cbn [consume_varint_loop];
    (eapply yields_bind; [by apply yields_consume|]); intros c [Hc _]; cbn beta.
  - case_match; [done|]. cbn. assert (0 <= le_val c) by by apply le_val_nonneg.
    assert (0 <= wrap 64 (Z.shiftl v 8)) by by apply wrap_nonneg. lia.
  - assert (0 <= wrap 64 (Z.shiftl v 7) + Z.land (le_val c) 0x7f).
    { rewrite land_7f. assert (0 <= wrap 64 (Z.shiftl v 7)) by by apply wrap_nonneg.
      assert (0 <= le_val c mod 128) by (apply Z.mod_pos_bound; lia). lia. }
    case_match; [done|]. by apply IH.
Qed.
Lemma consume_varint_yields : yields True (fun '(v, _) => 0 <= v) consume_varint_bytes.
Proof. by apply consume_varint_loop_yields. Qed.

Lemma slice_sound bs i j : 0 <= i <= j -> j <= len bs -> sound (fun _ => True) (slice bs i j).
Proof. intros. by rewrite slice_ok. Qed.
Lemma be_at_sound bs i j : 0 <= i <= j -> j <= len bs -> sound (fun _ => True) (be_at bs i j).
Proof. intros. unfold be_at. by rewrite slice_ok. Qed.
Lemma i32_at_sound bs i j : 0 <= i <= j -> j <= len bs -> sound (fun _ => True) (i32_at bs i j).
Proof. intros. unfold i32_at, be_at. by rewrite slice_ok. Qed.
Lemma DatabaseHeader_from_bytes_sound bs : len bs = 100 -> sound (fun _ => True) (DatabaseHeader_from_bytes bs).
Proof.
  intros Hl. unfold DatabaseHeader_from_bytes.
  repeat (eapply sound_bind; [first [apply slice_sound | apply be_at_sound | apply i32_at_sound]; lia|]; intros ? _). done.
Qed.
Lemma split_rowid_sound payload : bytes_ok payload -> sound (fun _ => True) (split_rowid payload).
Proof.
  intros Hb. unfold split_rowid. apply (sound_bind (fun _ => True)).
  - pose proof (read_varint_inv payload Hb) as Hv. by destruct (read_varint payload) as [[v n]|e|].
  - intros [v n] _. eapply sound_bind; [apply sound_ensure|]. done.
Qed.
Lemma parsed_op_sound tag id payload ext ts res_ :
  bytes_ok payload -> sound (fun _ => True) (parsed_op tag id payload ext ts res_).
Proof.
  intros Hb. unfold parsed_op. repeat case_match; try done.
  - eapply sound_bind; [by apply split_rowid_sound|]. by intros [].
  - eapply sound_bind; [by apply split_rowid_sound|]. intros [rowid record] _.
    apply (sound_bind (fun _ => True)); [|by intros []]. unfold delete_records. case_match; [done|].
    eapply sound_bind; [apply decode_delete_sound|]. done.
  - eapply sound_bind; [apply sound_ensure|]. intros u Hl. cbv beta in Hl. zbool.
    eapply sound_bind; [by apply DatabaseHeader_from_bytes_sound|]. intros h _.
    eapply sound_bind; [apply sound_ensure|]. done.
Qed.
Lemma check_op_header_sound tag flags id : sound (fun _ => True) (check_op_header tag flags id).
Proof. unfold check_op_header. repeat case_match; [..|done]; (eapply sound_weaken; [apply sound_ensure|done]). Qed.

Section units.
Context `{Crc32c}.

Lemma parse_op_yields ts crc n : yields True (fun _ => True) (parse_op ts crc n).
Proof.
  unfold parse_op. eapply yields_bind; [by apply yields_consume|]. intros op [Hop _]. cbn zeta.
  eapply yields_bind; [apply yields_lift, check_op_header_sound|]. intros _ _.
  eapply yields_bind; [apply consume_varint_yields|]. intros [pl plb] Hpl. cbn zeta.
  eapply yields_bind; [by apply yields_consume|]. intros payload [Hp _].
  apply (yields_bind _ (fun _ => True)).
  { case_match; [|done]. eapply yields_bind; [apply consume_varint_yields|]. intros [el elb] Hel. cbn zeta.
    eapply yields_bind; [by apply yields_consume|]. done. }
  intros [[ext tot] crc'] _. eapply yields_bind; [apply yields_lift, sound_ensure|]. intros _ _.
  eapply yields_bind; [by apply yields_lift, parsed_op_sound|]. done.
Qed.
Lemma le_at_nonneg bs i n : bytes_ok bs -> 0 <= le_at bs i n.
Proof. intros Hb. unfold le_at. apply le_val_nonneg. auto with turso. Qed.
(** The sizes in a header are not negative. *)
Lemma parse_frame_header_yields v2 crc :
  yields False (fun o => match o with Some h => 0 <= fh_extension_size h | None => True end) (parse_frame_header v2 crc).
Proof.
  unfold parse_frame_header. eapply yields_bind; [by apply yields_consume|]. intros hb [Hb _]. cbn zeta.
  case_match; [done|]. case_match; [done|]. apply (yields_bind _ bytes_ok).
  { case_match; [|done]. eapply yields_bind; [by apply yields_consume|]. intros eb [He _]. cbn. by apply bytes_ok_app. }
  intros hb' Hb'. cbn zeta. unfold extension_fields. assert (0 <= le_at hb' 24 8) by by apply le_at_nonneg. by repeat case_match; simplify_eq.
Qed.
Lemma parse_extension_block_yields h crc : 0 <= fh_extension_size h -> yields False (fun _ => True) (parse_extension_block h crc).
Proof.
  intros Hh. unfold parse_extension_block. eapply yields_bind; [by apply yields_consume|]. intros bs _.
  pose proof (find_extension_sound bs (fh_extension_record_count h) EXTENSION_TYPE_PORTABLE_CHANGES) as Hf.
  destruct (find_extension_payload _ _ _) as [c|e|]; cbn in Hf; [done|by subst|done].
Qed.
Lemma parse_trailer_yields crc : yields False (fun _ => True) (parse_trailer crc).
Proof. unfold parse_trailer. eapply yields_bind; [by apply yields_consume|]. done. Qed.
End units.
