(* ===== verification/LogStream.v ===== *)
(** The streaming reader of the logical log computes the parser of LogParse: its buffer is
    always a part of the file, a unit that is run again after a read gives what it gives on
    the bytes of the file, and the loops end. *)

From stdpp Require Import base list numbers.
From Stdlib Require Import ZArith Lia.
From S2P Require Import Prelude Varint DbHeader LogicalLog LogReader LogParse.

(** * The invariant of the reader *)

(** The bytes of the buffer that the offset counts, and the place of the buffer in the file. *)
Definition synced (r : Reader) : Z := match rd_in_flight r with Some (Chunk _ pre true) => pre | _ => len (rd_buffer r) end.
Definition base (r : Reader) : Z := rd_offset r - synced r.
Definition buffer_end (r : Reader) : Z := base r + len (rd_buffer r).
Definition anchor_pos (r : Reader) : Z := base r + rd_frame_anchor r.
Definition cursor_pos (r : Reader) : Z := base r + rd_buffer_offset r.
Definition from (file : list Z) (pos : Z) : list Z := drop (Z.to_nat pos) file.
Definition from_anchor (r : Reader) : list Z := from (rd_file r) (anchor_pos r).
Definition from_cursor (r : Reader) : list Z := from (rd_file r) (cursor_pos r).
(** Reads that complete give a byte at least. *)
Definition env_ok (env : list (option Z)) : Prop := Forall (fun x => match x with Some n => 1 <= n | None => True end) env.
Definition flight_ok (r : Reader) : Prop :=
  match rd_in_flight r with
  | None => True
  | Some (Chunk to_read pre false) => pre = len (rd_buffer r) /\ 1 <= to_read <= len (rd_file r) - rd_offset r
  | Some (Chunk to_read pre true) => pre < len (rd_buffer r)
  | Some (Exact _ _ _) => False
  end.
Record rd_ok (r : Reader) : Prop := {
  ok_bytes : bytes_ok (rd_file r);
  ok_size : rd_file_size r = len (rd_file r);
  ok_env : env_ok (rd_env r);
  ok_base : 0 <= base r;
  ok_end : buffer_end r <= len (rd_file r);
  ok_buffer : rd_buffer r = read_at (rd_file r) (base r) (len (rd_buffer r));
  ok_cursor : 0 <= rd_frame_anchor r <= rd_buffer_offset r /\ rd_buffer_offset r <= synced r;
  ok_flight : flight_ok r
}.

(** What the I/O layer has still to do. *)
Definition budget (r : Reader) : Z := len (rd_env r) + (len (rd_file r) - buffer_end r).
(** What reading leaves as it is. *)
Record kept (r r' : Reader) : Prop := {
  kept_file : rd_file r' = rd_file r;
  kept_header : rd_header r' = rd_header r;
  kept_frame : rd_frame r' = rd_frame r;
  kept_last : rd_last_valid_offset r' = rd_last_valid_offset r;
  kept_crc : rd_running_crc r' = rd_running_crc r;
  kept_anchor : anchor_pos r' = anchor_pos r;
  kept_budget : budget r' <= budget r
}.
Lemma kept_refl r : kept r r.
Proof. by split. Qed.
Lemma kept_trans r1 r2 r3 : kept r1 r2 -> kept r2 r3 -> kept r1 r3.
Proof. intros [] []. split; congruence || lia. Qed.
#[export] Hint Resolve kept_refl kept_trans : turso.
Lemma kept_from_anchor r r' : kept r r' -> from_anchor r' = from_anchor r.
Proof. intros [Hf ? ? ? ? Ha ?]. unfold from_anchor. by rewrite Hf, Ha. Qed.

Lemma length_read_at file pos n : 0 <= pos -> 0 <= n -> pos + n <= len file -> len (read_at file pos n) = n.
Proof. unfold len, read_at. intros. rewrite length_take, length_drop. lia. Qed.
Lemma read_at_app file pos n m :
  0 <= pos -> 0 <= n -> 0 <= m -> read_at file pos n ++ read_at file (pos + n) m = read_at file pos (n + m).
Proof.
  intros. unfold read_at. replace (Z.to_nat (pos + n)) with (Z.to_nat pos + Z.to_nat n)%nat by lia.
  rewrite <- drop_drop. replace (Z.to_nat (n + m)) with (Z.to_nat n + Z.to_nat m)%nat by lia.
  by rewrite <- take_take_drop.
Qed.
Lemma drop_read_at file pos n k : 0 <= pos -> 0 <= k -> drop (Z.to_nat k) (read_at file pos n) = read_at file (pos + k) (n - k).
Proof.
  intros. unfold read_at. rewrite skipn_firstn_comm, drop_drop. f_equal; [lia|]. f_equal. lia.
Qed.
Lemma len_from file pos : 0 <= pos <= len file -> len (from file pos) = len file - pos.
Proof. unfold len, from. intros. rewrite length_drop. lia. Qed.

(** ** Completions *)

Lemma arrive_pending r n to_read pre :
  rd_ok r -> rd_in_flight r = Some (Chunk to_read pre false) -> match n with Some n => 1 <= n | None => True end ->
  exists m, 1 <= m <= to_read /\ let r' := arrive n r in
    rd_buffer r' = rd_buffer r ++ read_at (rd_file r) (rd_offset r) m /\ len (rd_buffer r') = len (rd_buffer r) + m /\
    base r' = base r /\ rd_in_flight r' = Some (Chunk to_read pre true) /\ synced r' = synced r.
Proof.
  intros [Hb Hs He Hba Hen Hbu Hc Hf] Hfl Hn. unfold flight_ok in Hf. rewrite Hfl in Hf. destruct Hf as [-> Ht].
  set (m := match n with Some n => Z.min n to_read | None => to_read end).
  assert (Hm : 1 <= m <= to_read) by (subst m; destruct n; lia). exists m. split; [done|]. cbn zeta.
  unfold arrive. rewrite Hfl. fold m. cbn. unfold base, synced in *. rewrite Hfl in *. cbn.
  split_and!; try done. rewrite len_app, length_read_at; lia.
Qed.
Lemma arrive_ok r n :
  rd_ok r -> match n with Some n => 1 <= n | None => True end ->
  rd_ok (arrive n r) /\ kept r (arrive n r) /\ cursor_pos (arrive n r) = cursor_pos r /\
  (pending_chunk r = true -> budget (arrive n r) < budget r).
Proof.
  intros Hr Hn. destruct (rd_in_flight r) as [[to_read pre [] | pos el out]|] eqn:Hfl.
  2:{ assert (Hok := Hr). destruct (arrive_pending r n to_read pre Hr Hfl Hn) as (m & Hm & Hbuf & Hlen & Hbase & Hin & Hsy).
      destruct Hr as [Hb Hs He Hba Hen Hbu Hc Hf]. unfold flight_ok in Hf. rewrite Hfl in Hf. destruct Hf as [-> Ht].
      assert (Hend : buffer_end (arrive n r) = buffer_end r + m) by (unfold buffer_end; rewrite Hbase, Hlen; lia).
      assert (Hoff : rd_offset r = base r + len (rd_buffer r)) by (unfold base, synced; rewrite Hfl; lia).
      assert (Hfile : rd_file (arrive n r) = rd_file r) by (unfold arrive; by rewrite Hfl).
      assert (Henv : rd_env (arrive n r) = rd_env r) by (unfold arrive; by rewrite Hfl).
      assert (Hcu : rd_frame_anchor (arrive n r) = rd_frame_anchor r /\ rd_buffer_offset (arrive n r) = rd_buffer_offset r)
        by (unfold arrive; by rewrite Hfl). destruct Hcu as [Hfa Hbo].
      assert (Hbud : budget (arrive n r) = budget r - m) by (unfold budget; rewrite Hend, Hfile, Henv; lia).
      pose proof (len_nonneg (rd_buffer r)).
      split_and!.
      - split; rewrite ?Hfile, ?Henv, ?Hfa, ?Hbo, ?Hsy, ?Hbase; try done.
        + unfold arrive. by rewrite Hfl.
        + rewrite Hend. unfold buffer_end. lia.
        + rewrite Hlen, Hbuf, Hbu at 1. rewrite Hoff. by rewrite read_at_app by lia.
        + unfold flight_ok. rewrite Hin, Hlen. lia.
      - split; rewrite ?Hbud; try lia; try (unfold arrive; by rewrite Hfl). unfold anchor_pos. by rewrite Hbase, Hfa.
      - unfold cursor_pos. by rewrite Hbase, Hbo.
      - rewrite Hbud. lia. }
  all: assert (Ha : arrive n r = r) by (unfold arrive; rewrite Hfl; try done; destruct Hr as [? ? ? ? ? ? ? Hf]; unfold flight_ok in Hf; by rewrite Hfl in Hf).
  all: rewrite Ha; split_and!; auto with turso; unfold pending_chunk; by rewrite Hfl.
Qed.
Lemma set_env_ok r env : rd_ok r -> env_ok env -> rd_ok (set_env env r).
Proof. intros [] He. by split. Qed.
Lemma env_turn_ok r :
  rd_ok r -> rd_ok (env_turn r) /\ kept r (env_turn r) /\ cursor_pos (env_turn r) = cursor_pos r /\
  (pending_chunk r = true -> budget (env_turn r) < budget r).
Proof.
  intros Hr. unfold env_turn. destruct (rd_env r) as [|x env] eqn:Henv; [by apply arrive_ok|].
  assert (He : env_ok (x :: env)) by (rewrite <- Henv; apply Hr). inversion He as [|? ? Hx He']; subst.
  assert (Hr' : rd_ok (set_env env r)) by by apply set_env_ok.
  assert (Hb : budget (set_env env r) = budget r - 1).
  { unfold budget, buffer_end, base, synced. cbn. rewrite Henv. unfold len. cbn. lia. }
  assert (Hk : kept r (set_env env r)) by (split; try done; lia).
  destruct x as [n|]; [|split_and!; [done..|lia]].
  destruct (arrive_ok _ (Some n) Hr' Hx) as (H1 & H2 & H3 & H4). split_and!; [done|by eapply kept_trans|done|].
  intros Hp. specialize (H4 Hp). lia.
Qed.
Lemma env_turn_progress r :
  rd_ok r -> pending_chunk r = true -> pending_chunk (env_turn r) = true \/ buffer_end r < buffer_end (env_turn r).
Proof.
  intros Hr Hp. destruct (rd_in_flight r) as [[to_read pre [] | pos el out]|] eqn:Hfl;
    unfold pending_chunk in Hp; rewrite Hfl in Hp; try done. clear Hp.
  assert (Hgo : forall n r, rd_ok r -> rd_in_flight r = Some (Chunk to_read pre false) ->
    match n with Some n => 1 <= n | None => True end -> buffer_end r < buffer_end (arrive n r)).
  { intros n r0 H0 H1 Hn. destruct (arrive_pending r0 n to_read pre H0 H1 Hn) as (m & Hm & _ & Hl & Hb & _).
    unfold buffer_end. rewrite Hl, Hb. lia. }
  unfold env_turn. destruct (rd_env r) as [|x env] eqn:Henv; [right; by apply Hgo|].
  assert (He : env_ok (x :: env)) by (rewrite <- Henv; apply Hr). inversion He as [|? ? Hx He']; subst.
  destruct x as [n|]; [right|left; unfold pending_chunk; cbn; by rewrite Hfl].
  apply (Hgo (Some n) (set_env env r)); [by apply set_env_ok|done|done].
Qed.

(** ** Filling the buffer *)

(** A step that moves neither the checkpoint nor the place where reading goes on. *)
Definition steady (r r' : Reader) : Prop := rd_ok r' /\ kept r r' /\ cursor_pos r' = cursor_pos r.
Lemma steady_refl r : rd_ok r -> steady r r.
Proof. intros. split_and!; auto with turso. Qed.
Lemma steady_trans r1 r2 r3 : steady r1 r2 -> steady r2 r3 -> steady r1 r3.
Proof. intros (_ & K1 & C1) (O & K2 & C2). split_and!; [done|by eapply kept_trans|congruence]. Qed.
#[export] Hint Resolve steady_refl steady_trans : turso.

Lemma observe_chunk_wp r :
  rd_ok r -> pending_chunk r = false ->
  wp observe_chunk r (fun _ r' => steady r r' /\ rd_in_flight r' = None /\ buffer_end r' = buffer_end r) (fun _ _ => False).
Proof.
  intros Hr Hp. unfold observe_chunk. do 2 wstep. assert (Hok := Hr). destruct Hr as [Hb Hs He Hba Hen Hbu Hc Hf].
  destruct (rd_in_flight r) as [[to_read pre [] | pos el out]|] eqn:Hfl; unfold flight_ok in Hf; rewrite Hfl in Hf; try done.
  - assert (Hsy : synced r = pre) by (unfold synced; by rewrite Hfl). rewrite Hsy in Hc.
    wstep. unfold slift, wp, usub. destruct (Z.leb_spec pre (len (rd_buffer r))); [|lia].
    apply (wp_bind (smodify _)), wp_modify. destruct (Z.eqb_spec (len (rd_buffer r) - pre) 0); [lia|]. apply wp_modify.
    set (r' := set_offset _ _).
    assert (Hbase : base r' = base r) by (unfold base; rewrite Hsy; subst r'; cbn; lia).
    split_and!; [split_and!| |]; try done.
    + split; try done; unfold buffer_end; rewrite ?Hbase; try done. unfold synced. cbn. lia.
    + split; try done; unfold anchor_pos, budget, buffer_end; rewrite ?Hbase; try done.
    + unfold cursor_pos. by rewrite Hbase.
    + unfold buffer_end. by rewrite Hbase.
  - unfold pending_chunk in Hp. by rewrite Hfl in Hp.
Qed.
Lemma compact_wp r :
  rd_ok r -> rd_in_flight r = None ->
  wp compact r (fun _ r' => steady r r' /\ rd_in_flight r' = None /\ buffer_end r' = buffer_end r /\ rd_offset r' = rd_offset r)
    (fun _ _ => False).
Proof.
  intros Hr Hfl. unfold compact. do 2 wstep. assert (Hok := Hr). destruct Hr as [Hb Hs He Hba Hen Hbu Hc Hf].
  assert (Hsy : synced r = len (rd_buffer r)) by (unfold synced; by rewrite Hfl). rewrite Hsy in Hc.
  rewrite Z.min_l by lia. destruct (Z.ltb_spec 0 (rd_frame_anchor r)); [|wstep; auto with turso].
  wstep. unfold slift, wp, usub. destruct (Z.leb_spec (rd_frame_anchor r) (rd_buffer_offset r)); [|lia].
  cbn [mbind res_bind]. unfold mbind, ST_bind. destruct (Z.leb_spec (rd_frame_anchor r) (rd_frame_anchor r)); [|lia].
  unfold smodify. set (r' := set_cursor _ _ _ r).
  assert (Hlen : len (rd_buffer r') = len (rd_buffer r) - rd_frame_anchor r).
  { subst r'. cbn. unfold len. rewrite length_drop. unfold len in *. lia. }
  assert (Hsy' : synced r' = len (rd_buffer r')) by (unfold synced; subst r'; cbn; by rewrite Hfl).
  assert (Hbase : base r' = base r + rd_frame_anchor r) by (unfold base; rewrite Hsy, Hsy', Hlen; subst r'; cbn; lia).
  assert (Hend : buffer_end r' = buffer_end r) by (unfold buffer_end; rewrite Hbase, Hlen; lia).
  split_and!; [split_and!| |done|done]; try done.
  - split; try done; rewrite ?Hbase, ?Hend; try done; try lia.
    + subst r'. cbn. rewrite Hbu at 1. rewrite drop_read_at by lia. f_equal. cbn in Hlen. lia.
    + rewrite Hsy', Hlen. subst r'. cbn. lia.
    + unfold flight_ok. subst r'. cbn. by rewrite Hfl.
  - split; try done; unfold budget, anchor_pos; rewrite ?Hend, ?Hbase; subst r'; cbn; try done; lia.
  - unfold cursor_pos. rewrite Hbase. subst r'. cbn. lia.
Qed.

Lemma pread_wp r to_read :
  rd_ok r -> rd_in_flight r = None -> 1 <= to_read <= len (rd_file r) - rd_offset r ->
  wp (pread (Chunk to_read (len (rd_buffer r)) false)) r
    (fun _ r' => steady r r' /\ (pending_chunk r' = true \/ buffer_end r < buffer_end r')) (fun _ _ => False).
Proof.
  intros Hr Hfl Ht. apply wp_modify. set (r0 := set_in_flight _ r).
  assert (Hbase : base r0 = base r) by (unfold base, synced; subst r0; cbn; by rewrite Hfl).
  assert (Hend : buffer_end r0 = buffer_end r) by (unfold buffer_end; by rewrite Hbase).
  assert (H0 : rd_ok r0).
  { destruct Hr as [Hb Hs He Hba Hen Hbu Hc Hf]. split; rewrite ?Hbase, ?Hend; try done.
    revert Hc. unfold synced. subst r0. cbn. by rewrite Hfl. }
  assert (Hk : steady r r0).
  { split_and!; [done| |unfold cursor_pos; by rewrite Hbase]. split; try done; unfold anchor_pos, budget; by rewrite ?Hbase, ?Hend. }
  destruct (env_turn_ok r0 H0) as (H1 & H2 & H3 & _). split; [eapply steady_trans; [apply Hk|by split_and!]|].
  rewrite <- Hend. by apply env_turn_progress.
Qed.

(** Enough bytes are in the buffer, or a read is awaited. *)
Definition filled (need : Z) (r : Reader) (x : io unit) (r' : Reader) : Prop :=
  steady r r' /\ match x with
                 | Done _ => rd_in_flight r' = None /\ need <= len (rd_buffer r') - rd_buffer_offset r'
                 | IO => pending_chunk r' = true
                 end.
Lemma filled_trans need r1 r2 x r3 : steady r1 r2 -> filled need r2 x r3 -> filled need r1 x r3.
Proof. intros H [H1 H2]. split; eauto with turso. Qed.
Lemma read_more_loop_wp fuel need r :
  rd_ok r -> cursor_pos r + need <= len (rd_file r) ->
  (len (rd_file r) - buffer_end r + 2 <= Z.of_nat fuel \/ pending_chunk r = true /\ (0 < fuel)%nat) ->
  wp (read_more_loop fuel need) r (filled need r) (fun _ _ => False).
Proof.
  revert r. induction fuel as [|fuel IH]; intros r Hr Hneed Hfuel.
  { destruct Hfuel as [|[]]; [|lia]. assert (H1 := ok_end r Hr). lia. }
  cbn [read_more_loop]. do 2 wstep. destruct (pending_chunk r) eqn:Hp; [wstep; by split; [apply steady_refl|]|].
  destruct Hfuel as [Hfuel|[]]; [|done].
  wstep. eapply wp_conseq; [by apply observe_chunk_wp| |done]. intros _ r1 (S1 & Hfl & He1).
  do 2 wstep. assert (Hr1 : rd_ok r1) by apply S1. assert (Hc1 := ok_cursor r1 Hr1).
  assert (Hsy : synced r1 = len (rd_buffer r1)) by (unfold synced; by rewrite Hfl). rewrite Hsy in Hc1.
  do 2 wstep; [apply Z.leb_le; lia|]. assert (Hfile := kept_file _ _ (proj1 (proj2 S1))).
  assert (Hcur : cursor_pos r1 = cursor_pos r) by apply S1.
  destruct (Z.eqb_spec (Z.max 0 (need - (len (rd_buffer r1) - rd_buffer_offset r1))) 0) as [Hn|Hn].
  { apply wp_ret. split; [done|]. split; [done|lia]. }
  wstep. eapply wp_conseq; [by apply compact_wp| |done]. intros _ r2 (S2 & Hfl2 & He2 & Ho2). do 2 wstep.
  assert (Hr2 : rd_ok r2) by apply S2. assert (Hf2 := kept_file _ _ (proj1 (proj2 S2))).
  assert (Hend2 : buffer_end r2 = rd_offset r2).
  { unfold buffer_end, base, synced. rewrite Hfl2. lia. }
  assert (Hc2 := ok_end r2 Hr2). rewrite (ok_size r2 Hr2) in *. do 2 wstep; [apply Z.leb_le; lia|].
  assert (Hlt : rd_offset r2 < len (rd_file r2)).
  { assert (rd_offset r2 = base r1 + len (rd_buffer r1)) by (rewrite <- Hend2, He2; done). rewrite <- Hcur in Hneed. unfold cursor_pos in Hneed. rewrite Hf2, Hfile. lia. }
  set (to_read := Z.min _ _). assert (Ht : 1 <= to_read <= len (rd_file r2) - rd_offset r2) by lia.
  destruct (Z.eqb_spec to_read 0); [lia|]. wstep.
  eapply wp_conseq; [by apply pread_wp| |done]. intros _ r3 (S3 & Hprog).
  assert (S03 : steady r r3) by eauto with turso.
  eapply wp_conseq; [apply IH| |done].
  - apply S3.
  - assert (Hf3 := kept_file _ _ (proj1 (proj2 S03))). assert (cursor_pos r3 = cursor_pos r) by apply S03. by rewrite Hf3, H.
  - destruct Hprog as [Hprog|Hprog]; [right; split; [done|]|left].
    + assert (len (rd_file r) = len (rd_file r2)) by congruence. lia.
    + assert (Hf3 := kept_file _ _ (proj1 (proj2 S03))). rewrite Hf3. lia.
  - intros x r4 H4. by eapply filled_trans.
Qed.
Lemma read_more_data_wp need r :
  rd_ok r -> cursor_pos r + need <= len (rd_file r) -> wp (read_more_data need) r (filled need r) (fun _ _ => False).
Proof.
  intros Hr Hn. unfold read_more_data. do 2 wstep. apply read_more_loop_wp; [done..|left].
  assert (H1 := ok_base r Hr). unfold buffer_end. pose proof (len_nonneg (rd_buffer r)). unfold len in *. lia.
Qed.

(** ** Consuming *)

(** No bytes have arrived that the offset does not count. *)
Definition quiet (r : Reader) : Prop := synced r = len (rd_buffer r).
Lemma quiet_None r : rd_in_flight r = None -> quiet r.
Proof. intros H. unfold quiet, synced. by rewrite H. Qed.
Lemma quiet_pending r : pending_chunk r = true -> quiet r.
Proof. unfold quiet, synced, pending_chunk. by destruct (rd_in_flight r) as [[? ? []|]|]. Qed.
#[export] Hint Resolve quiet_None quiet_pending : turso.

Lemma cursor_in_file r : rd_ok r -> 0 <= cursor_pos r <= len (rd_file r).
Proof.
  intros [Hb Hs He Hba Hen Hbu Hc Hf]. unfold cursor_pos, buffer_end in *.
  assert (synced r <= len (rd_buffer r)); [|lia].
  unfold synced, flight_ok in *. destruct (rd_in_flight r) as [[? ? []|]|]; lia.
Qed.
Lemma len_from_cursor r : rd_ok r -> len (from_cursor r) = len (rd_file r) - cursor_pos r.
Proof. intros Hr. apply len_from. by apply cursor_in_file. Qed.
Lemma remaining_bytes_eq r :
  rd_ok r -> remaining_bytes r = len (from_cursor r) + (len (rd_buffer r) - synced r).
Proof.
  intros Hr. rewrite len_from_cursor by done. assert (Hr' := Hr). destruct Hr' as [Hb Hs He Hba Hen Hbu Hc Hf].
  unfold remaining_bytes, bytes_can_read, cursor_pos, buffer_end, base in *. rewrite Hs.
  assert (synced r <= len (rd_buffer r)); [|lia].
  unfold synced, flight_ok in *. destruct (rd_in_flight r) as [[? ? []|]|]; lia.
Qed.

Lemma buffer_slice r n :
  rd_ok r -> 0 <= n <= len (rd_buffer r) - rd_buffer_offset r ->
  slice (rd_buffer r) (rd_buffer_offset r) (rd_buffer_offset r + n) = Ok (E:=LimboError) (take (Z.to_nat n) (from_cursor r)).
Proof.
  intros [Hb Hs He Hba Hen Hbu Hc Hf] Hn. rewrite slice_ok by lia. f_equal. unfold slice_. rewrite Hbu at 1.
  rewrite drop_read_at by lia. unfold read_at, from_cursor, from, cursor_pos. rewrite take_take. f_equal. lia.
Qed.
Lemma move_cursor_ok r n :
  rd_ok r -> rd_in_flight r = None -> 0 <= n <= len (rd_buffer r) - rd_buffer_offset r ->
  let r' := set_buffer_offset (rd_buffer_offset r + n) r in
  rd_ok r' /\ kept r r' /\ from_cursor r' = drop (Z.to_nat n) (from_cursor r).
Proof.
  intros Hr Hfl Hn. cbn zeta. assert (Hq : quiet r) by auto with turso. assert (Hin := cursor_in_file r Hr).
  destruct Hr as [Hb Hs He Hba Hen Hbu Hc Hf]. split_and!.
  - split; try done. unfold quiet, synced in *. cbn. lia.
  - by split.
  - unfold from_cursor, from. rewrite drop_drop. f_equal. unfold cursor_pos, base, synced in *. cbn. lia.
Qed.

(** [n] bytes are consumed, there are fewer left, or a read is awaited. *)
Definition consumed (n : Z) (r : Reader) (x : io (option (list Z))) (r' : Reader) : Prop :=
  rd_ok r' /\ kept r r' /\ quiet r' /\
  match x with
  | Done None => len (from_cursor r) < n
  | Done (Some bs) => n <= len (from_cursor r) /\ bs = take (Z.to_nat n) (from_cursor r) /\ from_cursor r' = drop (Z.to_nat n) (from_cursor r)
  | IO => n <= len (from_cursor r) /\ pending_chunk r' = true
  end.
Lemma try_consume_bytes_wp n r :
  rd_ok r -> 0 <= n -> quiet r \/ n <= len (from_cursor r) ->
  wp (try_consume_bytes n) r (consumed n r) (fun _ _ => False).
Proof.
  intros Hr Hn Hq. unfold try_consume_bytes. do 2 wstep. rewrite remaining_bytes_eq by done.
  destruct (Z.ltb_spec (len (from_cursor r) + (len (rd_buffer r) - synced r)) n) as [Hlt|Hge].
  { destruct Hq as [Hq|Hq]; [|exfalso; assert (H1 := ok_cursor r Hr); assert (H2 := ok_flight r Hr);
      unfold synced, flight_ok in *; destruct (rd_in_flight r) as [[? ? []|]|]; lia].
    apply wp_ret. split_and!; [done|apply kept_refl|done|]. unfold quiet in Hq. lia. }
  assert (Hle : n <= len (from_cursor r)) by (destruct Hq as [Hq|]; [unfold quiet in Hq; lia|done]).
  unfold if_done. wstep. eapply wp_conseq; [apply read_more_data_wp; [done|]| |done].
  { rewrite len_from_cursor in Hle by done. lia. }
  intros [[]|] r1 (S1 & Hx); [|wstep; split_and!; [apply S1|apply S1|by apply quiet_pending|done|done]].
  destruct Hx as [Hfl Hroom]. destruct S1 as (Hr1 & K1 & Hc1). do 2 wstep. wstep.
  assert (Hfc : from_cursor r1 = from_cursor r) by (unfold from_cursor; by rewrite (kept_file _ _ K1), Hc1).
  unfold slift, wp. rewrite buffer_slice by (done || lia). rewrite Hfc.
  destruct (move_cursor_ok r1 n Hr1 Hfl ltac:(lia)) as (Hr2 & K2 & Hf2). cbn.
  split_and!; [done|by eapply kept_trans|by apply quiet_None|done|done|by rewrite Hf2, Hfc].
Qed.

(** ** Units *)

Definition first_need {A} (m : unit_prog A) : Z := match m with UConsume n _ => n | _ => 0 end.
(** A unit gives on the reader what it gives on the bytes. *)
Definition ran {A} (P : A -> Prop) (m : unit_prog A) (r : Reader) (x : io (option A)) (r' : Reader) : Prop :=
  rd_ok r' /\ kept r r' /\
  match x with
  | Done (Some a) => P a /\ eval m (from_cursor r) = Got a (from_cursor r') /\ (quiet r \/ first_need m <> 0 -> quiet r')
  | Done None => eval m (from_cursor r) = Short /\ quiet r'
  | IO => first_need m <= len (from_cursor r) /\ pending_chunk r' = true
  end.
Definition ran_bad {A} (E : Prop) (m : unit_prog A) (r : Reader) (e : LimboError) (r' : Reader) : Prop :=
  rd_ok r' /\ kept r r' /\ E /\ e = Corrupt /\ eval m (from_cursor r) = Bad Corrupt.
Lemma run_unit_wp {A} E P (m : unit_prog A) r :
  yields E P m -> rd_ok r -> quiet r \/ first_need m <= len (from_cursor r) ->
  wp (run_unit m) r (ran P m r) (ran_bad E m r).
Proof.
  revert r. induction m as [a|e| |n k IH]; intros r Hg Hr Hq; cbn [run_unit].
  - apply wp_ret. split_and!; [done|apply kept_refl|done|done|]. cbn. intros [?|?]; [done|lia].
  - destruct Hg as [HE ->]. by split_and!; [..|apply kept_refl| | |].
  - done.
  - destruct Hg as [Hn Hk]. unfold if_done. wstep. eapply wp_conseq; [by apply try_consume_bytes_wp| |done].
    intros [[bs|]|] r1 (Hr1 & K1 & Hq1 & Hx).
    + destruct Hx as (Hle & -> & Hfc). assert (Hl : len (take (Z.to_nat n) (from_cursor r)) = n).
      { unfold len in *. rewrite length_take. lia. }
      assert (He : eval (UConsume n k) (from_cursor r) = eval (k (take (Z.to_nat n) (from_cursor r))) (from_cursor r1)).
      { cbn. destruct (Z.ltb_spec (len (from_cursor r)) n); [lia|]. by rewrite Hfc. }
      eapply wp_conseq; [apply IH; [apply Hk|done|by left]| |].
      * apply bytes_ok_take. unfold from_cursor, from. apply bytes_ok_drop, Hr.
      * done.
      * intros x r2 (Hr2 & K2 & Hx). unfold ran. rewrite He. split_and!; [done|by eapply kept_trans|].
        destruct x as [[a|]|]; [|done|]; [destruct Hx as (? & ? & Hx2); split_and!; [done..|]; intros _; apply Hx2; by left|].
        cbn. destruct Hx. done.
      * intros e r2 (Hr2 & K2 & Hx). unfold ran_bad. rewrite He. split_and!; [done|by eapply kept_trans|apply Hx..].
    + apply wp_ret. split_and!; [done..| |done]. cbn. by destruct (Z.ltb_spec (len (from_cursor r)) n); [|lia].
    + apply wp_ret. split_and!; [done|done|apply Hx|apply Hx].
Qed.

(** * Frames *)

Lemma eval_suffix {A} (m : unit_prog A) bs a rest :
  eval m bs = Got a rest -> exists k, rest = drop k bs /\ (k <= length bs)%nat /\ first_need m <= Z.of_nat k.
Proof.
  revert bs. induction m as [a'|e| |n k IH]; intros bs He; cbn in He; simplify_eq.
  - exists 0%nat. cbn. split_and!; [done|lia|lia].
  - destruct (Z.ltb_spec (len bs) n); [done|]. apply IH in He as (j & -> & Hj & _). exists (Z.to_nat n + j)%nat.
    rewrite length_drop in Hj. rewrite drop_drop. unfold len in *. cbn [first_need]. split_and!; [done|lia|lia].
Qed.

(** The frame in progress without its place. *)
Definition norm (fip : FrameInProgress) : FrameInProgress :=
  MkFip 0 (phase fip) (fip_header fip) (fip_crc fip) (parsed_ops fip) (portable_changes fip) (payload_bytes_read fip) (op_index fip).

Section frames.
Context `{Crc32c}.

Lemma parse_op_consumes ts crc n bs x rest : eval (parse_op ts crc n) bs = Got x rest -> (length rest < length bs)%nat.
Proof.
  intros (k & -> & Hk & Hn)%eval_suffix. cbn in Hn. rewrite length_drop. lia.
Qed.
Lemma eval_ops_fuel fuel1 fuel2 fip bs :
  (length bs < fuel1)%nat -> (length bs < fuel2)%nat -> eval_ops fuel1 fip bs = eval_ops fuel2 fip bs.
Proof.
  revert fuel2 fip bs. induction fuel1 as [|fuel1 IH]; intros [|fuel2] fip bs H1 H2; [lia..|]. cbn [eval_ops].
  case_match; [done|]. destruct (eval _ bs) as [[[op crc] n] rest| | |] eqn:He; try done.
  apply parse_op_consumes in He. apply IH; lia.
Qed.
Definition ops_of (fip : FrameInProgress) (bs : list Z) : outcome FrameInProgress := eval_ops (S (length bs)) (norm fip) bs.
Lemma ops_of_eq fip bs :
  ops_of fip bs =
    if fh_op_count (fip_header fip) <=? op_index fip then
      if fh_payload_size (fip_header fip) =? payload_bytes_read fip then Got (norm fip) bs else Bad Corrupt
    else
      match eval (parse_op (fh_commit_ts (fip_header fip)) (fip_crc fip) (payload_bytes_read fip)) bs with
      | Got (op, crc, n) rest => ops_of (with_op op crc n fip) rest
      | Short => Short
      | Bad e => Bad e
      | Broken => Broken
      end.
Proof.
  unfold ops_of at 1. cbn [eval_ops norm fip_header op_index payload_bytes_read fip_crc]. case_match; [done|].
  destruct (eval _ bs) as [[[op crc] n] rest| | |] eqn:He; try done. apply parse_op_consumes in He. apply eval_ops_fuel; lia.
Qed.

(** What parsing a frame leaves as it is until the frame is done. *)
Record outer (r r' : Reader) : Prop := {
  outer_file : rd_file r' = rd_file r;
  outer_header : rd_header r' = rd_header r;
  outer_last : rd_last_valid_offset r' = rd_last_valid_offset r;
  outer_crc : rd_running_crc r' = rd_running_crc r;
  outer_budget : budget r' <= budget r
}.
Lemma kept_outer r r' : kept r r' -> outer r r'.
Proof. by intros []. Qed.
Lemma outer_refl r : outer r r.
Proof. by split. Qed.
Lemma outer_trans r1 r2 r3 : outer r1 r2 -> outer r2 r3 -> outer r1 r3.
Proof. intros [] []. split; congruence || lia. Qed.

Definition at_anchor (r : Reader) : Prop := rd_buffer_offset r = rd_frame_anchor r.
Lemma at_anchor_eq r : at_anchor r -> from_cursor r = from_anchor r.
Proof. intros Ha. unfold from_cursor, from_anchor, cursor_pos, anchor_pos. by rewrite Ha. Qed.
(** Setting the frame and making the cursor the checkpoint. *)
Lemma reader_checkpoint_ok r f :
  rd_ok r ->
  let r' := set_cursor (rd_buffer r) (rd_buffer_offset r) (rd_buffer_offset r) (set_frame f r) in
  rd_ok r' /\ outer r r' /\ at_anchor r' /\ from_anchor r' = from_cursor r /\ rd_frame r' = f /\ (quiet r -> quiet r').
Proof.
  intros [Hb Hs He Hba Hen Hbu Hc Hf]. cbn zeta. split_and!; [|by split|done|done|done|done].
  split; try done. unfold synced in *. cbn. lia.
Qed.

Lemma get_frame_wp fip r Q E : rd_frame r = Some fip -> Q fip r -> wp get_frame r Q E.
Proof. intros Hf HQ. unfold get_frame. do 2 wstep. by rewrite Hf. Qed.
(** The end of a unit: progress is stored, the cursor becomes the checkpoint, and parsing goes on. *)
Lemma unit_done_wp {A} fip g (next : RD A) r Q E :
  rd_frame r = Some fip ->
  wp next (set_cursor (rd_buffer r) (rd_buffer_offset r) (rd_buffer_offset r) (set_frame (Some (g fip)) r)) Q E ->
  wp (_ ← update_frame g; _ ← advance_checkpoint; next) r Q E.
Proof.
  intros Hf Hn. unfold update_frame. do 2 wstep. eapply get_frame_wp; [done|]. wstep. unfold advance_checkpoint. by do 2 wstep.
Qed.

Definition ext_ok (fip : FrameInProgress) : Prop :=
  0 <= fh_extension_size (fip_header fip) /\ (phase fip = ExtensionBlock -> 0 < fh_extension_size (fip_header fip)).
(** [r] has [fip] in progress and is about to parse its next unit. *)
Definition in_frame (fip : FrameInProgress) (r : Reader) : Prop :=
  rd_ok r /\ rd_frame r = Some fip /\ at_anchor r /\ ext_ok fip.
(** The next unit has waited for a read, so its first bytes are there. *)
Definition waits (fip : FrameInProgress) (bs : list Z) : Prop :=
  match phase fip with
  | Header => TX_HEADER_SIZE <= len bs
  | ExtensionBlock => fh_extension_size (fip_header fip) <= len bs
  | Payload => op_index fip < fh_op_count (fip_header fip) /\ 6 <= len bs
  | Trailer => TX_TRAILER_SIZE <= len bs
  end.
Definition same_frame (fip fip' : FrameInProgress) : Prop := frame_start fip' = frame_start fip /\ fip_header fip' = fip_header fip.

Definition payload_post (fip : FrameInProgress) (bs : list Z) (r : Reader) (x : io PayloadOutcome) (r' : Reader) : Prop :=
  rd_ok r' /\ outer r r' /\
  exists fip', rd_frame r' = Some fip' /\ same_frame fip fip' /\ phase fip' = Payload /\
  match x with
  | Done PayloadOk => ops_of fip bs = Got (norm fip') (from_anchor r') /\ at_anchor r' /\ quiet r'
  | Done PayloadEof => ops_of fip bs = Short
  | IO => ops_of fip' (from_anchor r') = ops_of fip bs /\ waits fip' (from_anchor r') /\ pending_chunk r' = true
  end.
Definition payload_err (fip : FrameInProgress) (bs : list Z) (r : Reader) (e : LimboError) (r' : Reader) : Prop :=
  rd_ok r' /\ outer r r' /\ e = Corrupt /\ ops_of fip bs = Bad Corrupt /\
  exists fip', rd_frame r' = Some fip' /\ frame_start fip' = frame_start fip.

Lemma parse_streaming_payload_wp fuel fip r :
  in_frame fip r -> phase fip = Payload -> quiet r \/ waits fip (from_anchor r) ->
  (length (from_anchor r) < fuel)%nat ->
  wp (parse_streaming_payload fuel) r (payload_post fip (from_anchor r) r) (payload_err fip (from_anchor r) r).
Proof.
  revert fip r. induction fuel as [|fuel IH]; intros fip r (Hr & Hfr & Ha & Hx) Hph Hq Hfuel; [lia|].
  cbn [parse_streaming_payload]. wstep. eapply get_frame_wp; [done|].
  assert (Heq := ops_of_eq fip (from_anchor r)).
  destruct (Z.leb_spec (fh_op_count (fip_header fip)) (op_index fip)) as [Hdone|Hmore].
  - assert (Hquiet : quiet r) by (destruct Hq as [|Hw]; [done|]; unfold waits in Hw; rewrite Hph in Hw; lia).
    destruct (Z.eqb_spec (fh_payload_size (fip_header fip)) (payload_bytes_read fip)).
    + apply wp_ret. split_and!; [done|apply outer_refl|]. exists fip. by split_and!.
    + cbn. split_and!; [done|apply outer_refl|done|done|by exists fip].
  - unfold if_done. wstep.
    assert (Hq' : quiet r \/ first_need (parse_op (fh_commit_ts (fip_header fip)) (fip_crc fip) (payload_bytes_read fip)) <= len (from_cursor r)).
    { destruct Hq as [|Hw]; [by left|right]. unfold waits in Hw. rewrite Hph in Hw. rewrite at_anchor_eq by done. apply Hw. }
    eapply wp_conseq; [eapply run_unit_wp; [apply parse_op_yields|done|done]| |].
    2:{ intros e r1 (Hr1 & K1 & _ & -> & Hev). rewrite at_anchor_eq, Hev in * by done.
        split_and!; [done|by apply kept_outer|done|done|]. exists fip. by rewrite (kept_frame _ _ K1). }
    intros [[[[op crc] n]|]|] r1 (Hr1 & K1 & Hev); rewrite at_anchor_eq in Hev by done.
    + destruct Hev as (_ & Hev & Hq1). rewrite Hev in Heq.
      eapply unit_done_wp; [by rewrite (kept_frame _ _ K1)|].
      destruct (reader_checkpoint_ok r1 (Some (with_op op crc n fip)) Hr1) as (Hr2 & O2 & Ha2 & Hfa & Hf2 & Hq2).
      set (r2 := set_cursor _ _ _ _) in *. assert (Hl := parse_op_consumes _ _ _ _ _ _ Hev).
      assert (O12 : outer r r2) by (eapply outer_trans; [by apply kept_outer|done]).
      assert (Hquiet2 : quiet r2) by (apply Hq2, Hq1; right; done).
      eapply wp_conseq; [apply (IH (with_op op crc n fip)); [by split_and!|done|by left|by rewrite Hfa; lia]| |]; rewrite Hfa.
      * intros x r3 (Hr3 & O3 & fip3 & Hp3). split_and!; [done|by eapply outer_trans|]. exists fip3. by rewrite Heq.
      * intros e r3 (Hr3 & O3 & Hp3). split; [done|]. split; [by eapply outer_trans|]. by rewrite Heq.
    + destruct Hev as [Hev _]. rewrite Hev in Heq. apply wp_ret. split_and!; [done|by apply kept_outer|]. exists fip.
      by rewrite (kept_frame _ _ K1).
    + apply wp_ret. split_and!; [done|by apply kept_outer|]. exists fip. rewrite (kept_frame _ _ K1), (kept_from_anchor _ _ K1).
      destruct Hev as [Hev1 Hev2]. split_and!; try done. unfold waits. by rewrite Hph.
Qed.

Definition eval_in (r : Reader) (fip : FrameInProgress) (bs : list Z) : frame_outcome :=
  eval_frame (is_v2 r) (rd_running_crc r) (norm fip) bs.
Lemma eval_in_outer r r' fip bs : outer r r' -> eval_in r' fip bs = eval_in r fip bs.
Proof. intros [Hf Hh Hl Hc Hb]. unfold eval_in, is_v2. by rewrite Hh, Hc. Qed.

(** The frame [fip] is still in progress and gives what it gave. *)
Definition waits_in (r : Reader) (fip : FrameInProgress) (bs : list Z) (r' : Reader) : Prop :=
  exists fip', rd_frame r' = Some fip' /\ frame_start fip' = frame_start fip /\ ext_ok fip' /\
    eval_in r fip' (from_anchor r') = eval_in r fip bs /\ waits fip' (from_anchor r') /\ pending_chunk r' = true.
(** A call of [parse_next_transaction] that has [fip] in progress. *)
Definition tx_post (fip : FrameInProgress) (bs : list Z) (r : Reader) (x : io ParseResult) (r' : Reader) : Prop :=
  rd_ok r' /\
  match x with
  | IO =>
      outer r r' /\ waits_in r fip bs r'
  | Done (Frame f) =>
      exists fip', eval_in r fip bs = FFrame fip' (from_anchor r') /\ pf_ops f = parsed_ops fip' /\
        rd_file r' = rd_file r /\ rd_header r' = rd_header r /\ budget r' <= budget r /\
        rd_frame r' = None /\ quiet r' /\ rd_running_crc r' = fip_crc fip' /\ rd_last_valid_offset r' = anchor_pos r'
  | Done Eof => eval_in r fip bs = FEof /\ outer r r' /\ rd_frame r' = None
  | Done InvalidFrame =>
      eval_in r fip bs = FInvalid /\ rd_frame r' = None /\ rd_last_valid_offset r' = frame_start fip /\
      rd_running_crc r' = rd_running_crc r
  end.

Lemma tx_post_trans r r1 fip fip1 bs bs1 x r' :
  outer r r1 -> frame_start fip1 = frame_start fip -> eval_in r fip1 bs1 = eval_in r fip bs ->
  tx_post fip1 bs1 r1 x r' -> tx_post fip bs r x r'.
Proof.
  intros O Hs He [Hr Hx]. split; [done|]. pose proof (fun f b => eval_in_outer r r1 f b O) as Hev. destruct O as [Of Oh Ol Oc Ob].
  destruct x as [[f| |]|].
  - destruct Hx as (fip' & H1 & H2 & H3 & H4 & H5 & H6). exists fip'. rewrite Hev, He in H1. split_and!; try done; try congruence; try lia; apply H6.
  - destruct Hx as (H1 & H2 & H3). rewrite Hev, He in H1. split_and!; [done|by eapply outer_trans|done].
  - destruct Hx as (H1 & H2 & H3 & H4). rewrite Hev, He in H1. split_and!; [done|done|congruence|congruence].
  - destruct Hx as (H1 & fip' & H2 & H3 & H4 & H5 & H6 & H7). split; [by eapply outer_trans|]. exists fip'.
    rewrite !Hev in H5. split_and!; try done; congruence.
Qed.
Lemma abort_wp fip bs r r1 : rd_ok r1 -> outer r r1 -> eval_in r fip bs = FEof -> wp abort_frame_eof r1 (tx_post fip bs r) (fun _ _ => False).
Proof.
  intros [Hb Hs He Hba Hen Hbu Hc Hf] O Hev. unfold abort_frame_eof. do 2 wstep. apply wp_ret. split; [by split|].
  split_and!; [done| |done]. by eapply outer_trans; [done|split].
Qed.
Lemma invalidate_wp fip fip1 bs r r1 :
  rd_ok r1 -> outer r r1 -> rd_frame r1 = Some fip1 -> frame_start fip1 = frame_start fip -> eval_in r fip bs = FInvalid ->
  wp invalidate_frame r1 (tx_post fip bs r) (fun _ _ => False).
Proof.
  intros [Hb Hs He Hba Hen Hbu Hc Hf] O Hfr Hst Hev. unfold invalidate_frame. wstep. eapply get_frame_wp; [done|]. do 2 wstep.
  apply wp_ret. split; [by split|]. split_and!; [done|done|by cbn; rewrite Hst|]. cbn. apply O.
Qed.
Lemma commit_wp fip bs r r1 :
  rd_ok r1 -> kept r r1 -> quiet r1 -> rd_frame r = Some fip -> eval_in r fip bs = FFrame (norm fip) (from_cursor r1) ->
  wp commit_frame r1 (tx_post fip bs r) (fun _ _ => False).
Proof.
  intros Hr K Hq Hfr Hev. unfold commit_frame. wstep. eapply get_frame_wp; [by rewrite (kept_frame _ _ K)|]. do 2 wstep.
  unfold advance_checkpoint. do 4 wstep. apply wp_ret.
  assert (Hcur := cursor_in_file r1 Hr). assert (Hc := ok_cursor r1 Hr). destruct Hr as [Hb Hs He Hba Hen Hbu _ Hf].
  split; [split; try done; unfold synced in *; cbn; lia|]. exists (norm fip).
  assert (Hl : Z.max 0 (rd_offset r1 - bytes_can_read r1) = cursor_pos r1).
  { unfold bytes_can_read, cursor_pos, base, quiet in *. lia. }
  split_and!; try done; cbn; try apply K.
Qed.

Lemma from_anchor_length r : rd_ok r -> (length (from_anchor r) <= length (rd_file r))%nat.
Proof. intros _. unfold from_anchor, from. rewrite length_drop. lia. Qed.
(** The phases that are one unit: [k] goes on with the result of the unit. *)
Lemma unit_phase_wp {A} P (m : unit_prog A) fip r (k : option A -> RD ParseResult) :
  in_frame fip r -> quiet r \/ waits fip (from_anchor r) -> yields False P m ->
  0 < first_need m -> (waits fip (from_anchor r) <-> first_need m <= len (from_anchor r)) ->
  (forall a r1, rd_ok r1 -> kept r r1 -> quiet r1 -> P a -> eval m (from_anchor r) = Got a (from_cursor r1) ->
     wp (k (Some a)) r1 (tx_post fip (from_anchor r) r) (fun _ _ => False)) ->
  (eval m (from_anchor r) = Short -> forall r1, rd_ok r1 -> kept r r1 ->
     wp (k None) r1 (tx_post fip (from_anchor r) r) (fun _ _ => False)) ->
  wp (if_done (run_unit m) k) r (tx_post fip (from_anchor r) r) (fun _ _ => False).
Proof.
  intros (Hr & Hfr & Ha & Hx) Hq Hy Hpos Hw Hgot Hshort. unfold if_done. wstep. assert (Hc := at_anchor_eq r Ha).
  eapply wp_conseq; [eapply run_unit_wp; [done|done|]|rewrite <- Hc in *|by intros e r1 (_ & _ & [] & _)].
  { rewrite Hc. destruct Hq as [|Hq%Hw]; [by left|by right]. }
  intros [[a|]|] r1 (Hr1 & K & He).
  - destruct He as (HP & He & Hq1). apply Hgot; try done. apply Hq1. right. lia.
  - destruct He as [He _]. by apply Hshort.
  - destruct He as [Hn Hp]. apply wp_ret. split; [done|]. split; [by apply kept_outer|]. exists fip.
    rewrite (kept_frame _ _ K), (kept_from_anchor _ _ K), <- Hc. by rewrite <- Hw in Hn.
Qed.
Lemma abort_kept fip bs r r1 : rd_ok r1 -> kept r r1 -> eval_in r fip bs = FEof -> wp abort_frame_eof r1 (tx_post fip bs r) (fun _ _ => False).
Proof. intros. by apply abort_wp; [|apply kept_outer|]. Qed.
Lemma invalidate_kept fip bs r r1 :
  rd_ok r1 -> kept r r1 -> rd_frame r = Some fip -> eval_in r fip bs = FInvalid ->
  wp invalidate_frame r1 (tx_post fip bs r) (fun _ _ => False).
Proof. intros Hr K Hf Hev. eapply invalidate_wp; [done|by apply kept_outer|by rewrite (kept_frame _ _ K)|done|done]. Qed.

Lemma trailer_wp fip r next :
  in_frame fip r -> phase fip = Trailer -> quiet r \/ waits fip (from_anchor r) ->
  wp (parse_phase next) r (tx_post fip (from_anchor r) r) (fun _ _ => False).
Proof.
  intros Hin Hph Hq. assert (Hfr : rd_frame r = Some fip) by apply Hin. unfold parse_phase. wstep. eapply get_frame_wp; [done|].
  rewrite Hph. assert (Hev : eval_in r fip (from_anchor r) = eval_trailer (norm fip) (from_anchor r))
    by (unfold eval_in, eval_frame; cbn; by rewrite Hph).
  unfold eval_trailer in Hev. cbn [norm fip_crc] in Hev. fold (norm fip) in Hev.
  eapply unit_phase_wp; [done|done|apply parse_trailer_yields|done|unfold waits; by rewrite Hph| |].
  - intros [] r1 Hr1 K Hq1 _ He; rewrite He in Hev; [by apply commit_wp|by apply invalidate_kept].
  - intros He r1 Hr1 K. rewrite He in Hev. by apply abort_kept.
Qed.

(** The rest of the loop, from a phase on, with the frame's progress at its checkpoint. *)
Definition next_ok (p : FramePhase) (next : RD ParseResult) : Prop :=
  forall fip r, in_frame fip r -> phase fip = p -> quiet r -> wp next r (tx_post fip (from_anchor r) r) (fun _ _ => False).
(** Going on after a unit. *)
Lemma go_on_wp p fip g bs r r1 next :
  next_ok p next -> rd_ok r1 -> outer r r1 -> rd_frame r1 = Some fip -> quiet r1 ->
  phase (g fip) = p -> frame_start (g fip) = frame_start fip -> ext_ok (g fip) ->
  forall fip0, frame_start fip = frame_start fip0 -> eval_in r (g fip) (from_cursor r1) = eval_in r fip0 bs ->
  wp (_ ← update_frame g; _ ← advance_checkpoint; next) r1 (tx_post fip0 bs r) (fun _ _ => False).
Proof.
  intros Hn Hr1 O Hfr Hq Hp Hst Hx fip0 Hst0 Hev. eapply unit_done_wp; [done|].
  destruct (reader_checkpoint_ok r1 (Some (g fip)) Hr1) as (Hr2 & O2 & Ha2 & Hfa & Hf2 & Hq2).
  set (r2 := set_cursor _ _ _ _) in *.
  eapply wp_conseq; [apply (Hn (g fip)); [by split_and!|done|by apply Hq2]| |done].
  intros x r3 Hx3. eapply tx_post_trans; [by eapply outer_trans|..|done]; [congruence|]. by rewrite Hfa.
Qed.
Lemma eval_payload_ops fip bs :
  eval_payload (norm fip) bs =
    match ops_of fip bs with
    | Got fip' rest => eval_trailer (set_phase Trailer fip') rest
    | Short => FEof
    | Bad Corrupt => FInvalid
    | _ => FBroken
    end.
Proof. done. Qed.

Lemma payload_wp fip r next :
  next_ok Trailer next -> in_frame fip r -> phase fip = Payload -> quiet r \/ waits fip (from_anchor r) ->
  wp (parse_phase next) r (tx_post fip (from_anchor r) r) (fun _ _ => False).
Proof.
  intros Hn Hin Hph Hq. assert (Hin' := Hin). destruct Hin' as (Hr & Hfr & Ha & Hx). unfold parse_phase. wstep. eapply get_frame_wp; [done|].
  rewrite Hph. do 2 wstep. unfold if_done. wstep.
  assert (Hev : eval_in r fip (from_anchor r) = eval_payload (norm fip) (from_anchor r)) by (unfold eval_in, eval_frame; cbn; by rewrite Hph).
  rewrite eval_payload_ops in Hev.
  assert (Hfuel : (length (from_anchor r) < S (length (rd_file r)))%nat) by (pose proof (from_anchor_length r Hr); lia).
  pose proof (parse_streaming_payload_wp _ fip r Hin Hph Hq Hfuel) as Hp.
  unfold catch_corrupt, wp at 1. unfold wp in Hp. destruct (parse_streaming_payload _ r) as [[[[]|]|e|] r1]; [..|done].
  - destruct Hp as (Hr1 & O & fip1 & Hf1 & [Hst Hhd] & Hp1 & Hops & Ha1 & Hq1). rewrite Hops in Hev.
    eapply (go_on_wp Trailer fip1 (set_phase Trailer)); try done; [split; [cbn; rewrite Hhd; apply Hx|done]|].
    rewrite Hev, at_anchor_eq by done. done.
  - destruct Hp as (Hr1 & O & fip1 & Hf1 & [Hst Hhd] & Hp1 & Hops). rewrite Hops in Hev. by apply abort_wp.
  - destruct Hp as (Hr1 & O & fip1 & Hf1 & [Hst Hhd] & Hp1 & Hops & Hw & Hpe). apply wp_ret. split; [done|]. split; [done|].
    exists fip1. split_and!; try done; [split; [rewrite Hhd; apply Hx|by rewrite Hp1]|]. rewrite Hev. unfold eval_in, eval_frame. cbn. rewrite Hp1.
    fold (norm fip1). rewrite eval_payload_ops. by rewrite Hops.
  - destruct Hp as (Hr1 & O & -> & Hops & fip1 & Hf1 & Hst). rewrite Hops in Hev. by eapply invalidate_wp.
Qed.
Lemma extension_wp fip r next :
  next_ok Payload next -> in_frame fip r -> phase fip = ExtensionBlock -> quiet r \/ waits fip (from_anchor r) ->
  wp (parse_phase next) r (tx_post fip (from_anchor r) r) (fun _ _ => False).
Proof.
  intros Hn Hin Hph Hq. assert (Hfr : rd_frame r = Some fip) by apply Hin.
  assert (Hpos : 0 < fh_extension_size (fip_header fip)) by by apply Hin. unfold parse_phase. wstep. eapply get_frame_wp; [done|].
  rewrite Hph. assert (Hev : eval_in r fip (from_anchor r) = eval_extension (norm fip) (from_anchor r))
    by (unfold eval_in, eval_frame; cbn; by rewrite Hph).
  unfold eval_extension in Hev. cbn [norm fip_crc fip_header] in Hev. fold (norm fip) in Hev.
  eapply unit_phase_wp; [done|done|by apply parse_extension_block_yields, Z.lt_le_incl|done|unfold waits; by rewrite Hph| |].
  - intros [[changes crc]|] r1 Hr1 K Hq1 _ He; rewrite He in Hev; [|by apply invalidate_kept].
    eapply (go_on_wp Payload fip (with_extension changes crc)); try done; [by apply kept_outer|by rewrite (kept_frame _ _ K)|split; [cbn; lia|done]].
  - intros He r1 Hr1 K. rewrite He in Hev. by apply abort_kept.
Qed.
Lemma header_wp fip r next :
  (forall p, p = ExtensionBlock \/ p = Payload -> next_ok p next) -> in_frame fip r -> phase fip = Header ->
  quiet r \/ waits fip (from_anchor r) ->
  wp (parse_phase next) r (tx_post fip (from_anchor r) r) (fun _ _ => False).
Proof.
  intros Hn Hin Hph Hq. assert (Hfr : rd_frame r = Some fip) by apply Hin. unfold parse_phase. wstep. eapply get_frame_wp; [done|].
  rewrite Hph. do 2 wstep.
  assert (Hev : eval_in r fip (from_anchor r) = eval_header (is_v2 r) (rd_running_crc r) (norm fip) (from_anchor r))
    by (unfold eval_in, eval_frame; cbn; by rewrite Hph).
  unfold eval_header in Hev.
  eapply unit_phase_wp; [done|done|apply parse_frame_header_yields|done|unfold waits; by rewrite Hph| |].
  - intros [h|] r1 Hr1 K Hq1 Hh He; rewrite He in Hev; [|by apply invalidate_kept].
    eapply (go_on_wp (phase (with_header h fip)) fip (with_header h)); try done; [|by apply kept_outer|by rewrite (kept_frame _ _ K)| |].
    + apply Hn. cbn. destruct (0 <? _); auto.
    + split; [done|]. cbn. destruct (Z.ltb_spec 0 (fh_extension_size h)); done.
    + rewrite Hev. unfold eval_in, eval_frame. cbn. by destruct (0 <? _).
  - intros He r1 Hr1 K. rewrite He in Hev. by apply abort_kept.
Qed.

Definition phases_left (p : FramePhase) : nat :=
  match p with Header => 4 | ExtensionBlock => 3 | Payload => 2 | Trailer => 1 end.
(** Going back to the checkpoint. *)
Lemma rewind_ok r :
  rd_ok r -> let r' := set_buffer_offset (rd_frame_anchor r) r in
  rd_ok r' /\ kept r r' /\ at_anchor r' /\ (quiet r -> quiet r').
Proof.
  intros [Hb Hs He Hba Hen Hbu Hc Hf]. cbn zeta. split_and!; [|by split|done|done]. split; try done. unfold synced in *. cbn. lia.
Qed.
Lemma parse_next_loop_wp fuel fip r :
  rd_ok r -> rd_frame r = Some fip -> ext_ok fip -> quiet r \/ waits fip (from_anchor r) ->
  (phases_left (phase fip) <= fuel)%nat ->
  wp (parse_next_loop fuel) r (tx_post fip (from_anchor r) r) (fun _ _ => False).
Proof.
  revert fip r. induction fuel as [|fuel IH]; intros fip r Hr Hfr Hx Hq Hfuel; [destruct (phase fip); cbn in Hfuel; lia|].
  cbn [parse_next_loop]. wstep. unfold open_frame. do 2 wstep. destruct (rewind_ok r Hr) as (Hr1 & K1 & Ha1 & Hq1).
  set (r1 := set_buffer_offset _ r) in *. do 2 wstep. assert (Hfr1 : rd_frame r1 = Some fip) by by rewrite (kept_frame _ _ K1).
  rewrite Hfr1. wstep. assert (Hin : in_frame fip r1) by by split_and!.
  assert (Hfa := kept_from_anchor _ _ K1). rewrite <- Hfa in *.
  assert (Hq' : quiet r1 \/ waits fip (from_anchor r1)) by (destruct Hq; auto).
  assert (Hn : forall p, (phases_left p <= fuel)%nat -> next_ok p (parse_next_loop fuel)).
  { intros p Hp fip2 r2 (H1 & H2 & _ & H3) Hph Hq2. apply IH; try done; [by left|by rewrite Hph]. }
  eapply wp_conseq with (E := fun _ _ => False); [|intros x r2 H2; by eapply tx_post_trans; [by apply kept_outer|..]|done].
  destruct (phase fip) eqn:Hph; cbn in Hfuel.
  - apply header_wp; try done. intros p [-> | ->]; apply Hn; cbn; lia.
  - apply extension_wp; try done. apply Hn. cbn. lia.
  - apply payload_wp; try done. apply Hn. cbn. lia.
  - by apply trailer_wp.
Qed.

(** ** Sequences of frames *)

Lemma eval_trailer_suffix fip bs fip' rest : eval_trailer fip bs = FFrame fip' rest -> (length rest + 8 <= length bs)%nat.
Proof.
  unfold eval_trailer. destruct (eval _ bs) as [[] rest'| | |] eqn:He; intros ?; simplify_eq.
  apply eval_suffix in He as (k & -> & Hk & Hn). change (8 <= Z.of_nat k) in Hn. rewrite length_drop. lia.
Qed.
Lemma eval_ops_suffix fuel fip bs fip' rest : eval_ops fuel fip bs = Got fip' rest -> (length rest <= length bs)%nat.
Proof.
  revert fip bs. induction fuel as [|fuel IH]; intros fip bs; cbn [eval_ops]; [done|]. case_match.
  { case_match; intros; by simplify_eq. }
  destruct (eval _ bs) as [[[op crc] n] rest'| | |] eqn:He; try done. intros H2. apply IH in H2.
  apply parse_op_consumes in He. lia.
Qed.
Lemma eval_payload_suffix fip bs fip' rest : eval_payload fip bs = FFrame fip' rest -> (length rest + 8 <= length bs)%nat.
Proof.
  unfold eval_payload. destruct (eval_ops _ fip bs) as [f r| |[]|] eqn:He; try done.
  intros H1%eval_trailer_suffix. apply eval_ops_suffix in He. lia.
Qed.
Lemma eval_extension_suffix fip bs fip' rest : eval_extension fip bs = FFrame fip' rest -> (length rest + 8 <= length bs)%nat.
Proof.
  unfold eval_extension. destruct (eval _ bs) as [[[]|] r| | |] eqn:He; try done.
  intros H1%eval_payload_suffix. apply eval_suffix in He as (k & -> & _). rewrite length_drop in H1. lia.
Qed.
(** A frame has 32 bytes at least. *)
Lemma parse_frame_min v2 crc bs fip rest : parse_frame v2 crc bs = FFrame fip rest -> (length rest + 32 <= length bs)%nat.
Proof.
  unfold parse_frame. case_match; [done|]. unfold eval_frame. cbn [phase FrameInProgress_new]. unfold eval_header.
  destruct (eval _ bs) as [[h|] r| | |] eqn:He; try done. apply eval_suffix in He as (k & -> & Hk & Hn). change (24 <= Z.of_nat k) in Hn.
  intros Hf. assert (length rest + 8 <= length (drop k bs))%nat; [|rewrite length_drop in *; lia].
  revert Hf. case_match; first [apply eval_extension_suffix | apply eval_payload_suffix].
Qed.
Lemma parse_frame_suffix v2 crc bs fip rest : parse_frame v2 crc bs = FFrame fip rest -> (length rest < length bs)%nat.
Proof. intros Hf%parse_frame_min. lia. Qed.
Lemma replay_fuel fuel1 fuel2 v2 crc bs :
  (length bs < fuel1)%nat -> (length bs < fuel2)%nat -> replay fuel1 v2 crc bs = replay fuel2 v2 crc bs.
Proof.
  revert fuel2 crc bs. induction fuel1 as [|fuel1 IH]; intros [|fuel2] crc bs H1 H2; [lia..|]. cbn [replay].
  destruct (parse_frame v2 crc bs) as [fip rest| | |] eqn:He; try done. apply parse_frame_suffix in He.
  by rewrite (IH fuel2) by lia.
Qed.
Definition log_of (v2 : bool) (crc : Z) (bs : list Z) : list (list ParsedOp) * Z * list Z := replay (S (length bs)) v2 crc bs.
Definition add_frame (fip : FrameInProgress) (l : list (list ParsedOp) * Z * list Z) : list (list ParsedOp) * Z * list Z :=
  let '(frames, crc, rest) := l in (match parsed_ops fip with [] => frames | ops => ops :: frames end, crc, rest).
Lemma log_of_eq v2 crc bs :
  log_of v2 crc bs =
    match parse_frame v2 crc bs with
    | FFrame fip rest => add_frame fip (log_of v2 (fip_crc fip) rest)
    | _ => ([], crc, bs)
    end.
Proof.
  unfold log_of at 1. cbn [replay]. destruct (parse_frame v2 crc bs) as [fip rest| | |] eqn:He; try done.
  apply parse_frame_suffix in He. unfold add_frame, log_of. by rewrite (replay_fuel _ (S (length rest))) by lia.
Qed.

(** What is still to be read: the frames, and the checksum and the bytes where they end. *)
Definition answer (r : Reader) : list (list ParsedOp) * Z * list Z :=
  match rd_frame r with
  | None => log_of (is_v2 r) (rd_running_crc r) (from_anchor r)
  | Some fip =>
      match eval_in r fip (from_anchor r) with
      | FFrame fip' rest => add_frame fip' (log_of (is_v2 r) (fip_crc fip') rest)
      | _ => ([], rd_running_crc r, from (rd_file r) (frame_start fip))
      end
  end.
(** The reader between two calls. *)
Definition state_ok (r : Reader) : Prop :=
  rd_ok r /\
  match rd_frame r with
  | None => quiet r /\ rd_last_valid_offset r = anchor_pos r
  | Some fip =>
      ext_ok fip /\ (quiet r \/ waits fip (from_anchor r)) /\ rd_last_valid_offset r = frame_start fip /\
      0 <= frame_start fip <= len (rd_file r)
  end.
(** A call that waits leaves a frame in progress whose next unit waits for a read. *)
Definition suspended (r : Reader) : Prop :=
  state_ok r /\ pending_chunk r = true /\ exists fip, rd_frame r = Some fip /\ waits fip (from_anchor r).
Record same_log (r r' : Reader) : Prop := {
  same_file : rd_file r' = rd_file r;
  same_header : rd_header r' = rd_header r;
  same_budget : budget r' <= budget r
}.
Lemma same_log_trans r1 r2 r3 : same_log r1 r2 -> same_log r2 r3 -> same_log r1 r3.
Proof. intros [] []. split; congruence || lia. Qed.
Lemma outer_same r r' : outer r r' -> same_log r r'.
Proof. by intros []. Qed.
(** Nothing more can be read. *)
Definition ended (r r' : Reader) : Prop :=
  answer r = ([], rd_running_crc r', from (rd_file r) (rd_last_valid_offset r')) /\
  0 <= rd_last_valid_offset r' <= len (rd_file r).
Lemma anchor_in_file r : rd_ok r -> 0 <= anchor_pos r <= len (rd_file r).
Proof.
  intros Hr. assert (H1 := cursor_in_file r Hr). assert (H2 := ok_cursor r Hr). assert (H3 := ok_base r Hr).
  unfold cursor_pos, anchor_pos in *. lia.
Qed.
Definition parsed (r : Reader) (x : io ParseResult) (r' : Reader) : Prop :=
  match x with
  | IO => same_log r r' /\ suspended r' /\ answer r' = answer r
  | Done (Frame f) =>
      same_log r r' /\ state_ok r' /\ rd_frame r' = None /\
      (exists fip, pf_ops f = parsed_ops fip /\ answer r = add_frame fip (answer r')) /\
      (length (from_anchor r') <= length (from_anchor r))%nat /\
      (rd_frame r = None -> (length (from_anchor r') < length (from_anchor r))%nat)
  | Done _ => ended r r'
  end.

Lemma eval_frame_suffix v2 crc fip bs fip' rest : eval_frame v2 crc fip bs = FFrame fip' rest -> (length rest <= length bs)%nat.
Proof.
  intros Hf. assert (length rest + 8 <= length bs)%nat; [|lia]. revert Hf.
  unfold eval_frame. destruct (phase fip); [|apply eval_extension_suffix|apply eval_payload_suffix|apply eval_trailer_suffix].
  unfold eval_header. destruct (eval _ bs) as [[h|] r| | |] eqn:He; try done. apply eval_suffix in He as (k & -> & Hk & _).
  intros Hf. assert (length rest + 8 <= length (drop k bs))%nat; [|rewrite length_drop in *; lia].
  revert Hf. case_match; first [apply eval_extension_suffix | apply eval_payload_suffix].
Qed.
Lemma is_v2_same r r' : same_log r r' -> is_v2 r' = is_v2 r.
Proof. intros [Hf Hh Hb]. unfold is_v2. by rewrite Hh. Qed.
(** [tx_post] in terms of what is still to be read. *)
Lemma tx_post_parsed fip r x r' :
  state_ok r -> rd_frame r = Some fip -> tx_post fip (from_anchor r) r x r' ->
  match x with
  | IO => same_log r r' /\ suspended r' /\ answer r' = answer r
  | Done (Frame f) =>
      same_log r r' /\ state_ok r' /\ rd_frame r' = None /\
      (exists fip, pf_ops f = parsed_ops fip /\ answer r = add_frame fip (answer r')) /\
      exists fip', eval_in r fip (from_anchor r) = FFrame fip' (from_anchor r')
  | Done _ => ended r r'
  end.
Proof.
  intros [Hr Hst] Hfr [Hr' Hx]. rewrite Hfr in Hst. destruct Hst as (Hext & Hq & Hl & Hrg). destruct x as [[f| |]|].
  - destruct Hx as (fip' & Hev & Hops & Hf & Hh & Hb & Hnone & Hq' & Hc & Hl'). assert (Hs : same_log r r') by by split.
    split_and!; [done|by split; [|rewrite Hnone]|done| |by exists fip'].
    exists fip'. split; [done|]. unfold answer. rewrite Hfr, Hnone, Hev, Hc. by rewrite (is_v2_same r r' Hs).
  - destruct Hx as (Hev & O & Hnone). unfold ended, answer. rewrite Hfr, Hev. destruct O as [Of Oh Ol Oc Ob]. by rewrite Oc, Ol, Hl.
  - destruct Hx as (Hev & Hnone & Hl' & Hc). unfold ended, answer. by rewrite Hfr, Hev, Hc, Hl'.
  - destruct Hx as (O & fip' & Hfr' & Hs & Hext' & Hev & Hw & Hp). split_and!; [by apply outer_same| |].
    + split; [|by split; [|exists fip']]. split; [done|]. rewrite Hfr'. destruct O as [Of Oh Ol Oc Ob]. rewrite Ol, Of, Hs. split; [done|]. split; [by right|]. done.
    + unfold answer. rewrite Hfr, Hfr'. rewrite (eval_in_outer r r' _ _ O), Hev.
      rewrite (is_v2_same r r' (outer_same _ _ O)). destruct O as [Of Oh Ol Oc Ob]. by rewrite Of, Oc, Hs.
Qed.

Definition opened (r : Reader) : Reader :=
  set_frame (Some (FrameInProgress_new (anchor_pos r))) (set_buffer_offset (rd_frame_anchor r) r).
Lemma parse_next_open fuel r :
  rd_ok r -> quiet r -> rd_frame r = None -> 
  parse_next_loop (S fuel) r =
    if len (from_anchor r) <? TX_MIN_FRAME_SIZE then (Ok (Done Eof), set_buffer_offset (rd_frame_anchor r) r)
    else parse_next_loop (S fuel) (opened r).
Proof.
  intros Hr Hq Hfr. destruct (rewind_ok r Hr) as (Hr1 & K1 & Ha1 & Hq1). specialize (Hq1 Hq). set (r1 := set_buffer_offset _ r) in *.
  assert (Hrem : remaining_bytes r1 = len (from_anchor r)).
  { rewrite remaining_bytes_eq, at_anchor_eq, (kept_from_anchor _ _ K1) by done. unfold quiet in Hq1. lia. }
  assert (Hst : Z.max 0 (rd_offset r1 - bytes_can_read r1) = anchor_pos r).
  { assert (H1 := cursor_in_file r1 Hr1). assert (H2 := ok_cursor r1 Hr1). rewrite <- (kept_anchor _ _ K1).
    unfold bytes_can_read, cursor_pos, anchor_pos, base, quiet, at_anchor in *. lia. }
  cbn [parse_next_loop]. unfold open_frame, mbind, ST_bind, smodify, sget. cbn [fst snd].
  change (rd_frame (set_buffer_offset (rd_frame_anchor r) r)) with (rd_frame r). rewrite Hfr. fold r1. rewrite Hrem.
  destruct (len (from_anchor r) <? TX_MIN_FRAME_SIZE); [done|]. rewrite Hst. done.
Qed.
Lemma opened_ok r :
  state_ok r -> rd_frame r = None -> TX_MIN_FRAME_SIZE <= len (from_anchor r) ->
  state_ok (opened r) /\ same_log r (opened r) /\ from_anchor (opened r) = from_anchor r /\ answer (opened r) = answer r.
Proof.
  intros [Hr Hst] Hfr Hlen. rewrite Hfr in Hst. destruct Hst as [Hq Hl]. destruct (rewind_ok r Hr) as (Hr1 & K1 & Ha1 & Hq1).
  assert (Hok : rd_ok (opened r)) by (destruct Hr1; by split).
  assert (Hf : from_anchor (opened r) = from_anchor r) by apply (kept_from_anchor _ _ K1).
  split_and!; [split; [done|]|destruct K1; by split|done|].
  - cbn. split; [by split|]. split; [left; by apply Hq1|]. split; [done|by apply anchor_in_file].
  - unfold answer. cbn [rd_frame opened set_frame]. rewrite Hfr, Hf. rewrite log_of_eq. unfold eval_in, parse_frame.
    change (is_v2 (opened r)) with (is_v2 r). change (rd_running_crc (opened r)) with (rd_running_crc r).
    destruct (Z.ltb_spec (len (from_anchor r)) TX_MIN_FRAME_SIZE); [lia|]. done.
Qed.
Lemma parse_next_transaction_wp r : state_ok r -> wp parse_next_transaction r (parsed r) (fun _ _ => False).
Proof.
  intros Hst. unfold parse_next_transaction. destruct (rd_frame r) as [fip|] eqn:Hfr.
  - assert (Hst' := Hst). destruct Hst' as [Hr Hs]. rewrite Hfr in Hs. destruct Hs as (Hext & Hq & Hl & _).
    eapply wp_conseq; [apply (parse_next_loop_wp 4 fip); try done; destruct (phase fip); cbn; lia| |done].
    intros x r' Hx%tx_post_parsed; [|done..]. destruct x as [[f| |]|]; try done.
    destruct Hx as (H1 & H2 & H3 & H4 & fip' & H5). apply eval_frame_suffix in H5. split_and!; try done. by rewrite Hfr.
  - assert (Hst' := Hst). destruct Hst' as [Hr Hs]. rewrite Hfr in Hs. destruct Hs as (Hq & Hl).
    unfold wp. rewrite parse_next_open by done. destruct (Z.ltb_spec (len (from_anchor r)) TX_MIN_FRAME_SIZE) as [Hlt|Hge].
    + unfold parsed, ended, answer. rewrite Hfr, log_of_eq. unfold parse_frame.
      destruct (Z.ltb_spec (len (from_anchor r)) TX_MIN_FRAME_SIZE); [|lia]. cbn. rewrite Hl. split; [done|by apply anchor_in_file].
    + destruct (opened_ok r Hst Hfr Hge) as (Ho & Hsame & Hfa & Hans).
      assert (Hw : wp (parse_next_loop 4) (opened r) (parsed r) (fun _ _ => False)); [|exact Hw].
      eapply wp_conseq; [apply (parse_next_loop_wp 4 (FrameInProgress_new (anchor_pos r))); try apply Ho; done| |done].
      intros x r' Hx. pose proof Hx as [_ Htx]. apply tx_post_parsed in Hx; [|done..]. destruct x as [[f| |]|].
      * destruct Hx as (H1 & H2 & H3 & (fip & H4 & H5) & fip' & H6). rewrite Hans in H5.
        assert (Hlt : (length (from_anchor r') < length (from_anchor r))%nat).
        { rewrite Hfa in H6. apply (parse_frame_suffix (is_v2 r) (rd_running_crc r) _ fip'). unfold parse_frame.
          destruct (Z.ltb_spec (len (from_anchor r)) TX_MIN_FRAME_SIZE); [lia|]. exact H6. }
        split_and!; [by eapply same_log_trans|done|done|by exists fip|lia|done].
      * unfold parsed, ended in *. by rewrite <- Hans.
      * unfold parsed, ended in *. by rewrite <- Hans.
      * destruct Hx as (H1 & H2 & H3). split_and!; [by eapply same_log_trans|done|congruence].
Qed.

Definition next_post (r : Reader) (x : io (option (list ParsedOp))) (r' : Reader) : Prop :=
  match x with
  | IO => same_log r r' /\ suspended r' /\ answer r' = answer r
  | Done (Some ops) =>
      same_log r r' /\ state_ok r' /\ exists frames crc rest, answer r' = (frames, crc, rest) /\ answer r = (ops :: frames, crc, rest)
  | Done None => ended r r'
  end.
Lemma next_post_trans r r1 x r' : same_log r r1 -> answer r1 = answer r -> next_post r1 x r' -> next_post r x r'.
Proof.
  intros Hs Ha. destruct x as [[ops|]|]; cbn.
  - intros (H1 & H2 & fs & c & rest & H3 & H4). split_and!; [by eapply same_log_trans|done|]. exists fs, c, rest. split; congruence.
  - unfold ended. by rewrite (same_file _ _ Hs), Ha.
  - intros (H1 & H2 & H3). split_and!; [by eapply same_log_trans|done|congruence].
Qed.
Lemma rewind_state r :
  state_ok r -> rd_frame r = None -> let r1 := set_buffer_offset (rd_frame_anchor r) r in
  state_ok r1 /\ same_log r r1 /\ answer r1 = answer r /\ from_anchor r1 = from_anchor r /\ remaining_bytes r1 = len (from_anchor r).
Proof.
  intros [Hr Hst] Hfr. rewrite Hfr in Hst. destruct Hst as [Hq Hl]. destruct (rewind_ok r Hr) as (Hr1 & K1 & Ha1 & Hq1). cbn zeta.
  specialize (Hq1 Hq). set (r1 := set_buffer_offset _ r) in *. assert (Hfa := kept_from_anchor _ _ K1).
  split_and!; [split; [done|]|destruct K1; by split| |done|].
  - change (rd_frame r1) with (rd_frame r). by rewrite Hfr.
  - unfold answer. change (rd_frame r1) with (rd_frame r). by rewrite Hfr, Hfa.
  - rewrite remaining_bytes_eq, at_anchor_eq, Hfa by done. unfold quiet in Hq1. lia.
Qed.
Definition in_progress (r : Reader) : nat := match rd_frame r with Some _ => 1 | None => 0 end.
Lemma answer_stop r : rd_frame r = None -> len (from_anchor r) < TX_MIN_FRAME_SIZE -> answer r = ([], rd_running_crc r, from_anchor r).
Proof.
  intros Hfr Hl. unfold answer. rewrite Hfr, log_of_eq. unfold parse_frame.
  by destruct (Z.ltb_spec (len (from_anchor r)) TX_MIN_FRAME_SIZE); [|lia].
Qed.
Lemma next_frame_loop_wp fuel r :
  state_ok r -> (length (from_anchor r) + in_progress r < fuel)%nat -> wp (next_frame_loop fuel) r (next_post r) (fun _ _ => False).
Proof.
  revert r. induction fuel as [|fuel IH]; intros r Hst Hfuel; [lia|]. cbn [next_frame_loop]. wstep.
  (* the parser runs from a state that is [r], rewound *)
  assert (Hgo : forall r1, state_ok r1 -> same_log r r1 -> answer r1 = answer r -> from_anchor r1 = from_anchor r ->
    rd_frame r1 = rd_frame r ->
    wp (let? x := parse_next_transaction in
        match x with
        | Frame frame => match pf_ops frame with [] => next_frame_loop fuel | ops => done_ (Some ops) end
        | Eof | InvalidFrame => done_ None
        end) r1 (next_post r) (fun _ _ => False)).
  { intros r1 Hst1 Hs1 Ha1 Hf1 Hfr1. eapply wp_conseq with (Q := next_post r1) (E := fun _ _ => False); [|intros; by eapply next_post_trans|done].
    unfold if_done. wstep. eapply wp_conseq; [by apply parse_next_transaction_wp| |done].
    intros [[f| |]|] r2 H2; [|by apply wp_ret..]. destruct H2 as (Hs2 & Hst2 & Hn2 & (fip & Hops & Hans) & Hle & Hlt).
    rewrite Hops. unfold add_frame in Hans. destruct (answer r2) as [[frames crc] rest] eqn:Ha2.
    destruct (parsed_ops fip) as [|op ops] eqn:Hpo.
    - eapply wp_conseq; [apply IH; [done|]| |done].
      + unfold in_progress in *. rewrite Hn2. rewrite Hf1 in *. rewrite Hfr1 in Hlt. destruct (rd_frame r); [lia|]. specialize (Hlt eq_refl). lia.
      + intros x r3. apply next_post_trans; [done|congruence].
    - apply wp_ret. split_and!; [done|done|]. by exists frames, crc, rest. }
  unfold no_room. do 2 wstep. destruct (rd_frame r) as [fip|] eqn:Hfr.
  - wstep. apply Hgo; try done.
  - do 4 wstep. wstep. destruct (rewind_state r Hst Hfr) as (Hst1 & Hs1 & Ha1 & Hf1 & Hrem). rewrite Hrem.
    destruct (Z.ltb_spec (len (from_anchor r)) TX_MIN_FRAME_SIZE) as [Hlt|Hge]; [|by apply Hgo].
    apply wp_ret. cbn. unfold ended. rewrite answer_stop by done. destruct Hst as [Hr Hst]. rewrite Hfr in Hst. destruct Hst as [_ Hl].
    cbn. rewrite Hl. split; [done|by apply anchor_in_file].
Qed.
Lemma next_frame_wp r : state_ok r -> wp next_frame r (next_post r) (fun _ _ => False).
Proof.
  intros Hst. unfold next_frame. do 2 wstep. apply next_frame_loop_wp; [done|].
  pose proof (from_anchor_length r (proj1 Hst)). unfold in_progress. destruct (rd_frame r); lia.
Qed.

(** ** Waiting *)

Lemma env_turn_state r : suspended r -> state_ok (env_turn r) /\ same_log r (env_turn r) /\ answer (env_turn r) = answer r /\ budget (env_turn r) < budget r.
Proof.
  intros ([Hr Hst] & Hp & fip & Hfr & Hw). destruct (env_turn_ok r Hr) as (Hr1 & K1 & _ & Hb). specialize (Hb Hp).
  rewrite Hfr in Hst. destruct Hst as (Hext & _ & Hl & Hrg). assert (Hf1 := kept_frame _ _ K1). assert (Hfa := kept_from_anchor _ _ K1).
  assert (O := kept_outer _ _ K1). split_and!; [|by apply outer_same| |done].
  - split; [done|]. rewrite Hf1, Hfr, Hfa, (kept_last _ _ K1), (kept_file _ _ K1). split; [done|]. split; [by right|]. done.
  - unfold answer. rewrite Hf1, Hfr, Hfa, (eval_in_outer _ _ _ _ O), (is_v2_same _ _ (outer_same _ _ O)).
    destruct K1 as [Kf _ _ _ Kc _ _]. by rewrite Kf, Kc.
Qed.
Definition waited (r : Reader) (x : option (list ParsedOp)) (r' : Reader) : Prop := next_post r (Done x) r'.
Lemma block_loop_wp fuel r :
  state_ok r -> budget r < Z.of_nat fuel -> wp (block_loop fuel next_frame) r (waited r) (fun _ _ => False).
Proof.
  revert r. induction fuel as [|fuel IH]; intros r Hst Hb.
  { assert (0 <= budget r); [|lia]. unfold budget. pose proof (ok_end r (proj1 Hst)). pose proof (len_nonneg (rd_env r)). lia. }
  cbn [block_loop]. wstep. eapply wp_conseq; [by apply next_frame_wp| |done]. intros [x|] r1 Hx; [by apply wp_ret|].
  destruct Hx as (Hs & Hsu & Ha). do 2 wstep. destruct (env_turn_state r1 Hsu) as (Hst2 & Hs2 & Ha2 & Hb2).
  eapply wp_conseq; [apply IH; [done|]| |done].
  - assert (H1 := same_budget _ _ Hs). lia.
  - intros x r3 H3. eapply next_post_trans; [by eapply same_log_trans| |apply H3]. congruence.
Qed.
Lemma block_next_frame_wp r : state_ok r -> wp (block next_frame) r (waited r) (fun _ _ => False).
Proof.
  intros Hst. unfold block. do 2 wstep. apply block_loop_wp; [done|]. assert (H1 := ok_base r (proj1 Hst)).
  unfold budget, buffer_end. pose proof (len_nonneg (rd_buffer r)). unfold len in *. lia.
Qed.
(** Recovery reads the frames of the answer and ends where they end. *)
Lemma replay_loop_wp fuel r :
  state_ok r -> (length (answer r).1.1 < fuel)%nat ->
  wp (replay_loop fuel) r (fun frames r' => answer r = (frames, rd_running_crc r', from (rd_file r) (rd_last_valid_offset r')) /\
    0 <= rd_last_valid_offset r' <= len (rd_file r)) (fun _ _ => False).
Proof.
  revert r. induction fuel as [|fuel IH]; intros r Hst Hf; [lia|]. cbn [replay_loop]. wstep.
  eapply wp_conseq; [by apply block_next_frame_wp| |done]. intros [ops|] r1 Hx; [|by apply wp_ret].
  destruct Hx as (Hs & Hst1 & frames & crc & rest & Ha1 & Ha). wstep. eapply wp_conseq; [apply IH; [done|]| |done].
  - rewrite Ha1. rewrite Ha in Hf. cbn in *. lia.
  - intros frames' r2 [H2 H3]. apply wp_ret. rewrite (same_file _ _ Hs) in *. rewrite Ha1 in H2. simplify_eq. by rewrite Ha.
Qed.

Lemma log_of_count v2 crc bs : (length (log_of v2 crc bs).1.1 <= length bs)%nat.
Proof.
  revert crc. induction bs as [bs IH] using (induction_ltof1 _ (@length Z)); intros crc. rewrite log_of_eq.
  destruct (parse_frame v2 crc bs) as [fip rest| | |] eqn:He; [|cbn; lia..]. apply parse_frame_suffix in He.
  specialize (IH rest He (fip_crc fip)). unfold add_frame. destruct (log_of _ _ rest) as [[fs c] r]. cbn in IH |- *. destruct (parsed_ops fip); cbn; lia.
Qed.

(** ** The header *)

(** The first read completes in full: [read_exact_at] does not read again after a short read. *)
Fixpoint first_full (env : list (option Z)) : Prop :=
  match env with
  | [] => True
  | None :: env => first_full env
  | Some n :: _ => LOG_HDR_SIZE <= n
  end.
Fixpoint short_header (env : list (option Z)) : bool :=
  match env with
  | [] => false
  | None :: env => short_header env
  | Some n :: _ => n <? LOG_HDR_SIZE
  end.
Lemma short_header_full env : short_header env = false -> first_full env.
Proof. induction env as [|[n|] env IH]; cbn; [done| |done]. intros. by zbool. Qed.
(** What the first bytes of a file tell. *)
Definition header_of (file : list Z) : HeaderReadResult :=
  let header_bytes := take (Z.to_nat LOG_HDR_SIZE) file in
  if len file <? LOG_HDR_SIZE then NoLog
  else if forallb (Z.eqb 0) header_bytes then NoLog
  else match decode_header header_bytes with Ok h => Valid h | _ => InvalidHeader end.

Lemma decode_header_sound bs : sound (fun h => lh_hdr_len h = LOG_HDR_SIZE /\ le_at bs 6 2 = LOG_HDR_SIZE) (decode_header bs).
Proof.
  unfold decode_header. do 8 (eapply sound_bind; [apply sound_ensure|]; intros ? ?). cbn beta in *. zbool. cbn. auto.
Qed.
Definition starting (file : list Z) (env : list (option Z)) (f : option InFlightRead) : Reader :=
  MkReader file 0 None [] 0 0 (len file) 0 0 f None env.
Definition header_read (file : list Z) : InFlightRead := Exact 0 LOG_HDR_SIZE (Some (take (Z.to_nat LOG_HDR_SIZE) file)).
Definition header_waits : InFlightRead := Exact 0 LOG_HDR_SIZE None.
(** The state the reader is in when the header has been read. *)
Definition header_post (file : list Z) (x : HeaderReadResult) (r : Reader) : Prop :=
  x = header_of file /\
  match x with
  | Valid h =>
      state_ok r /\ rd_file r = file /\
      answer r = log_of (lh_version h =? LOG_VERSION_V2) (derive_initial_crc (lh_salt h)) (drop (Z.to_nat LOG_HDR_SIZE) file)
  | _ => True
  end.
Lemma header_read_wp file env :
  bytes_ok file -> env_ok env -> LOG_HDR_SIZE <= len file ->
  wp try_read_header_nonblock (starting file env (Some (header_read file)))
    (fun x r => match x with Done x => header_post file x r | IO => False end) (fun _ _ => False).
Proof.
  intros Hb He Hl. unfold try_read_header_nonblock. do 4 wstep. cbn [rd_file_size set_file_size starting rd_file].
  assert (Hln : len (take (Z.to_nat LOG_HDR_SIZE) file) = LOG_HDR_SIZE) by (unfold LOG_HDR_SIZE, len in *; rewrite length_take; lia).
  unfold header_post, header_of. destruct (Z.ltb_spec (len file) LOG_HDR_SIZE); [lia|].
  unfold if_done, read_exact_at. do 4 wstep. cbn [rd_in_flight starting set_file_size]. unfold header_read at 1. do 3 wstep.
  cbn [rd_in_flight starting set_file_size]. unfold header_read. do 2 wstep. rewrite Hln, Z.eqb_refl. apply wp_ret.
  set (hb := take _ file). assert (Hs := decode_header_sound hb). destruct (forallb (Z.eqb 0) hb); [by apply wp_ret|].
  destruct (Z.eqb_spec (le_at hb 6 2) LOG_HDR_SIZE) as [Hhl|Hhl]; cbn [negb].
  2:{ do 2 wstep. apply wp_ret. split; [|done]. destruct (decode_header hb); [by destruct Hs|done..]. }
  destruct (decode_header hb) as [h|e|]; cbn in Hs; [|subst e; do 2 wstep; by apply wp_ret|done].
  do 2 wstep. apply wp_ret. split_and!; [done| |done|done].
  set (r := set_chain _ _ _). assert (Hr : rd_ok r).
  { split; try done; unfold buffer_end, base, synced; cbn; try done; unfold len; cbn; lia. }
  split; [done|]. cbn. split; [done|]. done.
Qed.

(** The first read that is answered, and what is left of the schedule. *)
Fixpoint first_answer (env : list (option Z)) : option Z * list (option Z) :=
  match env with
  | [] => (None, [])
  | None :: env => first_answer env
  | Some n :: env => (Some n, env)
  end.
Definition answered (file : list Z) (env : list (option Z)) : Reader :=
  arrive (first_answer env).1 (starting file (first_answer env).2 (Some header_waits)).
Lemma answered_full file env : first_full env -> answered file env = starting file (first_answer env).2 (Some (header_read file)).
Proof.
  unfold answered. induction env as [|[n|] env IH]; cbn; intros Hff; [done| |auto]. unfold starting, header_read, arrive. cbn. by rewrite Z.min_r by lia.
Qed.
Lemma first_answer_ok env : env_ok env -> env_ok (first_answer env).2.
Proof. induction 1 as [|[n|] env ? ? IH]; cbn; [constructor|done|done]. Qed.
(** A read of fewer bytes is an error. *)
Lemma short_read_wp file env :
  LOG_HDR_SIZE <= len file -> short_header env = true ->
  wp try_read_header_nonblock (answered file env) (fun _ _ => False) (fun e _ => e = Corrupt).
Proof.
  intros Hl Hs. assert (Ha : exists n env', answered file env = starting file env' (Some (Exact 0 LOG_HDR_SIZE (Some (read_at file 0 n)))) /\ n < LOG_HDR_SIZE).
  { unfold answered. induction env as [|[n|] env IH]; cbn in Hs |- *; [done| |auto]. zbool. exists (Z.min n LOG_HDR_SIZE), env. split; [done|lia]. }
  destruct Ha as (n & env' & -> & Hn). unfold try_read_header_nonblock. do 4 wstep. cbn [rd_file_size set_file_size starting rd_file].
  destruct (Z.ltb_spec (len file) LOG_HDR_SIZE); [lia|]. unfold if_done, read_exact_at. do 4 wstep. cbn [rd_in_flight starting set_file_size].
  do 3 wstep. cbn [rd_in_flight starting set_file_size]. do 2 wstep.
  rewrite (proj2 (Z.eqb_neq _ _)); [done|]. unfold read_at, len, LOG_HDR_SIZE in *. rewrite length_take. lia.
Qed.

(** Polling the header read until it has completed; each poll of a read that has not is a no-op. *)
Lemma header_polls fuel file env Q E :
  LOG_HDR_SIZE <= len file -> (length env + 2 <= fuel)%nat ->
  wp try_read_header_nonblock (answered file env) (fun x r => match x with Done x => Q x r | IO => False end) E ->
  wp (block_loop fuel try_read_header_nonblock) (starting file env (Some header_waits)) Q E.
Proof.
  intros Hl. revert env. induction fuel as [|fuel IH]; intros env Hfuel HQ; [lia|]. cbn [block_loop]. wstep.
  assert (Hpoll : wp try_read_header_nonblock (starting file env (Some header_waits))
    (fun x r => x = IO /\ r = starting file env (Some header_waits)) (fun _ _ => False)).
  { unfold try_read_header_nonblock. do 4 wstep. cbn [rd_file_size set_file_size starting rd_file].
    destruct (Z.ltb_spec (len file) LOG_HDR_SIZE); [lia|]. unfold if_done, read_exact_at. do 4 wstep.
    cbn [rd_in_flight starting set_file_size]. unfold header_waits at 1. do 3 wstep.
    cbn [rd_in_flight starting set_file_size]. unfold header_waits. by do 2 wstep. }
  eapply wp_conseq; [apply Hpoll| |done]. intros x r [-> ->]. do 2 wstep.
  destruct env as [|[n|] env']; [| |apply IH; [cbn in Hfuel; lia|done]].
  all: destruct fuel as [|fuel']; [cbn in Hfuel; lia|]; cbn [block_loop]; wstep; eapply wp_conseq; [exact HQ| |done].
  all: intros [x|] r Hx; [by apply wp_ret|done].
Qed.
(** The first poll issues the read. *)
Lemma header_first_poll file env :
  LOG_HDR_SIZE <= len file ->
  try_read_header_nonblock (starting file env None) = try_read_header_nonblock (env_turn (starting file env (Some header_waits))).
Proof.
  intros Hl. unfold try_read_header_nonblock, if_done, read_exact_at, mbind, ST_bind, smodify, sget, pread.
  change (rd_file_size (set_file_size (starting file env None))) with (len file).
  assert (Hs : rd_file_size (set_file_size (env_turn (starting file env (Some header_waits)))) = len file).
  { unfold env_turn. by destruct env as [|[n|] env]. }
  rewrite Hs. destruct (Z.ltb_spec (len file) LOG_HDR_SIZE); [lia|].
  unfold env_turn. by destruct env as [|[n|] env].
Qed.
Lemma block_polls file env Q E :
  LOG_HDR_SIZE <= len file ->
  wp try_read_header_nonblock (answered file env) (fun x r => match x with Done x => Q x r | IO => False end) E ->
  wp (block try_read_header_nonblock) (Reader_new file env) Q E.
Proof.
  intros Hl HQ. unfold block. do 2 wstep. change (Reader_new file env) with (starting file env None).
  change (rd_file (starting file env None)) with file. change (rd_env (starting file env None)) with env.
  assert (Hstart : forall fuel r, block_loop (S fuel) try_read_header_nonblock (starting file env None) = r ->
    block_loop (S fuel) try_read_header_nonblock (env_turn (starting file env (Some header_waits))) = r).
  { intros fuel r <-. cbn [block_loop]. unfold mbind, ST_bind. by rewrite header_first_poll. }
  unfold wp at 1. rewrite <- (Hstart _ _ eq_refl). fold (wp (block_loop (S (S (length file + length env))) try_read_header_nonblock)
    (env_turn (starting file env (Some header_waits))) Q E).
  destruct env as [|[n|] env']; [| |apply (header_polls _ file env'); [done|cbn; lia|done]].
  all: cbn [block_loop]; wstep; eapply wp_conseq; [exact HQ| |done]; intros [x|] r Hx; [by apply wp_ret|done].
Qed.
Lemma block_no_log file env : len file < LOG_HDR_SIZE -> wp (block try_read_header_nonblock) (Reader_new file env) (fun x _ => x = NoLog) (fun _ _ => False).
Proof.
  intros Hlt. unfold block. do 2 wstep. cbn [block_loop]. wstep. unfold try_read_header_nonblock. do 4 wstep. cbn [rd_file_size set_file_size Reader_new rd_file].
  destruct (Z.ltb_spec (len file) LOG_HDR_SIZE); [|lia]. apply wp_ret. by apply wp_ret.
Qed.
Lemma block_header_wp file env :
  bytes_ok file -> env_ok env -> first_full env ->
  wp (block try_read_header_nonblock) (Reader_new file env) (header_post file) (fun _ _ => False).
Proof.
  intros Hb He Hff. destruct (Z.ltb_spec (len file) LOG_HDR_SIZE) as [Hlt|Hge].
  - eapply wp_conseq; [by apply block_no_log| |done]. intros x r ->. unfold header_post, header_of. by destruct (Z.ltb_spec (len file) LOG_HDR_SIZE); [|lia].
  - apply block_polls; [done|]. rewrite answered_full by done. apply header_read_wp; [done|by apply first_answer_ok|done].
Qed.

(** ** Recovery *)

(** What recovery does with a log, as a function of the bytes of the file. *)
Definition recovered (s : Storage) : res LimboError (list (list ParsedOp) * Storage) :=
  let file := ll_file (st_log s) in
  match header_of file with
  | InvalidHeader => Err Corrupt
  | NoLog => Ok ([], s)
  | Valid h =>
      let s := Storage_set_header h s in
      if len file <=? LOG_HDR_SIZE then Ok ([], s)
      else
        let '(frames, crc, rest) := log_of (lh_version h =? LOG_VERSION_V2) (derive_initial_crc (lh_salt h)) (drop (Z.to_nat LOG_HDR_SIZE) file) in
        Ok (frames, restore_logical_log_state_after_recovery (len file - len rest) crc s)
  end.
Lemma recover_logical_log_eq env s :
  bytes_ok (ll_file (st_log s)) -> env_ok env -> first_full env -> recover_logical_log env s = recovered s.
Proof.
  intros Hb He Hff. unfold recover_logical_log, recovered. set (file := ll_file (st_log s)) in *.
  pose proof (block_header_wp file env Hb He Hff) as Hh. unfold wp in Hh.
  destruct (block try_read_header_nonblock (Reader_new file env)) as [[x|e|] r]; [|done..]. destruct Hh as [<- Hx].
  destruct x as [h| |]; [|done..]. destruct Hx as (Hst & Hf & Ha). destruct (len file <=? LOG_HDR_SIZE); [done|].
  assert (Hfuel : (length (answer r).1.1 < S (length file))%nat).
  { rewrite Ha. pose proof (log_of_count (lh_version h =? LOG_VERSION_V2) (derive_initial_crc (lh_salt h)) (drop (Z.to_nat LOG_HDR_SIZE) file)) as Hc.
    rewrite length_drop in Hc. lia. }
  pose proof (replay_loop_wp _ r Hst Hfuel) as Hr. unfold wp in Hr. destruct (replay_loop _ r) as [[frames|e|] r']; [|done..].
  destruct Hr as [Hr Hrg]. rewrite Ha in Hr. rewrite Hr, Hf in *. do 3 f_equal. rewrite len_from by done. lia.
Qed.
(** ... and when the header is read short. *)
Lemma recover_logical_log_cases env s :
  bytes_ok (ll_file (st_log s)) -> env_ok env ->
  recover_logical_log env s = if (LOG_HDR_SIZE <=? len (ll_file (st_log s))) && short_header env then Err Corrupt else recovered s.
Proof.
  intros Hb He. destruct (LOG_HDR_SIZE <=? len (ll_file (st_log s))) eqn:Hl; cbn [andb]; zbool.
  - destruct (short_header env) eqn:Hs; [|by apply recover_logical_log_eq; [..|apply short_header_full]]. unfold recover_logical_log.
    pose proof (block_polls (ll_file (st_log s)) env (fun _ _ => False) (fun e _ => e = Corrupt) Hl) as Hw. unfold wp at 2 in Hw.
    assert (Hw' := Hw (wp_conseq _ _ _ _ _ _ (short_read_wp _ env Hl Hs) (fun x r (F : False) => match F with end) (fun e r He => He))).
    destruct (block _ _) as [[x|e|] r]; [done| |done]. by subst e.
  - unfold recover_logical_log, recovered, header_of. destruct (Z.ltb_spec (len (ll_file (st_log s))) LOG_HDR_SIZE) as [Hlt|]; [|lia].
    pose proof (block_no_log _ env Hlt) as Hw. unfold wp in Hw. destruct (block _ _) as [[x|e|] r]; [|done..]. by subst x.
Qed.
End frames.
