(* ===== verification/LogReplay.v ===== *)
(** Writing and reading the logical log: what the serializer writes of a transaction is what
    the parser gives back, through the header, the frames and the chain of checksums, and a
    file that ends early gives the transactions that are complete in it. *)

From stdpp Require Import base list numbers.
From Stdlib Require Import ZArith Lia.
From S2P Require Import Prelude Varint DbHeader LogicalLog LogReader LogParse LogStream.

(** * Units on concatenations *)

Lemma eval_bind {A B} (m : unit_prog A) (f : A -> unit_prog B) bs :
  eval (m ≫= f) bs =
    match eval m bs with Got a rest => eval (f a) rest | Short => Short | Bad e => Bad e | Broken => Broken end.
Proof.
  unfold mbind, unit_bind. revert bs. induction m as [a|e| |n k IH]; intros bs; cbn; [done..|]. by case_match.
Qed.
Lemma eval_consume a rest : eval (consume (len a)) (a ++ rest) = Got a rest.
Proof.
  cbn. destruct (Z.ltb_spec (len (a ++ rest)) (len a)) as [Hl|_]; [rewrite len_app in Hl; pose proof (len_nonneg rest); lia|].
  unfold len. by rewrite Nat2Z.id, take_app_length, drop_app_length.
Qed.
Lemma eval_consume_bind {B} n a rest (f : list Z -> unit_prog B) :
  len a = n -> eval (consume n ≫= f) (a ++ rest) = eval (f a) rest.
Proof. intros <-. by rewrite eval_bind, eval_consume. Qed.
Lemma eval_ret_bind {A B} (a : A) (f : A -> unit_prog B) bs : eval (URet a ≫= f) bs = eval (f a) bs.
Proof. done. Qed.
Lemma eval_lift_bind {A B} (a : A) r (f : A -> unit_prog B) bs : r = Ok a -> eval (ulift r ≫= f) bs = eval (f a) bs.
Proof. by intros ->. Qed.
Lemma le_val_one c : le_val [c] = c.
Proof. unfold le_val, undigits, undigits_from. cbn. lia. Qed.

(** The varint that is read byte by byte is the one that is read in a buffer. *)
Lemma consume_varint_scan k v pre bs :
  len pre + Z.of_nat k = 8 ->
  eval (consume_varint_loop k v pre) bs =
    match scan_varint k (len pre) v (pre ++ bs) with
    | Found w n => Got (w, take (Z.to_nat n) (pre ++ bs)) (drop (Z.to_nat n) (pre ++ bs))
    | Exhausted => Short
    | Nine w =>
        match get (pre ++ bs) 8 with
        | Some c =>
            if Z.shiftr w 48 =? 0 then Bad Corrupt
            else Got (wrap 64 (Z.shiftl w 8) + c, take 9 (pre ++ bs)) (drop 9 (pre ++ bs))
        | None => Short
        end
    end.
Proof.
  revert v pre bs. induction k as [|k IH]; intros v pre bs Hk; cbn [consume_varint_loop scan_varint].
  - replace 8 with (len pre) by lia. destruct bs as [|c bs].
    + rewrite app_nil_r. destruct (get pre (len pre)) as [x|] eqn:Hg; [apply get_Some_bound in Hg; lia|]. done.
    + rewrite get_middle. change (c :: bs) with ([c] ++ bs) at 1. rewrite eval_consume_bind by done. rewrite le_val_one.
      case_match; [done|]. cbn [eval]. rewrite (cons_middle c pre bs), app_assoc.
      assert (H9 : length (pre ++ [c]) = 9%nat) by (rewrite length_app; unfold len in *; cbn; lia).
      by rewrite <- H9, take_app_length, drop_app_length.
  - destruct bs as [|c bs].
    + rewrite app_nil_r. destruct (get pre (len pre)) as [x|] eqn:Hg; [apply get_Some_bound in Hg; lia|]. done.
    + rewrite get_middle. change (c :: bs) with ([c] ++ bs) at 1. rewrite eval_consume_bind by done. rewrite le_val_one. cbn zeta.
      rewrite (cons_middle c pre bs), app_assoc. assert (Hl : len (pre ++ [c]) = len pre + 1) by (rewrite len_app; done).
      case_match.
      * cbn [eval]. rewrite <- Hl. unfold len. by rewrite Nat2Z.id, take_app_length, drop_app_length.
      * rewrite IH by lia. by rewrite Hl.
Qed.
Lemma consume_varint_partial bs :
  eval consume_varint_bytes bs =
    match read_varint_partial bs with
    | Ok (Some (v, n)) => Got (v, take (Z.to_nat n) bs) (drop (Z.to_nat n) bs)
    | Ok None => Short
    | Err e => Bad e
    | Panic => Broken
    end.
Proof.
  unfold consume_varint_bytes, read_varint_partial. rewrite (consume_varint_scan 8 0 [] bs) by done. cbn [app]. change (len []) with 0.
  destruct (scan_varint 8 0 0 bs) as [v n| |v]; [done..|]. destruct (get bs 8); [|done]. by case_match.
Qed.
Lemma read_varint_partial_venc v rest : is_u 64 v -> read_varint_partial (venc v ++ rest) = Ok (Some (v, varint_len v)).
Proof.
  intros Hv. pose proof (read_varint_venc v rest Hv) as Hr. unfold read_varint, read_varint_partial in *.
  destruct (scan_varint 8 0 0 (venc v ++ rest)); [congruence|done|]. destruct (get _ 8); [|done]. case_match; [done|]. congruence.
Qed.
Lemma eval_varint_bind {B} v rest (f : Z * list Z -> unit_prog B) :
  is_u 64 v -> eval (consume_varint_bytes ≫= f) (venc v ++ rest) = eval (f (v, venc v)) rest.
Proof.
  intros Hv. rewrite eval_bind, consume_varint_partial, read_varint_partial_venc by done.
  assert (Hn : Z.to_nat (varint_len v) = length (venc v)) by (pose proof (length_venc v Hv); unfold len in *; lia).
  by rewrite Hn, take_app_length, drop_app_length.
Qed.
Lemma SqliteVarint_venc v : is_u 64 v -> SqliteVarint v = Ok (venc v).
Proof.
  intros Hv. pose proof (varint_len_bound v Hv) as Hb. unfold SqliteVarint.
  rewrite write_varint_spec by (done || (change (len (replicate 9 0)) with 9; lia)). rstep.
  by rewrite <- (length_venc v Hv), slice_prefix.
Qed.

(** * Protocol-buffer fields *)

Lemma proto_varint_read fuel value shift v rest :
  0 <= shift -> shift + 7 * Z.of_nat fuel = 70 -> 0 <= v -> v * 2 ^ shift < 2 ^ 64 -> (0 < fuel)%nat ->
  read_proto_varint_from value shift (proto_varint_bytes fuel v ++ rest) = Ok (Z.lor value (Z.shiftl v shift), rest).
Proof.
  revert value shift v. induction fuel as [|fuel IH]; intros value shift v Hs Hf Hv Hlt Hpos; [lia|]. cbn [proto_varint_bytes].
  rewrite Z.shiftr_div_pow2 by lia. change (2 ^ 7) with 128. assert (Hp : 0 < 2 ^ shift) by (apply pow2_pos; lia).
  destruct (Z.eqb_spec (v / 128) 0) as [Hz|Hz].
  - assert (v < 128) by (apply Z.div_small_iff in Hz; lia). rewrite wrap_small by (unfold is_u; lia). cbn [app read_proto_varint_from].
    rewrite land_7f, land_byte_80, Z.mod_small by lia. destruct (Z.ltb_spec v 128); [|lia]. cbn [Z.eqb].
    rewrite wrap_small; [done|]. unfold is_u. rewrite Z.shiftl_mul_pow2 by lia. nia.
  - assert (128 <= v) by (destruct (Z.le_gt_cases 128 v); [done|]; rewrite Z.div_small in Hz by lia; lia).
    assert (Hs64 : shift + 7 < 64).
    { apply (Z.pow_lt_mono_r_iff 2); [lia..|]. rewrite Z.pow_add_r by lia. change (2 ^ 7) with 128. nia. }
    assert (Hd : v / 128 * 2 ^ (shift + 7) <= v * 2 ^ shift).
    { rewrite Z.pow_add_r by lia. change (2 ^ 7) with 128. pose proof (Z.mul_div_le v 128 ltac:(lia)). nia. }
    cbn [app read_proto_varint_from].
    rewrite !Z.land_lor_distr_l. change (Z.land 128 127) with 0. change (Z.land 128 128) with 128. rewrite Z.lor_0_r, land_7f.
    assert (Hm : wrap 8 v mod 128 = v mod 128).
    { unfold wrap. change (2 ^ 8) with (128 * 2). rewrite Z.rem_mul_r by lia. rewrite Z.mul_comm, Z.mod_add by lia. by rewrite Z.mod_mod by lia. }
    rewrite Hm. destruct (Z.eqb_spec (Z.lor (Z.land (wrap 8 v) 128) 128) 0) as [He|_]; [apply Z.lor_eq_0_iff in He; lia|].
    destruct (Z.leb_spec 64 (shift + 7)); [lia|].
    assert (Hpb : 0 <= v mod 128 < 128) by (apply Z.mod_pos_bound; lia).
    rewrite (IH _ (shift + 7)) by (lia || (apply Z.div_pos; lia)). f_equal. f_equal.
    rewrite wrap_small by (unfold is_u; rewrite Z.shiftl_mul_pow2 by lia; pose proof (Z.mod_le v 128 ltac:(lia) ltac:(lia)); nia).
    rewrite <- Z.lor_assoc. f_equal. replace (shift + 7) with (7 + shift) by lia. rewrite <- Z.shiftl_shiftl, <- Z.shiftl_lor by lia. f_equal.
    rewrite Z.lor_comm, Z.shiftl_mul_pow2, lor_add_disjoint by (done || lia). change (2 ^ 7) with 128. pose proof (Z.div_mod v 128). lia.
Qed.
Lemma ProtoVarint_read v rest : is_u 64 v -> read_proto_varint_from_buf (ProtoVarint v ++ rest) = Ok (v, rest).
Proof.
  unfold is_u. intros Hv. unfold read_proto_varint_from_buf, ProtoVarint. rewrite proto_varint_read by lia.
  by rewrite Z.lor_0_l, Z.shiftl_0_r.
Qed.
Lemma proto_record_read bs rest : is_u 64 (len bs) -> read_proto_record (ProtoVarint (len bs) ++ bs ++ rest) = Ok (bs, rest).
Proof.
  intros Hb. unfold read_proto_record. rewrite ProtoVarint_read by done. rstep. rewrite len_app.
  destruct (Z.ltb_spec (len bs + len rest) (len bs)) as [Hl|_]; [pose proof (len_nonneg rest); lia|].
  unfold len. by rewrite Nat2Z.id, take_app_length, drop_app_length.
Qed.
Lemma decode_delete_fuel fuel1 fuel2 d bytes :
  (length bytes <= fuel1)%nat -> (length bytes <= fuel2)%nat -> decode_delete_loop fuel1 d bytes = decode_delete_loop fuel2 d bytes.
Proof.
  revert fuel2 d bytes. induction fuel1 as [|fuel1 IH]; intros fuel2 d [|b bytes] H1 H2; [by destruct fuel2|cbn in H1; lia|by destruct fuel2|].
  destruct fuel2 as [|fuel2]; [cbn in H2; lia|]. cbn [decode_delete_loop]. set (bs := b :: bytes) in *.
  pose proof (read_proto_varint_sound bs 0 0) as Hs. fold (read_proto_varint_from_buf bs) in Hs.
  destruct (read_proto_varint_from_buf bs) as [[key rest]|e|]; [|done..]. cbn [mbind res_bind sound] in *.
  repeat case_match.
  1-2: pose proof (read_proto_record_sound rest) as Hr; destruct (read_proto_record rest) as [[x rest']|e|]; [|done..];
    cbn [sound] in Hr; apply IH; lia.
  - pose proof (read_proto_varint_sound rest 0 0) as Hr. fold (read_proto_varint_from_buf rest) in Hr.
    destruct (read_proto_varint_from_buf rest) as [[x rest']|e|]; [|done..]. cbn [sound] in Hr. apply IH; lia.
  - pose proof (skip_proto_field_sound (Z.land key 7) rest) as Hr. destruct (skip_proto_field _ rest) as [rest'|e|]; [|done..].
    cbn [sound] in Hr. apply IH; lia.
Qed.
Definition decode_fields (d : DeletePortableExtension) (bytes : list Z) : res LimboError DeletePortableExtension :=
  decode_delete_loop (length bytes) d bytes.
Definition record_or (old : list Z) (record : option (list Z)) : list Z := match record with Some (b :: bs) => b :: bs | _ => old end.
(** A step of the loop on a key that is one byte long, up to its test of the field. *)
Ltac field_test b := match goal with |- (if ?c then _ else _) = _ => change c with b; cbv iota end.
Ltac decode_key d key :=
  rewrite <- ?app_assoc; change (ProtoKey _ _) with [key]; change ([key] ++ ?x) with (key :: x);
  change (decode_fields d (key :: ?bytes)) with (decode_delete_loop (S (length bytes)) d (key :: bytes));
  cbn [decode_delete_loop]; change (read_proto_varint_from_buf (key :: ?x)) with (Ok (E:=LimboError) (key, x)); cbn [mbind res_bind].
Lemma decode_identity d record rest :
  is_u 64 (len (record_or [] record)) ->
  decode_fields d (proto_record OP_EXT_FIELD_DELETE_IDENTITY_RECORD record ++ rest) =
    decode_fields (MkDeleteExt (record_or (identity_record d) record) (pk_record d)) rest.
Proof.
  intros Hl. destruct record as [[|b bs]|]; cbn [proto_record record_or] in *; [by destruct d|..|by destruct d].
  decode_key d 10. field_test true. rewrite proto_record_read by done. cbn [mbind res_bind].
  apply decode_delete_fuel; [|done]. rewrite !length_app. lia.
Qed.
Lemma decode_pk d record rest :
  is_u 64 (len (record_or [] record)) ->
  decode_fields d (proto_record OP_EXT_FIELD_DELETE_PK_RECORD record ++ rest) =
    decode_fields (MkDeleteExt (identity_record d) (record_or (pk_record d) record)) rest.
Proof.
  intros Hl. destruct record as [[|b bs]|]; cbn [proto_record record_or] in *; [by destruct d|..|by destruct d].
  decode_key d 18. field_test false. field_test true. rewrite proto_record_read by done. cbn [mbind res_bind].
  apply decode_delete_fuel; [|done]. rewrite !length_app. lia.
Qed.
Lemma decode_rowid d rowid : decode_fields d (match rowid with Some rowid => ProtoSint64 OP_EXT_FIELD_DELETE_ROWID rowid | None => [] end) = Ok d.
Proof.
  destruct rowid as [rowid|]; [|done]. unfold ProtoSint64. rewrite <- (app_nil_r (ProtoVarint _)).
  decode_key d 24. do 2 field_test false. field_test true. rewrite ProtoVarint_read by (by apply wrap_is_u). cbn [mbind res_bind].
  by destruct (length _).
Qed.
(** Decoding an extension gives the records that were encoded. *)
Lemma decode_delete_encode identity pk rowid :
  is_u 64 (len (record_or [] identity)) -> is_u 64 (len (record_or [] pk)) ->
  decode_delete_portable_extension (encode_delete_portable_extension identity pk rowid) =
    Ok (MkDeleteExt (record_or [] identity) (record_or [] pk)).
Proof.
  intros Hi Hp. change decode_delete_portable_extension with (decode_fields (MkDeleteExt [] [])).
  unfold encode_delete_portable_extension. by rewrite decode_identity, decode_pk, decode_rowid.
Qed.

(** * Little-endian fields *)

Lemma le_val_of_le n x : 0 <= x < 256 ^ Z.of_nat n -> le_val (le_bytes n x) = x.
Proof.
  intros Hx. unfold le_val, le_bytes. rewrite reverse_involutive, undigits_digits by lia. by apply Z.mod_small.
Qed.
Lemma len_le_bytes n x : len (le_bytes n x) = Z.of_nat n.
Proof. unfold len. by rewrite length_le_bytes. Qed.
Lemma le_bytes_ok n x : bytes_ok (le_bytes n x).
Proof. unfold le_bytes, bytes_ok. rewrite Forall_reverse. by apply digits_ok. Qed.
Lemma le_at_skip pre post i n : (length pre <= i)%nat -> le_at (pre ++ post) i n = le_at post (i - length pre) n.
Proof. intros Hi. unfold le_at. by rewrite drop_app_ge. Qed.
Lemma le_at_hit mid post n : length mid = n -> le_at (mid ++ post) 0 n = le_val mid.
Proof. intros <-. unfold le_at. by rewrite drop_0, take_app_length. Qed.
Lemma le_at_field n x post : 0 <= x < 256 ^ Z.of_nat n -> le_at (le_bytes n x ++ post) 0 n = x.
Proof. intros Hx. rewrite le_at_hit by apply length_le_bytes. by apply le_val_of_le. Qed.
Lemma le_at_byte c post : le_at (c :: post) 0 1 = c.
Proof. apply (le_at_hit [c] post 1); [done]. Qed.
#[export] Hint Resolve le_bytes_ok : turso.
(** Read a little-endian field of a concatenation of fields. *)
Ltac le_seek :=
  repeat (rewrite le_at_skip by (rewrite ?length_le_bytes, ?length_app; cbn; lia));
  rewrite ?length_le_bytes; cbn [Nat.sub length].

(** * Operations *)

(** What a transaction logs. *)
Inductive LogOp : Type :=
| OpRow (v : LoggedVersion) (extension : option (list Z))
| OpHeader (header : DatabaseHeader).

Definition tag_of (v : LoggedVersion) : Z :=
  match lv_key v, lv_deleted v with
  | IntKey _, false => OP_UPSERT_TABLE
  | IntKey _, true => OP_DELETE_TABLE
  | RecordKey, false => OP_UPSERT_INDEX
  | RecordKey, true => OP_DELETE_INDEX
  end.
Definition payload_of (v : LoggedVersion) : list Z :=
  match lv_key v, lv_deleted v with
  | IntKey rowid, false => venc (wrap 64 rowid) ++ lv_payload v
  | IntKey rowid, true => venc (wrap 64 rowid)
  | RecordKey, _ => lv_payload v
  end.
Definition ext_bytes (extension : option (list Z)) : list Z :=
  match extension with Some (b :: bs) => venc (len (b :: bs)) ++ b :: bs | _ => [] end.
(** The bytes of an operation. *)
Definition entry (tag flags table_id : Z) (payload ext : list Z) : list Z :=
  ([tag; flags] ++ le_bytes 4 (wrap 32 table_id)) ++ venc (len payload) ++ payload ++ ext.
Definition op_bytes (op : LogOp) : list Z :=
  match op with
  | OpRow v ext => entry (tag_of v) (op_flags v ext) (lv_table_id v) (payload_of v) (ext_bytes ext)
  | OpHeader h => entry OP_UPDATE_HEADER 0 0 (DatabaseHeader_bytes h) []
  end.

(** The extension of a deletion, as commit makes it. *)
Record delete_ext : Type := MkExt { de_identity : option (list Z); de_pk : option (list Z); de_rowid : option Z }.
Definition ext_ok_for (v : LoggedVersion) (ext : option (list Z)) (d : option delete_ext) : Prop :=
  match d with
  | None => ext = None
  | Some d =>
      (exists rowid, lv_key v = IntKey rowid) /\ lv_deleted v = true /\
      ext = Some (encode_delete_portable_extension (de_identity d) (de_pk d) (de_rowid d)) /\
      is_u 64 (len (record_or [] (de_identity d))) /\ is_u 64 (len (record_or [] (de_pk d)))
  end.
Definition op_ok (op : LogOp) : Prop :=
  match op with
  | OpRow v ext =>
      is_i 32 (lv_table_id v) /\ lv_table_id v < 0 /\ match lv_key v with IntKey rowid => is_i 64 rowid | RecordKey => True end /\
      is_u 64 (len (payload_of v)) /\ is_u 64 (len (default [] ext)) /\
      bytes_ok (lv_payload v) /\ bytes_ok (default [] ext) /\ exists d, ext_ok_for v ext d
  | OpHeader h => header_ok h /\ magic h = SQLITE_MAGIC
  end.
(** What recovery is given of it. *)
Definition decoded_ext (ext : option (list Z)) : DeletePortableExtension :=
  match ext with
  | Some (b :: bs) => match decode_delete_portable_extension (b :: bs) with Ok d => d | _ => MkDeleteExt [] [] end
  | _ => MkDeleteExt [] []
  end.
Definition parsed_of (ts : Z) (op : LogOp) : ParsedOp :=
  match op with
  | OpRow v ext =>
      let id := lv_table_id v in
      let resident := lv_btree_resident v in
      match lv_key v, lv_deleted v with
      | IntKey rowid, false => UpsertTable id rowid (lv_payload v) ts resident
      | IntKey rowid, true => DeleteTable id rowid (identity_record (decoded_ext ext)) (pk_record (decoded_ext ext)) ts resident
      | RecordKey, false => UpsertIndex id (lv_payload v) ts resident
      | RecordKey, true => DeleteIndex id (lv_payload v) ts resident
      end
  | OpHeader h => UpdateHeader h ts
  end.

Lemma serialize_op_entry_eq v ext buf :
  op_ok (OpRow v ext) -> serialize_op_entry v ext buf = Ok (buf ++ op_bytes (OpRow v ext)).
Proof.
  intros (Hi & Hneg & Hkey & Hp & He & _). unfold is_i in Hi. unfold serialize_op_entry. cbn [op_bytes]. unfold entry, tag_of, payload_of in *.
  destruct (Z.ltb_spec (lv_table_id v) 0); [|lia]. destruct (Z.leb_spec (- 2 ^ 31) (lv_table_id v)); [|lia]. cbn [rassert].
  assert (Hext : extension_bytes ext = Ok (ext_bytes ext)).
  { unfold extension_bytes, ext_bytes. destruct ext as [[|b bs]|]; [done| |done]. by rewrite SqliteVarint_venc. }
  rewrite Hext. cbn [mbind res_bind].
  destruct (lv_key v) as [rowid|]; [|].
  - assert (Hr : is_u 64 (wrap 64 rowid)) by by apply wrap_is_u.
    destruct (lv_deleted v); rewrite ?len_app, length_venc in Hp |- * by done; rewrite !SqliteVarint_venc by done;
      cbn [mbind res_bind]; by rewrite <- !app_assoc.
  - rewrite SqliteVarint_venc by done. cbn [mbind res_bind]. destruct (lv_deleted v); by rewrite <- !app_assoc.
Qed.
Lemma serialize_header_entry_eq h buf :
  op_ok (OpHeader h) -> serialize_header_entry h buf = Ok (buf ++ op_bytes (OpHeader h)).
Proof.
  intros [Hh Hm]. unfold serialize_header_entry. cbn [op_bytes]. unfold entry.
  assert (Hl : len (DatabaseHeader_bytes h) = DatabaseHeader_SIZE) by (unfold len; by rewrite DatabaseHeader_bytes_length).
  rewrite Hl, SqliteVarint_venc by (unfold is_u, DatabaseHeader_SIZE; lia). cbn [mbind res_bind]. by rewrite app_nil_r, <- !app_assoc.
Qed.

Section replay.
Context `{Crc32cLaws}.

(** An operation is read back by the unit that parses one. *)
Lemma parse_entry ts crc n tag flags id payload e op rest :
  check_op_header tag flags id = Ok tt -> is_i 32 id -> is_u 64 (len payload) -> is_u 64 (len e) ->
  (Z.land flags OP_FLAG_PORTABLE_EXTENSION =? 0) = match e with [] => true | _ => false end ->
  parsed_op tag id payload e ts (negb (Z.land flags OP_FLAG_BTREE_RESIDENT =? 0)) = Ok op ->
  let bytes := entry tag flags id payload (ext_bytes (Some e)) in
  n + len bytes < 2 ^ 64 ->
  eval (parse_op ts crc n) (bytes ++ rest) = Got (op, crc32c_append crc bytes, n + len bytes) rest.
Proof.
  intros Hck Hid Hp He Hfl Hop bytes Hn. unfold parse_op. subst bytes. unfold entry in *.
  set (h := [tag; flags] ++ le_bytes 4 (wrap 32 id)) in *.
  assert (Hh : len h = 6) by (subst h; by rewrite len_app, len_le_bytes).
  assert (Ht : le_at h 0 1 = tag) by apply le_at_byte.
  assert (Hf : le_at h 1 1 = flags) by apply (le_at_byte flags (le_bytes 4 (wrap 32 id))).
  assert (Hi : le_at h 2 4 = wrap 32 id).
  { subst h. rewrite le_at_skip by (cbn; lia). rewrite <- (app_nil_r (le_bytes _ _)). cbn [length Nat.sub]. apply le_at_field.
    apply (wrap_is_u 32). lia. }
  rewrite <- !app_assoc, (eval_consume_bind 6) by done. cbn zeta. rewrite Ht, Hf, Hi, to_signed_wrap by (done || lia).
  rewrite (eval_lift_bind tt) by done. rewrite eval_varint_bind by done. rewrite (eval_consume_bind (len payload)) by done.
  rewrite Hfl. rewrite !len_app, Hh in Hn.
  assert (Hlast : forall (ext : list Z) (tot crc' : Z), tot = len (ext_bytes (Some ext)) -> ext = e ->
    eval (_ ← ulift (ensure (n + (6 + len (venc (len payload)) + len payload + tot) <? 2 ^ 64) Corrupt);
          op ← ulift (parsed_op tag id payload ext ts (negb (Z.land flags OP_FLAG_BTREE_RESIDENT =? 0)));
          URet (op, crc', n + (6 + len (venc (len payload)) + len payload + tot))) rest =
    Got (op, crc', n + (len h + (len (venc (len payload)) + (len payload + tot)))) rest).
  { intros ext tot crc' -> ->. rewrite (eval_lift_bind tt).
    2:{ unfold ensure. destruct (Z.ltb_spec (n + (6 + len (venc (len payload)) + len payload + len (ext_bytes (Some e)))) (2 ^ 64)); [done|lia]. }
    rewrite (eval_lift_bind op) by done. cbn [eval]. rewrite Hh. do 2 f_equal. lia. }
  rewrite !crc32c_append_app, !len_app. destruct e as [|b bs]; cbn [negb ext_bytes].
  - rewrite eval_ret_bind. cbn [app]. rewrite (Hlast [] 0) by done. do 3 f_equal.
    by rewrite crc32c_append_nil.
  - rewrite eval_bind, <- app_assoc, eval_varint_bind by done. change (b :: bs ++ rest) with ((b :: bs) ++ rest).
    rewrite (eval_consume_bind (len (b :: bs))) by done. cbn [eval]. rewrite crc32c_append_app.
    rewrite (Hlast (b :: bs) (len (venc (len (b :: bs))) + len (b :: bs))) by (cbn [ext_bytes]; rewrite ?len_app; done).
    by rewrite len_app.
Qed.
Lemma split_rowid_venc rowid payload : is_i 64 rowid -> split_rowid (venc (wrap 64 rowid) ++ payload) = Ok (rowid, payload).
Proof.
  intros Hr. assert (Hu : is_u 64 (wrap 64 rowid)) by by apply wrap_is_u. unfold split_rowid. rewrite read_varint_venc by done.
  cbn [mbind res_bind]. rewrite <- length_venc, len_app by done. unfold ensure.
  destruct (Z.leb_spec (len (venc (wrap 64 rowid))) (len (venc (wrap 64 rowid)) + len payload)) as [_|Hl]; [|pose proof (len_nonneg payload); lia].
  cbn [mbind res_bind]. unfold len. by rewrite Nat2Z.id, drop_app_length, to_signed_wrap by (done || lia).
Qed.
Lemma ext_bytes_default ext : ext_bytes ext = ext_bytes (Some (default [] ext)).
Proof. by destruct ext as [[|b bs]|]. Qed.
Lemma check_row v ext : lv_table_id v < 0 -> check_op_header (tag_of v) (op_flags v ext) (lv_table_id v) = Ok tt.
Proof.
  intros Hn. unfold check_op_header, ensure. assert (Ht : (tag_of v =? OP_UPSERT_TABLE) || (tag_of v =? OP_DELETE_TABLE) ||
    (tag_of v =? OP_UPSERT_INDEX) || (tag_of v =? OP_DELETE_INDEX) = true).
  { unfold tag_of. by destruct (lv_key v), (lv_deleted v). }
  rewrite Ht. destruct (Z.leb_spec 0 (lv_table_id v)); [lia|].
  unfold op_flags. by destruct (lv_btree_resident v), ext as [[|b bs]|].
Qed.
Lemma flags_resident v ext : negb (Z.land (op_flags v ext) OP_FLAG_BTREE_RESIDENT =? 0) = lv_btree_resident v.
Proof. unfold op_flags. by destruct (lv_btree_resident v), ext as [[|b bs]|]. Qed.
Lemma flags_extension v ext :
  (Z.land (op_flags v ext) OP_FLAG_PORTABLE_EXTENSION =? 0) = match default [] ext with [] => true | _ => false end.
Proof. unfold op_flags. by destruct (lv_btree_resident v), ext as [[|b bs]|]. Qed.
Lemma delete_records_ok v ext d :
  ext_ok_for v ext d ->
  delete_records [] (default [] ext) = Ok (identity_record (decoded_ext ext), pk_record (decoded_ext ext)).
Proof.
  intros Hd. unfold delete_records, decoded_ext. destruct ext as [[|b bs]|]; [done| |done]. cbn [default from_option id].
  destruct d as [d|]; cbn in Hd; [|done]. destruct Hd as (_ & _ & He & H1 & H2). simplify_eq. rewrite He.
  by rewrite decode_delete_encode.
Qed.
Lemma parse_op_bytes ts crc n op rest :
  op_ok op -> n + len (op_bytes op) < 2 ^ 64 ->
  eval (parse_op ts crc n) (op_bytes op ++ rest) = Got (parsed_of ts op, crc32c_append crc (op_bytes op), n + len (op_bytes op)) rest.
Proof.
  intros Hok Hn. destruct op as [v ext|h]; cbn [op_bytes] in *.
  - destruct Hok as (Hi & Hneg & Hkey & Hp & He & _ & _ & d & Hd). rewrite ext_bytes_default in *.
    apply parse_entry; try done; [by apply check_row|apply flags_extension|]. rewrite flags_resident.
    unfold parsed_op, tag_of, payload_of, parsed_of in *. destruct (lv_key v) as [rowid|], (lv_deleted v); cbn [Z.eqb]; try done.
    + rewrite <- (app_nil_r (venc _)), split_rowid_venc by done. cbn -[delete_records decoded_ext]. by rewrite (delete_records_ok v ext d).
    + by rewrite split_rowid_venc.
  - destruct Hok as [Hh Hm]. assert (Hl : len (DatabaseHeader_bytes h) = DatabaseHeader_SIZE) by (unfold len; by rewrite DatabaseHeader_bytes_length).
    change [] with (ext_bytes (Some [])) in *. apply parse_entry; try done.
    + by rewrite Hl.
    + unfold parsed_op. cbn -[DatabaseHeader_from_bytes DatabaseHeader_bytes]. rewrite Hl. cbn -[DatabaseHeader_from_bytes DatabaseHeader_bytes].
      rewrite <- (app_nil_r (DatabaseHeader_bytes h)), DatabaseHeader_decode by done. cbn. by rewrite bool_decide_true.
Qed.

(** ** Frames *)

Record Tx : Type := MkTx { tx_ts : Z; tx_ops : list LogOp }.
Definition tx_payload (tx : Tx) : list Z := concat (map op_bytes (tx_ops tx)).
Definition tx_head (tx : Tx) : list Z :=
  le_bytes 4 FRAME_MAGIC ++ le_bytes 8 (len (tx_payload tx)) ++ le_bytes 4 (len (tx_ops tx)) ++ le_bytes 8 (tx_ts tx).
Definition tx_crc (crc : Z) (tx : Tx) : Z := crc32c_append crc (tx_head tx ++ tx_payload tx).
Definition tx_trailer (crc : Z) : list Z := le_bytes 4 crc ++ le_bytes 4 END_MAGIC.
Definition frame_bytes (crc : Z) (tx : Tx) : list Z := tx_head tx ++ tx_payload tx ++ tx_trailer (tx_crc crc tx).
Definition tx_ok (tx : Tx) : Prop :=
  Forall op_ok (tx_ops tx) /\ is_u 32 (len (tx_ops tx)) /\ is_u 64 (tx_ts tx) /\ is_u 64 (len (tx_payload tx)).
Definition parsed_tx (tx : Tx) : list ParsedOp := map (parsed_of (tx_ts tx)) (tx_ops tx).

Lemma eval_ops_bytes fuel fip ops rest :
  Forall op_ok ops -> op_index fip + len ops = fh_op_count (fip_header fip) ->
  payload_bytes_read fip + len (concat (map op_bytes ops)) = fh_payload_size (fip_header fip) ->
  fh_payload_size (fip_header fip) < 2 ^ 64 -> (length ops < fuel)%nat ->
  exists fip', eval_ops fuel fip (concat (map op_bytes ops) ++ rest) = Got fip' rest /\
    parsed_ops fip' = parsed_ops fip ++ map (parsed_of (fh_commit_ts (fip_header fip))) ops /\
    fip_crc fip' = crc32c_append (fip_crc fip) (concat (map op_bytes ops)).
Proof.
  revert fuel fip. induction ops as [|op ops IH]; intros [|fuel] fip Hok Hc Hs Hu Hf; [cbn in Hf; lia| |cbn in Hf; lia|].
  - cbn [eval_ops concat map app]. unfold len in Hc, Hs. cbn in Hc, Hs.
    destruct (Z.leb_spec (fh_op_count (fip_header fip)) (op_index fip)); [|lia].
    destruct (Z.eqb_spec (fh_payload_size (fip_header fip)) (payload_bytes_read fip)); [|lia]. exists fip. rewrite app_nil_r. split_and!; try done.
    by rewrite crc32c_append_nil.
  - inversion Hok as [|? ? Hop Hops]; subst. cbn [eval_ops concat map] in *. rewrite len_app in Hs.
    assert (Hl : len (op :: ops) = 1 + len ops) by (unfold len; cbn; lia). rewrite Hl in Hc. pose proof (len_nonneg ops).
    pose proof (len_nonneg (concat (map op_bytes ops))).
    destruct (Z.leb_spec (fh_op_count (fip_header fip)) (op_index fip)); [lia|]. rewrite <- app_assoc, parse_op_bytes by (done || lia).
    set (fip1 := with_op _ _ _ fip).
    destruct (IH fuel fip1) as (fip' & He & Hp & Hcr); subst fip1; cbn in *; [done|lia|lia|done|lia|].
    exists fip'. rewrite He, Hp, Hcr. by rewrite <- app_assoc, crc32c_append_app.
Qed.
Lemma len_tx_head tx : len (tx_head tx) = 24.
Proof. unfold tx_head. by rewrite !len_app, !len_le_bytes. Qed.
Definition head_of (crc : Z) (tx : Tx) : FrameHeader :=
  MkFrameHeader (len (tx_payload tx)) (len (tx_ops tx)) (tx_ts tx) 0 0 0 (crc32c_append crc (tx_head tx)).
Lemma parse_head v2 crc tx rest : tx_ok tx -> eval (parse_frame_header v2 crc) (tx_head tx ++ rest) = Got (Some (head_of crc tx)) rest.
Proof.
  intros (_ & Ho & Ht & Hp). unfold is_u in *. unfold parse_frame_header. rewrite (eval_consume_bind TX_HEADER_SIZE) by apply len_tx_head. cbn zeta.
  assert (Hm : le_at (tx_head tx) 0 4 = FRAME_MAGIC) by (apply le_at_field; done). rewrite Hm.
  assert (H4 : le_at (tx_head tx) 4 8 = len (tx_payload tx)).
  { unfold tx_head. le_seek. by apply le_at_field. }
  assert (H12 : le_at (tx_head tx) 12 4 = len (tx_ops tx)).
  { unfold tx_head. le_seek. by apply le_at_field. }
  assert (H16 : le_at (tx_head tx) 16 8 = tx_ts tx).
  { unfold tx_head. le_seek. rewrite <- (app_nil_r (le_bytes _ _)). by apply le_at_field. }
  destruct v2; change (FRAME_MAGIC =? EXT_FRAME_MAGIC) with false; rewrite Z.eqb_refl; cbn [negb andb]; rewrite eval_ret_bind; cbn zeta;
    by rewrite H4, H12, H16.
Qed.
Lemma tx_crc_u32 crc tx : is_u 32 crc -> is_u 32 (tx_crc crc tx).
Proof. intros Hc. by apply crc32c_append_u32. Qed.
Lemma parse_trailer_bytes crc rest : is_u 32 crc -> eval (parse_trailer crc) (tx_trailer crc ++ rest) = Got true rest.
Proof.
  intros Hc. unfold is_u in Hc. unfold parse_trailer. rewrite (eval_consume_bind TX_TRAILER_SIZE) by (unfold tx_trailer; by rewrite len_app, !len_le_bytes).
  unfold tx_trailer. rewrite le_at_field by done. le_seek. rewrite <- (app_nil_r (le_bytes 4 END_MAGIC)), le_at_field by done.
  by rewrite !Z.eqb_refl.
Qed.
(** A frame is read back, whatever follows it. *)
Lemma parse_frame_bytes v2 crc tx rest :
  tx_ok tx -> is_u 32 crc ->
  exists fip, parse_frame v2 crc (frame_bytes crc tx ++ rest) = FFrame fip rest /\
    parsed_ops fip = parsed_tx tx /\ fip_crc fip = tx_crc crc tx.
Proof.
  intros Htx Hc. unfold parse_frame. assert (Hlen : len (frame_bytes crc tx ++ rest) = 32 + len (tx_payload tx) + len rest).
  { unfold frame_bytes, tx_trailer. rewrite !len_app, len_tx_head, !len_le_bytes. lia. }
  destruct (Z.ltb_spec (len (frame_bytes crc tx ++ rest)) TX_MIN_FRAME_SIZE) as [Hl|_].
  { pose proof (len_nonneg (tx_payload tx)). pose proof (len_nonneg rest). rewrite Hlen in Hl. unfold TX_MIN_FRAME_SIZE in Hl. lia. }
  unfold eval_frame. cbn [phase FrameInProgress_new]. unfold eval_header, frame_bytes. rewrite <- !app_assoc, parse_head by done.
  cbv zeta. change (phase (with_header (head_of crc tx) (FrameInProgress_new 0))) with Payload. cbv iota. destruct Htx as (Hops & Ho & Ht & Hp). unfold eval_payload.
  set (fip := with_header _ _). set (bs := tx_payload tx ++ _).
  destruct (eval_ops_bytes (S (length bs)) fip (tx_ops tx) (tx_trailer (tx_crc crc tx) ++ rest)) as (fip' & He & Hpo & Hcr); try done.
  { cbn. unfold is_u in Hp. lia. }
  { subst bs. rewrite !length_app. assert (length (tx_ops tx) <= length (tx_payload tx))%nat; [|lia]. unfold tx_payload. clear.
    induction (tx_ops tx) as [|op ops IH]; [done|]. cbn [map concat]. rewrite length_app. cbn [length].
    assert (1 <= length (op_bytes op))%nat; [|lia]. destruct op; cbn [op_bytes]; unfold entry; cbn; lia. }
  subst bs. fold (tx_payload tx) in He, Hcr. rewrite He. unfold eval_trailer. cbn [fip_crc set_phase].
  assert (Hcrc : fip_crc fip' = tx_crc crc tx) by (rewrite Hcr; subst fip; cbn; by rewrite <- crc32c_append_app).
  rewrite Hcrc, parse_trailer_bytes by by apply tx_crc_u32. exists (set_phase Trailer fip'). split_and!; [done| |done].
  cbn [parsed_ops set_phase]. by rewrite Hpo.
Qed.

(** ** A log that ends early *)

(** On the first [k] bytes: what was read when they hold it, the end of the log when not. *)
Definition cut_at {A} (o : nat -> outcome A) (len_bs : nat) (a : A) (rest : list Z) : Prop :=
  (length rest <= len_bs)%nat /\
  forall k, o k = if (k <? len_bs - length rest)%nat then Short else Got a (take (k - (len_bs - length rest)) rest).
Lemma eval_cut {A} (m : unit_prog A) bs a rest : eval m bs = Got a rest -> cut_at (fun k => eval m (take k bs)) (length bs) a rest.
Proof.
  revert bs. induction m as [a'|e| |n k0 IH]; intros bs He; cbn in He; simplify_eq.
  - split; [done|]. intros k. rewrite Nat.sub_diag. cbn. by rewrite Nat.sub_0_r.
  - destruct (Z.ltb_spec (len bs) n) as [|Hn]; [done|]. destruct (IH _ _ He) as [Hle Hk]. rewrite length_drop in Hle, Hk. split; [lia|].
    intros k. cbn [eval]. unfold len in *. rewrite length_take. destruct (Z.ltb_spec (Z.of_nat (k `min` length bs)) n) as [Hs|Hs].
    + by destruct (Nat.ltb_spec k (length bs - length rest)); [|lia].
    + rewrite take_take, Nat.min_l, skipn_firstn_comm, Hk by lia.
      destruct (Nat.ltb_spec (k - Z.to_nat n) (length bs - Z.to_nat n - length rest)), (Nat.ltb_spec k (length bs - length rest)); try lia; [done|].
      do 2 f_equal. lia.
Qed.
Lemma eval_ops_cut fuel fip bs fip' rest :
  eval_ops fuel fip bs = Got fip' rest -> cut_at (fun k => eval_ops fuel fip (take k bs)) (length bs) fip' rest.
Proof.
  revert fip bs. induction fuel as [|fuel IH]; intros fip bs He; [done|]. cbn [eval_ops] in *. destruct (_ <=? _) eqn:Hdone.
  { destruct (_ =? _); simplify_eq. split; [done|]. intros k. rewrite Nat.sub_diag. cbn. by rewrite Nat.sub_0_r. }
  destruct (eval _ bs) as [[[op crc] n] rest1| | |] eqn:He1; try done. apply eval_cut in He1 as [Hl1 Hk1].
  destruct (IH _ _ He) as [Hl2 Hk2]. split; [lia|]. intros k. rewrite Hk1.
  destruct (Nat.ltb_spec k (length bs - length rest1)) as [Hs|Hs]; [by destruct (Nat.ltb_spec k (length bs - length rest)); [|lia]|].
  rewrite Hk2. destruct (Nat.ltb_spec (k - (length bs - length rest1)) (length rest1 - length rest)), (Nat.ltb_spec k (length bs - length rest)); try lia; [done|].
  do 2 f_equal. lia.
Qed.
Definition cut_frame (o : nat -> frame_outcome) (len_bs : nat) (fip : FrameInProgress) (rest : list Z) : Prop :=
  (length rest <= len_bs)%nat /\
  forall k, o k = if (k <? len_bs - length rest)%nat then FEof else FFrame fip (take (k - (len_bs - length rest)) rest).
Lemma eval_trailer_cut fip bs fip' rest :
  eval_trailer fip bs = FFrame fip' rest -> cut_frame (fun k => eval_trailer fip (take k bs)) (length bs) fip' rest.
Proof.
  unfold eval_trailer. destruct (eval _ bs) as [[] rest1| | |] eqn:He; intros ?; simplify_eq. apply eval_cut in He as [Hl Hk].
  split; [done|]. intros k. rewrite Hk. by destruct (Nat.ltb_spec k (length bs - length rest)).
Qed.
Lemma cut_frame_then {A} (o : nat -> outcome A) (next : A -> list Z -> frame_outcome) l a rest1 fip rest (f : nat -> frame_outcome) :
  cut_at o l a rest1 -> cut_frame (fun k => next a (take k rest1)) (length rest1) fip rest ->
  (forall k, o k = Short -> f k = FEof) -> (forall k b, o k = Got a b -> f k = next a b) -> cut_frame f l fip rest.
Proof.
  intros [Hl1 Hk1] [Hl2 Hk2] Hs Hg. split; [lia|]. intros k. specialize (Hk1 k).
  destruct (Nat.ltb_spec k (l - length rest1)); [rewrite Hs by done; by destruct (Nat.ltb_spec k (l - length rest)); [|lia]|].
  rewrite (Hg _ _ Hk1), Hk2.
  destruct (Nat.ltb_spec (k - (l - length rest1)) (length rest1 - length rest)), (Nat.ltb_spec k (l - length rest)); try lia; [done|].
  do 2 f_equal. lia.
Qed.
Lemma eval_payload_cut fip bs fip' rest :
  eval_payload fip bs = FFrame fip' rest -> cut_frame (fun k => eval_payload fip (take k bs)) (length bs) fip' rest.
Proof.
  unfold eval_payload. destruct (eval_ops _ fip bs) as [fip1 rest1| |[]|] eqn:He; try done. intros Ht%eval_trailer_cut.
  apply eval_ops_cut in He. eapply (cut_frame_then _ (fun f => eval_trailer (set_phase Trailer f))); [exact He|exact Ht|..];
    intros k; rewrite (eval_ops_fuel (S (length (take k bs))) (S (length bs))) by (rewrite ?length_take; lia); [by intros ->|by intros b ->].
Qed.
Lemma eval_extension_cut fip bs fip' rest :
  eval_extension fip bs = FFrame fip' rest -> cut_frame (fun k => eval_extension fip (take k bs)) (length bs) fip' rest.
Proof.
  unfold eval_extension. destruct (eval _ bs) as [[[changes crc]|] rest1| | |] eqn:He; try done. intros Hp%eval_payload_cut. apply eval_cut in He.
  eapply (cut_frame_then _ (fun o b => match o with Some (c, r) => eval_payload (with_extension c r fip) b | None => FInvalid end)); [exact He|exact Hp|..];
    intros k; [by intros ->|by intros b ->].
Qed.
Lemma eval_header_cut v2 crc fip bs fip' rest :
  eval_header v2 crc fip bs = FFrame fip' rest -> cut_frame (fun k => eval_header v2 crc fip (take k bs)) (length bs) fip' rest.
Proof.
  unfold eval_header. destruct (eval _ bs) as [[h|] rest1| | |] eqn:He; try done. apply eval_cut in He. cbv zeta. intros Hf.
  eapply (cut_frame_then _ (fun o b => match o with
    | Some h => match phase (with_header h fip) with ExtensionBlock => eval_extension (with_header h fip) b | _ => eval_payload (with_header h fip) b end
    | None => FInvalid end)); [exact He| |..]; [|intros k; by intros ->|intros k b; by intros ->].
  revert Hf. cbv beta iota. destruct (phase (with_header h fip)); [apply eval_payload_cut|apply eval_extension_cut|apply eval_payload_cut..].
Qed.
(** No proper prefix of a valid frame is taken for anything but the end of the log; the bytes
    behind it do not matter. *)
Lemma parse_frame_cut v2 crc bs fip rest :
  parse_frame v2 crc bs = FFrame fip rest -> cut_frame (fun k => parse_frame v2 crc (take k bs)) (length bs) fip rest.
Proof.
  intros Hf. assert (Hmin := parse_frame_min _ _ _ _ _ Hf). revert Hf. unfold parse_frame. destruct (len bs <? TX_MIN_FRAME_SIZE); [done|].
  unfold eval_frame. cbn [phase FrameInProgress_new].
  intros [Hl Hh]%eval_header_cut. split; [done|]. intros k. rewrite Hh.
  destruct (Z.ltb_spec (len (take k bs)) TX_MIN_FRAME_SIZE) as [Hs|]; [|done]. unfold len, TX_MIN_FRAME_SIZE in Hs. rewrite length_take in Hs.
  by destruct (Nat.ltb_spec k (length bs - length rest)); [|lia].
Qed.

(** ** Whole logs *)

Fixpoint log_bytes (crc : Z) (txs : list Tx) : list Z :=
  match txs with [] => [] | tx :: txs => frame_bytes crc tx ++ log_bytes (tx_crc crc tx) txs end.
Fixpoint log_crc (crc : Z) (txs : list Tx) : Z := match txs with [] => crc | tx :: txs => log_crc (tx_crc crc tx) txs end.
(** The frames recovery is given: transactions without operations are skipped. *)
Definition replayed (txs : list Tx) : list (list ParsedOp) := filter (fun ops => ops <> []) (map parsed_tx txs).
Lemma replayed_cons tx txs : replayed (tx :: txs) = match parsed_tx tx with [] => replayed txs | ops => ops :: replayed txs end.
Proof. unfold replayed. cbn [map]. rewrite filter_cons. destruct (parsed_tx tx); by case_decide. Qed.
Lemma log_crc_u32 crc txs : is_u 32 crc -> is_u 32 (log_crc crc txs).
Proof. revert crc. induction txs as [|tx txs IH]; intros crc Hc; [done|]. by apply IH, tx_crc_u32. Qed.
Lemma logged_bytes_app crc txs txs' : log_bytes crc (txs ++ txs') = log_bytes crc txs ++ log_bytes (log_crc crc txs) txs'.
Proof. revert crc. induction txs as [|tx txs IH]; intros crc; [done|]. cbn. by rewrite IH, app_assoc. Qed.
Lemma log_crc_app crc txs txs' : log_crc crc (txs ++ txs') = log_crc (log_crc crc txs) txs'.
Proof. revert crc. induction txs as [|tx txs IH]; intros crc; [done|]. cbn. by rewrite IH. Qed.
(** The logged transactions are read back first, then what follows them. *)
Lemma log_of_bytes v2 crc txs tail :
  Forall tx_ok txs -> is_u 32 crc ->
  log_of v2 crc (log_bytes crc txs ++ tail) =
    let '(frames, crc', rest) := log_of v2 (log_crc crc txs) tail in (replayed txs ++ frames, crc', rest).
Proof.
  revert crc. induction txs as [|tx txs IH]; intros crc Hok Hc; [cbn [log_bytes log_crc app]; by destruct (log_of v2 crc tail) as [[? ?] ?]|].
  inversion Hok as [|? ? Htx Htxs]; subst. cbn [log_bytes log_crc]. rewrite <- app_assoc, log_of_eq.
  destruct (parse_frame_bytes v2 crc tx (log_bytes (tx_crc crc tx) txs ++ tail) Htx Hc) as (fip & Hp & Hops & Hcr).
  rewrite Hp, Hcr, IH by (done || by apply tx_crc_u32). destruct (log_of v2 _ tail) as [[frames crc'] rest]. unfold add_frame. rewrite Hops, replayed_cons.
  by destruct (parsed_tx tx).
Qed.
Lemma log_of_nil v2 crc : log_of v2 crc [] = ([], crc, []).
Proof. by rewrite log_of_eq. Qed.
(** A proper prefix of one more frame adds nothing. *)
Lemma log_of_torn v2 crc tx k :
  tx_ok tx -> is_u 32 crc -> (k < length (frame_bytes crc tx))%nat ->
  log_of v2 crc (take k (frame_bytes crc tx)) = ([], crc, take k (frame_bytes crc tx)).
Proof.
  intros Htx Hc Hk. destruct (parse_frame_bytes v2 crc tx [] Htx Hc) as (fip & Hp & _). rewrite app_nil_r in Hp.
  apply parse_frame_cut in Hp as [_ Hp]. rewrite log_of_eq, Hp. change (length []) with 0%nat. rewrite Nat.sub_0_r.
  by destruct (Nat.ltb_spec k (length (frame_bytes crc tx))); [|lia].
Qed.
End replay.
