(* ===== verification/LogWriter.v ===== *)
(** The writer of the logical log: the record of a transaction is framed as the parser expects
    it, and the invariant that ties the log in memory to its file is kept by what is written
    behind the offset. *)

From stdpp Require Import base list numbers.
From Stdlib Require Import ZArith Lia.
From S2P Require Import Prelude Varint DbHeader LogicalLog LogReader LogParse LogStream LogReplay.

(** * Bytes behind a valid log *)

Lemma eval_more {A} (m : unit_prog A) bs a rest more : eval m bs = Got a rest -> eval m (bs ++ more) = Got a (rest ++ more).
Proof.
  revert bs. induction m as [a'|e| |n k IH]; intros bs He; cbn in *; simplify_eq; [done|].
  destruct (Z.ltb_spec (len bs) n) as [|Hn]; [done|]. rewrite len_app. destruct (Z.ltb_spec (len bs + len more) n); [pose proof (len_nonneg more); lia|].
  unfold len in *. rewrite take_app_le, drop_app_le by lia. by apply IH.
Qed.

Section writer.
Context `{Crc32cLaws}.

Lemma eval_ops_more fuel fip bs fip' rest more :
  eval_ops fuel fip bs = Got fip' rest -> eval_ops fuel fip (bs ++ more) = Got fip' (rest ++ more).
Proof.
  revert fip bs. induction fuel as [|fuel IH]; intros fip bs He; [done|]. cbn [eval_ops] in *. destruct (_ <=? _).
  { destruct (_ =? _); by simplify_eq. }
  destruct (eval _ bs) as [[[op crc] n] rest1| | |] eqn:He1; try done. rewrite (eval_more _ _ _ _ more He1). by apply IH.
Qed.
Lemma eval_trailer_more fip bs fip' rest more : eval_trailer fip bs = FFrame fip' rest -> eval_trailer fip (bs ++ more) = FFrame fip' (rest ++ more).
Proof.
  unfold eval_trailer. destruct (eval _ bs) as [[] rest1| | |] eqn:He; intros ?; simplify_eq. by rewrite (eval_more _ _ _ _ more He).
Qed.
Lemma eval_payload_more fip bs fip' rest more : eval_payload fip bs = FFrame fip' rest -> eval_payload fip (bs ++ more) = FFrame fip' (rest ++ more).
Proof.
  unfold eval_payload. destruct (eval_ops _ fip bs) as [fip1 rest1| |[]|] eqn:He; try done.
  rewrite (eval_ops_fuel _ (S (length (bs ++ more)))) in He by (rewrite ?length_app; lia).
  rewrite (eval_ops_more _ _ _ _ _ more He). apply eval_trailer_more.
Qed.
Lemma eval_extension_more fip bs fip' rest more : eval_extension fip bs = FFrame fip' rest -> eval_extension fip (bs ++ more) = FFrame fip' (rest ++ more).
Proof.
  unfold eval_extension. destruct (eval _ bs) as [[[changes crc]|] rest1| | |] eqn:He; try done. rewrite (eval_more _ _ _ _ more He).
  apply eval_payload_more.
Qed.
Lemma parse_frame_more v2 crc bs fip rest more : parse_frame v2 crc bs = FFrame fip rest -> parse_frame v2 crc (bs ++ more) = FFrame fip (rest ++ more).
Proof.
  unfold parse_frame. rewrite len_app. destruct (Z.ltb_spec (len bs) TX_MIN_FRAME_SIZE); [done|].
  destruct (Z.ltb_spec (len bs + len more) TX_MIN_FRAME_SIZE); [pose proof (len_nonneg more); lia|]. unfold eval_frame. cbn [phase FrameInProgress_new].
  unfold eval_header. destruct (eval _ bs) as [[h|] rest1| | |] eqn:He; try done. rewrite (eval_more _ _ _ _ more He). cbv zeta.
  destruct (phase _); first [apply eval_extension_more | apply eval_payload_more].
Qed.
(** What a frame leaves is the end of what it was given. *)
Lemma parse_frame_drop v2 crc bs fip rest : parse_frame v2 crc bs = FFrame fip rest -> rest = drop (length bs - length rest) bs.
Proof.
  intros Hf. assert (Hm := parse_frame_min _ _ _ _ _ Hf). set (n := (length bs - length rest)%nat).
  apply parse_frame_cut in Hf as Hcut. destruct Hcut as [_ Hcut]. specialize (Hcut n). fold n in Hcut.
  rewrite (proj2 (Nat.ltb_ge n n)), Nat.sub_diag in Hcut by lia. cbn [take] in Hcut.
  apply (parse_frame_more _ _ _ _ _ (drop n bs)) in Hcut. rewrite take_drop in Hcut. rewrite app_nil_l in Hcut. congruence.
Qed.
(** A log that is read to its end is read the same before other bytes. *)
Lemma log_of_app v2 crc bs frames crc' more :
  log_of v2 crc bs = (frames, crc', []) ->
  log_of v2 crc (bs ++ more) = let '(frames', crc'', rest) := log_of v2 crc' more in (frames ++ frames', crc'', rest).
Proof.
  revert crc frames. induction bs as [bs IH] using (induction_ltof1 _ (@length Z)); intros crc frames Hl. rewrite log_of_eq in Hl.
  destruct (parse_frame v2 crc bs) as [fip rest| | |] eqn:He.
  2-4: simplify_eq; cbn [app]; by destruct (log_of v2 crc' more) as [[? ?] ?].
  rewrite log_of_eq, (parse_frame_more _ _ _ _ _ more He). apply parse_frame_suffix in He.
  destruct (log_of v2 (fip_crc fip) rest) as [[fs c] r] eqn:Hr. unfold add_frame in Hl. simplify_eq. rewrite (IH rest He _ _ Hr).
  destruct (log_of v2 crc' more) as [[fs' c''] r]. unfold add_frame. by destruct (parsed_ops fip).
Qed.
(** The committed part of a log is read to its end when the bytes behind it are left out. *)
Lemma log_of_rest v2 crc bs frames crc' rest :
  log_of v2 crc bs = (frames, crc', rest) ->
  (length rest <= length bs)%nat /\ log_of v2 crc (take (length bs - length rest) bs) = (frames, crc', []) /\
  drop (length bs - length rest) bs = rest.
Proof.
  revert crc frames. induction bs as [bs IH] using (induction_ltof1 _ (@length Z)); intros crc frames Hl. rewrite log_of_eq in Hl.
  destruct (parse_frame v2 crc bs) as [fip rest1| | |] eqn:He.
  2-4: simplify_eq; rewrite Nat.sub_diag; split_and!; [done|apply log_of_nil|done].
  assert (Hlt := parse_frame_suffix _ _ _ _ _ He). destruct (log_of v2 (fip_crc fip) rest1) as [[fs c] r] eqn:Hr.
  unfold add_frame in Hl. simplify_eq. destruct (IH rest1 Hlt _ _ Hr) as (Hle & Hlog & Hdrop). split; [lia|].
  apply parse_frame_cut in He as Hcut. destruct Hcut as [_ Hcut].
  split.
  - rewrite log_of_eq, Hcut. destruct (Nat.ltb_spec (length bs - length rest) (length bs - length rest1)); [lia|].
    replace (length bs - length rest - (length bs - length rest1))%nat with (length rest1 - length rest)%nat by lia. by rewrite Hlog.
  - assert (Hsuf : rest1 = drop (length bs - length rest1) bs) by by apply parse_frame_drop in He.
    etransitivity; [|exact Hdrop]. rewrite Hsuf at 2. rewrite drop_drop. f_equal. lia.
Qed.

(** * The header of the log *)

Definition hdr_ok (h : LogHeader) : Prop :=
  (lh_version h = LOG_VERSION \/ lh_version h = LOG_VERSION_V2) /\ (lh_flags h = 0 \/ lh_flags h = 1) /\
  lh_hdr_len h = LOG_HDR_SIZE /\ is_u 64 (lh_salt h) /\ lh_reserved h = replicate 36 0.
Definition hdr_crc (h : LogHeader) : Z := crc32c (header_front h ++ replicate 4 0).
Lemma crc32c_u32 bs : is_u 32 (crc32c bs).
Proof. by apply crc32c_append_u32. Qed.
Lemma derive_u32 salt : is_u 32 (derive_initial_crc salt).
Proof. apply crc32c_u32. Qed.
Lemma length_header_front h : hdr_ok h -> length (header_front h) = 52%nat.
Proof. intros (_ & _ & _ & _ & Hr). unfold header_front. by rewrite !length_app, !length_le_bytes, Hr. Qed.
Lemma length_encode_header h : hdr_ok h -> length (encode_header h) = 56%nat.
Proof. intros Hh. unfold encode_header. by rewrite length_app, length_header_front, length_le_bytes. Qed.
Lemma encode_header_bytes h : hdr_ok h -> bytes_ok (encode_header h).
Proof.
  intros (Hv & Hf & Hl & Hs & Hr). unfold encode_header, header_front. rewrite Hr, !bytes_ok_app. split_and!; auto with turso.
  - unfold bytes_ok, is_digit. destruct Hv as [-> | ->], Hf as [-> | ->]; by repeat constructor.
  - by apply Forall_replicate.
Qed.
(** A header that was encoded is decoded, with its checksum. *)
Lemma decode_encode_header h : hdr_ok h -> decode_header (encode_header h) = Ok (set_hdr_crc (hdr_crc h) h).
Proof.
  intros Hh. assert (Hl56 := length_encode_header h Hh). assert (Hl52 := length_header_front h Hh). destruct Hh as (Hv & Hf & Hl & Hs & Hr).
  assert (Hcrc : is_u 32 (hdr_crc h)) by apply crc32c_u32. unfold is_u in Hcrc, Hs.
  assert (H52 : le_at (encode_header h) 52 4 = hdr_crc h).
  { unfold encode_header. rewrite le_at_skip by lia. rewrite Hl52, Nat.sub_diag, <- (app_nil_r (le_bytes _ _)). by apply le_at_field. }
  assert (Ht : take 52 (encode_header h) = header_front h) by (unfold encode_header; by rewrite <- Hl52, take_app_length).
  assert (Hfields : le_at (encode_header h) 0 4 = LOG_MAGIC /\ le_at (encode_header h) 4 1 = lh_version h /\ le_at (encode_header h) 5 1 = lh_flags h /\
    le_at (encode_header h) 6 2 = LOG_HDR_SIZE /\ le_at (encode_header h) 8 8 = lh_salt h /\ take 36 (drop 16 (encode_header h)) = lh_reserved h).
  { unfold encode_header, header_front. rewrite Hl, Hr, <- !app_assoc. split_and!.
    - by apply le_at_field.
    - le_seek. apply le_at_byte.
    - le_seek. unfold le_at. apply le_val_one.
    - le_seek. by apply le_at_field.
    - le_seek. by apply le_at_field.
    - rewrite !drop_app_ge by (rewrite ?length_le_bytes; cbn; lia). rewrite !length_le_bytes. cbn [length Nat.sub drop].
      rewrite drop_0. by rewrite take_app_le by done. }
  destruct Hfields as (Hm & H4 & H5 & H6 & H8 & H16). unfold decode_header. unfold len. rewrite Hl56, H52, Ht, Hm, H4, H5, H6, H8, H16, Hr.
  fold (hdr_crc h). rewrite !Z.eqb_refl. unfold LOG_HDR_SIZE at 1 2. cbn -[Z.eqb Z.land set_hdr_crc].
  assert (Hver : (lh_version h =? LOG_VERSION) || (lh_version h =? LOG_VERSION_V2) = true) by (destruct Hv as [-> | ->]; done).
  assert (Hfl : (Z.land (lh_flags h) 254 =? 0) = true) by (destruct Hf as [-> | ->]; done).
  rewrite Hver, Hfl. cbn. unfold set_hdr_crc. by rewrite Hl, Hr.
Qed.
Lemma header_of_encoded file h :
  hdr_ok h -> take 56 file = encode_header h -> header_of file = Valid (set_hdr_crc (hdr_crc h) h).
Proof.
  intros Hh Ht. assert (Hl : (56 <= length file)%nat).
  { assert (Hl := length_encode_header h Hh). rewrite <- Ht, length_take in Hl. lia. }
  unfold header_of. change (Z.to_nat LOG_HDR_SIZE) with 56%nat. unfold len, LOG_HDR_SIZE.
  destruct (Z.ltb_spec (Z.of_nat (length file)) 56); [lia|]. rewrite Ht. 
  change (forallb (Z.eqb 0) (encode_header h)) with false. by rewrite decode_encode_header.
Qed.

(** * Records *)

Definition log_op (op : LogOp) : ST LogRecord unit :=
  match op with
  | OpRow v ext => serialize_row_version v ext
  | OpHeader h => serialize_database_header h
  end.
Fixpoint log_ops (ops : list LogOp) : ST LogRecord unit :=
  match ops with [] => mret tt | op :: ops => _ ← log_op op; log_ops ops end.
Definition is_header_op (op : LogOp) : bool := match op with OpHeader _ => true | _ => false end.
(** The record of a transaction: its operations are appended one by one. *)
Definition record_of (tx : Tx) : LogRecord :=
  MkLogRecord (tx_ts tx) (replicate 80 0 ++ tx_payload tx) (len (tx_ops tx)) (existsb is_header_op (tx_ops tx)).
Lemma log_op_eq op ts buf n (has : bool) :
  op_ok op -> n + 1 < 2 ^ 32 -> is_header_op op && has = false ->
  log_op op (MkLogRecord ts buf n has) = (Ok tt, MkLogRecord ts (buf ++ op_bytes op) (n + 1) (is_header_op op || has)).
Proof.
  intros Hok Hn Hh. destruct op as [v ext|h]; cbn [log_op is_header_op andb orb] in *.
  - unfold serialize_row_version, mbind, ST_bind, sget, slift. cbn [lr_buf]. rewrite serialize_op_entry_eq by done.
    unfold smodify, count_op, mbind, ST_bind, sget, set_lr_buf. cbn [op_count]. destruct (Z.ltb_spec (n + 1) (2 ^ 32)); [done|lia].
  - subst has. unfold serialize_database_header, mbind, ST_bind, sget, sassert, slift. cbn [lr_buf has_header negb rassert].
    rewrite serialize_header_entry_eq by done.
    unfold smodify, count_op, mbind, ST_bind, sget, set_lr_buf. cbn [op_count]. destruct (Z.ltb_spec (n + 1) (2 ^ 32)); [done|lia].
Qed.
(** At most one operation of the transaction updates the header. *)
Definition one_header (ops : list LogOp) : Prop := (length (filter (fun op : LogOp => is_header_op op = true) ops) <= 1)%nat.
Lemma log_ops_eq ops ts buf n (has : bool) :
  Forall op_ok ops -> n + len ops < 2 ^ 32 -> (length (filter (fun op : LogOp => is_header_op op = true) ops) + (if has then 1 else 0) <= 1)%nat ->
  log_ops ops (MkLogRecord ts buf n has) =
    (Ok tt, MkLogRecord ts (buf ++ concat (map op_bytes ops)) (n + len ops) (has || existsb is_header_op ops)).
Proof.
  revert buf n has. induction ops as [|op ops IH]; intros buf n has Hok Hn Hh; cbn [log_ops map concat existsb].
  { rewrite app_nil_r, orb_false_r. unfold len. cbn. by rewrite Z.add_0_r. }
  inversion Hok as [|? ? Hop Hops]; subst. assert (Hl : len (op :: ops) = 1 + len ops) by (unfold len; cbn; lia). rewrite Hl in *.
  pose proof (len_nonneg ops). rewrite filter_cons in Hh. unfold mbind, ST_bind. rewrite log_op_eq; [|done|lia|].
  - rewrite IH; [|done|lia|].
    + rewrite <- app_assoc. do 2 f_equal; [lia|]. by destruct (is_header_op op), has.
    + destruct (is_header_op op), has; cbn in *; try lia; case_decide; cbn in *; try done; lia.
  - destruct (is_header_op op), has; try done. cbn in *. case_decide; cbn in *; [lia|done].
Qed.
Lemma record_built tx :
  tx_ok tx -> one_header (tx_ops tx) -> log_ops (tx_ops tx) (LogRecord_new (tx_ts tx)) = (Ok tt, record_of tx).
Proof.
  intros (Hops & Hn & _) Hone. unfold LogRecord_new. unfold is_u in Hn. rewrite log_ops_eq; [|done|lia|unfold one_header in Hone; lia]. done.
Qed.

Lemma op_bytes_ok op : op_ok op -> bytes_ok (op_bytes op).
Proof.
  assert (He : forall tag flags id payload ext, is_u 8 tag -> is_u 8 flags -> bytes_ok payload -> bytes_ok ext -> bytes_ok (entry tag flags id payload ext)).
  { intros tag flags id payload ext Ht Hf Hp He. unfold entry. rewrite !bytes_ok_app. split_and!; auto using venc_bytes_ok with turso.
    by repeat apply Forall_cons_2. }
  destruct op as [v ext|h]; cbn [op_ok op_bytes].
  - intros (_ & _ & _ & _ & _ & Hp & Hx & _). apply He.
    + unfold tag_of. by destruct (lv_key v), (lv_deleted v).
    + unfold op_flags. by destruct (lv_btree_resident v), ext as [[|b bs]|].
    + unfold payload_of. destruct (lv_key v), (lv_deleted v); rewrite ?bytes_ok_app; auto using venc_bytes_ok.
    + unfold ext_bytes. destruct ext as [[|b bs]|]; [done| |done]. apply bytes_ok_app. auto using venc_bytes_ok.
  - intros [Hh _]. apply He; [done|done|by apply DatabaseHeader_bytes_ok|constructor].
Qed.
Lemma frame_bytes_ok crc tx : tx_ok tx -> bytes_ok (frame_bytes crc tx).
Proof.
  intros [Hops _]. unfold frame_bytes, tx_head, tx_trailer. rewrite !bytes_ok_app. split_and!; auto with turso. unfold tx_payload.
  induction Hops as [|op ops Hop _ IH]; [constructor|]. cbn. apply bytes_ok_app. split; [by apply op_bytes_ok|done].
Qed.

(** * Framing *)

Lemma backfill_eq tx : backfill_tx_header (len (tx_payload tx)) (record_of tx) = Ok (replicate 56 0 ++ tx_head tx ++ tx_payload tx).
Proof.
  unfold backfill_tx_header, record_of. cbn [lr_buf op_count tx_timestamp].
  change (replicate 80 0) with (replicate 56 0 ++ replicate 4 0 ++ replicate 8 0 ++ replicate 4 0 ++ replicate 8 0). rewrite <- !app_assoc.
  unfold tx_head. rewrite <- !app_assoc.
  repeat (eapply bind_step; [repeat (eapply write_skip; [first [reflexivity | apply len_le_bytes] | by vm_compute |]; simpl Z.sub);
    apply write_hit; by rewrite len_le_bytes|]).
  repeat (eapply write_skip; [first [reflexivity | apply len_le_bytes] | by vm_compute |]; simpl Z.sub).
  apply write_hit; by rewrite len_le_bytes.
Qed.

Definition fresh_header (random : Z) : LogHeader := MkLogHeader LOG_VERSION_V2 0 LOG_HDR_SIZE (wrap 64 random) 0 (replicate 36 0).
(** The log with a header, and the bytes it writes for a transaction. *)
Definition with_hdr (random : Z) (l : LogicalLog) : LogicalLog :=
  match ll_header l with
  | None => if ll_offset l =? 0 then set_header (fresh_header random) l else l
  | Some _ => l
  end.
Definition noted (ts : Z) (l : LogicalLog) : LogicalLog := set_ll_max_ts (Z.max (ll_max_appended_commit_ts l) ts) l.
Definition opening (l : LogicalLog) : list Z :=
  if ll_offset l =? 0 then match ll_header l with Some h => encode_header h | None => [] end else [].
Definition data_of (l : LogicalLog) (tx : Tx) : list Z := opening l ++ frame_bytes (ll_running_crc l) tx.
Lemma ensure_header_eq random l : ensure_header random l = (Ok tt, with_hdr random l).
Proof.
  unfold ensure_header, with_hdr, mbind, ST_bind, sget, slift, new_with_version. destruct (ll_header l); [done|]. by destruct (ll_offset l =? 0).
Qed.
Lemma opening_filled l tx crc :
  (ll_offset l = 0 -> exists h, ll_header l = Some h /\ hdr_ok h) ->
  exists buf, fill_log_header (ll_offset l =? 0) (ll_header l) (serialize_tx_trailer crc (replicate 56 0 ++ tx_head tx ++ tx_payload tx)) = Ok buf /\
    (if ll_offset l =? 0 then buf else drop 56 buf) = opening l ++ tx_head tx ++ tx_payload tx ++ tx_trailer crc.
Proof.
  intros Hh. unfold fill_log_header, serialize_tx_trailer, opening. fold (tx_trailer crc). rewrite <- !app_assoc.
  destruct (Z.eqb_spec (ll_offset l) 0) as [Ho|Ho].
  - destruct (Hh Ho) as (h & -> & Hok). eexists. split; [apply write_hit; unfold len; by rewrite length_encode_header|done].
  - eexists. split; [done|]. by rewrite drop_app_ge by (by rewrite length_replicate).
Qed.
Lemma frame_and_pwrite_eq random observer wrote tx adv l :
  let l1 := with_hdr random (noted (tx_ts tx) l) in
  let data := data_of l1 tx in
  let crc := tx_crc (ll_running_crc l1) tx in
  let l2 k := set_ll_file (fun file => pwrite file (ll_offset l1) (take k data)) l1 in
  (ll_offset l1 = 0 -> exists h, ll_header l1 = Some h /\ hdr_ok h) ->
  frame_and_pwrite_tx random observer wrote (record_of tx) adv l =
    match observer, wrote with
    | Some e, _ => (Err e, l1)
    | None, None => (Err IOError, l1)
    | None, Some k =>
        if adv then
          if ll_offset l1 + len data <? 2 ^ 64 then (Ok (len data), set_ll_crc crc (set_ll_offset (ll_offset l1 + len data) (l2 k)))
          else (Panic, l2 k)
        else (Ok (len data), set_ll_pending (Some crc) (l2 k))
    end.
Proof.
  intros l1 data crc l2 Hh. unfold frame_and_pwrite_tx.
  assert (Hps : usub (E:=LimboError) (len (lr_buf (record_of tx))) LOG_RECORD_PREFIX_SIZE = Ok (len (tx_payload tx))).
  { unfold usub, record_of. cbn [lr_buf]. rewrite len_app. change (len (replicate 80 0)) with 80. unfold LOG_RECORD_PREFIX_SIZE, LOG_HDR_SIZE, TX_HEADER_SIZE.
    pose proof (len_nonneg (tx_payload tx)). destruct (Z.leb_spec (56 + 24) (80 + len (tx_payload tx))); [f_equal; lia|lia]. }
  unfold mbind, ST_bind, smodify, sget, slift. rewrite Hps. cbn [tx_timestamp record_of].
  change (set_ll_max_ts (Z.max (ll_max_appended_commit_ts l) (tx_ts tx)) l) with (noted (tx_ts tx) l).
  rewrite ensure_header_eq. fold l1. rewrite backfill_eq. change (Z.to_nat LOG_HDR_SIZE) with 56%nat.
  rewrite (drop_app_length' (replicate 56 0)) by (by rewrite length_replicate). fold (tx_crc (ll_running_crc l1) tx). fold crc.
  destruct (opening_filled l1 tx crc Hh) as (buf & Hf & Hd). rewrite Hf. 
  assert (Hdata : (if ll_offset l1 =? 0 then buf else drop 56 buf) = data) by exact Hd. rewrite Hdata.
  destruct observer as [e|]; [done|]. unfold mret, ST_ret, pwritten. destruct wrote as [k|]; [|done].
  unfold smodify. fold (l2 k). destruct adv; [|done]. unfold uadd. by destruct (_ <? _).
Qed.

(** * The log and its file *)

Definition seed (h : LogHeader) : Z := derive_initial_crc (lh_salt h).
Definition is_version2 (h : LogHeader) : bool := lh_version h =? LOG_VERSION_V2.
(** The bytes of the file up to the offset, without the header. *)
Definition committed_part (l : LogicalLog) : list Z := drop 56 (take (Z.to_nat (ll_offset l)) (ll_file l)).
(** The file begins with the header, or it is too short to have one. *)
Definition begins (h : LogHeader) (file : list Z) : Prop := len file < 56 \/ take 56 file = encode_header h.
Definition log_inv (l : LogicalLog) (frames : list (list ParsedOp)) : Prop :=
  bytes_ok (ll_file l) /\
  match ll_header l with
  | None => ll_offset l = 0 /\ frames = [] /\ len (ll_file l) < 56
  | Some h =>
      hdr_ok h /\
      (ll_offset l = 0 /\ frames = [] /\ ll_running_crc l = seed h /\ begins h (ll_file l) \/
       56 <= ll_offset l <= len (ll_file l) /\ take 56 (ll_file l) = encode_header h /\ is_u 32 (ll_running_crc l) /\
       log_of (is_version2 h) (seed h) (committed_part l) = (frames, ll_running_crc l, []))
  end.

Lemma pwrite_eq file off data :
  0 <= off <= len file -> pwrite file off data = take (Z.to_nat off) file ++ data ++ drop (Z.to_nat off + length data) file.
Proof.
  intros Ho. unfold pwrite, len in *. replace (Z.to_nat off - length file)%nat with 0%nat by lia. cbn [replicate]. by rewrite app_nil_r.
Qed.
Lemma pwrite_ok file off data : bytes_ok file -> bytes_ok data -> 0 <= off <= len file -> bytes_ok (pwrite file off data).
Proof. intros. rewrite pwrite_eq, !bytes_ok_app by done. auto with turso. Qed.
Lemma len_pwrite file off data : 0 <= off <= len file -> len (pwrite file off data) = Z.max (len file) (off + len data).
Proof. intros. rewrite pwrite_eq by done. unfold len in *. rewrite !length_app, length_take, length_drop. lia. Qed.
Lemma take_pwrite file off data n : 0 <= off <= len file -> (n <= Z.to_nat off)%nat -> take n (pwrite file off data) = take n file.
Proof.
  intros Ho Hn. rewrite pwrite_eq, take_app_le by (done || rewrite length_take; unfold len in *; lia). by rewrite take_take, Nat.min_l.
Qed.
Lemma pwrite_0 file data : pwrite file 0 data = data ++ drop (length data) file.
Proof. rewrite pwrite_eq by (pose proof (len_nonneg file); lia). done. Qed.
(** Writing the beginning of the header, or all of it and more, at the start of a file. *)
Lemma begins_pwrite h file k more :
  hdr_ok h -> begins h file -> begins h (pwrite file 0 (take k (encode_header h ++ more))).
Proof.
  intros Hh Hb. assert (Hl := length_encode_header h Hh). unfold begins. rewrite len_pwrite by (pose proof (len_nonneg file); lia).
  destruct (Nat.le_gt_cases 56 k) as [Hk|Hk].
  - right. rewrite pwrite_0.
    rewrite (take_app_le (take k _)) by (rewrite length_take, length_app; lia). rewrite take_take, Nat.min_l, take_app_le by lia.
    by rewrite <- Hl, firstn_all.
  - assert (Ht : take k (encode_header h ++ more) = take k (encode_header h)) by (rewrite take_app_le by lia; done). rewrite Ht.
    assert (Hlk : length (take k (encode_header h)) = k) by (rewrite length_take; lia).
    destruct Hb as [Hb|Hb]; [left; unfold len in *; lia|right]. rewrite pwrite_0.
    rewrite Hlk, <- Hb, take_take, Nat.min_l by lia.
    assert (56 <= length file)%nat by (rewrite <- Hl, <- Hb, length_take; lia).
    rewrite take_app_ge by (rewrite length_take; lia). rewrite length_take, Nat.min_l by lia.
    rewrite <- (take_drop k (take 56 file)) , take_take, Nat.min_l, skipn_firstn_comm by lia. done.
Qed.

Lemma fresh_header_ok random : hdr_ok (fresh_header random).
Proof. split_and!; try done; [by right|by left|by apply (wrap_is_u 64)..]. Qed.
Lemma with_hdr_inv random l frames :
  log_inv l frames -> log_inv (with_hdr random l) frames /\ exists h, ll_header (with_hdr random l) = Some h /\ hdr_ok h.
Proof.
  intros [Hb Hl]. unfold with_hdr. destruct (ll_header l) as [h|] eqn:Hh.
  - split; [split; [done|by rewrite Hh]|]. exists h. split; [done|apply Hl].
  - destruct Hl as (Ho & -> & Hlen). rewrite Ho, Z.eqb_refl. split; [|by exists (fresh_header random); split; [|apply fresh_header_ok]].
    split; [done|]. cbn. split; [apply fresh_header_ok|]. left. split_and!; try done. by left.
Qed.
Lemma offset_in_file l frames : log_inv l frames -> 0 <= ll_offset l <= len (ll_file l).
Proof.
  intros [_ Hl]. pose proof (len_nonneg (ll_file l)). destruct (ll_header l); [destruct Hl as [_ [Hl|Hl]]; lia|lia].
Qed.
(** Bytes written behind the offset do not change what is committed. *)
Lemma written_inv l frames tx k :
  log_inv l frames -> (exists h, ll_header l = Some h /\ hdr_ok h) -> tx_ok tx ->
  log_inv (set_ll_file (fun file => pwrite file (ll_offset l) (take k (data_of l tx))) l) frames.
Proof.
  intros Hinv (h & Hh & Hok) Htx. assert (Hoff := offset_in_file l frames Hinv). destruct Hinv as [Hb Hl]. rewrite Hh in Hl. destruct Hl as [_ Hl].
  assert (Hdata : bytes_ok (data_of l tx)).
  { unfold data_of, opening. rewrite Hh. apply bytes_ok_app. split; [|by apply frame_bytes_ok].
    destruct (_ =? _); [by apply encode_header_bytes|constructor]. }
  split; [apply pwrite_ok; auto with turso|]. cbn [ll_header set_ll_file]. rewrite Hh. split; [done|].
  destruct Hl as [(Ho & Hf & Hc & Hbe) | (Ho & Ht & Hc & Hlog)].
  - left. split_and!; try done. cbn [ll_file set_ll_file]. unfold data_of, opening. rewrite Ho, Hh. cbn [Z.eqb]. by apply begins_pwrite.
  - right. cbn [ll_offset ll_file ll_running_crc set_ll_file]. rewrite len_pwrite by done. split_and!; try done; try lia.
    + rewrite take_pwrite by lia. done.
    + unfold committed_part. cbn [ll_offset ll_file set_ll_file]. by rewrite take_pwrite by lia.
Qed.
Lemma frame_log v2 c tx : tx_ok tx -> is_u 32 c -> log_of v2 c (frame_bytes c tx) = (replayed [tx], tx_crc c tx, []).
Proof.
  intros Htx Hc. assert (Hlb := log_of_bytes v2 c [tx] []). cbn [log_bytes log_crc] in Hlb. rewrite !app_nil_r in Hlb.
  rewrite Hlb by (done || by constructor). rewrite log_of_nil. by rewrite app_nil_r.
Qed.
Lemma take_56 n (file : list Z) : (56 <= n)%nat -> take 56 (take n file) = take 56 file.
Proof. intros. by rewrite take_take, Nat.min_l. Qed.
(** [data] is in the file behind the offset, and what is before it has not changed. *)
Definition appended (l : LogicalLog) (data file : list Z) : Prop :=
  take (Z.to_nat (ll_offset l)) file = take (Z.to_nat (ll_offset l)) (ll_file l) /\
  take (length data) (drop (Z.to_nat (ll_offset l)) file) = data.
Lemma appended_take l data file n :
  appended l data file -> 0 <= ll_offset l <= len (ll_file l) -> n = ll_offset l + len data ->
  take (Z.to_nat n) file = take (Z.to_nat (ll_offset l)) (ll_file l) ++ data /\ n <= len file.
Proof.
  intros [Hpre Hdata] Ho ->. unfold len in *. split.
  - replace (Z.to_nat (ll_offset l + Z.of_nat (length data))) with (Z.to_nat (ll_offset l) + length data)%nat by lia.
    rewrite <- take_take_drop. by rewrite Hpre, Hdata.
  - assert (Hx := f_equal length Hdata). rewrite length_take, length_drop in Hx. assert (Hy := f_equal length Hpre). rewrite !length_take in Hy. lia.
Qed.
(** A frame that is in the file behind the offset becomes part of the log. *)
Lemma appended_inv l l' frames tx :
  log_inv l frames -> (exists h, ll_header l = Some h /\ hdr_ok h) -> tx_ok tx -> bytes_ok (ll_file l') -> ll_header l' = ll_header l ->
  appended l (data_of l tx) (ll_file l') ->
  ll_offset l' = ll_offset l + len (data_of l tx) -> ll_running_crc l' = tx_crc (ll_running_crc l) tx ->
  log_inv l' (frames ++ replayed [tx]).
Proof.
  intros Hinv (h & Hh & Hok) Htx Hb' Hh' Happ Hoff' Hcrc'. assert (Hoff := offset_in_file l frames Hinv).
  destruct (appended_take l _ _ _ Happ Hoff Hoff') as [Htake Hlen']. pose proof (length_encode_header h Hok) as Hle.
  destruct Hinv as [Hb Hl]. rewrite Hh in Hl. destruct Hl as [_ Hl]. split; [done|]. rewrite Hh', Hh. split; [done|]. right.
  unfold committed_part. rewrite Htake, Hcrc'. destruct Hl as [(Ho & -> & Hc & Hbe) | (Ho & Ht & Hc & Hlog)].
  - assert (Hd : data_of l tx = encode_header h ++ frame_bytes (seed h) tx) by (unfold data_of, opening; by rewrite Ho, Hh, Hc).
    rewrite Ho, Hd in *. change (take (Z.to_nat 0) (ll_file l)) with (@nil Z) in *. cbn [app] in *. rewrite Hc.
    assert (Hl56 : 56 <= ll_offset l') by (rewrite Hoff', len_app; unfold len; rewrite Hle; lia).
    split_and!; [done|done| |apply tx_crc_u32, derive_u32..|].
    + rewrite <- (take_56 (Z.to_nat (ll_offset l'))) by lia. rewrite Htake, take_app_le by lia. by rewrite <- Hle, firstn_all.
    + rewrite <- Hle at 1. rewrite drop_app_length. apply frame_log; [done|apply derive_u32].
  - assert (Hd : data_of l tx = frame_bytes (ll_running_crc l) tx) by (unfold data_of, opening; destruct (Z.eqb_spec (ll_offset l) 0); [lia|done]).
    assert (Hlo : length (take (Z.to_nat (ll_offset l)) (ll_file l)) = Z.to_nat (ll_offset l)) by (rewrite length_take; unfold len in *; lia).
    split_and!; [rewrite Hoff'; unfold len; lia|done| |by apply tx_crc_u32..|].
    + rewrite <- (take_56 (Z.to_nat (ll_offset l'))) by (rewrite Hoff'; unfold len; lia). rewrite Htake, take_app_le by lia. by rewrite take_56 by lia.
    + rewrite drop_app_le by lia. fold (committed_part l). rewrite (log_of_app _ _ _ _ _ _ Hlog), Hd, frame_log by done. done.
Qed.
End writer.
