(* ===== verification/Crc32cRef.v ===== *)
(** A CRC-32C that satisfies what the log relies on: the reflected polynomial, bit by bit.  The
    crate the program calls is not part of the sources; this instance shows that the laws
    can be met, and it lets concrete logs be evaluated. *)

From stdpp Require Import base list numbers.
From Stdlib Require Import ZArith Lia.
From S2P Require Import Prelude LogicalLog.

Definition CASTAGNOLI : Z := 0x82F63B78.
Definition crc_bit (c : Z) : Z := let half := Z.shiftr c 1 in if Z.odd c then Z.lxor half CASTAGNOLI else half.
Definition crc_byte (c b : Z) : Z := Nat.iter 8 crc_bit (Z.lxor c (wrap 8 b)).
Definition crc_flip (c : Z) : Z := Z.lxor c 0xFFFFFFFF.
Definition crc32c_bitwise : Crc32c := {| crc32c_append crc a := crc_flip (fold_left crc_byte a (crc_flip crc)) |}.

Lemma crc_flip_twice c : crc_flip (crc_flip c) = c.
Proof. unfold crc_flip. by rewrite Z.lxor_assoc, Z.lxor_nilpotent, Z.lxor_0_r. Qed.
Lemma lxor_is_u w a b : 0 <= w -> is_u w a -> is_u w b -> is_u w (Z.lxor a b).
Proof.
  intros Hw Ha Hb. rewrite <- (wrap_small w a Ha), <- (wrap_small w b Hb). unfold wrap.
  assert (Hx : Z.lxor (a mod 2 ^ w) (b mod 2 ^ w) = (Z.lxor a b) mod 2 ^ w).
  { rewrite <- !Z.land_ones by done. apply Z.bits_inj'. intros n _. rewrite Z.lxor_spec, !Z.land_spec, Z.lxor_spec. by destruct (Z.testbit (Z.ones w) n), (Z.testbit a n), (Z.testbit b n). }
  rewrite Hx. by apply (wrap_is_u w).
Qed.
Lemma crc_bit_u32 c : is_u 32 c -> is_u 32 (crc_bit c).
Proof.
  intros Hc. assert (Hh : is_u 32 (Z.shiftr c 1)).
  { rewrite Z.shiftr_div_pow2 by lia. unfold is_u in *. split; [apply Z.div_pos; lia|]. apply Z.div_lt_upper_bound; lia. }
  unfold crc_bit. destruct (Z.odd c); [|done]. by apply lxor_is_u.
Qed.
Lemma crc_byte_u32 c b : is_u 32 c -> is_u 32 (crc_byte c b).
Proof.
  intros Hc. unfold crc_byte. assert (Hb := wrap_is_u 8 b ltac:(lia)). apply Nat.iter_invariant; [intros; by apply crc_bit_u32|].
  apply lxor_is_u; [lia|done|]. unfold is_u in *. lia.
Qed.
Lemma crc32c_bitwise_laws : @Crc32cLaws crc32c_bitwise.
Proof.
  split.
  - intros crc. apply crc_flip_twice.
  - intros crc a b. cbn. by rewrite crc_flip_twice, fold_left_app.
  - intros crc a Hc. cbn. apply lxor_is_u; [lia| |done]. assert (Hf : is_u 32 (crc_flip crc)) by by apply lxor_is_u.
    revert Hf. generalize (crc_flip crc). induction a as [|x a IH]; intros c Hx; [done|]. by apply IH, crc_byte_u32.
Qed.

(** The check value of CRC-32C: the checksum of the digits 1 to 9. *)
Example crc32c_check_value : @crc32c crc32c_bitwise [49; 50; 51; 52; 53; 54; 55; 56; 57] = 0xE3069283.
Proof. vm_compute. reflexivity. Qed.
