(* ===== verification/LogSafety.v ===== *)
(** What the logical log promises.  A step relation has the calls on the log and the crashes
    between them; by rule induction the log in memory and the file stay in step, so recovery
    always gives back the committed transactions, in order and before anything else. *)

From stdpp Require Import base list numbers.
From Stdlib Require Import ZArith Lia.
From S2P Require Import Prelude Varint DbHeader LogicalLog LogReader LogParse LogStream LogReplay LogWriter Crc32cRef.

Section log.
Context `{Crc32cLaws}.

(** * The checksum of a log that was read *)

Lemma eval_bytes {A} (m : unit_prog A) bs a rest : eval m bs = Got a rest -> bytes_ok bs -> bytes_ok rest.
Proof.
  revert bs. induction m as [a'|e| |n k IH]; intros bs He Hb; cbn in *; simplify_eq; [done|]. destruct (_ <? _); [done|].
  eapply IH; [done|]. by apply bytes_ok_drop.
Qed.
Lemma eval_ops_ok fuel fip bs fip' rest : eval_ops fuel fip bs = Got fip' rest -> bytes_ok bs -> bytes_ok rest.
Proof.
  revert fip bs. induction fuel as [|fuel IH]; intros fip bs He Hb; [done|]. cbn [eval_ops] in He. destruct (_ <=? _).
  { destruct (_ =? _); by simplify_eq. }
  destruct (eval _ bs) as [[[op crc] n] rest1| | |] eqn:He1; try done. eapply IH, eval_bytes; done.
Qed.
Lemma eval_trailer_crc fip bs fip' rest : eval_trailer fip bs = FFrame fip' rest -> bytes_ok bs -> bytes_ok rest /\ is_u 32 (fip_crc fip').
Proof.
  unfold eval_trailer. destruct (eval _ bs) as [[] rest1| | |] eqn:He; intros Hx Hb; simplify_eq. split; [by eapply eval_bytes|].
  revert He. unfold parse_trailer. cbn -[Z.ltb take drop le_at]. destruct (_ <? _); [done|]. intros [= Hcrc _]. apply andb_true_iff in Hcrc as [Hcrc%Z.eqb_eq _].
  rewrite <- Hcrc. unfold le_at, le_val. set (bs4 := take 4 _).
  assert (Hbt : bytes_ok (reverse bs4)) by (by apply Forall_reverse, bytes_ok_take, bytes_ok_drop, bytes_ok_take).
  pose proof (undigits_bound 256 ltac:(lia) _ Hbt) as Hu. split; [lia|]. eapply Z.lt_le_trans; [apply Hu|]. change (2 ^ 32) with (256 ^ 4).
  apply Z.pow_le_mono_r; [lia|]. unfold len, bs4. rewrite length_reverse, length_take. lia.
Qed.
Lemma eval_payload_crc fip bs fip' rest : eval_payload fip bs = FFrame fip' rest -> bytes_ok bs -> bytes_ok rest /\ is_u 32 (fip_crc fip').
Proof.
  unfold eval_payload. destruct (eval_ops _ fip bs) as [fip1 rest1| |[]|] eqn:He; try done. intros Hx Hb.
  eapply eval_trailer_crc; [done|]. by eapply eval_ops_ok.
Qed.
Lemma parse_frame_crc v2 crc bs fip rest : parse_frame v2 crc bs = FFrame fip rest -> bytes_ok bs -> bytes_ok rest /\ is_u 32 (fip_crc fip).
Proof.
  unfold parse_frame. destruct (_ <? _); [done|]. unfold eval_frame. cbn [phase FrameInProgress_new]. unfold eval_header.
  destruct (eval _ bs) as [[h|] rest1| | |] eqn:He; try done. cbv zeta. intros Hx Hb. apply eval_bytes in He; [|done].
  destruct (phase _); try (by eapply eval_payload_crc). unfold eval_extension in Hx.
  destruct (eval _ rest1) as [[[changes c]|] rest2| | |] eqn:He2; try done. eapply eval_payload_crc; [done|]. by eapply eval_bytes.
Qed.
Lemma log_of_u32 v2 crc bs frames crc' rest : log_of v2 crc bs = (frames, crc', rest) -> bytes_ok bs -> is_u 32 crc -> is_u 32 crc'.
Proof.
  revert crc frames. induction bs as [bs IH] using (induction_ltof1 _ (@length Z)); intros crc frames Hl Hb Hc. rewrite log_of_eq in Hl.
  destruct (parse_frame v2 crc bs) as [fip rest1| | |] eqn:He; [|by simplify_eq..].
  destruct (log_of v2 (fip_crc fip) rest1) as [[fs c] r] eqn:Hr. unfold add_frame in Hl. simplify_eq.
  destruct (parse_frame_crc _ _ _ _ _ He Hb). eapply IH; [|done..]. by apply parse_frame_suffix in He.
Qed.

(** * Appending a transaction *)

(** The write of a transaction that is complete but not yet part of the log: its frame is in
    the file behind the offset, and the checksum after it is kept aside. *)
Definition pending_ok (l : LogicalLog) (p : option (Tx * Z)) : Prop :=
  match p with
  | None => True
  | Some (tx, n) =>
      tx_ok tx /\ (exists h, ll_header l = Some h /\ hdr_ok h) /\ n = len (data_of l tx) /\
      ll_pending_running_crc l = Some (tx_crc (ll_running_crc l) tx) /\
      take (length (data_of l tx)) (drop (Z.to_nat (ll_offset l)) (ll_file l)) = data_of l tx
  end.
Definition pending_after (tx : Tx) (wrote : option nat) (r : res LimboError Z) : option (Tx * Z) :=
  match r, wrote with
  | Ok n, Some k => if n <=? Z.of_nat k then Some (tx, n) else None
  | _, _ => None
  end.
Definition step_inv (l : LogicalLog) (frames : list (list ParsedOp)) (p : option (Tx * Z)) : Prop := log_inv l frames /\ pending_ok l p.

Lemma noted_inv ts l frames : log_inv l frames -> log_inv (noted ts l) frames.
Proof. done. Qed.
Lemma written_data l data :
  0 <= ll_offset l <= len (ll_file l) ->
  take (Z.to_nat (ll_offset l)) (pwrite (ll_file l) (ll_offset l) data) = take (Z.to_nat (ll_offset l)) (ll_file l) /\
  take (length data) (drop (Z.to_nat (ll_offset l)) (pwrite (ll_file l) (ll_offset l) data)) = data.
Proof.
  intros Ho. split; [by apply take_pwrite|]. rewrite pwrite_eq by done.
  rewrite drop_app_ge by (rewrite length_take; unfold len in *; lia). rewrite length_take, Nat.min_l by (unfold len in *; lia).
  rewrite Nat.sub_diag, drop_0. by rewrite take_app_length.
Qed.
Lemma deferred_inv random observer wrote tx l frames r l' :
  log_inv l frames -> tx_ok tx -> log_tx_deferred_offset random observer wrote (record_of tx) l = (r, l') ->
  step_inv l' frames (pending_after tx wrote r).
Proof.
  intros Hinv Htx. unfold log_tx_deferred_offset.
  destruct (with_hdr_inv random _ _ (noted_inv (tx_ts tx) _ _ Hinv)) as [Hi1 Hh1].
  rewrite frame_and_pwrite_eq by (intros _; exact Hh1). cbv zeta. set (l1 := with_hdr random (noted (tx_ts tx) l)) in *.
  destruct observer as [e|]; [intros; by simplify_eq|]. destruct wrote as [k|]; [|intros; by simplify_eq].
  intros Hx. simplify_eq. assert (Hw := written_inv l1 frames tx k Hi1 Hh1 Htx). split; [exact Hw|].
  cbn [pending_after]. destruct (Z.leb_spec (len (data_of l1 tx)) (Z.of_nat k)) as [Hk|]; [|done].
  split_and!; [done|exact Hh1|done|done|]. change (data_of (set_ll_pending _ _) tx) with (data_of l1 tx).
  cbn [ll_offset ll_file set_ll_pending set_ll_file]. rewrite (take_ge (data_of l1 tx)) by (unfold len in Hk; lia).
  apply written_data. by eapply offset_in_file.
Qed.
Lemma advance_inv n tx l frames r l' :
  step_inv l frames (Some (tx, n)) -> ll_offset l + n < 2 ^ 64 -> advance_offset_after_success n l = (r, l') ->
  r = Ok tt /\ step_inv l' (frames ++ replayed [tx]) None.
Proof.
  intros [Hinv (Htx & Hh & -> & Hp & Hd)] Hn. unfold advance_offset_after_success, mbind, ST_bind, sget, slift, smodify, uadd.
  destruct (Z.ltb_spec (ll_offset l + len (data_of l tx)) (2 ^ 64)); [|lia]. rewrite Hp. intros Hx. simplify_eq. split; [done|]. split; [|done].
  eapply appended_inv; try done. apply Hinv.
Qed.
Lemma log_tx_inv random k tx l frames r l' :
  log_inv l frames -> tx_ok tx -> (length (data_of (with_hdr random l) tx) <= k)%nat ->
  ll_offset l + len (data_of (with_hdr random l) tx) < 2 ^ 64 ->
  log_tx random (Some k) (record_of tx) l = (r, l') -> r = Ok tt /\ step_inv l' (frames ++ replayed [tx]) None.
Proof.
  intros Hinv Htx. unfold log_tx, mbind, ST_bind.
  destruct (with_hdr_inv random _ _ (noted_inv (tx_ts tx) _ _ Hinv)) as [Hi1 Hh1].
  rewrite frame_and_pwrite_eq by (intros _; exact Hh1). cbv zeta. 
  assert (Hd : data_of (with_hdr random l) tx = data_of (with_hdr random (noted (tx_ts tx) l)) tx /\ ll_offset (with_hdr random (noted (tx_ts tx) l)) = ll_offset l).
  { unfold with_hdr, noted. cbn. destruct (ll_header l); [done|]. by destruct (ll_offset l =? 0). }
  destruct Hd as [-> Ho]. set (l1 := with_hdr random (noted (tx_ts tx) l)) in *. intros Hk Hn. rewrite <- Ho in Hn.
  destruct (Z.ltb_spec (ll_offset l1 + len (data_of l1 tx)) (2 ^ 64)); [|lia]. intros Hx. unfold mret, ST_ret in Hx. simplify_eq. split; [done|]. split; [|done].
  assert (Hw := written_inv l1 frames tx k Hi1 Hh1 Htx). eapply (appended_inv l1); try done; [apply Hw|].
  unfold appended. cbn [ll_file set_ll_file set_ll_offset set_ll_crc]. rewrite (take_ge (data_of l1 tx)) by lia.
  apply written_data. by eapply offset_in_file.
Qed.

(** * The header: truncation, reset, update *)

Lemma set_salt_ok random h : hdr_ok h -> hdr_ok (set_salt (wrap 64 random) h).
Proof. intros (? & ? & ? & ? & ?). split_and!; try done; by apply (wrap_is_u 64). Qed.
Lemma set_hdr_crc_ok crc h : hdr_ok h -> hdr_ok (set_hdr_crc crc h).
Proof. intros (? & ? & ? & ? & ?). by split_and!. Qed.
Lemma current_header random l frames : log_inv l frames -> exists h, current_or_new_header random l = Ok h /\ hdr_ok h.
Proof.
  intros [_ Hl]. unfold current_or_new_header. destruct (ll_header l) as [h|]; [exists h; by split; [|apply Hl]|]. destruct Hl as [-> _].
  exists (fresh_header random). split; [done|apply fresh_header_ok].
Qed.
Lemma reseed_eq random random' l frames :
  log_inv l frames -> exists h, hdr_ok h /\ reseed random random' l = (Ok h, set_ll_pending None (set_header h l)).
Proof.
  intros Hinv. destruct (current_header random l frames Hinv) as (h & Hh & Hok). exists (set_salt (wrap 64 random') h). split; [by apply set_salt_ok|].
  unfold reseed, mbind, ST_bind, sget, slift, smodify. by rewrite Hh.
Qed.
Lemma truncate_inv random random' ts l frames p outcome l' :
  step_inv l frames p -> log_truncate random random' true ts l = (Ok outcome, l') ->
  match outcome with Truncated => step_inv l' [] None /\ ll_file l' = [] | Retained => l' = l end.
Proof.
  intros [Hinv _]. unfold log_truncate, mbind, ST_bind, sget. destruct (_ <? _); [by intros [= <- <-]|].
  unfold truncate_to_zero, mbind, ST_bind. destruct (reseed_eq random random' l frames Hinv) as (h & Hok & ->).
  unfold truncated, smodify, mret, ST_ret. intros [= <- <-]. split; [|done]. split; [|done]. split; [constructor|]. cbn. split; [done|]. left. split_and!; try done. by left.
Qed.
Lemma header_written h l wrote : hdr_ok h -> write_header wrote h l =
  match wrote with
  | None => (Err IOError, set_ll_header (set_hdr_crc (hdr_crc h) h) l)
  | Some k => (Ok tt, set_ll_file (fun file => pwrite file 0 (take k (encode_header h))) (set_ll_header (set_hdr_crc (hdr_crc h) h) l))
  end.
Proof.
  intros Hok. unfold write_header, mbind, ST_bind, smodify, pwritten.
  assert (Hle : le_at (encode_header h) 52 4 = hdr_crc h).
  { unfold encode_header. rewrite le_at_skip by (by rewrite length_header_front). rewrite length_header_front, Nat.sub_diag by done.
    rewrite <- (app_nil_r (le_bytes _ _)). apply le_at_field. apply crc32c_u32. }
  rewrite Hle. by destruct wrote.
Qed.
(** The header is written again while the log is in use; the file system may refuse it or
    write a part. *)
Lemma update_header_inv random wrote l frames p r l' h :
  step_inv l frames p -> ll_header l = Some h -> update_header random wrote l = (r, l') -> step_inv l' frames None.
Proof.
  intros [[Hb Hl] _] Hh. rewrite Hh in Hl. destruct Hl as [Hok Hl]. unfold update_header, mbind, ST_bind, sget, slift, current_or_new_header.
  rewrite Hh, header_written by done. assert (Hz : 0 <= 0 <= len (ll_file l)) by (pose proof (len_nonneg (ll_file l)); lia).
  destruct wrote as [k|]; intros [= <- <-]; split; try done.
  split; [apply pwrite_ok; auto using encode_header_bytes with turso|]. cbn [ll_header set_ll_file set_ll_header]. split; [by apply set_hdr_crc_ok|].
  destruct Hl as [(Ho & Hf & Hc & Hbe) | (Ho & Ht & Hc & Hlog)]; [left|right].
  - split_and!; try done. rewrite <- (app_nil_r (encode_header h)). apply (begins_pwrite h); done.
  - assert (Hsame : pwrite (ll_file l) 0 (take k (encode_header h)) = ll_file l).
    { rewrite pwrite_0, <- Ht, take_take, length_take. 
      rewrite (Nat.min_l (k `min` 56)) by (unfold len in Ho; lia). apply take_drop. }
    unfold committed_part. cbn [ll_offset ll_file ll_running_crc set_ll_file set_ll_header]. rewrite Hsame. split_and!; done || lia.
Qed.
(** Either order of the header write and the truncation leaves the new header alone. *)
Lemma reset_inv random random' k header_first l frames p r l' :
  step_inv l frames p -> (56 <= k)%nat -> reset_to_fresh_header random random' (Some k) true header_first l = (r, l') ->
  r = Ok tt /\ step_inv l' [] None /\ (exists h, ll_header l' = Some h /\ ll_file l' = encode_header h).
Proof.
  intros [Hinv _] Hk. unfold reset_to_fresh_header, mbind, ST_bind. destruct (reseed_eq random random' l frames Hinv) as (h & Hok & ->).
  assert (Hle := length_encode_header h Hok). assert (Hall : take k (encode_header h) = encode_header h) by (apply take_ge; lia).
  assert (Hf : exists l1, (if true && negb header_first then
         _ ← write_header (Some 0%nat) h; _ ← truncated true LOG_HDR_SIZE; pwritten (Some k) 0 (encode_header h)
       else _ ← write_header (Some k) h; truncated true LOG_HDR_SIZE) (set_ll_pending None (set_header h l)) = (Ok tt, l1) /\
       ll_file l1 = encode_header h /\ ll_header l1 = Some (set_hdr_crc (hdr_crc h) h) /\ ll_running_crc l1 = seed h).
  { destruct header_first; cbn [andb negb]; unfold mbind, ST_bind; rewrite header_written by done; unfold truncated, pwritten, smodify; (eexists; split; [done|]);
      cbn [ll_file ll_header ll_running_crc set_ll_file set_ll_header set_ll_pending set_header set_ll_crc]; (split; [|done]); rewrite Hall.
    - unfold ftruncate. change (Z.to_nat LOG_HDR_SIZE) with 56%nat. rewrite pwrite_0, <- app_assoc, <- Hle. by rewrite take_app_length.
    - rewrite pwrite_0, drop_ge; [by rewrite app_nil_r|]. unfold ftruncate. rewrite length_take, Hle. change (Z.to_nat LOG_HDR_SIZE) with 56%nat. lia. }
  destruct Hf as (l1 & Hl1 & Hfile & Hhdr & Hcrc).
  unfold mbind, ST_bind in Hl1. cbn [andb] in Hl1 |- *. rewrite Hl1. unfold smodify. intros [= <- <-]. split; [done|]. split.
  - split; [|done]. unfold log_inv. cbn [ll_file ll_header ll_offset ll_running_crc set_ll_offset]. rewrite Hfile, Hhdr, Hcrc.
    split; [by apply encode_header_bytes|]. split; [by apply set_hdr_crc_ok|]. left. split_and!; try done. right. rewrite <- Hle. by rewrite firstn_all.
  - exists (set_hdr_crc (hdr_crc h) h). by split.
Qed.

(** * Crash and recovery *)

(** What may be left of the file: behind the offset, any bytes; before the first commit, a
    beginning of what was written. *)
Definition crashed (l : LogicalLog) (file : list Z) : Prop :=
  bytes_ok file /\
  if ll_offset l =? 0 then exists k, file = take k (ll_file l)
  else take (Z.to_nat (ll_offset l)) file = take (Z.to_nat (ll_offset l)) (ll_file l).
Ltac restored :=
  cbn [ll_header ll_offset ll_file ll_running_crc set_ll_file st_log restore_logical_log_state_after_recovery shadow_offset_store set_ll_crc set_ll_offset Storage_set_header set_header set_ll_header Storage_new LogicalLog_new].
Lemma recovered_valid file h :
  bytes_ok file -> hdr_ok h -> take 56 file = encode_header h ->
  exists s, recovered (Storage_new file) = Ok ((log_of (is_version2 h) (seed h) (drop 56 file)).1.1, s) /\
    log_inv (st_log s) (log_of (is_version2 h) (seed h) (drop 56 file)).1.1.
Proof.
  intros Hb Hok Ht. unfold recovered. cbn [st_log Storage_new ll_file LogicalLog_new]. rewrite (header_of_encoded file h Hok Ht).
  cbv zeta. change (lh_version (set_hdr_crc (hdr_crc h) h) =? LOG_VERSION_V2) with (is_version2 h).
  change (derive_initial_crc (lh_salt (set_hdr_crc (hdr_crc h) h))) with (seed h). change (Z.to_nat LOG_HDR_SIZE) with 56%nat.
  assert (Hl : (56 <= length file)%nat) by (rewrite <- (length_encode_header h Hok), <- Ht, length_take; lia).
  assert (Hok' := set_hdr_crc_ok (hdr_crc h) h Hok). unfold LOG_HDR_SIZE, len. destruct (Z.leb_spec (Z.of_nat (length file)) 56).
  - rewrite drop_ge, log_of_nil by lia. eexists. split; [done|]. split; [done|]. cbn. split; [done|]. left. split_and!; try done. by right.
  - destruct (log_of _ _ (drop 56 file)) as [[fs crc] rest] eqn:Hlog. eexists. split; [done|]. split; [done|]. restored. split; [done|]. right.
    apply log_of_rest in Hlog as Hr. destruct Hr as (Hle & Hr & _). rewrite length_drop in *.
    assert (Hu := log_of_u32 _ _ _ _ _ _ Hlog ltac:(by apply bytes_ok_drop) ltac:(apply derive_u32)).
    split_and!; try done; try (unfold len; lia). unfold committed_part.
    restored. rewrite skipn_firstn_comm. etransitivity; [|exact Hr]. f_equal. f_equal. lia.
Qed.
Lemma recovered_short file : len file < 56 -> recovered (Storage_new file) = Ok ([], Storage_new file).
Proof.
  intros Hlt. unfold recovered, header_of. cbn [st_log Storage_new ll_file LogicalLog_new].
  unfold LOG_HDR_SIZE. by destruct (Z.ltb_spec (len file) 56); [|lia].
Qed.
Lemma recovered_inv l frames file :
  log_inv l frames -> crashed l file ->
  exists s extra, recovered (Storage_new file) = Ok (frames ++ extra, s) /\ log_inv (st_log s) (frames ++ extra).
Proof.
  intros Hinv [Hb Hcr]. pose proof (offset_in_file _ _ Hinv) as Hoff. destruct Hinv as [_ Hl].
  assert (Hno : len file < 56 -> frames = [] -> exists s extra, recovered (Storage_new file) = Ok (frames ++ extra, s) /\ log_inv (st_log s) (frames ++ extra)).
  { intros Hlt ->. exists (Storage_new file), []. rewrite recovered_short by done. split; [done|]. by split. }
  destruct (ll_header l) as [h|].
  2: { destruct Hl as (Ho & Hf & Hlen). rewrite Ho in Hcr. destruct Hcr as [k ->]. apply Hno; [|done]. unfold len in *. rewrite length_take. lia. }
  destruct Hl as [Hok [(Ho & Hf & Hc & Hbe) | (Ho & Ht & Hc & Hlog)]].
  - rewrite Ho in Hcr. destruct Hcr as [k Hk]. destruct (Z.ltb_spec (len file) 56); [by apply Hno|].
    destruct Hbe as [Hbe|Hbe]; [unfold len in *; rewrite Hk, length_take in *; lia|].
    destruct (recovered_valid file h Hb Hok) as (s & Hr & Hi).
    { rewrite <- Hbe, Hk. apply take_56. unfold len in *. rewrite Hk, length_take in *. lia. }
    subst frames. exists s. eexists. by split.
  - destruct (Z.eqb_spec (ll_offset l) 0); [lia|].
    destruct (recovered_valid file h Hb Hok) as (s & Hr & Hi).
    { rewrite <- Ht, <- (take_56 (Z.to_nat (ll_offset l)) file), Hcr by lia. apply take_56. lia. }
    assert (Hsplit : drop 56 file = committed_part l ++ drop (Z.to_nat (ll_offset l)) file).
    { unfold committed_part. rewrite <- Hcr. rewrite <- drop_app_le by (rewrite length_take; unfold len in *; apply (f_equal length) in Hcr; rewrite !length_take in Hcr; lia).
      by rewrite take_drop. }
    rewrite Hsplit, (log_of_app _ _ _ _ _ _ Hlog) in Hr, Hi. destruct (log_of _ _ (drop (Z.to_nat _) file)) as [[fs c] r]. exists s, fs. by split.
Qed.
(** The header that bootstrap writes to an empty file, taken over by the recovery after it. *)
Lemma created_inv random k l env threshold s frames :
  update_header random (Some k) (LogicalLog_new []) = (Ok tt, l) -> (56 <= k)%nat -> env_ok env -> first_full env ->
  recover_logical_log env (MkStorage l 0 threshold) = Ok (frames, s) -> step_inv (st_log s) frames None /\ frames = [].
Proof.
  intros Hu Hk He Hff. assert (Hok := fresh_header_ok random). assert (Hl := length_encode_header _ Hok).
  revert Hu. unfold update_header, mbind, ST_bind, sget, slift, current_or_new_header. cbn [ll_header LogicalLog_new ll_offset Z.eqb].
  change (new_with_version random LOG_VERSION_V2) with (@Ok LimboError _ (fresh_header random)). cbv beta iota. rewrite header_written by done.
  intros [= <-]. rewrite take_ge by lia. set (h := fresh_header random) in *.
  assert (Hf : pwrite [] 0 (encode_header h) = encode_header h) by (rewrite pwrite_0, drop_nil; apply app_nil_r).
  rewrite recover_logical_log_eq; cbn [st_log ll_file set_ll_file set_ll_header LogicalLog_new]; [|rewrite Hf; by apply encode_header_bytes|done..].
  unfold recovered. cbn [st_log ll_file set_ll_file set_ll_header LogicalLog_new]. rewrite Hf.
  assert (Ht : take 56 (encode_header h) = encode_header h) by (apply take_ge; lia). rewrite (header_of_encoded _ h Hok Ht).
  cbv zeta. assert (Hlen : len (encode_header h) = 56) by (unfold len; lia). rewrite Hlen. change (56 <=? LOG_HDR_SIZE) with true. cbv iota.
  intros [= <- <-]. split; [|done]. split; [|done]. unfold log_inv. restored. rewrite Hf.
  split; [by apply encode_header_bytes|]. split; [by apply set_hdr_crc_ok|]. left. split_and!; try done. right. done.
Qed.

(** * Reachable logs *)

(** The calls on the log with the transactions that count as committed, and the transaction
    whose write is complete but not acknowledged. *)
Inductive log_reach : LogicalLog -> list (list ParsedOp) -> option (Tx * Z) -> Prop :=
  | reach_empty : log_reach (LogicalLog_new []) [] None
  | reach_create random k l env threshold frames s :
      update_header random (Some k) (LogicalLog_new []) = (Ok tt, l) -> (56 <= k)%nat -> env_ok env -> first_full env ->
      recover_logical_log env (MkStorage l 0 threshold) = Ok (frames, s) -> log_reach (st_log s) frames None
  | reach_log_tx random k tx m l frames p l' :
      log_reach l frames p -> tx_ok tx -> one_header (tx_ops tx) -> log_ops (tx_ops tx) (LogRecord_new (tx_ts tx)) = (Ok tt, m) ->
      (length (data_of (with_hdr random l) tx) <= k)%nat -> ll_offset l + len (data_of (with_hdr random l) tx) < 2 ^ 64 ->
      log_tx random (Some k) m l = (Ok tt, l') -> log_reach l' (frames ++ replayed [tx]) None
  | reach_deferred random observer wrote tx m l frames p r l' :
      log_reach l frames p -> tx_ok tx -> one_header (tx_ops tx) -> log_ops (tx_ops tx) (LogRecord_new (tx_ts tx)) = (Ok tt, m) ->
      log_tx_deferred_offset random observer wrote m l = (r, l') -> log_reach l' frames (pending_after tx wrote r)
  | reach_advance n tx l frames l' :
      log_reach l frames (Some (tx, n)) -> ll_offset l + n < 2 ^ 64 ->
      advance_offset_after_success n l = (Ok tt, l') -> log_reach l' (frames ++ replayed [tx]) None
  | reach_truncate random random' ts l frames p l' :
      log_reach l frames p -> log_truncate random random' true ts l = (Ok Truncated, l') -> log_reach l' [] None
  | reach_retain random random' ok ts l frames p l' :
      log_reach l frames p -> log_truncate random random' ok ts l = (Ok Retained, l') -> log_reach l' frames p
  | reach_reset random random' k header_first l frames p l' :
      log_reach l frames p -> (56 <= k)%nat -> reset_to_fresh_header random random' (Some k) true header_first l = (Ok tt, l') ->
      log_reach l' [] None
  | reach_update_header random wrote l frames p r l' h :
      log_reach l frames p -> ll_header l = Some h -> update_header random wrote l = (r, l') -> log_reach l' frames None
  | reach_recover l frames p file env frames' s :
      log_reach l frames p -> crashed l file -> env_ok env -> first_full env ->
      recover_logical_log env (Storage_new file) = Ok (frames', s) -> log_reach (st_log s) frames' None.

Lemma truncate_retained random random' ok ts l l' : log_truncate random random' ok ts l = (Ok Retained, l') -> l' = l.
Proof.
  unfold log_truncate, mbind, ST_bind, sget. destruct (_ <? _); [by intros [= <-]|].
  destruct (truncate_to_zero random random' ok l) as [[]]; by intros [= ?].
Qed.
Lemma log_reach_inv l frames p : log_reach l frames p -> step_inv l frames p.
Proof.
  induction 1 as [|? ? ? ? ? ? ? Hu Hk He Hff Hr|? ? tx m ? ? ? ? _ [IH _] Htx Hone Hm Hk Hn Hl|? ? ? tx m ? ? ? ? ? _ [IH _] Htx Hone Hm Hl
    |? ? ? ? ? _ IH Hn Hl|? ? ? ? ? ? ? _ IH Hl|? ? ? ? ? ? ? ? _ IH Hl|? ? ? ? ? ? ? ? _ IH Hk Hl|? ? ? ? ? ? ? ? _ IH Hh Hl|? ? ? ? ? ? ? _ [IH _] Hcr He Hff Hr].
  - split; [|done]. by split; [constructor|].
  - by eapply created_inv.
  - rewrite record_built in Hm by done. simplify_eq. by eapply log_tx_inv.
  - rewrite record_built in Hm by done. simplify_eq. by eapply deferred_inv.
  - by eapply advance_inv.
  - by apply (truncate_inv _ _ _ _ _ _ _ _ IH) in Hl as [? _].
  - by apply truncate_retained in Hl as ->.
  - by apply (reset_inv _ _ _ _ _ _ _ _ _ IH) in Hl as (_ & ? & _).
  - by eapply update_header_inv.
  - rewrite recover_logical_log_eq in Hr by (done || apply Hcr). destruct (recovered_inv _ _ _ IH Hcr) as (s' & extra & Hs & Hi).
    rewrite Hs in Hr. simplify_eq. by split.
Qed.

(** * A commit that a crash interrupts *)

Lemma frame_cut v2 c tx j :
  tx_ok tx -> is_u 32 c ->
  (log_of v2 c (take j (frame_bytes c tx))).1.1 = if (j <? length (frame_bytes c tx))%nat then [] else replayed [tx].
Proof.
  intros Htx Hc. destruct (Nat.ltb_spec j (length (frame_bytes c tx))).
  - by rewrite log_of_torn.
  - by rewrite take_ge, frame_log by done.
Qed.
Lemma crashed_cut l frames k : log_inv l frames -> ll_offset l <= Z.of_nat k -> crashed l (take k (ll_file l)).
Proof.
  intros [Hb _] Hk. split; [by apply bytes_ok_take|]. destruct (_ =? _); [by exists k|]. by rewrite take_take, Nat.min_l by lia.
Qed.
Lemma recovered_cut l frames tx n k :
  step_inv l frames (Some (tx, n)) -> len (ll_file l) = ll_offset l + n -> ll_offset l <= Z.of_nat k ->
  exists s, recovered (Storage_new (take k (ll_file l))) = Ok (if Z.of_nat k <? ll_offset l + n then frames else frames ++ replayed [tx], s).
Proof.
  intros [Hinv (Htx & (h & Hh & Hok) & -> & _ & Hd)] Hlen Hk. assert (Hoff := offset_in_file _ _ Hinv).
  assert (Hall : drop (Z.to_nat (ll_offset l)) (ll_file l) = data_of l tx).
  { rewrite <- Hd. symmetry. apply take_ge. rewrite length_drop. unfold len in *. lia. }
  assert (Hle := length_encode_header h Hok). destruct Hinv as [Hb Hl]. rewrite Hh in Hl. destruct Hl as [_ Hl].
  assert (Hb' : bytes_ok (take k (ll_file l))) by by apply bytes_ok_take.
  destruct Hl as [(Ho & -> & Hc & _) | (Ho & Ht & Hc & Hlog)].
  - assert (Hdata : data_of l tx = encode_header h ++ frame_bytes (seed h) tx) by (unfold data_of, opening; by rewrite Ho, Hh, Hc).
    rewrite Hdata, Ho in *. change (drop (Z.to_nat 0) (ll_file l)) with (ll_file l) in Hall. rewrite Hall in *. rewrite len_app. unfold len at 1 2. rewrite Hle.
    destruct (Nat.lt_ge_cases k 56) as [Hk56|Hk56].
    + rewrite recovered_short by (unfold len; rewrite length_take; lia). destruct (Z.ltb_spec (Z.of_nat k) (0 + (Z.of_nat 56 + Z.of_nat (length (frame_bytes (seed h) tx))))); [by eexists|lia].
    + destruct (recovered_valid _ h Hb' Hok) as (s & Hr & _); [rewrite take_56, take_app_le by lia; by rewrite <- Hle, firstn_all|].
      exists s. rewrite Hr. do 2 f_equal. rewrite take_app_ge, drop_app_ge, Hle by lia. rewrite Nat.sub_diag, drop_0, frame_cut by (done || apply derive_u32).
      destruct (Nat.ltb_spec (k - 56) (length (frame_bytes (seed h) tx))), (Z.ltb_spec (Z.of_nat k) (0 + (Z.of_nat 56 + Z.of_nat (length (frame_bytes (seed h) tx))))); done || lia.
  - assert (Hdata : data_of l tx = frame_bytes (ll_running_crc l) tx) by (unfold data_of, opening; destruct (Z.eqb_spec (ll_offset l) 0); [lia|done]).
    destruct (recovered_valid _ h Hb' Hok) as (s & Hr & _); [by rewrite take_56 by lia|]. exists s. rewrite Hr. do 2 f_equal.
    assert (Hsplit : drop 56 (take k (ll_file l)) = committed_part l ++ take (k - Z.to_nat (ll_offset l)) (data_of l tx)).
    { unfold committed_part. rewrite <- Hall, <- skipn_firstn_comm. rewrite <- (Nat.min_l (Z.to_nat (ll_offset l)) k) at 1 by lia. rewrite <- take_take.
      rewrite <- drop_app_le by (rewrite !length_take; unfold len in *; lia). by rewrite take_drop. }
    rewrite Hsplit, (log_of_app _ _ _ _ _ _ Hlog), Hdata. assert (Hf := frame_cut (is_version2 h) _ tx (k - Z.to_nat (ll_offset l)) Htx Hc).
    destruct (log_of _ _ (take _ _)) as [[fs c] r]. cbn [fst] in *. rewrite Hf. unfold len.
    destruct (Nat.ltb_spec (k - Z.to_nat (ll_offset l)) (length (frame_bytes (ll_running_crc l) tx))), (Z.ltb_spec (Z.of_nat k) (ll_offset l + Z.of_nat (length (frame_bytes (ll_running_crc l) tx))));
      try lia; [by rewrite app_nil_r|done].
Qed.

(** * Properties *)

(** C9: a commit whose frame a crash cut anywhere is not replayed at all, one whose frame is
    complete in the file is replayed whole, and the transactions before it are replayed
    in either case. *)
Theorem log_commit_atomic l frames tx n k env :
  log_reach l frames (Some (tx, n)) -> len (ll_file l) = ll_offset l + n -> ll_offset l <= Z.of_nat k -> env_ok env -> first_full env ->
  exists s, recover_logical_log env (Storage_new (take k (ll_file l))) =
    Ok (if Z.of_nat k <? ll_offset l + n then frames else frames ++ replayed [tx], s).
Proof.
  intros Hr Hlen Hk He Hff. apply log_reach_inv in Hr. rewrite recover_logical_log_eq; [by apply recovered_cut| |done..].
  cbn. apply bytes_ok_take. apply Hr.
Qed.
(** C10: reading a log in chunks of any sizes, with reads that are waited for any number of
    times, terminates on every file without a panic.  If the file has a header and the first
    read that is answered delivers less than that, the result is the error [Corrupt]; in every
    other case it is the same frames, offset, checksum and errors as parsing the bytes of the
    file at once gives. *)
Theorem streaming_recovery_exact env s :
  bytes_ok (ll_file (st_log s)) -> env_ok env ->
  recover_logical_log env s = if (LOG_HDR_SIZE <=? len (ll_file (st_log s))) && short_header env then Err Corrupt else recovered s.
Proof. apply recover_logical_log_cases. Qed.
End log.

(** * The offset that is read without the lock *)

Section storage.
Context `{Crc32c}.
Inductive storage_call : Type :=
| CallLogTx (random : Z) (observer : option LimboError) (wrote : option nat) (m : LogRecord)
| CallAdvance (bytes : Z)
| CallUpdateHeader (random : Z) (wrote : option nat)
| CallTruncate (random random' : Z) (ok : bool) (checkpointed_through_ts : Z)
| CallReset (random random' : Z) (wrote : option nat) (ok header_first : bool)
| CallRestore (offset running_crc : Z)
| CallSetHeader (header : LogHeader)
| CallSetThreshold (threshold : Z).
Definition storage_run (c : storage_call) : ST Storage unit :=
  match c with
  | CallLogTx random observer wrote m => _ ← Storage_log_tx random observer wrote m; mret tt
  | CallAdvance bytes => advance_logical_log_offset_after_success bytes
  | CallUpdateHeader random wrote => Storage_update_header random wrote
  | CallTruncate random random' ok ts => _ ← Storage_truncate random random' ok ts; mret tt
  | CallReset random random' wrote ok header_first => Storage_reset_to_fresh_header random random' wrote ok header_first
  | CallRestore offset running_crc => smodify (restore_logical_log_state_after_recovery offset running_crc)
  | CallSetHeader header => smodify (Storage_set_header header)
  | CallSetThreshold threshold => smodify (set_checkpoint_threshold threshold)
  end.
(** A part of a call that leaves the offset alone. *)
Definition keeps_offset {A} (m : ST LogicalLog A) : Prop := forall l, ll_offset (m l).2 = ll_offset l.
Lemma keeps_ret {A} (a : A) : keeps_offset (mret a).
Proof. done. Qed.
Lemma keeps_bind {A B} (m : ST LogicalLog A) (f : A -> ST LogicalLog B) : keeps_offset m -> (forall a, keeps_offset (f a)) -> keeps_offset (mbind f m).
Proof.
  intros Hm Hf l. unfold mbind, ST_bind. specialize (Hm l). destruct (m l) as [[a|e|] l1]; [|done..]. cbn in Hm. by rewrite Hf.
Qed.
Lemma keeps_get : keeps_offset sget.
Proof. done. Qed.
Lemma keeps_lift {A} (r : res LimboError A) : keeps_offset (slift r).
Proof. by destruct r. Qed.
Lemma keeps_modify f : (forall l, ll_offset (f l) = ll_offset l) -> keeps_offset (smodify f).
Proof. intros Hf l. apply Hf. Qed.
Create HintDb keeps.
Ltac keeps := repeat first [solve [auto with keeps nocore] | apply keeps_ret | apply keeps_bind; [|intros ?] | apply keeps_get | apply keeps_lift | apply keeps_modify; done | done | case_match].
Lemma ensure_header_keeps random : keeps_offset (ensure_header random).
Proof. unfold ensure_header. keeps. Qed.
#[local] Hint Resolve ensure_header_keeps : keeps.
Lemma pwritten_keeps wrote off data : keeps_offset (pwritten wrote off data).
Proof. unfold pwritten. keeps. Qed.
#[local] Hint Resolve pwritten_keeps : keeps.
Lemma write_header_keeps wrote h : keeps_offset (write_header wrote h).
Proof. unfold write_header. keeps. Qed.
#[local] Hint Resolve write_header_keeps : keeps.
Lemma truncated_keeps ok n : keeps_offset (truncated ok n).
Proof. unfold truncated. keeps. Qed.
#[local] Hint Resolve truncated_keeps : keeps.
Lemma reseed_keeps random random' : keeps_offset (reseed random random').
Proof. unfold reseed. keeps. Qed.
#[local] Hint Resolve reseed_keeps : keeps.
Lemma deferred_keeps random observer wrote m : keeps_offset (log_tx_deferred_offset random observer wrote m).
Proof. unfold log_tx_deferred_offset, frame_and_pwrite_tx. keeps. Qed.
Lemma update_header_keeps random wrote : keeps_offset (update_header random wrote).
Proof. unfold update_header. keeps. Qed.
(** A call that leaves the offset alone when it fails. *)
Definition keeps_on_error {A} (m : ST LogicalLog A) : Prop := forall l e l', m l = (Err e, l') -> ll_offset l' = ll_offset l.
Lemma keeps_bind_error {A B} (m : ST LogicalLog A) (f : A -> ST LogicalLog B) : keeps_offset m -> (forall a, keeps_on_error (f a)) -> keeps_on_error (mbind f m).
Proof.
  intros Hm Hf l e l'. unfold mbind, ST_bind. specialize (Hm l). destruct (m l) as [[a|e1|] l1]; cbn in Hm; [|by intros [= <- <-]..].
  intros He. apply Hf in He. congruence.
Qed.
Lemma keeps_error_bind {A B} (m : ST LogicalLog A) (f : A -> ST LogicalLog B) :
  keeps_on_error m -> (forall a l e l', f a l <> (Err e, l')) -> keeps_on_error (mbind f m).
Proof.
  intros Hm Hf l e l'. unfold mbind, ST_bind. specialize (Hm l). destruct (m l) as [[a|e1|] l1]; [by intros []%Hf| |done].
  intros [= <- <-]. by eapply Hm.
Qed.
Lemma truncate_keeps random random' ok ts : keeps_on_error (log_truncate random random' ok ts).
Proof.
  unfold log_truncate. apply keeps_bind_error; [apply keeps_get|]. intros self. destruct (_ <? _); [by intros ? ? ? [=]|].
  apply keeps_error_bind; [|done]. unfold truncate_to_zero. apply keeps_bind_error; [apply reseed_keeps|]. intros h.
  apply keeps_bind_error; [apply truncated_keeps|]. by intros ? ? ? ? [=].
Qed.
Lemma reset_keeps random random' wrote ok header_first : keeps_on_error (reset_to_fresh_header random random' wrote ok header_first).
Proof.
  unfold reset_to_fresh_header. apply keeps_bind_error; [apply reseed_keeps|]. intros h. apply keeps_bind_error; [keeps|]. by intros ? ? ? ? [=].
Qed.
Lemma bind_ok {S A B} (m : ST S A) (f : A -> ST S B) s b s' : mbind f m s = (Ok b, s') -> exists a s1, m s = (Ok a, s1) /\ f a s1 = (Ok b, s').
Proof. unfold mbind, ST_bind. destruct (m s) as [[a|e|] s1]; [|done..]. intros He. by exists a, s1. Qed.
Lemma reset_offset random random' wrote ok header_first l r l' :
  reset_to_fresh_header random random' wrote ok header_first l = (Ok r, l') -> ll_offset l' = 0.
Proof. intros (h & l1 & _ & (a & l2 & _ & [= <- <-])%bind_ok)%bind_ok. done. Qed.

Definition shadow_ok (s : Storage) : Prop := st_log_offset s = ll_offset (st_log s).
Lemma on_log_keeps {A} (m : ST LogicalLog A) s : keeps_offset m -> shadow_ok s -> shadow_ok (on_log m s).2.
Proof. intros Hm Hs. unfold on_log, shadow_ok in *. specialize (Hm (st_log s)). destruct (m (st_log s)). cbn in *. congruence. Qed.
Lemma on_log_error {A} (m : ST LogicalLog A) s e s' : keeps_on_error m -> shadow_ok s -> on_log m s = (Err e, s') -> shadow_ok s'.
Proof.
  intros Hm Hs. unfold on_log, shadow_ok in *. destruct (m (st_log s)) as [r l] eqn:He. intros [= -> <-]. apply Hm in He. cbn. congruence.
Qed.
Lemma advance_offset bytes l l' : advance_offset_after_success bytes l = (Ok tt, l') -> ll_offset l' = ll_offset l + bytes /\ ll_offset l + bytes < 2 ^ 64.
Proof.
  unfold advance_offset_after_success. intros (self & l1 & [= <- <-] & (offset & l2 & Ho & (? & l3 & [= _ <-] & Hm)%bind_ok)%bind_ok)%bind_ok.
  unfold slift, uadd in Ho. destruct (Z.ltb_spec (ll_offset l + bytes) (2 ^ 64)); [|done]. injection Ho as <- <-.
  destruct (ll_pending_running_crc l); [|done]. injection Hm as <-. done.
Qed.
Lemma advance_error bytes l e l' : advance_offset_after_success bytes l <> (Err e, l').
Proof.
  unfold advance_offset_after_success, mbind, ST_bind, sget, slift, smodify, uadd. destruct (_ <? _); [|done]. by destruct (ll_pending_running_crc l).
Qed.
Lemma advance_shadow bytes s r s' :
  shadow_ok s -> 0 <= ll_offset (st_log s) -> 0 <= bytes -> advance_logical_log_offset_after_success bytes s = (r, s') -> r <> Panic -> shadow_ok s'.
Proof.
  intros Hs H0 Hb. unfold advance_logical_log_offset_after_success, mbind, ST_bind, on_log.
  destruct (advance_offset_after_success bytes (st_log s)) as [[[]|e|] l] eqn:He; [|by apply advance_error in He|by intros [= <- <-]].
  apply advance_offset in He as [Ho Hlt]. unfold smodify. intros [= <- <-] _. unfold shadow_ok in *. cbn. rewrite Ho, Hs. apply wrap_small. unfold is_u. lia.
Qed.

(** the offset kept beside the lock is the offset of the log after every call, whichever
    writes and truncations fail, so a checkpoint is due exactly when the log has reached
    the threshold. *)
Theorem shadow_offset_exact c s r s' :
  shadow_ok s -> 0 <= ll_offset (st_log s) -> (forall bytes, c = CallAdvance bytes -> 0 <= bytes) -> storage_run c s = (r, s') -> r <> Panic ->
  shadow_ok s' /\ should_checkpoint s' = (0 <=? st_checkpoint_threshold s') && (st_checkpoint_threshold s' <=? ll_offset (st_log s')).
Proof.
  intros Hs H0 Hc Hr Hp. assert (Ho : shadow_ok s').
  { revert Hr. destruct c; cbn [storage_run].
    - unfold mbind, ST_bind. pose proof (on_log_keeps _ s (deferred_keeps random observer wrote m) Hs) as Hk.
      fold (Storage_log_tx random observer wrote m) in Hk. destruct (Storage_log_tx _ _ _ _ s) as [[]]; by intros [= <- <-].
    - intros Hr. apply (advance_shadow bytes s r); auto.
    - pose proof (on_log_keeps _ s (update_header_keeps random wrote) Hs) as Hk. unfold Storage_update_header. intros Hr. by rewrite Hr in Hk.
    - unfold Storage_truncate, mbind, ST_bind. destruct (on_log _ s) as [[o|e|] s1] eqn:He; intros [= <- <-]; [done| |done].
      by eapply on_log_error; [apply truncate_keeps|..].
    - unfold Storage_reset_to_fresh_header, mbind, ST_bind, on_log. destruct (reset_to_fresh_header _ _ _ _ _ _) as [[[]|e|] l] eqn:He; intros [= <- <-]; [| |done].
      + apply reset_offset in He. unfold shadow_ok. cbn. congruence.
      + apply reset_keeps in He. unfold shadow_ok in *. cbn. congruence.
    - by intros [= _ <-].
    - by intros [= _ <-].
    - by intros [= _ <-]. }
  split; [done|]. unfold should_checkpoint. rewrite Ho.
  destruct (Z.ltb_spec (st_checkpoint_threshold s') 0), (Z.leb_spec 0 (st_checkpoint_threshold s')); done || lia.
Qed.
End storage.

(** * Concrete logs *)

#[local] Existing Instance crc32c_bitwise.
#[local] Existing Instance crc32c_bitwise_laws.

Definition demo1 : Tx := MkTx 5 [OpRow (MkLogged (-2) (IntKey 1) [2; 1; 7] false false) None].
Definition demo2 : Tx := MkTx 9 [OpRow (MkLogged (-2) (IntKey 1) [] true true) None; OpRow (MkLogged (-3) RecordKey [2; 1; 8] false false) None].
(** The first transaction is committed, the frame of the second is in the file. *)
Definition demo_log1 : LogicalLog := (log_tx 17 (Some 1000%nat) (record_of demo1) (LogicalLog_new [])).2.
Definition demo_log2 : LogicalLog := (log_tx_deferred_offset 17 None (Some 1000%nat) (record_of demo2) demo_log1).2.
Definition demo_env : list (option Z) := [None; Some 56; Some 7; None; Some 1; Some 30].

Lemma demo_row_ok v : is_i 32 (lv_table_id v) -> lv_table_id v < 0 -> match lv_key v with IntKey rowid => is_i 64 rowid | RecordKey => True end ->
  is_u 64 (len (payload_of v)) -> bytes_ok (lv_payload v) -> op_ok (OpRow v None).
Proof. intros. cbn [op_ok default]. split_and!; try done; [constructor|by exists None]. Qed.
Ltac demo_row := apply demo_row_ok; [by vm_compute..|unfold bytes_ok, is_digit; by repeat constructor].
Lemma demo1_ok : tx_ok demo1.
Proof. split; [|by vm_compute]. apply Forall_cons_2; [demo_row|constructor]. Qed.
Lemma demo2_ok : tx_ok demo2.
Proof. split; [|by vm_compute]. apply Forall_cons_2; [demo_row|apply Forall_cons_2; [demo_row|constructor]]. Qed.
Lemma demo_env_ok : env_ok demo_env /\ first_full demo_env.
Proof. split; [repeat constructor; lia|]. cbn. done. Qed.
Lemma demo_reach1 : log_reach demo_log1 (replayed [demo1]) None.
Proof.
  change (replayed [demo1]) with ([] ++ replayed [demo1]). eapply (reach_log_tx 17 1000 demo1); [apply reach_empty|apply demo1_ok|vm_compute; lia|..].
  - apply record_built; [apply demo1_ok|vm_compute; lia].
  - vm_compute. lia.
  - vm_compute. done.
  - vm_compute. done.
Qed.
Lemma demo_reach2 : log_reach demo_log2 (replayed [demo1]) (Some (demo2, 50)).
Proof.
  change (Some (demo2, 50)) with (pending_after demo2 (Some 1000%nat) (Ok 50)). eapply (reach_deferred 17 None); [apply demo_reach1|apply demo2_ok|vm_compute; lia|..].
  - apply record_built; [apply demo2_ok|vm_compute; lia].
  - vm_compute. done.
Qed.
Lemma demo_bytes : bytes_ok (ll_file demo_log2).
Proof. destruct (log_reach_inv _ _ _ demo_reach2) as [[Hb _] _]. exact Hb. Qed.

Lemma log_commit_atomic_witness :
  (exists s, recover_logical_log demo_env (Storage_new (take 148 (ll_file demo_log2))) = Ok (replayed [demo1], s)) /\
  exists s, recover_logical_log demo_env (Storage_new (take 149 (ll_file demo_log2))) = Ok (replayed [demo1; demo2], s).
Proof.
  split.
  - apply (log_commit_atomic demo_log2 (replayed [demo1]) demo2 50 148); [apply demo_reach2|vm_compute; reflexivity|vm_compute; done|apply demo_env_ok..].
  - apply (log_commit_atomic demo_log2 (replayed [demo1]) demo2 50 149); [apply demo_reach2|vm_compute; reflexivity|vm_compute; done|apply demo_env_ok..].
Defined.
(** A torn header, a header alone, a log with a torn frame, read in small pieces, and a log
    whose header is read short. *)
Lemma streaming_recovery_exact_witness :
  recover_logical_log demo_env (Storage_new (take 20 (ll_file demo_log2))) = recovered (Storage_new (take 20 (ll_file demo_log2))) /\
  recover_logical_log demo_env (Storage_new (take 56 (ll_file demo_log2))) = recovered (Storage_new (take 56 (ll_file demo_log2))) /\
  recover_logical_log demo_env (Storage_new (take 120 (ll_file demo_log2))) = recovered (Storage_new (take 120 (ll_file demo_log2))) /\
  recover_logical_log [None; Some 10] (Storage_new (take 120 (ll_file demo_log2))) = Err Corrupt.
Proof.
  split; [|split; [|split]].
  - apply streaming_recovery_exact; [apply bytes_ok_take, demo_bytes|apply demo_env_ok].
  - apply (streaming_recovery_exact demo_env (Storage_new (take 56 (ll_file demo_log2)))); [apply bytes_ok_take, demo_bytes|apply demo_env_ok].
  - apply (streaming_recovery_exact demo_env (Storage_new (take 120 (ll_file demo_log2)))); [apply bytes_ok_take, demo_bytes|apply demo_env_ok].
  - apply (streaming_recovery_exact [None; Some 10] (Storage_new (take 120 (ll_file demo_log2)))); [apply bytes_ok_take, demo_bytes|].
    constructor; [exact I|]. constructor; [lia|constructor].
Defined.

(** C15: when the truncation of the log fails, [truncate_to_zero] has already given the log in
    memory a new salt and checksum while the file and the offset are the old ones: the next
    commit succeeds, and recovery does not find it. *)
Theorem failed_truncate_loses_commit :
  let '(r1, l1) := log_tx 17 (Some 1000%nat) (record_of demo1) (LogicalLog_new []) in
  let '(r2, l2) := log_truncate 18 19 false (2 ^ 64 - 1) l1 in
  let '(r3, l3) := log_tx 20 (Some 1000%nat) (record_of demo2) l2 in
  r1 = Ok tt /\ r2 = Err IOError /\ r3 = Ok tt /\ ll_offset l3 = len (ll_file l3) /\
  exists s, recover_logical_log demo_env (Storage_new (ll_file l3)) = Ok (replayed [demo1], s) /\ ll_offset (st_log s) = ll_offset l1.
Proof. vm_compute. do 4 (split; [reflexivity|]). eexists. split; reflexivity. Qed.
(** The deferred write of the second transaction, acknowledged. *)
Lemma shadow_offset_exact_witness :
  let s := MkStorage demo_log2 (ll_offset demo_log2) 150 in
  let '(r, s') := storage_run (CallAdvance 50) s in r = Ok tt /\ shadow_ok s' /\ should_checkpoint s' = false.
Proof.
  split; [vm_compute; reflexivity|]. apply (shadow_offset_exact (CallAdvance 50) (MkStorage demo_log2 (ll_offset demo_log2) 150) (Ok tt)).
  - reflexivity.
  - vm_compute. done.
  - intros bytes [= <-]. lia.
  - vm_compute. reflexivity.
  - done.
Defined.
