(* ===== verification/PageAlloc.v ===== *)
(** Allocation and release of pages (core/storage/pager.rs): the free list in the database
    file, a chain of trunk pages that list free pages; pages taken from its end or, when it is
    empty, from behind the end of the file; the pointer map of auto-vacuum; and [read_page],
    through which all of them get at pages.

    Every function may return to its caller to wait for I/O and is then called again; it keeps
    its place in a state of the pager.  What the I/O layer does meanwhile is an argument: which
    reads complete, which pages the cache evicts, when a spill makes a call wait, and what
    the recycled buffers of new pages hold.  The contents of a page are the same in the cache,
    the log and the file.  Page 1 is the database header. *)

From stdpp Require Import base list gmap numbers.
From Stdlib Require Import ZArith Lia.
From S2P Require Import Prelude DbHeader.

Definition FREELIST_TRUNK_OFFSET_NEXT_TRUNK_PTR : Z := 0.
Definition FREELIST_TRUNK_OFFSET_LEAF_COUNT : Z := 4.
Definition FREELIST_TRUNK_OFFSET_FIRST_LEAF_PTR : Z := 8.
Definition FREELIST_LEAF_PTR_SIZE : Z := 4.
Definition RESERVED_SLOTS : Z := 2.
Definition PENDING_BYTE : Z := 0x40000000.
Definition HEADER_PAGE_ID : Z := 1.

(** * The pointer map *)

Definition PTRMAP_ENTRY_SIZE : Z := 5.
Definition FIRST_PTRMAP_PAGE_NO : Z := 2.
Inductive PtrmapType : Type := RootPage | FreePage | Overflow1 | Overflow2 | BTreeNode.
Definition PtrmapType_as_u8 (t : PtrmapType) : Z :=
  match t with RootPage => 1 | FreePage => 2 | Overflow1 => 3 | Overflow2 => 4 | BTreeNode => 5 end.
Definition PtrmapType_from_u8 (value : Z) : option PtrmapType :=
  match value with
  | 1 => Some RootPage | 2 => Some FreePage | 3 => Some Overflow1 | 4 => Some Overflow2 | 5 => Some BTreeNode
  | _ => None
  end.
Record PtrmapEntry : Type := MkEntry { entry_type : PtrmapType; parent_page_no : Z }.
Definition PtrmapEntry_serialize (e : PtrmapEntry) (buffer : list Z) : res LimboError (list Z) :=
  _ ← ensure (PTRMAP_ENTRY_SIZE <=? len buffer) InternalError;
  buffer ← set_at buffer 0 (PtrmapType_as_u8 (entry_type e));
  write_at buffer 1 (be_bytes 4 (parent_page_no e)).
Definition PtrmapEntry_deserialize (buffer : list Z) : option PtrmapEntry :=
  if len buffer <? PTRMAP_ENTRY_SIZE then None
  else
    entry_type_u8 ← get buffer 0;
    t ← PtrmapType_from_u8 entry_type_u8;
    Some (MkEntry t (be_val (slice_ buffer 1 5))).

Definition entries_per_ptrmap_page (page_size : Z) : res LimboError Z :=
  _ ← rassert (PageSize_MIN <=? page_size); Ok (page_size / PTRMAP_ENTRY_SIZE).
Definition ptrmap_page_cycle_length (page_size : Z) : res LimboError Z :=
  _ ← rassert (PageSize_MIN <=? page_size); Ok (page_size / PTRMAP_ENTRY_SIZE + 1).
Definition get_ptrmap_page_no_for_db_page (db_page_no_to_query page_size : Z) : res LimboError Z :=
  n ← ptrmap_page_cycle_length page_size;
  let group_size := wrap 32 n in
  _ ← rassert (negb (group_size =? 0));
  effective_page_index ← usub db_page_no_to_query FIRST_PTRMAP_PAGE_NO;
  first ← umul 32 (effective_page_index / group_size) group_size;
  uadd 32 first FIRST_PTRMAP_PAGE_NO.
Definition is_ptrmap_page (db_page_no page_size : Z) : res LimboError bool :=
  if db_page_no =? 1 then Ok false
  else if db_page_no =? FIRST_PTRMAP_PAGE_NO then Ok true
  else p ← get_ptrmap_page_no_for_db_page db_page_no page_size; Ok (p =? db_page_no).
Definition get_ptrmap_offset_in_page (db_page_no_to_query ptrmap_page_no page_size : Z) : res LimboError Z :=
  n_data_pages_per_group ← entries_per_ptrmap_page page_size;
  first_data_page_mapped ← uadd 32 ptrmap_page_no 1;
  last_data_page_mapped ← uadd 32 ptrmap_page_no (wrap 32 n_data_pages_per_group);
  _ ← ensure (negb ((db_page_no_to_query <? first_data_page_mapped) || (last_data_page_mapped <? db_page_no_to_query))) InternalError;
  b ← is_ptrmap_page db_page_no_to_query page_size;
  _ ← ensure (negb b) InternalError;
  entry_index_on_page ← usub db_page_no_to_query first_data_page_mapped;
  Ok (entry_index_on_page * PTRMAP_ENTRY_SIZE).

(** * The state of the pager *)

Inductive AutoVacuumMode : Type := VacuumNone | VacuumFull | VacuumIncremental.
(** A [PageRef] is the number of the page. *)
Inductive AllocatePageState : Type :=
| AllocStart
| SearchAvailableFreeListLeaf (trunk_page : Z)
| ReuseFreelistLeaf (trunk_page leaf_page number_of_freelist_leaves : Z)
| AllocateNewPage (current_db_size : Z).
Inductive FreePageState : Type := FreeStart | AddToTrunk (page : Z) | NewTrunk (page : Z).
Inductive HeaderRefState : Type := HeaderStart | CreateHeader (page : Z).
(** [PtrMapGetState] and [PtrMapPutState]. *)
Inductive PtrMapState : Type := PtrMapStart | Deserialize (ptrmap_page offset_in_ptrmap_page : Z).

(** The pages: their contents, the numbers in the cache, those of pages that are not loaded
    yet, the reads that are issued for pages not in the cache ([pending_reads]), pin counts,
    the pages with overflow cells and the dirty ones. *)
Record Memory : Type := MkMemory {
  m_pages : gmap Z (list Z); m_cache : gset Z; m_loading : gset Z; m_pending : gset Z;
  m_pins : gmap Z Z; m_overflow : gset Z; m_dirty : gset Z
}.
Record Machines : Type := MkMachines {
  allocate_page_state : AllocatePageState; free_page_state : FreePageState; header_ref_state : HeaderRefState;
  ptrmap_get_state : PtrMapState; ptrmap_put_state : PtrMapState
}.
(** What the I/O layer does while a call waits. *)
Record turn : Type := MkTurn { t_loaded : list Z; t_evicted : list Z }.
(** For the calls that may have to spill, whether they wait for it and which pages they evict
    otherwise; the turns of the I/O layer; the buffers of new pages, with what is evicted to
    make room for them. *)
Record Environment : Type := MkEnvironment {
  e_spills : list (bool * list Z); e_turns : list turn; e_buffers : list (list Z * list Z)
}.
Record Pager : Type := MkPager {
  pg_header : DatabaseHeader; pg_mem : Memory; pg_machines : Machines; pg_env : Environment;
  pg_page_size : Z; pg_max_page_count : Z; pg_auto_vacuum : AutoVacuumMode
}.

Definition on_header (f : DatabaseHeader -> DatabaseHeader) (s : Pager) : Pager :=
  let 'MkPager h m st e sz mx v := s in MkPager (f h) m st e sz mx v.
Definition on_mem (f : Memory -> Memory) (s : Pager) : Pager :=
  let 'MkPager h m st e sz mx v := s in MkPager h (f m) st e sz mx v.
Definition on_machines (f : Machines -> Machines) (s : Pager) : Pager :=
  let 'MkPager h m st e sz mx v := s in MkPager h m (f st) e sz mx v.
Definition on_env (f : Environment -> Environment) (s : Pager) : Pager :=
  let 'MkPager h m st e sz mx v := s in MkPager h m st (f e) sz mx v.
(** The header with another size, first trunk page and number of free pages. *)
Definition with_sizes (size trunk free : Z) (h : DatabaseHeader) : DatabaseHeader := {|
  magic := magic h; page_size := page_size h; write_version := write_version h; read_version := read_version h;
  reserved_space := reserved_space h; max_embed_frac := max_embed_frac h; min_embed_frac := min_embed_frac h;
  leaf_frac := leaf_frac h; change_counter := change_counter h; database_size := size; freelist_trunk_page := trunk;
  freelist_pages := free; schema_cookie := schema_cookie h; schema_format := schema_format h;
  default_page_cache_size := default_page_cache_size h; vacuum_mode_largest_root_page := vacuum_mode_largest_root_page h;
  text_encoding := text_encoding h; user_version := user_version h; incremental_vacuum_enabled := incremental_vacuum_enabled h;
  application_id := application_id h; padding := padding h; version_valid_for := version_valid_for h; version_number := version_number h |}.
Definition set_database_size (n : Z) (h : DatabaseHeader) : DatabaseHeader := with_sizes n (freelist_trunk_page h) (freelist_pages h) h.
Definition set_freelist_trunk_page (n : Z) (h : DatabaseHeader) : DatabaseHeader := with_sizes (database_size h) n (freelist_pages h) h.
Definition set_freelist_pages (n : Z) (h : DatabaseHeader) : DatabaseHeader := with_sizes (database_size h) (freelist_trunk_page h) n h.

Definition set_alloc (a : AllocatePageState) (st : Machines) : Machines :=
  MkMachines a (free_page_state st) (header_ref_state st) (ptrmap_get_state st) (ptrmap_put_state st).
Definition set_free (f : FreePageState) (st : Machines) : Machines :=
  MkMachines (allocate_page_state st) f (header_ref_state st) (ptrmap_get_state st) (ptrmap_put_state st).
Definition set_header_ref (h : HeaderRefState) (st : Machines) : Machines :=
  MkMachines (allocate_page_state st) (free_page_state st) h (ptrmap_get_state st) (ptrmap_put_state st).
Definition set_ptrmap_get (p : PtrMapState) (st : Machines) : Machines :=
  MkMachines (allocate_page_state st) (free_page_state st) (header_ref_state st) p (ptrmap_put_state st).
Definition set_ptrmap_put (p : PtrMapState) (st : Machines) : Machines :=
  MkMachines (allocate_page_state st) (free_page_state st) (header_ref_state st) (ptrmap_get_state st) p.
Definition machines_start : Machines := MkMachines AllocStart FreeStart HeaderStart PtrMapStart PtrMapStart.

(** * Input and output *)

(** [IOResult]: a value, or a wait, for the read of a page or for something else. *)
Inductive ioresult (A : Type) : Type := Done (a : A) | IO (wait : option Z).
Arguments Done {A} a.
Arguments IO {A} wait.
Notation PG A := (ST Pager (ioresult A)).
(** [return_if_io!]. *)
Definition if_done {A B} (m : PG A) (k : A -> PG B) : PG B := x ← m; match x with Done a => k a | IO wait => mret (IO wait) end.
Declare Scope pager_scope.
Notation "'let?' x := m 'in' k" := (if_done m (fun x => k)) (at level 200, x pattern, m at level 200, k at level 200) : pager_scope.
Open Scope pager_scope.
Definition done_ {A} (a : A) : PG A := mret (Done a).

Definition on_cache (f : gset Z -> gset Z) (m : Memory) : Memory :=
  MkMemory (m_pages m) (f (m_cache m)) (m_loading m) (m_pending m) (m_pins m) (m_overflow m) (m_dirty m).
Definition on_loading (f : gset Z -> gset Z) (m : Memory) : Memory :=
  MkMemory (m_pages m) (m_cache m) (f (m_loading m)) (m_pending m) (m_pins m) (m_overflow m) (m_dirty m).
Definition on_pending (f : gset Z -> gset Z) (m : Memory) : Memory :=
  MkMemory (m_pages m) (m_cache m) (m_loading m) (f (m_pending m)) (m_pins m) (m_overflow m) (m_dirty m).
Definition set_page (p : Z) (b : list Z) (m : Memory) : Memory :=
  MkMemory (<[p := b]> (m_pages m)) (m_cache m) (m_loading m) (m_pending m) (m_pins m) (m_overflow m) (m_dirty m).
Definition set_pins (p n : Z) (m : Memory) : Memory :=
  MkMemory (m_pages m) (m_cache m) (m_loading m) (m_pending m) (<[p := n]> (m_pins m)) (m_overflow m) (m_dirty m).
Definition clear_overflow_cells (p : Z) (m : Memory) : Memory :=
  MkMemory (m_pages m) (m_cache m) (m_loading m) (m_pending m) (m_pins m) (m_overflow m ∖ {[p]}) (m_dirty m).
Definition mark_dirty (p : Z) (m : Memory) : Memory :=
  MkMemory (m_pages m) (m_cache m) (m_loading m) (m_pending m) (m_pins m) (m_overflow m) ({[p]} ∪ m_dirty m).

Definition is_loaded (p : Z) (m : Memory) : bool := bool_decide (p ∉ m_loading m).
Definition pin_count (p : Z) (m : Memory) : Z := default 0 (m_pins m !! p).
(** The pages that the state machines hold on to. *)
Definition held (st : Machines) : list Z :=
  match allocate_page_state st with SearchAvailableFreeListLeaf t => [t] | ReuseFreelistLeaf t l _ => [t; l] | _ => [] end ++
  match free_page_state st with FreeStart => [] | AddToTrunk p | NewTrunk p => [p] end ++
  match header_ref_state st with HeaderStart => [] | CreateHeader p => [p] end ++
  match ptrmap_get_state st with PtrMapStart => [] | Deserialize p _ => [p] end ++
  match ptrmap_put_state st with PtrMapStart => [] | Deserialize p _ => [p] end.
(** A page that the cache may evict, its flags apart: not loading, pinned, held or page 1. *)
Definition evictable (s : Pager) (p : Z) : bool :=
  is_loaded p (pg_mem s) && (pin_count p (pg_mem s) =? 0) && negb (p =? HEADER_PAGE_ID) && bool_decide (p ∉ held (pg_machines s)).
Definition evict (pages : list Z) (s : Pager) : Pager :=
  on_mem (on_cache (fun c => c ∖ list_to_set (List.filter (evictable s) pages))) s.
(** The turn of the I/O layer while a call waits; at last it completes every read. *)
Definition env_turn (wait : option Z) (s : Pager) : Pager :=
  let '(t, ts) := match e_turns (pg_env s) with [] => (MkTurn (elements (m_loading (pg_mem s))) [], []) | t :: ts => (t, ts) end in
  let loaded := list_to_set (t_loaded t ++ match wait with Some p => [p] | None => [] end) in
  on_env (fun e => MkEnvironment (e_spills e) ts (e_buffers e))
    (on_mem (on_loading (fun l => l ∖ loaded)) (evict (t_evicted t) s)).

(** Whether a call that may have to spill dirty pages waits for it, and what it evicts. *)
Definition try_spill : ST Pager (bool * list Z) :=
  s ← sget;
  match e_spills (pg_env s) with
  | [] => mret (false, [])
  | b :: bs => _ ← smodify (on_env (fun e => MkEnvironment bs (e_turns e) (e_buffers e))); mret b
  end.
Definition ensure_cache_space : PG unit := '(b, _) ← try_spill; mret (if b : bool then IO None else Done tt).
(** [buffer_pool.get_page()]. *)
Definition get_buffer : ST Pager (list Z * list Z) :=
  s ← sget;
  match e_buffers (pg_env s) with
  | [] => mret (replicate (Z.to_nat (pg_page_size s)) 0, [])
  | b :: bs => _ ← smodify (on_env (fun e => MkEnvironment (e_spills e) (e_turns e) bs)); mret b
  end.

(** [cache_insert], for a page whose read is issued. *)
Definition cache_insert (page_idx : Z) : PG unit :=
  s ← sget;
  _ ← sassert (bool_decide (page_idx ∉ m_cache (pg_mem s)));
  '(b, evicted) ← try_spill;
  if b : bool then mret (IO None)
  else
    _ ← smodify (evict evicted);
    _ ← smodify (on_mem (on_cache (fun c => {[page_idx]} ∪ c)));
    done_ tt.
(** The page, and whether there is a read to wait for. *)
Definition read_page (page_idx : Z) : PG (Z * bool) :=
  _ ← sassert (0 <=? page_idx);
  s ← sget;
  let m := pg_mem s in
  if negb (bool_decide (page_idx ∈ m_pending m)) && bool_decide (page_idx ∈ m_cache m) then
    mret (if is_loaded page_idx m then Done (page_idx, false) else IO None)
  else
    _ ← (if bool_decide (page_idx ∈ m_pending m) then mret tt
         else
           _ ← slift (ensure (bool_decide (is_Some (m_pages m !! page_idx))) IOError);
           smodify (on_mem (fun m => on_loading (fun l => {[page_idx]} ∪ l) (on_pending (fun l => {[page_idx]} ∪ l) m))));
    let? _ := cache_insert page_idx in
    _ ← smodify (on_mem (on_pending (fun l => l ∖ {[page_idx]})));
    done_ (page_idx, true).
(** Whether a read has already completed. *)
Definition succeeded (p : Z) (s : Pager) : bool := is_loaded p (pg_mem s).

Definition get_contents (p : Z) : ST Pager (list Z) :=
  s ← sget;
  _ ← sassert (is_loaded p (pg_mem s));
  match m_pages (pg_mem s) !! p with Some b => mret b | None => slift Panic end.
Definition put_contents (p : Z) (b : list Z) : ST Pager unit := smodify (on_mem (set_page p b)).
Definition read_u32_no_offset (b : list Z) (pos : Z) : res LimboError Z := bs ← slice b pos (pos + 4); Ok (be_val bs).
Definition write_u32_no_offset (p pos value : Z) : ST Pager unit :=
  b ← get_contents p; b ← slift (write_at b pos (be_bytes 4 value)); put_contents p b.
(** [as_ptr().fill(0)]. *)
Definition fill_zero (p : Z) : ST Pager unit := b ← get_contents p; put_contents p (replicate (length b) 0).

Definition pin (p : Z) : ST Pager unit := smodify (on_mem (fun m => set_pins p (pin_count p m + 1) m)).
Definition unpin (p : Z) : ST Pager unit :=
  s ← sget; _ ← sassert (0 <? pin_count p (pg_mem s)); smodify (on_mem (fun m => set_pins p (pin_count p m - 1) m)).
(** [add_dirty], without the subjournal. *)
Definition add_dirty (p : Z) : ST Pager unit :=
  s ← sget; _ ← sassert (is_loaded p (pg_mem s)); smodify (on_mem (mark_dirty p)).
(** [allocate_new_page], [add_dirty] and [force_insert_page]: the new page is loaded. *)
Definition add_new_page (p : Z) : ST Pager unit :=
  '(buffer, evicted) ← get_buffer;
  _ ← smodify (on_mem (mark_dirty p));
  s ← sget;
  _ ← slift (ensure (bool_decide (p ∉ m_cache (pg_mem s))) (FromCache CacheKeyExists));
  _ ← smodify (on_mem (fun m => on_loading (fun l => l ∖ {[p]}) (set_page p buffer m)));
  _ ← smodify (evict evicted);
  smodify (on_mem (on_cache (fun c => {[p]} ∪ c))).

(** [read_header_page] of an initialised database, and [HeaderRefMut::from_pager]. *)
Definition create_header (page : Z) : PG Z :=
  s ← sget;
  _ ← sassert (is_loaded page (pg_mem s));
  _ ← sassert (page =? HEADER_PAGE_ID);
  _ ← smodify (on_machines (set_header_ref HeaderStart));
  done_ page.
Definition read_header_page : PG Z :=
  s ← sget;
  match header_ref_state (pg_machines s) with
  | HeaderStart =>
      let? x := read_page HEADER_PAGE_ID in
      let '(page, c) := x in
      _ ← smodify (on_machines (set_header_ref (CreateHeader page)));
      if c : bool then mret (IO (Some page)) else create_header page
  | CreateHeader page => create_header page
  end.
Definition header_ref_mut : PG unit := let? page := read_header_page in _ ← add_dirty page; done_ tt.
Definition modify_header (f : DatabaseHeader -> res LimboError DatabaseHeader) : ST Pager unit :=
  s ← sget; h ← slift (f (pg_header s)); smodify (on_header (fun _ => h)).

(** * Allocation *)

(** [pending_byte_page_id]. *)
Definition pending_byte_page_id (s : Pager) : option Z :=
  if pg_page_size s =? 0 then None else Some (PENDING_BYTE / pg_page_size s + 1).
(** The pointer-map page that has to come before the next page, if it is its turn. *)
Definition allocate_ptrmap_page (db_size : Z) : ST Pager Z :=
  s ← sget;
  match pg_auto_vacuum s with
  | VacuumFull =>
      next ← slift (uadd 32 db_size 1);
      b ← slift (is_ptrmap_page next (PageSize_get (page_size (pg_header s))));
      if b : bool then
        _ ← (if bool_decide (next ∈ m_cache (pg_mem s)) then mret tt else add_new_page next);
        mret next
      else mret db_size
  | _ => mret db_size
  end.
Definition set_allocate_page_state (a : AllocatePageState) : ST Pager unit := smodify (on_machines (set_alloc a)).
Definition page_is_in_cache (p : Z) : ST Pager unit := s ← sget; sassert (bool_decide (p ∈ m_cache (pg_mem s))).
Definition has_no_overflow_cells (p : Z) : ST Pager unit := s ← sget; sassert (bool_decide (p ∉ m_overflow (pg_mem s))).
(** [buf.copy_within(src..src_end, dst)]. *)
Definition copy_within_page (b : list Z) (src src_end dst : Z) : res LimboError (list Z) := bs ← slice b src src_end; write_at b dst bs.

Definition reuse_trunk (trunk_page next_trunk_page_id : Z) : PG Z :=
  _ ← modify_header (fun h => n ← usub (freelist_pages h) 1; Ok (set_freelist_pages n (set_freelist_trunk_page next_trunk_page_id h)));
  _ ← add_dirty trunk_page;
  _ ← has_no_overflow_cells trunk_page;
  _ ← fill_zero trunk_page;
  _ ← page_is_in_cache trunk_page;
  _ ← unpin trunk_page;
  _ ← set_allocate_page_state AllocStart;
  done_ trunk_page.
Definition reuse_leaf (trunk_page leaf_page number_of_freelist_leaves : Z) : PG Z :=
  s ← sget;
  _ ← sassert (is_loaded leaf_page (pg_mem s));
  _ ← add_dirty leaf_page;
  _ ← has_no_overflow_cells leaf_page;
  _ ← fill_zero leaf_page;
  _ ← page_is_in_cache leaf_page;
  _ ← add_dirty trunk_page;
  remaining_leaves_count ← slift (usub number_of_freelist_leaves 1);
  let start := FREELIST_TRUNK_OFFSET_FIRST_LEAF_PTR + FREELIST_LEAF_PTR_SIZE in
  b ← get_contents trunk_page;
  b ← slift (copy_within_page b start (start + remaining_leaves_count * FREELIST_LEAF_PTR_SIZE) FREELIST_TRUNK_OFFSET_FIRST_LEAF_PTR);
  _ ← put_contents trunk_page b;
  _ ← write_u32_no_offset trunk_page FREELIST_TRUNK_OFFSET_LEAF_COUNT remaining_leaves_count;
  _ ← modify_header (fun h => n ← usub (freelist_pages h) 1; Ok (set_freelist_pages n h));
  _ ← unpin trunk_page;
  _ ← unpin leaf_page;
  _ ← set_allocate_page_state AllocStart;
  done_ leaf_page.
Definition allocate_at_end (current_db_size : Z) : PG Z :=
  s ← sget;
  new_db_size ← slift (uadd 32 current_db_size 1);
  new_db_size ← (if bool_decide (Some new_db_size = pending_byte_page_id s) then
      _ ← add_new_page new_db_size; slift (uadd 32 new_db_size 1)
    else mret new_db_size);
  if pg_max_page_count s <? new_db_size then slift (Err DatabaseFull)
  else
    _ ← add_new_page new_db_size;
    _ ← smodify (on_header (set_database_size new_db_size));
    _ ← set_allocate_page_state AllocStart;
    done_ new_db_size.
(** One state and then [next], the rest of the loop. *)
Definition allocate_page_step (next : PG Z) : PG Z :=
  s ← sget;
  match allocate_page_state (pg_machines s) with
  | AllocStart =>
      new_db_size ← allocate_ptrmap_page (database_size (pg_header s));
      let first := freelist_trunk_page (pg_header s) in
      if first =? 0 then _ ← set_allocate_page_state (AllocateNewPage new_db_size); next
      else
        let? x := read_page first in
        let '(trunk_page, c) := x in
        _ ← pin trunk_page;
        _ ← set_allocate_page_state (SearchAvailableFreeListLeaf trunk_page);
        if c : bool then mret (IO (Some trunk_page)) else next
  | SearchAvailableFreeListLeaf trunk_page =>
      b ← get_contents trunk_page;
      next_trunk_page_id ← slift (read_u32_no_offset b FREELIST_TRUNK_OFFSET_NEXT_TRUNK_PTR);
      number_of_freelist_leaves ← slift (read_u32_no_offset b FREELIST_TRUNK_OFFSET_LEAF_COUNT);
      if negb (number_of_freelist_leaves =? 0) then
        next_leaf_page_id ← slift (read_u32_no_offset b FREELIST_TRUNK_OFFSET_FIRST_LEAF_PTR);
        let? x := read_page next_leaf_page_id in
        let '(leaf_page, c) := x in
        _ ← pin leaf_page;
        _ ← set_allocate_page_state (ReuseFreelistLeaf trunk_page leaf_page number_of_freelist_leaves);
        if c : bool then mret (IO (Some leaf_page)) else next
      else reuse_trunk trunk_page next_trunk_page_id
  | ReuseFreelistLeaf trunk_page leaf_page number_of_freelist_leaves => reuse_leaf trunk_page leaf_page number_of_freelist_leaves
  | AllocateNewPage current_db_size => allocate_at_end current_db_size
  end.
(** The states are passed through in order, so that four rounds are enough. *)
Fixpoint allocate_page_loop (fuel : nat) : PG Z :=
  match fuel with O => slift Panic | S fuel => allocate_page_step (allocate_page_loop fuel) end.
Definition allocate_page : PG Z :=
  let? _ := ensure_cache_space in
  let? _ := header_ref_mut in
  allocate_page_loop 4.
Definition allocate_overflow_page : PG Z := let? page := allocate_page in _ ← fill_zero page; done_ page.

(** * Release *)

Definition set_free_page_state (f : FreePageState) : ST Pager unit := smodify (on_machines (set_free f)).
(** [page] is the page itself, if the caller has it. *)
Definition free_start (page : option Z) (page_id : Z) (next : PG unit) : PG unit :=
  s ← sget;
  _ ← slift (ensure (negb ((page_id <? 2) || (database_size (pg_header s) <? page_id))) Corrupt);
  let? x := match page with
            | Some page => _ ← sassert (page =? page_id); done_ (page, false)
            | None => read_page page_id
            end in
  let '(page, c) := x in
  _ ← smodify (on_mem (clear_overflow_cells page));
  _ ← modify_header (fun h => n ← uadd 32 (freelist_pages h) 1; Ok (set_freelist_pages n h));
  _ ← pin page;
  _ ← set_free_page_state (if negb (freelist_trunk_page (pg_header s) =? 0) then AddToTrunk page else NewTrunk page);
  s ← sget;
  if c && negb (succeeded page s) then mret (IO (Some page)) else next.
Definition add_to_trunk (page page_id : Z) (next : PG unit) : PG unit :=
  s ← sget;
  let trunk_page_id := freelist_trunk_page (pg_header s) in
  let? x := read_page trunk_page_id in
  let '(trunk_page, c) := x in
  s ← sget;
  if c && negb (succeeded trunk_page s) then mret (IO (Some trunk_page))
  else
    b ← get_contents trunk_page;
    number_of_leaf_pages ← slift (read_u32_no_offset b FREELIST_TRUNK_OFFSET_LEAF_COUNT);
    usable ← slift (usable_space (pg_header s));
    max_free_list_entries ← slift (usub (usable / FREELIST_LEAF_PTR_SIZE) RESERVED_SLOTS);
    if number_of_leaf_pages <? wrap 32 max_free_list_entries then
      _ ← sassert (trunk_page =? trunk_page_id);
      _ ← add_dirty trunk_page;
      n ← slift (uadd 32 number_of_leaf_pages 1);
      _ ← write_u32_no_offset trunk_page FREELIST_TRUNK_OFFSET_LEAF_COUNT n;
      _ ← write_u32_no_offset trunk_page (FREELIST_TRUNK_OFFSET_FIRST_LEAF_PTR + number_of_leaf_pages * FREELIST_LEAF_PTR_SIZE) (wrap 32 page_id);
      _ ← unpin page;
      _ ← set_free_page_state FreeStart;
      done_ tt
    else _ ← set_free_page_state (NewTrunk page); next.
Definition new_trunk (page page_id : Z) : PG unit :=
  s ← sget;
  _ ← sassert (is_loaded page (pg_mem s));
  _ ← sassert (page =? page_id);
  _ ← add_dirty page;
  _ ← write_u32_no_offset page FREELIST_TRUNK_OFFSET_NEXT_TRUNK_PTR (freelist_trunk_page (pg_header s));
  _ ← write_u32_no_offset page FREELIST_TRUNK_OFFSET_LEAF_COUNT 0;
  _ ← modify_header (fun h => Ok (set_freelist_trunk_page (wrap 32 page_id) h));
  _ ← unpin page;
  _ ← set_free_page_state FreeStart;
  done_ tt.
Fixpoint free_page_loop (fuel : nat) (page : option Z) (page_id : Z) : PG unit :=
  match fuel with
  | O => slift Panic
  | S fuel =>
      s ← sget;
      match free_page_state (pg_machines s) with
      | FreeStart => free_start page page_id (free_page_loop fuel page page_id)
      | AddToTrunk p => add_to_trunk p page_id (free_page_loop fuel page page_id)
      | NewTrunk p => new_trunk p page_id
      end
  end.
Definition free_page (page : option Z) (page_id : Z) : PG unit :=
  let? _ := header_ref_mut in free_page_loop 4 page page_id.

(** * The pointer map in the file *)

Definition with_page_size {A} (k : Z -> PG A) : PG A :=
  let? _ := read_header_page in
  s ← sget;
  k (PageSize_get (page_size (pg_header s))).
Definition ptrmap_get_entry (ptrmap_page offset_in_ptrmap_page : Z) : PG (option PtrmapEntry) :=
  b ← get_contents ptrmap_page;
  _ ← slift (ensure (offset_in_ptrmap_page + PTRMAP_ENTRY_SIZE <=? len b) InternalError);
  entry_slice ← slift (slice b offset_in_ptrmap_page (offset_in_ptrmap_page + PTRMAP_ENTRY_SIZE));
  _ ← smodify (on_machines (set_ptrmap_get PtrMapStart));
  match PtrmapEntry_deserialize entry_slice with Some entry => done_ (Some entry) | None => slift (Err Corrupt) end.
Definition ptrmap_get (target_page_num : Z) : PG (option PtrmapEntry) :=
  s ← sget;
  match ptrmap_get_state (pg_machines s) with
  | PtrMapStart =>
      with_page_size (fun page_size =>
        skip ← (if target_page_num <? FIRST_PTRMAP_PAGE_NO then mret true else slift (is_ptrmap_page target_page_num page_size));
        if skip : bool then done_ None
        else
          ptrmap_pg_no ← slift (get_ptrmap_page_no_for_db_page target_page_num page_size);
          offset ← slift (get_ptrmap_offset_in_page target_page_num ptrmap_pg_no page_size);
          let? x := read_page ptrmap_pg_no in
          let '(ptrmap_page, c) := x in
          _ ← smodify (on_machines (set_ptrmap_get (Deserialize ptrmap_page offset)));
          if c : bool then mret (IO (Some ptrmap_page)) else ptrmap_get_entry ptrmap_page offset)
  | Deserialize ptrmap_page offset => ptrmap_get_entry ptrmap_page offset
  end.
Definition ptrmap_put_entry (entry : PtrmapEntry) (ptrmap_page offset_in_ptrmap_page : Z) : PG unit :=
  _ ← add_dirty ptrmap_page;
  b ← get_contents ptrmap_page;
  _ ← slift (ensure (offset_in_ptrmap_page + PTRMAP_ENTRY_SIZE <=? len b) InternalError);
  bs ← slift (slice b offset_in_ptrmap_page (offset_in_ptrmap_page + PTRMAP_ENTRY_SIZE));
  bs ← slift (PtrmapEntry_serialize entry bs);
  b ← slift (write_at b offset_in_ptrmap_page bs);
  _ ← put_contents ptrmap_page b;
  _ ← smodify (on_machines (set_ptrmap_put PtrMapStart));
  done_ tt.
Definition ptrmap_put (db_page_no_to_update : Z) (entry : PtrmapEntry) : PG unit :=
  s ← sget;
  match ptrmap_put_state (pg_machines s) with
  | PtrMapStart =>
      with_page_size (fun page_size =>
        skip ← (if db_page_no_to_update <? FIRST_PTRMAP_PAGE_NO then mret true else slift (is_ptrmap_page db_page_no_to_update page_size));
        if skip : bool then slift (Err InternalError)
        else
          ptrmap_pg_no ← slift (get_ptrmap_page_no_for_db_page db_page_no_to_update page_size);
          offset ← slift (get_ptrmap_offset_in_page db_page_no_to_update ptrmap_pg_no page_size);
          let? x := read_page ptrmap_pg_no in
          let '(ptrmap_page, c) := x in
          _ ← smodify (on_machines (set_ptrmap_put (Deserialize ptrmap_page offset)));
          if c : bool then mret (IO (Some ptrmap_page)) else ptrmap_put_entry entry ptrmap_page offset)
  | Deserialize ptrmap_page offset => ptrmap_put_entry entry ptrmap_page offset
  end.

(** * Calls *)

(** A call that waits is made again after the I/O layer had its turn. *)
Fixpoint block_loop {A} (fuel : nat) (m : PG A) : ST Pager A :=
  match fuel with
  | O => slift Panic
  | S fuel =>
      x ← m;
      match x with
      | Done a => mret a
      | IO wait => _ ← smodify (env_turn wait); block_loop fuel m
      end
  end.
(** At every wait the I/O layer uses up a turn, a spill or a buffer, or there is one page more
    in the cache and loaded. *)
Definition block_fuel (s : Pager) : nat :=
  let n := Z.to_nat (database_size (pg_header s)) in
  S ((length (e_turns (pg_env s)) + (length (e_spills (pg_env s)) + length (e_buffers (pg_env s)))) * S n + n).
Definition block {A} (m : PG A) : ST Pager A := s ← sget; block_loop (block_fuel s) m.
(** [reset_internal_states], on the states modelled here. *)
Definition reset_internal_states (s : Pager) : Pager :=
  on_machines (fun _ => machines_start) (on_mem (on_pending (fun _ => ∅)) s).
