(* ===== verification/PageAllocIO.v ===== *)
(** The I/O of the pager of PageAlloc: what [read_page] and the header reference give, what a
    wait changes, and that a call that is made again after every wait comes to its end. *)

From stdpp Require Import base list gmap numbers fin_sets.
From Stdlib Require Import ZArith Lia.
From S2P Require Import Prelude DbHeader PageAlloc.

Lemma wp_lift {S A} (r : res LimboError A) a (s : S) Q E : r = Ok a -> Q a s -> wp (slift r) s Q E.
Proof. by intros ->. Qed.

(** * Waiting *)

Definition size_of (s : Pager) : Z := database_size (pg_header s).
Definition cached (s : Pager) (p : Z) : Prop := p ∈ m_cache (pg_mem s).
Definition loaded (s : Pager) (p : Z) : Prop := p ∉ m_loading (pg_mem s).
Definition ready (s : Pager) (p : Z) : Prop := cached s p /\ loaded s p.
Global Instance ready_dec s p : Decision (ready s p).
Proof. unfold ready, cached, loaded. apply _. Defined.
(** The occasions to evict pages that are left. *)
Definition spills (s : Pager) : nat := (length (e_spills (pg_env s)) + length (e_buffers (pg_env s)))%nat.
Definition turns (s : Pager) : nat := length (e_turns (pg_env s)).

(** How many pages are not in the cache and loaded. *)
Definition unready (s : Pager) : nat := length (filter (fun p => ~ ready s p) (seqZ 1 (size_of s))).
Definition measure (s : Pager) : nat := ((turns s + spills s) * S (Z.to_nat (size_of s)) + unready s)%nat.

(** A part of a call uses up spills, or it leaves the pages in the cache there. *)
Definition onward (s s' : Pager) : Prop :=
  size_of s' = size_of s /\ e_turns (pg_env s') = e_turns (pg_env s) /\
  ((spills s' < spills s)%nat \/ spills s' = spills s /\ forall p, ready s p -> ready s' p).
(** A call that waits has used up a spill, or it has got a page into the cache. *)
Definition waits (s s' : Pager) : Prop :=
  onward s s' /\ ((spills s' < spills s)%nat \/ exists p, 1 <= p <= size_of s /\ ~ ready s p /\ cached s' p).

Lemma onward_refl s : onward s s.
Proof. split_and!; try done. right. done. Qed.
Lemma onward_trans s1 s2 s3 : onward s1 s2 -> onward s2 s3 -> onward s1 s3.
Proof.
  intros (Hn & Ht & Hs) (Hn' & Ht' & Hs'). split_and!; [congruence..|].
  destruct Hs as [?|[? Hr]], Hs' as [?|[? Hr']]; [left; lia..|]. right. split; [congruence|auto].
Qed.
Lemma onward_waits s1 s2 s3 : onward s1 s2 -> waits s2 s3 -> waits s1 s3.
Proof.
  intros H12 [H23 Hw]. split; [by eapply onward_trans|]. destruct H12 as (Hn & _ & [?|[? Hr]]); destruct H23 as (_ & _ & Hs).
  - left. destruct Hs as [?|[? _]]; lia.
  - destruct Hw as [?|(p & Hp & Hnr & Hc)]; [left; lia|]. right. exists p. split_and!; [lia..| |done]. intros Hrp. by apply Hnr, Hr.
Qed.

Lemma filter_length_lt {A} (P Q : A -> Prop) `{!forall x, Decision (P x), !forall x, Decision (Q x)} (l : list A) x :
  (forall y, Q y -> P y) -> x ∈ l -> P x -> ~ Q x -> (length (filter Q l) < length (filter P l))%nat.
Proof.
  intros HQ Hx HP Hn. assert (Hle : forall l, (length (filter Q l) <= length (filter P l))%nat).
  { clear Hx l. induction l as [|y l IH]; [done|]. rewrite !filter_cons. repeat case_decide; cbn; try lia. by exfalso; auto. }
  induction l as [|y l IH]; [by apply elem_of_nil in Hx|]. apply elem_of_cons in Hx as [->|Hx]; rewrite !filter_cons.
  - specialize (Hle l). repeat case_decide; cbn; done || lia.
  - specialize (IH Hx). repeat case_decide; cbn; try lia. by exfalso; auto.
Qed.
Lemma unready_le s : (unready s <= Z.to_nat (size_of s))%nat.
Proof. unfold unready. etrans; [apply length_filter|]. by rewrite length_seqZ. Qed.

Lemma env_turn_eq w s :
  exists ld ts,
    (match e_turns (pg_env s) with [] => ts = [] /\ m_loading (pg_mem s) ⊆ ld | t :: ts' => ts = ts' end) /\
    (forall p, w = Some p -> p ∈ ld) /\
    env_turn w s = on_env (fun e => MkEnvironment (e_spills e) ts (e_buffers e))
      (on_mem (on_loading (fun l => l ∖ ld)) (evict (match e_turns (pg_env s) with [] => [] | t :: _ => t_evicted t end) s)).
Proof.
  unfold env_turn. destruct (e_turns (pg_env s)) as [|t ts]; (eexists _, _; split; [|split; [|reflexivity]]).
  - split; [done|]. intros q Hq. cbn. rewrite elem_of_list_to_set, elem_of_app, elem_of_elements. by left.
  - intros p ->. rewrite elem_of_list_to_set, elem_of_app. right. by apply list_elem_of_singleton.
  - done.
  - intros p ->. rewrite elem_of_list_to_set, elem_of_app. right. by apply list_elem_of_singleton.
Qed.
(** What cannot be evicted stays. *)
Definition kept (s : Pager) (p : Z) : Prop :=
  p = HEADER_PAGE_ID \/ 0 < pin_count p (pg_mem s) \/ p ∈ held (pg_machines s).
Lemma kept_not_evictable s p : kept s p -> evictable s p = false.
Proof.
  intros Hk. apply not_true_iff_false. unfold evictable. rewrite !andb_true_iff, Z.eqb_eq, bool_decide_eq_true.
  intros [[[_ Hp] He] Hh]. destruct Hk as [->|[Hk|Hk]]; [done|lia|done].
Qed.
Lemma evict_cached pages s p : cached (evict pages s) p <-> cached s p /\ ~ (p ∈ pages /\ evictable s p = true).
Proof.
  unfold cached, evict. destruct s as [h [] st e sz mx v]. cbn. rewrite elem_of_difference, elem_of_list_to_set.
  rewrite list_elem_of_In, filter_In, <- list_elem_of_In. done.
Qed.

Lemma env_turn_facts w s :
  let s' := env_turn w s in
  pg_header s' = pg_header s /\ m_pages (pg_mem s') = m_pages (pg_mem s) /\ m_pins (pg_mem s') = m_pins (pg_mem s) /\
  m_overflow (pg_mem s') = m_overflow (pg_mem s) /\ m_pending (pg_mem s') = m_pending (pg_mem s) /\ pg_machines s' = pg_machines s /\
  e_spills (pg_env s') = e_spills (pg_env s) /\ e_buffers (pg_env s') = e_buffers (pg_env s) /\
  pg_page_size s' = pg_page_size s /\ pg_max_page_count s' = pg_max_page_count s /\ pg_auto_vacuum s' = pg_auto_vacuum s /\
  m_cache (pg_mem s') ⊆ m_cache (pg_mem s) /\ m_loading (pg_mem s') ⊆ m_loading (pg_mem s) /\
  (forall p, cached s p -> kept s p -> cached s' p) /\ (forall p, w = Some p -> loaded s' p) /\
  match e_turns (pg_env s) with [] => turns s' = 0%nat /\ forall p, cached s p -> ready s' p | _ => turns s = S (turns s') end.
Proof.
  destruct (env_turn_eq w s) as (ld & ts & Hts & Hw & ->). intros s'.
  assert (Hc : forall p, cached s p -> kept s p -> cached s' p).
  { intros p Hp Hk. unfold s'. generalize (match e_turns (pg_env s) with [] => [] | t :: _ => t_evicted t end). intros ev.
    assert (He := evict_cached ev s p). rewrite (kept_not_evictable s p Hk) in He.
    destruct s as [h [] st e sz mx v]. unfold cached in *. cbn in *. apply He. split; [done|]. by intros [_ ?]. }
  unfold s', turns in *. destruct s as [h [pages cache loading pending pins overflow dirty] st [sp tn bf] sz mx v].
  cbn [pg_env e_turns] in *. split_and!; try done.
  - cbn. set_solver.
  - cbn. set_solver.
  - intros p ->. unfold loaded. cbn. specialize (Hw p eq_refl). set_solver.
  - destruct tn as [|t ts']; cbn in *; [|by subst]. destruct Hts as [-> Hld]. split; [done|]. intros p Hp. split; [|unfold loaded; cbn; set_solver].
    unfold cached in *. cbn in *. set_solver.
Qed.
Lemma waits_measure w s s' : waits s s' -> (measure (env_turn w s') < measure s)%nat.
Proof.
  intros [(Hn & Ht & Hs) Hw]. destruct (env_turn_facts w s') as (Hh & _ & _ & _ & _ & _ & Hsp & Hbf & _ & _ & _ & _ & _ & _ & _ & Hcase).
  set (s2 := env_turn w s') in *. assert (Hn2 : size_of s2 = size_of s) by (unfold size_of in *; congruence).
  assert (Hs2 : spills s2 = spills s') by (unfold spills; by rewrite Hsp, Hbf). pose proof (unready_le s2) as Hu.
  assert (Htt : turns s' = turns s) by (unfold turns; by rewrite Ht). unfold measure. rewrite Hn2, Hs2 in *.
  destruct (e_turns (pg_env s')) as [|t ts] eqn:He.
  - destruct Hcase as [Ht0 Hall]. assert (turns s = 0%nat) by (rewrite <- Htt; unfold turns; by rewrite He). rewrite Ht0.
    destruct (decide (spills s' < spills s)%nat) as [Hlt|Hge]; [nia|].
    destruct Hs as [?|[Hseq Hr]]; [lia|]. destruct Hw as [?|(p & Hp & Hnr & Hc)]; [lia|].
    assert ((unready s2 < unready s)%nat); [|nia]. unfold unready. rewrite Hn2. apply (filter_length_lt _ _ _ p).
    + intros y Hy Hry. apply Hy. apply Hall. apply Hr in Hry. apply Hry.
    + apply elem_of_seqZ. lia.
    + done.
    + intros Hnot. apply Hnot. by apply Hall.
  - assert ((spills s' <= spills s)%nat) by (destruct Hs as [?|[? _]]; lia). nia.
Qed.
(** A call that keeps [I] over its waits comes to its end. *)
Lemma block_wp {A} (m : PG A) (I : Pager -> Prop) (Q : A -> Pager -> Prop) E s :
  (forall s, I s -> wp m s (fun x s' => match x with Done a => Q a s' | IO w => waits s s' /\ I (env_turn w s') end) E) ->
  I s -> wp (block m) s Q E.
Proof.
  intros Hm Hi. unfold block. wstep. wstep. assert (Hf : (measure s < block_fuel s)%nat).
  { unfold measure, block_fuel. fold (size_of s) (turns s) (spills s). pose proof (unready_le s). lia. }
  revert Hf. generalize (block_fuel s). intros fuel. revert s Hi. induction fuel as [|fuel IH]; intros s Hi Hf; [lia|].
  cbn [block_loop]. wstep. eapply wp_conseq; [by apply Hm| |done]. intros [a|w] s' Hx; [by wstep|]. destruct Hx as [Hw Hi'].
  wstep. wstep. apply IH; [done|]. apply (waits_measure w) in Hw. lia.
Qed.

(** * Reading pages *)

(** The last page number the cache may have: a pointer-map page may be there before it counts. *)
Definition page_sz (s : Pager) : Z := PageSize_get (page_size (pg_header s)).
Definition ptrmap_next (s : Pager) : bool :=
  match pg_auto_vacuum s with
  | VacuumFull => match is_ptrmap_page (size_of s + 1) (page_sz s) with Ok b => b | _ => false end
  | _ => false
  end.
Definition top_page (s : Pager) : Z := if ptrmap_next s then size_of s + 1 else size_of s.
Record mem_ok (s : Pager) : Prop := {
  mo_pending p : p ∈ m_pending (pg_mem s) -> ~ cached s p;
  mo_issued p : p ∈ m_pending (pg_mem s) -> 1 <= p <= size_of s;
  mo_known p : cached s p -> 1 <= p <= top_page s
}.
(** What a read leaves as it was. *)
Definition same (s s' : Pager) : Prop :=
  pg_header s' = pg_header s /\ m_pages (pg_mem s') = m_pages (pg_mem s) /\ m_pins (pg_mem s') = m_pins (pg_mem s) /\
  m_overflow (pg_mem s') = m_overflow (pg_mem s) /\ pg_machines s' = pg_machines s /\ e_buffers (pg_env s') = e_buffers (pg_env s) /\
  pg_page_size s' = pg_page_size s /\ pg_max_page_count s' = pg_max_page_count s /\ pg_auto_vacuum s' = pg_auto_vacuum s.
Definition keeps (s s' : Pager) : Prop := forall p, cached s p -> kept s p -> cached s' p /\ (loaded s p -> loaded s' p).
Definition reads (s s' : Pager) : Prop := same s s' /\ keeps s s' /\ onward s s' /\ mem_ok s'.

Lemma same_pager_refl s : same s s.
Proof. by split_and!. Qed.
Lemma same_trans s1 s2 s3 : same s1 s2 -> same s2 s3 -> same s1 s3.
Proof. unfold same. intros (?&?&?&?&?&?&?&?&?) (?&?&?&?&?&?&?&?&?). split_and!; congruence. Qed.
Lemma same_kept s s' p : same s s' -> kept s p -> kept s' p.
Proof. intros (_ & _ & Hp & _ & Hm & _) Hk. unfold kept, pin_count in *. by rewrite Hp, Hm. Qed.
Lemma same_size s s' : same s s' -> size_of s' = size_of s.
Proof. unfold size_of. by intros (-> & _). Qed.
Lemma same_top s s' : same s s' -> top_page s' = top_page s.
Proof.
  intros Hs. unfold top_page, ptrmap_next, page_sz. rewrite (same_size s s' Hs). by destruct Hs as (-> & _ & _ & _ & _ & _ & _ & _ & ->).
Qed.
Lemma size_le_top s : size_of s <= top_page s.
Proof. unfold top_page. destruct (ptrmap_next s); lia. Qed.
Lemma keeps_refl s : keeps s s.
Proof. by intros p. Qed.
Lemma reads_refl s : mem_ok s -> reads s s.
Proof. intros. split_and!; auto using same_pager_refl, keeps_refl, onward_refl. Qed.

(** The pages in the cache that stay there also stay loaded. *)
Lemma cache_insert_wp p s Q E :
  ~ cached s p -> p ∈ m_pending (pg_mem s) ->
  (forall s', same s s' -> m_pending (pg_mem s') = m_pending (pg_mem s) -> m_loading (pg_mem s') = m_loading (pg_mem s) ->
     cached s' p -> (forall q, cached s' q -> q = p \/ cached s q) -> (forall q, cached s q -> kept s q -> cached s' q) -> onward s s' ->
     Q (Done tt) s') ->
  (forall s', same s s' -> m_pending (pg_mem s') = m_pending (pg_mem s) -> m_loading (pg_mem s') = m_loading (pg_mem s) ->
     m_cache (pg_mem s') = m_cache (pg_mem s) -> onward s s' -> (spills s' < spills s)%nat -> Q (IO None) s') ->
  wp (cache_insert p) s Q E.
Proof.
  intros Hc Hp Hd Hi. unfold cache_insert. wstep. wstep. wstep. wstep; [by apply bool_decide_eq_true|]. wstep.
  unfold try_spill. wstep. wstep. destruct s as [h [pages cache loading pending pins overflow dirty] st [sp tn bf] sz mx v].
  cbn [pg_env e_spills]. destruct sp as [|[[] ev] sp].
  - wstep. wstep. wstep. wstep. wstep. apply wp_ret. apply Hd; try done; unfold cached; cbn.
    + set_solver.
    + intros q. set_solver.
    + intros q Hq _. unfold cached in *. cbn in *. set_solver.
    + split_and!; try done. right. split; [done|]. intros q [Hq Hl]. split; [|done]. unfold cached in *. cbn in *. set_solver.
  - wstep. wstep. wstep. wstep. apply Hi; try done; [|unfold spills; cbn; lia]. split_and!; try done. left. unfold spills. cbn. lia.
  - wstep. wstep. wstep. wstep. wstep. wstep. wstep. apply wp_ret. set (s1 := on_env _ _) in *.
    assert (Hev := fun q => evict_cached ev s1 q). unfold s1 in *. apply Hd; try done.
    + unfold cached. cbn. set_solver.
    + intros q. unfold cached in *. cbn in *. set_solver.
    + intros q Hq Hk. apply kept_not_evictable in Hk. assert (Hx := proj2 (Hev q)). unfold cached in *. cbn in *.
      apply elem_of_union_r, Hx. split; [done|]. intros [_ He]. unfold evictable in *. cbn in *. congruence.
    + split_and!; try done. left. unfold spills. cbn. lia.
Qed.
(** Issuing the read of a page that is not in the cache. *)
Definition issued (p : Z) (s : Pager) : Pager :=
  if bool_decide (p ∈ m_pending (pg_mem s)) then s
  else on_mem (fun m => on_loading (fun l => {[p]} ∪ l) (on_pending (fun l => {[p]} ∪ l) m)) s.
Lemma reads_trans s1 s2 s3 : reads s1 s2 -> reads s2 s3 -> reads s1 s3.
Proof.
  intros (Hs & Hk & Ho & _) (Hs' & Hk' & Ho' & Hm). split_and!; [by eapply same_trans| |by eapply onward_trans|done].
  intros p Hp Hkp. destruct (Hk p Hp Hkp) as [Hp2 Hl]. destruct (Hk' p Hp2) as [Hp3 Hl']; [by eapply same_kept|]. auto.
Qed.
Lemma issued_reads p s :
  mem_ok s -> ~ cached s p -> 1 <= p <= size_of s ->
  reads s (issued p s) /\ (forall q, cached (issued p s) q <-> cached s q) /\ p ∈ m_pending (pg_mem (issued p s)) /\ spills (issued p s) = spills s.
Proof.
  intros [Hp Hi Hk] Hc Hr. unfold issued. case_bool_decide as Hb; [by split_and!; [apply reads_refl|..]|].
  destruct s as [h [pages cache loading pending pins overflow dirty] st e sz mx v]. split_and!; try done; [|cbn; set_solver].
  unfold cached in *. cbn in *. split_and!; [done| | |].
  - intros q Hq _. split; [done|]. unfold loaded, cached in *. cbn in *. set_solver.
  - split_and!; try done. right. split; [done|]. unfold ready, cached, loaded. cbn. intros q [Hq Hl]. set_solver.
  - split; unfold cached; cbn.
    + intros q [->%elem_of_singleton|Hq]%elem_of_union; [done|by apply Hp].
    + intros q [->%elem_of_singleton|Hq]%elem_of_union; [done|by apply Hi].
    + done.
Qed.

(** The page whose read is issued goes into the cache. *)
Lemma insert_issued_wp p s Q E :
  mem_ok s -> p ∈ m_pending (pg_mem s) ->
  (forall s', reads s s' -> cached s' p -> Q (Done (p, true)) s') ->
  (forall s', reads s s' -> (spills s' < spills s)%nat -> Q (IO None) s') ->
  wp (let? _ := cache_insert p in _ ← smodify (on_mem (on_pending (fun l => l ∖ {[p]}))); done_ (p, true)) s Q E.
Proof.
  intros Hm Hp Hd Hi. assert (Hc := mo_pending s Hm p Hp). unfold if_done. wstep. apply cache_insert_wp; [done..| |].
  - intros s2 Hs2 Hp2 Hl2 Hcp Hcq Hk2 Hon2. wstep. wstep. apply wp_ret.
    assert (Hx : same s2 (on_mem (on_pending (fun l => l ∖ {[p]})) s2) /\ forall q, (cached (on_mem (on_pending (fun l => l ∖ {[p]})) s2) q <-> cached s2 q) /\
      (q ∈ m_pending (pg_mem (on_mem (on_pending (fun l => l ∖ {[p]})) s2)) <-> q ∈ m_pending (pg_mem s2) /\ q <> p)).
    { destruct s2 as [? [] ? ? ? ? ?]. split; [done|]. intros q. split; [done|]. cbn. set_solver. }
    destruct Hx as [Hs3 Hx]. assert (Hon3 : onward s2 (on_mem (on_pending (fun l => l ∖ {[p]})) s2) /\ m_loading (pg_mem (on_mem (on_pending (fun l => l ∖ {[p]})) s2)) = m_loading (pg_mem s2)).
    { destruct s2 as [? [] ? ? ? ? ?]. split; [|done]. split_and!; try done. right. done. }
    set (s3 := on_mem _ s2) in *. destruct Hon3 as [Hon3 Hl3]. apply Hd; [|by apply Hx]. split_and!; [by eapply same_trans| |by eapply onward_trans|].
    + intros q Hq Hk. split; [by apply Hx, Hk2|]. unfold loaded. by rewrite Hl3, Hl2.
    + split.
      * intros q [Hq Hne]%Hx Hcq3%Hx. apply Hcq in Hcq3 as [->|Hcq3]; [done|]. rewrite Hp2 in Hq. by apply (mo_pending s Hm q Hq).
      * intros q [Hq _]%Hx. rewrite (same_size s2 s3 Hs3), (same_size s s2 Hs2). apply (mo_issued s Hm). by rewrite <- Hp2.
      * intros q Hq%Hx. rewrite (same_top s2 s3 Hs3), (same_top s s2 Hs2). apply Hcq in Hq as [->|Hq]; [|by apply (mo_known s Hm)].
        apply (mo_issued s Hm) in Hp. pose proof (size_le_top s). lia.
  - intros s2 Hs2 Hp2 Hl2 Hca2 Hon2 Hlt. wstep. apply Hi; [|done]. split_and!; [done| |done|].
    + intros q Hq _. unfold cached, loaded. by rewrite Hca2, Hl2.
    + split; unfold cached; rewrite ?Hca2, ?Hp2, ?(same_size s s2 Hs2), ?(same_top s s2 Hs2); apply Hm.
Qed.
Lemma read_page_wp p s Q E :
  mem_ok s -> 1 <= p <= size_of s -> is_Some (m_pages (pg_mem s) !! p) ->
  (forall s' (c : bool), reads s s' -> cached s' p -> (if c then ~ cached s p else loaded s' p) -> Q (Done (p, c)) s') ->
  (forall s', reads s s' -> waits s s' -> Q (IO None) s') ->
  wp (read_page p) s Q E.
Proof.
  intros Hm Hr Hpg Hd Hi. unfold read_page. wstep. wstep; [by apply Z.leb_le; lia|]. wstep. wstep. cbv zeta.
  destruct (bool_decide (p ∈ m_cache (pg_mem s))) eqn:Hcb.
  - apply bool_decide_eq_true in Hcb. rewrite (bool_decide_false (p ∈ m_pending _)) by (intros Hp; by apply (mo_pending s Hm p Hp)).
    cbn [negb andb]. unfold is_loaded. case_bool_decide as Hl; wstep.
    + by apply Hd; [apply reads_refl|..].
    + apply Hi; [by apply reads_refl|]. split; [apply onward_refl|]. right. exists p. split_and!; try lia; [|done]. by intros [_ ?].
  - apply bool_decide_eq_false in Hcb. rewrite andb_false_r. wstep. destruct (issued_reads p s Hm Hcb Hr) as (Hr1 & Hc1 & Hp1 & Hs1).
    assert (Hiss : wp (if bool_decide (p ∈ m_pending (pg_mem s)) then mret tt
       else _ ← slift (ensure (bool_decide (is_Some (m_pages (pg_mem s) !! p))) IOError);
            smodify (on_mem (fun m => on_loading (fun l => {[p]} ∪ l) (on_pending (fun l => {[p]} ∪ l) m)))) s
       (fun _ s' => s' = issued p s) E).
    { unfold issued. destruct (bool_decide (p ∈ m_pending (pg_mem s))); [by wstep|]. wstep. eapply wp_lift; [by rewrite bool_decide_true|]. by wstep. }
    eapply wp_conseq; [exact Hiss| |done]. intros [] s1 ->. apply insert_issued_wp; [apply Hr1|done|..].
    + intros s2 H12 Hc2. apply Hd; [by eapply reads_trans|done|done].
    + intros s2 H12 Hlt. rewrite Hs1 in Hlt. assert (Hr2 : reads s s2) by by eapply reads_trans. apply Hi; [done|]. split; [apply Hr2|by left].
Qed.

(** * The reference to the header *)

(** The pager without the state of the header reference. *)
Definition bare (s : Pager) : Pager := on_machines (set_header_ref HeaderStart) s.
Lemma bare_facts s :
  pg_header (bare s) = pg_header s /\ pg_mem (bare s) = pg_mem s /\ pg_env (bare s) = pg_env s /\ pg_page_size (bare s) = pg_page_size s /\
  pg_max_page_count (bare s) = pg_max_page_count s /\ pg_auto_vacuum (bare s) = pg_auto_vacuum s /\
  pg_machines (bare s) = set_header_ref HeaderStart (pg_machines s).
Proof. by destruct s. Qed.
Lemma bare_mem_ok s : mem_ok s <-> mem_ok (bare s).
Proof. destruct s. split; intros [Hp Hi Hk]; by split. Qed.
Lemma bare_onward s s' : onward s s' <-> onward (bare s) (bare s').
Proof. by destruct s, s'. Qed.
Lemma bare_waits s s' : waits s s' <-> waits (bare s) (bare s').
Proof. by destruct s, s'. Qed.
Lemma bare_id s : header_ref_state (pg_machines s) = HeaderStart -> bare s = s.
Proof. intros Hh. destruct s as [? ? [] ? ? ? ?]. cbn in *. by subst. Qed.
(** While the header is being read, page 1 is in the cache, and it is loaded when the call is
    made again. *)
Definition header_ok (s : Pager) : Prop :=
  is_Some (m_pages (pg_mem s) !! HEADER_PAGE_ID) /\ 1 <= size_of s /\
  match header_ref_state (pg_machines s) with HeaderStart => True | CreateHeader p => p = HEADER_PAGE_ID /\ ready s HEADER_PAGE_ID end.

(** Marking a page as dirty. *)
Lemma dirty_reads p s : mem_ok s -> reads s (on_mem (mark_dirty p) s).
Proof.
  intros [Hp Hi Hk]. destruct s as [h [] st e sz mx v]. split; [done|]. split; [done|]. split; [|by split]. split_and!; try done. by right.
Qed.
Lemma add_dirty_wp p s Q E : loaded s p -> Q tt (on_mem (mark_dirty p) s) -> wp (add_dirty p) s Q E.
Proof. intros Hl Hq. unfold add_dirty. wstep. wstep. wstep. wstep; [by apply bool_decide_eq_true|]. by wstep. Qed.

Lemma bare_set h s : header_ref_state (pg_machines s) = HeaderStart -> bare (on_machines (set_header_ref h) s) = s.
Proof. intros Hh. destruct s as [? ? [] ? ? ? ?]. cbn in *. by subst. Qed.
Lemma header_ok_turn w s :
  is_Some (m_pages (pg_mem s) !! HEADER_PAGE_ID) -> 1 <= size_of s ->
  match header_ref_state (pg_machines s) with
  | HeaderStart => True
  | CreateHeader p => p = HEADER_PAGE_ID /\ cached s HEADER_PAGE_ID /\ (loaded s HEADER_PAGE_ID \/ w = Some HEADER_PAGE_ID)
  end -> header_ok (env_turn w s).
Proof.
  intros Hp Hs Hh. destruct (env_turn_facts w s) as (Hhd & Hpg & _ & _ & _ & Hm & _ & _ & _ & _ & _ & _ & Hl & Hk & Hw & _).
  unfold header_ok, size_of in *. rewrite Hhd, Hpg, Hm. split_and!; [done..|]. destruct (header_ref_state (pg_machines s)); [done|].
  destruct Hh as (-> & Hc & Hlw). split; [done|]. split; [apply Hk; [done|by left]|]. destruct Hlw as [Hld|Hlw]; [|by apply Hw].
  unfold loaded in *. set_solver.
Qed.
Lemma create_header_wp s Q E : ready s HEADER_PAGE_ID -> Q (Done HEADER_PAGE_ID) (bare s) -> wp (create_header HEADER_PAGE_ID) s Q E.
Proof.
  intros [Hc Hl] Hd. unfold create_header. wstep. wstep. wstep. wstep; [by apply bool_decide_eq_true|]. wstep. wstep; [done|].
  wstep. wstep. by apply wp_ret.
Qed.
(** The header page is marked as dirty once it is there. *)
Lemma header_dirty_wp s s' (Q : ioresult unit -> Pager -> Prop) E :
  reads (bare s) s' -> ready s' HEADER_PAGE_ID -> (forall s'', reads (bare s) s'' -> Q (Done tt) s'') ->
  wp (_ ← add_dirty HEADER_PAGE_ID; done_ tt) s' Q E.
Proof.
  intros Hr [_ Hl] Hd. wstep. apply add_dirty_wp; [done|]. apply wp_ret, Hd. eapply reads_trans; [exact Hr|]. apply dirty_reads, Hr.
Qed.
Lemma read_header_page_wp s Q E :
  mem_ok s -> header_ok s ->
  (forall s', reads (bare s) s' -> ready s' HEADER_PAGE_ID -> Q (Done HEADER_PAGE_ID) s') ->
  (forall s' w, reads (bare s) (bare s') -> waits s s' -> header_ok (env_turn w s') -> Q (IO w) s') ->
  wp read_header_page s Q E.
Proof.
  intros Hm (Hpg & Hsz & Hh) Hd Hi. unfold read_header_page. wstep. wstep.
  destruct (header_ref_state (pg_machines s)) as [|p] eqn:Hst.
  2: { destruct Hh as [-> Hr]. apply create_header_wp; [done|]. apply Hd; [|by destruct s]. apply reads_refl. by apply (bare_mem_ok s). }
  assert (Hb : bare s = s) by by apply bare_id. unfold if_done. wstep. apply read_page_wp; [done|unfold HEADER_PAGE_ID; lia|done|..].
  - intros s1 c Hr Hc Hl. wstep. wstep. assert (Hst1 : header_ref_state (pg_machines s1) = HeaderStart).
    { destruct Hr as [(_ & _ & _ & _ & -> & _) _]. done. }
    assert (Hb2 := bare_set (CreateHeader HEADER_PAGE_ID) s1 Hst1). set (s2 := on_machines _ s1) in *. destruct c.
    + wstep. apply Hi; [by rewrite Hb, Hb2| |].
      * apply bare_waits. rewrite Hb, Hb2. split; [apply Hr|]. right. exists HEADER_PAGE_ID. split_and!; [done|unfold HEADER_PAGE_ID; lia| |done]. by intros [? _].
      * apply header_ok_turn; unfold s2.
        -- destruct Hr as [(_ & Hp & _) _]. rewrite <- Hp in Hpg. by destruct s1.
        -- apply proj1, same_size in Hr. unfold size_of in *. destruct s1. cbn in *. lia.
        -- destruct s1 as [? ? [] ? ? ? ?]. cbn. split_and!; try done. by right.
    + apply create_header_wp; [by destruct s1|]. rewrite Hb2. apply Hd; [by rewrite Hb|by split].
  - intros s1 Hr Hw. wstep. assert (Hst1 : header_ref_state (pg_machines s1) = HeaderStart).
    { destruct Hr as [(_ & _ & _ & _ & -> & _) _]. done. }
    apply Hi; [by rewrite Hb, (bare_id s1)|done|]. apply header_ok_turn; [| |by rewrite Hst1].
    + destruct Hr as [(_ & -> & _) _]. done.
    + apply proj1, same_size in Hr. lia.
Qed.
Lemma header_ref_mut_wp s Q E :
  mem_ok s -> header_ok s ->
  (forall s', reads (bare s) s' -> Q (Done tt) s') ->
  (forall s' w, reads (bare s) (bare s') -> waits s s' -> header_ok (env_turn w s') -> Q (IO w) s') ->
  wp header_ref_mut s Q E.
Proof.
  intros Hm Hh Hd Hi. unfold header_ref_mut, if_done. wstep. apply read_header_page_wp; [done..| |].
  - intros s' Hr Hrd. by eapply header_dirty_wp.
  - intros s' w Hr Hw Hh'. wstep. by apply Hi.
Qed.
Lemma header_ok_reads s s' : header_ok s -> reads s s' -> header_ok s'.
Proof.
  intros (Hp & Hs & Hh) Hr. pose proof Hr as [(_ & Hp1 & _ & _ & Hm1 & _) [Hk _]]. unfold header_ok. rewrite Hp1, Hm1, (same_size s s') by apply Hr.
  split_and!; try done. destruct (header_ref_state (pg_machines s)) as [|q]; [done|]. destruct Hh as [-> [Hc Hl]].
  destruct (Hk HEADER_PAGE_ID Hc) as [Hc' Hl']; [by left|]. split; [done|]. split; auto.
Qed.
Lemma header_ok_reads_turn w s s' : header_ok s -> reads s s' -> header_ok (env_turn w s').
Proof.
  intros Hh Hr. assert (Hh' := header_ok_reads _ _ Hh Hr). destruct Hh' as (Hp & Hs & Hh'). apply header_ok_turn; [done..|].
  destruct (header_ref_state (pg_machines s')); [done|]. destruct Hh' as [-> [Hc Hl]]. naive_solver.
Qed.
(** Making room in the cache. *)
Lemma ensure_cache_space_wp s Q E :
  mem_ok s -> (forall s', reads s s' -> Q (Done tt) s') -> (forall s', reads s s' -> waits s s' -> Q (IO None) s') -> wp ensure_cache_space s Q E.
Proof.
  intros Hm Hd Hi. unfold ensure_cache_space, try_spill. wstep. wstep. wstep. destruct s as [h m st [sp tn bf] sz mx v]. cbn [pg_env e_spills].
  destruct sp as [|[b ev] sp]; [wstep; wstep; by apply Hd, reads_refl|]. wstep. wstep. wstep. wstep.
  set (s1 := on_env _ _). assert (Ho : onward (MkPager h m st (MkEnvironment ((b, ev) :: sp) tn bf) sz mx v) s1 /\ (spills s1 < spills (MkPager h m st (MkEnvironment ((b, ev) :: sp) tn bf) sz mx v))%nat).
  { unfold s1, onward, spills. cbn. split; [|lia]. split_and!; try done. left. lia. }
  assert (Hr : reads (MkPager h m st (MkEnvironment ((b, ev) :: sp) tn bf) sz mx v) s1).
  { split; [done|]. split; [done|]. split; [apply Ho|]. by destruct Hm. }
  destruct b; [|by apply Hd]. apply Hi; [done|]. split; [apply Ho|left; apply Ho].
Qed.
