(* ===== verification/PageAllocList.v ===== *)
(** The free list of PageAlloc: what the bytes of its trunk pages mean, and what adding and
    removing a page does to them. *)

From stdpp Require Import base list gmap numbers fin_sets.
From Stdlib Require Import ZArith Lia.
From S2P Require Import Prelude DbHeader PageAlloc PageAllocIO.

(** * Trunk pages *)

Definition leaf_bytes (ls : list Z) : list Z := concat (map (be_bytes 4) ls).
(** A trunk page: the number of the next one, and its leaves. *)
Definition trunk_bytes (next : Z) (ls b : list Z) : Prop :=
  is_u 32 next /\ is_u 32 (len ls) /\ Forall (is_u 32) ls /\
  exists pad, b = be_bytes 4 next ++ be_bytes 4 (len ls) ++ leaf_bytes ls ++ pad.

Lemma len_leaf_bytes ls : len (leaf_bytes ls) = 4 * len ls.
Proof.
  unfold leaf_bytes, len. induction ls as [|l ls IH]; [done|]. cbn [map concat]. rewrite length_app, length_be_bytes. cbn [length]. lia.
Qed.
Lemma leaf_bytes_app ls ls' : leaf_bytes (ls ++ ls') = leaf_bytes ls ++ leaf_bytes ls'.
Proof. unfold leaf_bytes. by rewrite map_app, concat_app. Qed.
Lemma read_u32_hit x post : is_u 32 x -> read_u32_no_offset (be_bytes 4 x ++ post) 0 = Ok x.
Proof. intros Hx. unfold read_u32_no_offset. rewrite slice_hit by apply len_be_bytes. rstep. by rewrite be_val_be_bytes_small. Qed.
Lemma read_u32_skip k pre post i : len pre = k -> k <= i -> read_u32_no_offset (pre ++ post) i = read_u32_no_offset post (i - k).
Proof. intros Hk Hi. unfold read_u32_no_offset. rewrite (slice_skip k) by done. by replace (i + 4 - k) with (i - k + 4) by lia. Qed.
Lemma trunk_read next ls b :
  trunk_bytes next ls b ->
  read_u32_no_offset b FREELIST_TRUNK_OFFSET_NEXT_TRUNK_PTR = Ok next /\ read_u32_no_offset b FREELIST_TRUNK_OFFSET_LEAF_COUNT = Ok (len ls) /\
  forall l ls', ls = l :: ls' -> read_u32_no_offset b FREELIST_TRUNK_OFFSET_FIRST_LEAF_PTR = Ok l.
Proof.
  intros (Hn & Hl & Hls & pad & ->). split_and!.
  - by apply read_u32_hit.
  - rewrite (read_u32_skip 4) by (done || apply len_be_bytes). by apply read_u32_hit.
  - intros l ls' ->. inversion Hls; subst. rewrite (read_u32_skip 4) by (done || apply len_be_bytes).
    rewrite (read_u32_skip 4) by (done || apply len_be_bytes). unfold leaf_bytes. cbn [map concat]. rewrite <- app_assoc. by apply read_u32_hit.
Qed.
(** The trunk page with one leaf more at the end. *)
Lemma trunk_add next ls b p :
  trunk_bytes next ls b -> 8 + 4 * len ls + 4 <= len b -> is_u 32 (len ls + 1) -> is_u 32 p ->
  exists b1 b2, write_at (E:=LimboError) b FREELIST_TRUNK_OFFSET_LEAF_COUNT (be_bytes 4 (len ls + 1)) = Ok b1 /\
    write_at (E:=LimboError) b1 (FREELIST_TRUNK_OFFSET_FIRST_LEAF_PTR + len ls * FREELIST_LEAF_PTR_SIZE) (be_bytes 4 p) = Ok b2 /\
    trunk_bytes next (ls ++ [p]) b2 /\ len b2 = len b.
Proof.
  intros (Hn & Hl & Hls & pad & ->) Hlen Hl1 Hp. rewrite !len_app, !len_be_bytes, len_leaf_bytes in Hlen. unfold len at 3 in Hlen.
  destruct pad as [|c1 [|c2 [|c3 [|c4 pad]]]]; cbn [length] in Hlen; try lia.
  eexists (be_bytes 4 next ++ be_bytes 4 (len ls + 1) ++ leaf_bytes ls ++ [c1; c2; c3; c4] ++ pad),
    (be_bytes 4 next ++ be_bytes 4 (len ls + 1) ++ leaf_bytes ls ++ be_bytes 4 p ++ pad). split_and!.
  - eapply write_skip; [apply len_be_bytes|done|]. apply write_hit. by rewrite !len_be_bytes.
  - unfold FREELIST_TRUNK_OFFSET_FIRST_LEAF_PTR, FREELIST_LEAF_PTR_SIZE. pose proof (len_nonneg ls).
    eapply write_skip; [apply len_be_bytes|lia|]. eapply write_skip; [apply len_be_bytes|lia|].
    eapply write_skip; [apply len_leaf_bytes|lia|]. replace (8 + len ls * 4 - Z.of_nat 4 - Z.of_nat 4 - 4 * len ls) with 0 by lia.
    apply write_hit. by rewrite len_be_bytes.
  - split_and!; try done; [rewrite len_app; exact Hl1|apply Forall_app; split; [done|by constructor]|].
    exists pad. rewrite leaf_bytes_app, len_app. change (leaf_bytes [p]) with (be_bytes 4 p ++ []). by rewrite app_nil_r, <- app_assoc.
  - rewrite !len_app, !len_be_bytes. unfold len. cbn. lia.
Qed.
(** The trunk page without its first leaf. *)
Lemma trunk_remove next l ls b :
  trunk_bytes next (l :: ls) b ->
  exists b1 b2, copy_within_page b 12 (12 + len ls * 4) FREELIST_TRUNK_OFFSET_FIRST_LEAF_PTR = Ok b1 /\
    write_at (E:=LimboError) b1 FREELIST_TRUNK_OFFSET_LEAF_COUNT (be_bytes 4 (len ls)) = Ok b2 /\ trunk_bytes next ls b2 /\ len b2 = len b.
Proof.
  intros (Hn & Hl & Hls & pad & ->). inversion Hls as [|? ? Hl0 Hls']; subst. pose proof (len_nonneg ls).
  assert (Hlen : len (l :: ls) = len ls + 1) by (unfold len; cbn; lia). rewrite Hlen in *.
  change (leaf_bytes (l :: ls)) with (be_bytes 4 l ++ leaf_bytes ls).
  assert (Hsplit : exists tail, length tail = 4%nat /\ be_bytes 4 l ++ leaf_bytes ls = take (length (leaf_bytes ls)) (be_bytes 4 l ++ leaf_bytes ls) ++ tail).
  { exists (drop (length (leaf_bytes ls)) (be_bytes 4 l ++ leaf_bytes ls)). split; [|by rewrite take_drop]. rewrite length_drop, length_app, length_be_bytes. lia. }
  destruct Hsplit as (tail & Ht & Hsplit).
  exists (be_bytes 4 next ++ be_bytes 4 (len ls + 1) ++ leaf_bytes ls ++ tail ++ pad), (be_bytes 4 next ++ be_bytes 4 (len ls) ++ leaf_bytes ls ++ tail ++ pad).
  split_and!.
  - unfold copy_within_page. eapply bind_step.
    + rewrite <- (app_assoc (be_bytes 4 l)). repeat (rewrite (slice_skip 4) by (apply len_be_bytes || lia); simpl Z.sub).
      replace (12 + len ls * 4 - 4 - 4 - 4) with (4 * len ls) by lia. apply slice_hit, len_leaf_bytes.
    + eapply write_skip; [apply len_be_bytes|done|]. eapply write_skip; [apply len_be_bytes|done|]. rewrite Hsplit, <- app_assoc.
      apply write_hit. unfold len. rewrite length_take, length_app, length_be_bytes. lia.
  - eapply write_skip; [apply len_be_bytes|done|]. apply write_hit. by rewrite !len_be_bytes.
  - split_and!; try done; [unfold is_u in *; lia|]. by exists (tail ++ pad).
  - rewrite !len_app, !len_be_bytes. unfold len at 2. rewrite Ht. lia.
Qed.
(** A page made into a trunk page without leaves. *)
Lemma trunk_new next b :
  8 <= len b -> is_u 32 next ->
  exists b1 b2, write_at (E:=LimboError) b FREELIST_TRUNK_OFFSET_NEXT_TRUNK_PTR (be_bytes 4 next) = Ok b1 /\
    write_at (E:=LimboError) b1 FREELIST_TRUNK_OFFSET_LEAF_COUNT (be_bytes 4 0) = Ok b2 /\ trunk_bytes next [] b2 /\ len b2 = len b.
Proof.
  intros Hl Hn. unfold len in Hl. do 8 (destruct b as [|? b]; [cbn in Hl; lia|]).
  eexists (be_bytes 4 next ++ [_; _; _; _] ++ b), (be_bytes 4 next ++ be_bytes 4 0 ++ b). split_and!.
  - by apply (write_hit [_; _; _; _]).
  - eapply write_skip; [apply len_be_bytes|done|]. by apply (write_hit [_; _; _; _]).
  - split_and!; try done. by exists b.
  - rewrite !len_app, !len_be_bytes. unfold len. cbn. lia.
Qed.

(** * The free list *)

(** The trunk pages in order, with their leaves. *)
Notation trunks := (list (Z * list Z)) (only parsing).
Definition free_ids (T : trunks) : list Z := concat (map (fun x => x.1 :: x.2) T).
Definition first (T : trunks) : Z := match T with [] => 0 | (t, _) :: _ => t end.
Definition capacity (s : Pager) : Z := (page_sz s - reserved_space (pg_header s)) / 4 - 2.
Definition has_page (sz : Z) (pages : gmap Z (list Z)) (p : Z) : Prop := exists b, pages !! p = Some b /\ len b = sz.
Fixpoint chain_ok (sz cap : Z) (pages : gmap Z (list Z)) (T : trunks) : Prop :=
  match T with
  | [] => True
  | (t, ls) :: T' =>
      (exists b, pages !! t = Some b /\ len b = sz /\ trunk_bytes (first T') ls b /\ len ls <= cap) /\
      Forall (has_page sz pages) ls /\ chain_ok sz cap pages T'
  end.
Record free_ok (s : Pager) (T : trunks) : Prop := {
  fo_first : freelist_trunk_page (pg_header s) = first T;
  fo_count : freelist_pages (pg_header s) = len (free_ids T);
  fo_nodup : NoDup (free_ids T);
  fo_range : Forall (fun p => 2 <= p <= size_of s) (free_ids T);
  fo_chain : chain_ok (page_sz s) (capacity s) (m_pages (pg_mem s)) T;
  fo_overflow : Forall (fun p => p ∉ m_overflow (pg_mem s)) (free_ids T)
}.
(** The rest of the pager between calls. *)
Record base_ok (s : Pager) : Prop := {
  bo_page_sz : page_sz s ∈ page_sizes;
  bo_reserved : 0 <= reserved_space (pg_header s) <= 255;
  bo_pg_page_size : pg_page_size s = page_sz s;
  bo_buffers : Forall (fun x => len x.1 = page_sz s) (e_buffers (pg_env s));
  bo_size : 1 <= size_of s /\ size_of s + 3 < 2 ^ 32;
  bo_header : is_Some (m_pages (pg_mem s) !! HEADER_PAGE_ID);
  bo_pins p : 0 <= pin_count p (pg_mem s)
}.

Lemma free_ids_cons t ls T : free_ids ((t, ls) :: T) = t :: ls ++ free_ids T.
Proof. done. Qed.
Lemma chain_ok_frame sz cap pages pages' T :
  (forall p, p ∈ free_ids T -> pages' !! p = pages !! p) -> chain_ok sz cap pages T -> chain_ok sz cap pages' T.
Proof.
  induction T as [|[t ls] T IH]; [done|]. rewrite free_ids_cons. cbn [chain_ok]. intros Hp ((b & Hb & Hrest) & Hls & HT). split_and!.
  - exists b. split; [|done]. rewrite Hp; [done|set_solver].
  - rewrite Forall_forall in *. intros p Hin. destruct (Hls p Hin) as (b' & Hb' & Hl). exists b'. split; [|done]. rewrite Hp; [done|set_solver].
  - apply IH; [|done]. intros p Hin. apply Hp. set_solver.
Qed.
Lemma page_sz_bounds s : base_ok s -> 512 <= page_sz s <= 65536.
Proof.
  intros Hb. pose proof (bo_page_sz s Hb) as Hp. unfold page_sizes in Hp. rewrite !elem_of_cons, elem_of_nil in Hp. lia.
Qed.
Lemma capacity_bounds s : base_ok s -> 0 < capacity s < 2 ^ 32 /\ 8 + 4 * capacity s <= page_sz s.
Proof.
  intros Hb. pose proof (page_sz_bounds s Hb). pose proof (bo_reserved s Hb). unfold capacity. set (u := page_sz s - reserved_space (pg_header s)) in *.
  assert (257 <= u <= 65536) by lia. pose proof (Z.div_mod u 4). pose proof (Z.mod_pos_bound u 4). lia.
Qed.
(** There are fewer free pages than pages. *)
Lemma free_count s T : free_ok s T -> len (free_ids T) <= size_of s - 1 \/ size_of s < 1 /\ T = [].
Proof.
  intros Hf. assert (Hle : (length (free_ids T) <= length (seqZ 2 (size_of s - 1)))%nat).
  { apply submseteq_length, NoDup_submseteq; [apply Hf|]. intros p Hp. pose proof (fo_range s T Hf) as Hr. rewrite Forall_forall in Hr.
    apply elem_of_seqZ. specialize (Hr p Hp). lia. }
  rewrite length_seqZ in Hle. unfold len. destruct (decide (size_of s < 1)); [|lia]. right. split; [done|].
  destruct T as [|[t ls] T]; [done|]. rewrite free_ids_cons in Hle. cbn in Hle. lia.
Qed.
