(* ===== verification/PageAllocOps.v ===== *)
(** [allocate_page] and [free_page] of PageAlloc, over all their waits: a page from the free
    list or from the end of the file, and the free list with one page less or more. *)

From stdpp Require Import base list gmap numbers fin_sets.
From Stdlib Require Import ZArith Lia.
From S2P Require Import Prelude DbHeader PageAlloc PageAllocIO PageAllocList.

(** * Steps *)

Lemma get_contents_wp p b s Q E : loaded s p -> m_pages (pg_mem s) !! p = Some b -> Q b s -> wp (get_contents p) s Q E.
Proof.
  intros Hl Hb Hq. unfold get_contents. wstep. wstep. wstep. wstep; [by apply bool_decide_eq_true|]. rewrite Hb. by wstep.
Qed.
Lemma unpin_wp p s Q E : 0 < pin_count p (pg_mem s) -> Q tt (on_mem (fun m => set_pins p (pin_count p m - 1) m) s) -> wp (unpin p) s Q E.
Proof. intros Hp Hq. unfold unpin. wstep. wstep. wstep. wstep; [by apply Z.ltb_lt|]. by wstep. Qed.
Lemma modify_header_wp f h s Q E : f (pg_header s) = Ok h -> Q tt (on_header (fun _ => h) s) -> wp (modify_header f) s Q E.
Proof. intros Hf Hq. unfold modify_header. wstep. wstep. wstep. eapply wp_lift; [done|]. by wstep. Qed.
Lemma write_u32_wp p pos v b b' s Q E :
  loaded s p -> m_pages (pg_mem s) !! p = Some b -> write_at (E:=LimboError) b pos (be_bytes 4 v) = Ok b' -> Q tt (on_mem (set_page p b') s) ->
  wp (write_u32_no_offset p pos v) s Q E.
Proof.
  intros Hl Hb Hw Hq. unfold write_u32_no_offset. wstep. eapply get_contents_wp; [done..|]. wstep. eapply wp_lift; [done|].
  unfold put_contents. by wstep.
Qed.
Lemma fill_zero_wp p b s Q E :
  loaded s p -> m_pages (pg_mem s) !! p = Some b -> Q tt (on_mem (set_page p (replicate (length b) 0)) s) -> wp (fill_zero p) s Q E.
Proof. intros Hl Hb Hq. unfold fill_zero. wstep. eapply get_contents_wp; [done..|]. unfold put_contents. by wstep. Qed.
Lemma in_cache_wp p s Q E : cached s p -> Q tt s -> wp (page_is_in_cache p) s Q E.
Proof. intros Hc Hq. unfold page_is_in_cache. wstep. wstep. wstep; [by apply bool_decide_eq_true|done]. Qed.
Lemma no_overflow_wp p s Q E : p ∉ m_overflow (pg_mem s) -> Q tt s -> wp (has_no_overflow_cells p) s Q E.
Proof. intros Hc Hq. unfold has_no_overflow_cells. wstep. wstep. wstep; [by apply bool_decide_eq_true|done]. Qed.

(** * Between waits *)

(** A page that is in the cache and loaded after the wait [w]. *)
Definition nearly (w : option Z) (s : Pager) (p : Z) : Prop := cached s p /\ (loaded s p \/ w = Some p).
(** What a call that started in [s0] and is about to wait for [w] has done: [l] are the pages it
    has pinned. *)
Record partway (w : option Z) (s0 : Pager) (l : list Z) (s : Pager) : Prop := {
  pw_size : size_of s = size_of s0;
  pw_sz : page_sz s = page_sz s0;
  pw_reserved : reserved_space (pg_header s) = reserved_space (pg_header s0);
  pw_page_size : pg_page_size s = pg_page_size s0;
  pw_max : pg_max_page_count s = pg_max_page_count s0;
  pw_vacuum : pg_auto_vacuum s = pg_auto_vacuum s0;
  pw_pages q : q <= size_of s0 -> m_pages (pg_mem s) !! q = m_pages (pg_mem s0) !! q;
  pw_buffers : Forall (fun x => len x.1 = page_sz s0) (e_buffers (pg_env s));
  pw_mem : mem_ok s;
  pw_nodup : NoDup l;
  pw_nearly : Forall (nearly w s) l;
  pw_pins q : pin_count q (pg_mem s) = pin_count q (pg_mem s0) + if decide (q ∈ l) then 1 else 0
}.

Lemma nearly_ready s p : nearly None s p <-> ready s p.
Proof. unfold nearly, ready. naive_solver. Qed.
Lemma top_page_eq s s0 : size_of s = size_of s0 -> page_sz s = page_sz s0 -> pg_auto_vacuum s = pg_auto_vacuum s0 -> top_page s = top_page s0.
Proof. unfold top_page, ptrmap_next. by intros -> -> ->. Qed.

Section partway.
Context (s0 : Pager) (Hb0 : base_ok s0).

Lemma partway_refl : mem_ok s0 -> partway None s0 [] s0.
Proof.
  intros Hm. split; try done; [apply Hb0|apply NoDup_nil_2|]. intros q. rewrite decide_False by apply not_elem_of_nil. lia.
Qed.
Lemma partway_kept w l s p : partway w s0 l s -> p ∈ l -> kept s p.
Proof. intros Hw Hp. right. left. rewrite (pw_pins _ _ _ _ Hw), decide_True by done. pose proof (bo_pins s0 Hb0 p). lia. Qed.
Lemma partway_reads w l s s' : partway w s0 l s -> reads s s' -> partway w s0 l s'.
Proof.
  intros Hw ((Hh & Hp & Hpin & Ho & Hmach & Hbuf & Hsz & Hmx & Hv) & Hk & _ & Hm). pose proof Hw as [].
  split; unfold size_of, page_sz, pin_count in *; rewrite ?Hh, ?Hp, ?Hpin, ?Hsz, ?Hmx, ?Hv, ?Hbuf; try done.
  rewrite Forall_forall in *. intros p Hpl. destruct (pw_nearly0 p Hpl) as [Hc Hl]. destruct (Hk p Hc) as [Hc' Hl']; [by eapply partway_kept|].
  split; [done|]. naive_solver.
Qed.
Lemma mem_ok_machines f s : mem_ok s -> mem_ok (on_machines f s).
Proof. destruct s. by intros []. Qed.
Lemma partway_machines f w l s : partway w s0 l s -> partway w s0 l (on_machines f s).
Proof. intros []. destruct s as [h m st e sz mx v]. split; try done. by apply (mem_ok_machines f). Qed.
Lemma turn_mem_ok w s : mem_ok s -> mem_ok (env_turn w s).
Proof.
  intros [Hp Hi Hk]. destruct (env_turn_facts w s) as (Hh & _ & _ & _ & Hpd & _ & _ & _ & _ & _ & Hv & Hc & _).
  assert (Htop : top_page (env_turn w s) = top_page s) by (apply top_page_eq; unfold size_of, page_sz; by rewrite ?Hh).
  split; unfold size_of; rewrite ?Hpd, ?Hh, ?Htop; unfold cached in *; set_solver.
Qed.
Lemma partway_turn w l s : partway w s0 l s -> partway None s0 l (env_turn w s).
Proof.
  intros Hw. destruct (env_turn_facts w s) as (Hh & Hp & Hpin & _ & _ & _ & _ & Hbuf & Hsz & Hmx & Hv & _ & Hld & Hk & Hwt & _).
  pose proof Hw as []. split; unfold size_of, page_sz, pin_count in *; rewrite ?Hh, ?Hp, ?Hpin, ?Hsz, ?Hmx, ?Hv, ?Hbuf; try done; [by apply turn_mem_ok|].
  rewrite Forall_forall in *. intros p Hpl. destruct (pw_nearly0 p Hpl) as [Hc Hl]. apply nearly_ready. split.
  - apply Hk; [done|]. by eapply partway_kept.
  - destruct Hl as [Hl|Hl]; [|by apply Hwt]. unfold loaded in *. set_solver.
Qed.
Lemma partway_weaken w l s : partway None s0 l s -> partway w s0 l s.
Proof. intros []. split; try done. eapply Forall_impl; [done|]. intros p [Hc [Hl|?]]; [|done]. split; [done|by left]. Qed.
(** Pinning one page more. *)
Lemma pin_count_set q p n m : pin_count q (set_pins p n m) = if decide (q = p) then n else pin_count q m.
Proof. unfold pin_count. cbn. destruct (decide (q = p)) as [->|]; [by rewrite lookup_insert_eq|by rewrite lookup_insert_ne]. Qed.
Lemma partway_pin w l s p :
  partway None s0 l s -> p ∉ l -> nearly w s p -> partway w s0 (p :: l) (on_mem (fun m => set_pins p (pin_count p m + 1) m) s).
Proof.
  intros Hw Hp Hn. pose proof Hw as []. destruct s as [h m st e sz mx v]. split; try done.
  - by destruct pw_mem0.
  - by constructor.
  - constructor; [done|]. eapply Forall_impl; [done|]. intros q [Hc Hl]. split; [done|]. left. naive_solver.
  - intros q. cbn [on_mem pg_mem]. rewrite pin_count_set. specialize (pw_pins0 q). cbn [pg_mem] in pw_pins0.
    destruct (decide (q = p)) as [->|Hne].
    + rewrite decide_False in pw_pins0 by done. rewrite decide_True by set_solver. lia.
    + rewrite pw_pins0. f_equal. destruct (decide (q ∈ l)); [rewrite decide_True by set_solver|rewrite decide_False by set_solver]; done.
Qed.
End partway.

(** * New pages *)

(** What adding the new page [p] does. *)
Record adds (p : Z) (s s' : Pager) : Prop := {
  ad_header : pg_header s' = pg_header s;
  ad_machines : pg_machines s' = pg_machines s;
  ad_page_size : pg_page_size s' = pg_page_size s;
  ad_max : pg_max_page_count s' = pg_max_page_count s;
  ad_vacuum : pg_auto_vacuum s' = pg_auto_vacuum s;
  ad_page : exists b, m_pages (pg_mem s') = <[p := b]> (m_pages (pg_mem s)) /\
    (Forall (fun x => len x.1 = page_sz s) (e_buffers (pg_env s)) -> pg_page_size s = page_sz s -> len b = page_sz s);
  ad_buffers P : Forall P (e_buffers (pg_env s)) -> Forall P (e_buffers (pg_env s'));
  ad_pins : m_pins (pg_mem s') = m_pins (pg_mem s);
  ad_overflow : m_overflow (pg_mem s') = m_overflow (pg_mem s);
  ad_pending : m_pending (pg_mem s') = m_pending (pg_mem s);
  ad_ready : ready s' p;
  ad_cached q : cached s' q -> q = p \/ cached s q;
  ad_keeps : keeps s s';
  ad_onward : onward s s'
}.
Definition with_new_page (p : Z) (buffer evicted : list Z) (s : Pager) : Pager :=
  on_mem (on_cache (fun c => {[p]} ∪ c))
    (evict evicted (on_mem (fun m => on_loading (fun l => l ∖ {[p]}) (set_page p buffer m)) (on_mem (mark_dirty p) s))).
Lemma with_new_page_facts p b ev s :
  let s' := with_new_page p b ev s in
  ready s' p /\ (forall q, cached s' q -> q = p \/ cached s q) /\ keeps s s' /\ (ev = [] -> forall q, ready s q -> ready s' q).
Proof.
  intros s'. unfold s', with_new_page. set (s2 := on_mem (fun m => on_loading _ _) _). assert (Hev := evict_cached ev s2).
  assert (He : forall q, kept s q -> evictable s2 q = false).
  { intros q Hk. apply kept_not_evictable. by destruct s as [? [] ? ? ? ? ?]. }
  unfold s2, keeps, ready, cached, loaded in *. destruct s as [h [] st e sz mx v]. cbn in *. split_and!.
  - set_solver.
  - set_solver.
  - intros q. set_solver.
  - intros q Hq Hk. specialize (He q Hk). split; [|set_solver]. apply elem_of_union_r. apply Hev. split; [done|]. rewrite He. naive_solver.
  - intros -> q [Hq Hl]. split; set_solver.
Qed.
Lemma add_new_page_eq p s Q E :
  ~ cached s p ->
  match e_buffers (pg_env s) with
  | [] => Q tt (with_new_page p (replicate (Z.to_nat (pg_page_size s)) 0) [] s)
  | (b, ev) :: bs => Q tt (with_new_page p b ev (on_env (fun e => MkEnvironment (e_spills e) (e_turns e) bs) s))
  end -> wp (add_new_page p) s Q E.
Proof.
  intros Hc Hq. unfold add_new_page, get_buffer. wstep. wstep. wstep. destruct (e_buffers (pg_env s)) as [|[b ev] bs].
  all: repeat (wstep; try (eapply wp_lift; [rewrite bool_decide_true; [done|by destruct s as [? [] ? ? ? ? ?]]|])); done.
Qed.
Lemma add_new_page_wp p s Q E : ~ cached s p -> 0 <= page_sz s -> (forall s', adds p s s' -> Q tt s') -> wp (add_new_page p) s Q E.
Proof.
  intros Hc Hsz Hq. apply add_new_page_eq; [done|]. destruct (e_buffers (pg_env s)) as [|[b ev] bs] eqn:Hbf; apply Hq.
  - destruct (with_new_page_facts p (replicate (Z.to_nat (pg_page_size s)) 0) [] s) as (Hr & Hcq & Hk & Ho).
    destruct s as [h [] st e sz mx v]. cbn in Hbf, Hsz. split; try done.
    + eexists. split; [done|]. intros _ Heq. unfold len. rewrite length_replicate. cbn in *. rewrite Heq. unfold page_sz in *. cbn in *. lia.
    + split_and!; try done. right. split; [done|]. by apply Ho.
  - destruct (with_new_page_facts p b ev (on_env (fun e => MkEnvironment (e_spills e) (e_turns e) bs) s)) as (Hr & Hcq & Hk & _).
    destruct s as [h [] st [] sz mx v]. cbn in Hbf, Hsz. subst. split; try done.
    + eexists. split; [done|]. intros HF _. by inversion HF.
    + intros P HF. by inversion HF.
    + split_and!; try done. left. unfold spills. cbn. lia.
Qed.

(** * Pointer-map pages *)

Lemma ptrmap_page_no_eq p sz :
  512 <= sz <= 65536 -> 2 <= p -> p < 2 ^ 32 -> get_ptrmap_page_no_for_db_page p sz = Ok ((p - 2) / (sz / 5 + 1) * (sz / 5 + 1) + 2).
Proof.
  intros Hsz Hp Hp32. assert (Hg : 103 <= sz / 5 + 1 <= 13108).
  { pose proof (Z.div_mod sz 5). pose proof (Z.mod_pos_bound sz 5). lia. }
  unfold get_ptrmap_page_no_for_db_page, ptrmap_page_cycle_length, PageSize_MIN, PTRMAP_ENTRY_SIZE, FIRST_PTRMAP_PAGE_NO, umul, uadd, usub.
  rewrite !(proj2 (Z.leb_le _ _)) by lia. unfold rassert at 2. rstep. rewrite wrap_small by (unfold is_u; lia).
  unfold rassert. rewrite (proj2 (Z.eqb_neq _ _)) by lia. cbn [negb]. rstep.
  set (g := sz / 5 + 1) in *. pose proof (Z.mul_div_le (p - 2) g). assert (0 <= (p - 2) / g * g) by (apply Z.mul_nonneg_nonneg; [apply Z.div_pos|]; lia).
  rewrite (proj2 (Z.ltb_lt _ _)) by lia. rstep. by rewrite (proj2 (Z.ltb_lt _ _)) by lia.
Qed.
Lemma is_ptrmap_page_total p sz : 512 <= sz <= 65536 -> 1 <= p -> p < 2 ^ 32 -> exists b, is_ptrmap_page p sz = Ok b.
Proof.
  intros Hsz Hp Hp32. unfold is_ptrmap_page. destruct (Z.eqb_spec p 1); [by eexists|]. destruct (p =? _); [by eexists|].
  rewrite ptrmap_page_no_eq by lia. by eexists.
Qed.

Section ptrmap.
Context (s0 : Pager) (Hb0 : base_ok s0).

(** A new page behind the end of the file. *)
Lemma partway_adds l s s' p :
  partway None s0 l s -> adds p s s' -> size_of s0 < p <= top_page s0 -> partway None s0 l s'.
Proof.
  intros Hw Ha Hp. pose proof (ad_cached _ _ _ Ha) as Hcq. pose proof Ha as [Hh Hmach Hsz Hmx Hv (b & Hpg & _) Hbuf Hpin _ Hpd Hrd _ Hk _]. pose proof Hw as [].
  assert (Htop : top_page s' = top_page s0) by (apply top_page_eq; unfold size_of, page_sz in *; rewrite ?Hh; congruence).
  split; unfold size_of, page_sz, pin_count in *; rewrite ?Hh, ?Hpin, ?Hsz, ?Hmx, ?Hv; try done; try by apply Hbuf.
  - intros q Hq. rewrite Hpg, lookup_insert_ne by lia. by apply pw_pages0.
  - destruct pw_mem0 as [Hpend Hiss Hkn]. split; rewrite ?Hpd.
    + intros q Hq [->|Hc]%Hcq; [|by apply (Hpend q)]. apply Hiss in Hq. unfold size_of in Hq. lia.
    + unfold size_of. rewrite Hh. exact Hiss.
    + intros q [->|Hc]%Hcq; rewrite Htop; [unfold size_of in *; pose proof (bo_size s0 Hb0); unfold size_of in *; lia|].
      apply Hkn in Hc. by rewrite (top_page_eq s s0) in Hc by done.
  - rewrite Forall_forall in *. intros q Hq. destruct (pw_nearly0 q Hq) as [Hc Hl]. destruct (Hk q Hc) as [Hc' Hl']; [by eapply partway_kept|].
    split; [done|]. naive_solver.
Qed.
Lemma allocate_ptrmap_page_wp l s Q E :
  partway None s0 l s ->
  (forall s', partway None s0 l s' -> pg_header s' = pg_header s -> pg_machines s' = pg_machines s -> m_overflow (pg_mem s') = m_overflow (pg_mem s) ->
     keeps s s' -> onward s s' -> Q (top_page s0) s') ->
  wp (allocate_ptrmap_page (size_of s)) s Q E.
Proof.
  intros Hw Hq. assert (Hstay : Q (top_page s0) s) by (apply Hq; auto using keeps_refl, onward_refl).
  pose proof Hw as []. pose proof (bo_size s0 Hb0). pose proof (page_sz_bounds s0 Hb0). unfold allocate_ptrmap_page. wstep. wstep.
  rewrite <- (top_page_eq s s0) in * by done. unfold top_page, ptrmap_next in *. destruct (pg_auto_vacuum s) eqn:Hv; try by wstep.
  wstep. apply (wp_lift _ (size_of s + 1)); [unfold uadd; by rewrite (proj2 (Z.ltb_lt _ _)) by lia|]. wstep. fold (page_sz s) in *.
  destruct (is_ptrmap_page_total (size_of s + 1) (page_sz s)) as [b Hb]; [lia..|]. rewrite Hb in *. eapply wp_lift; [done|].
  destruct b; [|by wstep]. wstep. case_bool_decide as Hc; [by wstep; wstep|]. apply add_new_page_wp; [done|lia|]. intros s' Ha. wstep.
  apply Hq; [|apply Ha..]. eapply partway_adds; [done..|]. rewrite <- (top_page_eq s s0) by congruence. unfold top_page, ptrmap_next. rewrite Hv, Hb. lia.
Qed.
End ptrmap.

(** * The last step of a call, which unpins the pages [l] *)

Record ends (f : Machines -> Machines) (l : list Z) (s s' : Pager) : Prop := {
  en_size : size_of s' = size_of s;
  en_sz : page_sz s' = page_sz s;
  en_reserved : reserved_space (pg_header s') = reserved_space (pg_header s);
  en_page_size : pg_page_size s' = pg_page_size s;
  en_max : pg_max_page_count s' = pg_max_page_count s;
  en_vacuum : pg_auto_vacuum s' = pg_auto_vacuum s;
  en_env : pg_env s' = pg_env s;
  en_cache : m_cache (pg_mem s') = m_cache (pg_mem s);
  en_loading : m_loading (pg_mem s') = m_loading (pg_mem s);
  en_pending : m_pending (pg_mem s') = m_pending (pg_mem s);
  en_overflow : m_overflow (pg_mem s') = m_overflow (pg_mem s);
  en_pins q : pin_count q (pg_mem s') = pin_count q (pg_mem s) - if decide (q ∈ l) then 1 else 0;
  en_machines : pg_machines s' = f (pg_machines s)
}.
Lemma ends_facts f s0 l s s' :
  partway None s0 l s -> ends f l s s' ->
  mem_ok s' /\ Forall (fun x => len x.1 = page_sz s0) (e_buffers (pg_env s')) /\ (forall q, pin_count q (pg_mem s') = pin_count q (pg_mem s0)) /\
  (forall q, q ∈ l -> ready s' q).
Proof.
  intros [] []. split_and!.
  - destruct pw_mem0 as [Hpd Hi Hk]. split; unfold cached in *; rewrite ?en_cache0, ?en_pending0, ?en_size0, ?(top_page_eq s' s); done.
  - by rewrite en_env0.
  - intros q. rewrite en_pins0, pw_pins0. lia.
  - intros q Hq. rewrite Forall_forall in pw_nearly0. destruct (pw_nearly0 q Hq) as [Hc [Hl|?]]; [|done].
    unfold ready, cached, loaded in *. by rewrite en_cache0, en_loading0.
Qed.
