(* ===== verification/PageAllocTake.v ===== *)
(** [allocate_page] of PageAlloc over all its waits: it takes a page from the free list or from
    behind the end of the file. *)

From stdpp Require Import base list gmap numbers fin_sets.
From Stdlib Require Import ZArith Lia.
From S2P Require Import Prelude DbHeader PageAlloc PageAllocIO PageAllocList PageAllocOps.

Definition alloc_pages (a : AllocatePageState) : list Z :=
  match a with SearchAvailableFreeListLeaf t => [t] | ReuseFreelistLeaf t l _ => [l; t] | _ => [] end.
Definition alloc_fits (s0 : Pager) (T : trunks) (a : AllocatePageState) : Prop :=
  match a with
  | AllocStart => True
  | SearchAvailableFreeListLeaf t => exists ls T', T = (t, ls) :: T'
  | ReuseFreelistLeaf t l n => exists ls T', T = (t, l :: ls) :: T' /\ n = len (l :: ls)
  | AllocateNewPage n => T = [] /\ n = top_page s0
  end.
Definition alloc_reset (st : Machines) : Machines := set_alloc AllocStart (set_header_ref HeaderStart st).
(** The pager while [allocate_page] waits for [w]; [T] is the free list it started with. *)
Record alloc_inv (w : option Z) (s0 : Pager) (T : trunks) (s : Pager) : Prop := {
  ai_header : pg_header s = pg_header s0;
  ai_overflow : m_overflow (pg_mem s) = m_overflow (pg_mem s0);
  ai_others : alloc_reset (pg_machines s) = alloc_reset (pg_machines s0);
  ai_partway : partway w s0 (alloc_pages (allocate_page_state (pg_machines s))) s;
  ai_fits : alloc_fits s0 T (allocate_page_state (pg_machines s))
}.
(** The page behind the end of the file. *)
Definition fresh_page (s : Pager) : Z :=
  if decide (Some (top_page s + 1) = pending_byte_page_id s) then top_page s + 2 else top_page s + 1.
(** The free page that is taken first, and the others. *)
Definition pop (T : trunks) : option (Z * trunks) :=
  match T with [] => None | (t, []) :: T' => Some (t, T') | (t, l :: ls) :: T' => Some (l, (t, ls) :: T') end.
(** What [allocate_page] gives. *)
Record alloc_post (s0 : Pager) (T : trunks) (s : Pager) (p : Z) : Prop := {
  ap_list :
    match pop T with
    | None => p = fresh_page s0 /\ size_of s = p /\ free_ok s []
    | Some (p', T') => p = p' /\ size_of s = size_of s0 /\ free_ok s T'
    end;
  ap_page : exists b, m_pages (pg_mem s) !! p = Some b /\ len b = page_sz s0 /\ (T <> [] -> b = replicate (Z.to_nat (page_sz s0)) 0);
  ap_frame q : q <= size_of s0 -> q ∉ free_ids T -> m_pages (pg_mem s) !! q = m_pages (pg_mem s0) !! q;
  ap_ready : ready s p;
  ap_pins q : pin_count q (pg_mem s) = pin_count q (pg_mem s0);
  ap_overflow : m_overflow (pg_mem s) = m_overflow (pg_mem s0);
  ap_sz : page_sz s = page_sz s0;
  ap_reserved : reserved_space (pg_header s) = reserved_space (pg_header s0);
  ap_page_size : pg_page_size s = pg_page_size s0;
  ap_max : pg_max_page_count s = pg_max_page_count s0;
  ap_vacuum : pg_auto_vacuum s = pg_auto_vacuum s0;
  ap_buffers : Forall (fun x => len x.1 = page_sz s0) (e_buffers (pg_env s));
  ap_mem : mem_ok s;
  ap_machines : pg_machines s = alloc_reset (pg_machines s0)
}.

Section allocate.
Context (s0 : Pager) (T : trunks).
Context (Hb0 : base_ok s0) (Hf0 : free_ok s0 T).

Lemma chain_head t ls T' :
  T = (t, ls) :: T' ->
  exists b, m_pages (pg_mem s0) !! t = Some b /\ len b = page_sz s0 /\ trunk_bytes (first T') ls b /\ len ls <= capacity s0 /\
    2 <= t <= size_of s0 /\ t ∉ m_overflow (pg_mem s0) /\ t ∉ ls /\ t ∉ free_ids T' /\ freelist_pages (pg_header s0) = 1 + len ls + len (free_ids T') /\
    chain_ok (page_sz s0) (capacity s0) (m_pages (pg_mem s0)) T' /\ Forall (has_page (page_sz s0) (m_pages (pg_mem s0))) ls.
Proof.
  intros HT. pose proof (fo_chain _ _ Hf0) as Hc. pose proof (fo_nodup _ _ Hf0) as Hnd. pose proof (fo_range _ _ Hf0) as Hr.
  pose proof (fo_overflow _ _ Hf0) as Ho. pose proof (fo_count _ _ Hf0) as Hcnt. rewrite HT, free_ids_cons in *. cbn [chain_ok] in Hc.
  destruct Hc as ((b & Hb & Hl & Htb & Hcap) & Hls & Hc). apply NoDup_cons in Hnd as [Hnt _]. inversion Hr; subst. inversion Ho; subst.
  exists b. split_and!; try done; try lia; [set_solver..|]. rewrite Hcnt. unfold len. cbn [length]. rewrite length_app. lia.
Qed.
Lemma chain_leaf t l ls T' :
  T = (t, l :: ls) :: T' ->
  has_page (page_sz s0) (m_pages (pg_mem s0)) l /\ 2 <= l <= size_of s0 /\ l ∉ m_overflow (pg_mem s0) /\ l ∉ ls /\ l ∉ free_ids T' /\ l <> t.
Proof.
  intros HT. pose proof (fo_chain _ _ Hf0) as Hc. pose proof (fo_nodup _ _ Hf0) as Hnd. pose proof (fo_range _ _ Hf0) as Hr.
  pose proof (fo_overflow _ _ Hf0) as Ho. rewrite HT, free_ids_cons in *. cbn [chain_ok] in Hc. destruct Hc as (_ & Hls & _).
  inversion Hls; subst. cbn [app] in *. rewrite !NoDup_cons in Hnd. destruct Hnd as (Hnt & Hnl & _). rewrite !Forall_cons in Hr, Ho.
  destruct Hr as (_ & Hr & _), Ho as (_ & Ho & _). split_and!; try done; try lia; set_solver.
Qed.
(** The free list without its first leaf, or without a trunk page that has no leaves. *)
Lemma free_ok_leaf s t l ls T' b :
  T = (t, l :: ls) :: T' -> size_of s = size_of s0 -> page_sz s = page_sz s0 -> capacity s = capacity s0 ->
  m_overflow (pg_mem s) = m_overflow (pg_mem s0) -> freelist_trunk_page (pg_header s) = t ->
  freelist_pages (pg_header s) = freelist_pages (pg_header s0) - 1 ->
  m_pages (pg_mem s) !! t = Some b -> len b = page_sz s0 -> trunk_bytes (first T') ls b ->
  (forall q, q <> t -> q <> l -> q <= size_of s0 -> m_pages (pg_mem s) !! q = m_pages (pg_mem s0) !! q) -> free_ok s ((t, ls) :: T').
Proof.
  intros HT Hsz Hpz Hcap Ho Hfst Hcnt Hb Hlen Htb Hfr. destruct (chain_head _ _ _ HT) as (_ & _ & _ & _ & Hl & _ & _ & Htl & HtT & Hcnt0 & HT' & Hls).
  destruct (chain_leaf _ _ _ _ HT) as (_ & _ & _ & Hll & HlT & _). destruct Hf0 as [_ Hc0 Hnd Hr _ Hov]. rewrite HT in Hnd, Hr, Hov.
  rewrite free_ids_cons in Hnd, Hr, Hov. cbn [app] in *. rewrite !NoDup_cons in Hnd. rewrite !Forall_cons in Hr, Hov.
  destruct Hnd as (Hnt & _ & Hnd), Hr as (Ht & _ & Hr), Hov as (Hot & _ & Hov).
  assert (Hfr' : forall q, q ∈ ls ++ free_ids T' -> m_pages (pg_mem s) !! q = m_pages (pg_mem s0) !! q).
  { intros q Hq. rewrite Forall_forall in Hr. specialize (Hr q Hq). apply Hfr; set_solver. }
  split; rewrite ?free_ids_cons, ?Hsz, ?Ho; cbn [first chain_ok].
  - done.
  - rewrite Hcnt, Hcnt0. unfold len. cbn [length]. rewrite length_app. lia.
  - apply NoDup_cons. set_solver.
  - by apply Forall_cons.
  - rewrite Hpz, Hcap. split_and!.
    + exists b. split_and!; try done. unfold len in *. cbn [length] in *. lia.
    + apply Forall_cons in Hls as [_ Hls]. rewrite Forall_forall in *. intros q Hq. destruct (Hls q Hq) as (b' & Hb' & Hl'). exists b'.
      split; [|done]. rewrite Hfr'; [done|set_solver].
    + eapply chain_ok_frame; [|done]. intros q Hq. apply Hfr'. set_solver.
  - by apply Forall_cons.
Qed.
Lemma free_ok_trunk s t T' :
  T = (t, []) :: T' -> size_of s = size_of s0 -> page_sz s = page_sz s0 -> capacity s = capacity s0 ->
  m_overflow (pg_mem s) = m_overflow (pg_mem s0) -> freelist_trunk_page (pg_header s) = first T' ->
  freelist_pages (pg_header s) = freelist_pages (pg_header s0) - 1 ->
  (forall q, q <> t -> q <= size_of s0 -> m_pages (pg_mem s) !! q = m_pages (pg_mem s0) !! q) -> free_ok s T'.
Proof.
  intros HT Hsz Hpz Hcap Ho Hfst Hcnt Hfr. destruct (chain_head _ _ _ HT) as (_ & _ & _ & _ & _ & _ & _ & _ & HtT & Hcnt0 & HT' & _).
  destruct Hf0 as [_ _ Hnd Hr _ Hov]. rewrite HT in Hnd, Hr, Hov. rewrite free_ids_cons in Hnd, Hr, Hov. cbn [app] in *.
  apply NoDup_cons in Hnd as [_ Hnd]. apply Forall_cons in Hr as [_ Hr], Hov as [_ Hov].
  split; rewrite ?Hsz, ?Ho, ?Hpz, ?Hcap; try done; [rewrite Hcnt, Hcnt0; unfold len; cbn; lia|].
  eapply chain_ok_frame; [|done]. intros q Hq. rewrite Forall_forall in Hr. specialize (Hr q Hq). apply Hfr; [set_solver|lia].
Qed.

Lemma takes_post s s' p T' :
  alloc_inv None s0 T s -> header_ref_state (pg_machines s) = HeaderStart -> ends (set_alloc AllocStart) (alloc_pages (allocate_page_state (pg_machines s))) s s' ->
  p ∈ alloc_pages (allocate_page_state (pg_machines s)) -> m_pages (pg_mem s') !! p = Some (replicate (Z.to_nat (page_sz s0)) 0) ->
  (forall q, q <= size_of s0 -> q ∉ free_ids T -> m_pages (pg_mem s') !! q = m_pages (pg_mem s) !! q) ->
  pop T = Some (p, T') -> free_ok s' T' -> alloc_post s0 T s' p.
Proof.
  intros [Hh Ho Hoth Hpw Hfit] Hhs Htk Hp Hzero Hfr Hpop Hfree. destruct (ends_facts _ _ _ _ _ Hpw Htk) as (Hmem & Hbuf & Hpins & Hrd).
  pose proof Hpw as []. pose proof Htk as []. pose proof (page_sz_bounds s0 Hb0). split; try done; try (etrans; [eassumption|done]).
  - rewrite Hpop. split; [done|]. split; [congruence|done].
  - eexists. split; [done|]. split; [|done]. unfold len. rewrite length_replicate. lia.
  - intros q Hq Hqf. rewrite Hfr by done. by apply pw_pages.
  - by apply Hrd.
  - rewrite en_machines, <- Hoth. unfold alloc_reset, set_alloc, set_header_ref. cbn. by rewrite Hhs.
Qed.

Lemma reuse_leaf_wp s t l n Q E :
  alloc_inv None s0 T s -> header_ref_state (pg_machines s) = HeaderStart -> allocate_page_state (pg_machines s) = ReuseFreelistLeaf t l n ->
  (forall s', alloc_post s0 T s' l -> Q (Done l) s') -> wp (reuse_leaf t l n) s Q E.
Proof.
  intros Hinv Hhs Hst Hq. pose proof Hinv as [Hh Ho Hoth Hpw Hfit]. rewrite Hst in Hpw, Hfit. cbn [alloc_pages alloc_fits] in Hpw, Hfit.
  destruct Hfit as (ls & T' & HT & ->). destruct (chain_head _ _ _ HT) as (b & Hb & Hbl & Htb & _ & Htr & Hot & _ & _ & Hcnt & _).
  destruct (chain_leaf _ _ _ _ HT) as ((bl & Hbl0 & Hbll) & Hlr & Hol & Hll & _ & Hlt). destruct (trunk_remove _ _ _ _ Htb) as (b1 & b2 & Hw1 & Hw2 & Htb2 & Hlb2).
  pose proof (len_nonneg ls). pose proof (len_nonneg (free_ids T')). assert (Hn1 : len (l :: ls) = len ls + 1) by (unfold len; cbn; lia).
  pose proof Hpw as [Hsz Hpz Hres _ _ _ Hpages _ _ _ Hnear Hpins]. rewrite !Forall_cons in Hnear. destruct Hnear as ([Hcl [Hldl|?]] & [Hct [Hldt|?]] & _); [|done..].
  assert (Hpt : 0 < pin_count t (pg_mem s)) by (rewrite Hpins, decide_True by set_solver; pose proof (bo_pins s0 Hb0 t); lia).
  assert (Hpl : 0 < pin_count l (pg_mem s)) by (rewrite Hpins, decide_True by set_solver; pose proof (bo_pins s0 Hb0 l); lia).
  rewrite <- Hpages in Hb, Hbl0 by lia. rewrite <- Ho in Hot, Hol. assert (Htake := fun s' => takes_post s s' l ((t, ls) :: T') Hinv Hhs). rewrite Hst in Htake.
  destruct s as [h [pages cache loading pending pins overflow dirty] st e sz mx v]. unfold reuse_leaf.
  wstep. wstep. wstep. wstep; [by apply bool_decide_eq_true|]. wstep. apply add_dirty_wp; [done|]. wstep. apply no_overflow_wp; [done|].
  wstep. eapply fill_zero_wp; [done..|]. wstep. apply in_cache_wp; [done|]. wstep. apply add_dirty_wp; [done|].
  wstep. apply (wp_lift _ (len ls)); [unfold usub; rewrite (proj2 (Z.leb_le _ _)) by lia; f_equal; lia|].
  wstep. eapply (get_contents_wp t b); [done|cbn; by rewrite lookup_insert_ne by done|]. wstep. eapply wp_lift; [exact Hw1|].
  wstep. unfold put_contents. wstep. wstep. eapply (write_u32_wp _ _ _ b1); [done|cbn; by rewrite lookup_insert_eq|exact Hw2|].
  wstep. eapply modify_header_wp; [cbn; unfold usub; rewrite (proj2 (Z.leb_le _ _)) by (cbn in Hh; subst; lia); done|].
  wstep. apply unpin_wp; [done|]. wstep. apply unpin_wp.
  { cbn [on_mem on_header pg_mem]. rewrite pin_count_set, decide_False by done. done. }
  wstep. unfold set_allocate_page_state. wstep. apply wp_ret, Hq. cbn in Hh. subst h. apply Htake; clear Htake Hq Hinv.
  - split; try done. intros q. cbn [on_mem on_header on_machines pg_mem]. rewrite !pin_count_set. cbn [alloc_pages].
    assert (Hin : q ∈ [l; t] <-> q = l \/ q = t) by set_solver.
    destruct (decide (q ∈ [l; t])), (decide (q = l)), (decide (q = t)), (decide (l = t)); subst; try tauto; unfold pin_count; cbn; lia.
  - set_solver.
  - cbn. rewrite !lookup_insert_ne, lookup_insert_eq by done. do 2 f_equal. unfold len in Hbll. lia.
  - intros q Hq Hqf. rewrite HT, free_ids_cons in Hqf. cbn. by rewrite !lookup_insert_ne by set_solver.
  - by rewrite HT.
  - eapply (free_ok_leaf _ t l ls T' b2); try done.
    + cbn. by rewrite (fo_first _ _ Hf0), HT.
    + cbn. by rewrite lookup_insert_eq.
    + congruence.
    + intros q Hqt Hql Hqs. cbn. rewrite !lookup_insert_ne by done. by apply Hpages.
Qed.
Lemma reuse_trunk_wp s t T' Q E :
  alloc_inv None s0 T s -> header_ref_state (pg_machines s) = HeaderStart -> allocate_page_state (pg_machines s) = SearchAvailableFreeListLeaf t ->
  T = (t, []) :: T' -> (forall s', alloc_post s0 T s' t -> Q (Done t) s') -> wp (reuse_trunk t (first T')) s Q E.
Proof.
  intros Hinv Hhs Hst HT Hq. pose proof Hinv as [Hh Ho _ Hpw _]. rewrite Hst in Hpw. cbn [alloc_pages] in Hpw.
  destruct (chain_head _ _ _ HT) as (b & Hb & Hbl & _ & _ & Htr & Hot & _ & _ & Hcnt & _).
  assert (Hc1 : 1 <= freelist_pages (pg_header s0)) by (rewrite Hcnt; unfold len; cbn [length]; lia).
  pose proof Hpw as [Hsz Hpz Hres _ _ _ Hpages _ _ _ Hnear Hpins]. rewrite Forall_singleton in Hnear. destruct Hnear as [Hct [Hldt|?]]; [|done].
  assert (Hpt : 0 < pin_count t (pg_mem s)) by (rewrite Hpins, decide_True by set_solver; pose proof (bo_pins s0 Hb0 t); lia).
  rewrite <- Hpages in Hb by lia. rewrite <- Ho in Hot. assert (Htake := fun s' => takes_post s s' t T' Hinv Hhs). rewrite Hst in Htake.
  destruct s as [h [pages cache loading pending pins overflow dirty] st e sz mx v]. unfold reuse_trunk.
  wstep. eapply modify_header_wp; [cbn; unfold usub; rewrite (proj2 (Z.leb_le _ _)) by (cbn in Hh; by subst); done|].
  wstep. apply add_dirty_wp; [done|]. wstep. apply no_overflow_wp; [done|]. wstep. eapply fill_zero_wp; [done..|]. wstep. apply in_cache_wp; [done|].
  wstep. apply unpin_wp; [done|]. wstep. unfold set_allocate_page_state. wstep. apply wp_ret, Hq. cbn in Hh. subst h. apply Htake; clear Htake Hq Hinv.
  - split; try done. intros q. cbn [on_mem on_header on_machines pg_mem]. rewrite !pin_count_set. cbn [alloc_pages].
    assert (Hin : q ∈ [t] <-> q = t) by set_solver. destruct (decide (q ∈ [t])), (decide (q = t)); subst; try tauto; unfold pin_count; cbn; lia.
  - set_solver.
  - cbn. rewrite lookup_insert_eq. do 2 f_equal. unfold len in Hbl. lia.
  - intros q Hq Hqf. rewrite HT, free_ids_cons in Hqf. cbn. by rewrite !lookup_insert_ne by set_solver.
  - by rewrite HT.
  - eapply (free_ok_trunk _ t T'); try done. intros q Hqt Hqs. cbn. rewrite !lookup_insert_ne by done. by apply Hpages.
Qed.

(** * The states of the loop *)

Definition alloc_out (s : Pager) (x : ioresult Z) (s' : Pager) : Prop :=
  match x with
  | Done p => alloc_post s0 T s' p
  | IO w => waits s s' /\ alloc_inv w s0 T s' /\ header_ref_state (pg_machines s') = HeaderStart
  end.
Definition alloc_err (e : LimboError) (s' : Pager) : Prop := e = DatabaseFull /\ T = [] /\ pg_max_page_count s0 < fresh_page s0.
Lemma alloc_out_onward s s1 m : onward s s1 -> wp m s1 (alloc_out s1) alloc_err -> wp m s1 (alloc_out s) alloc_err.
Proof. intros Ho Hw. eapply wp_conseq; [exact Hw| |done]. intros [p|w] s' Hx; [done|]. split; [|apply Hx]. by eapply onward_waits, Hx. Qed.
Lemma onward_pin p n s : onward s (on_mem (fun m => set_pins p (n m) m) s).
Proof. destruct s as [h [] st e sz mx v]. split_and!; try done. by right. Qed.
Lemma onward_machines f s : onward s (on_machines f s).
Proof. destruct s. split_and!; try done. by right. Qed.

Definition alloc_stage (s : Pager) (a : AllocatePageState) : Prop :=
  alloc_inv None s0 T s /\ header_ref_state (pg_machines s) = HeaderStart /\ allocate_page_state (pg_machines s) = a.
Lemma reuse_stage fuel s t l n : alloc_stage s (ReuseFreelistLeaf t l n) -> wp (allocate_page_loop (S fuel)) s (alloc_out s) alloc_err.
Proof.
  intros (Hinv & Hhs & Hst). cbn [allocate_page_loop]. unfold allocate_page_step. wstep. wstep. rewrite Hst. by apply reuse_leaf_wp.
Qed.

(** After a page is read it is pinned, and the call goes on or waits for it. *)
Lemma pin_then (w : option Z) s s1 p a :
  alloc_inv None s0 T s -> header_ref_state (pg_machines s) = HeaderStart -> reads s s1 -> nearly w s1 p ->
  p ∉ alloc_pages (allocate_page_state (pg_machines s)) -> alloc_pages a = p :: alloc_pages (allocate_page_state (pg_machines s)) -> alloc_fits s0 T a ->
  let s2 := on_machines (set_alloc a) (on_mem (fun m => set_pins p (pin_count p m + 1) m) s1) in
  alloc_inv w s0 T s2 /\ header_ref_state (pg_machines s2) = HeaderStart /\ allocate_page_state (pg_machines s2) = a /\ onward s s2 /\
  (cached s1 p -> cached s2 p).
Proof.
  intros [Hh Ho Hoth Hpw Hfit] Hhs Hr Hn Hp Ha Hfa s2. assert (Hon : onward s s2).
  { eapply onward_trans; [apply Hr|]. eapply onward_trans; [|apply onward_machines]. apply onward_pin. }
  assert (Hp1 := partway_reads s0 Hb0 _ _ _ _ Hpw Hr). assert (Hp2 := partway_pin s0 Hb0 w _ _ p Hp1 Hp Hn). apply (partway_machines s0 (set_alloc a)) in Hp2.
  destruct Hr as [(Hh1 & _ & _ & Ho1 & Hm1 & _) _]. fold s2 in Hp2. unfold s2 in *. destruct s1 as [h1 m1 st1 e1 sz1 mx1 v1]. cbn in Hh1, Ho1, Hm1. subst.
  split_and!; try done. split; cbn; try congruence; try done. by rewrite Ha.
Qed.
Lemma inv_reads w s s1 : alloc_inv w s0 T s -> reads s s1 -> alloc_inv w s0 T s1.
Proof.
  intros [] Hr. pose proof Hr as [(Hh1 & _ & _ & Ho1 & Hm1 & _) _]. split; rewrite ?Hm1, ?Hh1, ?Ho1; try done. by eapply partway_reads.
Qed.
Lemma pin_stage fuel s s1 p (c : bool) a :
  alloc_inv None s0 T s -> header_ref_state (pg_machines s) = HeaderStart -> reads s s1 -> cached s1 p -> (if c then ~ cached s p else loaded s1 p) ->
  2 <= p <= size_of s -> p ∉ alloc_pages (allocate_page_state (pg_machines s)) ->
  alloc_pages a = p :: alloc_pages (allocate_page_state (pg_machines s)) -> alloc_fits s0 T a ->
  (forall s2, alloc_stage s2 a -> wp (allocate_page_loop fuel) s2 (alloc_out s2) alloc_err) ->
  wp (_ ← pin p; _ ← set_allocate_page_state a; if c then mret (IO (Some p)) else allocate_page_loop fuel) s1 (alloc_out s) alloc_err.
Proof.
  intros Hinv Hhs Hr Hc Hl Hp Hnp Ha Hfa Hnext. unfold pin, set_allocate_page_state. wstep. wstep. wstep. wstep. destruct c.
  - destruct (pin_then (Some p) s s1 p a) as (Hi2 & Hh2 & _ & Hon & Hc2); try done; [split; [done|by right]|]. apply wp_ret. split; [split; [done|]|done].
    right. exists p. split_and!; [lia..| |by apply Hc2]. by intros [? _].
  - destruct (pin_then None s s1 p a) as (Hi2 & Hh2 & Ha2 & Hon & _); try done; [split; [done|by left]|]. eapply alloc_out_onward; [done|]. by apply Hnext.
Qed.
Lemma search_stage fuel s t : alloc_stage s (SearchAvailableFreeListLeaf t) -> wp (allocate_page_loop (S (S fuel))) s (alloc_out s) alloc_err.
Proof.
  intros (Hinv & Hhs & Hst). pose proof Hinv as [Hh Ho _ Hpw Hfit]. rewrite Hst in Hpw, Hfit. cbn [alloc_pages alloc_fits] in Hpw, Hfit. destruct Hfit as (ls & T' & HT).
  destruct (chain_head _ _ _ HT) as (b & Hb & _ & Htb & _ & Htr & _). destruct (trunk_read _ _ _ Htb) as (Hr1 & Hr2 & Hr3).
  pose proof Hpw as [Hsz _ _ _ _ _ Hpages _ Hmem _ Hnear _]. rewrite Forall_singleton in Hnear. destruct Hnear as [Hct [Hldt|?]]; [|done].
  rewrite <- Hpages in Hb by lia. cbn [allocate_page_loop]. unfold allocate_page_step at 1. wstep. wstep. rewrite Hst. wstep.
  eapply get_contents_wp; [done..|]. wstep. eapply wp_lift; [exact Hr1|]. wstep. eapply wp_lift; [exact Hr2|]. destruct ls as [|l ls]; cbn [negb Z.eqb].
  - cbn. by apply (reuse_trunk_wp s t T').
  - destruct (chain_leaf _ _ _ _ HT) as ((bl & Hbl & _) & Hlr & _ & _ & _ & Hlt). rewrite <- Hpages in Hbl by lia.
    replace (len (l :: ls) =? 0) with false by (symmetry; apply Z.eqb_neq; unfold len; cbn; lia). cbn [negb].
    wstep. eapply wp_lift; [by eapply Hr3|]. unfold if_done. wstep. apply read_page_wp; [done|lia|by eexists|..].
    + intros s1 c Hr Hc Hl. apply (pin_stage (S fuel)); try done; rewrite ?Hst; [lia|cbn; set_solver|done|by eexists _, _|]. intros s2. apply reuse_stage.
    + intros s1 Hr Hw. apply wp_ret. assert (Hm1 : pg_machines s1 = pg_machines s) by apply Hr. split; [done|].
      split; [by eapply inv_reads|by rewrite Hm1].
Qed.
(** * The end of the file *)

(** New pages up to [n] behind the end of the file. *)
Record grows (n : Z) (s s' : Pager) : Prop := {
  gr_header : pg_header s' = pg_header s;
  gr_machines : pg_machines s' = pg_machines s;
  gr_page_size : pg_page_size s' = pg_page_size s;
  gr_max : pg_max_page_count s' = pg_max_page_count s;
  gr_vacuum : pg_auto_vacuum s' = pg_auto_vacuum s;
  gr_pages q : q <= size_of s -> m_pages (pg_mem s') !! q = m_pages (pg_mem s) !! q;
  gr_buffers P : Forall P (e_buffers (pg_env s)) -> Forall P (e_buffers (pg_env s'));
  gr_pins : m_pins (pg_mem s') = m_pins (pg_mem s);
  gr_overflow : m_overflow (pg_mem s') = m_overflow (pg_mem s);
  gr_pending : m_pending (pg_mem s') = m_pending (pg_mem s);
  gr_cached q : cached s' q -> cached s q \/ size_of s < q <= n
}.
Lemma grows_adds n p s s1 s2 : grows n s s1 -> adds p s1 s2 -> size_of s < p -> n <= p -> grows p s s2.
Proof.
  intros [] [] Hp Hn. destruct ad_page as (b & Hpg & _). split; try congruence.
  - intros q Hq. rewrite Hpg, lookup_insert_ne by lia. auto.
  - auto.
  - intros q [->|Hq]%ad_cached; [right; lia|]. apply gr_cached0 in Hq as [?|?]; [by left|right; lia].
Qed.
Lemma grows_post s s1 s2 :
  T = [] -> alloc_inv None s0 T s -> header_ref_state (pg_machines s) = HeaderStart -> allocate_page_state (pg_machines s) = AllocateNewPage (top_page s0) ->
  grows (top_page s0 + 1) s s1 -> adds (fresh_page s0) s1 s2 ->
  alloc_post s0 T (on_machines (set_alloc AllocStart) (on_header (set_database_size (fresh_page s0)) s2)) (fresh_page s0).
Proof.
  intros HT [Hh Ho Hoth Hpw _] Hhs Hst Hg Ha. rewrite Hst in Hpw. pose proof (size_le_top s0) as Hle. pose proof Hpw as [].
  assert (Hfr : top_page s0 + 1 <= fresh_page s0) by (unfold fresh_page; case_decide; lia).
  assert (Hg2 := grows_adds _ _ _ _ _ Hg Ha ltac:(lia) Hfr). destruct Hg2. destruct (ad_page _ _ _ Ha) as (b & Hpg & Hlb). destruct (ad_ready _ _ _ Ha) as [Hc2 Hl2].
  assert (Hbl : len b = page_sz s0).
  { destruct Hg. unfold page_sz in *. rewrite gr_header1, Hh in Hlb. apply Hlb; [auto|]. rewrite gr_page_size1, pw_page_size, (bo_pg_page_size s0 Hb0). done. }
  destruct Hf0 as [Hf1 Hf2 _ _ _ _]. rewrite HT in Hf1, Hf2. set (n := fresh_page s0) in *.
  assert (Hsz2 : size_of (on_machines (set_alloc AllocStart) (on_header (set_database_size n) s2)) = n) by by destruct s2.
  set (s3 := on_machines _ _) in *. assert (Hm3 : mem_ok s3).
  { pose proof (size_le_top s3). pose proof (bo_size s0 Hb0). destruct pw_mem as [Hpd Hi Hk]. split; rewrite ?Hsz2.
    - intros q Hq Hc. assert (Hq' : q ∈ m_pending (pg_mem s)) by (rewrite <- gr_pending0; by destruct s2). assert (Hc' : cached s2 q) by by destruct s2.
      apply gr_cached0 in Hc' as [Hc'|Hr]; [by apply (Hpd q)|]. apply Hi in Hq'. lia.
    - intros q Hq. assert (Hq' : q ∈ m_pending (pg_mem s)) by (rewrite <- gr_pending0; by destruct s2). apply Hi in Hq'. lia.
    - intros q Hc. assert (Hc' : cached s2 q) by by destruct s2. apply gr_cached0 in Hc' as [Hc'|Hr]; [|lia].
      apply Hk in Hc'. rewrite (top_page_eq s s0) in Hc' by done. lia. }
  unfold s3 in *. clear s3. destruct s2 as [h2 m2 st2 e2 sz2 mx2 v2]. cbn in *. subst h2 st2. rewrite Hh in *. split; cbn; try congruence; try done.
  - rewrite HT. by split_and!.
  - exists b. rewrite Hpg, lookup_insert_eq. by rewrite HT.
  - intros q Hq _. rewrite gr_pages0 by (unfold size_of in *; congruence). by apply pw_pages.
  - intros q. unfold pin_count in *. rewrite gr_pins0, pw_pins, decide_False by apply not_elem_of_nil. lia.
  - auto.
  - rewrite <- Hoth. unfold alloc_reset, set_alloc, set_header_ref. cbn. by rewrite Hhs.
Qed.
Lemma grows_refl n s : grows n s s.
Proof. split; auto. Qed.
Lemma allocate_at_end_wp s :
  alloc_stage s (AllocateNewPage (top_page s0)) -> wp (allocate_at_end (top_page s0)) s (alloc_out s) alloc_err.
Proof.
  intros (Hinv & Hhs & Hst). pose proof Hinv as [Hh _ _ Hpw Hfit]. rewrite Hst in Hpw, Hfit. destruct Hfit as [HT _]. pose proof Hpw as [].
  pose proof (bo_size s0 Hb0). pose proof (size_le_top s0). pose proof (page_sz_bounds s0 Hb0).
  assert (Htop : top_page s0 <= size_of s0 + 1) by (unfold top_page; destruct (ptrmap_next s0); lia).
  assert (Hout : forall q, cached s q -> q <= top_page s0).
  { intros q Hq. apply (mo_known s pw_mem) in Hq. rewrite (top_page_eq s s0) in Hq by done. lia. }
  assert (Hpend : pending_byte_page_id s = pending_byte_page_id s0) by (unfold pending_byte_page_id; by rewrite pw_page_size).
  unfold allocate_at_end. wstep. wstep. wstep. apply (wp_lift _ (top_page s0 + 1)); [unfold uadd; by rewrite (proj2 (Z.ltb_lt _ _)) by lia|]. wstep.
  assert (Hlast : forall s1, grows (top_page s0 + 1) s s1 -> ~ cached s1 (fresh_page s0) ->
    wp (if pg_max_page_count s <? fresh_page s0 then slift (Err DatabaseFull)
        else _ ← add_new_page (fresh_page s0); _ ← smodify (on_header (set_database_size (fresh_page s0))); _ ← set_allocate_page_state AllocStart; done_ (fresh_page s0))
      s1 (alloc_out s) alloc_err).
  { intros s1 Hg Hc. destruct (Z.ltb_spec (pg_max_page_count s) (fresh_page s0)) as [Hlt|Hge]; [split; [done|split; [done|congruence]]|].
    wstep. apply add_new_page_wp; [done|unfold page_sz in *; rewrite (gr_header _ _ _ Hg); lia|]. intros s2 Ha. wstep. wstep. wstep.
    unfold set_allocate_page_state. wstep. apply wp_ret. by eapply grows_post. }
  rewrite Hpend. unfold fresh_page in *. case_bool_decide as Hp; [rewrite decide_True in * by done|rewrite decide_False in * by done].
  - wstep. apply add_new_page_wp; [intros Hc%Hout; lia|lia|]. intros s1 Ha. apply (wp_lift _ (top_page s0 + 2)); [unfold uadd; rewrite (proj2 (Z.ltb_lt _ _)) by lia; f_equal; lia|].
    apply Hlast; [|intros [?|?%Hout]%(ad_cached _ _ _ Ha); lia]. eapply (grows_adds (top_page s0 + 1)); [apply grows_refl|done|lia..].
  - wstep. apply Hlast; [apply grows_refl|]. intros ?%Hout. lia.
Qed.
Lemma end_stage fuel s : alloc_stage s (AllocateNewPage (top_page s0)) -> wp (allocate_page_loop (S fuel)) s (alloc_out s) alloc_err.
Proof.
  intros Hs. cbn [allocate_page_loop]. unfold allocate_page_step. wstep. wstep. pose proof Hs as (_ & _ & ->). by apply allocate_at_end_wp.
Qed.
Lemma start_stage fuel s : alloc_stage s AllocStart -> wp (allocate_page_loop (S (S (S fuel)))) s (alloc_out s) alloc_err.
Proof.
  intros (Hinv & Hhs & Hst). pose proof Hinv as [Hh Ho Hoth Hpw _]. rewrite Hst in Hpw. cbn [alloc_pages] in Hpw.
  change (allocate_page_loop (S (S (S fuel)))) with (allocate_page_step (allocate_page_loop (S (S fuel)))).
  unfold allocate_page_step. wstep. wstep. rewrite Hst. wstep. fold (size_of s).
  eapply allocate_ptrmap_page_wp; [done..|]. intros s1 Hpw1 Hh1 Hm1 Ho1 _ Hon1. cbv zeta. rewrite Hh, (fo_first _ _ Hf0).
  assert (Hinv1 : alloc_inv None s0 T s1) by (split; rewrite ?Hh1, ?Hm1, ?Ho1, ?Hst; done).
  assert (Hst1 : allocate_page_state (pg_machines s1) = AllocStart) by by rewrite Hm1.
  eapply alloc_out_onward; [done|]. assert (HT : T = [] \/ exists t ls T', T = (t, ls) :: T') by (destruct T as [|[t ls] T']; eauto).
  destruct HT as [HT|(t & ls & T' & HT)]; rewrite HT; cbn [first].
  - cbn [Z.eqb]. unfold set_allocate_page_state. wstep. wstep. eapply alloc_out_onward; [apply onward_machines|]. apply end_stage.
    apply (partway_machines s0 (set_alloc (AllocateNewPage (top_page s0)))) in Hpw1. destruct s1 as [h1 m1 st1 e1 sz1 mx1 v1]. cbn in *. subst st1.
    split; [|done]. split; try done; cbn; congruence.
  - destruct (chain_head _ _ _ HT) as (b & Hb & _ & _ & _ & Htr & _). rewrite (proj2 (Z.eqb_neq _ _)) by lia.
    assert (Hs1 : size_of s1 = size_of s0) by apply Hpw1. unfold if_done. wstep. apply read_page_wp; [apply Hpw1|lia|rewrite (pw_pages _ _ _ _ Hpw1) by lia; by eexists|..].
    + intros s2 c Hr Hc Hl. apply (pin_stage (S (S fuel))); try done; rewrite ?Hst1, ?Hm1; try done; [lia|apply not_elem_of_nil|by eexists _, _|].
      intros s3. apply search_stage.
    + intros s2 Hr Hw. apply wp_ret. assert (Hm2 : pg_machines s2 = pg_machines s1) by apply Hr.
      split; [done|]. split; [by eapply inv_reads|by rewrite Hm2, Hm1].
Qed.

(** * The whole call *)

Lemma inv_bare w s : alloc_inv w s0 T s -> alloc_inv w s0 T (bare s).
Proof. intros [Hh Ho Hoth Hpw Hfit]. apply (partway_machines s0 (set_header_ref HeaderStart)) in Hpw. destruct s. by split. Qed.
Lemma inv_unbare w s : alloc_inv w s0 T (bare s) -> alloc_inv w s0 T s.
Proof.
  intros [Hh Ho Hoth Hpw Hfit]. destruct s as [h m st e sz mx v]. split; try done. cbn in Hpw.
  apply (partway_machines s0 (fun _ => st)) in Hpw. exact Hpw.
Qed.
Lemma inv_weaken w s : alloc_inv None s0 T s -> alloc_inv w s0 T s.
Proof. intros []. split; try done. by apply partway_weaken. Qed.
Lemma inv_turn w s : alloc_inv w s0 T s -> alloc_inv None s0 T (env_turn w s).
Proof.
  intros [Hh Ho Hoth Hpw Hfit]. destruct (env_turn_facts w s) as (Hh1 & _ & _ & Ho1 & _ & Hm1 & _).
  split; rewrite ?Hm1, ?Hh1, ?Ho1; try done. by apply partway_turn.
Qed.
Lemma inv_header_turn w s : alloc_inv w s0 T s -> header_ref_state (pg_machines s) = HeaderStart -> header_ok (env_turn w s).
Proof.
  intros [Hh _ _ Hpw _] Hhs. pose proof (bo_size s0 Hb0). apply header_ok_turn; [|rewrite (pw_size _ _ _ _ Hpw); lia|by rewrite Hhs].
  rewrite (pw_pages _ _ _ _ Hpw) by (unfold HEADER_PAGE_ID; lia). apply Hb0.
Qed.
Lemma loop_wp s : alloc_inv None s0 T s -> header_ref_state (pg_machines s) = HeaderStart -> wp (allocate_page_loop 4) s (alloc_out s) alloc_err.
Proof.
  intros Hinv Hhs. pose proof (ai_fits _ _ _ _ Hinv) as Hfit. destruct (allocate_page_state (pg_machines s)) as [|t|t l n|n] eqn:Hst.
  - by apply start_stage.
  - by apply (search_stage 2 s t).
  - by apply (reuse_stage 3 s t l n).
  - destruct Hfit as [_ ->]. by apply (end_stage 3 s).
Qed.
Lemma allocate_page_wp s :
  alloc_inv None s0 T s /\ header_ok s ->
  wp allocate_page s (fun x s' => match x with Done p => alloc_post s0 T s' p
    | IO w => waits s s' /\ alloc_inv None s0 T (env_turn w s') /\ header_ok (env_turn w s') end) alloc_err.
Proof.
  intros [Hinv Hho]. assert (Hmem : mem_ok s) by apply Hinv. unfold allocate_page, if_done. wstep. apply ensure_cache_space_wp; [done|..].
  - intros s1 Hr1. assert (Hi1 := inv_reads _ _ _ Hinv Hr1). assert (Hh1 := header_ok_reads _ _ Hho Hr1). wstep.
    apply header_ref_mut_wp; [apply Hi1|done|..].
    + intros s2 Hr2. apply inv_bare in Hi1. assert (Hi2 := inv_reads _ _ _ Hi1 Hr2).
      assert (Hhs : header_ref_state (pg_machines s2) = HeaderStart) by (destruct Hr2 as [(_ & _ & _ & _ & -> & _) _]; by destruct s1).
      eapply wp_conseq; [by apply loop_wp| |done]. intros [p|w] s3 Hx; [done|]. destruct Hx as (Hw & Hi3 & Hhs3).
      split; [|split; [by apply inv_turn|by eapply inv_header_turn]]. eapply onward_waits; [|done]. eapply onward_trans; [apply Hr1|].
      apply onward_trans with (bare s1); [apply onward_machines|apply Hr2].
    + intros s2 w Hr2 Hw2 Hh2. apply wp_ret. split; [by eapply onward_waits; [apply Hr1|]|]. split; [|done]. apply inv_turn, inv_unbare.
      apply (inv_reads _ (bare s1)); [|done]. by apply inv_weaken, inv_bare.
  - intros s1 Hr1 Hw. apply wp_ret. split; [done|]. split; [by eapply inv_turn, inv_reads|]. by eapply header_ok_reads_turn.
Qed.
Lemma block_allocate_page :
  mem_ok s0 -> header_ok s0 -> allocate_page_state (pg_machines s0) = AllocStart ->
  wp (block allocate_page) s0 (fun p s' => alloc_post s0 T s' p) alloc_err.
Proof.
  intros Hm Hh Hst. apply (block_wp _ (fun s => alloc_inv None s0 T s /\ header_ok s)); [apply allocate_page_wp|]. split; [|done].
  split; rewrite ?Hst; try done. by apply partway_refl.
Qed.
End allocate.
