(* ===== verification/PageAllocFree.v ===== *)
(** [free_page] of PageAlloc over all its waits: the page becomes a leaf of the first trunk page
    of the free list, or the first trunk page itself. *)

From stdpp Require Import base list gmap numbers fin_sets.
From Stdlib Require Import ZArith Lia.
From S2P Require Import Prelude DbHeader PageAlloc PageAllocIO PageAllocList PageAllocOps PageAllocTake.

(** The free list with one page more. *)
Definition push (cap p : Z) (T : trunks) : trunks :=
  match T with
  | (t, ls) :: T' => if len ls <? cap then (t, ls ++ [p]) :: T' else (p, []) :: T
  | [] => [(p, [])]
  end.
Definition free_reset (st : Machines) : Machines := set_free FreeStart (set_header_ref HeaderStart st).
Definition free_fits (cap p : Z) (T : trunks) (f : FreePageState) : Prop :=
  match f with
  | FreeStart => True
  | AddToTrunk q => q = p /\ T <> []
  | NewTrunk q => q = p /\ push cap p T = (p, []) :: T
  end.
Definition free_pages (f : FreePageState) : list Z := match f with FreeStart => [] | AddToTrunk q | NewTrunk q => [q] end.
(** The pager while [free_page] waits for [w]. *)
Record free_inv (w : option Z) (s0 : Pager) (T : trunks) (page : option Z) (p : Z) (s : Pager) : Prop := {
  fi_header : pg_header s =
    match free_page_state (pg_machines s) with FreeStart => pg_header s0 | _ => set_freelist_pages (freelist_pages (pg_header s0) + 1) (pg_header s0) end;
  fi_overflow : m_overflow (pg_mem s) =
    match free_page_state (pg_machines s) with FreeStart => m_overflow (pg_mem s0) | _ => m_overflow (pg_mem s0) ∖ {[p]} end;
  fi_others : free_reset (pg_machines s) = free_reset (pg_machines s0);
  fi_partway : partway w s0 (free_pages (free_page_state (pg_machines s))) s;
  fi_fits : free_fits (capacity s0) p T (free_page_state (pg_machines s));
  fi_given : page = Some p -> ready s p
}.
Record free_post (s0 : Pager) (T : trunks) (p : Z) (s : Pager) : Prop := {
  fp_list : free_ok s (push (capacity s0) p T);
  fp_frame q : q <= size_of s0 -> q ∉ p :: free_ids T -> m_pages (pg_mem s) !! q = m_pages (pg_mem s0) !! q;
  fp_size : size_of s = size_of s0;
  fp_pins q : pin_count q (pg_mem s) = pin_count q (pg_mem s0);
  fp_overflow : m_overflow (pg_mem s) = m_overflow (pg_mem s0) ∖ {[p]};
  fp_sz : page_sz s = page_sz s0;
  fp_reserved : reserved_space (pg_header s) = reserved_space (pg_header s0);
  fp_page_size : pg_page_size s = pg_page_size s0;
  fp_max : pg_max_page_count s = pg_max_page_count s0;
  fp_vacuum : pg_auto_vacuum s = pg_auto_vacuum s0;
  fp_buffers : Forall (fun x => len x.1 = page_sz s0) (e_buffers (pg_env s));
  fp_mem : mem_ok s;
  fp_machines : pg_machines s = free_reset (pg_machines s0)
}.

Lemma free_ids_push cap p T : free_ids (push cap p T) ≡ₚ p :: free_ids T.
Proof.
  destruct T as [|[t ls] T]; [done|]. cbn [push]. destruct (len ls <? cap); [|done]. rewrite !free_ids_cons, <- app_assoc. cbn. solve_Permutation.
Qed.

Section free.
Context (s0 : Pager) (T : trunks) (page : option Z) (p : Z).
Context (Hb0 : base_ok s0) (Hf0 : free_ok s0 T).
Context (Hp0 : 2 <= p <= size_of s0) (Hpf : p ∉ free_ids T) (Hpp : has_page (page_sz s0) (m_pages (pg_mem s0)) p).
(** A page that the caller has is not evicted: it is pinned. *)
Context (Hpage : page = None \/ page = Some p /\ 0 < pin_count p (pg_mem s0)).

(** The free list after [p] is added, whatever its place. *)
Lemma free_ok_push s T' :
  T' = push (capacity s0) p T -> size_of s = size_of s0 -> page_sz s = page_sz s0 -> capacity s = capacity s0 ->
  m_overflow (pg_mem s) = m_overflow (pg_mem s0) ∖ {[p]} -> freelist_trunk_page (pg_header s) = first T' ->
  freelist_pages (pg_header s) = freelist_pages (pg_header s0) + 1 ->
  chain_ok (page_sz s0) (capacity s0) (m_pages (pg_mem s)) T' -> free_ok s T'.
Proof.
  intros -> Hsz Hpz Hcap Ho Hfst Hcnt Hch. pose proof Hf0 as [_ Hc0 Hnd Hr _ Hov]. pose proof (free_ids_push (capacity s0) p T) as Hperm.
  split; rewrite ?Hsz, ?Hpz, ?Hcap, ?Ho, ?Hcnt, ?Hperm; try done.
  - rewrite Hc0. unfold len. apply Permutation_length in Hperm. rewrite Hperm. cbn [length]. lia.
  - by apply NoDup_cons.
  - by apply Forall_cons.
  - apply Forall_cons. split; [set_solver|]. eapply Forall_impl; [done|]. set_solver.
Qed.

Definition free_out (s : Pager) (x : ioresult unit) (s' : Pager) : Prop :=
  match x with
  | Done _ => free_post s0 T p s'
  | IO w => waits s s' /\ free_inv w s0 T page p s' /\ header_ref_state (pg_machines s') = HeaderStart
  end.
Definition no_err (e : LimboError) (s' : Pager) : Prop := False.
Lemma free_out_onward s s1 m : onward s s1 -> wp m s1 (free_out s1) no_err -> wp m s1 (free_out s) no_err.
Proof. intros Ho Hw. eapply wp_conseq; [exact Hw| |done]. intros [[]|w] s' Hx; [done|]. split; [|apply Hx]. by eapply onward_waits, Hx. Qed.
Definition free_stage (s : Pager) (f : FreePageState) : Prop :=
  free_inv None s0 T page p s /\ header_ref_state (pg_machines s) = HeaderStart /\ free_page_state (pg_machines s) = f.

Lemma ends_post s s' f :
  free_stage s f -> f <> FreeStart -> ends (set_free FreeStart) (free_pages f) s s' ->
  (forall q, q <= size_of s0 -> q ∉ p :: free_ids T -> m_pages (pg_mem s') !! q = m_pages (pg_mem s) !! q) ->
  free_ok s' (push (capacity s0) p T) -> free_post s0 T p s'.
Proof.
  intros ([Hh Ho Hoth Hpw _ _] & Hhs & Hst) Hf Htk Hfr Hfree. rewrite Hst in *. destruct (ends_facts _ _ _ _ _ Hpw Htk) as (Hmem & Hbuf & Hpins & _).
  pose proof Hpw as []. pose proof Htk as []. split; try done; try (etrans; [eassumption|done]).
  - intros q Hq Hqf. rewrite Hfr by done. by apply pw_pages.
  - rewrite en_overflow. by destruct f.
  - rewrite en_machines, <- Hoth. unfold free_reset, set_free, set_header_ref. cbn. by rewrite Hhs.
Qed.
Lemma pinned_page s f :
  free_stage s f -> f <> FreeStart -> free_fits (capacity s0) p T f /\ ready s p /\ 0 < pin_count p (pg_mem s) /\ (exists b, m_pages (pg_mem s) !! p = Some b /\ len b = page_sz s0).
Proof.
  intros ([_ _ _ Hpw Hfit _] & _ & Hst) Hf. rewrite Hst in *. split; [done|]. assert (Hq : free_pages f = [p]) by (destruct f; [done|by destruct Hfit as [-> _]..]).
  destruct Hpp as (b & Hb & Hl). rewrite <- (pw_pages _ _ _ _ Hpw) in Hb by lia. pose proof Hpw as []. rewrite Hq in *. rewrite Forall_singleton in pw_nearly.
  split; [by apply nearly_ready|]. split; [|by eexists].
  rewrite pw_pins, decide_True by set_solver. pose proof (bo_pins s0 Hb0 p). lia.
Qed.
Lemma first_is_u : is_u 32 (first T).
Proof.
  pose proof (bo_size s0 Hb0). destruct T as [|[t ls] T'] eqn:HT; [done|]. cbn. pose proof (fo_range _ _ Hf0) as Hr. rewrite free_ids_cons in Hr.
  inversion Hr; subst. unfold is_u. lia.
Qed.
Lemma new_trunk_wp s : free_stage s (NewTrunk p) -> wp (new_trunk p p) s (free_out s) no_err.
Proof.
  intros Hs. destruct (pinned_page _ _ Hs) as ([_ Hpush] & [Hc Hl] & Hpin & b & Hb & Hlen); [done|]. pose proof (page_sz_bounds s0 Hb0). pose proof (bo_size s0 Hb0).
  destruct (trunk_new (first T) b) as (b1 & b2 & Hw1 & Hw2 & Htb & Hlb); [lia|apply first_is_u|]. assert (Hend := fun s' => ends_post s s' _ Hs).
  pose proof Hs as ([Hh Ho _ Hpw _ _] & _ & Hst). rewrite Hst in Hh, Ho, Hpw. pose proof Hpw as [Hsz Hpz Hres _ _ _ Hpages _ _ _ _ _]. pose proof (fo_first _ _ Hf0) as Hfst.
  assert (Hpu : wrap 32 p = p) by (apply wrap_small; unfold is_u; lia).
  destruct s as [h [pages cache loading pending pins overflow dirty] st e sz mx v]. cbn in Hh. subst h. unfold new_trunk.
  wstep. wstep. wstep. wstep; [by apply bool_decide_eq_true|]. wstep. wstep; [by apply Z.eqb_refl|]. wstep. apply add_dirty_wp; [done|].
  wstep. eapply (write_u32_wp _ _ _ b b1); [done..|cbn; by rewrite Hfst|].
  wstep. eapply (write_u32_wp _ _ _ b1 b2); [done|cbn; by rewrite lookup_insert_eq|done|]. wstep. eapply modify_header_wp; [done|].
  wstep. apply unpin_wp; [done|]. wstep. unfold set_free_page_state. wstep. apply wp_ret. apply Hend; clear Hend Hs; [done|..].
  - split; try done. intros q. cbn [on_mem on_header on_machines pg_mem]. rewrite !pin_count_set. cbn [free_pages].
    assert (Hin : q ∈ [p] <-> q = p) by set_solver. destruct (decide (q ∈ [p])), (decide (q = p)); subst; try tauto; unfold pin_count; cbn; lia.
  - intros q Hq Hqf. cbn. by rewrite !lookup_insert_ne by set_solver.
  - apply free_ok_push; try done; rewrite Hpush; cbn [first chain_ok]; [done|]. cbn. split_and!.
    + exists b2. rewrite lookup_insert_eq. split_and!; try done; [congruence|]. pose proof (capacity_bounds s0 Hb0). change (len []) with 0. lia.
    + constructor.
    + eapply chain_ok_frame; [|apply Hf0]. intros q Hq. rewrite !lookup_insert_ne by set_solver. apply Hpages.
      pose proof (fo_range _ _ Hf0) as Hr. rewrite Forall_forall in Hr. specialize (Hr q Hq). lia.
Qed.
Lemma given_stays s s1 w l : partway w s0 l s -> reads s s1 -> (page = Some p -> ready s p) -> page = Some p -> ready s1 p.
Proof.
  intros Hpw (_ & Hk & _) Hg Hpg. destruct (Hg Hpg) as [Hc Hl]. destruct Hpage as [?|[_ Hpin]]; [congruence|].
  destruct (Hk p Hc) as [Hc1 Hl1]; [|by split; auto]. right. left. rewrite (pw_pins _ _ _ _ Hpw). case_decide; lia.
Qed.
Lemma finv_reads w s s1 : free_inv w s0 T page p s -> reads s s1 -> free_inv w s0 T page p s1.
Proof.
  intros [] Hr. pose proof Hr as [(Hh1 & _ & _ & Ho1 & Hm1 & _) _]. split; rewrite ?Hm1, ?Hh1, ?Ho1; try done; [by eapply partway_reads|]. by eapply given_stays.
Qed.
Lemma finv_weaken w s : free_inv None s0 T page p s -> free_inv w s0 T page p s.
Proof. intros []. split; try done. by apply partway_weaken. Qed.
(** The page is added to the first trunk page. *)
Lemma add_leaf_wp s t ls T' b :
  free_stage s (AddToTrunk p) -> T = (t, ls) :: T' -> len ls < capacity s0 -> loaded s t -> m_pages (pg_mem s) !! t = Some b ->
  wp (_ ← sassert (t =? t); _ ← add_dirty t; n ← slift (uadd 32 (len ls) 1); _ ← write_u32_no_offset t FREELIST_TRUNK_OFFSET_LEAF_COUNT n;
    _ ← write_u32_no_offset t (FREELIST_TRUNK_OFFSET_FIRST_LEAF_PTR + len ls * FREELIST_LEAF_PTR_SIZE) (wrap 32 p); _ ← unpin p;
    _ ← set_free_page_state FreeStart; done_ tt) s (free_out s) no_err.
Proof.
  intros Hs HT Hcap Hlt Hbt. destruct (pinned_page _ _ Hs) as (_ & _ & Hpin & _); [done|]. pose proof (bo_size s0 Hb0). pose proof (len_nonneg ls).
  destruct (chain_head s0 T Hb0 Hf0 _ _ _ HT) as (b0 & Hb0' & Hbl & Htb & _ & Htr & _ & Htl & HtT & _ & HT' & Hls). destruct (capacity_bounds s0 Hb0) as [Hcb Hcp].
  assert (Hpu : wrap 32 p = p) by (apply wrap_small; unfold is_u; lia). assert (Hend := fun s' => ends_post s s' _ Hs).
  pose proof Hs as ([Hh Ho _ Hpw _ _] & _ & Hst). rewrite Hst in Hh, Ho, Hpw. pose proof Hpw as [Hsz Hpz Hres _ _ _ Hpages _ _ _ _ _]. pose proof (fo_first _ _ Hf0) as Hfst.
  assert (b0 = b) as -> by (rewrite <- Hpages in Hb0' by lia; congruence).
  assert (Hpf' := Hpf). rewrite HT, free_ids_cons in Hpf'.
  destruct (trunk_add _ _ _ p Htb) as (b1 & b2 & Hw1 & Hw2 & Htb2 & Hlb); [lia|unfold is_u; lia..|].
  destruct s as [h [pages cache loading pending pins overflow dirty] st e sz mx v]. cbn in Hh. subst h.
  wstep. wstep; [by apply Z.eqb_refl|]. wstep. apply add_dirty_wp; [done|]. wstep. apply (wp_lift _ (len ls + 1)); [unfold uadd; by rewrite (proj2 (Z.ltb_lt _ _)) by lia|].
  wstep. eapply (write_u32_wp _ _ _ b b1); [done..|]. wstep. rewrite Hpu. eapply (write_u32_wp _ _ _ b1 b2); [done|cbn; by rewrite lookup_insert_eq|done|].
  wstep. apply unpin_wp; [done|]. wstep. unfold set_free_page_state. wstep. apply wp_ret. apply Hend; clear Hend Hs; [done|..].
  - split; try done. intros q. cbn [on_mem on_header on_machines pg_mem]. rewrite !pin_count_set. cbn [free_pages].
    assert (Hin : q ∈ [p] <-> q = p) by set_solver. destruct (decide (q ∈ [p])), (decide (q = p)); subst; try tauto; unfold pin_count; cbn; lia.
  - intros q Hq Hqf. rewrite HT, free_ids_cons in Hqf. cbn. by rewrite !lookup_insert_ne by set_solver.
  - assert (Hpush : push (capacity s0) p T = (t, ls ++ [p]) :: T') by (rewrite HT; cbn; by rewrite (proj2 (Z.ltb_lt _ _)) by lia).
    assert (Hfr : forall q, q <> t -> q ∈ p :: free_ids T -> <[t:=b2]> (<[t:=b1]> pages) !! q = m_pages (pg_mem s0) !! q).
    { intros q Hq Hin. rewrite !lookup_insert_ne by done. apply Hpages. pose proof (fo_range _ _ Hf0) as Hr. rewrite Forall_forall in Hr.
      apply elem_of_cons in Hin as [->|Hin]; [lia|]. specialize (Hr q Hin). lia. }
    rewrite HT, free_ids_cons in Hfr.
    apply free_ok_push; try done; rewrite Hpush; cbn [first chain_ok]; [by rewrite HT in Hfst|]. cbn. split_and!.
    + exists b2. rewrite lookup_insert_eq. split_and!; try done; [congruence|]. rewrite len_app. change (len [p]) with 1. lia.
    + apply Forall_app. split; [|apply Forall_singleton; destruct Hpp as (bp & Hbp & Hlp); exists bp; rewrite Hfr by set_solver; done].
      rewrite Forall_forall in *. intros q Hq. destruct (Hls q Hq) as (bq & Hbq & Hlq). exists bq. rewrite Hfr by set_solver. done.
    + eapply chain_ok_frame; [|done]. intros q Hq. apply Hfr; set_solver.
Qed.

(** * The states of the loop *)

Lemma new_stage fuel s : free_stage s (NewTrunk p) -> wp (free_page_loop (S fuel) page p) s (free_out s) no_err.
Proof. intros Hs. cbn [free_page_loop]. wstep. wstep. pose proof Hs as (_ & _ & ->). by apply new_trunk_wp. Qed.
Lemma set_free_stage s s1 f f' :
  free_stage s f -> f <> FreeStart -> f' <> FreeStart -> free_pages f' = free_pages f -> free_fits (capacity s0) p T f' -> s1 = on_machines (set_free f') s -> free_stage s1 f'.
Proof.
  intros ([Hh Ho Hoth Hpw _ Hg] & Hhs & Hst) Hf Hf' Hpg Hfit ->. apply (partway_machines s0 (set_free f')) in Hpw. destruct s as [h m st e sz mx v]. cbn in *. subst f.
  split_and!; try done. split; cbn in *; rewrite ?Hpg; try done.
  - rewrite Hh. by destruct (free_page_state st), f'.
  - rewrite Ho. by destruct (free_page_state st), f'.
Qed.
Lemma capacity_computed s :
  partway None s0 [p] s ->
  usable_space (pg_header s) = Ok (page_sz s0 - reserved_space (pg_header s0)) /\
  usub (E:=LimboError) ((page_sz s0 - reserved_space (pg_header s0)) / FREELIST_LEAF_PTR_SIZE) RESERVED_SLOTS = Ok (capacity s0) /\ wrap 32 (capacity s0) = capacity s0.
Proof.
  intros []. pose proof (page_sz_bounds s0 Hb0). pose proof (bo_reserved s0 Hb0). destruct (capacity_bounds s0 Hb0) as [Hc _]. unfold usable_space, usub.
  fold (page_sz s). rewrite pw_sz, pw_reserved. split_and!; [by rewrite (proj2 (Z.leb_le _ _)) by lia| |apply wrap_small; unfold is_u; lia].
  unfold capacity in *. unfold FREELIST_LEAF_PTR_SIZE, RESERVED_SLOTS. by rewrite (proj2 (Z.leb_le _ _)) by lia.
Qed.
Lemma add_stage fuel s : free_stage s (AddToTrunk p) -> wp (free_page_loop (S (S fuel)) page p) s (free_out s) no_err.
Proof.
  intros Hs. pose proof Hs as (Hinv & Hhs & Hst). pose proof Hinv as [Hh Ho _ Hpw Hfit _]. rewrite Hst in Hh, Ho, Hpw, Hfit. destruct Hfit as [_ Hne].
  assert (HT : exists t ls T', T = (t, ls) :: T') by (destruct T as [|[t ls] T']; eauto; done). destruct HT as (t & ls & T' & HT).
  destruct (chain_head s0 T Hb0 Hf0 _ _ _ HT) as (b & Hb & _ & Htb & _ & Htr & _). destruct (trunk_read _ _ _ Htb) as (_ & Hr2 & _).
  assert (Hfst : freelist_trunk_page (pg_header s) = t) by (rewrite Hh; cbn; by rewrite (fo_first _ _ Hf0), HT).
  change (free_page_loop (S (S fuel)) page p) with (s ← sget; match free_page_state (pg_machines s) with FreeStart => free_start page p (free_page_loop (S fuel) page p)
    | AddToTrunk q => add_to_trunk q p (free_page_loop (S fuel) page p) | NewTrunk q => new_trunk q p end).
  wstep. wstep. rewrite Hst. unfold add_to_trunk. wstep. wstep. cbv zeta. rewrite Hfst. unfold if_done. wstep.
  assert (Hsz : size_of s = size_of s0) by apply Hpw. apply read_page_wp; [apply Hpw|lia|rewrite (pw_pages _ _ _ _ Hpw) by lia; by eexists|..].
  2: { intros s1 Hr Hw. apply wp_ret. assert (Hm1 : pg_machines s1 = pg_machines s) by apply Hr. split; [done|]. split; [by eapply finv_reads|by rewrite Hm1]. }
  intros s1 c Hr Hc Hl. wstep. wstep. assert (Hm1 : pg_machines s1 = pg_machines s) by apply Hr. assert (Hi1 := finv_reads _ _ _ Hinv Hr).
  assert (Hs1 : free_stage s1 (AddToTrunk p)) by (split_and!; by rewrite ?Hm1). assert (Hpw1 := partway_reads s0 Hb0 _ _ _ _ Hpw Hr).
  unfold succeeded, is_loaded. destruct (c && negb (bool_decide (t ∉ m_loading (pg_mem s1)))) eqn:Hwait.
  - apply andb_true_iff in Hwait as [-> _]. apply wp_ret. split; [|split; [by apply finv_weaken|by rewrite Hm1]]. split; [apply Hr|].
    right. exists t. split_and!; [lia..| |done]. by intros [? _].
  - assert (Hld : loaded s1 t) by (destruct c; [by apply negb_false_iff, bool_decide_eq_true in Hwait|done]).
    rewrite <- (pw_pages _ _ _ _ Hpw1) in Hb by lia. destruct (capacity_computed s1 Hpw1) as (Hu1 & Hu2 & Hu3).
    wstep. eapply get_contents_wp; [done..|]. wstep. eapply wp_lift; [exact Hr2|]. wstep. eapply wp_lift; [exact Hu1|]. wstep. eapply wp_lift; [exact Hu2|].
    rewrite Hu3. eapply free_out_onward; [apply Hr|]. destruct (Z.ltb_spec (len ls) (capacity s0)); [by eapply add_leaf_wp|].
    unfold set_free_page_state. wstep. wstep. eapply free_out_onward; [apply onward_machines|]. apply new_stage. eapply set_free_stage; [exact Hs1|done..| |done].
    split; [done|]. rewrite HT. cbn. by rewrite (proj2 (Z.ltb_ge _ _)) by lia.
Qed.
(** The page is there: it is counted, pinned and has its state. *)
Definition started (f : FreePageState) (s : Pager) : Pager :=
  on_machines (set_free f) (on_mem (fun m => set_pins p (pin_count p m + 1) m)
    (on_header (set_freelist_pages (freelist_pages (pg_header s0) + 1)) (on_mem (clear_overflow_cells p) s))).
Lemma started_inv w s s1 f :
  free_stage s FreeStart -> reads s s1 -> nearly w s1 p -> f <> FreeStart -> free_fits (capacity s0) p T f -> free_pages f = [p] ->
  free_inv w s0 T page p (started f s1) /\ header_ref_state (pg_machines (started f s1)) = HeaderStart /\
  free_page_state (pg_machines (started f s1)) = f /\ onward s (started f s1) /\ cached (started f s1) p /\
  (loaded (started f s1) p <-> loaded s1 p).
Proof.
  intros (Hinv & Hhs & Hst) Hr Hn Hf Hfit Hpg. assert (Hi1 := finv_reads _ _ _ Hinv Hr). assert (Hm1 : pg_machines s1 = pg_machines s) by apply Hr.
  destruct Hi1 as [Hh Ho Hoth Hpw _ Hg]. rewrite Hm1, Hst in Hh, Ho, Hpw. cbn [free_pages] in Hpw.
  set (s2 := on_header (set_freelist_pages (freelist_pages (pg_header s0) + 1)) (on_mem (clear_overflow_cells p) s1)).
  assert (Hpw2 : partway None s0 [] s2).
  { unfold s2. destruct s1 as [h1 [] st1 e1 sz1 mx1 v1]. destruct Hpw. split; try done. by destruct pw_mem. }
  assert (Hpw3 := partway_pin s0 Hb0 w _ s2 p Hpw2 (not_elem_of_nil p)). apply (partway_machines s0 (set_free f)) in Hpw3; [|by destruct s1].
  unfold started, s2 in *. destruct Hr as (_ & _ & Hon & _). destruct s1 as [h1 [] st1 e1 sz1 mx1 v1]. cbn in Hh, Hm1. subst h1 st1. split_and!; try done.
  - cbn in Ho. split; cbn; rewrite ?Hpg, <- ?Ho; try done; by destruct f.
  - apply Hn.
Qed.
Lemma start_fits : free_fits (capacity s0) p T (if negb (freelist_trunk_page (pg_header s0) =? 0) then AddToTrunk p else NewTrunk p).
Proof.
  rewrite (fo_first _ _ Hf0). assert (Hr := fo_range _ _ Hf0). destruct T as [|[t ls] T']; [done|]. rewrite free_ids_cons in Hr. inversion Hr; subst.
  cbn [first]. rewrite (proj2 (Z.eqb_neq _ _)) by lia. by split.
Qed.
(** The page, which the caller has or which is read. *)
Lemma given_or_read s :
  free_stage s FreeStart ->
  wp (match page with Some page => _ ← sassert (page =? p); done_ (page, false) | None => read_page p end) s
    (fun x s1 => match x with
                 | Done (q, c) => q = p /\ reads s s1 /\ cached s1 p /\ (if c : bool then ~ cached s p else loaded s1 p)
                 | IO w => w = None /\ reads s s1 /\ waits s s1
                 end) no_err.
Proof.
  intros (Hinv & _ & Hst). pose proof Hinv as [_ _ _ Hpw _ Hg]. rewrite Hst in Hpw. assert (Hsz : size_of s = size_of s0) by apply Hpw.
  destruct Hpp as (b & Hb & _). destruct Hpage as [Hn|[Hn _]]; rewrite Hn.
  - apply read_page_wp; [apply Hpw|lia|rewrite (pw_pages _ _ _ _ Hpw) by lia; by eexists|done..].
  - wstep. wstep; [by apply Z.eqb_refl|]. apply wp_ret. destruct (Hg Hn). split_and!; try done. apply reads_refl, Hpw.
Qed.
Lemma fstart_stage fuel s : free_stage s FreeStart -> wp (free_page_loop (S (S (S fuel))) page p) s (free_out s) no_err.
Proof.
  intros Hs. pose proof Hs as (Hinv & Hhs & Hst). pose proof Hinv as [Hh Ho _ Hpw _ Hg]. rewrite Hst in Hh, Ho, Hpw. pose proof (bo_size s0 Hb0).
  assert (Hsz : size_of s = size_of s0) by apply Hpw. assert (Hfit := start_fits).
  change (free_page_loop (S (S (S fuel))) page p) with (s ← sget; match free_page_state (pg_machines s) with FreeStart => free_start page p (free_page_loop (S (S fuel)) page p)
    | AddToTrunk q => add_to_trunk q p (free_page_loop (S (S fuel)) page p) | NewTrunk q => new_trunk q p end).
  wstep. wstep. rewrite Hst. unfold free_start. wstep. wstep. wstep. fold (size_of s). eapply wp_lift.
  { rewrite (proj2 (Z.ltb_ge p 2)), (proj2 (Z.ltb_ge (size_of s) p)) by lia. done. }
  unfold if_done. wstep. set (f := if negb (freelist_trunk_page (pg_header s) =? 0) then AddToTrunk p else NewTrunk p).
  rewrite <- Hh in Hfit. fold f in Hfit. assert (Hf : f <> FreeStart /\ free_pages f = [p]) by (unfold f; by destruct (negb _)). destruct Hf as [Hf Hfp].
  assert (Hrest : forall s1 (c : bool), reads s s1 -> cached s1 p -> (if c then ~ cached s p else loaded s1 p) ->
    wp (_ ← smodify (on_mem (clear_overflow_cells p)); _ ← modify_header (fun h => n ← uadd 32 (freelist_pages h) 1; Ok (set_freelist_pages n h)); _ ← pin p;
      _ ← set_free_page_state f; s ← sget; if c && negb (succeeded p s) then mret (IO (Some p)) else free_page_loop (S (S fuel)) page p) s1 (free_out s) no_err).
  { intros s1 c Hr Hc Hl. assert (Hh1 : pg_header s1 = pg_header s0) by (etrans; [apply Hr|done]). unfold pin, set_free_page_state. wstep. wstep. wstep.
    apply (modify_header_wp _ (set_freelist_pages (freelist_pages (pg_header s0) + 1) (pg_header s1))).
    { replace (pg_header (on_mem (clear_overflow_cells p) s1)) with (pg_header s1) by by destruct s1. rewrite Hh1. unfold uadd.
      destruct (free_count s0 T Hf0) as [Hfc|[? _]]; [|lia]. rewrite (fo_count _ _ Hf0), (proj2 (Z.ltb_lt _ _)) by lia. done. }
    wstep. wstep. wstep. wstep. wstep. wstep.
    replace (on_machines _ _) with (started f s1) by (unfold started; by destruct s1). unfold succeeded.
    destruct (c && negb (is_loaded p (pg_mem (started f s1)))) eqn:Hw.
    - apply andb_true_iff in Hw as [-> _]. destruct (started_inv (Some p) s s1 f) as (Hi2 & Hh2 & _ & Hon & Hc2 & _); try done; [by split; [|right]|].
      apply wp_ret. split; [|done]. split; [done|]. right. exists p. split_and!; [lia..| |done]. by intros [? _].
    - assert (Hl1 : loaded s1 p). { destruct c; [|done]. apply negb_false_iff, bool_decide_eq_true in Hw. by destruct s1 as [? [] ? ? ? ? ?]. }
      destruct (started_inv None s s1 f) as (Hi2 & Hh2 & Hst2 & Hon & _); try done; [by split; [|left]|]. eapply free_out_onward; [done|]. clearbody f.
      destruct f as [|q|q]; [done|..]; destruct Hfit as [-> _]; [by apply add_stage|by apply new_stage]. }
  eapply wp_conseq; [by apply given_or_read| |done]. intros [[q c]|w] s1 Hx.
  - destruct Hx as (-> & Hr & Hc & Hl). by apply Hrest.
  - destruct Hx as (-> & Hr & Hw). apply wp_ret. assert (Hm1 : pg_machines s1 = pg_machines s) by apply Hr.
    split; [done|]. split; [by eapply finv_reads|by rewrite Hm1].
Qed.

(** * The whole call *)

Lemma finv_bare w s : free_inv w s0 T page p s -> free_inv w s0 T page p (bare s).
Proof. intros [Hh Ho Hoth Hpw Hfit Hg]. apply (partway_machines s0 (set_header_ref HeaderStart)) in Hpw. destruct s. by split. Qed.
Lemma finv_unbare w s : free_inv w s0 T page p (bare s) -> free_inv w s0 T page p s.
Proof.
  intros [Hh Ho Hoth Hpw Hfit Hg]. destruct s as [h m st e sz mx v]. split; try done. cbn in Hpw.
  apply (partway_machines s0 (fun _ => st)) in Hpw. exact Hpw.
Qed.
Lemma finv_turn w s : free_inv w s0 T page p s -> free_inv None s0 T page p (env_turn w s).
Proof.
  intros [Hh Ho Hoth Hpw Hfit Hg]. destruct (env_turn_facts w s) as (Hh1 & _ & _ & Ho1 & _ & Hm1 & _ & _ & _ & _ & _ & _ & Hld & Hk & _).
  split; rewrite ?Hm1, ?Hh1, ?Ho1; try done; [by apply partway_turn|]. intros Hpg. destruct (Hg Hpg) as [Hc Hl]. destruct Hpage as [?|[_ Hpin]]; [congruence|]. split.
  - apply Hk; [done|]. right. left. rewrite (pw_pins _ _ _ _ Hpw). case_decide; lia.
  - unfold loaded in *. set_solver.
Qed.
Lemma finv_header_turn w s : free_inv w s0 T page p s -> header_ref_state (pg_machines s) = HeaderStart -> header_ok (env_turn w s).
Proof.
  intros [_ _ _ Hpw _ _] Hhs. pose proof (bo_size s0 Hb0). apply header_ok_turn; [|rewrite (pw_size _ _ _ _ Hpw); lia|by rewrite Hhs].
  rewrite (pw_pages _ _ _ _ Hpw) by (unfold HEADER_PAGE_ID; lia). apply Hb0.
Qed.
Lemma free_page_wp s :
  free_inv None s0 T page p s /\ header_ok s ->
  wp (free_page page p) s (fun x s' => match x with Done _ => free_post s0 T p s'
    | IO w => waits s s' /\ free_inv None s0 T page p (env_turn w s') /\ header_ok (env_turn w s') end) no_err.
Proof.
  intros [Hinv Hho]. unfold free_page, if_done. wstep. apply header_ref_mut_wp; [apply Hinv|done|..].
  - intros s1 Hr1. apply finv_bare in Hinv. assert (Hi1 := finv_reads _ _ _ Hinv Hr1).
    assert (Hhs : header_ref_state (pg_machines s1) = HeaderStart) by (destruct Hr1 as [(_ & _ & _ & _ & -> & _) _]; by destruct s).
    assert (Hloop : wp (free_page_loop 4 page p) s1 (free_out s1) no_err).
    { pose proof (fi_fits _ _ _ _ _ _ Hi1) as Hfit. destruct (free_page_state (pg_machines s1)) as [|q|q] eqn:Hst.
      - by apply fstart_stage.
      - destruct Hfit as [-> _]. by apply (add_stage 2).
      - destruct Hfit as [-> _]. by apply (new_stage 3). }
    eapply wp_conseq; [exact Hloop| |done]. intros [[]|w] s2 Hx; [done|]. destruct Hx as (Hw & Hi2 & Hhs2).
    split; [|split; [by apply finv_turn|by eapply finv_header_turn]]. eapply onward_waits; [|done].
    apply onward_trans with (bare s); [apply onward_machines|apply Hr1].
  - intros s1 w Hr1 Hw1 Hh1. apply wp_ret. split; [done|]. split; [|done]. apply finv_turn, finv_unbare.
    apply (finv_reads _ (bare s)); [|done]. by apply finv_weaken, finv_bare.
Qed.
Lemma block_free_page :
  mem_ok s0 -> header_ok s0 -> free_page_state (pg_machines s0) = FreeStart -> (page = Some p -> ready s0 p) ->
  wp (block (free_page page p)) s0 (fun _ s' => free_post s0 T p s') no_err.
Proof.
  intros Hm Hh Hst Hg. apply (block_wp _ (fun s => free_inv None s0 T page p s /\ header_ok s)); [apply free_page_wp|]. split; [|done].
  split; rewrite ?Hst; try done. by apply partway_refl.
Qed.
End free.
