(* ===== verification/PageAllocPtrmap.v ===== *)
(** The pointer map of PageAlloc: every page of the file but the pointer-map pages has a slot of
    its own, and [ptrmap_get] reads what [ptrmap_put] stored, over all their waits. *)

From stdpp Require Import base list gmap numbers fin_sets.
From Stdlib Require Import ZArith Lia.
From S2P Require Import Prelude CellPayload DbHeader PageAlloc PageAllocIO PageAllocList PageAllocOps PageAllocTake.

(** * Slots *)

Definition group (sz : Z) : Z := sz / 5 + 1.
(** A page with a slot, far enough from the largest page number. *)
Definition mapped (sz p : Z) : Prop := 3 <= p /\ p + 65536 < 2 ^ 32 /\ (p - 2) mod group sz <> 0.
Definition map_page (sz p : Z) : Z := (p - 2) / group sz * group sz + 2.
Definition map_offset (sz p : Z) : Z := (p - map_page sz p - 1) * 5.

Lemma group_bounds sz : 512 <= sz <= 65536 -> 103 <= group sz <= 13108 /\ 5 * (group sz - 1) <= sz.
Proof. intros. unfold group. pose proof (Z.div_mod sz 5). pose proof (Z.mod_pos_bound sz 5). lia. Qed.
Lemma is_ptrmap_page_eq p sz : 512 <= sz <= 65536 -> 2 <= p < 2 ^ 32 -> is_ptrmap_page p sz = Ok ((p - 2) mod group sz =? 0).
Proof.
  intros Hsz Hp. pose proof (group_bounds sz Hsz). unfold is_ptrmap_page, FIRST_PTRMAP_PAGE_NO. rewrite (proj2 (Z.eqb_neq p 1)) by lia.
  destruct (Z.eqb_spec p 2) as [->|Hne]; [by rewrite Z.mod_0_l by lia|]. rewrite ptrmap_page_no_eq by lia. rstep. fold (group sz). rewrite (Z.mul_comm (_ / _)).
  f_equal. pose proof (Z.div_mod (p - 2) (group sz) ltac:(lia)). destruct (Z.eqb_spec (group sz * ((p - 2) / group sz) + 2) p), (Z.eqb_spec ((p - 2) mod group sz) 0); lia.
Qed.
Lemma map_page_facts sz p :
  512 <= sz <= 65536 -> mapped sz p ->
  2 <= map_page sz p /\ map_page sz p < p <= map_page sz p + (group sz - 1) /\ 0 <= map_offset sz p /\ map_offset sz p + 5 <= sz.
Proof.
  intros Hsz (Hp & _ & Hm). pose proof (group_bounds sz Hsz). unfold map_offset, map_page. pose proof (Z.div_mod (p - 2) (group sz) ltac:(lia)).
  pose proof (Z.mod_pos_bound (p - 2) (group sz) ltac:(lia)). assert (0 <= (p - 2) / group sz) by (apply Z.div_pos; lia). nia.
Qed.
Lemma slot_eq sz p :
  512 <= sz <= 65536 -> mapped sz p ->
  is_ptrmap_page p sz = Ok false /\ get_ptrmap_page_no_for_db_page p sz = Ok (map_page sz p) /\
  get_ptrmap_offset_in_page p (map_page sz p) sz = Ok (map_offset sz p).
Proof.
  intros Hsz Hp. pose proof (map_page_facts sz p Hsz Hp) as (Hn & Hr & Ho & _). destruct Hp as (Hp & Hp32 & Hm). pose proof (group_bounds sz Hsz).
  assert (Hnot : is_ptrmap_page p sz = Ok false) by (rewrite is_ptrmap_page_eq by lia; f_equal; by apply Z.eqb_neq).
  split; [done|]. split; [by rewrite ptrmap_page_no_eq by lia|].
  unfold get_ptrmap_offset_in_page, entries_per_ptrmap_page, PageSize_MIN, PTRMAP_ENTRY_SIZE, rassert, uadd, usub. rewrite Hnot.
  rewrite (proj2 (Z.leb_le 512 sz)) by lia. rstep. replace (sz / 5) with (group sz - 1) by (unfold group; lia). rewrite wrap_small by (unfold is_u; lia).
  rewrite (proj2 (Z.ltb_lt (_ + 1) _)) by lia. rstep. rewrite (proj2 (Z.ltb_lt (_ + (_ - 1)) _)) by lia. rstep.
  rewrite (proj2 (Z.ltb_ge p _)), (proj2 (Z.ltb_ge _ p)) by lia. cbn [orb negb ensure]. rstep. rewrite (proj2 (Z.leb_le _ p)) by lia. rstep. f_equal. unfold map_offset. lia.
Qed.
(** Two pages with slots on one pointer-map page have slots that do not overlap. *)
Lemma slots_disjoint sz p q : map_page sz p = map_page sz q -> p <> q -> map_offset sz p + 5 <= map_offset sz q \/ map_offset sz q + 5 <= map_offset sz p.
Proof. unfold map_offset. intros ->. lia. Qed.

(** * Entries *)

Definition entry_bytes (e : PtrmapEntry) : list Z := PtrmapType_as_u8 (entry_type e) :: be_bytes 4 (parent_page_no e).
Lemma serialize_eq e buffer : len buffer = 5 -> PtrmapEntry_serialize e buffer = Ok (entry_bytes e).
Proof. intros Hl. unfold len in Hl. do 5 (destruct buffer as [|? buffer]; [cbn in Hl; lia|]). destruct buffer; [done|cbn in Hl; lia]. Qed.
Lemma deserialize_entry e : is_u 32 (parent_page_no e) -> PtrmapEntry_deserialize (entry_bytes e) = Some e.
Proof.
  intros Hu. destruct e as [t parent]. unfold PtrmapEntry_deserialize, entry_bytes. cbn [entry_type parent_page_no] in *.
  replace (slice_ (PtrmapType_as_u8 t :: be_bytes 4 parent) 1 5) with (be_bytes 4 parent) by done.
  rewrite be_val_be_bytes_small by done. by destruct t.
Qed.

(** * Calls *)

Definition quiet (s : Pager) : Prop := base_ok s /\ mem_ok s /\ pg_machines s = machines_start.
Definition has_slot (s : Pager) (p : Z) : Prop :=
  mapped (page_sz s) p /\ map_page (page_sz s) p <= size_of s /\ has_page (page_sz s) (m_pages (pg_mem s)) (map_page (page_sz s) p).
Definition slot_bytes (sz p : Z) (b : list Z) : list Z := slice_ b (map_offset sz p) (map_offset sz p + 5).
Definition entry_at (s : Pager) (p : Z) : option PtrmapEntry :=
  b ← m_pages (pg_mem s) !! map_page (page_sz s) p; PtrmapEntry_deserialize (slot_bytes (page_sz s) p b).

(** The beginning of [ptrmap_get] and [ptrmap_put]: [f] is the state that is set, [skip] what is
    done for a page without a slot, and [k] what is done with the slot. *)
Definition find_slot {A} (f : PtrMapState -> Machines -> Machines) (p : Z) (skip : PG A) (k : Z -> Z -> PG A) : PG A :=
  with_page_size (fun page_size =>
    b ← (if p <? FIRST_PTRMAP_PAGE_NO then mret true else slift (is_ptrmap_page p page_size));
    if b : bool then skip
    else
      n ← slift (get_ptrmap_page_no_for_db_page p page_size);
      offset ← slift (get_ptrmap_offset_in_page p n page_size);
      let? x := read_page n in
      let '(page, c) := x in
      _ ← smodify (on_machines (f (Deserialize page offset)));
      if c : bool then mret (IO (Some page)) else k page offset).

Section ptrmap.
Context (s0 : Pager) (p : Z) (f : PtrMapState -> Machines -> Machines).
Context (Hb0 : base_ok s0) (Hs0 : has_slot s0 p) (Hf : f = set_ptrmap_get \/ f = set_ptrmap_put).
Local Notation n := (map_page (page_sz s0) p).
Local Notation off := (map_offset (page_sz s0) p).

Definition searching (s : Pager) : Prop := set_header_ref HeaderStart (pg_machines s) = machines_start.
Definition at_slot (w : option Z) (s : Pager) : Prop := pg_machines s = f (Deserialize n off) machines_start /\ nearly w s n.
(** The pager while the call waits for [w]. *)
Record ptr_inv (w : option Z) (s : Pager) : Prop := {
  pi_partway : partway w s0 [] s;
  pi_state : searching s \/ at_slot w s
}.
Lemma slot_held w s : at_slot w s -> kept s n.
Proof. intros [Hm _]. right. right. rewrite Hm. destruct Hf as [->| ->]; cbn; by left. Qed.
Lemma ptr_inv_reads w s s' : ptr_inv w s -> reads s s' -> ptr_inv w s'.
Proof.
  intros [Hpw Hst] Hr. split; [by eapply partway_reads|]. assert (Hm : pg_machines s' = pg_machines s) by apply Hr. unfold searching, at_slot. rewrite Hm.
  destruct Hst as [Hst|Hst]; [by left|right]. split; [apply Hst|]. assert (Hk := slot_held w s Hst). destruct Hst as [_ [Hc Hl]], Hr as (_ & Hks & _).
  destruct (Hks _ Hc Hk) as [Hc' Hl']. split; [done|]. naive_solver.
Qed.
Lemma ptr_inv_turn w s : ptr_inv w s -> ptr_inv None (env_turn w s).
Proof.
  intros [Hpw Hst]. split; [by apply partway_turn|]. destruct (env_turn_facts w s) as (_ & _ & _ & _ & _ & Hm & _ & _ & _ & _ & _ & _ & Hld & Hks & Hw & _).
  unfold searching, at_slot. rewrite Hm. destruct Hst as [Hst|Hst]; [by left|right]. split; [apply Hst|]. assert (Hk := slot_held w s Hst).
  destruct Hst as [_ [Hc Hl]]. apply nearly_ready. split; [by apply Hks|]. destruct Hl as [Hl|Hl]; [|by apply Hw]. unfold loaded in *. set_solver.
Qed.
Lemma ptr_inv_header w s : ptr_inv w s -> header_ref_state (pg_machines s) = HeaderStart -> header_ok (env_turn w s).
Proof.
  intros [Hpw _] Hhs. pose proof (bo_size s0 Hb0). apply header_ok_turn; [|rewrite (pw_size _ _ _ _ Hpw); lia|by rewrite Hhs].
  rewrite (pw_pages _ _ _ _ Hpw) by (unfold HEADER_PAGE_ID; lia). apply Hb0.
Qed.
Lemma ptr_inv_machines w s (g : Machines -> Machines) :
  partway w s0 [] s -> (searching (on_machines g s) \/ at_slot w (on_machines g s)) -> ptr_inv w (on_machines g s).
Proof. intros Hpw Hst. split; [by apply partway_machines|done]. Qed.
(** The slot is found, or the call waits. *)
Lemma find_slot_wp {A} (skip : PG A) (k : Z -> Z -> PG A) s (Q : ioresult A -> Pager -> Prop) E :
  ptr_inv None s -> searching s -> header_ok s ->
  (forall s', onward s s' -> ptr_inv None s' -> at_slot None s' -> wp (k n off) s' Q E) ->
  (forall s' w, waits s s' -> ptr_inv None (env_turn w s') -> header_ok (env_turn w s') -> Q (IO w) s') ->
  wp (find_slot f p skip k) s Q E.
Proof.
  intros Hi Hst Hh Hk Hw. pose proof (page_sz_bounds s0 Hb0) as Hsz. destruct Hs0 as (Hmap & Hn & b & Hb & _).
  destruct (slot_eq _ _ Hsz Hmap) as (He1 & He2 & He3). pose proof (map_page_facts _ _ Hsz Hmap) as (Hn2 & _).
  unfold find_slot, with_page_size, if_done. wstep. apply read_header_page_wp; [apply Hi|done|..].
  2: { intros s1 w Hr1 Hw1 Hh1. wstep. apply Hw; [done| |done]. apply ptr_inv_turn. destruct Hi as [Hpw _]. apply (partway_machines s0 (set_header_ref HeaderStart)) in Hpw.
    assert (Hpw1 := partway_reads s0 Hb0 _ _ _ _ Hpw Hr1). assert (Hm1 : pg_machines (bare s1) = pg_machines (bare s)) by apply Hr1.
    destruct s as [h m st e sz mx v], s1 as [h1 m1 st1 e1 sz1 mx1 v1]. cbn in Hm1. split; [|left; unfold searching in *; cbn in *; congruence].
    apply partway_weaken. apply (partway_machines s0 (fun _ => st1)) in Hpw1. exact Hpw1. }
  intros s1 Hr1 _. assert (Hi1 : ptr_inv None s1).
  { eapply ptr_inv_reads; [|done]. destruct Hi as [Hpw _]. apply ptr_inv_machines; [done|]. left. by destruct s. }
  assert (Hst1 : pg_machines s1 = machines_start) by (destruct Hr1 as [(_ & _ & _ & _ & -> & _) _]; by destruct s). pose proof Hi1 as [Hpw1 _].
  assert (Hon1 : onward s s1) by (apply onward_trans with (bare s); [apply onward_machines|apply Hr1]).
  wstep. wstep. fold (page_sz s1). rewrite (pw_sz _ _ _ _ Hpw1). cbv beta. wstep. destruct Hmap as (Hp3 & Hrest). unfold FIRST_PTRMAP_PAGE_NO.
  rewrite (proj2 (Z.ltb_ge _ _)) by lia. eapply wp_lift; [exact He1|]. cbv iota. wstep. eapply wp_lift; [exact He2|]. wstep. eapply wp_lift; [exact He3|].
  wstep. assert (Hsz1 : size_of s1 = size_of s0) by apply Hpw1. apply read_page_wp; [apply Hpw1|lia|rewrite (pw_pages _ _ _ _ Hpw1) by lia; by eexists|..].
  - intros s2 c Hr2 Hc Hl. wstep. wstep. assert (Hm2 : pg_machines s2 = machines_start) by (destruct Hr2 as [(_ & _ & _ & _ & -> & _) _]; done).
    assert (Hpw2 := partway_reads s0 Hb0 _ _ _ _ Hpw1 Hr2). set (s3 := on_machines _ s2).
    assert (Hon3 : onward s s3) by (eapply onward_trans; [exact Hon1|]; eapply onward_trans; [apply Hr2|apply onward_machines]).
    assert (Hat : forall w, nearly w s2 n -> at_slot w s3) by (intros w Hnw; unfold s3; destruct s2; cbn in Hm2; subst; by split). destruct c.
    + wstep. assert (Hi3 : ptr_inv (Some n) s3) by (apply ptr_inv_machines; [by apply partway_weaken|right; apply Hat; by split; [|right]]).
      apply Hw; [|by apply ptr_inv_turn|apply ptr_inv_header; [done|]; unfold s3; destruct s2; cbn in Hm2; subst; by destruct Hf as [->| ->]].
      apply (onward_waits s s1); [done|]. split; [apply (onward_trans s1 s2); [apply Hr2|apply onward_machines]|].
      right. exists n. split_and!; [lia..| |unfold s3; by destruct s2]. by intros [? _].
    + assert (Hn3 : nearly None s2 n) by (split; [done|by left]). apply Hk; [done| |by apply Hat]. apply ptr_inv_machines; [done|]. right. by apply Hat.
  - intros s2 Hr2 Hw2. wstep. assert (Hm2 : pg_machines s2 = machines_start) by (destruct Hr2 as [(_ & _ & _ & _ & -> & _) _]; done).
    assert (Hi2 := ptr_inv_reads _ _ _ Hi1 Hr2). apply Hw; [by eapply onward_waits|by apply ptr_inv_turn|]. apply ptr_inv_header; [done|by rewrite Hm2].
Qed.
End ptrmap.

Section calls.
Context (s0 : Pager) (p : Z).
Context (Hq0 : quiet s0) (Hs0 : has_slot s0 p).
Local Notation n := (map_page (page_sz s0) p).
Local Notation off := (map_offset (page_sz s0) p).

Lemma quiet_base : base_ok s0.
Proof. apply Hq0. Qed.
(** The bytes of the page, on a call that has found the slot. *)
Lemma slot_page f s :
  ptr_inv s0 p f None s -> at_slot s0 p f None s ->
  exists b, m_pages (pg_mem s0) !! n = Some b /\ m_pages (pg_mem s) !! n = Some b /\ len b = page_sz s0 /\ loaded s n /\ 0 <= off /\ off + 5 <= len b /\
    entry_at s0 p = PtrmapEntry_deserialize (slot_bytes (page_sz s0) p b).
Proof.
  intros [Hpw _] [_ [_ [Hl|?]]]; [|done]. destruct Hs0 as (Hmap & Hn & b & Hb & Hlen). pose proof (page_sz_bounds s0 quiet_base) as Hsz.
  destruct (map_page_facts _ _ Hsz Hmap) as (_ & _ & Ho & Ho5). exists b. rewrite (pw_pages _ _ _ _ Hpw) by done. unfold entry_at. rewrite Hb. split_and!; done || lia.
Qed.
Lemma ptr_inv_start f : ptr_inv s0 p f None s0.
Proof. split; [apply partway_refl; apply Hq0|]. left. unfold searching. destruct Hq0 as (_ & _ & ->). done. Qed.

(** What [ptrmap_get] gives. *)
Lemma ptrmap_get_entry_wp s (Q : ioresult (option PtrmapEntry) -> Pager -> Prop) (E : LimboError -> Pager -> Prop) :
  ptr_inv s0 p set_ptrmap_get None s -> at_slot s0 p set_ptrmap_get None s ->
  (forall s' e, entry_at s0 p = Some e -> Q (Done (Some e)) s') -> (forall s', entry_at s0 p = None -> E Corrupt s') -> wp (ptrmap_get_entry n off) s Q E.
Proof.
  intros Hi Ha Hd He. destruct (slot_page _ _ Hi Ha) as (b & _ & Hb & Hlen & Hl & Ho & Ho5 & Hent). unfold ptrmap_get_entry, PTRMAP_ENTRY_SIZE.
  wstep. eapply get_contents_wp; [done..|]. wstep. eapply wp_lift; [by rewrite (proj2 (Z.leb_le _ _)) by lia|].
  wstep. eapply wp_lift; [apply slice_ok; lia|]. wstep. wstep. fold (slot_bytes (page_sz s0) p b). rewrite <- Hent.
  destruct (entry_at s0 p) as [e|]; [by apply wp_ret, Hd|by apply He].
Qed.
Lemma block_ptrmap_get :
  wp (block (ptrmap_get p)) s0 (fun r _ => exists e, entry_at s0 p = Some e /\ r = Some e) (fun e _ => e = Corrupt /\ entry_at s0 p = None).
Proof.
  apply (block_wp _ (fun s => ptr_inv s0 p set_ptrmap_get None s /\ header_ok s)).
  2: { split; [apply ptr_inv_start|]. destruct Hq0 as (Hb & _ & Hm). split; [apply Hb|]. split; [apply Hb|by rewrite Hm]. }
  intros s [Hi Hh]. unfold ptrmap_get. wstep. wstep. pose proof (pi_state _ _ _ _ _ Hi) as [Hst|Hat].
  - assert (Hg : ptrmap_get_state (pg_machines s) = PtrMapStart) by (unfold searching in Hst; by injection Hst). rewrite Hg.
    eapply (find_slot_wp s0 p set_ptrmap_get quiet_base Hs0 (or_introl eq_refl) (done_ None) ptrmap_get_entry); [done..| |done].
    intros s1 _ Hi1 Ha1. apply ptrmap_get_entry_wp; naive_solver.
  - pose proof Hat as [-> _]. apply ptrmap_get_entry_wp; naive_solver.
Qed.

(** What [ptrmap_put] leaves. *)
Record put_post (e : PtrmapEntry) (s : Pager) : Prop := {
  pp_quiet : quiet s;
  pp_size : size_of s = size_of s0;
  pp_sz : page_sz s = page_sz s0;
  pp_page : exists b, m_pages (pg_mem s0) !! n = Some b /\ m_pages (pg_mem s) !! n = Some (splice_ b off (entry_bytes e));
  pp_frame q : q <= size_of s0 -> q <> n -> m_pages (pg_mem s) !! q = m_pages (pg_mem s0) !! q
}.
Lemma partway_base s : partway None s0 [] s -> base_ok s.
Proof.
  intros []. destruct quiet_base. split; try congruence; rewrite ?pw_sz, ?pw_reserved, ?pw_size; try done; try congruence.
  - rewrite pw_pages by (unfold HEADER_PAGE_ID; lia). done.
  - intros q. rewrite pw_pins, decide_False by apply not_elem_of_nil. specialize (bo_pins q). lia.
Qed.
Lemma ptrmap_put_entry_wp e s (Q : ioresult unit -> Pager -> Prop) E :
  ptr_inv s0 p set_ptrmap_put None s -> at_slot s0 p set_ptrmap_put None s -> (forall s', put_post e s' -> Q (Done tt) s') -> wp (ptrmap_put_entry e n off) s Q E.
Proof.
  intros Hi Ha Hd. destruct (slot_page _ _ Hi Ha) as (b & Hb0 & Hb & Hlen & Hl & Ho & Ho5 & _). unfold ptrmap_put_entry, PTRMAP_ENTRY_SIZE.
  assert (Hl5 : len (entry_bytes e) = 5) by done. pose proof Hi as [Hpw _]. pose proof (partway_base s Hpw) as Hbase. pose proof Ha as [Hm _].
  wstep. apply add_dirty_wp; [done|]. wstep. eapply (get_contents_wp n b); [by destruct s as [? [] ? ? ? ? ?]..|]. wstep. eapply wp_lift; [by rewrite (proj2 (Z.leb_le _ _)) by lia|].
  wstep. eapply wp_lift; [apply slice_ok; lia|]. wstep. eapply wp_lift; [apply serialize_eq; rewrite len_slice_ by lia; lia|].
  wstep. eapply wp_lift; [apply write_at_ok; lia|]. wstep. unfold put_contents. wstep. wstep. wstep. apply wp_ret, Hd.
  destruct s as [h [pages cache loading pending pins overflow dirty] st en sz mx v]. cbn in Hb, Hm. subst st. pose proof Hpw as [Hs1 Hs2 _ _ _ _ Hpg _ Hmem _ _ _].
  assert (Hn1 : n <> HEADER_PAGE_ID).
  { destruct Hs0 as (Hmap & _). pose proof (map_page_facts _ _ (page_sz_bounds s0 quiet_base) Hmap) as (Hn2 & _). unfold HEADER_PAGE_ID. lia. }
  split; try done.
  - split; [|split; [by destruct Hmem|done]]. destruct Hbase. split; try done. cbn. by rewrite lookup_insert_ne.
  - exists b. split; [done|]. cbn. by rewrite lookup_insert_eq.
  - intros q Hq Hne. cbn. rewrite lookup_insert_ne by done. by apply Hpg.
Qed.
Lemma block_ptrmap_put e : wp (block (ptrmap_put p e)) s0 (fun _ s' => put_post e s') (fun _ _ => False).
Proof.
  apply (block_wp _ (fun s => ptr_inv s0 p set_ptrmap_put None s /\ header_ok s)).
  2: { split; [apply ptr_inv_start|]. destruct Hq0 as (Hb & _ & Hm). split; [apply Hb|]. split; [apply Hb|by rewrite Hm]. }
  intros s [Hi Hh]. unfold ptrmap_put. wstep. wstep. pose proof (pi_state _ _ _ _ _ Hi) as [Hst|Hat].
  - assert (Hg : ptrmap_put_state (pg_machines s) = PtrMapStart) by (unfold searching in Hst; by injection Hst). rewrite Hg.
    eapply (find_slot_wp s0 p set_ptrmap_put quiet_base Hs0 (or_intror eq_refl) (slift (Err InternalError)) (ptrmap_put_entry e)); [done..| |done].
    intros s1 _ Hi1 Ha1. by apply ptrmap_put_entry_wp.
  - pose proof Hat as [-> _]. by apply ptrmap_put_entry_wp.
Qed.
(** The slots after the call. *)
Lemma put_entry_at e s : is_u 32 (parent_page_no e) -> put_post e s -> entry_at s p = Some e.
Proof.
  intros Hu [_ _ Hsz (b & Hb0 & Hb) _]. unfold entry_at. rewrite Hsz, Hb. cbn. destruct Hs0 as (Hmap & _ & b' & Hb' & Hlen). simplify_eq.
  destruct (map_page_facts _ _ (page_sz_bounds s0 quiet_base) Hmap) as (_ & _ & Ho & Ho5). unfold slot_bytes.
  change 5 with (len (entry_bytes e)) at 1. rewrite slice_splice_same by (change (len (entry_bytes e)) with 5; lia). by apply deserialize_entry.
Qed.
Lemma put_has_slot e s q : put_post e s -> has_slot s0 q -> has_slot s q.
Proof.
  intros [_ Hsz Hpz (b & Hb0 & Hb) Hfr] (Hmap & Hle & b' & Hb' & Hl'). unfold has_slot. rewrite Hsz, Hpz. split; [done|]. split; [done|].
  destruct (decide (map_page (page_sz s0) q = n)) as [He|Hne]; [|exists b'; split; [by rewrite Hfr|done]]. exists (splice_ b off (entry_bytes e)). rewrite He. split; [done|].
  rewrite He in Hb'. simplify_eq. destruct Hs0 as (Hmp & _). destruct (map_page_facts _ _ (page_sz_bounds s0 quiet_base) Hmp) as (_ & _ & Ho & Ho5).
  rewrite len_splice_; [done|lia|change (len (entry_bytes e)) with 5; lia].
Qed.
Lemma put_entry_at_other e s q : put_post e s -> has_slot s0 q -> q <> p -> entry_at s q = entry_at s0 q.
Proof.
  intros [_ Hsz Hpz (b & Hb0 & Hb) Hfr] (Hmap & Hle & b' & Hb' & Hl') Hne. unfold entry_at. rewrite Hpz.
  destruct (decide (map_page (page_sz s0) q = n)) as [He|Hnn]; [|by rewrite Hfr]. rewrite He in *. rewrite Hb, Hb0. simplify_eq. cbn. f_equal. unfold slot_bytes.
  destruct Hs0 as (Hmp & _). pose proof (page_sz_bounds s0 quiet_base) as Hb2. destruct (map_page_facts _ _ Hb2 Hmp) as (_ & _ & Ho & Ho5), (map_page_facts _ _ Hb2 Hmap) as (_ & _ & Hoq & Hoq5).
  pose proof (slots_disjoint _ _ _ He Hne). apply slice_splice_other; change (len (entry_bytes e)) with 5; lia.
Qed.
End calls.
