(* ===== verification/PageAllocSafety.v ===== *)
(** The pages of a database over any sequence of allocations, releases and changes to pages in
    use: a page is never given out twice, none is lost, and no call panics or waits forever. *)

From stdpp Require Import base list gmap numbers fin_sets.
From Stdlib Require Import ZArith Lia.
From S2P Require Import Prelude DbHeader PageAlloc PageAllocIO PageAllocList PageAllocOps PageAllocTake PageAllocFree PageAllocPtrmap.

(** * The pages of the file *)

(** Every page but the first one is in use, free or set aside: a pointer-map page, or the page
    of the pending byte. *)
Record pager_ok (s : Pager) (T : trunks) (used aside : gset Z) : Prop := {
  po_base : base_ok s;
  po_mem : mem_ok s;
  po_machines : pg_machines s = machines_start;
  po_free : free_ok s T;
  po_cover p : 2 <= p <= size_of s <-> p ∈ used \/ p ∈ free_ids T \/ p ∈ aside;
  po_disjoint : used ## aside;
  po_free_only p : p ∈ free_ids T -> p ∉ used /\ p ∉ aside;
  po_used p : p ∈ used -> has_page (page_sz s) (m_pages (pg_mem s)) p
}.
(** What the rest of the database does between calls: it changes the pages in use and page 1,
    reads and pins pages, and the cache and the I/O layer do as they like. *)
Record client (used : gset Z) (s s' : Pager) : Prop := {
  cl_header : page_size (pg_header s') = page_size (pg_header s) /\ reserved_space (pg_header s') = reserved_space (pg_header s);
  cl_sizes : database_size (pg_header s') = database_size (pg_header s) /\ freelist_trunk_page (pg_header s') = freelist_trunk_page (pg_header s) /\
    freelist_pages (pg_header s') = freelist_pages (pg_header s);
  cl_page_size : pg_page_size s' = pg_page_size s;
  cl_pages p : p ∉ used -> 2 <= p <= size_of s -> m_pages (pg_mem s') !! p = m_pages (pg_mem s) !! p;
  cl_used p : p ∈ used -> has_page (page_sz s) (m_pages (pg_mem s')) p;
  cl_first : is_Some (m_pages (pg_mem s') !! HEADER_PAGE_ID);
  cl_overflow p : p ∈ m_overflow (pg_mem s') -> p ∈ m_overflow (pg_mem s) \/ p ∈ used \/ p = HEADER_PAGE_ID;
  cl_pins p : 0 <= pin_count p (pg_mem s');
  cl_mem : mem_ok s';
  cl_machines : pg_machines s' = machines_start;
  cl_buffers : Forall (fun x => len x.1 = page_sz s) (e_buffers (pg_env s'))
}.
(** The pages between the end of the file and a page behind it. *)
Definition skipped (s : Pager) (p : Z) : gset Z := list_to_set (seqZ (size_of s + 1) (p - size_of s - 1)).
(** A page to be released: its caller has it, loaded and pinned, or it is read. *)
Definition given (s : Pager) (page : option Z) (p : Z) : Prop :=
  match page with None => True | Some q => q = p /\ ready s p /\ 0 < pin_count p (pg_mem s) end.

Inductive pager_reach : Pager -> gset Z -> gset Z -> Prop :=
| reach_open s T used aside : pager_ok s T used aside -> pager_reach s used aside
| reach_allocate s used aside p s' :
    pager_reach s used aside -> block allocate_page s = (Ok p, s') -> size_of s' + 3 < 2 ^ 32 ->
    pager_reach s' ({[p]} ∪ used) (aside ∪ skipped s p)
| reach_free s used aside page p s' :
    pager_reach s used aside -> p ∈ used -> given s page p -> block (free_page page p) s = (Ok tt, s') ->
    pager_reach s' (used ∖ {[p]}) aside
| reach_client s used aside s' : pager_reach s used aside -> client used s s' -> pager_reach s' used aside.

(** * Steps keep the partition *)

Lemma machines_header_ok s : base_ok s -> pg_machines s = machines_start -> header_ok s.
Proof. intros Hb Hm. split; [apply Hb|]. split; [apply Hb|]. by rewrite Hm. Qed.
Lemma pop_ids T : match pop T with None => T = [] | Some (p, T') => free_ids T ≡ₚ p :: free_ids T' end.
Proof. destruct T as [|[t [|l ls]] T]; cbn [pop]; [done|done|]. rewrite !free_ids_cons. cbn. apply Permutation_swap. Qed.
Lemma fresh_bounds s : base_ok s -> size_of s < fresh_page s <= size_of s + 3.
Proof. intros. unfold fresh_page, top_page. destruct (ptrmap_next s); case_decide; lia. Qed.
Lemma elem_of_skipped s p q : q ∈ skipped s p <-> size_of s < q < p.
Proof. unfold skipped. rewrite elem_of_list_to_set, elem_of_seqZ. lia. Qed.

Lemma allocate_ok s T used aside p s' :
  pager_ok s T used aside -> alloc_post s T s' p -> size_of s' + 3 < 2 ^ 32 ->
  p ∉ used /\ p ∉ aside /\ exists T', pager_ok s' T' ({[p]} ∪ used) (aside ∪ skipped s p).
Proof.
  intros [Hb Hm Hmach Hf Hcov Hdis Hfo Hus] Hp Hsz. pose proof (bo_size s Hb) as [H1 _]. pose proof (fresh_bounds s Hb) as Hfresh. assert (Hids := pop_ids T).
  assert (Hr := fo_range s T Hf). rewrite Forall_forall in Hr.
  assert (Hbase : base_ok s').
  { pose proof Hp as []. pose proof Hb as []. split; try congruence.
    - by rewrite ap_sz.
    - split; [|lia]. destruct (pop T) as [[q T']|]; [destruct ap_list as (_ & -> & _); done|]. destruct ap_list as (-> & -> & _). lia.
    - rewrite ap_frame; [done|unfold HEADER_PAGE_ID; lia|]. intros Hin%Hr. unfold HEADER_PAGE_ID in Hin. lia. }
  assert (Hused : forall q, q ∈ {[p]} ∪ used -> has_page (page_sz s') (m_pages (pg_mem s')) q).
  { intros q [->%elem_of_singleton|Hq]%elem_of_union; rewrite (ap_sz _ _ _ _ Hp).
    - destruct (ap_page _ _ _ _ Hp) as (b & Hpb & Hl & _). by exists b.
    - destruct (Hus q Hq) as (b & Hpb & Hl). exists b. split; [|done]. rewrite (ap_frame _ _ _ _ Hp); [done| |].
      + assert (2 <= q <= size_of s); [apply Hcov; by left|lia].
      + intros Hin%Hfo. by destruct Hin. }
  assert (Hmach' : pg_machines s' = machines_start) by (rewrite (ap_machines _ _ _ _ Hp), Hmach; done).
  pose proof (ap_list _ _ _ _ Hp) as Hl. pose proof (ap_mem _ _ _ _ Hp) as Hm'. destruct (pop T) as [[q T']|].
  - destruct Hl as (<- & Hsz' & Hf'). assert (Hpf : p ∈ free_ids T) by (rewrite Hids; set_solver). destruct (Hfo p Hpf) as [Hpu Hpa].
    assert (Hsk : skipped s p ≡ ∅) by (intros q; rewrite elem_of_skipped; specialize (Hr p Hpf); set_solver by lia).
    assert (Hnd := fo_nodup _ _ Hf). rewrite Hids in Hnd. apply NoDup_cons in Hnd as [Hnp _].
    assert (Hin : forall q, q ∈ free_ids T <-> q = p \/ q ∈ free_ids T') by (intros q; rewrite Hids; set_solver).
    split; [done|]. split; [done|]. exists T'. split; try done; setoid_rewrite Hin in Hcov; setoid_rewrite Hin in Hfo.
    + intros q. rewrite Hsz', Hcov, !elem_of_union, elem_of_singleton, Hsk. set_solver.
    + set_solver.
    + intros q Hq. split; [|]. all: destruct (Hfo q (or_intror Hq)); set_solver.
  - destruct Hl as (-> & Hsz' & Hf'). subst T. assert (Hout : forall q, q ∈ used \/ q ∈ aside -> q <= size_of s).
    { intros q Hq. assert (2 <= q <= size_of s); [apply Hcov; tauto|lia]. }
    split; [intros Hin; specialize (Hout _ (or_introl Hin)); lia|]. split; [intros Hin; specialize (Hout _ (or_intror Hin)); lia|].
    exists []. split; try done.
    + intros q. rewrite Hsz', !elem_of_union, elem_of_singleton, elem_of_skipped. specialize (Hcov q). change (free_ids []) with (@nil Z) in *. 
      assert (Hn : q ∉ (@nil Z)) by apply not_elem_of_nil. specialize (Hout q). destruct (decide (q <= size_of s)); [|]. all: intuition lia.
    + intros q. rewrite !elem_of_union, elem_of_singleton, elem_of_skipped. specialize (Hout q). specialize (Hdis q). intuition lia.
    + intros q Hq. by apply not_elem_of_nil in Hq.
Qed.
Lemma free_page_ok s T used aside p s' :
  pager_ok s T used aside -> p ∈ used -> free_post s T p s' -> pager_ok s' (push (capacity s) p T) (used ∖ {[p]}) aside.
Proof.
  intros [Hb Hm Hmach Hf Hcov Hdis Hfo Hus] Hpu Hp. pose proof (bo_size s Hb) as [H1 _]. assert (Hr := fo_range s T Hf). rewrite Forall_forall in Hr.
  assert (Hpr : 2 <= p <= size_of s) by (apply Hcov; by left). pose proof (free_ids_push (capacity s) p T) as Hids. pose proof Hp as []. pose proof Hb as [].
  assert (Hin : forall q, q ∈ free_ids (push (capacity s) p T) <-> q = p \/ q ∈ free_ids T) by (intros q; rewrite Hids; apply elem_of_cons).
  assert (Hpage : forall q, 2 <= q <= size_of s \/ q = 1 -> q ∉ free_ids T -> q <> p -> m_pages (pg_mem s') !! q = m_pages (pg_mem s) !! q).
  { intros q Hq Hnf Hne. apply fp_frame; [lia|]. by apply not_elem_of_cons. }
  split; try done.
  - split; try congruence.
    + by rewrite fp_sz.
    + rewrite Hpage; [done|by right| |unfold HEADER_PAGE_ID; lia]. intros Hx%Hr. unfold HEADER_PAGE_ID in Hx. lia.
  - by rewrite fp_machines, Hmach.
  - intros q. rewrite fp_size, Hcov, Hin, elem_of_difference, elem_of_singleton. destruct (decide (q = p)) as [->|Hne]; tauto.
  - clear - Hdis. set_solver.
  - intros q [->|Hq]%Hin; [clear - Hdis Hpu; set_solver|]. specialize (Hfo q Hq). clear - Hfo. set_solver.
  - intros q [Hq Hne]%elem_of_difference. destruct (Hus q Hq) as (b & Hpb & Hl). exists b. rewrite fp_sz. split; [|done].
    rewrite Hpage; [done| | |clear - Hne; set_solver]; [left; apply Hcov; by left|]. intros Hx%Hfo. by destruct Hx.
Qed.
Lemma client_ok s T used aside s' : pager_ok s T used aside -> client used s s' -> pager_ok s' T used aside.
Proof.
  intros [Hb Hm Hmach Hf Hcov Hdis Hfo Hus] [[Hh Hres] (Hs1 & Hs2 & Hs3) Hps Hpg Hu Hfst Hov Hpin Hm' Hmach' Hbuf].
  assert (Hpz : page_sz s' = page_sz s) by (unfold page_sz; by rewrite Hh). assert (Hsz : size_of s' = size_of s) by done.
  assert (Hcap : capacity s' = capacity s) by (unfold capacity; by rewrite Hpz, Hres). assert (Hr := fo_range s T Hf).
  split; try done; rewrite ?Hsz, ?Hpz; try done.
  - destruct Hb. split; unfold size_of in *; try congruence. by rewrite Hpz.
  - destruct Hf as [Hf1 Hf2 Hf3 Hf4 Hf5 Hf6]. split; rewrite ?Hsz, ?Hs2, ?Hs3, ?Hpz, ?Hcap; try done; rewrite Forall_forall in *.
    + eapply chain_ok_frame; [|done]. intros q Hq. destruct (Hfo q Hq) as [Hqu _]. apply Hpg; [done|]. by apply Hr.
    + intros q Hq [Hx|[Hx| ->]]%Hov; [by apply (Hf6 q)|by destruct (Hfo q Hq)|]. specialize (Hr _ Hq). unfold HEADER_PAGE_ID in Hr. lia.
Qed.
Lemma allocate_run s T used aside :
  pager_ok s T used aside -> wp (block allocate_page) s (fun p s' => alloc_post s T s' p) (alloc_err s T).
Proof.
  intros [Hb Hm Hmach Hf _ _ _ _]. apply block_allocate_page; try done; [by apply machines_header_ok|by rewrite Hmach].
Qed.
Lemma free_run s T used aside page p :
  pager_ok s T used aside -> p ∈ used -> given s page p -> wp (block (free_page page p)) s (fun _ s' => free_post s T p s') no_err.
Proof.
  intros [Hb Hm Hmach Hf Hcov _ Hfo Hus] Hp Hg. apply block_free_page; try done.
  - apply Hcov. by left.
  - intros Hin%Hfo. by destruct Hin.
  - by apply Hus.
  - destruct page as [q|]; [|by left]. destruct Hg as (-> & _ & Hpin). by right.
  - by apply machines_header_ok.
  - by rewrite Hmach.
  - intros ->. by destruct Hg as (_ & Hr & _).
Qed.
Lemma reach_ok s used aside : pager_reach s used aside -> exists T, pager_ok s T used aside.
Proof.
  induction 1 as [s T used aside Hok|s used aside p s' _ [T IH] Hrun Hsz|s used aside page p s' _ [T IH] Hp Hg Hrun|s used aside s' _ [T IH] Hc].
  - by exists T.
  - assert (Hpost := wp_run _ _ _ _ _ _ (allocate_run _ _ _ _ IH) Hrun). cbn in Hpost. by apply (allocate_ok _ _ _ _ _ _ IH) in Hpost as (_ & _ & ?).
  - assert (Hpost := wp_run _ _ _ _ _ _ (free_run _ _ _ _ _ _ IH Hp Hg) Hrun). cbn in Hpost. eexists. by eapply free_page_ok.
  - exists T. by eapply client_ok.
Qed.

(** * New pages are ordinary pages *)

(** The page behind the page of the pending byte is not a pointer-map page. *)
Lemma after_pending_page sz : sz ∈ page_sizes -> (PENDING_BYTE / sz + 2 - 2) mod group sz <> 0.
Proof. unfold page_sizes. rewrite !elem_of_cons, elem_of_nil. intros Hsz. destruct_or! Hsz; subst; done. Qed.
Lemma fresh_page_ordinary s :
  base_ok s -> pending_byte_page_id s <> Some (fresh_page s) /\
  (pg_auto_vacuum s = VacuumFull -> is_ptrmap_page (fresh_page s) (page_sz s) = Ok false).
Proof.
  intros Hb. pose proof (page_sz_bounds s Hb) as Hsz. pose proof (bo_size s Hb) as Hn. pose proof (after_pending_page _ (bo_page_sz s Hb)) as Hap.
  pose proof (group_bounds _ Hsz) as [Hg _].
  split; [unfold fresh_page; case_decide as Hd; [rewrite <- Hd; intros ?; simplify_eq; lia|congruence]|]. intros Hv. pose proof (fresh_bounds s Hb).
  assert (Hq : is_ptrmap_page (size_of s + 1) (page_sz s) = Ok ((size_of s + 1 - 2) mod group (page_sz s) =? 0)) by (apply is_ptrmap_page_eq; lia).
  rewrite is_ptrmap_page_eq by lia. f_equal. apply Z.eqb_neq. unfold fresh_page, top_page, ptrmap_next. rewrite Hv, Hq.
  unfold pending_byte_page_id. rewrite (bo_pg_page_size s Hb), (proj2 (Z.eqb_neq (page_sz s) 0)) by lia. set (g := group (page_sz s)) in *.
  destruct (Z.eqb_spec ((size_of s + 1 - 2) mod g) 0) as [Hz|Hz]; case_decide as Hd.
  - replace (size_of s + 1 + 2 - 2) with (2 + (size_of s + 1 - 2)) by lia. rewrite Zplus_mod, Hz, Z.add_0_r, Zmod_mod, Z.mod_small by lia. done.
  - replace (size_of s + 1 + 1 - 2) with (1 + (size_of s + 1 - 2)) by lia. rewrite Zplus_mod, Hz, Z.add_0_r, Zmod_mod, Z.mod_small by lia. done.
  - simplify_eq. replace (size_of s) with (PENDING_BYTE / page_sz s) by lia. done.
  - done.
Qed.

(** Releasing a page that is not in the file is refused and changes nothing of the free list. *)
Lemma free_page_out_of_range s T used aside page p :
  pager_ok s T used aside -> ~ 2 <= p <= size_of s ->
  wp (block (free_page page p)) s (fun _ _ => False) (fun e s' => e = Corrupt /\ free_ok s' T).
Proof.
  intros [Hb Hm Hmach Hf _ _ _ _] Hp.
  apply (block_wp _ (fun s1 => (partway None s [] s1 /\ pg_header s1 = pg_header s /\ m_overflow (pg_mem s1) = m_overflow (pg_mem s) /\ searching s1) /\ header_ok s1)).
  2: { split; [split_and!; try done; [by apply partway_refl|unfold searching; by rewrite Hmach]|by apply machines_header_ok]. }
  intros s1 [(Hpw & Hh & Ho & Hst) Hho]. unfold free_page, if_done. wstep. apply header_ref_mut_wp; [apply Hpw|done|..].
  - intros s2 Hr. assert (Hpw2 : partway None s [] s2) by (eapply partway_reads; [done| |done]; by apply partway_machines).
    pose proof Hr as [(Hh2 & Hp2 & _ & Ho2 & Hm2 & _) _]. assert (Hms : pg_machines s2 = machines_start) by (rewrite Hm2; by destruct s1).
    assert (Hhs : pg_header s2 = pg_header s) by (rewrite Hh2, <- Hh; by destruct s1). cbn [free_page_loop]. wstep. wstep. rewrite Hms. cbn [free_page_state machines_start]. unfold free_start. wstep. wstep. wstep.
    assert (Hbad : (p <? 2) || (database_size (pg_header s2) <? p) = true).
    { rewrite Hhs. fold (size_of s). destruct (Z.ltb_spec p 2), (Z.ltb_spec (size_of s) p); try done. lia. }
    rewrite Hbad. split; [done|]. assert (Hovs : m_overflow (pg_mem s2) = m_overflow (pg_mem s)) by (rewrite Ho2, <- Ho; by destruct s1).
    destruct Hf as [Hf1 Hf2 Hf3 Hf4 Hf5 Hf6]. split; unfold page_sz, capacity, page_sz, size_of in *; rewrite ?Hhs, ?Hovs; try done.
    eapply chain_ok_frame; [|done]. intros q Hq. apply Hpw2. rewrite Forall_forall in Hf4. apply Hf4 in Hq. unfold size_of. lia.
  - intros s2 w Hr Hw Hho2. apply wp_ret. split; [done|]. split; [|done]. pose proof Hr as [(Hh2 & _ & _ & Ho2 & Hm2 & _) _].
    destruct (env_turn_facts w s2) as (Eh & _ & _ & Eo & _ & Em & _). unfold searching in *. rewrite Eh, Eo, Em.
    assert (Hpw2 : partway None s [] (bare s2)) by (eapply partway_reads; [done| |exact Hr]; by apply partway_machines).
    split; [|destruct s1, s2; cbn in *; split_and!; congruence]. apply partway_turn; [done|]. apply partway_weaken. apply (partway_machines s (fun _ => pg_machines s2)) in Hpw2.
    by destruct s2.
Qed.

(** * Examples *)

Definition zeros : list Z := replicate 4096 0.
(** Page 2 is in use, page 3 is a trunk page of the free list with the leaf 4. *)
Definition demo : Pager :=
  MkPager (with_sizes 4 3 2 DatabaseHeader_default)
    (MkMemory (list_to_map [(1, zeros); (2, replicate 4096 7); (3, be_bytes 4 0 ++ be_bytes 4 1 ++ be_bytes 4 4 ++ replicate 4084 0); (4, replicate 4096 9)])
       {[1; 2]} ∅ ∅ {[2 := 1]} {[2]} ∅)
    machines_start (MkEnvironment [(true, []); (false, [1; 3])] [MkTurn [] [1; 2; 3; 4]] []) 4096 100 VacuumNone.
Lemma demo_pages : has_page 4096 (m_pages (pg_mem demo)) 2 /\ has_page 4096 (m_pages (pg_mem demo)) 4.
Proof. split; eexists; (split; [reflexivity|reflexivity]). Qed.
Lemma demo_ok : pager_ok demo [(3, [4])] {[2]} ∅.
Proof.
  assert (Hsz : size_of demo = 4) by done. assert (Hpz : page_sz demo = 4096) by done.
  split; change (free_ids [(3, [4])]) with [3; 4].
  - split; [rewrite Hpz; unfold page_sizes; rewrite !elem_of_cons; lia|done|done|constructor|done|by eexists|]. intros p. unfold pin_count. change (m_pins (pg_mem demo)) with ({[2 := 1]} : gmap Z Z).
    destruct (decide (p = 2)) as [->|]; [by rewrite lookup_singleton_eq|by rewrite lookup_singleton_ne].
  - split; change (m_pending (pg_mem demo)) with (∅ : gset Z); [set_solver..|]. change (top_page demo) with 4. intros p. unfold cached.
    change (m_cache (pg_mem demo)) with ({[1; 2]} : gset Z). rewrite elem_of_union, !elem_of_singleton. lia.
  - done.
  - split; change (free_ids [(3, [4])]) with [3; 4]; rewrite ?Hsz, ?Hpz; try done.
    + repeat constructor; set_solver.
    + rewrite !Forall_cons. split_and!; done || lia.
    + cbn [chain_ok]. split_and!; [|apply Forall_singleton, demo_pages|done]. eexists. split; [reflexivity|]. split; [reflexivity|]. split; [|done].
      split_and!; [done..|by apply Forall_singleton|]. by eexists.
    + change (m_overflow (pg_mem demo)) with ({[2]} : gset Z). rewrite !Forall_cons. set_solver.
  - intros p. rewrite Hsz, !elem_of_cons, elem_of_nil, elem_of_singleton, elem_of_empty. lia.
  - set_solver.
  - intros p. rewrite !elem_of_cons, elem_of_nil, elem_of_singleton, elem_of_empty. lia.
  - intros p ->%elem_of_singleton. apply demo_pages.
Qed.

(** * Properties *)

(** C11: [allocate_page] gives a page that nobody uses: in every state reached by allocations,
    releases and changes to pages in use, whatever the I/O layer and the cache do while the
    call waits, it ends without a panic; the page is none of those in use, set aside or page 1,
    it is in the cache, and no page in use changes; a free page is taken as long as there is one
    and is filled with zeros; otherwise the file grows by an ordinary page, neither the page of
    the pending byte nor a pointer-map page; and the only error is a full database. *)
Theorem allocate_page_safe s used aside :
  pager_reach s used aside ->
  wp (block allocate_page) s
    (fun p s' =>
       p ∉ used /\ p ∉ aside /\ p <> HEADER_PAGE_ID /\ ready s' p /\
       (forall q, q ∈ used -> m_pages (pg_mem s') !! q = m_pages (pg_mem s) !! q) /\
       if decide (0 < freelist_pages (pg_header s)) then
         p <= size_of s /\ size_of s' = size_of s /\ freelist_pages (pg_header s') = freelist_pages (pg_header s) - 1 /\
         m_pages (pg_mem s') !! p = Some (replicate (Z.to_nat (page_sz s)) 0)
       else
         size_of s < p /\ size_of s' = p /\ pending_byte_page_id s <> Some p /\
         (pg_auto_vacuum s = VacuumFull -> is_ptrmap_page p (page_sz s) = Ok false))
    (fun e _ => e = DatabaseFull /\ freelist_pages (pg_header s) = 0 /\ pg_max_page_count s < fresh_page s).
Proof.
  intros [T Hok]%reach_ok. pose proof Hok as [Hb _ _ Hf Hcov _ Hfo _]. pose proof (fresh_page_ordinary s Hb) as [Hnp Hnm]. pose proof (fresh_bounds s Hb).
  pose proof (fo_count _ _ Hf) as Hcnt. assert (Hids := pop_ids T). pose proof (bo_size s Hb).
  eapply wp_conseq; [by eapply allocate_run| |].
  2: { intros e s' (-> & -> & Hlt). by rewrite Hcnt. }
  intros p s' Hp. assert (Hfresh : p ∉ used /\ p ∉ aside /\ p <> HEADER_PAGE_ID).
  { pose proof (ap_list _ _ _ _ Hp) as Hl. unfold HEADER_PAGE_ID. destruct (pop T) as [[q T']|].
    - destruct Hl as (-> & _). assert (Hin : q ∈ free_ids T) by (rewrite Hids; by left). destruct (Hfo q Hin). split_and!; try done.
      assert (2 <= q <= size_of s); [apply Hcov; tauto|lia].
    - destruct Hl as (-> & _). split_and!; [| |lia]; intros Hin; assert (2 <= fresh_page s <= size_of s); (apply Hcov; tauto) || lia. }
  destruct Hfresh as (Hu & Ha & H1). split; [done|]. split; [done|]. split; [done|]. split; [apply Hp|]. split.
  - intros q Hq. apply (ap_frame _ _ _ _ Hp); [assert (2 <= q <= size_of s); [apply Hcov; by left|lia]|]. intros Hx%Hfo. by destruct Hx.
  - pose proof (ap_list _ _ _ _ Hp) as Hl. destruct (ap_page _ _ _ _ Hp) as (b & Hpb & _ & Hzero). destruct (pop T) as [[q T']|] eqn:Hpop.
    + destruct Hl as (-> & Hsz & Hf'). pose proof (fo_count _ _ Hf') as Hcnt'. apply Permutation_length in Hids as Hlen.
      rewrite decide_True by (rewrite Hcnt; unfold len; rewrite Hlen; cbn; lia). split_and!; [|done|..].
      * assert (2 <= q <= size_of s); [apply Hcov; right; left; rewrite Hids; by left|lia].
      * rewrite Hcnt', Hcnt. unfold len. rewrite Hlen. cbn [length]. lia.
      * rewrite Hpb, Hzero; [done|]. by intros ->.
    + destruct Hl as (-> & Hsz & _). subst T. rewrite decide_False by (rewrite Hcnt; unfold len; cbn; lia). split_and!; [lia|done..].
Qed.
Lemma allocate_page_safe_witness :
  pager_reach demo {[2]} ∅ /\
  wp (block allocate_page) demo (fun p s' => p ∉ ({[2]} : gset Z) /\ p <= 4 /\ m_pages (pg_mem s') !! 2 = Some (replicate 4096 7)) (fun _ _ => False).
Proof.
  assert (Hr := reach_open _ _ _ _ demo_ok). split; [exact Hr|]. eapply wp_conseq; [exact (allocate_page_safe demo {[2]} ∅ Hr)| |].
  - intros p s' (Hp & _ & _ & _ & Hq & Hfree). split; [exact Hp|]. rewrite (Hq 2) by (apply elem_of_singleton; reflexivity). split; [exact (proj1 Hfree)|reflexivity].
  - intros e s' (_ & Hz & _). discriminate Hz.
Defined.

(** C12: Releasing a page in use succeeds, whatever happens while the call waits: it ends without
    an error or a panic, the page is counted as free, the file keeps its size, no other page in
    use changes, and the pager is again in a state of which all this holds. *)
Theorem free_page_safe s used aside page p :
  pager_reach s used aside -> p ∈ used -> given s page p ->
  exists s', block (free_page page p) s = (Ok tt, s') /\ pager_reach s' (used ∖ {[p]}) aside /\ size_of s' = size_of s /\
    freelist_pages (pg_header s') = freelist_pages (pg_header s) + 1 /\
    forall q, q ∈ used -> q <> p -> m_pages (pg_mem s') !! q = m_pages (pg_mem s) !! q.
Proof.
  intros Hr Hp Hg. pose proof Hr as [T Hok]%reach_ok. pose proof Hok as [_ _ _ Hf Hcov _ Hfo _].
  assert (Hrun := free_run _ _ _ _ _ _ Hok Hp Hg). unfold wp in Hrun. destruct (block (free_page page p) s) as [[[]|e|] s'] eqn:He; [|done..].
  exists s'. split; [done|]. split; [by eapply reach_free|]. split; [apply Hrun|]. split.
  - rewrite (fo_count _ _ (fp_list _ _ _ _ Hrun)), (fo_count _ _ Hf). pose proof (free_ids_push (capacity s) p T) as Hids%Permutation_length.
    unfold len. rewrite Hids. cbn [length]. lia.
  - intros q Hq Hne. apply (fp_frame _ _ _ _ Hrun); [assert (2 <= q <= size_of s); [apply Hcov; by left|lia]|].
    rewrite not_elem_of_cons. split; [done|]. intros Hx%Hfo. by destruct Hx.
Qed.
Lemma free_page_safe_witness :
  given demo (Some 2) 2 /\ exists s', block (free_page (Some 2) 2) demo = (Ok tt, s') /\ freelist_pages (pg_header s') = 3.
Proof.
  assert (Hg : given demo (Some 2) 2) by (repeat split; vm_compute; done). split; [exact Hg|].
  destruct (free_page_safe demo {[2]} ∅ (Some 2) 2 (reach_open _ _ _ _ demo_ok) (proj2 (elem_of_singleton 2 2) eq_refl) Hg) as (s' & Hrun & _ & _ & Hc & _).
  exists s'. split; [exact Hrun|exact Hc].
Defined.

(** C13: No page is lost or counted twice: in every state reached, the chain of trunk pages in the
    file lists exactly the pages that are neither in use nor set aside, each once, and the
    header counts them. *)
Theorem pages_partitioned s used aside :
  pager_reach s used aside ->
  exists T, free_ok s T /\ (forall p, p ∈ free_ids T <-> 2 <= p <= size_of s /\ p ∉ used /\ p ∉ aside) /\
    freelist_pages (pg_header s) = size_of s - 1 - Z.of_nat (size used) - Z.of_nat (size aside).
Proof.
  intros [T [Hb _ _ Hf Hcov Hdis Hfo _]]%reach_ok. exists T. split; [done|]. split.
  - intros p. rewrite Hcov. specialize (Hfo p). tauto.
  - pose proof (bo_size s Hb). assert (Hall : list_to_set (seqZ 2 (size_of s - 1)) ≡@{gset Z} used ∪ (list_to_set (free_ids T) ∪ aside)).
    { intros p. specialize (Hcov p). rewrite !elem_of_union, !elem_of_list_to_set, elem_of_seqZ. rewrite <- Hcov. lia. }
    apply leibniz_equiv, (f_equal size) in Hall. rewrite size_list_to_set in Hall by apply NoDup_seqZ. rewrite length_seqZ in Hall.
    rewrite !size_union, size_list_to_set in Hall by first [apply Hf|clear - Hdis Hfo; set_solver].
    rewrite (fo_count _ _ Hf). unfold len. lia.
Qed.
Lemma pages_partitioned_witness :
  exists T, free_ok demo T /\ freelist_pages (pg_header demo) = 2.
Proof.
  destruct (pages_partitioned demo {[2]} ∅ (reach_open _ _ _ _ demo_ok)) as (T & Hf & _ & Hc). exists T. split; [exact Hf|exact Hc].
Defined.

(** C26: The pointer map is a map: after [ptrmap_put] for a page, which succeeds whatever happens
    while it waits, [ptrmap_get] gives the entry that was put for this page, and for every other
    page what it gave before. *)
Theorem ptrmap_put_get s p e :
  quiet s -> has_slot s p -> is_u 32 (parent_page_no e) ->
  exists s', block (ptrmap_put p e) s = (Ok tt, s') /\ quiet s' /\ (block (ptrmap_get p) s').1 = Ok (Some e) /\
    forall q, has_slot s q -> q <> p -> has_slot s' q /\ (block (ptrmap_get q) s').1 = (block (ptrmap_get q) s).1.
Proof.
  intros Hq Hp Hu. assert (Hrun := block_ptrmap_put s p Hq Hp e). unfold wp in Hrun. destruct (block (ptrmap_put p e) s) as [[[]|er|] s']; [|done..].
  assert (Hget : forall s q, quiet s -> has_slot s q -> (block (ptrmap_get q) s).1 = match entry_at s q with Some e => Ok (Some e) | None => Err Corrupt end).
  { intros s1 q Hq1 Hs1. assert (Hg := block_ptrmap_get s1 q Hq1 Hs1). unfold wp in Hg. destruct (block (ptrmap_get q) s1) as [[r|er|] s2]; [| |done].
    - by destruct Hg as (e' & -> & ->).
    - by destruct Hg as (-> & ->). }
  assert (Hslot := fun q => put_has_slot s p Hq Hp e s' q Hrun). pose proof (pp_quiet _ _ _ _ Hrun) as Hq'.
  exists s'. split; [done|]. split; [done|]. split; [rewrite Hget by auto; by rewrite (put_entry_at s p Hq Hp e)|]. intros q Hs Hne.
  split; [by apply Hslot|]. rewrite !Hget by auto. by rewrite (put_entry_at_other s p Hq Hp e).
Qed.
Lemma demo_slot : quiet demo /\ has_slot demo 3.
Proof.
  pose proof demo_ok as [Hb Hm Hmach _ _ _ _ _]. split; [by split_and!|]. split; [|split; [done|apply demo_pages]]. split_and!; done.
Qed.
Lemma ptrmap_put_get_witness :
  exists s', block (ptrmap_put 3 (MkEntry BTreeNode 77)) demo = (Ok tt, s') /\ (block (ptrmap_get 3) s').1 = Ok (Some (MkEntry BTreeNode 77)).
Proof.
  destruct (ptrmap_put_get demo 3 (MkEntry BTreeNode 77) (proj1 demo_slot) (proj2 demo_slot)) as (s' & Hput & _ & Hget & _); [vm_compute; done|].
  exists s'. split; [exact Hput|exact Hget].
Defined.

(** A database of one gigabyte in pages of 1024 bytes, with full auto-vacuum. *)
Definition with_page_size_of (n : Z) (h : DatabaseHeader) : DatabaseHeader := {|
  magic := magic h; page_size := n; write_version := write_version h; read_version := read_version h;
  reserved_space := reserved_space h; max_embed_frac := max_embed_frac h; min_embed_frac := min_embed_frac h;
  leaf_frac := leaf_frac h; change_counter := change_counter h; database_size := database_size h; freelist_trunk_page := freelist_trunk_page h;
  freelist_pages := freelist_pages h; schema_cookie := schema_cookie h; schema_format := schema_format h;
  default_page_cache_size := default_page_cache_size h; vacuum_mode_largest_root_page := vacuum_mode_largest_root_page h;
  text_encoding := text_encoding h; user_version := user_version h; incremental_vacuum_enabled := incremental_vacuum_enabled h;
  application_id := application_id h; padding := padding h; version_valid_for := version_valid_for h; version_number := version_number h |}.
Definition gigabyte : Pager :=
  MkPager (with_page_size_of 1024 (with_sizes 1048576 0 0 DatabaseHeader_default))
    (MkMemory {[1 := replicate 1024 0]} {[1]} ∅ ∅ ∅ ∅ ∅) machines_start (MkEnvironment [] [] []) 1024 (2 ^ 32 - 2) VacuumFull.
(** C16: With pages of 1024 bytes and full auto-vacuum the page of the pending byte, which is never
    to be used, is a pointer-map page: when a database of one gigabyte grows, [allocate_page]
    puts that page into the cache and marks it dirty as the pointer-map page of the new one, and
    it becomes part of the file. *)
Theorem pending_page_used :
  pending_byte_page_id gigabyte = Some 1048577 /\ is_ptrmap_page 1048577 (page_sz gigabyte) = Ok true /\
  exists s', block allocate_page gigabyte = (Ok 1048578, s') /\ size_of s' = 1048578 /\
    1048577 ∈ m_dirty (pg_mem s') /\ ready s' 1048577 /\
    get_ptrmap_page_no_for_db_page 1048578 (page_sz s') = Ok 1048577.
Proof.
  split; [reflexivity|]. split; [vm_compute; reflexivity|]. eexists. split; [vm_compute; reflexivity|]. split; [reflexivity|].
  split; [vm_compute; reflexivity|]. split; [split; vm_compute|]; done.
Qed.
